(* ===== verification/_CoqProject ===== *)
-Q . S2P
Prelude.v
Glob.v
Hash.v
SpoolTypes.v
Frame.v
Fs.v
GoStrings.v
Segment.v
Sidecar.v
Recover.v
Durability.v
Compact.v
Ack.v
GoTime.v
Json.v
JsonText.v
GoNet.v
GoPath.v
GoJson.v
GoMarshal.v
MemberOrder.v
WireTypes.v
StrictDecode.v
Batch.v
Sendable.v
GoLit.v
RootPolicy.v
Consent.v
SeqSet.v
Ledger.v
Fields.v
ContentGuard.v
BeadSecret.v
BeadPrefix.v
Validate.v
Evidence.v
Sealed.v
Policy.v
Placeholder.v
Fence.v
FenceRun.v
FenceCases.v
SpoolStore.v
Retry.v
Client.v
Drain.v
Reserves.v
Capacity.v
WalEnds.v
Writer.v
Stored.v
Registry.v
Protocol.v
Startup.v
History.v
Local.v
Lines.v
Regex.v
RefExtract.v
RefFacts.v
Transcript.v
Rollout.v
Claude.v
Parser.v
ParseSplit.v
ParseCount.v
Numbered.v
FoldFacts.v
Cursor.v
CursorFacts.v
CursorStore.v
CursorSave.v
UsageAxis.v
UsageFacts.v
Sink.v
SinkFacts.v
RootState.v
SealFacts.v
Tail.v
TailFacts.v
