(* ===== verification/Prelude.v ===== *)
(** * A verification library for the gasworks Observer endpoint

    Gasworks ships a local daemon, the Observer, which captures content-free evidence about coding-agent
    runs on a developer's machine and uploads it to a Collector. This library models the part of it in
    which a mistake loses or leaks data: following the transcripts the owner consented to, building
    observations under a metadata-only policy, accepting them on a local socket, making them durable in a
    write-ahead log, and delivering them exactly as they were logged, or withholding them when the consent
    is gone. Source paths below are under [src/internal/observer/] unless they start with [internal/].

    ** How the parts work together

    The owner's document says which roots may be read ([RootPolicy], served by [Consent]). For each of them the
    watcher keeps floors below which nothing is published ([RootState]) and polls each transcript ([Tail]):
    its cursor ([Cursor], [CursorStore]) reads what was appended, the parser ([Parser] over [Rollout] and
    [Claude]) turns lines into candidates with the references found in them ([RefExtract]), and the sink
    ([Sink]) delivers those in order; the cursor moves over what was delivered.

    A producer (wrapper, hook or transcript watcher) gives the policy transform a raw candidate; it comes
    back as a pending observation without content, or as a content-free diagnostic ([Policy], over the
    constructors of [Evidence] and the field checks of [Fields]). The client seals it with a placeholder
    sequence. The daemon decodes it strictly ([StrictDecode]), stamps the next sequence and an id on it,
    writes its canonical form ([Json]) as one frame of the active segment ([Frame], [Segment]) and answers
    after the sync ([Writer]). The upload loop asks the planner for the next batch, from the durable
    watermark on, with at most one batch in flight ([Ack], [Batch], [SpoolStore]), delivers it with bounded
    retries ([Retry]) through one HTTP client ([Client]) and moves the watermark when the Collector
    acknowledged ([Drain]). Before each send the fence ([Fence]) decides which frames of the batch are still
    within consent and puts a placeholder for the others ([Placeholder]). Acknowledged segments are evicted
    ([Compact]), and startup recovers the log from any crash ([Recover], [Writer], [Startup]).

    ** The model

    - State and disk ([Fs]). A disk is three directories of byte files. Every operation that touches it
      is [IO]: from a disk to the list of disks a crash could leave in between, a result, and the final
      disk. Which call fails is an oracle [env] over operations and names, so that a theorem over every
      [env] is a theorem over every combination of faults, short writes included; a theorem over the
      list of intermediate disks is one over every crash point. A rename is atomic, an unsynced write may
      be cut anywhere, the lock and the clock are values of [env]. A file whose sync would have failed is not
      durable, so an append that acknowledged without it may be lost with the power ([History.StepPower]).
    - Concurrency. Methods under a mutex are single steps; interleavings are sequences of steps
      ([Ack.ack_step], [History.spool_step], the steps of [FenceRun]).
    - Integers are [Z]; where the code's [int64] could wrap, [i64] is written out ([Prelude]).
    - Errors are values: [result] carries a spool, batch, retry, JSON or build error as the code's error
      types do, without texts of wrapped errors.
    - Go's libraries: [GoStrings] (strings, strconv), [GoTime] (RFC 3339), [GoNet] (url, addresses),
      [GoPath] (path, FieldsFunc), [Json]/[JsonText]/[GoJson]/[GoMarshal]/[MemberOrder] ([encoding/json] v1: parsing,
      reflection-driven decoding with case-insensitive fields, strictness, marshalling), [GoLit] (struct
      literals). CRC-32C and SHA-256 are executable ([Hash]).

    ** Files and sources

    - [Hash], [SpoolTypes], [Frame]: [spool/frame.go].
    - [Fs], [Segment]: [spool/segment.go] and its file helpers.
    - [Sidecar], [Recover], [Durability]: [spool/recover.go].
    - [Compact]: [spool/compact.go]. [Ack]: [spool/ack.go]. [Reserves], [Capacity]: [spool/capacity.go].
    - [WalEnds]: shapes of a log and its crash states, used by [Writer].
    - [Writer], [Startup], [History]: [SpoolWriter] of [local/server_unix.go].
    - [Protocol]: [local/protocol_unix.go]. [Local]: the rest of [local/server_unix.go] (one connection, dispatch,
      paths) and [local/client_unix.go].
    - [Stored]: what the socket server validates against what the writer stores.
    - [Registry]: [daemon/registry.go].
    - [WireTypes], [StrictDecode], [Sendable]: [wire/observer.gen.go], [wire/strictdecode.go],
      [wire/enumcheck.go], [wire/errors.go]. [Json]: also [wire/canonical.go].
    - [Batch], [SpoolStore]: [upload/batch.go]. [Retry]: [upload/retry.go]. [Client]: [upload/client.go].
      [Drain]: [uploadLoop.drain] of [daemon/service.go].
    - [Fields], [BeadPrefix], [Evidence]: [evidence/types.go]. [BeadSecret]: [evidence/beadsecret.go].
      [Validate]: [evidence/validate.go]. [Policy]: [evidence/policy.go]. [Sealed] relates them to [wire].
    - [Glob], [ContentGuard]: [contentguard/]. [RootPolicy]: [rootpolicy/policy.go]. [Consent]: [consent/consent.go].
    - [SeqSet], [Ledger], [Placeholder], [Fence], [FenceRun], [FenceCases]: [daemon/consent_fence.go]: its sets,
      its file, the frame it uploads instead, its operations, its runs as a step relation, runs evaluated.
    - [Regex], [RefExtract], [RefFacts]: [adapter/codex/extract.go].
    - [Transcript], [Rollout], [Claude], [Parser]: [transcript_state.go], [rollout.go], [claude.go] and [parser.go]
      of [adapter/codex/]; [Lines], [ParseSplit], [ParseCount], [Numbered], [FoldFacts]: what a parse yields.
    - [Cursor], [CursorFacts], [CursorStore], [CursorSave]: [adapter/codex/cursor.go], in memory and on disk.
    - [RootState], [SealFacts]: [adapter/codex/root_policy.go]. [Tail], [TailFacts]: [drain] of
      [adapter/codex/watch.go] and the functions it calls.
    - [Sink], [SinkFacts]: [daemon/sink.go], [daemon/partial_sink.go].
    - [UsageAxis], [UsageFacts]: [internal/usageaxis/], of the forwarder, outside the Observer.

    ** What the theorems show

    - Nothing acknowledged is lost: over histories of appends that succeed or fail, crashes, power failures,
      starts under any faults and watermark moves ([History.acknowledged_survive], whose comment names the steps
      left out), by crash triples for each operation ([Segment.Append_spec],
      [Recover.recover_preserves], [Compact.Compact_keeps], [Ack.Acknowledge_spec]) and the frame and
      segment codecs' exactness ([Frame], [Segment], [Sidecar]).
    - An acknowledgement means that: a client of the socket that gets one, over a connection that may lose any
      suffix of either message, knows that its observation is the one frame the log grew by, synced
      ([Local.capture_durable]).
    - What is delivered is what was logged, in order, without gaps ([Drain.drain_spec]), by a refinement of
      an abstract frame store ([Batch.FrameStoreLaws], [SpoolStore.SpoolFrameStore_reads]) and the
      delivery loop's contract ([Retry.Deliver_spec], [Client.Deliver_through_client]).
    - What the endpoint makes is what the Collector accepts: the constructors' output, sealed, stamped and
      batched, passes the strict decoder and the validator ([Sealed], [Stored], [Sendable], [Validate]).
    - The daemon's projection means the same live and after a restart ([Registry.ReplayWAL_live]), and a run
      that ended never resolves as open ([Registry.Fold_projects]).
    - No content leaves: the policy transform is total, fails closed and does not depend on forbidden
      fields ([Policy]); bead ids that look like credentials are recognised ([BeadSecret]).
    - Consent bounds what is sent: the live policy never grants more than the owner's last valid document
      ([Consent.consent_never_exceeds]); over any run of the fence, with crashes and restarts, the Collector is
      shown one payload per sequence ([FenceRun.one_payload_per_sequence]) and, of a frame whose consent the run
      knows and the newest policy no longer covers when its batch is made, the placeholder only
      ([FenceRun.withdrawn_hidden]); a clean shutdown hands the decisions over ([Fence.shutdown_handover]);
      the placeholder sent instead carries nothing of the content ([Placeholder.placeholder_noninterference]).
    - The guard's patterns mean what they mean to Python ([Glob.globMatch_matches]; on classes with a caret or with
      chained ranges the two differ); a commit is captured exactly where a git anchor precedes it
      ([RefFacts.extractCommits_anchored]), and the references kept are those the admitter lets through
      ([RefFacts.ExtractReferences_bounded]).
    - A transcript is billed once and in full: what is billed depends on the file and not on how its growth is
      cut ([ParseSplit.parse_split]), no response is counted twice over reads, partial deliveries and flushes
      ([CursorFacts.run_counts_once]), over crashes in the middle of a save and the loss of the sidecar
      ([CursorSave.save_crash_safe]; the [standing] of a cursor says when its sidecar can be believed), over an upgrade
      ([FoldFacts.fold_matches_parse]), nor by the sink that appends it ([SinkFacts.delivered_once]);
      and no poll that fails loses any of it ([TailFacts.no_loss], while the file grows and its lines are short).
    - What a transcript held before consent is not published: a fence over a sealed prefix is lowered by nothing
      but its own identity ([SealFacts.fence_stands], [SealFacts.seal_restarts]), and a poll is the same whatever
      the bytes below the floor are ([TailFacts.sealed_prefix_private]).
    - The usage axis forwards each fact of its ledger under one number ([UsageFacts.usage_forwarded]).

    ** Bounds and fuel

    Loops that follow data are structural or run on fuel computed from it: the frame scans take the
    length of the file plus one, the JSON parser and escaper the length of the text, the drain one more
    than the number of unacknowledged frames, the delivery loop the policy's attempts. That the fuel is
    enough is part of the theorems ([Recover.recover_terminates], [Drain.drain_spec]) or of the lemmas
    [parse_written] and [open_scan_complete]; running out is an error of its own and shown not to happen.

    ** Not modelled

    - The bodies of error messages; log output; metrics; timeouts and cancellation other than as an
      oracle of the delivery loop; the network below one HTTP exchange; TLS.
    - [encoding/json]: the nesting limit of 10000, floats (no wire type has one), escapes inside
      timestamps, duplicate keys when a frame is classified for the reserve scan.
    - [http.ParseTime] is a parameter of [Client]; times with a zone offset of seconds do not occur.
    - Defensive copies: values here cannot alias. The order [sort.Slice] gives equal elements does not
      matter where it is used.
    - The paths above the three directories of a disk, their modes and the process lock.
    - Of the transcript adapter: discovering and reconciling roots, project membership and its watch, hooks,
      attachment, lineage and opening files, which are directory walks and platform calls around what is
      modelled; of the daemon: the content lane, and the goroutines and timers that call the operations.
    - The consent fence in [Drain], which models the pass without one; the pass with one is the upload lane
      of [FenceRun].
    - The events and recall axes of the forwarder, process supervision, the command-line clients, credentials
      and key custody: mostly operating-system calls and HTTP around library code.

    ** Interfaces and assumptions

    - [Batch.FrameStoreLaws] (what the planner needs of the log) is discharged by [SpoolStore] for the spool.
      [Retry]'s network, [Client]'s server, [Sink]'s daemon and [RefExtract]'s [Host] are classes whose every
      instance the theorems quantify over. [Tail]'s [Watch] has laws, discharged in [TailFacts] by an instance
      made of the sink and the cursor's files.
    - In [FenceRun] the frames of the log only grow, which [Startup] and [History] show of the writer, and a
      shutdown record whose write reports a failure left the old ledger in place; [FenceCases] shows what happens
      otherwise.
    - A state file of a cursor, a root's control record or the usage axis stands for the value it decodes to
      and is replaced atomically, though a write that replaced it may report a failure; the sidecar of counted ids
      is bytes, and a write of it may stop anywhere.
    - The reads of one poll of a transcript see the same bytes. Between polls the transcript of
      [TailFacts.no_loss] grows; that of [TailFacts.sealed_prefix_private] is any. File offsets are [Z] without wrap.
*)

From stdpp Require Export base list gmap strings sorting.
From Stdlib Require Export ZArith Lia.
From Stdlib Require Export Strings.Byte.

Global Set Default Goal Selector "!".
Global Open Scope Z_scope.

(** ** Results: Go's [(value, error)] pairs *)

Inductive result (E A : Type) : Type :=
| Ok (a : A)
| Err (e : E).
Arguments Ok {E A} a.
Arguments Err {E A} e.

#[export] Instance result_ret {E} : MRet (result E) := fun A a => Ok a.
#[export] Instance result_bind {E} : MBind (result E) := fun A B f m =>
  match m with Ok a => f a | Err e => Err e end.
#[export] Instance result_eq_dec {E A} `{EqDecision E} `{EqDecision A} : EqDecision (result E A).
Proof. solve_decision. Defined.

#[export] Instance Ok_inj {E A} : Inj eq eq (@Ok E A).
Proof. by intros x y [= ->]. Qed.

Definition is_ok {E A} (r : result E A) : bool := match r with Ok _ => true | Err _ => false end.

Lemma bind_Ok {E A B} (m : result E A) (f : A -> result E B) b :
  m ≫= f = Ok b <-> exists a, m = Ok a /\ f a = Ok b.
Proof. destruct m as [a|e]; cbn; split; [eauto | by intros (?&[=->]&?) | done | by intros (?&?&?)]. Qed.

Lemma bind_Err {E A B} (m : result E A) (f : A -> result E B) e :
  m ≫= f = Err e <-> m = Err e \/ exists a, m = Ok a /\ f a = Err e.
Proof.
  destruct m as [a|e']; cbn; split.
  - eauto.
  - by intros [?|(?&[=->]&?)].
  - intros [=->]. auto.
  - by intros [[=->]|(?&?&?)].
Qed.

(** ** Bytes *)

#[export] Instance byte_eq_dec : EqDecision byte := Byte.byte_eq_dec.
#[export] Instance byte_inhabited : Inhabited byte := populate x00.
#[export] Program Instance byte_countable : Countable byte :=
  inj_countable Byte.to_N Byte.of_N _.
Next Obligation. intros b. apply Byte.of_to_N. Qed.

Abbreviation bytes := (list byte).

(** A Go string literal as its UTF-8 bytes. *)
Definition str (s : String.string) : bytes := String.list_byte_of_string s.

Definition bZ (b : byte) : Z := Z.of_N (Byte.to_N b).
Definition Zb (z : Z) : byte :=
  match Byte.of_N (Z.to_N (z mod 256)) with Some b => b | None => x00 end.

Lemma bZ_range b : 0 <= bZ b < 256.
Proof. unfold bZ. pose proof (Byte.to_N_bounded b). lia. Qed.

Lemma bZ_Zb z : bZ (Zb z) = z mod 256.
Proof.
  unfold Zb, bZ. pose proof (Z.mod_pos_bound z 256 ltac:(lia)).
  destruct (Byte.of_N (Z.to_N (z mod 256))) as [b|] eqn:E.
  - apply Byte.to_of_N in E. rewrite E. lia.
  - apply Byte.of_N_None_iff in E. lia.
Qed.

Lemma Zb_bZ b : Zb (bZ b) = b.
Proof.
  unfold Zb. rewrite Z.mod_small by apply bZ_range.
  unfold bZ. by rewrite N2Z.id, Byte.of_to_N.
Qed.

Lemma bZ_inj b c : bZ b = bZ c -> b = c.
Proof. intros H. rewrite <-(Zb_bZ b), <-(Zb_bZ c). by rewrite H. Qed.

(** ** Lengths *)

Definition zlen {A} (l : list A) : Z := Z.of_nat (length l).

Lemma zlen_nonneg {A} (l : list A) : 0 <= zlen l.
Proof. unfold zlen. lia. Qed.

Lemma zlen_app {A} (l k : list A) : zlen (l ++ k) = zlen l + zlen k.
Proof. unfold zlen. rewrite length_app. lia. Qed.

(** ** Slices: Go's [data[off:off+n]] (within bounds) *)

Definition slice {A} (off n : nat) (l : list A) : list A := take n (drop off l).

Lemma slice_app_r {A} off n (a l : list A) :
  (length a <= off)%nat -> slice off n (a ++ l) = slice (off - length a) n l.
Proof. intros H. unfold slice. by rewrite drop_app_ge. Qed.

Lemma slice_0 {A} n (a l : list A) : length a = n -> slice 0 n (a ++ l) = a.
Proof. intros <-. unfold slice. rewrite drop_0. apply take_app_length. Qed.

Lemma slice_all {A} n (a : list A) : length a = n -> slice 0 n a = a.
Proof. intros <-. unfold slice. rewrite drop_0. apply firstn_all. Qed.

Lemma slice_app_l {A} off n (a l : list A) :
  (off + n <= length a)%nat -> slice off n (a ++ l) = slice off n a.
Proof.
  intros H. unfold slice. rewrite drop_app_le by lia.
  rewrite take_app_le; [done|]. rewrite length_drop. lia.
Qed.

Lemma length_slice {A} off n (l : list A) :
  (off + n <= length l)%nat -> length (slice off n l) = n.
Proof. intros H. unfold slice. rewrite length_take, length_drop. lia. Qed.

Lemma slice_take {A} off n m (l : list A) :
  (off + n <= m)%nat -> slice off n (take m l) = slice off n l.
Proof.
  intros H. unfold slice. rewrite skipn_firstn_comm, take_take. f_equal. lia.
Qed.

(** ** Fixed-width integers *)

(** Two's-complement 64-bit wrap-around ([int64] arithmetic) and the unsigned conversion. *)
Definition i64 (z : Z) : Z := (z + 2^63) mod 2^64 - 2^63.
Definition u64 (z : Z) : Z := z mod 2^64.
Definition u32 (z : Z) : Z := z mod 2^32.
Definition MaxInt64 : Z := 2^63 - 1.
Definition in_i64 (z : Z) : Prop := - 2^63 <= z <= MaxInt64.

Lemma i64_id z : in_i64 z -> i64 z = z.
Proof. unfold in_i64, MaxInt64, i64. intros H. rewrite Z.mod_small; lia. Qed.

Lemma i64_range z : in_i64 (i64 z).
Proof. unfold in_i64, MaxInt64, i64. pose proof (Z.mod_pos_bound (z + 2^63) (2^64) ltac:(lia)). lia. Qed.

Lemma i64_u64 z : i64 (u64 z) = i64 z.
Proof. unfold i64, u64. by rewrite Zplus_mod_idemp_l. Qed.

(** ** Big-endian integers ([binary.BigEndian]) *)

Fixpoint be_enc (n : nat) (z : Z) : bytes :=
  match n with
  | O => []
  | S n' => be_enc n' (z / 256) ++ [Zb z]
  end.

Definition be_dec (l : bytes) : Z := fold_left (fun acc b => acc * 256 + bZ b) l 0.

Lemma length_be_enc n z : length (be_enc n z) = n.
Proof. revert z. induction n as [|n IH]; intros z; cbn; [done|]. rewrite length_app, IH. cbn. lia. Qed.

Lemma be_dec_snoc l b : be_dec (l ++ [b]) = be_dec l * 256 + bZ b.
Proof. unfold be_dec. by rewrite fold_left_app. Qed.

Lemma be_dec_range l : 0 <= be_dec l < 256 ^ zlen l.
Proof.
  induction l as [|b l IH] using rev_ind; [change (0 <= 0 < 1); lia|].
  rewrite be_dec_snoc, zlen_app. change (zlen [b]) with 1.
  rewrite Z.pow_add_r by (pose proof (zlen_nonneg l); lia).
  pose proof (bZ_range b). lia.
Qed.

Lemma be_dec_enc n z : be_dec (be_enc n z) = z mod 256 ^ Z.of_nat n.
Proof.
  revert z. induction n as [|n IH]; intros z; [cbn; by rewrite Z.mod_1_r|].
  cbn [be_enc]. rewrite be_dec_snoc, IH, bZ_Zb.
  assert (0 < 256 ^ Z.of_nat n) by (apply Z.pow_pos_nonneg; lia).
  rewrite Nat2Z.inj_succ, Z.pow_succ_r, Z.rem_mul_r by lia. lia.
Qed.

Lemma be_dec_enc_id n z : 0 <= z < 256 ^ Z.of_nat n -> be_dec (be_enc n z) = z.
Proof. intros H. rewrite be_dec_enc. by apply Z.mod_small. Qed.

Lemma be_enc_dec l : be_enc (length l) (be_dec l) = l.
Proof.
  induction l as [|b l IH] using rev_ind; [done|].
  rewrite length_app, Nat.add_comm. cbn [length Nat.add be_enc].
  rewrite be_dec_snoc. pose proof (bZ_range b).
  rewrite Z.div_add_l, (Z.div_small (bZ b)), Z.add_0_r by lia. rewrite IH. f_equal. f_equal.
  apply bZ_inj. rewrite bZ_Zb, Z.add_comm, Z.mod_add, Z.mod_small by lia. done.
Qed.

Lemma be_dec_inj l k : length l = length k -> be_dec l = be_dec k -> l = k.
Proof. intros Hl Hd. by rewrite <-(be_enc_dec l), Hl, Hd, be_enc_dec. Qed.

(** ** Automation *)

Create Rewrite HintDb len.
#[export] Hint Rewrite @length_app @length_be_enc @length_take @length_drop @length_insert : len.

(** Solve arithmetic over list lengths. *)
Ltac len :=
  try unfold zlen in *; autorewrite with len in *; cbn [length] in *; lia.

(** Compute a [slice] out of a concatenation whose pieces have known lengths. *)
Ltac slices :=
  repeat first
    [ rewrite slice_0 by len
    | rewrite slice_all by len
    | rewrite slice_app_r by len; autorewrite with len; cbn [Nat.sub length]
    | rewrite slice_app_l by len ].

(** Case analysis on the scrutinee of the goal's or a hypothesis' first [match]. *)
Ltac case_step :=
  match goal with
  | |- context [match ?x with _ => _ end] => destruct x eqn:?
  | H : context [match ?x with _ => _ end] |- _ => destruct x eqn:?
  end.

Ltac bool_to_prop :=
  repeat match goal with
  | H : (_ && _) = true |- _ => apply andb_prop in H as [? ?]
  | H : (_ || _) = false |- _ => apply orb_false_elim in H as [? ?]
  | H : (_ || _) = true |- _ => apply orb_prop in H
  | H : negb _ = true |- _ => apply negb_true_iff in H
  | H : negb _ = false |- _ => apply negb_false_iff in H
  | H : (_ <? _) = true |- _ => apply Z.ltb_lt in H
  | H : (_ <? _) = false |- _ => apply Z.ltb_ge in H
  | H : (_ <=? _) = true |- _ => apply Z.leb_le in H
  | H : (_ <=? _) = false |- _ => apply Z.leb_gt in H
  | H : (_ =? _) = true |- _ => apply Z.eqb_eq in H
  | H : (_ =? _) = false |- _ => apply Z.eqb_neq in H
  | H : bool_decide _ = true |- _ => apply bool_decide_eq_true_1 in H
  | H : bool_decide _ = false |- _ => apply bool_decide_eq_false_1 in H
  end.

(** ** List updates *)

Lemma be_dec_insert_ne l i b c : l !! i = Some b -> b <> c -> be_dec (<[i:=c]> l) <> be_dec l.
Proof.
  intros Hi Hbc E. apply be_dec_inj in E; [|by rewrite length_insert].
  apply Hbc. assert (H : <[i:=c]> l !! i = l !! i) by by rewrite E.
  rewrite list_lookup_insert_eq in H by (by eapply lookup_lt_Some). congruence.
Qed.

Lemma slice_insert_in {A} off n i (c : A) l :
  (off <= i)%nat -> (i < off + n)%nat -> slice off n (<[i:=c]> l) = <[(i - off)%nat:=c]> (slice off n l).
Proof.
  intros H1 H2. unfold slice. rewrite drop_insert_ge by done.
  by rewrite take_insert_lt by lia.
Qed.

Lemma slice_insert_out {A} off n i (c : A) l :
  (i < off \/ off + n <= i)%nat -> slice off n (<[i:=c]> l) = slice off n l.
Proof.
  intros [H|H]; unfold slice.
  - by rewrite drop_insert_lt.
  - destruct (decide (off <= i)%nat); [|lia]. rewrite drop_insert_ge by done.
    by rewrite take_insert_ge by lia.
Qed.

(** ** Reassembling a list from its slices *)

Lemma take_slice {A} a n (l : list A) : take (a + n) l = take a l ++ slice a n l.
Proof. unfold slice. symmetry. apply take_take_drop. Qed.

Lemma slice_be off n l v : (off + n <= length l)%nat -> be_dec (slice off n l) = v -> slice off n l = be_enc n v.
Proof. intros H <-. rewrite <-(length_slice off n l H) at 2. by rewrite be_enc_dec. Qed.

Lemma slice_1 {A} i (l : list A) b : l !! i = Some b -> slice i 1 l = [b].
Proof. intros H. unfold slice. by rewrite (drop_S _ _ _ H). Qed.

Lemma nth_lookup_lt {A} i (l : list A) d : (i < length l)%nat -> l !! i = Some (nth i l d).
Proof.
  intros H. rewrite nth_lookup. destruct (l !! i) eqn:E; [done|].
  apply lookup_ge_None in E. lia.
Qed.

(** ** Filtering lists *)

Lemma filter_all {A} (P : A -> Prop) `{forall x, Decision (P x)} (l : list A) : Forall P l -> filter P l = l.
Proof. induction 1; [done|]. rewrite filter_cons_True by done. by f_equal. Qed.

Lemma filter_none {A} (P : A -> Prop) `{forall x, Decision (P x)} (l : list A) : Forall (fun x => ~ P x) l -> filter P l = [].
Proof. induction 1; [done|]. by rewrite filter_cons_False. Qed.

Lemma filter_map {A B} (f : A -> B) (P : B -> Prop) (Q : A -> Prop)
    `{forall x, Decision (P x)} `{forall x, Decision (Q x)} (l : list A) :
  (forall x, Q x <-> P (f x)) -> f <$> filter Q l = filter P (f <$> l).
Proof.
  intros HPQ. induction l as [|x l IH]; [done|]. cbn [fmap list_fmap]. destruct (decide (P (f x))) as [Hp|Hp].
  - rewrite !filter_cons_True by (first [exact Hp|by apply HPQ]). cbn [fmap list_fmap]. by f_equal.
  - assert (~ Q x) by (by intros ?%HPQ). by rewrite !filter_cons_False.
Qed.

Lemma filter_twice {A} (P Q R : A -> Prop) `{forall x, Decision (P x)} `{forall x, Decision (Q x)}
    `{forall x, Decision (R x)} (l : list A) :
  (forall x, R x <-> P x /\ Q x) -> filter P (filter Q l) = filter R l.
Proof.
  intros HR. induction l as [|x l IH]; [done|]. destruct (decide (Q x)).
  - rewrite (filter_cons_True Q) by done. destruct (decide (P x)).
    + assert (R x) by (by apply HR). rewrite !filter_cons_True by done. by f_equal.
    + assert (~ R x) by (by intros [? ?]%HR). by rewrite !filter_cons_False.
  - assert (~ R x) by (by intros [? ?]%HR). by rewrite !filter_cons_False.
Qed.
