(* ===== verification/Glob.v ===== *)
(** * The guard's glob matcher

    [internal/observer/contentguard/fnmatch.go]: the two-pointer matcher with one backtrack point, over
    indices of the name and the pattern, and what it computes: the pattern read as a list of elements, each
    a run of anything or one byte of a set, matched by trying every split. The elements are those Python's
    [fnmatch] reads, which the file's header promises, on every pattern whose classes are [plain]; on others
    the classes of the code are not Python's, as examples show. *)

From S2P Require Import Prelude.

(** ** The code *)

(** The loop of [matchClass] from [pat[j]]: whether [ch] is in the class, the index after it, and whether
    the class is closed. [None]: out of fuel. *)
Fixpoint class_loop (fuel : nat) (pat : bytes) (pi start j : nat) (negate found : bool) (ch : byte) : option (bool * nat * bool) :=
  match pat !! j with
  | None => Some (false, pi, false)
  | Some c =>
      match fuel with
      | O => None
      | S fuel' =>
          if bool_decide (c = x5d) && (start <? j)%nat then Some (if negate then negb found else found, S j, true)
          else
            match pat !! pred j, pat !! S j with
            | Some lo, Some hi =>
                if bool_decide (c = x2d) && (start <? j)%nat && negb (bool_decide (hi = x5d))
                then class_loop fuel' pat pi start (2 + j) negate (if (bZ lo <=? bZ ch) && (bZ ch <=? bZ hi) then true else found) ch
                else class_loop fuel' pat pi start (S j) negate (if bool_decide (c = ch) then true else found) ch
            | _, _ => class_loop fuel' pat pi start (S j) negate (if bool_decide (c = ch) then true else found) ch
            end
      end
  end.

Definition matchClass (pat : bytes) (pi : nat) (ch : byte) : option (bool * nat * bool) :=
  let j := S pi in
  let negate := match pat !! j with Some c => bool_decide (c = x21 \/ c = x5e) | None => false end in
  let j := if negate then S j else j in
  class_loop (length pat) pat pi j j negate false ch.

(** The state of the matcher; no backtrack point is [star = -1]. *)
Record cursor : Type := mkCursor {
  ni : nat;
  pi : nat;
  star : option nat;
  starName : nat;
}.

Definition backtrack (c : cursor) : option cursor :=
  s ← star c; Some (mkCursor (S (starName c)) (S s) (Some s) (S (starName c))).

Definition advance (c : cursor) (next : nat) : cursor := mkCursor (S (ni c)) next (star c) (starName c).

(** One turn of the loop on [name[ni] = ch]: the next state, or the answer; [None] out of fuel. *)
Definition glob_step (pat : bytes) (c : cursor) (ch : byte) : option (option cursor) :=
  match pat !! pi c with
  | None => Some (backtrack c)
  | Some p =>
      if bool_decide (p = x2a) then Some (Some (mkCursor (ni c) (S (pi c)) (Some (pi c)) (ni c)))
      else if bool_decide (p = x3f) then Some (Some (advance c (S (pi c))))
      else if bool_decide (p = x5b) then
        '(matched, next, ok) ← matchClass pat (pi c) ch;
        Some (if ok : bool then (if matched : bool then Some (advance c next) else backtrack c)
              else if bool_decide (ch = x5b) then Some (advance c (S (pi c))) else backtrack c)
      else Some (if bool_decide (p = ch) then Some (advance c (S (pi c))) else backtrack c)
  end.

(** What follows the loop: the rest of the pattern is all stars. *)
Fixpoint all_stars (pat : bytes) : bool :=
  match pat with [] => true | p :: r => bool_decide (p = x2a) && all_stars r end.

Fixpoint glob_loop (fuel : nat) (name pat : bytes) (c : cursor) : option bool :=
  match name !! ni c with
  | None => Some (all_stars (drop (pi c) pat))
  | Some ch =>
      match fuel with
      | O => None
      | S fuel' =>
          match glob_step pat c ch with
          | None => None
          | Some None => Some false
          | Some (Some c') => glob_loop fuel' name pat c'
          end
      end
  end.

Definition glob_fuel (name pat : bytes) : nat := (length name + 2) * (length pat + 2).

Definition globMatch (name pat : bytes) : option bool := glob_loop (glob_fuel name pat) name pat (mkCursor 0 0 None 0).

Definition fnmatch (name pattern : bytes) : bool := bool_decide (globMatch name pattern = Some true).

(** ** What a pattern means to the code *)

Inductive element : Type := Run | One (holds : byte -> bool).

(** The members of a class as ranges and what follows its closing bracket; [prev] is the member before. *)
Fixpoint members (prev : option byte) (l : bytes) : option (list (byte * byte) * bytes) :=
  match l with
  | [] => None
  | c :: r =>
      match prev with
      | None => '(ms, rest) ← members (Some c) r; Some ((c, c) :: ms, rest)
      | Some lo =>
          if bool_decide (c = x5d) then Some ([], r)
          else match r with
               | hi :: r' =>
                   if bool_decide (c = x2d) && negb (bool_decide (hi = x5d))
                   then '(ms, rest) ← members (Some hi) r'; Some ((lo, hi) :: ms, rest)
                   else '(ms, rest) ← members (Some c) r; Some ((c, c) :: ms, rest)
               | [] => None
               end
      end
  end.

Definition in_ranges (ms : list (byte * byte)) (ch : byte) : bool :=
  existsb (fun m => (bZ m.1 <=? bZ ch) && (bZ ch <=? bZ m.2)) ms.

(** The class that opens just before [l]. *)
Definition class_of (l : bytes) : option ((byte -> bool) * bytes) :=
  let neg := match l with c :: _ => bool_decide (c = x21 \/ c = x5e) | [] => false end in
  '(ms, rest) ← members None (if neg then tail l else l);
  Some (fun ch => xorb neg (in_ranges ms ch), rest).

(** [read]: the class that opens just before some bytes, and what follows it; without one the bracket stands for itself. *)
Fixpoint elements_from (read : bytes -> option ((byte -> bool) * bytes)) (fuel : nat) (pat : bytes) : list element :=
  match fuel, pat with
  | S fuel', p :: r =>
      if bool_decide (p = x2a) then Run :: elements_from read fuel' r
      else if bool_decide (p = x3f) then One (fun _ => true) :: elements_from read fuel' r
      else if bool_decide (p = x5b)
           then match read r with
                | Some (f, rest) => One f :: elements_from read fuel' rest
                | None => One (fun ch => bool_decide (ch = x5b)) :: elements_from read fuel' r
                end
           else One (fun ch => bool_decide (p = ch)) :: elements_from read fuel' r
  | _, _ => []
  end.

Definition elements (pat : bytes) : list element := elements_from class_of (length pat) pat.

(** A run tries every split. *)
Fixpoint matches (es : list element) (name : bytes) : bool :=
  match es with
  | [] => bool_decide (name = [])
  | Run :: es' => existsb (fun k => matches es' (drop k name)) (seq 0 (S (length name)))
  | One f :: es' => match name with c :: r => f c && matches es' r | [] => false end
  end.

(** ** What it means to Python *)

(** What comes before the first [b], and after it. *)
Fixpoint upto (b : byte) (l : bytes) : option (bytes * bytes) :=
  match l with
  | [] => None
  | c :: r => if bool_decide (c = b) then Some ([], r) else '(x, rest) ← upto b r; Some (c :: x, rest)
  end.

(** A hyphen and a byte for it to lead to. *)
Definition leads (l : bytes) : bool := match l with b :: _ :: _ => bool_decide (b = x2d) | _ => false end.

(** The members of a class, from the left: two bytes around a hyphen are a range, and neither is part of another. *)
Fixpoint py_items (l : bytes) : list (byte * byte) :=
  match l with
  | [] => []
  | c :: r => match r with
              | b :: hi :: r' => if bool_decide (b = x2d) then (c, hi) :: py_items r' else (c, c) :: py_items r
              | _ => (c, c) :: py_items r
              end
  end.

(** An exclamation mark negates; the bracket that closes the class is not its first member. *)
Definition py_class (l : bytes) : option ((byte -> bool) * bytes) :=
  let neg := match l with c :: _ => bool_decide (c = x21) | [] => false end in
  match (if neg then tail l else l) with
  | c :: r => '(x, rest) ← upto x5d r; Some (fun ch => xorb neg (in_ranges (py_items (c :: x)) ch), rest)
  | [] => None
  end.

Definition py_elements (pat : bytes) : list element := elements_from py_class (length pat) pat.

(** Ranges go up, and no hyphen and further member follow one. *)
Fixpoint plain_items (l : bytes) : bool :=
  match l with
  | [] => true
  | c :: r => match r with
              | b :: hi :: r' => if bool_decide (b = x2d) then (bZ c <=? bZ hi) && negb (leads r') && plain_items r' else plain_items r
              | _ => plain_items r
              end
  end.

Definition plain_body (l : bytes) : bool :=
  match l with c :: r => match upto x5d r with Some (x, _) => plain_items (c :: x) | None => true end | [] => true end.

Definition plain_class (l : bytes) : bool :=
  match l with c :: r => negb (bool_decide (c = x5e)) && plain_body (if bool_decide (c = x21) then r else l) | [] => true end.

(** The classes Python and the code read alike: no caret first, ranges that go up, none of them chained. *)
Fixpoint plain (pat : bytes) : bool :=
  match pat with [] => true | p :: r => (negb (bool_decide (p = x5b)) || plain_class r) && plain r end.

(** ** A class *)

Lemma members_suffix n : forall prev l ms rest, (length l <= n)%nat -> members prev l = Some (ms, rest) ->
  exists x, l = x ++ rest /\ x <> [].
Proof.
  induction n as [|n IH]; intros prev l ms rest Hn H; (destruct l as [|c r]; [done|]); cbn in Hn; [lia|]. cbn in H.
  assert (G : forall p ms', members p r = Some (ms', rest) -> exists x, c :: r = x ++ rest /\ x <> []).
  { intros p ms' (x&->&_)%IH; [|lia]. by exists (c :: x). }
  destruct prev as [lo|].
  - destruct (bool_decide (c = x5d)); [injection H as _ <-; by exists [c]|]. destruct r as [|hi r']; [done|].
    destruct (bool_decide (c = x2d) && negb (bool_decide (hi = x5d))).
    + destruct (members (Some hi) r') as [[ms' rest']|] eqn:E; [|done]. injection H as _ ->.
      apply IH in E as (x&->&_); [|cbn in Hn; lia]. by exists (c :: hi :: x).
    + destruct (members (Some c) (hi :: r')) as [[ms' rest']|] eqn:E; [|done]. injection H as _ ->. by eapply G.
  - destruct (members (Some c) r) as [[ms' rest']|] eqn:E; [|done]. injection H as _ ->. by eapply G.
Qed.

Lemma in_range_one c ch : (bZ c <=? bZ ch) && (bZ ch <=? bZ c) = bool_decide (c = ch).
Proof.
  case_bool_decide as H; [subst; lia|]. apply andb_false_iff.
  destruct (Z.leb_spec (bZ c) (bZ ch)); [|by left]. right. apply Z.leb_gt.
  assert (bZ c <> bZ ch) by (by intros ?%bZ_inj). lia.
Qed.

Definition class_result (pat : bytes) (pi : nat) (neg found : bool) (ch : byte) (m : option (list (byte * byte) * bytes)) :=
  match m with
  | Some (ms, rest) => (xorb neg (found || in_ranges ms ch), (length pat - length rest)%nat, true)
  | None => (false, pi, false)
  end.

Lemma class_result_cons pat pi neg found ch lo hi m :
  class_result pat pi neg found ch ('(ms, rest) ← m; Some ((lo, hi) :: ms, rest))
  = class_result pat pi neg (found || (bZ lo <=? bZ ch) && (bZ ch <=? bZ hi)) ch m.
Proof. destruct m as [[ms rest]|]; [|done]. cbn. by rewrite orb_assoc. Qed.

Lemma drop_cons_lookup {A} (l : list A) j c r : drop j l = c :: r -> l !! j = Some c /\ drop (S j) l = r /\ (j < length l)%nat.
Proof.
  intros H. assert (Hj : l !! j = Some c) by (rewrite <-(Nat.add_0_r j), <-lookup_drop, H; done).
  split; [done|]. split; [|by apply lookup_lt_is_Some_1].
  rewrite <-Nat.add_1_r, <-drop_drop, H. done.
Qed.

Lemma lookup_drop_0 {A} (l : list A) j : l !! j = hd_error (drop j l).
Proof. rewrite <-(Nat.add_0_r j) at 1. rewrite <-lookup_drop. by destruct (drop j l). Qed.

(** The loop reads the members the reference reads. *)
Lemma class_loop_members pat pi start ch fuel : forall j neg found l prev,
  drop j pat = l -> (length l <= fuel)%nat -> (start <= j)%nat ->
  prev = (if (start <? j)%nat then pat !! pred j else None) -> is_Some (pat !! pred j) ->
  class_loop fuel pat pi start j neg found ch = Some (class_result pat pi neg found ch (members prev l)).
Proof.
  induction fuel as [|fuel IH]; intros j neg found l prev Hl Hf Hs Hp [lo Hlo]; (destruct l as [|c r]; [|cbn in Hf; try lia]);
    cbn [class_loop]; rewrite lookup_drop_0, Hl; try done.
  destruct (drop_cons_lookup _ _ _ _ Hl) as (Hj&Hr&Hlt).
  assert (Hnext : forall f, class_loop fuel pat pi start (S j) neg f ch = Some (class_result pat pi neg f ch (members (Some c) r))).
  { intros f. apply IH; [done|cbn in Hf; lia|lia| |by exists c]. destruct (Nat.ltb_spec start (S j)); [|lia]. by rewrite <-Hj. }
  assert (Hone : Some (class_result pat pi neg (if bool_decide (c = ch) then true else found) ch (members (Some c) r))
    = Some (class_result pat pi neg found ch ('(ms, rest) ← members (Some c) r; Some ((c, c) :: ms, rest)))).
  { rewrite class_result_cons, in_range_one. repeat f_equal. by destruct (bool_decide _), found. }
  rewrite Hlo, lookup_drop_0, Hr. cbn [hd_error]. subst prev. destruct (Nat.ltb_spec start j) as [Hsj|Hsj].
  - rewrite Hlo. cbn [members]. rewrite andb_true_r. destruct (bool_decide (c = x5d)).
    { cbn. rewrite orb_false_r. rewrite <-Hr, length_drop. replace (length pat - (length pat - S j))%nat with (S j) by lia. by destruct neg, found. }
    destruct r as [|hi r']; [by rewrite Hnext|]. cbn [hd_error]. rewrite andb_true_r.
    destruct (bool_decide (c = x2d) && negb (bool_decide (hi = x5d))); [|by rewrite Hnext].
    destruct (drop_cons_lookup _ _ _ _ Hr) as (Hhi&Hr'&_). rewrite class_result_cons.
    erewrite IH; [|exact Hr'|cbn in Hf; lia|lia|reflexivity|by exists hi].
    destruct (Nat.ltb_spec start (2 + j)); [|lia]. change (pred (2 + j)) with (S j). rewrite Hhi.
    repeat f_equal. by destruct ((bZ lo <=? bZ ch) && (bZ ch <=? bZ hi)), found.
  - cbn [members]. rewrite andb_false_r. destruct (hd_error r); cbn [andb]; rewrite ?andb_false_r; by rewrite Hnext.
Qed.

Lemma matchClass_class pat pi l ch : drop pi pat = x5b :: l ->
  matchClass pat pi ch = Some (match class_of l with Some (f, rest) => (f ch, (length pat - length rest)%nat, true) | None => (false, pi, false) end).
Proof.
  intros (Hpi&Hl&Hlt)%drop_cons_lookup. unfold matchClass, class_of.
  rewrite (lookup_drop_0 pat (S pi)), Hl.
  assert (E : match hd_error l with Some c => bool_decide (c = x21 \/ c = x5e) | None => false end
    = match l with c :: _ => bool_decide (c = x21 \/ c = x5e) | [] => false end) by (by destruct l).
  rewrite E. set (neg := match l with c :: _ => _ | [] => _ end). clear E.
  assert (Hd : drop (if neg then S (S pi) else S pi) pat = if neg then tail l else l).
  { destruct neg eqn:En; [|done]. destruct l as [|c r]; [done|]. by apply drop_cons_lookup in Hl as (_&?&_). }
  rewrite (class_loop_members pat pi _ ch (length pat) _ neg false _ None Hd); [ |rewrite <-Hd, length_drop; lia|done|by rewrite Nat.ltb_irrefl|].
  { destruct (members None _) as [[ms rest]|]; [|done]. cbn. done. }
  destruct neg eqn:En; cbn; [|by rewrite Hpi]. destruct l as [|c r]; [done|]. apply drop_cons_lookup in Hl as (->&_). done.
Qed.

Lemma class_of_suffix l f rest : class_of l = Some (f, rest) -> exists x, l = x ++ rest /\ x <> [].
Proof.
  unfold class_of. destruct l as [|c r]; [done|]. destruct (bool_decide _); cbn [tail].
  - destruct (members None r) as [[ms rest']|] eqn:E; [|done]. cbn. intros [= _ <-].
    apply (members_suffix (length r)) in E as (x&->&_); [|done]. by exists (c :: x).
  - destruct (members None (c :: r)) as [[ms rest']|] eqn:E; [|done]. cbn -[members]. intros [= _ <-].
    by apply (members_suffix (length (c :: r))) in E.
Qed.

(** ** The elements of a suffix *)

Section reading.
Context (read : bytes -> option ((byte -> bool) * bytes)).
Hypothesis read_suffix : forall l f rest, read l = Some (f, rest) -> exists x, l = x ++ rest.

Lemma elements_fuel n : forall m l, (length l <= n)%nat -> (length l <= m)%nat -> elements_from read n l = elements_from read m l.
Proof.
  induction n as [|n IH]; intros m l Hn Hm; destruct l as [|p r]; [by destruct m|cbn in *; lia|by destruct m|].
  destruct m as [|m]; [cbn in *; lia|]. cbn [elements_from]. cbn in Hn, Hm.
  repeat case_match; f_equal; try (apply IH; lia).
  match goal with H : read _ = Some _ |- _ => apply read_suffix in H as (x&->) end.
  rewrite length_app in Hn, Hm. apply IH; lia.
Qed.

Lemma elements_from_cons p r : elements_from read (length (p :: r)) (p :: r) =
  if bool_decide (p = x2a) then Run :: elements_from read (length r) r
  else if bool_decide (p = x3f) then One (fun _ => true) :: elements_from read (length r) r
  else if bool_decide (p = x5b)
       then match read r with
            | Some (f, rest) => One f :: elements_from read (length rest) rest
            | None => One (fun ch => bool_decide (ch = x5b)) :: elements_from read (length r) r
            end
       else One (fun ch => bool_decide (p = ch)) :: elements_from read (length r) r.
Proof.
  cbn [elements_from length]. repeat case_match; f_equal.
  match goal with H : read _ = Some _ |- _ => apply read_suffix in H as (x&->) end.
  apply elements_fuel; rewrite ?length_app; lia.
Qed.
End reading.

Lemma elements_cons p r : elements (p :: r) =
  if bool_decide (p = x2a) then Run :: elements r
  else if bool_decide (p = x3f) then One (fun _ => true) :: elements r
  else if bool_decide (p = x5b)
       then match class_of r with
            | Some (f, rest) => One f :: elements rest
            | None => One (fun ch => bool_decide (ch = x5b)) :: elements r
            end
       else One (fun ch => bool_decide (p = ch)) :: elements r.
Proof. apply elements_from_cons. intros l f rest (x&->&_)%class_of_suffix. by exists x. Qed.

Lemma all_stars_elements pat : all_stars pat = matches (elements pat) [].
Proof.
  induction pat as [|p r IH]; [done|]. rewrite elements_cons. cbn [all_stars].
  repeat case_match; simplify_eq; cbn; try done. rewrite IH. by rewrite orb_false_r.
Qed.

(** ** Matching behind a run *)

Lemma matches_run es name : matches (Run :: es) name = true <-> exists k, (k <= length name)%nat /\ matches es (drop k name) = true.
Proof.
  cbn [matches]. rewrite existsb_exists. split; intros (k&Hk&Hm); exists k; (split; [|done]).
  - apply in_seq in Hk. lia.
  - apply in_seq. lia.
Qed.

Lemma matches_run_skip es c name : matches es (c :: name) = false -> matches (Run :: es) (c :: name) = matches (Run :: es) name.
Proof.
  intros H. apply eq_true_iff_eq. rewrite !matches_run. split.
  - intros ([|k]&Hk&Hm); [cbn in Hm; congruence|]. exists k. cbn in Hk. split; [lia|done].
  - intros (k&Hk&Hm). exists (S k). cbn. split; [lia|done].
Qed.

(** The bytes read since the backtrack point, each in its element's set. *)
Definition read_by (fs : list (byte -> bool)) (xs : bytes) : Prop := Forall2 (fun f x => f x = true) fs xs.

Lemma matches_ones fs xs es name : read_by fs xs -> matches (map One fs ++ es) (xs ++ name) = matches es name.
Proof. induction 1 as [|f x fs xs Hfx _ IH]; [done|]. cbn. by rewrite Hfx. Qed.

Lemma ones_length fs es name : matches (map One fs ++ es) name = true -> (length fs <= length name)%nat /\ matches es (drop (length fs) name) = true.
Proof.
  revert name. induction fs as [|f fs IH]; intros name H; [split; [cbn; lia|done]|].
  destruct name as [|c r]; [done|]. cbn in H. apply andb_true_iff in H as [_ (?&?)%IH]. split; [cbn; lia|done].
Qed.

(** A run met behind the elements read since the last one takes its place. *)
Lemma matches_run_run fs xs es name : read_by fs xs ->
  matches (Run :: map One fs ++ Run :: es) (xs ++ name) = matches (Run :: es) name.
Proof.
  intros Hr. assert (Hlen : length fs = length xs) by (by eapply Forall2_length).
  apply eq_true_iff_eq. rewrite matches_run. split.
  - intros (k&Hk&(Hl&(j&Hj&Hm)%matches_run)%ones_length). rewrite !drop_drop, drop_app_ge in Hm by lia.
    rewrite !length_drop, length_app in Hj. rewrite length_app in Hk. rewrite length_drop, length_app in Hl. apply matches_run. eexists. split; [|exact Hm]. lia.
  - intros Hm. exists 0%nat. split; [lia|]. by rewrite drop_0, matches_ones.
Qed.

Lemma matches_run_end fs xs es : read_by fs xs -> matches (Run :: map One fs ++ es) xs = matches es [].
Proof.
  intros Hr. assert (Hlen : length fs = length xs) by (by eapply Forall2_length).
  apply eq_true_iff_eq. rewrite matches_run. split.
  - intros (k&Hk&(Hl&Hm)%ones_length). rewrite length_drop in Hl. assert (k = 0)%nat as -> by (destruct fs; cbn in *; lia).
    by rewrite drop_0, Hlen, drop_all in Hm.
  - intros Hm. exists 0%nat. split; [lia|]. rewrite drop_0, <-(app_nil_r xs). by rewrite matches_ones.
Qed.

(** ** The invariant of the matcher *)

(** Whatever has been read, the answer is still that of the whole match. *)
Record inv (name pat : bytes) (answer : bool) (c : cursor) : Prop := mkInv {
  inv_ni : (starName c <= ni c <= length name)%nat;
  inv_pi : (pi c <= length pat)%nat;
  inv_answer : match star c with
    | None => answer = matches (elements (drop (pi c) pat)) (drop (ni c) name)
    | Some s => (s < pi c)%nat /\ exists fs xs, read_by fs xs
        /\ elements (drop (S s) pat) = map One fs ++ elements (drop (pi c) pat)
        /\ drop (starName c) name = xs ++ drop (ni c) name
        /\ answer = matches (Run :: elements (drop (S s) pat)) (drop (starName c) name)
    end;
}.

Definition measure (name pat : bytes) (c : cursor) : nat :=
  ((length name - starName c) * (length pat + 2) + (length pat - pi c))%nat.

Lemma inv_end name pat answer c : inv name pat answer c -> name !! ni c = None -> all_stars (drop (pi c) pat) = answer.
Proof.
  intros [Hn Hp Ha] He%lookup_ge_None_1. rewrite all_stars_elements.
  assert (Hd : drop (ni c) name = []) by (by apply drop_ge). rewrite Hd in Ha.
  destruct (star c) as [s|]; [|done]. destruct Ha as (_&fs&xs&Hr&He'&Hx&->).
  rewrite He', Hx, app_nil_r. by rewrite matches_run_end.
Qed.

(** The next element takes the byte. *)
Lemma inv_advance name pat answer c ch next f :
  inv name pat answer c -> name !! ni c = Some ch -> (pi c < next <= length pat)%nat ->
  elements (drop (pi c) pat) = One f :: elements (drop next pat) -> f ch = true ->
  inv name pat answer (advance c next) /\ (measure name pat (advance c next) < measure name pat c)%nat.
Proof.
  intros [Hn Hp Ha] Hch Hnext He Hf. pose proof (lookup_lt_Some _ _ _ Hch). pose proof (drop_S _ _ _ Hch) as Hd.
  split; [|unfold measure; cbn; lia]. split; cbn [advance ni pi star starName]; [lia|lia|]. rewrite Hd in Ha.
  destruct (star c) as [s|].
  - destruct Ha as (Hs&fs&xs&Hr&He'&Hx&->). split; [lia|]. exists (fs ++ [f]), (xs ++ [ch]). split; [by apply Forall2_app; [|constructor]|].
    rewrite He', He, map_app, <-!app_assoc. split; [done|]. split; [|done]. by rewrite Hx.
  - rewrite He in Ha. cbn in Ha. by rewrite Hf in Ha.
Qed.

(** The next element refuses the byte: back to the last run, or the answer is no. *)
Lemma inv_backtrack name pat answer c ch :
  inv name pat answer c -> name !! ni c = Some ch -> matches (elements (drop (pi c) pat)) (drop (ni c) name) = false ->
  match backtrack c with
  | Some c' => inv name pat answer c' /\ (measure name pat c' < measure name pat c)%nat
  | None => answer = false
  end.
Proof.
  intros [Hn Hp Ha] Hch Hm. pose proof (lookup_lt_Some _ _ _ Hch). unfold backtrack.
  destruct (star c) as [s|] eqn:Es; [|by rewrite Ha]. cbn.
  destruct Ha as (Hs&fs&xs&Hr&He'&Hx&->). destruct (lookup_lt_is_Some_2 name (starName c)) as [x0 Hx0]; [lia|].
  split; [|unfold measure; cbn; nia]. split; cbn; [lia|lia|]. split; [lia|]. exists [], []. split; [constructor|].
  split; [done|]. split; [done|]. pose proof (drop_S _ _ _ Hx0) as Hd. rewrite Hd. apply matches_run_skip.
  rewrite <-Hd, Hx, He'. by rewrite matches_ones.
Qed.

(** What a turn of the loop keeps. *)
Definition step_keeps (name pat : bytes) (answer : bool) (c : cursor) (r : option (option cursor)) : Prop :=
  match r with
  | None => False
  | Some None => answer = false
  | Some (Some c') => inv name pat answer c' /\ (measure name pat c' < measure name pat c)%nat
  end.

Lemma keeps_backtrack name pat answer c ch :
  inv name pat answer c -> name !! ni c = Some ch -> matches (elements (drop (pi c) pat)) (ch :: drop (S (ni c)) name) = false ->
  step_keeps name pat answer c (Some (backtrack c)).
Proof.
  intros Hi Hch Hm. rewrite <-(drop_S _ _ _ Hch) in Hm. pose proof (inv_backtrack _ _ _ _ _ Hi Hch Hm) as H.
  by destruct (backtrack c).
Qed.

(** An element that holds one byte of the pattern's next bytes: take the byte or go back. *)
Lemma keeps_one name pat answer c ch next f :
  inv name pat answer c -> name !! ni c = Some ch -> (pi c < next <= length pat)%nat ->
  elements (drop (pi c) pat) = One f :: elements (drop next pat) ->
  step_keeps name pat answer c (Some (if f ch then Some (advance c next) else backtrack c)).
Proof.
  intros Hi Hch Hn He. destruct (f ch) eqn:Hf; [by eapply inv_advance|].
  eapply keeps_backtrack; [done..|]. rewrite He. cbn. by rewrite Hf.
Qed.

Lemma inv_run name pat answer c ch :
  inv name pat answer c -> name !! ni c = Some ch -> pat !! pi c = Some x2a ->
  step_keeps name pat answer c (Some (Some (mkCursor (ni c) (S (pi c)) (Some (pi c)) (ni c)))).
Proof.
  intros [Hn Hp Ha] Hch Hpat. pose proof (lookup_lt_Some _ _ _ Hch). pose proof (lookup_lt_Some _ _ _ Hpat).
  pose proof (drop_S _ _ _ Hpat) as Hd. assert (He : elements (drop (pi c) pat) = Run :: elements (drop (S (pi c)) pat)) by (rewrite Hd; apply elements_cons).
  split; [|unfold measure; cbn; nia]. split; cbn; [lia|lia|]. split; [lia|]. exists [], []. repeat (split; [constructor|]).
  destruct (star c) as [s|]; [|by rewrite Ha, He]. destruct Ha as (_&fs&xs&Hr&He'&Hx&->).
  rewrite He', Hx, He. by apply matches_run_run.
Qed.

Lemma glob_step_keeps name pat answer c ch :
  inv name pat answer c -> name !! ni c = Some ch -> step_keeps name pat answer c (glob_step pat c ch).
Proof.
  intros Hi Hch. unfold glob_step. destruct (pat !! pi c) as [p|] eqn:Hp.
  2: { eapply keeps_backtrack; [done..|]. by rewrite (drop_ge pat) by (by apply lookup_ge_None_1). }
  pose proof (lookup_lt_Some _ _ _ Hp) as Hlt. pose proof (drop_S _ _ _ Hp) as Hd.
  pose proof (elements_cons p (drop (S (pi c)) pat)) as He. rewrite <-Hd in He.
  destruct (bool_decide (p = x2a)) eqn:E1; [apply bool_decide_eq_true in E1 as ->; by eapply inv_run|].
  destruct (bool_decide (p = x3f)) eqn:E2; [apply (keeps_one _ _ _ _ ch (S (pi c)) (fun _ => true)); [done..|lia|done]|].
  destruct (bool_decide (p = x5b)) eqn:E3; [|apply (keeps_one _ _ _ _ ch (S (pi c)) (fun ch => bool_decide (p = ch))); [done..|lia|done]].
  apply bool_decide_eq_true in E3 as ->. rewrite (matchClass_class pat (pi c) (drop (S (pi c)) pat)) by done. cbn [mbind option_bind].
  destruct (class_of (drop (S (pi c)) pat)) as [[f rest]|] eqn:Hc.
  - apply class_of_suffix in Hc as (x&Hx&Hne). assert (Hl : length pat = (S (pi c) + length x + length rest)%nat).
    { rewrite <-(take_drop (S (pi c)) pat) at 1. rewrite Hx, !length_app, length_take. lia. }
    apply (keeps_one _ _ _ _ ch _ f); [done..|lia|]. rewrite He. do 2 f_equal.
    replace (length pat - length rest)%nat with (S (pi c) + length x)%nat by lia. by rewrite <-drop_drop, Hx, drop_app_length.
  - apply (keeps_one _ _ _ _ ch (S (pi c)) (fun ch => bool_decide (ch = x5b))); [done..|lia|done].
Qed.

Lemma glob_loop_answer name pat answer fuel : forall c,
  inv name pat answer c -> (measure name pat c <= fuel)%nat -> glob_loop fuel name pat c = Some answer.
Proof.
  induction fuel as [|fuel IH]; intros c Hi Hf; cbn [glob_loop]; (destruct (name !! ni c) as [ch|] eqn:Hch; [|by erewrite inv_end]).
  - apply lookup_lt_Some in Hch. destruct Hi. unfold measure in Hf. nia.
  - pose proof (glob_step_keeps _ _ _ _ _ Hi Hch) as Hs. unfold step_keeps in Hs.
    destruct (glob_step pat c ch) as [[c'|]|]; [|by subst|done]. destruct Hs as [Hi' Hm]. apply IH; [done|lia].
Qed.

Lemma globMatch_answer name pat : globMatch name pat = Some (matches (elements pat) name).
Proof.
  apply glob_loop_answer; [|unfold measure, glob_fuel; cbn; nia].
  split; cbn; [lia|lia|]. by rewrite !drop_0.
Qed.

Lemma fnmatch_matches name pattern : fnmatch name pattern = matches (elements pattern) name.
Proof.
  unfold fnmatch. rewrite globMatch_answer.
  destruct (matches _ _); [by apply bool_decide_eq_true|by apply bool_decide_eq_false].
Qed.

(** ** Python's reading *)

Lemma upto_suffix b l x rest : upto b l = Some (x, rest) -> l = x ++ b :: rest.
Proof.
  revert x. induction l as [|c r IH]; intros x; cbn [upto]; [done|]. case_bool_decide as E; [intros [= <- <-]; by rewrite E|].
  destruct (upto b r) as [[y rest']|]; [|done]. intros [= <- <-]. by rewrite (IH y).
Qed.

Lemma py_class_suffix l f rest : py_class l = Some (f, rest) -> exists x, l = x ++ rest.
Proof.
  unfold py_class. set (neg := match l with c :: _ => _ | [] => _ end). destruct l as [|c0 l0]; [by destruct neg|]. destruct neg.
  - cbn [tail]. destruct l0 as [|c r]; [done|]. destruct (upto x5d r) as [[x rest']|] eqn:E; [|done]. cbn. intros [= _ <-].
    apply upto_suffix in E as ->. exists (c0 :: c :: x ++ [x5d]). cbn. by rewrite <-app_assoc.
  - destruct (upto x5d l0) as [[x rest']|] eqn:E; [|done]. cbn. intros [= _ <-]. apply upto_suffix in E as ->. exists (c0 :: x ++ [x5d]). cbn. by rewrite <-app_assoc.
Qed.

Lemma in_ranges_cons lo hi ms ch : in_ranges ((lo, hi) :: ms) ch = (bZ lo <=? bZ ch) && (bZ ch <=? bZ hi) || in_ranges ms ch.
Proof. done. Qed.

(** Not the start of a range. *)
Lemma items_one c r : leads r = false -> py_items (c :: r) = (c, c) :: py_items r /\ plain_items (c :: r) = plain_items r.
Proof. destruct r as [|b [|hi r']]; [done..|]. cbn [leads]. intros H. cbn [py_items plain_items]. by rewrite H. Qed.

Lemma in_range_ends lo hi ch : bZ lo <= bZ hi -> bool_decide (lo = ch) || (bZ lo <=? bZ ch) && (bZ ch <=? bZ hi) = (bZ lo <=? bZ ch) && (bZ ch <=? bZ hi)
  /\ (bZ lo <=? bZ ch) && (bZ ch <=? bZ hi) || bool_decide (hi = ch) = (bZ lo <=? bZ ch) && (bZ ch <=? bZ hi).
Proof. intros H. split; case_bool_decide; subst; lia. Qed.

(** The code's members after the first, [lo], against Python's. *)
Lemma members_items n : forall lo l, (length l <= n)%nat ->
  match upto x5d l with
  | None => members (Some lo) l = None
  | Some (x, rest) => plain_items (lo :: x) = true -> exists ms, members (Some lo) l = Some (ms, rest)
      /\ forall ch, bool_decide (lo = ch) || in_ranges ms ch = in_ranges (py_items (lo :: x)) ch
  end.
Proof.
  induction n as [|n IH]; intros lo l Hn; (destruct l as [|c r]; [done|]); cbn in Hn; [lia|]. cbn [upto members].
  case_bool_decide as Ec.
  { intros _. exists []. split; [done|]. intros ch. cbn. by rewrite in_range_one. }
  (* the byte on its own *)
  assert (Hone : (forall x rest, upto x5d r = Some (x, rest) -> c = x2d -> x = []) ->
    match ('(x, rest) ← upto x5d r; Some (c :: x, rest)) with
    | None => ('(ms, rest) ← members (Some c) r; Some ((c, c) :: ms, rest)) = None
    | Some (x, rest) => plain_items (lo :: x) = true -> exists ms, ('(ms, rest) ← members (Some c) r; Some ((c, c) :: ms, rest)) = Some (ms, rest)
        /\ forall ch, bool_decide (lo = ch) || in_ranges ms ch = in_ranges (py_items (lo :: x)) ch
    end).
  { intros Hc. specialize (IH c r ltac:(lia)). destruct (upto x5d r) as [[x rest]|] eqn:Eu; cbn [mbind option_bind]; [|by rewrite IH].
    assert (Hns : leads (c :: x) = false).
    { destruct x as [|d x']; [done|]. cbn [leads]. apply bool_decide_eq_false_2. intros ->. by specialize (Hc _ _ eq_refl eq_refl). }
    destruct (items_one lo (c :: x) Hns) as [-> ->]. intros Hp. destruct (IH Hp) as (ms&->&Hms). exists ((c, c) :: ms). split; [done|]. intros ch.
    rewrite in_ranges_cons, in_range_one, Hms. cbn [in_ranges existsb fst snd]. by rewrite in_range_one. }
  destruct r as [|hi r']; [done|]. destruct (bool_decide (c = x2d) && negb (bool_decide (hi = x5d))) eqn:Eh.
  2:{ apply Hone. intros x rest Hu ->. rewrite bool_decide_eq_true_2 in Eh by done. cbn [andb] in Eh. apply negb_false_iff, bool_decide_eq_true_1 in Eh as ->.
      cbn in Hu. by injection Hu as <- _. }
  apply andb_prop in Eh as [->%bool_decide_eq_true_1 Hhi%negb_true_iff%bool_decide_eq_false_1]. clear Hone. cbn [upto]. rewrite (bool_decide_eq_false_2 (hi = x5d)) by done.
  specialize (IH hi r' ltac:(cbn in Hn; lia)). destruct (upto x5d r') as [[x rest]|]; cbn [mbind option_bind]; [|by rewrite IH].
  intros Hp. cbn [plain_items] in Hp. rewrite bool_decide_eq_true_2 in Hp by done. apply andb_prop in Hp as [[Hle%Z.leb_le Hns%negb_true_iff]%andb_prop Hp].
  destruct (items_one hi x Hns) as [Ei Ep]. rewrite Ei, Ep in IH.
  destruct (IH Hp) as (ms&->&Hms). exists ((lo, hi) :: ms). split; [done|]. intros ch. cbn [py_items]. rewrite (bool_decide_eq_true_2 (x2d = x2d)) by done. rewrite !in_ranges_cons.
  specialize (Hms ch). rewrite in_ranges_cons, in_range_one in Hms. destruct (in_range_ends lo hi ch Hle) as [E1 E2]. rewrite orb_assoc, E1.
  rewrite <-E2, <-!orb_assoc. by rewrite Hms.
Qed.

(** A plain class is the same class to both. *)
Lemma plain_class_same l : plain_class l = true ->
  match class_of l, py_class l with
  | Some (f, rest), Some (g, rest') => rest = rest' /\ forall ch, f ch = g ch
  | None, None => True
  | _, _ => False
  end.
Proof.
  assert (Hread : forall neg l', plain_body l' = true ->
    match ('(ms, rest) ← members None l'; Some (fun ch => xorb neg (in_ranges ms ch), rest)),
      match l' with c :: r => '(x, rest) ← upto x5d r; Some (fun ch => xorb neg (in_ranges (py_items (c :: x)) ch), rest) | [] => None end with
    | Some (f, rest), Some (g, rest') => rest = rest' /\ forall ch, f ch = g ch
    | None, None => True
    | _, _ => False
    end).
  { intros neg [|c r]; [done|]. unfold plain_body. cbn [members]. pose proof (members_items (length r) c r (le_n _)) as Hm. destruct (upto x5d r) as [[x rest]|]; [|by rewrite Hm].
    intros Hp. destruct (Hm Hp) as (ms&->&Hms). cbn [mbind option_bind]. split; [done|]. intros ch. f_equal. rewrite <-Hms, in_ranges_cons. by rewrite in_range_one. }
  unfold plain_class, class_of, py_class. destruct l as [|c r]; [done|]. intros [Hcaret%negb_true_iff%bool_decide_eq_false_1 Hb]%andb_prop.
  destruct (decide (c = x21)) as [->|Hbang].
  - rewrite (bool_decide_eq_true_2 (x21 = x21 \/ x21 = x5e)) by (by left). rewrite !(bool_decide_eq_true_2 (x21 = x21)) in * by done. by apply (Hread true r).
  - rewrite (bool_decide_eq_false_2 (c = x21 \/ c = x5e)) by (by intros [|]). rewrite (bool_decide_eq_false_2 (c = x21)) in * by done. by apply (Hread false (c :: r)).
Qed.

Definition same_element (e e' : element) : Prop :=
  match e, e' with Run, Run => True | One f, One g => forall ch, f ch = g ch | _, _ => False end.

Lemma matches_same es es' : Forall2 same_element es es' -> forall name, matches es name = matches es' name.
Proof.
  induction 1 as [|e e' es es' He _ IH]; intros name; [done|]. destruct e as [|f], e' as [|g]; try done; cbn [matches].
  - induction (seq 0 (S (length name))) as [|k l IHl]; [done|]. cbn [existsb]. by rewrite IH, IHl.
  - destruct name as [|c r]; [done|]. by rewrite He, IH.
Qed.

Lemma plain_suffix x l : plain (x ++ l) = true -> plain l = true.
Proof. induction x as [|c x IH]; [done|]. cbn. by intros [_ ?]%andb_prop; apply IH. Qed.

Lemma plain_elements n : forall pat, (length pat <= n)%nat -> plain pat = true -> Forall2 same_element (elements pat) (py_elements pat).
Proof.
  induction n as [|n IH]; intros pat Hn Hp; (destruct pat as [|p r]; [constructor|]); cbn [length] in Hn; [lia|].
  cbn [plain] in Hp. apply andb_prop in Hp as [Hc Hr]. rewrite elements_cons. unfold py_elements. rewrite (elements_from_cons py_class py_class_suffix). fold (py_elements r).
  pose proof (IH r ltac:(lia) Hr) as Hrest. destruct (bool_decide (p = x2a)); [by constructor|]. destruct (bool_decide (p = x3f)); [by constructor|].
  destruct (bool_decide (p = x5b)); [|by constructor]. cbn [negb orb] in Hc. pose proof (plain_class_same r Hc) as Hsame.
  destruct (class_of r) as [[f rest]|], (py_class r) as [[g rest']|] eqn:Eg; try done; [|by constructor]. destruct Hsame as [<- Hfg].
  apply py_class_suffix in Eg as (x&->). constructor; [done|]. apply (IH rest); [rewrite length_app in Hn; lia|by eapply plain_suffix].
Qed.

(** C21: The matcher is Python's [fnmatch], over bytes. On every pattern whose classes are plain, the two-pointer loop stops and answers what Python's
    reading of the pattern gives when every split of the name at every run is tried: a star is any run, a class its members from the left with its
    ranges, an exclamation mark negates it, and a bracket that nothing closes stands for itself. *)
Theorem globMatch_matches name pat : plain pat = true -> globMatch name pat = Some (matches (py_elements pat) name).
Proof. intros Hp. rewrite globMatch_answer. f_equal. by apply matches_same, (plain_elements (length pat)). Qed.

Lemma globMatch_matches_witness : globMatch (str "b-2]") (str "[!a-]-[0-9]*") = Some (matches (py_elements (str "[!a-]-[0-9]*")) (str "b-2]")).
Proof. exact (globMatch_matches (str "b-2]") (str "[!a-]-[0-9]*") ltac:(vm_compute; reflexivity)). Defined.

(** Python takes a caret for a member; the code negates on it. *)
Lemma caret_negates : fnmatch (str "b") (str "[^a]") = true /\ matches (py_elements (str "[^a]")) (str "b") = false
  /\ fnmatch (str "^") (str "[^a]") = true /\ fnmatch (str "^") (str "[^^]") = false /\ matches (py_elements (str "[^^]")) (str "^") = true.
Proof. split_and!; reflexivity. Qed.

(** To Python the hyphen after a range is a member, and a range that goes down is empty; the code goes on from the end of the range, and matches the
    start of the empty one. *)
Lemma ranges_chain :
  fnmatch (str "d") (str "[a-c-e]") = true /\ matches (py_elements (str "[a-c-e]")) (str "d") = false
  /\ fnmatch (str "-") (str "[a-c-e]") = false /\ matches (py_elements (str "[a-c-e]")) (str "-") = true
  /\ fnmatch (str "b") (str "[b-a]") = true /\ matches (py_elements (str "[b-a]")) (str "b") = false.
Proof. split_and!; reflexivity. Qed.
