(* ===== verification/Hash.v ===== *)
(** * Checksums of the Go standard library used by the spool

    [hash/crc32] with the Castagnoli polynomial and [crypto/sha256], as executable functions
    over byte lists, with the facts the codecs need: the widths of the digests and that CRC-32C
    always tells apart two equally long messages that differ in a single byte. *)

From S2P Require Import Prelude.

(** ** CRC-32C (reflected, polynomial 0x82F63B78) *)

Definition crc_poly : Z := 0x82F63B78.
Definition mask32 : Z := 0xFFFFFFFF.

Definition crc_bit (s : Z) : Z :=
  if Z.testbit s 0 then Z.lxor (Z.shiftr s 1) crc_poly else Z.shiftr s 1.

Definition crc_byte (s : Z) (b : byte) : Z := Nat.iter 8 crc_bit (Z.lxor s (bZ b)).

Definition crc_update (s : Z) (l : bytes) : Z := fold_left crc_byte l s.

(** [crc32.Checksum(l, crc32.MakeTable(crc32.Castagnoli))]. *)
Definition crc32c (l : bytes) : Z := Z.lxor (crc_update mask32 l) mask32.

Example crc32c_check : crc32c (str "123456789") = 0xE3069283.
Proof. vm_compute. reflexivity. Qed.

Definition is32 (s : Z) : Prop := 0 <= s < 2^32.

Lemma is32_bits s : is32 s <-> 0 <= s /\ forall i, 32 <= i -> Z.testbit s i = false.
Proof.
  split.
  - intros [H0 H1]. split; [done|]. intros i Hi.
    destruct (decide (s = 0)) as [->|]; [apply Z.testbit_0_l|].
    apply Z.bits_above_log2; [lia|]. assert (Z.log2 s < 32) by (apply Z.log2_lt_pow2; lia). lia.
  - intros [H0 Hb]. split; [done|].
    destruct (decide (s = 0)) as [->|]; [lia|].
    destruct (Z.lt_ge_cases (Z.log2 s) 32) as [|Hge]; [apply Z.log2_lt_pow2; lia|].
    specialize (Hb _ Hge). rewrite Z.bit_log2 in Hb by lia. done.
Qed.

Lemma is32_lxor a b : is32 a -> is32 b -> is32 (Z.lxor a b).
Proof.
  rewrite !is32_bits. intros [Ha Ha'] [Hb Hb']. split.
  - apply Z.lxor_nonneg. lia.
  - intros i Hi. by rewrite Z.lxor_spec, Ha', Hb'.
Qed.

Lemma is32_shiftr a : is32 a -> is32 (Z.shiftr a 1).
Proof.
  intros [H0 H1]. rewrite Z.shiftr_div_pow2 by lia. change (2^1) with 2. unfold is32.
  split; [apply Z.div_pos; lia|]. apply Z.div_lt_upper_bound; lia.
Qed.

Lemma is32_bZ b : is32 (bZ b).
Proof. pose proof (bZ_range b). unfold is32. lia. Qed.

Lemma is32_poly : is32 crc_poly.
Proof. unfold is32, crc_poly. lia. Qed.

Lemma is32_mask : is32 mask32.
Proof. unfold is32, mask32. lia. Qed.

Create HintDb crc.
#[export] Hint Resolve is32_lxor is32_shiftr is32_bZ is32_poly is32_mask : crc.

Lemma is32_crc_bit s : is32 s -> is32 (crc_bit s).
Proof. intros H. unfold crc_bit. case_match; auto with crc. Qed.

Lemma is32_iter n s : is32 s -> is32 (Nat.iter n crc_bit s).
Proof. intros H. induction n; cbn; [done|]. by apply is32_crc_bit. Qed.

Lemma is32_crc_byte s b : is32 s -> is32 (crc_byte s b).
Proof. intros H. apply is32_iter. auto with crc. Qed.

Lemma is32_crc_update s l : is32 s -> is32 (crc_update s l).
Proof.
  unfold crc_update. revert s. induction l as [|b l IH]; intros s H; cbn; [done|].
  apply IH. by apply is32_crc_byte.
Qed.

Lemma is32_crc32c l : is32 (crc32c l).
Proof. apply is32_lxor, is32_mask. apply is32_crc_update, is32_mask. Qed.

(** The top bit of a round's result is the bit shifted out: a round loses nothing. *)
Lemma crc_bit_top s : is32 s -> Z.testbit (crc_bit s) 31 = Z.testbit s 0.
Proof.
  intros H. apply is32_bits in H as [_ H]. unfold crc_bit.
  destruct (Z.testbit s 0).
  - rewrite Z.lxor_spec, Z.shiftr_spec by lia. by rewrite H by lia.
  - rewrite Z.shiftr_spec by lia. by rewrite H by lia.
Qed.

Lemma crc_bit_inj s t : is32 s -> is32 t -> crc_bit s = crc_bit t -> s = t.
Proof.
  intros Hs Ht E.
  assert (E0 : Z.testbit s 0 = Z.testbit t 0).
  { rewrite <-!crc_bit_top by done. by rewrite E. }
  assert (E1 : Z.shiftr s 1 = Z.shiftr t 1).
  { revert E. unfold crc_bit. rewrite E0. destruct (Z.testbit t 0); [|done]. intros E.
    apply (f_equal (fun z => Z.lxor z crc_poly)) in E.
    by rewrite !Z.lxor_assoc, Z.lxor_nilpotent, !Z.lxor_0_r in E. }
  apply Z.bits_inj. intros i.
  destruct (Z.lt_ge_cases i 0); [by rewrite !Z.testbit_neg_r|].
  destruct (decide (i = 0)) as [->|]; [done|].
  apply (f_equal (fun z => Z.testbit z (i - 1))) in E1.
  rewrite !Z.shiftr_spec in E1 by lia. by replace (i - 1 + 1) with i in E1 by lia.
Qed.

Lemma crc_iter_inj n s t : is32 s -> is32 t -> Nat.iter n crc_bit s = Nat.iter n crc_bit t -> s = t.
Proof.
  intros Hs Ht. induction n as [|n IH]; cbn; [done|]. intros E.
  apply IH, crc_bit_inj; [by apply is32_iter..|done].
Qed.

Lemma lxor_cancel_l a b c : Z.lxor a b = Z.lxor a c -> b = c.
Proof.
  intros E. apply (f_equal (Z.lxor a)) in E.
  by rewrite <-!Z.lxor_assoc, Z.lxor_nilpotent, !Z.lxor_0_l in E.
Qed.

Lemma lxor_cancel_r a b c : Z.lxor b a = Z.lxor c a -> b = c.
Proof. rewrite !(Z.lxor_comm _ a). apply lxor_cancel_l. Qed.

Lemma crc_byte_inj_state s t b : is32 s -> is32 t -> crc_byte s b = crc_byte t b -> s = t.
Proof. intros Hs Ht E. apply crc_iter_inj in E; [|auto with crc..]. by apply lxor_cancel_r in E. Qed.

Lemma crc_byte_inj_byte s b c : is32 s -> crc_byte s b = crc_byte s c -> b = c.
Proof.
  intros Hs E. apply crc_iter_inj in E; [|auto with crc..].
  apply lxor_cancel_l in E. by apply bZ_inj.
Qed.

Lemma crc_update_inj_state s t l : is32 s -> is32 t -> crc_update s l = crc_update t l -> s = t.
Proof.
  unfold crc_update. revert s t. induction l as [|b l IH]; intros s t Hs Ht E; [done|].
  cbn in E. apply IH in E; [|by apply is32_crc_byte..]. by apply crc_byte_inj_state in E.
Qed.

Lemma crc_update_app s l k : crc_update s (l ++ k) = crc_update (crc_update s l) k.
Proof. apply fold_left_app. Qed.

(** Two messages of the same length that differ in one byte have different checksums. *)
Lemma crc32c_one_byte p b c q : b <> c -> crc32c (p ++ b :: q) <> crc32c (p ++ c :: q).
Proof.
  intros Hbc E. apply lxor_cancel_r in E.
  rewrite !crc_update_app in E. cbn in E.
  assert (is32 (crc_update mask32 p)) by apply is32_crc_update, is32_mask.
  apply crc_update_inj_state in E; [|by apply is32_crc_byte..].
  by apply crc_byte_inj_byte in E.
Qed.

(** ** SHA-256 (FIPS 180-4) *)

Definition w32 (z : Z) : Z := Z.land z mask32.
Definition add32 (a b : Z) : Z := w32 (a + b).
Definition rotr (n x : Z) : Z := Z.lor (Z.shiftr x n) (w32 (Z.shiftl x (32 - n))).
Definition xor3 (a b c : Z) : Z := Z.lxor a (Z.lxor b c).
Definition sha_ch (e f g : Z) : Z := Z.lxor (Z.land e f) (Z.land (Z.lxor e mask32) g).
Definition sha_maj (a b c : Z) : Z := xor3 (Z.land a b) (Z.land a c) (Z.land b c).
Definition sha_S0 (a : Z) : Z := xor3 (rotr 2 a) (rotr 13 a) (rotr 22 a).
Definition sha_S1 (e : Z) : Z := xor3 (rotr 6 e) (rotr 11 e) (rotr 25 e).
Definition sha_s0 (w : Z) : Z := xor3 (rotr 7 w) (rotr 18 w) (Z.shiftr w 3).
Definition sha_s1 (w : Z) : Z := xor3 (rotr 17 w) (rotr 19 w) (Z.shiftr w 10).

Definition sha_H : list Z :=
  [
    0x6a09e667; 0xbb67ae85; 0x3c6ef372; 0xa54ff53a; 0x510e527f; 0x9b05688c;
    0x1f83d9ab; 0x5be0cd19].

Definition sha_K : list Z :=
  [
    1116352408; 1899447441; 3049323471; 3921009573; 961987163; 1508970993;
    2453635748; 2870763221; 3624381080; 310598401; 607225278; 1426881987;
    1925078388; 2162078206; 2614888103; 3248222580; 3835390401; 4022224774;
    264347078; 604807628; 770255983; 1249150122; 1555081692; 1996064986;
    2554220882; 2821834349; 2952996808; 3210313671; 3336571891; 3584528711;
    113926993; 338241895; 666307205; 773529912; 1294757372; 1396182291;
    1695183700; 1986661051; 2177026350; 2456956037; 2730485921; 2820302411;
    3259730800; 3345764771; 3516065817; 3600352804; 4094571909; 275423344;
    430227734; 506948616; 659060556; 883997877; 958139571; 1322822218;
    1537002063; 1747873779; 1955562222; 2024104815; 2227730452; 2361852424;
    2428436474; 2756734187; 3204031479; 3329325298].

(** One round over the eight working variables. *)
Definition sha_round (s : list Z) (kw : Z * Z) : list Z :=
  match s with
  | [a; b; c; d; e; f; g; h] =>
      let t1 := w32 (h + sha_S1 e + sha_ch e f g + kw.1 + kw.2) in
      let t2 := add32 (sha_S0 a) (sha_maj a b c) in
      [add32 t1 t2; a; b; c; add32 d t1; e; f; g]
  | _ => s
  end.

(** Run the rounds, extending the message schedule one word at a time over a 16-word window. *)
Fixpoint sha_rounds (ks win s : list Z) : list Z :=
  match ks, win with
  | k :: ks', w :: win' =>
      let w' := w32 (sha_s1 (nth 14 win 0) + nth 9 win 0 + sha_s0 (nth 1 win 0) + w) in
      sha_rounds ks' (win' ++ [w']) (sha_round s (k, w))
  | _, _ => s
  end.

Fixpoint sha_words (n : nat) (block : bytes) : list Z :=
  match n with
  | O => []
  | S n' => be_dec (take 4 block) :: sha_words n' (drop 4 block)
  end.

Definition sha_block (h : list Z) (block : bytes) : list Z :=
  zip_with add32 h (sha_rounds sha_K (sha_words 16 block) h).

Fixpoint sha_blocks (n : nat) (h : list Z) (msg : bytes) : list Z :=
  match n with
  | O => h
  | S n' => sha_blocks n' (sha_block h (take 64 msg)) (drop 64 msg)
  end.

Definition sha_pad (msg : bytes) : bytes :=
  msg ++ x80 :: replicate (Z.to_nat ((55 - zlen msg) mod 64)) x00 ++ be_enc 8 (8 * zlen msg).

(** [sha256.Sum256]. *)
Definition sha256 (msg : bytes) : bytes :=
  let p := sha_pad msg in
  concat (be_enc 4 <$> sha_blocks (Nat.div (length p) 64) sha_H p).

Example sha256_abc : be_dec (sha256 (str "abc"))
  = 0xba7816bf8f01cfea414140de5dae2223b00361a396177a9cb410ff61f20015ad.
Proof. vm_compute. reflexivity. Qed.

Example sha256_two_blocks :
  be_dec (sha256 (str "abcdbcdecdefdefgefghfghighijhijkijkljklmklmnlmnomnopnopq"))
  = 0x248d6a61d20638b8e5c026930c3e6039a33ce45964ff2167f6ecedd419db06c1.
Proof. vm_compute. reflexivity. Qed.

Lemma length_sha_round s kw : length s = 8%nat -> length (sha_round s kw) = 8%nat.
Proof. intros H. do 9 (destruct s as [|? s]; try discriminate H). done. Qed.

Lemma length_sha_rounds ks win s : length s = 8%nat -> length (sha_rounds ks win s) = 8%nat.
Proof.
  revert win s. induction ks as [|k ks IH]; intros [|w win] s H; cbn [sha_rounds]; try done.
  apply IH. by apply length_sha_round.
Qed.

Lemma length_sha_blocks n h msg : length h = 8%nat -> length (sha_blocks n h msg) = 8%nat.
Proof.
  revert h msg. induction n as [|n IH]; intros h msg H; cbn [sha_blocks]; [done|].
  apply IH. unfold sha_block. rewrite length_zip_with, length_sha_rounds by done. by rewrite H.
Qed.

(** The digest is 32 bytes. *)
Lemma length_sha256 msg : length (sha256 msg) = 32%nat.
Proof.
  unfold sha256. set (ws := sha_blocks _ _ _).
  assert (Hl : length ws = 8%nat) by by apply length_sha_blocks.
  clearbody ws. do 9 (destruct ws as [|? ws]; try discriminate Hl). reflexivity.
Qed.

#[export] Hint Rewrite length_sha256 : len.
#[global] Opaque sha256 crc32c.

(** Overwriting one byte with a different one changes the checksum. *)
Lemma crc32c_insert l i b c : l !! i = Some b -> b <> c -> crc32c (<[i:=c]> l) <> crc32c l.
Proof.
  intros Hi Hbc. rewrite <-(take_drop_middle l i b Hi) at 2.
  rewrite insert_take_drop by (by eapply lookup_lt_Some).
  apply crc32c_one_byte. congruence.
Qed.

(** A message followed by its own checksum: altering one byte of either breaks the match. *)
Lemma crc32c_trailer_insert n l i b c :
  crc32c (take n l) = be_dec (slice n 4 l) -> l !! i = Some b -> b <> c -> (i < n + 4)%nat ->
  crc32c (take n (<[i:=c]> l)) <> be_dec (slice n 4 (<[i:=c]> l)).
Proof.
  intros Hc Hi Hbc Hlt. destruct (Nat.lt_ge_cases i n) as [H|H].
  - rewrite take_insert_lt, slice_insert_out, <-Hc by lia.
    apply (crc32c_insert _ _ b); [by rewrite lookup_take_lt|done].
  - rewrite take_insert_ge, slice_insert_in, Hc by lia. apply not_eq_sym.
    apply (be_dec_insert_ne _ _ b); [|done].
    unfold slice. rewrite lookup_take_lt, lookup_drop, <-Hi by lia. f_equal. lia.
Qed.
