(* ===== verification/SpoolTypes.v ===== *)
(** * Types shared by the spool components (package [internal/observer/spool])

    The bounds on source sequences, the error values the spool's operations return, and the
    comparison of an error with a sentinel ([errors.Is]). Error texts are not modelled: an error is
    its sentinel (or error struct) with the values the code formats into it. *)

From S2P Require Import Prelude.

(** [wire.SequenceMin] and [wire.SequenceMax]: the bounds of a one-based source sequence. *)
Definition SequenceMin : Z := 1.
Definition SequenceMax : Z := MaxInt64.

(** The file-system calls that can fail; the fault injected into a run names the failing ones. *)
Inductive io_op : Type :=
| IoStat | IoReadDir | IoRead | IoOpen | IoCreate | IoChmod | IoMkdir
| IoWrite | IoSync | IoClose | IoRename | IoRemove | IoTruncate | IoDirSync.

#[export] Instance io_op_eq_dec : EqDecision io_op.
Proof. solve_decision. Defined.

(** Why a segment header was refused. *)
Inductive header_fault : Type :=
| HdrShort (len : Z) | HdrMagic | HdrIDLen (len : Z) | HdrTruncated | HdrCRC.

(** Why a checksummed sidecar was refused. *)
Inductive sidecar_fault : Type :=
| ScLength | ScMagic | ScCRC | ScNegative | ScCount (n : Z) | ScEntry (i : Z)
| ScDuplicate | ScTrailing | ScTruncated (i : Z).

(** The detail text of a [CorruptionError]. *)
Inductive corruption_detail : Type :=
| CdHeader (why : header_fault)
| CdSourceMismatch
| CdFormatMismatch
| CdSegmentContiguity (got want : Z)
| CdFrameContiguity (got want : Z)
| CdShortInterior
| CdFrame.

(** [OutOfFuel] is no error of the code: it is what a loop of the model yields when its fuel runs
    out, and the loops' theorems show that it is never reached. *)
Inductive spool_error : Type :=
| ErrRecordTooLarge (size max : Z)
| ErrSequenceOutOfRange (seq : Z)
| ErrSegmentFull
| ErrNonContiguous (got want : Z)
| ErrBadSegmentHeader (why : header_fault)
| ErrSequenceExhausted
| ErrChecksumMismatch (why : sidecar_fault)
| ErrIdentityMismatch (srcConf : bytes) (verConf : Z) (srcDur : bytes) (verDur : Z)
| CorruptionError (segment : bytes) (offset sequence : Z) (detail : corruption_detail)
| ErrAckBackward (ack through : Z)
| ErrAckGap (start want : Z)
| ErrAckBeyondDurable (ack highest : Z)
| ErrAckBeyondSent (ack : Z)
| ErrInFlightConflict
| ErrInFlightRange (first last : Z)
| ErrReserveRunID (id : bytes)
| ErrCapacityConfig
| ErrSourceIDLength (len : Z)
| ErrFirstSequence (seq : Z)
| ErrUncleanFrame (off : Z)
| ErrFrameSequence (got off want : Z)
| ErrSegmentName (name : bytes)
| ErrNotUnderWal
| ErrReadRange (first last : Z)
| ErrSpoolConfig (field : bytes)
| ErrIdentityMissing (ack : Z)
| ErrObservationShape
| ErrObservationKind
| OutOfFuel
| ErrIO (op : io_op).

#[export] Instance header_fault_eq_dec : EqDecision header_fault.
Proof. solve_decision. Defined.
#[export] Instance sidecar_fault_eq_dec : EqDecision sidecar_fault.
Proof. solve_decision. Defined.
#[export] Instance corruption_detail_eq_dec : EqDecision corruption_detail.
Proof. solve_decision. Defined.
#[export] Instance spool_error_eq_dec : EqDecision spool_error.
Proof. solve_decision. Defined.

(** [errors.Is(err, ErrChecksumMismatch)]. *)
Definition is_checksum_mismatch (e : spool_error) : bool :=
  match e with ErrChecksumMismatch _ => true | _ => false end.

(** [errors.As(err, *CorruptionError)]. *)
Definition is_corruption (e : spool_error) : bool :=
  match e with CorruptionError _ _ _ _ => true | _ => false end.

(** Result of a spool call. *)
Abbreviation sres := (result spool_error).
