(* ===== verification/Frame.v ===== *)
(** * The observation-frame codec ([internal/observer/spool/frame.go])

    [EncodeFrame] and [DecodeFrame] over byte lists, with the fixed 56-byte header, its own
    CRC-32C, the CRC-32C over header and payload, and the SHA-256 of the payload. The theorems:
    decoding inverts encoding whatever follows; every strict prefix of a frame is [FrameIncomplete]
    (a torn tail), never corruption; whatever decodes as [FrameOK] is exactly the encoding of the
    decoded frame; and a frame altered in any single byte of its header, payload or checksum is
    [FrameCorrupt]. *)

From S2P Require Import Prelude Hash SpoolTypes.

Definition FrameMagic : Z := 0x4F465231.
Definition frameVersion : byte := x02.
Definition headerPrefixLen : nat := 52.
Definition fixedFrameHeaderLen : nat := 56.
Definition frameCRCLen : nat := 4.
Definition offFrameMagic : nat := 0.
Definition offFrameVersion : nat := 4.
Definition offFrameFlags : nat := 5.
Definition offFrameHeaderLen : nat := 6.
Definition offFramePayLen : nat := 8.
Definition offFrameSequence : nat := 12.
Definition offFrameSHA : nat := 20.
Definition offFrameHeaderCRC : nat := 52.
Definition MaxFramePayload : Z := Z.shiftl 4 20.

Record Frame : Type := mkFrame {
  fr_Sequence : Z;
  fr_Flags : byte;
  fr_Payload : bytes;
  fr_SHA256 : bytes;
}.

#[export] Instance Frame_eq_dec : EqDecision Frame.
Proof. solve_decision. Defined.

Inductive FrameStatus : Type := FrameOK | FrameIncomplete | FrameCorrupt.

#[export] Instance FrameStatus_eq_dec : EqDecision FrameStatus.
Proof. solve_decision. Defined.

(** Go's [Frame{}]. *)
Definition zeroFrame : Frame := mkFrame 0 x00 [] (replicate 32 x00).

(** The 52 bytes the header CRC covers: magic, version, flags, header length, payload length,
    sequence and payload hash, at the offsets above. *)
Definition frame_prefix (f : Frame) : bytes :=
  be_enc 4 FrameMagic ++ [frameVersion] ++ [fr_Flags f]
    ++ be_enc 2 (Z.of_nat fixedFrameHeaderLen) ++ be_enc 4 (zlen (fr_Payload f))
    ++ be_enc 8 (u64 (fr_Sequence f)) ++ sha256 (fr_Payload f).

Definition frame_header (f : Frame) : bytes :=
  frame_prefix f ++ be_enc 4 (crc32c (frame_prefix f)).

Definition frame_body (f : Frame) : bytes := frame_header f ++ fr_Payload f.

(** The bytes [EncodeFrame] builds once its two guards passed. *)
Definition frame_bytes (f : Frame) : bytes := frame_body f ++ be_enc 4 (crc32c (frame_body f)).

Definition EncodeFrame (f : Frame) : sres bytes :=
  if (fr_Sequence f <? SequenceMin) || (SequenceMax <? fr_Sequence f)
  then Err (ErrSequenceOutOfRange (fr_Sequence f))
  else if MaxFramePayload <? zlen (fr_Payload f)
  then Err (ErrRecordTooLarge (zlen (fr_Payload f)) MaxFramePayload)
  else Ok (frame_bytes f).

Definition DecodeFrame (data : bytes) : Frame * nat * FrameStatus :=
  if (length data <? fixedFrameHeaderLen)%nat then (zeroFrame, O, FrameIncomplete)
  else if negb (crc32c (take headerPrefixLen data) =? be_dec (slice offFrameHeaderCRC 4 data))
  then (zeroFrame, O, FrameCorrupt)
  else if negb (be_dec (slice offFrameMagic 4 data) =? FrameMagic)
  then (zeroFrame, O, FrameCorrupt)
  else if negb (bool_decide (data !! offFrameVersion = Some frameVersion))
  then (zeroFrame, O, FrameCorrupt)
  else if negb (be_dec (slice offFrameHeaderLen 2 data) =? Z.of_nat fixedFrameHeaderLen)
  then (zeroFrame, O, FrameCorrupt)
  else
    let payloadLen := be_dec (slice offFramePayLen 4 data) in
    if MaxFramePayload <? payloadLen then (zeroFrame, O, FrameCorrupt)
    else
      let seq := i64 (be_dec (slice offFrameSequence 8 data)) in
      if seq <? SequenceMin then (zeroFrame, O, FrameCorrupt)
      else if zlen data <? Z.of_nat fixedFrameHeaderLen + payloadLen + Z.of_nat frameCRCLen
      then (zeroFrame, O, FrameIncomplete)
      else
        let plen := Z.to_nat payloadLen in
        let body := take (fixedFrameHeaderLen + plen) data in
        let storedCRC := be_dec (slice (fixedFrameHeaderLen + plen) 4 data) in
        if negb (crc32c body =? storedCRC) then (zeroFrame, O, FrameCorrupt)
        else
          let payload := slice fixedFrameHeaderLen plen data in
          let sha := slice offFrameSHA 32 data in
          if bool_decide (sha256 payload = sha)
          then (mkFrame seq (nth offFrameFlags data x00) payload sha,
                (fixedFrameHeaderLen + plen + frameCRCLen)%nat, FrameOK)
          else (zeroFrame, O, FrameCorrupt).

(** What the encoder accepts. *)
Definition frame_ok (f : Frame) : Prop :=
  SequenceMin <= fr_Sequence f <= SequenceMax /\ zlen (fr_Payload f) <= MaxFramePayload.

#[export] Instance frame_ok_dec f : Decision (frame_ok f).
Proof. unfold frame_ok. apply _. Defined.

(** The frame a decoder hands back for [f]: the same, with the hash of its payload. *)
Definition sealed (f : Frame) : Frame :=
  mkFrame (fr_Sequence f) (fr_Flags f) (fr_Payload f) (sha256 (fr_Payload f)).

(** ** Geometry *)

Lemma length_frame_prefix f : length (frame_prefix f) = 52%nat.
Proof. unfold frame_prefix. len. Qed.

Lemma length_frame_header f : length (frame_header f) = 56%nat.
Proof. unfold frame_header. rewrite length_app, length_frame_prefix, length_be_enc. done. Qed.

Lemma zlen_frame_header f : zlen (frame_header f) = 56.
Proof. unfold zlen. by rewrite length_frame_header. Qed.

#[export] Hint Rewrite length_frame_prefix length_frame_header : len.

Lemma length_frame_bytes f : length (frame_bytes f) = (60 + length (fr_Payload f))%nat.
Proof. unfold frame_bytes, frame_body. len. Qed.

#[export] Hint Rewrite length_frame_bytes : len.

Lemma EncodeFrame_ok f : frame_ok f -> EncodeFrame f = Ok (frame_bytes f).
Proof.
  intros [[H1 H2] H3]. unfold EncodeFrame.
  rewrite (proj2 (Z.ltb_ge _ _)), (proj2 (Z.ltb_ge _ _)), (proj2 (Z.ltb_ge _ _)) by done. done.
Qed.

Lemma EncodeFrame_inv f l : EncodeFrame f = Ok l -> frame_ok f /\ l = frame_bytes f.
Proof.
  unfold EncodeFrame, frame_ok. intros H. repeat case_step; try discriminate.
  bool_to_prop. split; [lia | congruence].
Qed.

(** ** Reading the header back *)

Section header_fields.
Context (f : Frame) (rest : bytes) (Hok : frame_ok f).
Let data := frame_header f ++ rest.

Lemma hdr_prefix : take headerPrefixLen data = frame_prefix f.
Proof.
  unfold data, frame_header. rewrite <-app_assoc.
  apply take_app_length'. by rewrite length_frame_prefix.
Qed.

Lemma hdr_crc : be_dec (slice offFrameHeaderCRC 4 data) = crc32c (frame_prefix f).
Proof.
  unfold data, frame_header, offFrameHeaderCRC. rewrite <-app_assoc. slices.
  apply be_dec_enc_id. apply is32_crc32c.
Qed.

Lemma hdr_magic : be_dec (slice offFrameMagic 4 data) = FrameMagic.
Proof. unfold data, frame_header, frame_prefix, offFrameMagic. rewrite <-!app_assoc. slices. reflexivity. Qed.

Lemma hdr_version : data !! offFrameVersion = Some frameVersion.
Proof.
  unfold data, frame_header, frame_prefix, offFrameVersion. rewrite <-!app_assoc.
  rewrite lookup_app_r by len. reflexivity.
Qed.

Lemma hdr_flags : nth offFrameFlags data x00 = fr_Flags f.
Proof.
  unfold data, frame_header, frame_prefix, offFrameFlags. rewrite <-!app_assoc.
  rewrite app_nth2 by len. reflexivity.
Qed.

Lemma hdr_len : be_dec (slice offFrameHeaderLen 2 data) = 56.
Proof. unfold data, frame_header, frame_prefix, offFrameHeaderLen. rewrite <-!app_assoc. slices. reflexivity. Qed.

Lemma hdr_paylen : be_dec (slice offFramePayLen 4 data) = zlen (fr_Payload f).
Proof.
  unfold data, frame_header, frame_prefix, offFramePayLen. rewrite <-!app_assoc. slices. apply be_dec_enc_id. destruct Hok as [_ H]. change MaxFramePayload with 4194304 in H.
  change (256 ^ Z.of_nat 4) with 4294967296. pose proof (zlen_nonneg (fr_Payload f)). lia.
Qed.

Lemma hdr_seq : i64 (be_dec (slice offFrameSequence 8 data)) = fr_Sequence f.
Proof.
  unfold data, frame_header, frame_prefix, offFrameSequence. rewrite <-!app_assoc. slices. destruct Hok as [[H1 H2] _]. unfold SequenceMin, SequenceMax, MaxInt64 in *.
  rewrite be_dec_enc_id by apply (Z.mod_pos_bound _ (2^64) ltac:(lia)).
  rewrite i64_u64. apply i64_id. unfold in_i64, MaxInt64. lia.
Qed.

Lemma hdr_sha : slice offFrameSHA 32 data = sha256 (fr_Payload f).
Proof.
  unfold data, frame_header, frame_prefix, offFrameSHA. rewrite <-!app_assoc. by slices.
Qed.
End header_fields.

(** Decoding anything that starts with the header of an encodable frame: every header check passes,
    and only the bytes after it decide. *)
Lemma DecodeFrame_header f data : frame_ok f -> take 56 data = frame_header f ->
  DecodeFrame data =
    let plen := length (fr_Payload f) in
    if (length data <? 60 + plen)%nat then (zeroFrame, O, FrameIncomplete)
    else if negb (crc32c (take (56 + plen) data) =? be_dec (slice (56 + plen) 4 data))
    then (zeroFrame, O, FrameCorrupt)
    else if bool_decide (sha256 (slice 56 plen data) = sha256 (fr_Payload f))
    then (mkFrame (fr_Sequence f) (fr_Flags f) (slice 56 plen data) (sha256 (fr_Payload f)),
          (60 + plen)%nat, FrameOK)
    else (zeroFrame, O, FrameCorrupt).
Proof.
  intros Hok Hhd. rewrite <-(take_drop 56 data), Hhd. generalize (drop 56 data). intros rest.
  unfold DecodeFrame.
  rewrite (proj2 (Nat.ltb_ge _ _)) by (unfold fixedFrameHeaderLen; len).
  rewrite hdr_prefix, hdr_crc, Z.eqb_refl, hdr_magic, Z.eqb_refl. cbn [negb].
  rewrite bool_decide_eq_true_2 by apply hdr_version. cbn [negb].
  rewrite hdr_len, hdr_paylen by done. change (Z.of_nat fixedFrameHeaderLen) with 56.
  change (Z.of_nat frameCRCLen) with 4. cbv zeta. cbn [Z.eqb Pos.eqb negb].
  rewrite hdr_seq, hdr_sha, hdr_flags by done.
  destruct Hok as [[H1 _] H3].
  rewrite (proj2 (Z.ltb_ge _ _)), (proj2 (Z.ltb_ge _ _)) by done.
  replace (Z.to_nat (zlen (fr_Payload f))) with (length (fr_Payload f)) by (unfold zlen; lia).
  change fixedFrameHeaderLen with 56%nat. change frameCRCLen with 4%nat.
  replace (56 + length (fr_Payload f) + 4)%nat with (60 + length (fr_Payload f))%nat by lia.
  replace (zlen (frame_header f ++ rest) <? _)
    with (length (frame_header f ++ rest) <? 60 + length (fr_Payload f))%nat; [done|].
  apply eq_true_iff_eq. rewrite Z.ltb_lt, Nat.ltb_lt. unfold zlen. lia.
Qed.

(** ** What decoding promises *)

Lemma frame_bytes_header f rest : take 56 (frame_bytes f ++ rest) = frame_header f.
Proof.
  unfold frame_bytes, frame_body. rewrite <-!app_assoc. apply take_app_length'. len.
Qed.

Lemma frame_bytes_body f rest :
  take (56 + length (fr_Payload f)) (frame_bytes f ++ rest) = frame_body f.
Proof.
  unfold frame_bytes. rewrite <-app_assoc. apply take_app_length'. unfold frame_body. len.
Qed.

Lemma frame_bytes_payload f rest : slice 56 (length (fr_Payload f)) (frame_bytes f ++ rest) = fr_Payload f.
Proof. unfold frame_bytes, frame_body. rewrite <-!app_assoc. by slices. Qed.

Lemma frame_bytes_crc f rest :
  crc32c (take (56 + length (fr_Payload f)) (frame_bytes f ++ rest))
  = be_dec (slice (56 + length (fr_Payload f)) 4 (frame_bytes f ++ rest)).
Proof.
  rewrite frame_bytes_body. unfold frame_bytes. rewrite <-app_assoc.
  assert (length (frame_body f) = 56 + length (fr_Payload f))%nat as <- by (unfold frame_body; len).
  rewrite slice_app_r, Nat.sub_diag, slice_0 by len. by rewrite be_dec_enc_id by apply is32_crc32c.
Qed.

Lemma frame_bytes_header_crc f rest :
  crc32c (take 52 (frame_bytes f ++ rest)) = be_dec (slice 52 4 (frame_bytes f ++ rest)).
Proof.
  unfold frame_bytes, frame_body. rewrite <-!app_assoc.
  etrans; [|symmetry; apply hdr_crc]. f_equal. apply hdr_prefix.
Qed.

Lemma frame_decode f rest :
  frame_ok f -> DecodeFrame (frame_bytes f ++ rest) = (sealed f, length (frame_bytes f), FrameOK).
Proof.
  intros Hok. rewrite (DecodeFrame_header f) by (done || apply frame_bytes_header).
  cbv zeta. rewrite (proj2 (Nat.ltb_ge _ _)) by len.
  rewrite frame_bytes_crc, Z.eqb_refl, frame_bytes_payload. cbn [negb].
  rewrite bool_decide_eq_true_2 by done. by rewrite length_frame_bytes.
Qed.

Lemma frame_torn f k :
  frame_ok f -> (k < length (frame_bytes f))%nat ->
  DecodeFrame (take k (frame_bytes f)) = (zeroFrame, O, FrameIncomplete).
Proof.
  intros Hok Hk. rewrite length_frame_bytes in Hk.
  destruct (Nat.lt_ge_cases k 56) as [H|H].
  - unfold DecodeFrame. rewrite (proj2 (Nat.ltb_lt _ _)); [done|].
    unfold fixedFrameHeaderLen. rewrite length_take. lia.
  - rewrite (DecodeFrame_header f); [|done|].
    + cbv zeta. rewrite (proj2 (Nat.ltb_lt _ _)); [done|]. len.
    + rewrite take_take, Nat.min_l by done. rewrite <-(app_nil_r (frame_bytes f)). apply frame_bytes_header.
Qed.

Lemma u64_i64 x : 0 <= x < 2^64 -> u64 (i64 x) = x.
Proof.
  intros H. unfold u64, i64. rewrite Zminus_mod, Z.mod_mod, <-Zminus_mod by lia.
  replace (x + 2^63 - 2^63) with x by lia. by apply Z.mod_small.
Qed.

(** The twelve checks of a successful decode, in the order the code makes them. *)
Lemma DecodeFrame_OK_inv data fr n :
  DecodeFrame data = (fr, n, FrameOK) ->
  let plen := Z.to_nat (be_dec (slice 8 4 data)) in
  (60 + plen <= length data)%nat
  /\ crc32c (take 52 data) = be_dec (slice 52 4 data)
  /\ be_dec (slice 0 4 data) = FrameMagic /\ data !! 4%nat = Some frameVersion
  /\ be_dec (slice 6 2 data) = 56 /\ be_dec (slice 8 4 data) <= MaxFramePayload
  /\ crc32c (take (56 + plen) data) = be_dec (slice (56 + plen) 4 data)
  /\ sha256 (slice 56 plen data) = slice 20 32 data
  /\ SequenceMin <= i64 (be_dec (slice 12 8 data))
  /\ n = (60 + plen)%nat
  /\ fr = mkFrame (i64 (be_dec (slice 12 8 data))) (nth 5 data x00) (slice 56 plen data) (slice 20 32 data).
Proof.
  unfold DecodeFrame. intros H.
  destruct (length data <? _)%nat eqn:E0; [discriminate|]. apply Nat.ltb_ge in E0.
  repeat (case_step; try discriminate). bool_to_prop. cbv zeta.
  change (Z.of_nat fixedFrameHeaderLen) with 56 in *. change (Z.of_nat frameCRCLen) with 4 in *.
  pose proof (be_dec_range (slice offFramePayLen 4 data)).
  unfold offFrameMagic, offFrameVersion, offFrameHeaderLen, offFramePayLen, offFrameSequence, offFrameSHA,
    offFrameHeaderCRC, headerPrefixLen, fixedFrameHeaderLen, frameCRCLen, offFrameFlags in *.
  injection H as <- <-. unfold zlen in *.
  repeat split; try done; lia.
Qed.

Lemma frame_sound data fr n :
  DecodeFrame data = (fr, n, FrameOK) ->
  frame_ok fr /\ fr = sealed fr /\ n = length (frame_bytes fr) /\ data = frame_bytes fr ++ drop n data.
Proof.
  intros H. apply DecodeFrame_OK_inv in H as (Hl&Hc&Hm&Hv&Hhl&Hmax&Hfc&Hs&Hq&->&->).
  set (plen := Z.to_nat (be_dec (slice 8 4 data))) in *.
  set (fr := mkFrame _ _ _ _).
  pose proof (be_dec_range (slice 8 4 data)) as Hr8.
  pose proof (be_dec_range (slice 12 8 data)) as Hr12.
  assert (Hlen : forall off k, (off + k <= 60 + plen)%nat -> length (slice off k data) = k)
    by (intros; apply length_slice; lia).
  assert (Hpl : zlen (fr_Payload fr) = be_dec (slice 8 4 data))
    by (cbn; unfold zlen; rewrite Hlen by lia; lia).
  assert (Hok : frame_ok fr).
  { split; [|lia]. pose proof (i64_range (be_dec (slice 12 8 data))) as [_ ?]. cbn. done. }
  assert (Hplen : length (fr_Payload fr) = plen) by (cbn; apply Hlen; lia).
  split; [done|]. split; [unfold sealed, fr; cbn; by rewrite Hs|].
  split; [rewrite length_frame_bytes; lia|].
  rewrite <-(take_drop (60 + plen) data) at 1. f_equal. symmetry.
  assert (Hpre : frame_prefix fr = take 52 data).
  { change 52%nat with (4 + 1 + 1 + 2 + 4 + 8 + 32)%nat. rewrite !take_slice. unfold frame_prefix. rewrite <-!app_assoc.
    rewrite <-(slice_be 0 4 data _ ltac:(lia) Hm). change (slice 0 4 data) with (take 4 (drop 0 data)). rewrite drop_0.
    rewrite Hpl, <-(slice_be 8 4 data _ ltac:(lia) eq_refl).
    change (Z.of_nat fixedFrameHeaderLen) with 56. rewrite <-(slice_be 6 2 data _ ltac:(lia) Hhl). cbn [fr fr_Sequence fr_Flags fr_Payload Nat.add].
    rewrite (u64_i64 (be_dec (slice 12 8 data))) by (unfold zlen in Hr12; rewrite Hlen in Hr12 by lia; done).
    rewrite <-(slice_be 12 8 data _ ltac:(lia) eq_refl), Hs.
    rewrite (slice_1 4 data _ Hv), (slice_1 5 data (nth 5 data x00)); [done|].
    apply nth_lookup_lt. lia. }
  assert (Hhd : frame_header fr = take 56 data).
  { unfold frame_header. rewrite Hpre, (take_slice 52 4), Hc. f_equal. symmetry. apply slice_be; [lia|done]. }
  unfold frame_bytes, frame_body. rewrite Hhd. cbn [fr fr_Payload]. rewrite <-take_slice, Hfc.
  replace (60 + plen)%nat with (56 + plen + 4)%nat by lia. rewrite (take_slice (56 + plen) 4).
  f_equal. symmetry. apply slice_be; [lia|done].
Qed.

(** *** Corruption of a complete frame *)

Lemma frame_one_byte f i b c rest :
  frame_ok f -> frame_bytes f !! i = Some b -> b <> c ->
  DecodeFrame (<[i:=c]> (frame_bytes f) ++ rest) = (zeroFrame, O, FrameCorrupt).
Proof.
  intros Hok Hi Hbc.
  pose proof (lookup_lt_Some _ _ _ Hi) as Hlt. rewrite length_frame_bytes in Hlt.
  rewrite <-insert_app_l by (rewrite length_frame_bytes; lia).
  assert (Hi' : (frame_bytes f ++ rest) !! i = Some b) by (by apply lookup_app_l_Some).
  destruct (Nat.lt_ge_cases i 56) as [H|H].
  - (* header: the fixed-header CRC fails *)
    unfold DecodeFrame. rewrite (proj2 (Nat.ltb_ge _ _)) by (unfold fixedFrameHeaderLen; len).
    replace (negb _) with true; [done|]. symmetry. apply negb_true_iff, Z.eqb_neq.
    apply (crc32c_trailer_insert 52 _ _ b); [apply frame_bytes_header_crc|done..].
  - (* payload or frame CRC: the header is intact and the frame CRC fails *)
    rewrite (DecodeFrame_header f);
      [|done|rewrite take_insert_ge by lia; apply frame_bytes_header].
    cbv zeta. rewrite (proj2 (Nat.ltb_ge _ _)) by len.
    replace (negb _) with true; [done|]. symmetry. apply negb_true_iff, Z.eqb_neq.
    apply (crc32c_trailer_insert _ _ _ b); [apply frame_bytes_crc|done..|lia].
Qed.

(** ** The codec's properties *)

(** Decoding inverts encoding, whatever bytes follow the frame. *)
Theorem DecodeFrame_EncodeFrame f l rest :
  EncodeFrame f = Ok l -> DecodeFrame (l ++ rest) = (sealed f, length l, FrameOK).
Proof. intros [Hok ->]%EncodeFrame_inv. by apply frame_decode. Qed.

(** A frame cut anywhere before its last byte is a torn tail, never OK and never corruption. *)
Theorem DecodeFrame_torn f l k :
  EncodeFrame f = Ok l -> (k < length l)%nat ->
  DecodeFrame (take k l) = (zeroFrame, O, FrameIncomplete).
Proof. intros [Hok ->]%EncodeFrame_inv. by apply frame_torn. Qed.

(** C8: whatever decodes as [FrameOK] is exactly the encoding of the decoded frame, which carries the
    hash of its payload: the decoder accepts no byte string the encoder would not write. *)
Theorem DecodeFrame_sound data fr n :
  DecodeFrame data = (fr, n, FrameOK) ->
  exists rest, EncodeFrame fr = Ok (take n data) /\ data = take n data ++ rest /\ fr = sealed fr.
Proof.
  intros (Hok&Hs&->&Hd)%frame_sound. exists (drop (length (frame_bytes fr)) data).
  rewrite take_drop, (EncodeFrame_ok _ Hok). rewrite Hd at 1. by rewrite take_app_length.
Qed.

(** Altering any single byte of an encoded frame (header, payload or trailing checksum) makes it
    [FrameCorrupt] whatever bytes follow: it is never taken for a valid frame, and an altered
    [payload_length] is never taken for a short read. *)
Theorem DecodeFrame_one_byte f l i b c rest :
  EncodeFrame f = Ok l -> l !! i = Some b -> b <> c ->
  DecodeFrame (<[i:=c]> l ++ rest) = (zeroFrame, O, FrameCorrupt).
Proof. intros [Hok ->]%EncodeFrame_inv. by apply frame_one_byte. Qed.

(** ** Witnesses *)

(** A concrete frame. *)
Definition demo_frame (seq : Z) : Frame := mkFrame seq x01 (str "hello") (replicate 32 x00).

Lemma demo_frame_ok seq : SequenceMin <= seq <= SequenceMax -> frame_ok (demo_frame seq).
Proof. intros H. split; [done|]. by vm_compute. Qed.

Lemma DecodeFrame_EncodeFrame_witness :
  EncodeFrame (demo_frame 7) = Ok (frame_bytes (demo_frame 7))
  /\ DecodeFrame (frame_bytes (demo_frame 7) ++ str "next")
     = (sealed (demo_frame 7), length (frame_bytes (demo_frame 7)), FrameOK).
Proof.
  split; [reflexivity|].
  apply (DecodeFrame_EncodeFrame (demo_frame 7) (frame_bytes (demo_frame 7)) (str "next")). reflexivity.
Defined.

Lemma DecodeFrame_torn_witness :
  (64 < length (frame_bytes (demo_frame 7)))%nat
  /\ DecodeFrame (take 64 (frame_bytes (demo_frame 7))) = (zeroFrame, O, FrameIncomplete).
Proof.
  assert (H : (64 < length (frame_bytes (demo_frame 7)))%nat) by (rewrite length_frame_bytes; cbn; lia).
  split; [exact H|].
  apply (DecodeFrame_torn (demo_frame 7) (frame_bytes (demo_frame 7)) 64); [reflexivity|exact H].
Defined.

Lemma DecodeFrame_sound_witness :
  exists rest, EncodeFrame (sealed (demo_frame 7)) = Ok (take 65 (frame_bytes (demo_frame 7) ++ str "next"))
    /\ frame_bytes (demo_frame 7) ++ str "next"
       = take 65 (frame_bytes (demo_frame 7) ++ str "next") ++ rest
    /\ sealed (demo_frame 7) = sealed (sealed (demo_frame 7)).
Proof.
  apply (DecodeFrame_sound (frame_bytes (demo_frame 7) ++ str "next") (sealed (demo_frame 7)) 65).
  vm_compute. reflexivity.
Defined.

Lemma DecodeFrame_one_byte_witness :
  frame_bytes (demo_frame 7) !! 11%nat = Some x05 /\ x05 <> x06
  /\ DecodeFrame (<[11%nat:=x06]> (frame_bytes (demo_frame 7)) ++ []) = (zeroFrame, O, FrameCorrupt).
Proof.
  assert (H : frame_bytes (demo_frame 7) !! 11%nat = Some x05) by (vm_compute; reflexivity).
  split; [exact H|]. split; [discriminate|].
  apply (DecodeFrame_one_byte (demo_frame 7) (frame_bytes (demo_frame 7)) 11 x05 x06 []);
    [reflexivity|exact H|discriminate].
Defined.
