(* ===== verification/Fs.v ===== *)
(** * The spool's file system

    The state directory of one spool as finite maps: the control files at its root ([identity],
    [ack], [reserves], the consent ledger), [wal/] and [recovery/]. The file-system calls the spool
    makes are operations of a small monad that threads the directory, may fail as a fault injection
    says, and records every intermediate directory a crash could leave behind; an append leaves any
    prefix of the bytes it writes. [ensureDir], [fsyncDir] and [atomicWriteFile]
    ([internal/observer/spool/segment.go]) are modelled on top of it. *)

From S2P Require Import Prelude SpoolTypes.

(** ** State *)

Inductive entry : Type := EFile (data : bytes) | EDir.

#[export] Instance entry_eq_dec : EqDecision entry.
Proof. solve_decision. Defined.

(** A directory's entries by name. *)
Abbreviation dirmap := (gmap bytes entry).

(** The directories the spool touches. *)
Inductive dirname : Type := DRoot | DWal | DRecovery.

#[export] Instance dirname_eq_dec : EqDecision dirname.
Proof. solve_decision. Defined.

(** [None]: the directory does not exist. The state root always does. *)
Record disk : Type := mkDisk {
  d_root : dirmap;
  d_wal : option dirmap;
  d_recovery : option dirmap;
}.

#[export] Instance disk_eq_dec : EqDecision disk.
Proof. solve_decision. Defined.

Definition get_dir (n : dirname) (d : disk) : option dirmap :=
  match n with DRoot => Some (d_root d) | DWal => d_wal d | DRecovery => d_recovery d end.

Definition set_dir (n : dirname) (m : dirmap) (d : disk) : disk :=
  match n with
  | DRoot => mkDisk m (d_wal d) (d_recovery d)
  | DWal => mkDisk (d_root d) (Some m) (d_recovery d)
  | DRecovery => mkDisk (d_root d) (d_wal d) (Some m)
  end.

(** The entries of a directory; an absent one has none. *)
Definition entries (n : dirname) (d : disk) : dirmap := default ∅ (get_dir n d).

Definition put (n : dirname) (name : bytes) (e : entry) (d : disk) : disk :=
  set_dir n (<[name := e]> (entries n d)) d.

Definition del (n : dirname) (name : bytes) (d : disk) : disk :=
  set_dir n (delete name (entries n d)) d.

(** The bytes of a regular file. *)
Definition file (n : dirname) (name : bytes) (d : disk) : option bytes :=
  match entries n d !! name with Some (EFile b) => Some b | _ => None end.

(** ** The monad *)

(** Which call on which file name fails. *)
Definition faults : Type := io_op -> bytes -> bool.
Definition no_faults : faults := fun _ _ => false.

(** What surrounds a run: the faults, how many bytes a failing write still lands, the random suffix
    [os.CreateTemp] picks and the clock. *)
Record env : Type := mkEnv {
  e_flt : faults;
  e_torn : nat;
  e_tmp : bytes;
  e_now : Z;
}.

(** A run yields the directories a crash during it could leave, its result, and the directory it
    ends in. *)
Definition IO (A : Type) : Type := disk -> list disk * sres A * disk.

Definition io_ret {A} (a : A) : IO A := fun d => ([], Ok a, d).
Definition io_err {A} (e : spool_error) : IO A := fun d => ([], Err e, d).

Definition io_bind {A B} (m : IO A) (f : A -> IO B) : IO B := fun d =>
  let '(t1, r, d1) := m d in
  match r with
  | Err e => (t1, Err e, d1)
  | Ok a => let '(t2, r2, d2) := f a d1 in (t1 ++ t2, r2, d2)
  end.

Declare Scope io_scope.
Delimit Scope io_scope with io.
Notation "'let!' x := m 'in' k" := (io_bind m (fun x => k))
  (at level 10, x pattern, m at level 100, k at level 200) : io_scope.
Notation "m ;! k" := (io_bind m (fun _ => k))
  (at level 199, k at level 200, right associativity) : io_scope.
Open Scope io_scope.

(** Lift a pure result. *)
Definition io_of {A} (r : sres A) : IO A := fun d => ([], r, d).

(** Run [m]; if it fails, run [cleanup] (whose own failure is ignored) and keep the error. *)
Definition io_cleanup {A} (m : IO A) (cleanup : IO unit) : IO A := fun d =>
  let '(t1, r, d1) := m d in
  match r with
  | Ok a => (t1, Ok a, d1)
  | Err e => let '(t2, _, d2) := cleanup d1 in (t1 ++ t2, Err e, d2)
  end.

(** One call: it fails without effect when the fault says so, otherwise it applies [f]; the
    directory before it is a crash state. *)
Definition io_call (ev : env) (op : io_op) (name : bytes) (f : disk -> disk) : IO unit := fun d =>
  if e_flt ev op name then ([d], Err (ErrIO op), d) else ([d], Ok tt, f d).

(** A call that only observes. *)
Definition io_check (ev : env) (op : io_op) (name : bytes) : IO unit := io_call ev op name id.

(** A file's content after [data] was written at [off] (a gap is zero-filled). *)
Definition write_at (c : bytes) (off : nat) (data : bytes) : bytes :=
  match data with
  | [] => c
  | _ => take off c ++ replicate (off - length c) x00 ++ data ++ drop (off + length data) c
  end.

(** [f.WriteAt(data, off)]: a crash leaves any prefix of [data] written; a failing write leaves the
    first [e_torn] bytes. *)
Definition io_writeAt (ev : env) (n : dirname) (name : bytes) (off : nat) (data : bytes) : IO unit := fun d =>
  let at_ k := put n name (EFile (write_at (default [] (file n name d)) off (take k data))) d in
  if e_flt ev IoWrite name
  then (at_ <$> seq 0 (S (e_torn ev)), Err (ErrIO IoWrite), at_ (e_torn ev))
  else (at_ <$> seq 0 (S (length data)), Ok tt, at_ (length data)).

(** [f.Truncate(size)]. *)
Definition io_truncate (ev : env) (n : dirname) (name : bytes) (size : nat) : IO unit :=
  io_call ev IoTruncate name (fun d =>
    let c := default [] (file n name d) in
    put n name (EFile (take size c ++ replicate (size - length c) x00)) d).

(** [os.Rename] within a directory; the source must exist. *)
Definition io_rename (ev : env) (n : dirname) (from to : bytes) : IO unit := fun d =>
  match entries n d !! from with
  | Some e => if e_flt ev IoRename from then ([d], Err (ErrIO IoRename), d)
              else ([d], Ok tt, put n to e (del n from d))
  | None => ([d], Err (ErrIO IoRename), d)
  end.

(** [os.ReadFile]: [None] when the file does not exist. *)
Definition readFile (ev : env) (n : dirname) (name : bytes) : IO (option bytes) :=
  io_check ev IoRead name ;! fun d => ([], Ok (file n name d), d).

(** [os.ReadDir]: [None] when the directory does not exist. *)
Definition readDir (ev : env) (n : dirname) (name : bytes) : IO (option dirmap) :=
  io_check ev IoReadDir name ;! fun d => ([], Ok (get_dir n d), d).

(** [os.Remove]: whether the file was there. *)
Definition removeFile (ev : env) (n : dirname) (name : bytes) : IO bool := fun d =>
  if e_flt ev IoRemove name then ([d], Err (ErrIO IoRemove), d)
  else match entries n d !! name with
       | None => ([d], Ok false, d)
       | Some _ => ([d], Ok true, del n name d)
       end.

Definition name_of (n : dirname) : bytes :=
  match n with DRoot => str "." | DWal => str "wal" | DRecovery => str "recovery" end.

(** ** Durable file helpers of segment.go *)

Definition fsyncDir (ev : env) (n : dirname) : IO unit :=
  io_check ev IoOpen (name_of n) ;! io_check ev IoDirSync (name_of n).

(** Create the directory if needed, force its mode, and make a new directory entry durable. *)
Definition ensureDir (ev : env) (n : dirname) : IO unit := fun d =>
  let created := match get_dir n d with None => negb (e_flt ev IoStat (name_of n)) | Some _ => false end in
  (io_call ev IoMkdir (name_of n) (fun d => set_dir n (entries n d) d) ;!
   io_check ev IoChmod (name_of n) ;!
   (if created && negb (e_flt ev IoStat (name_of DRoot)) then fsyncDir ev DRoot else io_ret tt)) d.

(** [AtomicTempPrefix(path)]. *)
Definition AtomicTempPrefix (name : bytes) : bytes := str ".tmp-" ++ name ++ str "-".

(** Temp file, chmod, write, fsync, close, rename, directory fsync; the temp file is removed on a
    failure before the rename. *)
Definition atomicWriteFile (ev : env) (n : dirname) (name data : bytes) : IO unit :=
  let tmp := AtomicTempPrefix name ++ e_tmp ev in
  ensureDir ev n ;!
  io_call ev IoCreate tmp (put n tmp (EFile [])) ;!
  io_cleanup
    (io_check ev IoChmod tmp ;!
     io_writeAt ev n tmp 0 data ;!
     io_check ev IoSync tmp ;!
     io_check ev IoClose tmp ;!
     io_rename ev n tmp name)
    (let! _ := removeFile ev n tmp in io_ret tt) ;!
  fsyncDir ev n.

(** ** Reasoning about runs: a crash Hoare logic

    [crash_triple P m C Q E]: from a directory satisfying [P], every directory a crash can leave
    satisfies [C]; if the run returns, [Q] holds of its result and final directory, and if it fails,
    [E] holds of the final directory. *)

Definition crash_triple {A} (P : disk -> Prop) (m : IO A) (C : disk -> Prop)
    (Q : A -> disk -> Prop) (E : disk -> Prop) : Prop :=
  forall d, P d ->
    let '(t, r, d') := m d in
    Forall C t /\ match r with Ok a => Q a d' | Err _ => E d' end.

Section rules.
Context {A B : Type}.
Implicit Types (P C E : disk -> Prop).

Lemma ct_conseq P P' (m : IO A) C C' Q Q' E E' :
  crash_triple P' m C' Q' E' ->
  (forall d, P d -> P' d) -> (forall d, C' d -> C d) ->
  (forall a d, Q' a d -> Q a d) -> (forall d, E' d -> E d) ->
  crash_triple P m C Q E.
Proof.
  intros H HP HC HQ HE d Hd. specialize (H d (HP _ Hd)).
  destruct (m d) as [[t r] d']. destruct H as [Ht Hr]. split.
  - by eapply Forall_impl.
  - destruct r; eauto.
Qed.

Lemma ct_ret P (a : A) C Q E : (forall d, P d -> Q a d) -> crash_triple P (io_ret a) C Q E.
Proof. intros H d Hd. cbn. eauto using Forall_nil_2. Qed.

Lemma ct_err P e C (Q : A -> disk -> Prop) E : (forall d, P d -> E d) -> crash_triple P (io_err e) C Q E.
Proof. intros H d Hd. cbn. eauto using Forall_nil_2. Qed.

Lemma ct_bind P (m : IO A) (f : A -> IO B) C Q R E :
  crash_triple P m C R E -> (forall a, crash_triple (R a) (f a) C Q E) ->
  crash_triple P (io_bind m f) C Q E.
Proof.
  intros Hm Hf d Hd. specialize (Hm d Hd). unfold io_bind.
  destruct (m d) as [[t1 [a|e]] d1]; destruct Hm as [Ht Hr]; [|done].
  specialize (Hf a d1 Hr). destruct (f a d1) as [[t2 r2] d2]. destruct Hf.
  split; [|done]. by apply Forall_app.
Qed.

Lemma ct_cleanup P (m : IO A) cl C Q E E' :
  crash_triple P m C Q E' -> crash_triple E' cl C (fun _ => E) E ->
  crash_triple P (io_cleanup m cl) C Q E.
Proof.
  intros Hm Hc d Hd. specialize (Hm d Hd). unfold io_cleanup.
  destruct (m d) as [[t1 [a|e]] d1]; destruct Hm as [Ht Hr]; [done|].
  specialize (Hc d1 Hr). destruct (cl d1) as [[t2 r2] d2]. destruct Hc as [? Hc].
  split; [by apply Forall_app|]. by destruct r2.
Qed.
End rules.

Lemma ct_call P ev op name f C Q E :
  (forall d, P d -> C d /\ Q tt (f d) /\ E d) -> crash_triple P (io_call ev op name f) C Q E.
Proof.
  intros H d Hd. destruct (H d Hd) as (?&?&?). unfold io_call.
  by destruct (e_flt ev op name); (split; [by constructor|]).
Qed.

Lemma ct_check P ev op name C Q E :
  (forall d, P d -> C d /\ Q tt d /\ E d) -> crash_triple P (io_check ev op name) C Q E.
Proof. apply ct_call. Qed.

Lemma ct_writeAt P ev n name off data C Q E :
  (forall d k, P d ->
     let d' := put n name (EFile (write_at (default [] (file n name d)) off (take k data))) d in
     C d' /\ E d' /\ (k = length data -> Q tt d')) ->
  crash_triple P (io_writeAt ev n name off data) C Q E.
Proof.
  intros H d Hd. unfold io_writeAt.
  destruct (e_flt ev IoWrite name); split; try (apply Forall_fmap, Forall_forall; intros k _);
    try (by apply (H d _ Hd)); by apply (H d (length data) Hd).
Qed.

Lemma ct_remove P ev n name C (Q : bool -> disk -> Prop) E :
  (forall d, P d -> C d /\ E d /\ (entries n d !! name = None -> Q false d)
               /\ (is_Some (entries n d !! name) -> Q true (del n name d))) ->
  crash_triple P (removeFile ev n name) C Q E.
Proof.
  intros H d Hd. destruct (H d Hd) as (?&?&?&?). unfold removeFile.
  destruct (e_flt ev IoRemove name); [by split; [constructor|]|].
  destruct (entries n d !! name) eqn:?; (split; [by constructor|eauto]).
Qed.

Lemma ct_readFile P ev n name C (Q : option bytes -> disk -> Prop) E :
  (forall d, P d -> C d /\ E d /\ Q (file n name d) d) -> crash_triple P (readFile ev n name) C Q E.
Proof.
  intros H. unfold readFile. eapply ct_bind.
  - apply (ct_check _ _ _ _ _ (fun _ => P)). intros d Hd. destruct (H d Hd) as (?&?&?). done.
  - intros _ d Hd. destruct (H d Hd) as (?&?&?). cbn. split; [constructor|done].
Qed.

Lemma ct_fsyncDir ev n P : crash_triple P (fsyncDir ev n) P (fun _ => P) P.
Proof.
  unfold fsyncDir. apply (ct_bind _ _ _ _ _ (fun _ => P)); [by apply ct_check|]. intros []. by apply ct_check.
Qed.

Create HintDb crash.
Create Rewrite HintDb fs.
#[export] Hint Resolve ct_call ct_check ct_ret : crash.

(** *** Lookups after updates *)

Lemma entries_set n m d : entries n (set_dir n m d) = m.
Proof. by destruct n. Qed.

Lemma get_dir_set_ne n n' m d : n <> n' -> get_dir n' (set_dir n m d) = get_dir n' d.
Proof. by destruct n, n'. Qed.

Lemma entries_put n name e d : entries n (put n name e d) = <[name := e]> (entries n d).
Proof. apply entries_set. Qed.

Lemma entries_del n name d : entries n (del n name d) = delete name (entries n d).
Proof. apply entries_set. Qed.

Lemma set_dir_id n d : is_Some (get_dir n d) -> set_dir n (entries n d) d = d.
Proof. destruct n, d; unfold entries; cbn; [done|..]; by intros [x ->]. Qed.

Lemma set_dir_set n m m' d : set_dir n m (set_dir n m' d) = set_dir n m d.
Proof. by destruct n. Qed.

Lemma get_dir_set n m d : get_dir n (set_dir n m d) = Some m.
Proof. by destruct n. Qed.

(** A directory that agrees with [d'] everywhere but at [n] is [d'] with [n] replaced. *)
Lemma set_dir_ext n d d' :
  is_Some (get_dir n d) -> (forall n', n' <> n -> get_dir n' d = get_dir n' d') ->
  d = set_dir n (entries n d) d'.
Proof.
  intros [m Hm] H. destruct d as [r w c], d' as [r' w' c'].
  pose proof (H DRoot). pose proof (H DWal). pose proof (H DRecovery). cbn in *.
  destruct n; unfold entries; cbn in *; subst; cbn; f_equal; try (by auto);
    match goal with H : _ -> Some _ = Some _ |- _ => by injection H end.
Qed.

Lemma file_lookup n name d c : entries n d !! name = Some (EFile c) -> file n name d = Some c.
Proof. unfold file. by intros ->. Qed.

Lemma file_put n name c d : file n name (put n name (EFile c) d) = Some c.
Proof. apply file_lookup. by rewrite entries_put, lookup_insert_eq. Qed.

#[export] Hint Rewrite entries_set entries_put entries_del set_dir_set : fs.

(** ** The atomic file replacement *)

Section atomic_write.
Context (ev : env) (n : dirname) (name data : bytes) (d0 : disk).
Let tmp := AtomicTempPrefix name ++ e_tmp ev.

(** Only [name] and the temporary file may differ from [d0]; [name] holds [v]. *)
Definition replaced (v : option entry) (d : disk) : Prop :=
  (forall n', n' <> n -> get_dir n' d = get_dir n' d0)
  /\ entries n d !! name = v
  /\ (forall x, x <> name -> x <> tmp -> entries n d !! x = entries n d0 !! x).

Definition old_or_new (d : disk) : Prop :=
  replaced (entries n d0 !! name) d \/ replaced (Some (EFile data)) d.

Lemma tmp_ne_name : tmp <> name.
Proof.
  intros E. apply (f_equal length) in E. unfold tmp, AtomicTempPrefix in E.
  rewrite !length_app in E. cbn in E. lia.
Qed.

Lemma replaced_set v d m : replaced v d ->
  m !! name = v -> (forall x, x <> name -> x <> tmp -> m !! x = entries n d !! x) ->
  replaced v (set_dir n m d).
Proof.
  intros (H1&H2&H3) Hm Hx. split; [|split].
  - intros n' Hn. rewrite get_dir_set_ne by done. auto.
  - by rewrite entries_set.
  - intros x ??. rewrite entries_set, Hx by done. auto.
Qed.

Lemma replaced_put_tmp v d e : replaced v d -> replaced v (put n tmp e d).
Proof.
  intros H. pose proof tmp_ne_name. apply replaced_set; [done|..].
  - rewrite lookup_insert_ne by done. by destruct H as (_&?&_).
  - intros. by rewrite lookup_insert_ne.
Qed.

Lemma replaced_del_tmp v d : replaced v d -> replaced v (del n tmp d).
Proof.
  intros H. pose proof tmp_ne_name. apply replaced_set; [done|..].
  - rewrite lookup_delete_ne by done. by destruct H as (_&?&_).
  - intros. by rewrite lookup_delete_ne.
Qed.

Lemma replaced_rename v d :
  replaced v d -> replaced (Some (EFile data)) (put n name (EFile data) (del n tmp d)).
Proof.
  intros (H1&H2&H3). pose proof tmp_ne_name. split; [|split].
  - intros. unfold put, del. rewrite !get_dir_set_ne by done. auto.
  - by rewrite entries_put, lookup_insert_eq.
  - intros. rewrite entries_put, entries_del, lookup_insert_ne, lookup_delete_ne by done. auto.
Qed.

Lemma ct_ensureDir P :
  (forall d, P d -> P (set_dir n (entries n d) d)) ->
  crash_triple P (ensureDir ev n) P (fun _ => P) P.
Proof.
  intros HP d Hd. unfold ensureDir.
  set (created := match get_dir n d with None => _ | Some _ => _ end).
  assert (H : crash_triple P
    (io_call ev IoMkdir (name_of n) (fun d => set_dir n (entries n d) d) ;!
     io_check ev IoChmod (name_of n) ;!
     (if created && negb (e_flt ev IoStat (name_of DRoot)) then fsyncDir ev DRoot else io_ret tt))
    P (fun _ => P) P); [|exact (H d Hd)].
  eapply ct_bind; [apply (ct_call _ _ _ _ _ _ (fun _ => P)); auto|intros []; cbv beta].
  eapply ct_bind; [apply (ct_check _ _ _ _ _ (fun _ => P)); auto|intros []; cbv beta].
  destruct (created && _); [|by apply ct_ret].
  unfold fsyncDir. eapply ct_bind; [apply (ct_check _ _ _ _ _ (fun _ => P)); auto|intros []; cbv beta].
  by apply ct_check.
Qed.

Definition old (d : disk) : Prop := replaced (entries n d0 !! name) d.
Definition new (d : disk) : Prop := replaced (Some (EFile data)) d.

(** [old], with the temporary file holding [c]. *)
Definition with_tmp (c : bytes) (d : disk) : Prop := old d /\ entries n d !! tmp = Some (EFile c).

Lemma with_tmp_put c d : old d -> with_tmp c (put n tmp (EFile c) d).
Proof. intros H. split; [by apply replaced_put_tmp|]. by rewrite entries_put, lookup_insert_eq. Qed.

Lemma write_at_nil : write_at [] 0 (take (length data) data) = data.
Proof. rewrite firstn_all. unfold write_at. destruct data; [done|]. cbn. by rewrite app_nil_r. Qed.

Lemma old_set d : old d -> old (set_dir n (entries n d) d).
Proof. intros H. apply replaced_set; [done|by destruct H as (_&?&_)|done]. Qed.

Lemma new_is_replacement d :
  entries n d0 !! tmp = None -> entries n d !! tmp = None -> is_Some (get_dir n d) -> new d ->
  d = set_dir n (<[name := EFile data]> (entries n d0)) d0.
Proof.
  intros H0 Ht Hs (H1&H2&H3). rewrite (set_dir_ext n d d0 Hs H1). f_equal.
  apply map_eq. intros x. destruct (decide (x = name)) as [E|].
  - by rewrite E, lookup_insert_eq.
  - rewrite lookup_insert_ne by done. destruct (decide (x = tmp)) as [E|]; [by rewrite E, H0, Ht|by apply H3].
Qed.

Lemma atomic_write_new :
  crash_triple (eq d0) (atomicWriteFile ev n name data) old_or_new
    (fun _ d => new d /\ entries n d !! tmp = None /\ is_Some (get_dir n d)) old_or_new.
Proof.
  unfold atomicWriteFile. fold tmp.
  apply (ct_conseq _ old _ old_or_new old_or_new _
    (fun _ d => new d /\ entries n d !! tmp = None /\ is_Some (get_dir n d)) _ old_or_new);
    [|by intros ? <-; split|done..].
  assert (Ho : forall d, old d -> old_or_new d) by (by left).
  apply (ct_bind _ _ _ _ _ (fun _ => old)).
  { apply (ct_conseq _ old _ _ old _ (fun _ => old) _ old); [by apply ct_ensureDir, old_set|auto..]. }
  intros []; cbv beta. apply (ct_bind _ _ _ _ _ (fun _ => with_tmp [])).
  { apply ct_call. intros d Hd. split_and!; auto. apply with_tmp_put, Hd. }
  intros []; cbv beta. apply (ct_bind _ _ _ _ _ (fun _ d => new d /\ entries n d !! tmp = None /\ is_Some (get_dir n d)));
    [apply (ct_cleanup _ _ _ _ _ _ old)|].
  - apply (ct_bind _ _ _ _ _ (fun _ => with_tmp []));
      [apply ct_check; intros d [Ho' Ht]; by split_and!; auto|intros []; cbv beta].
    apply (ct_bind _ _ _ _ _ (fun _ => with_tmp data)).
    { apply ct_writeAt. intros d k [Ho' Ht].
      split_and!; [apply Ho; by apply replaced_put_tmp|by apply replaced_put_tmp|].
      intros ->. rewrite (file_lookup _ _ _ _ Ht). change (default [] (Some (@nil byte))) with (@nil byte).
      rewrite write_at_nil. apply with_tmp_put, Ho'. }
    intros []; cbv beta.
    do 2 (apply (ct_bind _ _ _ _ _ (fun _ => with_tmp data));
      [apply ct_check; intros d [Ho' Ht]; by split_and!; auto|intros []; cbv beta]).
    intros d [Ho' Ht]. unfold io_rename. rewrite Ht.
    destruct (e_flt ev IoRename tmp); (split; [constructor; [by auto|constructor]|]).
    + done.
    + split_and!; [by eapply replaced_rename| |unfold put; rewrite get_dir_set; eauto].
      rewrite entries_put, entries_del, lookup_insert_ne by (apply not_eq_sym, tmp_ne_name).
      by rewrite lookup_delete_eq.
  - apply (ct_bind _ _ _ _ _ (fun _ => old)); [|intros; by apply ct_ret].
    apply ct_remove. intros d Hd. split_and!; auto. intros _. by apply replaced_del_tmp.
  - intros []; cbv beta. unfold fsyncDir.
  set (R := fun d => new d /\ entries n d !! tmp = None /\ is_Some (get_dir n d)).
  apply (ct_bind _ _ _ _ _ (fun _ => R)); [apply ct_check|intros []; apply ct_check];
    intros d (?&?&?); split_and!; try (by right); done.
Qed.

(** Atomic replacement: at every crash point the file holds its old or its new content and no
    other file changed; success means the new content and nothing else changed; failure leaves
    old or new. *)
Lemma atomic_write_spec :
  entries n d0 !! tmp = None ->
  crash_triple (eq d0) (atomicWriteFile ev n name data) old_or_new
    (fun _ d => d = set_dir n (<[name := EFile data]> (entries n d0)) d0) old_or_new.
Proof.
  intros Hfresh. eapply ct_conseq; [apply atomic_write_new|done|done| |done].
  intros _ d (?&?&?). by apply new_is_replacement.
Qed.
End atomic_write.

(** ** Kinds of runs *)

(** A read-only run. *)
Definition io_reads {A} (m : IO A) : Prop :=
  forall d, let '(t, _, d') := m d in Forall (eq d) t /\ d' = d.

(** Every failure other than that of a file-system call leaves the directory untouched. *)
Definition clean_fail {A} (m : IO A) : Prop :=
  forall d t e d', m d = (t, Err e, d') -> (exists op, e = ErrIO op) \/ (Forall (eq d) t /\ d' = d).

(** Failures are those of file-system calls. *)
Definition io_only {A} (m : IO A) : Prop :=
  forall d t e d', m d = (t, Err e, d') -> exists op, e = ErrIO op.

(** The run never fails with [e0]. *)
Definition never {A} (e0 : spool_error) (m : IO A) : Prop :=
  forall d t d', m d <> (t, Err e0, d').

Section kinds.
Context {A B : Type}.

Lemma reads_clean (m : IO A) : io_reads m -> clean_fail m.
Proof. intros H d t e d' E. specialize (H d). rewrite E in H. by right. Qed.

Lemma only_clean (m : IO A) : io_only m -> clean_fail m.
Proof. intros H d t e d' E. left. eauto. Qed.

Lemma reads_bind (m : IO A) (f : A -> IO B) : io_reads m -> (forall a, io_reads (f a)) -> io_reads (io_bind m f).
Proof.
  intros Hm Hf d. unfold io_bind. specialize (Hm d). destruct (m d) as [[t [a|e]] d1]; [|done].
  destruct Hm as [Ht ->]. specialize (Hf a d). destruct (f a d) as [[t2 r2] d2]. destruct Hf as [? ->].
  split; [by apply Forall_app|done].
Qed.

Lemma clean_bind (m : IO A) (f : A -> IO B) : io_reads m -> (forall a, clean_fail (f a)) -> clean_fail (io_bind m f).
Proof.
  intros Hm Hf d t e d'. unfold io_bind. specialize (Hm d). destruct (m d) as [[t1 [a|e1]] d1]; destruct Hm as [Ht ->].
  - destruct (f a d) as [[t2 r2] d2] eqn:E. intros [= <- -> <-].
    destruct (Hf a _ _ _ _ E) as [H|[H1 H2]]; [by left|right]. split; [by apply Forall_app|done].
  - intros [= <- -> <-]. by right.
Qed.

(** A computation that cannot fail cleanly may follow a write, if all its failures are of calls. *)
Lemma only_bind (m : IO A) (f : A -> IO B) : io_only m -> (forall a, io_only (f a)) -> io_only (io_bind m f).
Proof.
  intros Hm Hf d t e d'. unfold io_bind. destruct (m d) as [[t1 [a|e1]] d1] eqn:E1.
  - destruct (f a d1) as [[t2 r2] d2] eqn:E. intros [= <- -> <-]. by eapply Hf.
  - intros [= <- -> <-]. by eapply Hm.
Qed.

Lemma only_cleanup (m : IO A) c : io_only m -> io_only (io_cleanup m c).
Proof.
  intros Hm d t e d'. unfold io_cleanup. destruct (m d) as [[t1 [a|e1]] d1] eqn:E1; [done|].
  destruct (c d1) as [[t2 r2] d2]. intros [= _ <- _]. by eapply Hm.
Qed.

Lemma never_bind e0 (m : IO A) (f : A -> IO B) : never e0 m -> (forall a, never e0 (f a)) -> never e0 (io_bind m f).
Proof.
  intros Hm Hf d t d'. unfold io_bind. destruct (m d) as [[t1 [a|e1]] d1] eqn:E1.
  - destruct (f a d1) as [[t2 r2] d2] eqn:E. intros [= <- -> <-]. by eapply Hf.
  - intros [= <- -> <-]. by eapply Hm.
Qed.

Lemma only_never e0 (m : IO A) : (forall op, e0 <> ErrIO op) -> io_only m -> never e0 m.
Proof. intros H Hm d t d' E. destruct (Hm _ _ _ _ E) as [op ->]. by eapply H. Qed.
End kinds.

Lemma ret_reads {A} (a : A) : io_reads (io_ret a).
Proof. by intros d. Qed.
Lemma err_reads {A} e : io_reads (io_err e : IO A).
Proof. by intros d. Qed.
Lemma of_reads {A} (r : sres A) : io_reads (io_of r).
Proof. by intros d. Qed.
Lemma check_reads ev op name : io_reads (io_check ev op name).
Proof. intros d. unfold io_check, io_call. destruct (e_flt _ _ _); by repeat constructor. Qed.
Lemma readFile_reads ev n name : io_reads (readFile ev n name).
Proof. apply reads_bind; [apply check_reads|]. by intros _ d. Qed.
Lemma readDir_reads ev n name : io_reads (readDir ev n name).
Proof. apply reads_bind; [apply check_reads|]. by intros _ d. Qed.

Lemma ret_only {A} (a : A) : io_only (io_ret a).
Proof. by intros d. Qed.
Lemma call_only ev op name f : io_only (io_call ev op name f).
Proof. intros d t e d'. unfold io_call. destruct (e_flt _ _ _); [intros [= _ <- _]; eauto|done]. Qed.
Lemma writeAt_only ev n name off data : io_only (io_writeAt ev n name off data).
Proof. intros d t e d'. unfold io_writeAt. destruct (e_flt _ _ _); [intros [= _ <- _]; eauto|done]. Qed.
Lemma rename_only ev n a b : io_only (io_rename ev n a b).
Proof.
  intros d t e d'. unfold io_rename. destruct (entries n d !! a); [|intros [= _ <- _]; eauto].
  destruct (e_flt _ _ _); [intros [= _ <- _]; eauto|done].
Qed.

Create HintDb io_kind.
#[export] Hint Resolve ret_reads err_reads of_reads check_reads readFile_reads readDir_reads reads_clean
  only_clean ret_only call_only writeAt_only rename_only : io_kind.
#[export] Hint Extern 1 (io_only (io_check _ _ _)) => apply call_only : io_kind.
#[export] Hint Extern 2 (io_reads (io_bind _ _)) => (apply reads_bind; [|intros ?]) : io_kind.
#[export] Hint Extern 2 (io_only (io_bind _ _)) => (apply only_bind; [|intros ?]) : io_kind.
#[export] Hint Extern 2 (io_only (io_cleanup _ _)) => apply only_cleanup : io_kind.
#[export] Hint Extern 3 (io_only (if ?b then _ else _)) => destruct b : io_kind.
#[export] Hint Extern 3 (io_reads (if ?b then _ else _)) => destruct b : io_kind.

Lemma fsyncDir_only ev n : io_only (fsyncDir ev n).
Proof. unfold fsyncDir. auto with io_kind. Qed.
#[export] Hint Resolve fsyncDir_only : io_kind.

Lemma ensureDir_only ev n : io_only (ensureDir ev n).
Proof.
  intros d t e d' E. unfold ensureDir in E. set (c := match get_dir n d with None => _ | _ => _ end) in E.
  assert (H : io_only (io_call ev IoMkdir (name_of n) (fun d => set_dir n (entries n d) d) ;!
   io_check ev IoChmod (name_of n) ;!
   (if c && negb (e_flt ev IoStat (name_of DRoot)) then fsyncDir ev DRoot else io_ret tt)))
    by auto with io_kind.
  by apply (H _ _ _ _ E).
Qed.
#[export] Hint Resolve ensureDir_only : io_kind.

Lemma atomicWriteFile_only ev n name data : io_only (atomicWriteFile ev n name data).
Proof. unfold atomicWriteFile. auto 20 with io_kind. Qed.
#[export] Hint Resolve atomicWriteFile_only : io_kind.

(** The replacement discipline of the control files. Under any faults, at every crash point the
    file holds its old or its new content and no other file but the temporary one differs; success
    means the new content and nothing else changed. *)
Theorem atomicWriteFile_spec ev n name data d0 :
  entries n d0 !! (AtomicTempPrefix name ++ e_tmp ev) = None ->
  crash_triple (eq d0) (atomicWriteFile ev n name data) (old_or_new ev n name data d0)
    (fun _ d => d = set_dir n (<[name := EFile data]> (entries n d0)) d0) (old_or_new ev n name data d0).
Proof. apply atomic_write_spec. Qed.

Lemma atomicWriteFile_spec_witness :
  let ev := mkEnv no_faults 0 (str "1") 0 in
  let d0 := mkDisk {[ str "ack" := EFile (str "old") ]} None None in
  entries DRoot d0 !! (AtomicTempPrefix (str "ack") ++ e_tmp ev) = None /\
  crash_triple (eq d0) (atomicWriteFile ev DRoot (str "ack") (str "new"))
    (old_or_new ev DRoot (str "ack") (str "new") d0)
    (fun _ d => d = set_dir DRoot (<[str "ack" := EFile (str "new")]> (entries DRoot d0)) d0)
    (old_or_new ev DRoot (str "ack") (str "new") d0).
Proof.
  intros ev d0. assert (H : entries DRoot d0 !! (AtomicTempPrefix (str "ack") ++ e_tmp ev) = None) by (vm_compute; reflexivity).
  split; [exact H|]. exact (atomicWriteFile_spec ev DRoot (str "ack") (str "new") d0 H).
Defined.
