(* ===== verification/GoStrings.v ===== *)
(** * Byte-string operations of the Go standard library

    [strings.HasPrefix]/[HasSuffix]/[TrimSuffix], byte-wise string order and [sort.Strings],
    [strconv.FormatInt], zero-padded decimal formatting and [strconv.ParseInt(s, 10, 64)], over
    strings as byte lists, with the facts the spool's file names rest on. *)

From S2P Require Import Prelude.

(** ** Affixes *)

Definition HasPrefix (s p : bytes) : bool := bool_decide (take (length p) s = p).
Definition HasSuffix (s p : bytes) : bool := bool_decide (drop (length s - length p) s = p).
Definition TrimSuffix (s p : bytes) : bytes := if HasSuffix s p then take (length s - length p) s else s.

Lemma HasSuffix_app s p : HasSuffix (s ++ p) p = true.
Proof.
  apply bool_decide_eq_true_2. rewrite length_app.
  replace (length s + length p - length p)%nat with (length s) by lia. apply drop_app_length.
Qed.

Lemma TrimSuffix_app s p : TrimSuffix (s ++ p) p = s.
Proof.
  unfold TrimSuffix. rewrite HasSuffix_app, length_app.
  replace (length s + length p - length p)%nat with (length s) by lia. apply take_app_length.
Qed.

Lemma HasPrefix_app p s : HasPrefix (p ++ s) p = true.
Proof. apply bool_decide_eq_true_2, take_app_length. Qed.

Lemma HasPrefix_spec s p : HasPrefix s p = true <-> exists k, s = p ++ k.
Proof.
  unfold HasPrefix. rewrite bool_decide_eq_true. split.
  - intros H. exists (drop (length p) s). rewrite <-(take_drop (length p) s) at 1. by rewrite H.
  - intros [k ->]. apply take_app_length.
Qed.

Lemma HasSuffix_spec s p : HasSuffix s p = true <-> exists k, s = k ++ p.
Proof.
  unfold HasSuffix. rewrite bool_decide_eq_true. split.
  - intros H. exists (take (length s - length p) s). rewrite <-(take_drop (length s - length p) s) at 1. by rewrite H.
  - intros [k ->]. rewrite length_app, Nat.add_sub. apply drop_app_length.
Qed.

(** ** String order *)

Fixpoint bytes_leb (a b : bytes) : bool :=
  match a, b with
  | [], _ => true
  | _ :: _, [] => false
  | x :: a', y :: b' =>
      (bZ x <? bZ y) || ((bZ x =? bZ y) && bytes_leb a' b')
  end.

Definition bytes_le (a b : bytes) : Prop := bytes_leb a b = true.

#[export] Instance bytes_le_dec : RelDecision bytes_le.
Proof. intros a b. unfold bytes_le. apply _. Defined.

#[export] Instance bytes_le_total : Total bytes_le.
Proof.
  intros a. induction a as [|x a IH]; intros [|y b]; unfold bytes_le in *; cbn; auto.
  destruct (Z.lt_trichotomy (bZ x) (bZ y)) as [H|[H|H]].
  - left. by rewrite (proj2 (Z.ltb_lt _ _) H).
  - rewrite H, Z.ltb_irrefl, Z.eqb_refl. cbn. apply IH.
  - right. by rewrite (proj2 (Z.ltb_lt _ _) H).
Qed.

#[export] Instance bytes_le_trans : Transitive bytes_le.
Proof.
  intros a. induction a as [|x a IH]; intros [|y b] [|z c]; unfold bytes_le in *; cbn; try done.
  intros H1 H2. apply orb_true_iff in H1, H2. apply orb_true_iff.
  rewrite !andb_true_iff, !Z.ltb_lt, !Z.eqb_eq in *.
  destruct H1 as [H1|[H1 H1']], H2 as [H2|[H2 H2']]; [left; lia..|].
  right. split; [congruence|]. by apply (IH b).
Qed.

#[export] Instance bytes_le_antisymm : AntiSymm eq bytes_le.
Proof.
  intros a. induction a as [|x a IH]; intros [|y b]; unfold bytes_le in *; cbn; try done.
  rewrite !orb_true_iff, !andb_true_iff, !Z.ltb_lt, !Z.eqb_eq.
  intros [H1|[H1 H1']] [H2|[H2 H2']]; try lia.
  f_equal; [by apply bZ_inj|]. by apply IH.
Qed.

(** [sort.Strings]. *)
Definition sortStrings (l : list bytes) : list bytes := merge_sort bytes_le l.

Lemma sortStrings_perm l : sortStrings l ≡ₚ l.
Proof. apply merge_sort_Permutation. Qed.

Lemma sortStrings_sorted l : StronglySorted bytes_le (sortStrings l).
Proof. apply (StronglySorted_merge_sort bytes_le). Qed.

(** A sorted list is its own sorting: the result does not depend on the order of the input. *)
Lemma sortStrings_unique l k : l ≡ₚ k -> StronglySorted bytes_le k -> sortStrings l = k.
Proof.
  intros Hp Hk. apply (StronglySorted_unique bytes_le); [apply sortStrings_sorted|done|].
  by rewrite sortStrings_perm.
Qed.

(** ** Decimal digits *)

Definition digit (z : Z) : byte := Zb (48 + z).
Definition is_digit (b : byte) : bool := (48 <=? bZ b) && (bZ b <=? 57).

(** [fmt.Sprintf("%0nd", z)] for [0 <= z < 10^n]. *)
Fixpoint dec_pad (n : nat) (z : Z) : bytes :=
  match n with O => [] | S n' => dec_pad n' (z / 10) ++ [digit (z mod 10)] end.

(** Base-10 value of a digit string. *)
Definition dec_val (l : bytes) : Z := fold_left (fun acc b => acc * 10 + (bZ b - 48)) l 0.

(** [strconv.FormatInt(z, 10)] for a non-negative [z] of at most [fuel] digits. *)
Fixpoint format_nat (fuel : nat) (z : Z) : bytes :=
  match fuel with
  | O => []
  | S fuel' => if z <? 10 then [digit z] else format_nat fuel' (z / 10) ++ [digit (z mod 10)]
  end.

(** [strconv.FormatInt(z, 10)] for an [int64] (at most 19 digits). *)
Definition FormatInt (z : Z) : bytes :=
  if z <? 0 then str "-" ++ format_nat 20 (- z) else format_nat 20 z.

(** [strconv.ParseInt(s, 10, 64)]: [None] is the syntax or range error. *)
Definition ParseInt (s : bytes) : option Z :=
  let '(neg, ds) :=
    match s with
    | b :: r => if bool_decide (b = x2d) then (true, r) else if bool_decide (b = x2b) then (false, r) else (false, s)
    | [] => (false, s)
    end in
  if bool_decide (ds = []) || negb (forallb is_digit ds) then None
  else
    let v := if neg : bool then - dec_val ds else dec_val ds in
    if bool_decide (in_i64 v) then Some v else None.

(** [strconv.ParseUint(s, 10, 64)]. *)
Definition ParseUint (s : bytes) : option Z :=
  if bool_decide (s = []) || negb (forallb is_digit s) then None
  else let v := dec_val s in if v <? 2 ^ 64 then Some v else None.

#[export] Instance in_i64_dec z : Decision (in_i64 z).
Proof. unfold in_i64. apply _. Defined.

Lemma bZ_digit z : 0 <= z < 10 -> bZ (digit z) = 48 + z.
Proof. intros H. unfold digit. rewrite bZ_Zb. apply Z.mod_small. lia. Qed.

Lemma is_digit_digit z : 0 <= z < 10 -> is_digit (digit z) = true.
Proof. intros H. unfold is_digit. rewrite bZ_digit by done. apply andb_true_intro. lia. Qed.

Lemma length_dec_pad n z : length (dec_pad n z) = n.
Proof. revert z. induction n; intros z; cbn; [done|]. rewrite length_app, IHn. cbn. lia. Qed.

#[export] Hint Rewrite length_dec_pad : len.

Lemma dec_val_snoc l b : dec_val (l ++ [b]) = dec_val l * 10 + (bZ b - 48).
Proof. unfold dec_val. by rewrite fold_left_app. Qed.

Lemma dec_pad_digits n z : forallb is_digit (dec_pad n z) = true.
Proof.
  revert z. induction n as [|n IH]; intros z; cbn; [done|].
  rewrite forallb_app, IH. cbn. rewrite is_digit_digit; [done|]. apply Z.mod_pos_bound. lia.
Qed.

Lemma dec_val_pad n z : 0 <= z < 10 ^ Z.of_nat n -> dec_val (dec_pad n z) = z.
Proof.
  revert z. induction n as [|n IH]; intros z Hz; [cbn in *; unfold dec_val; cbn; lia|].
  rewrite Nat2Z.inj_succ, Z.pow_succ_r in Hz by lia. cbn [dec_pad].
  pose proof (Z.mod_pos_bound z 10 ltac:(lia)). pose proof (Z.div_mod z 10 ltac:(lia)).
  rewrite dec_val_snoc, bZ_digit, IH by lia || (split; [apply Z.div_pos; lia|apply Z.div_lt_upper_bound; lia]).
  lia.
Qed.

Lemma bytes_leb_snoc a b x y : length a = length b ->
  bytes_leb (a ++ [x]) (b ++ [y]) = (bytes_leb a b && (negb (bool_decide (a = b)) || (bZ x <=? bZ y))).
Proof.
  revert b. induction a as [|u a IH]; intros [|v b] Hl; try discriminate Hl; cbn.
  - rewrite bool_decide_eq_true_2 by done. cbn. rewrite andb_true_r.
    apply eq_true_iff_eq. rewrite orb_true_iff, Z.ltb_lt, Z.eqb_eq, Z.leb_le. lia.
  - rewrite IH by (cbn in Hl; lia). destruct (Z.ltb_spec (bZ u) (bZ v)); cbn.
    + rewrite bool_decide_eq_false_2 by (intros [=->]; lia). done.
    + destruct (Z.eqb_spec (bZ u) (bZ v)) as [E|E]; cbn; [|done].
      apply bZ_inj in E as ->. f_equal. f_equal. f_equal.
      apply bool_decide_ext. split; congruence.
Qed.

(** Zero-padded decimals of one width order as strings exactly as the numbers do. *)
Lemma bytes_leb_dec_pad n a b :
  0 <= a < 10 ^ Z.of_nat n -> 0 <= b < 10 ^ Z.of_nat n -> bytes_leb (dec_pad n a) (dec_pad n b) = (a <=? b).
Proof.
  revert a b. induction n as [|n IH]; intros a b Ha Hb.
  - cbn in *. symmetry. apply Z.leb_le. lia.
  - rewrite Nat2Z.inj_succ, Z.pow_succ_r in Ha, Hb by lia. cbn [dec_pad].
    rewrite bytes_leb_snoc by (by rewrite !length_dec_pad).
    pose proof (Z.mod_pos_bound a 10 ltac:(lia)). pose proof (Z.mod_pos_bound b 10 ltac:(lia)).
    pose proof (Z.div_mod a 10 ltac:(lia)). pose proof (Z.div_mod b 10 ltac:(lia)).
    assert (0 <= a / 10 < 10 ^ Z.of_nat n) by (split; [apply Z.div_pos; lia|apply Z.div_lt_upper_bound; lia]).
    assert (0 <= b / 10 < 10 ^ Z.of_nat n) by (split; [apply Z.div_pos; lia|apply Z.div_lt_upper_bound; lia]).
    rewrite IH, !bZ_digit by done.
    assert (Heq : bool_decide (dec_pad n (a / 10) = dec_pad n (b / 10)) = (a / 10 =? b / 10)).
    { apply eq_true_iff_eq. rewrite bool_decide_eq_true, Z.eqb_eq. split; [|by intros ->].
      intros E. apply (f_equal dec_val) in E. by rewrite !dec_val_pad in E. }
    rewrite Heq. apply eq_true_iff_eq.
    rewrite andb_true_iff, orb_true_iff, negb_true_iff, Z.eqb_neq, !Z.leb_le. lia.
Qed.

Lemma ParseInt_dec_pad n z :
  (0 < n)%nat -> 0 <= z < 10 ^ Z.of_nat n -> z <= MaxInt64 -> ParseInt (dec_pad n z) = Some z.
Proof.
  intros Hn Hz Hm. unfold ParseInt.
  pose proof (dec_pad_digits n z) as Hd. pose proof (dec_val_pad n z Hz) as Hv.
  assert (Hne : dec_pad n z <> []) by (intros E; apply (f_equal length) in E; rewrite length_dec_pad in E; cbn in E; lia).
  destruct (dec_pad n z) as [|b r] eqn:E; [done|].
  assert (is_digit b = true) as Hb by (cbn in Hd; by apply andb_true_iff in Hd as [? _]).
  unfold is_digit in Hb. bool_to_prop.
  rewrite (bool_decide_eq_false_2 (b = x2d)) by (intros ->; change (bZ x2d) with 45 in *; lia).
  rewrite (bool_decide_eq_false_2 (b = x2b)) by (intros ->; change (bZ x2b) with 43 in *; lia).
  rewrite bool_decide_eq_false_2, Hd by done. cbn [orb negb].
  rewrite Hv. rewrite bool_decide_eq_true_2; [done|]. unfold in_i64, MaxInt64 in *. lia.
Qed.

(** [filepath.Ext] of a base name: the suffix from its last dot, empty without one. *)
Fixpoint ext_rev (r acc : bytes) : bytes :=
  match r with
  | [] => []
  | b :: r' =>
      if bool_decide (b = x2f) then []
      else if bool_decide (b = x2e) then b :: acc else ext_rev r' (b :: acc)
  end.
Definition Ext (name : bytes) : bytes := ext_rev (rev name) [].

Lemma Ext_app stem x : Forall (fun b => b <> x2f /\ b <> x2e) x -> Ext (stem ++ x2e :: x) = x2e :: x.
Proof.
  intros Hx. unfold Ext. rewrite rev_app_distr. cbn [rev].
  rewrite <-app_assoc. cbn [app].
  assert (G : forall r acc, Forall (fun b => b <> x2f /\ b <> x2e) r ->
    ext_rev (r ++ x2e :: rev stem) acc = x2e :: rev r ++ acc).
  { intros r. induction r as [|b r IH]; intros acc; cbn [app ext_rev rev]; [done|].
    intros [[H1 H2] Hr]%Forall_cons. rewrite !bool_decide_eq_false_2, IH by done. by rewrite <-app_assoc. }
  rewrite G by (by apply Forall_rev). by rewrite rev_involutive, app_nil_r.
Qed.

Lemma bytes_leb_app_same a b c : length a = length b -> bytes_leb (a ++ c) (b ++ c) = bytes_leb a b.
Proof.
  induction c as [|x c IH] using rev_ind; intros H; [by rewrite !app_nil_r|].
  rewrite !app_assoc, bytes_leb_snoc, Z.leb_refl, orb_true_r, andb_true_r by len. by apply IH.
Qed.
