(* ===== verification/Segment.v ===== *)
(** * Segment files ([internal/observer/spool/segment.go])

    The segment header codec, segment creation, reopening, reading and the append path with its
    rollback, over the file system of [Fs]. The theorems: the header codec round-trips; a segment
    keeps the form header plus contiguous frames; an append adds exactly one frame or nothing, and a
    crash during it leaves the durable frames followed by a prefix of the new one. *)

From S2P Require Import Prelude Hash SpoolTypes Frame Fs GoStrings.

Definition SegmentMagic : Z := 0x4F534731.
Definition DefaultSegmentCeiling : Z := Z.shiftl 64 20.
Definition maxSourceIDLen : Z := 128.
Definition segFixedPrefixLen : nat := 26.
Definition segHeaderCRCLen : nat := 4.
Definition offSegMagic : nat := 0.
Definition offSegFormat : nat := 4.
Definition offSegFirstSeq : nat := 8.
Definition offSegTime : nat := 16.
Definition offSegIDLen : nat := 24.

(** [CreationTime] as its [UnixNano] value, the only part of it that is stored. *)
Record SegmentHeader : Type := mkSegmentHeader {
  sh_FormatVersion : Z;
  sh_SourceID : bytes;
  sh_FirstSequence : Z;
  sh_CreationTime : Z;
}.

#[export] Instance SegmentHeader_eq_dec : EqDecision SegmentHeader.
Proof. solve_decision. Defined.

(** The [Sync] seam of the options is the [IoSync] fault of the environment. *)
Record SegmentOptions : Type := mkSegmentOptions {
  so_header : SegmentHeader;
  so_Ceiling : Z;
}.

(** An open segment: its file name under [wal/], header, ceiling, byte size, last sequence. *)
Record Segment : Type := mkSegment {
  sg_name : bytes;
  sg_header : SegmentHeader;
  sg_ceiling : Z;
  sg_size : Z;
  sg_last : Z;
}.

#[export] Instance Segment_eq_dec : EqDecision Segment.
Proof. solve_decision. Defined.

(** [fmt.Sprintf("%020d.seg", firstSequence)]. *)
Definition segmentFilename (firstSequence : Z) : bytes :=
  (if firstSequence <? 0 then str "-" ++ dec_pad 19 (- firstSequence) else dec_pad 20 firstSequence)
  ++ str ".seg".

Definition ceilingOrDefault (c : Z) : Z := if c <=? 0 then DefaultSegmentCeiling else c.

(** ** The header codec *)

(** The bytes before the header's CRC. *)
Definition seg_header_prefix (h : SegmentHeader) : bytes :=
  be_enc 4 SegmentMagic ++ be_enc 4 (sh_FormatVersion h) ++ be_enc 8 (u64 (sh_FirstSequence h))
    ++ be_enc 8 (u64 (sh_CreationTime h)) ++ be_enc 2 (zlen (sh_SourceID h)) ++ sh_SourceID h.

Definition seg_header_bytes (h : SegmentHeader) : bytes :=
  seg_header_prefix h ++ be_enc 4 (crc32c (seg_header_prefix h)).

Definition encodeSegmentHeader (h : SegmentHeader) : sres bytes :=
  if (zlen (sh_SourceID h) =? 0) || (maxSourceIDLen <? zlen (sh_SourceID h))
  then Err (ErrSourceIDLength (zlen (sh_SourceID h)))
  else Ok (seg_header_bytes h).

Definition decodeSegmentHeader (data : bytes) : sres (SegmentHeader * nat) :=
  if (length data <? segFixedPrefixLen)%nat then Err (ErrBadSegmentHeader (HdrShort (zlen data)))
  else if negb (be_dec (slice offSegMagic 4 data) =? SegmentMagic) then Err (ErrBadSegmentHeader HdrMagic)
  else
    let idLen := be_dec (slice offSegIDLen 2 data) in
    if (idLen =? 0) || (maxSourceIDLen <? idLen) then Err (ErrBadSegmentHeader (HdrIDLen idLen))
    else
      let n := Z.to_nat idLen in
      let total := (segFixedPrefixLen + n + segHeaderCRCLen)%nat in
      if (length data <? total)%nat then Err (ErrBadSegmentHeader HdrTruncated)
      else
        let stored := be_dec (slice (total - segHeaderCRCLen) 4 data) in
        if negb (crc32c (take (total - segHeaderCRCLen) data) =? stored)
        then Err (ErrBadSegmentHeader HdrCRC)
        else Ok (mkSegmentHeader
                   (be_dec (slice offSegFormat 4 data))
                   (slice segFixedPrefixLen n data)
                   (i64 (be_dec (slice offSegFirstSeq 8 data)))
                   (i64 (be_dec (slice offSegTime 8 data))), total).

(** What the Go types and the encoder's guard allow. *)
Definition header_ok (h : SegmentHeader) : Prop :=
  0 <= sh_FormatVersion h < 2^32 /\ in_i64 (sh_FirstSequence h) /\ in_i64 (sh_CreationTime h)
  /\ 0 < zlen (sh_SourceID h) <= maxSourceIDLen.

(** ** The loop over a segment's frames

    [for off < len(data) { fr, n, status := DecodeFrame(data[off:]); ...; off += n }]: the body
    updates its state or returns from the function. *)

Fixpoint frames_loop {A R} (fuel : nat) (data : bytes)
    (body : nat -> Frame -> nat -> FrameStatus -> A -> A + R) (finish : nat -> A -> R) (out_of_fuel : R)
    (off : nat) (a : A) : R :=
  match fuel with
  | O => out_of_fuel
  | S fuel' =>
      if (off <? length data)%nat
      then let '(fr, n, status) := DecodeFrame (drop off data) in
           match body off fr n status a with
           | inl a' => frames_loop fuel' data body finish out_of_fuel (off + n) a'
           | inr r => r
           end
      else finish off a
  end.

(** ** The segment operations *)

(** [os.OpenFile(path, O_RDWR|O_CREATE|O_EXCL, 0600)]: fails when the name exists. *)
Definition io_create_excl (ev : env) (n : dirname) (name : bytes) : IO unit := fun d =>
  match entries n d !! name with
  | Some _ => ([d], Err (ErrIO IoCreate), d)
  | None => io_call ev IoCreate name (put n name (EFile [])) d
  end.

(** [os.OpenFile(path, O_RDWR, 0600)]: fails unless the file exists. *)
Definition io_open (ev : env) (n : dirname) (name : bytes) : IO unit := fun d =>
  match file n name d with
  | None => ([d], Err (ErrIO IoOpen), d)
  | Some _ => io_check ev IoOpen name d
  end.

(** [os.ReadFile] where an absent file is an error as any other. *)
Definition mustReadFile (ev : env) (n : dirname) (name : bytes) : IO bytes :=
  let! r := readFile ev n name in
  match r with Some data => io_ret data | None => io_err (ErrIO IoRead) end.

Definition CreateSegment (ev : env) (opts : SegmentOptions) : IO Segment :=
  let hdr := so_header opts in
  if sh_FirstSequence hdr <? 1 then io_err (ErrFirstSequence (sh_FirstSequence hdr))
  else
    ensureDir ev DWal ;!
    let! hdrBytes := io_of (encodeSegmentHeader hdr) in
    let name := segmentFilename (sh_FirstSequence hdr) in
    io_create_excl ev DWal name ;!
    io_check ev IoChmod name ;!
    io_writeAt ev DWal name 0 hdrBytes ;!
    io_check ev IoSync name ;!
    fsyncDir ev DWal ;!
    io_ret (mkSegment name hdr (ceilingOrDefault (so_Ceiling opts)) (zlen hdrBytes) 0).

(** The body of [OpenSegment]'s scan; the state is the expected and the last sequence. *)
Definition open_body (off : nat) (fr : Frame) (n : nat) (status : FrameStatus) (s : Z * Z)
  : Z * Z + sres (nat * Z) :=
  let '(expected, last) := s in
  match status with
  | FrameOK =>
      if fr_Sequence fr =? expected then inl (i64 (expected + 1), fr_Sequence fr)
      else inr (Err (ErrFrameSequence (fr_Sequence fr) (Z.of_nat off) expected))
  | _ => inr (Err (ErrUncleanFrame (Z.of_nat off)))
  end.

Definition open_scan (data : bytes) (hdrLen : nat) (first : Z) : sres (nat * Z) :=
  frames_loop (S (length data)) data open_body (fun off s => Ok (off, snd s)) (Err OutOfFuel)
    hdrLen (first, 0).

Definition OpenSegment (ev : env) (name : bytes) (opts : SegmentOptions) : IO Segment :=
  io_open ev DWal name ;!
  let! data := mustReadFile ev DWal name in
  let! h := io_of (decodeSegmentHeader data) in
  let '(hdr, hdrLen) := h in
  let! r := io_of (open_scan data hdrLen (sh_FirstSequence hdr)) in
  let '(size, last) := r in
  io_ret (mkSegment name hdr (ceilingOrDefault (so_Ceiling opts)) (Z.of_nat size) last).

(** [None]: the sequence space is exhausted. *)
Definition nextExpected (s : Segment) : option Z :=
  if sg_last s =? 0 then Some (sh_FirstSequence (sg_header s))
  else if SequenceMax <=? sg_last s then None
  else Some (i64 (sg_last s + 1)).

Definition rollback (ev : env) (s : Segment) : IO unit :=
  io_truncate ev DWal (sg_name s) (Z.to_nat (sg_size s)).

(** On success the updated segment; on failure the caller's segment is unchanged. *)
Definition Append (ev : env) (s : Segment) (f : Frame) : IO Segment :=
  match nextExpected s with
  | None => io_err ErrSequenceExhausted
  | Some expected =>
      let! encoded := io_of (EncodeFrame f) in
      if negb (fr_Sequence f =? expected) then io_err (ErrNonContiguous (fr_Sequence f) expected)
      else if sg_ceiling s <? sg_size s + zlen encoded then io_err ErrSegmentFull
      else
        io_cleanup
          (io_writeAt ev DWal (sg_name s) (Z.to_nat (sg_size s)) encoded ;!
           io_check ev IoSync (sg_name s))
          (rollback ev s) ;!
        io_ret (mkSegment (sg_name s) (sg_header s) (sg_ceiling s) (sg_size s + zlen encoded) (fr_Sequence f))
  end.

Definition read_body (off : nat) (fr : Frame) (n : nat) (status : FrameStatus) (frames : list Frame)
  : list Frame + sres (list Frame) :=
  match status with
  | FrameOK => inl (frames ++ [fr])
  | _ => inr (Err (ErrUncleanFrame (Z.of_nat off)))
  end.

(** The frames of a whole segment file. *)
Definition read_frames (data : bytes) : sres (list Frame) :=
  h ← decodeSegmentHeader data;
  frames_loop (S (length data)) data read_body (fun _ frames => Ok frames) (Err OutOfFuel) (snd h) [].

Definition ReadAll (ev : env) (s : Segment) : IO (list Frame) :=
  let! data := mustReadFile ev DWal (sg_name s) in io_of (read_frames data).

(** ** Header lemmas *)

Lemma header_ok_dec_len h : header_ok h -> 0 <= zlen (sh_SourceID h) < 256 ^ Z.of_nat 2.
Proof. intros (_&_&_&?). unfold maxSourceIDLen in *. change (256 ^ Z.of_nat 2) with 65536. lia. Qed.

Lemma encodeSegmentHeader_ok h :
  header_ok h -> encodeSegmentHeader h = Ok (seg_header_bytes h).
Proof.
  intros (_&_&_&H). unfold encodeSegmentHeader.
  rewrite (proj2 (Z.eqb_neq _ _)), (proj2 (Z.ltb_ge _ _)) by lia. done.
Qed.

Lemma encodeSegmentHeader_inv h l : encodeSegmentHeader h = Ok l ->
  l = seg_header_bytes h /\ 0 < zlen (sh_SourceID h) <= maxSourceIDLen.
Proof.
  unfold encodeSegmentHeader. intros H. pose proof (zlen_nonneg (sh_SourceID h)).
  case_step; [discriminate|]. bool_to_prop. split; [congruence|lia].
Qed.

Lemma length_seg_header_prefix h : length (seg_header_prefix h) = (26 + length (sh_SourceID h))%nat.
Proof. unfold seg_header_prefix. len. Qed.

#[export] Hint Rewrite length_seg_header_prefix : len.

Lemma length_seg_header_bytes h : length (seg_header_bytes h) = (30 + length (sh_SourceID h))%nat.
Proof. unfold seg_header_bytes. len. Qed.

#[export] Hint Rewrite length_seg_header_bytes : len.

Lemma be_dec_i64 z : in_i64 z -> i64 (be_dec (be_enc 8 (u64 z))) = z.
Proof.
  intros H. rewrite be_dec_enc_id by apply (Z.mod_pos_bound _ (2^64) ltac:(lia)).
  rewrite i64_u64. by apply i64_id.
Qed.

Lemma be_enc_i64 l : length l = 8%nat -> be_enc 8 (u64 (i64 (be_dec l))) = l.
Proof.
  intros H. pose proof (be_dec_range l) as Hr. unfold zlen in Hr. rewrite H in Hr.
  rewrite u64_i64 by done. rewrite <-(be_enc_dec l) at 2. by rewrite H.
Qed.

Section header_decode.
Context (h : SegmentHeader) (rest : bytes) (Hok : header_ok h).

(** Decoding only reads the bytes before the CRC and the CRC itself. *)
Lemma decodeSegmentHeader_prefix crc :
  length crc = 4%nat ->
  decodeSegmentHeader (seg_header_prefix h ++ crc ++ rest)
  = if crc32c (seg_header_prefix h) =? be_dec crc
    then Ok (h, length (seg_header_bytes h)) else Err (ErrBadSegmentHeader HdrCRC).
Proof.
  intros Hc. unfold decodeSegmentHeader.
  rewrite (proj2 (Nat.ltb_ge _ _)) by (unfold segFixedPrefixLen; len).
  pose proof (header_ok_dec_len h Hok) as Hl.
  destruct h as [ver id first time]. destruct Hok as (Hv&Hf&Ht&Hi). cbn [sh_SourceID sh_FormatVersion sh_FirstSequence sh_CreationTime] in *.
  assert (E : forall off n v, slice off n (seg_header_prefix (mkSegmentHeader ver id first time)) = v ->
    (off + n <= 26 + length id)%nat ->
    slice off n (seg_header_prefix (mkSegmentHeader ver id first time) ++ crc ++ rest) = v).
  { intros off n v <- ?. apply slice_app_l. rewrite length_seg_header_prefix. done. }
  rewrite (E offSegMagic 4%nat (be_enc 4 SegmentMagic))
    by (unfold offSegMagic, seg_header_prefix; by slices || len).
  change (be_dec (be_enc 4 SegmentMagic) =? SegmentMagic) with true.
  rewrite (E offSegIDLen 2%nat (be_enc 2 (zlen id)))
    by (unfold offSegIDLen, seg_header_prefix; by slices || len).
  rewrite be_dec_enc_id by done. cbv zeta. cbn [negb].
  rewrite (proj2 (Z.eqb_neq _ _)), (proj2 (Z.ltb_ge _ _)) by lia. cbn [orb].
  unfold zlen. rewrite Nat2Z.id. unfold segFixedPrefixLen, segHeaderCRCLen.
  rewrite (proj2 (Nat.ltb_ge _ _))
    by (rewrite !length_app, length_seg_header_prefix, Hc; cbn [sh_SourceID]; lia).
  rewrite (E offSegFormat 4%nat (be_enc 4 ver)) by (unfold offSegFormat, seg_header_prefix; by slices || len).
  rewrite (E offSegFirstSeq 8%nat (be_enc 8 (u64 first)))
    by (unfold offSegFirstSeq, seg_header_prefix; by slices || len).
  rewrite (E offSegTime 8%nat (be_enc 8 (u64 time))) by (unfold offSegTime, seg_header_prefix; by slices || len).
  rewrite (E 26%nat (length id) id) by (unfold seg_header_prefix; cbn [sh_SourceID]; by slices || len).
  rewrite !be_dec_i64, be_dec_enc_id by done.
  replace (26 + length id + 4 - 4)%nat with (length (seg_header_prefix (mkSegmentHeader ver id first time)))
    by (rewrite length_seg_header_prefix; cbn [sh_SourceID]; lia).
  rewrite take_app_length, slice_app_r, Nat.sub_diag, slice_0 by len.
  rewrite length_seg_header_bytes. cbn [sh_SourceID].
  replace (26 + length id + 4)%nat with (30 + length id)%nat by lia. by destruct (_ =? _).
Qed.

Lemma decode_seg_header :
  decodeSegmentHeader (seg_header_bytes h ++ rest) = Ok (h, length (seg_header_bytes h)).
Proof.
  unfold seg_header_bytes at 1. rewrite <-app_assoc.
  rewrite decodeSegmentHeader_prefix, be_dec_enc_id, Z.eqb_refl by (apply is32_crc32c || len). done.
Qed.
End header_decode.

(** What a successful header decode establishes. *)
Lemma seg_header_sound data h n :
  decodeSegmentHeader data = Ok (h, n) ->
  header_ok h /\ n = length (seg_header_bytes h) /\ data = seg_header_bytes h ++ drop n data.
Proof.
  unfold decodeSegmentHeader. intros H.
  repeat (case_step; try discriminate). bool_to_prop.
  repeat match goal with H : (_ <? _)%nat = false |- _ => apply Nat.ltb_ge in H end.
  injection H as <- <-.
  unfold offSegMagic, offSegIDLen, offSegFormat, offSegFirstSeq, offSegTime, segFixedPrefixLen, segHeaderCRCLen in *.
  set (m := Z.to_nat (be_dec (slice 24 2 data))) in *.
  set (h := mkSegmentHeader _ _ _ _).
  replace (26 + m + 4 - 4)%nat with (26 + m)%nat in * by lia.
  assert (Hlen : forall off k, (off + k <= 30 + m)%nat -> length (slice off k data) = k)
    by (intros; apply length_slice; lia).
  pose proof (be_dec_range (slice 24 2 data)). pose proof (be_dec_range (slice 4 4 data)) as Hv.
  unfold zlen in Hv. rewrite Hlen in Hv by lia.
  assert (Hid : zlen (sh_SourceID h) = be_dec (slice 24 2 data))
    by (cbn; unfold zlen; rewrite Hlen; lia).
  assert (Hok : header_ok h).
  { split_and!; cbn [h sh_FormatVersion sh_FirstSequence sh_CreationTime]; try apply i64_range; lia. }
  assert (Hn : (26 + m + 4)%nat = length (seg_header_bytes h))
    by (rewrite length_seg_header_bytes; cbn; rewrite Hlen; lia).
  split; [done|]. split; [done|].
  rewrite <-(take_drop (26 + m + 4) data) at 1. f_equal.
  assert (Hpre : seg_header_prefix h = take (26 + m) data).
  { change 26%nat with (4 + 4 + 8 + 8 + 2)%nat. rewrite !take_slice. unfold seg_header_prefix. rewrite <-!app_assoc, Hid.
    cbn [h sh_FormatVersion sh_FirstSequence sh_CreationTime sh_SourceID Nat.add].
    rewrite !be_enc_i64 by (apply Hlen; lia).
    rewrite <-(slice_be 0 4 data SegmentMagic), <-(slice_be 4 4 data _ ltac:(lia) eq_refl),
      <-(slice_be 24 2 data _ ltac:(lia) eq_refl) by (done || lia).
    by rewrite <-(drop_0 data) at 1. }
  unfold seg_header_bytes. rewrite Hpre, (take_slice (26 + m) 4). f_equal.
  apply slice_be; [lia|]. by symmetry.
Qed.

Lemma trailer_slice a v rest :
  slice (length a) 4 (a ++ be_enc 4 v ++ rest) = be_enc 4 v.
Proof. rewrite slice_app_r, Nat.sub_diag by lia. apply slice_0. apply length_be_enc. Qed.

Lemma seg_header_idlen h rest : header_ok h ->
  be_dec (slice 24 2 (seg_header_bytes h ++ rest)) = zlen (sh_SourceID h).
Proof.
  intros H. unfold seg_header_bytes, seg_header_prefix. rewrite <-!app_assoc. slices.
  by apply be_dec_enc_id, header_ok_dec_len.
Qed.

(** A header cut short never decodes. *)
Lemma seg_header_torn h k : header_ok h -> (k < length (seg_header_bytes h))%nat ->
  is_ok (decodeSegmentHeader (take k (seg_header_bytes h))) = false.
Proof.
  intros H Hk. destruct (decodeSegmentHeader _) as [[h' n]|] eqn:E; [exfalso|done].
  pose proof E as (Hok&Hn&Hd)%seg_header_sound.
  assert (L : (length (seg_header_bytes h') <= k)%nat).
  { apply (f_equal length) in Hd. rewrite length_app, length_take in Hd. lia. }
  apply (f_equal (fun l => be_dec (slice 24 2 l))) in Hd.
  rewrite (seg_header_idlen h') in Hd by done.
  rewrite length_seg_header_bytes in *. rewrite slice_take in Hd by lia.
  rewrite <-(app_nil_r (seg_header_bytes h)), seg_header_idlen in Hd by done.
  unfold zlen in Hd. lia.
Qed.

(** Altering any byte of a header outside its two length bytes is detected. *)
Lemma seg_header_one_byte h i b c rest :
  header_ok h -> seg_header_bytes h !! i = Some b -> b <> c -> (i < 24 \/ 26 <= i)%nat ->
  is_ok (decodeSegmentHeader (<[i:=c]> (seg_header_bytes h) ++ rest)) = false.
Proof.
  intros H Hi Hbc Hne. pose proof (lookup_lt_Some _ _ _ Hi) as Hlt.
  destruct (decodeSegmentHeader _) as [[h' n]|] eqn:E; [exfalso|done].
  pose proof E as (Hok&Hn&Hd)%seg_header_sound.
  rewrite <-insert_app_l in Hd, E by done.
  assert (Hid : zlen (sh_SourceID h') = zlen (sh_SourceID h)).
  { apply (f_equal (fun l => be_dec (slice 24 2 l))) in Hd.
    rewrite slice_insert_out, !seg_header_idlen in Hd by (done || lia). done. }
  rewrite length_seg_header_bytes in Hlt.
  assert (Hn' : n = (30 + length (sh_SourceID h))%nat).
  { rewrite Hn, length_seg_header_bytes. unfold zlen in Hid. lia. }
  apply (crc32c_trailer_insert (26 + length (sh_SourceID h)) (seg_header_bytes h ++ rest) i b c);
    [|by apply lookup_app_l_Some|done|lia|].
  - unfold seg_header_bytes. rewrite <-app_assoc, <-length_seg_header_prefix, take_app_length.
    rewrite trailer_slice. by rewrite be_dec_enc_id by apply is32_crc32c.
  - revert Hd. generalize (drop n (<[i:=c]> (seg_header_bytes h ++ rest))). intros rest' ->.
    unfold seg_header_bytes. rewrite <-app_assoc.
    assert (length (seg_header_prefix h') = 26 + length (sh_SourceID h))%nat as <-
      by (rewrite length_seg_header_prefix; unfold zlen in Hid; lia).
    rewrite take_app_length, trailer_slice.
    by rewrite be_dec_enc_id by apply is32_crc32c.
Qed.

(** ** Logs: the bytes of consecutive frames *)

Definition frames_bytes (l : list Frame) : bytes := mjoin (frame_bytes <$> l).

Lemma frames_bytes_cons f l : frames_bytes (f :: l) = frame_bytes f ++ frames_bytes l.
Proof. done. Qed.

Lemma frames_bytes_app l k : frames_bytes (l ++ k) = frames_bytes l ++ frames_bytes k.
Proof. unfold frames_bytes. by rewrite fmap_app, join_app. Qed.

Lemma frames_bytes_snoc l f : frames_bytes (l ++ [f]) = frames_bytes l ++ frame_bytes f.
Proof. rewrite frames_bytes_app. unfold frames_bytes at 2. cbn. by rewrite app_nil_r. Qed.

(** What the frames of a log are: acceptable to the encoder and carrying their payload's hash. *)
Definition frame_wf (f : Frame) : Prop := frame_ok f /\ f = sealed f.

Lemma frame_wf_sealed f : frame_ok f -> frame_wf (sealed f).
Proof. by intros H. Qed.

Lemma frame_bytes_sealed f : frame_bytes (sealed f) = frame_bytes f.
Proof. done. Qed.

(** Consecutive sequences from [first]. *)
Definition contiguous (first : Z) (l : list Frame) : Prop :=
  forall (i : nat) f, l !! i = Some f -> fr_Sequence f = first + Z.of_nat i.

Lemma contiguous_cons first f l :
  contiguous first (f :: l) <-> fr_Sequence f = first /\ contiguous (first + 1) l.
Proof.
  split.
  - intros H. split; [rewrite (H O f eq_refl); lia|].
    intros i g Hg. rewrite (H (S i) g Hg). lia.
  - intros [Hf H] [|i] g Hg; cbn in Hg; [injection Hg as <-; lia|].
    rewrite (H i g Hg). lia.
Qed.

Lemma contiguous_snoc first l f :
  contiguous first (l ++ [f]) <-> contiguous first l /\ fr_Sequence f = first + zlen l.
Proof.
  revert first. induction l as [|g l IH]; intros first; cbn [app].
  - rewrite contiguous_cons. change (zlen []) with 0. rewrite Z.add_0_r.
    split; intros []; split; try done; by intros i ?; destruct i.
  - rewrite !contiguous_cons, IH. replace (zlen (g :: l)) with (1 + zlen l) by (unfold zlen; cbn; lia).
    rewrite Z.add_assoc. tauto.
Qed.

Lemma contiguous_nil first : contiguous first [].
Proof. by intros [|i] f. Qed.

#[export] Hint Resolve contiguous_nil : core.

(** The sequence of the last frame; 0 without frames. *)
Definition last_seq (l : list Frame) : Z := default 0 (fr_Sequence <$> last l).

Lemma last_seq_snoc l f : last_seq (l ++ [f]) = fr_Sequence f.
Proof. unfold last_seq. by rewrite last_snoc. Qed.

Lemma last_seq_contiguous first l :
  contiguous first l -> l <> [] -> last_seq l = first + zlen l - 1.
Proof.
  destruct l as [|f l _] using rev_ind; [done|]. intros [_ H]%contiguous_snoc _.
  rewrite last_seq_snoc, H, zlen_app. change (zlen [f]) with 1. lia.
Qed.

(** Where a log stops decoding: at its end, or at bytes that are no frame. *)
Definition log_end (tail : bytes) : Prop :=
  tail = [] \/ exists fr n st, DecodeFrame tail = (fr, n, st) /\ st <> FrameOK.

(** Every byte string is uniquely frames followed by something that is not a frame. *)
Lemma log_split data :
  exists frames tail, data = frames_bytes frames ++ tail /\ Forall frame_wf frames /\ log_end tail.
Proof.
  induction data as [data IH] using (induction_ltof1 _ length). unfold ltof in IH.
  destruct (DecodeFrame data) as [[fr n] st] eqn:E.
  destruct (decide (st = FrameOK)) as [->|Hst].
  - apply frame_sound in E as (Hok&Hs&Hn&Hd).
    destruct (IH (drop n data)) as (frames&tail&Ht&Hf&He).
    { apply (f_equal length) in Hd. rewrite length_app, length_frame_bytes in Hd. lia. }
    exists (fr :: frames), tail. split; [|by split; [constructor|]].
    by rewrite frames_bytes_cons, <-app_assoc, <-Ht.
  - exists [], data. split; [done|]. split; [done|]. right. eauto.
Qed.

(** ** The frame loop, once and for all *)

Section loop.
Context {A R : Type} (body : nat -> Frame -> nat -> FrameStatus -> A -> A + R) (finish : nat -> A -> R).

(** The body run over known frames. *)
Fixpoint run_frames (off : nat) (frames : list Frame) (a : A) : (nat * A) + R :=
  match frames with
  | [] => inl (off, a)
  | f :: l =>
      match body off f (length (frame_bytes f)) FrameOK a with
      | inl a' => run_frames (off + length (frame_bytes f)) l a'
      | inr r => inr r
      end
  end.

(** The body leaves the loop on anything but a valid frame. *)
Definition stops : Prop :=
  forall off fr n st a, st <> FrameOK -> exists r, body off fr n st a = inr r.

Lemma frames_loop_run fuel data oof off frames tail a :
  drop off data = frames_bytes frames ++ tail -> Forall frame_wf frames ->
  frames_loop (length frames + fuel) data body finish oof off a =
  match run_frames off frames a with
  | inl (off', a') => frames_loop fuel data body finish oof off' a'
  | inr r => r
  end.
Proof.
  revert off a. induction frames as [|f l IH]; intros off a Hd Hw; [done|].
  apply Forall_cons in Hw as [[Hok Hs] Hw]. rewrite frames_bytes_cons, <-app_assoc in Hd.
  cbn [length Nat.add frames_loop run_frames].
  rewrite (proj2 (Nat.ltb_lt _ _)).
  2: { apply (f_equal length) in Hd. rewrite length_drop, length_app, length_frame_bytes in Hd. lia. }
  rewrite Hd, frame_decode, <-Hs by done.
  destruct (body _ _ _ _ _) as [a'|r]; [|done]. apply IH; [|done].
  by rewrite <-drop_drop, Hd, drop_app_length.
Qed.

Lemma run_frames_off off frames a off' a' :
  run_frames off frames a = inl (off', a') -> off' = (off + length (frames_bytes frames))%nat.
Proof.
  revert off a. induction frames as [|f l IH]; intros off a; cbn [run_frames].
  - intros [= -> ->]. cbn. lia.
  - destruct (body _ _ _ _ _) as [a1|r]; [|done]. intros H%IH.
    rewrite frames_bytes_cons, length_app. lia.
Qed.

Lemma length_frames_bytes_ge frames : (length frames <= length (frames_bytes frames))%nat.
Proof.
  induction frames as [|f l IH]; [done|]. rewrite frames_bytes_cons, length_app, length_frame_bytes. cbn [length]. lia.
Qed.

(** What the loop computes on frames followed by bytes that are no frame. *)
Definition loop_spec (oof : R) (frames : list Frame) (tail : bytes) (off : nat) (a : A) : R :=
  match run_frames off frames a with
  | inl (off', a') =>
      match tail with
      | [] => finish off' a'
      | _ => let '(fr, n, st) := DecodeFrame tail in
             match body off' fr n st a' with inr r => r | inl _ => oof end
      end
  | inr r => r
  end.

Lemma frames_loop_split fuel data oof off frames tail a :
  (off <= length data)%nat -> drop off data = frames_bytes frames ++ tail ->
  Forall frame_wf frames -> log_end tail -> stops -> (length data - off < fuel)%nat ->
  frames_loop fuel data body finish oof off a = loop_spec oof frames tail off a.
Proof.
  intros Hoff Hd Hw He Hst Hfuel.
  pose proof (length_frames_bytes_ge frames) as Hge.
  assert (Hl : (length data - off = length (frames_bytes frames) + length tail)%nat)
    by (rewrite <-length_app, <-Hd, length_drop; done).
  replace fuel with (length frames + S (fuel - 1 - length frames))%nat by lia.
  rewrite (frames_loop_run _ _ _ _ _ _ _ Hd Hw). unfold loop_spec.
  destruct (run_frames off frames a) as [[off' a']|r] eqn:E; [|done].
  apply run_frames_off in E as ->. cbn [frames_loop].
  destruct He as [->|(fr&n&st&Hf&Hne)].
  - rewrite (proj2 (Nat.ltb_ge _ _)); [done|]. cbn in Hl. lia.
  - destruct tail as [|b tail].
    { rewrite (proj2 (Nat.ltb_ge _ _)); [done|]. cbn in Hl. lia. }
    rewrite (proj2 (Nat.ltb_lt _ _)) by (cbn in Hl; lia).
    replace (drop (off + length (frames_bytes frames)) data) with (b :: tail)
      by (by rewrite <-drop_drop, Hd, drop_app_length).
    rewrite Hf. destruct (Hst (off + length (frames_bytes frames))%nat fr n st a' Hne) as [r Hr].
    by rewrite Hr.
Qed.
End loop.

(** The loop's fuel is enough: the value for exhausted fuel never matters. *)
Lemma frames_loop_fuel {A R} data body (finish : nat -> A -> R) off a fuel fuel' oof oof' :
  stops body -> (length data - off < fuel)%nat -> (length data - off < fuel')%nat ->
  frames_loop fuel data body finish oof off a = frames_loop fuel' data body finish oof' off a.
Proof.
  intros Hs H H'. destruct (Nat.le_gt_cases off (length data)) as [Hle|Hgt].
  2: { destruct fuel, fuel'; try lia. cbn [frames_loop]. by rewrite !(proj2 (Nat.ltb_ge _ _)) by lia. }
  destruct (log_split (drop off data)) as (frames&tail&Hd&Hw&He).
  rewrite !(frames_loop_split _ _ _ _ _ _ frames tail) by done.
  unfold loop_spec. destruct (run_frames _ _ _ _) as [[off' a']|r]; [|done].
  destruct He as [->|(fr&n&st&Hf&Hne)]; [done|]. destruct tail; [done|]. rewrite Hf.
  destruct (Hs off' fr n st a' Hne) as [r Hr]. by rewrite Hr.
Qed.

(** ** The loops of [OpenSegment] and [ReadAll] *)

Lemma open_body_stops : stops open_body.
Proof. intros off fr n st [e l] H. destruct st; [done|..]; cbn; eauto. Qed.

Lemma read_body_stops : stops read_body.
Proof. intros off fr n st a H. destruct st; [done|..]; cbn; eauto. Qed.

#[export] Hint Resolve open_body_stops read_body_stops : core.

(** After a valid frame the next expected sequence does not wrap while frames follow. *)
Lemma contiguous_next first f l :
  Forall frame_wf (f :: l) -> contiguous first (f :: l) -> contiguous (i64 (first + 1)) l.
Proof.
  intros [[[Hr _] _] Hw]%Forall_cons [Hf Hc]%contiguous_cons.
  destruct l as [|g l]; [done|].
  apply Forall_cons in Hw as [[[Hg _] _] _]. pose proof (proj1 (contiguous_cons _ _ _) Hc) as [Hg' _].
  rewrite i64_id; [done|]. unfold in_i64, SequenceMin, SequenceMax in *. lia.
Qed.

Lemma contiguous_next_inv first f l :
  in_i64 first -> Forall frame_wf (f :: l) -> fr_Sequence f = first ->
  contiguous (i64 (first + 1)) l -> contiguous first (f :: l).
Proof.
  intros Hi [[[Hr _] _] Hw]%Forall_cons Hf Hc. apply contiguous_cons. split; [done|].
  destruct l as [|g l]; [done|].
  apply Forall_cons in Hw as [[[Hg _] _] _]. pose proof (proj1 (contiguous_cons _ _ _) Hc) as [Hg' _].
  destruct (decide (first = MaxInt64)) as [->|].
  - exfalso. change (i64 (MaxInt64 + 1)) with (-2^63) in Hg'. unfold SequenceMin in Hg. lia.
  - rewrite i64_id in Hc; [done|]. unfold in_i64 in *. lia.
Qed.

Lemma last_cons_default (l : list Frame) f x :
  default x (fr_Sequence <$> last (f :: l)) = default (fr_Sequence f) (fr_Sequence <$> last l).
Proof. rewrite last_cons. by destruct (last l). Qed.

Lemma run_open frames off e l :
  Forall frame_wf frames -> contiguous e frames ->
  exists e', run_frames open_body off frames (e, l)
    = inl ((off + length (frames_bytes frames))%nat, (e', default l (fr_Sequence <$> last frames))).
Proof.
  revert off e l. induction frames as [|f fs IH]; intros off e l Hw Hc.
  - exists e. cbn. by rewrite Nat.add_0_r.
  - pose proof (contiguous_next _ _ _ Hw Hc) as Hn. apply contiguous_cons in Hc as [Hf _].
    apply Forall_cons in Hw as [_ Hw]. cbn [run_frames open_body]. rewrite Hf, Z.eqb_refl.
    destruct (IH (off + length (frame_bytes f))%nat _ e Hw Hn) as [e' ->]. exists e'.
    rewrite last_cons_default, Hf, frames_bytes_cons, length_app. do 2 f_equal. lia.
Qed.

Lemma run_open_inv frames off e l off' e' l' :
  in_i64 e -> Forall frame_wf frames ->
  run_frames open_body off frames (e, l) = inl (off', (e', l')) ->
  contiguous e frames /\ l' = default l (fr_Sequence <$> last frames).
Proof.
  revert off e l. induction frames as [|f fs IH]; intros off e l Hi Hw.
  - intros [= _ _ ->]. done.
  - cbn [run_frames open_body]. destruct (fr_Sequence f =? e) eqn:E; [|done]. apply Z.eqb_eq in E. intros H.
    apply IH in H as [Hc ->]; [|apply i64_range|by apply Forall_cons in Hw as [_ ?]].
    split; [by apply contiguous_next_inv|]. by rewrite last_cons_default.
Qed.

Lemma run_read frames off acc :
  run_frames read_body off frames acc = inl ((off + length (frames_bytes frames))%nat, acc ++ frames).
Proof.
  revert off acc. induction frames as [|f fs IH]; intros off acc; cbn [run_frames read_body].
  - by rewrite Nat.add_0_r, app_nil_r.
  - rewrite IH, frames_bytes_cons, length_app, <-app_assoc. do 2 f_equal. lia.
Qed.

(** A whole segment file: header, then frames. *)
Definition segment_bytes (h : SegmentHeader) (frames : list Frame) : bytes :=
  seg_header_bytes h ++ frames_bytes frames.

Lemma segment_bytes_snoc h frames f :
  segment_bytes h (frames ++ [f]) = segment_bytes h frames ++ frame_bytes f.
Proof. unfold segment_bytes. by rewrite frames_bytes_snoc, app_assoc. Qed.

Lemma drop_segment_bytes h frames rest :
  drop (length (seg_header_bytes h)) (segment_bytes h frames ++ rest) = frames_bytes frames ++ rest.
Proof. unfold segment_bytes. by rewrite <-app_assoc, drop_app_length. Qed.

Lemma decode_segment_bytes h frames rest : header_ok h ->
  decodeSegmentHeader (segment_bytes h frames ++ rest) = Ok (h, length (seg_header_bytes h)).
Proof. intros. unfold segment_bytes. rewrite <-app_assoc. by apply decode_seg_header. Qed.

Lemma log_end_nil : log_end [].
Proof. by left. Qed.
#[export] Hint Resolve log_end_nil : core.

(** The loop over a segment file's frames, from the end of its header. *)
Lemma frames_loop_segment {A R} body (finish : nat -> A -> R) oof h frames tail a :
  stops body -> Forall frame_wf frames -> log_end tail ->
  let data := segment_bytes h frames ++ tail in
  frames_loop (S (length data)) data body finish oof (length (seg_header_bytes h)) a
  = loop_spec body finish oof frames tail (length (seg_header_bytes h)) a.
Proof.
  intros Hs Hw He data. apply frames_loop_split; try done.
  - unfold data, segment_bytes. rewrite !length_app. lia.
  - apply drop_segment_bytes.
  - lia.
Qed.

Lemma open_scan_complete h frames :
  Forall frame_wf frames -> contiguous (sh_FirstSequence h) frames ->
  open_scan (segment_bytes h frames) (length (seg_header_bytes h)) (sh_FirstSequence h)
  = Ok (length (segment_bytes h frames), last_seq frames).
Proof.
  intros Hw Hc. unfold open_scan.
  pose proof (frames_loop_segment open_body (fun off s => Ok (off, snd s)) (Err OutOfFuel) h frames []
    (sh_FirstSequence h, 0) open_body_stops Hw log_end_nil) as E.
  cbv zeta in E. rewrite app_nil_r in E. rewrite E. unfold loop_spec.
  destruct (run_open frames (length (seg_header_bytes h)) _ 0 Hw Hc) as [e' ->]. cbn [snd].
  unfold segment_bytes. by rewrite length_app.
Qed.

Lemma open_scan_sound data h n r :
  decodeSegmentHeader data = Ok (h, n) -> open_scan data n (sh_FirstSequence h) = Ok r ->
  exists frames, data = segment_bytes h frames /\ Forall frame_wf frames
    /\ contiguous (sh_FirstSequence h) frames /\ r = (length data, last_seq frames).
Proof.
  intros (Hok&->&Hd)%seg_header_sound.
  destruct (log_split (drop (length (seg_header_bytes h)) data)) as (frames&tail&Ht&Hw&He).
  assert (E : data = segment_bytes h frames ++ tail)
    by (unfold segment_bytes; by rewrite <-app_assoc, <-Ht).
  rewrite E. unfold open_scan. rewrite frames_loop_segment by done. unfold loop_spec.
  destruct (run_frames _ _ _ _) as [[off' [e' l']]|r'] eqn:Er.
  - pose proof (run_frames_off _ _ _ _ _ _ Er) as ->.
    apply run_open_inv in Er as [Hc ->]; [|by destruct Hok as (_&?&_)|done].
    destruct tail as [|b tail].
    + intros Hr. exists frames. rewrite !app_nil_r. split_and!; try done.
      unfold segment_bytes. rewrite length_app. unfold last_seq. cbn [snd] in Hr. congruence.
    + destruct He as [|(fr&m&st&Hf&Hne)]; [done|]. rewrite Hf. by destruct st.
  - intros ->. exfalso. clear -Er. revert Er. generalize (length (seg_header_bytes h)), (sh_FirstSequence h), 0.
    induction frames as [|f fs IH]; intros off e l; cbn [run_frames open_body]; [done|].
    destruct (fr_Sequence f =? e); [apply IH|by intros [= <-]].
Qed.

(** ** The state of an open segment *)

(** [s] is open on a file that holds its header and exactly [frames]. *)
Definition seg_inv (s : Segment) (frames : list Frame) (d : disk) : Prop :=
  file DWal (sg_name s) d = Some (segment_bytes (sg_header s) frames)
  /\ header_ok (sg_header s) /\ SequenceMin <= sh_FirstSequence (sg_header s)
  /\ Forall frame_wf frames /\ contiguous (sh_FirstSequence (sg_header s)) frames
  /\ sg_size s = zlen (segment_bytes (sg_header s) frames) /\ sg_last s = last_seq frames.

(** The segment [Append] returns. *)
Definition appended (s : Segment) (f : Frame) : Segment :=
  mkSegment (sg_name s) (sg_header s) (sg_ceiling s) (sg_size s + zlen (frame_bytes f)) (fr_Sequence f).

Lemma write_at_end c data : write_at c (length c) data = c ++ data.
Proof.
  unfold write_at. destruct data as [|b data]; [by rewrite app_nil_r|].
  rewrite firstn_all, Nat.sub_diag, drop_ge by lia. cbn [replicate app]. by rewrite app_nil_r.
Qed.

Lemma put_id n name c d : file n name d = Some c -> put n name (EFile c) d = d.
Proof.
  unfold file. intros H. destruct (entries n d !! name) as [[c'|]|] eqn:E; try done. injection H as ->.
  unfold put. rewrite insert_id by done. apply set_dir_id.
  unfold entries in E. destruct (get_dir n d); [eauto|]. cbn in E; by rewrite lookup_empty in E.
Qed.

Lemma put_put n name e e' d : put n name e (put n name e' d) = put n name e d.
Proof. unfold put. by rewrite entries_set, set_dir_set, insert_insert_eq. Qed.

Lemma last_seq_range frames : Forall frame_wf frames -> 0 <= last_seq frames <= MaxInt64.
Proof.
  intros H. destruct frames as [|f l _] using rev_ind; [unfold last_seq, MaxInt64; cbn; lia|].
  rewrite last_seq_snoc. apply Forall_app in H as [_ [[[H _] _] _]%Forall_cons].
  unfold SequenceMin, SequenceMax in H. lia.
Qed.

(** The sequence an append must carry is the one after the last frame, if there is one. *)
Lemma nextExpected_inv s frames d :
  seg_inv s frames d ->
  nextExpected s =
    let next := sh_FirstSequence (sg_header s) + zlen frames in
    if next <=? SequenceMax then Some next else None.
Proof.
  intros (_&Hok&Hmin&Hw&Hc&_&Hl). unfold nextExpected. rewrite Hl. cbv zeta.
  destruct Hok as (_&[_ Hmax]&_). unfold SequenceMin, SequenceMax in *.
  destruct frames as [|f l _] using rev_ind.
  - change (last_seq []) with 0. change (zlen []) with 0. rewrite Z.eqb_refl, Z.add_0_r. by rewrite (proj2 (Z.leb_le _ _)) by lia.
  - pose proof (last_seq_range _ Hw). rewrite (last_seq_contiguous _ _ Hc) in * by (by destruct l).
    assert (0 < zlen (l ++ [f])) by (rewrite zlen_app; unfold zlen; cbn; lia).
    rewrite (proj2 (Z.eqb_neq _ _)) by lia.
    destruct (_ + zlen (l ++ [f]) <=? MaxInt64) eqn:E; bool_to_prop.
    + rewrite (proj2 (Z.leb_gt _ _)) by lia. f_equal. rewrite i64_id; unfold in_i64; lia.
    + rewrite (proj2 (Z.leb_le _ _)) by lia. done.
Qed.

Section append.
Context (ev : env) (s : Segment) (frames : list Frame) (f : Frame) (d0 : disk).
Hypothesis Hinv : seg_inv s frames d0.
Let content := segment_bytes (sg_header s) frames.

(** The file holds the durable frames followed by the first [k] bytes of the new one; nothing else
    changed. *)
Definition torn_at (k : nat) (d : disk) : Prop :=
  d = put DWal (sg_name s) (EFile (content ++ take k (frame_bytes f))) d0.

Lemma Hfile : file DWal (sg_name s) d0 = Some content.
Proof. apply Hinv. Qed.

Lemma torn_at_0 : torn_at 0 d0.
Proof. unfold torn_at. rewrite take_0, app_nil_r. symmetry. apply put_id, Hfile. Qed.

Lemma size_nat : Z.to_nat (sg_size s) = length content.
Proof. destruct Hinv as (_&_&_&_&_&->&_). apply Nat2Z.id. Qed.

Lemma file_torn k d : torn_at k d -> file DWal (sg_name s) d = Some (content ++ take k (frame_bytes f)).
Proof. intros ->. apply file_put. Qed.

Lemma seg_inv_appended d :
  frame_ok f -> fr_Sequence f = sh_FirstSequence (sg_header s) + zlen frames ->
  torn_at (length (frame_bytes f)) d -> seg_inv (appended s f) (frames ++ [sealed f]) d.
Proof.
  intros Hok Hseq Hd. destruct Hinv as (Hf&Hh&Hmin&Hw&Hc&Hs&Hl).
  apply file_torn in Hd. rewrite firstn_all in Hd. unfold seg_inv, appended; cbn [sg_name sg_header sg_size sg_last].
  rewrite segment_bytes_snoc. split_and!; try done.
  - apply Forall_app. split; [done|]. apply Forall_singleton, frame_wf_sealed, Hok.
  - by apply contiguous_snoc.
  - rewrite Hs, zlen_app. done.
  - by rewrite last_seq_snoc.
Qed.

(** The write and sync part of an append, with its rollback. *)
Lemma ct_append_write :
  crash_triple (eq d0)
    (io_cleanup
       (io_writeAt ev DWal (sg_name s) (Z.to_nat (sg_size s)) (frame_bytes f) ;!
        io_check ev IoSync (sg_name s))
       (rollback ev s))
    (fun d => exists k, torn_at k d)
    (fun _ d => torn_at (length (frame_bytes f)) d)
    (fun d => (exists k, torn_at k d) /\ (e_flt ev IoTruncate (sg_name s) = false -> d = d0)).
Proof.
  rewrite size_nat. apply (ct_cleanup _ _ _ _ _ _ (fun d => exists k, torn_at k d)).
  - apply (ct_bind _ _ _ _ _ (fun _ => torn_at (length (frame_bytes f)))).
    + apply ct_writeAt. intros d k <-. rewrite Hfile. cbn [default]. unfold id.
      change (default [] (Some content)) with content.
      rewrite write_at_end. split_and!; [exists k; done|exists k; done|]. by intros ->.
    + intros []. apply ct_check. intros d Hd. split_and!; eauto.
  - intros d [k Hd]. unfold rollback, io_truncate, io_call.
    destruct (e_flt ev IoTruncate (sg_name s)); (split; [apply Forall_singleton; by exists k|]); [by split; [exists k|]|].
    assert (E : put DWal (sg_name s) (EFile (take (Z.to_nat (sg_size s)) (default [] (file DWal (sg_name s) d))
        ++ replicate (Z.to_nat (sg_size s) - length (default [] (file DWal (sg_name s) d))) x00)) d = d0).
    { rewrite (file_torn _ _ Hd), size_nat. change (default [] (Some ?x)) with x.
      rewrite take_app_length, length_app.
      replace (length content - _)%nat with O by lia. rewrite app_nil_r, Hd, put_put. apply put_id, Hfile. }
    rewrite E. split; [|done]. exists O. apply torn_at_0.
Qed.
End append.

Lemma append_spec ev s frames f d0 :
  seg_inv s frames d0 ->
  crash_triple (eq d0) (Append ev s f)
    (fun d => exists k, torn_at s frames f d0 k d)
    (fun s' d => s' = appended s f /\ seg_inv s' (frames ++ [sealed f]) d
       /\ torn_at s frames f d0 (length (frame_bytes f)) d)
    (fun d => (exists k, torn_at s frames f d0 k d)
       /\ (e_flt ev IoTruncate (sg_name s) = false -> d = d0)).
Proof.
  intros Hinv. pose proof (torn_at_0 s frames f d0 Hinv) as H0.
  assert (He : forall d, d0 = d -> (exists k, torn_at s frames f d0 k d)
       /\ (e_flt ev IoTruncate (sg_name s) = false -> d = d0)) by (intros d <-; eauto).
  unfold Append. rewrite (nextExpected_inv _ _ _ Hinv). cbv zeta.
  destruct (_ <=? _); [|by apply ct_err].
  destruct (EncodeFrame f) as [l|e] eqn:E.
  2: { intros d Hd. cbn. split; [constructor|by apply He]. }
  apply EncodeFrame_inv in E as [Hok ->].
  apply (ct_bind _ _ _ _ _ (fun a d => a = frame_bytes f /\ d0 = d)).
  { intros d <-. cbn. by split; [constructor|]. }
  intros a d [-> Hd]. revert d Hd.
  destruct (fr_Sequence f =? _) eqn:Hs; bool_to_prop; [|by apply ct_err].
  cbn [negb]. destruct (_ <? _); [by apply ct_err|].
  apply (ct_bind _ _ _ _ _ (fun _ => torn_at s frames f d0 (length (frame_bytes f)))).
  - by apply ct_append_write.
  - intros a. apply ct_ret. intros d Hd. split; [done|]. split; [|done]. by apply (seg_inv_appended s frames f d0).
Qed.

(** Reading a regular file that is there, without faults. *)
Lemma mustReadFile_ok n name d c : file n name d = Some c ->
  forall ev, e_flt ev IoRead name = false -> mustReadFile ev n name d = ([d], Ok c, d).
Proof.
  intros H ev Hf. unfold mustReadFile, readFile, io_check, io_call, io_bind. rewrite Hf. cbn. by rewrite H.
Qed.

Lemma mustReadFile_inv ev n name d t c d' :
  mustReadFile ev n name d = (t, Ok c, d') -> file n name d = Some c /\ d' = d.
Proof.
  unfold mustReadFile, readFile, io_check, io_call, io_bind. destruct (e_flt _ _ _); [done|]. cbn.
  destruct (file n name d); [|done]. by intros [= <- <- <-].
Qed.

Lemma read_frames_segment h frames : header_ok h -> Forall frame_wf frames ->
  read_frames (segment_bytes h frames) = Ok frames.
Proof.
  intros Hh Hw. unfold read_frames.
  pose proof (decode_segment_bytes h frames [] Hh) as Hd. rewrite app_nil_r in Hd. rewrite Hd.
  cbn [mbind result_bind snd].
  pose proof (frames_loop_segment read_body (fun _ fs => Ok fs) (Err OutOfFuel) h frames [] []
    read_body_stops Hw log_end_nil) as E.
  cbv zeta in E. rewrite app_nil_r in E. rewrite E. unfold loop_spec. by rewrite run_read.
Qed.

Lemma read_frames_sound data frames : read_frames data = Ok frames ->
  exists h, header_ok h /\ data = segment_bytes h frames /\ Forall frame_wf frames.
Proof.
  unfold read_frames. intros ([h n]&Hd&Hl)%bind_Ok. cbn [snd] in Hl.
  pose proof Hd as (Hok&->&Hsplit)%seg_header_sound.
  destruct (log_split (drop (length (seg_header_bytes h)) data)) as (fs&tail&Ht&Hw&He).
  assert (E : data = segment_bytes h fs ++ tail)
    by (unfold segment_bytes; by rewrite <-app_assoc, <-Ht).
  rewrite E in Hl. rewrite frames_loop_segment in Hl by done. unfold loop_spec in Hl. rewrite run_read in Hl.
  destruct tail as [|b tail].
  - injection Hl as <-. exists h. by rewrite app_nil_r in E.
  - destruct He as [|(fr&m&st&Hf&Hne)]; [done|]. rewrite Hf in Hl. by destruct st.
Qed.

(** [created_at k]: the file holds the first [k] bytes of its header, the other files of [wal/] are
    those of [d0]. *)
Definition created_at (d0 : disk) (name hdr : bytes) (k : nat) (d : disk) : Prop :=
  file DWal name d = Some (take k hdr)
  /\ (forall x, x <> name -> entries DWal d !! x = entries DWal d0 !! x).

Definition not_created (d0 : disk) (d : disk) : Prop := entries DWal d = entries DWal d0.

Lemma created_put d0 name hdr k d d' :
  (forall x, x <> name -> entries DWal d !! x = entries DWal d0 !! x) ->
  d' = put DWal name (EFile (take k hdr)) d -> created_at d0 name hdr k d'.
Proof.
  intros H ->. split; [apply file_put|]. intros x Hx. rewrite entries_put, lookup_insert_ne by done. auto.
Qed.

Lemma ct_create_excl ev n name (P C : disk -> Prop) (Q : unit -> disk -> Prop) (E : disk -> Prop) :
  (forall d, P d -> C d /\ E d /\ (entries n d !! name = None -> Q tt (put n name (EFile []) d))) ->
  crash_triple P (io_create_excl ev n name) C Q E.
Proof.
  intros H d Hd. destruct (H d Hd) as (HC&HE&HQ). unfold io_create_excl.
  destruct (entries n d !! name) eqn:En; [by split; [constructor|]|].
  unfold io_call. destruct (e_flt _ _ _); (split; [by constructor|auto]).
Qed.

Lemma create_spec ev opts d0 :
  header_ok (so_header opts) ->
  let name := segmentFilename (sh_FirstSequence (so_header opts)) in
  let hdr := seg_header_bytes (so_header opts) in
  let hidden d := not_created d0 d \/ exists k, created_at d0 name hdr k d in
  crash_triple (eq d0) (CreateSegment ev opts) hidden
    (fun s d => s = mkSegment name (so_header opts) (ceilingOrDefault (so_Ceiling opts)) (zlen hdr) 0
       /\ seg_inv s [] d /\ created_at d0 name hdr (length hdr) d)
    hidden.
Proof.
  intros Hok name hdr hidden.
  assert (Hn : forall d, d0 = d -> not_created d0 d) by (by intros d <-).
  unfold CreateSegment. destruct (_ <? 1) eqn:Hf; [apply ct_err; intros d Hd; left; auto|]. bool_to_prop.
  rewrite (encodeSegmentHeader_ok _ Hok). fold name hdr. cbv zeta.
  apply (ct_bind _ _ _ _ _ (fun _ => not_created d0)).
  { apply (ct_conseq _ (not_created d0) _ _ (not_created d0) _ (fun _ => not_created d0) _ (not_created d0));
      [|done|by left|done|by left].
    apply ct_ensureDir. unfold not_created. intros d <-. apply entries_set. }
  intros []; cbv beta. apply (ct_bind _ _ _ _ _ (fun a d => a = hdr /\ not_created d0 d)).
  { intros d Hd. cbn. by split; [constructor|]. }
  intros a d [-> Hd]. revert d Hd.
  change (crash_triple (not_created d0)
    (io_create_excl ev DWal name ;! io_check ev IoChmod name ;! io_writeAt ev DWal name 0 hdr ;!
     io_check ev IoSync name ;! fsyncDir ev DWal ;!
     io_ret (mkSegment name (so_header opts) (ceilingOrDefault (so_Ceiling opts)) (zlen hdr) 0)) hidden
    (fun s d => s = mkSegment name (so_header opts) (ceilingOrDefault (so_Ceiling opts)) (zlen hdr) 0
       /\ seg_inv s [] d /\ created_at d0 name hdr (length hdr) d) hidden).
  apply (ct_bind _ _ _ _ _ (fun _ => created_at d0 name hdr 0)).
  { apply ct_create_excl. intros d Hd. split_and!; [by left|by left|]. intros _.
    apply (created_put _ _ _ _ d); [by rewrite Hd|by rewrite take_0]. }
  intros []; cbv beta. apply (ct_bind _ _ _ _ _ (fun _ => created_at d0 name hdr 0)).
  { apply ct_check. intros d Hd. split_and!; [right; eauto|done|right; eauto]. }
  intros []; cbv beta. apply (ct_bind _ _ _ _ _ (fun _ => created_at d0 name hdr (length hdr))).
  { apply ct_writeAt. intros d k [Hf0 Hx]. rewrite Hf0, take_0.
    change (default [] (Some (@nil byte))) with (@nil byte).
    assert (Hk : created_at d0 name hdr k (put DWal name (EFile (write_at [] 0 (take k hdr))) d)).
    { apply (created_put _ _ _ _ d); [done|]. by rewrite (write_at_end [] (take k hdr) : write_at [] 0 _ = _). }
    split_and!; [right; eauto|right; eauto|]. by intros <-. }
  set (W := created_at d0 name hdr (length hdr)).
  assert (HW : forall d, W d -> hidden d /\ W d /\ hidden d) by (intros d H; split_and!; [right|done|right]; by exists (length hdr)).
  intros []; cbv beta. apply (ct_bind _ _ _ _ _ (fun _ => W)); [by apply ct_check|].
  intros []; cbv beta. apply (ct_bind _ _ _ _ _ (fun _ => W)).
  { unfold fsyncDir. apply (ct_bind _ _ _ _ _ (fun _ => W)); [by apply ct_check|intros []; by apply ct_check]. }
  intros []; cbv beta. apply ct_ret. intros d Hd. split; [done|]. split; [|done].
  destruct Hd as [Hd _]. rewrite firstn_all in Hd. unfold seg_inv, segment_bytes; cbn [sg_name sg_header sg_size sg_last].
  unfold frames_bytes. cbn. rewrite app_nil_r. split_and!; done.
Qed.

(** Reopening a cleanly written segment. *)
Lemma open_complete ev s frames d opts :
  seg_inv s frames d -> ceilingOrDefault (so_Ceiling opts) = sg_ceiling s ->
  e_flt ev IoOpen (sg_name s) = false -> e_flt ev IoRead (sg_name s) = false ->
  OpenSegment ev (sg_name s) opts d = ([d; d], Ok s, d).
Proof.
  intros (Hf&Hh&Hmin&Hw&Hc&Hs&Hl) Hcl Ho Hr. unfold OpenSegment, io_bind at 1, io_open.
  rewrite Hf. unfold io_check, io_call. rewrite Ho. cbn [id].
  unfold io_bind at 1. rewrite (mustReadFile_ok _ _ _ _ Hf _ Hr).
  pose proof (decode_segment_bytes (sg_header s) frames [] Hh) as Hd. rewrite app_nil_r in Hd.
  rewrite Hd. cbn [io_bind io_of]. rewrite (open_scan_complete _ _ Hw Hc). cbn [io_bind io_ret app].
  destruct s as [nm hd cl sz ls]. cbn in *. subst. done.
Qed.

(** What a successful open establishes, whatever wrote the file. *)
Lemma open_sound ev name opts d t s d' :
  OpenSegment ev name opts d = (t, Ok s, d') ->
  d' = d /\ sg_name s = name /\ sg_ceiling s = ceilingOrDefault (so_Ceiling opts)
  /\ exists frames, file DWal name d = Some (segment_bytes (sg_header s) frames)
     /\ (SequenceMin <= sh_FirstSequence (sg_header s) \/ frames <> [] -> seg_inv s frames d).
Proof.
  unfold OpenSegment, io_bind at 1, io_open. destruct (file DWal name d) as [c|] eqn:Hf; [|done].
  unfold io_check, io_call. destruct (e_flt _ _ _); [done|]. cbn [id].
  unfold io_bind at 1. destruct (mustReadFile ev DWal name d) as [[t1 [c'|]] d1] eqn:Er; [|done].
  apply mustReadFile_inv in Er as [Hf' ->]. rewrite Hf in Hf'. injection Hf' as <-.
  unfold io_of, io_bind. destruct (decodeSegmentHeader c) as [[h n]|] eqn:Hd; [|done].
  destruct (open_scan c n (sh_FirstSequence h)) as [[sz l]|] eqn:Ho; [|done].
  destruct (open_scan_sound _ _ _ _ Hd Ho) as (frames&->&Hw&Hc&[= -> ->]).
  apply seg_header_sound in Hd as (Hh&_&_).
  cbn. intros [= _ <- <-]. cbn. split_and!; try done. exists frames. split; [done|].
  intros Hmin. unfold seg_inv; cbn [sg_name sg_header sg_size sg_last]. split_and!; try done.
  destruct Hmin as [|Hne]; [done|]. destruct frames as [|f l]; [done|].
  apply contiguous_cons in Hc as [<- _]. by apply Forall_cons in Hw as [[[[? _] _] _] _].
Qed.

(** ** The properties of segments *)

(** The header codec. A header decodes exactly when the data starts with the encoding of a valid
    header, and then that header and its length are what is returned; so every header the encoder
    writes reads back whatever follows it, and nothing else is accepted. *)
Theorem decodeSegmentHeader_iff data h n :
  decodeSegmentHeader data = Ok (h, n) <->
  header_ok h /\ exists l rest, encodeSegmentHeader h = Ok l /\ data = l ++ rest /\ n = length l.
Proof.
  split.
  - intros (Hok&->&Hd)%seg_header_sound. split; [done|].
    eexists _, _. split; [by apply encodeSegmentHeader_ok|]. by split.
  - intros (Hok&l&rest&He&->&->). rewrite encodeSegmentHeader_ok in He by done. injection He as <-.
    by apply decode_seg_header.
Qed.

(** A header that lost its end or had any byte outside its length field altered is refused. *)
Theorem segment_header_tamper h l :
  header_ok h -> encodeSegmentHeader h = Ok l ->
  (forall k, (k < length l)%nat -> is_ok (decodeSegmentHeader (take k l)) = false)
  /\ (forall i b c rest, l !! i = Some b -> b <> c -> (i < 24 \/ 26 <= i)%nat ->
        is_ok (decodeSegmentHeader (<[i:=c]> l ++ rest)) = false).
Proof.
  intros Hok He. rewrite encodeSegmentHeader_ok in He by done. injection He as <-. split.
  - intros k Hk. by apply seg_header_torn.
  - intros i b c rest Hi Hbc Hne. by eapply seg_header_one_byte.
Qed.

(** An append under any faults. Every crash state is the directory as it was with a prefix of the
    encoded frame after the segment's frames; success means exactly the frame was added and the
    returned segment describes the file; failure leaves the directory as it was unless the rollback's
    truncate failed too. *)
Theorem Append_spec ev s frames f d0 :
  seg_inv s frames d0 ->
  crash_triple (eq d0) (Append ev s f)
    (fun d => exists k, torn_at s frames f d0 k d)
    (fun s' d => s' = appended s f /\ seg_inv s' (frames ++ [sealed f]) d
       /\ torn_at s frames f d0 (length (frame_bytes f)) d)
    (fun d => (exists k, torn_at s frames f d0 k d)
       /\ (e_flt ev IoTruncate (sg_name s) = false -> d = d0)).
Proof. apply append_spec. Qed.

(** Without faults an append succeeds exactly when the frame is encodable, carries the next
    sequence and fits under the ceiling; otherwise nothing is written. *)
Theorem Append_accepts ev s frames f d0 :
  (forall op name, e_flt ev op name = false) -> seg_inv s frames d0 ->
  let '(_, r, d) := Append ev s f d0 in
  (is_ok r = true <->
     frame_ok f /\ fr_Sequence f = sh_FirstSequence (sg_header s) + zlen frames
     /\ sg_size s + zlen (frame_bytes f) <= sg_ceiling s)
  /\ (is_ok r = false -> d = d0).
Proof.
  intros Hflt Hinv. pose proof (nextExpected_inv _ _ _ Hinv) as Hn. cbv zeta in Hn.
  pose proof (append_spec ev s frames f d0 Hinv d0 eq_refl) as Hspec.
  destruct (Append ev s f d0) as [[t r] d] eqn:E. destruct Hspec as [_ Hr]. split.
  2: { destruct r as [|e]; [done|]. intros _. by apply Hr. }
  clear Hr. unfold Append in E. rewrite Hn in E.
  destruct (_ + zlen frames <=? SequenceMax) eqn:Emax; bool_to_prop.
  2: { injection E as _ <- _. split; [done|]. intros ([[_ ?] _]&?&_). cbn. lia. }
  destruct (EncodeFrame f) as [l|e] eqn:Ee.
  2: { injection E as _ <- _. split; [done|]. intros (Hok&_). by rewrite (EncodeFrame_ok _ Hok) in Ee. }
  apply EncodeFrame_inv in Ee as [Hok ->]. unfold io_of, io_bind at 1 in E.
  destruct (fr_Sequence f =? _) eqn:Es; bool_to_prop; cbn [negb] in E.
  2: { injection E as _ <- _. split; [done|]. intros (_&?&_). done. }
  destruct (_ <? _) eqn:Ec; bool_to_prop.
  { injection E as _ <- _. split; [done|]. intros (_&_&?). lia. }
  unfold io_cleanup, io_bind, io_writeAt, io_check, io_call in E. rewrite !Hflt in E.
  injection E as _ <- _. done.
Qed.

(** Reopening a segment yields the same open segment and reading it yields its frames. *)
Theorem OpenSegment_reopens ev s frames d opts :
  (forall op name, e_flt ev op name = false) ->
  seg_inv s frames d -> ceilingOrDefault (so_Ceiling opts) = sg_ceiling s ->
  OpenSegment ev (sg_name s) opts d = ([d; d], Ok s, d) /\ ReadAll ev s d = ([d], Ok frames, d).
Proof.
  intros Hflt Hinv Hc. split; [by eapply open_complete|].
  destruct Hinv as (Hf&Hh&_&Hw&_). unfold ReadAll, io_bind. rewrite (mustReadFile_ok _ _ _ _ Hf) by done.
  by rewrite read_frames_segment.
Qed.

(** A segment that opens, whoever wrote it, is a header followed by valid contiguous frames of
    which the opened state records the size and the last sequence; opening changes nothing. *)
Theorem OpenSegment_sound ev name opts d t s d' :
  OpenSegment ev name opts d = (t, Ok s, d') ->
  d' = d /\ sg_name s = name /\ sg_ceiling s = ceilingOrDefault (so_Ceiling opts)
  /\ exists frames, file DWal name d = Some (segment_bytes (sg_header s) frames)
     /\ (SequenceMin <= sh_FirstSequence (sg_header s) \/ frames <> [] -> seg_inv s frames d).
Proof. apply open_sound. Qed.

(** Creating a segment under any faults. At every crash point and after a failure the new name is
    absent or holds a prefix of the header and every other file is as it was; success gives an open
    segment without frames whose file is the whole header. *)
Theorem CreateSegment_spec ev opts d0 :
  header_ok (so_header opts) ->
  let name := segmentFilename (sh_FirstSequence (so_header opts)) in
  let hdr := seg_header_bytes (so_header opts) in
  let hidden d := not_created d0 d \/ exists k, created_at d0 name hdr k d in
  crash_triple (eq d0) (CreateSegment ev opts) hidden
    (fun s d => s = mkSegment name (so_header opts) (ceilingOrDefault (so_Ceiling opts)) (zlen hdr) 0
       /\ seg_inv s [] d /\ created_at d0 name hdr (length hdr) d)
    hidden.
Proof. apply create_spec. Qed.

(** ** Witnesses *)

Definition demo_env : env := mkEnv no_faults 0 (str "123") 99.
Definition demo_header : SegmentHeader := mkSegmentHeader 1 (str "src") 1 5.

Lemma demo_header_ok : header_ok demo_header.
Proof. by vm_compute. Qed.

(** A segment holding the demo frame with sequence 1, and the directory it is in. *)
Definition demo_frames : list Frame := [sealed (demo_frame 1)].
Definition demo_segment : Segment :=
  mkSegment (segmentFilename 1) demo_header 4096 (zlen (segment_bytes demo_header demo_frames)) 1.
Definition demo_disk : disk :=
  mkDisk ∅ (Some {[ segmentFilename 1 := EFile (segment_bytes demo_header demo_frames) ]}) None.

Lemma demo_frames_wf : Forall frame_wf demo_frames.
Proof. apply Forall_singleton, frame_wf_sealed, demo_frame_ok. by vm_compute. Qed.

Lemma demo_contiguous : contiguous 1 demo_frames.
Proof. by apply (contiguous_cons 1). Qed.

Lemma demo_seg_inv : seg_inv demo_segment demo_frames demo_disk.
Proof.
  unfold seg_inv, demo_segment; cbn [sg_name sg_header sg_size sg_last].
  split_and!; [apply file_lookup, lookup_singleton_eq|apply demo_header_ok|done|apply demo_frames_wf
    |apply demo_contiguous|done|done].
Qed.

Lemma segment_header_tamper_witness :
  is_ok (decodeSegmentHeader (take 10 (seg_header_bytes demo_header))) = false
  /\ is_ok (decodeSegmentHeader (<[7%nat:=x02]> (seg_header_bytes demo_header) ++ [])) = false.
Proof.
  destruct (segment_header_tamper demo_header (seg_header_bytes demo_header) demo_header_ok ltac:(reflexivity))
    as [H1 H2].
  split; [apply H1; vm_compute; lia|apply (H2 7%nat x01); [vm_compute; reflexivity|discriminate|lia]].
Defined.

Lemma Append_spec_witness :
  seg_inv demo_segment demo_frames demo_disk
  /\ crash_triple (eq demo_disk) (Append demo_env demo_segment (demo_frame 2))
    (fun d => exists k, torn_at demo_segment demo_frames (demo_frame 2) demo_disk k d)
    (fun s' d => s' = appended demo_segment (demo_frame 2) /\ seg_inv s' (demo_frames ++ [sealed (demo_frame 2)]) d
       /\ torn_at demo_segment demo_frames (demo_frame 2) demo_disk (length (frame_bytes (demo_frame 2))) d)
    (fun d => (exists k, torn_at demo_segment demo_frames (demo_frame 2) demo_disk k d)
       /\ (e_flt demo_env IoTruncate (sg_name demo_segment) = false -> d = demo_disk)).
Proof.
  split; [exact demo_seg_inv|]. apply (Append_spec demo_env demo_segment demo_frames (demo_frame 2) demo_disk demo_seg_inv).
Defined.

Lemma Append_accepts_witness :
  let '(_, r, d) := Append demo_env demo_segment (demo_frame 2) demo_disk in
  (is_ok r = true <->
     frame_ok (demo_frame 2) /\ fr_Sequence (demo_frame 2) = sh_FirstSequence (sg_header demo_segment) + zlen demo_frames
     /\ sg_size demo_segment + zlen (frame_bytes (demo_frame 2)) <= sg_ceiling demo_segment)
  /\ (is_ok r = false -> d = demo_disk).
Proof.
  apply (Append_accepts demo_env demo_segment demo_frames (demo_frame 2) demo_disk); [reflexivity|exact demo_seg_inv].
Defined.

Lemma OpenSegment_reopens_witness :
  OpenSegment demo_env (segmentFilename 1) (mkSegmentOptions demo_header 4096) demo_disk
    = ([demo_disk; demo_disk], Ok demo_segment, demo_disk)
  /\ ReadAll demo_env demo_segment demo_disk = ([demo_disk], Ok demo_frames, demo_disk).
Proof.
  apply (OpenSegment_reopens demo_env demo_segment demo_frames demo_disk (mkSegmentOptions demo_header 4096));
    [reflexivity|exact demo_seg_inv|reflexivity].
Defined.

Lemma OpenSegment_sound_witness :
  demo_disk = demo_disk /\ sg_name demo_segment = segmentFilename 1 /\ sg_ceiling demo_segment = 4096
  /\ exists frames, file DWal (segmentFilename 1) demo_disk = Some (segment_bytes (sg_header demo_segment) frames)
     /\ (SequenceMin <= sh_FirstSequence (sg_header demo_segment) \/ frames <> [] -> seg_inv demo_segment frames demo_disk).
Proof.
  apply (OpenSegment_sound demo_env (segmentFilename 1) (mkSegmentOptions demo_header 4096) demo_disk
    [demo_disk; demo_disk] demo_segment demo_disk).
  vm_compute. reflexivity.
Defined.

Lemma CreateSegment_spec_witness :
  header_ok demo_header /\
  crash_triple (eq (mkDisk ∅ None None)) (CreateSegment demo_env (mkSegmentOptions demo_header 0))
    (fun d => not_created (mkDisk ∅ None None) d \/
       exists k, created_at (mkDisk ∅ None None) (segmentFilename 1) (seg_header_bytes demo_header) k d)
    (fun s d => s = mkSegment (segmentFilename 1) demo_header (Z.shiftl 64 20) (zlen (seg_header_bytes demo_header)) 0
       /\ seg_inv s [] d
       /\ created_at (mkDisk ∅ None None) (segmentFilename 1) (seg_header_bytes demo_header)
            (length (seg_header_bytes demo_header)) d)
    (fun d => not_created (mkDisk ∅ None None) d \/
       exists k, created_at (mkDisk ∅ None None) (segmentFilename 1) (seg_header_bytes demo_header) k d).
Proof.
  split; [exact demo_header_ok|].
  exact (CreateSegment_spec demo_env (mkSegmentOptions demo_header 0) (mkDisk ∅ None None) demo_header_ok).
Defined.
