(* ===== verification/Sidecar.v ===== *)
(** * Checksummed sidecars ([internal/observer/spool/recover.go])

    The [identity] and [ack] control files: their codecs, the atomic writes, the reads that refuse a
    damaged file, and [BindIdentity]. The theorems: each codec round-trips, a successful decode
    determines the bytes, any single altered byte is detected, and the control file is old or new at
    every crash point of a write. *)

From S2P Require Import Prelude Hash SpoolTypes Fs Segment Frame.

Definition identityFilename : bytes := str "identity".
Definition ackFilename : bytes := str "ack".
Definition CurrentFormatVersion : Z := 1.
Definition identityMagic : Z := 0x4F494431.
Definition ackMagic : Z := 0x4F414B31.

(** A trailing CRC-32C over everything before it. *)
Definition with_crc (l : bytes) : bytes := l ++ be_enc 4 (crc32c l).

Definition encodeIdentity (sourceID : bytes) (formatVersion : Z) : bytes :=
  with_crc (be_enc 4 identityMagic ++ be_enc 4 formatVersion ++ be_enc 2 (zlen sourceID) ++ sourceID).

Definition decodeIdentity (data : bytes) : sres (bytes * Z) :=
  if (length data <? 14)%nat then Err (ErrChecksumMismatch ScLength)
  else if negb (be_dec (slice 0 4 data) =? identityMagic) then Err (ErrChecksumMismatch ScMagic)
  else
    let idLen := be_dec (slice 8 2 data) in
    let n := Z.to_nat idLen in
    let total := (10 + n + 4)%nat in
    if (idLen =? 0) || (maxSourceIDLen <? idLen) || negb (length data =? total)%nat
    then Err (ErrChecksumMismatch ScLength)
    else if negb (crc32c (take (total - 4) data) =? be_dec (slice (total - 4) 4 data))
    then Err (ErrChecksumMismatch ScCRC)
    else Ok (slice 10 n data, be_dec (slice 4 4 data)).

Definition encodeAck (ackThrough : Z) : bytes :=
  with_crc (be_enc 4 ackMagic ++ be_enc 8 (u64 ackThrough)).

Definition decodeAck (data : bytes) : sres Z :=
  if negb (length data =? 16)%nat then Err (ErrChecksumMismatch ScLength)
  else if negb (be_dec (slice 0 4 data) =? ackMagic) then Err (ErrChecksumMismatch ScMagic)
  else if negb (crc32c (take 12 data) =? be_dec (slice 12 4 data)) then Err (ErrChecksumMismatch ScCRC)
  else
    let v := i64 (be_dec (slice 4 8 data)) in
    if v <? 0 then Err (ErrChecksumMismatch ScNegative) else Ok v.

Definition writeIdentity (ev : env) (sourceID : bytes) (formatVersion : Z) : IO unit :=
  if bool_decide (sourceID = []) || (maxSourceIDLen <? zlen sourceID)
  then io_err (ErrSourceIDLength (zlen sourceID))
  else atomicWriteFile ev DRoot identityFilename (encodeIdentity sourceID formatVersion).

(** [None]: the sidecar is absent. *)
Definition readIdentity (ev : env) : IO (option (bytes * Z)) :=
  let! data := readFile ev DRoot identityFilename in
  match data with
  | None => io_ret None
  | Some data => let! r := io_of (decodeIdentity data) in io_ret (Some r)
  end.

Definition BindIdentity (ev : env) (sourceID : bytes) (formatVersion : Z) : IO unit :=
  let! existing := readIdentity ev in
  match existing with
  | Some (existingSource, existingVersion) =>
      if negb (bool_decide (existingSource = sourceID)) || negb (existingVersion =? formatVersion)
      then io_err (ErrIdentityMismatch sourceID formatVersion existingSource existingVersion)
      else io_ret tt
  | None => writeIdentity ev sourceID formatVersion
  end.

Definition writeAck (ev : env) (ackThrough : Z) : IO unit :=
  atomicWriteFile ev DRoot ackFilename (encodeAck ackThrough).

Definition readAck (ev : env) : IO (option Z) :=
  let! data := readFile ev DRoot ackFilename in
  match data with
  | None => io_ret None
  | Some data => let! v := io_of (decodeAck data) in io_ret (Some v)
  end.

(** ** Trailing checksums *)

Lemma length_with_crc l : length (with_crc l) = (length l + 4)%nat.
Proof. unfold with_crc. len. Qed.
#[export] Hint Rewrite length_with_crc : len.

Lemma with_crc_take n l : length l = n -> take n (with_crc l) = l.
Proof. intros <-. apply take_app_length. Qed.

Lemma with_crc_trailer n l : length l = n -> be_dec (slice n 4 (with_crc l)) = crc32c l.
Proof.
  intros <-. unfold with_crc. rewrite <-(app_nil_r (be_enc 4 _)), trailer_slice.
  apply be_dec_enc_id, is32_crc32c.
Qed.

Lemma with_crc_sound n l :
  length l = (n + 4)%nat -> crc32c (take n l) = be_dec (slice n 4 l) -> l = with_crc (take n l).
Proof.
  intros Hl Hc. unfold with_crc. rewrite Hc, <-(take_drop n l) at 1. f_equal.
  rewrite <-(slice_be n 4 l _ ltac:(lia) eq_refl). unfold slice.
  symmetry. apply take_ge. rewrite length_drop. lia.
Qed.

(** A changed byte leaves the checksum wrong. *)
Lemma with_crc_one_byte l i b c n :
  length l = n -> with_crc l !! i = Some b -> b <> c ->
  crc32c (take n (<[i:=c]> (with_crc l))) <> be_dec (slice n 4 (<[i:=c]> (with_crc l))).
Proof.
  intros Hn Hi Hbc. apply (crc32c_trailer_insert n _ i b); [|done|done|].
  - by rewrite with_crc_take, with_crc_trailer.
  - apply lookup_lt_Some in Hi. rewrite length_with_crc in Hi. lia.
Qed.

(** ** The identity codec *)

Definition identity_ok (sourceID : bytes) (formatVersion : Z) : Prop :=
  0 < zlen sourceID <= maxSourceIDLen /\ 0 <= formatVersion < 2^32.

Lemma length_encodeIdentity id v : length (encodeIdentity id v) = (14 + length id)%nat.
Proof. unfold encodeIdentity. len. Qed.

Lemma decode_identity id v : identity_ok id v -> decodeIdentity (encodeIdentity id v) = Ok (id, v).
Proof.
  intros [Hid Hv]. unfold decodeIdentity.
  rewrite (proj2 (Nat.ltb_ge _ _)) by (rewrite length_encodeIdentity; lia).
  assert (E : forall off n w, slice off n (be_enc 4 identityMagic ++ be_enc 4 v ++ be_enc 2 (zlen id) ++ id) = w ->
    (off + n <= 10 + length id)%nat -> slice off n (encodeIdentity id v) = w).
  { intros off n w <- ?. apply slice_app_l. len. }
  rewrite (E 0%nat 4%nat (be_enc 4 identityMagic)) by (by slices || len).
  change (be_dec (be_enc 4 identityMagic) =? identityMagic) with true.
  rewrite (E 8%nat 2%nat (be_enc 2 (zlen id))) by (by slices || len).
  unfold maxSourceIDLen in *.
  rewrite be_dec_enc_id by (change (256 ^ Z.of_nat 2) with 65536; lia). cbv zeta. cbn [negb].
  rewrite (proj2 (Z.eqb_neq _ _)), (proj2 (Z.ltb_ge _ _)) by lia.
  unfold zlen. rewrite Nat2Z.id, length_encodeIdentity.
  rewrite (proj2 (Nat.eqb_eq _ _)) by lia. cbn [orb negb].
  replace (10 + length id + 4 - 4)%nat with (10 + length id)%nat by lia.
  unfold encodeIdentity at 1 2. rewrite with_crc_take, with_crc_trailer, Z.eqb_refl by len. cbn [negb].
  rewrite (E 10%nat (length id) id), (E 4%nat 4%nat (be_enc 4 v)) by (by slices || len).
  by rewrite be_dec_enc_id.
Qed.

Lemma identity_sound data id v :
  decodeIdentity data = Ok (id, v) -> identity_ok id v /\ data = encodeIdentity id v.
Proof.
  unfold decodeIdentity. intros H. repeat (case_step; try discriminate). bool_to_prop.
  injection H as <- <-.
  repeat match goal with H : (_ <? _)%nat = false |- _ => apply Nat.ltb_ge in H
                       | H : (_ =? _)%nat = true |- _ => apply Nat.eqb_eq in H end.
  set (m := Z.to_nat (be_dec (slice 8 2 data))) in *.
  replace (10 + m + 4 - 4)%nat with (10 + m)%nat in * by lia.
  assert (Hlen : forall off k, (off + k <= 14 + m)%nat -> length (slice off k data) = k)
    by (intros; apply length_slice; lia).
  pose proof (be_dec_range (slice 8 2 data)). pose proof (be_dec_range (slice 4 4 data)) as Hv.
  unfold zlen in Hv. rewrite Hlen in Hv by lia.
  assert (Hid : zlen (slice 10 m data) = be_dec (slice 8 2 data)) by (unfold zlen; rewrite Hlen; lia).
  split; [split; [lia|done]|].
  rewrite (with_crc_sound (10 + m) data) at 1 by (lia || done).
  unfold encodeIdentity. f_equal. change 10%nat with (4 + 4 + 2)%nat at 1. rewrite !take_slice, Hid, <-!app_assoc.
  rewrite <-(slice_be 0 4 data identityMagic), <-(slice_be 4 4 data _ ltac:(lia) eq_refl),
    <-(slice_be 8 2 data _ ltac:(lia) eq_refl) by (done || lia).
  by rewrite <-(drop_0 data) at 1.
Qed.

(** Any single altered byte of an identity sidecar is detected. *)
Lemma identity_one_byte id v i b c :
  identity_ok id v -> encodeIdentity id v !! i = Some b -> b <> c ->
  is_ok (decodeIdentity (<[i:=c]> (encodeIdentity id v))) = false.
Proof.
  intros Hok Hi Hbc. destruct (decodeIdentity _) as [[id' v']|] eqn:E; [exfalso|done].
  apply identity_sound in E as [_ E].
  refine (with_crc_one_byte _ i b c (10 + length id) _ Hi Hbc _); [len|].
  fold (encodeIdentity id v). rewrite E.
  assert (length id' = length id) as <-.
  { apply (f_equal length) in E. rewrite length_insert, !length_encodeIdentity in E. lia. }
  unfold encodeIdentity. by rewrite with_crc_take, with_crc_trailer by len.
Qed.

(** ** The ack codec *)

Lemma length_encodeAck a : length (encodeAck a) = 16%nat.
Proof. unfold encodeAck. len. Qed.

Lemma decode_ack a : 0 <= a <= MaxInt64 -> decodeAck (encodeAck a) = Ok a.
Proof.
  intros Ha. unfold decodeAck. rewrite length_encodeAck. cbn [Nat.eqb negb].
  assert (E : forall off n w, slice off n (be_enc 4 ackMagic ++ be_enc 8 (u64 a)) = w ->
    (off + n <= 12)%nat -> slice off n (encodeAck a) = w).
  { intros off n w <- ?. apply slice_app_l. len. }
  rewrite (E 0%nat 4%nat (be_enc 4 ackMagic)) by (by slices || len).
  change (be_dec (be_enc 4 ackMagic) =? ackMagic) with true. cbn [negb].
  unfold encodeAck at 1 2. rewrite with_crc_take, with_crc_trailer, Z.eqb_refl by len. cbn [negb].
  rewrite (E 4%nat 8%nat (be_enc 8 (u64 a))) by (by slices || len).
  rewrite be_dec_i64 by (unfold in_i64, MaxInt64 in *; lia). cbv zeta.
  by rewrite (proj2 (Z.ltb_ge _ _)) by lia.
Qed.

Lemma ack_sound data a : decodeAck data = Ok a -> 0 <= a <= MaxInt64 /\ data = encodeAck a.
Proof.
  unfold decodeAck. intros H. repeat (case_step; try discriminate). bool_to_prop.
  injection H as <-.
  repeat match goal with H : (_ =? _)%nat = true |- _ => apply Nat.eqb_eq in H end.
  pose proof (i64_range (be_dec (slice 4 8 data))) as [_ ?].
  split; [done|]. rewrite (with_crc_sound 12 data) at 1 by (lia || done).
  unfold encodeAck. f_equal. change 12%nat with (4 + 8)%nat. rewrite take_slice.
  rewrite be_enc_i64 by (apply length_slice; lia).
  rewrite <-(slice_be 0 4 data ackMagic) by (done || lia). by rewrite <-(drop_0 data) at 1.
Qed.

(** Any single altered byte of an ack sidecar is detected. *)
Lemma ack_one_byte a i b c :
  encodeAck a !! i = Some b -> b <> c ->
  is_ok (decodeAck (<[i:=c]> (encodeAck a))) = false.
Proof.
  intros Hi Hbc. destruct (decodeAck _) as [a'|] eqn:E; [exfalso|done].
  apply ack_sound in E as [_ E].
  refine (with_crc_one_byte _ i b c 12 _ Hi Hbc _); [len|].
  fold (encodeAck a). rewrite E.
  unfold encodeAck. by rewrite with_crc_take, with_crc_trailer by len.
Qed.

(** ** The properties of the control files *)

(** The identity and ack files decode exactly when they are byte for byte the encoding of valid
    values, and to those values. *)
Theorem sidecar_codecs :
  (forall data id v, decodeIdentity data = Ok (id, v) <-> identity_ok id v /\ data = encodeIdentity id v)
  /\ (forall data a, decodeAck data = Ok a <-> 0 <= a <= MaxInt64 /\ data = encodeAck a).
Proof.
  split.
  - intros data id v. split; [apply identity_sound|]. intros [? ->]. by apply decode_identity.
  - intros data a. split; [apply ack_sound|]. intros [? ->]. by apply decode_ack.
Qed.

(** A control file with any single byte altered is refused as a checksum mismatch or malformed
    file: it is never read as another value. *)
Theorem sidecar_tamper i b c :
  b <> c ->
  (forall id v, identity_ok id v -> encodeIdentity id v !! i = Some b ->
     is_ok (decodeIdentity (<[i:=c]> (encodeIdentity id v))) = false)
  /\ (forall a, encodeAck a !! i = Some b -> is_ok (decodeAck (<[i:=c]> (encodeAck a))) = false).
Proof.
  intros Hbc. split.
  - intros id v Hok Hi. by eapply identity_one_byte.
  - intros a Hi. by eapply ack_one_byte.
Qed.

(** What [BindIdentity] has to do with the sidecar in place. *)
Definition bind_result (id : bytes) (ver : Z) (d : disk) : sres bool :=
  match file DRoot identityFilename d with
  | None => if bool_decide (id = []) || (maxSourceIDLen <? zlen id) then Err (ErrSourceIDLength (zlen id)) else Ok true
  | Some data =>
      match decodeIdentity data with
      | Err e => Err e
      | Ok (id', ver') => if bool_decide ((id', ver') = (id, ver)) then Ok false else Err (ErrIdentityMismatch id ver id' ver')
      end
  end.

Lemma BindIdentity_read ev id ver d :
  e_flt ev IoRead identityFilename = false ->
  BindIdentity ev id ver d =
  match bind_result id ver d with
  | Err e => ([d], Err e, d)
  | Ok false => ([d], Ok tt, d)
  | Ok true => let '(t, r, d') := atomicWriteFile ev DRoot identityFilename (encodeIdentity id ver) d in (d :: t, r, d')
  end.
Proof.
  intros Hf. unfold BindIdentity, bind_result, readIdentity, readFile, io_check, io_call, io_bind. rewrite Hf. cbn -[identityFilename].
  destruct (file DRoot identityFilename d) as [data|]; cbn -[identityFilename].
  - destruct (decodeIdentity data) as [[id' ver']|e]; cbn -[identityFilename]; [|done].
    destruct (decide (id' = id)) as [->|Hid];
      [rewrite (bool_decide_eq_true_2 (id = id)) by done|rewrite (bool_decide_eq_false_2 (id' = id)) by done].
    + destruct (ver' =? ver) eqn:Ev; bool_to_prop; cbn -[identityFilename].
      * subst. by rewrite bool_decide_eq_true_2.
      * by rewrite bool_decide_eq_false_2 by congruence.
    + cbn -[identityFilename]. by rewrite bool_decide_eq_false_2 by congruence.
  - unfold writeIdentity. by destruct (_ || _).
Qed.

(** Binding never rebinds. Under any faults and at every crash point, an identity that was in
    place is still in place and a missing one is missing or is the configured one; if the call
    succeeds the identity in place is the configured one. *)
Theorem BindIdentity_spec ev id ver d0 :
  identity_ok id ver ->
  crash_triple (eq d0) (BindIdentity ev id ver)
    (fun d => file DRoot identityFilename d = file DRoot identityFilename d0
       \/ (file DRoot identityFilename d0 = None /\ file DRoot identityFilename d = Some (encodeIdentity id ver)))
    (fun _ d => file DRoot identityFilename d = Some (encodeIdentity id ver))
    (fun d => file DRoot identityFilename d = file DRoot identityFilename d0
       \/ (file DRoot identityFilename d0 = None /\ file DRoot identityFilename d = Some (encodeIdentity id ver))).
Proof.
  intros Hok d <-. destruct (e_flt ev IoRead identityFilename) eqn:Hf.
  { unfold BindIdentity, readIdentity, readFile, io_check, io_call, io_bind. rewrite Hf.
    split; [apply Forall_singleton|]; by left. }
  rewrite (BindIdentity_read _ _ _ _ Hf). unfold bind_result.
  destruct (file DRoot identityFilename d0) as [data|] eqn:Hi.
  - destruct (decodeIdentity data) as [[id' ver']|e] eqn:Hd; [|split; [apply Forall_singleton|]; by left].
    apply identity_sound in Hd as [_ ->].
    destruct (decide ((id', ver') = (id, ver))) as [[= -> ->]|Hne];
      [rewrite bool_decide_eq_true_2 by done|rewrite bool_decide_eq_false_2 by done];
      (split; [apply Forall_singleton; by left|auto]).
  - destruct (_ || _); [split; [apply Forall_singleton|]; by left|].
    pose proof (atomic_write_new ev DRoot identityFilename (encodeIdentity id ver) d0 d0 eq_refl) as H.
    assert (Hon : forall d, old_or_new ev DRoot identityFilename (encodeIdentity id ver) d0 d ->
      file DRoot identityFilename d = None
       \/ ((None : option bytes) = None /\ file DRoot identityFilename d = Some (encodeIdentity id ver))).
    { intros d [(_&E&_)|(_&E&_)]; [left|right; split; [done|]]; unfold file in *; rewrite E; done. }
    destruct (atomicWriteFile _ _ _ _ _) as [[t r] d']. destruct H as [Ht Hr]. split.
    + constructor; [by left|]. eapply Forall_impl; [exact Ht|exact Hon].
    + destruct r as [[]|e]; [|by apply Hon]. destruct Hr as [(_&E&_) _]. by apply file_lookup.
Qed.

(** ** Witnesses *)

Lemma sidecar_tamper_witness :
  is_ok (decodeIdentity (<[9%nat:=x04]> (encodeIdentity (str "src") 1))) = false.
Proof.
  destruct (sidecar_tamper 9 x03 x04 ltac:(discriminate)) as [H _].
  apply H; [by vm_compute|vm_compute; reflexivity].
Defined.

Lemma BindIdentity_spec_witness :
  let d0 := mkDisk ∅ None None in
  identity_ok (str "src") 1 /\
  crash_triple (eq d0) (BindIdentity demo_env (str "src") 1)
    (fun d => file DRoot identityFilename d = file DRoot identityFilename d0
       \/ (file DRoot identityFilename d0 = None /\ file DRoot identityFilename d = Some (encodeIdentity (str "src") 1)))
    (fun _ d => file DRoot identityFilename d = Some (encodeIdentity (str "src") 1))
    (fun d => file DRoot identityFilename d = file DRoot identityFilename d0
       \/ (file DRoot identityFilename d0 = None /\ file DRoot identityFilename d = Some (encodeIdentity (str "src") 1))).
Proof.
  intros d0. assert (H : identity_ok (str "src") 1) by (by vm_compute).
  split; [exact H|]. exact (BindIdentity_spec demo_env (str "src") 1 d0 H).
Defined.
