(* ===== verification/Recover.v ===== *)
(** * Startup recovery ([internal/observer/spool/recover.go])

    [recover] over the segments of [wal/]: header and frame validation, contiguity across segments,
    truncation of a torn tail after its diagnostic, the interrupted-create rule and the
    reconstruction of the next sequence. The theorems: what recovery reports for a log with any torn
    tail, that it never changes a byte before a torn tail (at any crash point), that every refusal
    leaves the directory untouched, and that its loops end. *)

From S2P Require Import Prelude Hash SpoolTypes Frame Fs GoStrings Segment Sidecar.

Inductive RecoveryOutcome : Type := OutcomeClean | OutcomeTruncatedTail | OutcomeInterruptedCreate.

#[export] Instance RecoveryOutcome_eq_dec : EqDecision RecoveryOutcome.
Proof. solve_decision. Defined.

(** Paths are a directory and a base name; [None] is the empty path. *)
Abbreviation path := (dirname * bytes)%type.

Record Recovery : Type := mkRecovery {
  rc_SourceID : bytes;
  rc_FormatVersion : Z;
  rc_HighestDurableSequence : Z;
  rc_AcknowledgedThrough : Z;
  rc_NextSequence : Z;
  rc_Exhausted : bool;
  rc_Outcome : RecoveryOutcome;
  rc_TruncatedSegment : bytes;
  rc_DiscardedBytes : Z;
  rc_DiagnosticPath : option path;
  rc_EmptyTrailingSegment : option path;
}.

#[export] Instance Recovery_eq_dec : EqDecision Recovery.
Proof. solve_decision. Defined.

Definition newRecovery : Recovery := mkRecovery [] 0 0 0 0 false OutcomeClean [] 0 None None.

(** Assignments to single fields of the recovery. *)
Definition with_identity (id : bytes) (ver : Z) (r : Recovery) : Recovery :=
  mkRecovery id ver (rc_HighestDurableSequence r) (rc_AcknowledgedThrough r) (rc_NextSequence r)
    (rc_Exhausted r) (rc_Outcome r) (rc_TruncatedSegment r) (rc_DiscardedBytes r) (rc_DiagnosticPath r)
    (rc_EmptyTrailingSegment r).
Definition with_highest (z : Z) (r : Recovery) : Recovery :=
  mkRecovery (rc_SourceID r) (rc_FormatVersion r) z (rc_AcknowledgedThrough r) (rc_NextSequence r)
    (rc_Exhausted r) (rc_Outcome r) (rc_TruncatedSegment r) (rc_DiscardedBytes r) (rc_DiagnosticPath r)
    (rc_EmptyTrailingSegment r).
Definition with_ack (z : Z) (r : Recovery) : Recovery :=
  mkRecovery (rc_SourceID r) (rc_FormatVersion r) (rc_HighestDurableSequence r) z (rc_NextSequence r)
    (rc_Exhausted r) (rc_Outcome r) (rc_TruncatedSegment r) (rc_DiscardedBytes r) (rc_DiagnosticPath r)
    (rc_EmptyTrailingSegment r).
Definition with_next (n : Z * bool) (r : Recovery) : Recovery :=
  mkRecovery (rc_SourceID r) (rc_FormatVersion r) (rc_HighestDurableSequence r) (rc_AcknowledgedThrough r)
    (fst n) (snd n) (rc_Outcome r) (rc_TruncatedSegment r) (rc_DiscardedBytes r) (rc_DiagnosticPath r)
    (rc_EmptyTrailingSegment r).
Definition with_outcome (o : RecoveryOutcome) (r : Recovery) : Recovery :=
  mkRecovery (rc_SourceID r) (rc_FormatVersion r) (rc_HighestDurableSequence r) (rc_AcknowledgedThrough r)
    (rc_NextSequence r) (rc_Exhausted r) o (rc_TruncatedSegment r) (rc_DiscardedBytes r) (rc_DiagnosticPath r)
    (rc_EmptyTrailingSegment r).
Definition with_truncated (seg : bytes) (n : Z) (diag : path) (r : Recovery) : Recovery :=
  mkRecovery (rc_SourceID r) (rc_FormatVersion r) (rc_HighestDurableSequence r) (rc_AcknowledgedThrough r)
    (rc_NextSequence r) (rc_Exhausted r) OutcomeTruncatedTail seg n (Some diag) (rc_EmptyTrailingSegment r).
Definition with_empty_trailing (p : path) (r : Recovery) : Recovery :=
  mkRecovery (rc_SourceID r) (rc_FormatVersion r) (rc_HighestDurableSequence r) (rc_AcknowledgedThrough r)
    (rc_NextSequence r) (rc_Exhausted r) (rc_Outcome r) (rc_TruncatedSegment r) (rc_DiscardedBytes r)
    (rc_DiagnosticPath r) (Some p).

Record configuredBinding : Type := mkBinding { cb_sourceID : bytes; cb_formatVersion : Z }.

(** A durable identity differs from the configured one. *)
Definition binding_differs (b : configuredBinding) (id : bytes) (ver : Z) : bool :=
  negb (bool_decide (id = cb_sourceID b)) || negb (ver =? cb_formatVersion b).

Definition bindingMismatchError (b : configuredBinding) (id : bytes) (ver : Z) : spool_error :=
  ErrIdentityMismatch (cb_sourceID b) (cb_formatVersion b) id ver.

Definition interruptedCreateBound (identityPresent : bool) (identitySource : bytes) : nat :=
  if identityPresent then (segFixedPrefixLen + length identitySource + segHeaderCRCLen)%nat
  else segFixedPrefixLen.

Definition nextSequence (highest ack : Z) : Z * bool :=
  let max := if highest <? ack then ack else highest in
  if SequenceMax <=? max then (SequenceMax, true) else (i64 (max + 1), false).

(** The names of the regular [*.seg] files of [wal/], ascending. *)
Definition seg_names (m : dirmap) : list bytes :=
  sortStrings (filter (fun name => Ext name = str ".seg" /\ m !! name <> Some EDir) (map_to_list m).*1).

Definition listSegments (ev : env) : IO (list bytes) :=
  let! m := readDir ev DWal (name_of DWal) in
  match m with
  | None => io_ret []
  | Some m => io_ret (seg_names m)
  end.

Definition diagnostic_name (ev : env) (segment : bytes) (validEnd : nat) : bytes :=
  segment ++ str "." ++ FormatInt (Z.of_nat validEnd) ++ str "." ++ FormatInt (e_now ev) ++ str ".torn-tail".

Definition writeRecoveryDiagnostic (ev : env) (segment : bytes) (validEnd : nat) (discarded : bytes) : IO path :=
  ensureDir ev DRecovery ;!
  let name := diagnostic_name ev segment validEnd in
  atomicWriteFile ev DRecovery name discarded ;!
  io_ret (DRecovery, name).

Definition truncateTornTail (ev : env) (base : bytes) (data : bytes) (validEnd : nat) (rec : Recovery) : IO Recovery :=
  let discarded := drop validEnd data in
  let! diagPath := writeRecoveryDiagnostic ev base validEnd discarded in
  io_open ev DWal base ;!
  io_truncate ev DWal base validEnd ;!
  io_check ev IoSync base ;!
  io_check ev IoClose base ;!
  fsyncDir ev DWal ;!
  io_ret (with_truncated base (zlen discarded) diagPath rec).

(** The body of the frame loop; its state is the recovery and the expected sequence. *)
Definition recover_body (ev : env) (base data : bytes) (hdrLen : nat) (isLast : bool)
    (off : nat) (fr : Frame) (n : nat) (status : FrameStatus) (st : Recovery * Z)
  : (Recovery * Z) + IO (Recovery * Z) :=
  let '(rec, expected) := st in
  match status with
  | FrameOK =>
      if negb (fr_Sequence fr =? expected)
      then inr (io_err (CorruptionError base (Z.of_nat off) (fr_Sequence fr)
                          (CdFrameContiguity (fr_Sequence fr) expected)))
      else inl (with_highest (fr_Sequence fr) rec, i64 (expected + 1))
  | FrameIncomplete =>
      inr (if negb isLast then io_err (CorruptionError base (Z.of_nat off) 0 CdShortInterior)
           else
             let! rec' := truncateTornTail ev base data off rec in
             io_ret (if (off =? hdrLen)%nat then with_empty_trailing (DWal, base) rec' else rec', expected))
  | FrameCorrupt => inr (io_err (CorruptionError base (Z.of_nat off) 0 CdFrame))
  end.

(** The identity checks on a decoded header; the recovery may take its identity from it. *)
Definition header_identity (base : bytes) (binding : option configuredBinding) (hdr : SegmentHeader)
    (rec : Recovery) : sres Recovery :=
  if bool_decide (rc_SourceID rec = []) then
    match binding with
    | Some b =>
        if binding_differs b (sh_SourceID hdr) (sh_FormatVersion hdr)
        then Err (bindingMismatchError b (sh_SourceID hdr) (sh_FormatVersion hdr))
        else Ok (with_identity (sh_SourceID hdr) (sh_FormatVersion hdr) rec)
    | None => Ok (with_identity (sh_SourceID hdr) (sh_FormatVersion hdr) rec)
    end
  else if negb (bool_decide (sh_SourceID hdr = rc_SourceID rec))
  then Err (CorruptionError base 0 0 CdSourceMismatch)
  else if negb (sh_FormatVersion hdr =? rc_FormatVersion rec)
  then Err (CorruptionError base 0 0 CdFormatMismatch)
  else Ok rec.

(** [*expected == 0] takes the header's first sequence; otherwise they must agree. *)
Definition header_expected (base : bytes) (hdr : SegmentHeader) (expected : Z) : sres Z :=
  if expected =? 0 then Ok (sh_FirstSequence hdr)
  else if negb (sh_FirstSequence hdr =? expected)
  then Err (CorruptionError base 0 (sh_FirstSequence hdr) (CdSegmentContiguity (sh_FirstSequence hdr) expected))
  else Ok expected.

Definition header_fault_of (e : spool_error) : header_fault :=
  match e with ErrBadSegmentHeader why => why | _ => HdrMagic end.

Definition recoverSegment (ev : env) (base : bytes) (rec : Recovery) (identityPresent : bool)
    (identitySource : bytes) (binding : option configuredBinding) (expected : Z) (isLast : bool)
  : IO (Recovery * Z) :=
  let! data := mustReadFile ev DWal base in
  match decodeSegmentHeader data with
  | Err e =>
      if isLast && (length data <=? interruptedCreateBound identityPresent identitySource)%nat
      then io_ret (with_empty_trailing (DWal, base) (with_outcome OutcomeInterruptedCreate rec), expected)
      else io_err (CorruptionError base 0 0 (CdHeader (header_fault_of e)))
  | Ok (hdr, hdrLen) =>
      let! rec := io_of (header_identity base binding hdr rec) in
      let! expected := io_of (header_expected base hdr expected) in
      if isLast && (hdrLen =? length data)%nat
      then io_ret (with_empty_trailing (DWal, base) rec, expected)
      else
        frames_loop (S (length data)) data (recover_body ev base data hdrLen isLast)
          (fun _ st => io_ret st) (io_err OutOfFuel) hdrLen (rec, expected)
  end.

(** [for i, path := range segPaths], with [isLast := i == len(segPaths)-1]. *)
Fixpoint recover_segments (ev : env) (segs : list bytes) (identityPresent : bool) (identitySource : bytes)
    (binding : option configuredBinding) (rec : Recovery) (expected : Z) : IO Recovery :=
  match segs with
  | [] => io_ret rec
  | base :: rest =>
      let isLast := match rest with [] => true | _ => false end in
      let! r := recoverSegment ev base rec identityPresent identitySource binding expected isLast in
      recover_segments ev rest identityPresent identitySource binding (fst r) (snd r)
  end.

Definition recover (ev : env) (binding : option configuredBinding) : IO Recovery :=
  let! identity := readIdentity ev in
  let! rec :=
    match identity with
    | Some (sourceID, formatVersion) =>
        match binding with
        | Some b =>
            if binding_differs b sourceID formatVersion
            then io_err (bindingMismatchError b sourceID formatVersion)
            else io_ret (with_identity sourceID formatVersion newRecovery)
        | None => io_ret (with_identity sourceID formatVersion newRecovery)
        end
    | None => io_ret newRecovery
    end in
  let! ack := readAck ev in
  let rec := match ack with Some a => with_ack a rec | None => rec end in
  let! segs := listSegments ev in
  let! rec := recover_segments ev segs (bool_decide (is_Some identity))
                (match identity with Some (id, _) => id | None => [] end) binding rec 0 in
  io_ret (with_next (nextSequence (rc_HighestDurableSequence rec) (rc_AcknowledgedThrough rec)) rec).

Definition Recover (ev : env) : IO Recovery := recover ev None.

Definition RecoverBound (ev : env) (sourceID : bytes) (formatVersion : Z) : IO Recovery :=
  recover ev (Some (mkBinding sourceID formatVersion)).

(** ** The frame loop as a command *)

(** Whatever holds of the loop's ends and of every return of its body holds of the loop. *)
Lemma frames_loop_ind {A R} (P : R -> Prop) data body (finish : nat -> A -> R) oof fuel off a :
  stops body -> (length data - off < fuel)%nat ->
  (forall off a, P (finish off a)) ->
  (forall off fr n st a r, body off fr n st a = inr r -> P r) ->
  P (frames_loop fuel data body finish oof off a).
Proof.
  intros Hs Hfuel Hfin Hbody. revert off a Hfuel.
  induction fuel as [|fuel IH]; intros off a Hfuel; [lia|]. cbn [frames_loop].
  destruct (off <? length data)%nat eqn:E; [|done]. apply Nat.ltb_lt in E.
  destruct (DecodeFrame (drop off data)) as [[fr n] st] eqn:Ed.
  destruct (body off fr n st a) as [a'|r] eqn:Eb; [|by eapply Hbody].
  destruct (decide (st = FrameOK)) as [->|Hne].
  - apply frame_sound in Ed as (_&_&->&_). apply IH. rewrite length_frame_bytes. lia.
  - destruct (Hs off fr n st a Hne) as [r Hr]. by rewrite Hr in Eb.
Qed.

Lemma recover_body_stops ev base data hdrLen isLast : stops (recover_body ev base data hdrLen isLast).
Proof. intros off fr n st [r e] H. destruct st; [done|..]; cbn; eauto. Qed.
#[export] Hint Resolve recover_body_stops : core.

Lemma truncateTornTail_only ev base data validEnd rec : io_only (truncateTornTail ev base data validEnd rec).
Proof.
  unfold truncateTornTail, writeRecoveryDiagnostic, io_truncate.
  apply only_bind; [auto with io_kind|intros diag].
  apply only_bind; [|intros ?; auto 10 with io_kind].
  intros d t e d'. unfold io_open. destruct (file DWal base d); [|intros [= _ <- _]; eauto].
  unfold io_check, io_call. destruct (e_flt _ _ _); [intros [= _ <- _]; eauto|done].
Qed.

Lemma mustReadFile_reads ev n name : io_reads (mustReadFile ev n name).
Proof. apply reads_bind; [auto with io_kind|]. intros [c|]; auto with io_kind. Qed.

Lemma listSegments_reads ev : io_reads (listSegments ev).
Proof. apply reads_bind; [auto with io_kind|]. intros [m|]; auto with io_kind. Qed.

Lemma readIdentity_reads ev : io_reads (readIdentity ev).
Proof. apply reads_bind; [auto with io_kind|]. intros [m|]; auto with io_kind. Qed.

Lemma readAck_reads ev : io_reads (readAck ev).
Proof. apply reads_bind; [auto with io_kind|]. intros [m|]; auto with io_kind. Qed.

#[export] Hint Resolve mustReadFile_reads listSegments_reads readIdentity_reads readAck_reads
  truncateTornTail_only : io_kind.

(** What a run of the loop on one segment may do: on a segment that is not the last, only read. *)
Lemma recover_body_reads ev base data hdrLen off fr n st a r :
  recover_body ev base data hdrLen false off fr n st a = inr r -> io_reads r.
Proof.
  destruct a as [rec e]. destruct st; cbn [recover_body negb].
  - destruct (negb _); intros [= <-]. auto with io_kind.
  - intros [= <-]. auto with io_kind.
  - intros [= <-]. auto with io_kind.
Qed.

Lemma recover_body_clean ev base data hdrLen isLast off fr n st a r :
  recover_body ev base data hdrLen isLast off fr n st a = inr r -> clean_fail r.
Proof.
  destruct isLast.
  2: { intros H. eapply reads_clean, recover_body_reads, H. }
  destruct a as [rec e]. destruct st; cbn [recover_body negb].
  - destruct (negb _); intros [= <-]. auto with io_kind.
  - intros [= <-]. apply only_clean. auto with io_kind.
  - intros [= <-]. auto with io_kind.
Qed.

Lemma recoverSegment_reads ev base rec ip isrc binding expected :
  io_reads (recoverSegment ev base rec ip isrc binding expected false).
Proof.
  unfold recoverSegment. apply reads_bind; [auto with io_kind|intros data]. cbn [andb].
  destruct (decodeSegmentHeader data) as [[hdr n]|]; [|auto with io_kind].
  apply reads_bind; [auto with io_kind|intros rec']. apply reads_bind; [auto with io_kind|intros e'].
  apply frames_loop_ind; [done|lia| |].
  - intros. auto with io_kind.
  - intros. by eapply recover_body_reads.
Qed.

Lemma recoverSegment_clean ev base rec ip isrc binding expected isLast :
  clean_fail (recoverSegment ev base rec ip isrc binding expected isLast).
Proof.
  unfold recoverSegment. apply clean_bind; [auto with io_kind|intros data].
  destruct (decodeSegmentHeader data) as [[hdr n]|].
  2: { destruct (_ && _); auto with io_kind. }
  apply clean_bind; [auto with io_kind|intros rec']. apply clean_bind; [auto with io_kind|intros e'].
  destruct (_ && _); [auto with io_kind|].
  apply frames_loop_ind; [done|lia| |].
  - intros. auto with io_kind.
  - intros. by eapply recover_body_clean.
Qed.

Lemma recover_segments_clean ev segs ip isrc binding rec expected :
  clean_fail (recover_segments ev segs ip isrc binding rec expected).
Proof.
  revert rec expected. induction segs as [|base [|b rest] IH]; intros rec expected; cbn [recover_segments].
  - auto with io_kind.
  - intros d t e d' E. unfold io_bind in E.
    destruct (recoverSegment _ _ _ _ _ _ _ _ d) as [[t1 [a|e1]] d1] eqn:Er; [done|].
    injection E as <- <- <-. by eapply recoverSegment_clean.
  - apply clean_bind; [apply recoverSegment_reads|intros [r' e']]. apply IH.
Qed.

Lemma recover_clean_fail ev binding : clean_fail (recover ev binding).
Proof.
  unfold recover. apply clean_bind; [auto with io_kind|intros identity].
  apply clean_bind.
  { destruct identity as [[id v]|]; [|auto with io_kind]. destruct binding; [|auto with io_kind].
    destruct (binding_differs _ _ _); auto with io_kind. }
  intros rec. apply clean_bind; [auto with io_kind|intros ack]. apply clean_bind; [auto with io_kind|intros segs].
  intros d t e d' E. unfold io_bind in E.
  destruct (recover_segments _ _ _ _ _ _ _ d) as [[t1 [a|e1]] d1] eqn:Er; [done|].
  injection E as <- <- <-. by eapply recover_segments_clean.
Qed.

(** ** Termination *)

Lemma never_of {A} e0 (r : sres A) : r <> Err e0 -> never e0 (io_of r).
Proof. intros H d t d' [= _ -> _]. done. Qed.
Lemma never_err {A} e0 e : e <> e0 -> never e0 (io_err e : IO A).
Proof. intros H d t d' [= _ E _]. done. Qed.
Lemma never_ret {A} e0 (a : A) : never e0 (io_ret a).
Proof. by intros d t d'. Qed.
Lemma never_only {A} (m : IO A) : io_only m -> never OutOfFuel m.
Proof. by apply only_never. Qed.
#[export] Hint Resolve never_ret never_only : io_kind.
#[export] Hint Extern 1 (never _ (io_err _)) => (apply never_err; discriminate) : io_kind.
#[export] Hint Extern 2 (never _ (io_bind _ _)) => (apply never_bind; [|intros ?]) : io_kind.

Lemma readFile_only ev n name : io_only (readFile ev n name).
Proof. apply only_bind; [auto with io_kind|]. by intros _ d. Qed.
#[export] Hint Resolve readFile_only : io_kind.

Lemma mustReadFile_only ev n name : io_only (mustReadFile ev n name).
Proof.
  apply only_bind; [auto with io_kind|]. intros [c|]; [auto with io_kind|].
  intros d t e d' [= _ <- _]. eauto.
Qed.

Lemma listSegments_only ev : io_only (listSegments ev).
Proof.
  apply only_bind; [|intros [m|]; auto with io_kind].
  apply only_bind; [auto with io_kind|]. by intros _ d.
Qed.

Lemma decodeIdentity_fuel data : decodeIdentity data <> Err OutOfFuel.
Proof. unfold decodeIdentity. cbv zeta. by repeat case_step. Qed.
Lemma decodeAck_fuel data : decodeAck data <> Err OutOfFuel.
Proof. unfold decodeAck. cbv zeta. by repeat case_step. Qed.

Lemma recoverSegment_fuel ev base rec ip isrc binding expected isLast :
  never OutOfFuel (recoverSegment ev base rec ip isrc binding expected isLast).
Proof.
  unfold recoverSegment. apply never_bind; [apply never_only, mustReadFile_only|intros data].
  destruct (decodeSegmentHeader data) as [[hdr n]|].
  2: { destruct (_ && _); auto with io_kind. }
  apply never_bind; [|intros rec'; apply never_bind; [|intros e']].
  - apply never_of. unfold header_identity. by repeat case_step.
  - apply never_of. unfold header_expected. by repeat case_step.
  - destruct (_ && _); [auto with io_kind|].
    apply frames_loop_ind; [done|lia|auto with io_kind|].
    intros off fr m st [rec1 e1] r Hr. destruct st; cbn [recover_body] in Hr.
    + destruct (negb _); [injection Hr as <-; auto with io_kind|discriminate].
    + injection Hr as <-. destruct isLast; cbn [negb]; auto with io_kind.
    + injection Hr as <-. auto with io_kind.
Qed.

Lemma recover_fuel ev binding : never OutOfFuel (recover ev binding).
Proof.
  unfold recover. apply never_bind; [|intros identity].
  { apply never_bind; [auto with io_kind|]. intros [c|]; [|auto with io_kind].
    apply never_bind; [apply never_of, decodeIdentity_fuel|auto with io_kind]. }
  apply never_bind; [|intros rec].
  { destruct identity as [[id v]|]; [|auto with io_kind]. destruct binding; [|auto with io_kind].
    destruct (binding_differs _ _ _); auto with io_kind. }
  apply never_bind; [|intros ack].
  { apply never_bind; [auto with io_kind|]. intros [c|]; [|auto with io_kind].
    apply never_bind; [apply never_of, decodeAck_fuel|auto with io_kind]. }
  apply never_bind; [apply never_only, listSegments_only|intros segs].
  apply never_bind; [|auto with io_kind].
  generalize (match ack with Some a => with_ack a rec | None => rec end), 0.
  induction segs as [|base rest IH]; intros r e; cbn [recover_segments]; [auto with io_kind|].
  apply never_bind; [apply recoverSegment_fuel|]. intros [r' e']. apply IH.
Qed.

(** ** What recovery may change *)

Section preserved.
Context (ev : env) (d0 : disk).

(** The log of [wal/base] was cut at the end of its last valid frame: what was dropped is no frame
    and is kept as a diagnostic; no other file of [wal/] changed. *)
Definition tail_cut (d : disk) : Prop :=
  exists base h frames tail diag fr n,
    file DWal base d0 = Some (segment_bytes h frames ++ tail)
    /\ header_ok h /\ Forall frame_wf frames /\ DecodeFrame tail = (fr, n, FrameIncomplete)
    /\ entries DWal d = <[base := EFile (segment_bytes h frames)]> (entries DWal d0)
    /\ file DRecovery diag d = Some tail.

(** The control files are as they were, and so is [wal/], up to one cut tail. *)
Definition preserved (d : disk) : Prop :=
  d_root d = d_root d0 /\ (entries DWal d = entries DWal d0 \/ tail_cut d).

Definition untouched (d : disk) : Prop :=
  d_root d = d_root d0 /\ entries DWal d = entries DWal d0.

Lemma untouched_preserved d : untouched d -> preserved d.
Proof. intros []. split; auto. Qed.

Lemma replaced_untouched d1 name v d :
  untouched d1 -> replaced ev DRecovery name d1 v d -> untouched d.
Proof.
  intros [Hr Hw] (H&_&_). split.
  - specialize (H DRoot ltac:(done)). cbn in H. congruence.
  - unfold entries. rewrite H by done. apply Hw.
Qed.

Lemma ct_pointwise {A} P (m : IO A) C Q E :
  (forall d, P d -> crash_triple (eq d) m C Q E) -> crash_triple P m C Q E.
Proof. intros H d Hd. by apply (H d Hd d). Qed.

Lemma ct_diagnostic base validEnd discarded :
  crash_triple (eq d0) (writeRecoveryDiagnostic ev base validEnd discarded) untouched
    (fun p d => untouched d /\ p = (DRecovery, diagnostic_name ev base validEnd)
       /\ file DRecovery (diagnostic_name ev base validEnd) d = Some discarded) untouched.
Proof.
  unfold writeRecoveryDiagnostic. set (name := diagnostic_name _ _ _). cbv zeta.
  apply (ct_bind _ _ _ _ _ (fun _ => untouched)).
  { eapply ct_conseq; [apply (ct_ensureDir ev DRecovery untouched)| |done..]; [by intros d [??]; destruct d|].
    by intros ? <-. }
  intros []; cbv beta.
  apply (ct_bind _ _ _ _ _ (fun _ d => untouched d /\ file DRecovery name d = Some discarded)).
  - apply ct_pointwise. intros d1 H1.
    eapply ct_conseq; [apply atomic_write_new|done|..].
    + intros d [H|H]; by eapply replaced_untouched.
    + intros _ d (H&_&_). split; [by eapply replaced_untouched|].
      apply file_lookup. by destruct H as (_&?&_).
    + intros d [H|H]; by eapply replaced_untouched.
  - intros []; cbv beta. apply ct_ret. by intros d [].
Qed.

Lemma ct_truncate base h frames tail fr n rec :
  file DWal base d0 = Some (segment_bytes h frames ++ tail) ->
  header_ok h -> Forall frame_wf frames -> DecodeFrame tail = (fr, n, FrameIncomplete) ->
  crash_triple (eq d0)
    (truncateTornTail ev base (segment_bytes h frames ++ tail) (length (segment_bytes h frames)) rec)
    preserved
    (fun rec' d => tail_cut d /\ d_root d = d_root d0
       /\ entries DWal d = <[base := EFile (segment_bytes h frames)]> (entries DWal d0)
       /\ rec' = with_truncated base (zlen tail)
            (DRecovery, diagnostic_name ev base (length (segment_bytes h frames))) rec)
    preserved.
Proof.
  intros Hf Hh Hw Ht. unfold truncateTornTail. rewrite drop_app_length. cbv zeta.
  set (name := diagnostic_name _ _ _).
  set (Q1 := fun d => untouched d /\ file DRecovery name d = Some tail).
  assert (HQ1 : forall d, Q1 d -> preserved d) by (intros d [H _]; by apply untouched_preserved).
  eapply (ct_bind _ _ _ _ _ (fun p d => p = (DRecovery, name) /\ Q1 d)).
  { eapply ct_conseq; [apply ct_diagnostic|done|apply untouched_preserved| |apply untouched_preserved].
    by intros p d (?&?&?). }
  intros p. apply ct_pointwise. intros d1 [-> HQ]. apply (ct_conseq _ Q1 _ preserved preserved _
    (fun rec' d => tail_cut d /\ d_root d = d_root d0 /\ entries DWal d = <[base := EFile (segment_bytes h frames)]> (entries DWal d0)
       /\ rec' = with_truncated base (zlen tail) (DRecovery, name) rec) _ preserved);
    [|by intros ? <-|done..].
  apply (ct_bind _ _ _ _ _ (fun _ => Q1)).
  { intros d H. unfold io_open. destruct (file DWal base d).
    - by apply (ct_check Q1 ev IoOpen base preserved (fun _ => Q1) preserved); auto.
    - split; [apply Forall_singleton|]; auto. }
  intros []; cbv beta.
  set (Q2 := fun d => tail_cut d /\ d_root d = d_root d0 /\ entries DWal d = <[base := EFile (segment_bytes h frames)]> (entries DWal d0)).
  assert (HQ2 : forall d, Q2 d -> preserved d) by (intros d (?&?&?); by split; auto).
  apply (ct_bind _ _ _ _ _ (fun _ => Q2)).
  { apply ct_call. intros d H. split_and!; [auto| |auto]. destruct H as [[Hr Hwal] Hdiag].
    assert (Hfd : file DWal base d = Some (segment_bytes h frames ++ tail))
      by (unfold file in *; by rewrite Hwal).
    cbv zeta. rewrite Hfd. change (default [] (Some ?x)) with x. rewrite take_app_length, length_app.
    replace (length (segment_bytes h frames) - _)%nat with O by lia. rewrite app_nil_r.
    unfold Q2. rewrite entries_put, Hwal. split_and!; [|done|done].
    exists base, h, frames, tail, name, fr, n. split_and!; try done.
    by rewrite entries_put, Hwal. }
  intros []; cbv beta.
  do 2 (apply (ct_bind _ _ _ _ _ (fun _ => Q2)); [apply ct_check; by auto|intros []; cbv beta]).
  apply (ct_bind _ _ _ _ _ (fun _ => Q2)).
  { unfold fsyncDir. apply (ct_bind _ _ _ _ _ (fun _ => Q2)); [apply ct_check; by auto|].
    intros []; cbv beta. apply ct_check; by auto. }
  intros []; cbv beta. apply ct_ret. by intros d (?&?&?).
Qed.

Lemma ct_reads {A} (m : IO A) : io_reads m -> crash_triple (eq d0) m (eq d0) (fun _ => eq d0) (eq d0).
Proof. intros H d <-. specialize (H d0). destruct (m d0) as [[t r] d']. destruct H as [? ->]. by destruct r. Qed.

Lemma preserved_refl d : d0 = d -> preserved d.
Proof. intros <-. split; auto. Qed.

Lemma ct_reads_preserved {A} (m : IO A) :
  io_reads m -> crash_triple (eq d0) m preserved (fun _ => preserved) preserved.
Proof. intros H. eapply ct_conseq; [by apply ct_reads|done|..]; intros; by apply preserved_refl. Qed.

Lemma ct_bind_reads {A B} (m : IO A) (f : A -> IO B) Q :
  io_reads m -> (forall a t d, m d0 = (t, Ok a, d) -> crash_triple (eq d0) (f a) preserved Q preserved) ->
  crash_triple (eq d0) (io_bind m f) preserved Q preserved.
Proof.
  intros Hm Hf d <-. pose proof (Hm d0) as H. unfold io_bind.
  destruct (m d0) as [[t1 [a|e]] d1] eqn:E; destruct H as [Ht ->].
  - specialize (Hf _ _ _ eq_refl d0 eq_refl). destruct (f a d0) as [[t2 r2] d2]. destruct Hf as [Ht2 Hr].
    split; [|done]. apply Forall_app. split; [|done].
    eapply Forall_impl; [exact Ht|]. intros. by apply preserved_refl.
  - split; [|by apply preserved_refl]. eapply Forall_impl; [exact Ht|]. intros. by apply preserved_refl.
Qed.

Lemma run_recover_err base data hdrLen isLast frames off a r :
  run_frames (recover_body ev base data hdrLen isLast) off frames a = inr r -> exists e, r = io_err e.
Proof.
  revert off a. induction frames as [|f fs IH]; intros off [rec e]; cbn [run_frames recover_body]; [done|].
  destruct (negb _); [intros [= <-]; eauto|apply IH].
Qed.

Lemma ct_recoverSegment base rec ip isrc binding expected :
  crash_triple (eq d0) (recoverSegment ev base rec ip isrc binding expected true)
    preserved (fun _ => preserved) preserved.
Proof.
  unfold recoverSegment. apply ct_bind_reads; [auto with io_kind|].
  intros data t d Hd. apply mustReadFile_inv in Hd as [Hf _].
  destruct (decodeSegmentHeader data) as [[hdr n]|] eqn:Hdec.
  2: { apply ct_reads_preserved. destruct (_ && _); auto with io_kind. }
  apply ct_bind_reads; [auto with io_kind|]. intros rec' _ _ _.
  apply ct_bind_reads; [auto with io_kind|]. intros e' _ _ _.
  destruct (_ && _); [apply ct_reads_preserved; auto with io_kind|].
  apply seg_header_sound in Hdec as (Hok&->&Hsplit).
  destruct (log_split (drop (length (seg_header_bytes hdr)) data)) as (fs&tail&Ht&Hw&He).
  assert (E : data = segment_bytes hdr fs ++ tail)
    by (unfold segment_bytes; by rewrite <-app_assoc, <-Ht).
  rewrite E, frames_loop_segment by done. unfold loop_spec.
  destruct (run_frames _ _ _ _) as [[off' [rec2 e2]]|r] eqn:Er.
  2: { destruct (run_recover_err _ _ _ _ _ _ _ _ Er) as [e ->]. apply ct_reads_preserved. auto with io_kind. }
  apply run_frames_off in Er as ->.
  destruct tail as [|b tail]; [apply ct_reads_preserved; auto with io_kind|].
  destruct He as [|(fr&m&st&Hst&Hne)]; [done|]. rewrite Hst.
  destruct st; cbn [recover_body negb]; [done| |apply ct_reads_preserved; auto with io_kind].
  apply (ct_bind _ _ _ _ _ (fun _ => preserved)); [|intros; by apply ct_ret].
  replace (length (seg_header_bytes hdr) + length (frames_bytes fs))%nat with (length (segment_bytes hdr fs))
    by (unfold segment_bytes; by rewrite length_app).
  eapply ct_conseq; [apply (ct_truncate base hdr fs (b :: tail) fr m)|..]; try done; [by rewrite Hf, E|].
  intros _ d1 (?&?&_). by split; auto.
Qed.

Lemma ct_recover_segments segs ip isrc binding rec expected :
  crash_triple (eq d0) (recover_segments ev segs ip isrc binding rec expected)
    preserved (fun _ => preserved) preserved.
Proof.
  revert rec expected. induction segs as [|base [|b rest] IH]; intros rec expected; cbn [recover_segments].
  - apply ct_reads_preserved. auto with io_kind.
  - apply (ct_bind _ _ _ _ _ (fun _ => preserved)); [apply ct_recoverSegment|].
    intros [r e]. by apply ct_ret.
  - apply ct_bind_reads; [apply recoverSegment_reads|]. intros [r e] _ _ _. apply IH.
Qed.

Lemma ct_recover binding :
  crash_triple (eq d0) (recover ev binding) preserved (fun _ => preserved) preserved.
Proof.
  unfold recover. apply ct_bind_reads; [auto with io_kind|]. intros identity _ _ _.
  apply ct_bind_reads.
  { destruct identity as [[id v]|]; [|auto with io_kind]. destruct binding; [|auto with io_kind].
    destruct (binding_differs _ _ _); auto with io_kind. }
  intros rec _ _ _. apply ct_bind_reads; [auto with io_kind|]. intros ack _ _ _.
  apply ct_bind_reads; [auto with io_kind|]. intros segs _ _ _.
  apply (ct_bind _ _ _ _ _ (fun _ => preserved)); [apply ct_recover_segments|].
  intros r. by apply ct_ret.
Qed.
End preserved.

(** ** Listing the segments *)

Definition is_seg_file (m : dirmap) (x : bytes) : Prop := Ext x = str ".seg" /\ exists c, m !! x = Some (EFile c).

Lemma seg_names_elem m x : x ∈ seg_names m <-> is_seg_file m x.
Proof.
  unfold seg_names, is_seg_file. rewrite (sortStrings_perm _), list_elem_of_filter, list_elem_of_fmap. split.
  - intros [[He Hd] [[k v] [-> Hin]]]. apply elem_of_map_to_list in Hin. cbn in *. split; [done|].
    destruct v as [c|]; [eauto|]. by rewrite Hin in Hd.
  - intros [He [c Hc]]. rewrite Hc. split; [done|]. exists (x, EFile c).
    split; [done|]. by apply elem_of_map_to_list.
Qed.

Lemma seg_names_nodup m : NoDup (seg_names m).
Proof.
  unfold seg_names. rewrite (sortStrings_perm _). apply NoDup_filter, NoDup_fst_map_to_list.
Qed.

Lemma seg_names_unique m l :
  NoDup l -> StronglySorted bytes_le l -> (forall x, x ∈ l <-> is_seg_file m x) -> seg_names m = l.
Proof.
  intros Hn Hs He. unfold seg_names. apply sortStrings_unique; [|done].
  apply NoDup_Permutation; [apply NoDup_filter, NoDup_fst_map_to_list|done|].
  intros x. rewrite He, <-seg_names_elem. unfold seg_names. by rewrite (sortStrings_perm _).
Qed.

(** Rewriting the content of a segment file does not change the listing. *)
Lemma seg_names_insert m name c c' :
  m !! name = Some (EFile c) -> seg_names (<[name := EFile c']> m) = seg_names m.
Proof.
  intros Hm. apply seg_names_unique; [apply seg_names_nodup|apply sortStrings_sorted|].
  intros x. rewrite seg_names_elem. unfold is_seg_file. destruct (decide (x = name)) as [->|Hne].
  - rewrite Hm, lookup_insert_eq. split; intros [? _]; eauto.
  - by rewrite lookup_insert_ne.
Qed.

Lemma Ext_segmentFilename z : Ext (segmentFilename z) = str ".seg".
Proof.
  unfold segmentFilename. apply (Ext_app _ (str "seg")). by repeat constructor.
Qed.

(** Names of one-based sequences sort as the sequences do. *)
Lemma segmentFilename_le a b :
  1 <= a <= MaxInt64 -> 1 <= b <= MaxInt64 ->
  bytes_leb (segmentFilename a) (segmentFilename b) = (a <=? b).
Proof.
  intros Ha Hb. unfold segmentFilename, MaxInt64 in *.
  rewrite !(proj2 (Z.ltb_ge _ _)) by lia.
  rewrite bytes_leb_app_same by len.
  apply bytes_leb_dec_pad; change (10 ^ Z.of_nat 20) with 100000000000000000000; lia.
Qed.

(** ** The write-ahead log as data *)

(** A log: its segments' headers and frames, in order. *)
Abbreviation wal_log := (list (SegmentHeader * list Frame)).

Definition seg_file_name (s : SegmentHeader * list Frame) : bytes := segmentFilename (sh_FirstSequence s.1).
Definition log_names (l : wal_log) : list bytes := seg_file_name <$> l.
Definition log_frames (l : wal_log) : list Frame := mjoin (snd <$> l).

(** Segments of one source, each starting where the previous one ends. *)
Fixpoint chained (id : bytes) (ver : Z) (first : Z) (l : wal_log) : Prop :=
  match l with
  | [] => True
  | (h, fs) :: l' =>
      header_ok h /\ sh_SourceID h = id /\ sh_FormatVersion h = ver /\ sh_FirstSequence h = first
      /\ Forall frame_wf fs /\ contiguous first fs /\ chained id ver (first + zlen fs) l'
  end.

(** The bytes of each file of the log; only the last one may have a tail after its frames. *)
Fixpoint log_files (d : disk) (l : wal_log) (tail : bytes) : Prop :=
  match l with
  | [] => True
  | [(h, fs)] => file DWal (segmentFilename (sh_FirstSequence h)) d = Some (segment_bytes h fs ++ tail)
  | (h, fs) :: l' =>
      file DWal (segmentFilename (sh_FirstSequence h)) d = Some (segment_bytes h fs) /\ log_files d l' tail
  end.

(** [wal/] holds the log, with [tail] at the end of its last segment. *)
Definition wal_holds (id : bytes) (ver first : Z) (l : wal_log) (tail : bytes) (d : disk) : Prop :=
  SequenceMin <= first /\ chained id ver first l /\ seg_names (entries DWal d) = log_names l
  /\ log_files d l tail.

Definition with_frames (fs : list Frame) (r : Recovery) : Recovery :=
  match fs with [] => r | _ => with_highest (last_seq fs) r end.

Lemma with_frames_cons f fs r : with_frames fs (with_highest (fr_Sequence f) r) = with_frames (f :: fs) r.
Proof.
  destruct fs as [|g fs]; [done|]. cbn [with_frames].
  by change (last_seq (f :: g :: fs)) with (last_seq (g :: fs)).
Qed.

Lemma i64_add_l a b : i64 (i64 a + b) = i64 (a + b).
Proof.
  unfold i64. f_equal. replace ((a + 2^63) mod 2^64 - 2^63 + b + 2^63) with ((a + 2^63) mod 2^64 + b) by lia.
  rewrite Zplus_mod_idemp_l. f_equal. lia.
Qed.

Lemma run_recover ev base data hdrLen isLast frames off r e :
  in_i64 e -> Forall frame_wf frames -> contiguous e frames ->
  run_frames (recover_body ev base data hdrLen isLast) off frames (r, e)
  = inl ((off + length (frames_bytes frames))%nat, (with_frames frames r, i64 (e + zlen frames))).
Proof.
  revert off r e. induction frames as [|f fs IH]; intros off r e Hi Hw Hc.
  - cbn [run_frames with_frames]. change (zlen []) with 0. rewrite Z.add_0_r, i64_id by done.
    change (length (frames_bytes [])) with O. by rewrite Nat.add_0_r.
  - pose proof (contiguous_next _ _ _ Hw Hc) as Hn. apply contiguous_cons in Hc as [Hf _].
    apply Forall_cons in Hw as [_ Hw]. cbn [run_frames recover_body]. rewrite Hf, Z.eqb_refl. cbn [negb].
    rewrite IH; [|apply i64_range|done|done]. rewrite <-Hf, with_frames_cons, i64_add_l.
    rewrite frames_bytes_cons, length_app.
    replace (fr_Sequence f + 1 + zlen fs) with (fr_Sequence f + zlen (f :: fs)) by (unfold zlen; cbn [length]; lia).
    by rewrite Nat.add_assoc.
Qed.

(** *** Runs without faults *)

Section no_fault_runs.
Context (ev : env) (Hflt : forall op name, e_flt ev op name = false).

Lemma run_call op name f d : io_call ev op name f d = ([d], Ok tt, f d).
Proof. unfold io_call. by rewrite Hflt. Qed.

Lemma run_readFile n name d : readFile ev n name d = ([d], Ok (file n name d), d).
Proof. unfold readFile, io_bind, io_check. by rewrite run_call. Qed.

Lemma run_mustReadFile n name c d : file n name d = Some c -> mustReadFile ev n name d = ([d], Ok c, d).
Proof. intros H. by apply mustReadFile_ok. Qed.

Lemma run_ensureDir n d : exists t, ensureDir ev n d = (t, Ok tt, set_dir n (entries n d) d).
Proof.
  unfold ensureDir, fsyncDir, io_bind, io_check. rewrite !run_call. cbn [id app].
  destruct (_ && _); [|eauto]. rewrite !run_call. eauto.
Qed.

Lemma bind_run {A B} (m : IO A) (f : A -> IO B) d t a d1 :
  m d = (t, Ok a, d1) -> (exists t2 b d2, f a d1 = (t2, Ok b, d2)) ->
  exists t' b d2, io_bind m f d = (t', Ok b, d2).
Proof. intros H (t2&b&d2&E). unfold io_bind. rewrite H, E. eauto. Qed.

Lemma run_atomicWriteFile n name data d :
  exists t u d', atomicWriteFile ev n name data d = (t, Ok u, d').
Proof.
  unfold atomicWriteFile. set (tmp := AtomicTempPrefix name ++ e_tmp ev). cbv zeta.
  destruct (run_ensureDir n d) as [t1 E1]. eapply bind_run; [exact E1|].
  eapply bind_run; [apply run_call|].
  eapply bind_run; [|unfold fsyncDir; eapply bind_run; [apply run_call|]; eexists _, _, _; apply run_call].
  unfold io_cleanup, io_bind, io_check, io_writeAt. rewrite !run_call, Hflt, !run_call. cbn [id].
  unfold io_rename. rewrite entries_put, lookup_insert_eq, Hflt. reflexivity.
Qed.

Lemma run_truncateTornTail base data validEnd rec d c :
  file DWal base d = Some c ->
  exists t rec' d', truncateTornTail ev base data validEnd rec d = (t, Ok rec', d').
Proof.
  intros Hf. unfold truncateTornTail, writeRecoveryDiagnostic. cbv zeta.
  destruct (run_ensureDir DRecovery d) as [t1 E1].
  destruct (run_atomicWriteFile DRecovery (diagnostic_name ev base validEnd) (drop validEnd data)
    (set_dir DRecovery (entries DRecovery d) d)) as (t2&u&d2&E2).
  eapply bind_run.
  { unfold io_bind at 1. rewrite E1. unfold io_bind. rewrite E2. reflexivity. }
  assert (Hf2 : file DWal base d2 = Some c).
  { pose proof (atomic_write_new ev DRecovery (diagnostic_name ev base validEnd) (drop validEnd data)
      (set_dir DRecovery (entries DRecovery d) d) _ eq_refl) as H.
    rewrite E2 in H. destruct H as [_ [(Hn&_&_) _]]. unfold file, entries in *.
    rewrite (Hn DWal) by done. by destruct d. }
  eapply bind_run; [unfold io_open; rewrite Hf2; apply run_call|].
  eapply bind_run; [apply run_call|]. eapply bind_run; [apply run_call|]. eapply bind_run; [apply run_call|].
  eapply bind_run; [unfold fsyncDir, io_bind, io_check; rewrite !run_call; reflexivity|].
  cbn. eauto.
Qed.
End no_fault_runs.

(** *** What recovery computes *)

(** A tail recovery truncates: nothing, or the beginning of a frame. *)
Definition torn_tail (tail : bytes) : Prop :=
  tail = [] \/ exists fr n, DecodeFrame tail = (fr, n, FrameIncomplete).

Lemma torn_tail_end tail : torn_tail tail -> log_end tail.
Proof. intros [->|(fr&n&H)]; [by left|right]. by exists fr, n, FrameIncomplete. Qed.

(** A configured binding, if any, names this identity. *)
Definition bound (binding : option configuredBinding) (id : bytes) (ver : Z) : Prop :=
  binding = None \/ binding = Some (mkBinding id ver).

(** The recovery so far has no identity or this one. *)
Definition id_ready (id : bytes) (ver : Z) (rec : Recovery) : Prop :=
  rc_SourceID rec = [] \/ (rc_SourceID rec = id /\ rc_FormatVersion rec = ver).

Lemma with_identity_id r : with_identity (rc_SourceID r) (rc_FormatVersion r) r = r.
Proof. by destruct r. Qed.

Lemma header_identity_ok base binding h rec id ver :
  header_ok h -> sh_SourceID h = id -> sh_FormatVersion h = ver -> bound binding id ver -> id_ready id ver rec ->
  header_identity base binding h rec = Ok (with_identity id ver rec).
Proof.
  intros (_&_&_&Hne) <- <- Hb Hr. unfold header_identity.
  assert (Hn : sh_SourceID h <> []) by (intros E; rewrite E in Hne; unfold zlen in Hne; cbn in Hne; lia).
  destruct (decide (rc_SourceID rec = [])) as [E|E].
  - rewrite bool_decide_eq_true_2 by done. destruct Hb as [->| ->]; [done|].
    unfold binding_differs. cbn. by rewrite bool_decide_eq_true_2, Z.eqb_refl.
  - destruct Hr as [|[E1 E2]]; [done|]. rewrite bool_decide_eq_false_2 by done.
    rewrite bool_decide_eq_true_2, <-E2, Z.eqb_refl by done. cbn [negb].
    by rewrite <-E1, with_identity_id.
Qed.

(** The recovery after the last segment. *)
Definition close_rec (ev : env) (base : bytes) (h : SegmentHeader) (fs : list Frame) (tail : bytes)
    (rec : Recovery) : Recovery :=
  let r := with_frames fs rec in
  let r := match tail with
           | [] => r
           | _ => with_truncated base (zlen tail)
                    (DRecovery, diagnostic_name ev base (length (segment_bytes h fs))) r
           end in
  match fs with [] => with_empty_trailing (DWal, base) r | _ => r end.

Section segment_result.
Context (ev : env) (Hflt : forall op name, e_flt ev op name = false).
Context (base : bytes) (h : SegmentHeader) (fs : list Frame) (rec rec1 : Recovery) (e : Z)
  (ip : bool) (isrc : bytes) (binding : option configuredBinding) (d : disk).
Hypotheses (Hh : header_ok h) (Hw : Forall frame_wf fs) (Hc : contiguous (sh_FirstSequence h) fs)
  (Hid : header_identity base binding h rec = Ok rec1)
  (He : header_expected base h e = Ok (sh_FirstSequence h)).

Lemma Hin : in_i64 (sh_FirstSequence h).
Proof. by destruct Hh as (_&?&_). Qed.

Lemma mid_segment :
  file DWal base d = Some (segment_bytes h fs) ->
  recoverSegment ev base rec ip isrc binding e false d
  = ([d], Ok (with_frames fs rec1, i64 (sh_FirstSequence h + zlen fs)), d).
Proof.
  intros Hf. unfold recoverSegment, io_bind at 1. rewrite (run_mustReadFile ev Hflt _ _ _ _ Hf).
  pose proof (decode_segment_bytes h fs [] Hh) as Hd. rewrite app_nil_r in Hd. rewrite Hd, Hid, He.
  unfold io_of, io_bind. cbn [andb].
  pose proof (frames_loop_segment (recover_body ev base (segment_bytes h fs) (length (seg_header_bytes h)) false)
    (fun _ st => io_ret st) (io_err OutOfFuel) h fs [] (rec1, sh_FirstSequence h)
    (recover_body_stops _ _ _ _ _) Hw log_end_nil) as E.
  cbv zeta in E. rewrite app_nil_r in E. rewrite E. unfold loop_spec.
  rewrite (run_recover _ _ _ _ _ _ _ _ _ Hin Hw Hc). reflexivity.
Qed.

Lemma last_segment tail :
  torn_tail tail -> file DWal base d = Some (segment_bytes h fs ++ tail) ->
  exists t e' d', recoverSegment ev base rec ip isrc binding e true d
    = (t, Ok (close_rec ev base h fs tail rec1, e'), d')
    /\ entries DWal d' = <[base := EFile (segment_bytes h fs)]> (entries DWal d) /\ d_root d' = d_root d.
Proof.
  intros Ht Hf. unfold recoverSegment, io_bind at 1. rewrite (run_mustReadFile ev Hflt _ _ _ _ Hf).
  rewrite (decode_segment_bytes _ _ _ Hh), Hid, He. unfold io_of, io_bind at 1 2. cbn [andb].
  assert (Hsame : tail = [] -> entries DWal d = <[base := EFile (segment_bytes h fs)]> (entries DWal d)).
  { intros ->. rewrite app_nil_r in Hf. unfold file in Hf. rewrite insert_id; [done|].
    destruct (entries DWal d !! base) as [[]|]; by simplify_eq. }
  assert (Hlen : (length (seg_header_bytes h) =? length (segment_bytes h fs ++ tail))%nat = true <-> fs = [] /\ tail = []).
  { rewrite Nat.eqb_eq. unfold segment_bytes. rewrite !length_app. split; [|by intros [-> ->]; cbn; lia].
    intros E. pose proof (length_frames_bytes_ge fs). destruct fs, tail; cbn in *; (done || lia). }
  destruct (_ =? _)%nat eqn:E.
  - destruct (proj1 Hlen eq_refl) as [Ef ->]. unfold close_rec. rewrite Ef.
    eexists _, _, d. split; [reflexivity|]. rewrite <-Ef. auto.
  - rewrite frames_loop_segment by (done || by apply torn_tail_end). unfold loop_spec.
    rewrite (run_recover _ _ _ _ _ _ _ _ _ Hin Hw Hc).
    destruct tail as [|b tail].
    { eexists _, _, d. split; [|auto]. unfold close_rec, io_ret.
      destruct fs; [|reflexivity]. by pose proof (proj2 Hlen (conj eq_refl eq_refl)). }
    destruct Ht as [|(fr&n&Ht)]; [done|]. rewrite Ht. cbn [recover_body negb].
    replace (length (seg_header_bytes h) + length (frames_bytes fs))%nat with (length (segment_bytes h fs))
      by (unfold segment_bytes; by rewrite length_app).
    destruct (run_truncateTornTail ev Hflt base (segment_bytes h fs ++ b :: tail) (length (segment_bytes h fs))
      (with_frames fs rec1) d _ Hf) as (t&rec'&d'&Er).
    pose proof (ct_truncate ev d base h fs (b :: tail) fr n (with_frames fs rec1) Hf Hh Hw Ht d eq_refl) as Hq.
    rewrite Er in Hq. destruct Hq as [_ (_&Hroot&Hent&->)].
    unfold io_bind. rewrite Er. eexists _, _, d'. split_and!; [|done|done].
    unfold close_rec, io_ret.
    assert (El : (length (segment_bytes h fs) =? length (seg_header_bytes h))%nat = bool_decide (fs = [])).
    { apply eq_true_iff_eq. rewrite Nat.eqb_eq, bool_decide_eq_true. unfold segment_bytes.
      rewrite length_app. split; [|by intros ->; cbn; lia]. pose proof (length_frames_bytes_ge fs).
      destruct fs; [done|cbn in *; lia]. }
    rewrite El. by destruct fs.
Qed.
End segment_result.

(** The recovery after a whole log. *)
Fixpoint recovered_log (ev : env) (l : wal_log) (tail : bytes) (rec : Recovery) : Recovery :=
  match l with
  | [] => rec
  | (h, fs) :: l' =>
      let rec := with_identity (sh_SourceID h) (sh_FormatVersion h) rec in
      match l' with
      | [] => close_rec ev (segmentFilename (sh_FirstSequence h)) h fs tail rec
      | _ => recovered_log ev l' tail (with_frames fs rec)
      end
  end.

(** [wal/] with the tail of its last segment cut. *)
Definition cut_entries (l : wal_log) (m : dirmap) : dirmap :=
  match last l with
  | Some (h, fs) => <[segmentFilename (sh_FirstSequence h) := EFile (segment_bytes h fs)]> m
  | None => m
  end.

Lemma with_frames_identity fs r :
  rc_SourceID (with_frames fs r) = rc_SourceID r /\ rc_FormatVersion (with_frames fs r) = rc_FormatVersion r.
Proof. by destruct fs. Qed.

Lemma recover_segments_run ev l tail id ver first binding ip isrc rec expected d :
  (forall op name, e_flt ev op name = false) ->
  SequenceMin <= first -> chained id ver first l -> log_files d l tail -> torn_tail tail ->
  bound binding id ver -> id_ready id ver rec -> expected = 0 \/ expected = i64 first ->
  exists t d', recover_segments ev (log_names l) ip isrc binding rec expected d
    = (t, Ok (recovered_log ev l tail rec), d')
    /\ entries DWal d' = cut_entries l (entries DWal d) /\ d_root d' = d_root d.
Proof.
  intros Hflt Hmin Hch Hfs Ht Hb Hr He. revert first rec expected Hmin Hch Hfs Hr He.
  induction l as [|[h fs] l IH]; intros first rec expected Hmin Hch Hfs Hr He.
  { eexists _, d. split; [reflexivity|]. done. }
  destruct Hch as (Hh&Hid&Hver&Hfirst&Hw&Hc&Hch). subst first.
  pose proof (header_identity_ok (segmentFilename (sh_FirstSequence h)) binding h rec id ver Hh Hid Hver Hb Hr) as Hhi.
  assert (Hexp : header_expected (segmentFilename (sh_FirstSequence h)) h expected = Ok (sh_FirstSequence h)).
  { unfold header_expected. destruct Hh as (_&Hi&_). rewrite i64_id in He by done.
    destruct He as [->| ->]; [done|]. unfold SequenceMin in Hmin.
    rewrite (proj2 (Z.eqb_neq _ _)), Z.eqb_refl by lia. done. }
  destruct l as [|[h2 fs2] l].
  - cbn [log_files] in Hfs.
    destruct (last_segment ev Hflt _ h fs rec _ expected ip isrc binding d Hh Hw Hc Hhi Hexp tail Ht Hfs)
      as (t&e'&d'&E&Hent&Hroot).
    eexists _, d'. split; [|done]. cbn. unfold io_bind, seg_file_name; cbn [fst]. rewrite E. cbn.
    by rewrite Hid, Hver.
  - destruct Hfs as [Hf Hfs].
    change (log_names ((h, fs) :: (h2, fs2) :: l)) with (segmentFilename (sh_FirstSequence h) :: log_names ((h2, fs2) :: l)).
    cbn [recover_segments]. change (log_names ((h2, fs2) :: l)) with (segmentFilename (sh_FirstSequence h2) :: log_names l) at 1.
    cbv iota. unfold io_bind at 1.
    rewrite (mid_segment ev Hflt _ h fs rec _ expected ip isrc binding d Hh Hw Hc Hhi Hexp Hf). cbn [fst snd].
    destruct (IH (sh_FirstSequence h + zlen fs) (with_frames fs (with_identity id ver rec))
      (i64 (sh_FirstSequence h + zlen fs))) as (t&d'&E&Hent&Hroot).
    + pose proof (zlen_nonneg fs). lia.
    + done.
    + done.
    + right. pose proof (with_frames_identity fs (with_identity id ver rec)) as [-> ->]. done.
    + by right.
    + rewrite E. eexists _, d'. split; [|done]. cbn [recovered_log]. by rewrite Hid, Hver.
Qed.

(** *** The fields of the result *)

Lemma close_rec_fields ev base h fs tail r :
  let r' := close_rec ev base h fs tail r in
  rc_SourceID r' = rc_SourceID r /\ rc_FormatVersion r' = rc_FormatVersion r
  /\ rc_HighestDurableSequence r' = default (rc_HighestDurableSequence r) (fr_Sequence <$> last fs)
  /\ rc_AcknowledgedThrough r' = rc_AcknowledgedThrough r
  /\ rc_Outcome r' = (if bool_decide (tail = []) then rc_Outcome r else OutcomeTruncatedTail)
  /\ rc_EmptyTrailingSegment r'
     = (if bool_decide (fs = []) then Some (DWal, base) else rc_EmptyTrailingSegment r).
Proof.
  unfold close_rec. destruct fs as [|f fs], tail as [|b tail]; cbn; split_and!; try done;
    unfold last_seq; rewrite last_cons; by destruct (last fs).
Qed.

Lemma with_frames_fields fs r :
  let r' := with_frames fs r in
  rc_SourceID r' = rc_SourceID r /\ rc_FormatVersion r' = rc_FormatVersion r
  /\ rc_HighestDurableSequence r' = default (rc_HighestDurableSequence r) (fr_Sequence <$> last fs)
  /\ rc_AcknowledgedThrough r' = rc_AcknowledgedThrough r
  /\ rc_Outcome r' = rc_Outcome r /\ rc_EmptyTrailingSegment r' = rc_EmptyTrailingSegment r.
Proof.
  destruct fs as [|f fs]; cbn; split_and!; try done. unfold last_seq. rewrite last_cons. by destruct (last fs).
Qed.

Lemma recovered_log_fields ev l tail rec id ver first :
  chained id ver first l -> l <> [] ->
  let r := recovered_log ev l tail rec in
  rc_SourceID r = id /\ rc_FormatVersion r = ver
  /\ rc_HighestDurableSequence r = default (rc_HighestDurableSequence rec) (fr_Sequence <$> last (log_frames l))
  /\ rc_AcknowledgedThrough r = rc_AcknowledgedThrough rec
  /\ rc_Outcome r = (if bool_decide (tail = []) then rc_Outcome rec else OutcomeTruncatedTail)
  /\ rc_EmptyTrailingSegment r =
     match last l with
     | Some (h, []) => Some (DWal, segmentFilename (sh_FirstSequence h))
     | _ => rc_EmptyTrailingSegment rec
     end.
Proof.
  revert rec first. induction l as [|[h fs] l IH]; intros rec first Hch Hne; [done|].
  destruct Hch as (Hh&Hid&Hver&_&_&_&Hch). cbn [recovered_log].
  destruct l as [|[h2 fs2] l].
  - destruct (close_rec_fields ev (segmentFilename (sh_FirstSequence h)) h fs tail
      (with_identity (sh_SourceID h) (sh_FormatVersion h) rec)) as (->&->&->&->&->&->).
    cbn. rewrite app_nil_r. split_and!; try done. by destruct fs.
  - specialize (IH (with_frames fs (with_identity (sh_SourceID h) (sh_FormatVersion h) rec)) _ Hch ltac:(done)).
    cbv zeta in IH. destruct IH as (->&->&->&->&->&->).
    destruct (with_frames_fields fs (with_identity (sh_SourceID h) (sh_FormatVersion h) rec))
      as (_&_&->&->&->&->).
    split_and!; try done.
    change (log_frames ((h, fs) :: (h2, fs2) :: l)) with (fs ++ log_frames ((h2, fs2) :: l)).
    rewrite last_app. by destruct (last (log_frames _)).
Qed.

(** *** The whole recovery *)

Lemma log_files_cons d h fs l :
  log_files d ((h, fs) :: l) [] ->
  file DWal (segmentFilename (sh_FirstSequence h)) d = Some (segment_bytes h fs) /\ log_files d l [].
Proof. cbn. destruct l; [by rewrite app_nil_r|done]. Qed.

Lemma log_files_snoc d l h fs tail :
  log_files d (l ++ [(h, fs)]) tail <->
  log_files d l [] /\ file DWal (segmentFilename (sh_FirstSequence h)) d = Some (segment_bytes h fs ++ tail).
Proof.
  induction l as [|[h1 fs1] l IH]; cbn [app]; [cbn; tauto|].
  destruct l as [|x l]; cbn [log_files app] in *.
  - rewrite app_nil_r. tauto.
  - rewrite IH. tauto.
Qed.

Lemma chained_snoc id ver first l h fs :
  chained id ver first (l ++ [(h, fs)]) <->
  chained id ver first l /\ header_ok h /\ sh_SourceID h = id /\ sh_FormatVersion h = ver
  /\ sh_FirstSequence h = first + zlen (log_frames l) /\ Forall frame_wf fs
  /\ contiguous (first + zlen (log_frames l)) fs.
Proof.
  revert first. induction l as [|[h1 fs1] l IH]; intros first; cbn [app chained].
  - change (zlen (log_frames [])) with 0. rewrite Z.add_0_r. tauto.
  - rewrite IH. change (log_frames ((h1, fs1) :: l)) with (fs1 ++ log_frames l).
    rewrite zlen_app, Z.add_assoc. tauto.
Qed.

Lemma log_names_snoc l s : log_names (l ++ [s]) = log_names l ++ [seg_file_name s].
Proof. unfold log_names. by rewrite fmap_app. Qed.

(** Writing one segment's file leaves the others. *)
Lemma log_files_put d d' l name c :
  name ∉ log_names l -> entries DWal d' = <[name := c]> (entries DWal d) -> log_files d l [] -> log_files d' l [].
Proof.
  intros Hn He. induction l as [|[h1 fs1] l IH]; [done|].
  apply not_elem_of_cons in Hn as [Hne Hn]. unfold seg_file_name in Hne. cbn in Hne.
  assert (Hfile : file DWal (segmentFilename (sh_FirstSequence h1)) d'
    = file DWal (segmentFilename (sh_FirstSequence h1)) d).
  { unfold file. rewrite He, lookup_insert_ne by done. done. }
  destruct l as [|x l]; cbn [log_files]; rewrite Hfile; [done|].
  intros [H1 H2]. split; [done|]. by apply IH.
Qed.

Lemma wal_holds_rewrite id ver first l h fs fs' tail tail' d d' :
  wal_holds id ver first (l ++ [(h, fs)]) tail d ->
  entries DWal d' = <[segmentFilename (sh_FirstSequence h) := EFile (segment_bytes h fs' ++ tail')]> (entries DWal d) ->
  Forall frame_wf fs' -> contiguous (sh_FirstSequence h) fs' ->
  wal_holds id ver first (l ++ [(h, fs')]) tail' d'.
Proof.
  intros (Hmin&Hch&Hn&Hf) He Hw Hc.
  pose proof (seg_names_nodup (entries DWal d)) as Hnd. rewrite Hn, log_names_snoc in Hnd.
  apply chained_snoc in Hch as (?&?&?&?&Hfirst&?&?). apply log_files_snoc in Hf as [Hf1 Hf2].
  split; [done|]. split; [|split].
  - apply chained_snoc. rewrite <-Hfirst. by split_and!.
  - rewrite He. unfold file in Hf2. destruct (entries DWal d !! _) as [[c|]|] eqn:El; [|done..].
    rewrite (seg_names_insert _ _ _ _ El), Hn, !log_names_snoc. done.
  - apply log_files_snoc. split; [|apply file_lookup; by rewrite He, lookup_insert_eq].
    eapply log_files_put; [|exact He|done].
    apply NoDup_app in Hnd as (_&Hd&_). intros Hin. by apply (Hd _ Hin), list_elem_of_singleton.
Qed.

Lemma wal_holds_cut id ver first l tail d d' :
  wal_holds id ver first l tail d -> entries DWal d' = cut_entries l (entries DWal d) ->
  wal_holds id ver first l [] d'.
Proof.
  destruct l as [|[h fs] l _] using rev_ind.
  - intros (?&?&Hn&?) He. change (cut_entries [] ?m) with m in He. split_and!; try done. by rewrite He.
  - intros H He. unfold cut_entries in He. rewrite last_snoc in He.
    pose proof H as (_&Hch&_). apply chained_snoc in Hch as (_&_&_&_&Hf&Hw&Hc).
    eapply wal_holds_rewrite; [exact H|by rewrite app_nil_r|done|by rewrite Hf].
Qed.

(** The control files: the identity, if written, names this source; the acknowledged watermark. *)
Definition controls (id : bytes) (ver a : Z) (d : disk) : Prop :=
  identity_ok id ver /\ 0 <= a <= MaxInt64
  /\ (file DRoot identityFilename d = None \/ file DRoot identityFilename d = Some (encodeIdentity id ver))
  /\ ((file DRoot ackFilename d = None /\ a = 0) \/ file DRoot ackFilename d = Some (encodeAck a)).

Lemma controls_root id ver a d d' : d_root d = d_root d' -> controls id ver a d -> controls id ver a d'.
Proof. intros E. unfold controls, file, entries. cbn. by rewrite E. Qed.

Section control_reads.
Context (ev : env) (Hflt : forall op name, e_flt ev op name = false).

Lemma run_readIdentity id ver d :
  identity_ok id ver ->
  file DRoot identityFilename d = None \/ file DRoot identityFilename d = Some (encodeIdentity id ver) ->
  readIdentity ev d
  = ([d], Ok (if bool_decide (file DRoot identityFilename d = None) then None else Some (id, ver)), d).
Proof.
  intros Hid Hi. unfold readIdentity, io_bind at 1. rewrite (run_readFile ev Hflt).
  destruct Hi as [->| ->]; [done|]. by rewrite (decode_identity _ _ Hid).
Qed.

Lemma run_readAck a d :
  0 <= a <= MaxInt64 ->
  file DRoot ackFilename d = None \/ file DRoot ackFilename d = Some (encodeAck a) ->
  readAck ev d = ([d], Ok (if bool_decide (file DRoot ackFilename d = None) then None else Some a), d).
Proof.
  intros Ha Hi. unfold readAck, io_bind at 1. rewrite (run_readFile ev Hflt).
  destruct Hi as [->| ->]; [done|]. by rewrite (decode_ack _ Ha).
Qed.

Lemma run_listSegments d : listSegments ev d = ([d], Ok (seg_names (entries DWal d)), d).
Proof.
  unfold listSegments, readDir, io_check, io_bind. rewrite (run_call ev Hflt). unfold entries. cbn.
  destruct (d_wal d); [done|]. cbn. enough (E : seg_names ∅ = []) by by rewrite E.
  apply seg_names_unique; [constructor..|]. intros x. split; [by intros ?%elem_of_nil|].
  intros (_&c&Hc). by rewrite lookup_empty in Hc.
Qed.
End control_reads.

Lemma recover_run ev binding id ver first l tail a d :
  (forall op name, e_flt ev op name = false) ->
  controls id ver a d -> bound binding id ver -> wal_holds id ver first l tail d -> torn_tail tail ->
  exists t rec d', recover ev binding d = (t, Ok rec, d')
    /\ wal_holds id ver first l [] d' /\ d_root d' = d_root d
    /\ rc_HighestDurableSequence rec = last_seq (log_frames l)
    /\ rc_AcknowledgedThrough rec = a
    /\ (rc_NextSequence rec, rc_Exhausted rec) = nextSequence (last_seq (log_frames l)) a
    /\ (l <> [] -> rc_SourceID rec = id /\ rc_FormatVersion rec = ver
         /\ rc_Outcome rec = (if bool_decide (tail = []) then OutcomeClean else OutcomeTruncatedTail)
         /\ rc_EmptyTrailingSegment rec =
            match last l with
            | Some (h, []) => Some (DWal, segmentFilename (sh_FirstSequence h))
            | _ => None
            end).
Proof.
  intros Hflt (Hid&Ha&Hi&Hk) Hb Hwal Ht. pose proof Hwal as (Hmin&Hch&Hn&Hf).
  pose proof (run_readIdentity ev Hflt id ver d Hid Hi) as Ei.
  assert (Ek := run_readAck ev Hflt a d Ha ltac:(tauto)).
  set (r1 := if bool_decide (file DRoot identityFilename d = None) then newRecovery else with_identity id ver newRecovery).
  assert (Hr1 : id_ready id ver r1 /\ rc_HighestDurableSequence r1 = 0 /\ rc_AcknowledgedThrough r1 = 0
    /\ rc_Outcome r1 = OutcomeClean /\ rc_EmptyTrailingSegment r1 = None).
  { unfold r1. destruct (bool_decide _); (split; [|done]); [by left|by right]. }
  set (r2 := if bool_decide (file DRoot ackFilename d = None) then r1 else with_ack a r1).
  assert (Hr2 : id_ready id ver r2 /\ rc_HighestDurableSequence r2 = 0 /\ rc_AcknowledgedThrough r2 = a
    /\ rc_Outcome r2 = OutcomeClean /\ rc_EmptyTrailingSegment r2 = None).
  { unfold r2. destruct Hk as [[Hk ->]|Hk]; rewrite Hk.
    - by rewrite bool_decide_eq_true_2.
    - rewrite bool_decide_eq_false_2 by done. destruct Hr1 as (?&?&_&?&?). by split_and!. }
  destruct (recover_segments_run ev l tail id ver first binding
    (negb (bool_decide (file DRoot identityFilename d = None)))
    (if bool_decide (file DRoot identityFilename d = None) then [] else id) r2 0 d Hflt Hmin Hch Hf Ht Hb (proj1 Hr2)
    ltac:(by left)) as (t&d'&E&Hent&Hroot).
  set (rec := recovered_log ev l tail r2) in *.
  assert (Hend : rc_HighestDurableSequence rec = last_seq (log_frames l) /\ rc_AcknowledgedThrough rec = a
    /\ (l <> [] -> rc_SourceID rec = id /\ rc_FormatVersion rec = ver
         /\ rc_Outcome rec = (if bool_decide (tail = []) then OutcomeClean else OutcomeTruncatedTail)
         /\ rc_EmptyTrailingSegment rec =
            match last l with
            | Some (h, []) => Some (DWal, segmentFilename (sh_FirstSequence h))
            | _ => None
            end)).
  { destruct Hr2 as (_&H1&H2&H3&H4). destruct (decide (l = [])) as [->|Hne]; [by split_and!|].
    pose proof (recovered_log_fields ev l tail r2 id ver first Hch Hne) as Hr. cbv zeta in Hr. fold rec in Hr.
    destruct Hr as (->&->&->&->&->&->). rewrite H1, H2, H3, H4. split_and!; done. }
  destruct Hend as (Hh&Hack&Hrest).
  exists (d :: d :: d :: t), (with_next (nextSequence (last_seq (log_frames l)) a) rec), d'.
  split; [|split_and!; try done; [by eapply wal_holds_cut|by destruct (nextSequence _ _)]].
  rewrite <-Hh, <-Hack. clear Hh Hack Hrest Hr1 Hr2 Hk Hi.
  unfold recover, io_bind at 1. rewrite Ei. cbv beta iota.
  assert (Eb : match (if bool_decide (file DRoot identityFilename d = None) then None else Some (id, ver)) with
    | Some (sourceID, formatVersion) =>
        match binding with
        | Some b =>
            if binding_differs b sourceID formatVersion
            then io_err (bindingMismatchError b sourceID formatVersion)
            else io_ret (with_identity sourceID formatVersion newRecovery)
        | None => io_ret (with_identity sourceID formatVersion newRecovery)
        end
    | None => io_ret newRecovery
    end = io_ret r1).
  { unfold r1. destruct (bool_decide _); [done|]. destruct Hb as [->| ->]; [done|].
    unfold binding_differs. cbn. by rewrite bool_decide_eq_true_2, Z.eqb_refl. }
  rewrite Eb. unfold io_ret at 1, io_bind at 1. unfold io_bind at 1. rewrite Ek. cbv beta iota.
  assert (Er : match (if bool_decide (file DRoot ackFilename d = None) then None else Some a) with
    | Some a => with_ack a r1 | None => r1 end = r2)
    by (unfold r2; by destruct (bool_decide (file DRoot ackFilename d = None))).
  rewrite Er. unfold io_bind at 1. rewrite (run_listSegments ev Hflt), Hn. cbv beta iota.
  unfold io_bind at 1.
  replace (bool_decide (is_Some (if bool_decide (file DRoot identityFilename d = None) then None else Some (id, ver))))
    with (negb (bool_decide (file DRoot identityFilename d = None))) by (by destruct (bool_decide (file DRoot identityFilename d = None))).
  replace (match (if bool_decide (file DRoot identityFilename d = None) then None else Some (id, ver)) with
    | Some (id, _) => id | None => [] end)
    with (if bool_decide (file DRoot identityFilename d = None) then [] else id) by (by destruct (bool_decide (file DRoot identityFilename d = None))).
  rewrite E. cbn [io_ret app]. by rewrite app_nil_r.
Qed.

(** ** The properties of recovery *)

(** Recovery of any log of one source, with any torn tail. It succeeds, reports the last
    durable sequence, the watermark and the sequence to allocate next, leaves exactly the valid
    frames in [wal/] (the torn tail cut) and the control files alone, and classifies the outcome and
    the trailing slot by what it found. *)
Theorem recover_result ev binding id ver first l tail a d :
  (forall op name, e_flt ev op name = false) ->
  controls id ver a d -> bound binding id ver -> wal_holds id ver first l tail d -> torn_tail tail ->
  exists t rec d', recover ev binding d = (t, Ok rec, d')
    /\ wal_holds id ver first l [] d' /\ d_root d' = d_root d
    /\ rc_HighestDurableSequence rec = last_seq (log_frames l)
    /\ rc_AcknowledgedThrough rec = a
    /\ (rc_NextSequence rec, rc_Exhausted rec) = nextSequence (last_seq (log_frames l)) a
    /\ (l <> [] -> rc_SourceID rec = id /\ rc_FormatVersion rec = ver
         /\ rc_Outcome rec = (if bool_decide (tail = []) then OutcomeClean else OutcomeTruncatedTail)
         /\ rc_EmptyTrailingSegment rec =
            match last l with
            | Some (h, []) => Some (DWal, segmentFilename (sh_FirstSequence h))
            | _ => None
            end).
Proof. apply recover_run. Qed.

(** C5: recovery destroys nothing. From any directory whatever (corrupt, foreign, torn), under any
    faults and at every crash point, the control files are as they were and so is every segment file
    except at most one, which lost only bytes after its last valid frame that are the beginning of a
    frame, and those bytes are already in a diagnostic file. *)
Theorem recover_preserves ev binding d0 :
  crash_triple (eq d0) (recover ev binding) (preserved d0) (fun _ => preserved d0) (preserved d0).
Proof. apply ct_recover. Qed.

(** A refusal mutates nothing. When recovery fails for any reason but a failed file-system call
    (corruption, a binding mismatch, a damaged control file) the directory is exactly as it was, at
    every crash point and at the end. *)
Theorem recover_refusal_untouched ev binding d t e d' :
  recover ev binding d = (t, Err e, d') -> (forall op, e <> ErrIO op) -> Forall (eq d) t /\ d' = d.
Proof. intros H He. destruct (recover_clean_fail ev binding d t e d' H) as [[op ->]|]; [|done]. by destruct (He op). Qed.

(** C9: recovery ends: on no directory, however damaged, does a loop of it outlast its fuel. *)
Theorem recover_terminates ev binding d : (recover ev binding d).1.2 <> Err OutOfFuel.
Proof.
  pose proof (recover_fuel ev binding d) as H. destruct (recover ev binding d) as [[t r] d'].
  cbn. intros ->. by eapply H.
Qed.

(** The reconstructed next sequence is one past both the last durable and the acknowledged
    sequence and never wraps: when either is the maximum the space is reported exhausted. *)
Theorem nextSequence_bounds highest ack :
  0 <= highest <= MaxInt64 -> 0 <= ack <= MaxInt64 ->
  let '(next, exhausted) := nextSequence highest ack in
  SequenceMin <= next <= SequenceMax
  /\ (exhausted = false <-> Z.max highest ack < SequenceMax)
  /\ (exhausted = false -> next = Z.max highest ack + 1).
Proof.
  intros Hh Ha. unfold nextSequence, SequenceMin, SequenceMax.
  replace (if highest <? ack then ack else highest) with (Z.max highest ack)
    by (destruct (highest <? ack) eqn:E; bool_to_prop; lia).
  destruct (MaxInt64 <=? Z.max highest ack) eqn:E; bool_to_prop; unfold MaxInt64 in *.
  - split_and!; try lia.
  - rewrite i64_id by (unfold in_i64, MaxInt64; lia). split_and!; try lia.
Qed.

(** The segment names sort in the order of their first sequences, so the directory listing,
    however the file system orders it, is the log in sequence order. *)
Theorem listing_order ev id ver first l d :
  (forall op name, e_flt ev op name = false) ->
  SequenceMin <= first -> chained id ver first l -> NoDup (log_names l) ->
  (forall x, x ∈ log_names l <-> is_seg_file (entries DWal d) x) ->
  (listSegments ev d).1.2 = Ok (log_names l).
Proof.
  intros Hflt Hmin Hch Hnd He. rewrite (run_listSegments ev Hflt). cbn. f_equal.
  apply seg_names_unique; [done| |done]. clear He Hnd.
  revert first Hmin Hch. induction l as [|[h fs] l IH]; intros first Hmin Hch; [constructor|].
  destruct Hch as ((_&[_ Hm]&_)&_&_&Hfirst&_&_&Hch). pose proof (zlen_nonneg fs).
  assert (Hge : forall l f0, f0 >= first -> chained id ver f0 l ->
    Forall (fun y => bytes_le (segmentFilename first) y) (log_names l)).
  { clear -Hmin Hm Hfirst. induction l as [|[h1 fs1] l IHl]; intros f0 Hf0 Hc; [constructor|].
    destruct Hc as ((_&[_ Hm1]&_)&_&_&Hf1&_&_&Hc). pose proof (zlen_nonneg fs1). constructor.
    - unfold bytes_le, seg_file_name; cbn. unfold SequenceMin in *.
      rewrite segmentFilename_le by lia. apply Z.leb_le. lia.
    - apply (IHl (f0 + zlen fs1)); [lia|done]. }
  constructor; [by apply (IH (first + zlen fs)); [lia|]|].
  unfold seg_file_name at 1; cbn [fst]. rewrite Hfirst. apply (Hge l (first + zlen fs)); [lia|done].
Qed.

(** ** Witnesses *)

Definition demo_log : wal_log := [(demo_header, demo_frames)].

Lemma demo_chained : chained (str "src") 1 1 demo_log.
Proof.
  split_and!; [exact demo_header_ok|done|done|done|exact demo_frames_wf|exact demo_contiguous|done].
Qed.

(** The demo directory with the first 30 bytes of a second frame after the first. *)
Definition demo_tail : bytes := take 30 (frame_bytes (demo_frame 2)).
Definition demo_torn_disk : disk :=
  mkDisk ∅ (Some {[ segmentFilename 1 := EFile (segment_bytes demo_header demo_frames ++ demo_tail) ]}) None.

(** A [wal/] with one segment file. *)
Lemma demo_one_segment c fs root recoveryDir :
  seg_names (entries DWal (mkDisk root (Some {[ segmentFilename 1 := EFile c ]}) recoveryDir)) = log_names [(demo_header, fs)].
Proof.
  unfold entries; cbn [get_dir d_wal]. change (default ∅ (Some ?m)) with m. apply seg_names_unique.
  - apply NoDup_singleton.
  - repeat constructor.
  - intros x. unfold is_seg_file. split.
    + intros ->%list_elem_of_singleton. split; [apply Ext_segmentFilename|]. eexists. apply lookup_singleton_eq.
    + intros (_&c'&[<- _]%lookup_singleton_Some). apply list_elem_of_singleton. reflexivity.
Qed.

Lemma demo_wal tail :
  wal_holds (str "src") 1 1 demo_log tail
    (mkDisk ∅ (Some {[ segmentFilename 1 := EFile (segment_bytes demo_header demo_frames ++ tail) ]}) None).
Proof.
  split; [done|]. split; [exact demo_chained|]. split.
  - apply demo_one_segment.
  - apply file_lookup. apply lookup_singleton_eq.
Qed.

Lemma demo_torn : torn_tail demo_tail.
Proof. right. exists zeroFrame, O. vm_compute. reflexivity. Qed.

Lemma demo_controls : controls (str "src") 1 0 demo_torn_disk.
Proof. split_and!; [by vm_compute..|by left|by left]. Qed.

Lemma recover_result_witness :
  exists t rec d', recover demo_env None demo_torn_disk = (t, Ok rec, d')
    /\ wal_holds (str "src") 1 1 demo_log [] d' /\ d_root d' = d_root demo_torn_disk
    /\ rc_HighestDurableSequence rec = last_seq (log_frames demo_log)
    /\ rc_AcknowledgedThrough rec = 0
    /\ (rc_NextSequence rec, rc_Exhausted rec) = nextSequence (last_seq (log_frames demo_log)) 0
    /\ (demo_log <> [] -> rc_SourceID rec = str "src" /\ rc_FormatVersion rec = 1
         /\ rc_Outcome rec = (if bool_decide (demo_tail = []) then OutcomeClean else OutcomeTruncatedTail)
         /\ rc_EmptyTrailingSegment rec =
            match last demo_log with
            | Some (h, []) => Some (DWal, segmentFilename (sh_FirstSequence h))
            | _ => None
            end).
Proof.
  apply (recover_result demo_env None (str "src") 1 1 demo_log demo_tail 0 demo_torn_disk);
    [reflexivity|exact demo_controls|by left|exact (demo_wal demo_tail)|exact demo_torn].
Defined.

(** A directory whose only segment is garbage larger than a header. *)
Definition demo_bad_disk : disk := mkDisk ∅ (Some {[ segmentFilename 1 := EFile (replicate 200 x00) ]}) None.

Lemma recover_refusal_untouched_witness :
  let e := CorruptionError (segmentFilename 1) 0 0 (CdHeader HdrMagic) in
  let '(t, r, d') := recover demo_env None demo_bad_disk in
  r = Err e /\ Forall (eq demo_bad_disk) t /\ d' = demo_bad_disk.
Proof.
  assert (Hr : (recover demo_env None demo_bad_disk).1.2
    = Err (CorruptionError (segmentFilename 1) 0 0 (CdHeader HdrMagic))) by (vm_compute; reflexivity).
  intros e. destruct (recover demo_env None demo_bad_disk) as [[t r] d'] eqn:E. cbn [fst snd] in Hr. subst r.
  split; [reflexivity|].
  apply (recover_refusal_untouched demo_env None demo_bad_disk t e d' E). discriminate.
Defined.

Lemma nextSequence_bounds_witness :
  let '(next, exhausted) := nextSequence 7 MaxInt64 in
  SequenceMin <= next <= SequenceMax
  /\ (exhausted = false <-> Z.max 7 MaxInt64 < SequenceMax)
  /\ (exhausted = false -> next = Z.max 7 MaxInt64 + 1).
Proof. apply (nextSequence_bounds 7 MaxInt64); unfold MaxInt64; lia. Defined.

Lemma listing_order_witness : (listSegments demo_env demo_torn_disk).1.2 = Ok (log_names demo_log).
Proof.
  apply (listing_order demo_env (str "src") 1 1 demo_log demo_torn_disk); [reflexivity|done|exact demo_chained|apply NoDup_singleton|].
  intros x. destruct (demo_wal demo_tail) as (_&_&Hn&_). fold demo_torn_disk in Hn. rewrite <-Hn. apply seg_names_elem.
Defined.
