(* ===== verification/Durability.v ===== *)
(** * The write-ahead log across crashes

    [CreateSegment], [Append] (segment.go) and recovery (recover.go) composed: a crash at any point
    of an append, under any faults, followed by recovery, yields exactly the durable frames, plus the
    new one if and only if it landed whole; a successful append is never lost. *)

From S2P Require Import Prelude Hash SpoolTypes Frame Fs GoStrings Segment Sidecar Recover.

(** The states a run can leave behind: the crash states and the final one. *)
Definition leaves {A} (m : IO A) (d0 d : disk) : Prop :=
  let '(t, _, d') := m d0 in d ∈ t \/ d = d'.

Lemma leaves_triple {A} P (m : IO A) C Q E d0 d :
  crash_triple P m C Q E -> P d0 -> leaves m d0 d -> C d \/ (exists a, Q a d) \/ E d.
Proof.
  intros H HP Hl. unfold leaves in Hl. specialize (H d0 HP). destruct (m d0) as [[t r] d'].
  destruct H as [Hc Hr]. destruct Hl as [Hin| ->].
  - left. by apply (proj1 (Forall_forall _ _) Hc).
  - right. destruct r; eauto.
Qed.

(** A file of the log holding the first [k] bytes of an appended frame. *)
Lemma torn_frame_tail f k :
  frame_ok f -> (k < length (frame_bytes f))%nat -> torn_tail (take k (frame_bytes f)).
Proof. intros Hok Hk. right. eexists _, _. by apply frame_torn. Qed.

Section append_crash.
Context (id : bytes) (ver first a : Z) (l : wal_log) (s : Segment) (fs : list Frame) (f : Frame) (d0 : disk).
Hypothesis Hinv : seg_inv s fs d0.
Hypothesis Hname : sg_name s = segmentFilename (sh_FirstSequence (sg_header s)).
Hypothesis Hwal : wal_holds id ver first (l ++ [(sg_header s, fs)]) [] d0.
Hypothesis Hseq : fr_Sequence f = sh_FirstSequence (sg_header s) + zlen fs.
Hypothesis Hok : frame_ok f.

(** What a torn append leaves is a log with a torn tail. *)
Lemma torn_at_wal k d : torn_at s fs f d0 k d ->
  exists fs' tail, wal_holds id ver first (l ++ [(sg_header s, fs')]) tail d /\ torn_tail tail
    /\ (fs' = fs \/ fs' = fs ++ [sealed f]) /\ ((length (frame_bytes f) <= k)%nat -> fs' = fs ++ [sealed f])
    /\ d_root d = d_root d0.
Proof.
  intros ->. unfold put.
  set (d := set_dir _ _ _).
  assert (He : entries DWal d = <[segmentFilename (sh_FirstSequence (sg_header s))
    := EFile (segment_bytes (sg_header s) fs ++ take k (frame_bytes f))]> (entries DWal d0))
    by (unfold d; by rewrite entries_set, Hname).
  destruct Hinv as (_&_&_&Hw&Hc&_).
  destruct (Nat.lt_ge_cases k (length (frame_bytes f))) as [Hk|Hk].
  - exists fs, (take k (frame_bytes f)). split_and!; [|by apply torn_frame_tail|by left|lia|done].
    by eapply wal_holds_rewrite.
  - exists (fs ++ [sealed f]), []. rewrite take_ge in He by done.
    split_and!; [|by left|by right|done|done].
    eapply wal_holds_rewrite; [exact Hwal| | |].
    + by rewrite app_nil_r, segment_bytes_snoc, frame_bytes_sealed.
    + apply Forall_app. split; [done|]. by apply Forall_singleton, frame_wf_sealed.
    + by apply contiguous_snoc.
Qed.
End append_crash.

(** What [Append] does when its sequence is not the next one or the frame cannot be encoded: nothing. *)
Lemma append_other ev s fs f d0 d :
  seg_inv s fs d0 -> leaves (Append ev s f) d0 d ->
  ~ (frame_ok f /\ fr_Sequence f = sh_FirstSequence (sg_header s) + zlen fs) -> d = d0.
Proof.
  intros Hinv Hl Hn. unfold leaves, Append in Hl. rewrite (nextExpected_inv _ _ _ Hinv) in Hl. cbv zeta in Hl.
  destruct (_ <=? _); [|by destruct Hl as [?%elem_of_nil|]].
  destruct (EncodeFrame f) as [x|e] eqn:E; [|by destruct Hl as [?%elem_of_nil|]].
  apply EncodeFrame_inv in E as [Hok _]. cbn [io_bind io_of] in Hl.
  rewrite (proj2 (Z.eqb_neq _ _)) in Hl by tauto. by destruct Hl as [?%elem_of_nil|].
Qed.

Lemma append_crash_recovers_aux ev ev' binding id ver first a l s fs f d0 d :
  seg_inv s fs d0 -> sg_name s = segmentFilename (sh_FirstSequence (sg_header s)) ->
  wal_holds id ver first (l ++ [(sg_header s, fs)]) [] d0 -> controls id ver a d0 ->
  (forall op name, e_flt ev' op name = false) -> bound binding id ver ->
  leaves (Append ev s f) d0 d ->
  exists t rec d' fs', recover ev' binding d = (t, Ok rec, d')
    /\ (fs' = fs \/ fs' = fs ++ [sealed f])
    /\ (is_ok (Append ev s f d0).1.2 = true -> d = (Append ev s f d0).2 -> fs' = fs ++ [sealed f])
    /\ wal_holds id ver first (l ++ [(sg_header s, fs')]) [] d'
    /\ rc_HighestDurableSequence rec = last_seq (log_frames (l ++ [(sg_header s, fs')]))
    /\ (rc_NextSequence rec, rc_Exhausted rec) = nextSequence (rc_HighestDurableSequence rec) a.
Proof.
  intros Hinv Hname Hwal Hctl Hflt Hb Hl.
  assert (H : exists fs' tail, wal_holds id ver first (l ++ [(sg_header s, fs')]) tail d /\ torn_tail tail
      /\ (fs' = fs \/ fs' = fs ++ [sealed f])
      /\ (is_ok (Append ev s f d0).1.2 = true -> d = (Append ev s f d0).2 -> fs' = fs ++ [sealed f])
      /\ d_root d = d_root d0).
  { pose proof (append_spec ev s fs f d0 Hinv d0 eq_refl) as Hspec.
    pose proof (leaves_triple _ _ _ _ _ d0 d (append_spec ev s fs f d0 Hinv) eq_refl Hl) as Hk.
    destruct (decide (frame_ok f /\ fr_Sequence f = sh_FirstSequence (sg_header s) + zlen fs)) as [[Hok Hseq]|Hn].
    - destruct (Append ev s f d0) as [[t [s'|e]] d1] eqn:EA; destruct Hspec as [_ Hspec]; cbn.
      + destruct (decide (d = d1)) as [->|Hne].
        * destruct Hspec as (_&_&Ht).
          destruct (torn_at_wal id ver first l s fs f d0 Hinv Hname Hwal Hseq Hok _ _ Ht) as (fs'&tail&?&?&?&Hf&?).
          exists fs', tail. split_and!; auto.
        * assert (exists k, torn_at s fs f d0 k d) as [k Hk'] by (destruct Hk as [[k ?]|[(?&_&_&?)|[[k ?] _]]]; eauto).
          destruct (torn_at_wal id ver first l s fs f d0 Hinv Hname Hwal Hseq Hok _ _ Hk') as (fs'&tail&?&?&?&?&?).
          exists fs', tail. split_and!; auto. done.
      + assert (exists k, torn_at s fs f d0 k d) as [k Hk'] by (destruct Hk as [[k ?]|[(?&_&_&?)|[[k ?] _]]]; eauto).
        destruct (torn_at_wal id ver first l s fs f d0 Hinv Hname Hwal Hseq Hok _ _ Hk') as (fs'&tail&?&?&?&?&?).
        exists fs', tail. split_and!; auto. done.
    - pose proof (append_other _ _ _ _ _ _ Hinv Hl Hn) as ->.
      exists fs, []. split_and!; [done|by left|by left| |done]. intros Hokk _. exfalso. apply Hn.
      destruct (Append ev s f d0) as [[t [s'|e]] d1] eqn:EA; [|done]. clear Hspec Hk Hl.
      unfold Append in EA. rewrite (nextExpected_inv _ _ _ Hinv) in EA. cbv zeta in EA.
      destruct (_ <=? _); [|done]. destruct (EncodeFrame f) as [x|] eqn:E; [|done].
      apply EncodeFrame_inv in E as [Hok _]. cbn [io_bind io_of] in EA.
      destruct (fr_Sequence f =? _) eqn:Es; [|done]. apply Z.eqb_eq in Es. done. }
  destruct H as (fs'&tail&Hw&Ht&Hfs&Hsucc&Hroot).
  destruct (recover_run ev' binding id ver first _ tail a d Hflt
    (controls_root _ _ _ _ _ (eq_sym Hroot) Hctl) Hb Hw Ht) as (t&rec&d'&E&Hw'&_&Hh&_&Hnext&_).
  exists t, rec, d', fs'. rewrite Hh. split_and!; auto.
Qed.

(** The durability contract of the spool. Take any log of one source with its last segment open,
    append a frame under any faults and crash at any point (or not at all), then recover: recovery
    succeeds and [wal/] holds exactly the frames that were durable before, or those and the new
    frame, and nothing torn; if the append reported success the new frame is there. The reported
    highest and next sequences are those of what is on disk. *)
Theorem append_crash_recovers ev ev' binding id ver first a l s fs f d0 d :
  seg_inv s fs d0 -> sg_name s = segmentFilename (sh_FirstSequence (sg_header s)) ->
  wal_holds id ver first (l ++ [(sg_header s, fs)]) [] d0 -> controls id ver a d0 ->
  (forall op name, e_flt ev' op name = false) -> bound binding id ver ->
  leaves (Append ev s f) d0 d ->
  exists t rec d' fs', recover ev' binding d = (t, Ok rec, d')
    /\ (fs' = fs \/ fs' = fs ++ [sealed f])
    /\ (is_ok (Append ev s f d0).1.2 = true -> d = (Append ev s f d0).2 -> fs' = fs ++ [sealed f])
    /\ wal_holds id ver first (l ++ [(sg_header s, fs')]) [] d'
    /\ rc_HighestDurableSequence rec = last_seq (log_frames (l ++ [(sg_header s, fs')]))
    /\ (rc_NextSequence rec, rc_Exhausted rec) = nextSequence (rc_HighestDurableSequence rec) a.
Proof. apply append_crash_recovers_aux. Qed.

(** The demo segment's file without a tail. *)
Lemma demo_wal_clean : wal_holds (str "src") 1 1 ([] ++ [(sg_header demo_segment, demo_frames)]) [] demo_disk.
Proof. pose proof (demo_wal []) as H. by rewrite app_nil_r in H. Qed.

(** An environment whose writes fail after landing 30 bytes and whose truncate fails too. *)
Definition demo_torn_env : env :=
  mkEnv (fun op _ => match op with IoWrite | IoTruncate => true | _ => false end) 30 (str "1") 0.

Lemma append_crash_recovers_witness :
  let d := (Append demo_torn_env demo_segment (demo_frame 2) demo_disk).2 in
  exists t rec d' fs', recover demo_env None d = (t, Ok rec, d')
    /\ (fs' = demo_frames \/ fs' = demo_frames ++ [sealed (demo_frame 2)])
    /\ (is_ok (Append demo_torn_env demo_segment (demo_frame 2) demo_disk).1.2 = true ->
        d = (Append demo_torn_env demo_segment (demo_frame 2) demo_disk).2 -> fs' = demo_frames ++ [sealed (demo_frame 2)])
    /\ wal_holds (str "src") 1 1 ([] ++ [(sg_header demo_segment, fs')]) [] d'
    /\ rc_HighestDurableSequence rec = last_seq (log_frames ([] ++ [(sg_header demo_segment, fs')]))
    /\ (rc_NextSequence rec, rc_Exhausted rec) = nextSequence (rc_HighestDurableSequence rec) 0.
Proof.
  intros d.
  apply (append_crash_recovers demo_torn_env demo_env None (str "src") 1 1 0 [] demo_segment demo_frames
    (demo_frame 2) demo_disk d); [exact demo_seg_inv|reflexivity|exact demo_wal_clean|exact demo_controls|reflexivity|by left|].
  unfold leaves, d. destruct (Append _ _ _ _) as [[t r] d']. by right.
Defined.
