(* ===== verification/Compact.v ===== *)
(** * Compaction and slot reclaim ([internal/observer/spool/compact.go])

    [Compact] removes a prefix of fully acknowledged segments and never the active one;
    [ReclaimEmptyTrailingSegment] frees the name rotation is about to use. The theorems: whatever
    fails and wherever a crash falls, what is left is a suffix of the log that still holds every
    frame above the watermark; without faults the suffix is the shortest one; and the next sequence
    recovery computes does not depend on how far compaction got. *)

From S2P Require Import Prelude Hash SpoolTypes Frame Fs GoStrings Segment Sidecar Recover Durability.

Record CompactionResult : Type := mkCompactionResult {
  cr_RemovedSegments : list bytes;
  cr_RemovedBytes : Z;
  cr_RemainingSegments : Z;
}.

#[export] Instance CompactionResult_eq_dec : EqDecision CompactionResult.
Proof. solve_decision. Defined.

(** Go's [CompactionResult{}]. *)
Definition zeroCompaction : CompactionResult := mkCompactionResult [] 0 0.

Definition parseSegmentFirstSequence (base : bytes) : sres Z :=
  let stem := TrimSuffix base (str ".seg") in
  if bool_decide (stem = base) then Err (ErrSegmentName base)
  else match ParseInt stem with Some v => Ok v | None => Err (ErrSegmentName base) end.

(** The error of a call as a value, for functions that return a result next to an error. *)
Definition io_try {A} (m : IO A) : IO (sres A) := fun d => let '(t, r, d') := m d in (t, Ok r, d').

(** [os.Stat(path)]: the file's size, if it can be read. *)
Definition stat_size (ev : env) (n : dirname) (name : bytes) : IO (option Z) := fun d =>
  ([], Ok (if e_flt ev IoStat name then None else zlen <$> file n name d), d).

(** [os.Remove], an absent file being an error. *)
Definition mustRemove (ev : env) (n : dirname) (name : bytes) : IO unit :=
  let! there := removeFile ev n name in if there then io_ret tt else io_err (ErrIO IoRemove).

(** [firstSeqs] of the segments: the first name that does not parse is the error. *)
Fixpoint parse_all (names : list bytes) : sres (list (bytes * Z)) :=
  match names with
  | [] => Ok []
  | n :: rest => v ← parseSegmentFirstSequence n; r ← parse_all rest; Ok ((n, v) :: r)
  end.

(** The removal loop, over each segment with its first sequence; the last one is never reached. *)
Fixpoint compact_loop (ev : env) (acknowledgedThrough : Z) (segs : list (bytes * Z)) (res : CompactionResult)
  : IO (CompactionResult * option spool_error) :=
  match segs with
  | (name, _) :: ((_, nextFirst) :: _) as rest =>
      let lastSeq := i64 (nextFirst - 1) in
      if acknowledgedThrough <? lastSeq then io_ret (res, None)
      else
        let! info := stat_size ev DWal name in
        let! r := io_try (mustRemove ev DWal name) in
        match r with
        | Err e => io_ret (res, Some e)
        | Ok _ =>
            let! r := io_try (fsyncDir ev DWal) in
            match r with
            | Err e => io_ret (res, Some e)
            | Ok _ =>
                compact_loop ev acknowledgedThrough rest
                  (mkCompactionResult (cr_RemovedSegments res ++ [name])
                     (cr_RemovedBytes res + default 0 info) (cr_RemainingSegments res - 1))
            end
        end
  | _ => io_ret (res, None)
  end.

(** The result next to the error, as Go returns them. *)
Definition Compact (ev : env) (acknowledgedThrough : Z) : IO (CompactionResult * option spool_error) :=
  let! segs := io_try (listSegments ev) in
  match segs with
  | Err e => io_ret (zeroCompaction, Some e)
  | Ok segs =>
      let res := mkCompactionResult [] 0 (zlen segs) in
      if (length segs <? 2)%nat then io_ret (res, None)
      else match parse_all segs with
           | Err e => io_ret (zeroCompaction, Some e)
           | Ok firsts => compact_loop ev acknowledgedThrough firsts res
           end
  end.

(** A nil [rec] is [None]. *)
Definition ReclaimEmptyTrailingSegment (ev : env) (rec : option Recovery) : IO bool :=
  match rec ≫= rc_EmptyTrailingSegment with
  | None => io_ret false
  | Some (dir, name) =>
      if negb (bool_decide (dir = DWal)) then io_err ErrNotUnderWal
      else
        let! there := removeFile ev DWal name in
        if there then fsyncDir ev DWal ;! io_ret true else io_ret true
  end.

(** ** Segment names *)

Lemma parse_segmentFilename z : 1 <= z <= MaxInt64 -> parseSegmentFirstSequence (segmentFilename z) = Ok z.
Proof.
  intros Hz. unfold parseSegmentFirstSequence, segmentFilename, MaxInt64 in *.
  rewrite (proj2 (Z.ltb_ge _ _)), TrimSuffix_app by lia. cbv zeta.
  rewrite bool_decide_eq_false_2.
  2: { intros E. apply (f_equal length) in E. rewrite length_app in E. cbn in E. lia. }
  rewrite ParseInt_dec_pad; [done|lia| |unfold MaxInt64; lia].
  change (10 ^ Z.of_nat 20) with 100000000000000000000. lia.
Qed.

Lemma segmentFilename_inj a b :
  1 <= a <= MaxInt64 -> 1 <= b <= MaxInt64 -> segmentFilename a = segmentFilename b -> a = b.
Proof.
  intros Ha Hb E. apply parse_segmentFilename in Ha. apply parse_segmentFilename in Hb. congruence.
Qed.

(** The first sequences of a chained log. *)
Lemma chained_range id ver first l :
  SequenceMin <= first -> chained id ver first l ->
  Forall (fun s => 1 <= sh_FirstSequence s.1 <= MaxInt64) l.
Proof.
  revert first. induction l as [|[h fs] l IH]; intros first Hmin Hch; [constructor|].
  destruct Hch as ((_&[_ Hh]&_)&_&_&<-&_&_&Hch). unfold SequenceMin in *.
  constructor; [cbn; lia|]. apply (IH (sh_FirstSequence h + zlen fs)); [|done].
  pose proof (zlen_nonneg fs). lia.
Qed.

Lemma parse_all_log id ver first l :
  SequenceMin <= first -> chained id ver first l ->
  parse_all (log_names l) = Ok ((fun s => (seg_file_name s, sh_FirstSequence s.1)) <$> l).
Proof.
  intros Hmin Hch%chained_range; [|done]. induction l as [|[h fs] l IH]; [done|].
  apply Forall_cons in Hch as [Hh Hl]. cbn [fst] in Hh.
  change (log_names ((h, fs) :: l)) with (segmentFilename (sh_FirstSequence h) :: log_names l). cbn [parse_all].
  rewrite (parse_segmentFilename _ Hh). cbn [mbind result_bind]. by rewrite IH.
Qed.

(** ** What a removal leaves *)

(** Removing the first segment of a log of at least two leaves the rest of it. *)
Lemma wal_holds_tail id ver first h fs s l tail d d' :
  wal_holds id ver first ((h, fs) :: s :: l) tail d ->
  entries DWal d' = delete (segmentFilename (sh_FirstSequence h)) (entries DWal d) ->
  wal_holds id ver (first + zlen fs) (s :: l) tail d'.
Proof.
  intros (Hmin&Hch&Hn&Hf) He. pose proof (seg_names_nodup (entries DWal d)) as Hnd. rewrite Hn in Hnd.
  apply NoDup_cons in Hnd as [Hnin Hnd].
  assert (Hsort : StronglySorted bytes_le (log_names ((h, fs) :: s :: l))).
  { rewrite <-Hn. apply sortStrings_sorted. }
  destruct Hch as (_&_&_&_&_&_&Hch). destruct Hf as [Hf0 Hf].
  split; [pose proof (zlen_nonneg fs); lia|]. split; [done|]. split.
  - rewrite He. apply seg_names_unique; [done|by inversion Hsort|].
    intros x. split.
    + intros Hin. assert (Hx : is_seg_file (entries DWal d) x).
      { apply seg_names_elem. rewrite Hn. by right. }
      destruct Hx as (Hext&c&Hc). split; [done|]. exists c. rewrite lookup_delete_ne; [done|].
      intros <-. apply Hnin. done.
    + intros (Hext&c&Hc). apply lookup_delete_Some in Hc as [Hne Hc].
      assert (Hin : x ∈ seg_names (entries DWal d)) by (apply seg_names_elem; split; eauto).
      rewrite Hn in Hin. apply list_elem_of_In in Hin. destruct Hin as [E|Hin]; [by destruct Hne|].
      by apply list_elem_of_In.
  - assert (G : forall k, seg_file_name (h, fs) ∉ log_names k -> log_files d k tail -> log_files d' k tail).
    { intros k. induction k as [|[h1 fs1] k IHk]; [done|]. intros Hk.
      apply not_elem_of_cons in Hk as [Hne Hk]. unfold seg_file_name in Hne. cbn in Hne.
      assert (Hfile : file DWal (segmentFilename (sh_FirstSequence h1)) d'
        = file DWal (segmentFilename (sh_FirstSequence h1)) d).
      { unfold file. by rewrite He, lookup_delete_ne. }
      destruct k as [|y k]; cbn [log_files]; rewrite Hfile; [done|]. intros [? ?]. split; [done|]. by apply IHk. }
    by apply G.
Qed.

(** ** Compaction *)

(** What is left of a log after its first segments were removed: those held only frames at or below
    the watermark, and the active segment is still there. *)
Definition suffix_left (id : bytes) (ver first : Z) (l : wal_log) (tail : bytes) (ack : Z) (d : disk) : Prop :=
  exists gone left, l = gone ++ left /\ (l <> [] -> left <> [])
    /\ Forall (fun f => fr_Sequence f <= ack) (log_frames gone)
    /\ wal_holds id ver (first + zlen (log_frames gone)) left tail d.

Lemma suffix_left_refl id ver first l tail ack d :
  wal_holds id ver first l tail d -> suffix_left id ver first l tail ack d.
Proof.
  intros H. exists [], l. split_and!; [done|done|constructor|]. change (zlen (log_frames [])) with 0. by rewrite Z.add_0_r.
Qed.

Lemma suffix_left_cons id ver h fs s l tail ack d :
  Forall (fun f => fr_Sequence f <= ack) fs ->
  suffix_left id ver (sh_FirstSequence h + zlen fs) (s :: l) tail ack d ->
  suffix_left id ver (sh_FirstSequence h) ((h, fs) :: s :: l) tail ack d.
Proof.
  intros Hle (gone&left&El&Hne&Hg&Hw). exists ((h, fs) :: gone), left. split_and!.
  - by rewrite El.
  - intros _. by apply Hne.
  - change (log_frames ((h, fs) :: gone)) with (fs ++ log_frames gone). by apply Forall_app.
  - change (log_frames ((h, fs) :: gone)) with (fs ++ log_frames gone). by rewrite zlen_app, Z.add_assoc.
Qed.

Lemma contiguous_le first fs ack :
  contiguous first fs -> first + zlen fs - 1 <= ack -> Forall (fun f => fr_Sequence f <= ack) fs.
Proof.
  intros Hc Hle. apply Forall_lookup. intros i f Hi. rewrite (Hc i f Hi).
  apply lookup_lt_Some in Hi. unfold zlen in Hle. lia.
Qed.

Lemma ct_try {A} P (m : IO A) C Q E :
  crash_triple P m C Q E ->
  crash_triple P (io_try m) C (fun r d => match r with Ok a => Q a d | Err _ => E d end) E.
Proof. intros H d Hd. specialize (H d Hd). unfold io_try. by destruct (m d) as [[t r] d']. Qed.

Lemma ct_mustRemove P ev n name C Q (E : disk -> Prop) :
  (forall d, P d -> C d /\ E d /\ Q tt (del n name d)) -> crash_triple P (mustRemove ev n name) C Q E.
Proof.
  intros H. unfold mustRemove.
  apply (ct_bind _ _ _ _ _ (fun b d => if (b : bool) then Q tt d else E d)).
  - apply ct_remove. intros d Hd. destruct (H d Hd) as (?&?&?). by split_and!.
  - intros [|]; [by apply ct_ret|by apply ct_err].
Qed.

Definition log_firsts (l : wal_log) : list (bytes * Z) := (fun s => (seg_file_name s, sh_FirstSequence s.1)) <$> l.

(** The last sequence the loop computes from the next segment's first. *)
Lemma last_sequence_of first fs h2 :
  SequenceMin <= first -> header_ok h2 -> sh_FirstSequence h2 = first + zlen (fs : list Frame) ->
  i64 (sh_FirstSequence h2 - 1) = first + zlen fs - 1.
Proof.
  intros Hmin (_&[_ Hm]&_) Hf. rewrite i64_id; [lia|]. pose proof (zlen_nonneg fs).
  unfold in_i64, SequenceMin in *. lia.
Qed.

(** One step of the loop. *)
Lemma compact_loop_step ev ack h fs h2 fs2 l res :
  compact_loop ev ack (log_firsts ((h, fs) :: (h2, fs2) :: l)) res =
  let name := segmentFilename (sh_FirstSequence h) in
  if ack <? i64 (sh_FirstSequence h2 - 1) then io_ret (res, None)
  else
    let! info := stat_size ev DWal name in
    let! r := io_try (mustRemove ev DWal name) in
    match r with
    | Err e => io_ret (res, Some e)
    | Ok _ =>
        let! r := io_try (fsyncDir ev DWal) in
        match r with
        | Err e => io_ret (res, Some e)
        | Ok _ =>
            compact_loop ev ack (log_firsts ((h2, fs2) :: l))
              (mkCompactionResult (cr_RemovedSegments res ++ [name])
                 (cr_RemovedBytes res + default 0 info) (cr_RemainingSegments res - 1))
        end
    end.
Proof. reflexivity. Qed.

Lemma ct_compact_loop ev id ver first l tail ack res :
  crash_triple (wal_holds id ver first l tail) (compact_loop ev ack (log_firsts l) res)
    (suffix_left id ver first l tail ack) (fun _ => suffix_left id ver first l tail ack)
    (suffix_left id ver first l tail ack).
Proof.
  revert first res. induction l as [|[h fs] [|[h2 fs2] l] IH]; intros first res.
  1, 2: apply ct_ret; intros; by apply suffix_left_refl.
  apply ct_pointwise. intros d0 H0. pose proof H0 as (Hmin&Hch&_). pose proof Hch as (_&_&_&Hfirst&_&Hc&Hch2).
  subst first. pose proof Hch2 as (Hh2&_&_&Hf2&_).
  rewrite compact_loop_step. cbv zeta. rewrite (last_sequence_of _ _ _ Hmin Hh2 Hf2). destruct (ack <? _) eqn:Hle; bool_to_prop.
  { apply ct_ret. intros d <-. by apply suffix_left_refl. }
  assert (Hfs : Forall (fun f => fr_Sequence f <= ack) fs) by (apply (contiguous_le (sh_FirstSequence h)); [done|lia]).
  set (S0 := suffix_left id ver (sh_FirstSequence h) ((h, fs) :: (h2, fs2) :: l) tail ack).
  assert (HS : forall d, wal_holds id ver (sh_FirstSequence h + zlen fs) ((h2, fs2) :: l) tail d -> S0 d).
  { intros d Hd. apply suffix_left_cons; [done|]. by apply suffix_left_refl. }
  apply (ct_bind _ _ _ _ _ (fun _ => eq d0)); [by intros d <-; split; [constructor|]|intros info].
  apply (ct_bind _ _ _ _ _ (fun r d => match r with
    | Ok _ => wal_holds id ver (sh_FirstSequence h + zlen fs) ((h2, fs2) :: l) tail d | Err _ => S0 d end)).
  { eapply ct_conseq; [apply ct_try, (ct_mustRemove (eq d0) ev DWal _ S0
      (fun _ => wal_holds id ver (sh_FirstSequence h + zlen fs) ((h2, fs2) :: l) tail) S0)|done..].
    intros d <-. split_and!; [by apply suffix_left_refl|by apply suffix_left_refl|].
    eapply wal_holds_tail; [exact H0|]. by rewrite entries_del. }
  intros [[]|e]; [|by apply ct_ret].
  apply (ct_bind _ _ _ _ _ (fun _ => wal_holds id ver (sh_FirstSequence h + zlen fs) ((h2, fs2) :: l) tail)).
  { eapply ct_conseq; [apply ct_try, (ct_fsyncDir ev DWal (wal_holds id ver (sh_FirstSequence h + zlen fs) ((h2, fs2) :: l) tail))
      |done|exact HS|by intros []|exact HS]. }
  intros [[]|e]; [|by apply ct_ret].
  eapply ct_conseq; [apply IH|done|..]; intros; by apply suffix_left_cons.
Qed.

Lemma listSegments_inv ev d t names d' :
  listSegments ev d = (t, Ok names, d') -> names = seg_names (entries DWal d) /\ d' = d.
Proof.
  unfold listSegments, readDir, io_check, io_bind, io_call. destruct (e_flt _ _ _); [done|]. cbn.
  unfold entries; cbn. destruct (d_wal d); intros [= _ <- <-]; [done|]. split; [|done].
  symmetry. apply seg_names_unique; [constructor..|]. intros x. split; [by intros ?%elem_of_nil|].
  intros (_&c&Hc). cbn in Hc. by rewrite lookup_empty in Hc.
Qed.

Lemma ct_compact ev id ver first l tail ack :
  crash_triple (wal_holds id ver first l tail) (Compact ev ack)
    (suffix_left id ver first l tail ack) (fun _ => suffix_left id ver first l tail ack)
    (suffix_left id ver first l tail ack).
Proof.
  apply ct_pointwise. intros d0 H0. pose proof H0 as (Hmin&Hch&Hn&_).
  pose proof (suffix_left_refl _ _ _ _ _ ack _ H0) as HS. unfold Compact.
  apply (ct_bind _ _ _ _ _ (fun r d => d0 = d /\ (forall names, r = Ok names -> names = log_names l))).
  { intros d <-. pose proof (listSegments_reads ev d0) as Hr. unfold io_try.
    destruct (listSegments ev d0) as [[t [names|e]] d'] eqn:E; destruct Hr as [Ht ->].
    - apply listSegments_inv in E as [-> _]. rewrite Hn. split; [by eapply Forall_impl; [exact Ht|intros ? <-]|].
      split; [done|]. by intros ? [= ->].
    - split; [by eapply Forall_impl; [exact Ht|intros ? <-]|]. done. }
  intros [names|e]; [|apply ct_ret; by intros d [<- _]].
  apply ct_pointwise. intros d1 [<- Hnames]. rewrite (Hnames _ eq_refl).
  destruct (_ <? 2)%nat; [apply ct_ret; by intros d <-|].
  rewrite (parse_all_log _ _ _ _ Hmin Hch).
  eapply ct_conseq; [apply (ct_compact_loop ev id ver first)|by intros ? <-|done..].
Qed.

(** The next sequence recovery reconstructs does not depend on how much was compacted. *)
Lemma nextSequence_compacted first gone left ack :
  contiguous first (gone ++ left) -> SequenceMin <= first ->
  Forall (fun f => fr_Sequence f <= ack) gone -> 0 <= ack ->
  nextSequence (last_seq left) ack = nextSequence (last_seq (gone ++ left)) ack.
Proof.
  intros Hc Hmin Hg Ha. destruct left as [|f left _] using rev_ind.
  - rewrite app_nil_r. unfold nextSequence. change (last_seq []) with 0.
    assert (Hle : last_seq gone <= ack).
    { destruct gone as [|g gone _] using rev_ind; [done|]. rewrite last_seq_snoc.
      by apply Forall_app in Hg as [_ [? _]%Forall_cons]. }
    destruct (0 <? ack) eqn:E1, (last_seq gone <? ack) eqn:E2; bool_to_prop; try done.
    + by replace (last_seq gone) with ack by lia.
    + assert (ack = 0) as -> by lia. destruct gone as [|g gone]; [done|].
      apply contiguous_cons in Hc as [Hc _]. apply Forall_cons in Hg as [Hg _]. unfold SequenceMin in *. lia.
    + by replace (last_seq gone) with 0 by lia.
  - by rewrite app_assoc, !last_seq_snoc.
Qed.

Lemma chained_contiguous id ver first l : chained id ver first l -> contiguous first (log_frames l).
Proof.
  revert first. induction l as [|[h fs] l IH]; intros first; [done|].
  intros (_&_&_&_&_&Hc&Hl%IH). change (log_frames ((h, fs) :: l)) with (fs ++ log_frames l).
  intros i f Hi. apply lookup_app_Some in Hi as [Hi|[Hle Hi]]; [by apply Hc|].
  rewrite (Hl _ _ Hi). unfold zlen. lia.
Qed.

(** *** Runs without faults *)

Definition log_size (l : wal_log) : Z :=
  foldr (fun s n => zlen (segment_bytes s.1 s.2) + n) 0 l.

Section no_faults.
Context (ev : env) (Hflt : forall op name, e_flt ev op name = false).

(** The loop ends with the result [m] yields: the removed prefix is as long as can be. *)
Definition compacted (ack : Z) (l : wal_log) (res : CompactionResult)
    (m : list disk * sres (CompactionResult * option spool_error) * disk) : Prop :=
  exists t d' gone left,
    m = (t, Ok (mkCompactionResult (cr_RemovedSegments res ++ log_names gone)
                  (cr_RemovedBytes res + log_size gone) (cr_RemainingSegments res - zlen gone), None), d')
    /\ l = gone ++ left /\ (l <> [] -> left <> [])
    /\ match left with (h, fs) :: _ :: _ => ack < sh_FirstSequence h + zlen fs - 1 | _ => True end.

Lemma compacted_stop ack l res d :
  match l with (h, fs) :: _ :: _ => ack < sh_FirstSequence h + zlen fs - 1 | _ => True end ->
  compacted ack l res (io_ret (res, None) d).
Proof.
  intros Hk. exists [], d, [], l. split_and!; try done. unfold io_ret. cbn.
  rewrite app_nil_r, Z.add_0_r, Z.sub_0_r. by destruct res.
Qed.

(** Removing one more segment in front. *)
Lemma compacted_cons ack h fs l res m t0 :
  compacted ack l (mkCompactionResult (cr_RemovedSegments res ++ [segmentFilename (sh_FirstSequence h)])
    (cr_RemovedBytes res + zlen (segment_bytes h fs)) (cr_RemainingSegments res - 1)) m ->
  l <> [] -> compacted ack ((h, fs) :: l) res (let '(t, r, d) := m in (t0 ++ t, r, d)).
Proof.
  intros (t&d'&gone&left&->&->&Hne&Hleft) Hl.
  exists (t0 ++ t), d', ((h, fs) :: gone), left. split_and!; [|done|auto|done].
  change (log_names ((h, fs) :: gone)) with ([segmentFilename (sh_FirstSequence h)] ++ log_names gone).
  cbn [cr_RemovedSegments cr_RemovedBytes cr_RemainingSegments log_size foldr fst snd].
  rewrite <-app_assoc, <-Z.add_assoc.
  replace (cr_RemainingSegments res - 1 - zlen gone) with (cr_RemainingSegments res - zlen ((h, fs) :: gone))
    by (unfold zlen; cbn [length]; lia).
  done.
Qed.

Lemma run_remove name c d :
  file DWal name d = Some c -> mustRemove ev DWal name d = ([d], Ok tt, del DWal name d).
Proof.
  intros Hf. unfold mustRemove, removeFile, io_bind. rewrite Hflt. unfold file in Hf.
  by destruct (entries DWal d !! _).
Qed.

Lemma run_fsyncDir n d : fsyncDir ev n d = ([d; d], Ok tt, d).
Proof. unfold fsyncDir, io_bind, io_check, io_call. by rewrite !Hflt. Qed.

Lemma run_compact_loop id ver first l tail ack res d :
  wal_holds id ver first l tail d -> compacted ack l res (compact_loop ev ack (log_firsts l) res d).
Proof.
  revert first res d. induction l as [|[h fs] [|[h2 fs2] l] IH]; intros first res d Hwal.
  1, 2: by apply compacted_stop.
  pose proof Hwal as (Hmin&Hch&_&Hf0&_). pose proof Hch as (_&_&_&Hfirst&_&Hc&Hch2).
  subst first. pose proof Hch2 as (Hh2&_&_&Hf2&_).
  rewrite compact_loop_step. cbv zeta. rewrite (last_sequence_of _ _ _ Hmin Hh2 Hf2).
  destruct (ack <? _) eqn:Hle; bool_to_prop; [by apply compacted_stop|].
  unfold stat_size. unfold io_bind at 1. rewrite Hflt, Hf0. cbn [fmap option_fmap option_map].
  unfold io_bind at 1, io_try at 1. rewrite (run_remove _ _ _ Hf0). cbv beta iota.
  unfold io_bind at 1, io_try at 1. rewrite run_fsyncDir. cbv beta iota.
  assert (Hwal1 : wal_holds id ver (sh_FirstSequence h + zlen fs) ((h2, fs2) :: l) tail
    (del DWal (segmentFilename (sh_FirstSequence h)) d)).
  { eapply wal_holds_tail; [exact Hwal|]. by rewrite entries_del. }
  pose proof (compacted_cons ack h fs _ res _ ([d; del DWal (segmentFilename (sh_FirstSequence h)) d;
    del DWal (segmentFilename (sh_FirstSequence h)) d]) (IH _ _ _ Hwal1) ltac:(done)) as Hcc.
  change (default 0 (Some ?x)) with x.
  destruct (compact_loop _ _ _ _ _) as [[t r] d']. exact Hcc.
Qed.
End no_faults.

(** ** The properties of compaction *)

(** C7: compaction evicts no unacknowledged byte. Under any faults, at every crash point and
    whatever the result, [wal/] holds a suffix of the log (never empty, so the active segment with
    its tail is still there), byte for byte, and everything before it was at or below the
    watermark. *)
Theorem Compact_keeps ev id ver first l tail ack :
  crash_triple (wal_holds id ver first l tail) (Compact ev ack)
    (suffix_left id ver first l tail ack) (fun _ => suffix_left id ver first l tail ack)
    (suffix_left id ver first l tail ack).
Proof. apply ct_compact. Qed.

(** Without faults compaction removes the longest prefix it may: it stops at the active segment
    or at one that still holds an unacknowledged frame, and reports what it removed. *)
Theorem Compact_removes ev id ver first l tail ack d :
  (forall op name, e_flt ev op name = false) -> wal_holds id ver first l tail d ->
  exists t d' gone left, Compact ev ack d
      = (t, Ok (mkCompactionResult (log_names gone) (log_size gone) (zlen left), None), d')
    /\ l = gone ++ left /\ (l <> [] -> left <> [])
    /\ match left with (h, fs) :: _ :: _ => ack < sh_FirstSequence h + zlen fs - 1 | _ => True end.
Proof.
  intros Hflt Hwal. pose proof Hwal as (Hmin&Hch&Hn&_). unfold Compact, io_bind at 1, io_try at 1.
  rewrite (run_listSegments ev Hflt), Hn. cbv beta iota.
  destruct (length (log_names l) <? 2)%nat eqn:E.
  - exists ([d] ++ []), d, [], l. split_and!; try done.
    + unfold log_names, zlen. by rewrite length_fmap.
    + unfold log_names in E. rewrite length_fmap in E. apply Nat.ltb_lt in E.
      destruct l as [|[h fs] [|? ?]]; cbn in E; (done || lia).
  - rewrite (parse_all_log _ _ _ _ Hmin Hch).
    destruct (run_compact_loop ev Hflt id ver first l tail ack (mkCompactionResult [] 0 (zlen (log_names l))) d Hwal)
      as (t&d'&gone&left&Ec&El&Hne&Hl).
    exists ([d] ++ t), d', gone, left. split_and!; try done.
    fold (log_firsts l). rewrite Ec. cbn [cr_RemovedSegments cr_RemovedBytes cr_RemainingSegments app].
    replace (zlen (log_names l) - zlen gone) with (zlen left); [done|].
    unfold log_names, zlen. rewrite length_fmap, El, length_app. lia.
Qed.

(** Recovery after any amount of compaction allocates the same next sequence. *)
Theorem compaction_keeps_next id ver first l tail ack d :
  SequenceMin <= first -> chained id ver first l -> 0 <= ack -> suffix_left id ver first l tail ack d ->
  exists left, wal_holds id ver (first + (zlen (log_frames l) - zlen (log_frames left))) left tail d
    /\ nextSequence (last_seq (log_frames left)) ack = nextSequence (last_seq (log_frames l)) ack.
Proof.
  intros Hmin Hch Ha (gone&left&->&_&Hg&Hw).
  assert (E : log_frames (gone ++ left) = log_frames gone ++ log_frames left)
    by (unfold log_frames; by rewrite fmap_app, join_app).
  exists left. rewrite E, zlen_app.
  replace (zlen (log_frames gone) + zlen (log_frames left) - zlen (log_frames left)) with (zlen (log_frames gone)) by lia.
  split; [done|]. eapply nextSequence_compacted; [|exact Hmin|done|done].
  apply chained_contiguous in Hch. by rewrite E in Hch.
Qed.

(** A segment name and its first sequence determine each other, on the whole range of
    sequences. *)
Theorem segment_name_roundtrip a :
  1 <= a <= MaxInt64 ->
  parseSegmentFirstSequence (segmentFilename a) = Ok a
  /\ length (segmentFilename a) = 24%nat
  /\ forall b, 1 <= b <= MaxInt64 ->
       (segmentFilename a = segmentFilename b <-> a = b)
       /\ bytes_leb (segmentFilename a) (segmentFilename b) = (a <=? b).
Proof.
  intros Ha. split; [by apply parse_segmentFilename|]. split.
  - unfold segmentFilename. rewrite (proj2 (Z.ltb_ge _ _)) by lia. by rewrite length_app, length_dec_pad.
  - intros b Hb. split; [|by apply segmentFilename_le]. split; [by apply segmentFilename_inj|by intros ->].
Qed.

(** Reclaiming frees the slot recovery named and touches nothing else, at every crash point; it
    is idempotent. *)
Theorem Reclaim_spec ev rec name d0 :
  rc_EmptyTrailingSegment rec = Some (DWal, name) ->
  crash_triple (eq d0) (ReclaimEmptyTrailingSegment ev (Some rec))
    (fun d => d = d0 \/ d = del DWal name d0)
    (fun r d => r = true /\ entries DWal d = delete name (entries DWal d0) /\ (d = d0 \/ d = del DWal name d0))
    (fun d => d = d0 \/ d = del DWal name d0).
Proof.
  intros Hrec. unfold ReclaimEmptyTrailingSegment. cbn [mbind option_bind]. rewrite Hrec.
  rewrite bool_decide_eq_true_2 by done. cbn [negb].
  apply (ct_bind _ _ _ _ _ (fun b d => if (b : bool) then d = del DWal name d0
    else d = d0 /\ entries DWal d0 !! name = None)).
  - apply ct_remove. intros d <-. split_and!; auto.
  - intros [|].
    + apply (ct_bind _ _ _ _ _ (fun _ d => d = del DWal name d0)).
      * eapply ct_conseq; [apply (ct_fsyncDir ev DWal (fun d => d = del DWal name d0))|auto..].
      * intros []. apply ct_ret. intros d ->. rewrite entries_del. auto.
    + apply ct_ret. intros d [-> Hn]. split_and!; [done|by rewrite delete_id|by left].
Qed.

(** ** Witnesses *)

(** A log of two segments: frame 1, and an empty active segment at 2. *)
Definition demo_header2 : SegmentHeader := mkSegmentHeader 1 (str "src") 2 6.
Definition demo_log2 : wal_log := [(demo_header, demo_frames); (demo_header2, [])].
Definition demo_disk2 : disk :=
  mkDisk ∅ (Some (<[segmentFilename 1 := EFile (segment_bytes demo_header demo_frames)]>
                  {[ segmentFilename 2 := EFile (segment_bytes demo_header2 []) ]})) None.

Lemma demo_chained2 : chained (str "src") 1 1 demo_log2.
Proof.
  split_and!; [exact demo_header_ok|done|done|done|exact demo_frames_wf|exact demo_contiguous|].
  split_and!; [by vm_compute|done..|apply contiguous_nil|done].
Qed.

Lemma demo_wal2 : wal_holds (str "src") 1 1 demo_log2 [] demo_disk2.
Proof.
  split; [done|]. split; [exact demo_chained2|]. split.
  - vm_compute. reflexivity.
  - split; [apply file_lookup, lookup_insert_eq|]. apply file_lookup. rewrite app_nil_r.
    unfold entries, demo_disk2; cbn [get_dir d_wal]. change (default ∅ (Some ?m)) with m.
    rewrite lookup_insert_ne by (vm_compute; discriminate). apply lookup_singleton_eq.
Qed.

Lemma Compact_removes_witness :
  exists t d' gone left, Compact demo_env 1 demo_disk2
      = (t, Ok (mkCompactionResult (log_names gone) (log_size gone) (zlen left), None), d')
    /\ demo_log2 = gone ++ left /\ (demo_log2 <> [] -> left <> [])
    /\ match left with (h, fs) :: _ :: _ => 1 < sh_FirstSequence h + zlen fs - 1 | _ => True end.
Proof.
  apply (Compact_removes demo_env (str "src") 1 1 demo_log2 [] 1 demo_disk2); [reflexivity|exact demo_wal2].
Defined.

Lemma compaction_keeps_next_witness :
  exists left, wal_holds (str "src") 1 (1 + (zlen (log_frames demo_log2) - zlen (log_frames left))) left [] demo_disk2
    /\ nextSequence (last_seq (log_frames left)) 1 = nextSequence (last_seq (log_frames demo_log2)) 1.
Proof.
  apply (compaction_keeps_next (str "src") 1 1 demo_log2 [] 1 demo_disk2);
    [done|exact demo_chained2|lia|exact (suffix_left_refl _ _ _ _ _ _ _ demo_wal2)].
Defined.

Lemma segment_name_roundtrip_witness :
  parseSegmentFirstSequence (segmentFilename 12) = Ok 12
  /\ length (segmentFilename 12) = 24%nat
  /\ forall b, 1 <= b <= MaxInt64 ->
       (segmentFilename 12 = segmentFilename b <-> 12 = b)
       /\ bytes_leb (segmentFilename 12) (segmentFilename b) = (12 <=? b).
Proof. apply (segment_name_roundtrip 12). unfold MaxInt64; lia. Defined.

Lemma Reclaim_spec_witness :
  let rec := with_empty_trailing (DWal, segmentFilename 2) newRecovery in
  crash_triple (eq demo_disk2) (ReclaimEmptyTrailingSegment demo_env (Some rec))
    (fun d => d = demo_disk2 \/ d = del DWal (segmentFilename 2) demo_disk2)
    (fun r d => r = true /\ entries DWal d = delete (segmentFilename 2) (entries DWal demo_disk2)
       /\ (d = demo_disk2 \/ d = del DWal (segmentFilename 2) demo_disk2))
    (fun d => d = demo_disk2 \/ d = del DWal (segmentFilename 2) demo_disk2).
Proof. intros rec. apply (Reclaim_spec demo_env rec (segmentFilename 2) demo_disk2). reflexivity. Defined.
