(* ===== verification/Ack.v ===== *)
(** * The acknowledgement policy ([internal/observer/spool/ack.go])

    [AckState]: the durable acknowledged-through watermark, the advancement ceiling and the single
    in-flight range. Its mutex makes every method one atomic step, so concurrent use is a sequence of
    the steps below. The theorems: the watermark only advances, only through the sequences of the
    outstanding range, and never past durable data; the sidecar always reads back as the old or the
    new watermark; and what each method does on every branch. *)

From S2P Require Import Prelude Hash SpoolTypes Frame Fs Segment Sidecar Recover.

Definition DefaultMaxInFlightRecords : Z := 1000.

(** [wire.SequenceRange]. *)
Record SequenceRange : Type := mkRange { FirstSequence : Z; LastSequence : Z }.

#[export] Instance SequenceRange_eq_dec : EqDecision SequenceRange.
Proof. solve_decision. Defined.

Record AckState : Type := mkAckState {
  ak_acknowledgedThrough : Z;
  ak_highestDurable : Z;
  ak_maxInFlight : Z;
  ak_inFlight : option SequenceRange;
}.

#[export] Instance AckState_eq_dec : EqDecision AckState.
Proof. solve_decision. Defined.

Definition maxInFlightOrDefault (m : Z) : Z := if m <=? 0 then DefaultMaxInFlightRecords else m.

Definition LoadAckState (ev : env) (highestDurable maxInFlight : Z) : IO AckState :=
  let! r := readAck ev in
  let ack := default 0 r in
  let ceiling := if highestDurable <? ack then ack else highestDurable in
  io_ret (mkAckState ack ceiling (maxInFlightOrDefault maxInFlight) None).

Definition NoteDurable (seq : Z) (a : AckState) : AckState :=
  if ak_highestDurable a <? seq
  then mkAckState (ak_acknowledgedThrough a) seq (ak_maxInFlight a) (ak_inFlight a) else a.

Definition InFlight (a : AckState) : option SequenceRange := ak_inFlight a.

Definition SetInFlight (r : SequenceRange) (a : AckState) : sres AckState :=
  if (FirstSequence r <? SequenceMin) || (LastSequence r <? FirstSequence r)
  then Err (ErrInFlightRange (FirstSequence r) (LastSequence r))
  else if ak_highestDurable a <? LastSequence r
  then Err (ErrInFlightRange (FirstSequence r) (LastSequence r))
  else if ak_maxInFlight a <? i64 (LastSequence r - FirstSequence r + 1)
  then Err (ErrInFlightRange (FirstSequence r) (LastSequence r))
  else if negb (FirstSequence r =? i64 (ak_acknowledgedThrough a + 1))
  then Err (ErrAckGap (FirstSequence r) (i64 (ak_acknowledgedThrough a + 1)))
  else if match ak_inFlight a with Some r' => negb (bool_decide (r' = r)) | None => false end
  then Err ErrInFlightConflict
  else Ok (mkAckState (ak_acknowledgedThrough a) (ak_highestDurable a) (ak_maxInFlight a) (Some r)).

(** On failure the caller's state is unchanged. *)
Definition Acknowledge (ev : env) (through : Z) (a : AckState) : IO AckState :=
  if through <? ak_acknowledgedThrough a then io_err (ErrAckBackward through (ak_acknowledgedThrough a))
  else if through =? ak_acknowledgedThrough a then io_ret a
  else if ak_highestDurable a <? through then io_err (ErrAckBeyondDurable through (ak_highestDurable a))
  else
    match ak_inFlight a with
    | None => io_err (ErrAckBeyondSent through)
    | Some r =>
        if LastSequence r <? through then io_err (ErrAckBeyondSent through)
        else
          writeAck ev through ;!
          io_ret (mkAckState through (ak_highestDurable a) (ak_maxInFlight a)
                    (if through =? LastSequence r then None
                     else Some (mkRange (i64 (through + 1)) (LastSequence r))))
    end.

(** ** The invariant *)

(** What is between the fields: the outstanding range starts right after the watermark, is not empty
    and stays within durable data and the configured bound. *)
Definition ack_wf (a : AckState) : Prop :=
  0 <= ak_acknowledgedThrough a <= ak_highestDurable a /\ ak_highestDurable a <= MaxInt64
  /\ 1 <= ak_maxInFlight a
  /\ match ak_inFlight a with
     | None => True
     | Some r => FirstSequence r = ak_acknowledgedThrough a + 1
                 /\ FirstSequence r <= LastSequence r <= ak_highestDurable a
                 /\ LastSequence r - FirstSequence r + 1 <= ak_maxInFlight a
     end.

(** The highest sequence the sidecar may hold: it is past the watermark only when a write whose
    failure was reported landed all the same. *)
Definition sent_through (a : AckState) : Z :=
  match ak_inFlight a with Some r => LastSequence r | None => ak_acknowledgedThrough a end.

(** The value of the ack sidecar; 0 when it is absent. *)
Definition ack_on_disk (v : Z) (d : disk) : Prop :=
  (file DRoot ackFilename d = None /\ v = 0) \/ (0 <= v <= MaxInt64 /\ file DRoot ackFilename d = Some (encodeAck v)).

Definition ack_inv (a : AckState) (d : disk) : Prop :=
  ack_wf a /\ exists v, ack_on_disk v d /\ ak_acknowledgedThrough a <= v <= sent_through a.

(** The steps of a running process: an append made a sequence durable, a range was offered, an
    acknowledgement arrived and the write succeeded or failed (under any faults). *)
Inductive ack_step : AckState * disk -> AckState * disk -> Prop :=
| StepDurable seq a d :
    seq <= MaxInt64 -> ack_step (a, d) (NoteDurable seq a, d)
| StepInFlight r a a' d :
    SetInFlight r a = Ok a' -> ack_step (a, d) (a', d)
| StepInFlightRejected r a e d :
    SetInFlight r a = Err e -> ack_step (a, d) (a, d)
| StepAck ev through a t a' d d' :
    Acknowledge ev through a d = (t, Ok a', d') -> ack_step (a, d) (a', d')
| StepAckFailed ev through a t e d d' :
    Acknowledge ev through a d = (t, Err e, d') -> ack_step (a, d) (a, d').

(** ** The sidecar across a write *)

Lemma ack_on_disk_lookup v d :
  0 <= v <= MaxInt64 -> entries DRoot d !! ackFilename = Some (EFile (encodeAck v)) -> ack_on_disk v d.
Proof. intros Hv H. right. split; [done|]. by apply file_lookup. Qed.

(** At every crash point and at the end, the sidecar holds the old or the new watermark. *)
Lemma ct_writeAck ev v through d0 :
  ack_on_disk v d0 -> 0 <= through <= MaxInt64 ->
  crash_triple (eq d0) (writeAck ev through) (fun d => ack_on_disk v d \/ ack_on_disk through d)
    (fun _ d => ack_on_disk through d) (fun d => ack_on_disk v d \/ ack_on_disk through d).
Proof.
  intros Hv Ht. unfold writeAck.
  assert (H : forall d, old_or_new ev DRoot ackFilename (encodeAck through) d0 d ->
    ack_on_disk v d \/ ack_on_disk through d).
  { intros d [(_&H&_)|(_&H&_)]; [left|right].
    - unfold ack_on_disk, file in *. by rewrite H.
    - by apply ack_on_disk_lookup. }
  eapply ct_conseq; [apply atomic_write_new|done|exact H| |exact H].
  intros _ d ((_&Hd&_)&_). by apply ack_on_disk_lookup.
Qed.

(** Reading the sidecar back. *)
Lemma readAck_on_disk ev v d :
  (forall op name, e_flt ev op name = false) -> ack_on_disk v d ->
  exists r, readAck ev d = ([d], Ok r, d) /\ default 0 r = v.
Proof.
  intros Hflt Hv.
  assert (H : file DRoot ackFilename d = None \/ file DRoot ackFilename d = Some (encodeAck v)) by (destruct Hv as [[]|[]]; auto).
  assert (Hr : 0 <= v <= MaxInt64) by (destruct Hv as [[_ ->]|[]]; [unfold MaxInt64; lia|done]).
  rewrite (run_readAck ev Hflt v d Hr H). eexists. split; [done|].
  destruct Hv as [[Hn ->]|[_ Hs]]; [by rewrite bool_decide_eq_true_2|].
  by rewrite bool_decide_eq_false_2 by (by rewrite Hs).
Qed.

(** ** The steps preserve the invariant *)

Lemma NoteDurable_wf seq a : seq <= MaxInt64 -> ack_wf a -> ack_wf (NoteDurable seq a).
Proof.
  unfold ack_wf, NoteDurable. intros Hs (H1&H2&H3&H4). destruct (_ <? _) eqn:E; bool_to_prop; [|done].
  cbn. split_and!; try lia. destruct (ak_inFlight a); [lia|done].
Qed.

(** A watermark at the ceiling wraps to a negative sequence, which no range starts with. *)
Lemma ack_next_fits ack first : 0 <= ack <= MaxInt64 -> 1 <= first -> first = i64 (ack + 1) -> ack + 1 <= 2^63 - 1.
Proof.
  intros Ha Hf E. unfold MaxInt64 in *. destruct (decide (ack = 2^63 - 1)) as [->|]; [|lia].
  change (i64 (2^63 - 1 + 1)) with (-2^63) in E. lia.
Qed.

Lemma SetInFlight_ok r a : ack_wf a ->
  forall a', SetInFlight r a = Ok a' <->
    a' = mkAckState (ak_acknowledgedThrough a) (ak_highestDurable a) (ak_maxInFlight a) (Some r)
    /\ FirstSequence r = ak_acknowledgedThrough a + 1
    /\ FirstSequence r <= LastSequence r <= ak_highestDurable a
    /\ LastSequence r - FirstSequence r + 1 <= ak_maxInFlight a
    /\ (ak_inFlight a = None \/ ak_inFlight a = Some r).
Proof.
  intros (H1&H2&H3&H4) a'. unfold SetInFlight, SequenceMin. split.
  - intros H. repeat (case_step; try discriminate); bool_to_prop; injection H as <-.
    all: rewrite (i64_id (LastSequence r - FirstSequence r + 1)) in * by (unfold in_i64, MaxInt64 in *; lia).
    all: match goal with E : FirstSequence ?r = i64 (ak_acknowledgedThrough ?a + 1) |- _ =>
      pose proof (ack_next_fits (ak_acknowledgedThrough a) (FirstSequence r) ltac:(lia) ltac:(lia) E);
      rewrite i64_id in E by (unfold in_i64, MaxInt64; lia) end.
    all: split_and!; try done; try lia; subst; auto.
  - intros (->&Hf&Hl&Hm&Hi).
    rewrite !i64_id by (unfold in_i64, MaxInt64 in *; lia).
    rewrite !(proj2 (Z.ltb_ge _ _)) by lia. rewrite (proj2 (Z.eqb_eq _ _)) by lia. cbn [orb negb].
    destruct Hi as [->| ->]; [done|]. by rewrite bool_decide_eq_true_2.
Qed.

Lemma sent_through_bounds a : ack_wf a -> ak_acknowledgedThrough a <= sent_through a <= ak_highestDurable a.
Proof. unfold ack_wf, sent_through. intros (H1&H2&H3&H4). destruct (ak_inFlight a); lia. Qed.

Lemma acknowledge_spec ev through a v d0 :
  ack_wf a -> ack_on_disk v d0 -> ak_acknowledgedThrough a <= v <= sent_through a ->
  let within d := exists v', ack_on_disk v' d /\ ak_acknowledgedThrough a <= v' <= sent_through a in
  crash_triple (eq d0) (Acknowledge ev through a) within
    (fun a' d => ack_inv a' d /\ ak_acknowledgedThrough a' = through
       /\ ak_acknowledgedThrough a <= through <= sent_through a
       /\ ak_highestDurable a' = ak_highestDurable a)
    within.
Proof.
  intros Hwf Hd Hv within.
  pose proof Hwf as (H1&H2&H3&H4). pose proof (sent_through_bounds _ Hwf) as Hs.
  assert (Hin : forall d, d0 = d -> within d) by (intros d <-; by exists v).
  unfold Acknowledge. destruct (through <? _) eqn:E1; [by apply ct_err|].
  destruct (through =? _) eqn:E2.
  { apply ct_ret. intros d <-. bool_to_prop. split_and!; try lia. split; [done|eauto]. }
  destruct (_ <? through) eqn:E3; [by apply ct_err|].
  destruct (ak_inFlight a) as [r|] eqn:Er; [|by apply ct_err].
  destruct (LastSequence r <? through) eqn:E4; [by apply ct_err|]. bool_to_prop.
  assert (Est : sent_through a = LastSequence r) by (unfold sent_through; by rewrite Er).
  apply (ct_bind _ _ _ _ _ (fun _ d => ack_on_disk through d)).
  - eapply ct_conseq; [apply (ct_writeAck ev v through d0); [done|unfold MaxInt64 in *; lia]|done| |done|];
      (intros d [?|?]; [by exists v|exists through; split; [done|lia]]).
  - intros []; cbv beta. apply ct_ret. intros d Hth. cbn. split_and!; try lia.
    split; [|exists through; split; [done|]].
    + unfold ack_wf; cbn. split_and!; try lia. destruct (through =? LastSequence r) eqn:E5; [done|]. bool_to_prop.
      cbn. rewrite i64_id by (unfold in_i64, MaxInt64 in *; lia). lia.
    + unfold sent_through; cbn. destruct (through =? LastSequence r); cbn; lia.
Qed.

Lemma ack_step_inv a d a' d' :
  ack_step (a, d) (a', d') -> ack_inv a d ->
  ack_inv a' d' /\ ak_acknowledgedThrough a <= ak_acknowledgedThrough a' /\ ak_highestDurable a <= ak_highestDurable a'.
Proof.
  intros Hs [Hwf (v&Hv&Hb)]. inversion Hs; subst.
  - pose proof (NoteDurable_wf seq a ltac:(done) Hwf) as Hwf'. split; [split; [done|]|].
    + exists v. split; [done|]. unfold NoteDurable, sent_through in *. by destruct (_ <? _).
    + unfold NoteDurable. destruct (_ <? _) eqn:E; bool_to_prop; cbn; lia.
  - match goal with H : SetInFlight _ _ = Ok _ |- _ => apply (SetInFlight_ok _ _ Hwf) in H as (->&Hf&Hl&Hm&Hi) end.
    unfold ack_inv, ack_wf. cbn. destruct Hwf as (?&?&?&?). split_and!; try lia.
    exists v. split; [done|]. unfold sent_through in *. cbn. destruct Hi as [Hi|Hi]; rewrite Hi in Hb; lia.
  - split_and!; try lia. split; eauto.
  - match goal with H : Acknowledge _ _ _ _ = _ |- _ => rename H into HA end.
    pose proof (acknowledge_spec ev through a v d Hwf Hv Hb d eq_refl) as H. rewrite HA in H.
    destruct H as [_ (Hinv&<-&Hle&Hhd)]. split; [done|lia].
  - match goal with H : Acknowledge _ _ _ _ = _ |- _ => rename H into HA end.
    pose proof (acknowledge_spec ev through a' v d Hwf Hv Hb d eq_refl) as H. rewrite HA in H.
    destruct H as [_ Hin]. split_and!; try lia. by split.
Qed.

Lemma ack_steps_inv s s' :
  rtc ack_step s s' -> ack_inv s.1 s.2 ->
  ack_inv s'.1 s'.2 /\ ak_acknowledgedThrough s.1 <= ak_acknowledgedThrough s'.1
  /\ ak_highestDurable s.1 <= ak_highestDurable s'.1.
Proof.
  induction 1 as [s|[a d] [a1 d1] s' Hstep _ IH]; intros Hinv; [split; [done|lia]|].
  apply ack_step_inv in Hstep as (Hi&?&?); [|done]. destruct (IH Hi) as (?&?&?). cbn in *. split; [done|lia].
Qed.

(** What loading yields. *)
Lemma load_spec ev highest maxInFlight v d :
  (forall op name, e_flt ev op name = false) -> ack_on_disk v d -> 0 <= highest <= MaxInt64 ->
  exists a, LoadAckState ev highest maxInFlight d = ([d], Ok a, d) /\ ack_inv a d
    /\ ak_acknowledgedThrough a = v /\ ak_highestDurable a = Z.max highest v /\ ak_inFlight a = None.
Proof.
  intros Hflt Hv Hh. destruct (readAck_on_disk ev v d Hflt Hv) as (r&E&Hr).
  assert (Hrange : 0 <= v <= MaxInt64) by (destruct Hv as [[_ ->]|[]]; [unfold MaxInt64; lia|done]).
  unfold LoadAckState, io_bind. rewrite E, Hr. eexists. split; [reflexivity|].
  assert (Hmax : (if highest <? v then v else highest) = Z.max highest v) by (destruct (_ <? _) eqn:Ev; bool_to_prop; lia).
  rewrite Hmax. cbn. split_and!; try done. unfold ack_inv, ack_wf, sent_through. cbn. split; [split_and!; try lia; try done|].
  - unfold maxInFlightOrDefault, DefaultMaxInFlightRecords. destruct (_ <=? 0) eqn:Em; bool_to_prop; lia.
  - exists v. split; [done|lia].
Qed.

Lemma run_writeAck ev v d : (forall op name, e_flt ev op name = false) ->
  exists t u d', writeAck ev v d = (t, Ok u, d').
Proof. intros H. by apply run_atomicWriteFile. Qed.

(** ** The properties of the policy *)

(** C6: in every state a process can reach after loading the sidecar, by any interleaving of appends,
    offers and acknowledgements, with writes failing or not: the watermark never went back, it is at
    most the last durable sequence, the outstanding range starts right after it and stays within
    durable data and the bound, and the sidecar reads back as a value between the watermark and the
    end of the outstanding range. *)
Theorem ack_reachable ev highest maxInFlight v d0 t a0 a d :
  (forall op name, e_flt ev op name = false) -> ack_on_disk v d0 -> 0 <= highest <= MaxInt64 ->
  LoadAckState ev highest maxInFlight d0 = (t, Ok a0, d0) -> rtc ack_step (a0, d0) (a, d) ->
  ack_inv a d /\ v <= ak_acknowledgedThrough a /\ ak_highestDurable a0 <= ak_highestDurable a.
Proof.
  intros Hflt Hv Hh Hl Hs. destruct (load_spec ev highest maxInFlight v d0 Hflt Hv Hh) as (a1&E&Hinv&Hack&_&_).
  rewrite E in Hl. injection Hl as _ ->. rewrite <-Hack. by apply (ack_steps_inv (a0, d0) (a, d)).
Qed.

(** One acknowledgement, under any faults. At every crash point the sidecar reads back as the old
    or the new watermark; success means the watermark is the acknowledged sequence, which lies within
    the outstanding range; failure keeps the state. *)
Theorem Acknowledge_spec ev through a v d0 :
  ack_wf a -> ack_on_disk v d0 -> ak_acknowledgedThrough a <= v <= sent_through a ->
  let within d := exists v', ack_on_disk v' d /\ ak_acknowledgedThrough a <= v' <= sent_through a in
  crash_triple (eq d0) (Acknowledge ev through a) within
    (fun a' d => ack_inv a' d /\ ak_acknowledgedThrough a' = through
       /\ ak_acknowledgedThrough a <= through <= sent_through a
       /\ ak_highestDurable a' = ak_highestDurable a)
    within.
Proof. apply acknowledge_spec. Qed.

(** Which acknowledgements are accepted. Without faults exactly those from the watermark to the
    end of the outstanding range; each of the others is refused with its own error and the directory
    untouched; and an accepted one leaves the still-owed remainder in flight. *)
Theorem Acknowledge_accepts ev through a d :
  (forall op name, e_flt ev op name = false) -> ack_wf a ->
  let '(_, r, d') := Acknowledge ev through a d in
  match r with
  | Ok a' =>
      ak_acknowledgedThrough a <= through <= sent_through a
      /\ ak_inFlight a' = (if through =? sent_through a then (if through =? ak_acknowledgedThrough a then ak_inFlight a else None)
                           else Some (mkRange (through + 1) (sent_through a)))
  | Err e =>
      d' = d /\
      ((through < ak_acknowledgedThrough a /\ e = ErrAckBackward through (ak_acknowledgedThrough a))
       \/ (ak_highestDurable a < through /\ e = ErrAckBeyondDurable through (ak_highestDurable a))
       \/ (sent_through a < through <= ak_highestDurable a /\ e = ErrAckBeyondSent through))
  end.
Proof.
  intros Hflt Hwf. pose proof Hwf as (H1&H2&H3&H4). pose proof (sent_through_bounds _ Hwf) as Hs.
  unfold Acknowledge. destruct (through <? _) eqn:E1; bool_to_prop; [cbn; auto|].
  destruct (through =? ak_acknowledgedThrough a) eqn:E2; bool_to_prop.
  { cbn. split; [lia|]. unfold sent_through in *. destruct (ak_inFlight a) as [r|] eqn:Er.
    - rewrite (proj2 (Z.eqb_neq _ _)) by lia. destruct r as [f l]; cbn in *. do 2 f_equal. lia.
    - rewrite E2, Z.eqb_refl. done. }
  destruct (_ <? through) eqn:E3; bool_to_prop; [cbn; auto|].
  unfold sent_through in *. destruct (ak_inFlight a) as [r|]; [|cbn; split; [done|right; right; split; [lia|done]]].
  destruct (LastSequence r <? through) eqn:E4; bool_to_prop; [cbn; split; [done|right; right; split; [lia|done]]|].
  unfold io_bind. destruct (run_writeAck ev through d Hflt) as (t&u&d1&Ew). rewrite Ew. cbn.
  split; [lia|]. destruct (through =? LastSequence r) eqn:E5; bool_to_prop; [done|].
  rewrite i64_id by (unfold in_i64, MaxInt64 in *; lia). done.
Qed.

(** Which ranges may be in flight: the ones that start right after the watermark, are not empty,
    end within durable data, respect the bound and do not conflict with the outstanding one. *)
Theorem SetInFlight_accepts r a a' :
  ack_wf a ->
  SetInFlight r a = Ok a' <->
    a' = mkAckState (ak_acknowledgedThrough a) (ak_highestDurable a) (ak_maxInFlight a) (Some r)
    /\ FirstSequence r = ak_acknowledgedThrough a + 1
    /\ FirstSequence r <= LastSequence r <= ak_highestDurable a
    /\ LastSequence r - FirstSequence r + 1 <= ak_maxInFlight a
    /\ (ak_inFlight a = None \/ ak_inFlight a = Some r).
Proof. intros H. by apply SetInFlight_ok. Qed.

(** ** Witnesses *)

(** Watermark 2, durable through 9, range 3..5 in flight. *)
Definition demo_ack : AckState := mkAckState 2 9 1000 (Some (mkRange 3 5)).
Definition demo_ack_disk : disk := mkDisk {[ ackFilename := EFile (encodeAck 2) ]} None None.

Lemma demo_ack_wf : ack_wf demo_ack.
Proof. unfold ack_wf, MaxInt64; cbn; lia. Qed.

Lemma demo_ack_on_disk : ack_on_disk 2 demo_ack_disk.
Proof. right. split; [unfold MaxInt64; lia|]. apply file_lookup, lookup_singleton_eq. Qed.

Lemma ack_reachable_witness :
  let a0 := mkAckState 2 9 1000 None in
  ack_inv demo_ack demo_ack_disk /\ 2 <= ak_acknowledgedThrough demo_ack
  /\ ak_highestDurable a0 <= ak_highestDurable demo_ack.
Proof.
  intros a0. apply (ack_reachable demo_env 9 0 2 demo_ack_disk [demo_ack_disk] a0 demo_ack demo_ack_disk).
  - reflexivity.
  - exact demo_ack_on_disk.
  - unfold MaxInt64; lia.
  - vm_compute. reflexivity.
  - apply rtc_once. apply (StepInFlight (mkRange 3 5)). vm_compute. reflexivity.
Defined.

Lemma Acknowledge_spec_witness :
  crash_triple (eq demo_ack_disk) (Acknowledge demo_env 4 demo_ack)
    (fun d => exists v', ack_on_disk v' d /\ 2 <= v' <= 5)
    (fun a' d => ack_inv a' d /\ ak_acknowledgedThrough a' = 4 /\ 2 <= 4 <= 5
       /\ ak_highestDurable a' = ak_highestDurable demo_ack)
    (fun d => exists v', ack_on_disk v' d /\ 2 <= v' <= 5).
Proof.
  apply (Acknowledge_spec demo_env 4 demo_ack 2 demo_ack_disk); [exact demo_ack_wf|exact demo_ack_on_disk|cbn; lia].
Defined.

Lemma Acknowledge_accepts_witness :
  let '(_, r, d') := Acknowledge demo_env 4 demo_ack demo_ack_disk in
  match r with
  | Ok a' => 2 <= 4 <= 5 /\ ak_inFlight a' = Some (mkRange 5 5)
  | Err e =>
      d' = demo_ack_disk /\
      ((4 < 2 /\ e = ErrAckBackward 4 2)
       \/ (9 < 4 /\ e = ErrAckBeyondDurable 4 9)
       \/ (5 < 4 <= 9 /\ e = ErrAckBeyondSent 4))
  end.
Proof. apply (Acknowledge_accepts demo_env 4 demo_ack demo_ack_disk); [reflexivity|exact demo_ack_wf]. Defined.

Lemma SetInFlight_accepts_witness :
  SetInFlight (mkRange 3 5) demo_ack = Ok demo_ack <->
    demo_ack = mkAckState 2 9 1000 (Some (mkRange 3 5))
    /\ 3 = 2 + 1 /\ 3 <= 5 <= 9 /\ 5 - 3 + 1 <= 1000
    /\ (ak_inFlight demo_ack = None \/ ak_inFlight demo_ack = Some (mkRange 3 5)).
Proof. apply (SetInFlight_accepts (mkRange 3 5) demo_ack demo_ack demo_ack_wf). Defined.
