(* ===== verification/GoTime.v ===== *)
(** * RFC 3339 timestamps as Go reads and writes them ([time.Time.UnmarshalJSON], [MarshalJSON])

    A time is its civil fields and its zone offset in minutes. [parseRFC3339] is
    [time.Parse(time.RFC3339, s)], which [UnmarshalJSON] relaxes to (a one-digit hour, a comma before
    the fraction and offsets up to 24:60 are accepted); [formatRFC3339] is [MarshalJSON]'s
    [RFC3339Nano] text. The wire types normalise every timestamp this way before it is hashed. *)

From S2P Require Import Prelude GoStrings.

Record gotime := {
  t_year : Z; t_month : Z; t_day : Z; t_hour : Z; t_min : Z; t_sec : Z; t_nsec : Z;
  t_off : Z  (** minutes east of UTC *)
}.

#[export] Instance gotime_eq_dec : EqDecision gotime.
Proof. solve_decision. Defined.

(** [time.Time{}]. *)
Definition zero_time : gotime := Build_gotime 1 1 1 0 0 0 0 0.

Definition leap (y : Z) : bool := (y mod 4 =? 0) && (negb (y mod 100 =? 0) || (y mod 400 =? 0)).

Definition daysIn (m y : Z) : Z :=
  if m =? 2 then (if leap y then 29 else 28)
  else if (m =? 4) || (m =? 6) || (m =? 9) || (m =? 11) then 30 else 31.

(** ** Parsing *)

Definition expect (c : byte) (s : bytes) : option bytes :=
  match s with b :: r => if bool_decide (b = c) then Some r else None | [] => None end.

(** [getnum]: two digits, or one when not [fixed]. *)
Definition getnum (fixed : bool) (s : bytes) : option (Z * bytes) :=
  match s with
  | a :: r =>
      if is_digit a then
        match r with
        | b :: r' =>
            if is_digit b then Some ((bZ a - 48) * 10 + (bZ b - 48), r')
            else if fixed then None else Some (bZ a - 48, r)
        | [] => if fixed then None else Some (bZ a - 48, r)
        end
      else None
  | [] => None
  end.

Definition in_bounds (lo hi : Z) (p : option (Z * bytes)) : option (Z * bytes) :=
  '(v, r) ← p; if (lo <=? v) && (v <=? hi) then Some (v, r) else None.

Definition getyear (s : bytes) : option (Z * bytes) :=
  if (4 <=? zlen s) && forallb is_digit (take 4 s) then Some (dec_val (take 4 s), drop 4 s) else None.

Fixpoint digits_of (s : bytes) : bytes :=
  match s with b :: r => if is_digit b then b :: digits_of r else [] | [] => [] end.

(** [parseNanoseconds] of the digits after the separator: nine at most count. *)
Definition nanos (ds : bytes) : Z := let ds := take 9 ds in dec_val ds * 10 ^ (9 - zlen ds).

(** The optional fraction after the seconds. *)
Definition getfrac (s : bytes) : Z * bytes :=
  match s with
  | c :: d :: r =>
      if (bool_decide (c = x2e) || bool_decide (c = x2c)) && is_digit d
      then let ds := digits_of (d :: r) in (nanos ds, drop (length ds) (d :: r))
      else (0, s)
  | _ => (0, s)
  end.

(** [Z07:00]: the offset in minutes. *)
Definition getzone (s : bytes) : option (Z * bytes) :=
  match s with
  | c :: r =>
      if bool_decide (c = x5a) then Some (0, r)
      else
        match r with
        | h1 :: h2 :: col :: m1 :: m2 :: r' =>
            if bool_decide (col = x3a) then
              '(hr, _) ← in_bounds 0 24 (getnum true [h1; h2]);
              '(mm, _) ← in_bounds 0 60 (getnum true [m1; m2]);
              if bool_decide (c = x2b) then Some (hr * 60 + mm, r')
              else if bool_decide (c = x2d) then Some (- (hr * 60 + mm), r')
              else None
            else None
        | _ => None
        end
  | [] => None
  end.

(** [time.Parse(time.RFC3339, s)]. *)
Definition parseRFC3339 (s : bytes) : option gotime :=
  '(y, s) ← getyear s; s ← expect x2d s;
  '(mo, s) ← in_bounds 1 12 (getnum true s); s ← expect x2d s;
  '(d, s) ← getnum true s; s ← expect x54 s;
  '(h, s) ← in_bounds 0 23 (getnum false s); s ← expect x3a s;
  '(mi, s) ← in_bounds 0 59 (getnum true s); s ← expect x3a s;
  '(sc, s) ← in_bounds 0 59 (getnum true s);
  let '(ns, s) := getfrac s in
  '(off, s) ← getzone s;
  if bool_decide (s = []) && (1 <=? d) && (d <=? daysIn mo y)
  then Some (Build_gotime y mo d h mi sc ns off) else None.

(** ** Formatting *)

Fixpoint trim_zeros (s : bytes) : bytes :=
  match s with
  | b :: r => match trim_zeros r with
              | [] => if bool_decide (b = x30) then [] else [b]
              | r' => b :: r'
              end
  | [] => []
  end.

(** [appendNano] of [.999999999]: nothing for a whole second. *)
Definition format_frac (ns : Z) : bytes :=
  match trim_zeros (dec_pad 9 ns) with [] => [] | ds => x2e :: ds end.

Definition format_zone (off : Z) : bytes :=
  if off =? 0 then [x5a]
  else (if off <? 0 then x2d else x2b) :: dec_pad 2 (Z.abs off / 60) ++ x3a :: dec_pad 2 (Z.abs off mod 60).

(** [Time.MarshalJSON] without its quotes: a year of more than four digits or an offset of 24 hours or
    more is refused. *)
Definition formatRFC3339 (t : gotime) : option bytes :=
  if (t_year t <? 0) || (9999 <? t_year t) || (24 * 60 <=? Z.abs (t_off t)) then None
  else Some (dec_pad 4 (t_year t) ++ x2d :: dec_pad 2 (t_month t) ++ x2d :: dec_pad 2 (t_day t) ++
             x54 :: dec_pad 2 (t_hour t) ++ x3a :: dec_pad 2 (t_min t) ++ x3a :: dec_pad 2 (t_sec t) ++
             format_frac (t_nsec t) ++ format_zone (t_off t)).

(** ** Instants *)

(** The days from 0001-01-01 to a civil date. *)
Definition days_before (y m d : Z) : Z :=
  let p := y - 1 in
  365 * p + p / 4 - p / 100 + p / 400 + foldr (fun k acc => daysIn k y + acc) 0 (seqZ 1 (m - 1)) + (d - 1).

(** Seconds since 0001-01-01T00:00:00Z. *)
Definition instant (t : gotime) : Z :=
  days_before (t_year t) (t_month t) (t_day t) * 86400 + t_hour t * 3600 + t_min t * 60 + t_sec t - t_off t * 60.

(** [Time.IsZero]. *)
Definition IsZero (t : gotime) : bool := (instant t =? 0) && (t_nsec t =? 0).

Example instant_unix : instant (Build_gotime 1970 1 1 0 0 0 0 0) = 62135596800.
Proof. reflexivity. Qed.

Example IsZero_zone : IsZero zero_time = true /\ IsZero (Build_gotime 1 1 1 1 0 0 0 60) = true /\ IsZero (Build_gotime 0 12 31 23 0 0 0 (-60)) = true.
Proof. split_and!; reflexivity. Qed.

(** ** The parser's range *)

Definition wf_time (t : gotime) : Prop :=
  0 <= t_year t <= 9999 /\ 1 <= t_month t <= 12 /\ 1 <= t_day t <= daysIn (t_month t) (t_year t) /\
  0 <= t_hour t <= 23 /\ 0 <= t_min t <= 59 /\ 0 <= t_sec t <= 59 /\ 0 <= t_nsec t < 10 ^ 9 /\
  Z.abs (t_off t) <= 24 * 60 + 60.

Lemma dec_val_app a b : dec_val (a ++ b) = dec_val a * 10 ^ zlen b + dec_val b.
Proof.
  induction b as [|c b IH] using rev_ind.
  - rewrite app_nil_r. change (zlen (@nil byte)) with 0. change (dec_val []) with 0. lia.
  - rewrite app_assoc, !dec_val_snoc, IH, zlen_app. change (zlen [c]) with 1.
    rewrite Z.pow_add_r by (pose proof (zlen_nonneg b); lia). lia.
Qed.

Lemma dec_val_range ds : forallb is_digit ds = true -> 0 <= dec_val ds < 10 ^ zlen ds.
Proof.
  induction ds as [|b ds IH] using rev_ind; [intros _; change (0 <= 0 < 1); lia|].
  rewrite forallb_app, andb_true_iff. intros [Hd Hb]. specialize (IH Hd). cbn in Hb. rewrite andb_true_r in Hb.
  unfold is_digit in Hb. bool_to_prop. rewrite dec_val_snoc, zlen_app. change (zlen [b]) with 1.
  rewrite Z.pow_add_r by (pose proof (zlen_nonneg ds); lia). lia.
Qed.

Lemma digits_of_digits s : forallb is_digit (digits_of s) = true.
Proof. induction s as [|b r IH]; cbn; [done|]. destruct (is_digit b) eqn:E; cbn; [by rewrite E|done]. Qed.

Lemma digits_of_app ds r :
  forallb is_digit ds = true -> match r with [] => True | b :: _ => is_digit b = false end -> digits_of (ds ++ r) = ds.
Proof.
  intros Hd Hr. induction ds as [|b ds IH]; cbn.
  - destruct r as [|b r]; cbn; [done|]. by rewrite Hr.
  - cbn in Hd. apply andb_prop in Hd as [-> Hd]. by rewrite IH.
Qed.

Lemma forallb_take {A} (f : A -> bool) n l : forallb f l = true -> forallb f (take n l) = true.
Proof.
  revert n. induction l as [|x l IH]; intros [|n] H; [done..|]. cbn in *. apply andb_prop in H as [-> H]. by apply IH.
Qed.

Lemma nanos_range ds : forallb is_digit ds = true -> 0 <= nanos ds < 10 ^ 9.
Proof.
  intros H. unfold nanos. pose proof (dec_val_range _ (forallb_take is_digit 9 _ H)) as [H0 H1].
  assert (Hl : 0 <= zlen (take 9 ds) <= 9) by len. cbv zeta.
  assert (Hp : 0 < 10 ^ (9 - zlen (take 9 ds))) by (apply Z.pow_pos_nonneg; lia). split; [lia|].
  assert (Hs : 10 ^ 9 = 10 ^ zlen (take 9 ds) * 10 ^ (9 - zlen (take 9 ds))) by (rewrite <-Z.pow_add_r by lia; f_equal; lia).
  rewrite Hs. nia.
Qed.

Lemma getfrac_range s ns r : getfrac s = (ns, r) -> 0 <= ns < 10 ^ 9.
Proof.
  destruct s as [|c [|d s]]; [intros [= <- <-]; lia..|]. cbn [getfrac]. case_match; [|intros [= <- <-]; lia].
  cbv zeta. intros [= <- _]. exact (nanos_range _ (digits_of_digits (d :: s))).
Qed.

Lemma getnum_range f s v r : getnum f s = Some (v, r) -> 0 <= v <= 99.
Proof.
  unfold getnum, is_digit. destruct s as [|a [|b s]]; [done|..]; repeat case_match; intros [= <- <-]; bool_to_prop; lia.
Qed.

Lemma in_bounds_Some lo hi p v r : in_bounds lo hi p = Some (v, r) -> lo <= v <= hi /\ p = Some (v, r).
Proof. unfold in_bounds. destruct p as [[v' r']|]; cbn; [|done]. case_match; [|done]. intros [= -> ->]. bool_to_prop. auto. Qed.

Lemma getzone_range s v r : getzone s = Some (v, r) -> Z.abs v <= 24 * 60 + 60.
Proof.
  unfold getzone. destruct s as [|c [|h1 [|h2 [|col [|m1 [|m2 s]]]]]]; try done; case_match; try done;
    try (intros [= <- <-]; lia).
  case_match; [|done]. destruct (in_bounds 0 24 _) as [[hr ?]|] eqn:E1; [|done].
  apply in_bounds_Some in E1 as [? _]. cbn [mbind option_bind].
  destruct (in_bounds 0 60 _) as [[mm ?]|] eqn:E2; [|done].
  apply in_bounds_Some in E2 as [? _]. cbn [mbind option_bind].
  case_match; [intros [= <- <-]; lia|]. case_match; [intros [= <- <-]; lia|done].
Qed.

Lemma parseRFC3339_wf s t : parseRFC3339 s = Some t -> wf_time t.
Proof.
  unfold parseRFC3339. intros H.
  apply bind_Some in H as ([y s1]&Hy&H). apply bind_Some in H as (s2&_&H).
  apply bind_Some in H as ([mo s3]&[Hmo _]%in_bounds_Some&H). apply bind_Some in H as (s4&_&H).
  apply bind_Some in H as ([d s5]&_&H). apply bind_Some in H as (s6&_&H).
  apply bind_Some in H as ([h s7]&[Hh _]%in_bounds_Some&H). apply bind_Some in H as (s8&_&H).
  apply bind_Some in H as ([mi s9]&[Hmi _]%in_bounds_Some&H). apply bind_Some in H as (s10&_&H).
  apply bind_Some in H as ([sc s11]&[Hsc _]%in_bounds_Some&H).
  destruct (getfrac s11) as [ns s12] eqn:Hf. apply bind_Some in H as ([off s13]&Hz&H).
  apply getzone_range in Hz. case_match eqn:Hd; [|done]. injection H as <-. bool_to_prop.
  apply getfrac_range in Hf.
  assert (0 <= y <= 9999).
  { unfold getyear in Hy. case_match eqn:E; [|done]. injection Hy as <- _. bool_to_prop.
    pose proof (dec_val_range (take 4 s) ltac:(done)) as Hv.
    replace (zlen (take 4 s)) with 4 in Hv by len. lia. }
  unfold wf_time. cbn [t_year t_month t_day t_hour t_min t_sec t_nsec t_off]. split_and!; lia.
Qed.

(** ** Formatting parses back *)

Lemma expect_app c r : expect c (c :: r) = Some r.
Proof. cbn. by rewrite bool_decide_eq_true_2. Qed.

Lemma getnum_pad f v r : 0 <= v <= 99 -> getnum f (dec_pad 2 v ++ r) = Some (v, r).
Proof.
  intros Hv. cbn [dec_pad app getnum].
  assert (0 <= v / 10 mod 10 < 10) by (apply Z.mod_pos_bound; lia).
  assert (0 <= v mod 10 < 10) by (apply Z.mod_pos_bound; lia).
  rewrite !is_digit_digit, !bZ_digit by done. f_equal. f_equal.
  rewrite (Z.mod_small (v / 10)) by (split; [apply Z.div_pos|apply Z.div_lt_upper_bound]; lia).
  pose proof (Z.div_mod v 10 ltac:(lia)). lia.
Qed.

Lemma in_bounds_pad f lo hi v r :
  0 <= v <= 99 -> lo <= v <= hi -> in_bounds lo hi (getnum f (dec_pad 2 v ++ r)) = Some (v, r).
Proof. intros. rewrite getnum_pad by done. cbn. rewrite (proj2 (Z.leb_le lo v)), (proj2 (Z.leb_le v hi)) by lia. done. Qed.

Lemma getyear_pad v r : 0 <= v <= 9999 -> getyear (dec_pad 4 v ++ r) = Some (v, r).
Proof.
  intros Hv. unfold getyear. rewrite take_app_le, drop_app_le by len.
  rewrite firstn_all2, drop_ge by len. rewrite dec_pad_digits, dec_val_pad by (cbn; lia).
  rewrite (proj2 (Z.leb_le _ _)) by len. done.
Qed.

Lemma trim_zeros_spec s : exists k, s = trim_zeros s ++ replicate k x30.
Proof.
  induction s as [|b s [k IH]]; [by exists O|]. cbn [trim_zeros].
  destruct (trim_zeros s) as [|c r] eqn:E.
  - cbn [app] in IH. case_bool_decide as Hb.
    + subst b. exists (S k). cbn. by rewrite <-IH.
    + exists k. cbn. by rewrite <-IH.
  - exists k. rewrite <-app_comm_cons. by f_equal.
Qed.

Lemma trim_zeros_digits s : forallb is_digit s = true -> forallb is_digit (trim_zeros s) = true.
Proof. intros H. destruct (trim_zeros_spec s) as [k Hk]. rewrite Hk, forallb_app in H. by apply andb_prop in H as [? _]. Qed.

Lemma dec_val_zeros k : dec_val (replicate k x30) = 0.
Proof. induction k as [|k IH]; [done|]. rewrite replicate_S_end, dec_val_snoc, IH. change (bZ x30) with 48. lia. Qed.

Lemma nanos_trim ns : 0 <= ns < 10 ^ 9 -> nanos (trim_zeros (dec_pad 9 ns)) = ns.
Proof.
  intros H. destruct (trim_zeros_spec (dec_pad 9 ns)) as [k Hk].
  assert (Hl : (length (trim_zeros (dec_pad 9 ns)) + k = 9)%nat).
  { apply (f_equal length) in Hk. rewrite length_app, length_replicate, length_dec_pad in Hk. lia. }
  unfold nanos. rewrite firstn_all2 by lia. cbv zeta.
  assert (Hv : dec_val (dec_pad 9 ns) = ns) by (apply dec_val_pad; cbn; lia).
  rewrite Hk, dec_val_app, dec_val_zeros in Hv. unfold zlen in *. rewrite length_replicate in Hv.
  replace (9 - Z.of_nat (length (trim_zeros (dec_pad 9 ns)))) with (Z.of_nat k) by lia. lia.
Qed.

Lemma format_zone_head off : exists c r, format_zone off = c :: r /\ is_digit c = false /\ c <> x2e /\ c <> x2c.
Proof. unfold format_zone. destruct (off =? 0); [|destruct (off <? 0)]; eexists _, _; done. Qed.

Lemma getfrac_format ns off : 0 <= ns < 10 ^ 9 -> getfrac (format_frac ns ++ format_zone off) = (ns, format_zone off).
Proof.
  intros H. destruct (format_zone_head off) as (c & r & Hz & Hc & Hd & Hm). unfold format_frac.
  pose proof (nanos_trim ns H) as Hn. pose proof (trim_zeros_digits _ (dec_pad_digits 9 ns)) as Hds.
  destruct (trim_zeros (dec_pad 9 ns)) as [|d ds].
  - change (nanos []) with 0 in Hn. rewrite <-Hn. cbn [app]. rewrite Hz. cbn [getfrac].
    destruct r as [|b r]; [done|].
    rewrite bool_decide_eq_false_2, bool_decide_eq_false_2 by done. done.
  - cbn [app getfrac]. pose proof Hds as Hds'. cbn in Hds'. apply andb_prop in Hds' as [Hd' _].
    rewrite bool_decide_eq_true_2, Hd' by done. cbn [orb andb].
    rewrite (app_comm_cons ds (format_zone off) d).
    rewrite digits_of_app by (first [done|rewrite Hz; done]). rewrite Hn. by rewrite drop_app_length.
Qed.

Lemma getzone_format off : Z.abs off < 24 * 60 -> getzone (format_zone off) = Some (off, []).
Proof.
  intros H. unfold format_zone. destruct (Z.eqb_spec off 0) as [->|Hn]; [done|].
  assert (Hh : 0 <= Z.abs off / 60 <= 24).
  { split; [apply Z.div_pos; lia|]. assert (Z.abs off / 60 < 24) by (apply Z.div_lt_upper_bound; lia). lia. }
  assert (Hm : 0 <= Z.abs off mod 60 <= 60) by (pose proof (Z.mod_pos_bound (Z.abs off) 60 ltac:(lia)); lia).
  pose proof (in_bounds_pad true 0 24 (Z.abs off / 60) [] ltac:(lia) Hh) as E1.
  pose proof (in_bounds_pad true 0 60 (Z.abs off mod 60) [] ltac:(lia) Hm) as E2.
  pose proof (Z.div_mod (Z.abs off) 60 ltac:(lia)) as Hdm.
  cbn [dec_pad app] in E1, E2 |- *. destruct (off <? 0) eqn:Hs; unfold getzone; cbv iota beta;
    rewrite bool_decide_eq_false_2 by done; rewrite bool_decide_eq_true_2 by done;
    rewrite E1; cbn [mbind option_bind]; rewrite E2; cbn [mbind option_bind]; bool_to_prop;
    (rewrite bool_decide_eq_false_2 by done; rewrite bool_decide_eq_true_2 by done)
    || rewrite bool_decide_eq_true_2 by done; f_equal; f_equal; lia.
Qed.

Lemma parse_format t s : wf_time t -> formatRFC3339 t = Some s -> parseRFC3339 s = Some t.
Proof.
  destruct t as [y mo d h mi sc ns off]. unfold wf_time, formatRFC3339.
  cbn [t_year t_month t_day t_hour t_min t_sec t_nsec t_off]. intros (Hy&Hmo&Hd&Hh&Hmi&Hsc&Hns&_).
  destruct (_ || _) eqn:Ho; [done|]. apply orb_false_iff in Ho as [_ Ho]. bool_to_prop. intros Hs. apply (inj Some) in Hs. subst s.
  assert (Hd' : daysIn mo y <= 31) by (unfold daysIn; repeat case_match; lia).
  unfold parseRFC3339. rewrite getyear_pad by done. cbn [mbind option_bind]. rewrite expect_app. cbn [mbind option_bind].
  rewrite in_bounds_pad by lia. cbn [mbind option_bind]. rewrite expect_app. cbn [mbind option_bind].
  rewrite getnum_pad by lia. cbn [mbind option_bind]. rewrite expect_app. cbn [mbind option_bind].
  rewrite in_bounds_pad by lia. cbn [mbind option_bind]. rewrite expect_app. cbn [mbind option_bind].
  rewrite in_bounds_pad by lia. cbn [mbind option_bind]. rewrite expect_app. cbn [mbind option_bind].
  rewrite in_bounds_pad by lia. cbn [mbind option_bind]. rewrite getfrac_format by done.
  rewrite getzone_format by done. cbn [mbind option_bind].
  rewrite bool_decide_eq_true_2, (proj2 (Z.leb_le 1 d)), (proj2 (Z.leb_le d _)) by (done || lia). done.
Qed.
