(* ===== verification/Json.v ===== *)
(** * Canonical JSON ([internal/observer/wire/canonical.go])

    JSON values as [encoding/json] decodes them with [UseNumber] (numbers verbatim, objects as maps),
    a decoder for one value, and [writeCanonical]. Strings are byte lists; the decoder coerces them to
    valid UTF-8 as [encoding/json] does. The theorems: parsing what [writeCanonical] wrote gives the
    value back (with its members sorted), so the canonical form is injective and idempotent and does
    not depend on the order of members. *)

From S2P Require Import Prelude GoStrings.

#[warnings="-register-all"]
Inductive json : Type :=
| JNull
| JBool (b : bool)
| JNum (lit : bytes)
| JStr (s : bytes)
| JArr (l : list json)
| JObj (m : list (bytes * json)).

(** ** UTF-8 ([unicode/utf8.DecodeRune]) *)

Definition in_range (lo hi : Z) (b : byte) : bool := (lo <=? bZ b) && (bZ b <=? hi).
Definition is_cont (b : byte) : bool := in_range 0x80 0xBF b.

(** The size of the valid multi-byte rune the bytes start with; [None] for an invalid first byte. *)
Definition rune_size (s : bytes) : option nat :=
  match s with
  | b0 :: b1 :: t =>
      if in_range 0xC2 0xDF b0 then (if is_cont b1 then Some 2%nat else None)
      else
        match t with
        | b2 :: t' =>
            if (in_range 0xE0 0xE0 b0 && in_range 0xA0 0xBF b1
                || in_range 0xE1 0xEC b0 && is_cont b1
                || in_range 0xED 0xED b0 && in_range 0x80 0x9F b1
                || in_range 0xEE 0xEF b0 && is_cont b1) && is_cont b2
            then Some 3%nat
            else
              match t' with
              | b3 :: _ =>
                  if (in_range 0xF0 0xF0 b0 && in_range 0x90 0xBF b1
                      || in_range 0xF1 0xF3 b0 && is_cont b1
                      || in_range 0xF4 0xF4 b0 && in_range 0x80 0x8F b1) && is_cont b2 && is_cont b3
                  then Some 4%nat
                  else None
              | [] => None
              end
        | [] => None
        end
  | _ => None
  end.

Definition is_ascii (b : byte) : bool := bZ b <? 0x80.

(** U+2028 and U+2029. *)
Definition is_line_sep (r : bytes) : bool :=
  bool_decide (r = [xe2; x80; xa8]) || bool_decide (r = [xe2; x80; xa9]).

(** U+FFFD. *)
Definition replacement : bytes := [xef; xbf; xbd].

(** ** Strings *)

Definition hex_digit (z : Z) : byte := if z <? 10 then Zb (48 + z) else Zb (87 + z).

(** [encoding/json]'s escape of one ASCII byte, HTML escaping off. *)
Definition escape_ascii (b : byte) : bytes :=
  if bool_decide (b = x22) || bool_decide (b = x5c) then [x5c; b]
  else if bool_decide (b = x08) then [x5c; x62]
  else if bool_decide (b = x0c) then [x5c; x66]
  else if bool_decide (b = x0a) then [x5c; x6e]
  else if bool_decide (b = x0d) then [x5c; x72]
  else if bool_decide (b = x09) then [x5c; x74]
  else if bZ b <? 0x20 then [x5c; x75; x30; x30; hex_digit (bZ b / 16); hex_digit (bZ b mod 16)]
  else [b].

(** The body of an encoded string, given the escape of ASCII bytes. Invalid UTF-8 becomes [\ufffd]. *)
Fixpoint escape_with (escape : byte -> bytes) (fuel : nat) (s : bytes) : bytes :=
  match fuel, s with
  | S fuel', b :: r =>
      if is_ascii b then escape b ++ escape_with escape fuel' r
      else match rune_size s with
           | Some n =>
               (if is_line_sep (take n s)
                then [x5c; x75; x32; x30; x32; hex_digit (bZ (nth 2 s x00) - 0xA0)]
                else take n s) ++ escape_with escape fuel' (drop n s)
           | None => [x5c; x75; x66; x66; x66; x64] ++ escape_with escape fuel' r
           end
  | _, _ => []
  end.

Abbreviation escape_body := (escape_with escape_ascii).

(** [writeCanonicalString]. *)
Definition writeCanonicalString (s : bytes) : bytes := [x22] ++ escape_body (length s) s ++ [x22].

(** The members in the order [sort.Strings] puts their keys in. *)
Fixpoint insert_field {A} (f : bytes * A) (l : list (bytes * A)) : list (bytes * A) :=
  match l with
  | [] => [f]
  | g :: r => if bytes_leb f.1 g.1 then f :: l else g :: insert_field f r
  end.

Definition sort_fields {A} (l : list (bytes * A)) : list (bytes * A) := foldr insert_field [] l.

Definition commas (l : list bytes) : bytes :=
  match l with [] => [] | x :: r => x ++ concat ((fun y => x2c :: y) <$> r) end.

Fixpoint writeCanonical (v : json) : bytes :=
  match v with
  | JNull => str "null"
  | JBool true => str "true"
  | JBool false => str "false"
  | JNum lit => lit
  | JStr s => writeCanonicalString s
  | JArr l => [x5b] ++ commas (map writeCanonical l) ++ [x5d]
  | JObj m =>
      [x7b]
      ++ commas ((fun kv => writeCanonicalString kv.1 ++ [x3a] ++ kv.2)
                   <$> sort_fields (map (fun kv => (kv.1, writeCanonical kv.2)) m))
      ++ [x7d]
  end.

(** ** The decoder *)

Definition is_space (b : byte) : bool :=
  bool_decide (b = x20) || bool_decide (b = x09) || bool_decide (b = x0a) || bool_decide (b = x0d).

Fixpoint skip_ws (s : bytes) : bytes :=
  match s with b :: r => if is_space b then skip_ws r else s | [] => [] end.

Definition hex_val (b : byte) : option Z :=
  if in_range 48 57 b then Some (bZ b - 48)
  else if in_range 97 102 b then Some (bZ b - 87)
  else if in_range 65 70 b then Some (bZ b - 55)
  else None.

(** [getu4]: four hex digits. *)
Definition hex4 (s : bytes) : option (Z * bytes) :=
  match s with
  | a :: b :: c :: d :: r =>
      match hex_val a, hex_val b, hex_val c, hex_val d with
      | Some a, Some b, Some c, Some d => Some (((a * 16 + b) * 16 + c) * 16 + d, r)
      | _, _, _, _ => None
      end
  | _ => None
  end.

(** [utf8.EncodeRune]; surrogates become U+FFFD. *)
Definition encode_rune (r : Z) : bytes :=
  if r <? 0x80 then [Zb r]
  else if r <? 0x800 then [Zb (0xC0 + Z.shiftr r 6); Zb (0x80 + Z.land r 63)]
  else if (0xD800 <=? r) && (r <? 0xE000) then replacement
  else if r <? 0x10000 then
    [Zb (0xE0 + Z.shiftr r 12); Zb (0x80 + Z.land (Z.shiftr r 6) 63); Zb (0x80 + Z.land r 63)]
  else if r <=? 0x10FFFF then
    [Zb (0xF0 + Z.shiftr r 18); Zb (0x80 + Z.land (Z.shiftr r 12) 63);
     Zb (0x80 + Z.land (Z.shiftr r 6) 63); Zb (0x80 + Z.land r 63)]
  else replacement.

(** A [\u] escape, a low surrogate pair included. *)
Definition unescape_u (s : bytes) : option (bytes * bytes) :=
  match hex4 s with
  | None => None
  | Some (r, rest) =>
      if (0xD800 <=? r) && (r <? 0xDC00) then
        match rest with
        | b1 :: b2 :: rest1 =>
            match (if bool_decide (b1 = x5c) && bool_decide (b2 = x75) then hex4 rest1 else None) with
            | Some (r2, rest2) =>
                if (0xDC00 <=? r2) && (r2 <? 0xE000)
                then Some (encode_rune (0x10000 + (r - 0xD800) * 1024 + (r2 - 0xDC00)), rest2)
                else Some (replacement, rest)
            | None => Some (replacement, rest)
            end
        | _ => Some (replacement, rest)
        end
      else Some (encode_rune r, rest)
  end.

Definition unescape_simple (b : byte) : option byte :=
  if bool_decide (b = x22) || bool_decide (b = x5c) || bool_decide (b = x2f) then Some b
  else if bool_decide (b = x62) then Some x08
  else if bool_decide (b = x66) then Some x0c
  else if bool_decide (b = x6e) then Some x0a
  else if bool_decide (b = x72) then Some x0d
  else if bool_decide (b = x74) then Some x09
  else None.

(** The rest of a string literal after its opening quote: the decoded bytes and what follows. *)
Fixpoint parse_string (fuel : nat) (s : bytes) : option (bytes * bytes) :=
  match fuel with
  | O => None
  | S fuel' =>
      match s with
      | [] => None
      | b :: r =>
          if bool_decide (b = x22) then Some ([], r)
          else if bool_decide (b = x5c) then
            match r with
            | [] => None
            | e :: r' =>
                if bool_decide (e = x75)
                then '(c, r2) ← unescape_u r'; '(t, r3) ← parse_string fuel' r2; Some (c ++ t, r3)
                else c ← unescape_simple e; '(t, r3) ← parse_string fuel' r'; Some (c :: t, r3)
            end
          else if bZ b <? 0x20 then None
          else if is_ascii b then '(t, r3) ← parse_string fuel' r; Some (b :: t, r3)
          else match rune_size s with
               | Some n => '(t, r3) ← parse_string fuel' (drop n s); Some (take n s ++ t, r3)
               | None => '(t, r3) ← parse_string fuel' r; Some (replacement ++ t, r3)
               end
      end
  end.

Fixpoint span_digits (s : bytes) : bytes * bytes :=
  match s with
  | b :: r => if is_digit b then let '(d, t) := span_digits r in (b :: d, t) else ([], s)
  | [] => ([], [])
  end.

(** A non-empty run of digits. *)
Definition digits1 (s : bytes) : option (bytes * bytes) :=
  match span_digits s with ([], _) => None | p => Some p end.

Definition parse_int (s : bytes) : option (bytes * bytes) :=
  match s with
  | b :: r => if bool_decide (b = x30) then Some ([x30], r) else digits1 s
  | [] => None
  end.

Definition parse_frac (s : bytes) : option (bytes * bytes) :=
  match s with
  | b :: r => if bool_decide (b = x2e) then '(d, t) ← digits1 r; Some (x2e :: d, t) else Some ([], s)
  | [] => Some ([], [])
  end.

Definition parse_exp (s : bytes) : option (bytes * bytes) :=
  match s with
  | b :: r =>
      if bool_decide (b = x65) || bool_decide (b = x45) then
        match r with
        | c :: r' =>
            if bool_decide (c = x2b) || bool_decide (c = x2d)
            then '(d, t) ← digits1 r'; Some (b :: c :: d, t)
            else '(d, t) ← digits1 r; Some (b :: d, t)
        | [] => None
        end
      else Some ([], s)
  | [] => Some ([], [])
  end.

(** A number, kept verbatim. *)
Definition parse_number (s : bytes) : option (bytes * bytes) :=
  let '(sign, s1) := match s with
                     | b :: r => if bool_decide (b = x2d) then ([b], r) else ([], s)
                     | [] => ([], [])
                     end in
  '(i, s2) ← parse_int s1; '(f, s3) ← parse_frac s2; '(e, s4) ← parse_exp s3;
  Some (sign ++ i ++ f ++ e, s4).

(** [m[k] = v] on a decoded object. *)
Fixpoint assoc_set (k : bytes) (v : json) (m : list (bytes * json)) : list (bytes * json) :=
  match m with
  | [] => [(k, v)]
  | (k', v') :: r => if bool_decide (k' = k) then (k, v) :: r else (k', v') :: assoc_set k v r
  end.

Definition strip (p : bytes) (s : bytes) : option bytes :=
  if bool_decide (take (length p) s = p) then Some (drop (length p) s) else None.

(** One value, its elements or its members; the fuel bounds the tokens read. [add] is what a member
    does to the ones before it: [assoc_set] for a map, [add_member] for a reader that sees each. *)
Section Parser.
Variable add : bytes -> json -> list (bytes * json) -> list (bytes * json).

Fixpoint parse_value (fuel : nat) (s : bytes) : option (json * bytes) :=
  match fuel with
  | O => None
  | S fuel' =>
      match skip_ws s with
      | [] => None
      | b :: r =>
          if bool_decide (b = x22) then '(t, r2) ← parse_string (length r) r; Some (JStr t, r2)
          else if bool_decide (b = x5b) then
            match skip_ws r with
            | c :: r2 => if bool_decide (c = x5d) then Some (JArr [], r2)
                         else '(l, r3) ← parse_elems fuel' r; Some (JArr l, r3)
            | [] => None
            end
          else if bool_decide (b = x7b) then
            match skip_ws r with
            | c :: r2 => if bool_decide (c = x7d) then Some (JObj [], r2)
                         else '(m, r3) ← parse_members fuel' [] r; Some (JObj m, r3)
            | [] => None
            end
          else if bool_decide (b = x6e) then r2 ← strip (str "null") (b :: r); Some (JNull, r2)
          else if bool_decide (b = x74) then r2 ← strip (str "true") (b :: r); Some (JBool true, r2)
          else if bool_decide (b = x66) then r2 ← strip (str "false") (b :: r); Some (JBool false, r2)
          else '(lit, r2) ← parse_number (b :: r); Some (JNum lit, r2)
      end
  end
with parse_elems (fuel : nat) (s : bytes) : option (list json * bytes) :=
  match fuel with
  | O => None
  | S fuel' =>
      '(v, r) ← parse_value fuel' s;
      match skip_ws r with
      | c :: r2 =>
          if bool_decide (c = x2c) then '(l, r3) ← parse_elems fuel' r2; Some (v :: l, r3)
          else if bool_decide (c = x5d) then Some ([v], r2)
          else None
      | [] => None
      end
  end
with parse_members (fuel : nat) (acc : list (bytes * json)) (s : bytes) : option (list (bytes * json) * bytes) :=
  match fuel with
  | O => None
  | S fuel' =>
      match skip_ws s with
      | q :: r =>
          if bool_decide (q = x22) then
            '(k, r2) ← parse_string (length r) r;
            match skip_ws r2 with
            | c :: r3 =>
                if bool_decide (c = x3a) then
                  '(v, r4) ← parse_value fuel' r3;
                  let acc := add k v acc in
                  match skip_ws r4 with
                  | d :: r5 =>
                      if bool_decide (d = x2c) then parse_members fuel' acc r5
                      else if bool_decide (d = x7d) then Some (acc, r5)
                      else None
                  | [] => None
                  end
                else None
            | [] => None
            end
          else None
      | [] => None
      end
  end.

End Parser.

Definition add_member (k : bytes) (v : json) (m : list (bytes * json)) : list (bytes * json) := m ++ [(k, v)].

(** A top-level scalar ends at a space or the end of the text; an array or object at its bracket. *)
Definition ends_value (v : json) (rest : bytes) : bool :=
  match v, rest with
  | JArr _, _ | JObj _, _ | _, [] => true
  | _, b :: _ => is_space b
  end.

(** [Decoder.Decode] of one value: the value and the bytes after it. *)
Definition decode_one (add : bytes -> json -> list (bytes * json) -> list (bytes * json)) (raw : bytes)
    : option (json * bytes) :=
  '(v, rest) ← parse_value add (S (2 * length raw)) raw;
  if ends_value v rest then Some (v, rest) else None.

(** ... into an [any], objects as maps. *)
Definition decode (raw : bytes) : option json := fst <$> decode_one assoc_set raw.

(** ... as the members a typed decoder meets, repeated names included. *)
Definition decode_raw : bytes -> option (json * bytes) := decode_one add_member.

Definition canonicalizeJSON (raw : bytes) : option bytes := writeCanonical <$> decode raw.

(** ** Valid values *)

(** Induction with a hypothesis for every element and member. *)
Lemma json_induction (P : json -> Prop) :
  P JNull -> (forall b, P (JBool b)) -> (forall lit, P (JNum lit)) -> (forall s, P (JStr s)) ->
  (forall l, Forall P l -> P (JArr l)) -> (forall m, Forall (fun kv => P kv.2) m -> P (JObj m)) ->
  forall v, P v.
Proof.
  intros H1 H2 H3 H4 H5 H6. fix IH 1. intros [| | | |l|m]; [done|done|done|done| |].
  - apply H5. induction l as [|v l IHl]; constructor; [apply IH|exact IHl].
  - apply H6. induction m as [|[k v] m IHm]; constructor; [apply IH|exact IHm].
Qed.

Inductive valid_utf8 : bytes -> Prop :=
| utf8_nil : valid_utf8 []
| utf8_ascii b s : is_ascii b = true -> valid_utf8 s -> valid_utf8 (b :: s)
| utf8_rune n s : rune_size s = Some n -> valid_utf8 (drop n s) -> valid_utf8 s.

Definition valid_number (lit : bytes) : Prop := parse_number lit = Some (lit, []).

(** What decoding produces: strings in UTF-8, number literals of the grammar, keys at most once. *)
Fixpoint wf_json (v : json) : Prop :=
  match v with
  | JNull | JBool _ => True
  | JNum lit => valid_number lit
  | JStr s => valid_utf8 s
  | JArr l => foldr (fun v P => wf_json v /\ P) True l
  | JObj m => NoDup m.*1 /\ foldr (fun kv P => (valid_utf8 kv.1 /\ wf_json kv.2) /\ P) True m
  end.

(** A value with every object's members in key order. *)
Fixpoint sorted_json (v : json) : json :=
  match v with
  | JArr l => JArr (map sorted_json l)
  | JObj m => JObj (sort_fields (map (fun kv => (kv.1, sorted_json kv.2)) m))
  | _ => v
  end.

(** ** Sorting members *)

Lemma insert_field_perm {A} (f : bytes * A) l : insert_field f l ≡ₚ f :: l.
Proof.
  induction l as [|g l IH]; cbn; [done|]. destruct (bytes_leb _ _); [done|].
  rewrite IH. apply Permutation_swap.
Qed.

Lemma sort_fields_cons {A} (f : bytes * A) l : sort_fields (f :: l) = insert_field f (sort_fields l).
Proof. done. Qed.

Lemma sort_fields_perm {A} (l : list (bytes * A)) : sort_fields l ≡ₚ l.
Proof.
  induction l as [|f l IH]; [done|]. rewrite sort_fields_cons, insert_field_perm. by constructor.
Qed.

Lemma insert_field_map {A B} (h : A -> B) f l :
  insert_field (f.1, h f.2) (map (fun kv => (kv.1, h kv.2)) l)
  = map (fun kv => (kv.1, h kv.2)) (insert_field f l).
Proof.
  induction l as [|g l IH]; cbn; [done|]. destruct (bytes_leb _ _); cbn; [done|]. by rewrite IH.
Qed.

Lemma sort_fields_map {A B} (h : A -> B) (l : list (bytes * A)) :
  sort_fields (map (fun kv => (kv.1, h kv.2)) l) = map (fun kv => (kv.1, h kv.2)) (sort_fields l).
Proof.
  induction l as [|f l IH]; [done|]. cbn [map]. by rewrite !sort_fields_cons, IH, <-insert_field_map.
Qed.

Lemma insert_field_sorted {A} (f : bytes * A) l :
  StronglySorted bytes_le l.*1 -> StronglySorted bytes_le (insert_field f l).*1.
Proof.
  induction l as [|g l IH]; cbn; intros H; [repeat constructor|].
  destruct (bytes_leb f.1 g.1) eqn:E; cbn.
  - constructor; [done|]. constructor; [done|]. inversion H as [|? ? Hs Hall]; subst.
    eapply Forall_impl; [exact Hall|]. intros x Hx. by etrans.
  - inversion H as [|? ? Hs Hall]; subst. constructor; [by apply IH|].
    assert (Hp : (insert_field f l).*1 ≡ₚ f.1 :: l.*1) by (by rewrite insert_field_perm).
    rewrite Hp. constructor; [|done].
    destruct (total bytes_le f.1 g.1) as [Hle|Hle]; [|done]. unfold bytes_le in Hle. congruence.
Qed.

Lemma sort_fields_sorted {A} (l : list (bytes * A)) : StronglySorted bytes_le (sort_fields l).*1.
Proof. induction l as [|f l IH]; [constructor|]. by apply insert_field_sorted. Qed.

(** Lists of members with the same keys in the same order and the same elements are equal. *)
Lemma fields_eq {A} (l k : list (bytes * A)) : l ≡ₚ k -> l.*1 = k.*1 -> NoDup l.*1 -> l = k.
Proof.
  intros Hp Hk Hn. apply list_eq. intros i.
  assert (Hlen : length l = length k) by by apply Permutation_length.
  destruct (l !! i) as [[a v]|] eqn:El.
  - assert (Hin : (a, v) ∈ k) by (rewrite <-Hp; by eapply list_elem_of_lookup_2).
    apply list_elem_of_lookup_1 in Hin as [j Hj]. enough (i = j) as -> by done.
    apply (NoDup_lookup l.*1 i j a Hn).
    + by rewrite list_lookup_fmap, El.
    + by rewrite Hk, list_lookup_fmap, Hj.
  - symmetry. apply lookup_ge_None. apply lookup_ge_None in El. lia.
Qed.

(** The order members come in does not matter. *)
Lemma sort_fields_unique {A} (l k : list (bytes * A)) : l ≡ₚ k -> NoDup l.*1 -> sort_fields l = sort_fields k.
Proof.
  intros Hp Hn. assert (Hpk : sort_fields l ≡ₚ sort_fields k) by by rewrite !sort_fields_perm.
  apply fields_eq; [done| |by rewrite sort_fields_perm].
  apply (StronglySorted_unique bytes_le); [apply sort_fields_sorted..|by rewrite Hpk].
Qed.

Lemma sort_fields_id {A} (l : list (bytes * A)) : StronglySorted bytes_le l.*1 -> sort_fields l = l.
Proof.
  induction l as [|f l IH]; [done|]. cbn. intros H. inversion H as [|? ? Hs Hf]; subst. change (foldr insert_field [] l) with (sort_fields l).
  rewrite IH by done. destruct l as [|g l]; [done|]. apply Forall_cons in Hf as [Hf _]. cbn. unfold bytes_le in Hf. by rewrite Hf.
Qed.

Lemma sort_fields_idemp {A} (l : list (bytes * A)) : NoDup l.*1 -> sort_fields (sort_fields l) = sort_fields l.
Proof. intros H. apply sort_fields_unique; [apply sort_fields_perm|by rewrite sort_fields_perm]. Qed.

(** ** Strings round-trip *)

Lemma rune_size_spec s n :
  rune_size s = Some n ->
  exists b r, s = b :: r /\ is_ascii b = false /\ (2 <= n <= length s)%nat
    /\ forall t, rune_size (take n s ++ t) = Some n.
Proof.
  unfold rune_size. intros H. destruct s as [|b0 [|b1 t]]; try done.
  assert (Ha : forall lo hi, in_range lo hi b0 = true -> 0x80 <= lo -> is_ascii b0 = false).
  { intros lo hi Hr Hlo. unfold in_range, is_ascii in *. bool_to_prop. apply Z.ltb_ge. lia. }
  exists b0, (b1 :: t). split; [done|].
  destruct (in_range 0xC2 0xDF b0) eqn:E2.
  { destruct (is_cont b1) eqn:Ec; [|done]. injection H as <-. split; [by eapply Ha; [exact E2|]|].
    split; [cbn; lia|]. intros t'. cbn. by rewrite E2, Ec. }
  destruct t as [|b2 t]; [done|].
  destruct (_ && is_cont b2) eqn:E3.
  { injection H as <-. pose proof E3 as [E3' _]%andb_prop. split.
    - repeat match goal with H : (_ || _) = true |- _ => apply orb_prop in H as [H|H] end;
        apply andb_prop in E3' as [E3' _]; by eapply Ha; [exact E3'|].
    - split; [cbn; lia|]. intros t'. cbn [take app]. by rewrite E2, E3. }
  destruct t as [|b3 t]; [done|].
  destruct ((_ || _) && is_cont b2 && is_cont b3) eqn:E4; [|done]. injection H as <-.
  pose proof E4 as [[E4' _]%andb_prop _]%andb_prop. split.
  - repeat match goal with H : (_ || _) = true |- _ => apply orb_prop in H as [H|H] end;
      apply andb_prop in E4' as [E4' _]; by eapply Ha; [exact E4'|].
  - split; [cbn; lia|]. intros t'. cbn [take app]. by rewrite E2, E3, E4.
Qed.

(** An escaped ASCII byte parses as itself. *)
Lemma parse_escape_ascii b fuel t :
  is_ascii b = true ->
  parse_string (S fuel) (escape_ascii b ++ t) = ('(x, r) ← parse_string fuel t; Some (b :: x, r)).
Proof. destruct b; intros H; try discriminate H; reflexivity. Qed.

(** A multi-byte rune, escaped if a line separator, parses as itself. *)
Lemma parse_line_sep r fuel t :
  is_line_sep r = true ->
  parse_string (S fuel) ([x5c; x75; x32; x30; x32; hex_digit (bZ (nth 2 r x00) - 0xA0)] ++ t)
  = ('(x, r') ← parse_string fuel t; Some (r ++ x, r')).
Proof.
  unfold is_line_sep. intros [H|H]%orb_prop; apply bool_decide_eq_true_1 in H as ->; reflexivity.
Qed.

Lemma parse_rune n s fuel t :
  rune_size s = Some n ->
  parse_string (S fuel) (take n s ++ t) = ('(x, r') ← parse_string fuel t; Some (take n s ++ x, r')).
Proof.
  intros H. destruct (rune_size_spec s n H) as (b&r&->&Ha&Hn&Ht).
  destruct n as [|n]; [lia|]. cbn [take app parse_string].
  rewrite !bool_decide_eq_false_2 by (intros ->; discriminate Ha).
  assert (Hge : (bZ b <? 32) = false) by (unfold is_ascii in Ha; bool_to_prop; apply Z.ltb_ge; lia).
  rewrite Hge, Ha. specialize (Ht t). cbn [take app] in Ht. rewrite Ht.
  change (b :: take n r ++ t) with (take (S n) (b :: r) ++ t).
  rewrite drop_app_length', take_app_length' by (rewrite length_take; lia). done.
Qed.

Section Escape.
Context (escape : byte -> bytes).
Hypothesis escape_parses : forall b fuel t,
  is_ascii b = true -> parse_string (S fuel) (escape b ++ t) = ('(x, r) ← parse_string fuel t; Some (b :: x, r)).

Lemma parse_string_escape s rest fuel fuel' :
  valid_utf8 s -> (length s <= fuel')%nat -> (length s < fuel)%nat ->
  parse_string fuel (escape_with escape fuel' s ++ x22 :: rest) = Some (s, rest).
Proof.
  intros Hv. revert fuel fuel'. induction Hv as [|b s Ha Hv IH|n s Hn Hv IH]; intros fuel fuel' Hf' Hf.
  - destruct fuel; [cbn in Hf; lia|]. by destruct fuel'.
  - cbn in Hf, Hf'. destruct fuel as [|fuel]; [lia|]. destruct fuel' as [|fuel']; [lia|].
    cbn [escape_with]. rewrite Ha, <-app_assoc, escape_parses by done. by rewrite IH by lia.
  - destruct (rune_size_spec s n Hn) as (b&r&Hs&Ha&Hle&_).
    assert (Hd : length (drop n s) = (length s - n)%nat) by apply length_drop.
    destruct fuel as [|fuel]; [lia|]. destruct fuel' as [|fuel']; [rewrite Hs in Hf'; cbn in Hf'; lia|].
    assert (Eb : escape_with escape (S fuel') s =
      (if is_line_sep (take n s) then [x5c; x75; x32; x30; x32; hex_digit (bZ (nth 2 s x00) - 0xA0)]
       else take n s) ++ escape_with escape fuel' (drop n s)).
    { rewrite Hs in Hn |- *. cbn [escape_with]. by rewrite Ha, Hn. }
    rewrite Eb, <-app_assoc. destruct (is_line_sep (take n s)) eqn:El.
    + assert (E2 : nth 2 s x00 = nth 2 (take n s) x00).
      { rewrite <-(take_drop n s) at 1. apply app_nth1. rewrite length_take.
        unfold is_line_sep in El. apply orb_prop in El as [El|El]; apply bool_decide_eq_true_1 in El;
        apply (f_equal length) in El; rewrite length_take in El; cbn in El; lia. }
      rewrite E2, (parse_line_sep _ _ _ El), IH by lia. cbn [mbind option_bind]. by rewrite take_drop.
    + rewrite (parse_rune _ _ _ _ Hn), IH by lia. cbn [mbind option_bind]. by rewrite take_drop.
Qed.

Lemma escape_length s fuel :
  valid_utf8 s -> (length s <= fuel)%nat -> (length s <= length (escape_with escape fuel s))%nat.
Proof.
  intros Hv. revert fuel. induction Hv as [|b s Ha Hv IH|n s Hn Hv IH]; intros fuel Hf.
  - cbn. lia.
  - destruct fuel as [|fuel]; [cbn in Hf; lia|]. cbn [escape_with]. rewrite Ha, length_app. cbn in Hf |- *.
    specialize (IH fuel ltac:(lia)).
    assert (1 <= length (escape b))%nat; [|lia]. pose proof (escape_parses b O (x22 :: []) Ha) as E.
    destruct (escape b); [|cbn; lia]. discriminate E.
  - destruct (rune_size_spec s n Hn) as (b&r&Hs&Ha&Hle&_).
    assert (Hd : length (drop n s) = (length s - n)%nat) by apply length_drop.
    destruct fuel as [|fuel]; [rewrite Hs in Hf; cbn in Hf; lia|].
    rewrite Hs in Hn |- * at 2. cbn [escape_with]. rewrite Ha, Hn, <-Hs, length_app.
    specialize (IH fuel ltac:(lia)).
    assert (n <= length (if is_line_sep (take n s)
      then [x5c; x75; x32; x30; x32; hex_digit (bZ (nth 2 s x00) - 160)] else take n s))%nat; [|lia].
    destruct (is_line_sep (take n s)) eqn:El; [|rewrite length_take; lia].
    apply orb_prop in El as [El|El]; apply bool_decide_eq_true_1 in El; apply (f_equal length) in El;
      rewrite length_take in El; cbn in El |- *; lia.
Qed.

(** A written string, parsed after its opening quote. *)
Lemma parse_written_string s rest :
  valid_utf8 s ->
  let r := escape_with escape (length s) s ++ x22 :: rest in parse_string (length r) r = Some (s, rest).
Proof.
  intros Hv. cbv zeta. apply parse_string_escape; [done..|]. rewrite length_app. cbn.
  pose proof (escape_length s (length s) Hv). lia.
Qed.
End Escape.

(** ** Numbers round-trip *)

(** What may follow a value inside an array or object, or at the end. *)
Definition stops_value (rest : bytes) : Prop :=
  match rest with [] => True | b :: _ => b = x2c \/ b = x5d \/ b = x7d end.

Lemma span_digits_app s rest :
  stops_value rest -> span_digits (s ++ rest) = (let '(d, t) := span_digits s in (d, t ++ rest)).
Proof.
  intros Hr. induction s as [|b s IH]; cbn [app span_digits].
  - destruct rest as [|b r]; [done|]. cbn. by destruct Hr as [->|[->| ->]].
  - destruct (is_digit b); [|done]. rewrite IH. by destruct (span_digits s).
Qed.

Lemma digits1_app s d t rest :
  stops_value rest -> digits1 s = Some (d, t) -> digits1 (s ++ rest) = Some (d, t ++ rest).
Proof.
  unfold digits1. intros Hr. rewrite span_digits_app by done.
  destruct (span_digits s) as [[|x d'] t']; [done|]. by intros [= <- <-].
Qed.

Lemma parse_int_app s d t rest :
  stops_value rest -> parse_int s = Some (d, t) -> parse_int (s ++ rest) = Some (d, t ++ rest).
Proof.
  destruct s as [|b s]; [done|]. cbn [parse_int app]. intros Hr.
  case_bool_decide; [by intros [= <- <-]|]. by apply (digits1_app (b :: s)).
Qed.

Lemma parse_frac_app s d t rest :
  stops_value rest -> parse_frac s = Some (d, t) -> parse_frac (s ++ rest) = Some (d, t ++ rest).
Proof.
  intros Hr. destruct s as [|b s]; cbn [parse_frac app].
  - intros [= <- <-]. destruct rest as [|b r]; [done|]. cbn. by destruct Hr as [->|[->| ->]].
  - case_bool_decide; [|by intros [= <- <-]].
    destruct (digits1 s) as [[d' t']|] eqn:E; [|done]. intros [= <- <-].
    by rewrite (digits1_app _ _ _ _ Hr E).
Qed.

Lemma parse_exp_app s d t rest :
  stops_value rest -> parse_exp s = Some (d, t) -> parse_exp (s ++ rest) = Some (d, t ++ rest).
Proof.
  intros Hr. destruct s as [|b s]; cbn [parse_exp app].
  - intros [= <- <-]. destruct rest as [|b r]; [done|]. cbn. by destruct Hr as [->|[->| ->]].
  - destruct (_ || _); [|by intros [= <- <-]]. destruct s as [|c s]; [done|]. cbn [app].
    destruct (_ || _).
    + destruct (digits1 s) as [[d' t']|] eqn:E; [|done]. intros [= <- <-].
      by rewrite (digits1_app _ _ _ _ Hr E).
    + destruct (digits1 (c :: s)) as [[d' t']|] eqn:E; [|done]. intros [= <- <-].
      change (c :: s ++ rest) with ((c :: s) ++ rest). by rewrite (digits1_app _ _ _ _ Hr E).
Qed.

Lemma parse_number_app lit rest :
  stops_value rest -> valid_number lit -> parse_number (lit ++ rest) = Some (lit, rest).
Proof.
  intros Hr H. unfold valid_number, parse_number in *. destruct lit as [|b lit]; [done|]. cbn [app].
  set (p := if bool_decide (b = x2d) then ([b], lit) else ([], b :: lit)) in *.
  assert (Ep : (if bool_decide (b = x2d) then ([b], lit ++ rest) else ([], b :: lit ++ rest))
    = (p.1, p.2 ++ rest)) by (unfold p; by case_bool_decide).
  rewrite Ep. destruct p as [sign s1]. cbn [fst snd].
  destruct (parse_int s1) as [[i s2]|] eqn:E1; [|done]. cbn [mbind option_bind] in H |- *.
  rewrite (parse_int_app _ _ _ _ Hr E1). cbn [mbind option_bind].
  destruct (parse_frac s2) as [[f s3]|] eqn:E2; [|done]. cbn [mbind option_bind] in H.
  rewrite (parse_frac_app _ _ _ _ Hr E2). cbn [mbind option_bind].
  destruct (parse_exp s3) as [[e s4]|] eqn:E3; [|done]. cbn [mbind option_bind] in H.
  rewrite (parse_exp_app _ _ _ _ Hr E3). cbn [mbind option_bind].
  injection H as -> ->. done.
Qed.

(** A number literal starts with a digit or a sign. *)
Lemma number_head lit : valid_number lit -> exists b r, lit = b :: r /\ (is_digit b = true \/ b = x2d).
Proof.
  unfold valid_number, parse_number. destruct lit as [|b lit]; [done|]. intros H. exists b, lit. split; [done|].
  case_bool_decide; [by right|left]. cbn [parse_int] in H.
  case_bool_decide; [by subst|]. unfold digits1 in H. cbn [span_digits] in H. by destruct (is_digit b).
Qed.

(** ** Values round-trip *)

(** The first byte of a written value tells the parser's case. *)
Definition head_ok (b : byte) : Prop := is_space b = false /\ b <> x5d.

Lemma commas_cons x y r : commas (x :: y :: r) = x ++ x2c :: commas (y :: r).
Proof. done. Qed.

Lemma wf_arr l : wf_json (JArr l) <-> Forall wf_json l.
Proof.
  cbn. induction l as [|v l IH]; cbn; [done|]. rewrite Forall_cons. by rewrite IH.
Qed.

Lemma wf_obj m : wf_json (JObj m) <-> NoDup m.*1 /\ Forall (fun kv => valid_utf8 kv.1 /\ wf_json kv.2) m.
Proof.
  cbn. f_equiv. induction m as [|kv m IH]; cbn; [done|]. rewrite Forall_cons. by rewrite IH.
Qed.

Lemma assoc_set_new k v m : k ∉ m.*1 -> assoc_set k v m = m ++ [(k, v)].
Proof.
  induction m as [|[k' v'] m IH]; [done|]. cbn. intros H. rewrite not_elem_of_cons in H.
  destruct H as [Hk Hm]. rewrite bool_decide_eq_false_2 by congruence. by rewrite IH.
Qed.

(** A member as it is written. *)
Definition member_text (string : bytes -> bytes) (text : json -> bytes) (kv : bytes * json) : bytes := string kv.1 ++ [x3a] ++ text kv.2.

(** A writer of compact JSON: what it writes for a value, what that value then reads as, and the order it
    puts members in. *)
Record json_writer (text : json -> bytes) (string : bytes -> bytes) (back : json -> json) : Prop := {
  jw_null : text JNull = str "null" /\ back JNull = JNull;
  jw_bool b : text (JBool b) = (if b then str "true" else str "false") /\ back (JBool b) = JBool b;
  jw_num lit : text (JNum lit) = lit /\ back (JNum lit) = JNum lit;
  jw_str s : text (JStr s) = string s /\ back (JStr s) = JStr s;
  jw_arr l : text (JArr l) = [x5b] ++ commas (map text l) ++ [x5d] /\ back (JArr l) = JArr (map back l);
  jw_obj m : exists m', m' ≡ₚ m /\ text (JObj m) = [x7b] ++ commas (map (member_text string text) m') ++ [x7d]
    /\ back (JObj m) = JObj (map (fun kv => (kv.1, back kv.2)) m');
  jw_string s rest : valid_utf8 s -> exists r, string s ++ rest = x22 :: r /\ parse_string (length r) r = Some (s, rest);
}.

Section Reads.
Context (add : bytes -> json -> list (bytes * json) -> list (bytes * json)).
Context (add_new : forall k v m, k ∉ m.*1 -> add k v m = m ++ [(k, v)]).
Context {text : json -> bytes} {string : bytes -> bytes} {back : json -> json} (W : json_writer text string back).

Lemma value_head v : wf_json v -> exists b r, text v = b :: r /\ head_ok b.
Proof.
  destruct v as [|[]|lit|s|l|m]; intros Hw.
  - rewrite (proj1 (jw_null _ _ _ W)). by do 2 eexists.
  - rewrite (proj1 (jw_bool _ _ _ W _)). by do 2 eexists.
  - rewrite (proj1 (jw_bool _ _ _ W _)). by do 2 eexists.
  - rewrite (proj1 (jw_num _ _ _ W _)). destruct (number_head lit Hw) as (b&r&->&Hb). exists b, r. split; [done|].
    destruct Hb as [Hb| ->]; [|done]. by destruct b.
  - rewrite (proj1 (jw_str _ _ _ W _)). destruct (jw_string _ _ _ W s [] Hw) as (r&E&_). rewrite app_nil_r in E. rewrite E. by do 2 eexists.
  - rewrite (proj1 (jw_arr _ _ _ W _)). by do 2 eexists.
  - destruct (jw_obj _ _ _ W m) as (m'&_&->&_). by do 2 eexists.
Qed.

(** The parser reads back what was written for [v], whatever follows it. *)
Definition reads_back (v : json) : Prop :=
  forall fuel rest, stops_value rest -> (length (text v) <= fuel)%nat ->
    parse_value add fuel (text v ++ rest) = Some (back v, rest).

Lemma parse_elems_written v l fuel rest :
  Forall (fun v => wf_json v /\ reads_back v) (v :: l) ->
  (length (commas (map text (v :: l))) < fuel)%nat ->
  parse_elems add fuel (commas (map text (v :: l)) ++ x5d :: rest)
  = Some (map back (v :: l), rest).
Proof.
  revert v fuel. induction l as [|w l IH]; intros v fuel [[Hw Hv] Hl]%Forall_cons Hf;
    (destruct fuel as [|fuel]; [lia|]); cbn [map] in Hf |- *; cbn [parse_elems].
  - cbn [commas fmap list_fmap concat] in Hf |- *. rewrite app_nil_r in Hf |- *.
    rewrite Hv by (cbn; tauto || lia). done.
  - rewrite commas_cons in Hf |- *. rewrite length_app in Hf. cbn [length] in Hf.
    rewrite <-app_assoc. cbn [app].
    rewrite Hv by (cbn; tauto || lia). cbn [mbind option_bind skip_ws].
    change (is_space x2c) with false. cbn match. change (bool_decide (x2c = x2c)) with true. cbn match.
    change (text w :: map text l) with (map text (w :: l)) in *.
    rewrite IH by (done || lia). done.
Qed.

Lemma parse_members_written kv m acc fuel rest :
  Forall (fun kv => (valid_utf8 kv.1 /\ wf_json kv.2) /\ reads_back kv.2) (kv :: m) ->
  NoDup (acc.*1 ++ (kv :: m).*1) ->
  (length (commas (map (member_text string text) (kv :: m))) < fuel)%nat ->
  parse_members add fuel acc (commas (map (member_text string text) (kv :: m)) ++ x7d :: rest)
  = Some (acc ++ map (fun kv => (kv.1, back kv.2)) (kv :: m), rest).
Proof.
  revert kv acc fuel.
  assert (Hstep : forall kv acc fuel d tl,
    (valid_utf8 kv.1 /\ wf_json kv.2) /\ reads_back kv.2 -> kv.1 ∉ acc.*1 -> d = x2c \/ d = x7d ->
    (length (text kv.2) <= fuel)%nat ->
    parse_members add (S fuel) acc ((member_text string text) kv ++ d :: tl)
    = if bool_decide (d = x2c) then parse_members add fuel (acc ++ [(kv.1, back kv.2)]) tl
      else Some (acc ++ [(kv.1, back kv.2)], tl)).
  { intros [k v] acc fuel d tl [[Hk Hw] Hv] Hn Hd Hf. cbn [fst snd] in *.
    unfold member_text. cbn [fst snd]. rewrite <-!app_assoc. destruct (jw_string _ _ _ W k ([x3a] ++ text v ++ d :: tl) Hk) as (r&E&Hr).
    rewrite E. cbn [parse_members fst snd skip_ws]. change (is_space x22) with false. cbn match.
    change (bool_decide (x22 = x22)) with true. cbn match. rewrite Hr. cbn [mbind option_bind skip_ws app].
    change (is_space x3a) with false. cbn match. change (bool_decide (x3a = x3a)) with true. cbn match.
    rewrite Hv by (cbn; tauto). cbn [mbind option_bind]. rewrite add_new by done.
    by destruct Hd as [-> | ->]. }
  induction m as [|kv' m IH]; intros kv acc fuel [Hkv Hm]%Forall_cons Hn Hf;
    (destruct fuel as [|fuel]; [lia|]); cbn [map] in Hf |- *.
  - cbn [commas fmap list_fmap concat] in Hf |- *. rewrite app_nil_r in Hf |- *.
    unfold member_text in Hf. rewrite !length_app in Hf.
    rewrite Hstep; [done|done| |by right|lia].
    rewrite NoDup_app in Hn. destruct Hn as (_&Hn&_). intros Hi. apply (Hn _ Hi). by left.
  - rewrite commas_cons in Hf |- *. rewrite length_app in Hf. cbn [length] in Hf.
    rewrite <-app_assoc. cbn [app]. assert (Hl := Hf). unfold member_text in Hl at 1.
    rewrite !length_app in Hl. rewrite Hstep; [|done| |by left|lia].
    2:{ rewrite NoDup_app in Hn. destruct Hn as (_&Hd&_). intros Hi. apply (Hd _ Hi). by left. }
    change (bool_decide (x2c = x2c)) with true. cbn match.
    change ((member_text string text) kv' :: map (member_text string text) m) with (map (member_text string text) (kv' :: m)) in *.
    rewrite IH; [by rewrite <-app_assoc|done| |lia].
    rewrite fmap_app, <-app_assoc. done.
Qed.

Lemma parse_arr_written l fuel rest :
  Forall (fun v => wf_json v -> reads_back v) l -> wf_json (JArr l) -> stops_value rest -> (length (text (JArr l)) <= fuel)%nat ->
  parse_value add fuel (text (JArr l) ++ rest) = Some (back (JArr l), rest).
Proof.
  intros IH Hw%wf_arr Hr. destruct (jw_arr _ _ _ W l) as [-> ->]. intros Hf.
  destruct fuel as [|fuel]; [cbn in Hf; lia|]. cbn [length app] in Hf |- *. rewrite <-app_assoc. cbn [app parse_value skip_ws].
  change (is_space x5b) with false. cbn match. change (bool_decide (x5b = x22)) with false.
  change (bool_decide (x5b = x5b)) with true. cbn match.
  destruct l as [|v l]; [done|]. rewrite length_app in Hf. cbn [length] in Hf.
  assert (Hsk : exists b r, skip_ws (commas (map text (v :: l)) ++ x5d :: rest) = b :: r /\ b <> x5d).
  { destruct (value_head v) as (b&r&E&Hb&Hb'); [by inversion Hw|]. cbn [map commas]. rewrite E.
    exists b. eexists. split; [|done]. cbn. by rewrite Hb. }
  destruct Hsk as (b&r&->&Hb). rewrite bool_decide_eq_false_2 by done.
  rewrite parse_elems_written; [done| |lia].
  apply Forall_and. split; [done|]. apply Forall_forall. intros w Hi.
  rewrite Forall_forall in IH, Hw. auto.
Qed.

Lemma parse_obj_written m fuel rest :
  Forall (fun kv => wf_json kv.2 -> reads_back kv.2) m -> wf_json (JObj m) -> stops_value rest -> (length (text (JObj m)) <= fuel)%nat ->
  parse_value add fuel (text (JObj m) ++ rest) = Some (back (JObj m), rest).
Proof.
  intros IH [Hn Hw]%wf_obj Hr. destruct (jw_obj _ _ _ W m) as (m'&Hm&->& ->). intros Hf. destruct fuel as [|fuel]; [cbn in Hf; lia|].
  rewrite <-Hm in Hn. assert (Hall : Forall (fun kv => (valid_utf8 kv.1 /\ wf_json kv.2) /\ reads_back kv.2) m').
  { rewrite Hm. apply Forall_and. split; [done|]. apply Forall_forall. intros w Hi.
    rewrite Forall_forall in IH, Hw. apply (IH w Hi). by apply (Hw w Hi). }
  cbn [length app] in Hf |- *. rewrite <-app_assoc. cbn [app parse_value skip_ws].
  change (is_space x7b) with false. cbn match. change (bool_decide (x7b = x22)) with false.
  change (bool_decide (x7b = x5b)) with false. change (bool_decide (x7b = x7b)) with true. cbn match.
  destruct m' as [|kv m']; [done|]. rewrite length_app in Hf. cbn [length] in Hf.
  assert (Hsk : exists r, skip_ws (commas (map (member_text string text) (kv :: m')) ++ x7d :: rest) = x22 :: r).
  { apply Forall_cons in Hall as [[[Hk _] _] _].
    cbn [map commas]. unfold member_text at 1. rewrite <-!app_assoc. destruct (jw_string _ _ _ W kv.1 ([x3a] ++ text kv.2
      ++ concat ((fun y => x2c :: y) <$> map (member_text string text) m') ++ x7d :: rest) Hk) as (r&E&_). rewrite E. by exists r. }
  destruct Hsk as (r&->). change (bool_decide (x22 = x7d)) with false. cbn match.
  by rewrite (parse_members_written kv m' [] fuel rest Hall Hn) by lia.
Qed.

(** Parsing what was written gives the value back. *)
Lemma parse_written v : wf_json v -> reads_back v.
Proof.
  induction v as [|b|lit|s|l IH|m IH] using json_induction; intros Hw fuel rest Hr Hf.
  - destruct (jw_null _ _ _ W) as [-> ->] in Hf |- *. by (destruct fuel; [cbn in Hf; lia|]).
  - destruct (jw_bool _ _ _ W b) as [E ->]. rewrite E in Hf |- *. by destruct b; (destruct fuel; [cbn in Hf; lia|]).
  - destruct (jw_num _ _ _ W lit) as [El ->]. rewrite El in Hf |- *. destruct (number_head lit Hw) as (b&r&E&Hb).
    destruct fuel as [|fuel]; [rewrite E in Hf; cbn in Hf; lia|].
    pose proof (parse_number_app lit rest Hr Hw) as Hp. rewrite E in Hp |- *. cbn [app] in Hp |- *.
    cbn [parse_value skip_ws].
    assert (is_space b = false) as -> by (destruct Hb as [Hb| ->]; [by destruct b|done]).
    rewrite !bool_decide_eq_false_2; [by rewrite Hp|..]; intros ->; by destruct Hb.
  - destruct (jw_str _ _ _ W s) as [E ->]. rewrite E in Hf |- *. destruct (jw_string _ _ _ W s rest Hw) as (r&Er&Hp).
    destruct fuel as [|fuel]; [destruct (jw_string _ _ _ W s [] Hw) as (r'&Er'&_); rewrite app_nil_r in Er'; rewrite Er' in Hf; cbn in Hf; lia|].
    rewrite Er. cbn [parse_value skip_ws]. change (is_space x22) with false. cbn match.
    change (bool_decide (x22 = x22)) with true. cbn match. by rewrite Hp.
  - by apply parse_arr_written.
  - by apply parse_obj_written.
Qed.

Lemma decode_one_written v : wf_json v -> decode_one add (text v) = Some (back v, []).
Proof.
  intros Hw. unfold decode_one. rewrite <-(app_nil_r (text v)) at 2.
  rewrite (parse_written v Hw) by (cbn; done || lia). cbn [mbind option_bind].
  by destruct (back v).
Qed.
End Reads.

Definition write_member (kv : bytes * json) : bytes := member_text writeCanonicalString writeCanonical kv.

Lemma writeCanonical_obj m : writeCanonical (JObj m) = [x7b] ++ commas (map write_member (sort_fields m)) ++ [x7d].
Proof.
  cbn [writeCanonical]. rewrite sort_fields_map. do 3 f_equal.
  change (@fmap list list_fmap) with @map. by rewrite map_map.
Qed.

(** The canonical writer puts members in key order. *)
Lemma canonical_writer : json_writer writeCanonical writeCanonicalString sorted_json.
Proof.
  split; try done.
  - intros m. exists (sort_fields m). split; [apply sort_fields_perm|]. split; [apply writeCanonical_obj|]. cbn [sorted_json]. by rewrite sort_fields_map.
  - intros s rest Hv. exists (escape_body (length s) s ++ x22 :: rest). unfold writeCanonicalString. cbn [app]. rewrite <-app_assoc.
    split; [done|]. by apply (parse_written_string escape_ascii parse_escape_ascii).
Qed.

Lemma decode_written v : wf_json v -> decode (writeCanonical v) = Some (sorted_json v).
Proof.
  intros Hw. unfold decode. by rewrite (decode_one_written _ assoc_set_new canonical_writer v Hw).
Qed.

Lemma decode_raw_written v : wf_json v -> decode_raw (writeCanonical v) = Some (sorted_json v, []).
Proof. by apply (decode_one_written _ (fun _ _ _ _ => eq_refl) canonical_writer). Qed.

(** ** What the decoder yields *)

Lemma rune_size_app s n t : rune_size s = Some n -> rune_size (s ++ t) = Some n.
Proof.
  intros H. destruct (rune_size_spec s n H) as (_&_&_&_&_&Ht).
  by rewrite <-(take_drop n s), <-app_assoc.
Qed.

Lemma valid_utf8_app s t : valid_utf8 s -> valid_utf8 t -> valid_utf8 (s ++ t).
Proof.
  intros Hs Ht. induction Hs as [|b s Ha _ IH|n s Hn _ IH]; [done|by apply utf8_ascii|].
  apply (utf8_rune n); [by apply rune_size_app|].
  destruct (rune_size_spec s n Hn) as (_&_&_&_&Hle&_). by rewrite drop_app_le by lia.
Qed.

Lemma valid_utf8_take s n : rune_size s = Some n -> valid_utf8 (take n s).
Proof.
  intros H. destruct (rune_size_spec s n H) as (_&_&_&_&Hle&Ht). apply (utf8_rune n).
  - specialize (Ht []). by rewrite app_nil_r in Ht.
  - rewrite drop_ge by (rewrite length_take; lia). constructor.
Qed.

Lemma bZ_Zb_small z : 0 <= z < 256 -> bZ (Zb z) = z.
Proof. intros H. rewrite bZ_Zb. by apply Z.mod_small. Qed.

Lemma encode_rune_valid r : 0 <= r -> valid_utf8 (encode_rune r).
Proof.
  intros H0. assert (Hrep : valid_utf8 replacement) by (by eapply (utf8_rune 3); [|constructor]).
  assert (Hc : forall z, is_cont (Zb (0x80 + Z.land z 63)) = true).
  { intros z. change 63 with (Z.ones 6). rewrite Z.land_ones by lia. pose proof (Z.mod_pos_bound z (2 ^ 6)).
    change (2 ^ 6) with 64 in *. unfold is_cont, in_range. rewrite bZ_Zb_small by lia.
    apply andb_true_iff. rewrite !Z.leb_le. lia. }
  assert (Hr : forall lo hi z, 0 <= z < 256 -> in_range lo hi (Zb z) = (lo <=? z) && (z <=? hi)).
  { intros lo hi z Hz. unfold in_range. by rewrite bZ_Zb_small. }
  assert (Hcr : forall lo hi z, in_range lo hi (Zb (0x80 + Z.land z 63))
    = (lo <=? 0x80 + z mod 64) && (0x80 + z mod 64 <=? hi)).
  { intros lo hi z. change 63 with (Z.ones 6). rewrite Z.land_ones by lia. change (2 ^ 6) with 64.
    pose proof (Z.mod_pos_bound z 64). apply Hr. lia. }
  unfold encode_rune. rewrite !Z.shiftr_div_pow2 by lia.
  change (2 ^ 6) with 64. change (2 ^ 12) with 4096. change (2 ^ 18) with 262144.
  destruct (Z.ltb_spec r 0x80).
  { apply utf8_ascii; [|constructor]. unfold is_ascii. rewrite bZ_Zb_small by lia. by apply Z.ltb_lt. }
  destruct (Z.ltb_spec r 0x800).
  { apply (utf8_rune 2); [|constructor]. unfold rune_size.
    assert (2 <= r / 64 <= 31) by (Z.to_euclidean_division_equations; lia).
    rewrite Hr, Hc by lia. destruct (_ && _) eqn:E; [done|]. exfalso.
    apply andb_false_iff in E as [E|E]; apply Z.leb_gt in E; lia. }
  destruct ((_ && _)) eqn:Esur; [done|].
  assert (Hsur : ~ (0xD800 <= r < 0xE000)).
  { intros Hs. apply andb_false_iff in Esur as [E|E]; [apply Z.leb_gt in E|apply Z.ltb_ge in E]; lia. }
  destruct (Z.ltb_spec r 0x10000).
  { assert (0 <= r / 4096 <= 15) by (Z.to_euclidean_division_equations; lia).
    apply (utf8_rune 3); [|constructor]. unfold rune_size.
    rewrite !Hc. repeat rewrite Hcr. repeat rewrite Hr by lia.
    assert (r / 64 / 64 = r / 4096) by (by rewrite Z.div_div).
    pose proof (Z.div_mod (r / 64) 64). pose proof (Z.mod_pos_bound (r / 64) 64).
    pose proof (Z.div_mod r 64). pose proof (Z.mod_pos_bound r 64).
    destruct (Z.leb_spec 0xC2 (0xE0 + r / 4096)); [|lia].
    destruct (Z.leb_spec (0xE0 + r / 4096) 0xDF); [lia|]. cbn [andb].
    match goal with |- (if ?b then _ else _) = _ => destruct b eqn:E; [done|] end. exfalso.
    rewrite !andb_true_r in E. rewrite !orb_false_iff in E.
    rewrite !andb_false_iff, !Z.leb_gt in E.  lia. }
  destruct (Z.leb_spec r 0x10FFFF); [|done].
  assert (0 <= r / 262144 <= 4) by (Z.to_euclidean_division_equations; lia).
  apply (utf8_rune 4); [|constructor]. unfold rune_size.
  rewrite !Hc. repeat rewrite Hcr. repeat rewrite Hr by lia.
  assert (r / 4096 / 64 = r / 262144) by (by rewrite Z.div_div).
  pose proof (Z.div_mod (r / 4096) 64). pose proof (Z.mod_pos_bound (r / 4096) 64).
  pose proof (Z.div_mod r 4096). pose proof (Z.mod_pos_bound r 4096).
  destruct (Z.leb_spec 0xC2 (0xF0 + r / 262144)); [|lia].
  destruct (Z.leb_spec (0xF0 + r / 262144) 0xDF); [lia|]. cbn [andb].
  match goal with |- (if ?b then _ else _) = _ => destruct b eqn:E3 end.
  { exfalso. rewrite !andb_true_r, !orb_true_iff, !andb_true_iff, !Z.leb_le in E3. lia. }
  match goal with |- (if ?b then _ else _) = _ => destruct b eqn:E; [done|] end. exfalso.
  rewrite !andb_true_r in E. rewrite !orb_false_iff in E.
  rewrite !andb_false_iff, !Z.leb_gt in E. lia.
Qed.

(** The first byte is no digit (or there is none). *)
Definition no_digit (s : bytes) : Prop := match s with [] => True | b :: _ => is_digit b = false end.

Lemma span_digits_again s d t tl :
  span_digits s = (d, t) -> no_digit tl -> span_digits (d ++ tl) = (d, tl) /\ no_digit t.
Proof.
  revert d t. induction s as [|b s IH]; cbn [span_digits]; intros d t.
  - intros [= <- <-] Hn. split; [|done]. destruct tl as [|c tl]; [done|]. cbn in Hn |- *. by rewrite Hn.
  - destruct (is_digit b) eqn:E.
    + destruct (span_digits s) as [d' t'] eqn:Es. intros [= <- <-] Hn.
      destruct (IH _ _ eq_refl Hn) as [H1 H2]. split; [|done]. cbn. by rewrite E, H1.
    + intros [= <- <-] Hn. split; [|done]. destruct tl as [|c tl]; [done|]. cbn in Hn |- *. by rewrite Hn.
Qed.

Lemma digits1_again s d t tl :
  digits1 s = Some (d, t) -> no_digit tl ->
  digits1 (d ++ tl) = Some (d, tl) /\ (exists b r, d = b :: r /\ is_digit b = true) /\ no_digit t.
Proof.
  unfold digits1. destruct (span_digits s) as [[|b d'] t'] eqn:E; [done|]. intros [= <- <-] Hn.
  destruct (span_digits_again _ _ _ _ E Hn) as [H1 H2]. rewrite H1. split; [done|split; [|done]].
  exists b, d'. split; [done|]. destruct s as [|c s]; [done|]. cbn in E.
  destruct (is_digit c) eqn:Ec; [|done]. destruct (span_digits s). by injection E as <- _ _.
Qed.

Lemma parse_int_again s i t tl :
  parse_int s = Some (i, t) -> no_digit tl ->
  parse_int (i ++ tl) = Some (i, tl) /\ exists b r, i = b :: r /\ is_digit b = true.
Proof.
  destruct s as [|b s]; [done|]. cbn [parse_int]. case_bool_decide as Hb.
  - intros [= <- <-] Hn. split; [done|]. by eexists _, _.
  - intros H Hn. destruct (digits1_again _ _ _ _ H Hn) as (H1&(c&r&->&Hc)&_).
    split; [|by eexists _, _]. cbn [app parse_int]. rewrite bool_decide_eq_false_2; [done|].
    intros ->. unfold digits1 in H. cbn [span_digits] in H. destruct (is_digit b); [|done].
    destruct (span_digits s). injection H as -> _ _. done.
Qed.

Lemma parse_frac_again s f t tl :
  parse_frac s = Some (f, t) -> no_digit tl -> match tl with [] => True | b :: _ => b <> x2e end ->
  parse_frac (f ++ tl) = Some (f, tl).
Proof.
  intros H Hn Hd. assert (H0 : parse_frac ([] ++ tl) = Some ([], tl)).
  { destruct tl as [|b tl]; [done|]. cbn. by rewrite bool_decide_eq_false_2. }
  destruct s as [|b s]; cbn [parse_frac] in H; [by injection H as <- <-|].
  case_bool_decide as Hb; [|by injection H as <- <-].
  destruct (digits1 s) as [[d t']|] eqn:E; [|done]. injection H as <- <-.
  cbn [app parse_frac]. change (bool_decide (x2e = x2e)) with true. cbn match.
  by destruct (digits1_again _ _ _ _ E Hn) as [-> _].
Qed.

Lemma parse_frac_head s f t : parse_frac s = Some (f, t) -> match f with [] => True | b :: _ => b = x2e end.
Proof.
  destruct s as [|b s]; cbn; [by intros [= <- <-]|]. case_bool_decide; [|by intros [= <- <-]].
  destruct (digits1 s) as [[d t']|]; [|done]. by intros [= <- <-].
Qed.

Lemma parse_exp_again s e t :
  parse_exp s = Some (e, t) ->
  parse_exp e = Some (e, []) /\ no_digit e /\ match e with [] => True | b :: _ => b <> x2e end.
Proof.
  destruct s as [|b s]; cbn [parse_exp]; [by intros [= <- <-]|].
  destruct (_ || _) eqn:Eb; [|by intros [= <- <-]]. destruct s as [|c s]; [done|].
  assert (Hb : is_digit b = false /\ b <> x2e).
  { apply orb_prop in Eb as [Eb|Eb]; apply bool_decide_eq_true_1 in Eb as ->; done. }
  destruct (bool_decide (c = x2b) || bool_decide (c = x2d)) eqn:Ec.
  - destruct (digits1 s) as [[d t']|] eqn:E; [|done]. intros [= <- <-]. cbn [parse_exp]. rewrite Eb, Ec.
    destruct (digits1_again _ _ _ [] E I) as (H&_&_). rewrite app_nil_r in H. rewrite H. by destruct Hb.
  - destruct (digits1 (c :: s)) as [[d t']|] eqn:E; [|done]. intros [= <- <-].
    destruct (digits1_again _ _ _ [] E I) as (H&(x&r&->&Hx)&_). rewrite app_nil_r in H.
    cbn [parse_exp]. rewrite Eb.
    assert (bool_decide (x = x2b) || bool_decide (x = x2d) = false) as ->.
    { rewrite !bool_decide_eq_false_2; [done|..]; intros ->; done. }
    rewrite H. by destruct Hb.
Qed.

Lemma parse_number_valid s lit t : parse_number s = Some (lit, t) -> valid_number lit.
Proof.
  unfold valid_number. intros H. unfold parse_number in H.
  set (p := match s with
            | b :: r => if bool_decide (b = x2d) then ([b], r) else ([], s)
            | [] => ([], []) end) in H.
  assert (Hsign : p.1 = [] \/ p.1 = [x2d]).
  { unfold p. destruct s as [|b s]; [by left|]. case_bool_decide; [subst; by right|by left]. }
  destruct p as [sign s1]. cbn [fst] in Hsign.
  destruct (parse_int s1) as [[i s2]|] eqn:E1; [|done]. cbn [mbind option_bind] in H.
  destruct (parse_frac s2) as [[f s3]|] eqn:E2; [|done]. cbn [mbind option_bind] in H.
  destruct (parse_exp s3) as [[e s4]|] eqn:E3; [|done]. cbn [mbind option_bind] in H. injection H as <- <-.
  destruct (parse_exp_again _ _ _ E3) as (He&Hne&Hde).
  pose proof (parse_frac_head _ _ _ E2) as Hf.
  assert (Hfe : no_digit (f ++ e)) by (destruct f as [|b f]; [done|cbn in *; by subst]).
  destruct (parse_int_again _ _ _ _ E1 Hfe) as (Hi&b&r&Eb&Hb).
  assert (Hb' : bool_decide (b = x2d) = false) by (apply bool_decide_eq_false_2; intros ->; done).
  unfold parse_number. destruct Hsign as [-> | ->]; cbn [app].
  - rewrite Eb. cbn [app]. rewrite Hb'. rewrite Eb in Hi. cbn [app] in Hi. rewrite Hi. cbn [mbind option_bind].
    rewrite (parse_frac_again _ _ _ _ E2 Hne Hde). cbn [mbind option_bind]. by rewrite He.
  - change (bool_decide (x2d = x2d)) with true. cbn match. rewrite Hi. cbn [mbind option_bind].
    rewrite (parse_frac_again _ _ _ _ E2 Hne Hde). cbn [mbind option_bind]. by rewrite He.
Qed.

Lemma hex_val_range b z : hex_val b = Some z -> 0 <= z < 16.
Proof.
  unfold hex_val, in_range. pose proof (bZ_range b).
  repeat match goal with |- context [if ?c then _ else _] => destruct c eqn:? end; intros [= <-];
    bool_to_prop; lia.
Qed.

Lemma hex4_range s z r : hex4 s = Some (z, r) -> 0 <= z.
Proof.
  unfold hex4. destruct s as [|a [|b [|c [|d s]]]]; try done.
  destruct (hex_val a) eqn:Ea, (hex_val b) eqn:Eb, (hex_val c) eqn:Ec, (hex_val d) eqn:Ed; try done.
  apply hex_val_range in Ea, Eb, Ec, Ed. intros [= <- <-]. lia.
Qed.

Lemma unescape_u_valid s c r : unescape_u s = Some (c, r) -> valid_utf8 c.
Proof.
  assert (Hrep : valid_utf8 replacement) by (by eapply (utf8_rune 3); [|constructor]).
  unfold unescape_u. destruct (hex4 s) as [[z rest]|] eqn:E; [|done]. apply hex4_range in E.
  destruct (_ && _) eqn:Ez; [|by intros [= <- <-]; apply encode_rune_valid].
  destruct rest as [|b1 [|b2 rest]]; try by intros [= <- <-].
  destruct (if bool_decide (b1 = x5c) && bool_decide (b2 = x75) then hex4 rest else None) as [[z2 r2]|];
    [|by intros [= <- <-]].
  destruct ((0xDC00 <=? z2) && (z2 <? 0xE000)) eqn:Ez2; intros [= <- <-]; [|done]. bool_to_prop. apply encode_rune_valid. lia.
Qed.

Lemma parse_string_valid fuel s t r : parse_string fuel s = Some (t, r) -> valid_utf8 t.
Proof.
  assert (Hrep : valid_utf8 replacement) by (by eapply (utf8_rune 3); [|constructor]).
  revert s t r. induction fuel as [|fuel IH]; intros s t r; [done|]. cbn [parse_string].
  destruct s as [|b s]; [done|]. case_bool_decide; [intros [= <- <-]; constructor|].
  case_bool_decide as Hb.
  - destruct s as [|e s]; [done|]. case_bool_decide as He.
    + destruct (unescape_u s) as [[c r2]|] eqn:E; [|done]. cbn [mbind option_bind].
      destruct (parse_string fuel r2) as [[x r3]|] eqn:E2; [|done]. intros [= <- <-].
      apply valid_utf8_app; [by eapply unescape_u_valid|by eapply IH].
    + destruct (unescape_simple e) as [c|] eqn:E; [|done]. cbn [mbind option_bind].
      destruct (parse_string fuel s) as [[x r3]|] eqn:E2; [|done]. intros [= <- <-].
      apply utf8_ascii; [|by eapply IH]. clear -E. by destruct e; try discriminate E; injection E as <-.
  - destruct (bZ b <? 32); [done|]. destruct (is_ascii b) eqn:Ea.
    + destruct (parse_string fuel s) as [[x r3]|] eqn:E2; [|done]. intros [= <- <-].
      apply utf8_ascii; [done|by eapply IH].
    + destruct (rune_size (b :: s)) as [n|] eqn:En.
      * destruct (parse_string fuel (drop n (b :: s))) as [[x r3]|] eqn:E2; [|done]. intros [= <- <-].
        apply valid_utf8_app; [by apply valid_utf8_take|by eapply IH].
      * destruct (parse_string fuel s) as [[x r3]|] eqn:E2; [|done]. intros [= <- <-].
        change (valid_utf8 (replacement ++ x)). apply valid_utf8_app; [done|by eapply IH].
Qed.

Lemma assoc_set_keys k v m x : x ∈ (assoc_set k v m).*1 <-> x = k \/ x ∈ m.*1.
Proof.
  induction m as [|[k' v'] m IH]; cbn; [by rewrite elem_of_cons|].
  case_bool_decide; cbn; [subst; rewrite !elem_of_cons; tauto|]. rewrite !elem_of_cons, IH. tauto.
Qed.

Lemma assoc_set_wf k v m : valid_utf8 k -> wf_json v -> wf_json (JObj m) -> wf_json (JObj (assoc_set k v m)).
Proof.
  rewrite !wf_obj. intros Hk Hv [Hn Hm].
  induction m as [|[k' v'] m IH]; cbn in *.
  - split; [apply NoDup_singleton|by constructor].
  - apply NoDup_cons in Hn as [Hn1 Hn2]. apply Forall_cons in Hm as [Hm1 Hm2].
    case_bool_decide; cbn; [subst; split; [by constructor|by constructor]|].
    destruct (IH Hn2 Hm2) as [Ha Hb]. split; [|by constructor].
    constructor; [|done]. rewrite assoc_set_keys. intros [->|?]; [|done]. congruence.
Qed.

Lemma parse_valid fuel :
  (forall s v r, parse_value assoc_set fuel s = Some (v, r) -> wf_json v)
  /\ (forall s l r, parse_elems assoc_set fuel s = Some (l, r) -> wf_json (JArr l))
  /\ (forall acc s m r, wf_json (JObj acc) -> parse_members assoc_set fuel acc s = Some (m, r) -> wf_json (JObj m)).
Proof.
  induction fuel as [|fuel (IHv&IHe&IHm)]; [by split_and!|]. split_and!.
  - intros s v r. cbn [parse_value]. destruct (skip_ws s) as [|b t]; [done|]. repeat case_bool_decide.
    + destruct (parse_string _ _) as [[x r']|] eqn:E; [|done]. intros [= <- <-]. by eapply parse_string_valid.
    + destruct (skip_ws t) as [|c t']; [done|]. case_bool_decide; [by intros [= <- <-]|].
      destruct (parse_elems assoc_set fuel t) as [[x r']|] eqn:E; [|done]. intros [= <- <-]. by eapply IHe.
    + destruct (skip_ws t) as [|c t']; [done|]. case_bool_decide.
      { intros [= <- <-]. apply wf_obj. split; constructor. }
      destruct (parse_members assoc_set fuel [] t) as [[x r']|] eqn:E; [|done]. intros [= <- <-].
      eapply IHm; [|done]. apply wf_obj. split; constructor.
    + destruct (strip _ _); [|done]. by intros [= <- <-].
    + destruct (strip _ _); [|done]. by intros [= <- <-].
    + destruct (strip _ _); [|done]. by intros [= <- <-].
    + destruct (parse_number _) as [[x r']|] eqn:E; [|done]. intros [= <- <-]. by eapply parse_number_valid.
  - intros s l r. cbn [parse_elems]. destruct (parse_value assoc_set fuel s) as [[v r1]|] eqn:E; [|done].
    cbn [mbind option_bind]. destruct (skip_ws r1) as [|c r2]; [done|]. repeat case_bool_decide; [| |done].
    + destruct (parse_elems assoc_set fuel r2) as [[x r']|] eqn:E2; [|done]. intros [= <- <-].
      split; [by eapply IHv|by eapply (IHe _ x)].
    + intros [= <- <-]. split; [by eapply IHv|done].
  - intros acc s m r Hacc. cbn [parse_members]. destruct (skip_ws s) as [|q t]; [done|].
    case_bool_decide; [|done]. destruct (parse_string _ t) as [[k r2]|] eqn:Ek; [|done].
    cbn [mbind option_bind]. destruct (skip_ws r2) as [|c r3]; [done|]. case_bool_decide; [|done].
    destruct (parse_value assoc_set fuel r3) as [[v r4]|] eqn:Ev; [|done]. cbn [mbind option_bind].
    assert (Hset : wf_json (JObj (assoc_set k v acc))).
    { apply assoc_set_wf; [by eapply parse_string_valid|by eapply IHv|done]. }
    destruct (skip_ws r4) as [|d r5]; [done|]. repeat case_bool_decide; [|by intros [= <- <-]|done].
    by apply IHm.
Qed.

Lemma decode_valid raw v : decode raw = Some v -> wf_json v.
Proof.
  unfold decode, decode_one. destruct (parse_value _ _ raw) as [[w r]|] eqn:E; [|done]. cbn [mbind option_bind].
  case_match; [|done]. intros [= <-]. by eapply (parse_valid _).
Qed.

(** ** The canonical form *)

(** The same JSON value: members may come in any order, at every depth. *)
Inductive same_json : json -> json -> Prop :=
| same_refl v : same_json v v
| same_sym v w : same_json v w -> same_json w v
| same_trans u v w : same_json u v -> same_json v w -> same_json u w
| same_elem l v w r : same_json v w -> same_json (JArr (l ++ v :: r)) (JArr (l ++ w :: r))
| same_member m k v w r : same_json v w -> same_json (JObj (m ++ (k, v) :: r)) (JObj (m ++ (k, w) :: r))
| same_order m m' : m ≡ₚ m' -> same_json (JObj m) (JObj m').

#[export] Instance same_json_equiv : Equivalence same_json.
Proof. split; [exact same_refl|exact same_sym|exact same_trans]. Qed.

#[export] Instance wf_json_proper : Proper (same_json ==> iff) wf_json.
Proof.
  intros v w H. induction H as [v|v w _ IH|u v w _ IH1 _ IH2|l v w r _ IH|m k v w r _ IH|m m' H].
  - done.
  - by rewrite IH.
  - by rewrite IH1.
  - rewrite !wf_arr, !Forall_app, !Forall_cons. by rewrite IH.
  - rewrite !wf_obj, !fmap_app, !fmap_cons, !Forall_app, !Forall_cons. cbn [fst snd]. by rewrite IH.
  - rewrite !wf_obj. by rewrite H.
Qed.

Lemma same_arr l l' : Forall2 same_json l l' -> same_json (JArr l) (JArr l').
Proof.
  intros H. enough (forall pre, same_json (JArr (pre ++ l)) (JArr (pre ++ l'))) as He by exact (He []).
  induction H as [|v w l l' Hv _ IH]; intros pre; [done|].
  etrans; [by apply same_elem|]. specialize (IH (pre ++ [w])). by rewrite <-!app_assoc in IH.
Qed.

Lemma same_obj m m' :
  Forall2 (fun kv kw => kv.1 = kw.1 /\ same_json kv.2 kw.2) m m' -> same_json (JObj m) (JObj m').
Proof.
  intros H. enough (forall pre, same_json (JObj (pre ++ m)) (JObj (pre ++ m'))) as He by exact (He []).
  induction H as [|[k v] [k' w] m m' [Hk Hv] _ IH]; intros pre; [done|]. cbn in Hk, Hv. subst k'.
  etrans; [by apply same_member|]. specialize (IH (pre ++ [(k, w)])). by rewrite <-!app_assoc in IH.
Qed.

Lemma same_sorted v : same_json v (sorted_json v).
Proof.
  induction v as [|b|lit|s|l IH|m IH] using json_induction; cbn [sorted_json]; try done.
  - apply same_arr. induction IH; constructor; auto.
  - etrans; [|apply same_order; symmetry; apply sort_fields_perm].
    apply same_obj. induction IH; constructor; auto.
Qed.

Lemma same_written v w : same_json v w -> wf_json v -> writeCanonical v = writeCanonical w.
Proof.
  intros H. induction H as [v|v w H IH|u v w H1 IH1 H2 IH2|l v w r _ IH|m k v w r _ IH|m m' H]; intros Hw.
  - done.
  - symmetry. apply IH. by rewrite H.
  - rewrite IH1 by done. apply IH2. by rewrite <-H1.
  - apply wf_arr, Forall_app in Hw as [_ [Hw _]%Forall_cons]. cbn [writeCanonical].
    rewrite !map_app. cbn [map]. by rewrite IH.
  - apply wf_obj in Hw as [_ Hw]. apply Forall_app in Hw as [_ [[_ Hw] _]%Forall_cons]. cbn [writeCanonical].
    rewrite !map_app. cbn [map fst snd] in *. by rewrite IH.
  - apply wf_obj in Hw as [Hn _]. rewrite !writeCanonical_obj. by rewrite (sort_fields_unique _ _ H Hn).
Qed.

Lemma written_sorted v : wf_json v -> writeCanonical (sorted_json v) = writeCanonical v.
Proof. intros Hw. symmetry. apply same_written; [apply same_sorted|done]. Qed.

Lemma sorted_json_idemp v : wf_json v -> sorted_json (sorted_json v) = sorted_json v.
Proof.
  intros Hw. assert (Hs : wf_json (sorted_json v)) by (by rewrite <-(same_sorted v)).
  apply (inj Some). rewrite <-!decode_written by done. by rewrite written_sorted.
Qed.

(** C11: two well-formed values have the same canonical bytes exactly when they are the same JSON value
    up to the order of object members: the form is a function of the value and loses nothing. *)
Theorem writeCanonical_same v w :
  wf_json v -> wf_json w -> (writeCanonical v = writeCanonical w <-> same_json v w).
Proof.
  intros Hv Hw. split; [|intros; by apply same_written].
  intros H. apply (f_equal decode) in H. rewrite !decode_written in H by done. injection H as H.
  rewrite (same_sorted v), H. symmetry. apply same_sorted.
Qed.

(** A JSON text written with single quotes. *)
Definition js (s : String.string) : bytes :=
  (fun b => if bool_decide (b = x27) then x22 else b) <$> str s.

Definition demo_obj : json :=
  JObj [(str "b", JArr [JNum (str "9223372036854775807"); JNull]); (str "a", JStr (str "x<y"))].
Definition demo_obj' : json :=
  JObj [(str "a", JStr (str "x<y")); (str "b", JArr [JNum (str "9223372036854775807"); JNull])].

Lemma demo_obj_wf : wf_json demo_obj /\ wf_json demo_obj'.
Proof.
  assert (Ha : forall s, forallb is_ascii s = true -> valid_utf8 s).
  { induction s as [|b s IH]; cbn; intros H; constructor; apply andb_prop in H as [? ?]; auto. }
  split; apply wf_obj; (split; [by apply (bool_decide_unpack _)|]);
    repeat constructor; cbn; try (by apply Ha); by apply wf_arr; repeat constructor.
Qed.

Lemma writeCanonical_same_witness :
  writeCanonical demo_obj = js "{'a':'x<y','b':[9223372036854775807,null]}" /\ same_json demo_obj demo_obj'.
Proof.
  split; [vm_compute; reflexivity|]. destruct demo_obj_wf as [H1 H2].
  apply (writeCanonical_same demo_obj demo_obj' H1 H2). vm_compute. reflexivity.
Defined.

(** Canonicalizing any input the decoder accepts keeps its value, and canonicalizing the result
    again changes nothing. *)
Theorem canonicalizeJSON_idempotent raw c :
  canonicalizeJSON raw = Some c ->
  canonicalizeJSON c = Some c
  /\ exists v w, decode raw = Some v /\ decode c = Some w /\ same_json v w.
Proof.
  unfold canonicalizeJSON. destruct (decode raw) as [v|] eqn:E; [|done]. intros [= <-].
  pose proof (decode_valid _ _ E) as Hw. rewrite decode_written by done. cbn. rewrite written_sorted by done.
  split; [done|]. exists v, (sorted_json v). split_and!; [done..|apply same_sorted].
Qed.

Definition demo_raw : bytes := js "{ 'b' : [1.50, true] , 'a':'\u0041\n', 'b':{} }".

Lemma canonicalizeJSON_idempotent_witness :
  canonicalizeJSON demo_raw = Some (js "{'a':'A\n','b':{}}")
  /\ canonicalizeJSON (js "{'a':'A\n','b':{}}") = Some (js "{'a':'A\n','b':{}}").
Proof.
  assert (H : canonicalizeJSON demo_raw = Some (js "{'a':'A\n','b':{}}")) by (vm_compute; reflexivity).
  split; [exact H|]. apply (canonicalizeJSON_idempotent demo_raw _ H).
Defined.

(** ** Repeated members *)

(** What a reader of maps makes of a value: the last member of a name wins, at every level. *)
Fixpoint collapse (v : json) : json :=
  match v with
  | JArr l => JArr (map collapse l)
  | JObj m =>
      JObj ((fix go (acc m : list (bytes * json)) := match m with [] => acc | kv :: m => go (assoc_set kv.1 (collapse kv.2) acc) m end) [] m)
  | _ => v
  end.

Definition collapse_members (m : list (bytes * json)) : list (bytes * json) :=
  fold_left (fun acc kv => assoc_set kv.1 (collapse kv.2) acc) m [].

Lemma collapse_obj m : collapse (JObj m) = JObj (collapse_members m).
Proof. cbn. f_equal. unfold collapse_members. generalize (@nil (bytes * json)) as acc. induction m as [|kv m IH]; intros acc; [done|]. apply IH. Qed.

Lemma collapse_members_snoc m k v : collapse_members (add_member k v m) = assoc_set k (collapse v) (collapse_members m).
Proof. unfold collapse_members, add_member. by rewrite fold_left_app. Qed.

Lemma parse_collapse fuel :
  (forall s, parse_value assoc_set fuel s = (fun x => (collapse x.1, x.2)) <$> parse_value add_member fuel s)
  /\ (forall s, parse_elems assoc_set fuel s = (fun x => (map collapse x.1, x.2)) <$> parse_elems add_member fuel s)
  /\ (forall acc s, parse_members assoc_set fuel (collapse_members acc) s
        = (fun x => (collapse_members x.1, x.2)) <$> parse_members add_member fuel acc s).
Proof.
  induction fuel as [|fuel (IHv&IHe&IHm)]; [done|]. split; [|split].
  - intros s. cbn [parse_value]. destruct (skip_ws s) as [|b r]; [done|].
    destruct (bool_decide (b = x22)); [by destruct (parse_string _ _) as [[? ?]|]|].
    destruct (bool_decide (b = x5b)).
    { destruct (skip_ws r) as [|c r2]; [done|]. destruct (bool_decide _); [done|]. rewrite IHe. by destruct (parse_elems add_member fuel r) as [[? ?]|]. }
    destruct (bool_decide (b = x7b)).
    { destruct (skip_ws r) as [|c r2]; [done|]. destruct (bool_decide _); [done|]. change [] with (collapse_members []) at 1. rewrite IHm.
      destruct (parse_members add_member fuel [] r) as [[m r3]|]; [|done]. cbn [fmap option_fmap option_map mbind option_bind fst snd].
      by rewrite collapse_obj. }
    destruct (bool_decide (b = x6e)); [by destruct (strip _ _)|]. destruct (bool_decide (b = x74)); [by destruct (strip _ _)|].
    destruct (bool_decide (b = x66)); [by destruct (strip _ _)|]. by destruct (parse_number _) as [[? ?]|].
  - intros s. cbn [parse_elems]. rewrite IHv. destruct (parse_value add_member fuel s) as [[v r]|]; [|done].
    cbn [fmap option_fmap option_map mbind option_bind fst snd]. destruct (skip_ws r) as [|c r2]; [done|].
    destruct (bool_decide (c = x2c)); [rewrite IHe; by destruct (parse_elems add_member fuel r2) as [[? ?]|]|]. by destruct (bool_decide _).
  - intros acc s. cbn [parse_members]. destruct (skip_ws s) as [|q r]; [done|]. destruct (bool_decide (q = x22)); [|done].
    destruct (parse_string _ _) as [[k r2]|]; [|done]. cbn [mbind option_bind]. destruct (skip_ws r2) as [|c r3]; [done|].
    destruct (bool_decide (c = x3a)); [|done]. rewrite IHv. destruct (parse_value add_member fuel r3) as [[v r4]|]; [|done].
    cbn [fmap option_fmap option_map mbind option_bind fst snd]. rewrite <-collapse_members_snoc. destruct (skip_ws r4) as [|d r5]; [done|].
    destruct (bool_decide (d = x2c)); [apply IHm|]. by destruct (bool_decide _).
Qed.

(** The two decoders read the same values. *)
Lemma decode_collapse raw : decode raw = (fun x => collapse x.1) <$> decode_raw raw.
Proof.
  unfold decode, decode_raw, decode_one. rewrite (proj1 (parse_collapse _)).
  destruct (parse_value add_member _ raw) as [[v r]|]; [|done]. cbn [fmap option_fmap option_map mbind option_bind fst snd].
  assert (E : ends_value (collapse v) r = ends_value v r) by (by destruct v). rewrite E. by destruct (ends_value v r).
Qed.

(** A value without repeated names is left alone. *)
Lemma collapse_wf v : wf_json v -> collapse v = v.
Proof.
  induction v as [|b|lit|s|l IH|m IH] using json_induction; intros Hw; try done.
  - apply wf_arr in Hw. cbn. f_equal. induction IH as [|v l Hv _ IHl]; [done|]. apply Forall_cons in Hw as [? ?]. cbn. by rewrite Hv, IHl.
  - apply wf_obj in Hw as [Hn Hw]. rewrite collapse_obj. f_equal. unfold collapse_members.
    assert (H : forall acc, NoDup (acc ++ m).*1 -> fold_left (fun acc kv => assoc_set kv.1 (collapse kv.2) acc) m acc = acc ++ m); [|by apply (H [])].
    clear Hn. induction IH as [|[k v] m Hv _ IHm]; intros acc Hn; cbn [fold_left]; [by rewrite app_nil_r|].
    apply Forall_cons in Hw as [[_ Hv'] Hw]. cbn [fst snd] in *. rewrite Hv, assoc_set_new by
      (done || (rewrite fmap_app in Hn; apply NoDup_app in Hn as (_&H&_); intros Hk; apply (H k Hk); left)).
    rewrite IHm by (done || by rewrite <-app_assoc). by rewrite <-app_assoc.
Qed.
