(* ===== verification/JsonText.v ===== *)
(** * Strings and integers as JSON text

    The runes of a Go string ([for _, r := range s]), the UTF-8 coercion of [json.Marshal], and decimal
    integers as JSON numbers. *)

From S2P Require Import Prelude GoStrings Json.

(** ** Rune-wise strings *)

(** The runes [for _, r := range s] visits, each as its UTF-8 bytes. *)
Fixpoint runes (fuel : nat) (s : bytes) : list bytes :=
  match fuel, s with
  | S fuel', b :: r =>
      if is_ascii b then [b] :: runes fuel' r
      else match rune_size s with
           | Some n => take n s :: runes fuel' (drop n s)
           | None => replacement :: runes fuel' r
           end
  | _, _ => []
  end.

Definition range_runes (s : bytes) : list bytes := runes (length s) s.

(** A string after [json.Marshal] and decoding: invalid UTF-8 is replaced. *)
Definition to_valid (s : bytes) : bytes := concat (range_runes s).

(** One visited rune: an ASCII byte or a whole multi-byte rune. *)
Definition rune_ok (r : bytes) : Prop :=
  (exists b, r = [b] /\ is_ascii b = true)
  \/ (exists b t, r = b :: t /\ is_ascii b = false /\ (2 <= length r)%nat
       /\ forall k, rune_size (r ++ k) = Some (length r)).

Lemma runes_ok fuel s : Forall rune_ok (runes fuel s).
Proof.
  revert s. induction fuel as [|fuel IH]; intros [|b s]; cbn [runes]; try (by constructor).
  destruct (is_ascii b) eqn:Ea; [constructor; [left; eauto|done]|].
  destruct (rune_size (b :: s)) as [n|] eqn:En; constructor; try done; right.
  - destruct (rune_size_spec _ _ En) as (_&_&_&_&Hle&Ht).
    assert (Hl : length (take n (b :: s)) = n) by (rewrite length_take; lia).
    rewrite Hl. destruct n as [|n]; [lia|]. exists b, (take n s). cbn [take]. split_and!; [done..|lia|exact Ht].
  - exists xef, [xbf; xbd]. split_and!; [done..|cbn; lia|done].
Qed.

Lemma runes_valid rs : Forall rune_ok rs -> valid_utf8 (concat rs).
Proof.
  induction 1 as [|r rs [(b&->&Hb)|(b&t&->&Hb&Hl&Ht)] _ IH]; cbn [concat]; [constructor|by apply utf8_ascii|].
  apply (utf8_rune (length (b :: t))); [apply Ht|]. by rewrite drop_app_length.
Qed.

Lemma to_valid_valid s : valid_utf8 (to_valid s).
Proof. apply runes_valid, runes_ok. Qed.

Definition escape_rune (r : bytes) : bytes :=
  match r with
  | [b] => escape_ascii b
  | _ => if is_line_sep r then [x5c; x75; x32; x30; x32; hex_digit (bZ (nth 2 r x00) - 0xA0)] else r
  end.

Lemma escape_body_runes fuel rs :
  Forall rune_ok rs -> (length (concat rs) <= fuel)%nat ->
  escape_body fuel (concat rs) = concat (escape_rune <$> rs).
Proof.
  intros H. revert fuel. induction H as [|r rs Hr _ IH]; intros fuel Hf; [by destruct fuel|].
  cbn [concat fmap list_fmap] in *. rewrite length_app in Hf.
  destruct Hr as [(b&->&Hb)|(b&t&E&Hb&Hl&Ht)].
  - destruct fuel as [|fuel]; [cbn in Hf; lia|]. cbn [app escape_with]. cbn in Hf. by rewrite Hb, IH by lia.
  - destruct fuel as [|fuel]; [lia|]. specialize (Ht (concat rs)).
    assert (Heq : escape_body (S fuel) (r ++ concat rs) =
      (if is_line_sep r then [x5c; x75; x32; x30; x32; hex_digit (bZ (nth 2 (r ++ concat rs) x00) - 0xA0)] else r)
      ++ escape_body fuel (concat rs)).
    { rewrite E in Ht |- *. cbn [app escape_with]. cbn [app] in Ht. rewrite Hb, Ht.
      change (b :: t ++ concat rs) with ((b :: t) ++ concat rs).
      by rewrite take_app_length, drop_app_length. }
    rewrite Heq, IH by lia. f_equal.
    assert (Er : escape_rune r
      = if is_line_sep r then [x5c; x75; x32; x30; x32; hex_digit (bZ (nth 2 r x00) - 0xA0)] else r).
    { rewrite E in Hl |- *. by destruct t; [cbn in Hl; lia|]. }
    rewrite Er. destruct (is_line_sep r) eqn:Els; [|done]. rewrite app_nth1; [done|].
    apply orb_prop in Els as [Els|Els]; apply bool_decide_eq_true_1 in Els as ->; cbn; lia.
Qed.

Lemma runes_id fuel s : valid_utf8 s -> (length s <= fuel)%nat -> concat (runes fuel s) = s.
Proof.
  intros H. revert fuel. induction H as [|b s Hb H IH|n s Hn H IH]; intros fuel Hf; [by destruct fuel|..].
  - destruct fuel as [|fuel]; [cbn in Hf; lia|]. cbn [runes]. rewrite Hb. cbn [concat app]. f_equal. apply IH. cbn in Hf. lia.
  - destruct (rune_size_spec _ _ Hn) as (b&t&E&Ha&Hle&_). subst s. destruct fuel as [|fuel]; [cbn in Hf; lia|].
    cbn [runes]. rewrite Ha, Hn. cbn [concat]. rewrite IH, take_drop; [done|]. rewrite length_drop. lia.
Qed.

Lemma to_valid_id s : valid_utf8 s -> to_valid s = s.
Proof. intros H. by apply runes_id. Qed.

(** ** Decimal literals are JSON numbers *)

Lemma format_nat_digits fuel z :
  0 <= z < 10 ^ Z.of_nat fuel -> (0 < fuel)%nat ->
  forallb is_digit (format_nat fuel z) = true
  /\ exists b r, format_nat fuel z = b :: r /\ (b = x30 -> r = []).
Proof.
  revert z. induction fuel as [|fuel IH]; [lia|]. intros z Hz _. cbn [format_nat].
  destruct (Z.ltb_spec z 10).
  - cbn. rewrite is_digit_digit by lia. split; [done|]. by exists (digit z), [].
  - rewrite Nat2Z.inj_succ, Z.pow_succ_r in Hz by lia.
    assert (Hd : 1 <= z / 10 < 10 ^ Z.of_nat fuel)
      by (split; [apply Z.div_le_lower_bound; lia|apply Z.div_lt_upper_bound; lia]).
    destruct fuel as [|fuel]; [cbn in Hd; lia|].
    destruct (IH (z / 10) ltac:(lia) ltac:(lia)) as (Hall&b&r&E&Hb). rewrite forallb_app, Hall. cbn.
    rewrite is_digit_digit by (apply Z.mod_pos_bound; lia). split; [done|].
    change (if z / 10 <? 10 then [digit (z / 10)] else format_nat fuel (z / 10 / 10) ++ [digit ((z / 10) mod 10)])
      with (format_nat (S fuel) (z / 10)). rewrite E. exists b. eexists. split; [done|]. intros Hx. exfalso.
    rewrite (Hb Hx) in E. clear -E Hx Hd. subst b. cbn [format_nat] in E. destruct (Z.ltb_spec (z / 10) 10).
    + injection E as E. apply (f_equal bZ) in E. rewrite bZ_digit in E by lia. change (bZ x30) with 48 in E. lia.
    + apply (f_equal length) in E. rewrite length_app in E. cbn in E.
      destruct fuel; [|cbn in E; destruct (_ <? _); [|rewrite length_app in E]; cbn in E; lia].
      cbn in Hd. lia.
Qed.

Lemma span_digits_all s : forallb is_digit s = true -> span_digits s = (s, []).
Proof.
  induction s as [|b s IH]; [done|]. cbn. intros [Hb Hs]%andb_prop. by rewrite Hb, IH.
Qed.

Lemma format_nat_head fuel z :
  0 <= z < 10 ^ Z.of_nat fuel -> (0 < fuel)%nat ->
  exists b r, format_nat fuel z = b :: r /\ is_digit b = true /\ (b = x30 -> r = []) /\ forallb is_digit (b :: r) = true.
Proof.
  intros Hz Hf. destruct (format_nat_digits fuel z Hz Hf) as (Hall&b&r&E&Hb). rewrite E in Hall.
  exists b, r. split_and!; [done| |done|done]. cbn in Hall. by apply andb_prop in Hall as [? _].
Qed.

Lemma dec_val_format_nat fuel z : 0 <= z < 10 ^ Z.of_nat fuel -> (0 < fuel)%nat -> dec_val (format_nat fuel z) = z.
Proof.
  revert z. induction fuel as [|fuel IH]; [lia|]. intros z Hz _. cbn [format_nat].
  destruct (Z.ltb_spec z 10); [change (dec_val [digit z]) with (0 * 10 + (bZ (digit z) - 48)); rewrite bZ_digit; lia|].
  rewrite Nat2Z.inj_succ, Z.pow_succ_r in Hz by lia.
  assert (Hd : 1 <= z / 10 < 10 ^ Z.of_nat fuel)
    by (split; [apply Z.div_le_lower_bound; lia|apply Z.div_lt_upper_bound; lia]).
  destruct fuel as [|fuel]; [cbn in Hd; lia|].
  pose proof (Z.mod_pos_bound z 10 ltac:(lia)). pose proof (Z.div_mod z 10 ltac:(lia)).
  rewrite dec_val_snoc, bZ_digit, IH by lia. lia.
Qed.

Lemma digit_literal b r :
  is_digit b = true -> (b = x30 -> r = []) -> forallb is_digit (b :: r) = true -> parse_int (b :: r) = Some (b :: r, []).
Proof.
  intros Hd Hb Hall. cbn [parse_int]. case_bool_decide as H0; [by rewrite (Hb H0); subst|].
  unfold digits1. by rewrite span_digits_all.
Qed.

Lemma FormatInt_wide z : - 2 ^ 63 <= z < 2 ^ 64 -> valid_number (FormatInt z).
Proof.
  intros Hz. unfold FormatInt, valid_number, parse_number. destruct (Z.ltb_spec z 0).
  - destruct (format_nat_head 20 (- z)) as (b&r&->&Hd&Hb&Hall); [lia..|].
    change (str "-" ++ b :: r) with (x2d :: b :: r). cbv iota beta.
    rewrite (bool_decide_eq_true_2 (x2d = x2d)), digit_literal by done. cbn. by rewrite app_nil_r.
  - destruct (format_nat_head 20 z) as (b&r&->&Hd&Hb&Hall); [lia..|]. cbv iota beta.
    rewrite (bool_decide_eq_false_2 (b = x2d)), digit_literal by (done || (intros ->; done)). cbn. by rewrite app_nil_r.
Qed.

Lemma FormatInt_valid z : in_i64 z -> valid_number (FormatInt z).
Proof. unfold in_i64, MaxInt64. intros Hz. apply FormatInt_wide. lia. Qed.

Lemma ParseUint_FormatInt z : 0 <= z < 2 ^ 64 -> ParseUint (FormatInt z) = Some z.
Proof.
  intros Hz. unfold FormatInt, ParseUint. destruct (Z.ltb_spec z 0); [lia|].
  pose proof (dec_val_format_nat 20 z ltac:(lia) ltac:(lia)) as Hv.
  destruct (format_nat_head 20 z) as (b&r&E&Hd&Hb&Hall); [lia..|]. rewrite E in *.
  rewrite (bool_decide_eq_false_2 (b :: r = [])), Hall by done. cbn [orb negb].
  rewrite Hv. by rewrite (proj2 (Z.ltb_lt _ _)) by lia.
Qed.

Lemma ParseInt_FormatInt z : in_i64 z -> ParseInt (FormatInt z) = Some z.
Proof.
  intros Hi. pose proof Hi as Hz. unfold in_i64, MaxInt64 in Hz. unfold FormatInt, ParseInt. destruct (Z.ltb_spec z 0).
  - pose proof (dec_val_format_nat 20 (- z) ltac:(lia) ltac:(lia)) as Hv.
    destruct (format_nat_head 20 (- z)) as (b&r&E&Hd&Hb&Hall); [lia..|]. rewrite E in *.
    change (str "-" ++ b :: r) with (x2d :: b :: r). cbv iota beta.
    rewrite (bool_decide_eq_true_2 (x2d = x2d)) by done. rewrite bool_decide_eq_false_2, Hall by done. cbn [orb negb].
    rewrite Hv, Z.opp_involutive. by rewrite bool_decide_eq_true_2.
  - pose proof (dec_val_format_nat 20 z ltac:(lia) ltac:(lia)) as Hv.
    destruct (format_nat_head 20 z) as (b&r&E&Hd&Hb&Hall); [lia..|]. rewrite E in *. cbv iota beta.
    rewrite (bool_decide_eq_false_2 (b = x2d)), (bool_decide_eq_false_2 (b = x2b)) by (intros ->; done).
    rewrite bool_decide_eq_false_2, Hall by done. cbn [orb negb]. rewrite Hv. by rewrite bool_decide_eq_true_2.
Qed.

(** ** Plain ASCII text *)

Lemma ascii_utf8 s : forallb is_ascii s = true -> valid_utf8 s.
Proof. induction s as [|b s IH]; [constructor|]. cbn. intros [Hb Hs]%andb_true_iff. apply utf8_ascii; auto. Qed.

(** Text [encoding/json] writes as it is: printable ASCII but the quote and the backslash. *)
Definition plain (b : byte) : bool := (0x20 <=? bZ b) && (bZ b <? 0x80) && negb (bool_decide (b = x22)) && negb (bool_decide (b = x5c)).

Lemma plain_ascii b : plain b = true -> is_ascii b = true.
Proof. unfold plain, is_ascii. intros H. bool_to_prop. lia. Qed.

Lemma plain_escape s fuel : forallb plain s = true -> (length s <= fuel)%nat -> escape_body fuel s = s.
Proof.
  revert fuel. induction s as [|b s IH]; intros [|fuel] H Hf; cbn in *; try done; [lia|].
  apply andb_prop in H as [Hb Hs]. rewrite (plain_ascii b Hb), IH by (done || lia).
  assert (He : escape_ascii b = [b]) by (clear -Hb; by destruct b; vm_compute in Hb |- *). by rewrite He.
Qed.

Lemma plain_utf8 s : forallb plain s = true -> valid_utf8 s.
Proof.
  intros H. apply ascii_utf8. apply forallb_forall. intros b Hb. apply plain_ascii. by apply (proj1 (forallb_forall _ _) H).
Qed.
