(* ===== verification/GoNet.v ===== *)
(** * Strings, addresses and URLs as the client uses them

    [strings.TrimSpace] and [TrimRight], [net.ParseIP] with [IP.IsLoopback] (a transcription of
    [netip.ParseAddr]'s parsers), and the host part of a URL ([url.URL.Hostname]). *)

From S2P Require Import Prelude GoStrings Json.

(** ** Trimming *)

(** The encodings of the runes [unicode.IsSpace] accepts. *)
Definition spaces : list bytes :=
  map (fun b => [b]) [x09; x0a; x0b; x0c; x0d; x20]
  ++ [[xc2; x85]; [xc2; xa0]; [xe1; x9a; x80]]
  ++ map (fun b => [xe2; x80; b]) [x80; x81; x82; x83; x84; x85; x86; x87; x88; x89; x8a; xa8; xa9; xaf]
  ++ [[xe2; x81; x9f]; [xe3; x80; x80]].

(** The length of the space the string starts (ends) with. *)
Definition leading_space (s : bytes) : option nat :=
  match list_find (fun sp => HasPrefix s sp = true) spaces with Some (_, sp) => Some (length sp) | None => None end.
Definition trailing_space (s : bytes) : option nat :=
  match list_find (fun sp => HasSuffix s sp = true) spaces with Some (_, sp) => Some (length sp) | None => None end.

Fixpoint trim_left (fuel : nat) (s : bytes) : bytes :=
  match fuel with
  | O => s
  | S fuel' => match leading_space s with Some n => trim_left fuel' (drop n s) | None => s end
  end.

Fixpoint trim_right (fuel : nat) (s : bytes) : bytes :=
  match fuel with
  | O => s
  | S fuel' => match trailing_space s with Some n => trim_right fuel' (take (length s - n) s) | None => s end
  end.

(** [strings.TrimSpace]. *)
Definition TrimSpace (s : bytes) : bytes := let s := trim_left (length s) s in trim_right (length s) s.

(** [strings.TrimRight(s, c)] for one byte. *)
Fixpoint trim_right_rev (c : byte) (r : bytes) : bytes :=
  match r with b :: r' => if bool_decide (b = c) then trim_right_rev c r' else r | [] => [] end.
Definition TrimRight (c : byte) (s : bytes) : bytes := rev (trim_right_rev c (rev s)).

(** ** Addresses *)

(** The text up to a separator, and what follows it. *)
Fixpoint cut (sep : byte) (s : bytes) : bytes * option bytes :=
  match s with
  | [] => ([], None)
  | b :: r => if bool_decide (b = sep) then ([], Some r) else let '(a, t) := cut sep r in (b :: a, t)
  end.

Fixpoint split (fuel : nat) (sep : byte) (s : bytes) : list bytes :=
  match fuel with
  | O => [s]
  | S fuel' => match cut sep s with (a, None) => [a] | (a, Some r) => a :: split fuel' sep r end
  end.

(** One octet: digits, no leading zero, at most 255. *)
Definition parse_octet (s : bytes) : option Z :=
  match s with
  | [] => None
  | b :: r =>
      if forallb is_digit s && negb (bool_decide (b = x30) && negb (bool_decide (r = []))) && (zlen s <=? 3)
      then let v := dec_val s in if v <=? 255 then Some v else None
      else None
  end.

(** [parseIPv4Fields]. *)
Definition parseIPv4 (s : bytes) : option (list Z) :=
  match split (length s) x2e s with
  | [a; b; c; d] =>
      a ← parse_octet a; b ← parse_octet b; c ← parse_octet c; d ← parse_octet d; Some [a; b; c; d]
  | _ => None
  end.

(** The hex digits a group starts with. *)
Fixpoint hex_prefix (s : bytes) : list Z * bytes :=
  match s with
  | b :: r => match hex_val b with Some d => let '(ds, t) := hex_prefix r in (d :: ds, t) | None => ([], s) end
  | [] => ([], [])
  end.

(** The groups of an IPv6 address after an optional leading ellipsis: the bytes read ([ip]), where the
    ellipsis stands, and the rest of the text; [ip] has at most 16 bytes. *)
Fixpoint ipv6_groups (fuel : nat) (ip : list Z) (ellipsis : option nat) (s : bytes) : option (list Z * option nat) :=
  match fuel with
  | O => if bool_decide (s = []) then Some (ip, ellipsis) else None
  | S fuel' =>
      if (16 <=? zlen ip) then (if bool_decide (s = []) then Some (ip, ellipsis) else None)
      else
        let '(ds, r) := hex_prefix s in
        if bool_decide (ds = []) || (4 <? zlen ds) then None
        else
          let acc := fold_left (fun acc d => acc * 16 + d) ds 0 in
          match r with
          | [] => Some (ip ++ [acc / 256; acc mod 256], ellipsis)
          | c :: r' =>
              if bool_decide (c = x2e) then
                (* a trailing IPv4 address *)
                if (bool_decide (ellipsis = None) && negb (zlen ip =? 12)) || (16 <? zlen ip + 4) then None
                else v4 ← parseIPv4 s; Some (ip ++ v4, ellipsis)
              else if negb (bool_decide (c = x3a)) then None
              else
                match r' with
                | [] => None
                | e :: r'' =>
                    let ip := ip ++ [acc / 256; acc mod 256] in
                    if bool_decide (e = x3a) then
                      if bool_decide (ellipsis = None)
                      then (if bool_decide (r'' = []) then Some (ip, Some (length ip)) else ipv6_groups fuel' ip (Some (length ip)) r'')
                      else None
                    else ipv6_groups fuel' ip ellipsis r'
                end
          end
  end.

Definition expand_ellipsis (ip : list Z) (ellipsis : option nat) : option (list Z) :=
  if zlen ip <? 16 then
    match ellipsis with
    | Some e => Some (take e ip ++ replicate (16 - length ip) 0 ++ drop e ip)
    | None => None
    end
  else if bool_decide (ellipsis = None) then Some ip else None.

(** [parseIPv6] of a text without a zone. *)
Definition parseIPv6 (s : bytes) : option (list Z) :=
  match s with
  | x3a :: x3a :: [] => Some (replicate 16 0)
  | x3a :: x3a :: r => '(ip, e) ← ipv6_groups 9 [] (Some O) r; expand_ellipsis ip e
  | _ => '(ip, e) ← ipv6_groups 9 [] None s; expand_ellipsis ip e
  end.

Definition v4_mapped (ip : list Z) : list Z := replicate 10 0 ++ [255; 255] ++ ip.

(** [net.ParseIP]: sixteen bytes, an IPv4 address mapped; a zone is refused. *)
Definition ParseIP (s : bytes) : option (list Z) :=
  match list_find (fun b => b = x2e \/ b = x3a \/ b = x25) s with
  | Some (_, x2e) => v4_mapped <$> parseIPv4 s
  | Some (_, x3a) => if bool_decide (x25 ∈ s) then None else parseIPv6 s
  | _ => None
  end.

(** [IP.IsLoopback]. *)
Definition IsLoopback (ip : list Z) : bool :=
  if bool_decide (take 12 ip = replicate 10 0 ++ [255; 255])
  then bool_decide (ip !! 12%nat = Some 127)
  else bool_decide (ip = replicate 15 0 ++ [1]).

(** ** URLs *)

Record URL : Type := mkURL { u_Scheme : bytes; u_User : option bytes; u_Host : bytes; u_Path : bytes; u_RawQuery : bytes }.

(** [u.Path = p] on a copy. *)
Definition with_path (p : bytes) (u : URL) : URL := mkURL (u_Scheme u) (u_User u) (u_Host u) p (u_RawQuery u).

#[export] Instance URL_eq_dec : EqDecision URL.
Proof. solve_decision. Defined.

(** [validOptionalPort]. *)
Definition validOptionalPort (p : bytes) : bool :=
  match p with [] => true | c :: ds => bool_decide (c = x3a) && forallb is_digit ds end.

(** The last colon and what follows it. *)
Fixpoint last_colon (s : bytes) : option nat :=
  match s with
  | [] => None
  | b :: r => match last_colon r with Some i => Some (S i) | None => if bool_decide (b = x3a) then Some O else None end
  end.

(** [URL.Hostname]: the host without its port and brackets. *)
Definition Hostname (u : URL) : bytes :=
  let host := match last_colon (u_Host u) with
              | Some i => if validOptionalPort (drop i (u_Host u)) then take i (u_Host u) else u_Host u
              | None => u_Host u
              end in
  if HasPrefix host [x5b] && HasSuffix host [x5d] then take (length host - 2) (drop 1 host) else host.
