(* ===== verification/GoPath.v ===== *)
(** * Lexical paths and string splitting ([path.Clean], [strings.Split], [Cut], [FieldsFunc])

    [Clean] works on the elements between separators, as the byte-by-byte original does with its
    backtracking buffer. The theorem at the end is what a root-relative check may rely on: a cleaned
    relative path has no [..] element exactly when walking the original never leaves its root. *)

From S2P Require Import Prelude GoStrings GoNet.

(** [strings.Split(s, c)]. *)
Definition Split (c : byte) (s : bytes) : list bytes := split (length s) c s.

Definition Join (c : byte) (l : list bytes) : bytes :=
  match l with [] => [] | x :: r => x ++ concat (map (fun y => c :: y) r) end.

(** [strings.FieldsFunc]: the maximal runs without a separator. *)
Fixpoint fields_from (sep : byte -> bool) (s cur : bytes) : list bytes :=
  let flush := match cur with [] => [] | _ => [cur] end in
  match s with
  | [] => flush
  | b :: r => if sep b then flush ++ fields_from sep r [] else fields_from sep r (cur ++ [b])
  end.
Definition FieldsFunc (sep : byte -> bool) (s : bytes) : list bytes := fields_from sep s [].

Definition dotdot : bytes := [x2e; x2e].

(** One element onto the reversed stack. *)
Definition clean_elem (rooted : bool) (stack : list bytes) (e : bytes) : list bytes :=
  if bool_decide (e = []) || bool_decide (e = [x2e]) then stack
  else if bool_decide (e = dotdot) then
    match stack with
    | top :: rest => if bool_decide (top = dotdot) then e :: stack else rest
    | [] => if rooted then [] else [e]
    end
  else e :: stack.

(** [path.Clean]. *)
Definition Clean (p : bytes) : bytes :=
  let rooted := HasPrefix p [x2f] in
  let elems := rev (foldl (clean_elem rooted) [] (Split x2f p)) in
  match (if rooted then [x2f] else []) ++ Join x2f elems with [] => [x2e] | c => c end.

(** What is up to the last separator, that included, and what follows it. *)
Fixpoint last_sep (p : bytes) : bytes * bytes :=
  match p with
  | [] => ([], [])
  | b :: r =>
      let '(d, f) := last_sep r in
      if bool_decide (d = []) then (if bool_decide (b = x2f) then ([b], f) else ([], b :: f)) else (b :: d, f)
  end.

(** [filepath.Dir] and [filepath.Base]. *)
Definition Dir (p : bytes) : bytes := Clean (last_sep p).1.

Fixpoint trim_right (c : byte) (s : bytes) : bytes :=
  match s with
  | [] => []
  | b :: r => match trim_right c r with [] => if bool_decide (b = c) then [] else [b] | r' => b :: r' end
  end.

Definition Base (p : bytes) : bytes :=
  match p with
  | [] => [x2e]
  | _ => match (last_sep (trim_right x2f p)).2 with [] => [x2f] | f => f end
  end.

(** ** Splitting *)

Lemma cut_None c s a : cut c s = (a, None) -> a = s /\ c ∉ s.
Proof.
  revert a. induction s as [|b s IH]; intros a; cbn; [intros [= <-]; split; [done|]; inversion 1|].
  case_bool_decide as Hb; [done|]. destruct (cut c s) as [a' t]. intros [= <- ->]. destruct (IH a' eq_refl) as [-> ?].
  split; [done|]. rewrite not_elem_of_cons. split; [congruence|done].
Qed.

Lemma cut_Some c s a r : cut c s = (a, Some r) -> s = a ++ c :: r /\ c ∉ a.
Proof.
  revert a. induction s as [|b s IH]; intros a; cbn; [done|]. case_bool_decide as Hb.
  - intros [= <- <-]. subst. split; [done|]. inversion 1.
  - destruct (cut c s) as [a' t]. intros [= <- ->]. destruct (IH a' eq_refl) as [-> ?]. split; [done|].
    rewrite not_elem_of_cons. split; [congruence|done].
Qed.

Lemma cut_app c a r : c ∉ a -> cut c (a ++ c :: r) = (a, Some r).
Proof.
  induction a as [|b a IH]; intros H; cbn; [by rewrite bool_decide_eq_true_2|].
  apply not_elem_of_cons in H as [? ?]. rewrite bool_decide_eq_false_2 by congruence. by rewrite IH.
Qed.

Lemma cut_all c a : c ∉ a -> cut c a = (a, None).
Proof.
  induction a as [|b a IH]; intros H; cbn; [done|].
  apply not_elem_of_cons in H as [? ?]. rewrite bool_decide_eq_false_2 by congruence. by rewrite IH.
Qed.

(** No element has a separator in it, and there is at least one. *)
Lemma split_elems c fuel s : (length s <= fuel)%nat -> Forall (fun e => c ∉ e) (split fuel c s).
Proof.
  revert s. induction fuel as [|fuel IH]; intros s Hl; cbn [split].
  - destruct s; [|cbn in Hl; lia]. constructor; [|constructor]. inversion 1.
  - destruct (cut c s) as [a [r|]] eqn:E.
    + apply cut_Some in E as [-> Ha]. constructor; [done|]. apply IH. rewrite length_app in Hl. cbn in Hl. lia.
    + apply cut_None in E as [-> Ha]. by constructor.
Qed.

Lemma Split_elems c s : Forall (fun e => c ∉ e) (Split c s).
Proof. by apply split_elems. Qed.

Lemma split_join c l fuel :
  l <> [] -> Forall (fun e => c ∉ e) l -> (length (Join c l) <= fuel)%nat -> split fuel c (Join c l) = l.
Proof.
  intros Hl Hf. destruct l as [|x l]; [done|]. clear Hl. revert x fuel Hf. induction l as [|y l IH]; intros x fuel Hf Hlen; cbn [Join map concat].
  - apply Forall_cons in Hf as [Hx _]. rewrite app_nil_r in *. destruct fuel; cbn [split]; [done|]. by rewrite cut_all.
  - apply Forall_cons in Hf as [Hx Hf]. cbn [Join map concat] in Hlen. rewrite length_app in Hlen. cbn [length] in Hlen.
    destruct fuel as [|fuel]; [cbn in Hlen; lia|]. cbn [split]. rewrite <-app_comm_cons, cut_app by done. f_equal.
    apply (IH y fuel Hf). cbn [Join]. rewrite length_app in *. cbn [length] in Hlen. lia.
Qed.

Lemma Split_Join c l : l <> [] -> Forall (fun e => c ∉ e) l -> Split c (Join c l) = l.
Proof. intros. unfold Split. by apply split_join. Qed.

(** ** Walking a relative path *)

(** The depth below the root after an element; [None] is outside. *)
Definition step (depth : option nat) (e : bytes) : option nat :=
  d ← depth;
  if bool_decide (e = []) || bool_decide (e = [x2e]) then Some d
  else if bool_decide (e = dotdot) then match d with O => None | S d => Some d end
  else Some (S d).

Definition stays_inside (elems : list bytes) : Prop := is_Some (foldl step (Some O) elems).

Lemma foldl_step_None l : foldl step None l = None.
Proof. by induction l. Qed.

(** A [..] at the bottom of the stack stays there. *)
Lemma clean_dotdot_stays l stack : last stack = Some dotdot -> dotdot ∈ foldl (clean_elem false) stack l.
Proof.
  revert stack. induction l as [|e l IH]; intros stack Hl; cbn [foldl]; [by apply last_Some_elem_of|].
  apply IH. unfold clean_elem. destruct (_ || _); [done|]. destruct (bool_decide (e = dotdot)).
  - destruct stack as [|top rest]; [done|]. case_bool_decide as Ht; [by rewrite last_cons, Hl|].
    rewrite last_cons in Hl. destruct (last rest) as [x|]; [done|]. by injection Hl as ->.
  - by rewrite last_cons, Hl.
Qed.

Lemma clean_walk l stack :
  dotdot ∉ stack ->
  match foldl step (Some (length stack)) l with
  | Some d => (dotdot ∉ foldl (clean_elem false) stack l) /\ d = length (foldl (clean_elem false) stack l)
  | None => dotdot ∈ foldl (clean_elem false) stack l
  end.
Proof.
  revert stack. induction l as [|e l IH]; intros stack Hs; cbn [foldl]; [done|].
  unfold step at 2, clean_elem at 2 4 6. cbn [mbind option_bind]. destruct (_ || _); [by apply IH|].
  destruct (bool_decide (e = dotdot)) eqn:He.
  - apply bool_decide_eq_true_1 in He as ->. destruct stack as [|top rest]; cbn [length].
    + rewrite foldl_step_None. by apply clean_dotdot_stays.
    + apply not_elem_of_cons in Hs as [Ht Hr]. rewrite bool_decide_eq_false_2 by congruence. by apply IH.
  - apply bool_decide_eq_false_1 in He. apply (IH (e :: stack)). rewrite not_elem_of_cons. split; [congruence|done].
Qed.

Lemma clean_elems_ok rooted l stack (P : bytes -> Prop) :
  Forall P l -> Forall P stack -> Forall P (foldl (clean_elem rooted) stack l).
Proof.
  intros Hl. revert stack. induction Hl as [|e l He _ IH]; intros stack Hs; cbn [foldl]; [done|]. apply IH.
  unfold clean_elem. destruct (_ || _); [done|]. case_bool_decide; [|by constructor].
  destruct stack as [|top rest]; [destruct rooted; [constructor|by constructor]|].
  case_bool_decide; [by constructor|]. by inversion Hs.
Qed.

Lemma clean_elems_nonempty rooted l stack :
  Forall (fun e => e <> []) stack -> Forall (fun e => e <> []) (foldl (clean_elem rooted) stack l).
Proof.
  revert stack. induction l as [|e l IH]; intros stack Hs; cbn [foldl]; [done|]. apply IH.
  unfold clean_elem. destruct (_ || _) eqn:E; [done|]. apply orb_false_iff in E as [E _]. apply bool_decide_eq_false_1 in E.
  case_bool_decide; [|by constructor].
  destruct stack as [|top rest]; [destruct rooted; [constructor|by constructor]|].
  case_bool_decide; [by constructor|]. by inversion Hs.
Qed.

(** The elements of a cleaned relative path. *)
Lemma Split_Clean p :
  HasPrefix p [x2f] = false ->
  Split x2f (Clean p) = match rev (foldl (clean_elem false) [] (Split x2f p)) with [] => [[x2e]] | l => l end
  /\ HasPrefix (Clean p) [x2f] = false.
Proof.
  intros Hp. unfold Clean. rewrite Hp. cbn [app].
  pose proof (clean_elems_ok false (Split x2f p) [] (fun e => x2f ∉ e) (Split_elems x2f p) (Forall_nil_2 _)) as Hs.
  pose proof (clean_elems_nonempty false (Split x2f p) [] (Forall_nil_2 _)) as Hn.
  apply Forall_reverse in Hs, Hn. unfold reverse in Hs, Hn. rewrite !rev_append_rev, !app_nil_r in Hs, Hn.
  destruct (rev _) as [|e l] eqn:E; [by vm_compute|].
  apply Forall_cons in Hn as [Hne _]. pose proof (proj1 (proj1 (Forall_cons _ _ _) Hs)) as Hse.
  assert (Hj : exists b r, Join x2f (e :: l) = b :: r /\ b <> x2f).
  { destruct e as [|b e]; [done|]. exists b. eexists. split; [reflexivity|]. apply not_elem_of_cons in Hse as [? _]. congruence. }
  destruct Hj as (b&r&Hj&Hb). rewrite Hj. cbv iota. rewrite <-Hj. split; [by apply Split_Join|].
  rewrite Hj. unfold HasPrefix. cbn. apply bool_decide_eq_false_2. congruence.
Qed.

(** A cleaned relative path has an element [..] exactly when the path leaves its root on the way. *)
Lemma Clean_inside p :
  HasPrefix p [x2f] = false -> dotdot ∉ Split x2f (Clean p) <-> stays_inside (Split x2f p).
Proof.
  intros Hp. rewrite (proj1 (Split_Clean p Hp)). pose proof (clean_walk (Split x2f p) [] ltac:(inversion 1)) as H.
  unfold stays_inside. cbn [length] in H.
  assert (Hr : dotdot ∉ match rev (foldl (clean_elem false) [] (Split x2f p)) with [] => [[x2e]] | l => l end
               <-> dotdot ∉ foldl (clean_elem false) [] (Split x2f p)).
  { rewrite <-(reverse_involutive (foldl _ _ _)), elem_of_reverse. unfold reverse. rewrite !rev_append_rev, !app_nil_r, rev_involutive.
    destruct (rev _); [|done]. split; [inversion 2|]. intros _ Hin. apply list_elem_of_singleton in Hin. done. }
  rewrite Hr. destruct (foldl step _ _) as [d|]; split.
  - intros _. by exists d.
  - intros _. by destruct H.
  - intros Hn. by destruct Hn.
  - by intros [? [=]].
Qed.
