(* ===== verification/GoJson.v ===== *)
(** * Typed JSON: [encoding/json] on the wire types

    A Go type as a descriptor, a value of it, [decode_into] (what [Decoder.Decode] and [Unmarshal] do
    with a value already in place, with or without [DisallowUnknownFields]) and [marshal]
    ([json.Marshal], as a JSON value). Members are matched to fields exactly or case-insensitively,
    repeated members overwrite or merge, [null] clears a pointer or a slice and leaves anything else,
    a wrong type or an unknown member is remembered and decoding goes on, a bad timestamp or
    [json.Number] stops it.

    A pointer occurs only around a whole field ([*T], as in the generated types); strings inside
    errors and timestamps are read as [encoding/json] escapes them, not as the sender may have. *)

From S2P Require Import Prelude GoStrings GoTime Json JsonText.

(** ** Types and values *)

#[warnings="-register-all"]
Inductive gotype : Type :=
| TString
| TInt (bits : Z)
| TUint (bits : Z)
| TBool
| TTime
| TNumber                                    (** [json.Number] *)
| TRaw                                       (** a union: its [json.RawMessage] *)
| TRawMessage                                (** a [json.RawMessage] field, nil when absent *)
| TEnum (name : bytes) (valid : list bytes)  (** a named string with a [Valid] method *)
| TPtr (t : gotype)
| TSlice (t : gotype)
| TArray (n : nat) (t : gotype)               (** its value is a [GSlice] of that length *)
| TStruct (fields : list (bytes * bytes * gotype)).  (** Go name, JSON name, type *)

#[warnings="-register-all"]
Inductive goval : Type :=
| GNil                                       (** a nil pointer or slice *)
| GStr (s : bytes)
| GInt (z : Z)
| GBool (b : bool)
| GTime (t : gotime)
| GNum (lit : bytes)
| GRaw (v : json)
| GPtr (v : goval)
| GSlice (l : list goval)
| GStruct (fields : list goval).

Abbreviation gofield := (bytes * bytes * gotype)%type.
Definition go_name (f : gofield) : bytes := f.1.1.
Definition json_name (f : gofield) : bytes := f.1.2.
Definition go_type (f : gofield) : gotype := f.2.

Fixpoint zero (t : gotype) : goval :=
  match t with
  | TString | TEnum _ _ => GStr []
  | TInt _ | TUint _ => GInt 0
  | TBool => GBool false
  | TTime => GTime zero_time
  | TNumber => GNum []
  | TRaw => GRaw JNull
  | TPtr _ | TSlice _ | TRawMessage => GNil
  | TArray n t => GSlice (replicate n (zero t))
  | TStruct fs => GStruct (map (fun f => zero f.2) fs)
  end.

(** ** Errors *)

Inductive json_error : Type :=
| EUnknownField (name : bytes)
| ETypeMismatch
| ETimeSyntax (text : bytes)
| ENotTimeString
| EBadNumber (text : bytes).

(** Go on with a value and the first error met so far, or stop. *)
Abbreviation decoded A := (result json_error (A * option json_error)).

Definition dmap {A B} (f : A -> B) (m : decoded A) : decoded B :=
  '(a, e) ← m; Ok (f a, e).

Definition first_error (e1 e2 : option json_error) : option json_error :=
  match e1 with Some _ => e1 | None => e2 end.

Definition dbind {A B} (m : decoded A) (f : A -> decoded B) : decoded B :=
  '(a, e1) ← m; '(b, e2) ← f a; Ok (b, first_error e1 e2).

(** What the caller sees. *)
Definition outcome {A} (m : decoded A) : result json_error A :=
  '(a, e) ← m; match e with None => Ok a | Some e => Err e end.

(** ** Field lookup *)

(** [foldName]: simple case folding, which also maps U+017F to S and U+212A to K. *)
Fixpoint foldName (s : bytes) : bytes :=
  match s with
  | xc5 :: xbf :: r => x53 :: foldName r
  | xe2 :: x84 :: xaa :: r => x4b :: foldName r
  | b :: r => (if in_range 97 122 b then Zb (bZ b - 32) else b) :: foldName r
  | [] => []
  end.

Definition names (field key : bytes) : bool := bool_decide (key = field) || bool_decide (foldName key = foldName field).

Fixpoint index_of {A} (p : A -> bool) (l : list A) : option nat :=
  match l with [] => None | x :: r => if p x then Some O else S <$> index_of p r end.

(** [byExactName], else [byFoldedName]. *)
Definition find_field (fs : list gofield) (key : bytes) : option nat :=
  match index_of (fun f => bool_decide (json_name f = key)) fs with
  | Some i => Some i
  | None => index_of (fun f => bool_decide (foldName (json_name f) = foldName key)) fs
  end.

Lemma index_of_Some {A} (p : A -> bool) l i : index_of p l = Some i -> exists x, l !! i = Some x /\ p x = true.
Proof.
  revert i. induction l as [|x l IH]; intros i; cbn; [done|]. destruct (p x) eqn:E; [intros [= <-]; by exists x|].
  destruct (index_of p l) as [j|]; cbn; [|done]. intros [= <-]. by apply IH.
Qed.

(** ** Decoding *)

(** A string literal between its quotes. *)
Definition literal (s : bytes) : bytes := escape_body (length s) s.

Definition is_number (s : bytes) : bool := bool_decide (parse_number s = Some (s, [])).

Definition fits (bits n : Z) : bool := (- 2 ^ (bits - 1) <=? n) && (n <? 2 ^ (bits - 1)).

Definition ufits (bits n : Z) : bool := (0 <=? n) && (n <? 2 ^ bits).

(** The pointer a value is stored behind: its target's type, what it holds now, and how it is put back. *)
Definition target (t : gotype) (old : goval) : gotype * goval * (goval -> goval) :=
  match t with
  | TPtr t' => (t', match old with GPtr o => o | _ => zero t' end, GPtr)
  | _ => (t, old, fun v => v)
  end.

Definition elems_of (old : goval) : list goval := match old with GSlice l => l | _ => [] end.
Definition fields_of (old : goval) : list goval := match old with GStruct l => l | _ => [] end.

(** [null]. *)
Definition decode_null (t : gotype) (old : goval) : goval :=
  match t with
  | TPtr _ | TSlice _ => GNil
  | TRaw | TRawMessage => GRaw JNull
  | _ => old
  end.

Definition mismatch {A} (old : A) : decoded A := Ok (old, Some ETypeMismatch).
Definition stored {A} (v : A) : decoded A := Ok (v, None).

Definition decode_bool (b : bool) (t : gotype) (old : goval) : decoded goval :=
  match t with
  | TBool => stored (GBool b)
  | TRaw | TRawMessage => stored (GRaw (JBool b))
  | TTime => Err ENotTimeString
  | _ => mismatch old
  end.

Definition decode_number (lit : bytes) (t : gotype) (old : goval) : decoded goval :=
  match t with
  | TInt bits =>
      match ParseInt lit with
      | Some n => if fits bits n then stored (GInt n) else mismatch old
      | None => mismatch old
      end
  | TUint bits =>
      match ParseUint lit with
      | Some n => if ufits bits n then stored (GInt n) else mismatch old
      | None => mismatch old
      end
  | TNumber => stored (GNum lit)
  | TRaw | TRawMessage => stored (GRaw (JNum lit))
  | TTime => Err ENotTimeString
  | _ => mismatch old
  end.

Definition decode_string (s : bytes) (t : gotype) (old : goval) : decoded goval :=
  match t with
  | TString | TEnum _ _ => stored (GStr s)
  | TNumber => if is_number s then stored (GNum s) else Err (EBadNumber (literal s))
  | TRaw | TRawMessage => stored (GRaw (JStr s))
  | TTime => match parseRFC3339 (literal s) with Some t => stored (GTime t) | None => Err (ETimeSyntax (literal s)) end
  | _ => mismatch old
  end.

(** An array into a slice: the elements in place are decoded into, the others start at zero. *)
Definition decode_elems (dec : json -> goval -> decoded goval) (t : gotype) : list json -> list goval -> decoded (list goval) :=
  fix go l olds :=
    match l with
    | [] => stored []
    | v :: r =>
        dbind (dec v (default (zero t) (head olds))) (fun x => dmap (cons x) (go r (tail olds)))
    end.

(** An array into an array: what does not fit is skipped. *)
Definition decode_first (dec : json -> goval -> decoded goval) (t : gotype) : list json -> nat -> list goval -> decoded (list goval) :=
  fix go l n olds :=
    match l, n with
    | v :: r, S n' =>
        dbind (dec v (default (zero t) (head olds))) (fun x => dmap (cons x) (go r n' (tail olds)))
    | _, _ => stored []
    end.

Lemma decode_first_take dec t l : forall n olds, decode_first dec t l n olds = decode_elems dec t (take n l) olds.
Proof.
  induction l as [|v r IH]; intros [|n] olds; try done. cbn [decode_first decode_elems take].
  by rewrite IH.
Qed.

(** An object into a struct, one member after the other. *)
Definition decode_members (strict : bool) (dec : json -> gotype -> goval -> decoded goval) (fs : list gofield)
    : list (bytes * json) -> list goval -> decoded (list goval) :=
  fix go m vals :=
    match m with
    | [] => stored vals
    | (k, v) :: r =>
        match find_field fs k with
        | Some i =>
            match fs !! i, vals !! i with
            | Some f, Some old => dbind (dec v (go_type f) old) (fun x => go r (<[i := x]> vals))
            | _, _ => go r vals
            end
        | None =>
            dbind (Ok (tt, if strict then Some (EUnknownField k) else None)) (fun _ => go r vals)
        end
    end.

Fixpoint decode_into (strict : bool) (v : json) (t : gotype) (old : goval) : decoded goval :=
  match v with
  | JNull => stored (decode_null t old)
  | _ =>
      let '(t, old, wrap) := target t old in
      dmap wrap
        match v with
        | JNull => stored old
        | JBool b => decode_bool b t old
        | JNum lit => decode_number lit t old
        | JStr s => decode_string s t old
        | JArr l =>
            match t with
            | TSlice e => dmap GSlice (decode_elems (fun v old => decode_into strict v e old) e l (elems_of old))
            | TArray n e =>
                dmap (fun xs => GSlice (xs ++ replicate (n - length l) (zero e)))
                  (decode_first (fun v old => decode_into strict v e old) e l n (elems_of old))
            | TRaw | TRawMessage => stored (GRaw (JArr l))
            | TTime => Err ENotTimeString
            | _ => mismatch old
            end
        | JObj m =>
            match t with
            | TStruct fs => dmap GStruct (decode_members strict (decode_into strict) fs m (fields_of old))
            | TRaw | TRawMessage => stored (GRaw (JObj m))
            | TTime => Err ENotTimeString
            | _ => mismatch old
            end
        end
  end.

(** [var x T; Decode(&x)]. *)
Definition decode_as (strict : bool) (t : gotype) (v : json) : result json_error goval :=
  outcome (decode_into strict v t (zero t)).

(** [json.Unmarshal] of a whole text. *)
Definition Unmarshal (body : bytes) (t : gotype) : option goval :=
  '(v, rest) ← parse_value add_member (S (2 * length body)) body;
  if bool_decide (skip_ws rest = []) then match decode_as false t v with Ok g => Some g | Err _ => None end else None.

(** [Decoder.Decode] with unknown fields disallowed, as a value and the bytes after it. *)
Definition decode_strictly (t : gotype) (data : bytes) : option (goval * bytes) :=
  match decode_raw data with
  | None => None
  | Some (v, rest) => match decode_as true t v with Ok g => Some (g, rest) | Err _ => None end
  end.

(** ** Well-typed values *)

Section gotype_induction.
Variable P : gotype -> Prop.
Hypothesis P_string : P TString.
Hypothesis P_int : forall bits, P (TInt bits).
Hypothesis P_uint : forall bits, P (TUint bits).
Hypothesis P_bool : P TBool.
Hypothesis P_time : P TTime.
Hypothesis P_number : P TNumber.
Hypothesis P_raw : P TRaw.
Hypothesis P_raw_message : P TRawMessage.
Hypothesis P_enum : forall name valid, P (TEnum name valid).
Hypothesis P_ptr : forall t, P t -> P (TPtr t).
Hypothesis P_slice : forall t, P t -> P (TSlice t).
Hypothesis P_array : forall n t, P t -> P (TArray n t).
Hypothesis P_struct : forall fs, Forall (fun f : gofield => P f.2) fs -> P (TStruct fs).

Fixpoint gotype_induction (t : gotype) : P t :=
  match t with
  | TString => P_string
  | TInt bits => P_int bits
  | TUint bits => P_uint bits
  | TBool => P_bool
  | TTime => P_time
  | TNumber => P_number
  | TRaw => P_raw
  | TRawMessage => P_raw_message
  | TEnum name valid => P_enum name valid
  | TPtr t => P_ptr t (gotype_induction t)
  | TSlice t => P_slice t (gotype_induction t)
  | TArray n t => P_array n t (gotype_induction t)
  | TStruct fs =>
      P_struct fs ((fix go (fs : list gofield) : Forall (fun f : gofield => P f.2) fs :=
        match fs with
        | [] => Forall_nil_2 _
        | f :: r => Forall_cons_2 _ f r (gotype_induction f.2) (go r)
        end) fs)
  end.
End gotype_induction.

Fixpoint has_type (t : gotype) (v : goval) : Prop :=
  match t, v with
  | TString, GStr _ | TEnum _ _, GStr _ => True
  | TInt bits, GInt z => fits bits z = true /\ in_i64 z
  | TUint bits, GInt z => ufits bits z = true
  | TBool, GBool _ => True
  | TTime, GTime t => wf_time t
  | TNumber, GNum _ => True
  | TRaw, GRaw _ | TRawMessage, GRaw _ | TRawMessage, GNil => True
  | TPtr _, GNil | TSlice _, GNil => True
  | TPtr t, GPtr v => has_type t v
  | TSlice t, GSlice l => Forall (has_type t) l
  | TArray n t, GSlice l => length l = n /\ Forall (has_type t) l
  | TStruct fs, GStruct vs =>
      (fix go (fs : list gofield) (vs : list goval) : Prop :=
         match fs, vs with
         | [], [] => True
         | f :: fs, v :: vs => has_type f.2 v /\ go fs vs
         | _, _ => False
         end) fs vs
  | _, _ => False
  end.

Definition fields_typed (fs : list gofield) (vs : list goval) : Prop := Forall2 (fun f v => has_type (go_type f) v) fs vs.

Lemma has_type_struct fs vs : has_type (TStruct fs) (GStruct vs) <-> fields_typed fs vs.
Proof.
  unfold fields_typed. cbn [has_type]. revert vs. induction fs as [|f fs IH]; intros [|v vs]; split; try done.
  - by inversion 1.
  - by inversion 1.
  - intros [H1 H2]. constructor; [done|by apply IH].
  - inversion 1; subst. split; [done|by apply IH].
Qed.

(** Descriptors whose integers are at most 64 bits wide. *)
Fixpoint ints_ok (t : gotype) : bool :=
  match t with
  | TInt bits | TUint bits => (1 <=? bits) && (bits <=? 64)
  | TPtr t | TSlice t | TArray _ t => ints_ok t
  | TStruct fs => forallb (fun f => ints_ok f.2) fs
  | _ => true
  end.

Lemma zero_time_wf : wf_time zero_time.
Proof. by vm_compute. Qed.

Lemma fits_0 bits : 1 <= bits -> fits bits 0 = true.
Proof. intros H. unfold fits. pose proof (Z.pow_pos_nonneg 2 (bits - 1) ltac:(lia) ltac:(lia)). lia. Qed.

Lemma zero_typed t : ints_ok t = true -> has_type t (zero t).
Proof.
  induction t as [|bits|bits| | | | | |n l|t IH|t IH|n t IH|fs IH] using gotype_induction; cbn [ints_ok]; intros H; try done.
  - bool_to_prop. split; [by apply fits_0|unfold in_i64, MaxInt64; lia].
  - bool_to_prop. unfold ufits. cbn. pose proof (Z.pow_pos_nonneg 2 bits ltac:(lia) ltac:(lia)). lia.
  - cbn. rewrite length_replicate. split; [done|]. by apply Forall_replicate, IH.
  - apply has_type_struct. unfold fields_typed. cbn [zero].
    induction IH as [|f fs Hf _ IHfs]; cbn in *; [constructor|]. apply andb_prop in H as [H1 H2].
    constructor; [by apply Hf|by apply IHfs].
Qed.

(** ** Decoding keeps the type *)

Definition typed (t : gotype) (m : decoded goval) : Prop :=
  match m with Ok (v, _) => has_type t v | Err _ => True end.

Lemma target_typed t old :
  ints_ok t = true -> has_type t old ->
  let '(t', old', wrap) := target t old in
  ints_ok t' = true /\ has_type t' old' /\ forall m, typed t' m -> typed t (dmap wrap m).
Proof.
  intros Hi Ho. destruct t; cbn; try (split_and!; [done|done|by intros [[v e]|e]]).
  split_and!; [done| |by intros [[v e]|e]]. destruct old; try (by destruct Ho); [by apply zero_typed|done].
Qed.

Lemma find_field_lt fs k i : find_field fs k = Some i -> (i < length fs)%nat.
Proof.
  assert (Hx : forall (p : gofield -> bool) l j, index_of p l = Some j -> (j < length l)%nat).
  { intros p l. induction l as [|x l IH]; intros j; cbn; [done|]. destruct (p x); [intros [= <-]; lia|].
    destruct (index_of p l) as [j'|]; cbn; [|done]. intros [= <-]. specialize (IH j' eq_refl). lia. }
  unfold find_field. destruct (index_of _ fs) as [j|] eqn:E; [intros [= <-]; by eapply Hx|]. apply Hx.
Qed.

Lemma decode_scalar_typed t old :
  has_type t old ->
  (forall b, typed t (decode_bool b t old)) /\ (forall lit, typed t (decode_number lit t old))
  /\ (forall s, typed t (decode_string s t old)).
Proof.
  intros Ho. split_and!.
  - intros b. by destruct t.
  - intros lit. destruct t; try done; unfold decode_number.
    2: { destruct (ParseUint lit) as [n|]; [|done]. by destruct (ufits bits n) eqn:E. }
    destruct (ParseInt lit) as [n|] eqn:E; [|done]. destruct (fits bits n) eqn:Ef; [|done]. cbn. split; [done|]. unfold ParseInt in E.
    destruct (match lit with [] => _ | _ => _ end) as [neg ds]. case_match; [done|]. cbv zeta in E.
    by case_bool_decide; [injection E as <-|].
  - intros s. destruct t; try done; unfold decode_string.
    + destruct (parseRFC3339 (literal s)) eqn:E; [|done]. by apply parseRFC3339_wf in E.
    + by destruct (is_number s).
Qed.

Lemma dbind_Ok {A B} (m : decoded A) (f : A -> decoded B) b e :
  dbind m f = Ok (b, e) <-> exists a e1 e2, m = Ok (a, e1) /\ f a = Ok (b, e2) /\ e = first_error e1 e2.
Proof.
  unfold dbind. rewrite bind_Ok. split.
  - intros ([a e1]&->&H). apply bind_Ok in H as ([b' e2]&Hf&[= -> <-]). eauto 10.
  - intros (a&e1&e2&->&Hf&->). exists (a, e1). split; [done|]. cbn. by rewrite Hf.
Qed.

Lemma dmap_Ok {A B} (f : A -> B) (m : decoded A) b e : dmap f m = Ok (b, e) <-> exists a, m = Ok (a, e) /\ f a = b.
Proof.
  unfold dmap. rewrite bind_Ok. split.
  - intros ([a e1]&->&[= <- ->]). eauto.
  - intros (a&->&<-). by exists (a, e).
Qed.

Lemma head_typed t olds : ints_ok t = true -> Forall (has_type t) olds -> has_type t (default (zero t) (head olds)).
Proof. intros Hi [|x l Hx _]; cbn; [by apply zero_typed|done]. Qed.

Lemma decode_elems_typed dec t l olds vs e :
  ints_ok t = true -> Forall (fun v => forall old, has_type t old -> typed t (dec v old)) l ->
  Forall (has_type t) olds -> decode_elems dec t l olds = Ok (vs, e) -> Forall (has_type t) vs.
Proof.
  intros Hi Hl. revert olds vs e. induction Hl as [|v l Hv _ IH]; intros olds vs e Ho; cbn [decode_elems].
  - intros [= <- _]. constructor.
  - intros (x&e1&e2&Hx&H&_)%dbind_Ok. apply dmap_Ok in H as (xs&Hxs&<-). constructor.
    + specialize (Hv _ (head_typed t olds Hi Ho)). by rewrite Hx in Hv.
    + eapply IH; [|exact Hxs]. destruct Ho; [constructor|done].
Qed.

Lemma decode_elems_length dec t l olds vs e : decode_elems dec t l olds = Ok (vs, e) -> length vs = length l.
Proof.
  revert olds vs e. induction l as [|v l IH]; intros olds vs e; cbn [decode_elems]; [by intros [= <- _]|].
  intros (x&e1&e2&Hx&H&_)%dbind_Ok. apply dmap_Ok in H as (xs&Hxs&<-). cbn. f_equal. by eapply IH.
Qed.

Lemma decode_members_typed strict dec fs m vals vs e :
  Forall (fun kv => forall t old, ints_ok t = true -> has_type t old -> typed t (dec kv.2 t old)) m ->
  forallb (fun f => ints_ok f.2) fs = true -> fields_typed fs vals ->
  decode_members strict dec fs m vals = Ok (vs, e) -> fields_typed fs vs.
Proof.
  intros Hm Hi. revert vals vs e. induction Hm as [|[k v] m Hv _ IH]; intros vals vs e Ho; cbn [decode_members].
  - by intros [= <- _].
  - destruct (find_field fs k) as [i|] eqn:Ef.
    2:{ intros (x&e1&e2&_&H&_)%dbind_Ok. by eapply IH. }
    destruct (fs !! i) as [f|] eqn:Efi; [|by apply IH]. destruct (vals !! i) as [old|] eqn:Evi; [|by apply IH].
    intros (x&e1&e2&Hx&H&_)%dbind_Ok. eapply IH; [|exact H].
    assert (Hf : has_type (go_type f) x).
    { assert (Hti : ints_ok (go_type f) = true).
      { rewrite forallb_forall in Hi. apply Hi. apply list_elem_of_In. by eapply list_elem_of_lookup_2. }
      assert (Hold : has_type (go_type f) old) by (by eapply Forall2_lookup_lr in Ho).
      specialize (Hv _ old Hti Hold). cbn [snd] in Hv. by rewrite Hx in Hv. }
    rewrite <-(list_insert_id fs i f) by done. by apply Forall2_insert.
Qed.

Lemma decode_into_typed strict v t old :
  ints_ok t = true -> has_type t old -> typed t (decode_into strict v t old).
Proof.
  revert t old. induction v as [|b|lit|s|l IH|m IH] using json_induction; intros t old Hi Ho.
  { by destruct t. }
  all: pose proof (target_typed t old Hi Ho) as Ht; cbn [decode_into];
    destruct (target t old) as [[t' old'] wrap]; destruct Ht as (Hi'&Ho'&Hw); apply Hw;
    try (by apply decode_scalar_typed).
  - assert (Hall : forall e, ints_ok e = true -> Forall (fun v => forall old, has_type e old -> typed e (decode_into strict v e old)) l).
    { intros e He. eapply Forall_impl; [exact IH|]. cbn. intros w Hw' o Hto. by apply Hw'. }
    destruct t' as [| | | | | | | | | |t'|n t'|]; try done.
    + destruct (dmap GSlice _) as [[g e]|e] eqn:E; [|done].
      apply dmap_Ok in E as (vs&E&<-). cbn [typed has_type]. eapply decode_elems_typed; [done|by apply Hall| |exact E]. by destruct old'.
    + destruct (dmap _ _) as [[g e]|e] eqn:E; [|done]. rewrite decode_first_take in E.
      apply dmap_Ok in E as (vs&E&<-). cbn [typed has_type]. pose proof (decode_elems_length _ _ _ _ _ _ E) as Hl.
      rewrite length_app, length_replicate, Hl, length_take. split; [lia|]. apply Forall_app. split.
      * eapply decode_elems_typed; [done|by apply Forall_take, Hall| |exact E]. destruct old'; try done. by destruct Ho'.
      * by apply Forall_replicate, zero_typed.
  - destruct t' as [| | | | | | | | | | | |fs]; try done. destruct (dmap GStruct _) as [[g e]|e] eqn:E; [|done].
    apply dmap_Ok in E as (vs&E&<-). cbn [typed]. apply has_type_struct.
    eapply decode_members_typed; [| | |exact E]; [|done|].
    + eapply Forall_impl; [exact IH|]. cbn. intros w Hw' t0 o. by apply Hw'.
    + destruct old'; try (by destruct Ho'). by apply has_type_struct.
Qed.

(** ** When decoding succeeds *)

(** The value has the shape of the type, whatever is already in place. *)
Fixpoint conforms (strict : bool) (v : json) (t : gotype) : bool :=
  let t := match t with TPtr t' => t' | _ => t end in
  match v with
  | JNull => true
  | JBool _ => match t with TBool | TRaw | TRawMessage => true | _ => false end
  | JNum lit =>
      match t with
      | TInt bits => match ParseInt lit with Some n => fits bits n | None => false end
      | TUint bits => match ParseUint lit with Some n => ufits bits n | None => false end
      | TNumber | TRaw | TRawMessage => true
      | _ => false
      end
  | JStr s =>
      match t with
      | TString | TEnum _ _ | TRaw | TRawMessage => true
      | TNumber => is_number s
      | TTime => match parseRFC3339 (literal s) with Some _ => true | None => false end
      | _ => false
      end
  | JArr l => match t with TSlice e => forallb (fun v => conforms strict v e) l | TArray n e => forallb (fun ok => ok) (take n (map (fun v => conforms strict v e) l)) | TRaw | TRawMessage => true | _ => false end
  | JObj m =>
      match t with
      | TStruct fs =>
          forallb (fun kv => match find_field fs kv.1 with
                             | Some i => match fs !! i with Some f => conforms strict kv.2 (go_type f) | None => true end
                             | None => negb strict
                             end) m
      | TRaw | TRawMessage => true
      | _ => false
      end
  end.

Definition clean {A} (m : decoded A) : bool := match m with Ok (_, None) => true | _ => false end.

Lemma clean_Ok {A} (m : decoded A) : clean m = true <-> exists a, m = stored a.
Proof. destruct m as [[a [e|]]|e]; cbn; split; try done; [by intros (?&[=])|by exists a|by intros (?&[=])]. Qed.

Lemma clean_dmap {A B} (f : A -> B) (m : decoded A) : clean (dmap f m) = clean m.
Proof. by destruct m as [[a [e|]]|e]. Qed.

Lemma clean_dbind {A B} (m : decoded A) (f : A -> decoded B) :
  clean (dbind m f) = match m with Ok (a, None) => clean (f a) | _ => false end.
Proof. destruct m as [[a [e|]]|e]; unfold dbind; cbn; [..|done]; by destruct (f a) as [[b [e'|]]|e']. Qed.

Lemma dbind_stored {A B} (a : A) (f : A -> decoded B) : dbind (stored a) f = f a.
Proof. unfold dbind, stored. cbn. by destruct (f a) as [[b e]|e]. Qed.

Lemma dmap_stored {A B} (f : A -> B) a : dmap f (stored a) = stored (f a).
Proof. done. Qed.

Lemma dmap_id {A} (m : decoded A) : dmap (fun v => v) m = m.
Proof. by destruct m as [[a e]|e]. Qed.

Lemma forallb_map_id {A} (p : A -> bool) l : forallb (fun ok => ok) (map p l) = forallb p l.
Proof. induction l as [|x l IH]; cbn; [done|]. by rewrite IH. Qed.

Lemma clean_elems dec (p : json -> bool) t l olds :
  ints_ok t = true ->
  Forall (fun v => forall old, has_type t old -> typed t (dec v old) /\ clean (dec v old) = p v) l ->
  Forall (has_type t) olds -> clean (decode_elems dec t l olds) = forallb p l.
Proof.
  intros Hi Hl. revert olds. induction Hl as [|v l Hv _ IH]; intros olds Ho; cbn [decode_elems forallb]; [done|].
  rewrite clean_dbind. destruct (Hv _ (head_typed t olds Hi Ho)) as [_ <-].
  destruct (dec v _) as [[x [e|]]|e]; cbn [clean andb]; [done| |done].
  rewrite clean_dmap. apply IH. by destruct Ho.
Qed.

Lemma clean_members strict dec (p : json -> gotype -> bool) fs m vals :
  Forall (fun kv => forall t old, ints_ok t = true -> has_type t old ->
            typed t (dec kv.2 t old) /\ clean (dec kv.2 t old) = p kv.2 t) m ->
  forallb (fun f => ints_ok f.2) fs = true -> fields_typed fs vals ->
  clean (decode_members strict dec fs m vals)
  = forallb (fun kv => match find_field fs kv.1 with
                       | Some i => match fs !! i with Some f => p kv.2 (go_type f) | None => true end
                       | None => negb strict
                       end) m.
Proof.
  intros Hm Hi. revert vals. induction Hm as [|[k v] m Hv _ IH]; intros vals Ho; cbn [decode_members forallb fst snd]; [done|].
  destruct (find_field fs k) as [i|] eqn:Ef.
  - pose proof (find_field_lt _ _ _ Ef) as Hlt. destruct (lookup_lt_is_Some_2 fs i Hlt) as [f Efi].
    assert (Hlt' : (i < length vals)%nat) by (by rewrite <-(Forall2_length _ _ _ Ho)).
    destruct (lookup_lt_is_Some_2 vals i Hlt') as [old Evi]. rewrite Efi, Evi, clean_dbind.
    assert (Hti : ints_ok (go_type f) = true).
    { rewrite forallb_forall in Hi. apply Hi. apply list_elem_of_In. by eapply list_elem_of_lookup_2. }
    assert (Hold : has_type (go_type f) old) by (by eapply Forall2_lookup_lr in Ho).
    destruct (Hv _ old Hti Hold) as [Ht Hc]. cbn [snd] in Ht, Hc. rewrite <-Hc.
    destruct (dec v _ old) as [[x [e|]]|e]; cbn [clean andb]; [done| |done]. apply IH.
    rewrite <-(list_insert_id fs i f) by done. by apply Forall2_insert.
  - rewrite clean_dbind. destruct strict; [done|]. by apply IH.
Qed.

Lemma decode_conforms strict v t old :
  ints_ok t = true -> has_type t old -> clean (decode_into strict v t old) = conforms strict v t.
Proof.
  revert t old. induction v as [|b|lit|s|l IH|m IH] using json_induction; intros t old Hi Ho.
  { by destruct t. }
  all: pose proof (target_typed t old Hi Ho) as Ht; cbn [decode_into conforms];
    assert (Et : (target t old).1.1 = match t with TPtr t' => t' | _ => t end) by (by destruct t);
    rewrite <-Et; clear Et;
    destruct (target t old) as [[t' old'] wrap]; destruct Ht as (Hi'&Ho'&_); cbn [fst snd]; rewrite clean_dmap.
  - by destruct t'.
  - destruct t'; try done; unfold decode_number; [destruct (ParseInt lit)|destruct (ParseUint lit)]; try done; by destruct (fits _ _) || destruct (ufits _ _).
  - destruct t'; try done; unfold decode_string; [by destruct (parseRFC3339 _)|by destruct (is_number s)].
  - assert (Hall : forall e, ints_ok e = true ->
      Forall (fun v => forall old, has_type e old -> typed e (decode_into strict v e old) /\ clean (decode_into strict v e old) = conforms strict v e) l).
    { intros e He. eapply Forall_impl; [exact IH|]. cbn. intros w Hw o Hto. split; [by apply decode_into_typed|by apply Hw]. }
    destruct t' as [| | | | | | | | | |t'|n t'|]; try done; rewrite clean_dmap.
    + apply clean_elems; [done|by apply Hall|by destruct old'].
    + rewrite decode_first_take, <-fmap_take, forallb_map_id. rewrite (clean_elems _ (fun v => conforms strict v t')); [done|done|by apply Forall_take, Hall|].
      destruct old'; try done. by destruct Ho'.
  - destruct t' as [| | | | | | | | | | | |fs]; try done. rewrite clean_dmap.
    apply clean_members; [|done|destruct old'; try (by destruct Ho'); by apply has_type_struct].
    eapply Forall_impl; [exact IH|]. cbn. intros w Hw t0 o Hi0 Ho0. split; [by apply decode_into_typed|by apply Hw].
Qed.

Lemma decode_as_conforms strict t v :
  ints_ok t = true -> (exists g, decode_as strict t v = Ok g) <-> conforms strict v t = true.
Proof.
  intros Hi. rewrite <-(decode_conforms strict v t (zero t)) by (done || by apply zero_typed).
  unfold decode_as. rewrite clean_Ok. destruct (decode_into _ _ _ _) as [[g [e|]]|e]; cbn; split; intros [x Hx]; try done.
  - by exists g.
  - by exists g.
Qed.

Lemma decode_as_typed strict t v g : ints_ok t = true -> decode_as strict t v = Ok g -> has_type t g.
Proof.
  intros Hi. unfold decode_as. pose proof (decode_into_typed strict v t (zero t) Hi (zero_typed t Hi)) as Ht.
  destruct (decode_into _ _ _ _) as [[x [e|]]|e]; cbn; [done| |done]. by intros [= <-].
Qed.

(** ** Encoding ([json.Marshal]) *)

(** An [omitempty] field left out: the generated types mark every pointer, and nothing else, so. *)
Definition omitted (t : gotype) (v : goval) : bool := match t, v with TPtr _, GNil => true | _, _ => false end.

Definition marshal_fields (enc : gotype -> goval -> option json) : list gofield -> list goval -> option (list (bytes * json)) :=
  fix go fs vs :=
    match fs, vs with
    | f :: fs, v :: vs =>
        if omitted (go_type f) v then go fs vs
        else j ← enc f.2 v; m ← go fs vs; Some ((json_name f, j) :: m)
    | _, _ => Some []
    end.

(** [None] is a time the format refuses, or a value of another type. *)
Fixpoint marshal (t : gotype) (v : goval) : option json :=
  match t, v with
  | TString, GStr s | TEnum _ _, GStr s => Some (JStr (to_valid s))
  | TInt _, GInt z | TUint _, GInt z => Some (JNum (FormatInt z))
  | TBool, GBool b => Some (JBool b)
  | TTime, GTime t => JStr <$> formatRFC3339 t
  | TNumber, GNum lit => if bool_decide (lit = []) then Some (JNum (str "0")) else if is_number lit then Some (JNum lit) else None
  | TRaw, GRaw v | TRawMessage, GRaw v => Some v
  | TRawMessage, GNil => Some JNull
  | TPtr _, GNil | TSlice _, GNil => Some JNull
  | TPtr t, GPtr v => marshal t v
  | TSlice t, GSlice l | TArray _ t, GSlice l => JArr <$> mapM (marshal t) l
  | TStruct fs, GStruct vs => JObj <$> marshal_fields marshal fs vs
  | _, _ => None
  end.

(** [CanonicalBytes]: typed, then canonical. *)
Definition CanonicalBytes (t : gotype) (v : goval) : option bytes := writeCanonical <$> marshal t v.

(** ** Reading back *)

Definition is_ptr (t : gotype) : bool := match t with TPtr _ => true | _ => false end.
Definition is_raw (t : gotype) : bool := match t with TRaw | TRawMessage => true | _ => false end.

(** The shape of the generated types: distinct ASCII names, one pointer at most, no [json.Number]. *)
Fixpoint wire_type (t : gotype) : bool :=
  match t with
  | TInt bits | TUint bits => (1 <=? bits) && (bits <=? 64)
  | TNumber | TRawMessage => false
  | TPtr t => negb (is_ptr t) && negb (is_raw t) && wire_type t
  | TSlice t | TArray _ t => wire_type t
  | TStruct fs =>
      bool_decide (NoDup (json_name <$> fs)) && forallb (fun f => forallb plain (json_name f)) fs
      && forallb (fun f => wire_type f.2) fs
  | _ => true
  end.

(** Values that survive being written and read: valid strings, unions [back] leaves alone, no pointer to nil. *)
Fixpoint kept (back : json -> json) (v : goval) : Prop :=
  match v with
  | GStr s => valid_utf8 s
  | GRaw v => wf_json v /\ back v = v
  | GPtr v => v <> GNil /\ kept back v
  | GSlice l => (fix go l := match l with [] => True | v :: l => kept back v /\ go l end) l
  | GStruct l => (fix go l := match l with [] => True | v :: l => kept back v /\ go l end) l
  | _ => True
  end.

Lemma kept_all back l : (fix go l := match l with [] => True | v :: l => kept back v /\ go l end) l <-> Forall (kept back) l.
Proof. induction l as [|v l IH]; [done|]. rewrite Forall_cons. by rewrite IH. Qed.

Lemma kept_slice back l : kept back (GSlice l) <-> Forall (kept back) l.
Proof. apply kept_all. Qed.

Lemma kept_struct back l : kept back (GStruct l) <-> Forall (kept back) l.
Proof. apply kept_all. Qed.

(** Values that are their own canonical encoding. *)
Abbreviation settled := (kept sorted_json).

Lemma wire_ints t : wire_type t = true -> ints_ok t = true.
Proof.
  induction t as [| | | | | | | | |t IH|t IH|n t IH|fs IH] using gotype_induction; cbn [wire_type ints_ok]; try done.
  - intros H. apply andb_prop in H as [_ H]. by apply IH.
  - intros H. apply andb_prop in H as [_ H]. rewrite !forallb_forall in *. rewrite Forall_forall in IH.
    intros f Hf. apply IH; [by apply list_elem_of_In|by apply H].
Qed.

Lemma digit_plain b : is_digit b = true -> plain b = true.
Proof. destruct b; vm_compute; done. Qed.

Lemma digits_plain s : forallb is_digit s = true -> forallb plain s = true.
Proof. rewrite !forallb_forall. intros H b Hb. apply digit_plain. by apply H. Qed.

Lemma format_plain t s : formatRFC3339 t = Some s -> forallb plain s = true.
Proof.
  unfold formatRFC3339. case_match; [done|]. intros Hs. apply (inj Some) in Hs. subst s.
  repeat (rewrite forallb_app || cbn [forallb]).
  assert (Hp : forall n z, forallb plain (dec_pad n z) = true) by (intros; apply digits_plain, dec_pad_digits).
  rewrite !Hp. change (plain x2d) with true. change (plain x54) with true. change (plain x3a) with true. cbn [andb].
  assert (Hf : forallb plain (format_frac (t_nsec t)) = true).
  { unfold format_frac. pose proof (trim_zeros_digits _ (dec_pad_digits 9 (t_nsec t))) as Hd.
    destruct (trim_zeros _); [done|]. apply digits_plain in Hd. by cbn. }
  rewrite Hf. unfold format_zone. case_match; [done|].
  cbn [forallb]. rewrite forallb_app. cbn [forallb]. rewrite !Hp. by case_match.
Qed.

(** ** Marshalled values are well formed *)

Lemma ufits_range bits z : (1 <=? bits) && (bits <=? 64) = true -> ufits bits z = true -> 0 <= z < 2 ^ 64.
Proof. unfold ufits. intros Hb Hz. bool_to_prop. pose proof (Z.pow_le_mono_r 2 bits 64). lia. Qed.

Lemma ufits_wide bits z : (1 <=? bits) && (bits <=? 64) = true -> ufits bits z = true -> - 2 ^ 63 <= z < 2 ^ 64.
Proof. intros Hb Hz. pose proof (ufits_range _ _ Hb Hz). lia. Qed.

Lemma marshal_fields_names enc fs vs m :
  marshal_fields enc fs vs = Some m -> m.*1 `sublist_of` (json_name <$> fs).
Proof.
  revert vs m. induction fs as [|f fs IH]; intros [|v vs] m; cbn [marshal_fields fmap list_fmap];
    try (intros [= <-]; apply sublist_nil_l).
  destruct (omitted _ _); [intros H; apply sublist_cons; by eapply IH|].
  intros (j&_&H)%bind_Some. apply bind_Some in H as (m0&H0&[= <-]). cbn. constructor. by eapply IH.
Qed.

(** The members are the fields that are not absent. *)
Lemma marshal_fields_elem enc fs vs m kv :
  marshal_fields enc fs vs = Some m -> kv ∈ m ->
  exists i f v, fs !! i = Some f /\ vs !! i = Some v /\ kv.1 = json_name f /\ enc (go_type f) v = Some kv.2
    /\ omitted (go_type f) v = false.
Proof.
  revert vs m. induction fs as [|f fs IH]; intros [|v vs] m; cbn [marshal_fields]; try (by intros [= <-] H; inversion H).
  destruct (omitted (go_type f) v) eqn:Eo.
  - intros H Hk. destruct (IH vs m H Hk) as (i&f0&v0&?). by exists (S i), f0, v0.
  - intros (j&Hj&H)%bind_Some Hk. apply bind_Some in H as (m0&Hm0&[= <-]).
    apply elem_of_cons in Hk as [->|Hk]; [by exists O, f, v|].
    destruct (IH vs m0 Hm0 Hk) as (i&f0&v0&?). by exists (S i), f0, v0.
Qed.

Lemma marshal_fields_absent enc fs vs m i f v :
  NoDup (json_name <$> fs) -> marshal_fields enc fs vs = Some m -> fs !! i = Some f -> vs !! i = Some v ->
  json_name f ∉ m.*1 -> omitted (go_type f) v = true.
Proof.
  revert vs m i. induction fs as [|f0 fs IH]; intros [|v0 vs] m i Hn; [done..|]. cbn [fmap list_fmap marshal_fields].
  cbn [fmap list_fmap] in Hn. apply NoDup_cons in Hn as [Hn0 Hn]. destruct i as [|i]; cbn [lookup list_lookup].
  - intros H [= ->] [= ->] Ho. destruct (omitted (go_type f) v); [done|].
    apply bind_Some in H as (j&Hj&H). apply bind_Some in H as (m0&Hm0&[= <-]). destruct Ho. by left.
  - intros H Hf Hv Ho. destruct (omitted (go_type f0) v0); [by eapply IH|].
    apply bind_Some in H as (j&Hj&H). apply bind_Some in H as (m0&Hm0&[= <-]). eapply IH; try done.
    intros Hi. apply Ho. by right.
Qed.

Lemma marshalled_elems_wf {back} t l js :
  (forall v j, wire_type t = true -> has_type t v -> kept back v -> marshal t v = Some j -> wf_json j) ->
  wire_type t = true -> Forall (has_type t) l -> kept back (GSlice l) -> mapM (marshal t) l = Some js -> wf_json (JArr js).
Proof.
  intros IH Hw Ht Hs%kept_slice Hj%mapM_Some. apply wf_arr, Forall_forall. intros w Hi. apply list_elem_of_lookup in Hi as [i Hi].
  destruct (Forall2_lookup_r _ _ _ _ _ Hj Hi) as (g&Hg&Hgw). eapply IH; [done| | |exact Hgw].
  - by eapply Forall_lookup_1 in Ht.
  - by eapply Forall_lookup_1 in Hs.
Qed.

Lemma marshal_wf {back} t v j : wire_type t = true -> has_type t v -> kept back v -> marshal t v = Some j -> wf_json j.
Proof.
  revert v j. induction t as [|bits|bits| | | | | |n l|t IH|t IH|n t IH|fs IH] using gotype_induction; intros v j Hw Ht Hs Hm;
    destruct v as [|s|z|b|tm|lit|w|v|l'|vs]; try (by destruct Ht); cbn [marshal] in Hm.
  - injection Hm as <-. apply to_valid_valid.
  - injection Hm as <-. destruct Ht. by apply FormatInt_valid.
  - injection Hm as <-. by apply FormatInt_wide, (ufits_wide bits).
  - by injection Hm as <-.
  - apply fmap_Some in Hm as (s&Hf&->). apply plain_utf8. by eapply format_plain.
  - injection Hm as <-. by destruct Hs.
  - injection Hm as <-. apply to_valid_valid.
  - by injection Hm as <-.
  - cbn [wire_type] in Hw. apply andb_prop in Hw as [_ Hw]. destruct Hs. by eapply IH.
  - by injection Hm as <-.
  - apply fmap_Some in Hm as (js&Hj&->). cbn [has_type wire_type] in *. by eapply marshalled_elems_wf.
  - apply fmap_Some in Hm as (js&Hj&->). cbn [has_type wire_type] in *. destruct Ht as [_ Ht]. by eapply marshalled_elems_wf.
  - apply fmap_Some in Hm as (m&Hm&->). apply has_type_struct in Ht. apply kept_struct in Hs.
    cbn [wire_type] in Hw. apply andb_prop in Hw as [Hw Hwf]. apply andb_prop in Hw as [Hn Hp].
    apply bool_decide_eq_true_1 in Hn. rewrite forallb_forall in Hp, Hwf. apply wf_obj. split.
    + eapply sublist_NoDup; [exact Hn|by eapply marshal_fields_names].
    + apply Forall_forall. intros kv Hkv.
      destruct (marshal_fields_elem _ _ _ _ _ Hm Hkv) as (i&f&g&Hf&Hg&Hk&He&_).
      assert (Hin : In f fs) by (apply list_elem_of_In; by eapply list_elem_of_lookup_2).
      split; [rewrite Hk; apply plain_utf8; by apply Hp|].
      eapply (Forall_lookup_1 _ _ _ _ IH Hf); [by apply Hwf| | |exact He].
      * by eapply Forall2_lookup_lr in Ht.
      * by eapply Forall_lookup_1 in Hs.
Qed.

(** ** The round trip *)

Lemma index_of_eq {A} (p : A -> bool) l i x :
  l !! i = Some x -> p x = true -> (forall j y, l !! j = Some y -> p y = true -> j = i) -> index_of p l = Some i.
Proof.
  revert i. induction l as [|y l IH]; intros [|i]; cbn; try done.
  - intros [= ->] -> _. done.
  - intros Hx Hp Hu. destruct (p y) eqn:Ey; [by specialize (Hu O y eq_refl Ey)|].
    rewrite (IH i); [done|done|done|]. intros j z Hj Hz. specialize (Hu (S j) z Hj Hz). lia.
Qed.

Lemma find_field_exact fs i f :
  NoDup (json_name <$> fs) -> fs !! i = Some f -> find_field fs (json_name f) = Some i.
Proof.
  intros Hn Hi. unfold find_field. rewrite (index_of_eq _ _ i f); [done|done|by apply bool_decide_eq_true_2|].
  intros j g Hj Hg. apply bool_decide_eq_true_1 in Hg. eapply (NoDup_lookup _ _ _ _ Hn).
  - rewrite (list_lookup_fmap json_name fs j), Hj. cbn. by rewrite Hg.
  - by rewrite (list_lookup_fmap json_name fs i), Hi.
Qed.

Lemma decode_members_sets strict dec fs vs m vals :
  NoDup (json_name <$> fs) -> NoDup m.*1 -> length vals = length fs -> length vs = length fs ->
  Forall (fun kv => exists i f g, fs !! i = Some f /\ json_name f = kv.1 /\ vs !! i = Some g
            /\ dec kv.2 (go_type f) (zero (go_type f)) = stored g) m ->
  (forall i f g, fs !! i = Some f -> vs !! i = Some g ->
     vals !! i = Some (if decide (json_name f ∈ m.*1) then zero (go_type f) else g)) ->
  decode_members strict dec fs m vals = stored vs.
Proof.
  intros Hn. revert vals. induction m as [|[k v] m IH]; intros vals Hm Hl Hl' Hall Hv; cbn [decode_members].
  - f_equal. f_equal. apply list_eq. intros i. destruct (fs !! i) as [f|] eqn:Ef.
    + destruct (lookup_lt_is_Some_2 vs i) as [g Hg]; [rewrite Hl'; by eapply lookup_lt_Some|].
      by rewrite (Hv i f g Ef Hg), Hg.
    + apply lookup_ge_None in Ef. rewrite !(proj2 (lookup_ge_None _ _)) by lia. done.
  - apply Forall_cons in Hall as [(i&f&g&Hf&Hk&Hg&Hd) Hall]. cbn [fst snd] in Hk, Hd. subst k.
    apply NoDup_cons in Hm as [Hk Hm].
    pose proof (Hv i f g Hf Hg) as Hvi. rewrite decide_True in Hvi by by left.
    rewrite (find_field_exact _ _ _ Hn Hf), Hf, Hvi, Hd, dbind_stored.
    apply IH; [done|by rewrite length_insert|done|done|]. intros j f' g' Hf' Hg'. destruct (decide (j = i)) as [->|Hj].
    + rewrite list_lookup_insert_eq by (rewrite Hl; by eapply lookup_lt_Some). simplify_eq. by rewrite decide_False.
    + rewrite list_lookup_insert_ne by done. rewrite (Hv j f' g' Hf' Hg'). cbn [fmap list_fmap fst].
      destruct (decide (json_name f' ∈ m.*1)) as [Hi|Hi]; [by rewrite decide_True by by right|].
      rewrite decide_False; [done|]. intros Hin. apply elem_of_cons in Hin as [E|Hin]; [|done]. apply Hj.
      eapply (NoDup_lookup _ _ _ _ Hn); [rewrite (list_lookup_fmap json_name fs j), Hf'; cbn; by rewrite E|].
      by rewrite (list_lookup_fmap json_name fs i), Hf.
Qed.

(** Behind a nil pointer decoding starts from zero. *)
Lemma decode_ptr strict v t :
  is_ptr t = false -> v <> JNull ->
  decode_into strict v (TPtr t) GNil = dmap GPtr (decode_into strict v t (zero t)).
Proof.
  intros Ht Hv. destruct v; [done|..]; cbn [decode_into target];
    (replace (target t (zero t)) with (t, zero t, fun v : goval => v) by (by destruct t)); cbv iota beta;
    by rewrite dmap_id.
Qed.

Lemma marshal_not_null t v j : is_raw t = false -> v <> GNil -> is_ptr t = false -> marshal t v = Some j -> j <> JNull.
Proof.
  intros Hr Hv Hp. destruct t, v; try done; cbn [marshal]; try (by intros [= <-]).
  - intros (s&_&->)%fmap_Some. done.
  - repeat case_match; try done; by intros [= <-].
  - intros (s&_&->)%fmap_Some. done.
  - intros (s&_&->)%fmap_Some. done.
  - intros (s&_&->)%fmap_Some. done.
Qed.

Lemma sorted_not_null v : v <> JNull -> sorted_json v <> JNull.
Proof. by destruct v. Qed.

Lemma decode_elems_read dec t l vs n :
  Forall2 (fun v g => dec v (zero t) = stored g) l vs -> decode_elems dec t l (replicate n (zero t)) = stored vs.
Proof.
  intros H. revert n. induction H as [|v g l vs Hv _ IH]; intros n; cbn [decode_elems]; [done|].
  replace (default (zero t) (head (replicate n (zero t)))) with (zero t) by (by destruct n). rewrite Hv, dbind_stored.
  replace (tail (replicate n (zero t))) with (replicate (pred n) (zero t)) by (by destruct n). by rewrite IH.
Qed.

Lemma fields_length fs vs : fields_typed fs vs -> length vs = length fs.
Proof. intros H. symmetry. by eapply Forall2_length. Qed.

Lemma back_not_null {text string back} (W : json_writer text string back) v : v <> JNull -> back v <> JNull.
Proof.
  destruct v as [|b|lit|s|l|m]; intros H.
  - done.
  - by rewrite (proj2 (jw_bool _ _ _ W b)).
  - by rewrite (proj2 (jw_num _ _ _ W lit)).
  - by rewrite (proj2 (jw_str _ _ _ W s)).
  - by rewrite (proj2 (jw_arr _ _ _ W l)).
  - by destruct (jw_obj _ _ _ W m) as (?&_&_&->).
Qed.

Lemma marshalled_elems_read {text string back} (W : json_writer text string back) strict t l js :
  (forall v j, wire_type t = true -> has_type t v -> kept back v -> marshal t v = Some j -> decode_into strict (back j) t (zero t) = stored v) ->
  wire_type t = true -> Forall (has_type t) l -> kept back (GSlice l) -> mapM (marshal t) l = Some js ->
  Forall2 (fun v g => decode_into strict v t (zero t) = stored g) (map back js) l.
Proof.
  intros IH Hw Ht Hs%kept_slice Hj%mapM_Some. revert Ht Hs. clear -Hj IH Hw.
  induction Hj as [|g w l js Hgw _ IHl]; cbn [map]; [constructor|].
  intros [? ?]%Forall_cons [? ?]%Forall_cons. constructor; [by apply IH|by apply IHl].
Qed.

Lemma marshal_reads {text string back} (W : json_writer text string back) strict t v j :
  wire_type t = true -> has_type t v -> kept back v -> marshal t v = Some j ->
  decode_into strict (back j) t (zero t) = stored v.
Proof.
  revert v j. induction t as [|bits|bits| | | | | |n l|t IH|t IH|n t IH|fs IH] using gotype_induction; intros v j Hw Ht Hs Hm;
    destruct v as [|s|z|b|tm|lit|w|v|l'|vs]; try (by destruct Ht); cbn [marshal] in Hm; try discriminate Hw.
  - injection Hm as <-. rewrite (proj2 (jw_str _ _ _ W _)). cbn. by rewrite to_valid_id.
  - injection Hm as <-. destruct Ht as [Hf Hi]. rewrite (proj2 (jw_num _ _ _ W _)). cbn [decode_into target decode_number].
    by rewrite ParseInt_FormatInt, Hf.
  - injection Hm as <-. rewrite (proj2 (jw_num _ _ _ W _)). cbn [decode_into target decode_number].
    rewrite ParseUint_FormatInt by (by eapply ufits_range). by rewrite Ht.
  - injection Hm as <-. by rewrite (proj2 (jw_bool _ _ _ W _)).
  - apply fmap_Some in Hm as (s&Hf&->). rewrite (proj2 (jw_str _ _ _ W _)). cbn [decode_into target decode_string].
    unfold literal. rewrite (plain_escape s) by (done || by eapply format_plain).
    by rewrite (parse_format tm s Ht Hf).
  - injection Hm as <-. destruct Hs as [_ ->]. by destruct w.
  - injection Hm as <-. rewrite (proj2 (jw_str _ _ _ W _)). cbn. by rewrite to_valid_id.
  - injection Hm as <-. by rewrite (proj2 (jw_null _ _ _ W)).
  - cbn [wire_type] in Hw. apply andb_prop in Hw as [Hw Hwt]. apply andb_prop in Hw as [Hp Hr].
    apply negb_true_iff in Hp, Hr. destruct Hs as [Hv Hs]. cbn [zero has_type] in *.
    rewrite decode_ptr by (done || by eapply (back_not_null W), marshal_not_null).
    by rewrite (IH v j).
  - injection Hm as <-. by rewrite (proj2 (jw_null _ _ _ W)).
  - apply fmap_Some in Hm as (js&Hj&->). rewrite (proj2 (jw_arr _ _ _ W _)). cbn [decode_into target zero elems_of].
    cbn [has_type wire_type] in Ht, Hw. change [] with (replicate 0 (zero t)).
    rewrite (decode_elems_read _ _ _ l'); [done|]. by eapply (marshalled_elems_read (string := string)).
  - apply fmap_Some in Hm as (js&Hj&->). rewrite (proj2 (jw_arr _ _ _ W _)). cbn [decode_into target zero elems_of].
    cbn [has_type wire_type] in Ht, Hw. destruct Ht as [Hl Ht].
    assert (Hjs : length (map back js) = n).
    { rewrite length_map. apply mapM_Some, Forall2_length in Hj. by rewrite <-Hj. }
    rewrite decode_first_take, take_ge by lia.
    rewrite (decode_elems_read _ _ _ l' n) by (by eapply (marshalled_elems_read (string := string))).
    rewrite Hjs, Nat.sub_diag. cbn. by rewrite app_nil_r.
  - apply fmap_Some in Hm as (m&Hm&->). apply has_type_struct in Ht. apply kept_struct in Hs.
    cbn [wire_type] in Hw. apply andb_prop in Hw as [Hw Hwf]. apply andb_prop in Hw as [Hn _].
    apply bool_decide_eq_true_1 in Hn. rewrite forallb_forall in Hwf.
    destruct (jw_obj _ _ _ W m) as (m0&Hm0&_&->). cbn [decode_into target zero fields_of].
    set (m' := map _ m0). assert (Hp : m' ≡ₚ map (fun kv => (kv.1, back kv.2)) m) by (unfold m'; by rewrite Hm0).
    assert (Hkeys : m'.*1 ≡ₚ m.*1) by (rewrite Hp, <-list_fmap_compose; done).
    rewrite (decode_members_sets _ _ _ vs); [done|done| |by rewrite length_map|by apply fields_length| |].
    + rewrite Hkeys. eapply sublist_NoDup; [exact Hn|by eapply marshal_fields_names].
    + rewrite Hp. apply Forall_fmap, Forall_forall. intros kv Hkv.
      destruct (marshal_fields_elem _ _ _ _ _ Hm Hkv) as (i&f&g&Hf&Hg&Hk&He&_).
      exists i, f, g. cbn [fst snd]. split_and!; [done|done|done|].
      apply (Forall_lookup_1 _ _ _ _ IH Hf); [|by eapply Forall2_lookup_lr in Ht|by eapply Forall_lookup_1 in Hs|done].
      apply Hwf, list_elem_of_In. by eapply list_elem_of_lookup_2.
    + intros i f g Hf Hg. change (map (fun f : gofield => zero f.2) fs) with ((fun f : gofield => zero f.2) <$> fs).
      rewrite list_lookup_fmap, Hf. cbn. f_equal. destruct (decide (json_name f ∈ m'.*1)) as [|Ho]; [done|].
      rewrite Hkeys in Ho. pose proof (marshal_fields_absent _ _ _ _ _ _ _ Hn Hm Hf Hg Ho) as Habs.
      unfold omitted in Habs. unfold go_type in Habs. by destruct f.2, g.
Qed.

(** A typed value read back from its canonical bytes. *)
Lemma CanonicalBytes_reads strict t v raw :
  wire_type t = true -> has_type t v -> settled v -> CanonicalBytes t v = Some raw ->
  exists j, decode_raw raw = Some (j, []) /\ wf_json j /\ sorted_json j = j /\ decode_as strict t j = Ok v.
Proof.
  intros Hw Ht Hs (j&Hm&->)%fmap_Some. pose proof (marshal_wf t v j Hw Ht Hs Hm) as Hj.
  exists (sorted_json j). split; [by apply decode_raw_written|].
  assert (Hj' : wf_json (sorted_json j)) by (by rewrite <-(same_sorted j)).
  split; [done|]. split.
  - by apply sorted_json_idemp.
  - unfold decode_as. by rewrite (marshal_reads canonical_writer strict t v j).
Qed.

(** ** What is decoded from canonical text is settled *)

Definition canonical (v : json) : Prop := wf_json v /\ sorted_json v = v.

Lemma canonical_arr l : canonical (JArr l) -> Forall canonical l.
Proof.
  intros [Hw Hs]. apply wf_arr in Hw. cbn [sorted_json] in Hs. injection Hs as Hs.
  induction l as [|v l IH]; [constructor|]. cbn in Hs. injection Hs as Hv Hl. apply Forall_cons in Hw as [? ?].
  constructor; [done|by apply IH].
Qed.

Lemma canonical_obj m : canonical (JObj m) -> Forall (fun kv => canonical kv.2) m.
Proof.
  intros [Hw Hs]. apply wf_obj in Hw as [_ Hw]. cbn [sorted_json] in Hs. injection Hs as Hs.
  apply Forall_forall. intros kv Hkv. rewrite Forall_forall in Hw. split; [by apply Hw|].
  rewrite <-Hs, sort_fields_perm in Hkv. apply list_elem_of_fmap in Hkv as (kv'&->&Hkv'). cbn [snd].
  apply sorted_json_idemp. by apply Hw.
Qed.

Lemma dbind_stored_inv {A B} (m : decoded A) (f : A -> decoded B) b :
  dbind m f = stored b -> exists a, m = stored a /\ f a = stored b.
Proof.
  intros (a&e1&e2&->&Hf&He)%dbind_Ok. destruct e1; [done|]. cbn in He. subst e2. by exists a.
Qed.

Lemma dmap_stored_inv {A B} (f : A -> B) (m : decoded A) b : dmap f m = stored b -> exists a, m = stored a /\ f a = b.
Proof. intros (a&->&<-)%dmap_Ok. by exists a. Qed.

Lemma zero_settled t : settled (zero t).
Proof.
  induction t as [| | | | | | | | |t IH|t IH|n t IH|fs IH] using gotype_induction; cbn; try exact utf8_nil; try done.
  - apply kept_all. by apply Forall_replicate.
  - apply kept_all. apply Forall_fmap. exact IH.
Qed.

Lemma stored_inj {A} (a b : A) : stored a = stored b -> a = b.
Proof. by intros [= ->]. Qed.

(** What a decoder of one value promises about canonical input, for the loops. *)
Definition settles (dec : goval -> decoded goval) (t : gotype) : Prop :=
  forall old g, wire_type t = true -> has_type t old -> settled old -> dec old = stored g -> has_type t g /\ settled g.

Lemma settled_elems dec t l olds vs :
  wire_type t = true -> Forall (fun v => settles (dec v) t) l -> Forall (has_type t) olds -> Forall settled olds ->
  decode_elems dec t l olds = stored vs -> Forall settled vs.
Proof.
  intros Hi Hl. revert olds vs. induction Hl as [|v l Hv _ IH]; intros olds vs Ht Hs; cbn [decode_elems].
  - intros <-%stored_inj. constructor.
  - intros (x&Hx&H)%dbind_stored_inv. apply dmap_stored_inv in H as (xs&Hxs&<-).
    assert (Hh : settled (default (zero t) (head olds))) by (destruct Hs; cbn; [apply zero_settled|done]).
    apply Hv in Hx as [_ Hx]; [|done|by apply head_typed; [apply wire_ints|]|done]. constructor; [done|].
    eapply IH; [| |exact Hxs]; by destruct olds; [|inversion Ht; inversion Hs].
Qed.

Lemma settled_members strict dec fs m vals vs :
  Forall (fun kv => forall t, settles (dec kv.2 t) t) m ->
  forallb (fun f => wire_type f.2) fs = true -> fields_typed fs vals -> Forall settled vals ->
  decode_members strict dec fs m vals = stored vs -> Forall settled vs.
Proof.
  intros Hm Hi. revert vals vs. induction Hm as [|[k v] m Hv _ IH]; intros vals vs Ht Hs; cbn [decode_members].
  - by intros <-%stored_inj.
  - destruct (find_field fs k) as [i|]; [|intros (x&_&H)%dbind_stored_inv; by eapply IH].
    destruct (fs !! i) as [f|] eqn:Ef; [|by apply IH]. destruct (vals !! i) as [old|] eqn:Eo; [|by apply IH].
    intros (x&Hx&H)%dbind_stored_inv.
    assert (Hti : wire_type (go_type f) = true).
    { rewrite forallb_forall in Hi. apply Hi. apply list_elem_of_In. by eapply list_elem_of_lookup_2. }
    apply Hv in Hx as [Hxt Hxs]; [|done|by eapply Forall2_lookup_lr in Ht|by eapply Forall_lookup_1 in Hs].
    eapply IH; [| |exact H]; [|by apply Forall_insert].
    rewrite <-(list_insert_id fs i f) by done. by apply Forall2_insert.
Qed.

Lemma settled_string s t old g :
  valid_utf8 s -> settled old -> decode_string s t old = stored g -> settled g.
Proof.
  intros Hs Ho. destruct t; try (intros <-%stored_inj); try done; unfold decode_string; [|].
  - case_match; [|done]. by intros <-%stored_inj.
  - case_match; [|done]. by intros <-%stored_inj.
Qed.

(** A value stored behind a pointer is not nil. *)
Lemma decoded_not_nil strict v t old g :
  v <> JNull -> is_ptr t = false -> decode_into strict v t old = stored g -> g <> GNil.
Proof.
  intros Hv Hp. replace (decode_into strict v t old) with (dmap (fun v => v) (decode_into strict v t old)) by apply dmap_id.
  destruct v as [|b|lit|s|l|m]; [done|..]; cbn [decode_into];
    (replace (target t old) with (t, old, fun v : goval => v) by (by destruct t)); cbv iota beta; rewrite !dmap_id;
    destruct t; try done; unfold decode_number, decode_string; repeat case_match; try done;
    try (by intros <-%stored_inj); by intros (?&_&<-)%dmap_stored_inv.
Qed.

Lemma decode_ptr_any strict v t old :
  is_ptr t = false -> v <> JNull ->
  decode_into strict v (TPtr t) old = dmap GPtr (decode_into strict v t (match old with GPtr o => o | _ => zero t end)).
Proof.
  intros Ht Hv. destruct v; [done|..]; cbn [decode_into target];
    (replace (target t (match old with GPtr o => o | _ => zero t end))
       with (t, match old with GPtr o => o | _ => zero t end, fun v : goval => v) by (by destruct t)); cbv iota beta;
    by rewrite dmap_id.
Qed.

Lemma settles_ptr strict v t :
  v <> JNull -> (is_ptr t = false -> settles (decode_into strict v t) t) -> settles (decode_into strict v (TPtr t)) (TPtr t).
Proof.
  intros Hv IH old g Hw Ht Hs Hd. cbn [wire_type] in Hw. apply andb_prop in Hw as [Hw Hwt].
  apply andb_prop in Hw as [Hp _]. apply negb_true_iff in Hp. rewrite decode_ptr_any in Hd by done.
  apply dmap_stored_inv in Hd as (x&Hx&<-). pose proof (decoded_not_nil _ _ _ _ _ Hv Hp Hx) as Hn.
  apply IH in Hx as [? ?]; [done|done|done| |].
  - destruct old; try (by destruct Ht); [by apply zero_typed, wire_ints|done].
  - destruct old; try apply zero_settled. by destruct Hs.
Qed.

Lemma settles_any strict v t :
  v <> JNull -> (forall t, is_ptr t = false -> settles (decode_into strict v t) t) -> settles (decode_into strict v t) t.
Proof. intros Hv H. destruct t as [| | | | | | | | |t| | |]; try (by apply H). apply settles_ptr; [done|by apply H]. Qed.

Lemma decode_into_settled strict v t : canonical v -> settles (decode_into strict v t) t.
Proof.
  revert t. induction v as [|b|lit|s|l IH|m IH] using json_induction; intros t Hc.
  { intros old g Hw Ht Hs Hd. cbn in Hd. apply stored_inj in Hd as <-. by destruct t. }
  all: apply settles_any; [done|]; clear t; intros t Hp old g Hw Ht Hs Hd;
     (split; [match type of Hd with decode_into _ ?v _ _ = _ =>
        pose proof (decode_into_typed strict v t old (wire_ints t Hw) Ht) as H; by rewrite Hd in H end|]);
     cbn [decode_into] in Hd;
     (replace (target t old) with (t, old, fun v : goval => v) in Hd by (by destruct t)); cbv iota beta in Hd;
     rewrite dmap_id in Hd.
  - destruct t; try done; by apply stored_inj in Hd as <-.
  - destruct t; try done; cbn [decode_number] in Hd; repeat case_match; try done; by apply stored_inj in Hd as <-.
  - eapply settled_string; [|exact Hs|exact Hd]. by destruct Hc.
  - assert (Hall : forall t, Forall (fun v => settles (decode_into strict v t) t) l).
    { intros e. apply canonical_arr in Hc. rewrite Forall_forall in IH, Hc. apply Forall_forall. auto. }
    destruct t as [| | | | | | | | | |t|n t|]; try done; [by apply stored_inj in Hd as <-|..]; apply dmap_stored_inv in Hd as (vs&Hd&<-); apply kept_slice.
    + refine (settled_elems (fun v old => decode_into strict v t old) t l (elems_of old) vs Hw (Hall t) _ _ Hd); [by destruct old|].
      destruct old; try constructor. by apply kept_slice.
    + rewrite decode_first_take in Hd. apply Forall_app. split; [|apply Forall_replicate, zero_settled].
      refine (settled_elems (fun v old => decode_into strict v t old) t (take n l) (elems_of old) vs Hw (Forall_take _ _ _ (Hall t)) _ _ Hd).
      * destruct old; try done. by destruct Ht.
      * destruct old; try constructor. by apply kept_slice.
  - destruct t as [| | | | | | | | | | | |fs]; try done; [by apply stored_inj in Hd as <-|].
    apply dmap_stored_inv in Hd as (vs&Hd&<-). cbn [wire_type] in Hw. apply andb_prop in Hw as [_ Hw].
    apply kept_struct.
    refine (settled_members strict (decode_into strict) fs m (fields_of old) vs _ Hw _ _ Hd).
    + apply canonical_obj in Hc. rewrite Forall_forall in IH, Hc. apply Forall_forall. auto.
    + destruct old; try (by destruct Ht). by apply has_type_struct.
    + destruct old; try (by destruct Ht). by apply kept_struct.
Qed.

Lemma decode_as_settled strict t v g :
  wire_type t = true -> canonical v -> decode_as strict t v = Ok g -> has_type t g /\ settled g.
Proof.
  intros Hw Hc Hd. apply (decode_into_settled strict v t Hc (zero t)); [done|by apply zero_typed, wire_ints|apply zero_settled|].
  unfold decode_as in Hd. destruct (decode_into _ _ _ _) as [[x [e|]]|e]; [done| |done]. by injection Hd as ->.
Qed.
