(* ===== verification/GoMarshal.v ===== *)
(** * The text [json.Marshal] writes

    [encoding/json]'s own form of a value: members in struct order, strings with HTML escaping. The local
    protocol's messages and the configuration files are written so. It is a [json_writer], so what it
    writes is read back by both decoders. *)

From S2P Require Import Prelude GoStrings Json JsonText GoJson.

(** The escape of one ASCII byte, HTML escaping on. *)
Definition escape_html (b : byte) : bytes :=
  if bool_decide (b ∈ [x3c; x3e; x26]) then [x5c; x75; x30; x30; hex_digit (bZ b / 16); hex_digit (bZ b mod 16)] else escape_ascii b.

Definition marshal_string (s : bytes) : bytes := [x22] ++ escape_with escape_html (length s) s ++ [x22].

Fixpoint marshal_text (v : json) : bytes :=
  match v with
  | JNull => str "null"
  | JBool b => if b then str "true" else str "false"
  | JNum lit => lit
  | JStr s => marshal_string s
  | JArr l => [x5b] ++ commas (map marshal_text l) ++ [x5d]
  | JObj m => [x7b] ++ commas (map (fun kv => marshal_string kv.1 ++ x3a :: marshal_text kv.2) m) ++ [x7d]
  end.

(** [json.Marshal] of a value of a type. *)
Definition Marshal (t : gotype) (v : goval) : option bytes := marshal_text <$> marshal t v.

Lemma parse_escape_html b fuel t :
  is_ascii b = true -> parse_string (S fuel) (escape_html b ++ t) = ('(x, r) ← parse_string fuel t; Some (b :: x, r)).
Proof. destruct b; intros H; try discriminate H; reflexivity. Qed.

Lemma marshal_writer : json_writer marshal_text marshal_string (fun v => v).
Proof.
  split; try done.
  - intros l. split; [done|]. by rewrite map_id.
  - intros m. exists m. split; [done|]. split; [done|]. f_equal. rewrite <-(map_id m) at 1. apply map_ext. by intros [].
  - intros s rest Hv. exists (escape_with escape_html (length s) s ++ x22 :: rest). unfold marshal_string. cbn [app]. rewrite <-app_assoc.
    split; [done|]. by apply (parse_written_string escape_html parse_escape_html).
Qed.

Lemma decode_raw_marshalled v : wf_json v -> decode_raw (marshal_text v) = Some (v, []).
Proof. by apply (decode_one_written _ (fun _ _ _ _ => eq_refl) marshal_writer). Qed.

(** A typed value read back from the text written for it. *)
Lemma Marshal_reads strict t v raw :
  wire_type t = true -> has_type t v -> kept (fun j => j) v -> Marshal t v = Some raw ->
  exists j, decode_raw raw = Some (j, []) /\ wf_json j /\ marshal t v = Some j /\ decode_as strict t j = Ok v.
Proof.
  intros Hw Ht Hs (j&Hm&->)%fmap_Some. pose proof (marshal_wf t v j Hw Ht Hs Hm) as Hj. exists j.
  split; [by apply decode_raw_marshalled|]. split; [done|]. split; [done|].
  unfold decode_as. by rewrite (marshal_reads marshal_writer strict t v j).
Qed.

Lemma decode_strictly_marshalled t v raw :
  wire_type t = true -> has_type t v -> kept (fun j => j) v -> Marshal t v = Some raw -> decode_strictly t raw = Some (v, []).
Proof. intros Hw Ht Hk Hm. destruct (Marshal_reads true t v raw Hw Ht Hk Hm) as (j&Hj&_&_&Hd). unfold decode_strictly. by rewrite Hj, Hd. Qed.
