(* ===== verification/MemberOrder.v ===== *)
(** * Decoding does not depend on the order of members

    [encoding/json] matches members to fields without regard to case, and the last one wins; so the order
    of an object's members matters exactly when two of them are the same field. A value without such
    members ([distinct_members]) decodes to the same thing in any order: what a daemon validated stays
    valid when it is canonicalized ([decode_sorted]), and setting a member changes one field and nothing else. *)

From S2P Require Import Prelude GoStrings GoTime Json JsonText GoJson.

(** No object in it has two members equal up to case. *)
Fixpoint distinct_members (v : json) : Prop :=
  match v with
  | JArr l => (fix go l := match l with [] => True | v :: l => distinct_members v /\ go l end) l
  | JObj m =>
      NoDup (map (fun kv => foldName kv.1) m)
      /\ (fix go m := match m with [] => True | kv :: m => distinct_members kv.2 /\ go m end) m
  | _ => True
  end.

Lemma distinct_arr l : distinct_members (JArr l) <-> Forall distinct_members l.
Proof. cbn. induction l as [|v l IH]; [done|]. rewrite Forall_cons. by rewrite IH. Qed.

Lemma distinct_obj m :
  distinct_members (JObj m) <-> NoDup (map (fun kv => foldName kv.1) m) /\ Forall (fun kv => distinct_members kv.2) m.
Proof. cbn. f_equiv. induction m as [|kv m IH]; [done|]. rewrite Forall_cons. by rewrite IH. Qed.

#[export] Instance distinct_dec : forall v, Decision (distinct_members v).
Proof.
  refine (fix go v : Decision (distinct_members v) := match v with
    | JArr l => (fix gol l : Decision ((fix go l := match l with [] => True | v :: l => distinct_members v /\ go l end) l) := match l with [] => left I | v :: l => and_dec (go v) (gol l) end) l
    | JObj m => and_dec _ ((fix gom m : Decision ((fix go (m : list (bytes * json)) := match m with [] => True | kv :: m => distinct_members kv.2 /\ go m end) m) := match m with [] => left I | kv :: m => and_dec (go kv.2) (gom m) end) m)
    | _ => left I
    end).
Defined.

(** ** One object *)

Lemma find_field_folds fs k i f : find_field fs k = Some i -> fs !! i = Some f -> foldName k = foldName (json_name f).
Proof.
  unfold find_field. destruct (index_of (fun f => bool_decide (json_name f = k)) fs) as [j|] eqn:E.
  - intros [= ->] Hf. apply index_of_Some in E as (x&Hx&Hp). apply bool_decide_eq_true_1 in Hp. rewrite Hf in Hx. injection Hx as <-. by rewrite Hp.
  - intros H Hf. apply index_of_Some in H as (x&Hx&Hp). apply bool_decide_eq_true_1 in Hp. rewrite Hf in Hx. by injection Hx as <-.
Qed.

(** Members that are different fields set different fields. *)
Lemma find_field_ne fs k k' i i' :
  find_field fs k = Some i -> find_field fs k' = Some i' -> is_Some (fs !! i) -> foldName k <> foldName k' -> i <> i'.
Proof.
  intros H H' [f Hf] Hk ->. apply Hk. by rewrite (find_field_folds _ _ _ _ H Hf), (find_field_folds _ _ _ _ H' Hf).
Qed.

(** Members as updates of the fields; [None] is an error. *)
Definition kept_value {A} (m : decoded A) : option A := match m with Ok (a, None) => Some a | _ => None end.

Lemma kept_value_Some {A} (m : decoded A) a : kept_value m = Some a <-> m = stored a.
Proof. unfold stored. destruct m as [[b [e|]]|e]; cbn; split; congruence. Qed.

Definition set_at (i : nat) (g : goval -> option goval) (vals : list goval) : option (list goval) :=
  match vals !! i with Some old => x ← g old; Some (<[i := x]> vals) | None => Some vals end.

Lemma set_at_ne i j g vals vals' : i <> j -> set_at i g vals = Some vals' -> vals' !! j = vals !! j.
Proof.
  unfold set_at. intros Hij. destruct (vals !! i) as [a|]; [|by intros [= ->]]. destruct (g a) as [x|]; cbn; [|done].
  intros [= <-]. by apply list_lookup_insert_ne.
Qed.

Lemma set_at_insert i j g x vals : i <> j -> set_at i g (<[j := x]> vals) = (fun l => <[j := x]> l) <$> set_at i g vals.
Proof.
  intros Hij. unfold set_at. rewrite list_lookup_insert_ne by done. destruct (vals !! i) as [a|]; [|done].
  destruct (g a) as [y|]; cbn; [|done]. by rewrite list_insert_insert_ne.
Qed.

Lemma set_at_comm i j g h vals : i <> j -> (set_at i g vals ≫= set_at j h) = (set_at j h vals ≫= set_at i g).
Proof.
  intros Hij. destruct (vals !! i) as [a|] eqn:Ei.
  - assert (E1 : forall v, v !! i = Some a -> set_at i g v = (x ← g a; Some (<[i := x]> v))) by (unfold set_at; by intros v ->).
    rewrite (E1 vals Ei). destruct (set_at j h vals) as [v2|] eqn:E2; cbn [mbind option_bind].
    + rewrite (E1 v2) by (by rewrite (set_at_ne j i h vals v2)). destruct (g a) as [x|]; cbn [mbind option_bind]; [|done].
      by rewrite set_at_insert, E2.
    + destruct (g a) as [x|]; cbn [mbind option_bind]; [|done]. by rewrite set_at_insert, E2.
  - assert (E1 : forall v, v !! i = None -> set_at i g v = Some v) by (unfold set_at; by intros v ->).
    rewrite (E1 vals Ei). cbn [mbind option_bind]. destruct (set_at j h vals) as [v2|] eqn:E2; [|done]. cbn [mbind option_bind].
    by rewrite (E1 v2) by (by rewrite (set_at_ne j i h vals v2)).
Qed.

Section Members.
Context (strict : bool) (dec : json -> gotype -> goval -> decoded goval) (fs : list gofield).

Definition member_update (kv : bytes * json) (vals : list goval) : option (list goval) :=
  match find_field fs kv.1 with
  | Some i => match fs !! i with Some f => set_at i (fun old => kept_value (dec kv.2 (go_type f) old)) vals | None => Some vals end
  | None => if strict then None else Some vals
  end.

Fixpoint member_updates (m : list (bytes * json)) (vals : list goval) : option (list goval) :=
  match m with [] => Some vals | kv :: m => member_update kv vals ≫= member_updates m end.

Lemma decode_members_updates m vals vs : decode_members strict dec fs m vals = stored vs <-> member_updates m vals = Some vs.
Proof.
  revert vals. induction m as [|[k v] m IH]; intros vals; cbn [decode_members member_updates].
  { split; [by intros <-%stored_inj|by intros [= <-]]. }
  unfold member_update, set_at. cbn [fst snd]. destruct (find_field fs k) as [i|].
  - destruct (fs !! i) as [f|]; [|apply IH]. destruct (vals !! i) as [old|]; [|apply IH]. split.
    + intros (x&->&H)%dbind_stored_inv. cbn. by apply IH.
    + intros (vals'&(x&Hx%kept_value_Some&[= <-])%bind_Some&H)%bind_Some. rewrite Hx, dbind_stored. by apply IH.
  - destruct strict; cbn [mbind option_bind].
    + split; [|done]. by intros (x&?&_)%dbind_stored_inv.
    + change (Ok (tt, None)) with (stored tt). rewrite dbind_stored. apply IH.
Qed.

Lemma member_update_comm kv kv' vals :
  foldName kv.1 <> foldName kv'.1 -> (member_update kv vals ≫= member_update kv') = (member_update kv' vals ≫= member_update kv).
Proof.
  intros Hk. unfold member_update. destruct (find_field fs kv.1) as [i|] eqn:Ei.
  - destruct (fs !! i) as [f|] eqn:Ef.
    + destruct (find_field fs kv'.1) as [j|] eqn:Ej.
      * destruct (fs !! j) as [f'|] eqn:Ef'; [|cbn; by destruct (set_at i _ vals)]. apply set_at_comm. by eapply find_field_ne.
      * destruct strict; cbn; by destruct (set_at i _ vals).
    + cbn [mbind option_bind]. destruct (find_field fs kv'.1) as [j|]; [|by destruct strict]. destruct (fs !! j); [|done]. by destruct (set_at j _ vals).
  - destruct strict; cbn [mbind option_bind]; [|destruct (find_field fs kv'.1) as [j|]; [|done]; destruct (fs !! j); [|done]; by destruct (set_at j _ vals)].
    destruct (find_field fs kv'.1) as [j|]; [|done]. destruct (fs !! j); [|done]. by destruct (set_at j _ vals).
Qed.

(** Members that are different fields can be decoded in any order. *)
Lemma member_updates_perm m m' vals :
  m ≡ₚ m' -> NoDup (map (fun kv => foldName kv.1) m) -> member_updates m vals = member_updates m' vals.
Proof.
  intros Hp. revert vals. induction Hp as [|kv m m' Hp IH|kv kv' m|m1 m2 m3 H1 IH1 H2 IH2]; intros vals Hn; cbn [member_updates map] in *.
  - done.
  - apply NoDup_cons in Hn as [_ Hn]. destruct (member_update kv vals) as [v|]; [|done]. cbn. by apply IH.
  - apply NoDup_cons in Hn as [Hk _]. rewrite not_elem_of_cons in Hk. destruct Hk as [Hk _].
    pose proof (member_update_comm kv' kv vals Hk) as H.
    destruct (member_update kv' vals) as [v1|], (member_update kv vals) as [v2|]; cbn [mbind option_bind] in *; try done.
    + by rewrite H.
    + by rewrite H.
    + by rewrite <-H.
  - rewrite IH1 by done. apply IH2. by rewrite <-H1.
Qed.

(** Setting a field no member is. *)
Lemma member_updates_insert m vals vs i x :
  Forall (fun kv => forall j, find_field fs kv.1 = Some j -> is_Some (fs !! j) -> j <> i) m ->
  member_updates m vals = Some vs -> member_updates m (<[i := x]> vals) = Some (<[i := x]> vs).
Proof.
  intros Hm. revert vals. induction Hm as [|kv m Hkv _ IH]; intros vals; cbn [member_updates]; [by intros [= <-]|].
  intros (v1&H1&H)%bind_Some. apply IH in H. unfold member_update in *. destruct (find_field fs kv.1) as [j|].
  - destruct (fs !! j) as [f|] eqn:Ef; [|by injection H1 as <-]. specialize (Hkv j eq_refl ltac:(done)).
    rewrite set_at_insert, H1 by done. exact H.
  - destruct strict; [done|]. by injection H1 as <-.
Qed.

(** Setting a member: the field it is, and nothing else. *)
Lemma member_update_length kv vals vals' : member_update kv vals = Some vals' -> length vals' = length vals.
Proof.
  unfold member_update, set_at. destruct (find_field fs kv.1) as [i|]; [|destruct strict; [done|by intros [= ->]]].
  destruct (fs !! i) as [f|]; [|by intros [= ->]]. destruct (vals !! i) as [old|]; [|by intros [= ->]].
  intros (x&_&[= <-])%bind_Some. by rewrite length_insert.
Qed.

Lemma member_updates_length m vals vs : member_updates m vals = Some vs -> length vs = length vals.
Proof.
  revert vals. induction m as [|kv m IH]; intros vals; cbn [member_updates]; [by intros [= <-]|].
  intros (v1&H1&H)%bind_Some. by rewrite (IH _ H), (member_update_length _ _ _ H1).
Qed.

Lemma member_updates_set k x i f g m vals vs :
  find_field fs k = Some i -> fs !! i = Some f -> (i < length vals)%nat -> (forall old, dec x (go_type f) old = stored g) ->
  NoDup (map (fun kv => foldName kv.1) (assoc_set k x m)) ->
  member_updates m vals = Some vs -> member_updates (assoc_set k x m) vals = Some (<[i := g]> vs).
Proof.
  intros Hi Hf Hl Hg. revert vals Hl. induction m as [|[k' v] m IH]; intros vals Hl Hn; cbn [assoc_set member_updates] in *.
  - intros [= <-]. destruct (lookup_lt_is_Some_2 vals i Hl) as [old Hold]. unfold member_update, set_at. cbn [fst snd].
    by rewrite Hi, Hf, Hold, Hg.
  - destruct (bool_decide (k' = k)) eqn:E.
    + apply bool_decide_eq_true_1 in E as ->. intros (v1&H1&H)%bind_Some. cbn [member_updates map fst] in *. apply NoDup_cons in Hn as [Hk Hn].
      destruct (lookup_lt_is_Some_2 vals i Hl) as [old Hold]. unfold member_update, set_at in H1 |- *. cbn [fst snd] in *.
      rewrite Hi, Hf, Hold in H1 |- *. rewrite Hg. cbn [mbind option_bind kept_value stored].
      apply bind_Some in H1 as (y&_&[= <-]). apply (member_updates_insert m _ _ i g) in H; [by rewrite list_insert_insert_eq in H|].
      apply Forall_forall. intros kv Hkv j Hj Hjf ->. apply Hk. apply list_elem_of_fmap. exists kv. split; [|done].
      destruct Hjf as [f' Hf']. by rewrite (find_field_folds _ _ _ _ Hi Hf'), (find_field_folds _ _ _ _ Hj Hf').
    + intros (v1&H1&H)%bind_Some. cbn [member_updates map fst] in *. apply NoDup_cons in Hn as [_ Hn]. rewrite H1. cbn [mbind option_bind].
      apply IH; [by rewrite (member_update_length _ _ _ H1)|done|done].
Qed.

End Members.

(** ** Sorting a value's members *)

(** What a decoded value becomes when the input was sorted: its unions are. *)
Fixpoint sort_raws (v : goval) : goval :=
  match v with
  | GRaw j => GRaw (sorted_json j)
  | GPtr v => GPtr (sort_raws v)
  | GSlice l => GSlice (map sort_raws l)
  | GStruct l => GStruct (map sort_raws l)
  | _ => v
  end.

Lemma sort_raws_zero t : sort_raws (zero t) = zero t.
Proof.
  induction t as [| | | | | | | | |t IH|t IH|n t IH|fs IH] using gotype_induction; cbn; try done; f_equal.
  { induction n as [|n IHn]; cbn; [done|]. by rewrite IH, IHn. }
  rewrite map_map.
  induction IH as [|f fs Hf _ IHfs]; [done|]. cbn. by rewrite Hf, IHfs.
Qed.

Lemma sort_raws_zeros n t : map sort_raws (replicate n (zero t)) = replicate n (zero t).
Proof. induction n as [|n IH]; cbn; [done|]. by rewrite sort_raws_zero, IH. Qed.

Lemma sorted_member_keys {A} (h : json -> A) m : map (fun kv => foldName kv.1) (map (fun kv : bytes * json => (kv.1, h kv.2)) m) = map (fun kv => foldName kv.1) m.
Proof. by rewrite map_map. Qed.

(** What decoding promises about sorted input, for the loops. *)
Definition sorts (strict : bool) (v : json) : Prop :=
  forall t old g, decode_into strict v t old = stored g -> decode_into strict (sorted_json v) t (sort_raws old) = stored (sort_raws g).

Lemma sorts_members strict fs m vals vs :
  Forall (fun kv => sorts strict kv.2) m ->
  member_updates strict (decode_into strict) fs m vals = Some vs ->
  member_updates strict (decode_into strict) fs (map (fun kv => (kv.1, sorted_json kv.2)) m) (map sort_raws vals) = Some (map sort_raws vs).
Proof.
  intros Hm. revert vals. induction Hm as [|[k v] m Hv _ IH]; intros vals; cbn [member_updates map]; [by intros [= <-]|].
  intros (v1&H1&H)%bind_Some. apply IH in H. cbn [fst snd] in *.
  assert (E : member_update strict (decode_into strict) fs (k, sorted_json v) (map sort_raws vals) = Some (map sort_raws v1)); [|by rewrite E].
  unfold member_update in *. cbn [fst snd] in *. destruct (find_field fs k) as [i|]; [|destruct strict; [done|by injection H1 as <-]].
  destruct (fs !! i) as [f|]; [|by injection H1 as <-]. unfold set_at in *.
  change (map sort_raws vals) with (sort_raws <$> vals). rewrite list_lookup_fmap. destruct (vals !! i) as [old|]; cbn; [|by injection H1 as <-].
  apply bind_Some in H1 as (x&Hx%kept_value_Some&[= <-]). rewrite (Hv _ _ _ Hx). cbn. f_equal. symmetry. apply list_fmap_insert.
Qed.

Lemma sorts_elems strict t l olds vs :
  Forall (sorts strict) l ->
  decode_elems (fun v old => decode_into strict v t old) t l olds = stored vs ->
  decode_elems (fun v old => decode_into strict v t old) t (map sorted_json l) (map sort_raws olds) = stored (map sort_raws vs).
Proof.
  intros Hl. revert olds vs. induction Hl as [|v l Hv _ IH]; intros olds vs; cbn [decode_elems map]; [by intros <-%stored_inj|].
  intros (x&Hx&H)%dbind_stored_inv. apply dmap_stored_inv in H as (xs&Hxs&<-).
  assert (Eh : default (zero t) (head (map sort_raws olds)) = sort_raws (default (zero t) (head olds))).
  { destruct olds; cbn; [by rewrite sort_raws_zero|done]. }
  rewrite Eh, (Hv _ _ _ Hx), dbind_stored.
  assert (Et : tail (map sort_raws olds) = map sort_raws (tail olds)) by by destruct olds. by rewrite Et, (IH _ _ Hxs).
Qed.

Lemma target_sorted t old :
  let '(t', o, w) := target t old in
  target t (sort_raws old) = (t', sort_raws o, w) /\ forall g, w (sort_raws g) = sort_raws (w g).
Proof.
  destruct t; cbn; try done. split; [|done]. destruct old; cbn; by rewrite ?sort_raws_zero.
Qed.

(** A value without repeated fields decodes sorted as it does unsorted. *)
Lemma decode_sorted strict v : distinct_members v -> sorts strict v.
Proof.
  induction v as [|b|lit|s|l IH|m IH] using json_induction; intros Hd t old g.
  - cbn. intros <-%stored_inj. by destruct t.
  - cbn [decode_into sorted_json]. pose proof (target_sorted t old) as Ht. destruct (target t old) as [[t' o] w]. destruct Ht as [-> Hw].
    intros (x&Hx&<-)%dmap_stored_inv. rewrite <-Hw. revert Hx. by destruct t'; cbn; intros [= <-].
  - cbn [decode_into sorted_json]. pose proof (target_sorted t old) as Ht. destruct (target t old) as [[t' o] w]. destruct Ht as [-> Hw].
    intros (x&Hx&<-)%dmap_stored_inv. rewrite <-Hw. revert Hx. destruct t'; cbn; try (by intros [= <-]).
    + by destruct (ParseInt lit) as [n|]; [destruct (fits bits n)|]; intros [= <-].
    + by destruct (ParseUint lit) as [n|]; [destruct (ufits bits n)|]; intros [= <-].
  - cbn [decode_into sorted_json]. pose proof (target_sorted t old) as Ht. destruct (target t old) as [[t' o] w]. destruct Ht as [-> Hw].
    intros (x&Hx&<-)%dmap_stored_inv. rewrite <-Hw. revert Hx. destruct t'; cbn; try (by intros [= <-]).
    + by destruct (parseRFC3339 _) as [tm|]; [intros [= <-]|].
    + by destruct (is_number s); [intros [= <-]|].
  - cbn [decode_into sorted_json]. pose proof (target_sorted t old) as Ht. destruct (target t old) as [[t' o] w]. destruct Ht as [-> Hw].
    intros (x&Hx&<-)%dmap_stored_inv. rewrite <-Hw. apply distinct_arr in Hd.
    assert (Ee : elems_of (sort_raws o) = map sort_raws (elems_of o)) by by destruct o.
    assert (Hl : Forall (sorts strict) l) by (rewrite Forall_forall in *; auto).
    destruct t' as [| | | | | | | | | |e|n e|]; try (by revert Hx; cbn; intros [= <-]);
      apply dmap_stored_inv in Hx as (vs&Hvs&<-); cbn [sort_raws]; rewrite Ee.
    + by rewrite (sorts_elems strict e l (elems_of o) vs).
    + rewrite decode_first_take in *. rewrite length_map, map_app, firstn_map.
      rewrite (sorts_elems strict e (take n l) (elems_of o) vs); [|by apply Forall_take|exact Hvs].
      by rewrite sort_raws_zeros.
  - pose proof (target_sorted t old) as Ht. cbn [decode_into]. destruct (target t old) as [[t' o] w] eqn:Et. destruct Ht as [Et' Hw].
    intros (x&Hx&<-)%dmap_stored_inv. cbn [sorted_json decode_into]. rewrite Et', <-Hw. apply distinct_obj in Hd as [Hn Hd].
    destruct t' as [| | | | | | | | | | | |fs]; try (by revert Hx; cbn; intros [= <-]).
    apply dmap_stored_inv in Hx as (vs&Hvs%decode_members_updates&<-). cbn [sort_raws].
    assert (Ef : fields_of (sort_raws o) = map sort_raws (fields_of o)) by by destruct o.
    assert (Hm : Forall (fun kv => sorts strict kv.2) m) by (rewrite Forall_forall in *; auto).
    pose proof (sorts_members strict fs m _ _ Hm Hvs) as H. rewrite Ef.
    rewrite (member_updates_perm strict (decode_into strict) fs _ (sort_fields (map (fun kv => (kv.1, sorted_json kv.2)) m))) in H;
      [|symmetry; apply sort_fields_perm|by rewrite sorted_member_keys].
    by rewrite (proj2 (decode_members_updates strict (decode_into strict) fs _ _ _) H).
Qed.

(** A union is the member it was read from. *)
Lemma decode_into_raw strict v old : decode_into strict v TRaw old = stored (GRaw v).
Proof. by destruct v. Qed.

Lemma member_updates_raw strict fs m vals vs i f :
  fs !! i = Some f -> go_type f = TRaw -> member_updates strict (decode_into strict) fs m vals = Some vs ->
  vs !! i = vals !! i \/ exists kv, kv ∈ m /\ vs !! i = Some (GRaw kv.2).
Proof.
  intros Hf Ht. revert vals. induction m as [|[k v] m IH]; intros vals; cbn [member_updates]; [intros [= <-]; by left|].
  intros (v1&H1&H)%bind_Some. destruct (IH v1 H) as [->|(kv&Hkv&->)]; [|right; exists kv; split; [by right|done]].
  unfold member_update in H1. cbn [fst snd] in H1. destruct (find_field fs k) as [j|]; [|destruct strict; [done|injection H1 as <-; by left]].
  destruct (fs !! j) as [f'|] eqn:Ej; [|injection H1 as <-; by left]. unfold set_at in H1.
  destruct (vals !! j) as [old|] eqn:Eo; [|injection H1 as <-; by left]. apply bind_Some in H1 as (x&Hx%kept_value_Some&[= <-]).
  destruct (decide (i = j)) as [->|Hij]; [|left; by rewrite list_lookup_insert_ne].
  rewrite Hf in Ej. injection Ej as <-. rewrite Ht, decode_into_raw in Hx. apply stored_inj in Hx as <-.
  right. exists (k, v). split; [by left|]. apply list_lookup_insert_eq. by eapply lookup_lt_Some.
Qed.

(** ** Whole values *)

Lemma outcome_stored {A} (m : decoded A) a : outcome m = Ok a <-> m = stored a.
Proof. unfold outcome, stored. destruct m as [[b [e|]]|e]; cbn; split; congruence. Qed.

Lemma decode_as_sorted strict t j v :
  distinct_members j -> decode_as strict t j = Ok v -> decode_as strict t (sorted_json j) = Ok (sort_raws v).
Proof.
  unfold decode_as. rewrite !outcome_stored. intros Hd H. apply (decode_sorted strict j Hd) in H. by rewrite sort_raws_zero in H.
Qed.

(** An object into a struct. *)
Lemma decode_as_object strict fs m v :
  decode_as strict (TStruct fs) (JObj m) = Ok v
  <-> exists vs, v = GStruct vs /\ member_updates strict (decode_into strict) fs m (map (fun f => zero f.2) fs) = Some vs.
Proof.
  unfold decode_as. rewrite outcome_stored. cbn [decode_into target zero fields_of]. split.
  - intros (x&Hx&<-)%dmap_stored_inv. apply dmap_stored_inv in Hx as (vs&Hvs&<-). exists vs. by rewrite <-(decode_members_updates strict).
  - intros (vs&->&Hvs). rewrite <-(decode_members_updates strict) in Hvs. by rewrite Hvs.
Qed.

(** ** Strict and lenient decoding agree where both succeed *)

Definition lenient_too (v : json) : Prop :=
  forall t old g, decode_into true v t old = stored g -> decode_into false v t old = stored g.

Lemma lenient_members fs m vals vs :
  Forall (fun kv => lenient_too kv.2) m ->
  member_updates true (decode_into true) fs m vals = Some vs -> member_updates false (decode_into false) fs m vals = Some vs.
Proof.
  intros Hm. revert vals. induction Hm as [|[k v] m Hv _ IH]; intros vals; cbn [member_updates]; [done|].
  intros (v1&H1&H)%bind_Some. assert (E : member_update false (decode_into false) fs (k, v) vals = Some v1); [|rewrite E; by apply IH].
  unfold member_update in *. cbn [fst snd] in *. destruct (find_field fs k) as [i|]; [|done]. destruct (fs !! i) as [f|]; [|done].
  unfold set_at in *. destruct (vals !! i) as [old|]; [|done]. apply bind_Some in H1 as (x&Hx%kept_value_Some&[= <-]).
  by rewrite (Hv _ _ _ Hx).
Qed.

Lemma lenient_elems t l olds vs :
  Forall lenient_too l -> decode_elems (fun v old => decode_into true v t old) t l olds = stored vs ->
  decode_elems (fun v old => decode_into false v t old) t l olds = stored vs.
Proof.
  intros Hl. revert olds vs. induction Hl as [|v l Hv _ IH]; intros olds vs; cbn [decode_elems]; [done|].
  intros (x&Hx&H)%dbind_stored_inv. apply dmap_stored_inv in H as (xs&Hxs&<-). by rewrite (Hv _ _ _ Hx), dbind_stored, (IH _ _ Hxs).
Qed.

Lemma decode_lenient v : lenient_too v.
Proof.
  induction v as [|b|lit|s|l IH|m IH] using json_induction; intros t old g; cbn [decode_into]; try done; destruct (target t old) as [[t' o] w].
  - intros (x&Hx&<-)%dmap_stored_inv. destruct t'; try (by rewrite Hx); apply dmap_stored_inv in Hx as (vs&Hvs&<-).
    + by rewrite (lenient_elems _ _ _ _ IH Hvs).
    + rewrite decode_first_take in *. by rewrite (lenient_elems _ _ _ _ (Forall_take _ _ _ IH) Hvs).
  - intros (x&Hx&<-)%dmap_stored_inv. destruct t' as [| | | | | | | | | | | |fs]; try (by rewrite Hx). apply dmap_stored_inv in Hx as (vs&Hvs&<-).
    apply decode_members_updates, (lenient_members _ _ _ _ IH) in Hvs. by rewrite (proj2 (decode_members_updates false _ fs _ _ _) Hvs).
Qed.

Lemma decode_as_lenient t v g : decode_as true t v = Ok g -> decode_as false t v = Ok g.
Proof. unfold decode_as. rewrite !outcome_stored. apply decode_lenient. Qed.
