(* ===== verification/WireTypes.v ===== *)
(** * The generated wire types ([internal/observer/wire/observer.gen.go])

    One descriptor per generated struct, its fields in declaration order with their Go and JSON names
    (a pointer is [omitempty]), and one per generated string enum with the members its [Valid] accepts.
    The two discriminated unions inside observations are [TRaw]: the struct keeps the raw message.
    [ObservationBatch] and [SourceRotationRequest], whose enums are not strings and which the endpoint
    never decodes, and the query-parameter types are left out. *)

From S2P Require Import Prelude GoJson.

Module wire.

Definition AttachmentIntervalSummaryConfidence : gotype := TEnum (str "AttachmentIntervalSummaryConfidence")
  [str "AUTHORITATIVE"; str "HIGH"; str "INFERRED"].

Definition AttachmentIntervalSummaryMembershipEvidence : gotype := TEnum (str "AttachmentIntervalSummaryMembershipEvidence")
  [str "DECLARED_BOUNDARY"; str "INHERITED_RUN_ID"; str "PROVEN_PROCESS_LINEAGE"; str "SYNTHETIC_INFERRED"].

Definition AttachmentIntervalSummaryStartSource : gotype := TEnum (str "AttachmentIntervalSummaryStartSource")
  [str "CLEAR"; str "COMPACT"; str "RESUME"; str "STARTUP"].

Definition AttachmentIntervalSummary : gotype := TStruct
  [(str "Confidence", str "confidence", AttachmentIntervalSummaryConfidence);
   (str "EndEvidenceId", str "end_evidence_id", TPtr TString);
   (str "EndSequenceExclusive", str "end_sequence_exclusive", TPtr (TInt 64));
   (str "EndedAt", str "ended_at", TPtr TTime);
   (str "IntervalOrdinal", str "interval_ordinal", TInt 32);
   (str "MembershipEvidence", str "membership_evidence", AttachmentIntervalSummaryMembershipEvidence);
   (str "RunId", str "run_id", TString);
   (str "StartEvidenceId", str "start_evidence_id", TString);
   (str "StartSequence", str "start_sequence", TInt 64);
   (str "StartSource", str "start_source", AttachmentIntervalSummaryStartSource);
   (str "StartedAt", str "started_at", TTime)].

Definition BoundedSessionSummary : gotype := TStruct
  [(str "Adapter", str "adapter", TString);
   (str "Model", str "model", TPtr TString);
   (str "NativeSessionId", str "native_session_id", TString)].

Definition TruncationMarker : gotype := TStruct
  [(str "Returned", str "returned", TInt 32);
   (str "Total", str "total", TInt 32);
   (str "Truncated", str "truncated", TBool)].

Definition BtsMemberSummary : gotype := TStruct
  [(str "Assignee", str "assignee", TPtr TString);
   (str "BeadId", str "bead_id", TString);
   (str "Blocked", str "blocked", TPtr TBool);
   (str "BlocksBeadIds", str "blocks_bead_ids", TPtr (TSlice TString));
   (str "BlocksTruncation", str "blocks_truncation", TPtr TruncationMarker);
   (str "ClosedAt", str "closed_at", TPtr TTime);
   (str "IssueType", str "issue_type", TString);
   (str "Priority", str "priority", TPtr TString);
   (str "Status", str "status", TString);
   (str "Title", str "title", TString);
   (str "UpdatedAt", str "updated_at", TTime)].

Definition ByteRange : gotype := TStruct
  [(str "End", str "end", TInt 64);
   (str "Start", str "start", TInt 64)].

Definition CapabilitiesResponseAcknowledgementMode : gotype := TEnum (str "CapabilitiesResponseAcknowledgementMode")
  [str "CONTIGUOUS"].

Definition SourceBindingState : gotype := TEnum (str "SourceBindingState")
  [str "DECOMMISSIONED"; str "ENROLLED"; str "ROTATING"].

Definition SourceBinding : gotype := TStruct
  [(str "SourceId", str "source_id", TString);
   (str "State", str "state", SourceBindingState)].

Definition CapabilitiesResponse : gotype := TStruct
  [(str "AcknowledgementMode", str "acknowledgement_mode", CapabilitiesResponseAcknowledgementMode);
   (str "MaxBatchBytes", str "max_batch_bytes", TInt 64);
   (str "MaxObservationsPerBatch", str "max_observations_per_batch", TInt 32);
   (str "MaxRecordBytes", str "max_record_bytes", TInt 64);
   (str "MaxReferencesPerObservation", str "max_references_per_observation", TInt 32);
   (str "SchemaVersions", str "schema_versions", TSlice (TInt 32));
   (str "ServerTime", str "server_time", TTime);
   (str "SourceBinding", str "source_binding", SourceBinding)].

Definition CaptureDiagnosticPayloadCode : gotype := TEnum (str "CaptureDiagnosticPayloadCode")
  [str "CAPACITY_RECLAMATION"; str "CAPTURE_LOSS"; str "COMPATIBILITY"; str "MISSING_BOUNDARY";
   str "PARTIAL_CAPTURE"; str "REFERENCE_OVERFLOW"; str "UNSUPPORTED_FORMAT"].

Definition CaptureDiagnosticPayloadCompletenessEffect : gotype := TEnum (str "CaptureDiagnosticPayloadCompletenessEffect")
  [str "LOST"; str "NONE"; str "PARTIAL"].

Definition CaptureDiagnosticPayloadSeverity : gotype := TEnum (str "CaptureDiagnosticPayloadSeverity")
  [str "ERROR"; str "INFO"; str "WARNING"].

Definition CaptureDiagnosticPayload : gotype := TStruct
  [(str "Code", str "code", CaptureDiagnosticPayloadCode);
   (str "CompletenessEffect", str "completeness_effect", CaptureDiagnosticPayloadCompletenessEffect);
   (str "Context", str "context", TPtr TString);
   (str "Severity", str "severity", CaptureDiagnosticPayloadSeverity)].

Definition CaptureDiagnosticObservationKind : gotype := TEnum (str "CaptureDiagnosticObservationKind")
  [str "CAPTURE_DIAGNOSTIC"].

Definition ProvenanceCaptureQuality : gotype := TEnum (str "ProvenanceCaptureQuality")
  [str "DEGRADED"; str "OK"; str "UNSUPPORTED_FORMAT"].

Definition ProvenanceCompleteness : gotype := TEnum (str "ProvenanceCompleteness")
  [str "COMPLETE"; str "PARTIAL"; str "UNKNOWN"].

Definition ProvenanceContentPolicy : gotype := TEnum (str "ProvenanceContentPolicy")
  [str "FULL"; str "METADATA_ONLY"].

Definition Provenance : gotype := TStruct
  [(str "Adapter", str "adapter", TString);
   (str "AdapterVersion", str "adapter_version", TString);
   (str "ByteRange", str "byte_range", TPtr ByteRange);
   (str "CaptureQuality", str "capture_quality", TPtr ProvenanceCaptureQuality);
   (str "Completeness", str "completeness", TPtr ProvenanceCompleteness);
   (str "ContentPolicy", str "content_policy", ProvenanceContentPolicy);
   (str "NativeSessionId", str "native_session_id", TPtr TString);
   (str "ParserVersion", str "parser_version", TPtr TString);
   (str "Provider", str "provider", TPtr TString);
   (str "SourceHash", str "source_hash", TPtr TString);
   (str "SourceLocator", str "source_locator", TPtr TString);
   (str "TransformVersion", str "transform_version", TPtr TString)].

Definition RunContextMembershipEvidence : gotype := TEnum (str "RunContextMembershipEvidence")
  [str "DECLARED_BOUNDARY"; str "INHERITED_RUN_ID"; str "PROVEN_PROCESS_LINEAGE"].

Definition WorkReferenceOrigin : gotype := TEnum (str "WorkReferenceOrigin")
  [str "DECLARED"; str "EXTRACTED"].

Definition WorkReference : gotype := TStruct
  [(str "BeadId", str "bead_id", TString);
   (str "Origin", str "origin", WorkReferenceOrigin);
   (str "TeamServerProjectId", str "team_server_project_id", TString)].

Definition RunContext : gotype := TStruct
  [(str "MembershipEvidence", str "membership_evidence", RunContextMembershipEvidence);
   (str "RunId", str "run_id", TString);
   (str "WorkItemRefs", str "work_item_refs", TPtr (TSlice WorkReference))].

Definition CaptureDiagnosticObservation : gotype := TStruct
  [(str "CaptureDiagnostic", str "capture_diagnostic", CaptureDiagnosticPayload);
   (str "CapturedAt", str "captured_at", TTime);
   (str "Kind", str "kind", CaptureDiagnosticObservationKind);
   (str "ObservationId", str "observation_id", TString);
   (str "OccurredAt", str "occurred_at", TTime);
   (str "Provenance", str "provenance", Provenance);
   (str "RunContext", str "run_context", TPtr RunContext);
   (str "Sequence", str "sequence", TInt 64)].

Definition ExtractionProvenanceSurface : gotype := TEnum (str "ExtractionProvenanceSurface")
  [str "TOOL_CALL"; str "TOOL_RESULT"].

Definition ExtractionProvenance : gotype := TStruct
  [(str "ExtractorVersion", str "extractor_version", TString);
   (str "PatternId", str "pattern_id", TString);
   (str "Surface", str "surface", ExtractionProvenanceSurface)].

Definition CommitVcsReferenceRefKind : gotype := TEnum (str "CommitVcsReferenceRefKind")
  [str "COMMIT"].

Definition CommitVcsReference : gotype := TStruct
  [(str "Extraction", str "extraction", ExtractionProvenance);
   (str "Identifier", str "identifier", TString);
   (str "RefKind", str "ref_kind", CommitVcsReferenceRefKind);
   (str "RepoSlug", str "repo_slug", TPtr TString)].

Definition ContentReference : gotype := TStruct
  [(str "Blake3", str "blake3", TString);
   (str "Bytes", str "bytes", TInt 64);
   (str "CassSourceId", str "cass_source_id", TString);
   (str "ContentPolicyVersion", str "content_policy_version", TPtr TString);
   (str "CoveredByteRange", str "covered_byte_range", TPtr ByteRange);
   (str "ReceiptId", str "receipt_id", TString);
   (str "Sha256", str "sha256", TString);
   (str "SnapshotObservationId", str "snapshot_observation_id", TString);
   (str "TranscriptId", str "transcript_id", TPtr TString)].

Definition DiagnosticCode : gotype := TEnum (str "DiagnosticCode")
  [str "COMPATIBILITY"; str "LATE_CAPTURE"; str "MISSING_BOUNDARY"; str "PARTIAL_CAPTURE";
   str "QUARANTINED_ASSOCIATION"; str "UNSUPPORTED_FORMAT"].

Definition DiagnosticSeverity : gotype := TEnum (str "DiagnosticSeverity")
  [str "ERROR"; str "INFO"; str "WARNING"].

Definition Diagnostic : gotype := TStruct
  [(str "Code", str "code", DiagnosticCode);
   (str "Detail", str "detail", TPtr TString);
   (str "Severity", str "severity", DiagnosticSeverity)].

Definition EvidenceSummaryConfidence : gotype := TEnum (str "EvidenceSummaryConfidence")
  [str "AUTHORITATIVE"; str "HIGH"; str "INFERRED"].

Definition EvidenceSummaryKind : gotype := TEnum (str "EvidenceSummaryKind")
  [str "CAPTURE_DIAGNOSTIC"; str "MESSAGE"; str "PROCESS_LIFECYCLE"; str "RUN_BOUNDARY";
   str "SESSION_LIFECYCLE"; str "TOOL_CALL"; str "TOOL_RESULT"; str "USAGE"; str "VCS_REFERENCE";
   str "WORK_REFERENCE"].

Definition EvidenceSummary : gotype := TStruct
  [(str "CapturedAt", str "captured_at", TPtr TTime);
   (str "Confidence", str "confidence", TPtr EvidenceSummaryConfidence);
   (str "Kind", str "kind", EvidenceSummaryKind);
   (str "Label", str "label", TPtr TString);
   (str "NativeSessionId", str "native_session_id", TPtr TString);
   (str "ObservationId", str "observation_id", TString);
   (str "OccurredAt", str "occurred_at", TTime);
   (str "Sequence", str "sequence", TInt 64);
   (str "SourceId", str "source_id", TString)].

Definition IngestAck : gotype := TStruct
  [(str "Accepted", str "accepted", TInt 64);
   (str "AcknowledgedThroughSequence", str "acknowledged_through_sequence", TInt 64);
   (str "Duplicates", str "duplicates", TInt 64);
   (str "SourceId", str "source_id", TString)].

Definition MessageObservationKind : gotype := TEnum (str "MessageObservationKind")
  [str "MESSAGE"].

Definition TransformedContentRepresentation : gotype := TEnum (str "TransformedContentRepresentation")
  [str "TRANSFORMED_BODY"; str "TRANSFORMED_TYPED_PAYLOAD"].

Definition TransformedContent : gotype := TStruct
  [(str "ByteCount", str "byte_count", TPtr (TInt 64));
   (str "ContentReference", str "content_reference", TPtr ContentReference);
   (str "Representation", str "representation", TransformedContentRepresentation)].

Definition MessagePayloadRole : gotype := TEnum (str "MessagePayloadRole")
  [str "ASSISTANT"; str "SYSTEM"; str "TOOL"; str "USER"].

Definition MessagePayload : gotype := TStruct
  [(str "ByteCount", str "byte_count", TPtr (TInt 64));
   (str "Content", str "content", TPtr TransformedContent);
   (str "Role", str "role", MessagePayloadRole);
   (str "TokenCount", str "token_count", TPtr (TInt 64))].

Definition MessageObservation : gotype := TStruct
  [(str "CapturedAt", str "captured_at", TTime);
   (str "Kind", str "kind", MessageObservationKind);
   (str "Message", str "message", MessagePayload);
   (str "ObservationId", str "observation_id", TString);
   (str "OccurredAt", str "occurred_at", TTime);
   (str "Provenance", str "provenance", Provenance);
   (str "RunContext", str "run_context", TPtr RunContext);
   (str "Sequence", str "sequence", TInt 64)].

Definition ObservationEnvelopeKind : gotype := TEnum (str "ObservationEnvelopeKind")
  [str "CAPTURE_DIAGNOSTIC"; str "MESSAGE"; str "PROCESS_LIFECYCLE"; str "RUN_BOUNDARY";
   str "SESSION_LIFECYCLE"; str "TOOL_CALL"; str "TOOL_RESULT"; str "USAGE"; str "VCS_REFERENCE";
   str "WORK_REFERENCE"].

Definition ObservationEnvelope : gotype := TStruct
  [(str "CapturedAt", str "captured_at", TTime);
   (str "Kind", str "kind", ObservationEnvelopeKind);
   (str "ObservationId", str "observation_id", TString);
   (str "OccurredAt", str "occurred_at", TTime);
   (str "Provenance", str "provenance", Provenance);
   (str "RunContext", str "run_context", TPtr RunContext);
   (str "Sequence", str "sequence", TInt 64)].

Definition ObserverErrorBodyCode : gotype := TEnum (str "ObserverErrorBodyCode")
  [str "FORBIDDEN"; str "INVALID_PAGE_TOKEN"; str "MALFORMED_REQUEST"; str "NOT_FOUND";
   str "OBSERVATION_CONFLICT"; str "PAYLOAD_TOO_LARGE"; str "RANGE_NOT_CONTIGUOUS"; str "RATE_LIMITED";
   str "SEQUENCE_CONFLICT"; str "SINK_UNAVAILABLE"; str "SOURCE_BINDING_CONFLICT"; str "UNAUTHENTICATED";
   str "UNPROCESSABLE"; str "UNSUPPORTED_SCHEMA_VERSION"].

Definition ObserverErrorBody : gotype := TStruct
  [(str "Code", str "code", ObserverErrorBodyCode);
   (str "Message", str "message", TString);
   (str "Retryable", str "retryable", TBool)].

Definition ObserverError : gotype := TStruct
  [(str "Error", str "error", ObserverErrorBody)].

Definition ProcessIdentity : gotype := TStruct
  [(str "BootId", str "boot_id", TString);
   (str "Pid", str "pid", TInt 64);
   (str "ProcessStartTime", str "process_start_time", TInt 64)].

Definition ProcessLifecycleObservationKind : gotype := TEnum (str "ProcessLifecycleObservationKind")
  [str "PROCESS_LIFECYCLE"].

Definition ProcessLifecyclePayloadTransition : gotype := TEnum (str "ProcessLifecyclePayloadTransition")
  [str "PROCESS_EXITED"; str "PROCESS_LAUNCH_FAILED"; str "REGISTERED"].

Definition ProcessLifecyclePayload : gotype := TStruct
  [(str "ExitCode", str "exit_code", TPtr (TInt 32));
   (str "ProcessIdentity", str "process_identity", ProcessIdentity);
   (str "Signal", str "signal", TPtr (TInt 32));
   (str "Transition", str "transition", ProcessLifecyclePayloadTransition)].

Definition ProcessLifecycleObservation : gotype := TStruct
  [(str "CapturedAt", str "captured_at", TTime);
   (str "Kind", str "kind", ProcessLifecycleObservationKind);
   (str "ObservationId", str "observation_id", TString);
   (str "OccurredAt", str "occurred_at", TTime);
   (str "ProcessLifecycle", str "process_lifecycle", ProcessLifecyclePayload);
   (str "Provenance", str "provenance", Provenance);
   (str "RunContext", str "run_context", TPtr RunContext);
   (str "Sequence", str "sequence", TInt 64)].

Definition ProvenanceValueConfidence : gotype := TEnum (str "ProvenanceValueConfidence")
  [str "AUTHORITATIVE"; str "HIGH"; str "INFERRED"].

Definition ProvenanceValue : gotype := TStruct
  [(str "Confidence", str "confidence", ProvenanceValueConfidence);
   (str "EvidenceIds", str "evidence_ids", TSlice TString);
   (str "Value", str "value", TString)].

Definition PullRequestVcsReferenceRefKind : gotype := TEnum (str "PullRequestVcsReferenceRefKind")
  [str "PULL_REQUEST"].

Definition PullRequestVcsReference : gotype := TStruct
  [(str "Extraction", str "extraction", ExtractionProvenance);
   (str "Identifier", str "identifier", TString);
   (str "RefKind", str "ref_kind", PullRequestVcsReferenceRefKind);
   (str "RepoSlug", str "repo_slug", TPtr TString)].

Definition QuiescenceRule : gotype := TStruct
  [(str "ThresholdSeconds", str "threshold_seconds", TInt 32);
   (str "Version", str "version", TInt 32)].

Definition RunBoundaryObservationKind : gotype := TEnum (str "RunBoundaryObservationKind")
  [str "RUN_BOUNDARY"].

Definition RunBoundaryObservation : gotype := TStruct
  [(str "CapturedAt", str "captured_at", TTime);
   (str "Kind", str "kind", RunBoundaryObservationKind);
   (str "ObservationId", str "observation_id", TString);
   (str "OccurredAt", str "occurred_at", TTime);
   (str "Provenance", str "provenance", Provenance);
   (str "RunBoundary", str "run_boundary", TRaw);
   (str "RunContext", str "run_context", TPtr RunContext);
   (str "Sequence", str "sequence", TInt 64)].

Definition RunDetailBoundaryAuthority : gotype := TEnum (str "RunDetailBoundaryAuthority")
  [str "AUTHORITATIVE"; str "HIGH"; str "INFERRED"].

Definition RunFieldProvenance : gotype := TStruct
  [(str "BoundaryAuthority", str "boundary_authority", TPtr ProvenanceValue);
   (str "Lifecycle", str "lifecycle", TPtr ProvenanceValue)].

Definition RunDetailLifecycle : gotype := TEnum (str "RunDetailLifecycle")
  [str "CLOSED"; str "OPEN"].

Definition RunDetailOutcome : gotype := TEnum (str "RunDetailOutcome")
  [str "UNKNOWN"].

Definition SessionSummary : gotype := TStruct
  [(str "Adapter", str "adapter", TString);
   (str "Intervals", str "intervals", TSlice AttachmentIntervalSummary);
   (str "Model", str "model", TPtr TString);
   (str "NativeSessionId", str "native_session_id", TString)].

Definition TimelineSummary : gotype := TStruct
  [(str "FirstOccurredAt", str "first_occurred_at", TPtr TTime);
   (str "LastOccurredAt", str "last_occurred_at", TPtr TTime);
   (str "MessageCount", str "message_count", TPtr (TInt 64));
   (str "ObservationCount", str "observation_count", TInt 64);
   (str "ToolCallCount", str "tool_call_count", TPtr (TInt 64))].

Definition UsageByQualityQuality : gotype := TEnum (str "UsageByQualityQuality")
  [str "AUTHORITATIVE"; str "ESTIMATED"; str "PROVIDER_REPORTED"].

Definition UsageByQuality : gotype := TStruct
  [(str "CacheCreationTokens", str "cache_creation_tokens", TPtr (TInt 64));
   (str "CacheReadTokens", str "cache_read_tokens", TPtr (TInt 64));
   (str "InputTokens", str "input_tokens", TPtr (TInt 64));
   (str "OutputTokens", str "output_tokens", TPtr (TInt 64));
   (str "PriceTableVersion", str "price_table_version", TPtr TString);
   (str "Quality", str "quality", UsageByQualityQuality)].

Definition VcsChipOrigin : gotype := TEnum (str "VcsChipOrigin")
  [str "DECLARED"; str "EXTRACTED"].

Definition VcsChipRefKind : gotype := TEnum (str "VcsChipRefKind")
  [str "COMMIT"; str "PULL_REQUEST"].

Definition VcsChip : gotype := TStruct
  [(str "Identifier", str "identifier", TString);
   (str "Origin", str "origin", VcsChipOrigin);
   (str "RefKind", str "ref_kind", VcsChipRefKind);
   (str "RepoSlug", str "repo_slug", TPtr TString);
   (str "ViaRunId", str "via_run_id", TString)].

Definition RunDetail : gotype := TStruct
  [(str "BoundaryAuthority", str "boundary_authority", RunDetailBoundaryAuthority);
   (str "Diagnostics", str "diagnostics", TPtr (TSlice Diagnostic));
   (str "FieldProvenance", str "field_provenance", TPtr RunFieldProvenance);
   (str "HasPartialCapture", str "has_partial_capture", TBool);
   (str "LastEvidenceIngestedAt", str "last_evidence_ingested_at", TTime);
   (str "Lifecycle", str "lifecycle", RunDetailLifecycle);
   (str "Outcome", str "outcome", RunDetailOutcome);
   (str "ProjectionRevision", str "projection_revision", TInt 64);
   (str "ProjectionVersion", str "projection_version", TInt 32);
   (str "RunId", str "run_id", TString);
   (str "Sessions", str "sessions", TSlice SessionSummary);
   (str "StartedAt", str "started_at", TPtr TTime);
   (str "TimelineSummary", str "timeline_summary", TimelineSummary);
   (str "UpdatedAt", str "updated_at", TTime);
   (str "UsageTotals", str "usage_totals", TSlice UsageByQuality);
   (str "VcsRefs", str "vcs_refs", TPtr (TSlice VcsChip));
   (str "WorkItemRefs", str "work_item_refs", TPtr (TSlice WorkReference))].

Definition RunEndedBoundaryBoundarySource : gotype := TEnum (str "RunEndedBoundaryBoundarySource")
  [str "EXPLICIT_WRAPPER"; str "LIFECYCLE_API"].

Definition Watermark : gotype := TStruct
  [(str "ByteOffset", str "byte_offset", TInt 64);
   (str "SourceLocator", str "source_locator", TPtr TString)].

Definition RunEndedBoundaryDrainStatus : gotype := TEnum (str "RunEndedBoundaryDrainStatus")
  [str "COMPLETE"; str "FAILED"; str "PARTIAL_TIMEOUT"].

Definition RunEndedBoundaryTransition : gotype := TEnum (str "RunEndedBoundaryTransition")
  [str "RUN_ENDED"].

Definition RunEndedBoundary : gotype := TStruct
  [(str "BoundarySource", str "boundary_source", RunEndedBoundaryBoundarySource);
   (str "CoveredWatermark", str "covered_watermark", TPtr Watermark);
   (str "DrainStatus", str "drain_status", TPtr RunEndedBoundaryDrainStatus);
   (str "RunId", str "run_id", TString);
   (str "Transition", str "transition", RunEndedBoundaryTransition)].

Definition RunEvidencePage : gotype := TStruct
  [(str "Evidence", str "evidence", TSlice EvidenceSummary);
   (str "NextPageToken", str "next_page_token", TString);
   (str "ProjectionRevision", str "projection_revision", TInt 64);
   (str "ProjectionVersion", str "projection_version", TInt 32);
   (str "RunId", str "run_id", TString)].

Definition RunListItemBoundaryAuthority : gotype := TEnum (str "RunListItemBoundaryAuthority")
  [str "AUTHORITATIVE"; str "HIGH"; str "INFERRED"].

Definition RunListItemLifecycle : gotype := TEnum (str "RunListItemLifecycle")
  [str "CLOSED"; str "OPEN"].

Definition RunListItemOutcome : gotype := TEnum (str "RunListItemOutcome")
  [str "UNKNOWN"].

Definition RunListItem : gotype := TStruct
  [(str "BoundaryAuthority", str "boundary_authority", RunListItemBoundaryAuthority);
   (str "HasPartialCapture", str "has_partial_capture", TBool);
   (str "LastEvidenceIngestedAt", str "last_evidence_ingested_at", TTime);
   (str "Lifecycle", str "lifecycle", RunListItemLifecycle);
   (str "Outcome", str "outcome", RunListItemOutcome);
   (str "ProjectionRevision", str "projection_revision", TInt 64);
   (str "ProjectionVersion", str "projection_version", TInt 32);
   (str "RunId", str "run_id", TString);
   (str "StartedAt", str "started_at", TPtr TTime);
   (str "UpdatedAt", str "updated_at", TTime);
   (str "WorkItemRefs", str "work_item_refs", TPtr (TSlice WorkReference))].

Definition RunListResponse : gotype := TStruct
  [(str "NextPageToken", str "next_page_token", TString);
   (str "QuiescenceRule", str "quiescence_rule", QuiescenceRule);
   (str "Runs", str "runs", TSlice RunListItem);
   (str "UpdatesCursor", str "updates_cursor", TString)].

Definition RunStartedBoundaryBoundarySource : gotype := TEnum (str "RunStartedBoundaryBoundarySource")
  [str "EXPLICIT_WRAPPER"; str "LIFECYCLE_API"].

Definition RunStartedBoundaryTransition : gotype := TEnum (str "RunStartedBoundaryTransition")
  [str "RUN_STARTED"].

Definition RunStartedBoundary : gotype := TStruct
  [(str "BoundarySource", str "boundary_source", RunStartedBoundaryBoundarySource);
   (str "RunId", str "run_id", TString);
   (str "Transition", str "transition", RunStartedBoundaryTransition);
   (str "WorkItemRefs", str "work_item_refs", TPtr (TSlice WorkReference))].

Definition SequenceRange : gotype := TStruct
  [(str "FirstSequence", str "first_sequence", TInt 64);
   (str "LastSequence", str "last_sequence", TInt 64)].

Definition SessionLifecycleObservationKind : gotype := TEnum (str "SessionLifecycleObservationKind")
  [str "SESSION_LIFECYCLE"].

Definition SessionLifecyclePayloadStartSource : gotype := TEnum (str "SessionLifecyclePayloadStartSource")
  [str "CLEAR"; str "COMPACT"; str "RESUME"; str "STARTUP"].

Definition SessionLifecyclePayloadTransition : gotype := TEnum (str "SessionLifecyclePayloadTransition")
  [str "CLEARED"; str "COMPACTED"; str "RESUMED"; str "STARTED"].

Definition SessionLifecyclePayload : gotype := TStruct
  [(str "Model", str "model", TPtr TString);
   (str "NativeSessionId", str "native_session_id", TString);
   (str "Provider", str "provider", TString);
   (str "StartSource", str "start_source", SessionLifecyclePayloadStartSource);
   (str "Transition", str "transition", SessionLifecyclePayloadTransition)].

Definition SessionLifecycleObservation : gotype := TStruct
  [(str "CapturedAt", str "captured_at", TTime);
   (str "Kind", str "kind", SessionLifecycleObservationKind);
   (str "ObservationId", str "observation_id", TString);
   (str "OccurredAt", str "occurred_at", TTime);
   (str "Provenance", str "provenance", Provenance);
   (str "RunContext", str "run_context", TPtr RunContext);
   (str "Sequence", str "sequence", TInt 64);
   (str "SessionLifecycle", str "session_lifecycle", SessionLifecyclePayload)].

Definition SourceDecommissionRequest : gotype := TStruct
  [(str "Reason", str "reason", TPtr TString)].

Definition SourceDescriptorState : gotype := TEnum (str "SourceDescriptorState")
  [str "DECOMMISSIONED"; str "ENROLLED"; str "ROTATING"].

Definition SourceDescriptor : gotype := TStruct
  [(str "AcknowledgedThroughSequence", str "acknowledged_through_sequence", TPtr (TInt 64));
   (str "DecommissionedAt", str "decommissioned_at", TPtr TTime);
   (str "EnrolledAt", str "enrolled_at", TPtr TTime);
   (str "LastIngestAt", str "last_ingest_at", TPtr TTime);
   (str "SourceId", str "source_id", TString);
   (str "State", str "state", SourceDescriptorState);
   (str "WorkloadSubjectFingerprint", str "workload_subject_fingerprint", TPtr TString)].

Definition SourceEnrollRequest : gotype := TStruct
  [(str "DisplayLabel", str "display_label", TPtr TString);
   (str "SourceId", str "source_id", TString);
   (str "WorkloadSubjectFingerprint", str "workload_subject_fingerprint", TPtr TString)].

Definition SourceRotationResult : gotype := TStruct
  [(str "Decommissioned", str "decommissioned", SourceDescriptor);
   (str "Enrolled", str "enrolled", SourceDescriptor)].

Definition ToolCallObservationKind : gotype := TEnum (str "ToolCallObservationKind")
  [str "TOOL_CALL"].

Definition ToolCallPayloadCategory : gotype := TEnum (str "ToolCallPayloadCategory")
  [str "FILE"; str "MCP"; str "NETWORK"; str "OTHER"; str "SEARCH"; str "SHELL"].

Definition ToolCallPayload : gotype := TStruct
  [(str "ArgumentByteCount", str "argument_byte_count", TPtr (TInt 64));
   (str "Category", str "category", ToolCallPayloadCategory);
   (str "Content", str "content", TPtr TransformedContent)].

Definition ToolCallObservation : gotype := TStruct
  [(str "CapturedAt", str "captured_at", TTime);
   (str "Kind", str "kind", ToolCallObservationKind);
   (str "ObservationId", str "observation_id", TString);
   (str "OccurredAt", str "occurred_at", TTime);
   (str "Provenance", str "provenance", Provenance);
   (str "RunContext", str "run_context", TPtr RunContext);
   (str "Sequence", str "sequence", TInt 64);
   (str "ToolCall", str "tool_call", ToolCallPayload)].

Definition ToolResultObservationKind : gotype := TEnum (str "ToolResultObservationKind")
  [str "TOOL_RESULT"].

Definition ToolResultPayloadCategory : gotype := TEnum (str "ToolResultPayloadCategory")
  [str "FILE"; str "MCP"; str "NETWORK"; str "OTHER"; str "SEARCH"; str "SHELL"].

Definition ToolResultPayloadStatus : gotype := TEnum (str "ToolResultPayloadStatus")
  [str "DENIED"; str "ERROR"; str "OK"; str "TIMEOUT"].

Definition ToolResultPayload : gotype := TStruct
  [(str "Category", str "category", ToolResultPayloadCategory);
   (str "Content", str "content", TPtr TransformedContent);
   (str "ResultByteCount", str "result_byte_count", TPtr (TInt 64));
   (str "Status", str "status", ToolResultPayloadStatus)].

Definition ToolResultObservation : gotype := TStruct
  [(str "CapturedAt", str "captured_at", TTime);
   (str "Kind", str "kind", ToolResultObservationKind);
   (str "ObservationId", str "observation_id", TString);
   (str "OccurredAt", str "occurred_at", TTime);
   (str "Provenance", str "provenance", Provenance);
   (str "RunContext", str "run_context", TPtr RunContext);
   (str "Sequence", str "sequence", TInt 64);
   (str "ToolResult", str "tool_result", ToolResultPayload)].

Definition UsageByQualityOriginOrigin : gotype := TEnum (str "UsageByQualityOriginOrigin")
  [str "DECLARED"; str "EXTRACTED"].

Definition UsageByQualityOriginQuality : gotype := TEnum (str "UsageByQualityOriginQuality")
  [str "AUTHORITATIVE"; str "ESTIMATED"; str "PROVIDER_REPORTED"].

Definition UsageByQualityOrigin : gotype := TStruct
  [(str "CacheCreationTokens", str "cache_creation_tokens", TPtr (TInt 64));
   (str "CacheReadTokens", str "cache_read_tokens", TPtr (TInt 64));
   (str "InputTokens", str "input_tokens", TPtr (TInt 64));
   (str "Origin", str "origin", UsageByQualityOriginOrigin);
   (str "OutputTokens", str "output_tokens", TPtr (TInt 64));
   (str "PriceTableVersion", str "price_table_version", TPtr TString);
   (str "Quality", str "quality", UsageByQualityOriginQuality)].

Definition UsageObservationKind : gotype := TEnum (str "UsageObservationKind")
  [str "USAGE"].

Definition UsagePayloadQuality : gotype := TEnum (str "UsagePayloadQuality")
  [str "AUTHORITATIVE"; str "ESTIMATED"; str "PROVIDER_REPORTED"].

Definition UsagePayload : gotype := TStruct
  [(str "CacheCreationTokens", str "cache_creation_tokens", TPtr (TInt 64));
   (str "CacheReadTokens", str "cache_read_tokens", TPtr (TInt 64));
   (str "InputTokens", str "input_tokens", TPtr (TInt 64));
   (str "MessageId", str "message_id", TPtr TString);
   (str "OutputTokens", str "output_tokens", TPtr (TInt 64));
   (str "PriceTableVersion", str "price_table_version", TPtr TString);
   (str "ProviderSource", str "provider_source", TPtr TString);
   (str "Quality", str "quality", UsagePayloadQuality)].

Definition UsageObservation : gotype := TStruct
  [(str "CapturedAt", str "captured_at", TTime);
   (str "Kind", str "kind", UsageObservationKind);
   (str "ObservationId", str "observation_id", TString);
   (str "OccurredAt", str "occurred_at", TTime);
   (str "Provenance", str "provenance", Provenance);
   (str "RunContext", str "run_context", TPtr RunContext);
   (str "Sequence", str "sequence", TInt 64);
   (str "Usage", str "usage", UsagePayload)].

Definition VcsReferenceObservationKind : gotype := TEnum (str "VcsReferenceObservationKind")
  [str "VCS_REFERENCE"].

Definition VcsReferenceObservation : gotype := TStruct
  [(str "CapturedAt", str "captured_at", TTime);
   (str "Kind", str "kind", VcsReferenceObservationKind);
   (str "ObservationId", str "observation_id", TString);
   (str "OccurredAt", str "occurred_at", TTime);
   (str "Provenance", str "provenance", Provenance);
   (str "RunContext", str "run_context", TPtr RunContext);
   (str "Sequence", str "sequence", TInt 64);
   (str "VcsReference", str "vcs_reference", TRaw)].

Definition WorkReferenceObservationKind : gotype := TEnum (str "WorkReferenceObservationKind")
  [str "WORK_REFERENCE"].

Definition WorkReferenceObservation : gotype := TStruct
  [(str "CapturedAt", str "captured_at", TTime);
   (str "Kind", str "kind", WorkReferenceObservationKind);
   (str "ObservationId", str "observation_id", TString);
   (str "OccurredAt", str "occurred_at", TTime);
   (str "Provenance", str "provenance", Provenance);
   (str "RunContext", str "run_context", TPtr RunContext);
   (str "Sequence", str "sequence", TInt 64);
   (str "WorkReference", str "work_reference", WorkReference)].

Definition WorkRunAggregates : gotype := TStruct
  [(str "DeclaredRunCount", str "declared_run_count", TInt 32);
   (str "DeclaredUsage", str "declared_usage", TSlice UsageByQuality);
   (str "ExtractedRunCount", str "extracted_run_count", TInt 32);
   (str "ExtractedUsage", str "extracted_usage", TSlice UsageByQuality)].

Definition WorkRunRunSummaryBoundaryAuthority : gotype := TEnum (str "WorkRunRunSummaryBoundaryAuthority")
  [str "AUTHORITATIVE"; str "HIGH"; str "INFERRED"].

Definition WorkRunRunSummaryLifecycle : gotype := TEnum (str "WorkRunRunSummaryLifecycle")
  [str "CLOSED"; str "OPEN"].

Definition WorkRunRunSummaryOutcome : gotype := TEnum (str "WorkRunRunSummaryOutcome")
  [str "UNKNOWN"].

Definition WorkRunRunSummaryWorkRefOrigin : gotype := TEnum (str "WorkRunRunSummaryWorkRefOrigin")
  [str "DECLARED"; str "EXTRACTED"].

Definition WorkRunRunSummary : gotype := TStruct
  [(str "BoundaryAuthority", str "boundary_authority", WorkRunRunSummaryBoundaryAuthority);
   (str "Lifecycle", str "lifecycle", WorkRunRunSummaryLifecycle);
   (str "Outcome", str "outcome", WorkRunRunSummaryOutcome);
   (str "RunId", str "run_id", TString);
   (str "Session", str "session", TPtr BoundedSessionSummary);
   (str "Usage", str "usage", TPtr (TSlice UsageByQualityOrigin));
   (str "VcsChips", str "vcs_chips", TPtr (TSlice VcsChip));
   (str "WorkRefOrigin", str "work_ref_origin", WorkRunRunSummaryWorkRefOrigin)].

Definition WorkRunIdentity : gotype := TStruct
  [(str "GroupBeadId", str "group_bead_id", TString);
   (str "GroupBeadType", str "group_bead_type", TString);
   (str "TeamServerProjectId", str "team_server_project_id", TString)].

Definition WorkRunMember : gotype := TStruct
  [(str "AssociatedRuns", str "associated_runs", TSlice WorkRunRunSummary);
   (str "Bead", str "bead", BtsMemberSummary);
   (str "IsGroupBead", str "is_group_bead", TBool);
   (str "RunTruncation", str "run_truncation", TruncationMarker);
   (str "SubWorkRun", str "sub_work_run", TPtr WorkRunIdentity)].

Definition WorkRunDetail : gotype := TStruct
  [(str "Aggregates", str "aggregates", WorkRunAggregates);
   (str "EvaluatedAt", str "evaluated_at", TTime);
   (str "MemberTruncation", str "member_truncation", TruncationMarker);
   (str "Members", str "members", TSlice WorkRunMember);
   (str "NextPageToken", str "next_page_token", TString);
   (str "WorkAxisAvailable", str "work_axis_available", TBool);
   (str "WorkRun", str "work_run", WorkRunIdentity)].

(** Every generated struct. *)
Definition generated_types : list gotype :=
  [AttachmentIntervalSummary; BoundedSessionSummary; TruncationMarker; BtsMemberSummary; ByteRange;
   SourceBinding; CapabilitiesResponse; CaptureDiagnosticPayload; Provenance; WorkReference; RunContext;
   CaptureDiagnosticObservation; ExtractionProvenance; CommitVcsReference; ContentReference; Diagnostic;
   EvidenceSummary; IngestAck; TransformedContent; MessagePayload; MessageObservation; ObservationEnvelope;
   ObserverErrorBody; ObserverError; ProcessIdentity; ProcessLifecyclePayload; ProcessLifecycleObservation;
   ProvenanceValue; PullRequestVcsReference; QuiescenceRule; RunBoundaryObservation; RunFieldProvenance;
   SessionSummary; TimelineSummary; UsageByQuality; VcsChip; RunDetail; Watermark; RunEndedBoundary;
   RunEvidencePage; RunListItem; RunListResponse; RunStartedBoundary; SequenceRange; SessionLifecyclePayload;
   SessionLifecycleObservation; SourceDecommissionRequest; SourceDescriptor; SourceEnrollRequest;
   SourceRotationResult; ToolCallPayload; ToolCallObservation; ToolResultPayload; ToolResultObservation;
   UsageByQualityOrigin; UsagePayload; UsageObservation; VcsReferenceObservation; WorkReferenceObservation;
   WorkRunAggregates; WorkRunRunSummary; WorkRunIdentity; WorkRunMember; WorkRunDetail].

End wire.
