(* ===== verification/StrictDecode.v ===== *)
(** * The strict observation decoder ([internal/observer/wire/strictdecode.go], [enumcheck.go], [errors.go])

    [DecodeObservationBatch] turns a request body into typed observations: header, closed kinds, required
    payload members, strictly decoded variants and nested unions, closed enums. A [json.RawMessage] is
    the value its bytes hold (with repeated members), so decoding it again leaves no trailing data. *)

From S2P Require Import Prelude GoStrings Json JsonText GoTime GoJson WireTypes.

(** ** Errors *)

Inductive decode_class : Type :=
| ErrMalformedJSON
| ErrUnknownField
| ErrUnknownDiscriminator
| ErrSequenceOutOfRange
| ErrSchemaVersionUnsupported
| ErrEnumOutOfRange
| ErrMissingPayload.

#[export] Instance decode_class_eq_dec : EqDecision decode_class.
Proof. solve_decision. Defined.

Record DecodeError : Type := decodeErr { de_Class : decode_class; de_Field : bytes }.

Abbreviation dres := (result DecodeError).

Fixpoint Contains (sub s : bytes) : bool :=
  HasPrefix s sub || match s with [] => false | _ :: r => Contains sub r end.

(** Whether the error's text has "unknown field" in it. *)
Definition says_unknown_field (e : json_error) : bool :=
  match e with
  | EUnknownField _ => true
  | ETimeSyntax text | EBadNumber text => Contains (str "unknown field") text
  | ETypeMismatch | ENotTimeString => false
  end.

Definition classifyDecode (e : json_error) (field : bytes) : DecodeError :=
  decodeErr (if says_unknown_field e then ErrUnknownField else ErrMalformedJSON) field.

(** ** Closed enums *)

Definition joinPath (base field : bytes) : bytes := if bool_decide (base = []) then field else base ++ str "." ++ field.
Definition indexPath (path : bytes) (i : Z) : bytes := path ++ str "[" ++ FormatInt i ++ str "]".

(** The path of the first enum value out of range. *)
Fixpoint walkEnums (t : gotype) (v : goval) (path : bytes) : option bytes :=
  match t, v with
  | TPtr t, GPtr v => walkEnums t v path
  | TEnum _ valid, GStr s => if bool_decide (s ∈ valid) then None else Some path
  | TSlice t, GSlice l | TArray _ t, GSlice l =>
      (fix go (i : Z) (l : list goval) : option bytes :=
         match l with
         | [] => None
         | v :: r => match walkEnums t v (indexPath path i) with Some p => Some p | None => go (i + 1) r end
         end) 0 l
  | TStruct fs, GStruct vs =>
      (fix go (fs : list gofield) (vs : list goval) : option bytes :=
         match fs, vs with
         | f :: fs, v :: vs =>
             match walkEnums f.2 v (joinPath path f.1.1) with Some p => Some p | None => go fs vs end
         | _, _ => None
         end) fs vs
  | _, _ => None
  end.

Definition validateEnumMembership (t : gotype) (v : goval) (path : bytes) : dres unit :=
  match walkEnums t v path with Some p => Err (decodeErr ErrEnumOutOfRange p) | None => Ok tt end.

(** ** Strict decoding *)

(** [Decoder.More]. *)
Definition More (rest : bytes) : bool :=
  match skip_ws rest with [] => false | c :: _ => negb (bool_decide (c = x5d)) && negb (bool_decide (c = x7d)) end.

(** [strictDecode] and the classification of its error. *)
Definition strictDecode (data : bytes) (t : gotype) (field : bytes) : dres goval :=
  match decode_raw data with
  | None => Err (decodeErr ErrMalformedJSON field)
  | Some (v, rest) =>
      match decode_as true t v with
      | Err e => Err (classifyDecode e field)
      | Ok g => if More rest then Err (decodeErr ErrMalformedJSON field) else Ok g
      end
  end.

Definition strictDecodeVariant (raw : json) (t : gotype) (field : bytes) : dres goval :=
  match decode_as true t raw with Ok g => Ok g | Err e => Err (classifyDecode e field) end.

(** [json.Unmarshal] of a raw message. *)
Definition unmarshal (raw : json) (t : gotype) (field : bytes) : dres goval :=
  match decode_as false t raw with Ok g => Ok g | Err e => Err (classifyDecode e field) end.

(** A field of a decoded struct, by its Go name. *)
Definition get (t : gotype) (name : String.string) (v : goval) : goval :=
  match t, v with
  | TStruct fs, GStruct vs =>
      match index_of (fun f => bool_decide (go_name f = str name)) fs with Some i => default GNil (vs !! i) | None => GNil end
  | _, _ => GNil
  end.

Definition as_string (v : goval) : bytes := match v with GStr s | GNum s => s | _ => [] end.
Definition as_int (v : goval) : Z := match v with GInt z => z | _ => 0 end.
Definition as_raw (v : goval) : json := match v with GRaw j => j | _ => JNull end.
Definition as_slice (v : goval) : list goval := match v with GSlice l => l | _ => [] end.

Definition SequenceMin : Z := 1.
Definition SequenceMax : Z := MaxInt64.
Definition SupportedSchemaVersion : Z := 1.

(** [json.Number.Int64], then the range. *)
Definition parseSequence (n : bytes) (field : bytes) : dres Z :=
  match ParseInt n with
  | None => Err (decodeErr ErrSequenceOutOfRange field)
  | Some v =>
      if (v <? SequenceMin) || (SequenceMax <? v) then Err (decodeErr ErrSequenceOutOfRange field) else Ok v
  end.

(** [map[string]json.RawMessage]: the last member of that name. *)
Definition last_member (name : bytes) (m : list (bytes * json)) : option json :=
  fold_left (fun acc kv => if bool_decide (kv.1 = name) then Some kv.2 else acc) m None.

Definition requirePayloadMember (raw : json) (member field : bytes) : dres unit :=
  match raw with
  | JObj m =>
      match last_member member m with
      | None | Some JNull => Err (decodeErr ErrMissingPayload (field ++ str "." ++ member))
      | Some _ => Ok tt
      end
  | JNull => Err (decodeErr ErrMissingPayload (field ++ str "." ++ member))
  | _ => Err (decodeErr ErrMalformedJSON field)
  end.

(** ** Observations *)

Record DecodedObservation : Type := mkDecoded {
  do_Kind : bytes;
  do_Sequence : Z;
  do_ObservationID : bytes;
  do_RunContext : goval;
  do_Variant : goval;
  do_RunStarted : option goval;
  do_RunEnded : option goval;
  do_Usage : option goval
}.

Record DecodedBatch : Type := mkBatch {
  db_SchemaVersion : Z;
  db_SourceID : bytes;
  db_FirstSequence : Z;
  db_LastSequence : Z;
  db_Observations : list DecodedObservation
}.

Definition payloadMemberByKind : list (bytes * bytes) :=
  [(str "RUN_BOUNDARY", str "run_boundary"); (str "SESSION_LIFECYCLE", str "session_lifecycle");
   (str "MESSAGE", str "message"); (str "TOOL_CALL", str "tool_call"); (str "TOOL_RESULT", str "tool_result");
   (str "USAGE", str "usage"); (str "WORK_REFERENCE", str "work_reference"); (str "VCS_REFERENCE", str "vcs_reference");
   (str "PROCESS_LIFECYCLE", str "process_lifecycle"); (str "CAPTURE_DIAGNOSTIC", str "capture_diagnostic")].

(** The [switch peek.Kind]: the variant each closed kind decodes into. *)
Definition variant_types : list (bytes * gotype) :=
  [(str "RUN_BOUNDARY", wire.RunBoundaryObservation); (str "SESSION_LIFECYCLE", wire.SessionLifecycleObservation);
   (str "MESSAGE", wire.MessageObservation); (str "TOOL_CALL", wire.ToolCallObservation);
   (str "TOOL_RESULT", wire.ToolResultObservation); (str "USAGE", wire.UsageObservation);
   (str "WORK_REFERENCE", wire.WorkReferenceObservation); (str "VCS_REFERENCE", wire.VcsReferenceObservation);
   (str "PROCESS_LIFECYCLE", wire.ProcessLifecycleObservation);
   (str "CAPTURE_DIAGNOSTIC", wire.CaptureDiagnosticObservation)].

Definition by_kind {A} (kind : bytes) (table : list (bytes * A)) : option A :=
  match list_find (fun kv => kv.1 = kind) table with Some (_, kv) => Some kv.2 | None => None end.

Definition strict_valid (raw : json) (t : gotype) (field : bytes) : dres goval :=
  b ← strictDecodeVariant raw t field; _ ← validateEnumMembership t b field; Ok b.

Definition transition_type : gotype := TStruct [(str "Transition", str "transition", TString)].
Definition ref_kind_type : gotype := TStruct [(str "RefKind", str "ref_kind", TString)].
Definition peek_fields : list gofield := [(str "Kind", str "kind", TString); (str "Sequence", str "sequence", TNumber)].
Definition peek_type : gotype := TStruct peek_fields.

(** The started or the ended boundary. *)
Definition decodeRunBoundary (raw : json) (field : bytes) : dres (option goval * option goval) :=
  peek ← unmarshal raw transition_type field;
  let transition := as_string (get transition_type "Transition" peek) in
  if bool_decide (transition = str "RUN_STARTED")
  then b ← strict_valid raw wire.RunStartedBoundary field; Ok (Some b, None)
  else if bool_decide (transition = str "RUN_ENDED")
  then b ← strict_valid raw wire.RunEndedBoundary field; Ok (None, Some b)
  else Err (decodeErr ErrUnknownDiscriminator (field ++ str ".transition")).

Definition decodeVcsReference (raw : json) (field : bytes) : dres unit :=
  peek ← unmarshal raw ref_kind_type field;
  let ref_kind := as_string (get ref_kind_type "RefKind" peek) in
  if bool_decide (ref_kind = str "COMMIT")
  then _ ← strict_valid raw wire.CommitVcsReference field; Ok tt
  else if bool_decide (ref_kind = str "PULL_REQUEST")
  then _ ← strict_valid raw wire.PullRequestVcsReference field; Ok tt
  else Err (decodeErr ErrUnknownDiscriminator (field ++ str ".ref_kind")).

Definition decodeObservation (raw : json) (idx : Z) : dres DecodedObservation :=
  let field := indexPath (str "observations") idx in
  peek ← unmarshal raw peek_type field;
  let kind := as_string (get peek_type "Kind" peek) in
  seq ← parseSequence (as_string (get peek_type "Sequence" peek)) (field ++ str ".sequence");
  _ ← (match by_kind kind payloadMemberByKind with
       | Some member => requirePayloadMember raw member field
       | None => Ok tt
       end);
  match by_kind kind variant_types with
  | None => Err (decodeErr ErrUnknownDiscriminator (field ++ str ".kind"))
  | Some t =>
      v ← strictDecodeVariant raw t field;
      '(started, ended) ←
        (if bool_decide (kind = str "RUN_BOUNDARY")
         then decodeRunBoundary (as_raw (get t "RunBoundary" v)) (field ++ str ".run_boundary")
         else Ok (None, None));
      _ ← (if bool_decide (kind = str "VCS_REFERENCE")
           then decodeVcsReference (as_raw (get t "VcsReference" v)) (field ++ str ".vcs_reference")
           else Ok tt);
      _ ← validateEnumMembership t v field;
      Ok (mkDecoded kind seq (as_string (get t "ObservationId" v)) (get t "RunContext" v) v started ended
            (if bool_decide (kind = str "USAGE") then Some (get t "Usage" v) else None))
  end.

Fixpoint decodeObservations (raws : list json) (idx : Z) : dres (list DecodedObservation) :=
  match raws with
  | [] => Ok []
  | raw :: r => o ← decodeObservation raw idx; os ← decodeObservations r (idx + 1); Ok (o :: os)
  end.

Definition header_type : gotype :=
  TStruct [(str "SchemaVersion", str "schema_version", TNumber); (str "SourceID", str "source_id", TString);
           (str "FirstSequence", str "first_sequence", TNumber); (str "LastSequence", str "last_sequence", TNumber);
           (str "Observations", str "observations", TSlice TRaw)].

(** The header's fields, then every observation. *)
Definition decode_header (hdr : goval) : dres DecodedBatch :=
  match ParseInt (as_string (get header_type "SchemaVersion" hdr)) with
  | Some sv =>
      if sv =? SupportedSchemaVersion then
        first ← parseSequence (as_string (get header_type "FirstSequence" hdr)) (str "first_sequence");
        last ← parseSequence (as_string (get header_type "LastSequence" hdr)) (str "last_sequence");
        os ← decodeObservations (map as_raw (as_slice (get header_type "Observations" hdr))) 0;
        Ok (mkBatch sv (as_string (get header_type "SourceID" hdr)) first last os)
      else Err (decodeErr ErrSchemaVersionUnsupported (str "schema_version"))
  | None => Err (decodeErr ErrSchemaVersionUnsupported (str "schema_version"))
  end.

Definition DecodeObservationBatch (data : bytes) : dres DecodedBatch :=
  hdr ← strictDecode data header_type []; decode_header hdr.

(** ** Enums, whatever the path *)

Fixpoint enums_valid (t : gotype) (v : goval) : bool :=
  match t, v with
  | TPtr t, GPtr v => enums_valid t v
  | TEnum _ valid, GStr s => bool_decide (s ∈ valid)
  | TSlice t, GSlice l | TArray _ t, GSlice l => forallb (enums_valid t) l
  | TStruct fs, GStruct vs =>
      (fix go (fs : list gofield) (vs : list goval) : bool :=
         match fs, vs with f :: fs, v :: vs => enums_valid f.2 v && go fs vs | _, _ => true end) fs vs
  | _, _ => true
  end.

(** The loop over elements, with their indices. *)
Lemma walk_elems_valid t path l : (forall v path, walkEnums t v path = None <-> enums_valid t v = true) ->
  forall i, (fix go (i : Z) (l : list goval) : option bytes :=
     match l with
     | [] => None
     | v :: r => match walkEnums t v (indexPath path i) with Some p => Some p | None => go (i + 1) r end
     end) i l = None <-> forallb (enums_valid t) l = true.
Proof.
  intros IH. induction l as [|v l IHl]; intros i; cbn [forallb]; [done|].
  rewrite andb_true_iff, <-(IH v (indexPath path i)), <-(IHl (i + 1)).
  destruct (walkEnums t v _); split; try done; by intros [? ?].
Qed.

Lemma walkEnums_valid t v path : walkEnums t v path = None <-> enums_valid t v = true.
Proof.
  revert v path. induction t as [| | | | | | | |n l|t IH|t IH|n t IH|fs IH] using gotype_induction; intros v path;
    destruct v as [|s| | | | | |v|l'|vs]; cbn [walkEnums enums_valid]; try done.
  - by case_bool_decide.
  - by apply walk_elems_valid.
  - by apply walk_elems_valid.
  - revert vs. induction IH as [|f fs Hf _ IHfs]; intros [|v vs]; try done.
    rewrite andb_true_iff, <-(Hf v (joinPath path f.1.1)), <-(IHfs vs).
    destruct (walkEnums f.2 v _); split; try done; by intros [? ?].
Qed.

Lemma validateEnumMembership_ok t v path : validateEnumMembership t v path = Ok tt <-> enums_valid t v = true.
Proof. rewrite <-(walkEnums_valid t v path). unfold validateEnumMembership. by destruct (walkEnums t v path). Qed.

(** ** One member name, one field *)

(** No two field names are equal under folding. *)
Definition distinct_fields (fs : list gofield) : bool := bool_decide (NoDup ((fun f => foldName (json_name f)) <$> fs)).

Lemma index_of_None {A} (p : A -> bool) l x : index_of p l = None -> x ∈ l -> p x = false.
Proof.
  induction l as [|y l IH]; cbn; [by inversion 2|]. destruct (p y) eqn:E; [done|].
  destruct (index_of p l); cbn; [done|]. intros _ [->|Hx]%elem_of_cons; [done|by apply IH].
Qed.

Lemma find_field_fold fs k i f :
  distinct_fields fs = true -> fs !! i = Some f ->
  find_field fs k = Some i <-> foldName k = foldName (json_name f).
Proof.
  intros Hd Hf. apply bool_decide_eq_true_1 in Hd.
  assert (Hu : forall j g, fs !! j = Some g -> foldName (json_name g) = foldName (json_name f) -> j = i).
  { intros j g Hg E. eapply (NoDup_lookup _ _ _ _ Hd); rewrite list_lookup_fmap; [by rewrite Hg; cbn; rewrite E|by rewrite Hf]. }
  unfold find_field. split.
  - destruct (index_of _ fs) as [j|] eqn:Ej.
    + intros [= ->]. apply index_of_Some in Ej as (g&Hg&E). apply bool_decide_eq_true_1 in E. simplify_eq. done.
    + intros Ei. apply index_of_Some in Ei as (g&Hg&E). apply bool_decide_eq_true_1 in E. simplify_eq. done.
  - intros E. destruct (index_of (fun f => bool_decide (json_name f = k)) fs) as [j|] eqn:Ej.
    + apply index_of_Some in Ej as (g&Hg&Eg). apply bool_decide_eq_true_1 in Eg. f_equal. eapply Hu; [done|]. by rewrite Eg.
    + eapply index_of_eq; [exact Hf|by apply bool_decide_eq_true_2|].
      intros j g Hg Eg. apply bool_decide_eq_true_1 in Eg. eapply Hu; [done|]. congruence.
Qed.

(** Two structs decoded from the same members agree on a field of the same name. *)
Lemma members_agree strict strict' dec fs fs' i i' f f' (R : goval -> goval -> Prop) m vals vals' vs vs' :
  (forall k, find_field fs k = Some i <-> find_field fs' k = Some i') -> fs !! i = Some f -> fs' !! i' = Some f' ->
  (forall v old old' x x', dec strict v (go_type f) old = stored x -> dec strict' v (go_type f') old' = stored x' ->
     R old old' -> R x x') ->
  (i < length vals)%nat -> (i' < length vals')%nat ->
  R (default GNil (vals !! i)) (default GNil (vals' !! i')) ->
  decode_members strict (dec strict) fs m vals = stored vs ->
  decode_members strict' (dec strict') fs' m vals' = stored vs' ->
  R (default GNil (vs !! i)) (default GNil (vs' !! i')).
Proof.
  intros Hk Hf Hf' HR. revert vals vals'. induction m as [|[k v] m IH]; intros vals vals' Hl Hl' Ho; cbn [decode_members].
  { by intros <-%stored_inj <-%stored_inj. }
  (* what one side's step leaves at its field *)
  assert (Hone : forall strict fs i f vals vs k v m, fs !! i = Some f -> (i < length vals)%nat ->
    decode_members strict (dec strict) fs ((k, v) :: m) vals = stored vs ->
    exists vals1, length vals1 = length vals /\ decode_members strict (dec strict) fs m vals1 = stored vs
      /\ if decide (find_field fs k = Some i)
         then exists x, dec strict v (go_type f) (default GNil (vals !! i)) = stored x /\ vals1 !! i = Some x
         else vals1 !! i = vals !! i).
  { clear. intros strict fs i f vals vs k v m Hf Hl. cbn [decode_members]. destruct (find_field fs k) as [j|] eqn:Ej.
    - pose proof (find_field_lt _ _ _ Ej) as Hj. destruct (lookup_lt_is_Some_2 _ _ Hj) as [g Hg]. rewrite Hg.
      destruct (vals !! j) as [old|] eqn:Eo.
      + intros (x&Hx&H)%dbind_stored_inv. exists (<[j:=x]> vals). split; [by rewrite length_insert|]. split; [done|].
        case_decide as E; [injection E as ->|].
        * exists x. simplify_eq. rewrite Eo. split; [done|]. by apply list_lookup_insert_eq.
        * apply list_lookup_insert_ne. congruence.
      + intros H. exists vals. split_and!; [done|done|]. case_decide as E; [|done]. injection E as ->.
        apply lookup_ge_None in Eo. lia.
    - intros (x&_&H)%dbind_stored_inv. exists vals. split_and!; [done|done|]. by case_decide. }
  intros H1 H2.
  destruct (Hone strict fs i f vals vs k v m Hf Hl H1) as (w&Hw&Hd&Hs).
  destruct (Hone strict' fs' i' f' vals' vs' k v m Hf' Hl' H2) as (w'&Hw'&Hd'&Hs').
  apply (IH w w'); [lia|lia| |done|done]. destruct (decide (find_field fs k = Some i)) as [E|E].
  - rewrite decide_True in Hs' by (by apply Hk). destruct Hs as (x&Hx&->), Hs' as (x'&Hx'&->). cbn. by eapply HR.
  - rewrite decide_False in Hs' by (by intros ?%Hk). by rewrite Hs, Hs'.
Qed.

(** ** The peeks agree with the variant *)

Lemma decode_as_Ok strict t v g : decode_as strict t v = Ok g <-> decode_into strict v t (zero t) = stored g.
Proof.
  unfold decode_as. destruct (decode_into _ _ _ _) as [[x [e|]]|e]; cbn; split; try done.
  - by intros [= ->].
  - by intros ->%stored_inj.
Qed.

Lemma decode_as_struct strict fs v g :
  decode_as strict (TStruct fs) v = Ok g <->
  (v = JNull /\ g = zero (TStruct fs))
  \/ exists m vs, v = JObj m /\ g = GStruct vs
       /\ decode_members strict (decode_into strict) fs m (map (fun f => zero f.2) fs) = stored vs.
Proof.
  rewrite decode_as_Ok. destruct v as [| | | | |m]; cbn [decode_into target zero fields_of decode_null decode_bool decode_number decode_string];
    try (split; [done|intros [[? ?]|(?&?&?&_)]; done]).
  - split; [intros <-%stored_inj; by left|by intros [[_ ->]|(?&?&?&_)]].
  - rewrite dmap_id. split.
    + intros (vs&H&<-)%dmap_stored_inv. right. by exists m, vs.
    + intros [[? _]|(m'&vs&[= <-]&->&H)]; [done|]. by rewrite H.
Qed.

Definition is_string (t : gotype) : bool := match t with TString | TEnum _ _ => true | _ => false end.

Lemma decode_into_string strict v t old x :
  is_string t = true -> decode_into strict v t old = stored x -> x = old \/ exists s, v = JStr s /\ x = GStr s.
Proof.
  intros Ht. destruct t; try done; destruct v; try done; cbn [decode_into target]; rewrite ?dmap_id;
    intros <-%stored_inj; eauto.
Qed.

(** Struct decodes of one object meet their fields in step. *)
Lemma structs_agree strict strict' fs fs' i i' f f' v (R : goval -> goval -> Prop) vs vs' :
  distinct_fields fs = true -> distinct_fields fs' = true -> fs !! i = Some f -> fs' !! i' = Some f' ->
  foldName (json_name f) = foldName (json_name f') ->
  (forall v old old' x x', decode_into strict v (go_type f) old = stored x ->
     decode_into strict' v (go_type f') old' = stored x' -> R old old' -> R x x') ->
  R (zero (go_type f)) (zero (go_type f')) ->
  decode_as strict (TStruct fs) v = Ok (GStruct vs) -> decode_as strict' (TStruct fs') v = Ok (GStruct vs') ->
  R (default GNil (vs !! i)) (default GNil (vs' !! i')).
Proof.
  intros Hd Hd' Hf Hf' E HR Hz H1%decode_as_struct H2%decode_as_struct.
  assert (Hz0 : forall fs i f, fs !! i = Some f -> map (fun f : gofield => zero f.2) fs !! i = Some (zero (go_type f))).
  { intros fs0 i0 f0 H0. change (map _ fs0) with ((fun f : gofield => zero f.2) <$> fs0). by rewrite list_lookup_fmap, H0. }
  destruct H1 as [[-> [= ->]]|(m&ws&->&[= <-]&H1)], H2 as [[? [= ->]]|(m'&ws'&[= <-]&[= <-]&H2)]; try done.
  - by rewrite (Hz0 _ _ _ Hf), (Hz0 _ _ _ Hf').
  - eapply (members_agree strict strict' decode_into fs fs' i i' f f' R); try done.
    + intros k. rewrite (find_field_fold _ _ _ _ Hd Hf), (find_field_fold _ _ _ _ Hd' Hf'). by rewrite E.
    + rewrite length_map. by eapply lookup_lt_Some.
    + rewrite length_map. by eapply lookup_lt_Some.
    + by rewrite (Hz0 _ _ _ Hf), (Hz0 _ _ _ Hf').
Qed.

(** The field a Go name selects. *)
Definition field_at (fs : list gofield) (name : String.string) : option (nat * gofield) :=
  i ← index_of (fun f => bool_decide (go_name f = str name)) fs; f ← fs !! i; Some (i, f).

Lemma field_at_lookup fs name i f :
  field_at fs name = Some (i, f) -> fs !! i = Some f /\ forall vs, get (TStruct fs) name (GStruct vs) = default GNil (vs !! i).
Proof.
  unfold field_at. intros (j&Hj&H)%bind_Some. apply bind_Some in H as (g&Hg&[= -> ->]). split; [done|].
  intros vs. cbn. by rewrite Hj.
Qed.

Lemma as_struct strict fs v g :
  forallb (fun f => ints_ok f.2) fs = true -> decode_as strict (TStruct fs) v = Ok g ->
  exists vs, g = GStruct vs /\ fields_typed fs vs.
Proof.
  intros Hi Hg. apply decode_as_typed in Hg; [|done]. destruct g; try done. eexists. split; [done|]. by apply has_type_struct.
Qed.

Lemma agree_strings strict strict' fs fs' name name' i i' f f' v g g' :
  distinct_fields fs = true -> distinct_fields fs' = true ->
  forallb (fun f => ints_ok f.2) fs = true -> forallb (fun f => ints_ok f.2) fs' = true ->
  field_at fs name = Some (i, f) -> field_at fs' name' = Some (i', f') ->
  foldName (json_name f) = foldName (json_name f') -> is_string (go_type f) = true -> is_string (go_type f') = true ->
  decode_as strict (TStruct fs) v = Ok g -> decode_as strict' (TStruct fs') v = Ok g' ->
  as_string (get (TStruct fs) name g) = as_string (get (TStruct fs') name' g').
Proof.
  intros Hd Hd' Hi Hi' [Hf Hg]%field_at_lookup [Hf' Hg']%field_at_lookup E Hs Hs' H H'.
  destruct (as_struct _ _ _ _ Hi H) as (vs&->&_), (as_struct _ _ _ _ Hi' H') as (vs'&->&_). rewrite Hg, Hg'.
  refine (structs_agree strict strict' fs fs' i i' f f' v (fun x x' => as_string x = as_string x') vs vs' Hd Hd' Hf Hf' E _ _ H H').
  - intros w old old' x x' Hx Hx' Ho. apply decode_into_string in Hx as Hy; [|done]. apply decode_into_string in Hx' as Hy'; [|done].
    destruct Hy as [->|(s&->&->)], Hy' as [->|(s'&E'&->)]; try done; [| |by injection E' as ->].
    + subst w. destruct (go_type f); try done; cbn in Hx; by apply stored_inj in Hx as <-.
    + destruct (go_type f'); try done; cbn in Hx'; by apply stored_inj in Hx' as <-.
  - by destruct (go_type f), (go_type f').
Qed.

(** A [json.Number] and an [int64] read from the same member. *)
Definition same_number (x x' : goval) : Prop :=
  exists lit z, x = GNum lit /\ x' = GInt z /\ (lit = [] /\ z = 0 \/ ParseInt lit = Some z).

Lemma agree_numbers strict strict' fs fs' name name' i i' f f' v g g' :
  distinct_fields fs = true -> distinct_fields fs' = true ->
  forallb (fun f => ints_ok f.2) fs = true -> forallb (fun f => ints_ok f.2) fs' = true ->
  field_at fs name = Some (i, f) -> field_at fs' name' = Some (i', f') ->
  foldName (json_name f) = foldName (json_name f') -> go_type f = TNumber -> go_type f' = TInt 64 ->
  decode_as strict (TStruct fs) v = Ok g -> decode_as strict' (TStruct fs') v = Ok g' ->
  same_number (get (TStruct fs) name g) (get (TStruct fs') name' g').
Proof.
  intros Hd Hd' Hi Hi' [Hf Hg]%field_at_lookup [Hf' Hg']%field_at_lookup E Ht Ht' H H'.
  destruct (as_struct _ _ _ _ Hi H) as (vs&->&_), (as_struct _ _ _ _ Hi' H') as (vs'&->&_). rewrite Hg, Hg'.
  refine (structs_agree strict strict' fs fs' i i' f f' v same_number vs vs' Hd Hd' Hf Hf' E _ _ H H').
  - rewrite Ht, Ht'. intros w old old' x x' Hx Hx' Ho. destruct w as [|b|lit|s|l|m]; cbn [decode_into target] in Hx, Hx';
      rewrite ?dmap_id in Hx, Hx'; try discriminate Hx'.
    + apply stored_inj in Hx as <-. by apply stored_inj in Hx' as <-.
    + cbn [decode_number] in Hx, Hx'. apply stored_inj in Hx as <-. destruct (ParseInt lit) as [n|] eqn:Ep; [|done].
      destruct (fits 64 n); [|done]. apply stored_inj in Hx' as <-. exists lit, n. auto.
  - rewrite Ht, Ht'. exists [], 0. auto.
Qed.

(** ** The envelope every variant shares *)

(** What the dispatch relies on: distinct names, and the envelope fields of a variant. *)
Definition variant_ok (t : gotype) : bool :=
  match t with
  | TStruct fs =>
      wire_type t && distinct_fields fs
      && match field_at fs "Kind" with Some (_, f) => bool_decide (json_name f = str "kind") && is_string (go_type f) | None => false end
      && match field_at fs "Sequence" with
         | Some (_, f) => bool_decide (json_name f = str "sequence") && match go_type f with TInt bits => bits =? 64 | _ => false end
         | None => false
         end
  | _ => false
  end.

Lemma variant_wire fs : variant_ok (TStruct fs) = true -> wire_type (TStruct fs) = true.
Proof. unfold variant_ok. intros H. do 3 (apply andb_prop in H as [H _]). exact H. Qed.

Lemma variants_ok : forallb (fun kv => variant_ok kv.2) variant_types = true.
Proof. by vm_compute. Qed.

(** A peek decodes whatever its wider struct does. *)
Lemma conforms_narrow fs pfs v :
  distinct_fields fs = true -> distinct_fields pfs = true ->
  (forall j p, pfs !! j = Some p -> exists i f, fs !! i = Some f /\ foldName (json_name f) = foldName (json_name p)
     /\ forall w, conforms true w (go_type f) = true -> conforms false w (go_type p) = true) ->
  conforms true v (TStruct fs) = true -> conforms false v (TStruct pfs) = true.
Proof.
  intros Hd Hd' Hp. destruct v as [| | | | |m]; cbn [conforms]; try done. rewrite !forallb_forall. intros H [k w] Hin.
  specialize (H _ Hin). cbn [fst snd] in *. destruct (find_field pfs k) as [j|] eqn:Ej; [|done].
  destruct (lookup_lt_is_Some_2 _ _ (find_field_lt _ _ _ Ej)) as [p Hpj]. rewrite Hpj.
  destruct (Hp j p Hpj) as (i&f&Hf&E&Hc). apply (find_field_fold _ _ _ _ Hd' Hpj) in Ej.
  rewrite (proj2 (find_field_fold fs k i f Hd Hf)) in H by congruence. rewrite Hf in H. by apply Hc.
Qed.

Lemma conforms_string strict strict' w t t' :
  is_string t = true -> is_string t' = true -> conforms strict w t = true -> conforms strict' w t' = true.
Proof. by destruct t, t', w. Qed.

(** Reading a discriminator ahead of a struct that has it as a string field. *)
Definition discriminator (fs : list gofield) (name key : String.string) : bool :=
  wire_type (TStruct fs) && distinct_fields fs
  && match field_at fs name with Some (_, f) => bool_decide (json_name f = str key) && is_string (go_type f) | None => false end.

Lemma discriminator_peek fs name pname key v g :
  discriminator fs name key = true -> decode_as true (TStruct fs) v = Ok g ->
  exists p, decode_as false (TStruct [(str pname, str key, TString)]) v = Ok p
    /\ as_string (get (TStruct [(str pname, str key, TString)]) pname p) = as_string (get (TStruct fs) name g).
Proof.
  unfold discriminator. intros H Hg. apply andb_prop in H as [H Hk]. apply andb_prop in H as [Hw Hd].
  destruct (field_at fs name) as [[i f]|] eqn:Ef; [|done]. apply andb_prop in Hk as [Hk Hs]. apply bool_decide_eq_true_1 in Hk.
  assert (Hi : ints_ok (TStruct fs) = true) by by apply wire_ints.
  assert (Hfp : field_at [(str pname, str key, TString)] pname = Some (O, (str pname, str key, TString)))
    by (unfold field_at; cbn; by rewrite bool_decide_eq_true_2).
  assert (Hp : conforms false v (TStruct [(str pname, str key, TString)]) = true).
  { eapply conforms_narrow; [exact Hd|apply bool_decide_eq_true_2, NoDup_singleton| |].
    - intros [|j] p; cbn; [|done]. intros [= <-]. apply field_at_lookup in Ef as [Hf _].
      exists i, f. split; [done|]. split; [by rewrite Hk|]. intros w. by apply conforms_string.
    - apply (decode_as_conforms true _ v Hi). by exists g. }
  apply (decode_as_conforms false) in Hp as [p Hp]; [|done]. exists p. split; [done|].
  refine (agree_strings false true _ fs pname name O i _ f v p g _ Hd _ Hi Hfp Ef _ _ Hs Hp Hg); try done.
  by rewrite Hk.
Qed.

Lemma peek_distinct : distinct_fields peek_fields = true.
Proof. vm_compute. reflexivity. Qed.

Lemma peek_kind : field_at peek_fields "Kind" = Some (O, (str "Kind", str "kind", TString)).
Proof. reflexivity. Qed.

Lemma peek_sequence : field_at peek_fields "Sequence" = Some (1%nat, (str "Sequence", str "sequence", TNumber)).
Proof. reflexivity. Qed.

Lemma variant_peek fs v g :
  variant_ok (TStruct fs) = true -> decode_as true (TStruct fs) v = Ok g ->
  exists p, decode_as false peek_type v = Ok p
    /\ as_string (get peek_type "Kind" p) = as_string (get (TStruct fs) "Kind" g)
    /\ same_number (get peek_type "Sequence" p) (get (TStruct fs) "Sequence" g).
Proof.
  unfold variant_ok. intros H Hg. apply andb_prop in H as [H Hq]. apply andb_prop in H as [H Hk]. apply andb_prop in H as [Hw Hd].
  destruct (field_at fs "Kind") as [[i f]|] eqn:Ef; [|done]. apply andb_prop in Hk as [Hk Hs]. apply bool_decide_eq_true_1 in Hk.
  destruct (field_at fs "Sequence") as [[j h]|] eqn:Eh; [|done]. apply andb_prop in Hq as [Hq Ht]. apply bool_decide_eq_true_1 in Hq.
  assert (Hth : go_type h = TInt 64) by (destruct (go_type h); try done; apply Z.eqb_eq in Ht; by subst).
  assert (Hi : ints_ok (TStruct fs) = true) by by apply wire_ints.
  assert (Hp : conforms false v peek_type = true).
  { eapply conforms_narrow; [exact Hd|exact peek_distinct| |].
    - apply field_at_lookup in Ef as [Hf _], Eh as [Hh _]. intros [|[|n]] p; cbn; [| |done]; intros [= <-].
      + exists i, f. split; [done|]. split; [by rewrite Hk|]. intros w. by apply conforms_string.
      + exists j, h. split; [done|]. split; [by rewrite Hq|]. intros w. rewrite Hth. by destruct w.
    - apply (decode_as_conforms true _ v Hi). by exists g. }
  apply (decode_as_conforms false) in Hp as [p Hp]; [|done]. exists p. split; [done|]. split.
  - exact (agree_strings false true peek_fields fs "Kind" "Kind" _ i _ f v p g peek_distinct Hd eq_refl Hi peek_kind Ef
             (f_equal foldName (eq_sym Hk)) eq_refl Hs Hp Hg).
  - exact (agree_numbers false true peek_fields fs "Sequence" "Sequence" _ j _ h v p g peek_distinct Hd eq_refl Hi peek_sequence Eh
             (f_equal foldName (eq_sym Hq)) eq_refl Hth Hp Hg).
Qed.

(** ** Enum fields with one member *)

Lemma enums_valid_field fs vs i f v :
  enums_valid (TStruct fs) (GStruct vs) = true -> fs !! i = Some f -> vs !! i = Some v -> enums_valid (go_type f) v = true.
Proof.
  cbn [enums_valid]. revert vs i. induction fs as [|g fs IH]; intros [|w vs] i; try done.
  intros [H1 H2]%andb_prop. destruct i as [|i]; cbn; [by intros [= ->] [= ->]|]. by apply IH.
Qed.

Definition sole_member (t : gotype) (name : String.string) : option bytes :=
  match t with
  | TStruct fs => '(_, f) ← field_at fs name; match go_type f with TEnum _ [k] => Some k | _ => None end
  | _ => None
  end.

Lemma sole_member_get t name k strict v g :
  sole_member t name = Some k -> ints_ok t = true -> decode_as strict t v = Ok g -> enums_valid t g = true ->
  get t name g = GStr k.
Proof.
  destruct t as [| | | | | | | | | | | |fs]; try done. intros ([i f]&Hf&Hk)%bind_Some Hi Hg Hv.
  destruct (as_struct _ _ _ _ Hi Hg) as (vs&->&Ht). apply field_at_lookup in Hf as [Hf Hget]. rewrite Hget.
  destruct (Forall2_lookup_l _ _ _ _ _ Ht Hf) as (x&Hx&Htx). rewrite Hx. cbn.
  pose proof (enums_valid_field _ _ _ _ _ Hv Hf Hx) as He.
  destruct (go_type f) as [| | | | | | | |n [|k' [|? ?]]| | | |]; try done. injection Hk as ->.
  destruct x; try done. cbn in He. apply bool_decide_eq_true_1 in He. apply list_elem_of_singleton in He. by subst.
Qed.

Lemma variants_kind : forallb (fun kv => bool_decide (sole_member kv.2 "Kind" = Some kv.1)) variant_types = true.
Proof. by vm_compute. Qed.

Lemma by_kind_elem {A} kind (table : list (bytes * A)) x : by_kind kind table = Some x -> (kind, x) ∈ table.
Proof.
  unfold by_kind. destruct (list_find _ _) as [[i [k y]]|] eqn:E; [|done]. intros [= <-].
  apply list_find_Some in E as (H&Hk&_). cbn in Hk. subst. by eapply list_elem_of_lookup_2.
Qed.

Lemma variant_facts kind t :
  by_kind kind variant_types = Some t ->
  variant_ok t = true /\ sole_member t "Kind" = Some kind /\ exists fs, t = TStruct fs.
Proof.
  intros H%by_kind_elem%list_elem_of_In.
  pose proof (proj1 (forallb_forall _ _) variants_ok _ H) as Hv.
  pose proof (proj1 (forallb_forall _ _) variants_kind _ H) as Hk. apply bool_decide_eq_true_1 in Hk.
  cbn [fst snd] in *. split_and!; [done|done|]. destruct t; try done. eauto.
Qed.

Lemma variant_member kind t : by_kind kind variant_types = Some t -> exists member, by_kind kind payloadMemberByKind = Some member.
Proof.
  intros H%by_kind_elem. assert (Hm : forallb (fun kv => bool_decide (is_Some (by_kind kv.1 payloadMemberByKind))) variant_types = true)
    by (by vm_compute). apply list_elem_of_In in H. pose proof (proj1 (forallb_forall _ _) Hm _ H) as Hs.
  apply bool_decide_eq_true_1 in Hs as [member Hs]. by exists member.
Qed.

(** ** What an accepted observation is *)

(** A strict value of the type with every enum in its set. *)
Definition strict_value (t : gotype) (raw : json) (v : goval) : Prop :=
  decode_as true t raw = Ok v /\ enums_valid t v = true.

(** The started or the ended boundary, one of them. *)
Definition boundary_valid (raw : json) (started ended : option goval) : Prop :=
  (exists b, started = Some b /\ ended = None /\ strict_value wire.RunStartedBoundary raw b)
  \/ (exists b, started = None /\ ended = Some b /\ strict_value wire.RunEndedBoundary raw b).

Definition vcs_valid (raw : json) : Prop :=
  exists r, strict_value wire.CommitVcsReference raw r \/ strict_value wire.PullRequestVcsReference raw r.

(** The member that carries the kind's payload is there and not [null]. *)
Definition payload_present (raw : json) (member : bytes) : Prop :=
  exists m j, raw = JObj m /\ last_member member m = Some j /\ j <> JNull.

(** [o] is the observation [raw] holds: a strict value of its kind's variant, and nothing the peeks add. *)
Definition accepted (raw : json) (o : DecodedObservation) : Prop :=
  exists t member, by_kind (do_Kind o) variant_types = Some t
    /\ by_kind (do_Kind o) payloadMemberByKind = Some member
    /\ strict_value t raw (do_Variant o)
    /\ get t "Sequence" (do_Variant o) = GInt (do_Sequence o) /\ 1 <= do_Sequence o <= MaxInt64
    /\ payload_present raw member
    /\ (if bool_decide (do_Kind o = str "RUN_BOUNDARY")
        then boundary_valid (as_raw (get t "RunBoundary" (do_Variant o))) (do_RunStarted o) (do_RunEnded o)
        else do_RunStarted o = None /\ do_RunEnded o = None)
    /\ (if bool_decide (do_Kind o = str "VCS_REFERENCE") then vcs_valid (as_raw (get t "VcsReference" (do_Variant o))) else True)
    /\ do_ObservationID o = as_string (get t "ObservationId" (do_Variant o))
    /\ do_RunContext o = get t "RunContext" (do_Variant o)
    /\ do_Usage o = (if bool_decide (do_Kind o = str "USAGE") then Some (get t "Usage" (do_Variant o)) else None).

Lemma strictDecodeVariant_Ok raw t field v : strictDecodeVariant raw t field = Ok v <-> decode_as true t raw = Ok v.
Proof. unfold strictDecodeVariant. destruct (decode_as true t raw); split; by intros [= ->]. Qed.

Lemma unmarshal_Ok raw t field v : unmarshal raw t field = Ok v <-> decode_as false t raw = Ok v.
Proof. unfold unmarshal. destruct (decode_as false t raw); split; by intros [= ->]. Qed.

Lemma strict_valid_Ok raw t field v : strict_valid raw t field = Ok v <-> strict_value t raw v.
Proof.
  unfold strict_valid, strict_value. rewrite bind_Ok. split.
  - intros (b&Hb%strictDecodeVariant_Ok&H). apply bind_Ok in H as ([]&He%validateEnumMembership_ok&[= <-]). done.
  - intros [Hd He]. exists v. rewrite strictDecodeVariant_Ok. split; [done|].
    by rewrite (proj2 (validateEnumMembership_ok t v field) He).
Qed.

Lemma parseSequence_Ok n field v : parseSequence n field = Ok v <-> ParseInt n = Some v /\ 1 <= v <= MaxInt64.
Proof.
  unfold parseSequence, SequenceMin, SequenceMax. destruct (ParseInt n) as [z|]; [|split; [done|by intros [? _]]].
  destruct (Z.ltb_spec z 1), (Z.ltb_spec MaxInt64 z); cbn; split; try done; try (intros [[= ->] ?]; lia).
  - intros [= <-]. split; [done|lia].
  - by intros [[= ->] _].
Qed.

Lemma requirePayloadMember_Ok raw member field : requirePayloadMember raw member field = Ok tt <-> payload_present raw member.
Proof.
  unfold payload_present. destruct raw as [| | | | |m]; cbn [requirePayloadMember]; try (split; [done|by intros (?&?&?&_)]).
  destruct (last_member member m) as [j|] eqn:E.
  - split.
    + intros H. exists m, j. split_and!; [done|done|]. by intros ->.
    + intros (m'&j'&[= <-]&E'&Hj). rewrite E in E'. injection E' as <-. by destruct j.
  - split; [done|]. intros (m'&j'&[= <-]&E'&_). by rewrite E in E'.
Qed.

Lemma boundary_peek raw b t :
  (t = wire.RunStartedBoundary \/ t = wire.RunEndedBoundary) -> strict_value t raw b ->
  exists p, decode_as false transition_type raw = Ok p
    /\ as_string (get transition_type "Transition" p) = default [] (sole_member t "Transition").
Proof.
  intros Ht [Hd He].
  assert (Hs : exists fs k, t = TStruct fs /\ discriminator fs "Transition" "transition" = true
             /\ sole_member t "Transition" = Some k).
  { destruct Ht as [-> | ->]; unfold wire.RunStartedBoundary, wire.RunEndedBoundary; eexists _, _; (split; [done|]); by vm_compute. }
  destruct Hs as (fs&k&->&Hf&Hk). destruct (discriminator_peek fs _ "Transition" _ raw b Hf Hd) as (p&Hp&Es).
  exists p. split; [exact Hp|]. fold transition_type in Es. rewrite Hk, Es.
  unfold discriminator in Hf. apply andb_prop in Hf as [Hf _]. apply andb_prop in Hf as [Hf _].
  by rewrite (sole_member_get _ _ _ true raw b Hk (wire_ints _ Hf) Hd He).
Qed.

Lemma decodeRunBoundary_Ok raw field s e : decodeRunBoundary raw field = Ok (s, e) <-> boundary_valid raw s e.
Proof.
  unfold decodeRunBoundary, boundary_valid. rewrite bind_Ok. split.
  - intros (p&_&H). cbv zeta in H. repeat case_bool_decide; [..|done]; apply bind_Ok in H as (b&Hb%strict_valid_Ok&[= <- <-]); eauto 10.
  - intros [(b&->&->&Hb)|(b&->&->&Hb)].
    + destruct (boundary_peek raw b _ (or_introl eq_refl) Hb) as (p&Hp&Hk). exists p. rewrite unmarshal_Ok. split; [exact Hp|].
      cbv zeta. rewrite Hk. change (default [] (sole_member wire.RunStartedBoundary "Transition")) with (str "RUN_STARTED").
      rewrite bool_decide_eq_true_2 by reflexivity. by rewrite (proj2 (strict_valid_Ok _ _ field _) Hb).
    + destruct (boundary_peek raw b _ (or_intror eq_refl) Hb) as (p&Hp&Hk). exists p. rewrite unmarshal_Ok. split; [exact Hp|].
      cbv zeta. rewrite Hk. change (default [] (sole_member wire.RunEndedBoundary "Transition")) with (str "RUN_ENDED").
      change (bool_decide (str "RUN_ENDED" = str "RUN_STARTED")) with false. cbv iota.
      rewrite bool_decide_eq_true_2 by reflexivity. by rewrite (proj2 (strict_valid_Ok _ _ field _) Hb).
Qed.

Lemma vcs_peek raw b t :
  (t = wire.CommitVcsReference \/ t = wire.PullRequestVcsReference) -> strict_value t raw b ->
  exists p, decode_as false ref_kind_type raw = Ok p
    /\ as_string (get ref_kind_type "RefKind" p) = default [] (sole_member t "RefKind").
Proof.
  intros Ht [Hd He].
  assert (Hs : exists fs k, t = TStruct fs /\ discriminator fs "RefKind" "ref_kind" = true /\ sole_member t "RefKind" = Some k).
  { destruct Ht as [-> | ->]; unfold wire.CommitVcsReference, wire.PullRequestVcsReference; eexists _, _; (split; [done|]); by vm_compute. }
  destruct Hs as (fs&k&->&Hf&Hk). destruct (discriminator_peek fs _ "RefKind" _ raw b Hf Hd) as (p&Hp&Es).
  exists p. split; [exact Hp|]. fold ref_kind_type in Es. rewrite Hk, Es.
  unfold discriminator in Hf. apply andb_prop in Hf as [Hf _]. apply andb_prop in Hf as [Hf _].
  by rewrite (sole_member_get _ _ _ true raw b Hk (wire_ints _ Hf) Hd He).
Qed.

Lemma decodeVcsReference_Ok raw field : decodeVcsReference raw field = Ok tt <-> vcs_valid raw.
Proof.
  unfold decodeVcsReference, vcs_valid. rewrite bind_Ok. split.
  - intros (p&_&H). cbv zeta in H. repeat case_bool_decide; [..|done]; apply bind_Ok in H as (b&Hb%strict_valid_Ok&_); eauto.
  - intros (b&[Hb|Hb]).
    + destruct (vcs_peek raw b _ (or_introl eq_refl) Hb) as (p&Hp&Hk). exists p. rewrite unmarshal_Ok. split; [exact Hp|].
      cbv zeta. rewrite Hk. change (default [] (sole_member wire.CommitVcsReference "RefKind")) with (str "COMMIT").
      rewrite bool_decide_eq_true_2 by reflexivity. by rewrite (proj2 (strict_valid_Ok _ _ field _) Hb).
    + destruct (vcs_peek raw b _ (or_intror eq_refl) Hb) as (p&Hp&Hk). exists p. rewrite unmarshal_Ok. split; [exact Hp|].
      cbv zeta. rewrite Hk. change (default [] (sole_member wire.PullRequestVcsReference "RefKind")) with (str "PULL_REQUEST").
      change (bool_decide (str "PULL_REQUEST" = str "COMMIT")) with false. cbv iota.
      rewrite bool_decide_eq_true_2 by reflexivity. by rewrite (proj2 (strict_valid_Ok _ _ field _) Hb).
Qed.

Lemma observation_accepted raw idx o : decodeObservation raw idx = Ok o -> accepted raw o.
Proof.
  unfold decodeObservation. cbv zeta. intros (p&Hp%unmarshal_Ok&H)%bind_Ok.
  apply bind_Ok in H as (seq&[Hseq Hr]%parseSequence_Ok&H). apply bind_Ok in H as ([]&Hpay&H).
  set (kind := as_string (get peek_type "Kind" p)) in *.
  destruct (by_kind kind variant_types) as [t|] eqn:Et; [|done].
  destruct (variant_facts _ _ Et) as (Hok&Hsole&fs&->). destruct (variant_member _ _ Et) as [member Hm]. rewrite Hm in Hpay.
  apply bind_Ok in H as (v&Hv%strictDecodeVariant_Ok&H). apply bind_Ok in H as ([s e]&Hb&H).
  apply bind_Ok in H as ([]&Hvcs&H). apply bind_Ok in H as ([]&He%validateEnumMembership_ok&[= <-]).
  destruct (variant_peek fs raw v Hok Hv) as (p'&Hp'&_&Hnum). rewrite Hp in Hp'. injection Hp' as <-.
  exists (TStruct fs), member. cbn [do_Kind do_Sequence do_ObservationID do_RunContext do_Variant do_RunStarted do_RunEnded do_Usage].
  refine (conj Et (conj Hm (conj (conj Hv He) (conj _ (conj Hr (conj _ (conj _ (conj _ (conj eq_refl (conj eq_refl eq_refl)))))))))).
  - destruct Hnum as (lit&z&E1&->&Hl). rewrite E1 in Hseq. cbn in Hseq. destruct Hl as [[-> _]|Hl]; [done|]. congruence.
  - by eapply requirePayloadMember_Ok.
  - destruct (bool_decide (kind = str "RUN_BOUNDARY")); [by eapply decodeRunBoundary_Ok|]. by injection Hb as <- <-.
  - destruct (bool_decide (kind = str "VCS_REFERENCE")); [by eapply decodeVcsReference_Ok|exact I].
Qed.

Lemma accepted_observation raw idx o : accepted raw o -> decodeObservation raw idx = Ok o.
Proof.
  intros (t&member&Et&Hm&[Hv He]&Hq&Hr&Hpay&Hb&Hvcs&Hid&Hctx&Hu).
  destruct (variant_facts _ _ Et) as (Hok&Hsole&fs&->).
  destruct (variant_peek fs raw _ Hok Hv) as (p&Hp&Hkind&lit&z&Hlit&Hz&Hl).
  assert (Hi : ints_ok (TStruct fs) = true) by (by apply wire_ints, variant_wire).
  rewrite (sole_member_get _ _ _ true raw _ Hsole Hi Hv He) in Hkind. cbn [as_string] in Hkind.
  rewrite Hq in Hz. injection Hz as Hz. destruct Hl as [[_ H0]|Hl]; [lia|].
  unfold decodeObservation. cbv zeta. rewrite (proj2 (unmarshal_Ok _ _ _ _) Hp). cbn [mbind result_bind].
  rewrite Hkind, Hlit. cbn [as_string].
  rewrite (proj2 (parseSequence_Ok lit _ (do_Sequence o))) by (split; [by subst z|lia]). cbn [mbind result_bind].
  rewrite Hm, (proj2 (requirePayloadMember_Ok _ _ _) Hpay). cbn [mbind result_bind].
  rewrite Et, (proj2 (strictDecodeVariant_Ok _ _ _ _) Hv). cbn [mbind result_bind].
  assert (Hb' : (if bool_decide (do_Kind o = str "RUN_BOUNDARY")
    then decodeRunBoundary (as_raw (get (TStruct fs) "RunBoundary" (do_Variant o))) (indexPath (str "observations") idx ++ str ".run_boundary")
    else Ok (None, None)) = Ok (do_RunStarted o, do_RunEnded o)).
  { destruct (bool_decide (do_Kind o = str "RUN_BOUNDARY")); [by apply decodeRunBoundary_Ok|]. by destruct Hb as [-> ->]. }
  rewrite Hb'. cbn [mbind result_bind].
  assert (Hvcs' : (if bool_decide (do_Kind o = str "VCS_REFERENCE")
    then decodeVcsReference (as_raw (get (TStruct fs) "VcsReference" (do_Variant o))) (indexPath (str "observations") idx ++ str ".vcs_reference")
    else Ok tt) = Ok tt).
  { destruct (bool_decide (do_Kind o = str "VCS_REFERENCE")); [by apply decodeVcsReference_Ok|reflexivity]. }
  rewrite Hvcs'. cbn [mbind result_bind].
  rewrite (proj2 (validateEnumMembership_ok _ _ _) He). cbn [mbind result_bind].
  rewrite <-Hid, <-Hctx, <-Hu. by destruct o.
Qed.

(** C12: an observation is accepted exactly when it is a strict value of its kind's variant with every
    enum in range, its sequence in [1, MaxInt64], its payload member present and, for a boundary or a
    VCS reference, its nested union a strict value of one of its shapes; what the decoder reports is
    that value. *)
Theorem decodeObservation_accepts raw idx o : decodeObservation raw idx = Ok o <-> accepted raw o.
Proof. split; [apply observation_accepted|apply accepted_observation]. Qed.
