(* ===== verification/Batch.v ===== *)
(** * Batch formation ([internal/observer/upload/batch.go])

    The effective caps, the planner that forms the next contiguous batch over an [AckState] and
    replays the one in flight, the canonical batch body and its length, and the spool-backed frame
    store. The planner is written against the [FrameStore] interface; the class [FrameStoreLaws] is
    what a store promises (it returns exactly the durable records of the range, or an error); SpoolStore.v shows that the spool's store keeps it. *)

From S2P Require Import Prelude Hash SpoolTypes Frame Fs GoStrings Segment Sidecar Recover Compact Ack Json JsonText.

(** ** Caps *)

Definition DefaultMaxObservations : Z := 1000.
Definition DefaultMaxBatchBytes : Z := 4194304.

Record Caps : Type := mkCaps { MaxObservations : Z; MaxBatchBytes : Z }.

(** The two fields of [wire.CapabilitiesResponse] the clamp reads. *)
Record CapabilitiesResponse : Type := mkCapabilities { MaxObservationsPerBatch : Z; CapMaxBatchBytes : Z }.

Definition CapsFromCapabilities (c : CapabilitiesResponse) : Caps :=
  mkCaps
    (if (0 <? MaxObservationsPerBatch c) && (MaxObservationsPerBatch c <? DefaultMaxObservations)
     then MaxObservationsPerBatch c else DefaultMaxObservations)
    (if (0 <? CapMaxBatchBytes c) && (CapMaxBatchBytes c <? DefaultMaxBatchBytes)
     then CapMaxBatchBytes c else DefaultMaxBatchBytes).

Definition resolve (c : Caps) : Caps :=
  mkCaps (if MaxObservations c <=? 0 then DefaultMaxObservations else MaxObservations c)
         (if MaxBatchBytes c <=? 0 then DefaultMaxBatchBytes else MaxBatchBytes c).

(** ** Records and stores *)

Record record : Type := mkRecord { rec_Sequence : Z; rec_Payload : bytes }.

#[export] Instance record_eq_dec : EqDecision record.
Proof. solve_decision. Defined.

Class FrameStore : Type := ReadRange : env -> Z -> Z -> IO (list record).

Record Plan : Type := mkPlan { pl_Range : SequenceRange; pl_Body : bytes }.

#[export] Instance Plan_eq_dec : EqDecision Plan.
Proof. solve_decision. Defined.

(** The planner's fields other than its store and its ack state. *)
Record Planner : Type := mkPlanner { p_Caps : Caps; p_SourceID : bytes }.

Inductive batch_error : Type :=
| BeReadRange (first last : Z) (e : spool_error)
| BeNoFrame (highest first : Z)
| BeNonContiguous (i got want : Z)
| BeInFlight (first last : Z) (e : spool_error)
| BeReplayRead (first last : Z) (e : spool_error)
| BeReplayCount (first last want got : Z)
| BePayload.

#[export] Instance batch_error_eq_dec : EqDecision batch_error.
Proof. solve_decision. Defined.

Abbreviation bres := (result batch_error).

(** ** The batch body *)

Definition jsonRuneLen (r : bytes) : Z :=
  match r with
  | [b] => if bool_decide (b ∈ [x22; x5c; x0a; x0d; x09; x08; x0c]) then 2
           else if bZ b <? 0x20 then 6 else 1
  | _ => zlen r
  end.

Definition jsonStringLen (s : bytes) : Z := foldr Z.add 2 (jsonRuneLen <$> range_runes s).

Definition bodyByteLen (sourceID : bytes) (first last : Z) (records : list record) : Z :=
  88 + zlen (FormatInt first) + zlen (FormatInt last) + (jsonStringLen sourceID - 2)
  + foldr Z.add 0 ((fun rec => zlen (rec_Payload rec)) <$> records)
  + (zlen records - if bool_decide (records = []) then 0 else 1).

(** The value a durable payload contributes: [Observation] keeps the raw bytes; marshalling them
    demands one complete JSON value ([null] for no bytes). *)
Definition payload_value (p : bytes) : option json :=
  match p with
  | [] => Some JNull
  | _ => match parse_value assoc_set (S (2 * length p)) p with
         | Some (v, r) => if bool_decide (skip_ws r = []) then Some v else None
         | None => None
         end
  end.

Definition batch_value (sourceID : bytes) (r : SequenceRange) (obs : list json) : json :=
  JObj [(str "first_sequence", JNum (FormatInt (FirstSequence r)));
        (str "last_sequence", JNum (FormatInt (LastSequence r)));
        (str "observations", JArr obs);
        (str "schema_version", JNum (str "1"));
        (str "source_id", JStr (to_valid sourceID))].

Definition EncodeBatchBody (sourceID : bytes) (r : SequenceRange) (records : list record) : bres bytes :=
  match mapM (fun rec => payload_value (rec_Payload rec)) records with
  | None => Err BePayload
  | Some obs => Ok (writeCanonical (batch_value sourceID r obs))
  end.

(** ** Forming a batch *)

Fixpoint verifyContiguous_from (i : Z) (records : list record) (want : Z) : bres unit :=
  match records with
  | [] => Ok tt
  | rec :: rest =>
      if negb (rec_Sequence rec =? want) then Err (BeNonContiguous i (rec_Sequence rec) want)
      else verifyContiguous_from (i + 1) rest (i64 (want + 1))
  end.

Definition verifyContiguous (records : list record) (first : Z) : bres unit :=
  verifyContiguous_from 0 records first.

(** [n] leading records fit; [fuel] bounds the records after them. *)
Fixpoint byteBudgetCut_from (fuel n : nat) (sourceID : bytes) (records : list record) (maxBatchBytes : Z) : nat :=
  match fuel with
  | O => n
  | S fuel' =>
      match records !! 0%nat, records !! n with
      | Some r0, Some rn =>
          if maxBatchBytes <? bodyByteLen sourceID (rec_Sequence r0) (rec_Sequence rn) (take (S n) records) then n
          else byteBudgetCut_from fuel' (S n) sourceID records maxBatchBytes
      | _, _ => n
      end
  end.

Definition byteBudgetCut (sourceID : bytes) (records : list record) (maxBatchBytes : Z) : nat :=
  byteBudgetCut_from (length records) 1 sourceID records maxBatchBytes.

Section planner.
Context `{FrameStore}.

Definition encodeRange (ev : env) (p : Planner) (r : SequenceRange) (d : disk) : bres bytes * disk :=
  let '(_, res, d') := ReadRange ev (FirstSequence r) (LastSequence r) d in
  (match res with
   | Err e => Err (BeReplayRead (FirstSequence r) (LastSequence r) e)
   | Ok records =>
       verifyContiguous records (FirstSequence r) ≫= fun _ =>
       let want := i64 (i64 (LastSequence r - FirstSequence r) + 1) in
       if negb (zlen records =? want)
       then Err (BeReplayCount (FirstSequence r) (LastSequence r) want (zlen records))
       else EncodeBatchBody (p_SourceID p) r records
   end, d').

(** The plan ([None] when nothing is owed) or the error, and the ack state the call leaves. *)
Definition Next (ev : env) (p : Planner) (a : AckState) (d : disk) : bres (option Plan) * AckState * disk :=
  match InFlight a with
  | Some r =>
      let '(res, d') := encodeRange ev p r d in
      (body ← res; Ok (Some (mkPlan r body)), a, d')
  | None =>
      let caps := resolve (p_Caps p) in
      let first := i64 (ak_acknowledgedThrough a + 1) in
      let highest := ak_highestDurable a in
      if highest <? first then (Ok None, a, d)
      else
        let t := i64 (i64 (first + MaxObservations caps) - 1) in
        let tentativeLast := if highest <? t then highest else t in
        let '(_, res, d') := ReadRange ev first tentativeLast d in
        match res with
        | Err e => (Err (BeReadRange first tentativeLast e), a, d')
        | Ok [] => (Err (BeNoFrame highest first), a, d')
        | Ok ((rec0 :: _) as records) =>
            match verifyContiguous records first with
            | Err e => (Err e, a, d')
            | Ok _ =>
                let records := take (byteBudgetCut (p_SourceID p) records (MaxBatchBytes caps)) records in
                let last := rec_Sequence (List.last records rec0) in
                let r := mkRange first last in
                match SetInFlight r a with
                | Err e => (Err (BeInFlight first last e), a, d')
                | Ok a' => (body ← EncodeBatchBody (p_SourceID p) r records; Ok (Some (mkPlan r body)), a', d')
                end
            end
        end
  end.
End planner.

(** ** Rune-wise strings *)

(** No rune of the string is U+2028 or U+2029, the two [encoding/json] escapes beyond ASCII. *)
Definition no_line_sep (s : bytes) : Prop := Forall (fun r => is_line_sep r = false) (range_runes s).

Lemma length_escape_ascii b : is_ascii b = true -> zlen (escape_ascii b) = jsonRuneLen [b].
Proof. destruct b; intros H; try discriminate H; vm_compute; reflexivity. Qed.

Lemma jsonStringLen_exact s : no_line_sep s -> zlen (writeCanonicalString (to_valid s)) = jsonStringLen s.
Proof.
  unfold no_line_sep, jsonStringLen, writeCanonicalString, to_valid. generalize (runes_ok (length s) s).
  unfold range_runes. generalize (runes (length s) s) as rs. intros rs Hok Hn.
  rewrite escape_body_runes by done. unfold zlen. autorewrite with len. cbn [length].
  enough (Z.of_nat (length (concat (escape_rune <$> rs))) + 2 = foldr Z.add 2 (jsonRuneLen <$> rs)) by lia.
  induction Hok as [|r rs Hr Hok IH]; [done|]. apply Forall_cons in Hn as [Hn Hn'].
  cbn [fmap list_fmap concat foldr]. autorewrite with len. specialize (IH Hn').
  enough (zlen (escape_rune r) = jsonRuneLen r) by (unfold zlen in *; lia).
  destruct Hr as [(b&->&Hb)|(b&t&->&Hb&Hl&_)]; [by apply length_escape_ascii|].
  destruct t; [cbn in Hl; lia|]. unfold escape_rune, jsonRuneLen. by rewrite Hn.
Qed.

(** ** The body *)

(** What the WAL makes durable: the canonical form of some value. *)
Definition canonical_payload (p : bytes) : Prop := exists v, wf_json v /\ p = writeCanonical v.

Definition canonical_records (recs : list record) : Prop := Forall (fun rec => canonical_payload (rec_Payload rec)) recs.

(** The body as text: the payloads verbatim between the fixed keys. *)
Definition batch_text (sourceID : bytes) (r : SequenceRange) (records : list record) : bytes :=
  js "{'first_sequence':" ++ FormatInt (FirstSequence r)
  ++ js ",'last_sequence':" ++ FormatInt (LastSequence r)
  ++ js ",'observations':[" ++ commas (rec_Payload <$> records)
  ++ js "],'schema_version':1,'source_id':" ++ writeCanonicalString (to_valid sourceID) ++ js "}".

Lemma payload_value_canonical v : wf_json v -> payload_value (writeCanonical v) = Some (sorted_json v).
Proof.
  intros Hw. unfold payload_value. destruct (value_head canonical_writer v Hw) as (b&t&E&_). rewrite E, <-E.
  pose proof (parse_written _ assoc_set_new canonical_writer v Hw (S (2 * length (writeCanonical v))) [] I ltac:(lia)) as Hp.
  rewrite app_nil_r in Hp. by rewrite Hp.
Qed.

Lemma payload_values recs :
  canonical_records recs ->
  exists obs, mapM (fun rec => payload_value (rec_Payload rec)) recs = Some obs
    /\ map writeCanonical obs = rec_Payload <$> recs /\ Forall wf_json obs.
Proof.
  induction 1 as [|rec recs (v&Hw&E) _ (obs&Hm&Ho&Hall)]; [by exists []|].
  exists (sorted_json v :: obs). split_and!.
  - cbn. rewrite E, payload_value_canonical by done. cbn. by rewrite Hm.
  - cbn. rewrite written_sorted by done. by rewrite Ho, E.
  - constructor; [|done]. by rewrite <-(same_sorted v).
Qed.

Lemma write_batch_value src r obs recs :
  map writeCanonical obs = rec_Payload <$> recs ->
  writeCanonical (batch_value src r obs) = batch_text src r recs.
Proof.
  intros H. unfold batch_text. rewrite <-H. unfold batch_value. rewrite writeCanonical_obj.
  cbn -[to_valid FormatInt writeCanonicalString commas].
  unfold write_member, member_text. cbn [fst snd writeCanonical].
  change (map writeCanonical) with (fmap (M := list) writeCanonical).
  generalize (FormatInt (FirstSequence r)) as F. generalize (FormatInt (LastSequence r)) as L.
  generalize (commas (writeCanonical <$> obs)) as C. generalize (writeCanonicalString (to_valid src)) as S.
  intros S C L F. rewrite !commas_cons. cbn [commas fmap list_fmap concat]. rewrite app_nil_r.
  repeat first [rewrite <-app_assoc | rewrite <-app_comm_cons]. vm_compute. reflexivity.
Qed.

Lemma zlen_commas l : zlen (commas l) = foldr Z.add 0 (zlen <$> l) + (zlen l - if bool_decide (l = []) then 0 else 1).
Proof.
  induction l as [|x [|y l] IH]; [done|cbn; unfold zlen; rewrite app_nil_r; cbn [length]; lia|].
  rewrite commas_cons. rewrite bool_decide_eq_false_2 in IH |- * by done.
  cbn [fmap list_fmap foldr] in *. unfold zlen in *. rewrite length_app. cbn [length] in *. lia.
Qed.

Lemma batch_text_length src r recs :
  no_line_sep src ->
  zlen (batch_text src r recs) = bodyByteLen src (FirstSequence r) (LastSequence r) recs.
Proof.
  intros H. apply jsonStringLen_exact in H. unfold bodyByteLen, batch_text. rewrite <-H.
  pose proof (zlen_commas (rec_Payload <$> recs)) as Hc.
  assert (bool_decide (rec_Payload <$> recs = []) = bool_decide (recs = [])) as Hb by by destruct recs.
  rewrite Hb in Hc. rewrite <-list_fmap_compose in Hc. unfold compose in Hc.
  unfold zlen in *. rewrite length_fmap in Hc. rewrite !length_app, !Nat2Z.inj_add, Hc.
  change (Z.of_nat (length (js "{'first_sequence':"))) with 18.
  change (Z.of_nat (length (js ",'last_sequence':"))) with 17.
  change (Z.of_nat (length (js ",'observations':["))) with 17.
  change (Z.of_nat (length (js "],'schema_version':1,'source_id':"))) with 33.
  change (Z.of_nat (length (js "}"))) with 1. lia.
Qed.

Lemma batch_value_wf src r obs :
  0 <= FirstSequence r <= MaxInt64 -> 0 <= LastSequence r <= MaxInt64 -> Forall wf_json obs ->
  wf_json (batch_value src r obs).
Proof.
  intros Hf Hl Ho. assert (Ha : forall s, forallb is_ascii s = true -> valid_utf8 s).
  { induction s as [|b s IH]; cbn; intros H; constructor; apply andb_prop in H as [? ?]; auto. }
  apply wf_obj. split; [by apply (bool_decide_unpack _)|].
  repeat apply Forall_cons_2; try apply Forall_nil_2; cbn [fst snd]; (split; [by apply Ha|]).
  - apply FormatInt_valid; unfold in_i64, MaxInt64 in *; lia.
  - apply FormatInt_valid; unfold in_i64, MaxInt64 in *; lia.
  - by apply wf_arr.
  - done.
  - apply to_valid_valid.
Qed.

Lemma encode_canonical src r recs :
  canonical_records recs -> EncodeBatchBody src r recs = Ok (batch_text src r recs).
Proof.
  intros Hc. destruct (payload_values recs Hc) as (obs&Hm&Ho&_). unfold EncodeBatchBody. rewrite Hm.
  by rewrite (write_batch_value _ _ _ _ Ho).
Qed.

(** The body of a batch of durable payloads carries every payload verbatim between fixed keys, is
    canonical (parsing and canonicalizing it changes nothing), and has exactly the length
    [bodyByteLen] predicts, for every source id without U+2028 and U+2029. *)
Theorem EncodeBatchBody_spec src r recs :
  0 <= FirstSequence r <= MaxInt64 -> 0 <= LastSequence r <= MaxInt64 -> canonical_records recs ->
  let body := batch_text src r recs in
  EncodeBatchBody src r recs = Ok body
  /\ canonicalizeJSON body = Some body
  /\ (no_line_sep src -> zlen body = bodyByteLen src (FirstSequence r) (LastSequence r) recs).
Proof.
  intros Hf Hl Hc body. split; [by apply encode_canonical|]. split; [|apply batch_text_length].
  destruct (payload_values recs Hc) as (obs&Hm&Ho&Hw). unfold body. rewrite <-(write_batch_value _ _ _ _ Ho).
  pose proof (batch_value_wf src r obs Hf Hl Hw) as Hv. unfold canonicalizeJSON. rewrite decode_written by done.
  cbn [fmap option_fmap option_map]. by rewrite written_sorted.
Qed.

(** ** The byte budget *)

Lemma byteBudgetCut_from_spec fuel n src recs maxB r0 :
  recs !! 0%nat = Some r0 -> (1 <= n <= length recs)%nat -> (length recs <= n + fuel)%nat ->
  let len_of k := option_map (fun rk => bodyByteLen src (rec_Sequence r0) (rec_Sequence rk) (take k recs))
                    (recs !! (k - 1)%nat) in
  n = 1%nat \/ (exists l, len_of n = Some l /\ l <= maxB) ->
  let c := byteBudgetCut_from fuel n src recs maxB in
  (n <= c <= length recs)%nat
  /\ (c = 1%nat \/ (exists l, len_of c = Some l /\ l <= maxB))
  /\ ((c < length recs)%nat -> exists l, len_of (S c) = Some l /\ maxB < l).
Proof.
  intros H0. revert n. induction fuel as [|fuel IH]; intros n Hn Hf len_of Hl; cbn [byteBudgetCut_from].
  - split_and!; [lia..|done|lia].
  - rewrite H0. destruct (recs !! n) as [rn|] eqn:En.
    + destruct (Z.ltb_spec maxB (bodyByteLen src (rec_Sequence r0) (rec_Sequence rn) (take (S n) recs))) as [Hb|Hb].
      * split_and!; [lia..|done|]. intros _. eexists. split; [|exact Hb].
        unfold len_of. rewrite Nat.sub_succ, Nat.sub_0_r, En. done.
      * apply lookup_lt_Some in En as Hlt. destruct (IH (S n)) as (H1&H2&H3); [lia..| |].
        { right. eexists. split; [|exact Hb]. rewrite Nat.sub_succ, Nat.sub_0_r, En. done. }
        split_and!; [lia..|exact H2|exact H3].
    + apply lookup_ge_None in En. split_and!; [lia..|done|lia].
Qed.

(** The cut keeps at least one record, and more only if their body fits the budget; one more
    record would not fit. *)
Theorem byteBudgetCut_spec src recs maxB r0 :
  recs !! 0%nat = Some r0 ->
  let c := byteBudgetCut src recs maxB in
  let len_of k := option_map (fun rk => bodyByteLen src (rec_Sequence r0) (rec_Sequence rk) (take k recs))
                    (recs !! (k - 1)%nat) in
  (1 <= c <= length recs)%nat
  /\ (c = 1%nat \/ (exists l, len_of c = Some l /\ l <= maxB))
  /\ ((c < length recs)%nat -> exists l, len_of (S c) = Some l /\ maxB < l).
Proof.
  intros H0. apply lookup_lt_Some in H0 as Hlt. apply byteBudgetCut_from_spec; [done|lia..|by left].
Qed.

(** ** Ranges of records *)

Definition sequences (recs : list record) : list Z := rec_Sequence <$> recs.

Lemma verifyContiguous_ok recs first i :
  sequences recs = seqZ first (zlen recs) -> first + zlen recs <= MaxInt64 + 1 -> 0 <= first ->
  verifyContiguous_from i recs first = Ok tt.
Proof.
  revert first i. induction recs as [|rec recs IH]; intros first i Hs Hm Hf; [done|].
  unfold zlen in *. cbn [length sequences fmap list_fmap] in *.
  rewrite seqZ_cons in Hs by lia. injection Hs as H1 H2. cbn [verifyContiguous_from].
  rewrite H1, Z.eqb_refl. cbn [negb].
  destruct recs as [|rec' recs]; [done|].
  replace (i64 (first + 1)) with (Z.succ first)
    by (rewrite i64_id; unfold in_i64, MaxInt64 in *; cbn [length] in *; lia).
  apply IH; [|cbn [length] in *; lia..]. unfold sequences. rewrite H2. f_equal. lia.
Qed.

Lemma verifyContiguous_inv recs first i :
  verifyContiguous_from i recs first = Ok tt -> 0 <= first -> first + zlen recs <= MaxInt64 + 1 ->
  sequences recs = seqZ first (zlen recs).
Proof.
  revert first i. induction recs as [|rec recs IH]; intros first i Hv Hf Hm; [done|].
  cbn [verifyContiguous_from] in Hv. unfold zlen in *. cbn [length] in Hm |- *.
  destruct (Z.eqb_spec (rec_Sequence rec) first) as [E|]; [|done]. cbn [negb] in Hv.
  rewrite seqZ_cons by lia. unfold sequences in *. cbn [fmap list_fmap]. f_equal; [done|].
  destruct recs as [|rec' recs]; [done|].
  rewrite i64_id in Hv by (unfold in_i64, MaxInt64 in *; cbn [length] in *; lia). replace (Z.succ first) with (first + 1) by lia.
  rewrite (IH _ _ Hv) by (cbn [length] in *; lia). f_equal. lia.
Qed.

(** The records with sequences in [first, last]. *)
Definition in_records (first last : Z) (r : record) : Prop := first <= rec_Sequence r <= last.
#[export] Instance in_records_dec first last r : Decision (in_records first last r).
Proof. unfold in_records. apply _. Defined.
Definition window (first last : Z) (recs : list record) : list record := filter (in_records first last) recs.

Lemma window_app first last a b : window first last (a ++ b) = window first last a ++ window first last b.
Proof. apply filter_app. Qed.

Lemma filter_seqZ f0 n first last :
  f0 <= first -> first <= last + 1 -> last < f0 + n ->
  filter (fun z => first <= z <= last) (seqZ f0 n) = seqZ first (last - first + 1).
Proof.
  intros H1 H2 H3. replace n with ((first - f0) + ((last - first + 1) + (f0 + n - 1 - last))) by lia.
  rewrite !seqZ_app by lia. rewrite !filter_app.
  rewrite (filter_none _ (seqZ f0 (first - f0))), filter_all, (filter_none _ (seqZ _ (f0 + n - 1 - last))).
  - rewrite app_nil_r. cbn. f_equal. lia.
  - apply Forall_forall. intros z. rewrite elem_of_seqZ. lia.
  - apply Forall_forall. intros z. rewrite elem_of_seqZ. lia.
  - apply Forall_forall. intros z. rewrite elem_of_seqZ. lia.
Qed.

Lemma window_sequences first last recs f0 :
  sequences recs = seqZ f0 (zlen recs) -> f0 <= first -> first <= last + 1 -> last < f0 + zlen recs ->
  sequences (window first last recs) = seqZ first (last - first + 1).
Proof.
  intros Hs H1 H2 H3. rewrite <-(filter_seqZ f0 (zlen recs)), <-Hs by done.
  unfold sequences, window. by apply filter_map.
Qed.

(** A shorter window is a prefix of a longer one. *)
Lemma window_take first last recs f0 c :
  sequences recs = seqZ f0 (zlen recs) -> f0 <= first -> last < f0 + zlen recs ->
  0 <= c <= last - first + 1 ->
  take (Z.to_nat c) (window first last recs) = window first (first + c - 1) recs.
Proof.
  intros Hs H1 H3 Hc.
  assert (Hw : window first (first + c - 1) recs
    = window first (first + c - 1) (window first last recs)).
  { symmetry. apply filter_twice. unfold in_records. intros x. lia. }
  rewrite Hw. pose proof (window_sequences first last recs f0 Hs H1 ltac:(lia) H3) as Hseq.
  set (w := window first last recs) in *. clearbody w. clear -Hseq Hc.
  rewrite <-(take_drop (Z.to_nat c) w) at 2. rewrite window_app.
  assert (Hlen : length w = Z.to_nat (last - first + 1)).
  { apply (f_equal length) in Hseq. unfold sequences in Hseq. by rewrite length_fmap, length_seqZ in Hseq. }
  unfold window. rewrite filter_all, (filter_none _ (drop _ w)); [by rewrite app_nil_r|..].
  - apply Forall_lookup. intros i x Hx. rewrite lookup_drop in Hx.
    assert (Hi : sequences w !! (Z.to_nat c + i)%nat = Some (rec_Sequence x)) by
      (unfold sequences; by rewrite list_lookup_fmap, Hx).
    rewrite Hseq in Hi. apply lookup_seqZ in Hi as [Hi Hi']. unfold in_records. lia.
  - apply Forall_lookup. intros i x Hx. apply lookup_take_Some in Hx as [Hx Hic].
    assert (Hi : sequences w !! i = Some (rec_Sequence x)) by
      (unfold sequences; by rewrite list_lookup_fmap, Hx).
    rewrite Hseq in Hi. apply lookup_seqZ in Hi as [Hi Hi']. unfold in_records. lia.
Qed.

(** ** The planner over any store that keeps its promise *)

(** Reading [a] from an unchanged directory, unless a call fails. *)
Definition reads_as {A} (ev : env) (m : IO A) (d : disk) (a : A) : Prop :=
  exists t r, m d = (t, r, d)
    /\ (r = Ok a \/ exists op name, r = Err (ErrIO op) /\ e_flt ev op name = true).

(** What a frame store promises: while the directory holds the records [recs], reading a range returns
    the durable records in it. *)
Class FrameStoreLaws (store : FrameStore) (holds : list record -> disk -> Prop) : Prop := {
  ReadRange_window ev recs d first last :
    holds recs d -> 1 <= first <= last -> last <= MaxInt64 ->
    reads_as ev (ReadRange ev first last) d (window first last recs);
}.

(** The records are consecutive and include everything between the watermark and the ceiling. *)
Definition covers (a : AckState) (recs : list record) : Prop :=
  exists f0, 1 <= f0 <= ak_acknowledgedThrough a + 1 /\ sequences recs = seqZ f0 (zlen recs)
    /\ ak_highestDurable a < f0 + zlen recs <= MaxInt64 + 1.

Lemma canonical_window recs first last : canonical_records recs -> canonical_records (window first last recs).
Proof.
  unfold canonical_records. rewrite !Forall_forall. intros H x [_ Hx]%list_elem_of_filter. auto.
Qed.

Lemma zlen_sequences recs first n : sequences recs = seqZ first n -> 0 <= n -> zlen recs = n.
Proof.
  intros H Hn. apply (f_equal length) in H. unfold sequences in H.
  rewrite length_fmap, length_seqZ in H. unfold zlen. lia.
Qed.

Lemma last_sequence rec0 recs first n :
  sequences recs = seqZ first n -> 1 <= n -> rec_Sequence (List.last recs rec0) = first + n - 1.
Proof.
  intros H Hn. pose proof (zlen_sequences _ _ _ H ltac:(lia)) as Hl. unfold zlen in Hl.
  destruct recs as [|x recs _] using rev_ind; [cbn in Hl; lia|]. rewrite last_last.
  assert (Hi : sequences (recs ++ [x]) !! length recs = Some (rec_Sequence x)).
  { unfold sequences. rewrite list_lookup_fmap, lookup_app_r, Nat.sub_diag by lia. done. }
  rewrite H in Hi. apply lookup_seqZ in Hi as [Hi _]. rewrite length_app in Hl. cbn in Hl. lia.
Qed.

Section next.
Context {store : FrameStore} {holds : list record -> disk -> Prop} {laws : FrameStoreLaws store holds}.
Variables (ev : env) (p : Planner) (a : AckState) (recs : list record) (d : disk).
Hypothesis (Hholds : holds recs d) (Hcov : covers a recs) (Hcan : canonical_records recs) (Hwf : ack_wf a).

Lemma covers_window first last :
  ak_acknowledgedThrough a < first -> first <= last + 1 -> last <= ak_highestDurable a ->
  sequences (window first last recs) = seqZ first (last - first + 1).
Proof. destruct Hcov as (f0&Hf&Hs&Hh). intros. apply (window_sequences _ _ _ f0); [done|lia..]. Qed.

Lemma encodeRange_run r :
  InFlight a = Some r ->
  let '(res, d') := encodeRange ev p r d in
  d' = d /\ (res = Ok (batch_text (p_SourceID p) r (window (FirstSequence r) (LastSequence r) recs))
             \/ (exists op name, e_flt ev op name = true) /\ is_ok res = false).
Proof.
  intros Hr. destruct Hwf as (H1&H2&H3&H4). unfold InFlight in Hr. rewrite Hr in H4.
  destruct H4 as (Hf&Hl&Hm).
  destruct (ReadRange_window ev recs d (FirstSequence r) (LastSequence r) Hholds ltac:(lia) ltac:(lia))
    as (t&res&E&Hres). unfold encodeRange. rewrite E. split; [done|].
  destruct Hres as [->|(op&name&->&Hflt)]; [|right; split; [by exists op, name|done]]. left.
  pose proof (covers_window (FirstSequence r) (LastSequence r) ltac:(lia) ltac:(lia) ltac:(lia)) as Hs.
  pose proof (zlen_sequences _ _ _ Hs ltac:(lia)) as Hlen.
  unfold verifyContiguous. rewrite verifyContiguous_ok; [|by rewrite Hlen|lia..].
  cbn [mbind result_bind].
  rewrite (i64_id (LastSequence r - FirstSequence r)), i64_id by (unfold in_i64, MaxInt64 in *; lia).
  rewrite Hlen, Z.eqb_refl. cbn [negb]. by apply encode_canonical, canonical_window.
Qed.

(** The range a fresh plan covers. *)
Lemma SetInFlight_fresh last :
  InFlight a = None -> ak_acknowledgedThrough a < last <= ak_highestDurable a ->
  last - ak_acknowledgedThrough a <= ak_maxInFlight a ->
  SetInFlight (mkRange (ak_acknowledgedThrough a + 1) last) a
  = Ok (mkAckState (ak_acknowledgedThrough a) (ak_highestDurable a) (ak_maxInFlight a)
          (Some (mkRange (ak_acknowledgedThrough a + 1) last))).
Proof.
  intros Hn Hl Hm. destruct Hwf as (H1&H2&H3&H4). unfold SetInFlight, InFlight in *. cbn [FirstSequence LastSequence].
  rewrite Hn. unfold SequenceMin.
  rewrite (proj2 (Z.ltb_ge _ 1)), (proj2 (Z.ltb_ge last _)) by lia. cbn [orb].
  rewrite (proj2 (Z.ltb_ge (ak_highestDurable a) last)) by lia.
  rewrite !i64_id by (unfold in_i64, MaxInt64 in *; lia).
  rewrite (proj2 (Z.ltb_ge (ak_maxInFlight a) _)) by lia. by rewrite Z.eqb_refl.
Qed.

Lemma cut_window last c :
  let first := ak_acknowledgedThrough a + 1 in
  first <= last <= ak_highestDurable a -> 1 <= c <= last - first + 1 ->
  take (Z.to_nat c) (window first last recs) = window first (first + c - 1) recs
  /\ (forall rec0, rec_Sequence (List.last (window first (first + c - 1) recs) rec0) = first + c - 1).
Proof.
  intros first Hl Hc. destruct Hcov as (f0&Hf&Hs&Hh). split.
  - by apply (window_take first last recs f0); [done|lia..].
  - intros rec0. pose proof (covers_window first (first + c - 1) ltac:(lia) ltac:(lia) ltac:(lia)) as Hw.
    rewrite (last_sequence rec0 _ _ _ Hw); lia.
Qed.
(** What a call promises, by its result. *)
Definition next_ok (r : bres (option Plan)) (a' : AckState) : Prop :=
  match r with
  | Ok None => a' = a /\ InFlight a = None /\ ak_acknowledgedThrough a = ak_highestDurable a
  | Ok (Some (mkPlan r body)) =>
      a' = mkAckState (ak_acknowledgedThrough a) (ak_highestDurable a) (ak_maxInFlight a) (Some r)
      /\ FirstSequence r = ak_acknowledgedThrough a + 1
      /\ FirstSequence r <= LastSequence r <= ak_highestDurable a
      /\ body = batch_text (p_SourceID p) r (window (FirstSequence r) (LastSequence r) recs)
      /\ match InFlight a with
         | Some r0 => r = r0
         | None =>
             LastSequence r - FirstSequence r + 1 <= MaxObservations (resolve (p_Caps p))
             /\ (LastSequence r = FirstSequence r
                 \/ (no_line_sep (p_SourceID p) -> zlen body <= MaxBatchBytes (resolve (p_Caps p))))
         end
  | Err _ => a' = a /\ exists op name, e_flt ev op name = true
  end.

Lemma cut_bounds last (w := window (ak_acknowledgedThrough a + 1) last recs) maxB :
  ak_acknowledgedThrough a + 1 <= last <= ak_highestDurable a ->
  exists c, Z.of_nat (byteBudgetCut (p_SourceID p) w maxB) = c
    /\ 1 <= c <= last - ak_acknowledgedThrough a
    /\ (c = 1 \/ bodyByteLen (p_SourceID p) (ak_acknowledgedThrough a + 1) (ak_acknowledgedThrough a + c)
                   (take (Z.to_nat c) w) <= maxB).
Proof.
  intros Hl. eexists. split; [done|].
  pose proof (covers_window (ak_acknowledgedThrough a + 1) last ltac:(lia) ltac:(lia) ltac:(lia)) as Hs.
  pose proof (zlen_sequences _ _ _ Hs ltac:(lia)) as Hlen. fold w in Hs, Hlen. unfold zlen in Hlen.
  assert (Hat : forall i x, w !! i = Some x -> rec_Sequence x = ak_acknowledgedThrough a + 1 + Z.of_nat i).
  { intros i x Hx. assert (Hi : sequences w !! i = Some (rec_Sequence x)) by
      (unfold sequences; by rewrite list_lookup_fmap, Hx).
    rewrite Hs in Hi. apply lookup_seqZ in Hi as [Hi _]. lia. }
  destruct (lookup_lt_is_Some_2 w 0%nat ltac:(lia)) as [r0 H0].
  destruct (byteBudgetCut_from_spec (length w) 1 (p_SourceID p) w maxB r0 H0) as (Hc&Hb&_);
    [lia|lia|by left|]. fold (byteBudgetCut (p_SourceID p) w maxB) in Hc, Hb.
  split; [lia|]. destruct Hb as [Hb|(l&Hb&Hle)]; [left; lia|right].
  destruct (w !! (byteBudgetCut (p_SourceID p) w maxB - 1)%nat) as [rk|] eqn:Ek; [|done].
  cbn [option_map] in Hb. injection Hb as <-.
  rewrite (Hat _ _ H0), (Hat _ _ Ek) in Hle. rewrite Nat2Z.id.
  replace (ak_acknowledgedThrough a + Z.of_nat (byteBudgetCut (p_SourceID p) w maxB))
    with (ak_acknowledgedThrough a + 1 + Z.of_nat (byteBudgetCut (p_SourceID p) w maxB - 1)) by lia.
  by replace (ak_acknowledgedThrough a + 1) with (ak_acknowledgedThrough a + 1 + Z.of_nat 0) at 1 by lia.
Qed.

Lemma Next_run :
  MaxObservations (resolve (p_Caps p)) <= ak_maxInFlight a ->
  ak_acknowledgedThrough a + 1 + MaxObservations (resolve (p_Caps p)) <= MaxInt64 ->
  let '(r, a', d') := Next ev p a d in d' = d /\ next_ok r a'.
Proof.
  intros Hcap Hmax. unfold Next, next_ok. destruct Hwf as (H1&H2&H3&H4).
  destruct (InFlight a) as [r|] eqn:Hr.
  { pose proof (encodeRange_run r Hr) as He. destruct (encodeRange ev p r d) as [res d'].
    destruct He as (->&[->|((op&name&Hflt)&Hno)]); split; [done| |done|].
    - cbn [mbind result_bind]. unfold InFlight in Hr. rewrite Hr in H4. destruct H4 as (Hf&Hl&_).
      split_and!; [|lia..|done|done]. destruct a; cbn in *; by subst.
    - destruct res; [done|]. cbn. split; [done|]. by exists op, name. }
  assert (Hobs : 1 <= MaxObservations (resolve (p_Caps p))).
  { unfold resolve, DefaultMaxObservations; cbn [MaxObservations].
    destruct (Z.leb_spec (MaxObservations (p_Caps p)) 0); lia. }
  cbv zeta. set (caps := resolve (p_Caps p)) in *.
  rewrite (i64_id (ak_acknowledgedThrough a + 1)) by (unfold in_i64, MaxInt64 in *; lia).
  set (first := ak_acknowledgedThrough a + 1) in *. assert (Hfirst : first = ak_acknowledgedThrough a + 1) by done.
  destruct (Z.ltb_spec (ak_highestDurable a) first) as [Hlt|Hge]; [split_and!; [done..|lia]|].
  rewrite (i64_id (first + MaxObservations caps)), i64_id by (unfold in_i64, MaxInt64 in *; lia).
  set (t := first + MaxObservations caps - 1).
  set (tl := if ak_highestDurable a <? t then ak_highestDurable a else t).
  assert (Htl : first <= tl <= ak_highestDurable a /\ tl - first + 1 <= MaxObservations caps).
  { unfold tl. destruct (Z.ltb_spec (ak_highestDurable a) t); lia. }
  clearbody tl. clear t.
  destruct (ReadRange_window ev recs d first tl Hholds ltac:(lia) ltac:(lia)) as (tr&res&E&Hres).
  rewrite E. destruct Hres as [->|(op&name&->&Hflt)]; [|split_and!; [done..|by exists op, name]].
  pose proof (covers_window first tl ltac:(lia) ltac:(lia) ltac:(lia)) as Hs.
  pose proof (zlen_sequences _ _ _ Hs ltac:(lia)) as Hlen.
  destruct (cut_bounds tl (MaxBatchBytes caps) ltac:(lia)) as (c&Hc&Hcb&Hbody). fold first in Hc, Hbody.
  destruct (cut_window tl c ltac:(lia) ltac:(lia)) as [Htake Hlast]. fold first in Htake, Hlast.
  remember (window first tl recs) as w eqn:Ew. destruct w as [|rec0 w]; [unfold zlen in Hlen; cbn [length] in Hlen; lia|].
  assert (Hv : verifyContiguous (rec0 :: w) first = Ok tt) by
    (apply verifyContiguous_ok; [by rewrite Hlen|rewrite Hlen; lia|lia]). rewrite Hv.
  rewrite <-(Nat2Z.id (byteBudgetCut _ _ _)), Hc, Htake, Hlast.
  pose proof (SetInFlight_fresh (first + c - 1) Hr ltac:(lia) ltac:(lia)) as Hset. fold first in Hset.
  rewrite Hset.
  rewrite encode_canonical by (by apply canonical_window). cbn [mbind result_bind].
  split; [done|]. cbn [FirstSequence LastSequence]. split_and!; [done|lia..|done|lia|].
  destruct Hbody as [->|Hbody]; [left; lia|right]. intros Hn.
  rewrite batch_text_length by done. cbn [FirstSequence LastSequence].
  rewrite <-Htake. by replace (first + c - 1) with (ak_acknowledgedThrough a + c) by lia.
Qed.
End next.

(** What one call yields. With a store that keeps its promise, over durable canonical payloads that
    reach from the watermark to the ceiling, [Next] returns nothing exactly when nothing is owed;
    otherwise the plan starts right after the watermark, holds at least one record and no undurable
    one, its body is the range's payloads verbatim, it is recorded as the range in flight, and a fresh
    plan respects the caps (only a batch of one may exceed the byte cap). The one reason for an error is
    a failing read, which leaves the ack state as it was. *)
Theorem Next_spec {store : FrameStore} {holds} {laws : FrameStoreLaws store holds} ev p a recs d :
  holds recs d -> covers a recs -> canonical_records recs -> ack_wf a ->
  MaxObservations (resolve (p_Caps p)) <= ak_maxInFlight a ->
  ak_acknowledgedThrough a + 1 + MaxObservations (resolve (p_Caps p)) <= MaxInt64 ->
  let '(r, a', d') := Next ev p a d in d' = d /\ next_ok ev p a recs r a'.
Proof. intros. by apply (Next_run ev p a recs d). Qed.

(** Two logs agree: a sequence denotes the same record in both. *)
Definition agree (recs recs' : list record) : Prop :=
  forall x y, x ∈ recs -> y ∈ recs' -> rec_Sequence x = rec_Sequence y -> x = y.

Lemma agree_windows recs recs' first n :
  agree recs recs' -> sequences recs = seqZ first n -> sequences recs' = seqZ first n -> recs = recs'.
Proof.
  intros Ha H1 H2. apply list_eq_Forall2. apply Forall2_same_length_lookup. split.
  - apply (f_equal length) in H1, H2. unfold sequences in *. rewrite length_fmap in *. congruence.
  - intros i x y Hx Hy. apply Ha; [by eapply list_elem_of_lookup_2..|].
    assert (Hi : sequences recs !! i = sequences recs' !! i) by congruence.
    unfold sequences in Hi. rewrite !list_lookup_fmap, Hx, Hy in Hi. by injection Hi.
Qed.

(** An outstanding batch replays byte for byte. Once a plan was formed, every later call while its
    range is in flight, in any directory whose records agree with the first, whatever was appended or
    compacted since and whatever the caps are now, returns the same plan (or a read failed) and changes
    nothing. *)
Theorem Next_replays {store : FrameStore} {holds} {laws : FrameStoreLaws store holds}
    ev p a recs d plan a' ev2 p2 a2 recs2 d2 :
  holds recs d -> covers a recs -> canonical_records recs -> ack_wf a ->
  MaxObservations (resolve (p_Caps p)) <= ak_maxInFlight a ->
  ak_acknowledgedThrough a + 1 + MaxObservations (resolve (p_Caps p)) <= MaxInt64 ->
  Next ev p a d = (Ok (Some plan), a', d) ->
  holds recs2 d2 -> covers a2 recs2 -> canonical_records recs2 -> ack_wf a2 -> agree recs recs2 ->
  InFlight a2 = Some (pl_Range plan) -> p_SourceID p2 = p_SourceID p ->
  let '(r, a2', d2') := Next ev2 p2 a2 d2 in
  a2' = a2 /\ d2' = d2
  /\ (r = Ok (Some plan) \/ is_ok r = false /\ exists op name, e_flt ev2 op name = true).
Proof.
  intros Hh Hc Hcan Hwf H1 H2 HN Hh2 Hc2 Hcan2 Hwf2 Hag Hfl Hsrc.
  pose proof (Next_run ev p a recs d Hh Hc Hcan Hwf H1 H2) as HN1. rewrite HN in HN1.
  destruct plan as [r body]. destruct HN1 as (_&_&Hf&Hr&Hb&_). cbn [pl_Range] in Hfl.
  pose proof (encodeRange_run ev2 p2 a2 recs2 d2 Hh2 Hc2 Hcan2 Hwf2 r Hfl) as He.
  unfold Next. rewrite Hfl. destruct (encodeRange ev2 p2 r d2) as [res d2']. destruct He as [-> He].
  split; [done|split; [done|]]. destruct He as [->|[Hflt Hno]]; [left|right; by destruct res].
  cbn [mbind result_bind]. rewrite Hb, Hsrc. do 4 f_equal. symmetry.
  apply (agree_windows _ _ (FirstSequence r) (LastSequence r - FirstSequence r + 1)).
  - intros x y [_ Hx]%list_elem_of_filter [_ Hy]%list_elem_of_filter. by apply Hag.
  - apply (covers_window a recs Hc); lia.
  - destruct Hwf2 as (_&_&_&H4). unfold InFlight in Hfl. rewrite Hfl in H4.
    apply (covers_window a2 recs2 Hc2); lia.
Qed.

(** ** Witnesses *)

(** A store in memory. *)
Definition mem_store (recs : list record) : FrameStore := fun _ first last => io_ret (window first last recs).

Lemma mem_store_laws recs : FrameStoreLaws (mem_store recs) (fun r _ => r = recs).
Proof.
  split. intros ev r d first last -> _ _. do 2 eexists. split; [reflexivity|by left].
Qed.

Definition demo_records : list record :=
  [mkRecord 1 (js "{'kind':'A'}"); mkRecord 2 (js "{'kind':'B','n':7}"); mkRecord 3 (js "[null,'x']")].

Lemma decoded_canonical p v : decode p = Some v -> writeCanonical v = p -> canonical_payload p.
Proof. intros Hd <-. exists v. split; [by eapply decode_valid|done]. Qed.

Lemma demo_records_canonical : canonical_records demo_records.
Proof.
  repeat constructor; (eapply decoded_canonical; [vm_compute; reflexivity|vm_compute; reflexivity]).
Qed.

Lemma EncodeBatchBody_spec_witness :
  EncodeBatchBody (str "src") (mkRange 1 3) demo_records
    = Ok (js "{'first_sequence':1,'last_sequence':3,'observations':[{'kind':'A'},{'kind':'B','n':7},[null,'x']],'schema_version':1,'source_id':'src'}")
  /\ canonicalizeJSON (batch_text (str "src") (mkRange 1 3) demo_records)
     = Some (batch_text (str "src") (mkRange 1 3) demo_records).
Proof.
  split; [vm_compute; reflexivity|].
  apply (EncodeBatchBody_spec (str "src") (mkRange 1 3) demo_records);
    [cbn; unfold MaxInt64; lia|cbn; unfold MaxInt64; lia|exact demo_records_canonical].
Defined.

Lemma byteBudgetCut_spec_witness :
  byteBudgetCut (str "src") demo_records 130 = 2%nat
  /\ (1 <= byteBudgetCut (str "src") demo_records 130 <= 3)%nat.
Proof.
  split; [vm_compute; reflexivity|].
  apply (byteBudgetCut_spec (str "src") demo_records 130 (mkRecord 1 (js "{'kind':'A'}"))). reflexivity.
Defined.

Definition demo_planner : Planner := mkPlanner (mkCaps 2 0) (str "src").
Definition demo_batch_ack : AckState := mkAckState 0 3 1000 None.

Lemma demo_covers : covers demo_batch_ack demo_records.
Proof. exists 1. unfold MaxInt64. cbn. split_and!; (lia || done). Qed.

Lemma demo_batch_wf : ack_wf demo_batch_ack.
Proof. unfold ack_wf, MaxInt64. cbn. lia. Qed.

Lemma Next_spec_witness :
  let store := mem_store demo_records in
  let '(r, a', d') := Next demo_env demo_planner demo_batch_ack demo_disk in
  d' = demo_disk /\ next_ok demo_env demo_planner demo_batch_ack demo_records r a'.
Proof.
  apply (@Next_spec (mem_store demo_records) _ (mem_store_laws demo_records));
    [reflexivity|exact demo_covers|exact demo_records_canonical|exact demo_batch_wf|vm_compute; discriminate|vm_compute; discriminate].
Defined.

Definition demo_plan : Plan :=
  mkPlan (mkRange 1 2) (js "{'first_sequence':1,'last_sequence':2,'observations':[{'kind':'A'},{'kind':'B','n':7}],'schema_version':1,'source_id':'src'}").
Definition demo_batch_ack2 : AckState := mkAckState 0 3 1000 (Some (mkRange 1 2)).

Lemma Next_replays_witness :
  let store := mem_store demo_records in
  let '(r, a', d') := Next demo_env (mkPlanner (mkCaps 1 50) (str "src")) demo_batch_ack2 demo_disk in
  a' = demo_batch_ack2 /\ d' = demo_disk
  /\ (r = Ok (Some demo_plan) \/ is_ok r = false /\ exists op name, e_flt demo_env op name = true).
Proof.
  apply (@Next_replays (mem_store demo_records) _ (mem_store_laws demo_records)
    demo_env demo_planner demo_batch_ack demo_records demo_disk demo_plan demo_batch_ack2
    demo_env (mkPlanner (mkCaps 1 50) (str "src")) demo_batch_ack2 demo_records demo_disk);
    [reflexivity|exact demo_covers|exact demo_records_canonical|exact demo_batch_wf
    |vm_compute; discriminate|vm_compute; discriminate|vm_compute; reflexivity|reflexivity| |exact demo_records_canonical
    | | |reflexivity|reflexivity].
  - exists 1. unfold MaxInt64. cbn. split_and!; (lia || done).
  - unfold ack_wf, MaxInt64. cbn. lia.
  - intros x y Hx Hy E. apply list_elem_of_lookup in Hx as [i Hx], Hy as [j Hy].
    destruct i as [|[|[|i]]], j as [|[|[|j]]]; cbn in Hx, Hy; try discriminate; injection Hx as <-;
      injection Hy as <-; try discriminate E; reflexivity.
Defined.
