(* ===== verification/Sendable.v ===== *)
(** * What the endpoint sends is what the strict decoder accepts

    Values built from the generated types, encoded by [CanonicalBytes] and put into a batch by
    [EncodeBatchBody], are accepted by [DecodeObservationBatch] and read back as themselves. The end of
    the file has the decoder's gaps as computed examples. *)

From S2P Require Import Prelude GoStrings GoTime Json JsonText GoJson WireTypes StrictDecode SpoolTypes Ack Batch.

(** ** What the generated types encode is accepted *)

(** The payload member of a kind is a field of its variant that is never left out. *)
Definition payload_field (t : gotype) (member : bytes) : bool :=
  match t with
  | TStruct fs =>
      existsb (fun f => bool_decide (json_name f = member)
                        && match go_type f with TStruct _ | TRaw => true | _ => false end) fs
  | _ => false
  end.

Lemma variants_payload :
  forallb (fun kv => match by_kind kv.1 payloadMemberByKind with Some m => payload_field kv.2 m | None => false end) variant_types = true.
Proof. by vm_compute. Qed.

Lemma last_member_unique name m j : NoDup m.*1 -> (name, j) ∈ m -> last_member name m = Some j.
Proof.
  unfold last_member. generalize (@None json) as acc. induction m as [|[k v] m IH]; intros acc Hn Hin; [by inversion Hin|].
  cbn [fmap list_fmap fst] in Hn. apply NoDup_cons in Hn as [Hk Hn]. cbn [fold_left fst snd].
  apply elem_of_cons in Hin as [[= <- <-]|Hin].
  - rewrite bool_decide_eq_true_2 by done. clear IH Hn. revert Hk. induction m as [|[k v] m IH]; [done|].
    cbn [fmap list_fmap fst fold_left snd]. intros Hk. rewrite not_elem_of_cons in Hk. destruct Hk as [Hk Hm].
    rewrite bool_decide_eq_false_2 by congruence. by apply IH.
  - rewrite bool_decide_eq_false_2; [by apply IH|]. intros ->. apply Hk. apply list_elem_of_fmap. by exists (name, j).
Qed.

Lemma marshalled_payload fs vs member m :
  wire_type (TStruct fs) = true -> fields_typed fs vs -> payload_field (TStruct fs) member = true ->
  marshal_fields marshal fs vs = Some m ->
  (forall i f v, fs !! i = Some f -> json_name f = member -> is_raw (go_type f) = true -> vs !! i = Some v -> v <> GRaw JNull) ->
  wf_json (JObj m) -> payload_present (sorted_json (JObj m)) member.
Proof.
  intros Hw Ht Hp Hm Hraw Hwf. apply existsb_exists in Hp as (f&Hin&Hf). apply list_elem_of_In, list_elem_of_lookup in Hin as [i Hi].
  apply andb_prop in Hf as [Hk Hty]. apply bool_decide_eq_true_1 in Hk.
  cbn [wire_type] in Hw. apply andb_prop in Hw as [Hw _]. apply andb_prop in Hw as [Hn _]. apply bool_decide_eq_true_1 in Hn.
  destruct (Forall2_lookup_l _ _ _ _ _ Ht Hi) as (v&Hv&Htv).
  assert (Hin : member ∈ m.*1).
  { destruct (decide (member ∈ m.*1)) as [|Ho]; [done|]. rewrite <-Hk in Ho.
    pose proof (marshal_fields_absent _ _ _ _ _ _ _ Hn Hm Hi Hv Ho) as Habs. destruct (go_type f); done. }
  apply list_elem_of_fmap in Hin as ([k j]&Ek&Hkj). cbn [fst] in Ek. subst k.
  destruct (marshal_fields_elem _ _ _ _ _ Hm Hkj) as (i'&f'&v'&Hf'&Hv'&Hk'&He&_). cbn [fst snd] in Hk', He.
  assert (i' = i) as ->.
  { eapply (NoDup_lookup _ _ _ _ Hn); [by rewrite list_lookup_fmap, Hf'; cbn; rewrite <-Hk'|by rewrite list_lookup_fmap, Hi; cbn; rewrite Hk]. }
  rewrite Hi in Hf'. injection Hf' as <-. rewrite Hv in Hv'. injection Hv' as <-. exists (sort_fields (map (fun kv => (kv.1, sorted_json kv.2)) m)), (sorted_json j).
  split; [done|]. apply wf_obj in Hwf as [Hnd _]. split.
  - apply last_member_unique.
    + rewrite sort_fields_perm. rewrite <-list_fmap_compose. exact Hnd.
    + rewrite sort_fields_perm. apply list_elem_of_fmap. exists (member, j). by split.
  - apply sorted_not_null. destruct (go_type f) as [| | | | | | | | | | | |fs'] eqn:Eg; try done.
    + destruct v; try done. cbn in He. injection He as <-. intros ->. eapply (Hraw i f); try done. by rewrite Eg.
    + eapply (marshal_not_null (TStruct fs')); [done| |done|exact He]. by destruct v.
Qed.

(** A typed value of a kind's variant, ready to send. *)
Definition sendable (kind : bytes) (t : gotype) (v : goval) (seq : Z) : Prop :=
  by_kind kind variant_types = Some t /\ has_type t v /\ settled v /\ enums_valid t v = true
  /\ get t "Sequence" v = GInt seq /\ 1 <= seq <= MaxInt64
  /\ (kind = str "RUN_BOUNDARY" -> exists s e, boundary_valid (as_raw (get t "RunBoundary" v)) s e)
  /\ (kind = str "VCS_REFERENCE" -> vcs_valid (as_raw (get t "VcsReference" v))).

(** [null] is no boundary and no VCS reference: its zero value has no valid discriminator. *)
Lemma boundary_not_null s e : ~ boundary_valid JNull s e.
Proof. intros [(b&_&_&Hd&He)|(b&_&_&Hd&He)]; cbn in Hd; injection Hd as <-; vm_compute in He; discriminate He. Qed.

Lemma vcs_not_null : ~ vcs_valid JNull.
Proof. intros (b&[[Hd He]|[Hd He]]); cbn in Hd; injection Hd as <-; vm_compute in He; discriminate He. Qed.

(** Only two kinds have a union for a payload, the fields the decoder dispatches on. *)
Definition union_field (kind : bytes) (fs : list gofield) (i : nat) : bool :=
  bool_decide (kind = str "RUN_BOUNDARY" /\ fst <$> field_at fs "RunBoundary" = Some i)
  || bool_decide (kind = str "VCS_REFERENCE" /\ fst <$> field_at fs "VcsReference" = Some i).

Definition unions_known (kind member : bytes) (t : gotype) : bool :=
  match t with
  | TStruct fs =>
      forallb (fun p => negb (bool_decide (json_name p.2 = member) && is_raw (go_type p.2)) || union_field kind fs p.1) (imap pair fs)
  | _ => false
  end.

Lemma variants_raw :
  forallb (fun kv => match by_kind kv.1 payloadMemberByKind with Some m => unions_known kv.1 m kv.2 | None => false end) variant_types = true.
Proof. by vm_compute. Qed.

Lemma field_at_index fs name i f : fst <$> field_at fs name = Some i -> fs !! i = Some f ->
  forall vs v, vs !! i = Some v -> get (TStruct fs) name (GStruct vs) = v.
Proof.
  destruct (field_at fs name) as [[j g]|] eqn:E; [|done]. intros [= ->] Hf vs v Hv.
  apply field_at_lookup in E as [_ ->]. by rewrite Hv.
Qed.

Lemma union_not_null kind fs member vs i f v seq :
  sendable kind (TStruct fs) (GStruct vs) seq -> by_kind kind payloadMemberByKind = Some member ->
  fs !! i = Some f -> json_name f = member -> is_raw (go_type f) = true -> vs !! i = Some v -> v <> GRaw JNull.
Proof.
  intros (Ht&_&_&_&_&_&Hb&Hc) Hm Hf Hn Hr Hv ->.
  pose proof (proj1 (forallb_forall _ _) variants_raw _ (proj1 (list_elem_of_In _ _) (by_kind_elem _ _ _ Ht))) as H.
  cbn [fst snd] in H. rewrite Hm in H. cbn [unions_known] in H. rewrite forallb_forall in H.
  specialize (H (i, f)). cbn [fst snd] in H. rewrite Hn, Hr in H.
  assert (Hin : In (i, f) (imap pair fs)).
  { apply list_elem_of_In, list_elem_of_lookup. exists i. by rewrite list_lookup_imap, Hf. }
  specialize (H Hin). rewrite bool_decide_eq_true_2 in H by reflexivity. cbn [andb negb orb] in H.
  apply orb_prop in H as [H|H]; apply bool_decide_eq_true_1 in H as [-> Hi].
  - destruct (Hb eq_refl) as (s&e&Hs). rewrite (field_at_index fs _ i f Hi Hf vs _ Hv) in Hs. by eapply boundary_not_null.
  - specialize (Hc eq_refl). rewrite (field_at_index fs _ i f Hi Hf vs _ Hv) in Hc. by eapply vcs_not_null.
Qed.

(** The observation a sendable value is read as. *)
Definition observation_of (kind : bytes) (t : gotype) (v : goval) (seq : Z) (s e : option goval) : DecodedObservation :=
  mkDecoded kind seq (as_string (get t "ObservationId" v)) (get t "RunContext" v) v s e
    (if bool_decide (kind = str "USAGE") then Some (get t "Usage" v) else None).

(** The boundaries a kind's union is read as. *)
Definition unions_read (kind : bytes) (t : gotype) (v : goval) (s e : option goval) : Prop :=
  if bool_decide (kind = str "RUN_BOUNDARY") then boundary_valid (as_raw (get t "RunBoundary" v)) s e
  else s = None /\ e = None.

Lemma sendable_unions kind t v seq : sendable kind t v seq -> exists s e, unions_read kind t v s e.
Proof.
  intros (_&_&_&_&_&_&Hb&_). unfold unions_read. case_bool_decide as Hk; [by apply Hb|by exists None, None].
Qed.

Lemma sent_accepted kind t v seq s e raw :
  sendable kind t v seq -> unions_read kind t v s e -> CanonicalBytes t v = Some raw ->
  exists j, decode_raw raw = Some (j, []) /\ canonical j /\ accepted j (observation_of kind t v seq s e).
Proof.
  intros Hs Hu Hraw. pose proof Hs as (Ht&Hty&Hse&He&Hq&Hr&Hb&Hc).
  destruct (variant_facts _ _ Ht) as (Hok&Hsole&fs&->). destruct (variant_member _ _ Ht) as [member Hm].
  pose proof (variant_wire _ Hok) as Hw. destruct v as [| | | | | | | | |vs]; try done.
  destruct (CanonicalBytes_reads true _ _ _ Hw Hty Hse Hraw) as (j&Hj&Hjw&Hjs&Hd).
  assert (Hpay : payload_present j member).
  { apply fmap_Some in Hraw as (j0&Hj0&->). pose proof (marshal_wf _ _ _ Hw Hty Hse Hj0) as Hw0.
    rewrite decode_raw_written in Hj by done. injection Hj as <-. cbn [marshal] in Hj0. apply fmap_Some in Hj0 as (m&Hm0&->).
    apply (marshalled_payload fs vs member m Hw); [by apply has_type_struct| |done| |done].
    - pose proof (proj1 (forallb_forall _ _) variants_payload _ (proj1 (list_elem_of_In _ _) (by_kind_elem _ _ _ Ht))) as Hp.
      cbn [fst snd] in Hp. by rewrite Hm in Hp.
    - intros i f x Hf Hn Hraw Hx. by eapply union_not_null. }
  exists j. split; [done|]. split; [done|]. exists (TStruct fs), member.
  refine (conj Ht (conj Hm (conj (conj Hd He) (conj Hq (conj Hr (conj Hpay (conj Hu (conj _ (conj eq_refl (conj eq_refl eq_refl)))))))))).
  change (do_Kind _) with kind. destruct (decide (kind = str "VCS_REFERENCE")) as [Hk|Hk].
  - rewrite bool_decide_eq_true_2 by exact Hk. exact (Hc Hk).
  - rewrite bool_decide_eq_false_2 by exact Hk. exact I.
Qed.

(** Every value built from the generated types, its enums, sequence and nested union valid,
    survives the wire: its canonical bytes pass the strict decoder, which returns that very value. *)
Theorem CanonicalBytes_accepted kind t v seq raw idx :
  sendable kind t v seq -> CanonicalBytes t v = Some raw ->
  exists j s e, decode_raw raw = Some (j, []) /\ decodeObservation j idx = Ok (observation_of kind t v seq s e).
Proof.
  intros Hs Hraw. destruct (sendable_unions _ _ _ _ Hs) as (s&e&Hu).
  destruct (sent_accepted _ _ _ _ _ _ _ Hs Hu Hraw) as (j&Hj&_&Ha). exists j, s, e. split; [exact Hj|]. by apply accepted_observation.
Qed.

(** One canonical form per value: values of a generated type with the same canonical bytes (and so
    the same WAL payload and deduplication hash input) are equal. *)
Theorem CanonicalBytes_inj t v w raw :
  t ∈ wire.generated_types -> has_type t v -> has_type t w -> settled v -> settled w ->
  CanonicalBytes t v = Some raw -> CanonicalBytes t w = Some raw -> v = w.
Proof.
  intros Ht Hv Hw Hsv Hsw Ev Ew.
  assert (Hwt : wire_type t = true).
  { assert (H : forallb wire_type wire.generated_types = true) by (by vm_compute).
    apply (proj1 (forallb_forall _ _) H). by apply list_elem_of_In. }
  destruct (CanonicalBytes_reads true _ _ _ Hwt Hv Hsv Ev) as (j&Hj&_&_&Dj).
  destruct (CanonicalBytes_reads true _ _ _ Hwt Hw Hsw Ew) as (k&Hk&_&_&Dk).
  rewrite Hj in Hk. injection Hk as <-. rewrite Dj in Dk. by injection Dk.
Qed.

Lemma accepted_sendable raw o :
  canonical raw -> accepted raw o ->
  exists t, by_kind (do_Kind o) variant_types = Some t /\ sendable (do_Kind o) t (do_Variant o) (do_Sequence o)
    /\ unions_read (do_Kind o) t (do_Variant o) (do_RunStarted o) (do_RunEnded o)
    /\ o = observation_of (do_Kind o) t (do_Variant o) (do_Sequence o) (do_RunStarted o) (do_RunEnded o).
Proof.
  intros Hc (t&member&Et&Hm&[Hv He]&Hq&Hr&Hpay&Hb&Hvcs&Hid&Hctx&Hu). exists t.
  destruct (variant_facts _ _ Et) as (Hok&Hsole&fs&->).
  destruct (decode_as_settled true _ _ _ (variant_wire _ Hok) Hc Hv) as [Hty Hse].
  split; [done|]. split; [|split; [exact Hb|destruct o; cbn in *; by subst]].
  refine (conj Et (conj Hty (conj Hse (conj He (conj Hq (conj Hr (conj _ _))))))).
  - intros Hk. rewrite bool_decide_eq_true_2 in Hb by done. eauto.
  - intros Hk. by rewrite bool_decide_eq_true_2 in Hvcs.
Qed.

(** Re-encoding is stable: whatever the typed encoder writes for an accepted canonical payload is
    accepted again, as the same observation, so its hash identifies what was accepted. *)
Theorem accepted_reencodes raw idx o t c :
  canonical raw -> decodeObservation raw idx = Ok o ->
  by_kind (do_Kind o) variant_types = Some t -> CanonicalBytes t (do_Variant o) = Some c ->
  exists j, decode_raw c = Some (j, []) /\ canonical j /\ decodeObservation j idx = Ok o.
Proof.
  intros Hc Ho Ht Hb. destruct (accepted_sendable raw o Hc (observation_accepted _ _ _ Ho)) as (t'&Ht'&Hs&Hu&Eo).
  rewrite Ht in Ht'. injection Ht' as <-.
  destruct (sent_accepted _ _ _ _ _ _ _ Hs Hu Hb) as (j&Hj&Hjc&Ha). rewrite <-Eo in Ha.
  exists j. split; [exact Hj|]. split; [exact Hjc|]. by apply accepted_observation.
Qed.

(** ** A whole batch *)

Definition header_value (first last : bytes) (src : bytes) (obs : list json) : goval :=
  GStruct [GNum (str "1"); GStr src; GNum first; GNum last; GSlice (map GRaw obs)].

Lemma raw_slice_decodes obs : decode_into true (JArr obs) (TSlice TRaw) GNil = stored (GSlice (map GRaw obs)).
Proof.
  cbn [decode_into target elems_of]. rewrite dmap_id. change [] with (replicate 0 (zero TRaw)). rewrite (decode_elems_read _ _ _ (map GRaw obs)); [done|].
  induction obs as [|v obs IH]; cbn [map]; constructor; [by destruct v|exact IH].
Qed.

Definition header_fields : list gofield := match header_type with TStruct fs => fs | _ => [] end.

Definition header_index (name : String.string) (i : nat) : Prop := find_field header_fields (str name) = Some i.

Lemma header_decodes first last src obs :
  decode_as true header_type
    (JObj [(str "first_sequence", JNum first); (str "last_sequence", JNum last); (str "observations", JArr obs);
           (str "schema_version", JNum (str "1")); (str "source_id", JStr src)])
  = Ok (header_value first last src obs).
Proof.
  apply decode_as_struct. right. eexists _, _. split; [reflexivity|]. split; [reflexivity|].
  change [(str "SchemaVersion", str "schema_version", TNumber); _; _; _; _] with header_fields.
  assert (F : header_index "first_sequence" 2 /\ header_index "last_sequence" 3 /\ header_index "observations" 4
    /\ header_index "schema_version" 0 /\ header_index "source_id" 1) by (split_and!; vm_compute; reflexivity).
  unfold header_index in F. destruct F as (F1&F2&F3&F4&F5). cbn [decode_members map].
  rewrite F1, F2, F3, F4, F5. unfold header_fields, header_type.
  cbn [lookup list_lookup map go_type fst snd zero insert list_insert].
  assert (Hn : forall lit old, decode_into true (JNum lit) TNumber old = stored (GNum lit)) by reflexivity.
  assert (Hs : forall s old, decode_into true (JStr s) TString old = stored (GStr s)) by reflexivity.
  repeat first [rewrite Hn|rewrite Hs|rewrite raw_slice_decodes|rewrite dbind_stored
               |progress cbn [insert list_insert lookup list_lookup]].
  reflexivity.
Qed.

Lemma header_gets first last src obs :
  let h := header_value first last src obs in
  get header_type "SchemaVersion" h = GNum (str "1") /\ get header_type "SourceID" h = GStr src
  /\ get header_type "FirstSequence" h = GNum first /\ get header_type "LastSequence" h = GNum last
  /\ get header_type "Observations" h = GSlice (map GRaw obs).
Proof. split_and!; reflexivity. Qed.

Lemma decodeObservations_accepted obs os i : Forall2 accepted obs os -> decodeObservations obs i = Ok os.
Proof.
  intros H. revert i. induction H as [|v o obs os Hv _ IH]; intros i; cbn [decodeObservations]; [done|].
  rewrite (accepted_observation v i o Hv). cbn [mbind result_bind]. by rewrite IH.
Qed.

(** The body the endpoint sends is a batch the strict decoder accepts: with canonical payloads that
    are accepted observations, [EncodeBatchBody] produces a body that decodes to exactly those
    observations, their range and the source. *)
Theorem sent_batch_decodes src r recs vs os :
  1 <= FirstSequence r <= MaxInt64 -> 1 <= LastSequence r <= MaxInt64 ->
  Forall2 (fun rec v => canonical v /\ rec_Payload rec = writeCanonical v) recs vs -> Forall2 accepted vs os ->
  exists body, EncodeBatchBody src r recs = Ok body
    /\ DecodeObservationBatch body = Ok (mkBatch 1 (to_valid src) (FirstSequence r) (LastSequence r) os).
Proof.
  intros Hf Hl Hrec Hacc. unfold EncodeBatchBody.
  assert (Hm : mapM (fun rec => payload_value (rec_Payload rec)) recs = Some vs).
  { apply mapM_Some. eapply Forall2_impl; [exact Hrec|]. cbn. intros rec v [[Hw Hs] ->]. by rewrite payload_value_canonical, Hs. }
  rewrite Hm. eexists. split; [reflexivity|].
  assert (Hwf : Forall wf_json vs) by (eapply Forall2_Forall_r; [exact Hrec|]; apply Forall_forall; by intros rec _ v [[? _] _]).
  assert (Hso : map sorted_json vs = vs).
  { clear -Hrec. induction Hrec as [|rec v recs vs [[_ Hs] _] _ IH]; cbn; [done|]. by rewrite Hs, IH. }
  assert (Hb : wf_json (batch_value src r vs)) by (apply batch_value_wf; [lia|lia|done]).
  unfold DecodeObservationBatch, decode_header, strictDecode. rewrite (decode_raw_written _ Hb).
  assert (Hsb : sorted_json (batch_value src r vs) = JObj
    [(str "first_sequence", JNum (FormatInt (FirstSequence r))); (str "last_sequence", JNum (FormatInt (LastSequence r)));
     (str "observations", JArr vs); (str "schema_version", JNum (str "1")); (str "source_id", JStr (to_valid src))]).
  { cbn -[to_valid FormatInt]. by rewrite Hso. }
  rewrite Hsb, header_decodes. cbn [More skip_ws mbind result_bind].
  destruct (header_gets (FormatInt (FirstSequence r)) (FormatInt (LastSequence r)) (to_valid src) vs) as (-> & -> & -> & -> & ->).
  cbn [as_string as_slice]. change (ParseInt (str "1")) with (Some 1). cbv iota. change (1 =? SupportedSchemaVersion) with true. cbv iota.
  rewrite !(proj2 (parseSequence_Ok (FormatInt _) _ _)) by (split; [apply ParseInt_FormatInt; unfold in_i64, MaxInt64 in *; lia|lia]).
  cbn [mbind result_bind]. rewrite map_map, map_id. by rewrite (decodeObservations_accepted _ os).
Qed.

(** ** Examples and gaps *)

Definition demo_payload : bytes := js "{'captured_at':'2026-07-16T10:00:00.5Z','kind':'MESSAGE','message':{'role':'USER','token_count':12},'observation_id':'obs_1','occurred_at':'2026-07-16T10:00:00+02:00','provenance':{'adapter':'codex','adapter_version':'1','completeness':'COMPLETE','content_policy':'METADATA_ONLY','provider':'p'},'sequence':7}".

Definition demo_json : json := Eval vm_compute in default JNull (decode demo_payload).
Definition demo_message : goval := Eval vm_compute in
  match decode_as true wire.MessageObservation demo_json with Ok v => v | Err _ => GNil end.

Lemma demo_canonical : canonical demo_json.
Proof. split; [|by vm_compute]. apply (decode_valid demo_payload). by vm_compute. Qed.

Lemma demo_decodes : decode_as true wire.MessageObservation demo_json = Ok demo_message.
Proof. by vm_compute. Qed.

Lemma demo_typed : has_type wire.MessageObservation demo_message /\ settled demo_message.
Proof. apply (decode_as_settled true _ demo_json); [by vm_compute|apply demo_canonical|apply demo_decodes]. Qed.

Lemma demo_sendable : sendable (str "MESSAGE") wire.MessageObservation demo_message 7.
Proof.
  destruct demo_typed as [Ht Hs]. refine (conj _ (conj Ht (conj Hs (conj _ (conj _ (conj _ (conj _ _))))))).
  - reflexivity.
  - vm_compute. reflexivity.
  - reflexivity.
  - unfold MaxInt64. lia.
  - intros H. vm_compute in H. discriminate H.
  - intros H. vm_compute in H. discriminate H.
Qed.

Lemma CanonicalBytes_accepted_witness :
  exists raw j s e, CanonicalBytes wire.MessageObservation demo_message = Some raw /\ decode_raw raw = Some (j, [])
    /\ decodeObservation j 0 = Ok (observation_of (str "MESSAGE") wire.MessageObservation demo_message 7 s e).
Proof.
  destruct (CanonicalBytes wire.MessageObservation demo_message) as [raw|] eqn:E; [|vm_compute in E; discriminate E].
  destruct (CanonicalBytes_accepted (str "MESSAGE") wire.MessageObservation demo_message 7 raw 0 demo_sendable E) as (j&s&e&H1&H2).
  exists raw, j, s, e. exact (conj eq_refl (conj H1 H2)).
Defined.

Lemma CanonicalBytes_inj_witness :
  exists raw, CanonicalBytes wire.MessageObservation demo_message = Some raw /\ demo_message = demo_message.
Proof.
  destruct (CanonicalBytes wire.MessageObservation demo_message) as [raw|] eqn:E; [|vm_compute in E; discriminate E].
  exists raw. split; [reflexivity|]. destruct demo_typed as [Ht Hs].
  apply (CanonicalBytes_inj wire.MessageObservation demo_message demo_message raw); try assumption.
  apply (list_elem_of_lookup_2 _ 20%nat). reflexivity.
Defined.

Lemma accepted_reencodes_witness :
  exists o c j, decodeObservation demo_json 0 = Ok o /\ CanonicalBytes wire.MessageObservation (do_Variant o) = Some c
    /\ decode_raw c = Some (j, []) /\ decodeObservation j 0 = Ok o.
Proof.
  destruct (decodeObservation demo_json 0) as [o|e] eqn:E; [|vm_compute in E; discriminate E].
  assert (Ev : do_Kind o = str "MESSAGE" /\ do_Variant o = demo_message)
    by (vm_compute in E; injection E as <-; split; vm_compute; reflexivity).
  destruct Ev as [Ek Ev].
  destruct (CanonicalBytes wire.MessageObservation (do_Variant o)) as [c|] eqn:Ec; [|rewrite Ev in Ec; vm_compute in Ec; discriminate Ec].
  assert (Et : by_kind (do_Kind o) variant_types = Some wire.MessageObservation) by (rewrite Ek; reflexivity).
  destruct (accepted_reencodes demo_json 0 o _ c demo_canonical E Et Ec) as (j&Hj&_&Hd).
  exists o, c, j. exact (conj eq_refl (conj Ec (conj Hj Hd))).
Defined.

(** A header whose numbers are quoted is accepted: [json.Number] takes a string that is a number. *)
Theorem quoted_header_accepted :
  DecodeObservationBatch (js "{'schema_version':'1','source_id':'s','first_sequence':'1','last_sequence':'2','observations':[]}")
  = Ok (mkBatch 1 (str "s") 1 2 []).
Proof. vm_compute. reflexivity. Qed.

(** A closing bracket after the batch is not trailing data. *)
Theorem trailing_bracket_accepted :
  DecodeObservationBatch (js "{'schema_version':1,'source_id':'s','first_sequence':1,'last_sequence':2,'observations':[]} ] junk")
  = Ok (mkBatch 1 (str "s") 1 2 []).
Proof. vm_compute. reflexivity. Qed.

Definition misread_observation : json := Eval vm_compute in default JNull (decode (js
  "{'kind':'MESSAGE','message':{'role':'USER'},'occurred_at':'unknown field','sequence':7}")).

(** A malformed timestamp is reported as an unknown field when its text says so. *)
Theorem timestamp_misclassified :
  decodeObservation misread_observation 0 = Err (decodeErr ErrUnknownField (str "observations[0]")).
Proof. vm_compute. reflexivity. Qed.

(** The demo observation without its [observation_id], and with an empty one. *)
Definition anonymous_observation : json := Eval vm_compute in
  match demo_json with JObj m => JObj (filter (fun kv => kv.1 <> str "observation_id") m) | v => v end.
Definition blank_observation : json := Eval vm_compute in
  match demo_json with JObj m => JObj (map (fun kv => if bool_decide (kv.1 = str "observation_id") then (kv.1, JStr []) else kv) m) | v => v end.

(** Absent required strings and times are filled with zero values, so different payloads are one
    observation with one canonical form. *)
Theorem absent_member_accepted :
  anonymous_observation <> blank_observation
  /\ decodeObservation anonymous_observation 0 = decodeObservation blank_observation 0
  /\ is_ok (decodeObservation anonymous_observation 0) = true.
Proof. split; [discriminate|]. split; vm_compute; reflexivity. Qed.

Definition far_observation : json := Eval vm_compute in
  match demo_json with
  | JObj m => JObj (map (fun kv => if bool_decide (kv.1 = str "occurred_at") then (kv.1, JStr (str "2026-07-16T10:00:00+24:00")) else kv) m)
  | v => v
  end.

(** A zone offset of 24 hours is accepted but has no canonical bytes. *)
Theorem accepted_without_canonical_bytes :
  exists o, decodeObservation far_observation 0 = Ok o /\ CanonicalBytes wire.MessageObservation (do_Variant o) = None.
Proof.
  assert (H : match decodeObservation far_observation 0 with
              | Ok o => CanonicalBytes wire.MessageObservation (do_Variant o) | Err _ => Some [] end = None) by (vm_compute; reflexivity).
  destruct (decodeObservation far_observation 0) as [o|e]; [|discriminate H]. by exists o.
Qed.

Lemma sent_batch_decodes_witness :
  exists o body, decodeObservation demo_json 0 = Ok o
    /\ EncodeBatchBody (str "src_1") (mkRange 7 7) [mkRecord 7 (writeCanonical demo_json)] = Ok body
    /\ DecodeObservationBatch body = Ok (mkBatch 1 (str "src_1") 7 7 [o]).
Proof.
  destruct (decodeObservation demo_json 0) as [o|e] eqn:E; [|vm_compute in E; discriminate E].
  destruct (sent_batch_decodes (str "src_1") (mkRange 7 7) [mkRecord 7 (writeCanonical demo_json)] [demo_json] [o])
    as (body&H1&H2).
  - unfold MaxInt64. cbn. lia.
  - unfold MaxInt64. cbn. lia.
  - constructor; [|constructor]. split; [exact demo_canonical|reflexivity].
  - constructor; [|constructor]. exact (observation_accepted _ _ _ E).
  - exists o, body. exact (conj eq_refl (conj H1 H2)).
Defined.
