(* ===== verification/GoLit.v ===== *)
(** * Composite literals and what becomes of a value on the wire

    [lit] is a Go composite literal [T{Name: value, ...}] of a generated type: the fields it does not
    name are zero. [settle] is what a value is after it has been encoded and read back: strings coerced
    to valid UTF-8, unions canonical. A [good] value (typed, its enums in range, its unions well formed)
    of a kind's variant can be sent ([Sendable.sendable]) once settled, and has the same bytes. *)

From S2P Require Import Prelude GoStrings GoTime Json JsonText GoJson MemberOrder WireTypes StrictDecode Sendable.

(** ** Literals *)

Abbreviation named := (list (String.string * goval)).

Definition field_value (fields : named) (f : gofield) : goval :=
  match list_find (fun nv => str nv.1 = go_name f) fields with Some (_, nv) => nv.2 | None => zero (go_type f) end.

Definition lit (t : gotype) (fields : named) : goval :=
  match t with TStruct fs => GStruct (map (field_value fields) fs) | _ => zero t end.

Definition field_type (t : gotype) (name : String.string) : option gotype :=
  match t with TStruct fs => (fun f => go_type f.2) <$> field_at fs name | _ => None end.

(** [opt_value enc o]: an optional field as the pointer the generated types have. *)
Definition opt_value {A} (enc : A -> goval) (o : option A) : goval := match o with Some a => GPtr (enc a) | None => GNil end.

Lemma fits_in_i64 z : in_i64 z -> fits 64 z = true.
Proof. intros H. unfold fits. change (2 ^ (64 - 1)) with (2 ^ 63). unfold in_i64, MaxInt64 in H. by rewrite (proj2 (Z.leb_le _ _)), (proj2 (Z.ltb_lt _ _)) by lia. Qed.

(** An optional field in range, for the two predicates reading back needs. *)
Lemma opt_typed {A} (enc : A -> goval) t o : (forall a, o = Some a -> has_type t (enc a)) -> has_type (TPtr t) (opt_value enc o).
Proof. destruct o as [a|]; [|done]. intros H. by apply H. Qed.

Lemma opt_kept {A} back (enc : A -> goval) o :
  (forall a, enc a <> GNil) -> (forall a, o = Some a -> kept back (enc a)) -> kept back (opt_value enc o).
Proof. destruct o as [a|]; [|done]. intros Hn H. split; [apply Hn|by apply H]. Qed.

Lemma fits_u64 z : 0 <= z < 2 ^ 64 -> ufits 64 z = true.
Proof. intros H. unfold ufits. by rewrite (proj2 (Z.leb_le _ _)), (proj2 (Z.ltb_lt _ _)) by lia. Qed.

(** ** Settling *)

Fixpoint settle (v : goval) : goval :=
  match v with
  | GStr s => GStr (to_valid s)
  | GRaw j => GRaw (sorted_json j)
  | GPtr v => GPtr (settle v)
  | GSlice l => GSlice (map settle l)
  | GStruct l => GStruct (map settle l)
  | _ => v
  end.

(** A union's JSON: canonical, and no two members equal up to case. *)
Definition tidy (j : json) : Prop := canonical j /\ distinct_members j.

(** Unions hold such JSON, no pointer is to nil and every time can be written. *)
Fixpoint solid (v : goval) : Prop :=
  match v with
  | GTime t => is_Some (formatRFC3339 t)
  | GRaw j => tidy j
  | GPtr v => v <> GNil /\ solid v
  | GSlice l => (fix go l := match l with [] => True | v :: l => solid v /\ go l end) l
  | GStruct l => (fix go l := match l with [] => True | v :: l => solid v /\ go l end) l
  | _ => True
  end.

Lemma solid_all l : (fix go l := match l with [] => True | v :: l => solid v /\ go l end) l <-> Forall solid l.
Proof. induction l as [|v l IH]; [done|]. rewrite Forall_cons. by rewrite IH. Qed.

Lemma solid_slice l : solid (GSlice l) <-> Forall solid l.
Proof. apply solid_all. Qed.

Lemma solid_struct l : solid (GStruct l) <-> Forall solid l.
Proof. apply solid_all. Qed.

(** Enum members are ASCII. *)
Fixpoint plain_enums (t : gotype) : bool :=
  match t with
  | TEnum _ valid => forallb (forallb plain) valid
  | TPtr t | TSlice t | TArray _ t => plain_enums t
  | TStruct fs => forallb (fun f => plain_enums f.2) fs
  | _ => true
  end.

Lemma settle_not_nil v : v <> GNil -> settle v <> GNil.
Proof. by destruct v. Qed.

Lemma settle_typed t v : has_type t v -> has_type t (settle v).
Proof.
  revert v. induction t as [|bits|bits| | | | | |n l|t IH|t IH|n t IH|fs IH] using gotype_induction; intros v Ht;
    destruct v as [|s|z|b|tm|lt|w|v|l'|vs]; try (by destruct Ht); cbn [settle]; try exact Ht.
  - by apply IH.
  - cbn [has_type] in *. apply Forall_fmap. eapply Forall_impl; [exact Ht|]. exact IH.
  - cbn [has_type] in *. destruct Ht as [Hl Ht]. split; [by rewrite length_map|]. apply Forall_fmap. eapply Forall_impl; [exact Ht|]. exact IH.
  - apply has_type_struct in Ht. apply has_type_struct. unfold fields_typed in *.
    revert vs Ht. induction IH as [|f fs Hf _ IHfs]; intros vs Ht; inversion Ht; subst; constructor; [by apply Hf|by apply IHfs].
Qed.

Lemma settle_settled t v : has_type t v -> solid v -> settled (settle v).
Proof.
  revert v. induction t as [|bits|bits| | | | | |n l|t IH|t IH|n t IH|fs IH] using gotype_induction; intros v Ht Hs;
    destruct v as [|s|z|b|tm|lt|w|v|l'|vs]; try (by destruct Ht); cbn [settle kept]; try exact I.
  - apply to_valid_valid.
  - destruct Hs as [[Hs _] _]. split; [by rewrite <-(same_sorted w)|by apply sorted_json_idemp].
  - destruct Hs as [[Hs _] _]. split; [by rewrite <-(same_sorted w)|by apply sorted_json_idemp].
  - apply to_valid_valid.
  - destruct Hs as [Hn Hs]. split; [by apply settle_not_nil|by apply IH].
  - apply solid_slice in Hs. cbn [has_type] in Ht. apply kept_all, Forall_fmap. rewrite Forall_forall in *. auto.
  - apply solid_slice in Hs. destruct Ht as [_ Ht]. apply kept_all, Forall_fmap. rewrite Forall_forall in *. auto.
  - apply solid_struct in Hs. apply has_type_struct in Ht. unfold fields_typed in Ht. apply kept_all, Forall_fmap.
    revert vs Ht Hs. induction IH as [|f fs Hf _ IHfs]; intros vs Ht Hs; inversion Ht; subst; [constructor|].
    apply Forall_cons in Hs as [? ?]. constructor; [by apply Hf|by apply IHfs].
Qed.

Lemma settle_enums t v : plain_enums t = true -> enums_valid t v = true -> enums_valid t (settle v) = true.
Proof.
  revert v. induction t as [|bits|bits| | | | | |n l|t IH|t IH|n t IH|fs IH] using gotype_induction; intros v Hp He;
    destruct v as [|s|z|b|tm|lt|w|v|l'|vs]; cbn [settle enums_valid plain_enums] in *; try done.
  - apply bool_decide_eq_true_1 in He. apply bool_decide_eq_true_2. rewrite forallb_forall in Hp.
    rewrite to_valid_id; [done|]. apply plain_utf8, Hp. by apply list_elem_of_In.
  - by apply IH.
  - rewrite forallb_forall in He. apply forallb_forall. intros x (y&<-&Hy)%in_map_iff. apply IH; [done|by apply He].
  - rewrite forallb_forall in He. apply forallb_forall. intros x (y&<-&Hy)%in_map_iff. apply IH; [done|by apply He].
  - revert vs He. induction IH as [|f fs Hf _ IHfs]; intros [|v vs] He; try done. cbn [forallb map] in *.
    apply andb_prop in Hp as [Hp1 Hp2]. apply andb_prop in He as [He1 He2]. apply andb_true_intro. split; [by apply Hf|by apply IHfs].
Qed.

Lemma omitted_settle t v : omitted t (settle v) = omitted t v.
Proof. by destruct t, v. Qed.

Lemma to_valid_twice s : to_valid (to_valid s) = to_valid s.
Proof. apply to_valid_id, to_valid_valid. Qed.

Lemma marshal_settle_elems t l :
  (forall v, has_type t v -> solid v -> option_map sorted_json (marshal t (settle v)) = option_map sorted_json (marshal t v)) ->
  Forall (has_type t) l -> Forall solid l ->
  option_map sorted_json (JArr <$> mapM (marshal t) (map settle l)) = option_map sorted_json (JArr <$> mapM (marshal t) l).
Proof.
  intros IH Ht Hs. assert (H : option_map (map sorted_json) (mapM (marshal t) (map settle l)) = option_map (map sorted_json) (mapM (marshal t) l)).
  { induction l as [|v l IHl]; [done|]. apply Forall_cons in Ht as [? ?]. apply Forall_cons in Hs as [? ?].
    cbn [map mapM]. pose proof (IH v) as Hv. specialize (IHl ltac:(done) ltac:(done)).
    destruct (marshal t (settle v)), (marshal t v), (mapM _ (map settle l)), (mapM _ l); cbn in *; simplify_eq; try done;
      specialize (Hv ltac:(done) ltac:(done)); simplify_eq; congruence. }
  destruct (mapM _ (map settle l)), (mapM _ l); cbn in *; simplify_eq; congruence.
Qed.

(** Settled or not, a value is marshalled to the same JSON up to the order of members. *)
Lemma marshal_settle t v :
  has_type t v -> solid v -> option_map sorted_json (marshal t (settle v)) = option_map sorted_json (marshal t v).
Proof.
  revert v. induction t as [|bits|bits| | | | | |n l|t IH|t IH|n t IH|fs IH] using gotype_induction; intros v Ht Hs;
    destruct v as [|s|z|b|tm|lt|w|v|l'|vs]; try (by destruct Ht); cbn [settle marshal]; try done.
  - cbn. by rewrite to_valid_twice.
  - destruct Hs as [[_ ->] _]. done.
  - destruct Hs as [[_ ->] _]. done.
  - cbn. by rewrite to_valid_twice.
  - destruct Hs as [_ Hs]. by apply IH.
  - apply solid_slice in Hs. by apply marshal_settle_elems.
  - apply solid_slice in Hs. destruct Ht as [_ Ht]. by apply marshal_settle_elems.
  - apply solid_struct in Hs. apply has_type_struct in Ht. unfold fields_typed in Ht.
    set (sorted_fields := map (fun kv : bytes * json => (kv.1, sorted_json kv.2))).
    assert (H : option_map sorted_fields (marshal_fields marshal fs (map settle vs)) = option_map sorted_fields (marshal_fields marshal fs vs)).
    { revert vs Ht Hs. induction IH as [|f fs Hf _ IHfs]; intros vs Ht Hs; inversion Ht as [|? v ? vs' Hv Hvs]; subst; [done|].
      apply Forall_cons in Hs as [Hs1 Hs2]. cbn [map marshal_fields]. rewrite omitted_settle.
      specialize (IHfs _ Hvs Hs2). destruct (omitted _ _); [done|]. specialize (Hf v Hv Hs1).
      destruct (marshal f.2 (settle v)), (marshal f.2 v), (marshal_fields _ _ (map settle vs')), (marshal_fields _ _ vs');
        cbn in *; simplify_eq; try done. congruence. }
    destruct (marshal_fields marshal fs (map settle vs)), (marshal_fields marshal fs vs); cbn in *; simplify_eq; [|done].
    do 3 f_equal. done.
Qed.

Lemma get_settle t name v : get t name (settle v) = settle (get t name v).
Proof.
  destruct t, v; try done. cbn. destruct (index_of _ _) as [i|]; [|done].
  change (map settle fields0) with (settle <$> fields0). rewrite list_lookup_fmap. by destruct (_ !! i).
Qed.

(** ** Good values *)

Definition good (t : gotype) (v : goval) : Prop := has_type t v /\ solid v /\ enums_valid t v = true.

Lemma good_nil t : good (TPtr t) GNil.
Proof. done. Qed.

Lemma good_ptr t v : v <> GNil -> good t v -> good (TPtr t) (GPtr v).
Proof. by intros Hn (?&?&?). Qed.

Lemma good_opt {A} (enc : A -> goval) t o :
  (forall a, enc a <> GNil) -> (forall a, o = Some a -> good t (enc a)) -> good (TPtr t) (opt_value enc o).
Proof. intros Hn H. destruct o as [a|]; [|apply good_nil]. apply good_ptr; [apply Hn|by apply H]. Qed.

Lemma good_string s : good TString (GStr s).
Proof. done. Qed.

Lemma good_int bits z : 0 < bits <= 64 -> fits bits z = true -> good (TInt bits) (GInt z).
Proof.
  intros Hb Hf. split; [|done]. split; [done|]. unfold fits in Hf. bool_to_prop.
  assert (2 ^ (bits - 1) <= 2 ^ 63) by (apply Z.pow_le_mono_r; lia). unfold in_i64, MaxInt64. lia.
Qed.

Lemma good_time t : wf_time t -> is_Some (formatRFC3339 t) -> good TTime (GTime t).
Proof. done. Qed.

Lemma good_enum n valid s : s ∈ valid -> good (TEnum n valid) (GStr s).
Proof. intros H. split; [done|]. split; [done|]. by apply bool_decide_eq_true_2. Qed.

Lemma good_raw j : tidy j -> good TRaw (GRaw j).
Proof. done. Qed.

Lemma good_slice t l : Forall (good t) l -> good (TSlice t) (GSlice l).
Proof.
  intros H. split; [|split].
  - cbn. eapply Forall_impl; [exact H|]. by intros v (?&_).
  - apply solid_slice. eapply Forall_impl; [exact H|]. by intros v (_&?&_).
  - cbn [enums_valid]. apply forallb_forall. intros v Hv%list_elem_of_In. rewrite Forall_forall in H. by destruct (H v Hv) as (_&_&?).
Qed.

Lemma good_struct fs vs : Forall2 (fun f v => good (go_type f) v) fs vs -> good (TStruct fs) (GStruct vs).
Proof.
  intros H. split; [|split].
  - apply has_type_struct. eapply Forall2_impl; [exact H|]. by intros f v (?&_).
  - apply solid_struct. eapply Forall2_Forall_r; [exact H|]. apply Forall_forall. by intros f _ v (_&?&_).
  - cbn [enums_valid]. induction H as [|f v fs vs (_&_&Hv) _ IH]; [done|]. apply andb_true_intro. split; [exact Hv|exact IH].
Qed.

(** The fields a literal leaves out may be zero: no enum of theirs is. *)
Definition rest_good (t : gotype) (given : list String.string) : bool :=
  match t with
  | TStruct fs =>
      forallb (fun f => existsb (fun n => bool_decide (str n = go_name f)) given
                        || enums_valid (go_type f) (zero (go_type f))) fs && ints_ok t
  | _ => false
  end.

Lemma solid_zero t : solid (zero t).
Proof.
  induction t as [| | | | | | | | |t IH|t IH|n t IH|fs IH] using gotype_induction; try done; [by eexists|by apply solid_slice, Forall_replicate|].
  cbn [zero]. apply solid_struct, Forall_fmap.
  eapply Forall_impl; [exact IH|]. done.
Qed.

(** Such a value of a generated type can be marshalled. *)
Lemma marshal_total t v : wire_type t = true -> has_type t v -> solid v -> is_Some (marshal t v).
Proof.
  revert v. induction t as [|bits|bits| | | | | |n l|t IH|t IH|n t IH|fs IH] using gotype_induction; intros v Hw Ht Hs;
    destruct v as [|s|z|b|tm|lt|w|v|l'|vs]; try (by destruct Ht); cbn [marshal]; try (by eexists); try discriminate Hw.
  - destruct Hs as [s ->]. by eexists.
  - cbn [wire_type] in Hw. apply andb_prop in Hw as [_ Hw]. destruct Hs. by apply IH.
  - apply solid_slice in Hs. cbn [has_type wire_type] in Ht, Hw.
    assert (H : is_Some (mapM (marshal t) l')); [|destruct H as [js ->]; by eexists].
    apply mapM_is_Some. rewrite Forall_forall in *. auto.
  - apply solid_slice in Hs. cbn [wire_type] in Hw. destruct Ht as [_ Ht].
    assert (H : is_Some (mapM (marshal t) l')); [|destruct H as [js ->]; by eexists].
    apply mapM_is_Some. rewrite Forall_forall in *. auto.
  - apply solid_struct in Hs. apply has_type_struct in Ht. unfold fields_typed in Ht. cbn [wire_type] in Hw.
    apply andb_prop in Hw as [_ Hw].
    assert (H : is_Some (marshal_fields marshal fs vs)); [|destruct H as [m ->]; by eexists].
    revert vs Ht Hs. induction IH as [|f fs Hf _ IHfs]; intros vs Ht Hs; inversion Ht as [|? v ? vs' Hv Hvs]; subst; [by eexists|].
    apply Forall_cons in Hs as [Hs1 Hs2]. cbn [forallb] in Hw. apply andb_prop in Hw as [Hw1 Hw2]. cbn [marshal_fields].
    destruct (IHfs Hw2 _ Hvs Hs2) as [m Hm]. rewrite Hm. destruct (omitted _ _); [by eexists|].
    destruct (Hf v Hw1 Hv Hs1) as [j ->]. by eexists.
Qed.

(** Go names are distinct in a descriptor. *)
Definition go_names_distinct (t : gotype) : bool := match t with TStruct fs => bool_decide (NoDup (go_name <$> fs)) | _ => true end.

Lemma field_at_go_name fs name i f : field_at fs name = Some (i, f) -> fs !! i = Some f /\ go_name f = str name.
Proof.
  unfold field_at. intros (j&Hj&H)%bind_Some. apply bind_Some in H as (g&Hg&[= -> ->]). split; [done|].
  apply index_of_Some in Hj as (x&Hx&E). apply bool_decide_eq_true_1 in E. congruence.
Qed.

Lemma good_lit t fields :
  go_names_distinct t = true -> rest_good t (fields.*1) = true ->
  Forall (fun nv => exists ft, field_type t nv.1 = Some ft /\ good ft nv.2) fields -> good t (lit t fields).
Proof.
  destruct t as [| | | | | | | | | | | |fs]; try done. intros Hd Hr Hf. cbn [go_names_distinct] in Hd. apply bool_decide_eq_true_1 in Hd.
  unfold rest_good in Hr. apply andb_prop in Hr as [Hr Hi]. rewrite forallb_forall in Hr. cbn [ints_ok] in Hi. rewrite forallb_forall in Hi.
  apply good_struct. cbn [lit]. apply Forall2_fmap_r, Forall_Forall2_diag, Forall_forall. intros f Hin.
  unfold compose, field_value. destruct (list_find (fun nv => str nv.1 = go_name f) fields) as [[i nv]|] eqn:E.
  - apply list_find_Some in E as (Hnv&Hn&_). rewrite Forall_forall in Hf.
    destruct (Hf nv) as (ft&Hft&Hg); [by eapply list_elem_of_lookup_2|]. unfold field_type in Hft.
    apply fmap_Some in Hft as ([j g]&Hj&->). apply field_at_go_name in Hj as [Hj Hname]. cbn [snd].
    apply list_elem_of_lookup in Hin as [k Hk]. assert (j = k) as ->.
    { eapply (NoDup_lookup _ _ _ _ Hd); rewrite list_lookup_fmap; [rewrite Hj|rewrite Hk]; cbn; f_equal. congruence. }
    rewrite Hk in Hj. injection Hj as <-. exact Hg.
  - apply list_find_None in E. pose proof (Hr f (proj1 (list_elem_of_In _ _) Hin)) as H. apply orb_prop in H as [H|H].
    + apply existsb_exists in H as (n&Hn&Eq). apply bool_decide_eq_true_1 in Eq. apply list_elem_of_In, list_elem_of_fmap in Hn as (nv&->&Hnv).
      rewrite Forall_forall in E. by destruct (E nv Hnv).
    + split; [|split; [apply solid_zero|done]]. apply zero_typed. apply (Hi f). by apply list_elem_of_In.
Qed.

(** ** Members in order *)

(** The generated structs list their members in the order of the member names. *)
Fixpoint ascending (l : list bytes) : bool :=
  match l with a :: (b :: _) as r => bytes_leb a b && ascending r | _ => true end.

Fixpoint sorted_type (t : gotype) : bool :=
  match t with
  | TPtr t | TSlice t | TArray _ t => sorted_type t
  | TStruct fs => ascending (json_name <$> fs) && forallb (fun f => sorted_type f.2) fs
  | _ => true
  end.

Lemma ascending_sorted l : ascending l = true -> StronglySorted bytes_le l.
Proof.
  intros H. apply Sorted_StronglySorted; [apply _|]. induction l as [|a l IH]; [constructor|].
  cbn in H. destruct l as [|b l]; [repeat constructor|]. apply andb_prop in H as [Hab H]. constructor; [by apply IH|by constructor].
Qed.

Lemma sublist_sorted {A} (R : A -> A -> Prop) l k : sublist l k -> StronglySorted R k -> StronglySorted R l.
Proof.
  induction 1 as [|x l k Hs IH|x l k Hs IH]; intros H; [constructor|..]; inversion H as [|? ? Hk Hf]; subst; [|by apply IH].
  constructor; [by apply IH|]. rewrite Forall_forall in *. intros y Hy. apply Hf. by eapply elem_of_sublist.
Qed.

Lemma marshalled_elems_sorted t l js :
  (forall v j, sorted_type t = true -> has_type t v -> solid v -> marshal t v = Some j -> sorted_json j = j) ->
  sorted_type t = true -> Forall (has_type t) l -> Forall solid l -> Forall2 (fun v j => marshal t v = Some j) l js -> map sorted_json js = js.
Proof.
  intros IH Ho Ht Hs Hj. induction Hj as [|g w l js Hgw _ IHl]; [done|]. apply Forall_cons in Ht as [? ?]. apply Forall_cons in Hs as [? ?].
  cbn [map]. rewrite (IH g w) by done. by rewrite IHl.
Qed.

(** So what is marshalled from a value is its own canonical value. *)
Lemma marshal_sorted t v j : sorted_type t = true -> has_type t v -> solid v -> marshal t v = Some j -> sorted_json j = j.
Proof.
  revert v j. induction t as [|bits|bits| | | | | |n l|t IH|t IH|n t IH|fs IH] using gotype_induction; intros v j Ho Ht Hs Hm;
    destruct v as [|s|z|b|tm|lt|w|v|l'|vs]; try (by destruct Ht); cbn [marshal sorted_type] in *; try (by injection Hm as <-).
  - by apply fmap_Some in Hm as (s&_&->).
  - destruct (bool_decide _); [by injection Hm as <-|]. destruct (is_number lt); [by injection Hm as <-|done].
  - injection Hm as <-. apply Hs.
  - injection Hm as <-. apply Hs.
  - destruct Hs. by eapply IH.
  - apply fmap_Some in Hm as (js&Hj%mapM_Some&->). apply solid_slice in Hs. cbn. f_equal. by eapply marshalled_elems_sorted.
  - apply fmap_Some in Hm as (js&Hj%mapM_Some&->). apply solid_slice in Hs. destruct Ht as [_ Ht]. cbn. f_equal. by eapply marshalled_elems_sorted.
  - apply fmap_Some in Hm as (m&Hm&->). apply andb_prop in Ho as [Ho Hf]. apply has_type_struct in Ht. apply solid_struct in Hs. cbn [sorted_json].
    rewrite sort_fields_map, sort_fields_id.
    + f_equal. rewrite forallb_forall in Hf. rewrite <-(list_fmap_id m) at 2. apply list_fmap_ext. intros i [k w] Hi.
      apply list_elem_of_lookup_2 in Hi. destruct (marshal_fields_elem _ _ _ _ _ Hm Hi) as (q&f&g&Hfq&Hg&Hk&He&_). cbn [fst snd] in *. unfold id.
      f_equal. apply (Forall_lookup_1 _ _ _ _ IH Hfq g); [|by eapply Forall2_lookup_lr in Ht|by eapply Forall_lookup_1 in Hs|done].
      apply Hf, list_elem_of_In. by eapply list_elem_of_lookup_2.
    + eapply sublist_sorted; [by eapply marshal_fields_names|]. by apply ascending_sorted.
Qed.

(** No two members of a generated struct are equal up to case. *)
Fixpoint distinct_type (t : gotype) : bool :=
  match t with
  | TPtr t | TSlice t | TArray _ t => distinct_type t
  | TStruct fs => distinct_fields fs && forallb (fun f => distinct_type f.2) fs
  | _ => true
  end.

Lemma marshalled_elems_distinct t l js :
  (forall v j, distinct_type t = true -> has_type t v -> solid v -> marshal t v = Some j -> distinct_members j) ->
  distinct_type t = true -> Forall (has_type t) l -> Forall solid l -> Forall2 (fun v j => marshal t v = Some j) l js -> Forall distinct_members js.
Proof.
  intros IH Ho Ht Hs Hj. induction Hj as [|g w l js Hgw _ IHl]; [constructor|]. apply Forall_cons in Ht as [? ?]. apply Forall_cons in Hs as [? ?].
  constructor; [by eapply IH|by apply IHl].
Qed.

Lemma marshal_distinct t v j : distinct_type t = true -> has_type t v -> solid v -> marshal t v = Some j -> distinct_members j.
Proof.
  revert v j. induction t as [|bits|bits| | | | | |n l|t IH|t IH|n t IH|fs IH] using gotype_induction; intros v j Ho Ht Hs Hm;
    destruct v as [|s|z|b|tm|lt|w|v|l'|vs]; try (by destruct Ht); cbn [marshal distinct_type] in *; try (by injection Hm as <-).
  - by apply fmap_Some in Hm as (s&_&->).
  - destruct (bool_decide _); [by injection Hm as <-|]. destruct (is_number lt); [by injection Hm as <-|done].
  - injection Hm as <-. apply Hs.
  - injection Hm as <-. apply Hs.
  - destruct Hs. by eapply IH.
  - apply fmap_Some in Hm as (js&Hj%mapM_Some&->). apply distinct_arr. apply solid_slice in Hs. by eapply marshalled_elems_distinct.
  - apply fmap_Some in Hm as (js&Hj%mapM_Some&->). apply distinct_arr. apply solid_slice in Hs. destruct Ht as [_ Ht]. by eapply marshalled_elems_distinct.
  - apply fmap_Some in Hm as (m&Hm&->). apply andb_prop in Ho as [Ho Hf]. apply has_type_struct in Ht. apply solid_struct in Hs.
    apply bool_decide_eq_true_1 in Ho. apply distinct_obj. split.
    + change (map (fun kv => foldName kv.1) m) with ((fun kv : bytes * json => foldName kv.1) <$> m).
      assert (E : (fun kv : bytes * json => foldName kv.1) <$> m = foldName <$> m.*1) by by rewrite <-list_fmap_compose.
      rewrite E. eapply sublist_NoDup; [|eapply fmap_sublist; by eapply marshal_fields_names].
      by rewrite <-list_fmap_compose.
    + apply Forall_forall. intros kv Hi. destruct (marshal_fields_elem _ _ _ _ _ Hm Hi) as (q&f&g&Hfq&Hg&Hk&He&_).
      rewrite forallb_forall in Hf. apply (Forall_lookup_1 _ _ _ _ IH Hfq g); [|by eapply Forall2_lookup_lr in Ht|by eapply Forall_lookup_1 in Hs|done].
      apply Hf, list_elem_of_In. by eapply list_elem_of_lookup_2.
Qed.

Lemma variants_sorted : forallb (fun kv => sorted_type kv.2 && distinct_type kv.2) variant_types = true.
Proof. vm_compute. reflexivity. Qed.

Lemma variant_sorted kind t : by_kind kind variant_types = Some t -> sorted_type t = true /\ distinct_type t = true.
Proof.
  intros H%by_kind_elem. pose proof variants_sorted as Hs. rewrite forallb_forall in Hs. apply andb_prop, (Hs (kind, t)). by apply list_elem_of_In.
Qed.

(** ** From good to sendable *)

(** A good value's encoding is well-formed JSON that decodes to the settled value. *)
Lemma good_marshal strict t v j :
  wire_type t = true -> plain_enums t = true -> good t v -> marshal t v = Some j ->
  wf_json j /\ decode_as strict t (sorted_json j) = Ok (settle v) /\ enums_valid t (settle v) = true.
Proof.
  intros Hw Hp (Ht&Hs&He) Hj. pose proof (marshal_settle t v Ht Hs) as E. rewrite Hj in E.
  destruct (marshal t (settle v)) as [j'|] eqn:Hj'; [|done]. cbn in E. injection E as E.
  pose proof (settle_typed t v Ht) as Ht'. pose proof (settle_settled t v Ht Hs) as Hs'.
  pose proof (marshal_wf _ _ _ Hw Ht' Hs' Hj') as Hwf. split; [|split].
  - rewrite (same_sorted j), <-E, <-(same_sorted j'). exact Hwf.
  - unfold decode_as. rewrite <-E. by rewrite (marshal_reads canonical_writer strict t _ _ Hw Ht' Hs' Hj').
  - by apply settle_enums.
Qed.

Lemma good_bytes t v :
  wire_type t = true -> plain_enums t = true -> good t v -> CanonicalBytes t (settle v) = CanonicalBytes t v.
Proof.
  intros Hw Hp Hg. pose proof Hg as (Ht&Hs&_). pose proof (marshal_settle t v Ht Hs) as E. unfold CanonicalBytes.
  destruct (marshal t v) as [j|] eqn:Hj, (marshal t (settle v)) as [j'|] eqn:Hj'; cbn in *; try done.
  injection E as E. f_equal. destruct (good_marshal true t v j Hw Hp Hg Hj) as (Hwf&_).
  pose proof (marshal_wf _ _ _ Hw (settle_typed t v Ht) (settle_settled t v Ht Hs) Hj') as Hwf'.
  rewrite <-(written_sorted j), <-(written_sorted j') by done. by rewrite E.
Qed.

(** A good value of a kind's variant, its unions valid, is sendable as what it settles to. *)
Lemma good_sendable kind t v seq :
  by_kind kind variant_types = Some t -> plain_enums t = true -> good t v ->
  get t "Sequence" v = GInt seq -> 1 <= seq <= MaxInt64 ->
  (kind = str "RUN_BOUNDARY" -> exists s e, boundary_valid (sorted_json (as_raw (get t "RunBoundary" v))) s e) ->
  (kind = str "VCS_REFERENCE" -> vcs_valid (sorted_json (as_raw (get t "VcsReference" v)))) ->
  sendable kind t (settle v) seq.
Proof.
  intros Hk Hp (Ht&Hs&He) Hq Hr Hb Hc. unfold sendable. rewrite !get_settle, Hq.
  assert (Hraw : forall g, as_raw (settle g) = sorted_json (as_raw g)) by (by intros []).
  refine (conj Hk (conj (settle_typed _ _ Ht) (conj (settle_settled _ _ Ht Hs) (conj (settle_enums _ _ Hp He)
    (conj eq_refl (conj Hr (conj _ _))))))).
  - intros E. rewrite Hraw. exact (Hb E).
  - intros E. rewrite Hraw. exact (Hc E).
Qed.

Lemma variant_plain : forallb (fun kv => plain_enums kv.2 && go_names_distinct kv.2) variant_types = true.
Proof. by vm_compute. Qed.
