(* ===== verification/RootPolicy.v ===== *)
(** * The owner's root policy ([internal/observer/rootpolicy/policy.go])

    Reading a policy document of any version, checking its records against the file system, and the lenient
    decoding that only narrows. What the operating system answers is a record of functions; an error is its
    text. The texts of [encoding/json]'s errors and [strconv.Quote] are parameters. *)

From S2P Require Import Prelude GoStrings.
From S2P Require Import Json.
From S2P Require Import GoPath.
From S2P Require Import GoJson.
From S2P Require Import StrictDecode.
From S2P Require Import GoLit.

(** ** Data *)

Definition Schema : bytes := str "gasworks.companion.root-policy/v1".
Definition SchemaV2 : bytes := str "gasworks.companion.root-policy/v2".
Definition SchemaV3 : bytes := str "gasworks.companion.root-policy/v3".

Inductive ContentConsent : Type := ContentUnstated | ContentDenied | ContentGranted.

#[export] Instance ContentConsent_eq_dec : EqDecision ContentConsent.
Proof. solve_decision. Defined.

Definition ForwardOnly : bytes := str "forward-only".
Definition Backfill : bytes := str "backfill".
Definition Transcripts : bytes := str "transcripts".
Definition Project : bytes := str "project".

(** [Record]. *)
Record ConsentRecord : Type := mkRecord {
  r_Path : bytes;
  r_Generation : Z;
  r_Active : bool;
  r_Mode : bytes;
  r_Kind : bytes;
}.

#[export] Instance ConsentRecord_eq_dec : EqDecision ConsentRecord.
Proof. solve_decision. Defined.

Definition IsProject (r : ConsentRecord) : bool := bool_decide (r_Kind r = Project).

Record Policy : Type := mkPolicy {
  Roots : list ConsentRecord;
  Stores : list bytes;
  Content : ContentConsent;
}.

(** The documents' shapes; the embedded record's fields come first. *)
Definition rawRecord : list gofield :=
  [(str "Path", str "path", TString); (str "Generation", str "generation", TUint 64);
   (str "Active", str "active", TBool); (str "Mode", str "mode", TString)].
Definition rawRecordV2 : list gofield := rawRecord ++ [(str "Kind", str "kind", TString)].

Definition documentV1 : gotype :=
  TStruct [(str "Schema", str "schema_version", TString); (str "Roots", str "roots", TSlice (TStruct rawRecord))].
Definition documentV2 : gotype :=
  TStruct [(str "Schema", str "schema_version", TString); (str "Roots", str "roots", TSlice (TStruct rawRecordV2));
           (str "Stores", str "stores", TSlice TString)].
Definition documentV3 : gotype :=
  TStruct [(str "Schema", str "schema_version", TString); (str "ContentUpload", str "content_upload", TPtr TBool);
           (str "Roots", str "roots", TSlice (TStruct rawRecordV2)); (str "Stores", str "stores", TSlice TString)].
Definition probe : gotype := TStruct [(str "Schema", str "schema_version", TString)].

Definition raw_of (t : list gofield) (v : goval) : ConsentRecord :=
  let f name := get (TStruct t) name v in
  mkRecord (as_string (f "Path"%string)) (as_int (f "Generation"%string))
    (match f "Active"%string with GBool b => b | _ => false end) (as_string (f "Mode"%string)) (as_string (f "Kind"%string)).

(** ** The operating system *)

Record os_error : Type := mkOsError { oe_NotExist : bool; oe_text : bytes }.
Record open_error : Type := mkOpenError { pe_NotExist : bool; pe_Symlink : bool; pe_text : bytes }.
Record finfo : Type := mkFinfo { fi_symlink : bool; fi_dir : bool }.

(** An opened file: whether it is regular, its permission bits and whether this user owns it; its bytes. *)
Record opened : Type := mkOpened {
  op_stat : result bytes (bool * Z * bool);
  op_read : result bytes bytes;
}.

Record OS : Type := mkOS {
  Lstat : bytes -> result os_error finfo;
  Stat : bytes -> result os_error finfo;
  EvalSymlinks : bytes -> result os_error bytes;
  OpenFile : bytes -> result open_error opened;
}.

Definition IsAbs (p : bytes) : bool := HasPrefix p [x2f].

(** ** Reading *)

Definition MaxDocumentBytes : nat := Z.to_nat (2 ^ 20).

Definition not_owner_only : bytes := str "root policy must be an owner-only regular file".

Definition readDocument (os : OS) (path : bytes) : result bytes bytes :=
  if bool_decide (path = []) || negb (IsAbs path) then Err (str "root policy path must be absolute")
  else
    match OpenFile os path with
    | Err e =>
        Err (if pe_NotExist e then str "stat root policy: " ++ pe_text e
             else if pe_Symlink e then not_owner_only
             else str "open root policy: " ++ pe_text e)
    | Ok f =>
        match op_stat f with
        | Err e => Err (str "stat root policy: " ++ e)
        | Ok (regular, perm, owned) =>
            if negb regular || negb (Z.land perm 0x3f =? 0) || negb owned then Err not_owner_only
            else
              match op_read f with
              | Err e => Err (str "read root policy: " ++ e)
              | Ok content =>
                  let data := take (S MaxDocumentBytes) content in
                  if (MaxDocumentBytes <? length data)%nat
                  then Err (str "root policy exceeds " ++ FormatInt (Z.of_nat MaxDocumentBytes) ++ str " bytes")
                  else Ok data
              end
        end
    end.

Section decode.
(** The text of the error [encoding/json] gives for data it refuses for a type. *)
Context (json_text : gotype -> bytes -> bytes).
(** [strconv.Quote]. *)
Context (quote : bytes -> bytes).

Definition documentSchema (data : bytes) : result bytes bytes :=
  match Unmarshal data probe with
  | None => Err (str "decode root policy: " ++ json_text probe data)
  | Some v => Ok (as_string (get probe "Schema" v))
  end.

Definition decodeStrict (data : bytes) (t : gotype) : result bytes goval :=
  match decode_strictly t data with
  | None => Err (str "decode root policy: " ++ json_text t data)
  | Some (v, rest) => if bool_decide (skip_ws rest = []) then Ok v else Err (str "decode root policy: trailing JSON value")
  end.

Definition roots_of (doc : gotype) (t : list gofield) (v : goval) : list ConsentRecord :=
  map (raw_of t) (as_slice (get doc "Roots" v)).

Definition unsupported (schema : bytes) : bytes := str "root policy schema " ++ quote schema ++ str " is not supported".

(** The switch over versions: the records, the stores and the content consent. *)
Definition decode_document (data schema : bytes) : result bytes (list ConsentRecord * list bytes * ContentConsent) :=
  if bool_decide (schema = Schema) then
    v ← decodeStrict data documentV1; Ok (roots_of documentV1 rawRecord v, [], ContentUnstated)
  else if bool_decide (schema = SchemaV2) then
    v ← decodeStrict data documentV2;
    Ok (roots_of documentV2 rawRecordV2 v, map as_string (as_slice (get documentV2 "Stores" v)), ContentUnstated)
  else if bool_decide (schema = SchemaV3) then
    v ← decodeStrict data documentV3;
    match get documentV3 "ContentUpload" v with
    | GPtr (GBool b) =>
        Ok (roots_of documentV3 rawRecordV2 v, map as_string (as_slice (get documentV3 "Stores" v)), if b then ContentGranted else ContentDenied)
    | _ => Err (str "root policy " ++ SchemaV3 ++ str " must state content_upload as true or false")
    end
  else Err (unsupported schema).

(** ** Checking *)

Definition at_record (i : Z) (text : String.string) : bytes := str "root policy record " ++ FormatInt i ++ str text.

(** A root's canonical path; an active one must already be spelled so. *)
Definition canonical_root (os : OS) (i : Z) (r : ConsentRecord) : result bytes bytes :=
  let canonical := Clean (r_Path r) in
  let resolved := EvalSymlinks os canonical in
  _ ← (if r_Active r then
         if negb (bool_decide (canonical = r_Path r)) then Err (at_record i " active path must be canonical")
         else match Lstat os canonical with
              | Err e => Err (str "stat root policy record " ++ FormatInt i ++ str " path: " ++ oe_text e)
              | Ok info =>
                  if fi_symlink info || negb (fi_dir info) then Err (at_record i " active path must name a canonical directory")
                  else if bool_decide (match resolved with Ok p => p | Err _ => [] end = canonical) then Ok tt
                  else Err (at_record i " active path must not cross a symlink")
              end
       else Ok tt);
  match resolved with
  | Ok p =>
      if match Stat os p with Ok info => fi_dir info | Err _ => false end then Ok p
      else Err (at_record i " path must name a directory")
  | Err e =>
      if r_Active r || negb (oe_NotExist e) then Err (str "resolve root policy record " ++ FormatInt i ++ str " path: " ++ oe_text e)
      else Ok canonical
  end.

(** One turn of the loop over the records; the canonical paths seen are those of [out]. *)
Definition load_root (os : OS) (i : Z) (r : ConsentRecord) (out : list ConsentRecord) : result bytes (list ConsentRecord) :=
  if bool_decide (r_Path r = []) || negb (IsAbs (r_Path r)) then Err (at_record i " path must be absolute")
  else if r_Generation r =? 0 then Err (at_record i " generation must be greater than zero")
  else if negb (bool_decide (r_Kind r = [])) && negb (bool_decide (r_Kind r = Transcripts)) && negb (bool_decide (r_Kind r = Project))
       then Err (at_record i " kind must be transcripts or project")
  else
    canonical ← canonical_root os i r;
    if bool_decide (canonical ∈ r_Path <$> out) then Err (str "root policy contains duplicate canonical root " ++ quote canonical)
    else if r_Active r && negb (bool_decide (r_Mode r = ForwardOnly)) && negb (bool_decide (r_Mode r = Backfill))
         then Err (at_record i " active mode must be forward-only or backfill")
    else if negb (r_Active r) && negb (bool_decide (r_Mode r = []))
         then Err (at_record i " inactive tombstone must not carry a mode")
    else Ok (out ++ [mkRecord canonical (r_Generation r) (r_Active r) (r_Mode r) (r_Kind r)]).

Fixpoint load_roots (os : OS) (i : Z) (rs out : list ConsentRecord) : result bytes (list ConsentRecord) :=
  match rs with
  | [] => Ok out
  | r :: rs' => out' ← load_root os i r out; load_roots os (i + 1) rs' out'
  end.

Definition withSeparator (dir : bytes) : bytes := if HasSuffix dir [x2f] then dir else dir ++ [x2f].

Definition pathOverlaps (a b : bytes) : bool :=
  bool_decide (a = b) || HasPrefix a (withSeparator b) || HasPrefix b (withSeparator a).

Definition project_overlap (a b : ConsentRecord) : bool :=
  r_Active b && (IsProject a || IsProject b) && pathOverlaps (r_Path a) (r_Path b).

Definition overlap_text (a b : ConsentRecord) : bytes :=
  str "root policy active roots " ++ quote (r_Path a) ++ str " and " ++ quote (r_Path b)
  ++ str " overlap; a project root must be disjoint from every other root".

Fixpoint checkRootOverlap (records : list ConsentRecord) : result bytes unit :=
  match records with
  | [] => Ok tt
  | a :: rest =>
      if negb (r_Active a) then checkRootOverlap rest
      else match find (project_overlap a) rest with
           | Some b => Err (overlap_text a b)
           | None => checkRootOverlap rest
           end
  end.

Definition at_store (i : Z) (text : String.string) : bytes := str "root policy store " ++ FormatInt i ++ str text.

(** Whether the store's directory is what it names. *)
Definition check_store (os : OS) (i : Z) (activeProject : bool) (store : bytes) : result bytes unit :=
  match Lstat os store with
  | Ok info =>
      if fi_symlink info || negb (fi_dir info) then Err (at_store i " path must name a canonical directory")
      else match EvalSymlinks os store with
           | Err e => Err (str "resolve root policy store " ++ FormatInt i ++ str " path: " ++ oe_text e)
           | Ok resolved => if bool_decide (resolved = store) then Ok tt else Err (at_store i " path must not cross a symlink")
           end
  | Err e =>
      if oe_NotExist e && negb activeProject then Ok tt
      else Err (str "stat root policy store " ++ FormatInt i ++ str ": " ++ oe_text e)
  end.

Definition load_store (os : OS) (i : Z) (activeProject : bool) (records : list ConsentRecord) (store : bytes) (out : list bytes)
    : result bytes (list bytes) :=
  if bool_decide (store = []) || negb (IsAbs store) || negb (bool_decide (Clean store = store))
  then Err (at_store i " path must be absolute and canonical")
  else
    _ ← check_store os i activeProject store;
    match find (pathOverlaps store) out with
    | Some other => Err (str "root policy stores " ++ quote store ++ str " and " ++ quote other ++ str " overlap")
    | None =>
        match find (fun r => r_Active r && pathOverlaps store (r_Path r)) records with
        | Some r => Err (str "root policy store " ++ quote store ++ str " overlaps root " ++ quote (r_Path r))
        | None => Ok (out ++ [store])
        end
    end.

Fixpoint load_stores (os : OS) (i : Z) (activeProject : bool) (records : list ConsentRecord) (stores out : list bytes) : result bytes (list bytes) :=
  match stores with
  | [] => Ok out
  | s :: rest => out' ← load_store os i activeProject records s out; load_stores os (i + 1) activeProject records rest out'
  end.

Definition loadStores (os : OS) (stores : list bytes) (records : list ConsentRecord) : result bytes (list bytes) :=
  let activeProject := existsb (fun r => r_Active r && IsProject r) records in
  if bool_decide (stores = []) then
    if activeProject then Err (str "root policy with an active project root must record at least one store") else Ok []
  else load_stores os 0 activeProject records stores [].

Definition LoadPolicy (os : OS) (path : bytes) : result bytes Policy :=
  data ← readDocument os path;
  schema ← documentSchema data;
  '(roots, stores, content) ← decode_document data schema;
  out ← load_roots os 0 roots [];
  _ ← checkRootOverlap out;
  stores ← loadStores os stores out;
  Ok (mkPolicy out stores content).

Definition Load (os : OS) (path : bytes) : result bytes (list ConsentRecord) :=
  policy ← LoadPolicy os path; Ok (Roots policy).

(** ** Narrowing *)

Fixpoint clean_records (i : Z) (rs : list ConsentRecord) : result bytes (list ConsentRecord) :=
  match rs with
  | [] => Ok []
  | r :: rs' =>
      if bool_decide (r_Path r = []) || negb (IsAbs (r_Path r)) || (r_Generation r =? 0) then Err (at_record i " is malformed")
      else out ← clean_records (i + 1) rs'; Ok (mkRecord (Clean (r_Path r)) (r_Generation r) (r_Active r) (r_Mode r) (r_Kind r) :: out)
  end.

(** The switch of [DecodeRecords], which a missing content consent does not stop. *)
Definition decode_roots (data schema : bytes) : result bytes (list ConsentRecord) :=
  if bool_decide (schema = Schema) then v ← decodeStrict data documentV1; Ok (roots_of documentV1 rawRecord v)
  else if bool_decide (schema = SchemaV2) then v ← decodeStrict data documentV2; Ok (roots_of documentV2 rawRecordV2 v)
  else if bool_decide (schema = SchemaV3) then v ← decodeStrict data documentV3; Ok (roots_of documentV3 rawRecordV2 v)
  else Err (unsupported schema).

Definition DecodeRecords (data : bytes) : result bytes (list ConsentRecord) :=
  schema ← documentSchema data;
  roots ← decode_roots data schema;
  clean_records 0 roots.

Definition DecodeFileRecords (os : OS) (path : bytes) : result bytes (list ConsentRecord) :=
  data ← readDocument os path; DecodeRecords data.
End decode.

(** ** Overlap is a matter of whole components *)

(** The absolute path of a list of components. *)
Definition abs (l : list bytes) : bytes := x2f :: Join x2f l.

(** Neither empty nor with a separator inside. *)
Definition components (l : list bytes) : Prop := Forall (fun e => e <> [] /\ x2f ∉ e) l.

(** Every component behind its separator. *)
Definition slashed (l : list bytes) : bytes := concat (map (cons x2f) l).

Lemma abs_slashed l : l <> [] -> abs l = slashed l.
Proof. by destruct l. Qed.

Lemma split_first e f x y : x2f ∉ e -> x2f ∉ f -> e ++ x2f :: x = f ++ y -> (y = [] \/ exists z, y = x2f :: z) -> e = f /\ y = x2f :: x.
Proof.
  intros He Hf H Hy. revert f Hf H. induction e as [|b e IH]; intros [|c f] Hf H; cbn in H.
  - done.
  - injection H as <- _. destruct Hf. by left.
  - subst y. destruct Hy as [?|[z [= -> _]]]; [done|]. destruct He. by left.
  - injection H as <- H. apply not_elem_of_cons in He as [_ He], Hf as [_ Hf]. destruct (IH He f Hf H) as [-> ?]. done.
Qed.

Lemma slashed_starts l : slashed l = [] \/ exists z, slashed l = x2f :: z.
Proof. destruct l as [|e l]; [by left|right]. cbn. eauto. Qed.

Lemma slashed_prefix l k t : components l -> components k -> slashed l ++ x2f :: t = slashed k -> exists m, k = l ++ m.
Proof.
  revert k. induction l as [|e l IH]; intros k Hl Hk H; [by exists k|].
  apply Forall_cons in Hl as [[_ He] Hl]. destruct k as [|f k]; [done|]. apply Forall_cons in Hk as [[_ Hf] Hk].
  cbn in H. rewrite <-app_assoc in H. injection H as H.
  assert (Hr : exists z, slashed l ++ x2f :: t = x2f :: z) by (destruct (slashed_starts l) as [->|[z ->]]; cbn; eauto).
  destruct Hr as [z Hz]. unfold slashed in Hz at 1. rewrite Hz in H. destruct (split_first _ _ _ _ He Hf H (slashed_starts k)) as [<- Hx].
  rewrite <-Hz in Hx. destruct (IH k Hl Hk (eq_sym Hx)) as [m ->]. by exists m.
Qed.

Lemma slashed_app l k : slashed (l ++ k) = slashed l ++ slashed k.
Proof. unfold slashed. by rewrite map_app, concat_app. Qed.

Lemma withSeparator_abs l : components l -> withSeparator (abs l) = slashed l ++ [x2f].
Proof.
  intros Hc. destruct l as [|e l]; [done|]. rewrite abs_slashed by done. unfold withSeparator.
  destruct (exists_last (l := e :: l) ltac:(done)) as (k&f&E). rewrite E in *. apply Forall_app in Hc as [_ [[Hne Hs] _]%Forall_cons].
  destruct (exists_last Hne) as (g&b&->). destruct (HasSuffix _ _) eqn:Hx; [|done]. exfalso. apply HasSuffix_spec in Hx as [y Hy].
  rewrite slashed_app in Hy. cbn in Hy. rewrite app_nil_r, app_comm_cons, app_assoc in Hy. apply app_inj_tail in Hy as [_ ->].
  apply Hs. apply elem_of_app. right. by left.
Qed.

Lemma below_iff l k : components l -> components k ->
  HasPrefix (abs k) (withSeparator (abs l)) = true <-> exists m, k = l ++ m /\ (m <> [] \/ k = []).
Proof.
  intros Hl Hk. rewrite withSeparator_abs, HasPrefix_spec by done. setoid_rewrite <-app_assoc. split.
  - intros [t Ht]. destruct k as [|f k].
    + destruct l as [|e l]; [exists []; auto|]. cbn in Ht. injection Ht as Ht. destruct (e ++ _) eqn:E; [|done].
      apply app_eq_nil in E as [-> _]. apply Forall_cons in Hl as [[? _] _]. done.
    + rewrite abs_slashed in Ht by done. destruct (slashed_prefix l (f :: k) t Hl Hk (eq_sym Ht)) as [m E]. exists m. split; [done|]. left. intros ->.
      rewrite app_nil_r in E. rewrite <-E in Ht. rewrite <-(app_nil_r (slashed (f :: k))) in Ht at 1. by apply app_inv_head in Ht.
  - intros (m&->&[Hm|Hn]).
    + destruct m as [|f m]; [done|]. rewrite abs_slashed by (by destruct l). rewrite slashed_app. by eexists.
    + apply app_eq_nil in Hn as [-> ->]. by exists [].
Qed.

(** Two absolute paths overlap exactly when the components of one start with those of the other: a
    path never overlaps another that only starts with the same letters. *)
Theorem pathOverlaps_iff l k : components l -> components k ->
  pathOverlaps (abs l) (abs k) = true <-> l `prefix_of` k \/ k `prefix_of` l.
Proof.
  intros Hl Hk. unfold pathOverlaps. rewrite !orb_true_iff, bool_decide_eq_true, !below_iff by done. split.
  - intros [[E|(m&->&_)]|(m&->&_)]; [|right; by exists m|left; by exists m].
    assert (l = k) as ->; [|by left].
    destruct l as [|e l], k as [|f k]; try done.
    + injection E as E. apply Forall_cons in Hk as [[? _] _]. by destruct f.
    + injection E as E. apply Forall_cons in Hl as [[? _] _]. by destruct e.
    + rewrite !abs_slashed in E by done. apply (f_equal (fun s => Split x2f (tail s))) in E.
      change (Split x2f (Join x2f (e :: l)) = Split x2f (Join x2f (f :: k))) in E.
      rewrite !Split_Join in E; [done|done|eapply Forall_impl; [exact Hk|]; by intros ? []|done|eapply Forall_impl; [exact Hl|]; by intros ? []].
  - intros [[m ->]|[m ->]].
    + destruct m as [|x m]; [left; left; by rewrite app_nil_r|]. right. exists (x :: m). auto.
    + destruct m as [|x m]; [left; left; by rewrite app_nil_r|]. left. right. exists (x :: m). auto.
Qed.

Lemma pathOverlaps_sym a b : pathOverlaps a b = pathOverlaps b a.
Proof.
  unfold pathOverlaps. rewrite <-!orb_assoc. f_equal; [by apply bool_decide_ext|]. apply orb_comm.
Qed.

(** ** What a loaded policy promises *)

Record valid_root (os : OS) (r : ConsentRecord) : Prop := mkValidRoot {
  vr_Generation : r_Generation r <> 0;
  vr_Kind : r_Kind r = [] \/ r_Kind r = Transcripts \/ r_Kind r = Project;
  vr_Mode : if r_Active r then r_Mode r = ForwardOnly \/ r_Mode r = Backfill else r_Mode r = [];
  vr_Active : r_Active r = true ->
    IsAbs (r_Path r) = true /\ Clean (r_Path r) = r_Path r
    /\ Lstat os (r_Path r) = Ok (mkFinfo false true) /\ EvalSymlinks os (r_Path r) = Ok (r_Path r);
}.

Record valid_policy (os : OS) (p : Policy) : Prop := mkValidPolicy {
  vp_roots : Forall (valid_root os) (Roots p);
  vp_distinct : NoDup (r_Path <$> Roots p);
  vp_projects : forall a b, a ∈ Roots p -> b ∈ Roots p -> a <> b -> r_Active a = true -> r_Active b = true -> IsProject a = true ->
    pathOverlaps (r_Path a) (r_Path b) = false;
  vp_stores : Forall (fun s => IsAbs s = true /\ Clean s = s) (Stores p);
  vp_stores_apart : forall i j s s', Stores p !! i = Some s -> Stores p !! j = Some s' -> i <> j -> pathOverlaps s s' = false;
  vp_stores_roots : forall s r, s ∈ Stores p -> r ∈ Roots p -> r_Active r = true -> pathOverlaps s (r_Path r) = false;
  vp_project_stores : existsb (fun r => r_Active r && IsProject r) (Roots p) = true ->
    Stores p <> [] /\ Forall (fun s => Lstat os s = Ok (mkFinfo false true) /\ EvalSymlinks os s = Ok s) (Stores p);
}.

(** A record before and after its path was resolved. *)
Definition resolves_to (r c : ConsentRecord) : Prop :=
  r_Generation c = r_Generation r /\ r_Active c = r_Active r /\ r_Mode c = r_Mode r /\ r_Kind c = r_Kind r
  /\ r_Path r <> [] /\ IsAbs (r_Path r) = true /\ (r_Active r = true -> r_Path c = r_Path r /\ Clean (r_Path r) = r_Path r).

Section loading.
Context (json_text : gotype -> bytes -> bytes) (quote : bytes -> bytes) (os : OS).

Lemma finfo_dir info : fi_symlink info || negb (fi_dir info) = false -> info = mkFinfo false true.
Proof. by destruct info as [[] []]. Qed.

Lemma canonical_root_Ok i r c : canonical_root os i r = Ok c -> r_Active r = true ->
  c = r_Path r /\ Clean (r_Path r) = r_Path r /\ Lstat os c = Ok (mkFinfo false true) /\ EvalSymlinks os c = Ok c.
Proof.
  unfold canonical_root. intros ([]&Hc&H)%bind_Ok Ha. rewrite Ha in Hc.
  destruct (bool_decide (Clean (r_Path r) = r_Path r)) eqn:E1; [|done]. apply bool_decide_eq_true in E1. rewrite E1 in Hc, H. cbn [negb] in Hc.
  destruct (Lstat os (r_Path r)) as [info|] eqn:El; [|done]. destruct (_ || _) eqn:Ed; [done|]. apply finfo_dir in Ed as ->.
  destruct (bool_decide _) eqn:Er; [|done]. apply bool_decide_eq_true in Er. destruct (EvalSymlinks os (r_Path r)) as [p|] eqn:Es.
  - subst p. destruct (match Stat os _ with Ok _ => _ | Err _ => _ end); [|done]. injection H as <-. done.
  - by rewrite Ha in H.
Qed.

Lemma load_root_Ok i r out out' : load_root quote os i r out = Ok out' ->
  exists c, out' = out ++ [c] /\ valid_root os c /\ (r_Path c ∉ r_Path <$> out) /\ resolves_to r c.
Proof.
  unfold load_root. destruct (_ || _) eqn:E1; [done|]. apply orb_false_iff in E1 as [Hne Habs]. apply bool_decide_eq_false in Hne. apply negb_false_iff in Habs.
  destruct (Z.eqb_spec (r_Generation r) 0) as [|Hg]; [done|]. destruct (_ && _ && _) eqn:Ek; [done|].
  intros (canonical&Hc&H)%bind_Ok. pose proof (canonical_root_Ok _ _ _ Hc) as Hact.
  destruct (bool_decide (canonical ∈ _)) eqn:Ed; [done|]. apply bool_decide_eq_false in Ed.
  destruct (r_Active r && _ && _) eqn:Em1; [done|]. destruct (negb (r_Active r) && _) eqn:Em2; [done|]. injection H as <-.
  eexists. split; [reflexivity|]. cbn. split; [|split; [done|]].
  - split; cbn; [done| | |].
    + destruct (decide (r_Kind r = [])); [by left|]. destruct (decide (r_Kind r = Transcripts)); [by auto|]. destruct (decide (r_Kind r = Project)); [by auto|].
      by rewrite !bool_decide_false in Ek.
    + destruct (r_Active r); cbn in Em1, Em2.
      * destruct (decide (r_Mode r = ForwardOnly)); [by left|]. destruct (decide (r_Mode r = Backfill)); [by right|]. by rewrite !bool_decide_false in Em1.
      * destruct (decide (r_Mode r = [])); [done|]. by rewrite bool_decide_false in Em2.
    + intros Ha. destruct (Hact Ha) as (->&?&?&?). done.
  - unfold resolves_to. split_and!; try done. intros Ha. by destruct (Hact Ha) as (->&?&_).
Qed.

Lemma load_roots_Ok rs : forall i out out', load_roots quote os i rs out = Ok out' ->
  Forall (valid_root os) out -> NoDup (r_Path <$> out) ->
  Forall (valid_root os) out' /\ NoDup (r_Path <$> out') /\ exists cs, out' = out ++ cs /\ Forall2 resolves_to rs cs.
Proof.
  induction rs as [|r rs IH]; intros i out out' H Hv Hd; cbn [load_roots] in H.
  - injection H as <-. split; [done|]. split; [done|]. exists []. split; [by rewrite app_nil_r|constructor].
  - apply bind_Ok in H as (out1&H1&H). apply load_root_Ok in H1 as (c&->&Hc&Hn&Hr).
    destruct (IH _ _ _ H) as (?&?&cs&->&?).
    + apply Forall_app. split; [done|]. by constructor.
    + rewrite fmap_app. apply NoDup_app. split; [done|]. split; [|apply NoDup_singleton]. intros x Hx ->%list_elem_of_singleton. done.
    + split; [done|]. split; [done|]. exists (c :: cs). split; [by rewrite <-app_assoc|by constructor].
Qed.

Lemma find_none {A} (f : A -> bool) l x : find f l = None -> x ∈ l -> f x = false.
Proof. intros H Hx. apply (find_none f l H). by apply list_elem_of_In. Qed.

Lemma checkRootOverlap_Ok l : checkRootOverlap quote l = Ok tt ->
  forall a b, a ∈ l -> b ∈ l -> a <> b -> r_Active a = true -> r_Active b = true -> IsProject a = true \/ IsProject b = true ->
    pathOverlaps (r_Path a) (r_Path b) = false.
Proof.
  induction l as [|c l IH]; intros H a b Ha Hb Hab Aa Ab Hp; [by inversion Ha|]. cbn [checkRootOverlap] in H.
  assert (Hl : checkRootOverlap quote l = Ok tt) by (destruct (r_Active c); cbn in H; [by destruct (find _ _)|done]).
  assert (Hhead : forall x, r_Active c = true -> x ∈ l -> r_Active x = true -> IsProject c = true \/ IsProject x = true -> pathOverlaps (r_Path c) (r_Path x) = false).
  { intros x Hc Hx Hax Hpx. rewrite Hc in H. cbn in H. destruct (find (project_overlap c) l) eqn:Ef; [done|].
    pose proof (find_none _ _ _ Ef Hx) as Hf. unfold project_overlap in Hf. rewrite Hax, (proj2 (orb_true_iff _ _) Hpx) in Hf. done. }
  apply elem_of_cons in Ha as [->|Ha], Hb as [->|Hb].
  - done.
  - by apply Hhead.
  - rewrite pathOverlaps_sym. apply Hhead; [done..|]. by destruct Hp; [right|left].
  - by apply IH.
Qed.

Lemma check_store_Ok i project s : check_store os i project s = Ok tt -> project = true ->
  Lstat os s = Ok (mkFinfo false true) /\ EvalSymlinks os s = Ok s.
Proof.
  unfold check_store. intros H ->. destruct (Lstat os s) as [info|e].
  - destruct (_ || _) eqn:Ed; [done|]. apply finfo_dir in Ed as ->. destruct (EvalSymlinks os s) as [p|]; [|done].
    by destruct (bool_decide (p = s)) eqn:E; [apply bool_decide_eq_true in E as ->|].
  - by destruct (oe_NotExist e).
Qed.

(** The stores loaded so far. *)
Record good_stores (project : bool) (records : list ConsentRecord) (out : list bytes) : Prop := mkGoodStores {
  gs_clean : Forall (fun s => IsAbs s = true /\ Clean s = s) out;
  gs_apart : forall i j s s', out !! i = Some s -> out !! j = Some s' -> i <> j -> pathOverlaps s s' = false;
  gs_roots : forall s r, s ∈ out -> r ∈ records -> r_Active r = true -> pathOverlaps s (r_Path r) = false;
  gs_dirs : project = true -> Forall (fun s => Lstat os s = Ok (mkFinfo false true) /\ EvalSymlinks os s = Ok s) out;
}.

Lemma load_store_Ok i project records s out out' :
  load_store quote os i project records s out = Ok out' -> good_stores project records out -> out' = out ++ [s] /\ good_stores project records out'.
Proof.
  unfold load_store. destruct (_ || _) eqn:E1; [done|]. apply orb_false_iff in E1 as [[_ Habs]%orb_false_iff Hc].
  apply negb_false_iff in Habs. apply negb_false_iff, bool_decide_eq_true in Hc. intros ([]&Hd&H)%bind_Ok G.
  destruct (find (pathOverlaps s) out) eqn:Ef; [done|]. destruct (find _ records) eqn:Er; [done|]. injection H as <-. split; [done|].
  destruct G as [G1 G2 G3 G4]. split.
  - apply Forall_app. split; [done|]. by constructor.
  - assert (Hn : forall k s', out !! k = Some s' -> pathOverlaps s s' = false).
    { intros k s' Hk. apply (find_none _ _ _ Ef). by eapply list_elem_of_lookup_2. }
    intros a b x y Hx Hy Hab. apply lookup_app_Some in Hx as [Hx|[Hla Hx]], Hy as [Hy|[Hlb Hy]].
    + by eapply G2.
    + apply list_lookup_singleton_Some in Hy as [_ <-]. rewrite pathOverlaps_sym. by eapply Hn.
    + apply list_lookup_singleton_Some in Hx as [_ <-]. by eapply Hn.
    + apply list_lookup_singleton_Some in Hx as [? _], Hy as [? _]. lia.
  - intros x r [Hx|Hx%list_elem_of_singleton]%elem_of_app Hr Ha; [by apply G3|]. subst x.
    pose proof (find_none _ _ _ Er Hr) as Hf. cbn in Hf. by rewrite Ha in Hf.
  - intros Hp. apply Forall_app. split; [by apply G4|]. apply Forall_singleton. by eapply check_store_Ok.
Qed.

Lemma load_stores_Ok project records l : forall i out out',
  load_stores quote os i project records l out = Ok out' -> good_stores project records out -> out' = out ++ l /\ good_stores project records out'.
Proof.
  induction l as [|s l IH]; intros i out out' H G; cbn [load_stores] in H; [injection H as <-; by rewrite app_nil_r|].
  apply bind_Ok in H as (out1&H1&H). destruct (load_store_Ok _ _ _ _ _ _ H1 G) as [-> G']. destruct (IH _ _ _ H G') as [-> G''].
  split; [by rewrite <-app_assoc|done].
Qed.

Lemma loadStores_Ok stores records out : loadStores quote os stores records = Ok out ->
  let project := existsb (fun r => r_Active r && IsProject r) records in
  out = stores /\ good_stores project records out /\ (project = true -> out <> []).
Proof.
  unfold loadStores. cbv zeta. assert (G0 : forall project, good_stores project records []) by (intros; split; by try inversion 1).
  destruct (bool_decide (stores = [])) eqn:E; [apply bool_decide_eq_true in E as ->|apply bool_decide_eq_false in E].
  - destruct (existsb _ records) eqn:Ep; [done|]. intros [= <-]. split; [done|]. split; [apply G0|done].
  - intros [-> G]%load_stores_Ok; [|apply G0]. by split.
Qed.

Lemma LoadPolicy_Ok path p : LoadPolicy json_text quote os path = Ok p ->
  exists data schema roots, readDocument os path = Ok data /\ documentSchema json_text data = Ok schema
    /\ decode_document json_text quote data schema = Ok (roots, Stores p, Content p)
    /\ Forall2 resolves_to roots (Roots p) /\ valid_policy os p.
Proof.
  unfold LoadPolicy. intros (data&Hd&H)%bind_Ok. apply bind_Ok in H as (schema&Hs&H). apply bind_Ok in H as ([[roots stores] content]&Hc&H).
  apply bind_Ok in H as (out&Ho&H). apply bind_Ok in H as ([]&Hov&H). apply bind_Ok in H as (stores'&Hst&H). injection H as <-. cbn.
  destruct (load_roots_Ok _ _ _ _ Ho) as (Hv&Hn&cs&->&Hr); [constructor|constructor|]. cbn [app] in *.
  apply loadStores_Ok in Hst as (->&[G1 G2 G3 G4]&Hne). exists data, schema, roots. do 4 (split; [done|]). split; cbn; try done.
  - intros a b Ha Hb Hab Aa Ab Hp. eapply checkRootOverlap_Ok; [exact Hov|..]; auto.
  - intros Hp. split; [by apply Hne|by apply G4].
Qed.

(** C22: A policy that loads is one the daemon may act on: its roots are distinct, an active one is a real
    directory spelled canonically with a known mode, a tombstone has none; an active project overlaps no
    active root, no store overlaps another or an active root, and an active project's stores exist. *)
Theorem LoadPolicy_valid path p : LoadPolicy json_text quote os path = Ok p -> valid_policy os p.
Proof. by intros (?&?&?&_&_&_&_&?)%LoadPolicy_Ok. Qed.

(** ** A valid document narrows nothing *)

Lemma decode_document_roots data schema roots stores content :
  decode_document json_text quote data schema = Ok (roots, stores, content) -> decode_roots json_text quote data schema = Ok roots.
Proof.
  unfold decode_document, decode_roots. repeat case_bool_decide; try done; intros (v&->&Hx)%bind_Ok; cbn; [by injection Hx as <- _ _..|].
  destruct (get documentV3 "ContentUpload" v) as [| | | | | | |x| |]; try done. destruct x; try done. by injection Hx as <- _ _.
Qed.

Lemma clean_records_Ok rs cs : Forall2 resolves_to rs cs -> Forall (fun c => r_Generation c <> 0) cs ->
  forall i, exists ds, clean_records i rs = Ok ds /\ Forall2 (fun c d => r_Active d = r_Active c /\ (r_Active c = true -> d = c)) cs ds.
Proof.
  induction 1 as [|r c rs cs (Hg&Ha&Hm&Hk&Hne&Habs&Hact) _ IH]; intros Hz i; [exists []; split; [done|constructor]|].
  apply Forall_cons in Hz as [Hz Hzs]. destruct (IH Hzs (i + 1)) as (ds&Hds&Hall). cbn [clean_records].
  rewrite bool_decide_false by done. rewrite Habs, (proj2 (Z.eqb_neq _ _)) by congruence. cbn. rewrite Hds. cbn.
  eexists. split; [reflexivity|]. constructor; [|done]. cbn. split; [by rewrite Ha|]. intros Hc. rewrite Ha in Hc. destruct (Hact Hc) as [E1 E2].
  destruct c. cbn in *. f_equal; congruence.
Qed.

Lemma decoded_records path p : LoadPolicy json_text quote os path = Ok p ->
  exists ds, DecodeFileRecords json_text quote os path = Ok ds
    /\ Forall2 (fun c d => r_Active d = r_Active c /\ (r_Active c = true -> d = c)) (Roots p) ds.
Proof.
  intros (data&schema&roots&Hd&Hs&Hc&Hr&Hv)%LoadPolicy_Ok. unfold DecodeFileRecords, DecodeRecords. rewrite Hd. cbn. rewrite Hs. cbn.
  rewrite (decode_document_roots _ _ _ _ _ Hc). cbn. apply clean_records_Ok; [done|].
  eapply Forall_impl; [exact (vp_roots _ _ Hv)|]. by intros r [].
Qed.
End loading.

(** ** An error has a text *)

Definition says {A} (m : result bytes A) : Prop := match m with Ok _ => True | Err e => e <> [] end.

Lemma says_bind {A B} (m : result bytes A) (f : A -> result bytes B) : says m -> (forall a, says (f a)) -> says (a ← m; f a).
Proof. destruct m as [a|e]; cbn; [auto|done]. Qed.

Create HintDb says.
#[export] Hint Resolve says_bind : says.

(** A text starts with a constant. *)
Ltac says :=
  repeat match goal with
  | |- says (mbind _ _) => apply says_bind; [|intros ?]
  | |- says (let '(_, _) := ?x in _) => destruct x
  | |- says (if ?b then _ else _) => destruct b
  | |- says (match ?x with _ => _ end) => destruct x
  | |- says (Ok _) => exact I
  | |- says (Err _) => (discriminate || (unfold at_record, at_store, unsupported, overlap_text, not_owner_only; cbn; discriminate))
  | |- _ => solve [auto with says]
  end.

Section texts.
Context (json_text : gotype -> bytes -> bytes) (quote : bytes -> bytes) (os : OS).

Lemma says_readDocument path : says (readDocument os path).
Proof.
  unfold readDocument. destruct (_ || _); [done|]. destruct (OpenFile os path) as [f|e]; [|by destruct (pe_NotExist e), (pe_Symlink e)].
  destruct (op_stat f) as [[[regular perm] owned]|e]; [|done]. destruct (_ || _); [done|]. destruct (op_read f); [|done]. by destruct (_ <? _)%nat.
Qed.

Lemma says_decodeStrict data t : says (decodeStrict json_text data t).
Proof. unfold decodeStrict. says. Qed.

Lemma says_decode_document data schema : says (decode_document json_text quote data schema).
Proof. unfold decode_document. repeat (case_bool_decide || apply says_bind || apply says_decodeStrict || intros ? || done). says. Qed.

Lemma says_load_root i r out : says (load_root quote os i r out).
Proof. unfold load_root, canonical_root. says. Qed.

Lemma says_load_roots rs : forall i out, says (load_roots quote os i rs out).
Proof. induction rs as [|r rs IH]; intros i out; cbn [load_roots]; [done|]. apply says_bind; [apply says_load_root|]. intros out'. apply IH. Qed.

Lemma says_overlap l : says (checkRootOverlap quote l).
Proof. induction l as [|a l IH]; cbn [checkRootOverlap]; [done|]. destruct (negb _); [done|]. by destruct (find _ _). Qed.

Lemma says_load_stores project records l : forall i out, says (load_stores quote os i project records l out).
Proof.
  induction l as [|s l IH]; intros i out; cbn [load_stores]; [done|]. apply says_bind; [|intros out'; apply IH].
  unfold load_store, check_store. says.
Qed.

Lemma LoadPolicy_says path : says (LoadPolicy json_text quote os path).
Proof.
  unfold LoadPolicy. apply says_bind; [apply says_readDocument|]. intros data. apply says_bind; [unfold documentSchema; by destruct (Unmarshal _ _)|]. intros schema.
  apply says_bind; [apply says_decode_document|]. intros [[roots stores] content]. apply says_bind; [apply says_load_roots|]. intros out.
  apply says_bind; [apply says_overlap|]. intros _. apply says_bind; [|done].
  unfold loadStores. destruct (bool_decide _); [by destruct (existsb _ _)|apply says_load_stores].
Qed.
End texts.

(** ** A policy file *)

Definition demo_text (t : GoJson.gotype) (data : bytes) : bytes := str "invalid".
Definition demo_quote (s : bytes) : bytes := x22 :: s ++ [x22].

Definition demo_valid : bytes :=
  js "{'schema_version':'gasworks.companion.root-policy/v3','content_upload':true,'roots':[{'path':'/p','generation':7,'active':true,'mode':'backfill'}],'stores':[]}".
(** It states no content consent, and a later generation. *)
Definition demo_invalid : bytes :=
  js "{'schema_version':'gasworks.companion.root-policy/v3','roots':[{'path':'/p','generation':8,'active':true,'mode':'backfill'}],'stores':[]}".

(** One directory and one policy file. *)
Definition demo_os (content : bytes) : OS :=
  let missing := mkOsError true (str "no such file") in
  let stat p := if bool_decide (p = str "/p") then Ok (mkFinfo false true) else Err missing in
  mkOS stat stat (fun p => if bool_decide (p = str "/p") then Ok p else Err missing)
    (fun _ => Ok (mkOpened (Ok (true, 384, true)) (Ok content))).

Definition demo_path : bytes := str "/policy.json".
Definition demo_root : ConsentRecord := mkRecord (str "/p") 7 true Backfill [].
Definition demo_doc : Policy := mkPolicy [demo_root] [] ContentGranted.

Lemma demo_loads : LoadPolicy demo_text demo_quote (demo_os demo_valid) demo_path = Ok demo_doc.
Proof. vm_compute. reflexivity. Qed.

Lemma LoadPolicy_valid_witness :
  LoadPolicy demo_text demo_quote (demo_os demo_valid) demo_path = Ok demo_doc /\ valid_policy (demo_os demo_valid) demo_doc.
Proof. exact (conj demo_loads (LoadPolicy_valid demo_text demo_quote (demo_os demo_valid) demo_path demo_doc demo_loads)). Defined.

Lemma demo_components : components [str "p"; str "proj"] /\ components [str "p"; str "project"].
Proof. unfold components. split; repeat constructor; try done; intros H; apply (bool_decide_eq_true_2 _) in H; discriminate H. Qed.

Lemma pathOverlaps_iff_witness :
  components [str "p"; str "proj"] /\ components [str "p"; str "project"]
  /\ (pathOverlaps (abs [str "p"; str "proj"]) (abs [str "p"; str "project"]) = true
      <-> [str "p"; str "proj"] `prefix_of` [str "p"; str "project"] \/ [str "p"; str "project"] `prefix_of` [str "p"; str "proj"]).
Proof.
  exact (conj (proj1 demo_components) (conj (proj2 demo_components) (pathOverlaps_iff _ _ (proj1 demo_components) (proj2 demo_components)))).
Defined.
