(* ===== verification/Consent.v ===== *)
(** * The live consent policy ([internal/observer/consent/consent.go])

    A [Source] serves the owner's policy while the daemon runs: a check re-reads the file when its status
    moved, publishes what changed, and fails closed on a file it cannot use. A check sees one answer of the
    operating system; the lock makes checks a sequence. *)

From S2P Require Import Prelude GoStrings.
From S2P Require Import RootPolicy.

(** ** State *)

Record Config : Type := mkConfig {
  cfg_Path : bytes;
  cfg_ContentDefault : bool;
  cfg_Capturable : ConsentRecord -> bool;
}.

Record Policy : Type := mkPolicy {
  Version : Z;
  ContentUpload : bool;
  Roots : list ConsentRecord;
  Problem : bytes;
}.

Definition Valid (p : Policy) : bool := bool_decide (Problem p = []).

(** The first record of the path decides. *)
Definition Allows (p : Policy) (root : bytes) (generation : Z) : bool :=
  match find (fun r => bool_decide (r_Path r = root)) (Roots p) with
  | Some r => r_Active r && (r_Generation r =? generation)
  | None => false
  end.

(** [fileState]: what [os.SameFile] compares, the rest of the status, and the change stamp. *)
Record fileState : Type := mkFileState {
  st_dev : Z;
  st_ino : Z;
  st_size : Z;
  st_mtime : Z;
  st_mode : Z;
  st_ctime : Z;
  st_uid : Z;
}.

#[export] Instance fileState_eq_dec : EqDecision fileState.
Proof. solve_decision. Defined.

Definition equal (a b : fileState) : bool :=
  (st_dev a =? st_dev b) && (st_ino a =? st_ino b) && (st_size a =? st_size b) && (st_mtime a =? st_mtime b) && (st_mode a =? st_mode b)
  && ((st_ctime a =? st_ctime b) && (st_uid a =? st_uid b)).

(** The operating system at one check: the files, and what [os.Lstat] of the policy file answers. *)
Record World : Type := mkWorld { w_os : OS; w_stat : result bytes fileState }.

Definition statFile (w : World) : result bytes fileState :=
  match w_stat w with Ok st => Ok st | Err e => Err (str "stat consent policy: " ++ e) end.

Record Source : Type := mkSource {
  src_cfg : Config;
  src_loaded : fileState;
  src_subs : list nat;       (** the subscribers, by name *)
  src_cur : Policy;
}.

(** ** Decisions *)

Definition derive (cfg : Config) (doc : RootPolicy.Policy) : Policy :=
  mkPolicy 0
    (match Content doc with ContentGranted => true | ContentDenied => false | ContentUnstated => cfg_ContentDefault cfg end)
    (filter (fun r => cfg_Capturable cfg r = true) (RootPolicy.Roots doc))
    [].

(** The generations of the active records of a document, the last record of a path deciding. *)
Definition still_active (doc : list ConsentRecord) : gmap bytes Z :=
  fold_left (fun m r => if r_Active r then <[r_Path r := r_Generation r]> m else m) doc ∅.

Definition narrowRoots (prev doc : list ConsentRecord) : list ConsentRecord :=
  let still := still_active doc in
  filter (fun r => negb (r_Active r) || bool_decide (still !! r_Path r = Some (r_Generation r)) = true) prev.

Definition by_path (l : list ConsentRecord) : gmap bytes ConsentRecord := fold_left (fun m r => <[r_Path r := r]> m) l ∅.

Definition samePolicy (a b : Policy) : bool :=
  if negb (bool_decide (ContentUpload a = ContentUpload b)) || negb (bool_decide (Problem a = Problem b))
     || negb (length (Roots a) =? length (Roots b))%nat
  then false
  else let byPath := by_path (Roots a) in forallb (fun r => bool_decide (byPath !! r_Path r = Some r)) (Roots b).

(** ** Log lines *)

Definition onOff (b : bool) : bytes := if b then str "on" else str "off".

Definition contentState (p : Policy) (doc : RootPolicy.Policy) : bytes :=
  onOff (ContentUpload p)
  ++ (if bool_decide (Content doc = ContentUnstated) then str " (-content-upload; the policy does not state content consent)"
      else str " (stated by the policy)").

Definition active_count (l : list ConsentRecord) : nat := length (filter (fun r => r_Active r = true) l).

Definition describeRoots (l : list ConsentRecord) : bytes :=
  FormatInt (Z.of_nat (active_count l)) ++ str " consented roots, " ++ FormatInt (Z.of_nat (length l - active_count l)) ++ str " withdrawn".

Definition activeByPath (l : list ConsentRecord) : gmap bytes ConsentRecord :=
  fold_left (fun m r => if r_Active r then <[r_Path r := r]> m else m) l ∅.

Definition sortedKeys (m : gmap bytes ConsentRecord) : list bytes := sortStrings (map_to_list m).*1.

Definition describeRootChanges (prev next : list ConsentRecord) : list bytes :=
  let before := activeByPath prev in
  let after := activeByPath next in
  omap (fun path =>
    was ← before !! path;
    match after !! path with
    | None => Some (str "withdrew " ++ path ++ str " (generation " ++ FormatInt (r_Generation was) ++ str ")")
    | Some now =>
        if negb (r_Generation now =? r_Generation was)
        then Some (str "re-registered " ++ path ++ str " (generation " ++ FormatInt (r_Generation was) ++ str " -> " ++ FormatInt (r_Generation now)
                   ++ str ", " ++ r_Mode now ++ str ")")
        else None
    end) (sortedKeys before)
  ++ omap (fun path =>
    match before !! path with
    | Some _ => None
    | None => now ← after !! path;
              Some (str "consented " ++ path ++ str " (generation " ++ FormatInt (r_Generation now) ++ str ", " ++ r_Mode now ++ str ")")
    end) (sortedKeys after).

(** [strings.Join]. *)
Definition join (sep : bytes) (l : list bytes) : bytes :=
  match l with [] => [] | x :: r => x ++ concat (map (fun y => sep ++ y) r) end.

Definition describeChange (cfg : Config) (prev next : Policy) (doc : RootPolicy.Policy) : bytes :=
  if negb (Valid next) then
    str "consent policy " ++ cfg_Path cfg ++ str " cannot be applied: " ++ Problem next
    ++ str "; content upload is withdrawn (fail closed) until a valid policy is written, and transcript capture continues under the last valid policy ("
    ++ describeRoots (Roots next) ++ str ")"
    ++ match describeRootChanges (Roots prev) (Roots next) with
       | [] => []
       | changes => str "; the unusable document still " ++ join (str "; ") changes
       end
  else
    str "consent policy " ++ cfg_Path cfg ++ str " applied (version " ++ FormatInt (Version next) ++ str "): "
    ++ join (str "; ")
         ((str "content upload " ++ contentState next doc)
          :: (if Valid prev then [] else [str "the policy file is valid again"])
          ++ describeRootChanges (Roots prev) (Roots next) ++ [describeRoots (Roots next)]).

(** ** Operations *)

Section source.
Context (json_text : GoJson.gotype -> bytes -> bytes) (quote : bytes -> bytes).

Abbreviation load os path := (LoadPolicy json_text quote os path).
Abbreviation decode os path := (DecodeFileRecords json_text quote os path).

Definition Open (cfg : Config) (w : World) : result bytes (Source * bytes) :=
  if bool_decide (cfg_Path cfg = []) || negb (IsAbs (cfg_Path cfg)) then Err (str "consent policy path must be absolute")
  else
    st ← statFile w;
    doc ← load (w_os w) (cfg_Path cfg);
    let d := derive cfg doc in
    let first := mkPolicy 1 (ContentUpload d) (Roots d) (Problem d) in
    Ok (mkSource cfg st [] first,
        str "consent policy " ++ cfg_Path cfg ++ str " loaded: content upload " ++ contentState first doc ++ str "; " ++ describeRoots (Roots first)).

Definition failClosed (cfg : Config) (os : OS) (prev : Policy) (err : bytes) : Policy :=
  mkPolicy 0 false
    (match decode os (cfg_Path cfg) with Ok records => narrowRoots (Roots prev) records | Err _ => Roots prev end)
    err.

(** What a check gives: the policy, the source, the line logged and the subscribers run. *)
Record checked : Type := mkChecked {
  ck_policy : Policy;
  ck_source : Source;
  ck_log : option bytes;
  ck_notified : list nat;
}.

(** The decision a re-read comes to: the policy, the document ([doc]'s zero value when unusable) and what is
    now loaded. *)
Definition reread (s : Source) (w : World) : Policy * RootPolicy.Policy * fileState :=
  let zero_doc := RootPolicy.mkPolicy [] [] ContentUnstated in
  match statFile w with
  | Err e => (failClosed (src_cfg s) (w_os w) (src_cur s) e, zero_doc, src_loaded s)
  | Ok st =>
      match load (w_os w) (cfg_Path (src_cfg s)) with
      | Err e => (failClosed (src_cfg s) (w_os w) (src_cur s) e, zero_doc, src_loaded s)
      | Ok d => (derive (src_cfg s) d, d, st)
      end
  end.

Definition unchanged (s : Source) (w : World) : bool :=
  match statFile w with Ok st => Valid (src_cur s) && equal st (src_loaded s) | Err _ => false end.

Definition Current (s : Source) (w : World) : checked :=
  let prev := src_cur s in
  if unchanged s w then mkChecked prev s None []
  else
    let '(next, doc, loaded) := reread s w in
    if samePolicy prev next then mkChecked prev (mkSource (src_cfg s) loaded (src_subs s) prev) None []
    else
      let next := mkPolicy (u64 (Version prev + 1)) (ContentUpload next) (Roots next) (Problem next) in
      mkChecked next (mkSource (src_cfg s) loaded (src_subs s) next) (Some (describeChange (src_cfg s) prev next doc)) (src_subs s).

Definition Latest (s : Source) : Policy := src_cur s.

Definition Subscribe (s : Source) (fn : nat) : Source := mkSource (src_cfg s) (src_loaded s) (src_subs s ++ [fn]) (src_cur s).
End source.

(** ** Records by path *)

Definition distinct_paths (l : list ConsentRecord) : Prop := NoDup (r_Path <$> l).

Lemma distinct_paths_eq l a b : distinct_paths l -> a ∈ l -> b ∈ l -> r_Path a = r_Path b -> a = b.
Proof.
  intros Hd (i&Hi)%list_elem_of_lookup (j&Hj)%list_elem_of_lookup E.
  assert (i = j) as <- by (eapply (NoDup_lookup _ _ _ _ Hd); rewrite list_lookup_fmap; [by rewrite Hi|by rewrite Hj, E]). congruence.
Qed.

Lemma distinct_paths_filter (P : ConsentRecord -> Prop) `{forall r, Decision (P r)} l : distinct_paths l -> distinct_paths (filter P l).
Proof. intros Hd. eapply sublist_NoDup; [exact Hd|]. apply fmap_sublist, sublist_filter. Qed.

Lemma Allows_iff p root generation : distinct_paths (Roots p) ->
  Allows p root generation = true <-> exists r, r ∈ Roots p /\ r_Path r = root /\ r_Active r = true /\ r_Generation r = generation.
Proof.
  intros Hd. unfold Allows. split.
  - destruct (find _ (Roots p)) as [r|] eqn:E; [|done]. apply find_some in E as [Hr Hp]. apply list_elem_of_In in Hr. apply bool_decide_eq_true in Hp.
    intros [Ha Hg%Z.eqb_eq]%andb_prop. eauto.
  - intros (r&Hr&Hp&Ha&Hg). destruct (find _ (Roots p)) as [r'|] eqn:E.
    + apply find_some in E as [Hr' Hp']. apply list_elem_of_In in Hr'. apply bool_decide_eq_true in Hp'.
      rewrite (distinct_paths_eq _ r' r Hd) by (done || congruence). rewrite Ha. by apply Z.eqb_eq.
    + pose proof (RootPolicy.find_none _ _ _ E Hr) as Hn. cbn in Hn. by apply bool_decide_eq_false in Hn.
Qed.

(** A map filled in order holds, at a key, the last value put there. *)
Lemma fold_insert_elem {V} (keep : ConsentRecord -> bool) (val : ConsentRecord -> V) l : forall (m : gmap bytes V) k v,
  fold_left (fun m r => if keep r then <[r_Path r := val r]> m else m) l m !! k = Some v ->
  m !! k = Some v \/ exists r, r ∈ l /\ keep r = true /\ r_Path r = k /\ val r = v.
Proof.
  induction l as [|r l IH]; intros m k v H; cbn in H; [by left|]. destruct (IH _ _ _ H) as [Hm|(r'&?&?)]; [|right; exists r'; split; [by right|done]].
  destruct (keep r) eqn:Ek; [|by left]. destruct (decide (r_Path r = k)) as [<-|Hk].
  - rewrite lookup_insert_eq in Hm. injection Hm as <-. right. exists r. split; [by left|done].
  - rewrite lookup_insert_ne in Hm by done. by left.
Qed.

Lemma still_active_elem doc k g : still_active doc !! k = Some g -> exists r, r ∈ doc /\ r_Active r = true /\ r_Path r = k /\ r_Generation r = g.
Proof. intros [H|?]%(fold_insert_elem r_Active r_Generation); [by rewrite lookup_empty in H|done]. Qed.

Lemma by_path_elem l k r : by_path l !! k = Some r -> r ∈ l /\ r_Path r = k.
Proof.
  intros [H|(r'&?&_&?&->)]%(fold_insert_elem (fun _ => true) (fun r => r)); [by rewrite lookup_empty in H|done].
Qed.

Lemma by_path_found l : forall (m : gmap bytes ConsentRecord) r, distinct_paths l ->
  (r ∈ l \/ ((r_Path r ∉ r_Path <$> l) /\ m !! r_Path r = Some r)) -> fold_left (fun m r => <[r_Path r := r]> m) l m !! r_Path r = Some r.
Proof.
  induction l as [|x l IH]; intros m r Hd H; cbn.
  - destruct H as [H|[_ H]]; [by inversion H|done].
  - apply NoDup_cons in Hd as [Hx Hd]. apply IH; [done|]. destruct H as [[->|H]%elem_of_cons|[Hn Hm]].
    + right. split; [done|]. by rewrite lookup_insert_eq.
    + by left.
    + cbn in Hn. apply not_elem_of_cons in Hn as [Hne Hn]. right. split; [done|]. by rewrite lookup_insert_ne.
Qed.

(** Two policies of distinct paths are the same decision when they hold the same records. *)
Lemma samePolicy_iff a b : distinct_paths (Roots a) -> distinct_paths (Roots b) ->
  samePolicy a b = true <-> ContentUpload a = ContentUpload b /\ Problem a = Problem b /\ Roots a ≡ₚ Roots b.
Proof.
  intros Ha Hb. unfold samePolicy. split.
  - destruct (_ || _) eqn:E; [done|]. apply orb_false_iff in E as [[E1 E2]%orb_false_iff E3].
    apply negb_false_iff, bool_decide_eq_true in E1, E2. apply negb_false_iff, Nat.eqb_eq in E3. intros H. split; [done|]. split; [done|].
    assert (Hsub : Roots b ⊆+ Roots a).
    { apply NoDup_submseteq; [by eapply NoDup_fmap_1|]. intros r Hr. rewrite forallb_forall in H. specialize (H r (proj1 (list_elem_of_In _ _) Hr)).
      apply bool_decide_eq_true in H. by apply by_path_elem in H as [? _]. }
    symmetry. apply submseteq_length_Permutation; [done|lia].
  - intros (->&->&Hp). rewrite !bool_decide_true by done. rewrite Hp, Nat.eqb_refl. cbn. apply forallb_forall. intros r Hr%list_elem_of_In.
    apply bool_decide_eq_true_2. apply by_path_found; [done|]. left. by rewrite Hp.
Qed.

(** ** What a source may grant *)

Section history.
Context (json_text : GoJson.gotype -> bytes -> bytes) (quote : bytes -> bytes) (cfg : Config).

Abbreviation load os path := (LoadPolicy json_text quote os path).
Abbreviation Open := (Open json_text quote).
Abbreviation Current := (Current json_text quote).
Abbreviation reread := (reread json_text quote).

(** The last valid document a check has read. *)
Definition loaded_doc (doc : RootPolicy.Policy) (s : Source) (w : World) : RootPolicy.Policy :=
  if unchanged s w then doc
  else match statFile w, load (w_os w) (cfg_Path (src_cfg s)) with Ok _, Ok d => d | _, _ => doc end.

(** The sources a daemon may hold, with the last valid document. *)
Inductive reachable : RootPolicy.Policy -> Source -> Prop :=
| reach_open w s line doc : Open cfg w = Ok (s, line) -> load (w_os w) (cfg_Path cfg) = Ok doc -> reachable doc s
| reach_check doc s w : reachable doc s -> reachable (loaded_doc doc s w) (ck_source (Current s w))
| reach_subscribe doc s fn : reachable doc s -> reachable doc (Subscribe s fn).

(** What is decided never exceeds the document: it is its decision while the file is valid, and a narrowing
    of it without content otherwise. *)
Record follows (doc : RootPolicy.Policy) (p : Policy) : Prop := mkFollows {
  fo_paths : distinct_paths (Roots p);
  fo_valid : Problem p = [] -> ContentUpload p = ContentUpload (derive cfg doc) /\ Roots p ≡ₚ Roots (derive cfg doc);
  fo_failed : Problem p <> [] -> ContentUpload p = false /\ Roots p ⊆ Roots (derive cfg doc);
}.

Lemma derive_follows os path doc : load os path = Ok doc -> follows doc (derive cfg doc).
Proof.
  intros (_&_&_&_&_&_&_&Hv)%LoadPolicy_Ok. split; [|done|done].
  cbn. apply distinct_paths_filter, (vp_distinct _ _ Hv).
Qed.

Lemma follows_subset doc p : follows doc p -> Roots p ⊆ Roots (derive cfg doc).
Proof.
  intros [_ Hv Hf]. destruct (decide (Problem p = [])) as [E|E]; [|by apply Hf].
  intros r Hr. destruct (Hv E) as [_ Hp]. by rewrite Hp in Hr.
Qed.

Lemma narrow_subset prev doc : narrowRoots prev doc ⊆ prev.
Proof. intros r Hr. by apply list_elem_of_filter in Hr as [_ ?]. Qed.

Lemma failClosed_follows doc os p e : follows doc p -> e <> [] -> follows doc (failClosed json_text quote cfg os p e).
Proof.
  intros Hf He. split; cbn; [|done|].
  - destruct (DecodeFileRecords _ _ _ _); [apply distinct_paths_filter|]; apply Hf.
  - intros _. split; [done|]. pose proof (follows_subset _ _ Hf) as Hs. destruct (DecodeFileRecords _ _ _ _); [|done].
    intros r Hr. by apply Hs, (narrow_subset _ _ _ Hr).
Qed.

(** The version a policy is published under is no part of the decision. *)
Lemma follows_version doc v p : follows doc p -> follows doc (mkPolicy v (ContentUpload p) (Roots p) (Problem p)).
Proof. intros [? ? ?]. by split. Qed.

Lemma follows_same doc p q : follows doc q -> distinct_paths (Roots p) -> samePolicy p q = true -> follows doc p.
Proof.
  intros [Hd Hv Hf] Hp (Ec&Ep&Er)%samePolicy_iff; [|done|done]. split; [done| |].
  - intros E. rewrite Ep in E. destruct (Hv E). by rewrite Ec, Er.
  - intros E. rewrite Ep in E. destruct (Hf E) as [? Hs]. split; [congruence|]. intros r Hr. apply Hs. by rewrite <-Er.
Qed.

Lemma statFile_says w e : statFile w = Err e -> e <> [].
Proof. unfold statFile. destruct (w_stat w); [done|]. by intros [= <-]. Qed.

Lemma load_says os path e : load os path = Err e -> e <> [].
Proof. intros H. pose proof (LoadPolicy_says json_text quote os path) as Hs. by rewrite H in Hs. Qed.

Lemma reread_follows doc s w : src_cfg s = cfg -> follows doc (src_cur s) -> unchanged s w = false ->
  follows (loaded_doc doc s w) (reread s w).1.1.
Proof.
  intros Hc Hf Hu. unfold loaded_doc, Consent.reread. rewrite Hu, Hc.
  destruct (statFile w) as [st|e] eqn:Es; [|apply failClosed_follows; [done|by eapply statFile_says]].
  destruct (load (w_os w) (cfg_Path cfg)) as [d|e] eqn:El; [by eapply derive_follows|].
  apply failClosed_follows; [done|by eapply load_says].
Qed.

Lemma Current_follows doc s w : src_cfg s = cfg -> follows doc (src_cur s) ->
  src_cfg (ck_source (Current s w)) = cfg /\ follows (loaded_doc doc s w) (src_cur (ck_source (Current s w))).
Proof.
  intros Hc Hf. unfold Consent.Current. destruct (unchanged s w) eqn:Hu.
  - split; [done|]. unfold loaded_doc. by rewrite Hu.
  - pose proof (reread_follows doc s w Hc Hf Hu) as Hr. destruct (reread s w) as [[next d] loaded] eqn:Er. cbn in Hr.
    destruct (samePolicy (src_cur s) next) eqn:Hs; (split; [done|]); cbn.
    + eapply follows_same; [exact Hr|apply Hf|done].
    + by apply follows_version.
Qed.

Lemma reachable_follows doc s : reachable doc s -> src_cfg s = cfg /\ follows doc (src_cur s).
Proof.
  induction 1 as [w s line doc Ho Hl|doc s w _ [Hc Hf]|doc s fn _ [Hc Hf]].
  - unfold Consent.Open in Ho. destruct (_ || _); [done|]. apply bind_Ok in Ho as (st&_&Ho). rewrite Hl in Ho. cbn in Ho. injection Ho as <- <-.
    split; [done|]. cbn. apply (follows_version doc 1 (derive cfg doc)). by eapply derive_follows.
  - by apply Current_follows.
  - done.
Qed.

Lemma derive_allows doc os path root generation : load os path = Ok doc ->
  Allows (derive cfg doc) root generation = true
  <-> exists r, r ∈ RootPolicy.Roots doc /\ cfg_Capturable cfg r = true /\ r_Path r = root /\ r_Active r = true /\ r_Generation r = generation.
Proof.
  intros H. rewrite Allows_iff by (by eapply fo_paths, derive_follows). cbn. split.
  - intros (r&[Hc Hr]%list_elem_of_filter&?). by exists r.
  - intros (r&Hr&Hc&?). exists r. split; [|done]. by apply list_elem_of_filter.
Qed.

Lemma reachable_loaded doc s : reachable doc s -> exists os, load os (cfg_Path cfg) = Ok doc.
Proof.
  induction 1 as [w s line doc Ho Hl|doc s w Hr [os IH]|doc s fn _ IH]; [by eexists| |done].
  unfold loaded_doc. destruct (unchanged s w); [by eexists|]. rewrite (proj1 (reachable_follows _ _ Hr)).
  destruct (statFile w); [|by eexists]. destruct (load (w_os w) (cfg_Path cfg)) eqn:E; by eexists.
Qed.

(** A consent record of the document that a policy may act on. *)
Definition grants (doc : RootPolicy.Policy) (root : bytes) (generation : Z) : Prop :=
  exists r, r ∈ RootPolicy.Roots doc /\ cfg_Capturable cfg r = true /\ r_Path r = root /\ r_Active r = true /\ r_Generation r = generation.

(** The content decision of a document. *)
Definition content_granted (doc : RootPolicy.Policy) : Prop :=
  Content doc = ContentGranted \/ Content doc = ContentUnstated /\ cfg_ContentDefault cfg = true.

Lemma derive_content doc : ContentUpload (derive cfg doc) = true <-> content_granted doc.
Proof. unfold content_granted. cbn. destruct (Content doc); split; try done; try (by auto); [by intros [?|[? ?]]|by intros [?|[? ?]]]. Qed.

Lemma Allows_subset p q root generation :
  distinct_paths (Roots p) -> distinct_paths (Roots q) -> Roots p ⊆ Roots q -> Allows p root generation = true -> Allows q root generation = true.
Proof. intros Hp Hq Hs. rewrite !Allows_iff by done. intros (r&Hr&?). exists r. split; [by apply Hs|done]. Qed.

Lemma Allows_perm p q root generation :
  distinct_paths (Roots p) -> Roots p ≡ₚ Roots q -> Allows p root generation = Allows q root generation.
Proof.
  intros Hp He. assert (Hq : distinct_paths (Roots q)) by (unfold distinct_paths; by rewrite <-He).
  apply eq_true_iff_eq. split; apply Allows_subset; try done; intros r Hr; [by rewrite <-He|by rewrite He].
Qed.

(** C23: Whatever happens to the policy file, what the daemon's policy grants is granted by the last valid
    document the owner wrote: a root at its generation, and content only while the file is valid and that
    document (or, for one that states nothing, the configuration) says so. While the file is valid the policy
    is exactly the document's. *)
Theorem consent_never_exceeds doc s : reachable doc s ->
  (forall root generation, Allows (Latest s) root generation = true -> grants doc root generation)
  /\ (ContentUpload (Latest s) = true -> Valid (Latest s) = true /\ content_granted doc)
  /\ (Valid (Latest s) = true ->
       (forall root generation, grants doc root generation -> Allows (Latest s) root generation = true)
       /\ (content_granted doc -> ContentUpload (Latest s) = true)).
Proof.
  intros Hr. destruct (reachable_loaded _ _ Hr) as [os Hl]. destruct (reachable_follows _ _ Hr) as [Hc Hf]. unfold Latest.
  pose proof (derive_follows _ _ _ Hl) as Hd. split; [|split].
  - intros root generation Ha. apply (derive_allows _ _ _ _ _ Hl). revert Ha. apply Allows_subset; [apply Hf|apply Hd|by apply follows_subset].
  - intros Hu. unfold Valid. case_bool_decide as Hp.
    + split; [done|]. apply derive_content. by rewrite <-(proj1 (fo_valid _ _ Hf Hp)).
    + destruct (fo_failed _ _ Hf Hp). congruence.
  - intros Hv%bool_decide_eq_true. destruct (fo_valid _ _ Hf Hv) as [Ec Er]. split.
    + intros root generation Hg%(derive_allows _ _ _ _ _ Hl). by rewrite (Allows_perm _ _ _ _ (fo_paths _ _ Hf) Er).
    + intros Hg%derive_content. congruence.
Qed.

(** The records of an unusable document that still count. *)
Lemma narrow_allows p doc root generation : distinct_paths (Roots p) ->
  Allows (mkPolicy (Version p) false (narrowRoots (Roots p) doc) (Problem p)) root generation = true ->
  exists d, d ∈ doc /\ r_Active d = true /\ r_Path d = root /\ r_Generation d = generation.
Proof.
  intros Hp. rewrite Allows_iff by (by apply distinct_paths_filter). cbn. intros (r&[Hk Hr]%list_elem_of_filter&<-&Ha&<-).
  rewrite Ha in Hk. apply bool_decide_eq_true, still_active_elem in Hk as (d&?&?&?&?). by exists d.
Qed.

Lemma failed_allows os p e root generation : distinct_paths (Roots p) ->
  Allows (failClosed json_text quote cfg os p e) root generation = true ->
  Allows p root generation = true
  /\ forall ds, DecodeFileRecords json_text quote os (cfg_Path cfg) = Ok ds ->
       exists d, d ∈ ds /\ r_Active d = true /\ r_Path d = root /\ r_Generation d = generation.
Proof.
  intros Hp Ha. unfold failClosed in Ha. destruct (DecodeFileRecords _ _ _ _) as [ds|] eqn:E.
  - split.
    + revert Ha. apply Allows_subset; [by apply distinct_paths_filter|done|apply narrow_subset].
    + intros ? [= <-]. by apply (narrow_allows p).
  - done.
Qed.

(** What a check that reads the file comes to, published or already in force. *)
Lemma Current_decision s w : unchanged s w = false -> distinct_paths (Roots (src_cur s)) -> distinct_paths (Roots (reread s w).1.1) ->
  let p := ck_policy (Current s w) in
  ContentUpload p = ContentUpload (reread s w).1.1 /\ Problem p = Problem (reread s w).1.1
  /\ forall root generation, Allows p root generation = Allows (reread s w).1.1 root generation.
Proof.
  intros Hu Hd Hn. cbv zeta. unfold Consent.Current. rewrite Hu. destruct (reread s w) as [[next d] loaded]. cbn in Hn.
  destruct (samePolicy (src_cur s) next) eqn:Hs; [|done]. apply samePolicy_iff in Hs as (?&?&?); [|done|done]. cbn.
  split; [done|]. split; [done|]. intros root generation. by apply Allows_perm.
Qed.

(** A check applies the file it sees. A valid document decides from then on; with a file that cannot be
    used content is off at once, nothing not already consented to is allowed, and a root the document, if it
    can be decoded, no longer lists as active at that generation is refused. The policy returned is the one
    published, under the next version with every subscriber run if it changed. *)
Theorem Current_applies doc s w : reachable doc s -> unchanged s w = false ->
  let c := Current s w in
  let p := ck_policy c in
  p = Latest (ck_source c)
  /\ (p = Latest s \/ Version p = u64 (Version (Latest s) + 1) /\ ck_notified c = src_subs s /\ is_Some (ck_log c))
  /\ match statFile w, load (w_os w) (cfg_Path cfg) with
     | Ok _, Ok d =>
         Valid p = true /\ (ContentUpload p = true <-> content_granted d)
         /\ forall root generation, Allows p root generation = true <-> grants d root generation
     | _, _ =>
         Valid p = false /\ ContentUpload p = false
         /\ forall root generation, Allows p root generation = true ->
              Allows (Latest s) root generation = true
              /\ forall ds, DecodeFileRecords json_text quote (w_os w) (cfg_Path cfg) = Ok ds ->
                   exists d, d ∈ ds /\ r_Active d = true /\ r_Path d = root /\ r_Generation d = generation
     end.
Proof.
  intros Hr Hu. cbv zeta. destruct (reachable_follows _ _ Hr) as [Hc Hf]. pose proof (reread_follows doc s w Hc Hf Hu) as Hn.
  destruct (Current_decision s w Hu (fo_paths _ _ Hf) (fo_paths _ _ Hn)) as (Ec&Ep&Ea). clear Hn. split; [|split].
  - unfold Consent.Current. rewrite Hu. destruct (reread s w) as [[next d] loaded]. by destruct (samePolicy _ _).
  - unfold Consent.Current. rewrite Hu. destruct (reread s w) as [[next d] loaded]. destruct (samePolicy _ _); [by left|right].
    split; [done|]. split; [done|]. by eexists.
  - unfold Valid. rewrite Ec, Ep. clear Ec Ep. revert Ea. generalize (ck_policy (Current s w)) as p. intros p Ea. unfold Consent.reread in *. rewrite Hc in *.
    destruct (statFile w) as [st|e] eqn:Es.
    + destruct (load (w_os w) (cfg_Path cfg)) as [d|e] eqn:El.
      * split; [done|]. split; [apply derive_content|]. intros root generation. rewrite Ea. by eapply derive_allows.
      * split; [apply bool_decide_eq_false_2; by eapply load_says|]. split; [done|]. intros root generation. rewrite Ea. apply failed_allows, Hf.
    + split; [apply bool_decide_eq_false_2; by eapply statFile_says|]. split; [done|]. intros root generation. rewrite Ea. apply failed_allows, Hf.
Qed.
End history.

(** ** A grant, then a document that cannot be used *)

Definition demo_cfg : Config := mkConfig demo_path false (fun _ => true).
Definition demo_status (mtime : Z) : fileState := mkFileState 1 2 150 mtime 384 mtime 501.
Definition demo_world (content : bytes) (mtime : Z) : World := mkWorld (demo_os content) (Ok (demo_status mtime)).

Definition demo_source : Source := mkSource demo_cfg (demo_status 1) [] (mkPolicy 1 true [demo_root] []).
Definition demo_checked : checked := Eval vm_compute in Current demo_text demo_quote (Subscribe demo_source 3) (demo_world demo_invalid 2).

Lemma demo_reachable : reachable demo_text demo_quote demo_cfg demo_doc (Subscribe demo_source 3).
Proof.
  apply reach_subscribe. eapply (reach_open _ _ _ (demo_world demo_valid 1)); [|exact demo_loads].
  vm_compute. reflexivity.
Qed.

Lemma demo_changed : unchanged (Subscribe demo_source 3) (demo_world demo_invalid 2) = false.
Proof. vm_compute. reflexivity. Qed.

(** The later generation is not granted, the one it no longer lists is withdrawn, and content is off. *)
Lemma demo_withdrawn :
  Allows (Latest demo_source) (str "/p") 7 = true
  /\ Allows (ck_policy demo_checked) (str "/p") 7 = false /\ Allows (ck_policy demo_checked) (str "/p") 8 = false
  /\ ContentUpload (ck_policy demo_checked) = false /\ ck_notified demo_checked = [3%nat].
Proof. vm_compute. split; [reflexivity|]. split; [reflexivity|]. split; [reflexivity|]. split; reflexivity. Qed.

Lemma consent_never_exceeds_witness :
  reachable demo_text demo_quote demo_cfg demo_doc (Subscribe demo_source 3)
  /\ Allows (Latest (Subscribe demo_source 3)) (str "/p") 7 = true /\ grants demo_cfg demo_doc (str "/p") 7.
Proof.
  exact (conj demo_reachable (conj (proj1 demo_withdrawn)
    (proj1 (consent_never_exceeds demo_text demo_quote demo_cfg _ _ demo_reachable) _ _ (proj1 demo_withdrawn)))).
Defined.

Lemma Current_applies_witness :
  let c := Current demo_text demo_quote (Subscribe demo_source 3) (demo_world demo_invalid 2) in
  ck_policy c = Latest (ck_source c) /\ c = demo_checked.
Proof.
  refine (conj (proj1 (Current_applies demo_text demo_quote demo_cfg _ _ (demo_world demo_invalid 2) demo_reachable demo_changed)) _).
  vm_compute. reflexivity.
Defined.
