(* ===== verification/SeqSet.v ===== *)
(** * Sets and maps of sequences as ranges

    [seqSet] and [originIndex] of [internal/observer/daemon/consent_fence.go]: ascending, disjoint ranges of
    [int64], searched by [sort.Search]. The theorems: each operation is the operation on the set, or the
    partial map, the ranges stand for, as long as no sequence is the largest [int64]. *)

From S2P Require Import Prelude.

(** ** [sort.Search] *)

(** The smallest index of which [f] holds, by bisection; [fuel] bounds the halvings. *)
Fixpoint search_from (fuel i j : nat) (f : nat -> bool) : nat :=
  match fuel with
  | O => i
  | S fuel' =>
      if (i <? j)%nat then
        let h := ((i + j) / 2)%nat in
        if f h then search_from fuel' i h f else search_from fuel' (S h) j f
      else i
  end.

Definition Search (n : nat) (f : nat -> bool) : nat := search_from n 0 n f.

(** [f] is false and then true. *)
Definition monotone (f : nat -> bool) : Prop := forall i j, (i <= j)%nat -> f i = true -> f j = true.

Lemma search_from_spec f fuel : forall i j, monotone f -> (i <= j)%nat -> (j - i <= fuel)%nat ->
  (forall k, (k < i)%nat -> f k = false) ->
  let r := search_from fuel i j f in
  (i <= r <= j)%nat /\ (forall k, (k < r)%nat -> f k = false) /\ (r < j -> f r = true)%nat.
Proof.
  induction fuel as [|fuel IH]; intros i j Hm Hij Hf Hlow; cbn [search_from].
  { split; [lia|]. split; [done|lia]. }
  destruct (Nat.ltb_spec i j) as [Hlt|]; [|split; [lia|split; [done|lia]]].
  pose proof (Nat.div_mod (i + j) 2 ltac:(lia)). pose proof (Nat.mod_upper_bound (i + j) 2 ltac:(lia)).
  set (h := ((i + j) / 2)%nat) in *. destruct (f h) eqn:Eh.
  - destruct (IH i h Hm) as (?&Hk&Hr); [lia|lia|done|]. split; [lia|]. split; [done|]. intros ?.
    destruct (decide (search_from fuel i h f < h)%nat) as [?|?]; [by apply Hr|]. assert (search_from fuel i h f = h) as -> by lia. done.
  - destruct (IH (S h) j Hm) as (?&?&?); [lia|lia| |].
    + intros k Hk. destruct (decide (k <= h)%nat); [|lia]. destruct (f k) eqn:Ek; [|done]. by rewrite (Hm k h) in Eh.
    + split; [lia|done].
Qed.

(** On a list sorted for [p], the search finds the first element of which [p] holds. *)
Lemma Search_split {A} (p : A -> bool) (l : list A) (P : A -> Prop) :
  (forall i x, l !! i = Some x -> (p x = true <-> P x)) -> (forall i j x y, (i <= j)%nat -> l !! i = Some x -> l !! j = Some y -> P x -> P y) ->
  let n := Search (length l) (fun i => match l !! i with Some x => p x | None => true end) in
  (n <= length l)%nat /\ Forall (fun x => ~ P x) (take n l) /\ Forall P (drop n l).
Proof.
  intros Hp Hmono. set (f := fun i => match l !! i with Some x => p x | None => true end).
  assert (Hf : monotone f).
  { intros i j Hij. unfold f. destruct (l !! i) as [x|] eqn:Ei.
    - destruct (l !! j) as [y|] eqn:Ej; [|done]. intros Hx%(Hp _ _ Ei). apply (Hp _ _ Ej). by eapply Hmono.
    - apply lookup_ge_None in Ei. rewrite (proj2 (lookup_ge_None l j)) by lia. done. }
  destruct (search_from_spec f (length l) 0 (length l) Hf) as (Hr&Hlow&Hhigh); [lia|lia|lia|].
  unfold Search. fold f. set (n := search_from _ _ _ _) in *. split; [lia|]. split.
  - apply Forall_lookup. intros i x [Hx Hi]%lookup_take_Some. intros HP%(Hp _ _ Hx). specialize (Hlow i Hi). unfold f in Hlow. by rewrite Hx, HP in Hlow.
  - apply Forall_lookup. intros i x Hx. rewrite lookup_drop in Hx. apply (Hp _ _ Hx).
    assert (Hn : f n = true) by (apply Hhigh; apply lookup_lt_Some in Hx; lia).
    pose proof (Hf n (n + i)%nat ltac:(lia) Hn) as Hi. unfold f in Hi. by rewrite Hx in Hi.
Qed.

(** ** [seqSet] *)

Abbreviation range := (Z * Z)%type.

(** The loop of [add]: what is kept, the range merged so far and how many sequences are new. *)
Definition add_step (first last : Z) (acc : list range * range * Z) (r : range) : list range * range * Z :=
  let '(out, merged, added) := acc in
  if i64 (r.2 + 1) <? merged.1 then (out ++ [r], merged, added)
  else if i64 (merged.2 + 1) <? r.1 then (out ++ [merged], r, added)
  else
    let lo := Z.max r.1 first in
    let hi := Z.min r.2 last in
    (out, (Z.min merged.1 r.1, Z.max merged.2 r.2), if lo <=? hi then i64 (added - (hi - lo + 1)) else added).

(** The new set, and how many sequences were not already present. *)
Definition add (s : list range) (first last : Z) : list range * Z :=
  if last <? first then (s, 0)
  else
    let '(out, merged, added) := fold_left (add_step first last) s ([], (first, last), i64 (last - first + 1)) in
    (out ++ [merged], added).

Definition contains (s : list range) (seq : Z) : bool :=
  let i := Search (length s) (fun i => match s !! i with Some r => seq <=? r.2 | None => true end) in
  match s !! i with Some r => r.1 <=? seq | None => false end.

Definition prune (s : list range) (through : Z) : list range :=
  let i := Search (length s) (fun i => match s !! i with Some r => through <? r.2 | None => true end) in
  match drop i s with
  | r :: rest => if r.1 <=? through then (i64 (through + 1), r.2) :: rest else r :: rest
  | [] => []
  end.

(** ** What a set of ranges stands for *)

Definition member (s : list range) (x : Z) : Prop := Exists (fun r => r.1 <= x <= r.2) s.

(** Ascending, disjoint and not adjacent, within [lo] and the largest [int64]. *)
Fixpoint wf_from (lo : Z) (s : list range) : Prop :=
  match s with
  | [] => True
  | r :: rest => lo <= r.1 <= r.2 /\ r.2 < MaxInt64 /\ wf_from (r.2 + 2) rest
  end.

Definition wf_set (s : list range) : Prop := wf_from 1 s.

Lemma wf_weaken lo lo' s : lo' <= lo -> wf_from lo s -> wf_from lo' s.
Proof. destruct s; cbn; [done|]. intros ? (?&?&?). split; [lia|done]. Qed.

Lemma wf_app lo s r : wf_from lo (s ++ [r]) <-> wf_from lo s /\ lo <= r.1 <= r.2 /\ r.2 < MaxInt64 /\ Forall (fun q => q.2 + 1 < r.1) s.
Proof.
  revert lo. induction s as [|q s IH]; intros lo; cbn [wf_from app].
  - split; [intros (?&?&_); repeat split; try lia; constructor|by intros (_&?&?&_)].
  - rewrite IH. split.
    + intros ((?&?)&?&?&?&?&?). repeat split; try lia; try done. constructor; [lia|done].
    + intros (((?&?)&?&?)&?&?&Hall). apply Forall_cons in Hall as [? ?]. repeat split; try lia; try done.
Qed.

Lemma member_app s t x : member (s ++ t) x <-> member s x \/ member t x.
Proof. apply Exists_app. Qed.

Lemma member_cons r s x : member (r :: s) x <-> r.1 <= x <= r.2 \/ member s x.
Proof. apply Exists_cons. Qed.

Lemma member_nil x : member [] x <-> False.
Proof. apply Exists_nil. Qed.

Lemma member_bound lo s x : wf_from lo s -> member s x -> lo <= x < MaxInt64.
Proof.
  revert lo. induction s as [|r s IH]; intros lo Hw Hm; [by apply member_nil in Hm|]. destruct Hw as (?&?&Hw).
  apply member_cons in Hm as [?|Hm]; [lia|]. specialize (IH _ Hw Hm). lia.
Qed.

#[export] Instance member_dec s x : Decision (member s x).
Proof. unfold member. apply _. Defined.

Lemma i64_small z : - MaxInt64 <= z <= MaxInt64 -> i64 z = z.
Proof. intros H. apply i64_id. unfold in_i64, MaxInt64 in *. lia. Qed.

(** ** Counting *)

Lemma length_filter_disjoint {A} (P Q : A -> Prop) `{forall x, Decision (P x)} `{forall x, Decision (Q x)} `{forall x, Decision (P x \/ Q x)} l :
  (forall x, P x -> Q x -> False) -> length (filter (fun x => P x \/ Q x) l) = (length (filter P l) + length (filter Q l))%nat.
Proof.
  intros Hd. induction l as [|x l IH]; [done|]. rewrite !filter_cons. repeat case_decide; cbn; rewrite ?IH; try lia; try tauto; exfalso; eauto using or_introl, or_intror.
Qed.

Lemma length_filter_not {A} (P : A -> Prop) `{forall x, Decision (P x)} l :
  length (filter (fun x => ~ P x) l) = (length l - length (filter P l))%nat.
Proof.
  induction l as [|x l IH]; [done|]. rewrite !filter_cons. pose proof (length_filter P l). destruct (decide (P x)).
  - rewrite decide_False by (by intros ?). cbn. rewrite IH. lia.
  - rewrite decide_True by done. cbn. rewrite IH. lia.
Qed.

Definition overlap (first last : Z) (r : range) : Z := Z.max 0 (Z.min r.2 last - Z.max r.1 first + 1).
Definition overlaps (first last : Z) (s : list range) : Z := foldr (fun r n => overlap first last r + n) 0 s.

Lemma length_filter_range lo hi n : forall first,
  Z.of_nat (length (filter (fun x => lo <= x <= hi) (seqZ first (Z.of_nat n)))) = Z.max 0 (Z.min hi (first + Z.of_nat n - 1) - Z.max lo first + 1).
Proof.
  induction n as [|n IH]; intros first; [rewrite seqZ_nil by lia; change (length _) with 0%nat; lia|]. rewrite seqZ_cons by lia. rewrite filter_cons.
  replace (Z.pred (Z.of_nat (S n))) with (Z.of_nat n) by lia. specialize (IH (Z.succ first)). case_decide; cbn [length]; lia.
Qed.

Lemma overlaps_count first last s : first <= last -> wf_set s ->
  overlaps first last s = Z.of_nat (length (filter (member s) (seqZ first (last - first + 1)))).
Proof.
  intros Hfl. enough (H : forall lo, wf_from lo s -> overlaps first last s = Z.of_nat (length (filter (member s) (seqZ first (last - first + 1))))) by apply H.
  induction s as [|r s IH]; intros lo Hw; cbn [overlaps foldr].
  - rewrite filter_none; [done|]. apply Forall_forall. by intros x _ []%member_nil.
  - destruct Hw as (?&?&Hw). change (foldr _ 0 s) with (overlaps first last s). rewrite (IH _ Hw).
    set (l := seqZ first (last - first + 1)).
    assert (E : filter (member (r :: s)) l = filter (fun x => r.1 <= x <= r.2 \/ member s x) l) by (apply list_filter_iff; intros; apply member_cons).
    rewrite E. unfold l. clear E l. rewrite (length_filter_disjoint (fun x => r.1 <= x <= r.2) (member s)) by (intros x ? Hm; pose proof (member_bound _ _ _ Hw Hm); lia).
    rewrite Nat2Z.inj_add. f_equal. unfold overlap. pose proof (length_filter_range r.1 r.2 (Z.to_nat (last - first + 1)) first) as Hr.
    rewrite Z2Nat.id in Hr by lia. rewrite Hr. lia.
Qed.

Lemma overlaps_le first last s : first <= last -> wf_set s -> overlaps first last s <= last - first + 1.
Proof.
  intros Hfl Hw. rewrite overlaps_count by done. pose proof (length_filter (member s) (seqZ first (last - first + 1))) as H.
  rewrite length_seqZ in H. lia.
Qed.

Lemma overlaps_nonneg first last s : 0 <= overlaps first last s.
Proof. unfold overlaps. induction s as [|r s IH]; cbn [foldr]; [lia|]. unfold overlap at 1. lia. Qed.

Lemma overlaps_snoc first last s r : overlaps first last (s ++ [r]) = overlaps first last s + overlap first last r.
Proof. unfold overlaps. induction s as [|q s IH]; cbn; [lia|]. rewrite IH. lia. Qed.

(** ** [add] *)

(** The state of the loop once [s] has been seen. *)
Record adding (first last : Z) (s : list range) (acc : list range * range * Z) : Prop := mkAdding {
  ad_wf : wf_set (acc.1.1 ++ [acc.1.2]);
  ad_member : forall x, member (acc.1.1 ++ [acc.1.2]) x <-> member s x \/ first <= x <= last;
  ad_added : acc.2 = last - first + 1 - overlaps first last s;
  ad_phase : (acc.1.2.1 <= first /\ last <= acc.1.2.2 /\ acc.1.1 ⊆ s) \/ (last + 1 < acc.1.2.1 /\ exists s', s = s' ++ [acc.1.2]);
}.

Lemma list_subseteq_snoc {A} (l k : list A) x : l ⊆ k -> l ++ [x] ⊆ k ++ [x].
Proof. intros H y [Hy|Hy]%elem_of_app; apply elem_of_app; [left; by apply H|by right]. Qed.

Lemma adding_step first last s r acc :
  1 <= first <= last -> last < MaxInt64 -> wf_set (s ++ [r]) -> adding first last s acc -> adding first last (s ++ [r]) (add_step first last acc r).
Proof.
  intros Hf Hl Hw [Hwf Hm Ha Hp]. destruct acc as [[out merged] added]. cbn [fst snd] in *. pose proof Hw as Hws. apply wf_app in Hw as (Hs&Hr&Hmax&Hbelow).
  pose proof Hwf as Hwm. apply wf_app in Hwm as (Hout&Hmr&Hmmax&Hob). pose proof (overlaps_le first last (s ++ [r]) ltac:(lia) Hws) as Hov.
  pose proof (overlaps_le first last s ltac:(lia) Hs) as Hov'. rewrite overlaps_snoc in Hov. pose proof (overlaps_nonneg first last s) as Hpos.
  assert (Hnn : 0 <= overlap first last r) by (unfold overlap; lia).
  unfold add_step. rewrite !i64_small by lia. destruct (Z.ltb_spec (r.2 + 1) merged.1) as [H1|H1].
  { destruct Hp as [(?&?&Hsub)|(?&s'&->)].
    2: { apply Forall_app in Hbelow as [_ [? _]%Forall_cons]. lia. }
    split; cbn [fst snd].
    - apply wf_app. split; [apply wf_app; split; [done|split; [lia|split; [lia|]]]|split; [lia|split; [lia|]]].
      + rewrite Forall_forall in Hbelow |- *. intros q Hq. by apply Hbelow, Hsub.
      + apply Forall_app. split; [done|]. by constructor.
    - intros x. rewrite <-app_assoc, !member_app, !member_cons, member_nil. specialize (Hm x). rewrite member_app, member_cons, member_nil in Hm. tauto.
    - rewrite overlaps_snoc, Ha. unfold overlap. lia.
    - left. split; [done|]. split; [done|]. by apply list_subseteq_snoc. }
  destruct (Z.ltb_spec (merged.2 + 1) r.1) as [H2|H2].
  { split; cbn [fst snd].
    - apply wf_app. split; [done|]. split; [lia|]. split; [lia|]. apply Forall_app. split; [|by constructor].
      eapply Forall_impl; [exact Hob|]. cbn. intros q Hq. lia.
    - intros x. rewrite (member_app _ [r]), (member_app s [r]). specialize (Hm x). tauto.
    - rewrite overlaps_snoc, Ha. unfold overlap. destruct Hp as [(?&?&_)|(?&_)]; lia.
    - right. split; [|by exists s]. destruct Hp as [(?&?&_)|(?&_)]; lia. }
  destruct Hp as [(Hm1&Hm2&Hsub)|(?&s'&->)].
  2: { apply Forall_app in Hbelow as [_ [? _]%Forall_cons]. lia. }
  split; cbn [fst snd].
  - apply wf_app. cbn. split; [done|]. split; [lia|]. split; [lia|]. rewrite Forall_forall in Hob, Hbelow |- *. intros q Hq.
    specialize (Hob q Hq). specialize (Hbelow q (Hsub q Hq)). lia.
  - intros x. rewrite !member_app, !member_cons, member_nil. specialize (Hm x). rewrite member_app, member_cons, member_nil in Hm. cbn [fst snd].
    assert (Hu : Z.min merged.1 r.1 <= x <= Z.max merged.2 r.2 <-> merged.1 <= x <= merged.2 \/ r.1 <= x <= r.2) by lia.
    rewrite Hu. tauto.
  - rewrite overlaps_snoc, Ha. unfold overlap in *. destruct (Z.leb_spec (Z.max r.1 first) (Z.min r.2 last)); lia.
  - left. cbn. split; [lia|]. split; [lia|]. intros q Hq. apply elem_of_app. left. by apply Hsub.
Qed.

Lemma adding_fold first last s : 1 <= first <= last -> last < MaxInt64 -> wf_set s ->
  adding first last s (fold_left (add_step first last) s ([], (first, last), i64 (last - first + 1))).
Proof.
  intros Hf Hl. induction s as [|r s IH] using rev_ind; intros Hw; cbn [fold_left].
  - rewrite i64_small by lia. split; cbn; [lia| |lia|].
    + intros x. rewrite member_cons, member_nil. cbn. tauto.
    + left. split; [lia|]. split; [lia|done].
  - rewrite fold_left_app. cbn [fold_left]. apply adding_step; [done..|]. apply IH. by apply wf_app in Hw as [? _].
Qed.

Lemma add_ok s first last : 1 <= first -> last < MaxInt64 -> wf_set s ->
  let '(s', n) := add s first last in
  wf_set s' /\ (forall x, member s' x <-> member s x \/ first <= x <= last)
  /\ n = Z.of_nat (length (filter (fun x => ~ member s x) (seqZ first (last - first + 1)))).
Proof.
  intros Hf Hl Hw. unfold add. destruct (Z.ltb_spec last first).
  - split; [done|]. split; [intros x; split; [tauto|intros [?|?]; [done|lia]]|]. rewrite seqZ_nil by lia. done.
  - pose proof (adding_fold first last s ltac:(lia) Hl Hw) as [A1 A2 A3 _].
    destruct (fold_left _ _ _) as [[out merged] added]. cbn [fst snd] in *. split; [done|]. split; [done|].
    rewrite A3, overlaps_count, length_filter_not, length_seqZ by done. pose proof (length_filter (member s) (seqZ first (last - first + 1))) as H1.
    rewrite length_seqZ in H1. lia.
Qed.

(** ** Searching *)

Lemma wf_from_lookup lo s i j r q : wf_from lo s -> (i < j)%nat -> s !! i = Some r -> s !! j = Some q -> r.2 + 1 < q.1 <= q.2.
Proof.
  revert lo i j. induction s as [|x s IH]; intros lo i j Hw Hij Hi Hj; [done|]. destruct Hw as (?&?&Hw). destruct j as [|j]; [lia|].
  destruct i as [|i]; [|apply (IH _ i j Hw); [lia|done|done]]. injection Hi as ->. cbn in Hj.
  assert (Hb : forall lo s j q, wf_from lo s -> s !! j = Some q -> lo <= q.1 <= q.2); [|pose proof (Hb _ _ _ _ Hw Hj); lia].
  clear. intros lo s. revert lo. induction s as [|x s IH]; intros lo j q Hw Hj; [done|]. destruct Hw as (?&?&Hw). destruct j as [|j]; [injection Hj as ->; lia|].
  specialize (IH _ _ _ Hw Hj). lia.
Qed.

Lemma wf_drop lo s n : wf_from lo s -> wf_from lo (drop n s).
Proof.
  revert lo n. induction s as [|r s IH]; intros lo [|n] Hw; try done. cbn. destruct Hw as (?&?&Hw). apply (wf_weaken (r.2 + 2)); [lia|]. by apply IH.
Qed.

(** Where the ranges that end at [x] or later begin. *)
Lemma search_ranges s (x : Z) (p : range -> bool) : wf_set s -> (forall r, p r = true <-> x <= r.2) ->
  let n := Search (length s) (fun i => match s !! i with Some r => p r | None => true end) in
  Forall (fun r => r.2 < x) (take n s) /\ Forall (fun r => x <= r.2) (drop n s) /\ s !! n = head (drop n s).
Proof.
  intros Hw Hp. destruct (Search_split p s (fun r => x <= r.2)) as (_&Ht&Hd).
  - intros i r _. apply Hp.
  - intros i j r q Hij Hi Hj Hx. destruct (decide (i = j)) as [->|]; [congruence|]. pose proof (wf_from_lookup _ _ i j r q Hw ltac:(lia) Hi Hj). lia.
  - split; [eapply Forall_impl; [exact Ht|]; cbn; intros r ?; lia|]. split; [done|]. set (n := Search _ _). rewrite <-(Nat.add_0_r n) at 1. rewrite <-lookup_drop.
    by destruct (drop n s).
Qed.

Lemma member_split s n x : member s x <-> member (take n s) x \/ member (drop n s) x.
Proof. rewrite <-member_app. by rewrite take_drop. Qed.

Lemma not_member_before s x : Forall (fun r => r.2 < x) s -> ~ member s x.
Proof. intros H (r&Hr&?)%Exists_exists. rewrite Forall_forall in H. specialize (H r Hr). lia. Qed.

Lemma contains_spec s x : wf_set s -> contains s x = true <-> member s x.
Proof.
  intros Hw. unfold contains. destruct (search_ranges s x (fun r => x <=? r.2) Hw) as (Ht&Hd&Hn); [intros; apply Z.leb_le|].
  set (n := Search _ _) in *. rewrite Hn, (member_split s n). pose proof (not_member_before _ _ Ht). pose proof (wf_drop _ _ n Hw) as Hwd.
  destruct (drop n s) as [|r rest]; cbn [head].
  - rewrite member_nil. split; [done|tauto].
  - apply Forall_cons in Hd as [? _]. destruct Hwd as (?&?&Hrest). rewrite member_cons, Z.leb_le. split; [intros; right; left; lia|].
    intros [?|[?|Hm]]; [done|lia|]. pose proof (member_bound _ _ _ Hrest Hm). lia.
Qed.

Lemma prune_ok s through : wf_set s -> 0 <= through < MaxInt64 ->
  wf_set (prune s through) /\ forall x, member (prune s through) x <-> member s x /\ through < x.
Proof.
  intros Hw Ht0. unfold prune.
  destruct (search_ranges s (through + 1) (fun r => through <? r.2) Hw) as (Ht&Hd&_); [intros; rewrite Z.ltb_lt; lia|].
  set (n := Search _ _) in *. setoid_rewrite (member_split s n). pose proof (wf_drop _ _ n Hw) as Hwd.
  assert (Hbefore : forall x, member (take n s) x -> x <= through).
  { intros x (r&Hr&?)%Exists_exists. rewrite Forall_forall in Ht. specialize (Ht r Hr). lia. }
  destruct (drop n s) as [|r rest].
  - split; [done|]. intros x. rewrite member_nil. split; [tauto|]. intros [[?|?] ?]; [|done]. specialize (Hbefore x ltac:(done)). lia.
  - apply Forall_cons in Hd as [Hr Hd]. destruct Hwd as (?&?&Hrest).
    assert (Hrm : forall x, member rest x -> through < x) by (intros x Hm; pose proof (member_bound _ _ _ Hrest Hm); lia).
    destruct (Z.leb_spec r.1 through).
    + rewrite i64_small by lia. split; [cbn; repeat split; try lia; done|]. intros x. rewrite !member_cons. cbn [fst snd]. split.
      * intros [?|Hm]; [split; [right; left; lia|lia]|]. specialize (Hrm x Hm). tauto.
      * intros [[?|[?|?]] ?]; [specialize (Hbefore x ltac:(done)); lia|left; lia|by right].
    + split; [cbn; repeat split; try lia; done|]. intros x. rewrite !member_cons. split.
      * intros [?|Hm]; [split; [tauto|lia]|]. specialize (Hrm x Hm). tauto.
      * intros [[?|?] ?]; [specialize (Hbefore x ltac:(done)); lia|done].
Qed.

(** A [seqSet] is the set its ranges stand for, whatever the ranges: adding makes exactly a range of
    sequences members besides what was and counts those that were not, membership is found by bisection, and
    pruning keeps exactly the members above. *)
Theorem seqSet_spec s : wf_set s ->
  (forall first last, 1 <= first -> last < MaxInt64 -> let '(s', n) := add s first last in
     wf_set s' /\ (forall x, member s' x <-> member s x \/ first <= x <= last)
     /\ n = Z.of_nat (length (filter (fun x => ~ member s x) (seqZ first (last - first + 1)))))
  /\ (forall x, contains s x = true <-> member s x)
  /\ (forall through, 0 <= through < MaxInt64 ->
       wf_set (prune s through) /\ forall x, member (prune s through) x <-> member s x /\ through < x).
Proof.
  intros Hw. split; [|split].
  - intros first last Hf Hl. by apply add_ok.
  - intros x. by apply contains_spec.
  - intros through Ht. by apply prune_ok.
Qed.

Lemma seqSet_spec_witness :
  wf_set [(3, 5); (9, 9)]
  /\ (let '(s', n) := add [(3, 5); (9, 9)] 5 8 in
      wf_set s' /\ (forall x, member s' x <-> member [(3, 5); (9, 9)] x \/ 5 <= x <= 8)
      /\ n = Z.of_nat (length (filter (fun x => ~ member [(3, 5); (9, 9)] x) (seqZ 5 (8 - 5 + 1)))))
  /\ add [(3, 5); (9, 9)] 5 8 = ([(3, 9)], 3).
Proof.
  assert (H : wf_set [(3, 5); (9, 9)]) by (unfold wf_set; cbn [wf_from fst snd]; unfold MaxInt64; lia).
  exact (conj H (conj (proj1 (seqSet_spec _ H) 5 8 ltac:(lia) ltac:(unfold MaxInt64; lia)) eq_refl)).
Defined.

(** ** [originIndex] *)

Section origins.
Context {O : Type} `{EqDecision O}.

(** [originRun]. *)
Record originRun : Type := mkRun { run_first : Z; run_last : Z; run_origin : O }.

Implicit Types (s : list originRun) (o : O).

Definition addRun s (first last : Z) o : list originRun :=
  if last <? first then s
  else
    let new := mkRun first last o in
    match list.last s with
    | None => [new]
    | Some r =>
        if run_last r <? first then
          if (i64 (run_last r + 1) =? first) && bool_decide (run_origin r = o)
          then take (length s - 1) s ++ [mkRun (run_first r) last o]
          else s ++ [new]
        else
          let i := Search (length s) (fun i => match s !! i with Some r => first <=? run_last r | None => true end) in
          if match s !! i with Some r => run_first r <=? last | None => false end then s
          else take i s ++ new :: drop i s
    end.

Definition record s (seq : Z) o : list originRun := addRun s seq seq o.

Definition lookup_origin s (seq : Z) : option O :=
  let i := Search (length s) (fun i => match s !! i with Some r => seq <=? run_last r | None => true end) in
  match s !! i with Some r => if run_first r <=? seq then Some (run_origin r) else None | None => None end.

Definition prune_origins s (through : Z) : list originRun :=
  let i := Search (length s) (fun i => match s !! i with Some r => through <? run_last r | None => true end) in
  match drop i s with
  | r :: rest => if run_first r <=? through then mkRun (i64 (through + 1)) (run_last r) (run_origin r) :: rest else r :: rest
  | [] => []
  end.

(** Ascending and disjoint. *)
Definition wf_runs s : Prop :=
  Forall (fun r => 1 <= run_first r <= run_last r /\ run_last r < MaxInt64) s /\ StronglySorted (fun r q => run_last r < run_first q) s.

(** What the runs stand for. *)
Definition captured s (x : Z) o : Prop := exists r, r ∈ s /\ run_first r <= x <= run_last r /\ run_origin r = o.

(** Some sequence of the range is recorded. *)
Definition touches s (first last : Z) : Prop := exists r, r ∈ s /\ run_first r <= last /\ first <= run_last r.

Lemma wf_runs_app s k : wf_runs (s ++ k) <-> wf_runs s /\ wf_runs k /\ (forall r q, r ∈ s -> q ∈ k -> run_last r < run_first q).
Proof.
  unfold wf_runs. rewrite Forall_app, StronglySorted_app. split; [by intros [[? ?] (?&?&?)]|by intros ([? ?]&[? ?]&?)].
Qed.

Lemma wf_runs_one r : 1 <= run_first r <= run_last r -> run_last r < MaxInt64 -> wf_runs [r].
Proof. intros ? ?. split; repeat constructor; lia. Qed.

Lemma captured_app s k x o : captured (s ++ k) x o <-> captured s x o \/ captured k x o.
Proof.
  unfold captured. setoid_rewrite elem_of_app. split; [intros (r&[?|?]&?); [left|right]; by exists r|].
  intros [(r&?&?)|(r&?&?)]; exists r; auto.
Qed.

Lemma captured_one r x o : captured [r] x o <-> run_first r <= x <= run_last r /\ run_origin r = o.
Proof. unfold captured. setoid_rewrite list_elem_of_singleton. split; [by intros (q&->&?)|intros ?; by exists r]. Qed.

(** A sequence has one origin. *)
Lemma captured_unique s x o o' : wf_runs s -> captured s x o -> captured s x o' -> o = o'.
Proof.
  intros [_ Hs] (r&Hr&?&<-) (q&Hq&?&<-). f_equal. apply list_elem_of_lookup in Hr as [i Hi], Hq as [j Hj].
  assert (Hlt : forall i j r q, s !! i = Some r -> s !! j = Some q -> (i < j)%nat -> run_last r < run_first q).
  { clear -Hs. induction Hs as [|a s _ IH Ha]; intros i j r q Hi Hj Hij; [done|]. destruct j as [|j]; [lia|]. destruct i as [|i].
    - injection Hi as ->. rewrite Forall_forall in Ha. apply Ha. by eapply list_elem_of_lookup_2.
    - by apply (IH i j); [done|done|lia]. }
  destruct (decide (i = j)) as [->|]; [congruence|]. destruct (decide (i < j)%nat).
  - specialize (Hlt i j r q Hi Hj ltac:(lia)). lia.
  - specialize (Hlt j i q r Hj Hi ltac:(lia)). lia.
Qed.

(** The runs that end at [x] or later are a suffix. *)
Lemma search_runs s (x : Z) (p : originRun -> bool) : wf_runs s -> (forall r, p r = true <-> x <= run_last r) ->
  let n := Search (length s) (fun i => match s !! i with Some r => p r | None => true end) in
  (forall r, r ∈ take n s -> run_last r < x) /\ (forall r, r ∈ drop n s -> x <= run_last r) /\ s !! n = head (drop n s).
Proof.
  intros [Hb Hs] Hp. destruct (Search_split p s (fun r => x <= run_last r)) as (_&Ht&Hd).
  - intros i r _. apply Hp.
  - intros i j r q Hij Hi Hj Hx. destruct (decide (i = j)) as [->|]; [congruence|].
    rewrite <-(take_drop j s) in Hs. apply StronglySorted_app in Hs as (Hs&_&_).
    assert (Hr : r ∈ take j s) by (apply list_elem_of_lookup; exists i; rewrite lookup_take_lt by lia; done).
    assert (Hq : q ∈ drop j s) by (rewrite (drop_S s q j) by done; by left). specialize (Hs _ _ Hr Hq).
    rewrite Forall_forall in Hb. destruct (Hb q); [by eapply list_elem_of_lookup_2|]. lia.
  - split; [rewrite Forall_forall in Ht; intros r Hr; specialize (Ht r Hr); lia|]. split; [by rewrite Forall_forall in Hd|].
    set (n := Search _ _). rewrite <-(Nat.add_0_r n) at 1. rewrite <-lookup_drop. by destruct (drop n s).
Qed.

Lemma lookup_origin_ok s x o : wf_runs s -> lookup_origin s x = Some o <-> captured s x o.
Proof.
  intros Hw. unfold lookup_origin. destruct (search_runs s x (fun r => x <=? run_last r) Hw) as (Ht&Hd&Hn); [intros; apply Z.leb_le|].
  set (n := Search _ _) in *. rewrite Hn. rewrite <-(take_drop n s) in Hw |- * at 2. rewrite captured_app. apply wf_runs_app in Hw as (_&[Hb Hs]&_).
  assert (Hbefore : ~ captured (take n s) x o) by (intros (r&Hr&?&_); specialize (Ht r Hr); lia).
  destruct (drop n s) as [|r rest]; cbn [head].
  - split; [done|]. intros [?|(r&Hr&_)]; [done|inversion Hr].
  - inversion Hs as [|? ? _ Hall]; subst. rewrite Forall_forall in Hall. assert (Hr : x <= run_last r) by (apply Hd; left).
    destruct (Z.leb_spec (run_first r) x).
    + split.
      * intros [= <-]. right. exists r. split; [left|done].
      * intros [?|(q&[->|Hq]%elem_of_cons&?&<-)]; [done|done|]. specialize (Hall q Hq). lia.
    + split; [done|]. intros [?|(q&[->|Hq]%elem_of_cons&?&_)]; [done|lia|]. specialize (Hall q Hq). lia.
Qed.

Lemma wf_runs_bound s r : wf_runs s -> r ∈ s -> 1 <= run_first r <= run_last r /\ run_last r < MaxInt64.
Proof. intros [Hb _] Hr. rewrite Forall_forall in Hb. by apply Hb. Qed.

(** The last run ends last. *)
Lemma wf_runs_last s r q : wf_runs (s ++ [r]) -> q ∈ s ++ [r] -> run_last q <= run_last r.
Proof.
  intros Hw [Hq| ->%list_elem_of_singleton]%elem_of_app; [|lia]. apply wf_runs_app in Hw as (_&Hr&H).
  specialize (H q r Hq ltac:(by left)). destruct (wf_runs_bound _ r Hr ltac:(by left)). lia.
Qed.

Lemma not_touched s first last x o : ~ touches s first last -> first <= x <= last -> ~ captured s x o.
Proof. intros Ht Hx (r&Hr&?&_). apply Ht. exists r. split; [done|]. lia. Qed.

(** The new run takes its place among the others. *)
Lemma insert_run s k first last o : 1 <= first <= last -> last < MaxInt64 -> wf_runs (s ++ k) ->
  (forall r, r ∈ s -> run_last r < first) -> (forall r, r ∈ k -> last < run_first r) ->
  wf_runs (s ++ mkRun first last o :: k)
  /\ forall x o', captured (s ++ mkRun first last o :: k) x o' <-> captured (s ++ k) x o' \/ first <= x <= last /\ o' = o /\ ~ touches (s ++ k) first last.
Proof.
  intros Hf Hl Hw Hs Hk. split.
  - apply wf_runs_app in Hw as (Hws&Hwk&Hsk). change (mkRun first last o :: k) with ([mkRun first last o] ++ k).
    apply wf_runs_app. split; [done|]. split; [apply wf_runs_app; split; [by apply wf_runs_one|split; [done|]]|].
    + intros r q ->%list_elem_of_singleton Hq. by apply Hk.
    + intros r q Hr [->%list_elem_of_singleton|Hq]%elem_of_app; [by apply Hs|by apply Hsk].
  - assert (Ht : ~ touches (s ++ k) first last).
    { intros (r&[Hr|Hr]%elem_of_app&?&?); [specialize (Hs r Hr); lia|specialize (Hk r Hr); lia]. }
    intros x o'. change (mkRun first last o :: k) with ([mkRun first last o] ++ k). rewrite !captured_app, captured_one. cbn.
    split; [intros [?|[[? <-]|?]]; auto|intros [[?|?]|(?&->&_)]; auto].
Qed.

(** What adding a range to the runs [s] comes to. *)
Definition adds_run s (first last : Z) o s' : Prop :=
  wf_runs s' /\ forall x o', captured s' x o' <-> captured s x o' \/ first <= x <= last /\ o' = o /\ ~ touches s first last.

Lemma extend_run s0 r first last o : first <= last -> last < MaxInt64 -> wf_runs (s0 ++ [r]) -> run_last r + 1 = first -> run_origin r = o ->
  ~ touches (s0 ++ [r]) first last -> adds_run (s0 ++ [r]) first last o (s0 ++ [mkRun (run_first r) last o]).
Proof.
  intros Hf Hl (Hws0&Hwr&Hsr)%wf_runs_app Ea <- Ht. destruct (wf_runs_bound _ r Hwr ltac:(by left)). split.
  - apply wf_runs_app. split; [done|]. split; [by apply wf_runs_one; cbn; lia|]. intros q ? Hq ->%list_elem_of_singleton. cbn. apply Hsr; [done|by left].
  - intros x o'. rewrite !captured_app, !captured_one. cbn. split.
    + intros [?|[? <-]]; [by left; left|]. destruct (decide (x <= run_last r)); [left; right; split; [lia|done]|right; split; [lia|done]].
    + intros [[?|[? <-]]|(?&->&_)]; [by left|right; split; [lia|done]|right; split; [lia|done]].
Qed.

Lemma search_insert s first last o : 1 <= first <= last -> last < MaxInt64 -> wf_runs s -> (exists r, r ∈ s /\ first <= run_last r) ->
  let i := Search (length s) (fun i => match s !! i with Some r => first <=? run_last r | None => true end) in
  adds_run s first last o
    (if match s !! i with Some r => run_first r <=? last | None => false end then s else take i s ++ mkRun first last o :: drop i s).
Proof.
  intros Hf Hl Hw (r&Hrs&Hr) i. destruct (search_runs s first (fun q => first <=? run_last q) Hw) as (Ht&Hd&Hn); [intros; apply Z.leb_le|].
  fold i in Ht, Hd, Hn. rewrite Hn. rewrite <-(take_drop i s) in Hrs. apply elem_of_app in Hrs as [Hrs|Hrs]; [specialize (Ht r Hrs); lia|].
  destruct (drop i s) as [|q rest] eqn:E; [by inversion Hrs|]. cbn [head]. assert (Hq : first <= run_last q) by (apply Hd; by left).
  assert (Es : s = take i s ++ q :: rest) by (by rewrite <-E, take_drop). destruct (Z.leb_spec (run_first q) last).
  - split; [done|]. intros x o'. split; [by left|]. intros [?|(_&_&Hnt)]; [done|]. destruct Hnt.
    exists q. split; [|done]. rewrite Es. apply elem_of_app. right. by left.
  - rewrite Es at 1. rewrite Es in Hw. apply insert_run; [done|done|done|done|].
    apply wf_runs_app in Hw as (_&Hwk&_). intros p [->|Hp]%elem_of_cons; [done|].
    destruct (wf_runs_bound _ q Hwk ltac:(by left)). destruct Hwk as [_ Hs]. inversion Hs as [|? ? _ Hall]; subst.
    rewrite Forall_forall in Hall. specialize (Hall p Hp). lia.
Qed.

Lemma addRun_ok s first last o : 1 <= first -> last < MaxInt64 -> wf_runs s -> adds_run s first last o (addRun s first last o).
Proof.
  intros Hf Hl Hw. unfold addRun. destruct (Z.ltb_spec last first) as [|Hle].
  { split; [done|]. intros x o'. split; [by left|]. intros [?|[? _]]; [done|lia]. }
  destruct (list.last s) as [r|] eqn:Er; [apply last_Some in Er as [s0 ->]|apply last_None in Er as ->].
  2: { apply (insert_run [] [] first last o); [lia|done|done|by inversion 1|by inversion 1]. }
  destruct (Z.ltb_spec (run_last r) first) as [Hr|Hr].
  - assert (Hall : forall q, q ∈ s0 ++ [r] -> run_last q < first) by (intros q Hq; pose proof (wf_runs_last s0 r q Hw Hq); lia).
    destruct (_ && bool_decide (run_origin r = o)) eqn:Em.
    + apply andb_prop in Em as [Ea%Z.eqb_eq Eo%bool_decide_eq_true].
      assert (Hb : 1 <= run_first r <= run_last r /\ run_last r < MaxInt64) by (apply (wf_runs_bound _ r Hw), elem_of_app; right; by left).
      rewrite i64_small in Ea by lia. replace (length (s0 ++ [r]) - 1)%nat with (length s0) by (rewrite length_app; cbn; lia). rewrite take_app_length.
      apply extend_run; try done. intros (q&Hq&?&?). specialize (Hall q Hq). lia.
    + pose proof (insert_run (s0 ++ [r]) [] first last o) as H. rewrite app_nil_r in H. apply H; [lia|done|done|done|by inversion 1].
  - apply search_insert; [lia|done|done|]. exists r. split; [|done]. apply elem_of_app. right. by left.
Qed.

Lemma prune_origins_ok s through : wf_runs s -> 0 <= through < MaxInt64 ->
  wf_runs (prune_origins s through) /\ forall x o, captured (prune_origins s through) x o <-> captured s x o /\ through < x.
Proof.
  intros Hw Ht0. unfold prune_origins. destruct (search_runs s (through + 1) (fun r => through <? run_last r) Hw) as (Ht&Hd&_); [intros; rewrite Z.ltb_lt; lia|].
  set (n := Search _ _) in *. assert (Hs : forall x o, captured s x o <-> captured (take n s) x o \/ captured (drop n s) x o) by (intros; by rewrite <-captured_app, take_drop).
  setoid_rewrite Hs. clear Hs. rewrite <-(take_drop n s) in Hw. apply wf_runs_app in Hw as (_&Hw&_).
  assert (Hbefore : forall x o, captured (take n s) x o -> x <= through) by (intros x o (r&Hr&?&_); specialize (Ht r Hr); lia).
  assert (Hempty : forall x o, ~ captured [] x o) by (intros x o (r&Hr&_); inversion Hr).
  destruct (drop n s) as [|r rest]; [split; [done|]; intros x o; split; [by intros ?%Hempty|intros [[?%Hbefore|?%Hempty] ?]; [lia|done]]|].
  assert (Hr : through + 1 <= run_last r) by (apply Hd; by left). pose proof (wf_runs_bound _ r Hw ltac:(by left)) as Hb.
  change (r :: rest) with ([r] ++ rest) in *. pose proof Hw as (Hwr&Hwrest&Hlt)%wf_runs_app.
  assert (Hrest : forall x o, captured rest x o -> through < x) by (intros x o (q&Hq&?&_); specialize (Hlt r q ltac:(by left) Hq); lia).
  destruct (Z.leb_spec (run_first r) through).
  - rewrite i64_small by lia. change (?a :: rest) with ([a] ++ rest). split.
    + apply wf_runs_app. split; [apply wf_runs_one; cbn; lia|]. split; [done|]. intros p q ->%list_elem_of_singleton Hq. cbn. apply Hlt; [by left|done].
    + intros x o. rewrite !captured_app, !captured_one. cbn. split.
      * intros [[? ?]|Hc]; [split; [right; left; split; [lia|done]|lia]|]. split; [by right; right|by eapply Hrest].
      * intros [[?%Hbefore|[[? ?]|?]] ?]; [lia|left; split; [lia|done]|by right].
  - split; [done|]. intros x o. rewrite !captured_app, captured_one. split.
    + intros [[? ?]|Hc]; (split; [by auto|]); [lia|by eapply Hrest].
    + intros [[?%Hbefore|?] ?]; [lia|done].
Qed.
End origins.
