(* ===== verification/Ledger.v ===== *)
(** * The consent ledger ([internal/observer/daemon/consent_fence.go])

    The file beside the WAL in which the consent fence keeps its decisions: which sequences are withheld and,
    from a graceful shutdown to the next run's first send, the origins of what was not sent. Its encoding with
    a checksum, the strict reader, and the round trip between them. *)

From S2P Require Import Prelude GoStrings Hash.
From S2P Require Import Json.
From S2P Require Import JsonText.
From S2P Require Import GoJson.
From S2P Require Import GoMarshal.
From S2P Require Import StrictDecode.
From S2P Require Import GoLit.
From S2P Require Import SeqSet.

(** ** Data *)

Record consentOrigin : Type := mkOrigin { co_root : bytes; co_generation : Z }.

#[export] Instance consentOrigin_eq_dec : EqDecision consentOrigin.
Proof. solve_decision. Defined.

Record consentLedgerOrigin : Type := mkLedgerOrigin { lo_First : Z; lo_Last : Z; lo_Root : bytes; lo_Generation : Z }.

(** A nil slice is [None]. *)
Record consentLedgerShutdown : Type := mkShutdown {
  sh_HighestDurable : Z;
  sh_AttemptedThrough : Z;
  sh_Origins : option (list consentLedgerOrigin);
}.

Record consentLedger : Type := mkLedger {
  lg_Version : Z;
  lg_Withheld : option (list range);
  lg_Shutdown : option consentLedgerShutdown;
  lg_Checksum : Z;
}.

Definition consentLedgerFilename : bytes := str "consent-ledger.json".
Definition consentLedgerVersion : Z := 1.

Definition LedgerOriginType : gotype := TStruct
  [(str "First", str "first", TInt 64); (str "Last", str "last", TInt 64); (str "Root", str "root", TString);
   (str "Generation", str "generation", TUint 64)].
Definition ShutdownType : gotype := TStruct
  [(str "HighestDurable", str "highest_durable", TInt 64); (str "AttemptedThrough", str "attempted_through", TInt 64);
   (str "Origins", str "origins", TSlice LedgerOriginType)].
Definition LedgerType : gotype := TStruct
  [(str "Version", str "version", TInt 64); (str "Withheld", str "withheld", TSlice (TArray 2 (TInt 64)));
   (str "Shutdown", str "shutdown", TPtr ShutdownType); (str "Checksum", str "crc32c", TUint 32)].

Definition slice_value {A} (enc : A -> goval) (o : option (list A)) : goval := match o with Some l => GSlice (map enc l) | None => GNil end.
Definition slice_of {A} (dec : goval -> A) (v : goval) : option (list A) := match v with GSlice l => Some (map dec l) | _ => None end.

Definition origin_value (o : consentLedgerOrigin) : goval := lit LedgerOriginType
  [("First", GInt (lo_First o)); ("Last", GInt (lo_Last o)); ("Root", GStr (lo_Root o)); ("Generation", GInt (lo_Generation o))]%string.
Definition shutdown_value (s : consentLedgerShutdown) : goval := lit ShutdownType
  [("HighestDurable", GInt (sh_HighestDurable s)); ("AttemptedThrough", GInt (sh_AttemptedThrough s)); ("Origins", slice_value origin_value (sh_Origins s))]%string.
Definition range_value (r : range) : goval := GSlice [GInt r.1; GInt r.2].
Definition ledger_value (l : consentLedger) : goval := lit LedgerType
  [("Version", GInt (lg_Version l)); ("Withheld", slice_value range_value (lg_Withheld l)); ("Shutdown", opt_value shutdown_value (lg_Shutdown l));
   ("Checksum", GInt (lg_Checksum l))]%string.

Definition origin_of (v : goval) : consentLedgerOrigin :=
  let f name := get LedgerOriginType name v in
  mkLedgerOrigin (as_int (f "First"%string)) (as_int (f "Last"%string)) (as_string (f "Root"%string)) (as_int (f "Generation"%string)).
Definition shutdown_of (v : goval) : consentLedgerShutdown :=
  let f name := get ShutdownType name v in
  mkShutdown (as_int (f "HighestDurable"%string)) (as_int (f "AttemptedThrough"%string)) (slice_of origin_of (f "Origins"%string)).
Definition range_of (v : goval) : range := match v with GSlice [a; b] => (as_int a, as_int b) | _ => (0, 0) end.
Definition ledger_of (v : goval) : consentLedger :=
  let f name := get LedgerType name v in
  mkLedger (as_int (f "Version"%string)) (slice_of range_of (f "Withheld"%string))
    (match f "Shutdown"%string with GPtr s => Some (shutdown_of s) | _ => None end) (as_int (f "Checksum"%string)).

(** ** Encoding *)

Definition with_checksum (l : consentLedger) (sum : Z) : consentLedger := mkLedger (lg_Version l) (lg_Withheld l) (lg_Shutdown l) sum.

Definition encodeConsentLedger (doc : consentLedger) : option bytes :=
  body ← Marshal LedgerType (ledger_value (with_checksum doc 0));
  Marshal LedgerType (ledger_value (with_checksum doc (crc32c body))).

(** ** Reading *)

Inductive ledger_error : Type :=
| LedgerRead
| LedgerUnreadable
| LedgerTrailing
| LedgerVersion
| LedgerChecksum
| LedgerShutdown
| LedgerWithheld.

(** The loop over the origins: ascending, and each well formed. *)
Fixpoint origins_ok (prev : Z) (l : list consentLedgerOrigin) : bool :=
  match l with
  | [] => true
  | o :: r =>
      negb ((lo_First o <? 1) || (lo_Last o <? lo_First o) || (lo_First o <=? prev) || bool_decide (lo_Root o = []) || (lo_Generation o =? 0))
      && origins_ok (lo_Last o) r
  end.

Fixpoint withheld_ok (prev : Z) (l : list range) : bool :=
  match l with
  | [] => true
  | r :: rest => negb ((r.1 <? 1) || (r.2 <? r.1) || (r.1 <=? prev)) && withheld_ok r.2 rest
  end.

Definition shutdown_ok (s : consentLedgerShutdown) : bool :=
  negb ((sh_HighestDurable s <? 0) || (sh_AttemptedThrough s <? 0)) && origins_ok 0 (default [] (sh_Origins s)).

(** From what [os.ReadFile] gives: [Ok None] when there is no file. *)
Definition readConsentLedger (read : result unit (option bytes)) : result ledger_error consentLedger :=
  match read with
  | Err _ => Err LedgerRead
  | Ok None => Ok (mkLedger consentLedgerVersion None None 0)
  | Ok (Some data) =>
      match decode_strictly LedgerType data with
      | None => Err LedgerUnreadable
      | Some (v, rest) =>
          let doc := ledger_of v in
          if negb (bool_decide (skip_ws rest = [])) then Err LedgerTrailing
          else if negb (lg_Version doc =? consentLedgerVersion) then Err LedgerVersion
          else
            match Marshal LedgerType (ledger_value (with_checksum doc 0)) with
            | None => Err LedgerUnreadable
            | Some body =>
                if negb (crc32c body =? lg_Checksum doc) then Err LedgerChecksum
                else if negb (match lg_Shutdown doc with Some s => shutdown_ok s | None => true end) then Err LedgerShutdown
                else if negb (withheld_ok 0 (default [] (lg_Withheld doc))) then Err LedgerWithheld
                else Ok (with_checksum doc 0)
            end
      end
  end.

(** ** The round trip *)

(** A ledger the fence writes: its integers and strings fit, and it passes the reader's checks. *)
Record good_ledger (l : consentLedger) : Prop := mkGoodLedger {
  gl_version : lg_Version l = consentLedgerVersion;
  gl_checksum : lg_Checksum l = 0;
  gl_withheld : forall rs, lg_Withheld l = Some rs -> Forall (fun r => in_i64 r.1 /\ in_i64 r.2) rs;
  gl_withheld_ok : withheld_ok 0 (default [] (lg_Withheld l)) = true;
  gl_shutdown : forall s, lg_Shutdown l = Some s -> shutdown_ok s = true /\ in_i64 (sh_HighestDurable s) /\ in_i64 (sh_AttemptedThrough s)
    /\ forall os, sh_Origins s = Some os ->
         Forall (fun o => in_i64 (lo_First o) /\ in_i64 (lo_Last o) /\ valid_utf8 (lo_Root o) /\ 0 <= lo_Generation o < 2 ^ 64) os;
}.

Lemma ledger_wire : wire_type LedgerType = true.
Proof. vm_compute. reflexivity. Qed.

Lemma slice_of_value {A} (enc : A -> goval) dec o : (forall a, dec (enc a) = a) -> slice_of dec (slice_value enc o) = o.
Proof. intros H. destruct o as [l|]; [|done]. cbn. f_equal. rewrite map_map. rewrite <-(map_id l) at 2. by apply map_ext. Qed.

Lemma ledger_of_value l : ledger_of (ledger_value l) = l.
Proof.
  destruct l as [v w s c]. unfold ledger_of.
  change (get LedgerType "Version" (ledger_value _)) with (GInt v). change (get LedgerType "Withheld" (ledger_value _)) with (slice_value range_value w).
  change (get LedgerType "Shutdown" (ledger_value _)) with (opt_value shutdown_value s). change (get LedgerType "Checksum" (ledger_value _)) with (GInt c).
  cbn [as_int]. rewrite slice_of_value by (by intros []). f_equal. destruct s as [[h a os]|]; [|done]. cbn [opt_value]. f_equal. unfold shutdown_of.
  change (get ShutdownType "HighestDurable" (shutdown_value _)) with (GInt h). change (get ShutdownType "AttemptedThrough" (shutdown_value _)) with (GInt a).
  change (get ShutdownType "Origins" (shutdown_value _)) with (slice_value origin_value os). cbn [as_int]. by rewrite slice_of_value by (by intros []).
Qed.

Lemma slice_typed {A} (enc : A -> goval) t o : (forall l, o = Some l -> Forall (fun a => has_type t (enc a)) l) -> has_type (TSlice t) (slice_value enc o).
Proof. destruct o as [l|]; [|done]. intros H. cbn. apply Forall_fmap. by apply H. Qed.

Lemma slice_kept {A} back (enc : A -> goval) o : (forall l, o = Some l -> Forall (fun a => kept back (enc a)) l) -> kept back (slice_value enc o).
Proof. destruct o as [l|]; [|done]. intros H. apply kept_slice, Forall_fmap. by apply H. Qed.

Lemma crc32c_fits s : ufits 32 (crc32c s) = true.
Proof. pose proof (is32_crc32c s) as H. unfold is32 in H. unfold ufits. by rewrite (proj2 (Z.leb_le _ _)), (proj2 (Z.ltb_lt _ _)) by lia. Qed.

Lemma ledger_typed l sum : good_ledger l -> ufits 32 sum = true ->
  has_type LedgerType (ledger_value (with_checksum l sum)) /\ kept (fun j => j) (ledger_value (with_checksum l sum)).
Proof.
  intros [Hv _ Hw _ Hs] Hsum.
  assert (Hwt : has_type (TSlice (TArray 2 (TInt 64))) (slice_value range_value (lg_Withheld l))).
  { apply slice_typed. intros rs Hrs. eapply Forall_impl; [by apply Hw|]. intros r [? ?]. cbn. split; [done|].
    apply Forall_cons. split; [by split; [apply fits_in_i64|]|]. apply Forall_singleton. by split; [apply fits_in_i64|]. }
  assert (Hwk : kept (fun j => j) (slice_value range_value (lg_Withheld l))) by (apply slice_kept; intros rs _; apply Forall_forall; by intros r _).
  assert (Hst : has_type (TPtr ShutdownType) (opt_value shutdown_value (lg_Shutdown l))).
  { apply opt_typed. intros s E. destruct (Hs s E) as (_&?&?&Ho). split; [by split; [apply fits_in_i64|]|]. split; [by split; [apply fits_in_i64|]|]. split; [|done].
    apply slice_typed. intros os Hos. eapply Forall_impl; [by apply Ho|]. intros o (Hf&Hl&_&Hg).
    exact (conj (conj (fits_in_i64 _ Hf) Hf) (conj (conj (fits_in_i64 _ Hl) Hl) (conj I (conj (fits_u64 _ Hg) I)))). }
  assert (Hsk : kept (fun j => j) (opt_value shutdown_value (lg_Shutdown l))).
  { apply opt_kept; [done|]. intros s E. destruct (Hs s E) as (_&_&_&Ho). split; [done|]. split; [done|]. split; [|done].
    apply slice_kept. intros os Hos. eapply Forall_impl; [by apply Ho|]. intros o (_&_&?&_). by repeat split. }
  split.
  - split; [cbn; rewrite Hv; split; [done|by vm_compute]|]. split; [exact Hwt|]. split; [exact Hst|]. by split.
  - split; [done|]. split; [exact Hwk|]. split; [exact Hsk|]. by split.
Qed.

Lemma marshal_struct_total fs vs :
  Forall2 (fun f v => is_Some (marshal (go_type f) v)) fs vs -> is_Some (marshal (TStruct fs) (GStruct vs)).
Proof.
  intros H. cbn [marshal]. assert (Hm : is_Some (marshal_fields marshal fs vs)); [|destruct Hm as [m ->]; by eexists].
  induction H as [|f v fs vs [j Hj] _ [m IH]]; [by eexists|]. cbn [marshal_fields]. rewrite IH. unfold go_type in Hj. rewrite Hj.
  destruct (omitted _ _); by eexists.
Qed.

Lemma marshal_slice_total {A} (enc : A -> goval) t o : (forall a, is_Some (marshal t (enc a))) -> is_Some (marshal (TSlice t) (slice_value enc o)).
Proof.
  intros H. destruct o as [l|]; [|by eexists]. cbn [slice_value marshal]. assert (Hm : is_Some (mapM (marshal t) (map enc l))); [|destruct Hm as [m ->]; by eexists].
  apply mapM_is_Some, Forall_fmap, Forall_forall. auto.
Qed.

Lemma ledger_marshals l : exists raw, Marshal LedgerType (ledger_value l) = Some raw.
Proof.
  assert (H : is_Some (marshal LedgerType (ledger_value l))); [|destruct H as [j Hj]; unfold Marshal; rewrite Hj; by eexists].
  apply marshal_struct_total. apply Forall2_cons. split; [by eexists|]. apply Forall2_cons. split.
  { apply (marshal_slice_total range_value). intros r. by eexists. }
  apply Forall2_cons. split; [|apply Forall2_cons; split; [by eexists|constructor]].
  change (is_Some (marshal (TPtr ShutdownType) (opt_value shutdown_value (lg_Shutdown l)))). destruct (lg_Shutdown l) as [s|]; [|by eexists].
  apply marshal_struct_total. apply Forall2_cons. split; [by eexists|]. apply Forall2_cons. split; [by eexists|]. apply Forall2_cons. split; [|constructor].
  apply (marshal_slice_total origin_value). intros o. by eexists.
Qed.

Lemma encode_total doc : exists data, encodeConsentLedger doc = Some data.
Proof.
  unfold encodeConsentLedger. destruct (ledger_marshals (with_checksum doc 0)) as [body ->]. apply ledger_marshals.
Qed.

Lemma read_encoded doc data : good_ledger doc -> encodeConsentLedger doc = Some data -> readConsentLedger (Ok (Some data)) = Ok doc.
Proof.
  intros Hg (body&Hb&He)%bind_Some. destruct (ledger_typed doc (crc32c body) Hg (crc32c_fits body)) as [Ht Hk].
  unfold readConsentLedger. rewrite (decode_strictly_marshalled _ _ _ ledger_wire Ht Hk He), ledger_of_value. cbn [skip_ws].
  rewrite bool_decide_true by done. change (lg_Version (with_checksum doc (crc32c body))) with (lg_Version doc). rewrite (gl_version _ Hg).
  change (with_checksum (with_checksum doc (crc32c body)) 0) with (with_checksum doc 0). rewrite Hb.
  change (lg_Checksum (with_checksum doc (crc32c body))) with (crc32c body). rewrite !Z.eqb_refl.
  change (lg_Shutdown (with_checksum doc (crc32c body))) with (lg_Shutdown doc).
  change (lg_Withheld (with_checksum doc (crc32c body))) with (lg_Withheld doc). rewrite (gl_withheld_ok _ Hg).
  assert (E : (match lg_Shutdown doc with Some s => shutdown_ok s | None => true end) = true).
  { destruct (lg_Shutdown doc) as [s|] eqn:E; [|done]. by destruct (gl_shutdown _ Hg s E). }
  rewrite E. cbn [negb]. f_equal. pose proof (gl_checksum _ Hg) as Hc. pose proof (gl_version _ Hg) as Hv. destruct doc. cbn in Hc, Hv. subst. done.
Qed.
