(* ===== verification/Fields.v ===== *)
(** * Field validation of the evidence constructors ([internal/observer/evidence/types.go], [policy.go])

    The bounds mirrored from the contract, the shared checks with their typed errors, the patterns of the
    VCS references, and the two privacy filters on free text: root-relative locators and diagnostic
    contexts. *)

From S2P Require Import Prelude GoStrings Json JsonText GoJson WireTypes StrictDecode GoNet GoPath.

(** [MarshalError]: what [json.Marshal] of a union returned. *)
Inductive build_error : Type :=
| BuildError (field detail : bytes)
| MarshalError.

Abbreviation built := (result build_error).

Definition buildErr {A} (field detail : bytes) : built A := Err (BuildError field detail).

Definition maxObservationID : Z := 128.
Definition maxRunID : Z := 128.
Definition maxNativeSessionID : Z := 128.
Definition maxProvider : Z := 64.
Definition maxModel : Z := 128.
Definition maxAdapter : Z := 64.
Definition maxAdapterVersion : Z := 64.
Definition maxParserVersion : Z := 64.
Definition maxTransformVersion : Z := 64.
Definition maxSourceLocator : Z := 512.
Definition maxDiagnosticContext : Z := 1024.
Definition maxCommitIdentifier : Z := 64.
Definition maxPullReqIdentifier : Z := 256.
Definition maxRepoSlug : Z := 140.
Definition maxTeamServerProject : Z := 128.
Definition maxBeadID : Z := 128.
Definition maxPatternID : Z := 128.
Definition maxExtractorVersion : Z := 64.
Definition maxBootID : Z := 128.
Definition maxPriceTableVersion : Z := 64.
Definition maxProviderSource : Z := 64.
Definition maxMessageID : Z := 128.

(** ** Checks *)

Definition too_long (n max : Z) : bytes := str "length " ++ FormatInt n ++ str " exceeds max " ++ FormatInt max.

Definition boundedNonEmpty (field value : bytes) (max : Z) : built unit :=
  if bool_decide (value = []) then buildErr field (str "must be present and non-empty")
  else if max <? zlen value then buildErr field (too_long (zlen value) max)
  else Ok tt.

Definition boundedOptionalPtr (field : bytes) (value : option bytes) (max : Z) : built unit :=
  match value with None => Ok tt | Some v => boundedNonEmpty field v max end.

(** [Valid] of a generated enum. *)
Definition Valid (t : gotype) (v : bytes) : bool := match t with TEnum _ valid => bool_decide (v ∈ valid) | _ => false end.

Definition validEnum (field : bytes) (t : gotype) (v : bytes) : built unit :=
  if Valid t v then Ok tt else buildErr field (str "value is not a member of the closed enum").

(** A count is nothing or a copy. *)
Definition checkedCount (field : bytes) (v : option Z) : built (option Z) :=
  match v with
  | None => Ok None
  | Some n => if n <? 0 then buildErr field (str "must be >= 0") else Ok (Some n)
  end.

Definition nonNegative (field : bytes) (v : Z) : built unit :=
  if v <? 0 then buildErr field (str "must be >= 0") else Ok tt.

Definition optionalString (field value : bytes) (max : Z) : built (option bytes) :=
  if bool_decide (value = []) then Ok None
  else if max <? zlen value then buildErr field (too_long (zlen value) max)
  else Ok (Some value).

(** ** Patterns *)

Definition is_alpha (b : byte) : bool := in_range 97 122 b || in_range 65 90 b.
Definition is_alnum (b : byte) : bool := is_alpha b || is_digit b.
Definition is_hex_lower (b : byte) : bool := is_digit b || in_range 97 102 b.

(** [^([0-9a-f]{40}|[0-9a-f]{64})$]. *)
Definition commitIdentifierPattern (s : bytes) : bool := ((zlen s =? 40) || (zlen s =? 64)) && forallb is_hex_lower s.

(** [^(#[0-9]{1,20}|https://[^ ]{1,240})$]: the last class is of runes, an invalid byte being one. *)
Definition pullRequestIdentifierPattern (s : bytes) : bool :=
  match s with
  | x23 :: ds => (1 <=? zlen ds) && (zlen ds <=? 20) && forallb is_digit ds
  | _ =>
      HasPrefix s (str "https://")
      && (let rs := range_runes (drop 8 s) in
          (1 <=? zlen rs) && (zlen rs <=? 240) && forallb (fun r => negb (bool_decide (r = [x20]))) rs)
  end.

(** [^[A-Za-z0-9._/-]{1,140}$]. *)
Definition repoSlugPattern (s : bytes) : bool :=
  (1 <=? zlen s) && (zlen s <=? 140) && forallb (fun b => is_alnum b || bool_decide (b ∈ [x2e; x5f; x2f; x2d])) s.

Definition validateRepoSlug (slug : bytes) : built (option bytes) :=
  if bool_decide (slug = []) then Ok None
  else if negb (repoSlugPattern slug) then buildErr (str "vcs_reference.repo_slug") (str "must match [A-Za-z0-9._/-]{1,140}")
  else Ok (Some slug).

(** ** Free text *)

Definition isSlugByte (b : byte) : bool := is_alnum b || bool_decide (b ∈ [x2e; x5f; x2d]).

(** A slash after a byte that no slug has. *)
Fixpoint slash_after_nonslug (s : bytes) : bool :=
  match s with
  | a :: r =>
      match r with b :: _ => bool_decide (b = x2f) && negb (isSlugByte a) | [] => false end || slash_after_nonslug r
  | [] => false
  end.

Definition hasEmbeddedAbsolutePath (s : bytes) : bool :=
  if bool_decide (s = []) then false
  else HasPrefix s [x2f] || HasPrefix s [x7e] || Contains [x7e; x2f] s || slash_after_nonslug s.

Definition isRootRelativeLocator (s : bytes) : bool :=
  if bool_decide (s = []) then false
  else if HasPrefix s [x2f] || HasPrefix s [x7e] then false
  else if bool_decide (x00 ∈ s) then false
  else
    let cleaned := Clean s in
    if HasPrefix cleaned [x2f] then false
    else negb (existsb (fun seg => bool_decide (seg = dotdot)) (Split x2f cleaned)).

Definition flatten_lines (s : bytes) : bytes := map (fun b => if bool_decide (b = x0a \/ b = x0d) then x20 else b) s.

Definition sanitizeContext (s : bytes) (max : Z) : bytes :=
  if bool_decide (s = []) then []
  else
    let s := flatten_lines s in
    if hasEmbeddedAbsolutePath s then []
    else if max <? zlen s then take (Z.to_nat max) s
    else s.

(** ** Projections of the policy: an optional field is kept or dropped, never cut *)

Definition keepBounded (value : bytes) (max : Z) : option bytes :=
  if bool_decide (value = []) || (max <? zlen value) then None else Some value.

Definition keepRelativeLocator (value : bytes) (max : Z) : option bytes :=
  if (max <? zlen value) || negb (isRootRelativeLocator value) then None else Some value.

Definition keepRelativeLocatorPtr (value : option bytes) (max : Z) : option bytes :=
  match value with None => None | Some v => keepRelativeLocator v max end.

Definition keepEnumPtr (t : gotype) (v : option bytes) : option bytes :=
  match v with None => None | Some x => if negb (Valid t x) then None else v end.

Definition keepHash (value : bytes) : option bytes :=
  if negb (zlen value =? 64) then None else if forallb is_hex_lower value then Some value else None.

(** ** Facts *)

Definition bounded (max : Z) (s : bytes) : Prop := s <> [] /\ zlen s <= max.

Lemma boundedNonEmpty_Ok field s max : boundedNonEmpty field s max = Ok tt <-> bounded max s.
Proof.
  unfold boundedNonEmpty, bounded. case_bool_decide; [by split; [|intros [? _]]|].
  destruct (Z.ltb_spec max (zlen s)); split; try done; lia.
Qed.

Lemma boundedOptionalPtr_Ok field o max : boundedOptionalPtr field o max = Ok tt <-> (forall s, o = Some s -> bounded max s).
Proof.
  destruct o as [s|]; cbn [boundedOptionalPtr].
  - rewrite boundedNonEmpty_Ok. split; [by intros ? ? [= <-]|eauto].
  - done.
Qed.

Lemma validEnum_Ok field n valid v : validEnum field (TEnum n valid) v = Ok tt <-> v ∈ valid.
Proof. unfold validEnum, Valid. case_bool_decide; split; done. Qed.

Lemma checkedCount_Ok field v o : checkedCount field v = Ok o <-> o = v /\ forall n, v = Some n -> 0 <= n.
Proof.
  destruct v as [n|]; cbn [checkedCount].
  - destruct (Z.ltb_spec n 0); split; try done.
    + intros [_ Hn]. specialize (Hn n eq_refl). lia.
    + intros [= <-]. split; [done|]. by intros m [= <-].
    + intros [-> _]. done.
  - split; [intros [= <-]; done|by intros [-> _]].
Qed.

Lemma nonNegative_Ok field v : nonNegative field v = Ok tt <-> 0 <= v.
Proof. unfold nonNegative. destruct (Z.ltb_spec v 0); split; try done; lia. Qed.

Lemma optionalString_Ok field s max o :
  optionalString field s max = Ok o <-> zlen s <= max /\ o = (if bool_decide (s = []) then None else Some s) \/ s = [] /\ o = None.
Proof.
  unfold optionalString. case_bool_decide as Hs.
  - split; [intros [= <-]; by right|]. by intros [[_ ->]|[_ ->]].
  - destruct (Z.ltb_spec max (zlen s)); split; try done.
    + intros [[? _]|[? _]]; [lia|done].
    + intros [= <-]. by left.
    + intros [[_ ->]|[? _]]; done.
Qed.

(** The locator filter: what it lets through is non-empty, neither absolute nor a home path, holds no
    NUL, and never leaves its root when walked element by element; and it lets all of that through. *)
Theorem isRootRelativeLocator_iff s :
  isRootRelativeLocator s = true
  <-> s <> [] /\ HasPrefix s [x2f] = false /\ HasPrefix s [x7e] = false /\ (x00 ∉ s) /\ stays_inside (Split x2f s).
Proof.
  unfold isRootRelativeLocator. case_bool_decide as Hs; [by split; [|intros [? _]]|].
  destruct (HasPrefix s [x2f]) eqn:Ha; [by split; [|intros (_&?&_)]|].
  destruct (HasPrefix s [x7e]) eqn:Hh; [by split; [|intros (_&_&?&_)]|]. cbn [orb].
  case_bool_decide as H0; [by split; [|intros (_&_&_&?&_)]|]. cbv zeta. rewrite (proj2 (Split_Clean s Ha)).
  rewrite <-Clean_inside by done. rewrite negb_true_iff. split.
  - intros H. refine (conj Hs (conj eq_refl (conj eq_refl (conj H0 _)))). intros Hin.
    assert (existsb (fun seg => bool_decide (seg = dotdot)) (Split x2f (Clean s)) = true); [|congruence].
    apply existsb_exists. exists dotdot. split; [by apply list_elem_of_In|]. by apply bool_decide_eq_true_2.
  - intros (_&_&_&_&Hn). apply not_true_is_false. intros (x&Hx&Hd)%existsb_exists. apply bool_decide_eq_true_1 in Hd as ->.
    by apply list_elem_of_In in Hx.
Qed.

(** What a kept context is: no line break, no path the scan knows, and within the bound. *)
Lemma sanitizeContext_spec s max :
  0 <= max ->
  let c := sanitizeContext s max in
  zlen c <= max /\ (x0a ∉ c) /\ (x0d ∉ c)
  /\ (c <> [] -> hasEmbeddedAbsolutePath (flatten_lines s) = false /\ c = take (Z.to_nat max) (flatten_lines s)).
Proof.
  intros Hm. cbv zeta. unfold sanitizeContext. case_bool_decide as Hs.
  { split_and!; [done|inversion 1|inversion 1|done]. }
  destruct (hasEmbeddedAbsolutePath _) eqn:E. { split_and!; [done|inversion 1|inversion 1|done]. }
  assert (Hn : forall b, b = x0a \/ b = x0d -> b ∉ flatten_lines s).
  { intros b Hb. unfold flatten_lines. intros (x&Hx&_)%list_elem_of_fmap. case_bool_decide as Hc; [|congruence].
    destruct Hb; subst; done. }
  assert (Ht : forall n, (x0a ∉ take n (flatten_lines s)) /\ x0d ∉ take n (flatten_lines s)).
  { intros n. rewrite <-(take_drop n (flatten_lines s)) in Hn. split; intros Hin; eapply Hn; try (by rewrite elem_of_app; left); auto. }
  destruct (Z.ltb_spec max (zlen (flatten_lines s))) as [Hl|Hl].
  - split_and!; [|apply Ht|apply Ht|done]. unfold zlen. rewrite length_take. lia.
  - assert (Et : take (Z.to_nat max) (flatten_lines s) = flatten_lines s) by (apply take_ge; unfold zlen in Hl; lia).
    rewrite Et. split_and!; [done|by apply Hn; left|by apply Hn; right|done].
Qed.

Definition traversal : bytes := str "see ../../etc/passwd".

(** The scan lets a traversal through (and a home path of a named user). *)
Theorem context_keeps_traversal :
  sanitizeContext traversal maxDiagnosticContext = traversal
  /\ isRootRelativeLocator (str "../../etc/passwd") = false
  /\ sanitizeContext (str "in ~alice/.ssh/key") maxDiagnosticContext = str "in ~alice/.ssh/key".
Proof. split_and!; vm_compute; reflexivity. Qed.

(** Cutting in the middle of a character makes the context longer than its bound on the wire. *)
Theorem context_outgrows_bound :
  let s := concat (replicate 1023 [x61]) ++ [xf0; x9f; x98; x80] in
  zlen (sanitizeContext s maxDiagnosticContext) = 1024
  /\ zlen (to_valid (sanitizeContext s maxDiagnosticContext)) = 1026.
Proof. split; vm_compute; reflexivity. Qed.
