(* ===== verification/ContentGuard.v ===== *)
(** * The content lane's refusal gate

    [internal/observer/contentguard/contentguard.go]: which transcript files may be read and uploaded by
    name, and the sniff that refuses a PEM key block. The lower case of a rune beyond ASCII is a parameter:
    the Unicode tables are not modelled. *)

From S2P Require Import Prelude GoStrings Fields.
From S2P Require Import Json.
From S2P Require Import JsonText.
From S2P Require Import GoPath.
From S2P Require Import Glob.

Inductive Reason : Type := ReasonDenylistedName | ReasonNotAllowlisted | ReasonPEMContent.

#[export] Instance Reason_eq_dec : EqDecision Reason.
Proof. solve_decision. Defined.

Definition SniffBytes : nat := 64.

Definition denyBasenames : list bytes :=
  map str ["credentials.json"; ".credentials.json"; "auth.json"; ".claude.json"; "google_accounts.json"; "settings.json"; "config.json";
           "mcp.json"; "mcp_config.json"; "mcp-needs-auth-cache.json"; "stats-cache.json"; "history.jsonl"]%string.

Definition denyGlobs : list bytes :=
  map str ["*mcp*.json"; "settings*.json"; "*.env"; "*token*.json"; "*secret*.json"; "*key*.json"]%string.

Definition lower_byte (b : byte) : byte := if in_range 65 90 b then Zb (bZ b + 32) else b.

(** The loop over the layout: a dash where it has one, lower-case hex elsewhere. *)
Definition fits (l c : byte) : bool := if bool_decide (l = x2d) then bool_decide (c = x2d) else is_hex_lower c.

Definition layout : bytes := str "xxxxxxxx-xxxx-xxxx-xxxx-xxxxxxxxxxxx".

Definition isUUIDStem (s : bytes) : bool :=
  bool_decide (length s = length layout) && forallb (fun lc => fits lc.1 lc.2) (zip layout s).

Definition isAgentHexStem (s : bytes) : bool :=
  HasPrefix s (str "agent-")
  && (let hex := drop (length (str "agent-")) s in negb (bool_decide (hex = [])) && forallb is_hex_lower hex).

Definition pemBOM : bytes := [xef; xbb; xbf].
Definition pem_space : bytes := [x20; x09; x0d; x0a; x0b; x0c; x00].
Definition pem_marker : bytes := str "-----BEGIN".

(** [bytes.TrimLeft] of an ASCII cut set. *)
Fixpoint TrimLeft (s cutset : bytes) : bytes :=
  match s with [] => [] | b :: r => if bool_decide (b ∈ cutset) then TrimLeft r cutset else s end.

Definition TrimPrefix (s p : bytes) : bytes := if HasPrefix s p then drop (length p) s else s.

Definition looksLikePEM (head : bytes) : bool := HasPrefix (TrimLeft (TrimPrefix head pemBOM) pem_space) pem_marker.

Definition ScreenContent (content : bytes) : option Reason :=
  let head := if (SniffBytes <? length content)%nat then take SniffBytes content else content in
  if looksLikePEM head then Some ReasonPEMContent else None.

Section guard.
(** [unicode.ToLower] on the encoding of a rune beyond ASCII. *)
Context (lower_rune : bytes -> bytes).

(** [strings.ToLower]. *)
Definition ToLower (s : bytes) : bytes :=
  concat (map (fun r => match r with [b] => [lower_byte b] | _ => lower_rune r end) (range_runes s)).

Definition denied (name : bytes) : bool :=
  let lower := ToLower name in
  HasPrefix name (str ".") || bool_decide (lower ∈ denyBasenames) || existsb (fnmatch lower) denyGlobs.

(** The shapes, of a name in lower case. *)
Definition allowed_lower (provider base : bytes) : bool :=
  if bool_decide (provider = str "claude") then
    HasSuffix base (str ".jsonl")
    && (let stem := TrimSuffix base (str ".jsonl") in isUUIDStem stem || isAgentHexStem stem)
  else if bool_decide (provider = str "codex") then HasSuffix base (str ".jsonl") && HasPrefix base (str "rollout-")
  else false.

Definition allowed (provider base : bytes) : bool := allowed_lower provider (ToLower base).

(** [None]: the name passes. *)
Definition ScreenName (provider path : bytes) : option Reason :=
  let base := Base path in
  if denied base then Some ReasonDenylistedName
  else if negb (allowed provider base) then Some ReasonNotAllowlisted
  else None.
End guard.

(** ** The shapes as grammars *)

Definition hex_run (n : nat) (s : bytes) : Prop := length s = n /\ forallb is_hex_lower s = true.

(** The lower-case names of the transcripts the two providers write. *)
Inductive transcript_name (provider : bytes) : bytes -> Prop :=
| session_name a b c d e : provider = str "claude" -> hex_run 8 a -> hex_run 4 b -> hex_run 4 c -> hex_run 4 d -> hex_run 12 e ->
    transcript_name provider (Join x2d [a; b; c; d; e] ++ str ".jsonl")
| agent_name hex : provider = str "claude" -> hex <> [] -> forallb is_hex_lower hex = true ->
    transcript_name provider (str "agent-" ++ hex ++ str ".jsonl")
| rollout_name x : provider = str "codex" -> transcript_name provider (str "rollout-" ++ x ++ str ".jsonl").

Definition laid_out (lay s : bytes) : Prop := Forall2 (fun l c => fits l c = true) lay s.

Lemma laid_out_x n s : laid_out (replicate n x78) s <-> hex_run n s.
Proof.
  unfold laid_out, hex_run. revert s. induction n as [|n IH]; intros s; cbn.
  - split; [inversion 1; by split|]. destruct s; [|by intros []]. constructor.
  - split.
    + inversion 1 as [|? c ? r Hc Hr]; subst. apply IH in Hr as [<- Hr]. split; [done|]. by apply andb_true_iff.
    + destruct s as [|c r]; [by intros []|]. intros [[= Hl] [Hc Hr]%andb_true_iff]. constructor; [done|]. by apply IH.
Qed.

Lemma laid_out_field n lay s :
  laid_out (replicate n x78 ++ x2d :: lay) s <-> exists a r, s = a ++ x2d :: r /\ hex_run n a /\ laid_out lay r.
Proof.
  split.
  - intros (a&b&Ha&Hb&->)%Forall2_app_inv_l. inversion Hb as [|? c ? r Hc Hr]; subst.
    apply bool_decide_eq_true in Hc as ->. exists a, r. split; [done|]. split; [by apply laid_out_x|done].
  - intros (a&r&->&Ha%laid_out_x&Hr). apply Forall2_app; [done|]. by constructor.
Qed.

Lemma forallb_zip (f : byte -> byte -> bool) l s : length s = length l ->
  forallb (fun lc => f lc.1 lc.2) (zip l s) = true <-> Forall2 (fun a b => f a b = true) l s.
Proof.
  revert s. induction l as [|a l IH]; intros [|b s] Hl; try done; cbn.
  { injection Hl as Hl. rewrite andb_true_iff, IH by done. split; [intros [? ?]; by constructor|by inversion 1]. }
Qed.

Lemma isUUIDStem_iff s : isUUIDStem s = true <->
  exists a b c d e, s = Join x2d [a; b; c; d; e] /\ hex_run 8 a /\ hex_run 4 b /\ hex_run 4 c /\ hex_run 4 d /\ hex_run 12 e.
Proof.
  transitivity (laid_out layout s).
  { unfold isUUIDStem, laid_out. rewrite andb_true_iff, bool_decide_eq_true. split.
    - intros [Hl H]. by apply forallb_zip.
    - intros H. pose proof (Forall2_length _ _ _ H) as Hl. split; [done|]. by apply forallb_zip. }
  change layout with (replicate 8 x78 ++ x2d :: replicate 4 x78 ++ x2d :: replicate 4 x78 ++ x2d :: replicate 4 x78 ++ x2d :: replicate 12 x78).
  split.
  - intros (a&?&->&?&(b&?&->&?&(c&?&->&?&(d&e&->&?&?%laid_out_x)%laid_out_field)%laid_out_field)%laid_out_field)%laid_out_field.
    exists a, b, c, d, e. split; [|done]. cbn [Join map concat]. by rewrite app_nil_r.
  - intros (a&b&c&d&e&->&?&?&?&?&?). cbn [Join map concat]. rewrite app_nil_r.
    apply laid_out_field. eexists a, _. split; [reflexivity|]. split; [done|].
    apply laid_out_field. eexists b, _. split; [reflexivity|]. split; [done|].
    apply laid_out_field. eexists c, _. split; [reflexivity|]. split; [done|].
    apply laid_out_field. eexists d, _. split; [reflexivity|]. split; [done|]. by apply laid_out_x.
Qed.

Lemma isAgentHexStem_iff s : isAgentHexStem s = true <->
  exists hex, s = str "agent-" ++ hex /\ hex <> [] /\ forallb is_hex_lower hex = true.
Proof.
  unfold isAgentHexStem. rewrite andb_true_iff, HasPrefix_spec. split.
  - intros ((k&->)&[Hn Hh]%andb_true_iff). rewrite drop_app_length in Hn, Hh. exists k. split; [done|].
    apply negb_true_iff, bool_decide_eq_false in Hn. done.
  - intros (hex&->&Hn&Hh). split; [by exists hex|]. rewrite drop_app_length. apply andb_true_iff. split.
    + by apply negb_true_iff, bool_decide_eq_false.
    + done.
Qed.

(** The prefix and the suffix of a rollout cannot overlap. *)
Lemma rollout_split s : HasSuffix s (str ".jsonl") = true -> HasPrefix s (str "rollout-") = true ->
  exists x, s = str "rollout-" ++ x ++ str ".jsonl".
Proof.
  intros (y&->)%HasSuffix_spec (x&Hx)%HasPrefix_spec. destruct (decide (length y < 8)%nat) as [Hl|Hl].
  - exfalso. assert (H : (str "rollout-" ++ x) !! length y = Some x2e) by (by rewrite <-Hx, lookup_app_r, Nat.sub_diag by lia).
    destruct (length y) as [|[|[|[|[|[|[|[|n]]]]]]]]; (discriminate H || lia).
  - exists (drop 8 y). rewrite app_assoc. f_equal.
    rewrite <-(take_drop 8 y) at 1. f_equal. apply (f_equal (take 8)) in Hx. rewrite take_app_le in Hx by lia. by rewrite Hx.
Qed.

Lemma allowed_lower_iff provider base : allowed_lower provider base = true <-> transcript_name provider base.
Proof.
  unfold allowed_lower. split.
  - destruct (bool_decide (provider = str "claude")) eqn:Ep; [apply bool_decide_eq_true in Ep|].
    + intros [(k&->)%HasSuffix_spec H]%andb_true_iff. rewrite TrimSuffix_app in H. apply orb_true_iff in H as [H|H].
      * apply isUUIDStem_iff in H as (a&b&c&d&e&->&?&?&?&?&?). by constructor.
      * apply isAgentHexStem_iff in H as (hex&->&?&?). rewrite <-app_assoc. by constructor.
    + destruct (bool_decide (provider = str "codex")) eqn:Eq; [|done]. apply bool_decide_eq_true in Eq.
      intros [Hs Hp]%andb_true_iff. destruct (rollout_split _ Hs Hp) as [x ->]. by constructor.
  - intros H. inversion H as [a b c d e -> ? ? ? ? ?|hex -> ? ?|x ->]; subst base.
    + rewrite bool_decide_true by done. rewrite HasSuffix_app, TrimSuffix_app. apply orb_true_iff. left. apply isUUIDStem_iff. by exists a, b, c, d, e.
    + rewrite bool_decide_true by done. rewrite app_assoc, HasSuffix_app, TrimSuffix_app. apply orb_true_iff. right. apply isAgentHexStem_iff. by exists hex.
    + rewrite bool_decide_false by done. rewrite bool_decide_true by done. rewrite HasPrefix_app, app_assoc, HasSuffix_app. done.
Qed.

(** ** The denylist against the shapes *)

Definition literal (s : bytes) : list element := map (fun p => One (fun ch => bool_decide (p = ch))) s.

Lemma matches_literal s name : matches (literal s) name = true -> name = s.
Proof.
  revert name. induction s as [|b s IH]; intros name; cbn; [by intros ?%bool_decide_eq_true|].
  destruct name as [|c r]; [done|]. by intros [->%bool_decide_eq_true ->%IH]%andb_true_iff.
Qed.

Lemma matches_ends es s name : matches (es ++ literal s) name = true -> exists k, name = k ++ s.
Proof.
  revert name. induction es as [|[|f] es IH]; intros name H.
  - exists []. by apply matches_literal.
  - apply (matches_run (es ++ literal s) name) in H as (k&_&(y&Hy)%IH). exists (take k name ++ y). by rewrite <-app_assoc, <-Hy, take_drop.
  - destruct name as [|c r]; [done|]. cbn in H. apply andb_true_iff in H as [_ (y&->)%IH]. by exists (c :: y).
Qed.

Lemma transcript_ends provider lower : transcript_name provider lower -> exists k, lower = k ++ str ".jsonl".
Proof. intros H. inversion H; subst; eauto. all: eexists (_ ++ _); rewrite <-app_assoc; reflexivity. Qed.

Lemma ends_apart (k k' a b : bytes) : length a = length b -> a <> b -> k ++ a = k' ++ b -> False.
Proof. intros Hl Hn He. apply Hn. by apply app_inj_2 in He as [_ ->]. Qed.

(** No glob of the denylist matches a transcript's name: the globs end in [.json] or [.env]. *)
(** The patterns are read as Python reads them. *)
Lemma denyGlobs_plain : forallb plain denyGlobs = true.
Proof. reflexivity. Qed.

Lemma globs_miss provider lower : transcript_name provider lower -> existsb (fnmatch lower) denyGlobs = false.
Proof.
  intros (k&->)%transcript_ends. apply not_true_iff_false. intros (g&Hg&Hm)%existsb_exists. rewrite fnmatch_matches in Hm.
  assert (He : exists es s, elements g = es ++ literal s /\ (s = str "json" \/ s = str ".env")).
  { destruct Hg as [<-|[<-|[<-|[<-|[<-|[<-|[]]]]]]].
    - by exists (Run :: literal (str "mcp") ++ Run :: literal (str ".")), (str "json"); auto.
    - by exists (literal (str "settings") ++ Run :: literal (str ".")), (str "json"); auto.
    - by exists [Run], (str ".env"); auto.
    - by exists (Run :: literal (str "token") ++ Run :: literal (str ".")), (str "json"); auto.
    - by exists (Run :: literal (str "secret") ++ Run :: literal (str ".")), (str "json"); auto.
    - by exists (Run :: literal (str "key") ++ Run :: literal (str ".")), (str "json"); auto. }
  destruct He as (es&s&He&Hs). rewrite He in Hm. apply matches_ends in Hm as (k'&Hk).
  change (str ".jsonl") with (str ".j" ++ str "sonl") in Hk. rewrite app_assoc in Hk.
  destruct Hs as [-> | ->]; by eapply ends_apart in Hk.
Qed.

Lemma basenames_miss provider lower : transcript_name provider lower -> lower ∉ denyBasenames.
Proof.
  intros H Hin. apply allowed_lower_iff in H.
  assert (Hall : Forall (fun b => allowed_lower (str "claude") b = false /\ allowed_lower (str "codex") b = false) denyBasenames).
  { repeat constructor; vm_compute; reflexivity. }
  rewrite Forall_forall in Hall. destruct (Hall lower Hin) as [H1 H2].
  destruct (decide (provider = str "claude")) as [->|N1]; [congruence|]. destruct (decide (provider = str "codex")) as [->|N2]; [congruence|].
  unfold allowed_lower in H. by rewrite !bool_decide_false in H.
Qed.

Section screen.
Context (lower_rune : bytes -> bytes).

Lemma ToLower_dot name : HasPrefix name (str ".") = true -> hd_error (ToLower lower_rune name) = Some x2e.
Proof. by intros (k&->)%HasPrefix_spec. Qed.

Lemma transcript_starts provider lower : transcript_name provider lower -> hd_error lower <> Some x2e.
Proof.
  intros H He. inversion H as [a b c d e _ [Hl Hh] _ _ _ _|hex|x]; subst lower; [|discriminate He..].
  destruct a as [|x a]; [done|]. cbn in He. injection He as ->. discriminate Hh.
Qed.

(** A file passes the gate exactly when its base name, in lower case, is the name of a transcript of
    its provider: a session's UUID, an agent's hexadecimal run, or a rollout, each ending in [.jsonl]. The
    denylist only changes the reason: no name it lists is a transcript's. *)
Theorem ScreenName_passes provider path :
  ScreenName lower_rune provider path = None <-> transcript_name provider (ToLower lower_rune (Base path)).
Proof.
  unfold ScreenName, allowed. split.
  - destruct (denied _ _); [done|]. destruct (allowed_lower _ _) eqn:E; [|done]. intros _. by apply allowed_lower_iff.
  - intros H. rewrite (proj2 (allowed_lower_iff _ _) H). unfold denied.
    rewrite (globs_miss _ _ H), (bool_decide_eq_false_2 _ (basenames_miss _ _ H)), !orb_false_r.
    destruct (HasPrefix (Base path) (str ".")) eqn:E; [|done]. by apply ToLower_dot, (transcript_starts provider) in E.
Qed.
End screen.

(** ** The sniff *)

Lemma TrimLeft_split s cutset : exists ws, s = ws ++ TrimLeft s cutset /\ Forall (fun b => b ∈ cutset) ws.
Proof.
  induction s as [|b r (ws&IH&Hw)]; [by exists []|]. cbn. case_bool_decide as Hb; [|by exists []].
  exists (b :: ws). split; [cbn; by f_equal|by constructor].
Qed.

Lemma TrimLeft_app ws s cutset : Forall (fun b => b ∈ cutset) ws -> TrimLeft (ws ++ s) cutset = TrimLeft s cutset.
Proof. induction 1 as [|b ws Hb _ IH]; [done|]. cbn. by rewrite bool_decide_true. Qed.

(** The sniff refuses a file exactly when its first 64 bytes are a PEM marker behind any blanks,
    control bytes and at most one byte-order mark. *)
Theorem ScreenContent_refuses content :
  ScreenContent content = Some ReasonPEMContent
  <-> exists bom ws rest, take SniffBytes content = bom ++ ws ++ pem_marker ++ rest
        /\ (bom = [] \/ bom = pemBOM) /\ Forall (fun b => b ∈ pem_space) ws.
Proof.
  transitivity (looksLikePEM (take SniffBytes content) = true).
  { unfold ScreenContent. destruct (Nat.ltb_spec SniffBytes (length content)) as [H|H].
    - by destruct (looksLikePEM _).
    - rewrite take_ge by done. by destruct (looksLikePEM _). }
  generalize (take SniffBytes content) as head. intros head. unfold looksLikePEM, TrimPrefix. split.
  - intros (k&Hk)%HasPrefix_spec.
    destruct (HasPrefix head pemBOM) eqn:Hb.
    + apply HasPrefix_spec in Hb as [t ->]. rewrite drop_app_length in Hk. destruct (TrimLeft_split t pem_space) as (ws&Ht&Hw).
      rewrite Hk in Ht. exists pemBOM, ws, k. rewrite Ht. auto.
    + destruct (TrimLeft_split head pem_space) as (ws&Ht&Hw). rewrite Hk in Ht. exists [], ws, k. auto.
  - intros (bom&ws&rest&->&Hb&Hw).
    assert (Hgoal : HasPrefix (TrimLeft (ws ++ pem_marker ++ rest) pem_space) pem_marker = true) by (rewrite TrimLeft_app by done; apply (HasPrefix_app pem_marker rest)).
    destruct Hb as [->| ->]; [|by rewrite HasPrefix_app, drop_app_length].
    cbn [app]. destruct (HasPrefix (ws ++ _) pemBOM) eqn:Hp; [|done]. exfalso. apply HasPrefix_spec in Hp as [t Ht].
    destruct Hw as [|b ws Hin _]; [discriminate Ht|]. cbn in Ht. injection Ht as -> _. by apply (bool_decide_eq_true_2 _) in Hin.
Qed.

(** Non-vacuity of the gate. *)
Definition ascii_only : bytes -> bytes := fun r => r.

Example screen_examples :
  map (fun n => ScreenName ascii_only (str "claude") (str n))
    ["/r/0F8FAD5B-d9cb-469f-a165-70867728950e.jsonl"; "/r/agent-0af.jsonl"; "/r/agent-.jsonl"; "/r/.jsonl"; "/r/History.jsonl"; "/r/my-token-1.json"]%string
  = [None; None; Some ReasonNotAllowlisted; Some ReasonDenylistedName; Some ReasonDenylistedName; Some ReasonDenylistedName].
Proof. vm_compute. reflexivity. Qed.
