(* ===== verification/BeadSecret.v ===== *)
(** * Secret-shaped bead ids ([internal/observer/evidence/beadsecret.go])

    [SecretShapedBeadID id prefix] is the screen between a pattern-matched bead id and the wire. All its
    tests are on ASCII characters, so bytes stand for runes. The theorems: a trusted prefix can only
    loosen the screen, what a screened id cannot be, and that an ordinary id under its prefix passes. *)

From S2P Require Import Prelude GoStrings Json GoNet GoPath.

Definition maxBeadPrefix : Z := 64.

Definition credentialPrefixes : list bytes :=
  map str ["sk"; "rk"; "xoxa"; "xoxb"; "xoxe"; "xoxp"; "xoxr"; "xoxs"; "xapp"; "glpat"; "glptt"; "gldt"; "glrt"; "glcbt"; "gloas";
           "glft"; "glsoat"; "pypi"; "xai"; "pplx"; "nvapi"; "sq0atp"; "sq0csp"]%string.

Definition maxStrictBeadHash : Z := 16.
Definition maxBeadSegment : Z := 32.
Definition minEntropySegment : Z := 16.

Definition is_lower (b : byte) : bool := in_range 97 122 b.
Definition is_upper (b : byte) : bool := in_range 65 90 b.

Definition isBeadSeparator (b : byte) : bool := bool_decide (b = x2d) || bool_decide (b = x2e).

(** Whether p can be the declared prefix of id: never empty, bounded, dash-ended, proper. *)
Definition isDeclaredPrefixOf (p id : bytes) : bool :=
  negb (bool_decide (p = [])) && (zlen p <=? maxBeadPrefix) && (zlen p <? zlen id) && HasSuffix p [x2d] && HasPrefix id p.

Definition is_base36 (b : byte) : bool := is_digit b || is_lower b.

Definition strictBeadTailOK (tail : bytes) : bool :=
  let '(hash, rest) := cut x2e tail in
  let children := default [] rest in
  if bool_decide (hash = []) || (maxStrictBeadHash <? zlen hash) then false
  else if negb (forallb is_base36 hash) then false
  else if bool_decide (children = []) then negb (HasSuffix tail [x2e])
  else forallb (fun c => negb (bool_decide (c = [])) && forallb is_digit c) (Split x2e children).

Definition is_hex (b : byte) : bool := is_digit b || in_range 97 102 b || in_range 65 70 b.

Definition isHexOfLen (s : bytes) (n : Z) : bool := (zlen s =? n) && forallb is_hex s.

Definition segments (id : bytes) : list bytes := FieldsFunc isBeadSeparator id.

(** Five segments in a row of 8, 4, 4, 4 and 12 hex digits. *)
Fixpoint uuid_in (segs : list bytes) : bool :=
  match segs with
  | a :: r =>
      match r with
      | b :: c :: d :: e :: _ =>
          isHexOfLen a 8 && isHexOfLen b 4 && isHexOfLen c 4 && isHexOfLen d 4 && isHexOfLen e 12
      | _ => false
      end || uuid_in r
  | [] => false
  end.
Definition hasUUIDRun (id : bytes) : bool := uuid_in (segments id).

Definition mixedClasses (seg : bytes) : bool :=
  let upper := existsb is_upper seg in
  let lower := existsb is_lower seg in
  let digit := existsb is_digit seg in
  (upper || lower) && digit || upper && lower.

Definition high_entropy (seg : bytes) : bool :=
  (maxBeadSegment <? zlen seg) || ((minEntropySegment <=? zlen seg) && mixedClasses seg).

(** The tail of an id under a credential scheme. *)
Definition scheme_tail (p id scheme : bytes) : bytes := drop (Nat.max (length p) (length scheme + 1)) id.

Definition SecretShapedBeadID (id declaredPrefix : bytes) : bool :=
  let p := if isDeclaredPrefixOf declaredPrefix id then declaredPrefix else [] in
  existsb (fun scheme => HasPrefix id (scheme ++ [x2d]) && negb (strictBeadTailOK (scheme_tail p id scheme))) credentialPrefixes
  || hasUUIDRun id
  || existsb high_entropy (segments (drop (length p) id)).

Example anthropic_key : SecretShapedBeadID (str "sk-ant-api03-AbCdEf") (str "sk-") = true.
Proof. reflexivity. Qed.
Example team_bead : SecretShapedBeadID (str "sk-team-1tzraj.13") (str "sk-team-") = false.
Proof. reflexivity. Qed.
Example slug_bead : SecretShapedBeadID (str "ga-1tzraj-repair-merge") (str "ga-") = false.
Proof. reflexivity. Qed.
Example uuid_key : SecretShapedBeadID (str "api-0123ABCD-0123-4567-89ab-0123456789ab") (str "api-") = true.
Proof. reflexivity. Qed.

(** ** Segments *)

Lemma fields_from_app sep a c r cur : sep c = true ->
  fields_from sep (a ++ c :: r) cur = fields_from sep a cur ++ fields_from sep r [].
Proof.
  intros Hc. revert cur. induction a as [|b a IH]; intros cur; cbn [app fields_from]; [by rewrite Hc|].
  destruct (sep b); [|apply IH]. by rewrite IH, app_assoc.
Qed.

(** Up to a separator the segments of a whole are those of its parts. *)
Lemma segments_app a r : segments ((a ++ [x2d]) ++ r) = segments a ++ segments r.
Proof. rewrite <-app_assoc. apply fields_from_app. reflexivity. Qed.

Lemma fields_from_none sep s cur : forallb (fun b => negb (sep b)) s = true ->
  fields_from sep s cur = match cur ++ s with [] => [] | x => [x] end.
Proof.
  revert cur. induction s as [|b s IH]; intros cur H; cbn [fields_from]; [rewrite app_nil_r; by destruct cur|].
  cbn in H. apply andb_prop in H as [Hb H]. apply negb_true_iff in Hb. rewrite Hb, IH by done. by rewrite <-app_assoc.
Qed.

Lemma declared_split p id :
  isDeclaredPrefixOf p id = true -> exists q r, p = q ++ [x2d] /\ id = p ++ r /\ r <> [] /\ (length p <= 64)%nat.
Proof.
  unfold isDeclaredPrefixOf. intros [[[[_ Hl]%andb_prop Hlt]%andb_prop Hs]%andb_prop Hp]%andb_prop.
  apply HasSuffix_spec in Hs as [q ->]. apply HasPrefix_spec in Hp as [r ->]. exists q, r.
  apply Z.leb_le in Hl. apply Z.ltb_lt in Hlt. unfold maxBeadPrefix in Hl. refine (conj eq_refl (conj eq_refl (conj _ _))); [|unfold zlen in Hl; apply Nat2Z.inj_le; exact Hl].
  intros ->. rewrite app_nil_r in Hlt. lia.
Qed.

(** ** A tail that passes the strict check *)

(** A hash and numbered children: no dash. *)
Definition strict_tail (tail : bytes) : Prop :=
  exists hash children, tail = hash ++ concat (map (cons x2e) children)
    /\ hash <> [] /\ zlen hash <= maxStrictBeadHash /\ forallb is_base36 hash = true
    /\ Forall (fun c => c <> [] /\ forallb is_digit c = true) children.

Lemma not_dot (p : byte -> bool) s : p x2e = false -> forallb p s = true -> x2e ∉ s.
Proof. intros Hp Hs Hin. rewrite forallb_forall in Hs. apply list_elem_of_In, Hs in Hin. congruence. Qed.

Lemma Join_children c x l : Join c (x :: l) = x ++ concat (map (cons c) l).
Proof. done. Qed.

Lemma strictBeadTailOK_iff tail : strictBeadTailOK tail = true <-> strict_tail tail.
Proof.
  unfold strictBeadTailOK, strict_tail. destruct (cut x2e tail) as [hash rest] eqn:E. split.
  - destruct (_ || _) eqn:E1; [done|]. apply orb_false_iff in E1 as [Hne Hl]. apply bool_decide_eq_false_1 in Hne. bool_to_prop.
    destruct (forallb is_base36 hash) eqn:Hh; [|done]. cbn [negb]. destruct rest as [r|].
    + apply cut_Some in E as [-> _]. change (default [] (Some r)) with r. destruct (decide (r = [])) as [->|Hr].
      { rewrite bool_decide_eq_true_2 by done. by rewrite HasSuffix_app. }
      rewrite bool_decide_eq_false_2 by done.
      intros Hc. pose proof (Split_elems x2e r) as Hs. exists hash, (Split x2e r).
      assert (Hj : r = Join x2e (Split x2e r)).
      { clear. unfold Split. remember (length r) as n eqn:Hn. assert (H : (length r <= n)%nat) by lia. clear Hn.
        revert r H. induction n as [|n IH]; intros r H; cbn [split]; [cbn; by rewrite app_nil_r|].
        destruct (cut x2e r) as [a [r'|]] eqn:E.
        - apply cut_Some in E as [-> _]. rewrite length_app in H. cbn in H. rewrite (IH r') at 1 by lia.
          cbn [Join]. f_equal. destruct (split n x2e r') as [|y l] eqn:Es; [|done].
          exfalso. destruct n; cbn in Es; [done|]. by destruct (cut x2e r') as [? []].
        - apply cut_None in E as [-> _]. cbn. by rewrite app_nil_r. }
      split_and!; try done.
      * f_equal. rewrite Hj at 1. destruct (Split x2e r) as [|x l]; [|done]. cbn in Hj. congruence.
      * apply Forall_forall. intros c Hin%list_elem_of_In. rewrite forallb_forall in Hc. specialize (Hc c Hin).
        apply andb_prop in Hc as [Hc1 Hc2]. by apply negb_true_iff, bool_decide_eq_false_1 in Hc1.
    + apply cut_None in E as [-> Hd]. intros _. exists tail, []. cbn. rewrite app_nil_r. by split_and!.
  - intros (h&cs&->&Hne&Hl&Hh&Hcs). pose proof (not_dot is_base36 h eq_refl Hh) as Hd.
    assert (Hcut : hash = h /\ default [] rest = Join x2e cs /\ (cs = [] -> rest = None)).
    { destruct cs as [|c cs]; cbn [map concat app] in E.
      - rewrite app_nil_r, cut_all in E by done. by injection E as <- <-.
      - rewrite cut_app in E by done. injection E as <- <-. done. }
    destruct Hcut as (->&Hrest&Hnone). rewrite Hrest.
    rewrite bool_decide_eq_false_2 by done. rewrite (proj2 (Z.ltb_ge _ _) Hl), Hh. cbn [orb negb].
    destruct cs as [|c cs].
    + cbn. rewrite app_nil_r. apply negb_true_iff. destruct (HasSuffix h [x2e]) eqn:Es; [|done].
      apply HasSuffix_spec in Es as [k ->]. destruct Hd. apply elem_of_app. right. by left.
    + rewrite bool_decide_eq_false_2 by (inversion Hcs as [|? ? [Hc _]]; by destruct c).
      rewrite Split_Join; [|done|].
      * apply forallb_forall. intros x Hx%list_elem_of_In. rewrite Forall_forall in Hcs. destruct (Hcs x Hx) as [? ->].
        by rewrite bool_decide_eq_false_2.
      * eapply Forall_impl; [exact Hcs|]. intros x [_ Hx]. exact (not_dot is_digit x eq_refl Hx).
Qed.

Lemma strict_tail_no_dash tail : strict_tail tail -> x2d ∉ tail.
Proof.
  intros (h&cs&->&_&_&Hh&Hcs). rewrite elem_of_app. intros [Hin|Hin].
  - rewrite forallb_forall in Hh. apply list_elem_of_In, Hh in Hin. done.
  - apply list_elem_of_In, in_concat in Hin as (x&Hx&Hin). apply in_map_iff in Hx as (c&<-&Hc).
    apply list_elem_of_In, elem_of_cons in Hin as [?|Hin]; [done|]. apply list_elem_of_In in Hc.
    rewrite Forall_forall in Hcs. destruct (Hcs c Hc) as [_ Hd]. rewrite forallb_forall in Hd. apply list_elem_of_In, Hd in Hin. done.
Qed.

(** ** Theorems *)

(** The scheme of an id: its first segment, which no scheme extends. *)
Lemma schemes_plain : forallb (fun s => negb (existsb isBeadSeparator s)) credentialPrefixes = true.
Proof. by vm_compute. Qed.

(** A dash after the scheme's own is in no strict tail. *)
Lemma colliding_rejected p id scheme :
  scheme ∈ credentialPrefixes -> HasPrefix id (scheme ++ [x2d]) = true -> x2d ∈ scheme_tail p id scheme ->
  existsb (fun s => HasPrefix id (s ++ [x2d]) && negb (strictBeadTailOK (scheme_tail p id s))) credentialPrefixes = true.
Proof.
  intros Hin Hp Hd. apply existsb_exists. exists scheme. split; [by apply list_elem_of_In|]. rewrite Hp. apply negb_true_iff.
  destruct (strictBeadTailOK _) eqn:E; [|done]. by apply strictBeadTailOK_iff, strict_tail_no_dash in E.
Qed.

Lemma scheme_tail_suffix p id scheme b : b ∈ scheme_tail p id scheme -> b ∈ scheme_tail [] id scheme.
Proof.
  unfold scheme_tail. intros H. rewrite Nat.max_r by (cbn; lia).
  replace (Nat.max (length p) (length scheme + 1)) with (length scheme + 1 + (length p - (length scheme + 1)))%nat in H by lia.
  rewrite <-drop_drop in H. revert H. generalize (drop (length scheme + 1) id). intros l H.
  rewrite <-(take_drop (length p - (length scheme + 1)) l), elem_of_app. by right.
Qed.

(** The prefix of an id under a scheme is the scheme and its dash, or longer. *)
Lemma HasPrefix_scheme (q r s : bytes) :
  In s credentialPrefixes -> HasPrefix ((q ++ [x2d]) ++ r) (s ++ [x2d]) = true -> exists u, q ++ [x2d] = (s ++ [x2d]) ++ u.
Proof.
  intros Hin (k&Hk)%HasPrefix_spec. pose proof (proj1 (forallb_forall _ _) schemes_plain s Hin) as Hs. apply negb_true_iff in Hs.
  destruct (decide (length s <= length q)%nat) as [Hl|Hl].
  - exists (drop (length s + 1) (q ++ [x2d])). rewrite <-(take_drop (length s + 1) (q ++ [x2d])) at 1. f_equal.
    assert (E : take (length s + 1) ((q ++ [x2d]) ++ r) = take (length s + 1) ((s ++ [x2d]) ++ k)) by (by rewrite Hk).
    rewrite (take_app_le (q ++ [x2d])), (take_app_le (s ++ [x2d])) in E by (rewrite length_app; cbn; lia). rewrite E. apply take_ge. rewrite length_app. cbn. lia.
  - exfalso. assert (E : (((q ++ [x2d]) ++ r) !! length q) = (((s ++ [x2d]) ++ k) !! length q)) by (by rewrite Hk).
    rewrite <-!app_assoc in E. cbn [app] in E. rewrite list_lookup_middle in E by done. rewrite lookup_app_l in E by lia.
    symmetry in E. apply list_elem_of_lookup_2, list_elem_of_In in E.
    assert (existsb isBeadSeparator s = true) by (apply existsb_exists; by exists x2d). congruence.
Qed.

(** A shorter prefix leaves a longer tail: if that one is strict there is no dash in it to end a longer prefix. *)
Lemma strict_shorter q r s : (exists u, q ++ [x2d] = (s ++ [x2d]) ++ u) ->
  strictBeadTailOK (scheme_tail [] ((q ++ [x2d]) ++ r) s) = true ->
  strictBeadTailOK (scheme_tail (q ++ [x2d]) ((q ++ [x2d]) ++ r) s) = true.
Proof.
  intros [u Hu]. unfold scheme_tail. rewrite Nat.max_r by (cbn; lia). rewrite Hu. intros H.
  assert (El : length (s ++ [x2d]) = (length s + 1)%nat) by (by rewrite length_app).
  rewrite <-El, <-!app_assoc, (app_assoc s [x2d]), drop_app_length in H.
  destruct u as [|b u].
  - rewrite app_nil_r, Nat.max_l, drop_app_length by lia. exact H.
  - exfalso. apply strictBeadTailOK_iff, strict_tail_no_dash in H. apply H. apply elem_of_app. left.
    assert (Hlast : last (q ++ [x2d]) = last ((s ++ [x2d]) ++ b :: u)) by (by rewrite Hu).
    rewrite last_snoc, last_app_cons in Hlast. symmetry in Hlast. by apply last_Some_elem_of in Hlast.
Qed.

(** A trusted prefix only loosens the screen, and never for what matters: an id rejected under a
    declared prefix is rejected without one, a UUID anywhere is rejected under every prefix, and under a
    credential scheme anything after the prefix with a dash in it is. *)
Theorem SecretShapedBeadID_prefix id p :
  (SecretShapedBeadID id p = true -> SecretShapedBeadID id [] = true)
  /\ (hasUUIDRun id = true -> SecretShapedBeadID id p = true)
  /\ (forall scheme, scheme ∈ credentialPrefixes -> HasPrefix id (scheme ++ [x2d]) = true -> x2d ∈ scheme_tail p id scheme ->
      SecretShapedBeadID id p = true).
Proof.
  unfold SecretShapedBeadID. change (isDeclaredPrefixOf [] id) with false. cbv iota.
  destruct (isDeclaredPrefixOf p id) eqn:Ep; cbv iota zeta.
  2:{ split; [done|]. split; [intros ->; by rewrite orb_true_r|]. intros scheme Hin Hp Hd.
      rewrite (colliding_rejected [] id scheme Hin Hp); [done|]. by eapply scheme_tail_suffix. }
  split; [|split; [intros ->; by rewrite orb_true_r|intros scheme Hin Hp Hd; by rewrite (colliding_rejected p id scheme)]].
  apply declared_split in Ep as (q&r&->&->&Hr&Hl). rewrite drop_app_length, !orb_true_iff. intros [[H|H]|H].
  - left. left. apply existsb_exists in H as (s&Hin&[Hp Hs]%andb_prop). apply existsb_exists. exists s. split; [done|].
    rewrite Hp. apply negb_true_iff in Hs. apply negb_true_iff. destruct (strictBeadTailOK (scheme_tail [] _ _)) eqn:E; [|done].
    rewrite <-Hs. symmetry. apply strict_shorter; [|done]. exact (HasPrefix_scheme q r s Hin Hp).
  - left. by right.
  - right. change (drop (length (@nil byte)) ((q ++ [x2d]) ++ r)) with ((q ++ [x2d]) ++ r). rewrite segments_app, existsb_app, H. apply orb_true_r.
Qed.

(** The prefix of an id starts with every scheme its id does. *)
Lemma scheme_tail_prefix p r s :
  In s credentialPrefixes -> (exists q, p = q ++ [x2d]) -> HasPrefix (p ++ r) (s ++ [x2d]) = true -> scheme_tail p (p ++ r) s = r.
Proof.
  intros Hin [q ->] Hp. destruct (HasPrefix_scheme q r s Hin Hp) as [u Hu]. unfold scheme_tail.
  assert (El : length (q ++ [x2d]) = (length s + 1 + length u)%nat) by (rewrite Hu, !length_app; cbn; lia).
  rewrite Nat.max_l by lia. apply drop_app_length.
Qed.

Lemma segments_children h cs :
  h <> [] -> forallb (fun b => negb (isBeadSeparator b)) h = true ->
  Forall (fun c => c <> [] /\ forallb is_digit c = true) cs -> segments (h ++ concat (map (cons x2e) cs)) = h :: cs.
Proof.
  intros Hne Hh Hcs. revert h Hne Hh. induction Hcs as [|c cs [Hc Hd] _ IH]; intros h Hne Hh; cbn [map concat].
  - rewrite app_nil_r. unfold segments, FieldsFunc. rewrite fields_from_none by done. by destruct h.
  - unfold segments, FieldsFunc. rewrite <-app_comm_cons, fields_from_app, fields_from_none by done. cbn [app].
    destruct h as [|b h]; [done|]. cbn [app]. f_equal. apply IH; [done|]. rewrite forallb_forall in *. intros x Hx. specialize (Hd x Hx).
    revert Hd. by destruct x; vm_compute.
Qed.

(** An ordinary bead id under its declared prefix is captured, also when the prefix collides with a
    credential scheme: a base36 hash shorter than the entropy bound and numbered children, unless the
    whole reads as a UUID. *)
Theorem SecretShapedBeadID_ordinary p hash children :
  let id := p ++ hash ++ concat (map (cons x2e) children) in
  isDeclaredPrefixOf p id = true -> hash <> [] -> zlen hash < minEntropySegment -> forallb is_base36 hash = true ->
  Forall (fun c => c <> [] /\ zlen c <= maxBeadSegment /\ forallb is_digit c = true) children ->
  SecretShapedBeadID id p = hasUUIDRun id.
Proof.
  intros id Hp Hne Hl Hh Hcs. unfold SecretShapedBeadID. rewrite Hp. cbv iota zeta.
  apply declared_split in Hp as (q&_&Hq&_&_&_).
  assert (Hcs' : Forall (fun c => c <> [] /\ forallb is_digit c = true) children)
    by (eapply Forall_impl; [exact Hcs|]; by intros c (?&?&?)).
  assert (Hst : strictBeadTailOK (hash ++ concat (map (cons x2e) children)) = true).
  { apply strictBeadTailOK_iff. exists hash, children. unfold minEntropySegment, maxStrictBeadHash in *. split_and!; [done|done|lia|done|done]. }
  assert (H1 : existsb (fun s => HasPrefix id (s ++ [x2d]) && negb (strictBeadTailOK (scheme_tail p id s))) credentialPrefixes = false).
  { apply not_true_is_false. intros (s&Hin&[Hp Hs]%andb_prop)%existsb_exists. apply negb_true_iff in Hs. unfold id in Hs.
    rewrite scheme_tail_prefix in Hs by (done || by exists q). congruence. }
  rewrite H1. cbn [orb]. unfold id at 2. rewrite drop_app_length.
  assert (Hb : forallb (fun b => negb (isBeadSeparator b)) hash = true).
  { rewrite forallb_forall in *. intros x Hx. specialize (Hh x Hx). revert Hh. by destruct x; vm_compute. }
  rewrite (segments_children hash children Hne Hb Hcs').
  assert (H2 : existsb high_entropy (hash :: children) = false); [|by rewrite H2, orb_false_r].
  apply not_true_is_false. intros (c&Hin&Hc)%existsb_exists. unfold high_entropy in Hc. apply orb_prop in Hc.
  destruct Hin as [<-|Hin].
  - unfold maxBeadSegment, minEntropySegment in *. destruct Hc as [Hc|[Hc _]%andb_prop]; bool_to_prop; lia.
  - apply list_elem_of_In in Hin. rewrite Forall_forall in Hcs. destruct (Hcs c Hin) as (_&Hlc&Hd).
    destruct Hc as [Hc|[_ Hc]%andb_prop]; [bool_to_prop; lia|].
    assert (Hx : existsb is_upper c = false /\ existsb is_lower c = false).
    { rewrite forallb_forall in Hd. split; apply not_true_is_false; intros (x&Hx&Hu)%existsb_exists; specialize (Hd x Hx);
        revert Hd Hu; by destruct x; vm_compute. }
    unfold mixedClasses in Hc. destruct Hx as [Hx Hx']. by rewrite Hx, Hx' in Hc.
Qed.

Lemma SecretShapedBeadID_ordinary_witness :
  SecretShapedBeadID (str "sk-team-" ++ str "1tzraj" ++ concat (map (cons x2e) [str "13"; str "3"])) (str "sk-team-") = false.
Proof.
  rewrite (SecretShapedBeadID_ordinary (str "sk-team-") (str "1tzraj") [str "13"; str "3"]); [reflexivity|reflexivity|discriminate|reflexivity|reflexivity|].
  constructor; [|constructor; [|constructor]]; (split; [discriminate|split; [vm_compute; discriminate|reflexivity]]).
Defined.
