(* ===== verification/BeadPrefix.v ===== *)
(** * The multi-project bead-prefix map ([BeadPrefixMap], [ProjectResolver] of [evidence/types.go])

    Declared prefixes with their projects, longest first; a prefix declared for two projects is kept but
    owned by none. The theorems: lookup is the longest declared prefix with its owner, whatever the order
    of the declarations; an ambiguous prefix never falls back. *)

From S2P Require Import Prelude GoStrings GoPath Fields BeadSecret.

Record BeadPrefixMapping : Type := mkMapping { bpm_Prefix : bytes; bpm_ProjectID : bytes }.
Record beadPrefixEntry : Type := mkEntry { bpe_prefix : bytes; bpe_projectID : bytes }.

#[export] Instance mapping_eq_dec : EqDecision BeadPrefixMapping.
Proof. solve_decision. Defined.
#[export] Instance entry_eq_dec : EqDecision beadPrefixEntry.
Proof. solve_decision. Defined.

Definition MaxBeadPrefixMappings : Z := 4096.
Definition maxReportedAmbiguous : nat := 8.

(** [^[A-Za-z0-9]+(?:-[A-Za-z0-9]+)*-$]: words, each with its dash. *)
Fixpoint dashed_words (in_word : bool) (s : bytes) : bool :=
  match s with
  | [] => negb in_word
  | b :: r => if is_alnum b then dashed_words true r else if bool_decide (b = x2d) && in_word then dashed_words false r else false
  end.
Definition beadPrefixPattern (s : bytes) : bool := negb (bool_decide (s = [])) && dashed_words false s.

(** Why a declaration cannot be applied. *)
Inductive mapping_problem : Type :=
| PrefixTooLong (n : Z)
| PrefixShape (prefix : bytes)
| ProjectProblem (prefix : bytes) (e : build_error).

#[export] Instance build_error_eq_dec : EqDecision build_error.
Proof. solve_decision. Defined.
#[export] Instance mapping_problem_eq_dec : EqDecision mapping_problem.
Proof. solve_decision. Defined.

Definition beadPrefixMappingProblem (d : BeadPrefixMapping) : option mapping_problem :=
  if maxBeadPrefix <? zlen (bpm_Prefix d) then Some (PrefixTooLong (zlen (bpm_Prefix d)))
  else if negb (beadPrefixPattern (bpm_Prefix d)) then Some (PrefixShape (bpm_Prefix d))
  else match boundedNonEmpty (str "project_id") (bpm_ProjectID d) maxTeamServerProject with
       | Err e => Some (ProjectProblem (bpm_Prefix d) e)
       | Ok _ => None
       end.

(** [bm_firstSkip]: the first skipped entry's index and reason. *)
Record BeadPrefixMap : Type := mkPrefixMap {
  bm_entries : list beadPrefixEntry;
  bm_skipped : Z;
  bm_firstSkip : option (Z * mapping_problem);
  bm_ambiguous : list bytes;
}.

(** [entries\[j\]] of the index, or a new entry. *)
Definition find_entry (prefix : bytes) (l : list beadPrefixEntry) : option (nat * beadPrefixEntry) :=
  list_find (fun e => bpe_prefix e = prefix) l.

Definition add_mapping (m : BeadPrefixMap) (i : Z) (d : BeadPrefixMapping) : BeadPrefixMap :=
  match beadPrefixMappingProblem d with
  | Some reason =>
      mkPrefixMap (bm_entries m) (bm_skipped m + 1)
        (if bm_skipped m =? 0 then Some (i, reason) else bm_firstSkip m) (bm_ambiguous m)
  | None =>
      match find_entry (bpm_Prefix d) (bm_entries m) with
      | None =>
          mkPrefixMap (bm_entries m ++ [mkEntry (bpm_Prefix d) (bpm_ProjectID d)]) (bm_skipped m) (bm_firstSkip m) (bm_ambiguous m)
      | Some (j, e) =>
          if negb (bool_decide (bpe_projectID e = [])) && negb (bool_decide (bpe_projectID e = bpm_ProjectID d))
          then mkPrefixMap (<[j := mkEntry (bpe_prefix e) []]> (bm_entries m)) (bm_skipped m) (bm_firstSkip m)
                 (bm_ambiguous m ++ [bpm_Prefix d])
          else m
      end
  end.

Fixpoint add_mappings (m : BeadPrefixMap) (i : Z) (ds : list BeadPrefixMapping) : BeadPrefixMap :=
  match ds with [] => m | d :: r => add_mappings (add_mapping m i d) (i + 1) r end.

(** Longer first, then by prefix. *)
Definition entry_leb (a b : beadPrefixEntry) : bool :=
  if negb (length (bpe_prefix a) =? length (bpe_prefix b))%nat
  then (length (bpe_prefix b) <? length (bpe_prefix a))%nat
  else bytes_leb (bpe_prefix a) (bpe_prefix b).
Definition entry_le (a b : beadPrefixEntry) : Prop := entry_leb a b = true.

#[export] Instance entry_le_dec : RelDecision entry_le.
Proof. intros a b. unfold entry_le. apply _. Defined.

Definition NewBeadPrefixMap (mappings : list BeadPrefixMapping) : option BeadPrefixMap :=
  if MaxBeadPrefixMappings <? zlen mappings then None
  else
    let m := add_mappings (mkPrefixMap [] 0 None []) 0 mappings in
    Some (mkPrefixMap (merge_sort entry_le (bm_entries m)) (bm_skipped m) (bm_firstSkip m) (sortStrings (bm_ambiguous m))).

(** The first entry the id begins with. *)
Definition first_match (m : option BeadPrefixMap) (beadID : bytes) : option beadPrefixEntry :=
  m ← m; '(_, e) ← list_find (fun e => HasPrefix beadID (bpe_prefix e) = true) (bm_entries m); Some e.

Definition map_match (m : option BeadPrefixMap) (beadID : bytes) : bytes * bool :=
  match first_match m beadID with Some e => (bpe_projectID e, true) | None => ([], false) end.

Definition Lookup (m : option BeadPrefixMap) (beadID : bytes) : bytes * bool :=
  let projectID := (map_match m beadID).1 in (projectID, negb (bool_decide (projectID = []))).

Definition LongestPrefix (m : option BeadPrefixMap) (beadID : bytes) : bytes :=
  match first_match m beadID with Some e => bpe_prefix e | None => [] end.

Definition Prefixes (m : option BeadPrefixMap) : list bytes := match m with None => [] | Some m => map bpe_prefix (bm_entries m) end.

Definition Len (m : option BeadPrefixMap) : Z := match m with None => 0 | Some m => zlen (bm_entries m) end.

(** What the summary shows: the skips with the first one, the ambiguous prefixes, eight of them named. *)
Definition Problems (m : option BeadPrefixMap) : (Z * option (Z * mapping_problem)) * (Z * list bytes) :=
  match m with
  | None => ((0, None), (0, []))
  | Some m => ((bm_skipped m, bm_firstSkip m), (zlen (bm_ambiguous m), take maxReportedAmbiguous (bm_ambiguous m)))
  end.

Definition Equal (m o : option BeadPrefixMap) : bool :=
  if negb (Len m =? Len o) || negb (bool_decide (Problems m = Problems o)) then false
  else match m, o with
       | Some m, Some o => bool_decide (bm_entries m = bm_entries o)
       | _, _ => true
       end.

Inductive RefDropReason : Type := RefDropUnresolvableProject | RefDropAmbiguousPrefix.

Record ProjectResolver : Type := mkResolver {
  pr_StampedProjectID : bytes;
  pr_Prefixes : option BeadPrefixMap;
  pr_DefaultProjectID : bytes;
}.

Definition resolve (r : ProjectResolver) (beadID : bytes) : result RefDropReason bytes :=
  if negb (bool_decide (pr_StampedProjectID r = [])) then Ok (pr_StampedProjectID r)
  else
    let '(projectID, matched) := map_match (pr_Prefixes r) beadID in
    if matched then (if bool_decide (projectID = []) then Err RefDropAmbiguousPrefix else Ok projectID)
    else if negb (bool_decide (pr_DefaultProjectID r = [])) then Ok (pr_DefaultProjectID r)
    else Err RefDropUnresolvableProject.

(** ** What the declarations say *)

(** The projects a prefix is declared for. *)
Definition owners (ds : list BeadPrefixMapping) (p : bytes) : list bytes :=
  map bpm_ProjectID (filter (fun d => beadPrefixMappingProblem d = None /\ bpm_Prefix d = p) ds).

(** Their one project, or none. *)
Definition sole (l : list bytes) : bytes :=
  match l with [] => [] | x :: r => if bool_decide (Forall (fun y => y = x) r) then x else [] end.

Definition declared (ds : list BeadPrefixMapping) (p : bytes) : Prop := owners ds p <> [].
Definition owner (ds : list BeadPrefixMapping) (p : bytes) : bytes := sole (owners ds p).

Lemma owners_snoc ds d p :
  owners (ds ++ [d]) p = owners ds p ++ (if decide (beadPrefixMappingProblem d = None /\ bpm_Prefix d = p) then [bpm_ProjectID d] else []).
Proof. unfold owners. rewrite filter_app, map_app. f_equal. rewrite filter_cons, filter_nil. by case_decide. Qed.

Lemma project_nonempty d : beadPrefixMappingProblem d = None -> bpm_ProjectID d <> [].
Proof.
  unfold beadPrefixMappingProblem. destruct (_ <? _); [done|]. destruct (negb _); [done|].
  destruct (boundedNonEmpty _ _ _) as [[]|] eqn:E; [|done]. intros _. by apply boundedNonEmpty_Ok in E as [? _].
Qed.

Lemma owners_nonempty ds p : Forall (fun x => x <> []) (owners ds p).
Proof.
  apply Forall_fmap, Forall_forall. intros d (H&_)%list_elem_of_filter. destruct H. by apply project_nonempty.
Qed.

Lemma sole_snoc l x :
  Forall (fun y => y <> []) l -> l <> [] -> x <> [] ->
  sole (l ++ [x]) = if negb (bool_decide (sole l = [])) && negb (bool_decide (sole l = x)) then [] else sole l.
Proof.
  intros Hl Hn Hx. destruct l as [|y l]; [done|]. cbn [app sole]. apply Forall_cons in Hl as [Hy _].
  destruct (decide (Forall (fun z => z = y) l)) as [Ha|Ha].
  - rewrite (bool_decide_eq_true_2 _ Ha). rewrite (bool_decide_eq_false_2 (y = [])) by done. cbn [negb andb].
    destruct (decide (y = x)) as [->|Hyx].
    + rewrite !bool_decide_eq_true_2; [done|done|]. apply Forall_app. split; [done|]. by constructor.
    + rewrite (bool_decide_eq_false_2 (y = x)) by done. cbn. rewrite bool_decide_eq_false_2; [done|].
      intros [_ H]%Forall_app. inversion H. congruence.
  - rewrite (bool_decide_eq_false_2 _ Ha). cbn. rewrite bool_decide_eq_false_2; [done|]. by intros [? _]%Forall_app.
Qed.

(** The map under construction against the declarations read so far. *)
Record map_inv (ds : list BeadPrefixMapping) (m : BeadPrefixMap) : Prop := {
  inv_nodup : NoDup (bpe_prefix <$> bm_entries m);
  inv_entries : forall e, e ∈ bm_entries m <-> declared ds (bpe_prefix e) /\ bpe_projectID e = owner ds (bpe_prefix e);
  inv_ambiguous : NoDup (bm_ambiguous m);
  inv_owner : forall p, p ∈ bm_ambiguous m <-> declared ds p /\ owner ds p = [];
}.

Lemma map_inv_nil : map_inv [] (mkPrefixMap [] 0 None []).
Proof.
  split; cbn; [constructor| |constructor|]; [intros e|intros p]; split; try (by inversion 1); by intros [H _].
Qed.

(** What one more declaration changes. *)
Lemma owners_other ds d p : beadPrefixMappingProblem d <> None \/ bpm_Prefix d <> p -> owners (ds ++ [d]) p = owners ds p.
Proof. intros H. rewrite owners_snoc, decide_False, app_nil_r; [done|]. intros [? ?]. by destruct H. Qed.

Lemma owners_own ds d :
  beadPrefixMappingProblem d = None -> owners (ds ++ [d]) (bpm_Prefix d) = owners ds (bpm_Prefix d) ++ [bpm_ProjectID d].
Proof. intros H. by rewrite owners_snoc, decide_True. Qed.

Lemma declared_own ds d : beadPrefixMappingProblem d = None -> declared (ds ++ [d]) (bpm_Prefix d).
Proof. intros H. unfold declared. rewrite owners_own by done. by intros [_ ?]%app_nil. Qed.

Lemma map_inv_same ds ds' m m' :
  (forall p, owner ds' p = owner ds p /\ (declared ds' p <-> declared ds p)) ->
  bm_entries m' = bm_entries m -> bm_ambiguous m' = bm_ambiguous m -> map_inv ds m -> map_inv ds' m'.
Proof.
  intros H Ee Ea [H1 H2 H3 H4]. split; rewrite ?Ee, ?Ea; [done| |done|].
  - intros e. destruct (H (bpe_prefix e)) as [-> ->]. apply H2.
  - intros p. destruct (H p) as [-> ->]. apply H4.
Qed.

Lemma map_inv_new ds m d k f :
  beadPrefixMappingProblem d = None -> ~ declared ds (bpm_Prefix d) -> map_inv ds m ->
  map_inv (ds ++ [d]) (mkPrefixMap (bm_entries m ++ [mkEntry (bpm_Prefix d) (bpm_ProjectID d)]) k f (bm_ambiguous m)).
Proof.
  intros Ep Hnd [H1 H2 H3 H4].
  assert (Hn : owners ds (bpm_Prefix d) = []) by (destruct (owners ds (bpm_Prefix d)) eqn:E; [done|]; destruct Hnd; unfold declared; congruence).
  assert (Hs : owner (ds ++ [d]) (bpm_Prefix d) = bpm_ProjectID d) by (unfold owner; rewrite owners_own, Hn; done).
  pose proof (declared_own ds d Ep) as Hd. pose proof (project_nonempty d Ep) as Hne.
  assert (Hfree : forall e, e ∈ bm_entries m -> bpe_prefix e <> bpm_Prefix d) by (intros e [He _]%H2 E; congruence).
  split; cbn [bm_entries bm_ambiguous]; [| |done|].
  - rewrite fmap_app. apply NoDup_app. split; [done|]. split; [|apply NoDup_singleton].
    intros p (e&->&He)%list_elem_of_fmap Hp%list_elem_of_singleton. cbn in Hp. by eapply Hfree.
  - intros x. rewrite elem_of_app, list_elem_of_singleton. destruct (decide (bpm_Prefix d = bpe_prefix x)) as [Ex|Ex].
    + rewrite <-Ex, Hs. split.
      * intros [Hx| ->]; [by destruct (Hfree x Hx)|done].
      * intros [_ Hx]. right. destruct x; cbn in *. congruence.
    + unfold declared, owner. rewrite owners_other by auto. rewrite (H2 x). split; [|auto].
      intros [?| ->]; [done|]. by destruct Ex.
  - intros p. destruct (decide (bpm_Prefix d = p)) as [<-|Hp].
    + rewrite Hs, (H4 (bpm_Prefix d)). split; [by intros [? _]|by intros [_ ?]].
    + unfold declared, owner. rewrite owners_other by auto. apply H4.
Qed.

(** The elements of a list keyed by prefix after one entry is replaced. *)
Lemma entries_insert l j e q x :
  NoDup (bpe_prefix <$> l) -> l !! j = Some e ->
  x ∈ <[j := mkEntry (bpe_prefix e) q]> l <-> (if decide (bpe_prefix x = bpe_prefix e) then bpe_projectID x = q else x ∈ l).
Proof.
  intros Hn Hj. rewrite list_elem_of_lookup. case_decide as Ex.
  - split.
    + intros [k Hk]. destruct (decide (k = j)) as [->|Hkj].
      { rewrite list_lookup_insert_eq in Hk by (by eapply lookup_lt_Some). by injection Hk as <-. }
      exfalso. rewrite list_lookup_insert_ne in Hk by done. apply Hkj.
      eapply (NoDup_lookup _ _ _ _ Hn); rewrite list_lookup_fmap; [by rewrite Hk|rewrite Hj; cbn; congruence].
    + intros Hx. exists j. rewrite list_lookup_insert_eq by (by eapply lookup_lt_Some). f_equal. destruct x; cbn in *. congruence.
  - rewrite list_elem_of_lookup. split; intros [k Hk]; exists k.
    + destruct (decide (k = j)) as [->|Hkj]; [|by rewrite list_lookup_insert_ne in Hk].
      rewrite list_lookup_insert_eq in Hk by (by eapply lookup_lt_Some). by injection Hk as <-.
    + rewrite list_lookup_insert_ne; [done|]. intros <-. rewrite Hj in Hk. by injection Hk as <-.
Qed.

Lemma map_inv_clash ds m d j e k f :
  beadPrefixMappingProblem d = None -> bm_entries m !! j = Some e -> bpe_prefix e = bpm_Prefix d ->
  owner ds (bpm_Prefix d) <> [] -> owner (ds ++ [d]) (bpm_Prefix d) = [] -> map_inv ds m ->
  map_inv (ds ++ [d]) (mkPrefixMap (<[j := mkEntry (bpe_prefix e) []]> (bm_entries m)) k f (bm_ambiguous m ++ [bpm_Prefix d])).
Proof.
  intros Ep Hj He Ho Ho' [H1 H2 H3 H4]. pose proof (declared_own ds d Ep) as Hd.
  split; cbn [bm_entries bm_ambiguous].
  - rewrite list_fmap_insert. cbn. rewrite list_insert_id; [done|]. by rewrite list_lookup_fmap, Hj.
  - intros x. rewrite entries_insert, He by done. case_decide as Ex.
    + rewrite Ex, Ho'. split; [done|by intros [_ ?]].
    + unfold declared, owner. rewrite owners_other by auto. apply H2.
  - apply NoDup_app. split; [done|]. split; [|apply NoDup_singleton]. intros p Hp ->%list_elem_of_singleton.
    by apply H4 in Hp as [_ Hp].
  - intros p. rewrite elem_of_app, list_elem_of_singleton. destruct (decide (p = bpm_Prefix d)) as [->|Hp].
    + rewrite Ho'. split; [done|by right].
    + unfold declared, owner. rewrite owners_other by auto. fold (owner ds p). fold (declared ds p). rewrite <-(H4 p).
      split; [by intros [?|?]|by left].
Qed.

Lemma add_mapping_inv ds m i d : map_inv ds m -> map_inv (ds ++ [d]) (add_mapping m i d).
Proof.
  intros Hinv. unfold add_mapping. destruct (beadPrefixMappingProblem d) as [reason|] eqn:Ep.
  { apply (map_inv_same ds _ m); [|done|done|done]. intros p. unfold owner, declared. rewrite owners_other; [done|]. left. congruence. }
  pose proof (project_nonempty d Ep) as Hne. unfold find_entry.
  destruct (list_find (fun e => bpe_prefix e = bpm_Prefix d) (bm_entries m)) as [[j e]|] eqn:Ef.
  - apply list_find_Some in Ef as (Hj&He&_). pose proof (list_elem_of_lookup_2 _ _ _ Hj) as Hin.
    destruct (proj1 (inv_entries _ _ Hinv e) Hin) as [Hde Hoe]. rewrite He in Hde, Hoe.
    pose proof (sole_snoc _ _ (owners_nonempty ds (bpm_Prefix d)) Hde Hne) as Hso. rewrite <-owners_own in Hso by done.
    fold (owner ds (bpm_Prefix d)) in Hso. fold (owner (ds ++ [d]) (bpm_Prefix d)) in Hso. rewrite <-Hoe in Hso.
    destruct (negb _ && negb _) eqn:Ec.
    + apply andb_prop in Ec as [Ec _]. apply negb_true_iff, bool_decide_eq_false_1 in Ec.
      apply map_inv_clash; try done. congruence.
    + apply (map_inv_same ds _ m); [|done|done|done]. intros p. destruct (decide (p = bpm_Prefix d)) as [->|Hp].
      * rewrite Hso. split; [done|]. split; [done|]. intros _. by apply declared_own.
      * unfold owner, declared. rewrite owners_other by auto. done.
  - apply list_find_None in Ef. rewrite Forall_forall in Ef. apply map_inv_new; [done| |done]. intros Hd.
    eapply (Ef (mkEntry (bpm_Prefix d) (owner ds (bpm_Prefix d)))); [|done]. by apply Hinv.
Qed.

Lemma add_mappings_inv ds i pre m : map_inv pre m -> map_inv (pre ++ ds) (add_mappings m i ds).
Proof.
  revert pre m i. induction ds as [|d ds IH]; intros pre m i H; cbn [add_mappings]; [by rewrite app_nil_r|].
  replace (pre ++ d :: ds) with ((pre ++ [d]) ++ ds) by (by rewrite <-app_assoc). by apply IH, add_mapping_inv.
Qed.

(** ** The sorted map *)

Lemma entry_le_iff a b :
  entry_le a b <-> (length (bpe_prefix b) < length (bpe_prefix a))%nat
                   \/ length (bpe_prefix a) = length (bpe_prefix b) /\ bytes_le (bpe_prefix a) (bpe_prefix b).
Proof.
  unfold entry_le, entry_leb, bytes_le. destruct (Nat.eqb_spec (length (bpe_prefix a)) (length (bpe_prefix b))) as [E|E]; cbn [negb].
  - split; [by right|]. intros [?|[_ ?]]; [lia|done].
  - rewrite Nat.ltb_lt. split; [by left|]. intros [?|[? _]]; [done|lia].
Qed.

#[export] Instance entry_le_total : Total entry_le.
Proof.
  intros a b. rewrite !entry_le_iff. destruct (total bytes_le (bpe_prefix a) (bpe_prefix b));
    destruct (Nat.lt_trichotomy (length (bpe_prefix a)) (length (bpe_prefix b))) as [?|[?|?]]; auto.
Qed.

#[export] Instance entry_le_trans : Transitive entry_le.
Proof.
  intros a b c. rewrite !entry_le_iff. intros [?|[? ?]] [?|[? ?]]; [left; lia..|]. right. split; [lia|by etrans].
Qed.

Lemma NewBeadPrefixMap_inv ds m :
  NewBeadPrefixMap ds = Some m ->
  NoDup (bpe_prefix <$> bm_entries m) /\ StronglySorted entry_le (bm_entries m)
  /\ (forall e, e ∈ bm_entries m <-> declared ds (bpe_prefix e) /\ bpe_projectID e = owner ds (bpe_prefix e))
  /\ NoDup (bm_ambiguous m) /\ StronglySorted bytes_le (bm_ambiguous m)
  /\ (forall p, p ∈ bm_ambiguous m <-> declared ds p /\ owner ds p = []).
Proof.
  unfold NewBeadPrefixMap. destruct (_ <? _); [done|]. cbv zeta. intros [= <-].
  destruct (add_mappings_inv ds 0 [] _ map_inv_nil) as [H1 H2 H3 H4]. cbn [app] in *. cbn [bm_entries bm_ambiguous].
  pose proof (merge_sort_Permutation entry_le (bm_entries (add_mappings (mkPrefixMap [] 0 None []) 0 ds))) as Hp.
  split_and!; [by rewrite Hp|apply (StronglySorted_merge_sort entry_le)| | |apply sortStrings_sorted|].
  - intros e. by rewrite Hp.
  - by rewrite sortStrings_perm.
  - intros p. by rewrite sortStrings_perm.
Qed.

Lemma first_match_spec m id :
  StronglySorted entry_le (bm_entries m) ->
  match first_match (Some m) id with
  | Some e => e ∈ bm_entries m /\ HasPrefix id (bpe_prefix e) = true
              /\ (forall e', e' ∈ bm_entries m -> HasPrefix id (bpe_prefix e') = true -> (length (bpe_prefix e') <= length (bpe_prefix e))%nat)
  | None => forall e, e ∈ bm_entries m -> HasPrefix id (bpe_prefix e) = false
  end.
Proof.
  intros Hs. unfold first_match. cbn [mbind option_bind]. induction Hs as [|e l Hl IH Hf]; cbn [list_find]; [by inversion 1|].
  destruct (HasPrefix id (bpe_prefix e)) eqn:E.
  - rewrite decide_True by done. cbn. split; [by left|]. split; [done|]. intros e' [->|Hin]%elem_of_cons _; [done|].
    rewrite Forall_forall in Hf. specialize (Hf e' Hin). apply entry_le_iff in Hf. lia.
  - rewrite decide_False by congruence. destruct (list_find _ l) as [[i x]|]; cbn in *.
    + destruct IH as (Hi&Hp&Hm). split; [by right|]. split; [done|]. intros e' [->|Hin]%elem_of_cons He'; [congruence|by apply Hm].
    + intros e' [->|Hin]%elem_of_cons; [done|by apply IH].
Qed.

(** Lookup is by the longest declared prefix and nothing else: the map answers with the prefix's one
    project, with no project when two are declared (never falling back to a shorter prefix), and with no
    match when no declared prefix fits. Skipped declarations count for nothing. *)
Theorem NewBeadPrefixMap_match ds m id :
  NewBeadPrefixMap ds = Some m ->
  let p := LongestPrefix (Some m) id in
  if (map_match (Some m) id).2
  then declared ds p /\ HasPrefix id p = true
       /\ (forall q, declared ds q -> HasPrefix id q = true -> (length q <= length p)%nat)
       /\ map_match (Some m) id = (owner ds p, true) /\ Lookup (Some m) id = (owner ds p, negb (bool_decide (owner ds p = [])))
  else p = [] /\ (forall q, declared ds q -> HasPrefix id q = false) /\ Lookup (Some m) id = ([], false).
Proof.
  intros Hm. destruct (NewBeadPrefixMap_inv _ _ Hm) as (_&Hs&He&_). pose proof (first_match_spec m id Hs) as H.
  cbv zeta. unfold Lookup, map_match, LongestPrefix. destruct (first_match (Some m) id) as [e|]; cbn [fst snd].
  - destruct H as (Hin&Hp&Hmax). apply He in Hin as [Hd Ho]. rewrite <-Ho. split_and!; try done.
    intros q Hq Hqp. apply (Hmax (mkEntry q (owner ds q))); [by apply He|done].
  - split_and!; try done. intros q Hq. apply (H (mkEntry q (owner ds q))). by apply He.
Qed.

(** ** The order of the declarations *)

Lemma sole_perm l k : l ≡ₚ k -> sole l = sole k.
Proof.
  assert (H : forall l x, sole l = x -> x <> [] -> l <> [] /\ Forall (fun y => y = x) l).
  { intros [|y r] x; cbn; [by intros <-|]. case_bool_decide as Hr; [|by intros <-]. intros -> _. split; [done|]. by constructor. }
  assert (H' : forall l x, l <> [] -> Forall (fun y => y = x) l -> sole l = x).
  { intros [|y r] x Hn Hf; [done|]. apply Forall_cons in Hf as [-> Hf]. cbn. by rewrite bool_decide_eq_true_2. }
  intros Hp. destruct (decide (sole l = [])) as [El|El], (decide (sole k = [])) as [Ek|Ek]; [congruence| | |].
  - destruct (H k _ eq_refl Ek) as [Hn Hf]. apply H'; [intros ->; by apply Permutation_nil_l in Hp|by rewrite Hp].
  - symmetry. destruct (H l _ eq_refl El) as [Hn Hf]. apply H'; [intros ->; by apply Permutation_nil_r in Hp|by rewrite <-Hp].
  - symmetry. destruct (H l _ eq_refl El) as [Hn Hf]. apply H'; [intros ->; by apply Permutation_nil_r in Hp|by rewrite <-Hp].
Qed.

Lemma owner_perm ds ds' p : ds ≡ₚ ds' -> owner ds p = owner ds' p /\ (declared ds p <-> declared ds' p).
Proof.
  intros Hp. assert (E : owners ds p ≡ₚ owners ds' p) by (unfold owners; by rewrite Hp).
  split; [by apply sole_perm|]. unfold declared. split; intros H E'; apply H; rewrite E' in E;
    [by apply Permutation_nil_r in E|by apply Permutation_nil_l in E].
Qed.

Lemma sorted_entries_unique l k :
  NoDup (bpe_prefix <$> l) -> NoDup (bpe_prefix <$> k) -> StronglySorted entry_le l -> StronglySorted entry_le k ->
  (forall e, e ∈ l <-> e ∈ k) -> l = k.
Proof.
  intros Hl Hk Hsl Hsk He. assert (Hp : l ≡ₚ k) by (apply NoDup_Permutation; [by eapply NoDup_fmap_1|by eapply NoDup_fmap_1|done]).
  clear Hk He. revert k Hsk Hp. induction Hsl as [|e l Hsl IH Hf]; intros k Hsk Hp; [by apply Permutation_nil_l in Hp|].
  destruct k as [|e' k]; [by apply Permutation_nil_r in Hp|]. inversion Hsk as [|? ? Hsk' Hf']; subst.
  assert (e = e') as <-.
  { assert (H1 : e ∈ e' :: k) by (rewrite <-Hp; by left). assert (H2 : e' ∈ e :: l) by (rewrite Hp; by left).
    apply elem_of_cons in H1 as [?|H1], H2 as [?|H2]; try done. exfalso. cbn in Hl. apply NoDup_cons in Hl as [Hn _].
    rewrite Forall_forall in Hf, Hf'. specialize (Hf e' H2). specialize (Hf' e H1). apply entry_le_iff in Hf, Hf'.
    assert (E : bpe_prefix e = bpe_prefix e').
    { destruct Hf as [?|[? Hf]], Hf' as [?|[? Hf']]; try lia. by apply (anti_symm bytes_le). }
    apply Hn. rewrite E. apply list_elem_of_fmap. by exists e'. }
  f_equal. apply IH; [by apply NoDup_cons in Hl as [_ ?]|done|]. by apply Permutation_cons_inv in Hp.
Qed.

(** The map depends on which projects are declared, not on the order they are listed in: rearranged
    declarations give the same entries and the same ambiguous prefixes, so every id resolves alike. *)
Theorem NewBeadPrefixMap_order ds ds' m m' :
  ds ≡ₚ ds' -> NewBeadPrefixMap ds = Some m -> NewBeadPrefixMap ds' = Some m' ->
  bm_entries m = bm_entries m' /\ bm_ambiguous m = bm_ambiguous m'
  /\ (forall id, map_match (Some m) id = map_match (Some m') id /\ LongestPrefix (Some m) id = LongestPrefix (Some m') id).
Proof.
  intros Hp Hm Hm'. destruct (NewBeadPrefixMap_inv _ _ Hm) as (Hn&Hs&He&Hna&Hsa&Ha).
  destruct (NewBeadPrefixMap_inv _ _ Hm') as (Hn'&Hs'&He'&Hna'&Hsa'&Ha').
  assert (Ee : bm_entries m = bm_entries m').
  { apply sorted_entries_unique; try done. intros e. rewrite He, He'. by destruct (owner_perm ds ds' (bpe_prefix e) Hp) as [-> ->]. }
  split; [exact Ee|]. split.
  - rewrite <-(sortStrings_unique _ _ (reflexivity (bm_ambiguous m)) Hsa). apply sortStrings_unique; [|done].
    apply NoDup_Permutation; [done|done|]. intros p. rewrite Ha, Ha'. by destruct (owner_perm ds ds' p Hp) as [-> ->].
  - intros id. unfold map_match, LongestPrefix, first_match. cbn [mbind option_bind]. by rewrite Ee.
Qed.

(** Maps that compare equal resolve alike. *)
Theorem Equal_sound m o id : Equal m o = true -> map_match m id = map_match o id.
Proof.
  unfold Equal. destruct (_ || _) eqn:E; [done|]. apply orb_false_iff in E as [E _]. apply negb_false_iff, Z.eqb_eq in E.
  unfold Len, zlen in E. destruct m as [m|], o as [o|]; unfold map_match, first_match; cbn [mbind option_bind].
  - intros H. apply bool_decide_eq_true_1 in H. by rewrite H.
  - by destruct (bm_entries m).
  - by destruct (bm_entries o).
  - done.
Qed.

Definition demo_mappings : list BeadPrefixMapping :=
  [mkMapping (str "gas-") (str "p1"); mkMapping (str "gas-city-") (str "p2"); mkMapping (str "bad prefix") (str "p3");
   mkMapping (str "acme-") (str "p4"); mkMapping (str "acme-") (str "p5"); mkMapping (str "gas-") (str "p1")].

Lemma NewBeadPrefixMap_match_witness :
  exists m, NewBeadPrefixMap demo_mappings = Some m
    /\ map_match (Some m) (str "gas-city-1abc") = (str "p2", true) /\ map_match (Some m) (str "acme-9") = ([], true).
Proof.
  destruct (NewBeadPrefixMap demo_mappings) as [m|] eqn:E; [|vm_compute in E; discriminate E]. exists m. split; [reflexivity|].
  pose proof (NewBeadPrefixMap_match demo_mappings m (str "gas-city-1abc") E) as H1.
  pose proof (NewBeadPrefixMap_match demo_mappings m (str "acme-9") E) as H2.
  vm_compute in E. injection E as <-. cbv zeta in H1, H2. split; [destruct H1 as (_&_&_&H1&_)|destruct H2 as (_&_&_&H2&_)].
  - rewrite H1. vm_compute. reflexivity.
  - rewrite H2. vm_compute. reflexivity.
Defined.

Lemma NewBeadPrefixMap_order_witness :
  exists m m', NewBeadPrefixMap demo_mappings = Some m /\ NewBeadPrefixMap (rev demo_mappings) = Some m' /\ bm_entries m = bm_entries m'.
Proof.
  destruct (NewBeadPrefixMap demo_mappings) as [m|] eqn:E; [|vm_compute in E; discriminate E].
  destruct (NewBeadPrefixMap (rev demo_mappings)) as [m'|] eqn:E'; [|vm_compute in E'; discriminate E'].
  destruct (NewBeadPrefixMap_order demo_mappings (rev demo_mappings) m m' (Permutation_rev _) E E') as (H&_).
  exists m, m'. exact (conj eq_refl (conj eq_refl H)).
Defined.
