(* ===== verification/Validate.v ===== *)
(** * The semantic batch validators ([internal/observer/evidence/validate.go])

    [ValidateBatch] over what the strict decoder returned: cardinality, the contiguous range with its
    overflow guard on 64-bit integers, the source id, and per observation the reference caps, the drain
    pair, the estimate's price table and the identity bounds, the first violation reported with its rule
    and index. The theorem: a batch passes exactly when none of the rules is violated. *)

From S2P Require Import Prelude GoStrings Json JsonText GoJson WireTypes StrictDecode GoNet Fields.

Definition MaxReferencesPerObservation : Z := 32.
Definition MaxObservationsPerBatch : Z := 1000.
Definition MaxObservationIDLen : Z := 128.
Definition MaxModelLen : Z := 128.

(** [^src_[0-9a-zA-Z]{1,64}$]. *)
Definition sourceIDPattern (s : bytes) : bool :=
  HasPrefix s (str "src_") && (let r := drop 4 s in (1 <=? zlen r) && (zlen r <=? 64) && forallb is_alnum r).

Inductive ValidationRule : Type :=
| RuleRangeNotContiguous
| RuleDrainPair
| RuleEstimatedPriceTable
| RuleReferenceCap
| RuleBatchCardinality
| RuleObservationIDRequired
| RuleModelMinLength
| RuleSourceIDPattern.

(** [ve_ObservationIndex] is -1 for a rule of the whole batch. *)
Record ValidationError : Type := validationErr { ve_Rule : ValidationRule; ve_ObservationIndex : Z; ve_ObservationID : bytes }.

Abbreviation vres := (result ValidationError unit).

Definition violated (rule : ValidationRule) (i : Z) (obsID : bytes) : vres := Err (validationErr rule i obsID).

Definition validateSourceID (sourceID : bytes) : vres :=
  if negb (sourceIDPattern sourceID) then violated RuleSourceIDPattern (-1) [] else Ok tt.

(** [o.Variant.(wire.SessionLifecycleObservation)]: the variant's type is the kind's. *)
Definition session_model (o : DecodedObservation) : option bytes :=
  if bool_decide (do_Kind o = str "SESSION_LIFECYCLE") then
    match get wire.SessionLifecyclePayload "Model" (get wire.SessionLifecycleObservation "SessionLifecycle" (do_Variant o)) with
    | GPtr (GStr m) => Some m
    | _ => None
    end
  else None.

Definition validateObservationIdentity (i : Z) (o : DecodedObservation) : vres :=
  if bool_decide (do_ObservationID o = []) then violated RuleObservationIDRequired i []
  else if MaxObservationIDLen <? zlen (do_ObservationID o) then violated RuleObservationIDRequired i (do_ObservationID o)
  else match session_model o with
       | Some m =>
           if bool_decide (m = []) then violated RuleModelMinLength i (do_ObservationID o)
           else if MaxModelLen <? zlen m then violated RuleModelMinLength i (do_ObservationID o)
           else Ok tt
       | None => Ok tt
       end.

Definition validateCardinality (b : DecodedBatch) : vres :=
  let n := zlen (db_Observations b) in
  if n =? 0 then violated RuleBatchCardinality (-1) []
  else if MaxObservationsPerBatch <? n then violated RuleBatchCardinality (-1) []
  else Ok tt.

(** Each sequence against [first + i], which wraps as [int64] does. *)
Fixpoint sequences_follow (first : Z) (i : Z) (os : list DecodedObservation) : vres :=
  match os with
  | [] => Ok tt
  | o :: r =>
      if negb (do_Sequence o =? i64 (first + i)) then violated RuleRangeNotContiguous i (do_ObservationID o)
      else sequences_follow first (i + 1) r
  end.

Definition validateContiguity (b : DecodedBatch) : vres :=
  let n := zlen (db_Observations b) in
  if SequenceMax - (n - 1) <? db_FirstSequence b then violated RuleRangeNotContiguous (-1) []
  else if negb (i64 (db_FirstSequence b + n - 1) =? db_LastSequence b) then violated RuleRangeNotContiguous (-1) []
  else sequences_follow (db_FirstSequence b) 0 (db_Observations b).

(** The length of an optional slice of references; an absent one counts for nothing. *)
Definition refs_len (v : goval) : Z := match v with GPtr (GSlice l) => zlen l | _ => 0 end.

Definition is_set (v : goval) : bool := match v with GPtr _ => true | _ => false end.

Definition context_refs (o : DecodedObservation) : Z :=
  refs_len (match do_RunContext o with GPtr rc => get wire.RunContext "WorkItemRefs" rc | _ => GNil end).
Definition started_refs (o : DecodedObservation) : Z :=
  refs_len (match do_RunStarted o with Some b => get wire.RunStartedBoundary "WorkItemRefs" b | None => GNil end).

Definition drain_mismatch (o : DecodedObservation) : bool :=
  match do_RunEnded o with
  | Some b => negb (Bool.eqb (is_set (get wire.RunEndedBoundary "DrainStatus" b)) (is_set (get wire.RunEndedBoundary "CoveredWatermark" b)))
  | None => false
  end.

Definition unpriced_estimate (o : DecodedObservation) : bool :=
  match do_Usage o with
  | Some u =>
      bool_decide (as_string (get wire.UsagePayload "Quality" u) = str "ESTIMATED")
      && match get wire.UsagePayload "PriceTableVersion" u with
         | GPtr v => bool_decide (TrimSpace (as_string v) = [])
         | _ => true
         end
  | None => false
  end.

Definition validateObservation (i : Z) (o : DecodedObservation) : vres :=
  if MaxReferencesPerObservation <? context_refs o then violated RuleReferenceCap i (do_ObservationID o)
  else if MaxReferencesPerObservation <? started_refs o then violated RuleReferenceCap i (do_ObservationID o)
  else if drain_mismatch o then violated RuleDrainPair i (do_ObservationID o)
  else if unpriced_estimate o then violated RuleEstimatedPriceTable i (do_ObservationID o)
  else Ok tt.

Fixpoint validateObservations (i : Z) (os : list DecodedObservation) : vres :=
  match os with
  | [] => Ok tt
  | o :: r => _ ← validateObservation i o; _ ← validateObservationIdentity i o; validateObservations (i + 1) r
  end.

(** The batch pointer is not nil. *)
Definition ValidateBatch (b : DecodedBatch) : vres :=
  _ ← validateCardinality b;
  _ ← validateContiguity b;
  _ ← validateSourceID (db_SourceID b);
  validateObservations 0 (db_Observations b).

(** ** What the rules say *)

Definition refs_capped (o : DecodedObservation) : Prop :=
  context_refs o <= MaxReferencesPerObservation /\ started_refs o <= MaxReferencesPerObservation.

Definition drain_paired (o : DecodedObservation) : Prop :=
  forall b, do_RunEnded o = Some b ->
    (is_set (get wire.RunEndedBoundary "DrainStatus" b) = true <-> is_set (get wire.RunEndedBoundary "CoveredWatermark" b) = true).

Definition estimate_priced (o : DecodedObservation) : Prop :=
  forall u, do_Usage o = Some u -> as_string (get wire.UsagePayload "Quality" u) = str "ESTIMATED" ->
    exists v, get wire.UsagePayload "PriceTableVersion" u = GPtr v /\ TrimSpace (as_string v) <> [].

Definition identified (o : DecodedObservation) : Prop :=
  bounded MaxObservationIDLen (do_ObservationID o) /\ forall m, session_model o = Some m -> bounded MaxModelLen m.

Definition observation_valid (o : DecodedObservation) : Prop := refs_capped o /\ drain_paired o /\ estimate_priced o /\ identified o.

(** The batch covers [first, last] in order, inside the sequence range. *)
Definition contiguous_batch (b : DecodedBatch) : Prop :=
  db_LastSequence b <= SequenceMax
  /\ map do_Sequence (db_Observations b) = seqZ (db_FirstSequence b) (db_LastSequence b - db_FirstSequence b + 1)
  /\ zlen (db_Observations b) = db_LastSequence b - db_FirstSequence b + 1.

Lemma eqb_iff x y : negb (Bool.eqb x y) = false <-> (x = true <-> y = true).
Proof. destruct x, y; cbn; intuition congruence. Qed.

Lemma drain_mismatch_false o : drain_mismatch o = false <-> drain_paired o.
Proof.
  unfold drain_mismatch, drain_paired. destruct (do_RunEnded o) as [b|]; [|done].
  rewrite eqb_iff. split; [by intros H b' [= <-]|intros H; by apply H].
Qed.

Lemma unpriced_false o : unpriced_estimate o = false <-> estimate_priced o.
Proof.
  unfold unpriced_estimate, estimate_priced. destruct (do_Usage o) as [u|]; [|done].
  destruct (decide (as_string (get wire.UsagePayload "Quality" u) = str "ESTIMATED")) as [Hq|Hq].
  - rewrite bool_decide_eq_true_2 by done. cbn [andb]. split.
    + intros H u' [= <-] _. destruct (get wire.UsagePayload "PriceTableVersion" u) as [| | | | | | |v| |]; try done.
      exists v. by apply bool_decide_eq_false_1 in H.
    + intros H. destruct (H u eq_refl Hq) as (v&->&Hv). by apply bool_decide_eq_false_2.
  - rewrite bool_decide_eq_false_2 by done. split; [|done]. by intros _ u' [= <-] ?.
Qed.

(** A guard before the rest of a check. *)
Lemma guard_Ok (c : bool) (e k : vres) : e <> Ok tt -> (if c then e else k) = Ok tt <-> c = false /\ k = Ok tt.
Proof. destruct c; [split; [done|by intros [? _]]|split; [done|by intros [_ ?]]]. Qed.

Lemma validateObservation_Ok i o : validateObservation i o = Ok tt <-> refs_capped o /\ drain_paired o /\ estimate_priced o.
Proof.
  unfold validateObservation, refs_capped. rewrite !guard_Ok, !Z.ltb_ge, drain_mismatch_false, unpriced_false by done. tauto.
Qed.

Lemma validateObservationIdentity_Ok i o : validateObservationIdentity i o = Ok tt <-> identified o.
Proof.
  unfold validateObservationIdentity, identified, bounded.
  rewrite !guard_Ok, bool_decide_eq_false, Z.ltb_ge by done. destruct (session_model o) as [m|].
  - rewrite !guard_Ok, bool_decide_eq_false, Z.ltb_ge by done. split.
    + intros (?&?&?&?&_). split; [done|]. by intros ? [= <-].
    + intros [[? ?] Hm]. by destruct (Hm m eq_refl).
  - split; [|by intros [[? ?] _]]. by intros (?&?&_).
Qed.

Lemma validateObservations_Ok i os : validateObservations i os = Ok tt <-> Forall observation_valid os.
Proof.
  revert i. induction os as [|o os IH]; intros i; cbn [validateObservations]; [by split|].
  rewrite Forall_cons, <-(IH (i + 1)). unfold observation_valid. split.
  - intros ([]&H1%validateObservation_Ok&H)%bind_Ok. apply bind_Ok in H as ([]&H2%validateObservationIdentity_Ok&H). tauto.
  - intros [(H1&H2&H3&H4) H]. rewrite (proj2 (validateObservation_Ok i o)) by done. cbn [mbind result_bind].
    by rewrite (proj2 (validateObservationIdentity_Ok i o) H4).
Qed.

Lemma sequences_follow_Ok first i os :
  in_i64 (first + i) -> first + i + zlen os - 1 <= MaxInt64 ->
  sequences_follow first i os = Ok tt <-> map do_Sequence os = seqZ (first + i) (zlen os).
Proof.
  revert i. induction os as [|o os IH]; intros i Hi Hl; cbn [sequences_follow map]; [done|].
  assert (El : zlen (o :: os) = 1 + zlen os) by (unfold zlen; cbn; lia). pose proof (zlen_nonneg os). rewrite El in *.
  rewrite (i64_id (first + i)) by done. rewrite seqZ_cons by lia.
  replace (Z.pred (1 + zlen os)) with (zlen os) by lia. replace (Z.succ (first + i)) with (first + (i + 1)) by lia.
  rewrite guard_Ok, negb_false_iff, Z.eqb_eq by done.
  destruct (decide (os = [])) as [->|Hne].
  - cbn. split; [intros [-> _]; done|]. by intros [= ->].
  - assert (0 < zlen os) by (unfold zlen; destruct os; [done|cbn; lia]).
    rewrite IH by (unfold in_i64, MaxInt64 in *; lia). split; [by intros [-> ->]|]. by intros [= -> ->].
Qed.

Lemma validateContiguity_Ok b :
  1 <= db_FirstSequence b <= MaxInt64 -> 1 <= zlen (db_Observations b) -> zlen (db_Observations b) <= MaxObservationsPerBatch ->
  validateContiguity b = Ok tt <-> contiguous_batch b.
Proof.
  intros Hf H1 Hn. unfold validateContiguity, contiguous_batch, SequenceMax, MaxObservationsPerBatch in *. cbv zeta.
  rewrite !guard_Ok, Z.ltb_ge, negb_false_iff, Z.eqb_eq by done. split.
  - intros (Hov&Hl&Hs). rewrite i64_id in Hl by (unfold in_i64, MaxInt64 in *; lia).
    apply sequences_follow_Ok in Hs; [|unfold in_i64, MaxInt64 in *; lia|lia]. rewrite Z.add_0_r in Hs.
    split_and!; [lia| |lia]. rewrite Hs. f_equal. lia.
  - intros (Hl&Hs&Hlen). rewrite i64_id by (unfold in_i64, MaxInt64 in *; lia). split_and!; [lia|lia|].
    apply sequences_follow_Ok; [unfold in_i64, MaxInt64 in *; lia|lia|]. rewrite Z.add_0_r, Hs. f_equal. lia.
Qed.

(** The validator accepts a batch exactly when no rule is violated: one to a thousand observations,
    their sequences the consecutive integers from first to last without wrapping past the largest one,
    a well-formed source id, and every observation within its reference caps, with its drain fields
    paired, its estimates priced and its identity present and bounded. *)
Theorem ValidateBatch_iff b :
  1 <= db_FirstSequence b <= MaxInt64 ->
  ValidateBatch b = Ok tt
  <-> 1 <= zlen (db_Observations b) <= MaxObservationsPerBatch /\ contiguous_batch b
      /\ sourceIDPattern (db_SourceID b) = true /\ Forall observation_valid (db_Observations b).
Proof.
  intros Hf. unfold ValidateBatch.
  assert (Hc : validateCardinality b = Ok tt <-> 1 <= zlen (db_Observations b) <= MaxObservationsPerBatch).
  { unfold validateCardinality. rewrite !guard_Ok, Z.eqb_neq, Z.ltb_ge by done. pose proof (zlen_nonneg (db_Observations b)).
    split; [intros (?&?&_); lia|intros ?; split_and!; [lia|lia|done]]. }
  assert (Hs : validateSourceID (db_SourceID b) = Ok tt <-> sourceIDPattern (db_SourceID b) = true).
  { unfold validateSourceID. by destruct (sourceIDPattern _). }
  rewrite <-(validateObservations_Ok 0), <-Hs. split.
  - intros ([]&H1&H)%bind_Ok. apply bind_Ok in H as ([]&H2&H). apply bind_Ok in H as ([]&H3&H4).
    pose proof (proj1 Hc H1). split_and!; try done; try lia. apply validateContiguity_Ok; try done; lia.
  - intros (H1&H2&H3&H4). rewrite (proj2 Hc H1). cbn [mbind result_bind].
    rewrite (proj2 (validateContiguity_Ok b Hf ltac:(lia) ltac:(lia)) H2). cbn [mbind result_bind]. by rewrite H3.
Qed.

(** An error of the observation at an index of the batch. *)
Definition reported_at (i : Z) (os : list DecodedObservation) (e : ValidationError) (P : DecodedObservation -> nat -> Prop) : Prop :=
  exists k o, os !! k = Some o /\ ve_ObservationIndex e = i + Z.of_nat k /\ ve_ObservationID e = do_ObservationID o /\ P o k.

Lemma reported_cons i o os e P : reported_at (i + 1) os e (fun o k => P o (S k)) -> reported_at i (o :: os) e P.
Proof. intros (k&x&Hk&Hi&Hid&HP). exists (S k), x. split; [done|]. split; [lia|done]. Qed.

Lemma sequences_follow_Err first i os e :
  sequences_follow first i os = Err e -> reported_at i os e (fun _ _ => ve_Rule e = RuleRangeNotContiguous).
Proof.
  revert i. induction os as [|o os IH]; intros i; cbn [sequences_follow]; [done|]. case_match.
  - intros [= <-]. exists O, o. cbn. split_and!; [done|lia|done|done].
  - intros Hs. by apply reported_cons, IH.
Qed.

Lemma validateObservation_Err i o e :
  validateObservation i o = Err e -> ve_ObservationIndex e = i /\ ve_ObservationID e = do_ObservationID o.
Proof. unfold validateObservation, violated. repeat case_match; by intros [= <-]. Qed.

Lemma validateObservationIdentity_Err i o e :
  validateObservationIdentity i o = Err e -> ve_ObservationIndex e = i /\ ve_ObservationID e = do_ObservationID o.
Proof.
  unfold validateObservationIdentity, violated. destruct (decide (do_ObservationID o = [])) as [E|E].
  - rewrite bool_decide_eq_true_2, E by done. by intros [= <-].
  - rewrite bool_decide_eq_false_2 by done. repeat case_match; by intros [= <-].
Qed.

Lemma validateObservations_Err i os e :
  validateObservations i os = Err e ->
  reported_at i os e (fun o k => ~ observation_valid o /\ Forall observation_valid (take k os)).
Proof.
  revert i. induction os as [|o os IH]; intros i; cbn [validateObservations]; [done|].
  assert (H0 : ve_ObservationIndex e = i /\ ve_ObservationID e = do_ObservationID o -> ~ observation_valid o ->
    reported_at i (o :: os) e (fun x k => ~ observation_valid x /\ Forall observation_valid (take k (o :: os)))).
  { intros [Hi Hid] Hv. exists O, o. split_and!; [done|lia|done|done|constructor]. }
  intros [H|([]&H1&H)]%bind_Err.
  { apply H0; [by apply validateObservation_Err|]. intros (Ha&Hb&Hc&_). by rewrite (proj2 (validateObservation_Ok i o)) in H. }
  apply bind_Err in H as [H|([]&H2&H)].
  { apply H0; [by apply validateObservationIdentity_Err|]. intros (_&_&_&Hd). by rewrite (proj2 (validateObservationIdentity_Ok i o) Hd) in H. }
  apply reported_cons. destruct (IH (i + 1) H) as (k&x&Hk&Hi&Hid&Hv&Hf). exists k, x. split_and!; try done. cbn [take].
  apply validateObservation_Ok in H1. apply validateObservationIdentity_Ok in H2. constructor; [|done]. unfold observation_valid. tauto.
Qed.

(** What is reported: a rule of the whole batch at index -1, or the index and id of an observation that
    is out of sequence, or of the first one that breaks a rule of its own. *)
Theorem ValidateBatch_reports b e :
  ValidateBatch b = Err e ->
  (ve_ObservationIndex e = -1 /\ ve_ObservationID e = []
   /\ (ve_Rule e = RuleBatchCardinality \/ ve_Rule e = RuleRangeNotContiguous \/ ve_Rule e = RuleSourceIDPattern))
  \/ reported_at 0 (db_Observations b) e (fun o k =>
       ve_Rule e = RuleRangeNotContiguous \/ ~ observation_valid o /\ Forall observation_valid (take k (db_Observations b))).
Proof.
  unfold ValidateBatch. intros [H|([]&_&H)]%bind_Err.
  { left. revert H. unfold validateCardinality, violated. repeat case_match; intros [= <-]; cbn; auto. }
  apply bind_Err in H as [H|([]&_&H)].
  { revert H. unfold validateContiguity. cbv zeta. repeat case_match; try (intros [= <-]; cbn; left; auto).
    intros (k&o&?&?&?&?)%sequences_follow_Err. right. exists k, o. auto. }
  apply bind_Err in H as [H|([]&_&H)].
  - left. revert H. unfold validateSourceID, violated. case_match; intros [= <-]. cbn. auto.
  - right. destruct (validateObservations_Err _ _ _ H) as (k&o&?&?&?&?). exists k, o. auto.
Qed.

Definition demo_observation (seq : Z) : DecodedObservation := mkDecoded (str "MESSAGE") seq (str "obs_1") GNil GNil None None None.
Definition demo_batch (last : Z) : DecodedBatch := mkBatch 1 (str "src_abc") 7 last [demo_observation 7; demo_observation 8].

Lemma ValidateBatch_iff_witness :
  1 <= db_FirstSequence (demo_batch 8) <= MaxInt64 /\ ValidateBatch (demo_batch 8) = Ok tt /\ contiguous_batch (demo_batch 8).
Proof.
  assert (Hf : 1 <= db_FirstSequence (demo_batch 8) <= MaxInt64) by (cbn; unfold MaxInt64; lia).
  assert (Hv : ValidateBatch (demo_batch 8) = Ok tt) by (vm_compute; reflexivity).
  refine (conj Hf (conj Hv _)). exact (proj1 (proj2 (proj1 (ValidateBatch_iff (demo_batch 8) Hf) Hv))).
Defined.

Lemma ValidateBatch_reports_witness :
  exists e, ValidateBatch (demo_batch 9) = Err e /\ ve_Rule e = RuleRangeNotContiguous /\ ve_ObservationIndex e = -1.
Proof.
  destruct (ValidateBatch (demo_batch 9)) as [[]|e] eqn:E; [vm_compute in E; discriminate E|]. exists e.
  assert (Ee : ve_Rule e = RuleRangeNotContiguous) by (vm_compute in E; injection E as <-; reflexivity).
  destruct (ValidateBatch_reports (demo_batch 9) e E) as [(Hi&_)|(k&o&Hk&Hi&_)]; [exact (conj eq_refl (conj Ee Hi))|].
  vm_compute in E. injection E as <-. exact (conj eq_refl (conj Ee eq_refl)).
Defined.
