(* ===== verification/Evidence.v ===== *)
(** * The observation constructors ([internal/observer/evidence/types.go])

    [Common] and the per-kind inputs, one [New*] per constructor, [PendingObservation] with its seal. A
    pointer is an option; copies are values, so the defensive copies of the source have nothing to do
    here. Generated structs the constructors only move about are records with their [*_value] literal.
    The theorems: what a seal returns is accepted by the strict decoder as the observation it was built
    from, whichever constructor built it. *)

From S2P Require Import Prelude GoStrings GoTime Json JsonText GoJson WireTypes StrictDecode Sendable.
From S2P Require Import GoPath GoLit Fields BeadSecret BeadPrefix Validate.

(** ** Generated structs *)

Record ByteRange : Type := mkByteRange { br_Start : Z; br_End : Z }.

Record Provenance : Type := mkProvenance {
  pv_Adapter : bytes;
  pv_AdapterVersion : bytes;
  pv_ContentPolicy : bytes;
  pv_Provider : option bytes;
  pv_NativeSessionId : option bytes;
  pv_ParserVersion : option bytes;
  pv_TransformVersion : option bytes;
  pv_SourceLocator : option bytes;
  pv_SourceHash : option bytes;
  pv_ByteRange : option ByteRange;
  pv_Completeness : option bytes;
  pv_CaptureQuality : option bytes;
}.

Record WorkReference : Type := mkWorkReference { wr_TeamServerProjectId : bytes; wr_BeadId : bytes; wr_Origin : bytes }.
Record RunContext : Type := mkRunContext {
  rc_RunId : bytes; rc_MembershipEvidence : bytes; rc_WorkItemRefs : option (list WorkReference)
}.
Record Watermark : Type := mkWatermark { wm_ByteOffset : Z; wm_SourceLocator : option bytes }.
Record ProcessIdentity : Type := mkProcessIdentity { pi_BootId : bytes; pi_Pid : Z; pi_ProcessStartTime : Z }.
Record ExtractionProvenance : Type := mkExtraction { ex_Surface : bytes; ex_PatternId : bytes; ex_ExtractorVersion : bytes }.

Definition byte_range_value (r : ByteRange) : goval :=
  lit wire.ByteRange [("Start", GInt (br_Start r)); ("End", GInt (br_End r))]%string.

Definition provenance_value (p : Provenance) : goval :=
  lit wire.Provenance
    [("Adapter", GStr (pv_Adapter p)); ("AdapterVersion", GStr (pv_AdapterVersion p)); ("ContentPolicy", GStr (pv_ContentPolicy p));
     ("Provider", opt_value GStr (pv_Provider p)); ("NativeSessionId", opt_value GStr (pv_NativeSessionId p));
     ("ParserVersion", opt_value GStr (pv_ParserVersion p)); ("TransformVersion", opt_value GStr (pv_TransformVersion p));
     ("SourceLocator", opt_value GStr (pv_SourceLocator p)); ("SourceHash", opt_value GStr (pv_SourceHash p));
     ("ByteRange", opt_value byte_range_value (pv_ByteRange p)); ("Completeness", opt_value GStr (pv_Completeness p));
     ("CaptureQuality", opt_value GStr (pv_CaptureQuality p))]%string.

Definition work_reference_value (r : WorkReference) : goval :=
  lit wire.WorkReference
    [("TeamServerProjectId", GStr (wr_TeamServerProjectId r)); ("BeadId", GStr (wr_BeadId r)); ("Origin", GStr (wr_Origin r))]%string.

Definition refs_value (l : list WorkReference) : goval := GSlice (map work_reference_value l).

Definition run_context_value (rc : RunContext) : goval :=
  lit wire.RunContext
    [("RunId", GStr (rc_RunId rc)); ("MembershipEvidence", GStr (rc_MembershipEvidence rc));
     ("WorkItemRefs", opt_value refs_value (rc_WorkItemRefs rc))]%string.

Definition watermark_value (w : Watermark) : goval :=
  lit wire.Watermark [("ByteOffset", GInt (wm_ByteOffset w)); ("SourceLocator", opt_value GStr (wm_SourceLocator w))]%string.

Definition process_identity_value (i : ProcessIdentity) : goval :=
  lit wire.ProcessIdentity
    [("BootId", GStr (pi_BootId i)); ("Pid", GInt (pi_Pid i)); ("ProcessStartTime", GInt (pi_ProcessStartTime i))]%string.

Definition extraction_value (e : ExtractionProvenance) : goval :=
  lit wire.ExtractionProvenance
    [("Surface", GStr (ex_Surface e)); ("PatternId", GStr (ex_PatternId e)); ("ExtractorVersion", GStr (ex_ExtractorVersion e))]%string.

(** ** The envelope *)

Record Common : Type := mkCommon {
  cm_OccurredAt : gotime;
  cm_CapturedAt : gotime;
  cm_Provenance : Provenance;
  cm_RunContext : option RunContext;
}.

(** [po_seal] is nil in the zero value only. *)
Record PendingObservation : Type := mkPending {
  po_kind : bytes;
  po_occurredAt : gotime;
  po_capturedAt : gotime;
  po_seal : option (Z -> bytes -> built json);
}.

Definition zero_pending : PendingObservation := mkPending [] zero_time zero_time None.

Definition Seal (p : PendingObservation) (seq : Z) (observationID : bytes) : built json :=
  match po_seal p with
  | None => buildErr (str "observation") (str "pending observation is not initialized")
  | Some seal =>
      if (seq <? SequenceMin) || (SequenceMax <? seq)
      then buildErr (str "sequence") (FormatInt seq ++ str " is outside [1, " ++ FormatInt SequenceMax ++ str "]")
      else _ ← boundedNonEmpty (str "observation_id") observationID maxObservationID; seal seq observationID
  end.

(** A check for every element, with its index. *)
Fixpoint check_all {A} (f : Z -> A -> built unit) (i : Z) (l : list A) : built unit :=
  match l with [] => Ok tt | x :: r => _ ← f i x; check_all f (i + 1) r end.

Definition validateWorkReference (field : bytes) (ref : WorkReference) : built unit :=
  _ ← boundedNonEmpty (field ++ str ".team_server_project_id") (wr_TeamServerProjectId ref) maxTeamServerProject;
  _ ← boundedNonEmpty (field ++ str ".bead_id") (wr_BeadId ref) maxBeadID;
  validEnum (field ++ str ".origin") wire.WorkReferenceOrigin (wr_Origin ref).

Definition refs_detail (n : Z) : bytes := FormatInt n ++ str " entries exceeds cap " ++ FormatInt MaxReferencesPerObservation.

Definition validateRunContext (rc : RunContext) : built unit :=
  _ ← boundedNonEmpty (str "run_context.run_id") (rc_RunId rc) maxRunID;
  _ ← validEnum (str "run_context.membership_evidence") wire.RunContextMembershipEvidence (rc_MembershipEvidence rc);
  match rc_WorkItemRefs rc with
  | Some refs =>
      if MaxReferencesPerObservation <? zlen refs then buildErr (str "run_context.work_item_refs") (refs_detail (zlen refs))
      else check_all (fun i r => validateWorkReference (indexPath (str "run_context.work_item_refs") i) r) 0 refs
  | None => Ok tt
  end.

Definition validateProvenance (p : Provenance) : built unit :=
  _ ← boundedNonEmpty (str "provenance.adapter") (pv_Adapter p) maxAdapter;
  _ ← boundedNonEmpty (str "provenance.adapter_version") (pv_AdapterVersion p) maxAdapterVersion;
  _ ← validEnum (str "provenance.content_policy") wire.ProvenanceContentPolicy (pv_ContentPolicy p);
  _ ← boundedOptionalPtr (str "provenance.provider") (pv_Provider p) maxProvider;
  _ ← boundedOptionalPtr (str "provenance.native_session_id") (pv_NativeSessionId p) maxNativeSessionID;
  _ ← boundedOptionalPtr (str "provenance.parser_version") (pv_ParserVersion p) maxParserVersion;
  _ ← boundedOptionalPtr (str "provenance.transform_version") (pv_TransformVersion p) maxTransformVersion;
  _ ← boundedOptionalPtr (str "provenance.source_locator") (pv_SourceLocator p) maxSourceLocator;
  _ ← (match pv_Completeness p with
       | Some c => validEnum (str "provenance.completeness") wire.ProvenanceCompleteness c
       | None => Ok tt
       end);
  _ ← (match pv_CaptureQuality p with
       | Some q => validEnum (str "provenance.capture_quality") wire.ProvenanceCaptureQuality q
       | None => Ok tt
       end);
  match pv_ByteRange p with
  | Some r =>
      if br_Start r <? 0 then buildErr (str "provenance.byte_range.start") (str "must be >= 0")
      else if br_End r <? br_Start r then buildErr (str "provenance.byte_range.end") (str "must be >= start")
      else Ok tt
  | None => Ok tt
  end.

Definition validateCommon (c : Common) : built unit :=
  if IsZero (cm_OccurredAt c) then buildErr (str "occurred_at") (str "must be set")
  else if IsZero (cm_CapturedAt c) then buildErr (str "captured_at") (str "must be set")
  else _ ← validateProvenance (cm_Provenance c);
       match cm_RunContext c with Some rc => validateRunContext rc | None => Ok tt end.

(** The run context is cloned: the same value. *)
Definition prepareCommon (c : Common) : built Common := _ ← validateCommon c; Ok c.

(** [o.From<Variant>(v)] and the unions' [From*]: the discriminator is set and the literal marshalled. *)
Definition FromVariant (t : gotype) (discriminator : String.string) (k : bytes) (fields : named) : built json :=
  match marshal t (lit t ((discriminator, GStr k) :: fields)) with Some j => Ok j | None => Err MarshalError end.

(** The observation a seal closure builds: the common members and the kind's payload. *)
Definition observation_fields (c : Common) (member : String.string) (payload : goval) (seq : Z) (observationID : bytes) : named :=
  [("Sequence", GInt seq); ("ObservationId", GStr observationID); ("OccurredAt", GTime (cm_OccurredAt c));
   ("CapturedAt", GTime (cm_CapturedAt c)); ("Provenance", provenance_value (cm_Provenance c));
   ("RunContext", opt_value run_context_value (cm_RunContext c)); (member, payload)]%string.

Definition pending (kind : bytes) (t : gotype) (member : String.string) (c : Common) (payload : goval) : PendingObservation :=
  mkPending kind (cm_OccurredAt c) (cm_CapturedAt c)
    (Some (fun seq observationID => FromVariant t "Kind" kind (observation_fields c member payload seq observationID))).

(** ** Run boundaries *)

Definition checkedRefs (field : bytes) (refs : list WorkReference) : built (option (list WorkReference)) :=
  if bool_decide (refs = []) then Ok None
  else if MaxReferencesPerObservation <? zlen refs then buildErr field (refs_detail (zlen refs))
  else _ ← check_all (fun i r => validateWorkReference (indexPath field i) r) 0 refs; Ok (Some refs).

Record RunStartedInput : Type := mkRunStarted { rs_RunID : bytes; rs_BoundarySource : bytes; rs_WorkItemRefs : list WorkReference }.

Definition newBoundary (c : Common) (payload : json) : PendingObservation :=
  pending (str "RUN_BOUNDARY") wire.RunBoundaryObservation "RunBoundary" c (GRaw payload).

Definition NewRunStarted (c : Common) (i : RunStartedInput) : built PendingObservation :=
  c ← prepareCommon c;
  _ ← boundedNonEmpty (str "run_boundary.run_id") (rs_RunID i) maxRunID;
  _ ← validEnum (str "run_boundary.boundary_source") wire.RunStartedBoundaryBoundarySource (rs_BoundarySource i);
  refs ← checkedRefs (str "run_boundary.work_item_refs") (rs_WorkItemRefs i);
  payload ← FromVariant wire.RunStartedBoundary "Transition" (str "RUN_STARTED")
    [("BoundarySource", GStr (rs_BoundarySource i)); ("RunId", GStr (rs_RunID i)); ("WorkItemRefs", opt_value refs_value refs)]%string;
  Ok (newBoundary c payload).

Record RunEndedDrainInput : Type := mkRunEndedDrain {
  rd_RunID : bytes; rd_BoundarySource : bytes; rd_DrainStatus : bytes; rd_CoveredWatermark : Watermark
}.

Definition NewRunEndedDrain (c : Common) (i : RunEndedDrainInput) : built PendingObservation :=
  c ← prepareCommon c;
  _ ← boundedNonEmpty (str "run_boundary.run_id") (rd_RunID i) maxRunID;
  _ ← validEnum (str "run_boundary.boundary_source") wire.RunEndedBoundaryBoundarySource (rd_BoundarySource i);
  _ ← validEnum (str "run_boundary.drain_status") wire.RunEndedBoundaryDrainStatus (rd_DrainStatus i);
  _ ← nonNegative (str "run_boundary.covered_watermark.byte_offset") (wm_ByteOffset (rd_CoveredWatermark i));
  _ ← boundedOptionalPtr (str "run_boundary.covered_watermark.source_locator") (wm_SourceLocator (rd_CoveredWatermark i)) maxSourceLocator;
  payload ← FromVariant wire.RunEndedBoundary "Transition" (str "RUN_ENDED")
    [("BoundarySource", GStr (rd_BoundarySource i)); ("RunId", GStr (rd_RunID i)); ("DrainStatus", GPtr (GStr (rd_DrainStatus i)));
     ("CoveredWatermark", GPtr (watermark_value (rd_CoveredWatermark i)))]%string;
  Ok (newBoundary c payload).

Record RunEndedLaunchFailureInput : Type := mkLaunchFailure { lf_RunID : bytes; lf_BoundarySource : bytes }.

Definition NewRunEndedLaunchFailure (c : Common) (i : RunEndedLaunchFailureInput) : built PendingObservation :=
  c ← prepareCommon c;
  _ ← boundedNonEmpty (str "run_boundary.run_id") (lf_RunID i) maxRunID;
  _ ← validEnum (str "run_boundary.boundary_source") wire.RunEndedBoundaryBoundarySource (lf_BoundarySource i);
  payload ← FromVariant wire.RunEndedBoundary "Transition" (str "RUN_ENDED")
    [("BoundarySource", GStr (lf_BoundarySource i)); ("RunId", GStr (lf_RunID i))]%string;
  Ok (newBoundary c payload).

(** ** Process and session lifecycle *)

Record ProcessLifecycleInput : Type := mkProcessLifecycle {
  pl_Transition : bytes; pl_Identity : ProcessIdentity; pl_ExitCode : option Z; pl_Signal : option Z
}.

Definition NewProcessLifecycle (c : Common) (i : ProcessLifecycleInput) : built PendingObservation :=
  c ← prepareCommon c;
  _ ← validEnum (str "process_lifecycle.transition") wire.ProcessLifecyclePayloadTransition (pl_Transition i);
  _ ← boundedNonEmpty (str "process_lifecycle.process_identity.boot_id") (pi_BootId (pl_Identity i)) maxBootID;
  _ ← nonNegative (str "process_lifecycle.process_identity.pid") (pi_Pid (pl_Identity i));
  _ ← nonNegative (str "process_lifecycle.process_identity.process_start_time") (pi_ProcessStartTime (pl_Identity i));
  Ok (pending (str "PROCESS_LIFECYCLE") wire.ProcessLifecycleObservation "ProcessLifecycle" c
        (lit wire.ProcessLifecyclePayload
           [("Transition", GStr (pl_Transition i)); ("ProcessIdentity", process_identity_value (pl_Identity i));
            ("ExitCode", opt_value GInt (pl_ExitCode i)); ("Signal", opt_value GInt (pl_Signal i))]%string)).

Record SessionLifecycleInput : Type := mkSessionLifecycle {
  sl_NativeSessionID : bytes; sl_Provider : bytes; sl_StartSource : bytes; sl_Transition : bytes; sl_Model : bytes
}.

Definition NewSessionLifecycle (c : Common) (i : SessionLifecycleInput) : built PendingObservation :=
  c ← prepareCommon c;
  _ ← boundedNonEmpty (str "session_lifecycle.native_session_id") (sl_NativeSessionID i) maxNativeSessionID;
  _ ← boundedNonEmpty (str "session_lifecycle.provider") (sl_Provider i) maxProvider;
  _ ← validEnum (str "session_lifecycle.start_source") wire.SessionLifecyclePayloadStartSource (sl_StartSource i);
  _ ← validEnum (str "session_lifecycle.transition") wire.SessionLifecyclePayloadTransition (sl_Transition i);
  model ← optionalString (str "session_lifecycle.model") (sl_Model i) maxModel;
  Ok (pending (str "SESSION_LIFECYCLE") wire.SessionLifecycleObservation "SessionLifecycle" c
        (lit wire.SessionLifecyclePayload
           [("NativeSessionId", GStr (sl_NativeSessionID i)); ("Provider", GStr (sl_Provider i));
            ("StartSource", GStr (sl_StartSource i)); ("Transition", GStr (sl_Transition i)); ("Model", opt_value GStr model)]%string)).

(** ** Messages and tools *)

Record MessageInput : Type := mkMessage { mi_Role : bytes; mi_ByteCount : option Z; mi_TokenCount : option Z }.

Definition NewMessage (c : Common) (i : MessageInput) : built PendingObservation :=
  c ← prepareCommon c;
  _ ← validEnum (str "message.role") wire.MessagePayloadRole (mi_Role i);
  byteCount ← checkedCount (str "message.byte_count") (mi_ByteCount i);
  tokenCount ← checkedCount (str "message.token_count") (mi_TokenCount i);
  Ok (pending (str "MESSAGE") wire.MessageObservation "Message" c
        (lit wire.MessagePayload
           [("Role", GStr (mi_Role i)); ("ByteCount", opt_value GInt byteCount); ("TokenCount", opt_value GInt tokenCount)]%string)).

Record ToolCallInput : Type := mkToolCall { tc_Category : bytes; tc_ArgumentByteCount : option Z }.

Definition NewToolCall (c : Common) (i : ToolCallInput) : built PendingObservation :=
  c ← prepareCommon c;
  _ ← validEnum (str "tool_call.category") wire.ToolCallPayloadCategory (tc_Category i);
  argByteCount ← checkedCount (str "tool_call.argument_byte_count") (tc_ArgumentByteCount i);
  Ok (pending (str "TOOL_CALL") wire.ToolCallObservation "ToolCall" c
        (lit wire.ToolCallPayload [("Category", GStr (tc_Category i)); ("ArgumentByteCount", opt_value GInt argByteCount)]%string)).

Record ToolResultInput : Type := mkToolResult { tr_Category : bytes; tr_Status : bytes; tr_ResultByteCount : option Z }.

Definition NewToolResult (c : Common) (i : ToolResultInput) : built PendingObservation :=
  c ← prepareCommon c;
  _ ← validEnum (str "tool_result.category") wire.ToolResultPayloadCategory (tr_Category i);
  _ ← validEnum (str "tool_result.status") wire.ToolResultPayloadStatus (tr_Status i);
  resultByteCount ← checkedCount (str "tool_result.result_byte_count") (tr_ResultByteCount i);
  Ok (pending (str "TOOL_RESULT") wire.ToolResultObservation "ToolResult" c
        (lit wire.ToolResultPayload
           [("Category", GStr (tr_Category i)); ("Status", GStr (tr_Status i)); ("ResultByteCount", opt_value GInt resultByteCount)]%string)).

(** ** Usage *)

Record UsageInput : Type := mkUsage {
  us_Quality : bytes;
  us_InputTokens : option Z;
  us_OutputTokens : option Z;
  us_CacheCreationTokens : option Z;
  us_CacheReadTokens : option Z;
  us_ProviderSource : bytes;
  us_PriceTableVersion : bytes;
  us_MessageID : bytes;
}.

Definition NewUsage (c : Common) (i : UsageInput) : built PendingObservation :=
  c ← prepareCommon c;
  _ ← validEnum (str "usage.quality") wire.UsagePayloadQuality (us_Quality i);
  priceTable ← optionalString (str "usage.price_table_version") (us_PriceTableVersion i) maxPriceTableVersion;
  if bool_decide (us_Quality i = str "ESTIMATED") && match priceTable with None => true | Some _ => false end
  then buildErr (str "usage.price_table_version") (str "ESTIMATED usage requires a non-empty price_table_version")
  else
    providerSource ← optionalString (str "usage.provider_source") (us_ProviderSource i) maxProviderSource;
    messageID ← optionalString (str "usage.message_id") (us_MessageID i) maxMessageID;
    inputTokens ← checkedCount (str "usage.input_tokens") (us_InputTokens i);
    outputTokens ← checkedCount (str "usage.output_tokens") (us_OutputTokens i);
    cacheCreationTokens ← checkedCount (str "usage.cache_creation_tokens") (us_CacheCreationTokens i);
    cacheReadTokens ← checkedCount (str "usage.cache_read_tokens") (us_CacheReadTokens i);
    Ok (pending (str "USAGE") wire.UsageObservation "Usage" c
          (lit wire.UsagePayload
             [("Quality", GStr (us_Quality i)); ("InputTokens", opt_value GInt inputTokens); ("OutputTokens", opt_value GInt outputTokens);
              ("CacheCreationTokens", opt_value GInt cacheCreationTokens); ("CacheReadTokens", opt_value GInt cacheReadTokens);
              ("ProviderSource", opt_value GStr providerSource); ("PriceTableVersion", opt_value GStr priceTable);
              ("MessageId", opt_value GStr messageID)]%string)).

(** ** Diagnostics *)

Record CaptureDiagnosticInput : Type := mkDiagnostic { cd_Code : bytes; cd_Severity : bytes; cd_CompletenessEffect : bytes; cd_Context : bytes }.

Definition NewCaptureDiagnostic (c : Common) (i : CaptureDiagnosticInput) : built PendingObservation :=
  c ← prepareCommon c;
  _ ← validEnum (str "capture_diagnostic.code") wire.CaptureDiagnosticPayloadCode (cd_Code i);
  _ ← validEnum (str "capture_diagnostic.severity") wire.CaptureDiagnosticPayloadSeverity (cd_Severity i);
  _ ← validEnum (str "capture_diagnostic.completeness_effect") wire.CaptureDiagnosticPayloadCompletenessEffect (cd_CompletenessEffect i);
  context ← optionalString (str "capture_diagnostic.context") (sanitizeContext (cd_Context i) maxDiagnosticContext) maxDiagnosticContext;
  Ok (pending (str "CAPTURE_DIAGNOSTIC") wire.CaptureDiagnosticObservation "CaptureDiagnostic" c
        (lit wire.CaptureDiagnosticPayload
           [("Code", GStr (cd_Code i)); ("Severity", GStr (cd_Severity i)); ("CompletenessEffect", GStr (cd_CompletenessEffect i));
            ("Context", opt_value GStr context)]%string)).

(** ** Work references *)

Definition newWorkReference (c : Common) (ref : WorkReference) : built PendingObservation :=
  c ← prepareCommon c;
  _ ← validateWorkReference (str "work_reference") ref;
  Ok (pending (str "WORK_REFERENCE") wire.WorkReferenceObservation "WorkReference" c (work_reference_value ref)).

Record DeclaredWorkRefInput : Type := mkDeclaredRef { dr_TeamServerProjectID : bytes; dr_BeadID : bytes }.

Definition NewDeclaredWorkReference (c : Common) (i : DeclaredWorkRefInput) : built PendingObservation :=
  newWorkReference c (mkWorkReference (dr_TeamServerProjectID i) (dr_BeadID i) (str "DECLARED")).

Record ExtractedWorkRefInput : Type := mkExtractedRef { xr_BeadID : bytes; xr_DeclaredPrefix : bytes }.

(** One of [Resolved] and [Drop] is set. *)
Inductive ExtractedWorkRefResult : Type :=
| Resolved (p : PendingObservation)
| Drop (p : PendingObservation) (reason : RefDropReason).

Definition Dropped (r : ExtractedWorkRefResult) : bool := match r with Resolved _ => false | Drop _ _ => true end.

Definition drop_detail (reason : RefDropReason) : bytes :=
  match reason with
  | RefDropAmbiguousPrefix => str "extracted work reference dropped: its bead prefix is declared for more than one team-server project"
  | RefDropUnresolvableProject => str "extracted work reference dropped: no stamped, prefix-mapped, or default team-server project"
  end.

Definition NewExtractedWorkReference (c : Common) (i : ExtractedWorkRefInput) (resolver : ProjectResolver) : built ExtractedWorkRefResult :=
  _ ← boundedNonEmpty (str "work_reference.bead_id") (xr_BeadID i) maxBeadID;
  if SecretShapedBeadID (xr_BeadID i) (xr_DeclaredPrefix i)
  then buildErr (str "work_reference.bead_id") (str "secret-shaped identifier rejected")
  else
    match resolve resolver (xr_BeadID i) with
    | Err reason =>
        diag ← NewCaptureDiagnostic c (mkDiagnostic (str "CAPTURE_LOSS") (str "INFO") (str "NONE") (drop_detail reason));
        Ok (Drop diag reason)
    | Ok projectID =>
        obs ← newWorkReference c (mkWorkReference projectID (xr_BeadID i) (str "EXTRACTED"));
        Ok (Resolved obs)
    end.

(** ** VCS references *)

Definition validateExtraction (e : ExtractionProvenance) : built unit :=
  _ ← validEnum (str "vcs_reference.extraction.surface") wire.ExtractionProvenanceSurface (ex_Surface e);
  _ ← boundedNonEmpty (str "vcs_reference.extraction.pattern_id") (ex_PatternId e) maxPatternID;
  boundedNonEmpty (str "vcs_reference.extraction.extractor_version") (ex_ExtractorVersion e) maxExtractorVersion.

Definition newVcsReference (c : Common) (payload : json) : PendingObservation :=
  pending (str "VCS_REFERENCE") wire.VcsReferenceObservation "VcsReference" c (GRaw payload).

Record VcsReferenceInput : Type := mkVcsInput { vi_Identifier : bytes; vi_RepoSlug : bytes; vi_Extraction : ExtractionProvenance }.

(** Both kinds of reference: the pattern, its bound and its error apart. *)
Definition new_vcs (t : gotype) (kind : bytes) (max : Z) (pattern : bytes -> bool) (detail : bytes) (c : Common) (i : VcsReferenceInput)
    : built PendingObservation :=
  c ← prepareCommon c;
  _ ← boundedNonEmpty (str "vcs_reference.identifier") (vi_Identifier i) max;
  if negb (pattern (vi_Identifier i)) then buildErr (str "vcs_reference.identifier") detail
  else
    slug ← validateRepoSlug (vi_RepoSlug i);
    _ ← validateExtraction (vi_Extraction i);
    payload ← FromVariant t "RefKind" kind
      [("Identifier", GStr (vi_Identifier i)); ("RepoSlug", opt_value GStr slug); ("Extraction", extraction_value (vi_Extraction i))]%string;
    Ok (newVcsReference c payload).

Definition NewCommitReference (c : Common) (i : VcsReferenceInput) : built PendingObservation :=
  new_vcs wire.CommitVcsReference (str "COMMIT") maxCommitIdentifier commitIdentifierPattern
    (str "must be a lowercase full 40- or 64-hex commit identifier") c i.

Definition NewPullRequestReference (c : Common) (i : VcsReferenceInput) : built PendingObservation :=
  new_vcs wire.PullRequestVcsReference (str "PULL_REQUEST") maxPullReqIdentifier pullRequestIdentifierPattern
    (str "must be an anchored #N or https:// pull-request identifier") c i.
