(* ===== verification/Sealed.v ===== *)
(** * What the constructors build is what the Collector accepts

    Every pre-sequence observation the constructors of [Evidence] return can be sealed with any sequence
    and identity in range; its canonical bytes pass the strict decoder, which reads back that observation;
    and batches of them pass [ValidateBatch]. Stamping sealed bytes again is sealing with the new identity. *)

From S2P Require Import Prelude GoStrings GoTime SpoolTypes Ack Json JsonText GoJson MemberOrder Batch WireTypes StrictDecode Sendable.
From S2P Require Import GoNet GoPath GoLit Fields BeadSecret BeadPrefix Validate Evidence.

(** ** Good parts *)

Lemma good_valid t v : Valid t v = true -> good t (GStr v).
Proof. by destruct t. Qed.

Lemma validEnum_Valid field t v : validEnum field t v = Ok tt <-> Valid t v = true.
Proof. unfold validEnum. by destruct (Valid t v). Qed.

Lemma good_opt_string o : good (TPtr TString) (opt_value GStr o).
Proof. by destruct o. Qed.

Definition int_opt (bits : Z) (o : option Z) : Prop := forall n, o = Some n -> fits bits n = true.

Lemma good_opt_int bits o : 0 < bits <= 64 -> int_opt bits o -> good (TPtr (TInt bits)) (opt_value GInt o).
Proof. intros Hb H. apply good_opt; [done|]. intros n Hn. apply good_int; [done|by apply H]. Qed.

Lemma good_opt_valid t o : (forall v, o = Some v -> Valid t v = true) -> good (TPtr t) (opt_value GStr o).
Proof. intros H. apply good_opt; [done|]. intros v Hv. by apply good_valid, H. Qed.

Create HintDb good.
#[export] Hint Resolve good_nil good_string good_time good_raw good_valid good_opt_string good_opt_valid : good.
#[export] Hint Extern 1 (good (TInt _) _) => (apply good_int; [lia|]) : good.
#[export] Hint Extern 1 (good (TPtr (TInt _)) _) => (apply good_opt_int; [lia|]) : good.

(** A literal of a generated struct, field by field. *)
Ltac good_fields :=
  apply good_lit; [vm_compute; reflexivity|vm_compute; reflexivity|];
  repeat (apply Forall_cons; split; [eexists; split; [reflexivity|]; unfold go_type; cbn [fst snd]|]); try apply Forall_nil; eauto with good.

(** Take a chain of checks apart. *)
Ltac checks H :=
  repeat match type of H with
  | mbind _ _ = Ok _ =>
      let x := fresh "x" in let Hx := fresh "Hc" in
      apply bind_Ok in H as (x&Hx&H); lazymatch type of x with unit => destruct x | _ => idtac end; cbv beta in H
  end.

Definition typed_range (r : ByteRange) : Prop := fits 64 (br_Start r) = true /\ fits 64 (br_End r) = true.

(** The integers are [int64]s and the times can be written. *)
Record typed_common (c : Common) : Prop := {
  tc_occurred : wf_time (cm_OccurredAt c) /\ is_Some (formatRFC3339 (cm_OccurredAt c));
  tc_captured : wf_time (cm_CapturedAt c) /\ is_Some (formatRFC3339 (cm_CapturedAt c));
  tc_range : forall r, pv_ByteRange (cm_Provenance c) = Some r -> typed_range r;
}.

Lemma good_range r : typed_range r -> good wire.ByteRange (byte_range_value r).
Proof. intros [H1 H2]. good_fields. Qed.

Lemma good_provenance p :
  validateProvenance p = Ok tt -> (forall r, pv_ByteRange p = Some r -> typed_range r) -> good wire.Provenance (provenance_value p).
Proof.
  unfold validateProvenance. intros H Hr. checks H.
  assert (H1 : forall v, pv_Completeness p = Some v -> Valid wire.ProvenanceCompleteness v = true).
  { intros v Hv. rewrite Hv in *. by eapply validEnum_Valid. }
  assert (H2 : forall v, pv_CaptureQuality p = Some v -> Valid wire.ProvenanceCaptureQuality v = true).
  { intros v Hv. rewrite Hv in *. by eapply validEnum_Valid. }
  good_fields.
  - apply good_valid. by eapply validEnum_Valid.
  - apply good_opt; [done|]. intros r E. by apply good_range, Hr.
Qed.

Lemma good_work_reference field r : validateWorkReference field r = Ok tt -> good wire.WorkReference (work_reference_value r).
Proof. unfold validateWorkReference. intros H. checks H. apply validEnum_Valid in H. good_fields. Qed.

Lemma check_all_Ok {A} f i (l : list A) : check_all f i l = Ok tt <-> forall k x, l !! k = Some x -> f (i + Z.of_nat k) x = Ok tt.
Proof.
  revert i. induction l as [|x l IH]; intros i; cbn [check_all]; [done|]. rewrite bind_Ok. split.
  - intros ([]&Hx&H) [|k] y; cbn; [intros [= <-]; by rewrite Z.add_0_r|]. intros Hk. rewrite IH in H.
    replace (i + Z.of_nat (S k)) with (i + 1 + Z.of_nat k) by lia. by apply H.
  - intros H. exists tt. split; [rewrite <-(Z.add_0_r i) at 1; by apply (H O)|]. apply IH. intros k y Hk.
    replace (i + 1 + Z.of_nat k) with (i + Z.of_nat (S k)) by lia. by apply H.
Qed.

Lemma good_refs field l :
  check_all (fun i r => validateWorkReference (indexPath field i) r) 0 l = Ok tt -> good (TSlice wire.WorkReference) (refs_value l).
Proof.
  rewrite check_all_Ok. intros H. apply good_slice, Forall_fmap, Forall_forall. intros r (k&Hk)%list_elem_of_lookup.
  by eapply good_work_reference, H.
Qed.

Lemma good_run_context rc : validateRunContext rc = Ok tt -> good wire.RunContext (run_context_value rc).
Proof.
  unfold validateRunContext. intros H. checks H. apply validEnum_Valid in Hc0. good_fields. apply good_opt; [done|]. intros l E. rewrite E in H.
  destruct (_ <? _); [done|]. by eapply good_refs.
Qed.

Lemma good_watermark w : fits 64 (wm_ByteOffset w) = true -> good wire.Watermark (watermark_value w).
Proof. intros H. good_fields. Qed.

Lemma good_identity i : fits 64 (pi_Pid i) = true -> fits 64 (pi_ProcessStartTime i) = true -> good wire.ProcessIdentity (process_identity_value i).
Proof. intros H1 H2. good_fields. Qed.

Lemma good_extraction e : validateExtraction e = Ok tt -> good wire.ExtractionProvenance (extraction_value e).
Proof. unfold validateExtraction. intros H. checks H. apply validEnum_Valid in Hc. good_fields. Qed.

(** ** The observation a seal builds *)

(** A kind's payload member and its type. *)
Definition payload_member (kind : bytes) (t : gotype) (member : String.string) (pt : gotype) : Prop :=
  by_kind kind variant_types = Some t /\ field_type t member = Some pt.

Definition observation_value (kind : bytes) (t : gotype) (c : Common) (member : String.string) (payload : goval) (seq : Z) (observationID : bytes) : goval :=
  lit t (("Kind"%string, GStr kind) :: observation_fields c member payload seq observationID).

(** What the literal needs of a variant: its common fields, and nothing but optional ones left over. *)
Definition common_types : list (String.string * gotype) :=
  [("Sequence", TInt 64); ("ObservationId", TString); ("OccurredAt", TTime); ("CapturedAt", TTime);
   ("Provenance", wire.Provenance); ("RunContext", TPtr wire.RunContext)]%string.

Definition envelope_ok (t : gotype) (member : String.string) : Prop :=
  Forall (fun nt => field_type t nt.1 = Some nt.2) common_types
  /\ go_names_distinct t = true
  /\ rest_good t ("Kind"%string :: map fst common_types ++ [member]) = true
  /\ wire_type t = true /\ plain_enums t = true.

(** The kind's enum has it as a member. *)
Definition kind_valid (kind : bytes) (t : gotype) : Prop := exists ft, field_type t "Kind" = Some ft /\ Valid ft kind = true.

Lemma good_observation kind t c member pt payload seq obsID :
  payload_member kind t member pt -> envelope_ok t member -> kind_valid kind t ->
  validateCommon c = Ok tt -> typed_common c -> good pt payload -> fits 64 seq = true ->
  good t (observation_value kind t c member payload seq obsID).
Proof.
  intros (_&Hm) (Hc&Hd&Hr&_&_) (kt&Hk&Hkv) Hcommon [[Ho Ho'] [Hca Hca'] Hrange] Hg Hseq.
  unfold validateCommon in Hcommon. destruct (IsZero _); [done|]. destruct (IsZero _); [done|]. checks Hcommon.
  repeat (apply Forall_cons in Hc as [? Hc]). cbn [fst snd] in *.
  apply good_lit; [done|exact Hr|]. repeat (apply Forall_cons; split; [cbn [fst snd]; eexists; split; [eassumption|]|]); try apply Forall_nil;
    eauto with good.
  - by apply good_provenance.
  - apply good_opt; [done|]. intros rc E. rewrite E in Hcommon. by apply good_run_context.
Qed.

(** What each constructor returns: its kind's variant over a good payload whose union, if any, reads as
    [s] and [e]. *)
Record sealable (c : Common) (p : PendingObservation) (t : gotype) (member : String.string) (payload : goval) (s e : option goval) : Prop := {
  sb_pending : p = pending (po_kind p) t member c payload;
  sb_member : exists pt, payload_member (po_kind p) t member pt /\ good pt payload;
  sb_envelope : envelope_ok t member;
  sb_kind : kind_valid (po_kind p) t;
  sb_common : validateCommon c = Ok tt;
  sb_union : if bool_decide (po_kind p = str "RUN_BOUNDARY") then member = "RunBoundary"%string /\ boundary_valid (sorted_json (as_raw payload)) s e
             else s = None /\ e = None;
  sb_vcs : po_kind p = str "VCS_REFERENCE" -> member = "VcsReference"%string /\ vcs_valid (sorted_json (as_raw payload));
}.

(** A field of a literal. *)
Lemma get_lit t fields name ft v :
  field_type t name = Some ft -> snd <$> (snd <$> list_find (fun nv => str nv.1 = str name) fields) = Some v ->
  get t name (lit t fields) = v.
Proof.
  destruct t as [| | | | | | | | | | | |fs]; try done. unfold field_type. intros ([i f]&Hf&_)%fmap_Some Hv.
  pose proof (field_at_go_name _ _ _ _ Hf) as [Hi Hn]. apply field_at_lookup in Hf as [_ Hget]. cbn [lit]. rewrite Hget.
  change (map (field_value fields) fs) with (field_value fields <$> fs). rewrite list_lookup_fmap, Hi. cbn. unfold field_value. rewrite Hn.
  destruct (list_find _ fields) as [[k nv]|]; cbn in Hv; [|done]. by injection Hv as <-.
Qed.

Lemma fits_64 z : in_i64 z -> fits 64 z = true.
Proof. unfold in_i64, MaxInt64, fits. change (2 ^ (64 - 1)) with (2 ^ 63). intros H. apply andb_true_intro. split; [apply Z.leb_le|apply Z.ltb_lt]; lia. Qed.

Lemma observation_gets kind t c member payload seq obsID :
  envelope_ok t member ->
  let v := observation_value kind t c member payload seq obsID in
  get t "Sequence" v = GInt seq /\ get t "ObservationId" v = GStr obsID
  /\ get t "RunContext" v = opt_value run_context_value (cm_RunContext c)
  /\ get t "Provenance" v = provenance_value (cm_Provenance c)
  /\ get t "OccurredAt" v = GTime (cm_OccurredAt c) /\ get t "CapturedAt" v = GTime (cm_CapturedAt c).
Proof.
  intros (Hc&_). repeat (apply Forall_cons in Hc as [? Hc]). cbn [fst snd] in *. cbv zeta. unfold observation_value, observation_fields.
  split_and!; (eapply get_lit; [eassumption|reflexivity]).
Qed.

Lemma find_last (l : named) name v :
  Forall (fun n => str n <> str name) l.*1 -> list_find (fun nv => str nv.1 = str name) (l ++ [(name, v)]) = Some (length l, (name, v)).
Proof.
  induction l as [|[n w] l IH]; cbn [fmap list_fmap app list_find fst length]; intros H; [by rewrite decide_True|].
  apply Forall_cons in H as [Hn H]. rewrite decide_False by done. by rewrite IH.
Qed.

(** No common member has the payload's name. *)
Definition own_name (member : String.string) : Prop := Forall (fun n => str n <> str member) ("Kind"%string :: map fst common_types).

Lemma get_member kind t c member ft payload seq obsID :
  field_type t member = Some ft -> own_name member ->
  get t member (observation_value kind t c member payload seq obsID) = payload.
Proof.
  intros Hf Hn. eapply get_lit; [done|]. unfold observation_fields.
  match goal with |- context [list_find _ ?l] => change l with (removelast l ++ [(member, payload)]) end.
  by rewrite find_last.
Qed.

Lemma Seal_sealable c p t member payload s e seq obsID :
  sealable c p t member payload s e -> typed_common c -> 1 <= seq <= MaxInt64 -> bounded maxObservationID obsID ->
  let v := observation_value (po_kind p) t c member payload seq obsID in
  exists o j, Seal p seq obsID = Ok o /\ marshal t v = Some o /\ decode_raw (writeCanonical o) = Some (j, []) /\ canonical j
    /\ (j = o /\ distinct_members o) /\ accepted j (observation_of (po_kind p) t (settle v) seq s e).
Proof.
  intros [Hp (pt&Hm&Hg) Henv Hkind Hcommon Hu Hvcs] Hc Hseq Hid v.
  pose proof Henv as (_&_&_&Hw&Hpl). assert (Hfit : fits 64 seq = true) by (apply fits_64; unfold in_i64, MaxInt64 in *; lia).
  pose proof (good_observation _ _ _ _ _ _ seq obsID Hm Henv Hkind Hcommon Hc Hg Hfit) as Hv. fold v in Hv.
  pose proof (observation_gets (po_kind p) t c member payload seq obsID Henv) as (Gs&_). fold v in Gs.
  pose proof Hv as (Hty&Hso&_). destruct (marshal_total t v Hw Hty Hso) as [o Ho].
  assert (Hb : bool_decide (po_kind p = str "RUN_BOUNDARY") = true -> get t "RunBoundary" v = payload).
  { intros E. rewrite E in Hu. destruct Hu as [-> _]. destruct Hm as [_ Hm]. eapply get_member; [done|]. by repeat constructor. }
  assert (Hvc : po_kind p = str "VCS_REFERENCE" -> get t "VcsReference" v = payload).
  { intros E. destruct (Hvcs E) as [-> _]. destruct Hm as [_ Hm]. eapply get_member; [done|]. by repeat constructor. }
  assert (Hs : sendable (po_kind p) t (settle v) seq).
  { apply good_sendable; try done; [by destruct Hm| |].
    - intros E. pose proof (bool_decide_eq_true_2 (po_kind p = str "RUN_BOUNDARY") E) as E'. rewrite (Hb E'). rewrite E' in Hu. exists s, e. apply Hu.
    - intros E. rewrite Hvc by done. by apply Hvcs. }
  assert (Hur : unions_read (po_kind p) t (settle v) s e).
  { unfold unions_read. rewrite get_settle. destruct (bool_decide _) eqn:E; [|done]. rewrite Hb by done.
    destruct Hu as [_ Hu]. by destruct payload. }
  assert (Hcb : CanonicalBytes t (settle v) = Some (writeCanonical o)) by (rewrite good_bytes by done; unfold CanonicalBytes; by rewrite Ho).
  destruct (sent_accepted _ _ _ _ _ _ _ Hs Hur Hcb) as (j&Hj&Hcj&Ha). exists o, j.
  refine (conj _ (conj Ho (conj Hj (conj Hcj (conj _ Ha))))).
  2:{ destruct (good_marshal true t v o Hw Hpl Hv Ho) as (Hwo&_). rewrite decode_raw_written in Hj by done. injection Hj as <-.
      destruct (variant_sorted (po_kind p) t (proj1 Hm)). split; [by apply (marshal_sorted t v)|by apply (marshal_distinct t v)]. }
  rewrite Hp. unfold Seal, pending. cbn [po_seal]. unfold SequenceMin, SequenceMax. rewrite (proj2 (Z.ltb_ge seq 1)), (proj2 (Z.ltb_ge _ _)) by lia. cbn [orb].
  rewrite (proj2 (boundedNonEmpty_Ok _ _ _) Hid). cbn [mbind result_bind]. unfold FromVariant.
  unfold v, observation_value in Ho. by rewrite Ho.
Qed.

(** ** The constructors *)

Inductive input : Type :=
| IRunStarted (i : RunStartedInput)
| IRunEndedDrain (i : RunEndedDrainInput)
| ILaunchFailure (i : RunEndedLaunchFailureInput)
| IProcessLifecycle (i : ProcessLifecycleInput)
| ISessionLifecycle (i : SessionLifecycleInput)
| IMessage (i : MessageInput)
| IToolCall (i : ToolCallInput)
| IToolResult (i : ToolResultInput)
| IUsage (i : UsageInput)
| IWorkReference (r : WorkReference)
| ICommit (i : VcsReferenceInput)
| IPullRequest (i : VcsReferenceInput)
| ICaptureDiagnostic (i : CaptureDiagnosticInput).

Definition New (c : Common) (i : input) : built PendingObservation :=
  match i with
  | IRunStarted i => NewRunStarted c i
  | IRunEndedDrain i => NewRunEndedDrain c i
  | ILaunchFailure i => NewRunEndedLaunchFailure c i
  | IProcessLifecycle i => NewProcessLifecycle c i
  | ISessionLifecycle i => NewSessionLifecycle c i
  | IMessage i => NewMessage c i
  | IToolCall i => NewToolCall c i
  | IToolResult i => NewToolResult c i
  | IUsage i => NewUsage c i
  | IWorkReference r => newWorkReference c r
  | ICommit i => NewCommitReference c i
  | IPullRequest i => NewPullRequestReference c i
  | ICaptureDiagnostic i => NewCaptureDiagnostic c i
  end.

(** The integers of an input are of their Go types. *)
Definition typed_input (i : input) : Prop :=
  match i with
  | IRunEndedDrain i => fits 64 (wm_ByteOffset (rd_CoveredWatermark i)) = true
  | IProcessLifecycle i =>
      fits 64 (pi_Pid (pl_Identity i)) = true /\ fits 64 (pi_ProcessStartTime (pl_Identity i)) = true
      /\ int_opt 32 (pl_ExitCode i) /\ int_opt 32 (pl_Signal i)
  | IMessage i => int_opt 64 (mi_ByteCount i) /\ int_opt 64 (mi_TokenCount i)
  | IToolCall i => int_opt 64 (tc_ArgumentByteCount i)
  | IToolResult i => int_opt 64 (tr_ResultByteCount i)
  | IUsage i =>
      int_opt 64 (us_InputTokens i) /\ int_opt 64 (us_OutputTokens i)
      /\ int_opt 64 (us_CacheCreationTokens i) /\ int_opt 64 (us_CacheReadTokens i)
  | _ => True
  end.

Definition kinds : list (bytes * gotype * String.string * gotype) :=
  [(str "RUN_BOUNDARY", wire.RunBoundaryObservation, "RunBoundary"%string, TRaw);
   (str "PROCESS_LIFECYCLE", wire.ProcessLifecycleObservation, "ProcessLifecycle"%string, wire.ProcessLifecyclePayload);
   (str "SESSION_LIFECYCLE", wire.SessionLifecycleObservation, "SessionLifecycle"%string, wire.SessionLifecyclePayload);
   (str "MESSAGE", wire.MessageObservation, "Message"%string, wire.MessagePayload);
   (str "TOOL_CALL", wire.ToolCallObservation, "ToolCall"%string, wire.ToolCallPayload);
   (str "TOOL_RESULT", wire.ToolResultObservation, "ToolResult"%string, wire.ToolResultPayload);
   (str "USAGE", wire.UsageObservation, "Usage"%string, wire.UsagePayload);
   (str "WORK_REFERENCE", wire.WorkReferenceObservation, "WorkReference"%string, wire.WorkReference);
   (str "VCS_REFERENCE", wire.VcsReferenceObservation, "VcsReference"%string, TRaw);
   (str "CAPTURE_DIAGNOSTIC", wire.CaptureDiagnosticObservation, "CaptureDiagnostic"%string, wire.CaptureDiagnosticPayload)].

Lemma kinds_ok k t m pt : (k, t, m, pt) ∈ kinds -> payload_member k t m pt /\ envelope_ok t m /\ kind_valid k t /\ own_name m.
Proof.
  assert (H : Forall (fun x => payload_member x.1.1.1 x.1.1.2 x.1.2 x.2 /\ envelope_ok x.1.1.2 x.1.2 /\ kind_valid x.1.1.1 x.1.1.2
                               /\ own_name x.1.2) kinds).
  { repeat (apply Forall_cons; split; [cbn [fst snd]; split; [split; reflexivity|split; [|split]]|]); try apply Forall_nil.
    all: try (eexists; split; reflexivity).
    all: try (repeat constructor; discriminate).
    all: refine (conj _ (conj eq_refl (conj eq_refl (conj eq_refl eq_refl)))); repeat (apply Forall_cons; split; [reflexivity|]); apply Forall_nil. }
  rewrite Forall_forall in H. intros Hin. exact (H _ Hin).
Qed.

Lemma pending_sealable k t m pt c payload s e :
  (k, t, m, pt) ∈ kinds -> validateCommon c = Ok tt -> good pt payload ->
  (if bool_decide (k = str "RUN_BOUNDARY") then boundary_valid (sorted_json (as_raw payload)) s e else s = None /\ e = None) ->
  (k = str "VCS_REFERENCE" -> vcs_valid (sorted_json (as_raw payload))) ->
  sealable c (pending k t m c payload) t m payload s e.
Proof.
  intros Hin Hc Hg Hu Hv. destruct (kinds_ok _ _ _ _ Hin) as (Hm&He&Hk&_).
  assert (Hmem : (k = str "RUN_BOUNDARY" -> m = "RunBoundary"%string) /\ (k = str "VCS_REFERENCE" -> m = "VcsReference"%string)).
  { unfold kinds in Hin. repeat (apply elem_of_cons in Hin as [Hin|Hin]; [injection Hin as -> -> -> ->; split; intros E; try reflexivity; vm_compute in E; discriminate E|]).
    by inversion Hin. }
  destruct Hmem as [M1 M2]. split; cbn [po_kind pending]; try done.
  - by exists pt.
  - destruct (bool_decide (k = str "RUN_BOUNDARY")) eqn:E; [|done]. apply bool_decide_eq_true_1 in E. split; [by apply M1|done].
  - intros E. split; [by apply M2|by apply Hv].
Qed.

(** A union's marshalled literal reads as that literal. *)
Lemma FromVariant_reads t name k fields j :
  wire_type t = true -> plain_enums t = true -> sorted_type t && distinct_type t = true -> good t (lit t ((name, GStr k) :: fields)) ->
  FromVariant t name k fields = Ok j -> tidy j /\ strict_value t (sorted_json j) (settle (lit t ((name, GStr k) :: fields))).
Proof.
  intros Hw Hp [Ho Hd]%andb_prop Hg. unfold FromVariant. destruct (marshal _ _) as [j'|] eqn:E; [|done]. intros [= ->].
  destruct (good_marshal true _ _ _ Hw Hp Hg E) as (?&?&?). destruct Hg as (Ht&Hs&_).
  split; [|done]. split; [split; [done|by eapply marshal_sorted]|by eapply marshal_distinct].
Qed.

Definition started_value (i : RunStartedInput) (refs : option (list WorkReference)) : goval :=
  lit wire.RunStartedBoundary [("Transition", GStr (str "RUN_STARTED")); ("BoundarySource", GStr (rs_BoundarySource i));
    ("RunId", GStr (rs_RunID i)); ("WorkItemRefs", opt_value refs_value refs)]%string.

Lemma prepareCommon_Ok c c' : prepareCommon c = Ok c' <-> validateCommon c = Ok tt /\ c' = c.
Proof.
  unfold prepareCommon. rewrite bind_Ok. split; [by intros ([]&?&[= <-])|]. intros [? ->]. by exists tt.
Qed.

Lemma checkedRefs_Ok field l o :
  checkedRefs field l = Ok o ->
  zlen (default [] o) <= MaxReferencesPerObservation /\ (forall l, o = Some l -> good (TSlice wire.WorkReference) (refs_value l)).
Proof.
  unfold checkedRefs. destruct (bool_decide (l = [])); [intros [= <-]; split; [done|by intros ? [=]]|].
  destruct (Z.ltb_spec MaxReferencesPerObservation (zlen l)); [done|]. intros H'. checks H'. injection H' as <-. split; [done|].
  intros ? [= <-]. by eapply good_refs.
Qed.

(** What the validators see in a payload: the boundaries it reads as, and for two kinds the payload. *)
Record payload_valid (i : input) (payload : goval) (s e : option goval) : Prop := {
  pv_started : forall b, s = Some b -> refs_len (get wire.RunStartedBoundary "WorkItemRefs" b) <= MaxReferencesPerObservation;
  pv_ended : forall b, e = Some b ->
    is_set (get wire.RunEndedBoundary "DrainStatus" b) = is_set (get wire.RunEndedBoundary "CoveredWatermark" b);
  pv_usage : forall u, i = IUsage u ->
    get wire.UsagePayload "Quality" payload = GStr (us_Quality u) /\ Valid wire.UsagePayloadQuality (us_Quality u) = true
    /\ (us_Quality u = str "ESTIMATED" -> get wire.UsagePayload "PriceTableVersion" payload = GPtr (GStr (us_PriceTableVersion u)));
  pv_session : forall l, i = ISessionLifecycle l ->
    get wire.SessionLifecyclePayload "Model" payload = (if bool_decide (sl_Model l = []) then GNil else GPtr (GStr (sl_Model l)));
}.

Lemma payload_valid_plain i payload :
  (forall u, i <> IUsage u) -> (forall l, i <> ISessionLifecycle l) -> payload_valid i payload None None.
Proof. intros Hu Hl. split; try done; intros x E; exfalso; [by apply (Hu x)|by apply (Hl x)]. Qed.

Lemma refs_len_settle v : refs_len (settle v) = refs_len v.
Proof. destruct v as [| | | | | | |[]| |]; try done. cbn. unfold zlen. by rewrite length_map. Qed.

Lemma is_set_settle v : is_set (settle v) = is_set v.
Proof. by destruct v. Qed.

(** A constructor's result: the pending observation of a kind. *)
Definition built_as (c : Common) (i : input) (p : PendingObservation) : Prop :=
  exists t member payload s e, sealable c p t member payload s e /\ payload_valid i payload s e
    /\ (po_kind p, t, member) ∈ map fst kinds.

Ltac open_new H :=
  let c' := fresh "c" in let Hcom := fresh "Hcom" in
  apply bind_Ok in H as (c'&[Hcom ->]%prepareCommon_Ok&H); cbv beta in H; checks H;
  repeat match goal with Hv : validEnum _ _ _ = Ok tt |- _ => apply validEnum_Valid in Hv end;
  repeat match goal with Hc : checkedCount _ _ = Ok _ |- _ => apply checkedCount_Ok in Hc as [-> _] end.

Lemma plain_built k t m pt c i payload p :
  (k, t, m, pt) ∈ kinds -> validateCommon c = Ok tt -> good pt payload -> k <> str "RUN_BOUNDARY" -> k <> str "VCS_REFERENCE" ->
  payload_valid i payload None None -> @Ok build_error _ (pending k t m c payload) = Ok p -> built_as c i p.
Proof.
  intros Hin Hc Hg Hk Hv Hp [= <-]. exists t, m, payload, None, None. split; [|split; [done|]].
  - eapply pending_sealable; [done|done|done| |done]. by rewrite bool_decide_eq_false_2.
  - apply list_elem_of_fmap. by exists (k, t, m, pt).
Qed.

Ltac in_kinds := unfold kinds; repeat (apply elem_of_cons; first [left; reflexivity|right]).

Lemma optionalString_value field s max o : optionalString field s max = Ok o -> o = if bool_decide (s = []) then None else Some s.
Proof. intros [[_ ->]|[-> ->]]%optionalString_Ok; done. Qed.

(** The rest of a constructor without a union. *)
Ltac plain_new H :=
  lazymatch type of H with Ok (pending ?k ?t ?m ?c ?payload) = _ => eapply (plain_built k t m _ c _ payload) end;
  [in_kinds|assumption| |discriminate|discriminate| |exact H]; [good_fields|try (apply payload_valid_plain; discriminate)].

Lemma NewMessage_built c i p : typed_input (IMessage i) -> NewMessage c i = Ok p -> built_as c (IMessage i) p.
Proof. intros [H1 H2] H. unfold NewMessage in H. open_new H. plain_new H. Qed.

Lemma NewToolCall_built c i p : typed_input (IToolCall i) -> NewToolCall c i = Ok p -> built_as c (IToolCall i) p.
Proof. intros H1 H. unfold NewToolCall in H. open_new H. plain_new H. Qed.

Lemma NewToolResult_built c i p : typed_input (IToolResult i) -> NewToolResult c i = Ok p -> built_as c (IToolResult i) p.
Proof. intros H1 H. unfold NewToolResult in H. open_new H. plain_new H. Qed.

Lemma NewProcessLifecycle_built c i p :
  typed_input (IProcessLifecycle i) -> NewProcessLifecycle c i = Ok p -> built_as c (IProcessLifecycle i) p.
Proof. intros (H1&H2&H3&H4) H. unfold NewProcessLifecycle in H. open_new H. plain_new H. by apply good_identity. Qed.

Lemma newWorkReference_built c r p : newWorkReference c r = Ok p -> built_as c (IWorkReference r) p.
Proof.
  intros H. unfold newWorkReference in H. open_new H.
  eapply (plain_built (str "WORK_REFERENCE")); [in_kinds|assumption| |discriminate|discriminate|apply payload_valid_plain; discriminate|exact H].
  by eapply good_work_reference.
Qed.

Lemma NewCaptureDiagnostic_built c i p : NewCaptureDiagnostic c i = Ok p -> built_as c (ICaptureDiagnostic i) p.
Proof. intros H. unfold NewCaptureDiagnostic in H. open_new H. plain_new H. Qed.

Lemma NewSessionLifecycle_built c i p : NewSessionLifecycle c i = Ok p -> built_as c (ISessionLifecycle i) p.
Proof.
  intros H. unfold NewSessionLifecycle in H. open_new H. plain_new H. split; try done. intros l [= <-].
  match goal with Hm : optionalString _ _ _ = Ok _ |- _ => apply optionalString_value in Hm as -> end.
  etrans; [eapply get_lit; reflexivity|]. by destruct (bool_decide (sl_Model i = [])).
Qed.

Lemma NewUsage_built c i p : typed_input (IUsage i) -> NewUsage c i = Ok p -> built_as c (IUsage i) p.
Proof.
  intros (H1&H2&H3&H4) H. unfold NewUsage in H. open_new H. destruct (_ && _) eqn:Eq; [done|]. checks H.
  repeat match goal with Hc : checkedCount _ _ = Ok _ |- _ => apply checkedCount_Ok in Hc as [-> _] end.
  plain_new H. split; try done. intros u [= <-]. split; [eapply get_lit; reflexivity|]. split; [done|]. intros Hq.
  rewrite bool_decide_eq_true_2 in Eq by done. cbn [andb] in Eq.
  match goal with Hm : optionalString _ (us_PriceTableVersion i) _ = Ok _ |- _ => apply optionalString_value in Hm as -> end.
  destruct (bool_decide (us_PriceTableVersion i = [])); [done|]. eapply get_lit; reflexivity.
Qed.

(** A union constructor: the literal it marshals, and what reads it. *)
Lemma boundary_built c i p payload s e :
  validateCommon c = Ok tt -> tidy payload -> boundary_valid (sorted_json payload) s e -> payload_valid i (GRaw payload) s e ->
  newBoundary c payload = p -> built_as c i p.
Proof.
  intros Hc Hw Hb Hv <-. exists wire.RunBoundaryObservation, "RunBoundary"%string, (GRaw payload), s, e. split; [|split; [done|]].
  - unfold newBoundary. apply (pending_sealable _ _ _ TRaw); [in_kinds|exact Hc|by apply good_raw| |].
    + rewrite bool_decide_eq_true_2 by reflexivity. exact Hb.
    + intros E. vm_compute in E. discriminate E.
  - apply list_elem_of_fmap. eexists (_, _, _, TRaw). split; [reflexivity|in_kinds].
Qed.

Lemma started_payload_valid i b payload :
  (forall u, i <> IUsage u) -> (forall l, i <> ISessionLifecycle l) ->
  refs_len (get wire.RunStartedBoundary "WorkItemRefs" b) <= MaxReferencesPerObservation -> payload_valid i payload (Some b) None.
Proof. intros Hu Hl Hb. split; try done; [by intros ? [= <-]|intros x E; exfalso; by apply (Hu x)|intros x E; exfalso; by apply (Hl x)]. Qed.

Lemma ended_payload_valid i b payload :
  (forall u, i <> IUsage u) -> (forall l, i <> ISessionLifecycle l) ->
  is_set (get wire.RunEndedBoundary "DrainStatus" b) = is_set (get wire.RunEndedBoundary "CoveredWatermark" b) ->
  payload_valid i payload None (Some b).
Proof. intros Hu Hl Hb. split; try done; [by intros ? [= <-]|intros x E; exfalso; by apply (Hu x)|intros x E; exfalso; by apply (Hl x)]. Qed.

Lemma NewRunStarted_built c i p : NewRunStarted c i = Ok p -> built_as c (IRunStarted i) p.
Proof.
  intros H. unfold NewRunStarted in H. open_new H. apply (inj Ok) in H.
  match goal with Hr : checkedRefs _ _ = Ok ?refs |- _ => apply checkedRefs_Ok in Hr as [Hlen Hrefs]; set (r := refs) in * end.
  match goal with Hj : FromVariant _ _ _ _ = Ok _ |- _ => apply FromVariant_reads in Hj as [Hw Hs]; [|reflexivity|reflexivity|reflexivity|] end.
  2:{ good_fields. by apply good_opt. }
  eapply boundary_built; [done|done|left; eexists; exact (conj eq_refl (conj eq_refl Hs))| |exact H].
  apply started_payload_valid; [discriminate|discriminate|]. rewrite get_settle, refs_len_settle.
  replace (get wire.RunStartedBoundary "WorkItemRefs" _) with (opt_value refs_value r) by (symmetry; eapply get_lit; reflexivity).
  destruct r as [l|]; cbn in *; [|unfold MaxReferencesPerObservation; lia]. unfold zlen in *. by rewrite length_map.
Qed.

Lemma NewRunEndedDrain_built c i p : typed_input (IRunEndedDrain i) -> NewRunEndedDrain c i = Ok p -> built_as c (IRunEndedDrain i) p.
Proof.
  intros Ht H. unfold NewRunEndedDrain in H. open_new H. apply (inj Ok) in H.
  match goal with Hj : FromVariant _ _ _ _ = Ok _ |- _ => apply FromVariant_reads in Hj as [Hw Hs]; [|reflexivity|reflexivity|reflexivity|] end.
  2:{ good_fields; [apply good_ptr; [done|by apply good_valid]|apply good_ptr; [done|by apply good_watermark]]. }
  eapply boundary_built; [done|done|right; eexists; exact (conj eq_refl (conj eq_refl Hs))| |exact H].
  apply ended_payload_valid; [discriminate|discriminate|]. rewrite !get_settle, !is_set_settle.
  etrans; [|symmetry]; (etrans; [apply f_equal; eapply get_lit; reflexivity|reflexivity]).
Qed.

Lemma NewRunEndedLaunchFailure_built c i p : NewRunEndedLaunchFailure c i = Ok p -> built_as c (ILaunchFailure i) p.
Proof.
  intros H. unfold NewRunEndedLaunchFailure in H. open_new H. apply (inj Ok) in H.
  match goal with Hj : FromVariant _ _ _ _ = Ok _ |- _ => apply FromVariant_reads in Hj as [Hw Hs]; [|reflexivity|reflexivity|reflexivity|] end.
  2:{ good_fields. }
  eapply boundary_built; [done|done|right; eexists; exact (conj eq_refl (conj eq_refl Hs))| |exact H].
  apply ended_payload_valid; [discriminate|discriminate|]. reflexivity.
Qed.

Lemma vcs_built t kind max pattern detail c i inp p :
  (t = wire.CommitVcsReference /\ kind = str "COMMIT" \/ t = wire.PullRequestVcsReference /\ kind = str "PULL_REQUEST") ->
  (forall u, inp <> IUsage u) -> (forall l, inp <> ISessionLifecycle l) ->
  new_vcs t kind max pattern detail c i = Ok p -> built_as c inp p.
Proof.
  intros Ht Hu Hl H. unfold new_vcs in H. open_new H. destruct (negb _); [done|]. checks H. apply (inj Ok) in H.
  match goal with Hx : validateExtraction _ = Ok tt |- _ => apply good_extraction in Hx end.
  match goal with Hj : FromVariant _ _ _ _ = Ok _ |- _ => apply FromVariant_reads in Hj as [Hw Hs] end;
    [|by destruct Ht as [[-> ->]|[-> ->]]|by destruct Ht as [[-> ->]|[-> ->]]|by destruct Ht as [[-> ->]|[-> ->]]|].
  2:{ destruct Ht as [[-> ->]|[-> ->]]; good_fields. }
  subst p. eexists wire.VcsReferenceObservation, "VcsReference"%string, (GRaw _), None, None. split; [|split; [by apply payload_valid_plain|]].
  - unfold newVcsReference. apply (pending_sealable _ _ _ TRaw); [in_kinds|assumption|by apply good_raw| |].
    { rewrite bool_decide_eq_false_2 by (vm_compute; discriminate). split; reflexivity. }
    intros _. destruct Ht as [[-> ->]|[-> ->]]; eexists; [left; exact Hs|right; exact Hs].
  - apply list_elem_of_fmap. eexists (_, _, _, TRaw). split; [reflexivity|in_kinds].
Qed.

Lemma New_built c i p : typed_input i -> New c i = Ok p -> built_as c i p.
Proof.
  destruct i as [i|i|i|i|i|i|i|i|i|r|i|i|i]; cbn [New]; intros Ht H.
  - by apply NewRunStarted_built.
  - by apply NewRunEndedDrain_built.
  - by apply NewRunEndedLaunchFailure_built.
  - by apply NewProcessLifecycle_built.
  - by apply NewSessionLifecycle_built.
  - by apply NewMessage_built.
  - by apply NewToolCall_built.
  - by apply NewToolResult_built.
  - by apply NewUsage_built.
  - by apply newWorkReference_built.
  - eapply vcs_built; [left; done|discriminate|discriminate|exact H].
  - eapply vcs_built; [right; done|discriminate|discriminate|exact H].
  - by apply NewCaptureDiagnostic_built.
Qed.

Definition kind_of (i : input) : bytes :=
  match i with
  | IRunStarted _ | IRunEndedDrain _ | ILaunchFailure _ => str "RUN_BOUNDARY"
  | IProcessLifecycle _ => str "PROCESS_LIFECYCLE"
  | ISessionLifecycle _ => str "SESSION_LIFECYCLE"
  | IMessage _ => str "MESSAGE"
  | IToolCall _ => str "TOOL_CALL"
  | IToolResult _ => str "TOOL_RESULT"
  | IUsage _ => str "USAGE"
  | IWorkReference _ => str "WORK_REFERENCE"
  | ICommit _ | IPullRequest _ => str "VCS_REFERENCE"
  | ICaptureDiagnostic _ => str "CAPTURE_DIAGNOSTIC"
  end.

Lemma New_kind c i p : New c i = Ok p -> po_kind p = kind_of i.
Proof.
  assert (Hk : forall (A : Type) (m : built A) (f : A -> built PendingObservation) k,
    (forall a, f a = Ok p -> po_kind p = k) -> m ≫= f = Ok p -> po_kind p = k) by (intros A m f k Hf (a&_&H)%bind_Ok; eauto).
  destruct i; cbn [New kind_of];
    unfold NewRunStarted, NewRunEndedDrain, NewRunEndedLaunchFailure, NewProcessLifecycle, NewSessionLifecycle, NewMessage, NewToolCall,
      NewToolResult, NewUsage, newWorkReference, NewCommitReference, NewPullRequestReference, new_vcs, NewCaptureDiagnostic;
    repeat first [ apply Hk; intros ? | match goal with |- context [if ?b then _ else _] => destruct b; [done|] end ];
    intros E; apply (inj Ok) in E; by subst p.
Qed.

(** No constructor returns the zero value. *)
Lemma New_seals c i kd oc ca : New c i <> Ok (mkPending kd oc ca None).
Proof.
  assert (Hk : forall (A : Type) (m : built A) (f : A -> built PendingObservation) p,
    (forall a, f a <> Ok p) -> m ≫= f <> Ok p) by (intros A m f p Hf (a&_&H)%bind_Ok; by apply (Hf a)).
  destruct i; cbn [New];
    unfold NewRunStarted, NewRunEndedDrain, NewRunEndedLaunchFailure, NewProcessLifecycle, NewSessionLifecycle, NewMessage, NewToolCall,
      NewToolResult, NewUsage, newWorkReference, NewCommitReference, NewPullRequestReference, new_vcs, NewCaptureDiagnostic;
    repeat first [ apply Hk; intros ? | match goal with |- context [if ?b then _ else _] => destruct b; [done|] end ];
    intros E; apply (inj Ok) in E; discriminate E.
Qed.

(** ** What is sealed is accepted *)

(** An observation [d] reads as [p] sealed with a sequence and an id. *)
Record reads_as (c : Common) (i : input) (p : PendingObservation) (seq : Z) (obsID : bytes) (d : DecodedObservation) : Prop := {
  ra_kind : do_Kind d = kind_of i;
  ra_sequence : do_Sequence d = seq;
  ra_id : do_ObservationID d = to_valid obsID;
  ra_context : do_RunContext d = settle (opt_value run_context_value (cm_RunContext c));
  ra_value : exists t member payload, (kind_of i, t, member) ∈ map fst kinds
      /\ do_Variant d = settle (observation_value (kind_of i) t c member payload seq obsID)
      /\ get t member (do_Variant d) = settle payload
      /\ payload_valid i payload (do_RunStarted d) (do_RunEnded d)
      /\ do_Usage d = (if bool_decide (kind_of i = str "USAGE") then Some (get t "Usage" (do_Variant d)) else None);
}.

Lemma Seal_reads c i p seq obsID :
  typed_common c -> typed_input i -> New c i = Ok p -> 1 <= seq <= MaxInt64 -> bounded maxObservationID obsID ->
  exists o j d, Seal p seq obsID = Ok o /\ decode_raw (writeCanonical o) = Some (j, []) /\ canonical j
    /\ (j = o /\ distinct_members o) /\ accepted j d /\ reads_as c i p seq obsID d.
Proof.
  intros Hc Hi Hp Hseq Hid. destruct (New_built c i p Hi Hp) as (t&member&payload&s&e&Hs&Hv&Hk). pose proof (New_kind _ _ _ Hp) as Ek.
  destruct (Seal_sealable c p t member payload s e seq obsID Hs Hc Hseq Hid) as (o&j&Ho&_&Hj&Hcj&Hwj&Ha).
  rewrite Ek in Ha, Hk. eexists o, j, _. refine (conj Ho (conj Hj (conj Hcj (conj Hwj (conj Ha _))))).
  destruct (observation_gets (kind_of i) t c member payload seq obsID (sb_envelope _ _ _ _ _ _ _ Hs)) as (_&G2&G3&_).
  split; cbn [do_Kind do_Sequence do_ObservationID do_RunContext observation_of].
  - done.
  - done.
  - by rewrite get_settle, G2.
  - by rewrite get_settle, G3.
  - exists t, member, payload. cbn [do_Variant do_RunStarted do_RunEnded do_Usage observation_of].
    split; [done|]. split; [done|]. split; [|split; [done|done]].
    apply list_elem_of_fmap in Hk as ([[[k t'] m'] pt]&Eq&Hin). cbn [fst] in Eq. injection Eq as -> -> ->.
    destruct (kinds_ok _ _ _ _ Hin) as ([_ Hm]&_&_&Hn). by rewrite get_settle, (get_member _ _ _ _ pt).
Qed.

(** The members the daemon stamps are there. *)
Definition has_stamps (o : json) : Prop :=
  exists m, o = JObj m /\ (str "kind" ∈ m.*1) /\ (str "sequence" ∈ m.*1) /\ (str "observation_id" ∈ m.*1).

(** A member that is never left out. *)
Definition always (t : gotype) (name : bytes) : bool :=
  match t with TStruct fs => existsb (fun f => bool_decide (json_name f = name) && negb (is_ptr (go_type f))) fs | _ => false end.

Lemma variants_always : forallb (fun kv => always kv.2 (str "kind") && always kv.2 (str "sequence") && always kv.2 (str "observation_id")) variant_types = true.
Proof. vm_compute. reflexivity. Qed.

Lemma always_there t name v j :
  wire_type t = true -> always t name = true -> has_type t v -> marshal t v = Some j -> exists m, j = JObj m /\ (name ∈ m.*1).
Proof.
  destruct t as [| | | | | | | | | | | |fs]; try done. intros Hw Ha Ht Hm. destruct v as [| | | | | | | | |vs]; try done.
  cbn [marshal] in Hm. apply fmap_Some in Hm as (m&Hm&->). exists m. split; [done|].
  apply existsb_exists in Ha as (f&Hf&[Hn Hp]%andb_prop). apply bool_decide_eq_true_1 in Hn as <-.
  apply list_elem_of_In, list_elem_of_lookup in Hf as [i Hf]. apply has_type_struct in Ht.
  destruct (Forall2_lookup_l _ _ _ _ _ Ht Hf) as (v&Hv&_). cbn [wire_type] in Hw. apply andb_prop in Hw as [[Hnd _]%andb_prop _].
  apply bool_decide_eq_true_1 in Hnd. destruct (decide (json_name f ∈ m.*1)) as [|Ho]; [done|].
  pose proof (marshal_fields_absent _ _ _ _ _ _ _ Hnd Hm Hf Hv Ho) as H. unfold omitted in H. by destruct (go_type f).
Qed.

(** What is sealed, as it is sent: canonical already, unambiguous, and accepted. *)
Lemma Seal_sends c i p seq obsID :
  typed_common c -> typed_input i -> New c i = Ok p -> 1 <= seq <= MaxInt64 -> bounded maxObservationID obsID ->
  exists o d, Seal p seq obsID = Ok o /\ canonical o /\ distinct_members o /\ has_stamps o /\ accepted o d /\ reads_as c i p seq obsID d.
Proof.
  intros Hc Hi Hp Hseq Hid. destruct (Seal_reads c i p seq obsID Hc Hi Hp Hseq Hid) as (o&j&d&Ho&_&Hcj&[-> Hd]&Ha&Hr).
  exists o, d. split; [done|]. split; [done|]. split; [done|]. split; [|done].
  destruct (New_built c i p Hi Hp) as (t&member&payload&s&e&Hs&_).
  destruct (Seal_sealable c p t member payload s e seq obsID Hs Hc Hseq Hid) as (o'&_&Ho'&Hm&_). rewrite Ho in Ho'. injection Ho' as <-.
  pose proof Hs as [Hp' (pt&[Hk _]&Hg) (_&_&_&Hw&_) _ _ _ _]. pose proof variants_always as Hall. rewrite forallb_forall in Hall.
  specialize (Hall (po_kind p, t) (proj1 (list_elem_of_In _ _) (by_kind_elem _ _ _ Hk))). apply andb_prop in Hall as [[A0 A1]%andb_prop A2]. cbn [fst snd] in *.
  assert (Hty : has_type t (observation_value (po_kind p) t c member payload seq obsID)).
  { pose proof Hs as [_ (pt'&Hm'&Hg') Henv Hkind Hcommon _ _]. assert (Hfit : fits 64 seq = true) by (apply fits_64; unfold in_i64, MaxInt64 in *; lia).
    by destruct (good_observation _ _ _ _ _ _ seq obsID Hm' Henv Hkind Hcommon Hc Hg' Hfit) as (?&_). }
  destruct (always_there t _ _ _ Hw A0 Hty Hm) as (m&->&H0). destruct (always_there t _ _ _ Hw A1 Hty Hm) as (m'&[= <-]&H1).
  destruct (always_there t _ _ _ Hw A2 Hty Hm) as (m'&[= <-]&H2). by exists m.
Qed.

(** Whatever a constructor builds can be sent: sealed with any sequence in range and any bounded
    identity, its canonical bytes pass the strict decoder at every index, as an observation of its kind
    with that sequence, identity, run context and payload. *)
Theorem sealed_accepted c i p seq obsID idx :
  typed_common c -> typed_input i -> New c i = Ok p -> 1 <= seq <= MaxInt64 -> bounded maxObservationID obsID ->
  exists o j d, Seal p seq obsID = Ok o /\ decode_raw (writeCanonical o) = Some (j, []) /\ decodeObservation j idx = Ok d
    /\ reads_as c i p seq obsID d.
Proof.
  intros Hc Hi Hp Hseq Hid. destruct (Seal_reads c i p seq obsID Hc Hi Hp Hseq Hid) as (o&j&d&Ho&Hj&_&_&Ha&Hr).
  exists o, j, d. refine (conj Ho (conj Hj (conj _ Hr))). by apply accepted_observation.
Qed.

(** Outside those bounds sealing is refused. *)
Lemma Seal_refuses p seq obsID :
  ~ (1 <= seq <= MaxInt64) \/ ~ bounded maxObservationID obsID -> exists e, Seal p seq obsID = Err e.
Proof.
  intros H. unfold Seal, SequenceMin, SequenceMax. destruct (po_seal p) as [f|]; [|by eexists].
  destruct (Z.ltb_spec seq 1); [by eexists|]. destruct (Z.ltb_spec MaxInt64 seq); [by eexists|]. cbn [orb].
  destruct (boundedNonEmpty _ _ _) as [[]|e] eqn:E; [|by eexists]. apply boundedNonEmpty_Ok in E. destruct H; [lia|done].
Qed.

(** ** What is sealed is valid *)

(** The two places where the constructors ask less than the validator, and the ids' length as written. *)
Definition publishable (i : input) : Prop :=
  match i with
  | IUsage u => us_Quality u = str "ESTIMATED" -> TrimSpace (to_valid (us_PriceTableVersion u)) <> []
  | ISessionLifecycle l => zlen (to_valid (sl_Model l)) <= MaxModelLen
  | _ => True
  end.

Lemma to_valid_nonempty s : s <> [] -> to_valid s <> [].
Proof.
  intros Hs. unfold to_valid, range_runes. pose proof (runes_ok (length s) s) as H.
  assert (Hr : runes (length s) s <> []) by (destruct s as [|b s]; [done|cbn [length runes]; repeat case_match; done]).
  destruct (runes (length s) s) as [|r rs]; [done|]. apply Forall_cons in H as [[(b&->&_)|(b&t&->&_)] _]; done.
Qed.

Lemma kinds_fst k t m : (k, t, m) ∈ map fst kinds -> exists pt, (k, t, m, pt) ∈ kinds.
Proof. intros ([[[k' t'] m'] pt]&E&H)%list_elem_of_fmap. cbn [fst] in E. injection E as -> -> ->. by exists pt. Qed.

(** The variant of a kind, once. *)
Lemma kinds_unique k t m t' m' : (k, t, m) ∈ map fst kinds -> (k, t', m') ∈ map fst kinds -> t = t' /\ m = m'.
Proof.
  assert (Hn : NoDup (kinds.*1.*1.*1)) by (refine (bool_decide_eq_true_1 _ _); vm_compute; reflexivity).
  intros [pt H]%kinds_fst [pt' H']%kinds_fst. apply list_elem_of_lookup in H as [x Hx], H' as [y Hy].
  assert (x = y) as <- by (eapply (NoDup_lookup _ _ _ k Hn); by rewrite !list_lookup_fmap, ?Hx, ?Hy).
  rewrite Hx in Hy. by injection Hy as <- <- <-.
Qed.

Lemma valid_text t v : plain_enums t = true -> Valid t v = true -> to_valid v = v.
Proof.
  destruct t; try done. cbn. rewrite forallb_forall. intros Hp Hv%bool_decide_eq_true_1. apply to_valid_id, plain_utf8, Hp. by apply list_elem_of_In.
Qed.

Lemma context_capped c d rc :
  validateCommon c = Ok tt -> cm_RunContext c = Some rc -> do_RunContext d = settle (opt_value run_context_value (cm_RunContext c)) ->
  context_refs d <= MaxReferencesPerObservation.
Proof.
  intros Hc Hrc Hd. unfold context_refs. rewrite Hd, Hrc. cbn [opt_value settle]. rewrite get_settle, refs_len_settle.
  unfold validateCommon in Hc. destruct (IsZero _); [done|]. destruct (IsZero _); [done|]. checks Hc. rewrite Hrc in Hc.
  unfold validateRunContext in Hc. checks Hc.
  replace (get wire.RunContext "WorkItemRefs" _) with (opt_value refs_value (rc_WorkItemRefs rc)) by (symmetry; eapply get_lit; reflexivity).
  destruct (rc_WorkItemRefs rc) as [l|]; cbn; [|unfold MaxReferencesPerObservation; lia].
  destruct (Z.ltb_spec MaxReferencesPerObservation (zlen l)); [done|]. unfold zlen in *. by rewrite length_map.
Qed.

Lemma reads_valid c i p seq obsID d :
  validateCommon c = Ok tt -> reads_as c i p seq obsID d -> publishable i -> obsID <> [] -> zlen (to_valid obsID) <= MaxObservationIDLen ->
  observation_valid d.
Proof.
  intros Hc [Hk _ Hid Hctx (t&m&pl&Hin&Hvar&Hget&[P1 P2 P3 P4]&Hu)] Hpub Hne Hlen. split; [|split; [|split]].
  - split.
    + destruct (cm_RunContext c) as [rc|] eqn:E; [eapply context_capped; [done..|by rewrite E]|]. unfold context_refs. by rewrite Hctx.
    + unfold started_refs. destruct (do_RunStarted d) as [b|]; [by apply P1|done].
  - intros b Hb. by rewrite (P2 b Hb).
  - intros u Hdu Hq. rewrite Hu in Hdu. destruct (bool_decide (kind_of i = str "USAGE")) eqn:E; [|done].
    apply bool_decide_eq_true_1 in E. injection Hdu as <-. destruct i; try (vm_compute in E; discriminate E). clear E.
    destruct (kinds_unique _ _ _ wire.UsageObservation "Usage" Hin) as [-> ->]; [apply list_elem_of_fmap; eexists (_, _, _, _); split; [reflexivity|in_kinds]|].
    rewrite Hget, get_settle in *. destruct (P3 i eq_refl) as (Q1&Q2&Q3). rewrite Q1 in Hq. cbn [settle as_string] in Hq.
    rewrite (valid_text wire.UsagePayloadQuality) in Hq by done. rewrite (Q3 Hq). eexists. split; [reflexivity|]. by apply Hpub.
  - split; [rewrite Hid; split; [by apply to_valid_nonempty|done]|]. intros mo. unfold session_model. rewrite Hk.
    destruct (bool_decide (kind_of i = str "SESSION_LIFECYCLE")) eqn:E; [|done].
    apply bool_decide_eq_true_1 in E. destruct i; try (vm_compute in E; discriminate E). clear E.
    destruct (kinds_unique _ _ _ wire.SessionLifecycleObservation "SessionLifecycle" Hin) as [-> ->];
      [apply list_elem_of_fmap; eexists (_, _, _, _); split; [reflexivity|in_kinds]|].
    rewrite Hget, get_settle, (P4 i eq_refl). destruct (bool_decide (sl_Model i = [])) eqn:Em; [done|].
    apply bool_decide_eq_false_1 in Em. intros [= <-]. split; [by apply to_valid_nonempty|exact Hpub].
Qed.

(** ** Batches *)

Record item : Type := mkItem { it_common : Common; it_input : input; it_pending : PendingObservation; it_id : bytes }.

(** Built by a constructor, with an identity that fits also as written. *)
Record ready (x : item) : Prop := {
  rd_common : typed_common (it_common x);
  rd_input : typed_input (it_input x);
  rd_built : New (it_common x) (it_input x) = Ok (it_pending x);
  rd_publishable : publishable (it_input x);
  rd_id : bounded maxObservationID (it_id x) /\ zlen (to_valid (it_id x)) <= MaxObservationIDLen;
}.

(** The spool's records for observations sealed with consecutive sequences. *)
Fixpoint seal_from (first : Z) (items : list item) : built (list record) :=
  match items with
  | [] => Ok []
  | x :: r =>
      o ← Seal (it_pending x) first (it_id x);
      rs ← seal_from (first + 1) r;
      Ok (mkRecord first (writeCanonical o) :: rs)
  end.

Lemma seal_from_reads first items :
  Forall ready items -> 1 <= first -> first + zlen items - 1 <= MaxInt64 ->
  exists recs vs os, seal_from first items = Ok recs
    /\ Forall2 (fun rec v => canonical v /\ rec_Payload rec = writeCanonical v) recs vs /\ Forall2 accepted vs os
    /\ map do_Sequence os = seqZ first (zlen items) /\ Forall observation_valid os.
Proof.
  intros Hr. revert first. induction Hr as [|x items Hx _ IH]; intros first Hf Hl.
  - exists [], [], []. split_and!; constructor.
  - assert (El : zlen (x :: items) = 1 + zlen items) by (unfold zlen; cbn; lia). pose proof (zlen_nonneg items). rewrite El in *.
    destruct Hx as [H1 H2 H3 H4 [H5 H6]].
    destruct (Seal_reads _ _ _ first (it_id x) H1 H2 H3 ltac:(lia) H5) as (o&j&d&Ho&Hj&Hcj&[Hwj _]&Ha&Hrd).
    destruct (IH (first + 1) ltac:(lia) ltac:(lia)) as (recs&vs&os&Hs&Hrec&Hacc&Hseq&Hval).
    exists (mkRecord first (writeCanonical o) :: recs), (j :: vs), (d :: os). cbn [seal_from]. rewrite Ho. cbn [mbind result_bind].
    rewrite Hs. split; [done|]. split; [|split; [by constructor|split]].
    + constructor; [|done]. split; [done|]. cbn [rec_Payload]. by subst j.
    + cbn [map]. rewrite seqZ_cons by lia. f_equal; [apply Hrd|]. rewrite Hseq. f_equal; lia.
    + constructor; [|done]. eapply reads_valid; [|exact Hrd|done|by apply H5|done].
      destruct (New_built _ _ _ H2 H3) as (?&?&?&?&?&Hs'&_). apply Hs'.
Qed.

(** C14: end to end: observations built by the constructors, sealed with consecutive sequences and put into
    a batch by [EncodeBatchBody], make a body that the strict decoder accepts and the validator passes. Each
    is [ready]: built from typed values, and within the three places where a constructor asks less than the
    validator, an estimated usage's price table version that is not blank, a session model within its bound and an
    observation id within its bound as it is written. *)
Theorem sealed_batch_valid src first items :
  sourceIDPattern src = true -> 1 <= first -> 1 <= zlen items <= MaxObservationsPerBatch -> first + zlen items - 1 <= MaxInt64 ->
  Forall ready items ->
  exists recs body b, seal_from first items = Ok recs
    /\ EncodeBatchBody src (mkRange first (first + zlen items - 1)) recs = Ok body
    /\ DecodeObservationBatch body = Ok b /\ ValidateBatch b = Ok tt.
Proof.
  intros Hsrc Hf Hn Hl Hr. destruct (seal_from_reads first items Hr Hf Hl) as (recs&vs&os&Hs&Hrec&Hacc&Hseq&Hval).
  destruct (sent_batch_decodes src (mkRange first (first + zlen items - 1)) recs vs os) as (body&Hb&Hd); [cbn; lia|cbn; lia|done|done|].
  exists recs, body. eexists. refine (conj Hs (conj Hb (conj Hd _))). cbn [FirstSequence LastSequence].
  assert (Hlen : zlen os = zlen items).
  { apply (f_equal length) in Hseq. rewrite length_map, length_seqZ in Hseq. unfold zlen in *. lia. }
  apply ValidateBatch_iff; cbn [db_FirstSequence db_LastSequence db_SourceID db_Observations]; [lia|].
  split; [lia|]. split; [|split; [|done]].
  - split; [cbn; unfold SequenceMax; lia|]. cbn [db_FirstSequence db_LastSequence db_Observations]. rewrite Hseq. split; [f_equal; lia|lia].
  - rewrite to_valid_id; [done|]. apply ascii_utf8. unfold sourceIDPattern in Hsrc. apply andb_prop in Hsrc as [Hp Hr'].
    apply HasPrefix_spec in Hp as [k ->]. rewrite drop_app_length' in Hr' by done. apply andb_prop in Hr' as [_ Hk].
    rewrite forallb_app. apply andb_true_intro. split; [reflexivity|]. rewrite forallb_forall in *. intros b Hb'. specialize (Hk b Hb').
    revert Hk. by destruct b; vm_compute.
Qed.

(** ** A concrete observation *)

Definition demo_time : gotime := Build_gotime 2026 7 16 10 0 0 500000000 0.

Definition demo_common : Common :=
  mkCommon demo_time demo_time
    (mkProvenance (str "codex") (str "1") (str "METADATA_ONLY") (Some (str "openai")) None None None (Some (str "sessions/a.jsonl")) None
       (Some (mkByteRange 0 120)) None None)
    (Some (mkRunContext (str "run_1") (str "INHERITED_RUN_ID") None)).

Definition demo_input : input := IMessage (mkMessage (str "USER") (Some 42) None).

Definition demo_pending : PendingObservation :=
  pending (str "MESSAGE") wire.MessageObservation "Message" demo_common
    (lit wire.MessagePayload [("Role", GStr (str "USER")); ("ByteCount", opt_value GInt (Some 42)); ("TokenCount", opt_value GInt None)]%string).

Lemma demo_pending_built : New demo_common demo_input = Ok demo_pending.
Proof. reflexivity. Qed.

Lemma demo_common_typed : typed_common demo_common.
Proof.
  assert (Ht : wf_time demo_time /\ is_Some (formatRFC3339 demo_time)).
  { split; [|eexists; vm_compute; reflexivity]. vm_compute. intuition congruence. }
  split; [exact Ht|exact Ht|]. intros r [= <-]. by vm_compute.
Qed.

Lemma demo_input_typed : typed_input demo_input.
Proof. split; intros n; [intros [= <-]; reflexivity|discriminate]. Qed.

Lemma sealed_accepted_witness :
  exists o j d, Seal demo_pending 7 (str "obs_1") = Ok o /\ decode_raw (writeCanonical o) = Some (j, []) /\ decodeObservation j 0 = Ok d
    /\ do_Sequence d = 7.
Proof.
  destruct (sealed_accepted demo_common demo_input demo_pending 7 (str "obs_1") 0 demo_common_typed demo_input_typed demo_pending_built)
    as (o&j&d&Ho&Hj&Hd&Hr); [unfold MaxInt64; lia|refine (conj _ _); [discriminate|vm_compute; discriminate]|].
  exists o, j, d. exact (conj Ho (conj Hj (conj Hd (ra_sequence _ _ _ _ _ _ Hr)))).
Defined.

Definition demo_item (obsID : bytes) : item := mkItem demo_common demo_input demo_pending obsID.

Lemma demo_item_ready obsID : bounded maxObservationID obsID /\ zlen (to_valid obsID) <= MaxObservationIDLen -> ready (demo_item obsID).
Proof. intros H. split; [exact demo_common_typed|exact demo_input_typed|exact demo_pending_built|done|exact H]. Qed.

Lemma sealed_batch_valid_witness :
  exists recs body b, seal_from 7 [demo_item (str "obs_1"); demo_item (str "obs_2")] = Ok recs
    /\ EncodeBatchBody (str "src_abc") (mkRange 7 8) recs = Ok body /\ DecodeObservationBatch body = Ok b /\ ValidateBatch b = Ok tt.
Proof.
  apply (sealed_batch_valid (str "src_abc") 7 [demo_item (str "obs_1"); demo_item (str "obs_2")]).
  - vm_compute. reflexivity.
  - lia.
  - split; vm_compute; discriminate.
  - vm_compute. discriminate.
  - apply Forall_cons. refine (conj _ (proj2 (Forall_cons _ _ _) (conj _ (Forall_nil_2 _)))); apply demo_item_ready;
      (refine (conj (conj _ _) _); [discriminate|vm_compute; discriminate|vm_compute; discriminate]).
Defined.
