(* ===== verification/Policy.v ===== *)
(** * The METADATA_ONLY policy transform ([internal/observer/evidence/policy.go])

    Raw candidates with their forbidden fields, the projection of their provenance and the transforms,
    each of which builds a clean observation, substitutes a content-free diagnostic or, for a gated
    reference, drops it. The theorems: under a valid policy the transform is total and fails closed, what
    it emits does not depend on any forbidden field, and its provenance carries neither a hash nor a path
    out of the root. *)

From S2P Require Import Prelude GoStrings GoTime Json JsonText GoJson WireTypes StrictDecode Sendable.
From S2P Require Import GoPath GoLit Fields BeadSecret BeadPrefix Validate Evidence Sealed.

Record ExtractionConfig : Type := mkExtractionConfig { xc_Commit : bool; xc_PullRequest : bool; xc_BeadID : bool }.

Definition DefaultExtractionConfig : ExtractionConfig := mkExtractionConfig true true true.

Record Policy : Type := mkPolicy {
  po_Adapter : bytes;
  po_AdapterVersion : bytes;
  po_ContentPolicy : bytes;
  po_Extraction : ExtractionConfig;
}.

Definition Policy_Validate (p : Policy) : built unit :=
  _ ← boundedNonEmpty (str "policy.adapter") (po_Adapter p) maxAdapter;
  _ ← boundedNonEmpty (str "policy.adapter_version") (po_AdapterVersion p) maxAdapterVersion;
  validEnum (str "policy.content_policy") wire.ProvenanceContentPolicy (po_ContentPolicy p).

(** The last two fields are forbidden. *)
Record RawProvenance : Type := mkRawProvenance {
  rp_Provider : bytes;
  rp_NativeSessionID : bytes;
  rp_ParserVersion : bytes;
  rp_TransformVersion : bytes;
  rp_RootRelativeLocator : bytes;
  rp_ByteRange : option ByteRange;
  rp_Completeness : option bytes;
  rp_CaptureQuality : option bytes;
  rp_AbsolutePath : bytes;
  rp_SourceHash : bytes;
}.

Record PolicyEnvelope : Type := mkEnvelope {
  en_OccurredAt : gotime;
  en_CapturedAt : gotime;
  en_Provenance : RawProvenance;
  en_RunContext : option RunContext;
}.

(** Why a diagnostic was substituted, or why there is nothing. *)
Inductive cause : Type :=
| CauseBuild (e : build_error)
| CauseMisconfigured (e : build_error)   (** policy misconfigured, cannot emit diagnostic *)
| CauseNoDiagnostic (e : build_error).   (** failed to build fail-closed diagnostic *)

Record TransformResult : Type := mkTransform {
  tf_Observation : PendingObservation;
  tf_Diagnostic : bool;
  tf_Dropped : bool;
  tf_Cause : option cause;
}.

Definition HasObservation (r : TransformResult) : bool :=
  negb (tf_Dropped r) && match po_seal (tf_Observation r) with Some _ => true | None => false end.

Definition result_of (obs : PendingObservation) : TransformResult := mkTransform obs false false None.
Definition dropped_result : TransformResult := mkTransform zero_pending false true None.
Definition dead_result (c : cause) : TransformResult := mkTransform zero_pending false false (Some c).

Definition keepByteRange (r : option ByteRange) : option ByteRange :=
  match r with
  | None => None
  | Some x => if (br_Start x <? 0) || (br_End x <? br_Start x) then None else r
  end.

Definition provenance (p : Policy) (raw : RawProvenance) : built Provenance :=
  _ ← Policy_Validate p;
  Ok (mkProvenance (po_Adapter p) (po_AdapterVersion p) (po_ContentPolicy p)
        (keepBounded (rp_Provider raw) maxProvider)
        (keepBounded (rp_NativeSessionID raw) maxNativeSessionID)
        (keepBounded (rp_ParserVersion raw) maxParserVersion)
        (keepBounded (rp_TransformVersion raw) maxTransformVersion)
        (keepRelativeLocator (rp_RootRelativeLocator raw) maxSourceLocator)
        (if bool_decide (po_ContentPolicy p = str "FULL") then keepHash (rp_SourceHash raw) else None)
        (keepByteRange (rp_ByteRange raw))
        (keepEnumPtr wire.ProvenanceCompleteness (rp_Completeness raw))
        (keepEnumPtr wire.ProvenanceCaptureQuality (rp_CaptureQuality raw))).

Definition common (p : Policy) (env : PolicyEnvelope) : built Common :=
  prov ← provenance p (en_Provenance env);
  _ ← (match en_RunContext env with Some rc => validateRunContext rc | None => Ok tt end);
  Ok (mkCommon (en_OccurredAt env) (en_CapturedAt env) prov (en_RunContext env)).

Definition failClosed (p : Policy) (env : PolicyEnvelope) (kind : bytes) (why : build_error) : TransformResult :=
  match provenance p (en_Provenance env) with
  | Err e => dead_result (CauseMisconfigured e)
  | Ok prov =>
      let occ := en_OccurredAt env in
      let capt := if IsZero (en_CapturedAt env) then occ else en_CapturedAt env in
      let occ := if IsZero occ then capt else occ in
      match NewCaptureDiagnostic (mkCommon occ capt prov None)
              (mkDiagnostic (str "UNSUPPORTED_FORMAT") (str "WARNING") (str "PARTIAL")
                 (str "policy transform dropped a " ++ kind ++ str " record; capture incomplete")) with
      | Err e => dead_result (CauseNoDiagnostic e)
      | Ok diag => mkTransform diag true false (Some (CauseBuild why))
      end
  end.

(** The shape every transform has: the common metadata, the constructor, either failing closed. *)
Definition transform (p : Policy) (env : PolicyEnvelope) (kind : bytes) (new : Common -> built PendingObservation) : TransformResult :=
  match common p env with
  | Err e => failClosed p env kind e
  | Ok c => match new c with Err e => failClosed p env kind e | Ok obs => result_of obs end
  end.

(** ** Content-bearing candidates *)

Record MessageCandidate : Type := mkMessageCandidate { mc_Role : bytes; mc_ByteCount : option Z; mc_TokenCount : option Z; mc_Body : bytes }.

Definition TransformMessage (p : Policy) (env : PolicyEnvelope) (raw : MessageCandidate) : TransformResult :=
  transform p env (str "MESSAGE") (fun c => NewMessage c (mkMessage (mc_Role raw) (mc_ByteCount raw) (mc_TokenCount raw))).

Record ToolCallCandidate : Type := mkToolCallCandidate {
  kc_Category : bytes; kc_ArgumentByteCount : option Z;
  kc_Command : bytes; kc_Argv : list bytes; kc_Environment : gmap bytes bytes; kc_URL : bytes; kc_MCPName : bytes;
}.

Definition TransformToolCall (p : Policy) (env : PolicyEnvelope) (raw : ToolCallCandidate) : TransformResult :=
  transform p env (str "TOOL_CALL") (fun c => NewToolCall c (mkToolCall (kc_Category raw) (kc_ArgumentByteCount raw))).

Record ToolResultCandidate : Type := mkToolResultCandidate {
  kr_Category : bytes; kr_Status : bytes; kr_ResultByteCount : option Z; kr_ResultBody : bytes;
}.

Definition TransformToolResult (p : Policy) (env : PolicyEnvelope) (raw : ToolResultCandidate) : TransformResult :=
  transform p env (str "TOOL_RESULT") (fun c => NewToolResult c (mkToolResult (kr_Category raw) (kr_Status raw) (kr_ResultByteCount raw))).

(** ** Metadata candidates: the constructors' inputs, and for processes and runs what they leave out *)

Definition TransformSessionLifecycle (p : Policy) (env : PolicyEnvelope) (raw : SessionLifecycleInput) : TransformResult :=
  transform p env (str "SESSION_LIFECYCLE") (fun c => NewSessionLifecycle c raw).

Definition TransformUsage (p : Policy) (env : PolicyEnvelope) (raw : UsageInput) : TransformResult :=
  transform p env (str "USAGE") (fun c => NewUsage c raw).

Record ProcessLifecycleCandidate : Type := mkProcessCandidate {
  pc_Input : ProcessLifecycleInput; pc_Argv : list bytes; pc_Environment : gmap bytes bytes; pc_ExecutablePath : bytes;
}.

Definition TransformProcessLifecycle (p : Policy) (env : PolicyEnvelope) (raw : ProcessLifecycleCandidate) : TransformResult :=
  transform p env (str "PROCESS_LIFECYCLE") (fun c => NewProcessLifecycle c (pc_Input raw)).

Record RunStartedCandidate : Type := mkRunStartedCandidate {
  rc_Input : RunStartedInput; rc_Argv : list bytes; rc_Environment : gmap bytes bytes;
}.

Definition TransformRunStarted (p : Policy) (env : PolicyEnvelope) (raw : RunStartedCandidate) : TransformResult :=
  transform p env (str "RUN_BOUNDARY") (fun c => NewRunStarted c (rc_Input raw)).

Definition TransformRunEndedDrain (p : Policy) (env : PolicyEnvelope) (raw : RunEndedDrainInput) : TransformResult :=
  let wm := mkWatermark (wm_ByteOffset (rd_CoveredWatermark raw))
              (keepRelativeLocatorPtr (wm_SourceLocator (rd_CoveredWatermark raw)) maxSourceLocator) in
  transform p env (str "RUN_BOUNDARY")
    (fun c => NewRunEndedDrain c (mkRunEndedDrain (rd_RunID raw) (rd_BoundarySource raw) (rd_DrainStatus raw) wm)).

Definition TransformRunEndedLaunchFailure (p : Policy) (env : PolicyEnvelope) (raw : RunEndedLaunchFailureInput) : TransformResult :=
  transform p env (str "RUN_BOUNDARY") (fun c => NewRunEndedLaunchFailure c raw).

(** ** References *)

Definition TransformDeclaredWorkReference (p : Policy) (env : PolicyEnvelope) (raw : DeclaredWorkRefInput) : TransformResult :=
  transform p env (str "WORK_REFERENCE") (fun c => NewDeclaredWorkReference c raw).

Definition TransformExtractedWorkReference (p : Policy) (env : PolicyEnvelope) (raw : ExtractedWorkRefInput) (resolver : ProjectResolver)
    : TransformResult :=
  if negb (xc_BeadID (po_Extraction p)) then dropped_result
  else
    match common p env with
    | Err e => failClosed p env (str "WORK_REFERENCE") e
    | Ok c =>
        match NewExtractedWorkReference c raw resolver with
        | Err e => failClosed p env (str "WORK_REFERENCE") e
        | Ok (Drop diag _) => mkTransform diag true false None
        | Ok (Resolved obs) => result_of obs
        end
    end.

Definition TransformCommitReference (p : Policy) (env : PolicyEnvelope) (raw : VcsReferenceInput) : TransformResult :=
  if negb (xc_Commit (po_Extraction p)) then dropped_result
  else transform p env (str "VCS_REFERENCE") (fun c => NewCommitReference c raw).

Definition TransformPullRequestReference (p : Policy) (env : PolicyEnvelope) (raw : VcsReferenceInput) : TransformResult :=
  if negb (xc_PullRequest (po_Extraction p)) then dropped_result
  else transform p env (str "VCS_REFERENCE") (fun c => NewPullRequestReference c raw).

Definition TransformCaptureDiagnostic (p : Policy) (env : PolicyEnvelope) (raw : CaptureDiagnosticInput) : TransformResult :=
  transform p env (str "CAPTURE_DIAGNOSTIC") (fun c => NewCaptureDiagnostic c raw).

(** ** All candidates *)

Inductive candidate : Type :=
| KMessage (r : MessageCandidate)
| KToolCall (r : ToolCallCandidate)
| KToolResult (r : ToolResultCandidate)
| KSessionLifecycle (r : SessionLifecycleInput)
| KUsage (r : UsageInput)
| KProcessLifecycle (r : ProcessLifecycleCandidate)
| KRunStarted (r : RunStartedCandidate)
| KRunEndedDrain (r : RunEndedDrainInput)
| KLaunchFailure (r : RunEndedLaunchFailureInput)
| KDeclaredRef (r : DeclaredWorkRefInput)
| KExtractedRef (r : ExtractedWorkRefInput) (resolver : ProjectResolver)
| KCommit (r : VcsReferenceInput)
| KPullRequest (r : VcsReferenceInput)
| KDiagnostic (r : CaptureDiagnosticInput).

Definition Transform (p : Policy) (env : PolicyEnvelope) (k : candidate) : TransformResult :=
  match k with
  | KMessage r => TransformMessage p env r
  | KToolCall r => TransformToolCall p env r
  | KToolResult r => TransformToolResult p env r
  | KSessionLifecycle r => TransformSessionLifecycle p env r
  | KUsage r => TransformUsage p env r
  | KProcessLifecycle r => TransformProcessLifecycle p env r
  | KRunStarted r => TransformRunStarted p env r
  | KRunEndedDrain r => TransformRunEndedDrain p env r
  | KLaunchFailure r => TransformRunEndedLaunchFailure p env r
  | KDeclaredRef r => TransformDeclaredWorkReference p env r
  | KExtractedRef r resolver => TransformExtractedWorkReference p env r resolver
  | KCommit r => TransformCommitReference p env r
  | KPullRequest r => TransformPullRequestReference p env r
  | KDiagnostic r => TransformCaptureDiagnostic p env r
  end.

(** The toggle that gates a candidate is off. *)
Definition gated (p : Policy) (k : candidate) : bool :=
  match k with
  | KExtractedRef _ _ => negb (xc_BeadID (po_Extraction p))
  | KCommit _ => negb (xc_Commit (po_Extraction p))
  | KPullRequest _ => negb (xc_PullRequest (po_Extraction p))
  | _ => false
  end.

(** A candidate without its forbidden fields. *)
Definition visible (k : candidate) : candidate :=
  match k with
  | KMessage r => KMessage (mkMessageCandidate (mc_Role r) (mc_ByteCount r) (mc_TokenCount r) [])
  | KToolCall r => KToolCall (mkToolCallCandidate (kc_Category r) (kc_ArgumentByteCount r) [] [] ∅ [] [])
  | KToolResult r => KToolResult (mkToolResultCandidate (kr_Category r) (kr_Status r) (kr_ResultByteCount r) [])
  | KProcessLifecycle r => KProcessLifecycle (mkProcessCandidate (pc_Input r) [] ∅ [])
  | KRunStarted r => KRunStarted (mkRunStartedCandidate (rc_Input r) [] ∅)
  | _ => k
  end.

(** An envelope without its forbidden provenance. *)
Definition visible_env (env : PolicyEnvelope) : PolicyEnvelope :=
  let raw := en_Provenance env in
  mkEnvelope (en_OccurredAt env) (en_CapturedAt env)
    (mkRawProvenance (rp_Provider raw) (rp_NativeSessionID raw) (rp_ParserVersion raw) (rp_TransformVersion raw)
       (rp_RootRelativeLocator raw) (rp_ByteRange raw) (rp_Completeness raw) (rp_CaptureQuality raw) [] [])
    (en_RunContext env).

(** The constructor input a candidate is meant to become. *)
Definition intended (k : candidate) : option input :=
  match k with
  | KMessage r => Some (IMessage (mkMessage (mc_Role r) (mc_ByteCount r) (mc_TokenCount r)))
  | KToolCall r => Some (IToolCall (mkToolCall (kc_Category r) (kc_ArgumentByteCount r)))
  | KToolResult r => Some (IToolResult (mkToolResult (kr_Category r) (kr_Status r) (kr_ResultByteCount r)))
  | KSessionLifecycle r => Some (ISessionLifecycle r)
  | KUsage r => Some (IUsage r)
  | KProcessLifecycle r => Some (IProcessLifecycle (pc_Input r))
  | KRunStarted r => Some (IRunStarted (rc_Input r))
  | KRunEndedDrain r =>
      Some (IRunEndedDrain (mkRunEndedDrain (rd_RunID r) (rd_BoundarySource r) (rd_DrainStatus r)
        (mkWatermark (wm_ByteOffset (rd_CoveredWatermark r)) (keepRelativeLocatorPtr (wm_SourceLocator (rd_CoveredWatermark r)) maxSourceLocator))))
  | KLaunchFailure r => Some (ILaunchFailure r)
  | KDeclaredRef r => Some (IWorkReference (mkWorkReference (dr_TeamServerProjectID r) (dr_BeadID r) (str "DECLARED")))
  | KExtractedRef r resolver =>
      match resolve resolver (xr_BeadID r) with
      | Ok projectID => Some (IWorkReference (mkWorkReference projectID (xr_BeadID r) (str "EXTRACTED")))
      | Err _ => None
      end
  | KCommit r => Some (ICommit r)
  | KPullRequest r => Some (IPullRequest r)
  | KDiagnostic r => Some (ICaptureDiagnostic r)
  end.

(** ** Provenance *)

Definition clean_provenance (p : Policy) (prov : Provenance) : Prop :=
  pv_Adapter prov = po_Adapter p /\ pv_AdapterVersion prov = po_AdapterVersion p /\ pv_ContentPolicy prov = po_ContentPolicy p
  /\ (po_ContentPolicy p <> str "FULL" -> pv_SourceHash prov = None)
  /\ (forall h, pv_SourceHash prov = Some h -> zlen h = 64 /\ forallb is_hex_lower h = true)
  /\ (forall loc, pv_SourceLocator prov = Some loc -> zlen loc <= maxSourceLocator /\ isRootRelativeLocator loc = true).

Lemma keepBounded_Some v max s : keepBounded v max = Some s -> bounded max s.
Proof.
  unfold keepBounded, bounded. case_bool_decide; [done|]. cbn. destruct (Z.ltb_spec max (zlen v)); [done|]. by intros [= <-].
Qed.

Lemma keepRelativeLocator_Some v max s : keepRelativeLocator v max = Some s -> zlen s <= max /\ isRootRelativeLocator s = true.
Proof.
  unfold keepRelativeLocator. destruct (Z.ltb_spec max (zlen v)); [done|]. destruct (isRootRelativeLocator v) eqn:E; cbn; [|done].
  by intros [= <-].
Qed.

Lemma keepHash_Some v h : keepHash v = Some h -> zlen h = 64 /\ forallb is_hex_lower h = true.
Proof.
  unfold keepHash. destruct (Z.eqb_spec (zlen v) 64); [|done]. destruct (forallb is_hex_lower v) eqn:E; [|done]. by intros [= <-].
Qed.

Lemma keepEnumPtr_Some t v x : keepEnumPtr t v = Some x -> Valid t x = true.
Proof. unfold keepEnumPtr. destruct v as [y|]; [|done]. destruct (Valid t y) eqn:E; [|done]. by intros [= <-]. Qed.

Lemma check_seq (m k : built unit) : m = Ok tt -> k = Ok tt -> (_ ← m; k) = Ok tt.
Proof. by intros -> ->. Qed.

Lemma opt_enum_Ok field t (o : option bytes) :
  (forall x, o = Some x -> Valid t x = true) -> match o with Some c => validEnum field t c | None => Ok tt end = Ok tt.
Proof. intros H. destruct o as [x|]; [|done]. apply validEnum_Valid. by apply H. Qed.

(** Under a valid policy the projection is total, and what it makes passes the constructors' own check. *)
Lemma provenance_Ok p raw :
  Policy_Validate p = Ok tt ->
  exists prov, provenance p raw = Ok prov /\ validateProvenance prov = Ok tt /\ clean_provenance p prov
    /\ pv_ByteRange prov = keepByteRange (rp_ByteRange raw).
Proof.
  intros Hp. unfold provenance. rewrite Hp. eexists. split; [reflexivity|].
  unfold Policy_Validate in Hp. checks Hp. split; [|split; [|done]].
  - unfold validateProvenance. cbn [pv_Adapter pv_AdapterVersion pv_ContentPolicy pv_Provider pv_NativeSessionId pv_ParserVersion
      pv_TransformVersion pv_SourceLocator pv_Completeness pv_CaptureQuality pv_ByteRange].
    apply check_seq; [by apply boundedNonEmpty_Ok; apply boundedNonEmpty_Ok in Hc|].
    apply check_seq; [by apply boundedNonEmpty_Ok; apply boundedNonEmpty_Ok in Hc0|].
    apply check_seq; [by apply validEnum_Valid; apply validEnum_Valid in Hp|].
    do 4 (apply check_seq; [apply boundedOptionalPtr_Ok; intros s; apply keepBounded_Some|]).
    apply check_seq.
    { apply boundedOptionalPtr_Ok. intros s Hs. apply keepRelativeLocator_Some in Hs as [? Hs]. split; [|done]. by apply isRootRelativeLocator_iff in Hs as (?&_). }
    do 2 (apply check_seq; [apply opt_enum_Ok; intros x; apply keepEnumPtr_Some|]).
    unfold keepByteRange. destruct (rp_ByteRange raw) as [r|]; [|done]. destruct (_ || _) eqn:E; [done|].
    apply orb_false_iff in E as [-> ->]. done.
  - split_and!; try done; cbn [pv_SourceHash pv_SourceLocator].
    + intros Hf. by rewrite bool_decide_eq_false_2.
    + intros h. case_bool_decide; [|done]. apply keepHash_Some.
    + intros loc. apply keepRelativeLocator_Some.
Qed.

(** The fail-closed diagnostics' texts, and those of dropped references: fixed, whatever the record held. *)
Definition fixed_contexts : list bytes :=
  map drop_detail [RefDropUnresolvableProject; RefDropAmbiguousPrefix]
  ++ map (fun kind => str "policy transform dropped a " ++ kind ++ str " record; capture incomplete")
       (map str ["MESSAGE"; "TOOL_CALL"; "TOOL_RESULT"; "SESSION_LIFECYCLE"; "USAGE"; "PROCESS_LIFECYCLE"; "RUN_BOUNDARY"; "WORK_REFERENCE";
                 "VCS_REFERENCE"; "CAPTURE_DIAGNOSTIC"]%string).

Lemma NewCaptureDiagnostic_Ok c i :
  validateCommon c = Ok tt -> Valid wire.CaptureDiagnosticPayloadCode (cd_Code i) = true ->
  Valid wire.CaptureDiagnosticPayloadSeverity (cd_Severity i) = true ->
  Valid wire.CaptureDiagnosticPayloadCompletenessEffect (cd_CompletenessEffect i) = true -> exists o, NewCaptureDiagnostic c i = Ok o.
Proof.
  intros Hc H1 H2 H3. unfold NewCaptureDiagnostic. rewrite (proj2 (prepareCommon_Ok c c)) by done. cbn [mbind result_bind].
  rewrite (proj2 (validEnum_Valid _ _ _) H1). cbn [mbind result_bind]. rewrite (proj2 (validEnum_Valid _ _ _) H2). cbn [mbind result_bind].
  rewrite (proj2 (validEnum_Valid _ _ _) H3). cbn [mbind result_bind].
  pose proof (sanitizeContext_spec (cd_Context i) maxDiagnosticContext ltac:(done)) as (Hl&_).
  unfold optionalString. case_bool_decide; [by eexists|]. rewrite (proj2 (Z.ltb_ge _ _)) by done. by eexists.
Qed.

Lemma newWorkReference_New c r : newWorkReference c r = New c (IWorkReference r).
Proof. done. Qed.

(** An observation a transform emits. *)
Record emitted (p : Policy) (env : PolicyEnvelope) (k : candidate) (r : TransformResult) (c : Common) (i : input) : Prop := {
  em_built : New c i = Ok (tf_Observation r);
  em_not_dropped : tf_Dropped r = false;
  em_provenance : clean_provenance p (cm_Provenance c) /\ pv_ByteRange (cm_Provenance c) = keepByteRange (rp_ByteRange (en_Provenance env));
  em_intended : tf_Diagnostic r = false ->
    intended k = Some i /\ cm_RunContext c = en_RunContext env /\ cm_OccurredAt c = en_OccurredAt env /\ cm_CapturedAt c = en_CapturedAt env
    /\ (forall x resolver, k = KExtractedRef x resolver -> SecretShapedBeadID (xr_BeadID x) (xr_DeclaredPrefix x) = false);
  em_times : cm_OccurredAt c ∈ [en_OccurredAt env; en_CapturedAt env] /\ cm_CapturedAt c ∈ [en_OccurredAt env; en_CapturedAt env];
  em_diagnostic : tf_Diagnostic r = true -> exists d, i = ICaptureDiagnostic d /\ cd_Context d ∈ fixed_contexts;
}.

Lemma failClosed_emits p env k kind why :
  Policy_Validate p = Ok tt -> IsZero (en_OccurredAt env) = false \/ IsZero (en_CapturedAt env) = false ->
  str "policy transform dropped a " ++ kind ++ str " record; capture incomplete" ∈ fixed_contexts ->
  exists c i, emitted p env k (failClosed p env kind why) c i /\ tf_Diagnostic (failClosed p env kind why) = true.
Proof.
  intros Hp Ht Hk. unfold failClosed. destruct (provenance_Ok p (en_Provenance env) Hp) as (prov&->&Hv&Hc&Hb). cbv zeta.
  set (c := mkCommon _ _ prov None). set (d := mkDiagnostic _ _ _ _).
  assert (Hcommon : validateCommon c = Ok tt).
  { unfold validateCommon, c. cbn [cm_OccurredAt cm_CapturedAt cm_Provenance cm_RunContext].
    destruct (IsZero (en_OccurredAt env)) eqn:E1, (IsZero (en_CapturedAt env)) eqn:E2; try (by destruct Ht); rewrite ?E1, ?E2; by apply check_seq. }
  destruct (NewCaptureDiagnostic_Ok c d Hcommon) as [o Ho]; [by vm_compute..|]. rewrite Ho. exists c, (ICaptureDiagnostic d).
  split; [|done]. split; try done; [|intros _; exists d; by split]. unfold c. cbn [cm_OccurredAt cm_CapturedAt].
  split; repeat case_match; rewrite !elem_of_cons; auto.
Qed.

Lemma common_clean p env c :
  common p env = Ok c ->
  Policy_Validate p = Ok tt /\ clean_provenance p (cm_Provenance c)
  /\ pv_ByteRange (cm_Provenance c) = keepByteRange (rp_ByteRange (en_Provenance env))
  /\ cm_RunContext c = en_RunContext env /\ cm_OccurredAt c = en_OccurredAt env /\ cm_CapturedAt c = en_CapturedAt env.
Proof.
  unfold common. intros (prov&Hprov&H)%bind_Ok. apply bind_Ok in H as ([]&_&[= <-]). cbn [cm_Provenance cm_RunContext cm_OccurredAt cm_CapturedAt].
  assert (Hp : Policy_Validate p = Ok tt).
  { unfold provenance in Hprov. by apply bind_Ok in Hprov as ([]&?&_). }
  destruct (provenance_Ok p (en_Provenance env) Hp) as (prov'&E&_&Hc&Hb). rewrite Hprov in E. injection E as <-. done.
Qed.

Lemma transform_emits p env k kind i mk :
  intended k = Some i -> (forall c, mk c = New c i) ->
  Policy_Validate p = Ok tt -> IsZero (en_OccurredAt env) = false \/ IsZero (en_CapturedAt env) = false ->
  str "policy transform dropped a " ++ kind ++ str " record; capture incomplete" ∈ fixed_contexts ->
  (forall x resolver, k <> KExtractedRef x resolver) ->
  exists c i', emitted p env k (transform p env kind mk) c i'.
Proof.
  intros Hi Hmk Hp Ht Hk Hx. unfold transform. destruct (common p env) as [c|e] eqn:Ec.
  - rewrite Hmk. destruct (New c i) as [obs|e] eqn:En.
    + apply common_clean in Ec as (_&Hc&Hb&Hrc&Ho&Hca). exists c, i.
      split; try done; [|rewrite Ho, Hca, !elem_of_cons; auto]. intros _. split_and!; try done. intros x resolver E. by destruct (Hx x resolver).
    + destruct (failClosed_emits p env k kind e Hp Ht Hk) as (c'&i'&He&_). eauto.
  - destruct (failClosed_emits p env k kind e Hp Ht Hk) as (c'&i'&He&_). eauto.
Qed.

Lemma extracted_emits p env x resolver :
  Policy_Validate p = Ok tt -> IsZero (en_OccurredAt env) = false \/ IsZero (en_CapturedAt env) = false ->
  gated p (KExtractedRef x resolver) = false ->
  exists c i, emitted p env (KExtractedRef x resolver) (TransformExtractedWorkReference p env x resolver) c i.
Proof.
  intros Hp Ht Hg. unfold TransformExtractedWorkReference. cbn [gated] in Hg. rewrite Hg.
  assert (Hf : forall e, exists c i, emitted p env (KExtractedRef x resolver) (failClosed p env (str "WORK_REFERENCE") e) c i).
  { intros e. destruct (failClosed_emits p env (KExtractedRef x resolver) (str "WORK_REFERENCE") e Hp Ht) as (c&i&He&_); [|eauto].
    refine (bool_decide_eq_true_1 _ _). by vm_compute. }
  destruct (common p env) as [c|e] eqn:Ec; [|apply Hf]. destruct (NewExtractedWorkReference c x resolver) as [r|e] eqn:En; [|apply Hf].
  unfold NewExtractedWorkReference in En. apply bind_Ok in En as ([]&_&En). destruct (SecretShapedBeadID _ _) eqn:Es; [done|].
  apply common_clean in Ec as (_&Hc&Hb&Hrc&Ho&Hca). destruct (resolve resolver (xr_BeadID x)) as [projectID|reason] eqn:Er.
  - apply bind_Ok in En as (obs&Hobs&[= <-]). exists c, (IWorkReference (mkWorkReference projectID (xr_BeadID x) (str "EXTRACTED"))).
    split; try done; [|rewrite Ho, Hca, !elem_of_cons; auto]. intros _. cbn [intended]. rewrite Er. split_and!; try done. by intros x' r' [= <- <-].
  - apply bind_Ok in En as (diag&Hd&[= <-]). eexists c, (ICaptureDiagnostic _). split; [exact Hd|done|done|done| |].
    { rewrite Ho, Hca, !elem_of_cons; auto. }
    intros _. eexists. split; [reflexivity|]. cbn [cd_Context]. destruct reason; refine (bool_decide_eq_true_1 _ _); by vm_compute.
Qed.

Lemma Transform_emits p env k :
  Policy_Validate p = Ok tt -> IsZero (en_OccurredAt env) = false \/ IsZero (en_CapturedAt env) = false -> gated p k = false ->
  exists c i, emitted p env k (Transform p env k) c i.
Proof.
  intros Hp Ht Eg.
  assert (Hin : forall kind, kind ∈ map str ["MESSAGE"; "TOOL_CALL"; "TOOL_RESULT"; "SESSION_LIFECYCLE"; "USAGE"; "PROCESS_LIFECYCLE"; "RUN_BOUNDARY";
    "WORK_REFERENCE"; "VCS_REFERENCE"; "CAPTURE_DIAGNOSTIC"]%string -> str "policy transform dropped a " ++ kind ++ str " record; capture incomplete" ∈ fixed_contexts).
  { intros kind Hk. apply elem_of_app. right. apply list_elem_of_fmap. by exists kind. }
  destruct k; cbn [Transform];
    try (by apply extracted_emits); cbn [gated] in Eg; unfold TransformMessage, TransformToolCall, TransformToolResult, TransformSessionLifecycle, TransformUsage, TransformProcessLifecycle,
      TransformRunStarted, TransformRunEndedDrain, TransformRunEndedLaunchFailure, TransformDeclaredWorkReference, TransformCommitReference,
      TransformPullRequestReference, TransformCaptureDiagnostic; rewrite ?Eg; cbv zeta;
    (eapply transform_emits; [reflexivity|intros c; reflexivity|exact Hp|exact Ht
      |apply Hin; refine (bool_decide_eq_true_1 _ _); vm_compute; reflexivity|discriminate]).
Qed.

(** C15: the transform is total and fails closed. Under a valid policy, with at least one timestamp, a
    candidate is dropped exactly when its toggle gates it; otherwise an observation some constructor built
    is emitted, under the policy's identity, with no content hash (METADATA_ONLY) and no locator that
    leaves its root: either the one the candidate is meant to become, with its run context and times, or a
    diagnostic whose text is one of a fixed list. *)
Theorem Transform_total p env k :
  Policy_Validate p = Ok tt -> IsZero (en_OccurredAt env) = false \/ IsZero (en_CapturedAt env) = false ->
  let r := Transform p env k in
  if gated p k then r = dropped_result
  else HasObservation r = true /\ exists c i, emitted p env k r c i.
Proof.
  intros Hp Ht. cbv zeta. destruct (gated p k) eqn:Eg.
  - destruct k; try done; cbn [gated] in Eg; cbn [Transform]; unfold TransformExtractedWorkReference, TransformCommitReference, TransformPullRequestReference;
      by rewrite Eg.
  - destruct (Transform_emits p env k Hp Ht Eg) as (c&i&He). split; [|by exists c, i]. unfold HasObservation.
    rewrite (em_not_dropped _ _ _ _ _ _ He). cbn [negb andb]. pose proof (em_built _ _ _ _ _ _ He) as Hb.
    destruct (tf_Observation _) as [kd oc ca [f|]]; [done|]. exfalso. revert Hb. apply New_seals.
Qed.

(** ** Nothing forbidden gets out *)

Lemma provenance_visible p env : po_ContentPolicy p <> str "FULL" -> provenance p (en_Provenance (visible_env env)) = provenance p (en_Provenance env).
Proof.
  intros Hf. unfold provenance, visible_env. cbn [en_Provenance rp_Provider rp_NativeSessionID rp_ParserVersion rp_TransformVersion
    rp_RootRelativeLocator rp_ByteRange rp_Completeness rp_CaptureQuality rp_SourceHash]. by rewrite bool_decide_eq_false_2.
Qed.

Lemma transform_visible p env kind new : po_ContentPolicy p <> str "FULL" -> transform p (visible_env env) kind new = transform p env kind new.
Proof. intros Hf. unfold transform, failClosed, common. by rewrite provenance_visible. Qed.

(** What is emitted is a function of the visible fields. *)
Lemma Transform_visible p env k : po_ContentPolicy p <> str "FULL" -> Transform p (visible_env env) (visible k) = Transform p env k.
Proof.
  intros Hf. destruct k; cbn [visible Transform];
    unfold TransformMessage, TransformToolCall, TransformToolResult, TransformSessionLifecycle, TransformUsage, TransformProcessLifecycle,
      TransformRunStarted, TransformRunEndedDrain, TransformRunEndedLaunchFailure, TransformDeclaredWorkReference, TransformCommitReference,
      TransformPullRequestReference, TransformCaptureDiagnostic, TransformExtractedWorkReference; cbv zeta; try (by rewrite transform_visible).
  - unfold failClosed, common. by rewrite provenance_visible.
Qed.

(** C16: non-interference: unless the policy is FULL, two records that differ only in forbidden fields (a
    message's or result's body, a command, its arguments, environment, URL and MCP name, an executable
    path, an absolute path, a content hash) give the same result. *)
Theorem Transform_noninterference p env env' k k' :
  po_ContentPolicy p <> str "FULL" -> visible_env env = visible_env env' -> visible k = visible k' -> Transform p env k = Transform p env' k'.
Proof. intros Hf He Hk. rewrite <-(Transform_visible p env k), <-(Transform_visible p env' k') by done. by rewrite He, Hk. Qed.

(** ** What is emitted is sent *)

Record typed_envelope (env : PolicyEnvelope) : Prop := {
  te_occurred : wf_time (en_OccurredAt env) /\ is_Some (formatRFC3339 (en_OccurredAt env));
  te_captured : wf_time (en_CapturedAt env) /\ is_Some (formatRFC3339 (en_CapturedAt env));
  te_range : forall r, rp_ByteRange (en_Provenance env) = Some r -> typed_range r;
}.

Lemma emitted_typed p env k r c i :
  emitted p env k r c i -> typed_envelope env -> (forall i, intended k = Some i -> typed_input i) -> typed_common c /\ typed_input i.
Proof.
  intros [_ _ [_ Hr] Hi [Ho Hc] Hd] [T1 T2 T3] Hk. split.
  - rewrite !elem_of_cons in Ho, Hc. split; [| |].
    + destruct Ho as [->|[->|[]%not_elem_of_nil]]; assumption.
    + destruct Hc as [->|[->|[]%not_elem_of_nil]]; assumption.
    + intros x. rewrite Hr. unfold keepByteRange. destruct (rp_ByteRange _) as [y|] eqn:E; [|done]. destruct (_ || _); [done|]. intros [= <-]. by apply T3.
  - destruct (tf_Diagnostic r) eqn:E; [by destruct (Hd eq_refl) as (d&->&_)|by apply Hk, Hi].
Qed.

(** The transform composed with what follows it: unless its toggle gates it, whatever a candidate
    becomes can be sealed with any sequence and id in range, and its canonical bytes pass the Collector's
    strict decoder as that observation, under the policy's provenance. *)
Theorem Transform_accepted p env k seq obsID idx :
  Policy_Validate p = Ok tt -> IsZero (en_OccurredAt env) = false \/ IsZero (en_CapturedAt env) = false ->
  typed_envelope env -> (forall i, intended k = Some i -> typed_input i) -> gated p k = false ->
  1 <= seq <= MaxInt64 -> bounded maxObservationID obsID ->
  let r := Transform p env k in
  exists c i o j d, emitted p env k r c i /\ Seal (tf_Observation r) seq obsID = Ok o /\ decode_raw (writeCanonical o) = Some (j, [])
    /\ decodeObservation j idx = Ok d /\ reads_as c i (tf_Observation r) seq obsID d.
Proof.
  intros Hp Ht Hty Hk Hg Hseq Hid. destruct (Transform_emits p env k Hp Ht Hg) as (c&i&He).
  destruct (emitted_typed _ _ _ _ _ _ He Hty Hk) as [Hc Hi].
  destruct (Seal_reads c i _ seq obsID Hc Hi (em_built _ _ _ _ _ _ He) Hseq Hid) as (o&j&d&Ho&Hj&_&_&Ha&Hr).
  exists c, i, o, j, d. refine (conj He (conj Ho (conj Hj (conj _ Hr)))). by apply accepted_observation.
Qed.

(** ** A record with everything forbidden in it *)

Definition demo_policy : Policy := mkPolicy (str "codex") (str "1") (str "METADATA_ONLY") DefaultExtractionConfig.

Definition demo_envelope (path hash : bytes) : PolicyEnvelope :=
  mkEnvelope demo_time demo_time
    (mkRawProvenance (str "openai") [] [] [] (str "sessions/a.jsonl") (Some (mkByteRange 0 120)) None None path hash) None.

Definition demo_call (command : bytes) : candidate :=
  KToolCall (mkToolCallCandidate (str "SHELL") (Some 42) command [command] ∅ (str "https://internal") []).

Lemma demo_envelope_typed path hash : typed_envelope (demo_envelope path hash).
Proof.
  destruct demo_common_typed as [Ho _ _]. split; [exact Ho|exact Ho|]. intros r [= <-]. by vm_compute.
Qed.

Lemma Transform_noninterference_witness :
  Transform demo_policy (demo_envelope (str "/home/a") (str "h")) (demo_call (str "rm -rf"))
  = Transform demo_policy (demo_envelope [] []) (demo_call (str "ls")).
Proof. apply Transform_noninterference; [discriminate|reflexivity|reflexivity]. Defined.

Lemma Transform_total_witness : HasObservation (Transform demo_policy (demo_envelope (str "/home/a") (str "h")) (demo_call (str "ls"))) = true.
Proof.
  refine (proj1 (Transform_total demo_policy (demo_envelope (str "/home/a") (str "h")) (demo_call (str "ls")) _ (or_introl _))); reflexivity.
Defined.

Lemma Transform_accepted_witness :
  exists o j d, Seal (tf_Observation (Transform demo_policy (demo_envelope (str "/home/a") []) (demo_call (str "ls")))) 7 (str "obs_1") = Ok o
    /\ decode_raw (writeCanonical o) = Some (j, []) /\ decodeObservation j 0 = Ok d.
Proof.
  destruct (Transform_accepted demo_policy (demo_envelope (str "/home/a") []) (demo_call (str "ls")) 7 (str "obs_1") 0) as (c&i&o&j&d&_&Ho&Hj&Hd&_);
    [reflexivity|left; reflexivity|apply demo_envelope_typed| |reflexivity|unfold MaxInt64; lia|refine (conj _ _); [discriminate|vm_compute; discriminate]|].
  - intros i [= <-]. intros n [= <-]. reflexivity.
  - exists o, j, d. exact (conj Ho (conj Hj Hd)).
Defined.
