(* ===== verification/Placeholder.v ===== *)
(** * The placeholder of a withheld frame ([withheldPlaceholder] of [internal/observer/daemon/consent_fence.go])

    The content-free capture diagnostic uploaded at the sequence of a withheld frame. It reads four members of
    the frame and the frame's sequence: whatever else the frame carries cannot change it, and it is an
    observation the Collector accepts. *)

From S2P Require Import Prelude GoStrings.
From S2P Require Import GoTime.
From S2P Require Import Json.
From S2P Require Import JsonText.
From S2P Require Import GoJson.
From S2P Require Import MemberOrder.
From S2P Require Import SpoolTypes.
From S2P Require Import Segment.
From S2P Require Import Batch.
From S2P Require Import WireTypes.
From S2P Require Import StrictDecode.
From S2P Require Import Sendable.
From S2P Require Import GoLit.
From S2P Require Import Fields.
From S2P Require Import Evidence.
From S2P Require Import Sealed.
From S2P Require Import Policy.

Definition withheldContext : bytes :=
  str "observation withheld before upload: the owner withdrew consent for the transcript root it was captured under".

(** The members read. *)
Definition withheldProvenance : list gofield :=
  [(str "Adapter", str "adapter", TString); (str "AdapterVersion", str "adapter_version", TString);
   (str "ContentPolicy", str "content_policy", wire.ProvenanceContentPolicy)].
Definition withheldFields : list gofield :=
  [(str "ObservationID", str "observation_id", TString); (str "CapturedAt", str "captured_at", TTime);
   (str "Provenance", str "provenance", TStruct withheldProvenance)].
Definition withheldEnv : gotype := TStruct withheldFields.

Record env_read : Type := mkEnvRead { er_ObservationID : bytes; er_CapturedAt : gotime; er_Provenance : Provenance }.

Definition env_of (v : goval) : env_read :=
  let p := get withheldEnv "Provenance" v in
  let s name := as_string (get (TStruct withheldProvenance) name p) in
  mkEnvRead (as_string (get withheldEnv "ObservationID" v))
    (match get withheldEnv "CapturedAt" v with GTime t => t | _ => zero_time end)
    (mkProvenance (s "Adapter"%string) (s "AdapterVersion"%string) (s "ContentPolicy"%string) None None None None None None None None None).

Inductive placeholder_error : Type := PhDecode | PhBuild (e : build_error) | PhSeal (e : build_error).

Definition withheld_diagnostic : CaptureDiagnosticInput :=
  mkDiagnostic (str "CAPTURE_LOSS") (str "INFO") (str "LOST") withheldContext.

Definition withheld_common (r : env_read) : Common := mkCommon (er_CapturedAt r) (er_CapturedAt r) (er_Provenance r) None.

(** From what was read and the sequence. *)
Definition build_placeholder (r : env_read) (sequence : Z) : result placeholder_error bytes :=
  match NewCaptureDiagnostic (withheld_common r) withheld_diagnostic with
  | Err e => Err (PhBuild e)
  | Ok pending => match Seal pending sequence (er_ObservationID r) with Err e => Err (PhSeal e) | Ok obs => Ok (writeCanonical obs) end
  end.

Definition withheldPlaceholder (rec : record) : result placeholder_error bytes :=
  match Unmarshal (rec_Payload rec) withheldEnv with
  | None => Err PhDecode
  | Some v => build_placeholder (env_of v) (rec_Sequence rec)
  end.

(** ** Non-interference *)

(** Whether a member is stored, by its name up to case. *)
Definition named_in (fs : list gofield) (kv : bytes * json) : bool := bool_decide (is_Some (find_field fs kv.1)).

(** What may leave the machine: the id, the capture time and, of the provenance, the adapter, its version and the
    content policy. *)
Definition visible_provenance : list gofield :=
  [(str "Adapter", str "adapter", TString); (str "AdapterVersion", str "adapter_version", TString);
   (str "ContentPolicy", str "content_policy", wire.ProvenanceContentPolicy)].
Definition visible : list gofield :=
  [(str "ObservationID", str "observation_id", TString); (str "CapturedAt", str "captured_at", TTime);
   (str "Provenance", str "provenance", TStruct visible_provenance)].

(** An object without its other members. *)
Definition seen_provenance (v : json) : json :=
  match v with JObj m => JObj (filter (fun kv => named_in visible_provenance kv = true) m) | _ => v end.
Definition seen_member (kv : bytes * json) : bytes * json :=
  if bool_decide (find_field visible kv.1 = Some 2%nat) then (kv.1, seen_provenance kv.2) else kv.
Definition seen (v : json) : json :=
  match v with JObj m => JObj (map seen_member (filter (fun kv => named_in visible kv = true) m)) | _ => v end.

Lemma reads_visible : withheldEnv = TStruct visible.
Proof. done. Qed.

Lemma decode_members_cons strict dec fs k v m vals :
  decode_members strict dec fs ((k, v) :: m) vals
  = match find_field fs k with
    | Some i =>
        match fs !! i, vals !! i with
        | Some f, Some old => dbind (dec v (go_type f) old) (fun x => decode_members strict dec fs m (<[i := x]> vals))
        | _, _ => decode_members strict dec fs m vals
        end
    | None => dbind (Ok (tt, if strict then Some (EUnknownField k) else None)) (fun _ => decode_members strict dec fs m vals)
    end.
Proof. done. Qed.

Lemma dbind_ext {A B} (m : decoded A) (f g : A -> decoded B) : (forall a, f a = g a) -> dbind m f = dbind m g.
Proof. intros H. destruct m as [[a e]|e]; [|done]. cbn. by rewrite H. Qed.

(** A lenient decoder only stores the members it has a field for. *)
Lemma decode_members_seen dec fs m vals :
  decode_members false dec fs m vals = decode_members false dec fs (filter (fun kv => named_in fs kv = true) m) vals.
Proof.
  revert vals. induction m as [|[k v] m IH]; intros vals; [done|]. rewrite filter_cons, decode_members_cons.
  destruct (find_field fs k) as [i|] eqn:E.
  - rewrite decide_True by (unfold named_in; cbn [fst]; rewrite E; by rewrite bool_decide_true).
    rewrite decode_members_cons, E. destruct (fs !! i) as [f|]; [|done]. destruct (vals !! i) as [old|]; [|done].
    apply dbind_ext. intros x. apply IH.
  - rewrite decide_False by (unfold named_in; cbn [fst]; rewrite E; rewrite bool_decide_false by (by intros []); done).
    rewrite <-IH. cbn [dbind]. by destruct (decode_members _ _ _ _ _) as [[? []]|].
Qed.

(** Members a decoder cannot tell apart. *)
Lemma decode_members_map strict dec fs (g : bytes * json -> bytes * json) m vals :
  (forall kv, (g kv).1 = kv.1) ->
  (forall kv i f old, kv ∈ m -> find_field fs kv.1 = Some i -> fs !! i = Some f -> dec (g kv).2 (go_type f) old = dec kv.2 (go_type f) old) ->
  decode_members strict dec fs (map g m) vals = decode_members strict dec fs m vals.
Proof.
  intros Hk. revert vals. induction m as [|[k v] m IH]; intros vals Hd; [done|]. cbn [map].
  assert (IH' : forall vals, decode_members strict dec fs (map g m) vals = decode_members strict dec fs m vals).
  { intros vals'. apply IH. intros kv i f old Hin. apply Hd. by right. }
  specialize (Hd (k, v)). pose proof (Hk (k, v)) as Hkv. destruct (g (k, v)) as [k' v']. cbn [fst snd] in *. subst k'.
  rewrite !decode_members_cons. destruct (find_field fs k) as [i|] eqn:E; [|by rewrite IH'].
  destruct (fs !! i) as [f|] eqn:Ef; [|done]. destruct (vals !! i) as [old|]; [|done].
  rewrite (Hd i f old) by (done || by left). apply dbind_ext. intros x. apply IH'.
Qed.

Lemma decode_seen_provenance v old :
  decode_into false (seen_provenance v) (TStruct visible_provenance) old = decode_into false v (TStruct visible_provenance) old.
Proof. destruct v as [| | | | |m]; try done. cbn [seen_provenance decode_into target]. by rewrite <-decode_members_seen. Qed.

Lemma decode_seen v old : decode_into false (seen v) (TStruct visible) old = decode_into false v (TStruct visible) old.
Proof.
  destruct v as [| | | | |m]; try done. cbn [seen decode_into target]. f_equal. f_equal.
  rewrite (decode_members_seen _ _ m), decode_members_map; [done| |].
  - intros [k v]. unfold seen_member. by case_bool_decide.
  - intros [k v] i f old' _ Hi Hf. unfold seen_member. cbn [fst snd] in *. case_bool_decide as E; [|done].
    rewrite Hi in E. injection E as ->. injection Hf as <-. apply decode_seen_provenance.
Qed.

(** C24: the placeholder of a frame depends only on the frame's sequence and on its members [observation_id], [captured_at] and [provenance]'s [adapter], [adapter_version] and [content_policy]. *)
Theorem placeholder_noninterference rec rec' v v' :
  rec_Sequence rec = rec_Sequence rec' ->
  parse_value add_member (S (2 * length (rec_Payload rec))) (rec_Payload rec) = Some (v, []) ->
  parse_value add_member (S (2 * length (rec_Payload rec'))) (rec_Payload rec') = Some (v', []) ->
  seen v = seen v' -> withheldPlaceholder rec = withheldPlaceholder rec'.
Proof.
  intros Hs Hv Hv' Hseen. unfold withheldPlaceholder, Unmarshal. rewrite Hv, Hv'. cbn [mbind option_bind skip_ws]. rewrite !bool_decide_true by done.
  unfold decode_as. rewrite !reads_visible, <-(decode_seen v), <-(decode_seen v'), Hseen, Hs. done.
Qed.

(** ** Acceptance *)

(** What was read is good enough for a capture diagnostic. *)
Record env_ok (r : env_read) : Prop := mkEnvOk {
  eo_id : bounded maxObservationID (er_ObservationID r);
  eo_time : wf_time (er_CapturedAt r) /\ is_Some (formatRFC3339 (er_CapturedAt r)) /\ IsZero (er_CapturedAt r) = false;
  eo_adapter : bounded maxAdapter (pv_Adapter (er_Provenance r));
  eo_version : bounded maxAdapterVersion (pv_AdapterVersion (er_Provenance r));
  eo_policy : Valid wire.ProvenanceContentPolicy (pv_ContentPolicy (er_Provenance r)) = true;
}.

Lemma withheld_common_ok v : env_ok (env_of v) -> validateCommon (withheld_common (env_of v)) = Ok tt /\ typed_common (withheld_common (env_of v)).
Proof.
  intros [_ (Hw&Hf&Hz) Ha Hav Hp]. split; [|by split; [..|intros ? [=]]].
  unfold validateCommon. cbn [withheld_common cm_OccurredAt cm_CapturedAt cm_Provenance cm_RunContext]. rewrite !Hz. unfold validateProvenance.
  rewrite (proj2 (boundedNonEmpty_Ok _ _ _) Ha). cbn [mbind result_bind]. rewrite (proj2 (boundedNonEmpty_Ok _ _ _) Hav). cbn [mbind result_bind].
  rewrite (proj2 (validEnum_Valid _ _ _) Hp). cbn [mbind result_bind].
  repeat (rewrite (proj2 (boundedOptionalPtr_Ok _ _ _)) by done; cbn [mbind result_bind]). done.
Qed.

(** Under those bounds the frame has a placeholder: a capture diagnostic with the frame's sequence and id that
    the Collector's strict decoder accepts at every index, and that says nothing but that it was withheld. *)
Theorem placeholder_accepted rec v idx :
  Unmarshal (rec_Payload rec) withheldEnv = Some v -> env_ok (env_of v) -> 1 <= rec_Sequence rec <= MaxInt64 ->
  exists payload p j d, withheldPlaceholder rec = Ok payload /\ decode_raw payload = Some (j, []) /\ decodeObservation j idx = Ok d
    /\ New (withheld_common (env_of v)) (ICaptureDiagnostic withheld_diagnostic) = Ok p
    /\ reads_as (withheld_common (env_of v)) (ICaptureDiagnostic withheld_diagnostic) p (rec_Sequence rec) (er_ObservationID (env_of v)) d.
Proof.
  intros Hv Hok Hs. destruct (withheld_common_ok v Hok) as [Hc Ht].
  destruct (NewCaptureDiagnostic_Ok _ withheld_diagnostic Hc) as [p Hp]; [by vm_compute..|].
  destruct (Seal_reads (withheld_common (env_of v)) (ICaptureDiagnostic withheld_diagnostic) p (rec_Sequence rec) (er_ObservationID (env_of v)))
    as (o&j&d&Ho&Hj&_&_&Ha&Hr); [done|done|exact Hp|done|by destruct Hok|].
  exists (writeCanonical o), p, j, d. split; [|split; [done|split; [by apply accepted_observation|split; [exact Hp|done]]]].
  unfold withheldPlaceholder, build_placeholder. by rewrite Hv, Hp, Ho.
Qed.

(** ** A frame and what replaces it *)

Definition demo_frame : bytes := js "{'captured_at':'2026-07-16T10:00:00.5Z','kind':'MESSAGE','message':{'byte_count':42,'role':'USER'},'observation_id':'obs_1','occurred_at':'2026-07-16T09:59:00Z','provenance':{'adapter':'codex','adapter_version':'1','content_policy':'METADATA_ONLY','native_session_id':'s-77','source_locator':'2026/07/rollout-7.jsonl'},'sequence':7}".

Definition demo_other : bytes := js "{'captured_at':'2026-07-16T10:00:00.5Z','kind':'TOOL_CALL','observation_id':'obs_1','occurred_at':'2026-07-15T00:00:00Z','provenance':{'adapter':'codex','adapter_version':'1','content_policy':'METADATA_ONLY'},'sequence':7}".

Definition demo_hidden : bytes := js "{'capture_diagnostic':{'code':'CAPTURE_LOSS','completeness_effect':'LOST','context':'observation withheld before upload: the owner withdrew consent for the transcript root it was captured under','severity':'INFO'},'captured_at':'2026-07-16T10:00:00.5Z','kind':'CAPTURE_DIAGNOSTIC','observation_id':'obs_1','occurred_at':'2026-07-16T10:00:00.5Z','provenance':{'adapter':'codex','adapter_version':'1','content_policy':'METADATA_ONLY'},'sequence':7}".

Example demo_placeholder : withheldPlaceholder (mkRecord 7 demo_frame) = Ok demo_hidden.
Proof. vm_compute. reflexivity. Qed.

Definition demo_read (payload : bytes) : json :=
  match parse_value add_member (S (2 * length payload)) payload with Some (v, _) => v | None => JNull end.

Lemma placeholder_noninterference_witness :
  withheldPlaceholder (mkRecord 7 demo_frame) = withheldPlaceholder (mkRecord 7 demo_other)
  /\ withheldPlaceholder (mkRecord 7 demo_frame) = Ok demo_hidden.
Proof.
  refine (conj (placeholder_noninterference (mkRecord 7 demo_frame) (mkRecord 7 demo_other) (demo_read demo_frame) (demo_read demo_other) _ _ _ _) demo_placeholder).
  - reflexivity.
  - vm_compute. reflexivity.
  - vm_compute. reflexivity.
  - vm_compute. reflexivity.
Defined.

Definition demo_env : goval := Eval vm_compute in default GNil (Unmarshal demo_frame withheldEnv).

Lemma placeholder_accepted_witness :
  exists payload j d, withheldPlaceholder (mkRecord 7 demo_frame) = Ok payload /\ decode_raw payload = Some (j, []) /\ decodeObservation j 0 = Ok d
    /\ do_Kind d = str "CAPTURE_DIAGNOSTIC" /\ do_Sequence d = 7.
Proof.
  destruct (placeholder_accepted (mkRecord 7 demo_frame) demo_env 0) as (payload&p&j&d&Hp&Hj&Hd&_&Hr).
  - vm_compute. reflexivity.
  - split.
    + refine (conj _ _); [discriminate|vm_compute; discriminate].
    + refine (conj _ (conj _ _)); [vm_compute; repeat split; discriminate|eexists; vm_compute; reflexivity|reflexivity].
    + refine (conj _ _); [discriminate|vm_compute; discriminate].
    + refine (conj _ _); [discriminate|vm_compute; discriminate].
    + reflexivity.
  - cbn. unfold MaxInt64. lia.
  - exists payload, j, d. exact (conj Hp (conj Hj (conj Hd (conj (ra_kind _ _ _ _ _ _ Hr) (ra_sequence _ _ _ _ _ _ Hr))))).
Defined.
