(* ===== verification/Fence.v ===== *)
(** * The consent fence ([internal/observer/daemon/consent_fence.go])

    What keeps every observation the transcript watcher captured inside the consent it was captured under, up
    to the collector: the fence's memory, its operations over the ledger on disk, and what each does. A nil
    policy source makes the fence passive. The mutexes are not modelled: an operation is one step. *)

From S2P Require Import Prelude GoStrings Hash SpoolTypes Fs.
From S2P Require Import Json.
From S2P Require Import JsonText.
From S2P Require Import Compact.
From S2P Require Import Batch.
From S2P Require Import Ack.
From S2P Require Import RootPolicy.
From S2P Require Import Consent.
From S2P Require Import SeqSet.
From S2P Require Import Ledger.
From S2P Require Import Placeholder.

#[export] Instance consentOrigin_countable : Countable consentOrigin.
Proof. by apply (inj_countable' (fun o => (co_root o, co_generation o)) (fun p => mkOrigin p.1 p.2)); intros []. Defined.

(** ** Memory *)

Inductive fence_error : Type :=
| FeRead (e : ledger_error)
| FeEncode
| FeWrite (e : spool_error)
| FeDropRecord (e : fence_error)
| FeRecord (e : fence_error)
| FePlaceholder (sequence : Z) (e : placeholder_error)
| FeWithdrawn
| FeStat (e : spool_error)
| FeRange (e : spool_error).

(** A line logged; an error's text is not modelled. *)
Inductive fence_log : Type := LogText (text : bytes) | LogUnrecorded (one : bool) (e : fence_error).

(** [consentFence]; the policy source is an argument of its operations. *)
Record consentFence : Type := mkFence {
  fn_origins : list (originRun (O := consentOrigin));
  fn_withheld : list range;
  fn_attempted : Z;
  fn_applied : option Consent.Policy;
  fn_dirty : bool;
  fn_pending : option consentLedgerShutdown;
  fn_recorded : bool;
}.

Definition allowedBy (o : consentOrigin) (p : Consent.Policy) : bool := Allows p (co_root o) (co_generation o).

(** The newest published policy; a passive fence consents to nothing. *)
Definition latest (src : option Source) : Consent.Policy :=
  match src with None => Consent.mkPolicy 0 false [] [] | Some s => Latest s end.

Definition set_withheld (f : consentFence) (w : list range) (dirty : bool) : consentFence :=
  mkFence (fn_origins f) w (fn_attempted f) (fn_applied f) dirty (fn_pending f) (fn_recorded f).
Definition set_dirty (f : consentFence) (dirty : bool) : consentFence := set_withheld f (fn_withheld f) dirty.
Definition set_mark (f : consentFence) (attempted : Z) (pending : option consentLedgerShutdown) : consentFence :=
  mkFence (fn_origins f) (fn_withheld f) attempted (fn_applied f) (fn_dirty f) pending (fn_recorded f).

(** ** The ledger on disk *)

Definition fence_ledger (f : consentFence) : consentLedger :=
  mkLedger consentLedgerVersion (Some (fn_withheld f)) (fn_pending f) 0.

Definition persistLocked (ev : env) (f : consentFence) : IO (option fence_error * consentFence) :=
  match encodeConsentLedger (fence_ledger f) with
  | None => io_ret (Some FeEncode, f)
  | Some data =>
      let! r := io_try (atomicWriteFile ev DRoot consentLedgerFilename data) in
      io_ret (match r with Ok _ => (None, set_dirty f false) | Err e => (Some (FeWrite e), f) end)
  end.

Definition ledger_temp (name : bytes) : bool := HasPrefix name (AtomicTempPrefix consentLedgerFilename).

Definition remove_temp (ev : env) (name : bytes) (e : entry) : IO unit :=
  match e with
  | EFile _ => if ledger_temp name then let! _ := io_try (removeFile ev DRoot name) in io_ret tt else io_ret tt
  | EDir => io_ret tt
  end.

Fixpoint remove_temps (ev : env) (names : list (bytes * entry)) : IO unit :=
  match names with [] => io_ret tt | (name, e) :: rest => remove_temp ev name e ;! remove_temps ev rest end.

Definition sweepLedgerTemps (ev : env) : IO unit :=
  let! r := io_try (readDir ev DRoot (name_of DRoot)) in
  match r with Ok (Some m) => remove_temps ev (map_to_list m) | _ => io_ret tt end.

Definition ledgerExists (ev : env) : IO bool :=
  io_check ev IoStat consentLedgerFilename ;!
  fun d => ([], Ok (match entries DRoot d !! consentLedgerFilename with Some _ => true | None => false end), d).

(** ** Withholding *)

(** One run of the backlog: what it newly withholds is counted by origin. *)
Definition apply_run (attempted : Z) (pol : Consent.Policy) (acc : gmap consentOrigin Z * list range) (run : originRun (O := consentOrigin))
  : gmap consentOrigin Z * list range :=
  let '(withdrawn, withheld) := acc in
  if (run_last run <=? attempted) || allowedBy (run_origin run) pol then acc
  else
    let '(withheld, n) := add withheld (Z.max (run_first run) (i64 (attempted + 1))) (run_last run) in
    (if 0 <? n then <[run_origin run := i64 (default 0 (withdrawn !! run_origin run) + n)]> withdrawn else withdrawn, withheld).

(** An empty map is the nil map: an entry is made only for a positive count. *)
Definition applyLocked (f : consentFence) (pol : Consent.Policy) : gmap consentOrigin Z * consentFence :=
  if match fn_applied f with Some p => Version pol =? Version p | None => false end then (∅, f)
  else
    let '(withdrawn, withheld) := fold_left (apply_run (fn_attempted f) pol) (fn_origins f) (∅, fn_withheld f) in
    (withdrawn, mkFence (fn_origins f) withheld (fn_attempted f) (Some pol) (fn_dirty f || negb (bool_decide (withdrawn = ∅)))
       (fn_pending f) (fn_recorded f)).

Definition describeOrigins (counts : gmap consentOrigin Z) : bytes :=
  join (str ", ") (sortStrings (map (fun on => FormatInt on.2 ++ str " from " ++ co_root on.1 ++ str " generation " ++ FormatInt (co_generation on.1))
                                  (map_to_list counts))).

Definition logWithheld (src : option Source) (withdrawn : gmap consentOrigin Z) : fence_log :=
  let total := fold_left (fun t on => i64 (t + on.2)) (map_to_list withdrawn) 0 in
  let why := match src with Some _ => str "the owner withdrew their consent" | None => str "no live consent policy can confirm their consent" end in
  LogText (str "consent narrowed: withholding " ++ FormatInt total ++ str " queued observations not yet uploaded (" ++ describeOrigins withdrawn
           ++ str "), because " ++ why ++ str "; each uploads as a content-free placeholder").

Definition applyAndRecordLocked (ev : env) (src : option Source) (f : consentFence) (pol : Consent.Policy)
  : IO (option fence_error * consentFence * list fence_log) :=
  let '(withdrawn, f) := applyLocked f pol in
  if bool_decide (withdrawn = ∅) then io_ret (None, f, [])
  else
    let! (e, f) := persistLocked ev f in
    io_ret (FeRecord <$> e, f, [logWithheld src withdrawn]).

(** ** The shutdown record *)

Definition ledger_origin (attempted : Z) (run : originRun (O := consentOrigin)) : consentLedgerOrigin :=
  mkLedgerOrigin (Z.max (run_first run) (i64 (attempted + 1))) (run_last run) (co_root (run_origin run)) (co_generation (run_origin run)).

Definition unsent_runs (f : consentFence) : list (originRun (O := consentOrigin)) :=
  filter (fun run => fn_attempted f < run_last run) (fn_origins f).

Definition shutdownRecordLocked (f : consentFence) (highestDurable : Z) : consentLedgerShutdown :=
  mkShutdown (fold_left (fun h run => Z.max h (run_last run)) (unsent_runs f) (Z.max highestDurable (fn_attempted f)))
    (fn_attempted f) (Some (map (ledger_origin (fn_attempted f)) (unsent_runs f))).

Definition recordShutdown (ev : env) (f : consentFence) (highestDurable : Z) : IO (option fence_error * consentFence) :=
  let f' := mkFence (fn_origins f) (fn_withheld f) (fn_attempted f) (fn_applied f) (fn_dirty f)
              (Some (shutdownRecordLocked f highestDurable)) true in
  let! (e, f') := persistLocked ev f' in
  io_ret (e, match e with
             | None => f'
             | Some _ => mkFence (fn_origins f') (fn_withheld f') (fn_attempted f') (fn_applied f') (fn_dirty f') (fn_pending f) (fn_recorded f)
             end).

(** ** Start *)

(** The withheld ranges of the ledger, without what lies above the durable ceiling. *)
Definition load_withheld (highestDurable : Z) (l : list range) : list range :=
  fold_left (fun w r => if r.1 <=? highestDurable then (add w r.1 (Z.min r.2 highestDurable)).1 else w) l [].

Definition load_origins (attempted : Z) (sh : consentLedgerShutdown) : list (originRun (O := consentOrigin)) :=
  fold_left (fun x o => addRun x (Z.max (lo_First o) (i64 (attempted + 1))) (Z.min (lo_Last o) (sh_HighestDurable sh))
                          (mkOrigin (lo_Root o) (lo_Generation o)))
    (default [] (sh_Origins sh)) [].

Definition dropping_text (through highestDurable : Z) : fence_log :=
  LogText (str "consent ledger: dropping the shutdown record: it describes a spool durable through sequence " ++ FormatInt through
           ++ str ", and this one is durable through " ++ FormatInt highestDurable).

Definition readLedgerFile (ev : env) : IO (result ledger_error consentLedger) :=
  let! r := io_try (readFile ev DRoot consentLedgerFilename) in
  io_ret (readConsentLedger (match r with Ok o => Ok o | Err _ => Err tt end)).

(** From the ledger that was read. *)
Definition start_from (ev : env) (src : option Source) (highestDurable : Z) (doc : consentLedger)
  : IO (result fence_error consentFence * list fence_log) :=
  let withheld := load_withheld highestDurable (default [] (lg_Withheld doc)) in
  let f := mkFence [] withheld highestDurable None false None false in
  match lg_Shutdown doc with
  | None => io_ret (Ok f, [])
  | Some sh =>
      if (highestDurable <? sh_HighestDurable sh) || (sh_HighestDurable sh <? sh_AttemptedThrough sh) then
        let! (e, f) := persistLocked ev f in
        io_ret (match e with Some e => Err (FeDropRecord e) | None => Ok f end, [dropping_text (sh_HighestDurable sh) highestDurable])
      else
        let f := mkFence (load_origins (sh_AttemptedThrough sh) sh) withheld (sh_AttemptedThrough sh) None false (Some sh) false in
        match src with
        | Some _ => io_ret (Ok f, [])
        | None =>
            let! (e, f, log) := applyAndRecordLocked ev src f (latest src) in
            io_ret (match e with Some e => Err e | None => Ok f end, log)
        end
  end.

Definition newConsentFence (ev : env) (src : option Source) (highestDurable : Z) : IO (result fence_error consentFence * list fence_log) :=
  sweepLedgerTemps ev ;!
  let! r := readLedgerFile ev in
  match r with Err e => io_ret (Err (FeRead e), []) | Ok doc => start_from ev src highestDurable doc end.

(** ** The watcher's appends *)

Definition admit_origin (src : option Source) (o : consentOrigin) : result fence_error unit :=
  if allowedBy o (latest src) then Ok tt else Err FeWithdrawn.

Definition recordAppend (ev : env) (src : option Source) (f : consentFence) (seq : Z) (o : consentOrigin) : IO (consentFence * list fence_log) :=
  let f := mkFence (SeqSet.record (fn_origins f) seq o) (fn_withheld f) (fn_attempted f) (fn_applied f) (fn_dirty f) (fn_pending f) (fn_recorded f) in
  if (seq <=? fn_attempted f) || allowedBy o (latest src) then io_ret (f, [])
  else
    let f := set_withheld f (add (fn_withheld f) seq seq).1 true in
    let! (e, f) := persistLocked ev f in
    io_ret (f, match e with Some e => [LogUnrecorded true e] | None => [] end).

(** ** The upload lane *)

Definition decide_one (pol : Consent.Policy) (f : consentFence) (rec : Batch.record) : result fence_error Batch.record * consentFence :=
  let '(hide, f) :=
    if contains (fn_withheld f) (rec_Sequence rec) then (true, f)
    else if rec_Sequence rec <=? fn_attempted f then (false, f)
    else match lookup_origin (fn_origins f) (rec_Sequence rec) with
         | None => (false, f)
         | Some o =>
             if allowedBy o pol then (false, f)
             else (true, set_withheld f (add (fn_withheld f) (rec_Sequence rec) (rec_Sequence rec)).1 true)
         end in
  if hide : bool then
    match withheldPlaceholder rec with
    | Ok payload => (Ok (Batch.mkRecord (rec_Sequence rec) payload), f)
    | Err e => (Err (FePlaceholder (rec_Sequence rec) e), f)
    end
  else (Ok rec, f).

Fixpoint decide_all (pol : Consent.Policy) (f : consentFence) (recs : list Batch.record) : result fence_error (list Batch.record) * consentFence :=
  match recs with
  | [] => (Ok [], f)
  | rec :: rest =>
      match decide_one pol f rec with
      | (Err e, f) => (Err e, f)
      | (Ok r, f) => match decide_all pol f rest with (Ok rs, f) => (Ok (r :: rs), f) | (Err e, f) => (Err e, f) end
      end
  end.

Definition decide (ev : env) (src : option Source) (f : consentFence) (recs : list Batch.record)
  : IO (result fence_error (list Batch.record) * consentFence * list fence_log) :=
  let pol := latest src in
  let '(withdrawn, f) := applyLocked f pol in
  let! (f, log) :=
    if bool_decide (withdrawn = ∅) then io_ret (f, [])
    else
      let! (e, f) := persistLocked ev f in
      io_ret (f, logWithheld src withdrawn :: match e with Some e => [LogUnrecorded false e] | None => [] end) in
  let '(r, f) := decide_all pol f recs in io_ret (r, f, log).

(** [fencedFrameStore.ReadRange]: the spool's frames, decided. *)
Definition fenced_ReadRange {store : FrameStore} (ev : env) (src : option Source) (f : consentFence) (first last : Z)
  : IO (result fence_error (list Batch.record) * consentFence * list fence_log) :=
  let! r := io_try (ReadRange ev first last) in
  match r with Err e => io_ret (Err (FeRange e), f, []) | Ok recs => decide ev src f recs end.

(** The policy file is checked first, unless the fence is passive: the source as the check leaves it. *)
Definition check_source (json_text : GoJson.gotype -> bytes -> bytes) (quote : bytes -> bytes) (w : World) (src : option Source) : option Source :=
  (fun s => ck_source (Current json_text quote s w)) <$> src.

Definition refresh (json_text : GoJson.gotype -> bytes -> bytes) (quote : bytes -> bytes) (ev : env) (w : World) (src : option Source) (f : consentFence)
  : IO (option Source * (option fence_error * consentFence * list fence_log)) :=
  let src := check_source json_text quote w src in
  let! r := applyAndRecordLocked ev src f (latest src) in
  io_ret (src, r).

Definition beforeSend (ev : env) (f : consentFence) (r : SequenceRange) : IO (option fence_error * consentFence) :=
  let attempted := Z.max (fn_attempted f) (LastSequence r) in
  let send f' :=
    let! (e, f') := persistLocked ev f' in
    io_ret (FeRecord <$> e, match e with None => f' | Some _ => set_mark f' (fn_attempted f) (fn_pending f) end) in
  if fn_recorded f then
    let marked := set_mark f attempted (fn_pending f) in
    send (set_mark f attempted (sh ← fn_pending f; Some (shutdownRecordLocked marked (sh_HighestDurable sh))))
  else
    match fn_pending f with
    | Some _ => send (set_mark f attempted None)
    | None => if fn_dirty f then send (set_mark f attempted None) else io_ret (None, set_mark f attempted None)
    end.

Definition acknowledged (f : consentFence) (through : Z) : consentFence :=
  mkFence (prune_origins (fn_origins f) through) (prune (fn_withheld f) through) (fn_attempted f) (fn_applied f) (fn_dirty f) (fn_pending f) (fn_recorded f).

(** ** What a fence holds *)

Definition good_origin (o : consentOrigin) : Prop := co_root o <> [] /\ valid_utf8 (co_root o) /\ 0 < co_generation o < 2 ^ 64.

Record good_shutdown (sh : consentLedgerShutdown) : Prop := mkGoodShutdown {
  gs_high : 0 <= sh_HighestDurable sh < MaxInt64;
  gs_mark : 0 <= sh_AttemptedThrough sh < MaxInt64;
  gs_ok : origins_ok 0 (default [] (sh_Origins sh)) = true;
  gs_origins : Forall (fun o => 1 <= lo_First o <= lo_Last o /\ lo_Last o < MaxInt64 /\ good_origin (mkOrigin (lo_Root o) (lo_Generation o)))
                 (default [] (sh_Origins sh));
}.

Record wf_fence (f : consentFence) : Prop := mkWfFence {
  wf_withheld : wf_set (fn_withheld f);
  wf_origins : wf_runs (fn_origins f);
  wf_good : forall x o, captured (fn_origins f) x o -> good_origin o;
  wf_mark : 0 <= fn_attempted f < MaxInt64;
  wf_pending : forall sh, fn_pending f = Some sh -> good_shutdown sh;
}.

Lemma withheld_ok_wf lo prev s : wf_from lo s -> prev < lo -> 1 <= lo -> withheld_ok prev s = true.
Proof.
  revert lo prev. induction s as [|r s IH]; intros lo prev; [done|]. intros (?&?&Hw) Hp Hl. cbn [withheld_ok]. apply andb_true_iff. split.
  - apply negb_true_iff, orb_false_iff. split; [apply orb_false_iff; split; apply Z.ltb_ge; lia|apply Z.leb_gt; lia].
  - apply (IH (r.2 + 2)); [done|lia|lia].
Qed.

Lemma wf_from_ranges lo s : wf_from lo s -> 1 <= lo -> Forall (fun r => in_i64 r.1 /\ in_i64 r.2) s.
Proof.
  revert lo. induction s as [|r s IH]; intros lo; [constructor|]. intros (?&?&Hw) ?. constructor; [|apply (IH (r.2 + 2)); [done|lia]].
  unfold in_i64, MaxInt64 in *. lia.
Qed.

Lemma good_record sh : good_shutdown sh ->
  shutdown_ok sh = true /\ in_i64 (sh_HighestDurable sh) /\ in_i64 (sh_AttemptedThrough sh)
  /\ forall os, sh_Origins sh = Some os ->
       Forall (fun o => in_i64 (lo_First o) /\ in_i64 (lo_Last o) /\ valid_utf8 (lo_Root o) /\ 0 <= lo_Generation o < 2 ^ 64) os.
Proof.
  intros [Hh Hm Hok Ho]. split.
  { unfold shutdown_ok. rewrite Hok, andb_true_r. apply negb_true_iff, orb_false_iff. split; apply Z.ltb_ge; lia. }
  split; [unfold in_i64, MaxInt64 in *; lia|]. split; [unfold in_i64, MaxInt64 in *; lia|].
  intros os E. rewrite E in Ho. cbn [default] in Ho. eapply Forall_impl; [exact Ho|]. intros o (?&?&?&Hu&Hg). cbn in Hu, Hg.
  unfold in_i64, MaxInt64 in *. split; [lia|]. split; [lia|]. split; [done|lia].
Qed.

Lemma fence_ledger_good f : wf_fence f -> good_ledger (fence_ledger f).
Proof.
  intros [Hw _ _ _ Hp]. split; cbn [fence_ledger lg_Version lg_Withheld lg_Shutdown lg_Checksum default]; [done|done| | |].
  - intros rs [= <-]. by apply (wf_from_ranges 1).
  - by apply (withheld_ok_wf 1).
  - intros sh Hsh. by apply good_record, Hp.
Qed.

(** ** Persisting *)

(** What the next start reads. *)
Definition ledger_at (d : disk) : result ledger_error consentLedger := readConsentLedger (Ok (file DRoot consentLedgerFilename d)).

(** [os.CreateTemp] picks a name that is free. *)
Definition fresh (ev : env) (d : disk) : Prop := entries DRoot d !! (AtomicTempPrefix consentLedgerFilename ++ e_tmp ev) = None.

(** The ledger of [x] is that of [d], or [doc]. *)
Definition old_or (doc : consentLedger) (d x : disk) : Prop := ledger_at x = ledger_at d \/ ledger_at x = Ok doc.

Lemma persist_spec ev f d : wf_fence f -> fresh ev d ->
  let '(t, r, d') := persistLocked ev f d in
  Forall (old_or (fence_ledger f) d) t
  /\ ((r = Ok (None, set_dirty f false) /\ ledger_at d' = Ok (fence_ledger f))
      \/ (exists e, r = Ok (Some e, f)) /\ old_or (fence_ledger f) d d').
Proof.
  intros Hf Hfr. unfold persistLocked. destruct (encode_total (fence_ledger f)) as [data Hdata]. rewrite Hdata.
  pose proof (read_encoded _ _ (fence_ledger_good f Hf) Hdata) as Hread.
  pose proof (atomicWriteFile_spec ev DRoot consentLedgerFilename data d Hfr d eq_refl) as Hw.
  assert (Hon : forall x, old_or_new ev DRoot consentLedgerFilename data d x -> old_or (fence_ledger f) d x).
  { intros x [Ho|Hn]; [left|right]; unfold ledger_at.
    - destruct Ho as (_&He&_). f_equal. f_equal. unfold file. by rewrite He.
    - destruct Hn as (_&He&_). rewrite (file_lookup _ _ _ _ He). exact Hread. }
  unfold io_bind, io_try. destruct (atomicWriteFile ev DRoot consentLedgerFilename data d) as [[t r] d'].
  destruct Hw as [Ht Hr]. cbn [io_ret]. rewrite app_nil_r. split; [eapply Forall_impl; [exact Ht|done]|].
  destruct r as [u|e]; [left|right; split; [by eexists|by apply Hon]]. split; [done|]. subst d'. unfold ledger_at.
  rewrite (file_lookup DRoot _ _ data); [exact Hread|]. by rewrite entries_set, lookup_insert_eq.
Qed.

(** ** Hiding frames *)

(** Not sent yet, and captured under consent the policy does not cover. *)
Definition withdrawn (f : consentFence) (pol : Consent.Policy) (x : Z) : Prop :=
  fn_attempted f < x /\ exists o, captured (fn_origins f) x o /\ allowedBy o pol = false.

(** [f'] withholds what [f] does and possibly withdrawn sequences besides; new ones make it dirty. *)
Record hides (pol : Consent.Policy) (f f' : consentFence) : Prop := mkHides {
  hd_wf : wf_fence f';
  hd_origins : fn_origins f' = fn_origins f;
  hd_mark : fn_attempted f' = fn_attempted f;
  hd_pending : fn_pending f' = fn_pending f;
  hd_recorded : fn_recorded f' = fn_recorded f;
  hd_kept : forall x, member (fn_withheld f) x -> member (fn_withheld f') x;
  hd_new : forall x, member (fn_withheld f') x -> member (fn_withheld f) x \/ withdrawn f pol x;
  hd_dirty : fn_dirty f' = false -> fn_dirty f = false /\ forall x, member (fn_withheld f') x -> member (fn_withheld f) x;
}.

Lemma hides_refl pol f : wf_fence f -> hides pol f f.
Proof. intros H. split; try done; intros; by left. Qed.

Lemma withdrawn_hides pol f f' x : hides pol f f' -> withdrawn f' pol x <-> withdrawn f pol x.
Proof. intros H. unfold withdrawn. by rewrite (hd_origins _ _ _ H), (hd_mark _ _ _ H). Qed.

Lemma hides_trans pol f g h : hides pol f g -> hides pol g h -> hides pol f h.
Proof.
  intros H1 H2. split.
  - apply H2.
  - by rewrite (hd_origins _ _ _ H2), (hd_origins _ _ _ H1).
  - by rewrite (hd_mark _ _ _ H2), (hd_mark _ _ _ H1).
  - by rewrite (hd_pending _ _ _ H2), (hd_pending _ _ _ H1).
  - by rewrite (hd_recorded _ _ _ H2), (hd_recorded _ _ _ H1).
  - intros x Hx. by apply (hd_kept _ _ _ H2), (hd_kept _ _ _ H1).
  - intros x [Hx|Hx]%(hd_new _ _ _ H2); [by apply (hd_new _ _ _ H1)|]. right. by apply (withdrawn_hides _ _ _ _ H1).
  - intros Hd. destruct (hd_dirty _ _ _ H2 Hd) as [Hg Hm]. destruct (hd_dirty _ _ _ H1 Hg) as [Hf Hm']. split; [done|]. auto.
Qed.

(** Adding withdrawn sequences. *)
Lemma hides_add pol f first last : wf_fence f -> 1 <= first -> last < MaxInt64 -> (forall x, first <= x <= last -> withdrawn f pol x) ->
  hides pol f (set_withheld f (add (fn_withheld f) first last).1 true).
Proof.
  intros Hf H1 Hl Hx. pose proof (add_ok (fn_withheld f) first last H1 Hl (wf_withheld _ Hf)) as Ha. destruct (add _ _ _) as [w n].
  destruct Ha as (Hw&Hm&_). split; try done; cbn [set_withheld fn_withheld fst fn_dirty].
  - destruct Hf. by split.
  - intros x ?. apply Hm. by left.
  - intros x [?|?]%Hm; [by left|right; auto].
Qed.

Lemma count_zero s first last x :
  length (filter (fun x => ~ member s x) (seqZ first (last - first + 1))) = O -> first <= x <= last -> member s x.
Proof.
  intros Hl Hx. apply nil_length_inv in Hl. destruct (base.decide (member s x)) as [|Hn]; [done|]. exfalso.
  apply (not_elem_of_nil x). rewrite <-Hl. apply list_elem_of_filter. split; [done|]. apply elem_of_seqZ. lia.
Qed.

(** What the loop over the backlog has done after some runs. *)
Record applied_runs (f : consentFence) (pol : Consent.Policy) (runs : list (originRun (O := consentOrigin)))
    (acc : gmap consentOrigin Z * list range) : Prop := mkAppliedRuns {
  ar_wf : wf_set acc.2;
  ar_kept : forall x, member (fn_withheld f) x -> member acc.2 x;
  ar_new : forall x, member acc.2 x -> member (fn_withheld f) x \/ withdrawn f pol x;
  ar_all : forall r x, r ∈ runs -> run_first r <= x <= run_last r -> fn_attempted f < x -> allowedBy (run_origin r) pol = false -> member acc.2 x;
  ar_none : acc.1 = ∅ -> forall x, member acc.2 x -> member (fn_withheld f) x;
}.

Lemma apply_run_ok f pol runs r acc : wf_fence f -> r ∈ fn_origins f -> applied_runs f pol runs acc ->
  applied_runs f pol (runs ++ [r]) (apply_run (fn_attempted f) pol acc r).
Proof.
  intros Hf Hr [Hw Hk Hn Hall Hnone]. destruct acc as [wd w]. unfold apply_run. cbn [fst snd] in *.
  destruct (wf_runs_bound _ r (wf_origins _ Hf) Hr) as [Hb Hl]. pose proof (wf_mark _ Hf) as Hmark.
  destruct ((run_last r <=? fn_attempted f) || allowedBy (run_origin r) pol) eqn:E.
  { split; try done. intros q x [Hq|Hq]%elem_of_app Hx Hax Hp; [by eapply Hall|]. apply list_elem_of_singleton in Hq as ->.
    apply orb_true_iff in E as [E%Z.leb_le|E]; [lia|congruence]. }
  apply orb_false_iff in E as [E%Z.leb_gt Ea]. rewrite i64_id by (unfold in_i64, MaxInt64 in *; lia).
  pose proof (add_ok w (Z.max (run_first r) (fn_attempted f + 1)) (run_last r) ltac:(lia) Hl Hw) as Ha.
  destruct (add _ _ _) as [w' n]. destruct Ha as (Hw'&Hm&Hc). cbn [fst snd].
  split; cbn [fst snd]; [done| | | |].
  - intros x Hx. apply Hm. left. auto.
  - intros x [Hx|Hx]%Hm; [auto|]. right. split; [lia|]. exists (run_origin r). split; [|done]. exists r. split; [done|]. split; [lia|done].
  - intros q x [Hq|Hq]%elem_of_app Hx Hax Hp; apply Hm; [left; by eapply Hall|]. apply list_elem_of_singleton in Hq as ->. right. lia.
  - destruct (Z.ltb_spec 0 n) as [Hpos|Hz].
    { intros Ei. by apply insert_non_empty in Ei. }
    intros Ei x [Hx|Hx]%Hm; [by apply Hnone|]. apply Hnone; [done|]. eapply count_zero; [|exact Hx]. lia.
Qed.

Lemma apply_runs_ok f pol runs : wf_fence f -> runs ⊆ fn_origins f ->
  applied_runs f pol runs (fold_left (apply_run (fn_attempted f) pol) runs (∅, fn_withheld f)).
Proof.
  intros Hf. induction runs as [|r runs IH] using rev_ind; intros Hs.
  - split; cbn; try done; [apply Hf|auto|]. intros r x Hr. inversion Hr.
  - rewrite fold_left_app. cbn [fold_left]. apply apply_run_ok; [done|apply Hs, elem_of_app; right; by left|].
    apply IH. intros q Hq. apply Hs, elem_of_app. by left.
Qed.

Lemma applyLocked_hides f pol : wf_fence f ->
  let '(wd, f') := applyLocked f pol in
  hides pol f f' /\ (wd = ∅ -> forall x, member (fn_withheld f') x -> member (fn_withheld f) x)
  /\ ((forall p, fn_applied f = Some p -> Version pol <> Version p) -> forall x, withdrawn f pol x -> member (fn_withheld f') x).
Proof.
  intros Hf. unfold applyLocked. destruct (fn_applied f) as [p|] eqn:Ep.
  1: destruct (Z.eqb_spec (Version pol) (Version p)) as [E|E].
  1: { split; [by apply hides_refl|]. split; [auto|]. intros Hn. by destruct (Hn p). }
  all: pose proof (apply_runs_ok f pol (fn_origins f) Hf ltac:(done)) as [Hw Hk Hn Hall Hnone].
  all: destruct (fold_left _ _ _) as [wd w]; cbn [fst snd] in *.
  all: split; [split; cbn [fn_withheld fn_origins fn_attempted fn_pending fn_recorded fn_dirty]; try done|split; [done|]].
  all: try (destruct Hf; by split).
  all: try (intros [Hd Hwd%negb_false_iff%bool_decide_eq_true_1]%orb_false_iff; split; [done|by apply Hnone]).
  all: intros _ x (Hx&o&(r&Hr&Hrx&Ho)&Ha); cbn [fn_withheld]; apply (Hall r); [done|done|done|by rewrite Ho].
Qed.

(** ** What an operation leaves on disk *)

(** From memory [f] with directory [d]: written out and clean, or unwritten with the ledger old or new. *)
Inductive wrote (f : consentFence) (d : disk) : consentFence -> disk -> Prop :=
| wrote_ok d' : ledger_at d' = Ok (fence_ledger f) -> wrote f d (set_dirty f false) d'
| wrote_not d' : old_or (fence_ledger f) d d' -> wrote f d f d'.

Lemma wrote_none f d : wrote f d f d.
Proof. apply wrote_not. by left. Qed.

Lemma wrote_wf f d f' d' : wf_fence f -> wrote f d f' d' -> wf_fence f'.
Proof. intros [????] [|]; by split. Qed.

(** Every directory a crash can leave holds the old ledger or that of [f]. *)
Definition writes (f : consentFence) (d : disk) (t : list disk) : Prop := Forall (old_or (fence_ledger f) d) t.

Lemma persist_writes ev f d t r d' : wf_fence f -> fresh ev d -> persistLocked ev f d = (t, r, d') ->
  writes f d t /\ exists e f', r = Ok (e, f') /\ wrote f d f' d' /\ (e = None -> ledger_at d' = Ok (fence_ledger f) /\ f' = set_dirty f false)
    /\ (e <> None -> f' = f /\ old_or (fence_ledger f) d d').
Proof.
  intros Hf Hfr E. pose proof (persist_spec ev f d Hf Hfr) as H. rewrite E in H. destruct H as [Ht [[-> Hd]|[[e ->] Hd]]]; split; try done.
  - exists None, (set_dirty f false). split; [done|]. split; [by constructor|]. done.
  - exists (Some e), f. split; [done|]. split; [by apply wrote_not|]. done.
Qed.

Lemma io_bind_inv {A B} (m : IO A) (k : A -> IO B) d t b d' : io_bind m k d = (t, Ok b, d') ->
  exists t1 a d1 t2, m d = (t1, Ok a, d1) /\ k a d1 = (t2, Ok b, d') /\ t = t1 ++ t2.
Proof.
  unfold io_bind. destruct (m d) as [[t1 [a|e]] d1]; [|done]. destruct (k a d1) as [[t2 r2] d2] eqn:E2. intros [= <- -> <-].
  by exists t1, a, d1, t2.
Qed.

Lemma applyAndRecord_ok ev src f pol d t e f' log d' : wf_fence f -> fresh ev d ->
  applyAndRecordLocked ev src f pol d = (t, Ok (e, f', log), d') ->
  exists f1, hides pol f f1 /\ wrote f1 d f' d' /\ writes f1 d t
    /\ ((forall p, fn_applied f = Some p -> Version pol <> Version p) -> forall x, withdrawn f pol x -> member (fn_withheld f1) x).
Proof.
  intros Hf Hfr H. unfold applyAndRecordLocked in H. pose proof (applyLocked_hides f pol Hf) as Ha.
  destruct (applyLocked f pol) as [wd f1]. destruct Ha as (Hh&_&Hall). exists f1. split; [done|]. case_bool_decide.
  - injection H as <- <- <- <- <-. split; [apply wrote_none|]. split; [constructor|done].
  - apply io_bind_inv in H as (t1&[e1 f2]&d1&t2&Hp&[= <- <- <- <- <-]&->). rewrite app_nil_r.
    apply persist_writes in Hp as (Ht&?&?&[= <- <-]&Hw&_); [|apply Hh|done]. split; [done|]. split; done.
Qed.

(** ** The watcher's appends *)

Definition with_origin (f : consentFence) (seq : Z) (o : consentOrigin) : consentFence :=
  mkFence (SeqSet.record (fn_origins f) seq o) (fn_withheld f) (fn_attempted f) (fn_applied f) (fn_dirty f) (fn_pending f) (fn_recorded f).

Lemma with_origin_ok f seq o : wf_fence f -> good_origin o -> 1 <= seq < MaxInt64 ->
  wf_fence (with_origin f seq o)
  /\ forall x o', captured (fn_origins (with_origin f seq o)) x o'
       <-> captured (fn_origins f) x o' \/ x = seq /\ o' = o /\ ~ touches (fn_origins f) seq seq.
Proof.
  intros [Hw Ho Hg Hm Hp] Hgo Hs. destruct (addRun_ok (fn_origins f) seq seq o ltac:(lia) ltac:(lia) Ho) as [Hw' Hc].
  assert (Hc' : forall x o', captured (SeqSet.record (fn_origins f) seq o) x o'
      <-> captured (fn_origins f) x o' \/ x = seq /\ o' = o /\ ~ touches (fn_origins f) seq seq).
  { intros x o'. unfold SeqSet.record. rewrite Hc. split; (intros [?|(?&?&?)]; [by left|right; split; [lia|done]]). }
  split; [|done]. split; try done. cbn [with_origin fn_origins]. intros x o' [Hx|(_&->&_)]%Hc'; [by eapply Hg|done].
Qed.

Lemma recordAppend_ok ev src f seq o d t f' log d' : wf_fence f -> good_origin o -> 1 <= seq < MaxInt64 -> fresh ev d ->
  recordAppend ev src f seq o d = (t, Ok (f', log), d') ->
  exists f1, wf_fence f1 /\ wrote f1 d f' d' /\ writes f1 d t
    /\ fn_origins f1 = fn_origins (with_origin f seq o) /\ fn_attempted f1 = fn_attempted f /\ fn_pending f1 = fn_pending f /\ fn_recorded f1 = fn_recorded f
    /\ (forall x, member (fn_withheld f1) x <-> member (fn_withheld f) x \/ x = seq /\ fn_attempted f < seq /\ allowedBy o (latest src) = false)
    /\ (fn_dirty f1 = false -> fn_dirty f = false /\ forall x, member (fn_withheld f1) x -> member (fn_withheld f) x).
Proof.
  intros Hf Hg Hs Hfr H. destruct (with_origin_ok f seq o Hf Hg Hs) as [Hwf Hc]. unfold recordAppend in H.
  change (mkFence (SeqSet.record _ _ _) _ _ _ _ _ _) with (with_origin f seq o) in H. cbn [with_origin fn_attempted] in H.
  fold (with_origin f seq o) in H.
  destruct ((seq <=? fn_attempted f) || allowedBy o (latest src)) eqn:E.
  - injection H as <- <- <- <-. exists (with_origin f seq o). split; [done|]. split; [apply wrote_none|]. split; [constructor|].
    do 4 (split; [done|]). split; [|auto]. intros x. split; [by left|]. intros [?|(_&?&Ha)]; [done|].
    apply orb_true_iff in E as [?%Z.leb_le|?]; [lia|congruence].
  - apply orb_false_iff in E as [E%Z.leb_gt Ea].
    apply io_bind_inv in H as (t1&[e1 f2]&d1&t2&Hp&[= <- <- <- <-]&->). rewrite app_nil_r.
    pose proof (add_ok (fn_withheld f) seq seq ltac:(lia) ltac:(lia) (wf_withheld _ Hf)) as Hadd.
    change (fn_withheld (with_origin f seq o)) with (fn_withheld f) in Hp. set (w := (add (fn_withheld f) seq seq).1) in *.
    assert (Hw : wf_set w /\ forall x, member w x <-> member (fn_withheld f) x \/ seq <= x <= seq) by (unfold w; destruct (add _ _ _); by destruct Hadd as (?&?&?)).
    destruct Hw as [Hw Hm]. exists (set_withheld (with_origin f seq o) w true).
    assert (Hf1 : wf_fence (set_withheld (with_origin f seq o) w true)) by (destruct Hwf; by split).
    apply persist_writes in Hp as (Ht&?&?&[= <- <-]&Hwr&_); [|done|done]. split; [done|]. split; [done|]. split; [done|].
    do 4 (split; [done|]). split; [|done]. intros x. cbn [set_withheld fn_withheld]. rewrite Hm. split; (intros [?|?]; [by left|right]); [split; [lia|done]|lia].
Qed.

(** ** The upload lane *)

(** What is sent for a frame: its placeholder when it is hidden, itself otherwise. *)
Definition shown (hide : Prop) (rec r : Batch.record) : Prop :=
  rec_Sequence r = rec_Sequence rec /\ ((hide /\ withheldPlaceholder rec = Ok (rec_Payload r)) \/ (~ hide /\ r = rec)).

(** Hidden already, or about to be. *)
Definition hidden (f : consentFence) (pol : Consent.Policy) (x : Z) : Prop := member (fn_withheld f) x \/ withdrawn f pol x.

Lemma hidden_hides pol f f' x : hides pol f f' -> hidden f' pol x <-> hidden f pol x.
Proof.
  intros H. unfold hidden. rewrite (withdrawn_hides _ _ _ _ H). split; (intros [Hx|Hx]; [|by right]).
  - destruct (hd_new _ _ _ H x Hx); [by left|by right].
  - left. by apply (hd_kept _ _ _ H).
Qed.

Lemma decide_one_ok pol f rec : wf_fence f -> 1 <= rec_Sequence rec < MaxInt64 ->
  let '(r, f') := decide_one pol f rec in
  hides pol f f' /\ match r with Ok r => shown (hidden f pol (rec_Sequence rec)) rec r | Err _ => True end
  /\ (hidden f pol (rec_Sequence rec) -> member (fn_withheld f') (rec_Sequence rec)).
Proof.
  intros Hf Hs. unfold decide_one. pose proof (contains_spec (fn_withheld f) (rec_Sequence rec) (wf_withheld _ Hf)) as Hc.
  assert (Hstay : forall b : bool, (if b then hidden f pol (rec_Sequence rec) else ~ hidden f pol (rec_Sequence rec)) ->
    (hidden f pol (rec_Sequence rec) -> member (fn_withheld f) (rec_Sequence rec)) ->
    let '(r, f') := (if b then match withheldPlaceholder rec with
                               | Ok payload => (Ok (Batch.mkRecord (rec_Sequence rec) payload), f)
                               | Err e => (Err (FePlaceholder (rec_Sequence rec) e), f)
                               end else (Ok rec, f)) in
    hides pol f f' /\ match r with Ok r => shown (hidden f pol (rec_Sequence rec)) rec r | Err _ => True end
    /\ (hidden f pol (rec_Sequence rec) -> member (fn_withheld f') (rec_Sequence rec))).
  { intros [] Hb Hm; [|split; [by apply hides_refl|split; [split; [done|by right]|done]]].
    destruct (withheldPlaceholder rec) eqn:Ep; (split; [by apply hides_refl|split; [|done]]); [|done].
    split; [done|left; split; done]. }
  destruct (contains (fn_withheld f) (rec_Sequence rec)) eqn:Ec.
  { apply (Hstay true); [left|intros _]; by apply Hc. }
  assert (Hn : ~ member (fn_withheld f) (rec_Sequence rec)) by (rewrite <-Hc; congruence).
  destruct (Z.leb_spec (rec_Sequence rec) (fn_attempted f)) as [Hle|Hgt].
  { apply (Hstay false); [intros [?|[? _]]; [done|lia]|intros [?|[? _]]; [done|lia]]. }
  destruct (lookup_origin (fn_origins f) (rec_Sequence rec)) as [o|] eqn:El.
  2: { assert (Hno : ~ hidden f pol (rec_Sequence rec)); [|by apply (Hstay false)]. intros [?|(_&o&Ho&_)]; [done|].
       apply lookup_origin_ok in Ho; [congruence|apply Hf]. }
  apply lookup_origin_ok in El; [|apply Hf]. destruct (allowedBy o pol) eqn:Ea.
  { assert (Hno : ~ hidden f pol (rec_Sequence rec)); [|by apply (Hstay false)]. intros [?|(_&o'&Ho&Ha)]; [done|].
    rewrite (captured_unique _ _ _ _ (wf_origins _ Hf) Ho El) in Ha. congruence. }
  assert (Hw : withdrawn f pol (rec_Sequence rec)) by (split; [done|by exists o]).
  pose proof (add_ok (fn_withheld f) (rec_Sequence rec) (rec_Sequence rec) ltac:(lia) ltac:(lia) (wf_withheld _ Hf)) as Ha'.
  assert (Hh : hides pol f (set_withheld f (add (fn_withheld f) (rec_Sequence rec) (rec_Sequence rec)).1 true)).
  { apply hides_add; [done|lia|lia|]. intros x Hx. by replace x with (rec_Sequence rec) by lia. }
  assert (Hin : member (add (fn_withheld f) (rec_Sequence rec) (rec_Sequence rec)).1 (rec_Sequence rec)).
  { destruct (add _ _ _). destruct Ha' as (_&Hm&_). apply Hm. right. lia. }
  destruct (withheldPlaceholder rec) eqn:Ep; (split; [exact Hh|split; [|done]]); [|done].
  split; [done|]. left. split; [by right|done].
Qed.

Lemma shown_iff P Q rec r : (P <-> Q) -> shown P rec r <-> shown Q rec r.
Proof. intros H. unfold shown. by rewrite H. Qed.

Lemma decide_all_ok pol recs : forall f, wf_fence f -> Forall (fun rec => 1 <= rec_Sequence rec < MaxInt64) recs ->
  let '(r, f') := decide_all pol f recs in
  hides pol f f' /\ match r with Ok rs => Forall2 (fun rec r => shown (hidden f pol (rec_Sequence rec)) rec r
                                               /\ (hidden f pol (rec_Sequence rec) -> member (fn_withheld f') (rec_Sequence rec))) recs rs
                    | Err _ => True end.
Proof.
  induction recs as [|rec recs IH]; intros f Hf Hs; [split; [by apply hides_refl|constructor]|].
  apply Forall_cons in Hs as [Hrec Hs]. cbn [decide_all]. pose proof (decide_one_ok pol f rec Hf Hrec) as H1.
  destruct (decide_one pol f rec) as [[r|e] f1]; destruct H1 as (Hh&Hr&Hm); [|done].
  specialize (IH f1 (hd_wf _ _ _ Hh) Hs). destruct (decide_all pol f1 recs) as [[rs|e] f2]; destruct IH as [Hh2 Hrs].
  - split; [by eapply hides_trans|]. constructor.
    + split; [done|]. intros Hx. apply (hd_kept _ _ _ Hh2). auto.
    + eapply Forall2_impl; [exact Hrs|]. cbv beta. intros x y [Hsh Hx]. pose proof (hidden_hides _ _ _ (rec_Sequence x) Hh) as Hi.
      split; [by eapply shown_iff|]. intros Hhid. by apply Hx, Hi.
  - split; [by eapply hides_trans|done].
Qed.

(** The decision on a batch: what the fence withholds afterwards, and only that, goes out as a placeholder. *)
Lemma decide_ok ev src f recs d t r f' log d' : wf_fence f -> fresh ev d -> Forall (fun rec => 1 <= rec_Sequence rec < MaxInt64) recs ->
  decide ev src f recs d = (t, Ok (r, f', log), d') ->
  exists f1 f2, hides (latest src) f f1 /\ wrote f1 d f2 d' /\ hides (latest src) f2 f' /\ writes f1 d t
    /\ match r with
       | Ok rs => Forall2 (fun rec r => shown (member (fn_withheld f') (rec_Sequence rec)) rec r
                             /\ (withdrawn f (latest src) (rec_Sequence rec) -> member (fn_withheld f') (rec_Sequence rec))) recs rs
       | Err _ => True
       end.
Proof.
  intros Hf Hfr Hs H. unfold decide in H. pose proof (applyLocked_hides f (latest src) Hf) as Ha.
  destruct (applyLocked f (latest src)) as [wd f1]. destruct Ha as (Hh&_&_).
  apply io_bind_inv in H as (t1&[f2 log1]&d1&t2&Hp&H&->). pose proof (decide_all_ok (latest src) recs f2) as Hd.
  destruct (decide_all (latest src) f2 recs) as [r2 f3]. injection H as <- <- <- <- <-. rewrite app_nil_r.
  assert (Hw : wrote f1 d f2 d1 /\ writes f1 d t1).
  { case_bool_decide; [injection Hp as <- <- <- <-; split; [apply wrote_none|constructor]|].
    apply io_bind_inv in Hp as (t3&[e1 f4]&d2&t4&Hp&[= <- <- <- <-]&->). rewrite app_nil_r.
    apply persist_writes in Hp as (Ht&?&?&[= <- <-]&Hw&_); [done|apply Hh|done]. }
  destruct Hw as [Hw Ht]. exists f1, f2. destruct (Hd (wrote_wf _ _ _ _ (hd_wf _ _ _ Hh) Hw) Hs) as [Hh2 Hrs].
  do 4 (split; [done|]). destruct r2 as [rs|]; [|done]. eapply Forall2_impl; [exact Hrs|]. cbv beta. intros x y [Hsh Hm].
  assert (Hi : hidden f2 (latest src) (rec_Sequence x) <-> member (fn_withheld f3) (rec_Sequence x)).
  { split; [done|]. intros Hx. apply (hd_new _ _ _ Hh2) in Hx. by destruct Hx; [left|right]. }
  split; [by eapply shown_iff|]. intros Hwd. apply Hm. right. apply (withdrawn_hides _ _ _ _ Hh) in Hwd.
  destruct Hwd as [? Hc]. destruct Hw; by split.
Qed.

(** ** The shutdown record *)

Lemma fold_max_bounds {A} (g : A -> Z) l h : 
  h <= fold_left (fun h x => Z.max h (g x)) l h
  /\ (forall x, x ∈ l -> g x <= fold_left (fun h x => Z.max h (g x)) l h)
  /\ (forall b, h <= b -> (forall x, x ∈ l -> g x <= b) -> fold_left (fun h x => Z.max h (g x)) l h <= b).
Proof.
  revert h. induction l as [|y l IH]; intros h; cbn [fold_left]; [split; [done|split; [intros x Hx; inversion Hx|auto]]|].
  destruct (IH (Z.max h (g y))) as (H1&H2&H3). split; [lia|]. split.
  - intros x [->|Hx]%elem_of_cons; [lia|auto].
  - intros b Hb Hx. apply H3; [|intros x Hin; apply Hx; by right]. pose proof (Hx y ltac:(by left)). lia.
Qed.

Lemma origins_ok_runs attempted (runs : list (originRun (O := consentOrigin))) prev :
  wf_runs runs -> (forall r, r ∈ runs -> attempted < run_last r) -> (forall r, r ∈ runs -> prev < run_first r) ->
  0 <= attempted < MaxInt64 -> (forall r, r ∈ runs -> good_origin (run_origin r)) ->
  origins_ok prev (map (ledger_origin attempted) runs) = true.
Proof.
  intros Hw Ha Hp Hm Hg. revert prev Hw Ha Hp Hg. induction runs as [|r runs IH]; intros prev [Hb Hs] Ha Hp Hg; [done|].
  apply Forall_cons in Hb as [[Hr1 Hr2] Hb]. inversion Hs as [|? ? Hs' Hall]; subst. rewrite Forall_forall in Hall.
  pose proof (Ha r ltac:(by left)) as Har. pose proof (Hp r ltac:(by left)) as Hpr. destruct (Hg r ltac:(by left)) as (Hroot&_&Hgen).
  cbn [map origins_ok]. apply andb_true_iff. split.
  - unfold ledger_origin. cbn [lo_First lo_Last lo_Root lo_Generation]. rewrite i64_id by (unfold in_i64, MaxInt64 in *; lia).
    rewrite (proj2 (Z.ltb_ge _ _)) by lia. rewrite (proj2 (Z.ltb_ge _ _)) by lia. rewrite (proj2 (Z.leb_gt _ _)) by lia.
    rewrite bool_decide_false by done. by rewrite (proj2 (Z.eqb_neq _ _)) by lia.
  - apply IH; [by split|intros q Hq; apply Ha; by right| |intros q Hq; apply Hg; by right]. intros q Hq. apply (Hall q Hq).
Qed.

Lemma wf_runs_filter (P : originRun (O := consentOrigin) -> Prop) `{forall r, Decision (P r)} runs : wf_runs runs -> wf_runs (filter P runs).
Proof.
  assert (HF : forall (Q : originRun (O := consentOrigin) -> Prop) l, Forall Q l -> Forall Q (filter P l)).
  { intros Q l. rewrite !Forall_forall. intros Hl r [_ Hr]%list_elem_of_filter. auto. }
  intros [Hb Hs]. split; [by apply HF|]. clear Hb. induction Hs as [|r runs _ IH Hall]; [constructor|].
  rewrite filter_cons. case_decide; [|done]. constructor; [done|]. by apply HF.
Qed.

Lemma run_captured f r : wf_fence f -> r ∈ fn_origins f -> captured (fn_origins f) (run_first r) (run_origin r).
Proof. intros Hf Hr. destruct (wf_runs_bound _ r (wf_origins _ Hf) Hr). exists r. split; [done|]. split; [lia|done]. Qed.

Record describes (f : consentFence) (h : Z) (sh : consentLedgerShutdown) : Prop := mkDescribes {
  ds_good : good_shutdown sh;
  ds_mark : sh_AttemptedThrough sh = fn_attempted f;
  ds_high : h <= sh_HighestDurable sh /\ fn_attempted f <= sh_HighestDurable sh;
  ds_runs : forall r, r ∈ unsent_runs f -> run_last r <= sh_HighestDurable sh;
  ds_bound : forall b, h <= b -> fn_attempted f <= b -> (forall x o, captured (fn_origins f) x o -> x <= b) -> sh_HighestDurable sh <= b;
}.

Lemma shutdown_record_ok f h : wf_fence f -> 0 <= h < MaxInt64 -> describes f h (shutdownRecordLocked f h).
Proof.
  intros Hf Hh. pose proof (wf_mark _ Hf) as Hm.
  assert (Hin : forall r, r ∈ unsent_runs f -> fn_attempted f < run_last r /\ r ∈ fn_origins f).
  { intros r Hr. unfold unsent_runs in Hr. by apply list_elem_of_filter in Hr. }
  assert (Hrun : forall r, r ∈ unsent_runs f -> 1 <= run_first r <= run_last r /\ run_last r < MaxInt64 /\ good_origin (run_origin r)).
  { intros r [_ Hr]%Hin. destruct (wf_runs_bound _ r (wf_origins _ Hf) Hr). split; [done|]. split; [done|].
    eapply (wf_good _ Hf), run_captured; done. }
  destruct (fold_max_bounds run_last (unsent_runs f) (Z.max h (fn_attempted f))) as (H1&H2&H3).
  split; [|done|cbn [shutdownRecordLocked sh_HighestDurable]; lia|done|].
  - split; cbn [shutdownRecordLocked sh_HighestDurable sh_AttemptedThrough sh_Origins default]; [|done| |].
    + split; [lia|]. apply Z.lt_le_trans with (MaxInt64 - 1 + 1); [|lia]. apply Z.lt_succ_r, H3; [lia|].
      intros r Hr%Hrun. lia.
    + apply origins_ok_runs; [apply wf_runs_filter, Hf|apply Hin| |done|apply Hrun]. intros r Hr%Hrun. lia.
    + apply Forall_fmap, Forall_forall. intros r Hr. destruct (Hrun r Hr) as (?&?&Hg). destruct (Hin r Hr) as [? _]. cbn.
      rewrite i64_id by (unfold in_i64, MaxInt64 in *; lia). split; [lia|]. split; [done|]. by destruct (run_origin r).
  - intros b Hb Hab Hc. apply H3; [lia|]. intros r Hr. destruct (Hin r Hr) as [_ Ho]. destruct (Hrun r Hr) as (?&?&_).
    apply (Hc (run_last r) (run_origin r)). exists r. split; [done|]. split; [lia|done].
Qed.

Lemma recordShutdown_ok ev f h d t e f' d' : wf_fence f -> 0 <= h < MaxInt64 -> fresh ev d ->
  recordShutdown ev f h d = (t, Ok (e, f'), d') ->
  let f1 := mkFence (fn_origins f) (fn_withheld f) (fn_attempted f) (fn_applied f) (fn_dirty f) (Some (shutdownRecordLocked f h)) true in
  wf_fence f1 /\ writes f1 d t
  /\ match e with
     | None => f' = set_dirty f1 false /\ ledger_at d' = Ok (fence_ledger f1)
     | Some _ => f' = f /\ old_or (fence_ledger f1) d d'
     end.
Proof.
  intros Hf Hh Hfr H f1. assert (Hf1 : wf_fence f1).
  { destruct Hf as [? ? ? ? ?] eqn:E. split; try done. intros sh [= <-]. apply shutdown_record_ok; [by split|done]. }
  split; [done|]. unfold recordShutdown in H. apply io_bind_inv in H as (t1&[e1 f2]&d1&t2&Hp&[= <- <- <- <-]&->). rewrite app_nil_r.
  fold f1 in Hp. apply persist_writes in Hp as (Ht&?&?&[= <- <-]&_&Hn&Hs); [|done|done]. split; [done|].
  destruct e1 as [e1|]; [|by destruct (Hn eq_refl) as [? ->]]. destruct (Hs ltac:(done)) as [-> Ho]. split; [|done]. by destruct f.
Qed.

Lemma beforeSend_ok ev f r d t e f' d' : wf_fence f -> LastSequence r < MaxInt64 -> (fn_recorded f = true -> fn_pending f <> None) -> fresh ev d ->
  beforeSend ev f r d = (t, Ok (e, f'), d') ->
  exists p, let f1 := set_mark f (Z.max (fn_attempted f) (LastSequence r)) p in
  wf_fence f1 /\ writes f1 d t
  /\ (forall sh, p = Some sh -> sh_AttemptedThrough sh = fn_attempted f1 /\ exists h, fn_pending f = Some h /\ sh = shutdownRecordLocked f1 (sh_HighestDurable h))
  /\ (fn_recorded f = true -> p <> None)
  /\ match e with
     | None => f' = set_dirty f1 false
               /\ (ledger_at d' = Ok (fence_ledger f1) \/ d' = d /\ fn_dirty f = false /\ fn_pending f = None /\ p = None)
     | Some _ => f' = f /\ old_or (fence_ledger f1) d d'
     end.
Proof.
  intros Hf Hr Hrec Hfr H. unfold beforeSend in H. set (a := Z.max (fn_attempted f) (LastSequence r)) in *.
  pose proof (wf_mark _ Hf) as Hm. assert (Hmark : forall p, (forall sh, p = Some sh -> good_shutdown sh) -> wf_fence (set_mark f a p)).
  { intros p Hp. destruct Hf. split; try done. cbn. lia. }
  assert (Hsend : forall p, (forall sh, p = Some sh -> good_shutdown sh) ->
     (let! (e, f') := persistLocked ev (set_mark f a p) in
      io_ret (FeRecord <$> e, match e with None => f' | Some _ => set_mark f' (fn_attempted f) (fn_pending f) end)) d = (t, Ok (e, f'), d') ->
     wf_fence (set_mark f a p) /\ writes (set_mark f a p) d t
     /\ match e with
        | None => f' = set_dirty (set_mark f a p) false /\ ledger_at d' = Ok (fence_ledger (set_mark f a p))
        | Some _ => f' = f /\ old_or (fence_ledger (set_mark f a p)) d d'
        end).
  { intros p Hp Hs. split; [by apply Hmark|]. apply io_bind_inv in Hs as (t1&[e1 f2]&d1&t2&Hpe&[= <- <- <- <-]&->). rewrite app_nil_r.
    apply persist_writes in Hpe as (Ht&?&?&[= <- <-]&_&Hn&Hse); [|by apply Hmark|done]. split; [done|].
    destruct e1 as [e1|]; cbn [fmap option_fmap option_map]; [|by destruct (Hn eq_refl) as [? ->]]. destruct (Hse ltac:(done)) as [-> Ho]. split; [|done]. by destruct f. }
  destruct (fn_recorded f) eqn:Er.
  - destruct (fn_pending f) as [h|] eqn:Ep; [|by destruct Hrec]. cbn [mbind option_bind] in H.
    pose proof (wf_pending _ Hf h Ep) as Hgh.
    pose proof (shutdown_record_ok (set_mark f a (Some h)) (sh_HighestDurable h) ltac:(apply Hmark; by intros ? [= <-]) (gs_high _ Hgh)) as Hd.
    set (sh := shutdownRecordLocked (set_mark f a (Some h)) (sh_HighestDurable h)) in *.
    exists (Some sh). cbv zeta. destruct (Hsend (Some sh)) as (Hw&Ht&He); [intros ? [= <-]; apply Hd|done|].
    split; [done|]. split; [done|]. split; [|split; [done|]].
    + intros ? [= <-]. split; [apply Hd|]. exists h. done.
    + destruct e; [done|]. destruct He. split; [done|]. by left.
  - destruct (fn_pending f) as [h|] eqn:Ep; [|destruct (fn_dirty f) eqn:Ed].
    1, 2: exists None; cbv zeta; destruct (Hsend None) as (Hw&Ht&He); [done|done|]; split; [done|]; split; [done|]; split; [done|]; split; [done|];
      destruct e; [done|]; destruct He; split; [done|by left].
    exists None. cbv zeta. injection H as <- <- <- <-. split; [by apply Hmark|]. split; [constructor|]. split; [done|]. split; [done|].
    split; [unfold set_dirty, set_withheld, set_mark; cbn; by rewrite Ed|]. right. done.
Qed.

Lemma acknowledged_ok f through : wf_fence f -> 0 <= through < MaxInt64 ->
  wf_fence (acknowledged f through)
  /\ (forall x, member (fn_withheld (acknowledged f through)) x <-> member (fn_withheld f) x /\ through < x)
  /\ (forall x o, captured (fn_origins (acknowledged f through)) x o <-> captured (fn_origins f) x o /\ through < x).
Proof.
  intros [Hw Ho Hg Hm Hp] Ht. destruct (prune_ok _ _ Hw Ht) as [Hw' Hx]. destruct (prune_origins_ok _ _ Ho Ht) as [Ho' Hc].
  split; [|done]. split; try done. intros x o [Hx' _]%Hc. by eapply Hg.
Qed.

(** ** Start *)

(** A ledger the fence wrote, or none. *)
Record wf_ledger (doc : consentLedger) : Prop := mkWfLedger {
  wl_withheld : wf_set (default [] (lg_Withheld doc));
  wl_shutdown : forall sh, lg_Shutdown doc = Some sh -> good_shutdown sh;
}.

Lemma fence_ledger_wf f : wf_fence f -> wf_ledger (fence_ledger f).
Proof. intros Hf. split; apply Hf. Qed.

Lemma wf_from_bounds lo s : wf_from lo s -> 1 <= lo -> Forall (fun r => 1 <= r.1 <= r.2 /\ r.2 < MaxInt64) s.
Proof.
  revert lo. induction s as [|r s IH]; intros lo; [constructor|]. intros (?&?&Hw) ?. constructor; [lia|]. apply (IH (r.2 + 2)); [done|lia].
Qed.

Lemma load_withheld_ok h l : wf_set l -> 0 <= h < MaxInt64 ->
  wf_set (load_withheld h l) /\ forall x, member (load_withheld h l) x <-> member l x /\ x <= h.
Proof.
  intros Hw Hh. apply wf_from_bounds in Hw; [|lia]. unfold load_withheld. induction l as [|r l IH] using rev_ind.
  - split; [done|]. intros x. cbn. rewrite member_nil. tauto.
  - apply Forall_app in Hw as [Hw [[Hr Hr'] _]%Forall_cons]. rewrite fold_left_app. cbn [fold_left]. destruct (IH Hw) as [IHw IHm]. set (w := fold_left _ l []) in *.
    assert (Hone : forall x, member [r] x <-> r.1 <= x <= r.2) by (intros x; rewrite member_cons, member_nil; tauto).
    destruct (Z.leb_spec r.1 h).
    + pose proof (add_ok w r.1 (Z.min r.2 h) ltac:(lia) ltac:(lia) IHw) as Ha. destruct (add _ _ _) as [w' n]. destruct Ha as (Hw'&Hm&_).
      split; [done|]. intros x. cbn [fst]. rewrite Hm, IHm, member_app, Hone. split; [intros [[? ?]|?]; [tauto|split; [right|]; lia]|].
      intros [[?|?] ?]; [by left|right; lia].
    + split; [done|]. intros x. rewrite IHm, member_app, Hone. split; [tauto|]. intros [[?|?] ?]; [done|lia].
Qed.

(** What one origin of the record names. *)
Definition origin_names (attempted high : Z) (lo : consentLedgerOrigin) (x : Z) (o : consentOrigin) : Prop :=
  Z.max (lo_First lo) (attempted + 1) <= x <= Z.min (lo_Last lo) high /\ o = mkOrigin (lo_Root lo) (lo_Generation lo).

Lemma load_origins_from attempted high l prev acc :
  0 <= attempted < MaxInt64 -> high < MaxInt64 -> origins_ok prev l = true ->
  Forall (fun o => 1 <= lo_First o <= lo_Last o /\ lo_Last o < MaxInt64) l ->
  wf_runs acc -> (forall x o, captured acc x o -> x <= prev) ->
  let s := fold_left (fun x o => addRun x (Z.max (lo_First o) (i64 (attempted + 1))) (Z.min (lo_Last o) high) (mkOrigin (lo_Root o) (lo_Generation o))) l acc in
  wf_runs s /\ forall x o, captured s x o <-> captured acc x o \/ exists lo, lo ∈ l /\ origin_names attempted high lo x o.
Proof.
  intros Ha Hh. revert prev acc. induction l as [|lo l IH]; intros prev acc Hok Hb Hw Hc; cbn [fold_left].
  { split; [done|]. intros x o. split; [by left|]. intros [?|(lo&Hlo&_)]; [done|inversion Hlo]. }
  apply Forall_cons in Hb as [[Hlo Hlo'] Hb]. cbn [origins_ok] in Hok. apply andb_true_iff in Hok as [Hok Hl].
  apply negb_true_iff in Hok. repeat (apply orb_false_iff in Hok as [Hok ?]).
  assert (Hp : prev < lo_First lo) by (match goal with H : (lo_First lo <=? prev) = false |- _ => apply Z.leb_gt in H; lia end).
  rewrite (i64_id (attempted + 1)) by (unfold in_i64, MaxInt64 in *; lia).
  set (F := Z.max (lo_First lo) (attempted + 1)). set (L := Z.min (lo_Last lo) high). set (o0 := mkOrigin (lo_Root lo) (lo_Generation lo)).
  destruct (addRun_ok acc F L o0 ltac:(lia) ltac:(lia) Hw) as [Hw' Hc'].
  assert (Hnt : ~ touches acc F L).
  { intros (r&Hr&Hx1&Hx2). destruct (wf_runs_bound _ r Hw Hr). assert (captured acc (run_last r) (run_origin r)) as Hx%Hc by (exists r; split; [done|split; [lia|done]]). lia. }
  specialize (IH (lo_Last lo) (addRun acc F L o0) Hl Hb Hw'). rewrite (i64_id (attempted + 1)) in IH by (unfold in_i64, MaxInt64 in *; lia).
  destruct IH as [IHw IHc].
  { intros x o [Hx%Hc|[Hx _]]%Hc'; lia. }
  split; [done|]. intros x o. rewrite IHc, Hc'. split.
  - intros [[?|(?&->&_)]|(lo'&?&?)]; [by left|right; exists lo; split; [by left|by split]|right; exists lo'; split; [by right|done]].
  - intros [?|(lo'&[->|Hin]%elem_of_cons&Hn)]; [by left; left|left; right; destruct Hn as [Hnx Hno]; split; [exact Hnx|by split]|right; by exists lo'].
Qed.

Lemma load_origins_ok sh : good_shutdown sh ->
  let s := load_origins (sh_AttemptedThrough sh) sh in
  wf_runs s /\ forall x o, captured s x o <-> exists lo, lo ∈ default [] (sh_Origins sh) /\ origin_names (sh_AttemptedThrough sh) (sh_HighestDurable sh) lo x o.
Proof.
  intros [Hh Hm Hok Ho]. destruct (load_origins_from (sh_AttemptedThrough sh) (sh_HighestDurable sh) (default [] (sh_Origins sh)) 0 [] Hm) as [Hw Hc]; try done.
  - lia.
  - eapply Forall_impl; [exact Ho|]. intros o (?&?&_). done.
  - split; [constructor|constructor].
  - intros x o (r&Hr&_). inversion Hr.
  - split; [done|]. intros x o. rewrite Hc. split; [|by right]. intros [(r&Hr&_)|?]; [inversion Hr|done].
Qed.

Definition same_ledger (d x : disk) : Prop := entries DRoot x !! consentLedgerFilename = entries DRoot d !! consentLedgerFilename.

Lemma same_ledger_at d x : same_ledger d x -> ledger_at x = ledger_at d.
Proof. intros H. unfold ledger_at, file. by rewrite H. Qed.

Definition swept (ev : env) (d x : disk) : Prop := same_ledger d x /\ (fresh ev d -> fresh ev x).

Lemma removeFile_swept ev name d0 d : ledger_temp name = true -> swept ev d0 d ->
  let '(t, r, d') := removeFile ev DRoot name d in Forall (swept ev d0) t /\ swept ev d0 d'.
Proof.
  intros Hn Hs. unfold removeFile. destruct (e_flt ev IoRemove name); [by split; [repeat constructor; apply Hs|]|].
  destruct (entries DRoot d !! name); [|by split; [repeat constructor; apply Hs|]]. split; [repeat constructor; apply Hs|].
  destruct Hs as [Hl Hf]. split.
  - unfold same_ledger. rewrite entries_del, lookup_delete_ne; [exact Hl|]. intros ->. by vm_compute in Hn.
  - intros Hfr%Hf. unfold fresh. rewrite entries_del. by apply lookup_delete_None; right.
Qed.

Lemma remove_temps_swept ev d0 names : forall d, swept ev d0 d ->
  let '(t, r, d') := remove_temps ev names d in Forall (swept ev d0) t /\ r = Ok tt /\ swept ev d0 d'.
Proof.
  induction names as [|[name e] names IH]; intros d Hs; cbn [remove_temps]; [split; [constructor|done]|].
  assert (Hone : let '(t, r, d') := remove_temp ev name e d in Forall (swept ev d0) t /\ r = Ok tt /\ swept ev d0 d').
  { unfold remove_temp. destruct e; [|split; [constructor|done]]. destruct (ledger_temp name) eqn:En; [|split; [constructor|done]].
    pose proof (removeFile_swept ev name d0 d En Hs) as Hr. unfold io_bind, io_try. destruct (removeFile ev DRoot name d) as [[t r] d'].
    destruct Hr as [Ht Hd]. cbn. rewrite app_nil_r. done. }
  unfold io_bind. destruct (remove_temp ev name e d) as [[t r] d1]. destruct Hone as (Ht&->&Hd1).
  specialize (IH d1 Hd1). destruct (remove_temps ev names d1) as [[t2 r2] d2]. destruct IH as (Ht2&->&Hd2).
  split; [by apply Forall_app|done].
Qed.

Lemma sweep_ok ev d : let '(t, r, d') := sweepLedgerTemps ev d in Forall (swept ev d) t /\ r = Ok tt /\ swept ev d d'.
Proof.
  assert (H0 : swept ev d d) by done.
  unfold sweepLedgerTemps, readDir, io_check, io_call, io_bind at 1, io_try, io_bind at 1. destruct (e_flt ev IoReadDir (name_of DRoot)); cbn [app].
  - split; [repeat constructor; apply H0|done].
  - destruct (get_dir DRoot (id d)) as [m|]; [|split; [repeat constructor; apply H0|done]].
    pose proof (remove_temps_swept ev d (map_to_list m) d H0) as Hr. cbv beta iota. unfold id in *.
    destruct (remove_temps ev (map_to_list m) d) as [[t r] d']. destruct Hr as (Ht&->&Hd). split; [|done]. constructor; [apply H0|done].
Qed.

(** What the ledger says at a start whose spool is durable through [h]. *)
Record loaded (doc : consentLedger) (h : Z) (f : consentFence) : Prop := mkLoaded {
  ld_wf : wf_fence f;
  ld_members : forall x, member (fn_withheld f) x <-> member (default [] (lg_Withheld doc)) x /\ x <= h;
  ld_clean : fn_dirty f = false /\ fn_recorded f = false;
  ld_record : (fn_pending f = None /\ fn_attempted f = h /\ fn_origins f = []
      /\ forall sh, lg_Shutdown doc = Some sh -> h < sh_HighestDurable sh \/ sh_HighestDurable sh < sh_AttemptedThrough sh)
    \/ exists sh, lg_Shutdown doc = Some sh /\ fn_pending f = Some sh /\ fn_attempted f = sh_AttemptedThrough sh
         /\ sh_AttemptedThrough sh <= sh_HighestDurable sh <= h
         /\ forall x o, captured (fn_origins f) x o
              <-> exists lo, lo ∈ default [] (sh_Origins sh) /\ origin_names (sh_AttemptedThrough sh) (sh_HighestDurable sh) lo x o;
}.

Lemma loaded_without doc h : wf_ledger doc -> 0 <= h < MaxInt64 ->
  (forall sh, lg_Shutdown doc = Some sh -> h < sh_HighestDurable sh \/ sh_HighestDurable sh < sh_AttemptedThrough sh) ->
  loaded doc h (mkFence [] (load_withheld h (default [] (lg_Withheld doc))) h None false None false).
Proof.
  intros [Hw _] Hh Hsh. destruct (load_withheld_ok h _ Hw Hh) as [Hw' Hm]. split; [|done|done|by left]. split; try done.
  - split; constructor.
  - intros x o (r&Hr&_). inversion Hr.
Qed.

Lemma loaded_with doc h sh : wf_ledger doc -> 0 <= h < MaxInt64 -> lg_Shutdown doc = Some sh ->
  sh_AttemptedThrough sh <= sh_HighestDurable sh <= h ->
  loaded doc h (mkFence (load_origins (sh_AttemptedThrough sh) sh) (load_withheld h (default [] (lg_Withheld doc))) (sh_AttemptedThrough sh)
    None false (Some sh) false).
Proof.
  intros [Hw Hs] Hh Hsh Hle. specialize (Hs sh Hsh). destruct (load_withheld_ok h _ Hw Hh) as [Hw' Hm]. destruct (load_origins_ok sh Hs) as [Ho Hc].
  split; [|done|done|right; by exists sh]. split; try done; [|apply Hs|by intros ? [= <-]]. intros x o (lo&Hlo&_&->)%Hc.
  pose proof (gs_origins _ Hs) as Hg. rewrite Forall_forall in Hg. by destruct (Hg lo Hlo) as (_&_&?).
Qed.

(** What a start leaves: the ledger loaded, for a passive fence with everything recorded as unsent withheld. *)
Definition started (src : option Source) (doc : consentLedger) (h : Z) (d : disk) (t : list disk)
    (res : sres (result fence_error consentFence * list fence_log)) (d' : disk) : Prop :=
  exists f0 f1, loaded doc h f0 /\ hides (latest src) f0 f1 /\ Forall (old_or (fence_ledger f1) d) (t ++ [d'])
    /\ forall f log, res = Ok (Ok f, log) ->
         wrote f1 d f d' /\ (fn_pending f = None -> lg_Shutdown doc = None \/ ledger_at d' = Ok (fence_ledger f1)) /\ (src <> None -> f1 = f0)
         /\ (src = None -> forall x, withdrawn f0 (latest src) x -> member (fn_withheld f1) x).

Lemma loaded_exists doc h : wf_ledger doc -> 0 <= h < MaxInt64 -> exists f, loaded doc h f.
Proof.
  intros Hw Hh. destruct (lg_Shutdown doc) as [sh|] eqn:E; [|eexists; apply loaded_without; [done|done|congruence]].
  destruct (Z.lt_ge_cases h (sh_HighestDurable sh)); [eexists; apply loaded_without; [done|done|intros ? [= <-]%(eq_trans (eq_sym E)); by left]|].
  destruct (Z.lt_ge_cases (sh_HighestDurable sh) (sh_AttemptedThrough sh)); [eexists; apply loaded_without; [done|done|intros ? [= <-]%(eq_trans (eq_sym E)); by right]|].
  eexists. by apply (loaded_with doc h sh).
Qed.

Lemma started_plain src doc h d d' f : loaded doc h f -> ledger_at d' = ledger_at d -> (fn_pending f = None -> lg_Shutdown doc = None) ->
  (src = None -> fn_origins f = []) -> started src doc h d [] (Ok (Ok f, [])) d'.
Proof.
  intros Hl Hd Hp Ho. exists f, f. split; [done|]. split; [apply hides_refl, Hl|]. split; [apply Forall_singleton; by left|].
  intros f' log [= <- <-]. split; [apply wrote_not; by left|]. split; [intros ?; left; auto|]. split; [done|]. intros Hn x (_&o&Hx&_).
  rewrite (Ho Hn) in Hx. destruct Hx as (r&Hr&_). inversion Hr.
Qed.

Lemma applyAndRecord_returns ev src f pol d t r d' : wf_fence f -> fresh ev d -> applyAndRecordLocked ev src f pol d = (t, r, d') -> exists x, r = Ok x.
Proof.
  intros Hf Hfr H. unfold applyAndRecordLocked in H. pose proof (applyLocked_hides f pol Hf) as Hh.
  destruct (applyLocked f pol) as [wd f1]. destruct Hh as [Hh _]. case_bool_decide; [injection H as <- <- <-; by eexists|].
  unfold io_bind in H. destruct (persistLocked ev f1 d) as [[t1 r1] d1] eqn:Ep. apply persist_writes in Ep as (_&?&?&->&_); [|apply Hh|done].
  cbn in H. injection H as <- <- <-. by eexists.
Qed.

Lemma start_from_ok ev src h d doc t res d' : wf_ledger doc -> ledger_at d = Ok doc -> 0 <= h < MaxInt64 -> fresh ev d ->
  start_from ev src h doc d = (t, res, d') -> started src doc h d t res d'.
Proof.
  intros Hwl Hdoc Hh Hfr E. unfold start_from in E. pose proof (loaded_without doc h Hwl Hh) as Hnone.
  destruct (lg_Shutdown doc) as [sh|] eqn:Esh; [|injection E as <- <- <-; apply started_plain; [by apply Hnone|done|done|done]].
  destruct ((h <? sh_HighestDurable sh) || (sh_HighestDurable sh <? sh_AttemptedThrough sh)) eqn:Ed.
  - specialize (Hnone ltac:(intros ? [= <-]; by apply orb_true_iff in Ed as [?%Z.ltb_lt|?%Z.ltb_lt]; [left|right])).
    set (f0 := mkFence [] _ h None false None false) in *. unfold io_bind in E.
    destruct (persistLocked ev f0 d) as [[t2 r2] d2] eqn:Ep. apply persist_writes in Ep as (Ht&e&f'&->&Hw&Hn&Hs); [|apply Hnone|done].
    cbn in E. injection E as <- <- <-. rewrite app_nil_r. exists f0, f0. split; [done|]. split; [apply hides_refl, Hnone|]. split.
    + apply Forall_app. split; [exact Ht|]. apply Forall_singleton. destruct e as [e|]; [by apply Hs|right; by apply Hn].
    + intros f log Hres. destruct e as [e|]; [done|]. injection Hres as <- <-. destruct (Hn eq_refl) as [Hl ->]. split; [by apply wrote_ok|]. split; [by right|]. split; [done|].
      intros _ x (_&o&(r&Hr&_)&_). inversion Hr.
  - apply orb_false_iff in Ed as [Ed1%Z.ltb_ge Ed2%Z.ltb_ge]. pose proof (loaded_with doc h sh Hwl Hh Esh ltac:(lia)) as Hl.
    set (f0 := mkFence (load_origins _ sh) _ _ None false (Some sh) false) in *. destruct src as [s|]; [injection E as <- <- <-; by apply started_plain|].
    unfold io_bind in E. destruct (applyAndRecordLocked ev None f0 (latest None) d) as [[t2 r2] d2] eqn:Ea.
    destruct (applyAndRecord_returns _ _ _ _ _ _ _ _ (ld_wf _ _ _ Hl) Hfr Ea) as [[[e f'] log'] ->].
    apply applyAndRecord_ok in Ea as (f1&Hh1&Hw&Ht&Hall); [|apply Hl|done].
    cbn in E. injection E as <- <- <-. rewrite app_nil_r. exists f0, f1. split; [done|]. split; [done|]. split.
    + apply Forall_app. split; [exact Ht|]. apply Forall_singleton. destruct Hw; [by right|done].
    + intros f log Hres. destruct e as [e|]; [done|]. injection Hres as <- <-. split; [done|]. split; [|split; [done|intros _; by apply Hall]].
      intros Hp. exfalso. assert (Hpf : fn_pending f' = fn_pending f1) by (by destruct Hw). rewrite Hpf, (hd_pending _ _ _ Hh1) in Hp. done.
Qed.

Lemma newConsentFence_ok ev src h d doc t res d' : wf_ledger doc -> ledger_at d = Ok doc -> 0 <= h < MaxInt64 -> fresh ev d ->
  newConsentFence ev src h d = (t, res, d') -> started src doc h d t res d'.
Proof.
  intros Hwl Hdoc Hh Hfr E. unfold newConsentFence in E. unfold io_bind at 1 in E. pose proof (sweep_ok ev d) as Hsw.
  destruct (sweepLedgerTemps ev d) as [[t1 r1] d1]. destruct Hsw as (Ht1&->&Hd1&Hfr1). specialize (Hfr1 Hfr). apply same_ledger_at in Hd1.
  assert (Hold : forall f1, Forall (old_or (fence_ledger f1) d) t1).
  { intros f1. eapply Forall_impl; [exact Ht1|]. intros y [Hy _]. left. by apply same_ledger_at. }
  unfold readLedgerFile, readFile, io_check, io_call, io_bind, io_try in E. destruct (e_flt ev IoRead consentLedgerFilename).
  { cbn in E. injection E as <- <- <-. destruct (loaded_exists doc h Hwl Hh) as [f0 Hl]. exists f0, f0. split; [exact Hl|].
    split; [apply hides_refl, Hl|]. split; [|done]. rewrite <-app_assoc. apply Forall_app. split; [apply Hold|]. apply Forall_cons. split; [by left|]. apply Forall_singleton. by left. }
  cbn [io_ret app] in E. unfold id in E. rewrite <-Hd1 in Hdoc. unfold ledger_at in Hdoc. rewrite Hdoc in E.
  destruct (start_from ev src h doc d1) as [[t2 r2] d2] eqn:Es. injection E as <- <- <-.
  apply start_from_ok in Es as (f0&f1&Hl&Hh1&Ht&Hres); [|done|done|done|done]. exists f0, f1. split; [done|]. split; [done|].
  assert (Hor : forall x, old_or (fence_ledger f1) d1 x -> old_or (fence_ledger f1) d x) by (unfold old_or; rewrite Hd1; done). split.
  - rewrite <-app_assoc. apply Forall_app. split; [apply Hold|]. constructor; [by left|]. eapply Forall_impl; [exact Ht|done].
  - intros f log Hr. destruct (Hres f log Hr) as (Hw&Hp&Hs). split; [|done]. destruct Hw; [by apply wrote_ok|apply wrote_not; auto].
Qed.

Lemma nothing_allowed o : allowedBy o (latest None) = false.
Proof. reflexivity. Qed.

(** C27: a clean shutdown hands its decisions over: a start on the ledger it wrote, over the same spool, has the same mark and knows
    the origin of every frame not sent. With a live policy it withholds the same durable sequences; a passive one, which
    consents to nothing, withholds besides them every frame that was captured and not sent. *)
Theorem shutdown_handover ev f h d t f' d' ev' src t' g log d'' :
  wf_fence f -> 0 <= h < MaxInt64 -> fn_attempted f <= h -> (forall x o, captured (fn_origins f) x o -> x <= h) -> fresh ev d ->
  recordShutdown ev f h d = (t, Ok (None, f'), d') -> fresh ev' d' ->
  newConsentFence ev' src h d' = (t', Ok (Ok g, log), d'') ->
  fn_attempted g = fn_attempted f
  /\ (forall x, member (fn_withheld g) x
       <-> member (fn_withheld f) x /\ x <= h \/ src = None /\ fn_attempted f < x /\ exists o, captured (fn_origins f) x o)
  /\ forall x o, captured (fn_origins g) x o <-> captured (fn_origins f) x o /\ fn_attempted f < x.
Proof.
  intros Hf Hh Hmh Hoh Hfr Hsd Hfr' Hst. pose proof (shutdown_record_ok f h Hf Hh) as [Hgs Hmark [Hhigh Hhigh'] Hruns Hbound].
  apply recordShutdown_ok in Hsd; [|done|done|done]. cbv zeta in Hsd. set (f1 := mkFence _ _ _ _ _ _ true) in *. destruct Hsd as (Hf1&_&_&Hl).
  apply (newConsentFence_ok ev' src h d' (fence_ledger f1)) in Hst as (f0&f2&Hld&Hhide&_&Hok); [|by apply fence_ledger_wf|done|done|done].
  destruct (Hok g log eq_refl) as (Hw&_&Heq&Hall). specialize (Hbound h ltac:(lia) Hmh Hoh).
  assert (Hg : fn_origins g = fn_origins f0 /\ fn_withheld g = fn_withheld f2 /\ fn_attempted g = fn_attempted f0).
  { rewrite <-(hd_origins _ _ _ Hhide), <-(hd_mark _ _ _ Hhide). by destruct Hw. }
  destruct Hg as (->& -> & ->). destruct (ld_record _ _ _ Hld) as [(_&_&_&Hno)|(sh&Hsh&_&Ha&_&Hc)].
  { destruct (Hno _ eq_refl); rewrite ?Hmark in *; lia. }
  injection Hsh as <-. rewrite Hmark in Ha. assert (Hcap : forall x o, captured (fn_origins f0) x o <-> captured (fn_origins f) x o /\ fn_attempted f < x).
  { intros x o. rewrite Hc, Hmark. pose proof (wf_mark _ Hf) as Hm. unfold origin_names, shutdownRecordLocked at 1. cbn [sh_Origins default]. split.
    - intros (lo&(r&->&Hr)%list_elem_of_fmap&Hx&->). cbn [ledger_origin lo_First lo_Last lo_Root lo_Generation] in Hx |- *.
      rewrite i64_id in Hx by (unfold in_i64, MaxInt64 in *; lia). apply list_elem_of_filter in Hr as [Hr Hin]. split; [|lia].
      exists r. split; [done|]. split; [lia|]. by destruct (run_origin r).
    - intros [(r&Hin&Hx&<-) Hax]. assert (Hr : r ∈ unsent_runs f) by (apply list_elem_of_filter; split; [lia|done]). exists (ledger_origin (fn_attempted f) r).
      split; [apply list_elem_of_fmap; by exists r|]. cbn [ledger_origin lo_First lo_Last lo_Root lo_Generation].
      rewrite i64_id by (unfold in_i64, MaxInt64 in *; lia). specialize (Hruns r Hr). split; [lia|]. by destruct (run_origin r). }
  split; [done|]. split; [|exact Hcap]. intros x. pose proof (ld_members _ _ _ Hld x) as Hm. cbn in Hm. split.
  - intros Hx. destruct src as [src|].
    + specialize (Heq ltac:(done)) as ->. left. by apply Hm.
    + apply (hd_new _ _ _ Hhide) in Hx as [Hx|(Hax&o&Hx&_)]; [left; by apply Hm|right]. apply Hcap in Hx as [Hx Hax']. eauto.
  - intros [Hx|(->&Hax&o&Hx)]; [by apply (hd_kept _ _ _ Hhide), Hm|]. apply (Hall eq_refl). split; [lia|]. exists o. split; [by apply Hcap|apply nothing_allowed].
Qed.
