(* ===== verification/FenceRun.v ===== *)
(** * The fence at work: what the collector is ever sent for a sequence

    The consent fence ([internal/observer/daemon/consent_fence.go]) as its callers drive it, as a step
    relation: the watcher's appends between their admission and the recording of their origin, appends of
    other producers, the policy loop, the upload lane of [uploadLoop.drain] with its gate, decisions, sends
    and acknowledgements, the shutdown record, and a daemon that stops, crashes in the middle of any write and
    starts again, with a policy, passively, or without a fence. Each step of the fence is its operation of
    Fence.v, on whatever faults. The frames of the WAL only grow (Startup.v and History.v show that). *)

From S2P Require Import Prelude SpoolTypes Fs.
From S2P Require Import Batch.
From S2P Require Import Ack.
From S2P Require Import Consent.
From S2P Require Import SeqSet.
From S2P Require Import Ledger.
From S2P Require Import Placeholder.
From S2P Require Import Fence.

(** ** State *)

(** A run under a fence. A holder holds the gate shared: an admitted append, with its sequence once it is
    durable. [ru_captured] is a ghost: what the watcher appended and was told about. *)
Record run : Type := mkRunning {
  ru_src : option Source;
  ru_fence : consentFence;
  ru_holders : list (consentOrigin * option Z);
  ru_captured : list (Z * consentOrigin);
  ru_ceiling : Z;
  ru_batch : option (SequenceRange * list Batch.record);
}.

Inductive phase : Type := Stopped | Unfenced | Fenced (r : run).

(** [sy_frames]: the payloads of the WAL, from sequence 1 on; [sy_sent]: what the collector may have received. *)
Record system : Type := mkSystem {
  sy_disk : disk;
  sy_frames : list bytes;
  sy_acked : Z;
  sy_sent : list (Z * bytes);
  sy_phase : phase;
}.

Definition frame_at (frames : list bytes) (s : Z) : bytes := default [] (frames !! Z.to_nat (s - 1)).

(** The durable frames of a range. *)
Definition frames_of (frames : list bytes) (first last : Z) : list Batch.record :=
  map (fun s => Batch.mkRecord s (frame_at frames s)) (seqZ first (last - first + 1)).

Definition sends (recs : list Batch.record) : list (Z * bytes) := map (fun r => (rec_Sequence r, rec_Payload r)) recs.

Definition set_run (y : system) (d : disk) (r : run) : system := mkSystem d (sy_frames y) (sy_acked y) (sy_sent y) (Fenced r).
Definition append_frame (y : system) (p : bytes) (ph : phase) : system := mkSystem (sy_disk y) (sy_frames y ++ [p]) (sy_acked y) (sy_sent y) ph.
Definition next_sequence (y : system) : Z := zlen (sy_frames y) + 1.

Definition lane (r : run) (f : consentFence) (src : option Source) (ceiling : Z) (batch : option (SequenceRange * list Batch.record)) : run :=
  mkRunning src f (ru_holders r) (ru_captured r) ceiling batch.
Definition watch (r : run) (f : consentFence) (holders : list (consentOrigin * option Z)) (captured : list (Z * consentOrigin)) : run :=
  mkRunning (ru_src r) f holders captured (ru_ceiling r) (ru_batch r).

(** [honest]: a failed write of the shutdown record leaves the old ledger when no record is pending. *)
Section steps.
Context (json_text : GoJson.gotype -> bytes -> bytes) (quote : bytes -> bytes) (honest : bool).

(** ** Steps *)

(** Steps of a run that leave the directory alone. *)
Inductive quiet (y : system) (r : run) : system -> Prop :=
| q_admit o : admit_origin (ru_src r) o = Ok tt -> good_origin o ->
    quiet y r (set_run y (sy_disk y) (watch r (ru_fence r) (ru_holders r ++ [(o, None)]) (ru_captured r)))
| q_append h1 o h2 p : ru_holders r = h1 ++ (o, None) :: h2 -> next_sequence y < MaxInt64 ->
    quiet y r (append_frame y p (Fenced (watch r (ru_fence r) (h1 ++ (o, Some (next_sequence y)) :: h2) ((next_sequence y, o) :: ru_captured r))))
| q_release h1 o s h2 : ru_holders r = h1 ++ (o, s) :: h2 ->
    (** the append failed, or it is durable and its acknowledgement was lost *)
    quiet y r (set_run y (sy_disk y) (watch r (ru_fence r) (h1 ++ h2) (filter (fun c => Some c.1 <> s) (ru_captured r))))
| q_append_other p : next_sequence y < MaxInt64 -> quiet y r (append_frame y p (Fenced r))
| q_poll w : quiet y r (set_run y (sy_disk y) (lane r (ru_fence r) (check_source json_text quote w (ru_src r)) (ru_ceiling r) (ru_batch r)))
| q_ceiling : ru_holders r = [] -> quiet y r (set_run y (sy_disk y) (lane r (ru_fence r) (ru_src r) (zlen (sy_frames y)) None))
| q_ack rng recs through : ru_batch r = Some (rng, recs) -> sy_acked y <= through <= LastSequence rng ->
    quiet y r (mkSystem (sy_disk y) (sy_frames y) through (sy_sent y)
                 (Fenced (lane r (acknowledged (ru_fence r) through) (ru_src r) (ru_ceiling r) None)))
| q_ack_lost rng recs through : ru_batch r = Some (rng, recs) -> sy_acked y <= through <= LastSequence rng ->
    (** the acknowledgement is durable but its write reported an error *)
    quiet y r (mkSystem (sy_disk y) (sy_frames y) through (sy_sent y) (Fenced (lane r (ru_fence r) (ru_src r) (ru_ceiling r) None))).

(** Steps that write the ledger: the directories a crash during one can leave, and the system after it. *)
Inductive writing (y : system) (r : run) : list disk -> system -> Prop :=
| w_record h1 o s h2 ev t f log d : ru_holders r = h1 ++ (o, Some s) :: h2 -> fresh ev (sy_disk y) ->
    recordAppend ev (ru_src r) (ru_fence r) s o (sy_disk y) = (t, Ok (f, log), d) ->
    writing y r t (set_run y d (watch r f (h1 ++ h2) (ru_captured r)))
| w_refresh ev w t src e f log d : fresh ev (sy_disk y) ->
    refresh json_text quote ev w (ru_src r) (ru_fence r) (sy_disk y) = (t, Ok (src, (e, f, log)), d) ->
    writing y r t (set_run y d (lane r f src (ru_ceiling r) None))
| w_decide ev first last t res f log d : fresh ev (sy_disk y) -> sy_acked y < first -> first <= last -> last <= ru_ceiling r ->
    decide ev (ru_src r) (ru_fence r) (frames_of (sy_frames y) first last) (sy_disk y) = (t, Ok (res, f, log), d) ->
    writing y r t (set_run y d (lane r f (ru_src r) (ru_ceiling r)
                                  (match res with Ok recs => Some (mkRange first last, recs) | Err _ => None end)))
| w_send ev rng recs t e f d : fresh ev (sy_disk y) -> ru_batch r = Some (rng, recs) ->
    beforeSend ev (ru_fence r) rng (sy_disk y) = (t, Ok (e, f), d) ->
    writing y r t
      (match e with
       | None => mkSystem d (sy_frames y) (sy_acked y) (sy_sent y ++ sends recs) (Fenced (lane r f (ru_src r) (ru_ceiling r) (ru_batch r)))
       | Some _ => set_run y d (lane r f (ru_src r) (ru_ceiling r) None)
       end)
| w_shutdown ev t e f d : fresh ev (sy_disk y) ->
    recordShutdown ev (ru_fence r) (zlen (sy_frames y)) (sy_disk y) = (t, Ok (e, f), d) ->
    (honest = true -> e <> None -> fn_pending (ru_fence r) = None -> ledger_at d = ledger_at (sy_disk y)) ->
    writing y r t (set_run y d (lane r f (ru_src r) (ru_ceiling r) (ru_batch r))).

Inductive step (y : system) : system -> Prop :=
| s_quiet r y' : sy_phase y = Fenced r -> quiet y r y' -> step y y'
| s_write r t y' : sy_phase y = Fenced r -> writing y r t y' -> step y y'
| s_crash r t y' d : sy_phase y = Fenced r -> writing y r t y' -> d ∈ t ++ [sy_disk y'] ->
    step y (mkSystem d (sy_frames y) (sy_acked y) (sy_sent y) Stopped)
| s_stop : step y (mkSystem (sy_disk y) (sy_frames y) (sy_acked y) (sy_sent y) Stopped)
| s_start ev src t f log d : sy_phase y = Stopped -> fresh ev (sy_disk y) ->
    newConsentFence ev src (zlen (sy_frames y)) (sy_disk y) = (t, Ok (Ok f, log), d) ->
    step y (set_run y d (mkRunning src f [] [] 0 None))
| s_start_fails ev src t res d x : sy_phase y = Stopped -> fresh ev (sy_disk y) ->
    newConsentFence ev src (zlen (sy_frames y)) (sy_disk y) = (t, res, d) -> x ∈ t ++ [d] ->
    step y (mkSystem x (sy_frames y) (sy_acked y) (sy_sent y) Stopped)
| s_start_unfenced ev t d : sy_phase y = Stopped -> ledgerExists ev (sy_disk y) = (t, Ok false, d) ->
    step y (mkSystem (sy_disk y) (sy_frames y) (sy_acked y) (sy_sent y) Unfenced)
| s_append p : sy_phase y = Unfenced -> next_sequence y < MaxInt64 -> step y (append_frame y p Unfenced)
| s_send first last : sy_phase y = Unfenced -> sy_acked y < first -> last <= zlen (sy_frames y) ->
    step y (mkSystem (sy_disk y) (sy_frames y) (sy_acked y) (sy_sent y ++ sends (frames_of (sy_frames y) first last)) Unfenced)
| s_ack through : sy_phase y = Unfenced -> sy_acked y <= through <= zlen (sy_frames y) ->
    step y (mkSystem (sy_disk y) (sy_frames y) through (sy_sent y) Unfenced)
| s_disk d : same_ledger (sy_disk y) d -> step y (mkSystem d (sy_frames y) (sy_acked y) (sy_sent y) (sy_phase y)).

(** A machine on which no daemon has run. *)
Definition first_state (d : disk) : system := mkSystem d [] 0 [] Stopped.

Inductive reachable : system -> Prop :=
| r_first d : file DRoot consentLedgerFilename d = None -> reachable (first_state d)
| r_step y y' : reachable y -> step y y' -> reachable y'.
End steps.

(** ** What is sent *)

Definition the_frame (frames : list bytes) (s : Z) : Batch.record := Batch.mkRecord s (frame_at frames s).

(** What was sent above the watermark is what the withheld set says. *)
Definition consistent (frames : list bytes) (acked : Z) (sent : list (Z * bytes)) (withheld : list range) : Prop :=
  forall s p, (s, p) ∈ sent -> acked < s -> shown (member withheld s) (the_frame frames s) (Batch.mkRecord s p).

Definition sent_through (acked : Z) (sent : list (Z * bytes)) (b : Z) : Prop := forall s p, (s, p) ∈ sent -> acked < s -> s <= b.

Definition one_payload (sent : list (Z * bytes)) : Prop := forall s p q, (s, p) ∈ sent -> (s, q) ∈ sent -> p = q.

Section world.
Context (frames : list bytes) (acked : Z) (sent : list (Z * bytes)).

Record sent_inv : Prop := mkSentInv {
  si_acked : 0 <= acked <= zlen frames;
  si_len : zlen frames < MaxInt64;
  si_each : forall s p, (s, p) ∈ sent -> 1 <= s <= zlen frames /\ (p = frame_at frames s \/ withheldPlaceholder (the_frame frames s) = Ok p);
  si_one : one_payload sent;
}.

(** A ledger a start may find. *)
Record good_doc (doc : consentLedger) : Prop := mkGoodDoc {
  gd_wf : wf_ledger doc;
  gd_frames : forall x, member (default [] (lg_Withheld doc)) x -> x <= zlen frames;
  gd_consistent : consistent frames acked sent (default [] (lg_Withheld doc));
  gd_mark : forall sh, lg_Shutdown doc = Some sh -> sent_through acked sent (sh_AttemptedThrough sh);
}.

Record good_fence (f : consentFence) : Prop := mkGoodFence {
  gf_wf : wf_fence f;
  gf_frames : forall x, member (fn_withheld f) x -> x <= zlen frames;
  gf_origins : forall x o, captured (fn_origins f) x o -> x <= zlen frames;
  gf_consistent : consistent frames acked sent (fn_withheld f);
  gf_mark : sent_through acked sent (fn_attempted f) /\ fn_attempted f <= zlen frames;
  gf_pending : forall sh, fn_pending f = Some sh -> sent_through acked sent (sh_AttemptedThrough sh);
  gf_recorded : fn_recorded f = true -> fn_pending f <> None;
}.

(** What memory knows of the ledger on disk. *)
Record joint (doc : consentLedger) (f : consentFence) : Prop := mkJoint {
  jt_clean : fn_dirty f = false -> forall x, acked < x -> member (fn_withheld f) x <-> member (default [] (lg_Withheld doc)) x;
  jt_pending : fn_pending f = None -> lg_Shutdown doc = None;
}.

(** A change of memory that keeps the record, and shows when it withholds more. *)
Record extends (f f1 : consentFence) : Prop := mkExtends {
  ex_pending : fn_pending f1 = fn_pending f;
  ex_dirty : fn_dirty f1 = false -> fn_dirty f = false /\ forall x, member (fn_withheld f1) x <-> member (fn_withheld f) x;
}.

Lemma good_persisted f : good_fence f -> good_doc (fence_ledger f).
Proof. intros [Hw Hf _ Hc _ Hp _]. split; [by apply fence_ledger_wf|done|done|done]. Qed.

Lemma good_clean f b : good_fence f -> good_fence (set_dirty f b).
Proof. intros [[? ? ? ? ?] ? ? ? ? ? ?]. by split; [split|..]. Qed.

Lemma joint_persisted f f' : fn_withheld f' = fn_withheld f -> fn_pending f' = fn_pending f -> joint (fence_ledger f) f'.
Proof. intros Hw Hp. split; [intros _ x _; by rewrite Hw|intros H; cbn; by rewrite <-Hp]. Qed.

Lemma hides_extends pol f f1 : hides pol f f1 -> extends f f1.
Proof. intros H. split; [apply H|]. intros Hd. destruct (hd_dirty _ _ _ H Hd) as [? Hm]. split; [done|]. intros x. split; [auto|apply H]. Qed.

Lemma good_hides pol f f1 : good_fence f -> hides pol f f1 -> good_fence f1.
Proof.
  intros [Hw Hf Ho Hc [Hm Hm'] Hp Hr] H. split.
  - apply H.
  - intros x [Hx|(_&o&Hx&_)]%(hd_new _ _ _ H); [auto|by eapply Ho].
  - rewrite (hd_origins _ _ _ H). apply Ho.
  - intros s p Hs Ha. eapply shown_iff; [|by apply Hc]. split; [|apply H]. intros [Hx|[Hx _]]%(hd_new _ _ _ H); [done|].
    specialize (Hm s p Hs Ha). lia.
  - rewrite (hd_mark _ _ _ H). done.
  - rewrite (hd_pending _ _ _ H). apply Hp.
  - rewrite (hd_pending _ _ _ H), (hd_recorded _ _ _ H). apply Hr.
Qed.

(** Whatever a write leaves is a good ledger. *)
Lemma good_old_or doc f d x : good_doc doc -> ledger_at d = Ok doc -> good_fence f -> old_or (fence_ledger f) d x ->
  exists doc', ledger_at x = Ok doc' /\ good_doc doc'.
Proof. intros Hd Hdoc Hf [->| ->]; [by exists doc|]. exists (fence_ledger f). split; [done|by apply good_persisted]. Qed.

Lemma wrote_good f d f' d' : wrote f d f' d' -> good_fence f -> good_fence f'.
Proof. intros [|] Hf; [by apply good_clean|done]. Qed.

(** After a write, memory and disk agree as before. *)
Lemma joint_wrote doc f f1 d f' d' : good_doc doc -> ledger_at d = Ok doc -> good_fence f1 -> extends f f1 -> joint doc f -> wrote f1 d f' d' ->
  exists doc', ledger_at d' = Ok doc' /\ good_doc doc' /\ joint doc' f'.
Proof.
  intros Hd Hdoc Hf1 He [Hc Hp] [d2 Hl|d2 [Hl|Hl]].
  - exists (fence_ledger f1). split; [done|]. split; [by apply good_persisted|by apply joint_persisted].
  - exists doc. split; [congruence|]. split; [done|]. split.
    + intros Hdf x Hx. destruct (ex_dirty _ _ He Hdf) as [Hdf' Hm]. rewrite Hm. auto.
    + rewrite (ex_pending _ _ He). done.
  - exists (fence_ledger f1). split; [done|]. split; [by apply good_persisted|by apply joint_persisted].
Qed.

Lemma shown_one P rec r r' : shown P rec r -> shown P rec r' -> r = r'.
Proof.
  intros (Es&[[H Ep]|[Hn Er]]) (Es'&[[H' Ep']|[Hn' Er']]); try done; [|by subst].
  destruct r, r'. cbn in *. simplify_eq. congruence.
Qed.
End world.

(** ** Growth of the log and of the watermark *)

Lemma frame_at_app frames p s : 1 <= s <= zlen frames -> frame_at (frames ++ [p]) s = frame_at frames s.
Proof. intros Hs. unfold frame_at, zlen in *. by rewrite lookup_app_l by lia. Qed.

Lemma the_frame_app frames p s : 1 <= s <= zlen frames -> the_frame (frames ++ [p]) s = the_frame frames s.
Proof. intros Hs. unfold the_frame. by rewrite frame_at_app. Qed.

Lemma zlen_app1 {A} (l : list A) x : zlen (l ++ [x]) = zlen l + 1.
Proof. unfold zlen. rewrite length_app. cbn. lia. Qed.

Section growth.
Context (frames : list bytes) (acked : Z) (sent : list (Z * bytes)).
Hypothesis Hsent : sent_inv frames acked sent.

Lemma consistent_app p W : consistent frames acked sent W -> consistent (frames ++ [p]) acked sent W.
Proof. intros H s q Hs Ha. rewrite the_frame_app by (by eapply si_each). by apply H. Qed.

Lemma sent_inv_app p : zlen frames + 1 < MaxInt64 -> sent_inv (frames ++ [p]) acked sent.
Proof.
  intros Hl. destruct Hsent as [Ha _ He Ho]. split; [rewrite zlen_app1; lia|by rewrite zlen_app1| |done].
  intros s q Hs. destruct (He s q Hs) as [Hr Hq]. rewrite frame_at_app, the_frame_app, zlen_app1 by done. split; [lia|done].
Qed.

Lemma good_doc_app p doc : good_doc frames acked sent doc -> good_doc (frames ++ [p]) acked sent doc.
Proof.
  intros [Hw Hf Hc Hm]. split; [done| |by apply consistent_app|done]. intros x Hx. rewrite zlen_app1. specialize (Hf x Hx). lia.
Qed.

Lemma good_fence_app p f : good_fence frames acked sent f -> good_fence (frames ++ [p]) acked sent f.
Proof.
  intros [Hw Hf Ho Hc [Hm Hm'] Hp Hr]. split; try done; try (by apply consistent_app).
  - intros x Hx. rewrite zlen_app1. specialize (Hf x Hx). lia.
  - intros x o Hx. rewrite zlen_app1. specialize (Ho x o Hx). lia.
  - rewrite zlen_app1. split; [done|lia].
Qed.

Context (through : Z) (Hthrough : acked <= through <= zlen frames).

Lemma sent_inv_ack : sent_inv frames through sent.
Proof. destruct Hsent as [Ha Hl He Ho]. split; [lia|done|done|done]. Qed.

Lemma good_doc_ack doc : good_doc frames acked sent doc -> good_doc frames through sent doc.
Proof. intros [Hw Hf Hc Hm]. split; [done|done| |]; [intros s p Hs Ht; apply Hc|intros sh Hsh s p Hs Ht; apply (Hm sh Hsh s p)]; done || lia. Qed.

Lemma good_fence_ack f : good_fence frames acked sent f -> good_fence frames through sent f.
Proof.
  intros [Hw Hf Ho Hc [Hm Hm'] Hp Hr]. split; try done.
  - intros s p Hs Ht. apply Hc; [done|lia].
  - split; [|done]. intros s p Hs Ht. apply (Hm s p); [done|lia].
  - intros sh Hsh s p Hs Ht. apply (Hp sh Hsh s p); [done|lia].
Qed.

Lemma joint_ack doc f : joint acked doc f -> joint through doc f.
Proof. intros [Hc Hp]. split; [|done]. intros Hd x Hx. apply Hc; [done|lia]. Qed.

Lemma good_fence_acknowledged f : good_fence frames acked sent f -> good_fence frames through sent (acknowledged f through).
Proof.
  intros Hf. pose proof (si_acked _ _ _ Hsent) as Hz. pose proof (si_len _ _ _ Hsent) as Hl.
  destruct (acknowledged_ok f through (gf_wf _ _ _ _ Hf) ltac:(lia)) as (Hw&Hm&Ho). apply good_fence_ack in Hf. destruct Hf as [_ Hf Hor Hc Hmk Hp Hr].
  split; try done.
  - intros x [Hx _]%Hm. auto.
  - intros x o [Hx _]%Ho. by eapply Hor.
  - intros s p Hs Ht. eapply shown_iff; [|by apply Hc]. rewrite Hm. tauto.
Qed.

Lemma joint_acknowledged doc f : 0 <= through < MaxInt64 -> wf_fence f -> joint through doc f -> joint through doc (acknowledged f through).
Proof.
  intros Ht Hw [Hc Hp]. destruct (acknowledged_ok f through Hw Ht) as (_&Hm&_). split; [|done].
  intros Hd x Hx. rewrite Hm, <-Hc by done. tauto.
Qed.
End growth.

(** ** The invariant *)

Definition held (r : run) : list Z := omap snd (ru_holders r).

Record run_inv (frames : list bytes) (acked : Z) (r : run) : Prop := mkRunInv {
  ri_origins : forall o s, (o, s) ∈ ru_holders r -> good_origin o;
  ri_held : forall q, q ∈ held r -> ru_ceiling r < q <= zlen frames /\ 1 <= q /\ forall o, ~ captured (fn_origins (ru_fence r)) q o;
  ri_once : NoDup (held r);
  ri_captured : forall s o, (s, o) ∈ ru_captured r -> 1 <= s <= zlen frames
    /\ ((o, Some s) ∈ ru_holders r \/ s <= acked \/ captured (fn_origins (ru_fence r)) s o);
  ri_ceiling : 0 <= ru_ceiling r <= zlen frames;
  ri_batch : forall rng recs, ru_batch r = Some (rng, recs) -> LastSequence rng <= ru_ceiling r
    /\ Forall (fun rec => acked < rec_Sequence rec <= LastSequence rng /\ 1 <= rec_Sequence rec
                 /\ shown (member (fn_withheld (ru_fence r)) (rec_Sequence rec)) (the_frame frames (rec_Sequence rec)) rec) recs;
}.

Definition phase_inv (frames : list bytes) (acked : Z) (sent : list (Z * bytes)) (d : disk) (doc : consentLedger) (ph : phase) : Prop :=
  match ph with
  | Stopped => True
  | Unfenced => entries DRoot d !! consentLedgerFilename = None
  | Fenced r => good_fence frames acked sent (ru_fence r) /\ joint acked doc (ru_fence r) /\ run_inv frames acked r
  end.

Definition world_inv (d : disk) (frames : list bytes) (acked : Z) (sent : list (Z * bytes)) (ph : phase) : Prop :=
  sent_inv frames acked sent
  /\ exists doc, ledger_at d = Ok doc /\ good_doc frames acked sent doc /\ phase_inv frames acked sent d doc ph.

Definition inv (y : system) : Prop := world_inv (sy_disk y) (sy_frames y) (sy_acked y) (sy_sent y) (sy_phase y).

Lemma no_ledger d : entries DRoot d !! consentLedgerFilename = None -> ledger_at d = Ok (mkLedger consentLedgerVersion None None 0).
Proof. intros H. unfold ledger_at, file. by rewrite H. Qed.

Lemma empty_good frames acked sent : consistent frames acked sent [] -> good_doc frames acked sent (mkLedger consentLedgerVersion None None 0).
Proof. intros Hc. split; [split; done|intros x Hx; by apply member_nil in Hx|done|done]. Qed.

Lemma same_seq_held r h1 o s h2 : ru_holders r = h1 ++ (o, s) :: h2 -> held r ≡ₚ match s with Some q => q :: omap snd (h1 ++ h2) | None => omap snd (h1 ++ h2) end.
Proof.
  intros E. unfold held. rewrite E, !omap_app. destruct s as [q|]; [|done]. change (omap snd ((o, Some q) :: h2)) with (q :: omap (B := Z) snd h2).
  by rewrite Permutation_middle.
Qed.

(** ** Quiet steps *)

Lemma run_inv_poll frames acked r src : run_inv frames acked r -> run_inv frames acked (lane r (ru_fence r) src (ru_ceiling r) (ru_batch r)).
Proof. by intros []. Qed.

Lemma elem_held_intro (l : list (consentOrigin * option Z)) o q : (o, Some q) ∈ l -> q ∈ omap (B := Z) snd l.
Proof. intros H. apply list_elem_of_omap. by exists (o, Some q). Qed.

Lemma run_inv_admit frames acked r o : run_inv frames acked r -> good_origin o ->
  run_inv frames acked (watch r (ru_fence r) (ru_holders r ++ [(o, None)]) (ru_captured r)).
Proof.
  intros [Ho Hh Hn Hc Hce Hb] Hg. assert (E : held (watch r (ru_fence r) (ru_holders r ++ [(o, None)]) (ru_captured r)) = held r).
  { unfold held. cbn [watch ru_holders]. rewrite omap_app. cbn. by rewrite app_nil_r. }
  split; try done; try (by rewrite E).
  - intros o' s [Hin|Hin]%elem_of_app; [by eapply Ho|]. apply list_elem_of_singleton in Hin as [= -> ->]. done.
  - intros s o' Hin. destruct (Hc s o' Hin) as [Hr [?|?]]; (split; [done|]); [left|by right]. cbn. apply elem_of_app. by left.
Qed.

Lemma run_inv_append frames acked r h1 o h2 p : run_inv frames acked r -> ru_holders r = h1 ++ (o, None) :: h2 ->
  (forall x o, captured (fn_origins (ru_fence r)) x o -> x <= zlen frames) ->
  run_inv (frames ++ [p]) acked (watch r (ru_fence r) (h1 ++ (o, Some (zlen frames + 1)) :: h2) ((zlen frames + 1, o) :: ru_captured r)).
Proof.
  intros [Ho Hh Hn Hc Hce Hb] E Hor. pose proof (same_seq_held _ _ _ _ _ E) as Hp. cbn beta iota in Hp.
  set (r' := watch r _ _ _). assert (E' : held r' ≡ₚ (zlen frames + 1) :: held r).
  { rewrite (same_seq_held r' h1 o (Some (zlen frames + 1)) h2) by done. by rewrite Hp. }
  assert (Hlen : 0 <= zlen frames) by (unfold zlen; lia). split.
  - intros o' s Hin. cbn in Hin. apply elem_of_app in Hin as [Hin|[[= -> ->]|Hin]%elem_of_cons].
    + apply (Ho o' s). rewrite E. apply elem_of_app. by left.
    + apply (Ho o None). rewrite E. apply elem_of_app. right. by left.
    + apply (Ho o' s). rewrite E. apply elem_of_app. right. by right.
  - intros q Hq. rewrite E' in Hq. rewrite zlen_app1. cbn [r' watch ru_ceiling ru_fence]. apply elem_of_cons in Hq as [->|Hq].
    + split; [lia|]. split; [lia|]. intros o' Hx%Hor. lia.
    + destruct (Hh q Hq) as (?&?&?). split; [lia|done].
  - rewrite E'. apply NoDup_cons. split; [|done]. intros Hin. destruct (Hh _ Hin). lia.
  - intros s o' Hin. rewrite zlen_app1. cbn [r' watch ru_captured ru_holders ru_fence] in *. apply elem_of_cons in Hin as [[= -> ->]|Hin].
    + split; [lia|]. left. apply elem_of_app. right. by left.
    + destruct (Hc s o' Hin) as [Hr [Hl|Hl]]; (split; [lia|]); [left|by right]. rewrite E in Hl. apply elem_of_app in Hl as [Hl|[[=]|Hl]%elem_of_cons].
      * apply elem_of_app. by left.
      * apply elem_of_app. right. by right.
  - rewrite zlen_app1. cbn. lia.
  - intros rng recs Hbat. destruct (Hb rng recs Hbat) as [Hl Hf]. split; [done|]. eapply Forall_impl; [exact Hf|]. cbn beta. intros rec (Hr&H1&Hs).
    split; [done|]. split; [done|]. rewrite the_frame_app by lia. done.
Qed.

Lemma run_inv_app frames acked r p : run_inv frames acked r -> run_inv (frames ++ [p]) acked r.
Proof.
  intros [Ho Hh Hn Hc Hce Hb]. split; try done.
  - intros q Hq. rewrite zlen_app1. destruct (Hh q Hq) as (?&?&?). split; [lia|done].
  - intros s o Hin. rewrite zlen_app1. destruct (Hc s o Hin). split; [lia|done].
  - rewrite zlen_app1. cbn. lia.
  - intros rng recs Hbat. destruct (Hb rng recs Hbat) as [Hl Hf]. split; [done|]. eapply Forall_impl; [exact Hf|]. cbv beta.
    intros rec (Hr&H1&Hs). split; [done|]. split; [done|]. rewrite the_frame_app by lia. done.
Qed.

Lemma run_inv_release frames acked r h1 o s h2 : run_inv frames acked r -> ru_holders r = h1 ++ (o, s) :: h2 ->
  run_inv frames acked (watch r (ru_fence r) (h1 ++ h2) (filter (fun c => Some c.1 <> s) (ru_captured r))).
Proof.
  intros [Ho Hh Hn Hc Hce Hb] E. set (r' := watch r _ _ _). pose proof (same_seq_held _ _ _ _ _ E) as Hp.
  assert (Hsub : forall q, q ∈ held r' -> q ∈ held r) by (intros q Hq; rewrite Hp; destruct s; [by right|done]).
  split; try done.
  - intros o' q Hin. apply (Ho o' q). rewrite E. cbn in Hin. apply elem_of_app in Hin as [?|?]; apply elem_of_app; [by left|right; by right].
  - intros q Hq. apply Hh. by apply Hsub.
  - rewrite Hp in Hn. destruct s; [by apply NoDup_cons in Hn as [_ Hn]|done].
  - intros x o' Hin. cbn [r' watch ru_captured ru_holders ru_fence] in *. apply list_elem_of_filter in Hin as [Hx Hin]. cbn [fst] in Hx.
    destruct (Hc x o' Hin) as [Hr [Hl|Hl]]; (split; [done|]); [left|by right]. rewrite E in Hl.
    apply elem_of_app in Hl as [Hl|[[= -> <-]|Hl]%elem_of_cons]; [apply elem_of_app; by left|done|apply elem_of_app; by right].
Qed.

Lemma run_inv_ceiling frames acked r : run_inv frames acked r -> ru_holders r = [] -> run_inv frames acked (lane r (ru_fence r) (ru_src r) (zlen frames) None).
Proof.
  intros [Ho Hh Hn Hc Hce Hb] E. split; try done.
  - unfold held. cbn [lane ru_holders]. rewrite E. intros q Hq. inversion Hq.
  - cbn. lia.
Qed.

Lemma run_inv_forget frames acked through r f : run_inv frames acked r -> acked <= through ->
  (forall x o, through < x -> captured (fn_origins f) x o <-> captured (fn_origins (ru_fence r)) x o) ->
  (forall x o, captured (fn_origins f) x o -> captured (fn_origins (ru_fence r)) x o) ->
  run_inv frames through (lane r f (ru_src r) (ru_ceiling r) None).
Proof.
  intros [Ho Hh Hn Hc Hce Hb] Ht Hi Hsub. split; try done.
  - intros q Hq. destruct (Hh q Hq) as (?&?&Hno). split; [done|]. split; [done|]. intros o Hx. by apply (Hno o), Hsub.
  - intros s o Hin. destruct (Hc s o Hin) as [Hr [Hl|[Hl|Hl]]]; (split; [done|]); [by left|right; left; lia|].
    destruct (base.decide (s <= through)); [by right; left|]. right. right. apply Hi; [lia|done].
Qed.

Lemma quiet_inv json_text quote y r y' : inv y -> sy_phase y = Fenced r -> quiet json_text quote y r y' -> inv y'.
Proof.
  destruct y as [d frames acked sent ph]. intros (Hs&doc&Hd&Hg&Hph) E. cbn [sy_disk sy_frames sy_acked sy_sent sy_phase] in *. subst ph.
  destruct Hph as (Hf&Hj&Hr). pose proof (si_acked _ _ _ Hs) as Hz. pose proof (si_len _ _ _ Hs) as Hlen.
  assert (Hkeep : forall r', ru_fence r' = ru_fence r -> run_inv frames acked r' -> world_inv d frames acked sent (Fenced r')).
  { intros r' Ef Hr'. split; [done|]. exists doc. cbn [phase_inv]. rewrite Ef. done. }
  assert (Hack : forall rng recs through f, ru_batch r = Some (rng, recs) -> acked <= through <= LastSequence rng ->
    (acked <= through <= zlen frames -> good_fence frames through sent f /\ joint through doc f
       /\ (forall x o, through < x -> captured (fn_origins f) x o <-> captured (fn_origins (ru_fence r)) x o)
       /\ (forall x o, captured (fn_origins f) x o -> captured (fn_origins (ru_fence r)) x o)) ->
    world_inv d frames through sent (Fenced (lane r f (ru_src r) (ru_ceiling r) None))).
  { intros rng recs through f Hb Ht Hf'. assert (Ht' : acked <= through <= zlen frames).
    { destruct (ri_batch _ _ _ Hr rng recs Hb) as [? _]. pose proof (ri_ceiling _ _ _ Hr). lia. }
    destruct (Hf' Ht') as (Hgf&Hjf&Hi&Hsub). split; [by eapply sent_inv_ack|]. exists doc. split; [done|].
    split; [by eapply good_doc_ack|]. split; [done|]. split; [done|]. eapply run_inv_forget; [done|lia|done|done]. }
  intros [o Ha Hgo|h1 o h2 p Eh Hl|h1 o s h2 Eh|p Hl|w|Eh|rng recs through Hb Ht|rng recs through Hb Ht]; cbn [sy_disk sy_frames sy_acked sy_sent] in *.
  - apply Hkeep; [done|]. by apply run_inv_admit.
  - unfold next_sequence in *. cbn [sy_frames] in *. split; [by apply sent_inv_app|]. exists doc. split; [done|]. split; [by apply good_doc_app|].
    split; [by apply good_fence_app|]. split; [done|]. apply run_inv_append; [done|done|apply Hf].
  - apply Hkeep; [done|]. by eapply run_inv_release.
  - unfold next_sequence in *. cbn [sy_frames] in *. split; [by apply sent_inv_app|]. exists doc. split; [done|]. split; [by apply good_doc_app|].
    split; [by apply good_fence_app|]. split; [done|]. by apply run_inv_app.
  - apply Hkeep; [done|]. by apply run_inv_poll.
  - apply Hkeep; [done|]. by apply run_inv_ceiling.
  - eapply Hack; [done|done|]. cbn [sy_acked]. intros Ht'. destruct (acknowledged_ok (ru_fence r) through (gf_wf _ _ _ _ Hf) ltac:(lia)) as (_&_&Hc).
    split; [by eapply good_fence_acknowledged|]. split; [|split; [intros x o Hx; rewrite Hc; tauto|by intros x o [? _]%Hc]].
    apply (joint_acknowledged frames acked); [done|lia|apply Hf|]. by eapply joint_ack.
  - eapply Hack; [done|done|]. cbn [sy_acked]. intros Ht'. split; [by eapply good_fence_ack|]. split; [by eapply joint_ack|]. done.
Qed.

(** ** Writing steps *)

(** A step that may crash: what it comes to, and every directory a crash during it can leave. *)
Definition safe (frames : list bytes) (acked : Z) (sent : list (Z * bytes)) (t : list disk) (d' : disk) (y' : system) : Prop :=
  inv y' /\ Forall (fun x => exists doc, ledger_at x = Ok doc /\ good_doc frames acked sent doc) (t ++ [d']).

Lemma safe_writes frames acked sent doc f1 d t d' y' : good_doc frames acked sent doc -> ledger_at d = Ok doc -> good_fence frames acked sent f1 ->
  writes f1 d t -> old_or (fence_ledger f1) d d' -> inv y' -> safe frames acked sent t d' y'.
Proof.
  intros Hg Hd Hf Ht Hd' Hi. split; [done|]. apply Forall_app. split; [|apply Forall_singleton]; [|by eapply good_old_or].
  eapply Forall_impl; [exact Ht|]. intros x Hx. by eapply good_old_or.
Qed.

Lemma wrote_old_or f d f' d' : wrote f d f' d' -> old_or (fence_ledger f) d d'.
Proof. intros [? H|? H]; [by right|done]. Qed.

Section writing.
Context (d : disk) (frames : list bytes) (acked : Z) (sent : list (Z * bytes)) (r : run) (doc : consentLedger).
Hypothesis Hs : sent_inv frames acked sent.
Hypothesis Hd : ledger_at d = Ok doc.
Hypothesis Hg : good_doc frames acked sent doc.
Hypothesis Hf : good_fence frames acked sent (ru_fence r).
Hypothesis Hj : joint acked doc (ru_fence r).
Hypothesis Hr : run_inv frames acked r.

(** An operation that changes memory to [f1] and may write it out. *)
Lemma safe_operation f1 f' d' t r' : good_fence frames acked sent f1 -> extends (ru_fence r) f1 -> wrote f1 d f' d' -> writes f1 d t ->
  ru_fence r' = f' -> run_inv frames acked r' -> safe frames acked sent t d' (mkSystem d' frames acked sent (Fenced r')).
Proof.
  intros Hf1 He Hw Ht Er Hr'. eapply safe_writes; [done|done|done|done|by eapply wrote_old_or|]. split; [done|].
  destruct (joint_wrote _ _ _ _ _ _ _ _ _ Hg Hd Hf1 He Hj Hw) as (doc'&Hd'&Hg'&Hj'). exists doc'. split; [done|]. split; [done|].
  cbn [phase_inv sy_phase]. rewrite Er. split; [by eapply wrote_good|]. done.
Qed.

Lemma not_touched_one s q : wf_runs s -> (forall o : consentOrigin, ~ captured s q o) -> ~ touches s q q.
Proof. intros Hw Hn (run&Hrun&H1&H2). apply (Hn (run_origin run)). by exists run. Qed.

Lemma wrote_fields f1 f' d' : wrote f1 d f' d' -> fn_origins f' = fn_origins f1 /\ fn_withheld f' = fn_withheld f1 /\ fn_attempted f' = fn_attempted f1.
Proof. by intros []. Qed.

Lemma safe_record ev h1 o s h2 t f log d' : ru_holders r = h1 ++ (o, Some s) :: h2 -> fresh ev d ->
  recordAppend ev (ru_src r) (ru_fence r) s o d = (t, Ok (f, log), d') ->
  safe frames acked sent t d' (mkSystem d' frames acked sent (Fenced (watch r f (h1 ++ h2) (ru_captured r)))).
Proof.
  intros E Hfr H. assert (Hin : (o, Some s) ∈ ru_holders r) by (rewrite E; apply elem_of_app; right; by left).
  pose proof (ri_origins _ _ _ Hr o (Some s) Hin) as Hgo. destruct (ri_held _ _ _ Hr s (elem_held_intro _ _ _ Hin)) as (Hc&H1&Hno).
  pose proof (si_len _ _ _ Hs) as Hlen. apply recordAppend_ok in H as (f1&Hw1&Hwr&Ht&Eo&Em&Ep&Erec&Hmem&Hdirty); [|apply Hf|done|lia|done].
  destruct (with_origin_ok (ru_fence r) s o (gf_wf _ _ _ _ Hf) Hgo ltac:(lia)) as [_ Hcap]. rewrite <-Eo in Hcap.
  destruct Hf as [Hwf Hfr' Hor Hcon [Hm Hm'] Hp Hrec]. assert (Hf1 : good_fence frames acked sent f1).
  { split; rewrite ?Em, ?Ep, ?Erec; try done.
    - intros x [?|(->&_)]%Hmem; [auto|lia].
    - intros x o' [Hx|(->&_)]%Hcap; [by eapply Hor|lia].
    - intros x p Hx Ha. eapply shown_iff; [|by apply Hcon]. rewrite Hmem. split; [|by left]. intros [?|(->&?&_)]; [done|].
      specialize (Hm s p Hx Ha). lia. }
  destruct (wrote_fields _ _ _ Hwr) as (Eo'&Ew'&_).
  eapply safe_operation; [exact Hf1| |exact Hwr|exact Ht|done|].
  { split; [done|]. intros Hdf. destruct (Hdirty Hdf) as [? Hsub]. split; [done|]. intros x. split; [auto|]. intros ?. apply Hmem. by left. }
  set (r' := watch r f _ _). pose proof (same_seq_held _ _ _ _ _ E) as Hperm. cbn beta iota in Hperm.
  pose proof (ri_once _ _ _ Hr) as Hnd. rewrite Hperm in Hnd. apply NoDup_cons in Hnd as [Hnot Hnd].
  split; cbn [r' watch ru_holders ru_fence ru_captured ru_ceiling ru_batch]; [| |done| |apply Hr|].
  - intros o' q Hq. apply (ri_origins _ _ _ Hr o' q). rewrite E. apply elem_of_app in Hq as [?|?]; apply elem_of_app; [by left|right; by right].
  - intros q Hq. assert (Hq' : q ∈ held r) by (rewrite Hperm; by right). destruct (ri_held _ _ _ Hr q Hq') as (?&?&Hn). split; [done|]. split; [done|].
    intros o' Hx. rewrite Eo' in Hx. apply Hcap in Hx as [Hx|(->&_)]; [by eapply Hn|done].
  - intros x o' Hx. destruct (ri_captured _ _ _ Hr x o' Hx) as [Hrg [Hl|[Hl|Hl]]]; (split; [done|]); [|by right; left|].
    + rewrite E in Hl. apply elem_of_app in Hl as [Hl|[[= -> ->]|Hl]%elem_of_cons]; [left; apply elem_of_app; by left| |left; apply elem_of_app; by right].
      right. right. rewrite Eo'. apply Hcap. right. split; [done|]. split; [done|]. apply not_touched_one; [apply Hwf|done].
    + right. right. rewrite Eo'. apply Hcap. by left.
  - intros rng recs Hb. destruct (ri_batch _ _ _ Hr rng recs Hb) as [Hl Hall]. split; [done|]. eapply Forall_impl; [exact Hall|]. cbv beta.
    intros rec (Hrg&Hr1&Hsh). split; [done|]. split; [done|]. eapply shown_iff; [|exact Hsh]. rewrite Ew', Hmem. split; [|by left].
    intros [?|(Eq&_)]; [done|lia].
Qed.

(** A run whose memory still has the captured origins, with no batch. *)
Lemma run_inv_lane f src : fn_origins f = fn_origins (ru_fence r) -> run_inv frames acked (lane r f src (ru_ceiling r) None).
Proof. intros E. destruct Hr as [Ho Hh Hn Hc Hce Hb]. split; cbn [lane ru_fence]; rewrite ?E; done. Qed.

Lemma safe_refresh json_text quote ev w t src e f log d' : fresh ev d ->
  refresh json_text quote ev w (ru_src r) (ru_fence r) d = (t, Ok (src, (e, f, log)), d') ->
  safe frames acked sent t d' (mkSystem d' frames acked sent (Fenced (lane r f src (ru_ceiling r) None))).
Proof.
  intros Hfr H. unfold refresh in H. apply io_bind_inv in H as (t1&[[e1 f1] log1]&d1&t2&Ha&[= <- <- <- <- <- <-]&->). rewrite app_nil_r.
  apply applyAndRecord_ok in Ha as (f2&Hh&Hw&Ht&_); [|apply Hf|done]. destruct (wrote_fields _ _ _ Hw) as (Eo&_).
  eapply safe_operation; [by eapply good_hides|by eapply hides_extends|done|done|done|]. apply run_inv_lane. by rewrite Eo, (hd_origins _ _ _ Hh).
Qed.

Lemma frames_of_spec first last rec : rec ∈ frames_of frames first last <-> first <= rec_Sequence rec <= last /\ rec = the_frame frames (rec_Sequence rec).
Proof.
  unfold frames_of. rewrite list_elem_of_fmap. split.
  - intros (s&->&Hin%elem_of_seqZ). cbn. split; [lia|done].
  - intros [Hin ->]. exists (rec_Sequence rec). split; [done|]. apply elem_of_seqZ. lia.
Qed.

Lemma joint_extends (doc' : consentLedger) f f1 : joint acked doc' f -> extends f f1 -> joint acked doc' f1.
Proof.
  intros [Hc Hp] [He Hm]. split; [|by rewrite He]. intros Hdf x Hx. destruct (Hm Hdf) as [? Hw]. rewrite Hw. auto.
Qed.

Lemma safe_decide ev first last t res f log d' : fresh ev d -> acked < first -> first <= last -> last <= ru_ceiling r ->
  decide ev (ru_src r) (ru_fence r) (frames_of frames first last) d = (t, Ok (res, f, log), d') ->
  safe frames acked sent t d' (mkSystem d' frames acked sent (Fenced (lane r f (ru_src r) (ru_ceiling r)
    (match res with Ok recs => Some (mkRange first last, recs) | Err _ => None end)))).
Proof.
  intros Hfr Ha Hle Hc H. pose proof (si_acked _ _ _ Hs) as Hz. pose proof (si_len _ _ _ Hs) as Hlen. pose proof (ri_ceiling _ _ _ Hr) as Hce.
  apply decide_ok in H as (f1&f2&Hh1&Hw&Hh2&Ht&Hres); [|apply Hf|done|].
  2: { apply Forall_forall. intros rec [Hin _]%frames_of_spec. lia. }
  pose proof (good_hides _ _ _ _ _ _ Hf Hh1) as Hf1. eapply safe_writes; [done|done|exact Hf1|exact Ht|by eapply wrote_old_or|].
  unfold inv. cbn [sy_disk sy_frames sy_acked sy_sent sy_phase]. split; [done|].
  destruct (joint_wrote _ _ _ _ _ _ _ _ _ Hg Hd Hf1 (hides_extends _ _ _ Hh1) Hj Hw) as (doc'&Hd'&Hg'&Hj'). exists doc'. split; [done|]. split; [done|].
  cbn [phase_inv sy_phase lane ru_fence]. assert (Hf2 : good_fence frames acked sent f2) by (by eapply wrote_good).
  split; [by eapply good_hides|]. split; [eapply joint_extends; [done|by eapply hides_extends]|].
  destruct (wrote_fields _ _ _ Hw) as (Eo&_). destruct (run_inv_lane f (ru_src r)) as [Ho Hh Hn Hcap Hceil _].
  { by rewrite (hd_origins _ _ _ Hh2), Eo, (hd_origins _ _ _ Hh1). }
  split; try done. cbn [lane ru_batch ru_fence ru_ceiling]. intros rng recs Hb. destruct res as [rs|]; [|done]. injection Hb as <- <-. split; [done|].
  apply Forall_forall. intros rec' Hin. apply list_elem_of_lookup in Hin as [i Hi].
  destruct (Forall2_lookup_r _ _ _ _ _ Hres Hi) as (rec&Hrec&Hsh&_). apply list_elem_of_lookup_2 in Hrec. apply frames_of_spec in Hrec as [Hrg Hrec].
  pose proof Hsh as [Eseq _]. cbv beta. rewrite Eseq, <-Hrec. cbn [LastSequence]. split; [lia|]. split; [lia|done].
Qed.

Lemma sends_spec recs s p : (s, p) ∈ sends recs <-> exists rec, rec ∈ recs /\ rec_Sequence rec = s /\ rec_Payload rec = p.
Proof.
  unfold sends. rewrite list_elem_of_fmap. split; [intros (rec&[= -> ->]&?); by exists rec|intros (rec&?&<-&<-); by exists rec].
Qed.

(** Frames shown as the fence of [W] says may join what was sent. *)
Lemma sent_more W recs : consistent frames acked sent W ->
  Forall (fun rec => acked < rec_Sequence rec <= zlen frames /\ 1 <= rec_Sequence rec
                     /\ shown (member W (rec_Sequence rec)) (the_frame frames (rec_Sequence rec)) rec) recs ->
  sent_inv frames acked (sent ++ sends recs) /\ consistent frames acked (sent ++ sends recs) W.
Proof.
  intros Hc Hall. rewrite Forall_forall in Hall.
  assert (Hnew : forall s p, (s, p) ∈ sends recs -> acked < s <= zlen frames /\ 1 <= s /\ shown (member W s) (the_frame frames s) (Batch.mkRecord s p)).
  { intros s p (rec&Hin&<-&<-)%sends_spec. destruct (Hall rec Hin) as (?&?&Hsh). split; [done|]. split; [done|]. by destruct rec. }
  assert (Hcon : consistent frames acked (sent ++ sends recs) W).
  { intros s p [Hin|Hin]%elem_of_app Ha; [by apply Hc|]. by destruct (Hnew s p Hin) as (_&_&?). }
  split; [|done]. destruct Hs as [Hz Hl He Ho]. split; [done|done| |].
  - intros s p [Hin|Hin]%elem_of_app; [auto|]. destruct (Hnew s p Hin) as (?&?&_&[[_ Hp]|[_ Hp]]); (split; [lia|]); [by right|left]. by injection Hp.
  - intros s p q Hp Hq. destruct (Z.lt_ge_cases acked s) as [Ha|Ha].
    + pose proof (shown_one _ _ _ _ (Hcon s p Hp Ha) (Hcon s q Hq Ha)) as E. by injection E.
    + apply elem_of_app in Hp as [Hp|Hp]; [|destruct (Hnew s p Hp); lia]. apply elem_of_app in Hq as [Hq|Hq]; [|destruct (Hnew s q Hq); lia].
      by eapply Ho.
Qed.

(** A new mark keeps the fence good, for what was sent and for what is about to be. *)
Lemma good_marked sent' a p : sent_inv frames acked sent' -> consistent frames acked sent' (fn_withheld (ru_fence r)) ->
  wf_fence (set_mark (ru_fence r) a p) -> sent_through acked sent' a -> a <= zlen frames ->
  (forall sh, p = Some sh -> sh_AttemptedThrough sh = a) -> (fn_recorded (ru_fence r) = true -> p <> None) ->
  good_fence frames acked sent' (set_mark (ru_fence r) a p).
Proof.
  intros Hs' Hc Hw Hm Ha Hp Hrec. split; [done|apply Hf|apply Hf|done|done| |done].
  cbn [set_mark fn_pending]. intros sh Hsh. by rewrite (Hp sh Hsh).
Qed.

Lemma run_inv_same f batch : fn_origins f = fn_origins (ru_fence r) -> fn_withheld f = fn_withheld (ru_fence r) ->
  batch = ru_batch r \/ batch = None -> run_inv frames acked (lane r f (ru_src r) (ru_ceiling r) batch).
Proof.
  intros Eo Ew Hb. destruct Hr as [Ho Hh Hn Hc Hce Hbat]. split; cbn [lane ru_fence ru_batch ru_ceiling]; rewrite ?Eo, ?Ew; try done.
  intros rng recs. destruct Hb as [->| ->]; [apply Hbat|done].
Qed.

Lemma safe_send ev rng recs t e f d' : fresh ev d -> ru_batch r = Some (rng, recs) -> beforeSend ev (ru_fence r) rng d = (t, Ok (e, f), d') ->
  safe frames acked sent t d'
    (match e with
     | None => mkSystem d' frames acked (sent ++ sends recs) (Fenced (lane r f (ru_src r) (ru_ceiling r) (ru_batch r)))
     | Some _ => mkSystem d' frames acked sent (Fenced (lane r f (ru_src r) (ru_ceiling r) None))
     end).
Proof.
  intros Hfr Hb H. destruct (ri_batch _ _ _ Hr rng recs Hb) as [Hl Hall]. pose proof (ri_ceiling _ _ _ Hr) as Hce. pose proof (si_len _ _ _ Hs) as Hlen.
  apply beforeSend_ok in H as (p&H); [|apply Hf|lia|apply Hf|done]. set (a := Z.max (fn_attempted (ru_fence r)) (LastSequence rng)) in *.
  cbv zeta in H. destruct H as (Hw1&Ht&Hp&Hrec&He). destruct (gf_mark _ _ _ _ Hf) as [Hm Hm'].
  assert (Hp' : forall sh, p = Some sh -> sh_AttemptedThrough sh = a) by (intros sh Hsh; by destruct (Hp sh Hsh)).
  assert (Hsent : sent_inv frames acked (sent ++ sends recs) /\ consistent frames acked (sent ++ sends recs) (fn_withheld (ru_fence r))).
  { apply sent_more; [apply Hf|]. eapply Forall_impl; [exact Hall|]. cbv beta. intros rec (?&?&?). split; [lia|done]. }
  destruct Hsent as [Hs' Hc']. assert (Hm1 : sent_through acked (sent ++ sends recs) a).
  { intros s q [Hin|Hin]%elem_of_app Ha; [specialize (Hm s q Hin Ha); lia|]. apply sends_spec in Hin as (rec&Hin&<-&_).
    rewrite Forall_forall in Hall. destruct (Hall rec Hin) as (?&_). lia. }
  assert (Hf1' : good_fence frames acked (sent ++ sends recs) (set_mark (ru_fence r) a p)) by (apply good_marked; done || lia).
  assert (Hf1 : good_fence frames acked sent (set_mark (ru_fence r) a p)).
  { apply good_marked; try done; [apply Hf| |lia]. intros s q Hin Ha. apply (Hm1 s q); [apply elem_of_app; by left|done]. }
  assert (Hor : old_or (fence_ledger (set_mark (ru_fence r) a p)) d d').
  { destruct e; [apply He|]. destruct He as [_ [?|(->&_)]]; [by right|by left]. }
  eapply safe_writes; [done|done|exact Hf1|exact Ht|exact Hor|]. destruct e as [e|]; unfold inv; cbn [sy_disk sy_frames sy_acked sy_sent sy_phase].
  - destruct He as [-> _]. split; [done|]. destruct Hor as [Hor|Hor]; [exists doc; split; [congruence|]|eexists; split; [exact Hor|]].
    + split; [done|]. split; [done|]. split; [done|]. by apply run_inv_same; [..|right].
    + split; [by apply good_persisted|]. split; [done|]. split; [|by apply run_inv_same; [..|right]]. split; [done|].
      intros Hn. cbn in Hn |- *. destruct p as [sh|]; [|done]. destruct (Hp sh eq_refl) as (_&h&Hh&_). congruence.
  - destruct He as [-> He]. split; [done|].
    assert (Hri : run_inv frames acked (lane r (set_dirty (set_mark (ru_fence r) a p) false) (ru_src r) (ru_ceiling r) (ru_batch r))) by (apply run_inv_same; [..|left]; done).
    destruct He as [He|(->&Hcl&Hnp&->)].
    + eexists. split; [exact He|]. split; [by apply good_persisted|]. split; [by apply good_clean|]. split; [by apply joint_persisted|done].
    + exists doc. split; [done|]. destruct Hj as [Hjc Hjp]. split.
      * destruct Hg as [Hgw Hgf Hgc Hgm]. split; [done|done| |intros sh Hsh; rewrite (Hjp Hnp) in Hsh; done].
        intros s q Hin Ha. eapply shown_iff; [|by apply Hc']. by rewrite <-(Hjc Hcl s Ha).
      * split; [by apply good_clean|]. split; [|done]. split; [intros _; by apply Hjc|intros _; by apply Hjp].
Qed.

Lemma safe_shutdown ev t e f d' : fresh ev d -> recordShutdown ev (ru_fence r) (zlen frames) d = (t, Ok (e, f), d') ->
  (e <> None -> fn_pending (ru_fence r) = None -> ledger_at d' = ledger_at d) ->
  safe frames acked sent t d' (mkSystem d' frames acked sent (Fenced (lane r f (ru_src r) (ru_ceiling r) (ru_batch r)))).
Proof.
  intros Hfr H Hsto. pose proof (si_acked _ _ _ Hs) as Hz. pose proof (si_len _ _ _ Hs) as Hlen.
  apply recordShutdown_ok in H; [|apply Hf|lia|done]. cbv zeta in H. set (f1 := mkFence _ _ _ _ _ _ true) in *. destruct H as (Hw1&Ht&He).
  assert (Hf1 : good_fence frames acked sent f1).
  { destruct Hf as [Hw Hfr' Hor Hcon Hmk Hp Hrec]. split; try done. intros sh [= <-]. apply Hmk. }
  assert (Hor : old_or (fence_ledger f1) d d') by (destruct e; [apply He|right; apply He]).
  eapply safe_writes; [done|done|exact Hf1|exact Ht|exact Hor|]. unfold inv; cbn [sy_disk sy_frames sy_acked sy_sent sy_phase]. split; [done|].
  destruct e as [e|].
  - destruct He as [-> Ho]. destruct Ho as [Ho|Ho].
    + exists doc. split; [congruence|]. split; [done|]. split; [done|]. split; [done|]. by apply run_inv_same; [..|left].
    + destruct (fn_pending (ru_fence r)) as [h|] eqn:Ep.
      * eexists. split; [exact Ho|]. split; [by apply good_persisted|]. split; [done|]. split; [|by apply run_inv_same; [..|left]]. split; [done|]. intros Hn. cbn in Hn. congruence.
      * exists doc. split; [rewrite (Hsto ltac:(done) eq_refl); done|]. split; [done|]. split; [done|]. split; [done|]. by apply run_inv_same; [..|left].
  - destruct He as [-> Hl]. eexists. split; [exact Hl|]. split; [by apply good_persisted|]. split; [by apply good_clean|].
    split; [by apply joint_persisted|]. by apply run_inv_same; [..|left].
Qed.
End writing.

Lemma writing_safe json_text quote y r t y' : inv y -> sy_phase y = Fenced r -> writing json_text quote true y r t y' ->
  safe (sy_frames y) (sy_acked y) (sy_sent y) t (sy_disk y') y'.
Proof.
  destruct y as [d frames acked sent ph]. intros (Hs&doc&Hd&Hg&Hph) E. cbn [sy_disk sy_frames sy_acked sy_sent sy_phase] in *. subst ph.
  destruct Hph as (Hf&Hj&Hr). intros []; cbn [sy_disk sy_frames sy_acked sy_sent set_run] in *.
  - by eapply safe_record.
  - by eapply safe_refresh.
  - by eapply safe_decide.
  - match goal with H : beforeSend _ _ _ _ = (_, Ok (?e, _), _) |- _ => destruct e; by eapply (safe_send _ _ _ _ _ _ Hs Hd Hg Hf Hj Hr) in H end.
  - eapply safe_shutdown; eauto.
Qed.

(** ** Starts *)

Lemma loaded_good frames acked sent doc f : sent_inv frames acked sent -> good_doc frames acked sent doc -> loaded doc (zlen frames) f ->
  good_fence frames acked sent f
  /\ forall x, member (fn_withheld f) x <-> member (default [] (lg_Withheld doc)) x.
Proof.
  intros Hs [Hw Hf Hc Hm] Hl. assert (Hmem : forall x, member (fn_withheld f) x <-> member (default [] (lg_Withheld doc)) x).
  { intros x. rewrite (ld_members _ _ _ Hl). split; [tauto|]. intros Hx. split; [done|auto]. }
  split; [|done]. assert (Hcon : consistent frames acked sent (fn_withheld f)) by (intros s p Hin Ha; eapply shown_iff; [apply Hmem|by apply Hc]).
  destruct (ld_clean _ _ _ Hl) as [_ Hrec]. destruct (ld_record _ _ _ Hl) as [(Hp&Ha&Ho&_)|(sh&Hsh&Hp&Ha&Hle&Ho)]; split; rewrite ?Hp, ?Ha, ?Hrec; try done.
  1: apply Hl. 4: apply Hl.
  - intros x Hx%Hmem. auto.
  - rewrite Ho. intros x o (run&Hrun&_). inversion Hrun.
  - split; [|lia]. intros s p Hin _. destruct (si_each _ _ _ Hs s p Hin) as [? _]. lia.
  - intros x Hx%Hmem. auto.
  - intros x o (lo&_&Hn&_)%Ho. lia.
  - split; [by apply Hm|lia].
  - intros sh' [= <-]. by apply Hm.
Qed.

Lemma start_safe ev src t res d frames acked sent doc d0 : sent_inv frames acked sent -> ledger_at d0 = Ok doc -> good_doc frames acked sent doc -> fresh ev d0 ->
  newConsentFence ev src (zlen frames) d0 = (t, res, d) ->
  Forall (fun x => exists doc, ledger_at x = Ok doc /\ good_doc frames acked sent doc) (t ++ [d])
  /\ forall f log, res = Ok (Ok f, log) -> world_inv d frames acked sent (Fenced (mkRunning src f [] [] 0 None)).
Proof.
  intros Hs Hd Hg Hfr H. pose proof (si_acked _ _ _ Hs) as Hz. pose proof (si_len _ _ _ Hs) as Hlen.
  apply (newConsentFence_ok ev src (zlen frames) d0 doc) in H as (f0&f1&Hl&Hh&Ht&Hok); [|apply Hg|done|lia|done].
  destruct (loaded_good _ _ _ _ _ Hs Hg Hl) as [Hf0 Hmem]. pose proof (good_hides _ _ _ _ _ _ Hf0 Hh) as Hf1.
  split; [eapply Forall_impl; [exact Ht|]; intros x Hx; by eapply good_old_or|]. intros f log ->. destruct (Hok f log eq_refl) as (Hw&Hp&_).
  split; [done|]. assert (Hr : run_inv frames acked (mkRunning src f [] [] 0 None)).
  { split; cbn; try done; try (intros ? ? Hin; by inversion Hin); try (intros ? Hin; by inversion Hin); [constructor|lia]. }
  assert (Hfields : fn_withheld f = fn_withheld f1 /\ fn_pending f = fn_pending f1 /\ (fn_dirty f = false \/ f = f1)) by (destruct Hw; split; done || (split; [done|]; by left) || (split; [done|]; by right)).
  destruct Hfields as (Ew&Ep&Edf). pose proof (wrote_good _ _ _ _ _ _ _ Hw Hf1) as Hf.
  destruct (wrote_old_or _ _ _ _ Hw) as [Ho|Ho].
  - exists doc. split; [congruence|]. split; [done|]. split; [done|]. split; [|done].
    assert (Hled : lg_Shutdown doc = None \/ doc = fence_ledger f1 -> fn_pending f = None -> lg_Shutdown doc = None).
    { intros [?| ->] Hn; [done|]. cbn. congruence. }
    destruct Hw as [? Hl'|? Hl'].
    + assert (doc = fence_ledger f1) as -> by congruence. by apply joint_persisted.
    + split; [|intros Hn; apply Hled; [|done]; destruct (Hp Hn) as [?|E]; [by left|right; congruence]].
      intros Hdf x Hx. destruct (hd_dirty _ _ _ Hh Hdf) as [_ Hsub]. rewrite <-Hmem. split; [auto|apply Hh].
  - eexists. split; [exact Ho|]. split; [by apply good_persisted|]. split; [done|]. split; [by apply joint_persisted|done].
Qed.

(** ** Every reachable state *)

Lemma world_same d d' frames acked sent ph : same_ledger d d' -> world_inv d frames acked sent ph -> world_inv d' frames acked sent ph.
Proof.
  intros Hl (Hs&doc&Hd&Hg&Hp). split; [done|]. exists doc. split; [by rewrite (same_ledger_at _ _ Hl)|]. split; [done|].
  destruct ph; [done| |done]. unfold same_ledger in Hl. cbn in *. by rewrite Hl.
Qed.

Lemma unfenced_inv d frames acked sent : world_inv d frames acked sent Unfenced -> consistent frames acked sent [].
Proof.
  intros (_&doc&Hd&Hg&Hn). pose proof (no_ledger d Hn) as E. rewrite E in Hd. injection Hd as <-. apply Hg.
Qed.

Lemma unfenced_intro d frames acked sent : sent_inv frames acked sent -> consistent frames acked sent [] ->
  entries DRoot d !! consentLedgerFilename = None -> world_inv d frames acked sent Unfenced.
Proof. intros Hs Hc Hn. split; [done|]. eexists. split; [by apply no_ledger|]. split; [by apply empty_good|done]. Qed.

Lemma unfenced_sends d frames acked sent first last : world_inv d frames acked sent Unfenced -> acked < first -> last <= zlen frames ->
  world_inv d frames acked (sent ++ sends (frames_of frames first last)) Unfenced.
Proof.
  intros Hw Ha Hl. pose proof (unfenced_inv _ _ _ _ Hw) as Hc. destruct Hw as (Hs&doc&_&_&Hn). pose proof (si_acked _ _ _ Hs).
  destruct (sent_more frames acked sent Hs [] (frames_of frames first last) Hc) as [Hs' Hc'].
  - apply Forall_forall. intros rec [Hin Hrec]%frames_of_spec. split; [lia|]. split; [lia|]. rewrite <-Hrec. split; [done|]. right.
    split; [by intros ?%member_nil|done].
  - by apply unfenced_intro.
Qed.

Lemma step_inv json_text quote y y' : inv y -> step json_text quote true y y' -> inv y'.
Proof.
  intros Hi Hst. destruct Hst as [r y' Hp Hq|r t y' Hp Hw|r t y' x Hp Hw Hin| |ev src t f log d Hp Hfr Hn|ev src t res d x Hp Hfr Hn Hin|ev t d Hp Hl
    |p Hp Hlen|first last Hp Ha Hl|through Hp Ht|d Hsame].
  - by eapply quiet_inv.
  - by destruct (writing_safe _ _ _ _ _ _ Hi Hp Hw).
  - destruct (writing_safe _ _ _ _ _ _ Hi Hp Hw) as [_ Hall]. rewrite Forall_forall in Hall. destruct (Hall x Hin) as (doc&Hd&Hg).
    split; [apply Hi|]. by exists doc.
  - destruct Hi as (Hs&doc&Hd&Hg&_). split; [done|]. by exists doc.
  - destruct Hi as (Hs&doc&Hd&Hg&_). by eapply start_safe.
  - destruct Hi as (Hs&doc&Hd&Hg&_). destruct (start_safe _ _ _ _ _ _ _ _ _ _ Hs Hd Hg Hfr Hn) as [Hall _].
    rewrite Forall_forall in Hall. destruct (Hall x Hin) as (doc'&Hd'&Hg'). split; [done|]. by exists doc'.
  - assert (Hno : entries DRoot (sy_disk y) !! consentLedgerFilename = None).
    { unfold ledgerExists, io_check, io_call, io_bind in Hl. destruct (e_flt ev IoStat consentLedgerFilename); [done|]. unfold id in Hl.
      by destruct (entries DRoot (sy_disk y) !! consentLedgerFilename). }
    destruct Hi as (Hs&doc&Hd&Hg&_). split; [done|]. by exists doc.
  - unfold inv in *. rewrite Hp in Hi. cbn. unfold next_sequence in Hlen. pose proof (unfenced_inv _ _ _ _ Hi) as Hc. destruct Hi as (Hs&doc&_&_&Hn).
    apply unfenced_intro; [by apply sent_inv_app|by apply consistent_app|done].
  - unfold inv in *. rewrite Hp in Hi. by apply unfenced_sends.
  - unfold inv in *. rewrite Hp in Hi. cbn. pose proof (unfenced_inv _ _ _ _ Hi) as Hc. destruct Hi as (Hs&doc&_&_&Hn).
    apply unfenced_intro; [by eapply sent_inv_ack| |done]. intros s p Hin Hth. apply Hc; [done|lia].
  - unfold inv in *. by eapply world_same.
Qed.

Lemma reachable_inv json_text quote y : reachable json_text quote true y -> inv y.
Proof.
  induction 1 as [d Hd|y y' _ IH Hst]; [|by eapply step_inv]. split.
  - split; cbn; try done; intros s p; [|intros q]; intros Hin; by inversion Hin.
  - eexists. split; [unfold ledger_at; cbn [first_state sy_disk]; by rewrite Hd|]. split; [|done]. apply empty_good. intros s p Hin. inversion Hin.
Qed.

(** C25: across interleavings of the watcher, the policy and the upload lane, faults, crashes and restarts with, without or
    under another policy, the collector is never sent two payloads for one sequence, and each is the frame or its
    placeholder. *)
Theorem one_payload_per_sequence json_text quote y : reachable json_text quote true y ->
  one_payload (sy_sent y)
  /\ forall s p, (s, p) ∈ sy_sent y -> p = frame_at (sy_frames y) s \/ withheldPlaceholder (the_frame (sy_frames y) s) = Ok p.
Proof.
  intros (Hs&_)%reachable_inv. split; [apply Hs|]. intros s p Hin. by destruct (si_each _ _ _ Hs s p Hin).
Qed.

(** C26: a frame not attempted yet goes into a batch only as its placeholder once the newest policy does not cover the consent
    it was captured under, if the fence of this run knows that consent: the watcher appended the frame in this run and
    was told, or the record of a clean shutdown named its origin. *)
Theorem withdrawn_hidden json_text quote y r ev first last t recs f log d s o :
  reachable json_text quote true y -> sy_phase y = Fenced r -> fresh ev (sy_disk y) -> sy_acked y < first -> last <= ru_ceiling r ->
  decide ev (ru_src r) (ru_fence r) (frames_of (sy_frames y) first last) (sy_disk y) = (t, Ok (Ok recs, f, log), d) ->
  (s, o) ∈ ru_captured r \/ captured (fn_origins (ru_fence r)) s o -> first <= s <= last -> fn_attempted (ru_fence r) < s -> allowedBy o (latest (ru_src r)) = false ->
  exists p, withheldPlaceholder (the_frame (sy_frames y) s) = Ok p /\ forall q, Batch.mkRecord s q ∈ recs <-> q = p.
Proof.
  intros Hi%reachable_inv Hp Hfr Ha Hl Hdec Hcap Hrg Hmark Hno. destruct Hi as (Hs&doc&Hd&Hg&Hph). rewrite Hp in Hph. destruct Hph as (Hf&_&Hr).
  pose proof (si_acked _ _ _ Hs). pose proof (si_len _ _ _ Hs). pose proof (ri_ceiling _ _ _ Hr).
  apply decide_ok in Hdec as (f1&f2&_&_&_&_&Hall); [|apply Hf|done|].
  2: { apply Forall_forall. intros rec [Hin _]%frames_of_spec. lia. }
  assert (Hw : withdrawn (ru_fence r) (latest (ru_src r)) s).
  { split; [done|]. exists o. split; [|done]. destruct Hcap as [Hcap|Hcap]; [|done]. destruct (ri_captured _ _ _ Hr s o Hcap) as [_ [Hh|[?|?]]]; [|lia|done].
    destruct (ri_held _ _ _ Hr s (elem_held_intro _ _ _ Hh)). lia. }
  assert (Hshow : forall rec', rec' ∈ recs -> rec_Sequence rec' = s -> withheldPlaceholder (the_frame (sy_frames y) s) = Ok (rec_Payload rec')).
  { intros rec' [i Hi]%list_elem_of_lookup Es. destruct (Forall2_lookup_r _ _ _ _ _ Hall Hi) as (rec&Hrec&(Eseq&Hsh)&Hm).
    apply list_elem_of_lookup_2, frames_of_spec in Hrec as [_ Hrec]. assert (Es' : rec_Sequence rec = s) by congruence. rewrite Es' in *.
    destruct Hsh as [[_ Hpl]|[Hn _]]; [by rewrite Hrec in Hpl|]. by destruct Hn; apply Hm. }
  assert (Hin : exists rec', rec' ∈ recs /\ rec_Sequence rec' = s).
  { assert (Hfrm : the_frame (sy_frames y) s ∈ frames_of (sy_frames y) first last) by (apply frames_of_spec; done).
    apply list_elem_of_lookup in Hfrm as [i Hi]. destruct (Forall2_lookup_l _ _ _ _ _ Hall Hi) as (rec'&Hrec'&(Eseq&_)&_).
    exists rec'. split; [by eapply list_elem_of_lookup_2|done]. }
  destruct Hin as (rec'&Hin&Es). exists (rec_Payload rec'). split; [by apply Hshow|]. intros q. split.
  - intros Hq. pose proof (Hshow _ Hq eq_refl) as E. rewrite (Hshow _ Hin Es) in E. by injection E.
  - intros ->. rewrite <-Es. by destruct rec'.
Qed.
