(* ===== verification/FenceCases.v ===== *)
(** * The consent fence on concrete runs

    Runs of FenceRun.v evaluated: a withdrawal written while the daemon is stopped withholds what the previous
    run captured; and two runs in which a sequence is decided twice. In the first the disk reports an error
    after the shutdown record replaced the ledger; in the second frames were moved out of the spool, and the
    ranges dropped at the start are still in the ledger at the next one. *)

From S2P Require Import Prelude SpoolTypes Fs.
From S2P Require Import Json.
From S2P Require Import Batch.
From S2P Require Import Ack.
From S2P Require Import RootPolicy.
From S2P Require Import Consent.
From S2P Require Import SeqSet.
From S2P Require Import Ledger.
From S2P Require Import Placeholder.
From S2P Require Import Fence.
From S2P Require Import FenceRun.

(** ** Running the relation *)

Section exec.
Context (ev : env) (honest : bool).

Definition in_run (y : system) (k : run -> system) : system := match sy_phase y with Fenced r => k r | _ => y end.
Definition running (y : system) (ok : run -> bool) : bool := match sy_phase y with Fenced r => ok r | _ => false end.

Definition do_start (src : option Source) (y : system) : system :=
  match newConsentFence ev src (zlen (sy_frames y)) (sy_disk y) with
  | (_, Ok (Ok f, _), d) => set_run y d (mkRunning src f [] [] 0 None)
  | _ => y
  end.
Definition can_start (src : option Source) (y : system) : bool :=
  match sy_phase y, newConsentFence ev src (zlen (sy_frames y)) (sy_disk y) with Stopped, (_, Ok (Ok _, _), _) => true | _, _ => false end.

Definition do_stop (y : system) : system := mkSystem (sy_disk y) (sy_frames y) (sy_acked y) (sy_sent y) Stopped.

(** One append of the watcher: admitted, durable, recorded. *)
Definition do_admit (o : consentOrigin) (y : system) : system :=
  in_run y (fun r => set_run y (sy_disk y) (watch r (ru_fence r) (ru_holders r ++ [(o, None)]) (ru_captured r))).
Definition do_append (o : consentOrigin) (p : bytes) (y : system) : system :=
  in_run y (fun r => append_frame y p (Fenced (watch r (ru_fence r) [(o, Some (next_sequence y))] ((next_sequence y, o) :: ru_captured r)))).
Definition do_record (o : consentOrigin) (s : Z) (y : system) : system :=
  in_run y (fun r => match recordAppend ev (ru_src r) (ru_fence r) s o (sy_disk y) with
                     | (_, Ok (f, _), d) => set_run y d (watch r f [] (ru_captured r))
                     | _ => y
                     end).

Definition do_ceiling (y : system) : system :=
  in_run y (fun r => set_run y (sy_disk y) (lane r (ru_fence r) (ru_src r) (zlen (sy_frames y)) None)).
Definition do_decide (first last : Z) (y : system) : system :=
  in_run y (fun r => match decide ev (ru_src r) (ru_fence r) (frames_of (sy_frames y) first last) (sy_disk y) with
                     | (_, Ok (res, f, _), d) =>
                         set_run y d (lane r f (ru_src r) (ru_ceiling r) (match res with Ok recs => Some (mkRange first last, recs) | Err _ => None end))
                     | _ => y
                     end).
Definition do_send (y : system) : system :=
  in_run y (fun r => match ru_batch r with
                     | Some (rng, recs) =>
                         match beforeSend ev (ru_fence r) rng (sy_disk y) with
                         | (_, Ok (None, f), d) =>
                             mkSystem d (sy_frames y) (sy_acked y) (sy_sent y ++ sends recs) (Fenced (lane r f (ru_src r) (ru_ceiling r) (ru_batch r)))
                         | _ => y
                         end
                     | None => y
                     end).
Definition do_shutdown (y : system) : system :=
  in_run y (fun r => match recordShutdown ev (ru_fence r) (zlen (sy_frames y)) (sy_disk y) with
                     | (_, Ok (_, f), d) => set_run y d (lane r f (ru_src r) (ru_ceiling r) (ru_batch r))
                     | _ => y
                     end).

Context (json_text : GoJson.gotype -> bytes -> bytes) (quote : bytes -> bytes).
Abbreviation reach := (reachable json_text quote honest).

Lemma run_start src y : reach y -> fresh ev (sy_disk y) -> can_start src y = true -> reach (do_start src y).
Proof.
  intros Hr Hf Hc. eapply r_step; [exact Hr|]. unfold can_start, do_start in *. destruct (sy_phase y) eqn:Ep; [|done..].
  destruct (newConsentFence _ _ _ _) as [[t [[[f|e] log]|e]] d] eqn:En; [|done..]. by eapply s_start.
Qed.

Lemma run_stop y : reach y -> reach (do_stop y).
Proof. intros Hr. eapply r_step; [exact Hr|]. apply s_stop. Qed.

Lemma run_admit o y : reach y -> good_origin o -> running y (fun r => allowedBy o (latest (ru_src r))) = true -> reach (do_admit o y).
Proof.
  intros Hr Hg Ha. eapply r_step; [exact Hr|]. unfold running, do_admit, in_run in *. destruct (sy_phase y) as [| |r] eqn:Ep; [done..|].
  eapply s_quiet; [exact Ep|]. apply q_admit; [|done]. unfold admit_origin. by rewrite Ha.
Qed.

Lemma exec_append o p y : reach y -> next_sequence y < MaxInt64 -> running y (fun r => bool_decide (ru_holders r = [(o, None)])) = true ->
  reach (do_append o p y).
Proof.
  intros Hr Hn Ha. eapply r_step; [exact Hr|]. unfold running, do_append, in_run in *. destruct (sy_phase y) as [| |r] eqn:Ep; [done..|].
  apply bool_decide_eq_true_1 in Ha. eapply s_quiet; [exact Ep|]. by apply (q_append _ _ _ _ [] o []).
Qed.

Lemma run_record o s y : reach y -> fresh ev (sy_disk y) ->
  running y (fun r => bool_decide (ru_holders r = [(o, Some s)]) && match recordAppend ev (ru_src r) (ru_fence r) s o (sy_disk y) with (_, Ok _, _) => true | _ => false end) = true ->
  reach (do_record o s y).
Proof.
  intros Hr Hf Ha. eapply r_step; [exact Hr|]. unfold running, do_record, in_run in *. destruct (sy_phase y) as [| |r] eqn:Ep; [done..|].
  apply andb_true_iff in Ha as [Ha He]. apply bool_decide_eq_true_1 in Ha. destruct (recordAppend _ _ _ _ _ _) as [[t [[f log]|e]] d] eqn:E; [|done].
  eapply s_write; [exact Ep|]. by eapply (w_record _ _ _ _ _ [] o s []).
Qed.

Lemma run_ceiling y : reach y -> running y (fun r => bool_decide (ru_holders r = [])) = true -> reach (do_ceiling y).
Proof.
  intros Hr Ha. eapply r_step; [exact Hr|]. unfold running, do_ceiling, in_run in *. destruct (sy_phase y) as [| |r] eqn:Ep; [done..|].
  apply bool_decide_eq_true_1 in Ha. eapply s_quiet; [exact Ep|]. by apply q_ceiling.
Qed.

Lemma run_decide first last y : reach y -> fresh ev (sy_disk y) -> sy_acked y < first -> first <= last ->
  running y (fun r => (last <=? ru_ceiling r) && match decide ev (ru_src r) (ru_fence r) (frames_of (sy_frames y) first last) (sy_disk y) with (_, Ok _, _) => true | _ => false end) = true ->
  reach (do_decide first last y).
Proof.
  intros Hr Hf H1 H2 Ha. eapply r_step; [exact Hr|]. unfold running, do_decide, in_run in *. destruct (sy_phase y) as [| |r] eqn:Ep; [done..|].
  apply andb_true_iff in Ha as [Ha%Z.leb_le He]. destruct (decide _ _ _ _ _) as [[t [[[res f] log]|e]] d] eqn:E; [|done].
  eapply s_write; [exact Ep|]. by eapply w_decide.
Qed.

Lemma run_send y : reach y -> fresh ev (sy_disk y) -> reach (do_send y).
Proof.
  intros Hr Hf. unfold do_send, in_run. destruct (sy_phase y) as [| |r] eqn:Ep; [done..|].
  destruct (ru_batch r) as [[rng recs]|] eqn:Eb; [|done]. destruct (beforeSend _ _ _ _) as [[t [[[e|] f]|e]] d] eqn:E; try done.
  eapply r_step; [exact Hr|]. eapply s_write; [exact Ep|]. rewrite <-Eb. by eapply (w_send _ _ _ _ _ _ rng recs t None).
Qed.

Lemma run_shutdown y : reach y -> fresh ev (sy_disk y) ->
  running y (fun r => match recordShutdown ev (ru_fence r) (zlen (sy_frames y)) (sy_disk y) with
                      | (_, Ok (e, _), _) => negb honest || bool_decide (e = None \/ is_Some (fn_pending (ru_fence r)))
                      | _ => false
                      end) = true ->
  reach (do_shutdown y).
Proof.
  intros Hr Hf Ha. eapply r_step; [exact Hr|]. unfold running, do_shutdown, in_run in *. destruct (sy_phase y) as [| |r] eqn:Ep; [done..|].
  destruct (recordShutdown _ _ _ _) as [[t [[e f]|e]] d] eqn:E; [|done]. eapply s_write; [exact Ep|]. eapply w_shutdown; [done|exact E|].
  intros -> He Hp. apply bool_decide_eq_true_1 in Ha as [?|[x Hx]]; congruence.
Qed.
End exec.

(** ** A withdrawal while the daemon is stopped *)

Definition demo_ev : env := mkEnv no_faults 0 (str "1") 0.
(** The directory cannot be synced: a ledger is replaced and the write still reports an error. *)
Definition sync_ev : env := mkEnv (fun op _ => match op with IoDirSync => true | _ => false end) 0 (str "1") 0.

Definition demo_empty : disk := mkDisk ∅ None None.
Definition demo_origin : consentOrigin := mkOrigin (str "/p") 7.
Definition withdrawn_source : Source := mkSource demo_cfg (demo_status 2) [] (Consent.mkPolicy 1 true [] []).

Lemma demo_origin_good : good_origin demo_origin.
Proof. split; [discriminate|]. split; [repeat (apply utf8_ascii; [reflexivity|]); apply utf8_nil|cbn; lia]. Qed.

(** An append of the watcher, from its admission to its origin. *)
Definition do_capture (p : bytes) (y : system) : system :=
  do_record demo_ev demo_origin (next_sequence y) (do_append demo_origin p (do_admit demo_origin y)).
(** One batch of the upload lane. *)
Definition do_batch (first last : Z) (y : system) : system := do_send demo_ev (do_decide demo_ev first last (do_ceiling y)).

Definition run1 : system := do_capture demo_frame (do_start demo_ev (Some demo_source) (first_state demo_empty)).
Definition run2 : system := do_stop (do_shutdown demo_ev run1).
Definition run3 : system := do_batch 1 1 (do_start demo_ev (Some withdrawn_source) run2).

Ltac evaluated := match goal with
  | |- good_origin demo_origin => exact demo_origin_good
  | |- fresh _ _ => vm_compute; reflexivity
  | |- _ = true => vm_compute; reflexivity
  | |- _ < _ => vm_compute; reflexivity
  | |- _ <= _ => vm_compute; discriminate
  end.

Lemma run_capture honest p y json_text quote : reachable json_text quote honest y -> fresh demo_ev (sy_disk y) -> next_sequence y < MaxInt64 ->
  running y (fun r => allowedBy demo_origin (latest (ru_src r)) && bool_decide (ru_holders r = [])
                      && match recordAppend demo_ev (ru_src r) (ru_fence r) (next_sequence y) demo_origin (sy_disk y) with (_, Ok _, _) => true | _ => false end) = true ->
  reachable json_text quote honest (do_capture p y).
Proof.
  intros Hr Hf Hn Ha. unfold running in Ha. destruct (sy_phase y) as [| |r] eqn:Ep; [done..|].
  apply andb_true_iff in Ha as [[Ha Hh]%andb_true_iff Hrec]. apply bool_decide_eq_true_1 in Hh. unfold do_capture.
  assert (E1 : do_admit demo_origin y = set_run y (sy_disk y) (watch r (ru_fence r) [(demo_origin, None)] (ru_captured r))).
  { unfold do_admit, in_run. by rewrite Ep, Hh. }
  assert (Hr1 : reachable json_text quote honest (do_admit demo_origin y)).
  { apply run_admit; [done|exact demo_origin_good|]. unfold running. by rewrite Ep. }
  rewrite E1 in *. apply run_record; [apply exec_append; [done|done|]|done|].
  - unfold running, set_run. cbn [sy_phase]. by apply bool_decide_eq_true_2.
  - unfold running, do_append, in_run, set_run. cbn [sy_phase append_frame watch ru_holders]. apply andb_true_iff. split; [by apply bool_decide_eq_true_2|exact Hrec].
Qed.

Lemma run_batch honest first last y json_text quote : reachable json_text quote honest y -> fresh demo_ev (sy_disk y) -> sy_acked y < first -> first <= last ->
  fresh demo_ev (sy_disk (do_decide demo_ev first last (do_ceiling y))) ->
  running y (fun r => bool_decide (ru_holders r = [])) = true ->
  running (do_ceiling y) (fun r => (last <=? ru_ceiling r)
     && match decide demo_ev (ru_src r) (ru_fence r) (frames_of (sy_frames (do_ceiling y)) first last) (sy_disk (do_ceiling y)) with (_, Ok _, _) => true | _ => false end) = true ->
  reachable json_text quote honest (do_batch first last y).
Proof.
  intros Hr Hf Ha Hl Hf' Hh Hd. apply run_send; [|done]. apply run_decide; [by apply run_ceiling| | |done|done].
  - unfold do_ceiling, in_run. by destruct (sy_phase y).
  - unfold do_ceiling, in_run. by destruct (sy_phase y).
Qed.

Lemma run1_reachable honest : reachable demo_text demo_quote honest run1.
Proof.
  apply run_capture; [apply run_start; [by apply r_first|evaluated..]|evaluated..].
Qed.

Lemma run2_reachable honest : reachable demo_text demo_quote honest run2.
Proof. apply run_stop, run_shutdown; [apply run1_reachable|evaluated|]. destruct honest; vm_compute; reflexivity. Qed.

Lemma run3_reachable : reachable demo_text demo_quote true run3.
Proof. apply run_batch; [apply run_start; [apply run2_reachable|evaluated..]|evaluated..]. Qed.

Lemma one_payload_per_sequence_witness :
  one_payload (sy_sent run3) /\ exists p, (1, p) ∈ sy_sent run3 /\ withheldPlaceholder (the_frame (sy_frames run3) 1) = Ok p /\ p <> demo_frame.
Proof.
  refine (conj (proj1 (one_payload_per_sequence demo_text demo_quote run3 run3_reachable)) _).
  destruct (sy_sent run3) as [|[s p] l] eqn:E; [vm_compute in E; discriminate E|]. exists p.
  assert (Es : s = 1) by (vm_compute in E; injection E; congruence). subst s. refine (conj (list_elem_of_here _ _) (conj _ _)).
  - vm_compute in E. injection E as <- _. vm_compute. reflexivity.
  - vm_compute in E. injection E as <- _. discriminate.
Defined.

(** ** What a clean shutdown hands over *)

Definition two_captured : consentFence := mkFence [mkRun 3 4 demo_origin] [(2, 2); (9, 9)] 3 None false None false.

Lemma two_captured_wf : wf_fence two_captured.
Proof.
  split; cbn [two_captured fn_withheld fn_origins fn_attempted fn_pending].
  - unfold wf_set. cbn [wf_from fst snd]. unfold MaxInt64. lia.
  - apply wf_runs_one; cbn; unfold MaxInt64; lia.
  - intros x o [_ <-]%captured_one. exact demo_origin_good.
  - unfold MaxInt64. lia.
  - discriminate.
Qed.

Definition handed : disk := Eval vm_compute in (recordShutdown demo_ev two_captured 5 demo_empty).2.
Definition taken : consentFence := Eval vm_compute in
  match newConsentFence demo_ev (Some demo_source) 5 handed with (_, Ok (Ok g, _), _) => g | _ => two_captured end.

Lemma io_run {A} (m : IO A) d r d' : (m d).1.2 = r -> (m d).2 = d' -> m d = ((m d).1.1, r, d').
Proof. intros <- <-. by destruct (m d) as [[]]. Qed.

Lemma shutdown_handover_witness :
  fn_attempted taken = 3 /\ (forall x, member (fn_withheld taken) x <-> member (fn_withheld two_captured) x /\ x <= 5)
  /\ (forall x o, captured (fn_origins taken) x o <-> captured (fn_origins two_captured) x o /\ 3 < x)
  /\ fn_origins taken = [mkRun 4 4 demo_origin].
Proof.
  destruct (shutdown_handover demo_ev two_captured 5 demo_empty (recordShutdown demo_ev two_captured 5 demo_empty).1.1
    (mkFence [mkRun 3 4 demo_origin] [(2, 2); (9, 9)] 3 None false (Some (shutdownRecordLocked two_captured 5)) true) handed
    demo_ev (Some demo_source) (newConsentFence demo_ev (Some demo_source) 5 handed).1.1 taken [] handed two_captured_wf) as (Ha&Hm&Hc).
  - unfold MaxInt64. lia.
  - cbn. lia.
  - intros x o [? _]%captured_one. cbn in *. lia.
  - reflexivity.
  - apply io_run; [vm_compute; reflexivity|reflexivity].
  - reflexivity.
  - apply io_run; [vm_compute; reflexivity|vm_compute; reflexivity].
  - refine (conj Ha (conj _ (conj Hc eq_refl))). intros x. rewrite Hm. split; [|by left]. intros [Hx|[Hx _]]; [exact Hx|discriminate Hx].
Defined.

(** The same ledger, without a policy: the one frame captured and not sent is withheld too. *)
Example passive_handover :
  match newConsentFence demo_ev None 5 handed with
  | (_, Ok (Ok g, _), _) => fn_attempted g = 3 /\ fn_withheld g = [(2, 2); (4, 4)]
  | _ => False
  end.
Proof. vm_compute. split; reflexivity. Qed.

(** ** A withdrawal before a batch *)

Definition do_poll (w : World) (y : system) : system :=
  in_run y (fun r => set_run y (sy_disk y) (lane r (ru_fence r) (check_source demo_text demo_quote w (ru_src r)) (ru_ceiling r) (ru_batch r))).

Lemma run_poll honest w y : reachable demo_text demo_quote honest y -> reachable demo_text demo_quote honest (do_poll w y).
Proof.
  intros Hr. unfold do_poll, in_run. destruct (sy_phase y) as [| |r] eqn:Ep; [done..|]. eapply r_step; [exact Hr|].
  eapply s_quiet; [exact Ep|]. apply q_poll.
Qed.

Definition run4 : system := do_poll (demo_world demo_invalid 2) (do_ceiling run1).

Lemma run4_reachable : reachable demo_text demo_quote true run4.
Proof. apply run_poll, run_ceiling; [apply run1_reachable|evaluated]. Qed.

Definition run4_run : run := match sy_phase run4 with Fenced r => r | _ => mkRunning None (mkFence [] [] 0 None false None false) [] [] 0 None end.

Definition run4_out : list disk * sres (result fence_error (list Batch.record) * consentFence * list fence_log) * disk :=
  decide demo_ev (ru_src run4_run) (ru_fence run4_run) (frames_of (sy_frames run4) 1 1) (sy_disk run4).
Definition run4_recs : list Batch.record := Eval vm_compute in match run4_out.1.2 with Ok (Ok recs, _, _) => recs | _ => [] end.
Definition run4_fence : consentFence := Eval vm_compute in match run4_out.1.2 with Ok (_, f, _) => f | _ => ru_fence run4_run end.
Definition run4_log : list fence_log := Eval vm_compute in match run4_out.1.2 with Ok (_, _, l) => l | _ => [] end.

Lemma run4_decides : run4_out = (run4_out.1.1, Ok (Ok run4_recs, run4_fence, run4_log), run4_out.2).
Proof.
  assert (E : run4_out.1.2 = Ok (Ok run4_recs, run4_fence, run4_log)) by (vm_compute; reflexivity).
  rewrite <-E. by destruct run4_out as [[]].
Qed.

Lemma run4_captured : (1, demo_origin) ∈ ru_captured run4_run.
Proof. refine (bool_decide_eq_true_1 _ _). vm_compute. reflexivity. Qed.

Lemma withdrawn_hidden_witness :
  exists p, withheldPlaceholder (the_frame (sy_frames run4) 1) = Ok p /\ (forall q, Batch.mkRecord 1 q ∈ run4_recs <-> q = p)
    /\ length run4_recs = 1%nat.
Proof.
  destruct (withdrawn_hidden demo_text demo_quote run4 run4_run demo_ev 1 1 _ run4_recs run4_fence run4_log _ 1 demo_origin run4_reachable
    ltac:(vm_compute; reflexivity) ltac:(vm_compute; reflexivity) ltac:(vm_compute; reflexivity) ltac:(vm_compute; discriminate)
    run4_decides (or_introl run4_captured) ltac:(lia) ltac:(vm_compute; reflexivity) ltac:(vm_compute; reflexivity)) as (p&Hp&Hq).
  exists p. exact (conj Hp (conj Hq eq_refl)).
Defined.

(** ** A shutdown record that was written after all *)

Definition lost1 : system := do_batch 1 1 (do_capture demo_frame (do_start demo_ev (Some demo_source) (first_state demo_empty))).
Definition lost2 : system := do_shutdown sync_ev (do_capture demo_other lost1).
Definition lost3 : system := do_stop (do_batch 1 2 lost2).
Definition lost4 : system := do_batch 1 2 (do_start demo_ev (Some withdrawn_source) lost3).

Lemma lost4_reachable : reachable demo_text demo_quote false lost4.
Proof.
  apply run_batch; [apply run_start; [apply run_stop, run_batch; [|evaluated..]|evaluated..]|evaluated..].
  apply run_shutdown; [|evaluated..]. apply run_capture; [|evaluated..]. apply run_batch; [|evaluated..].
  apply run_capture; [|evaluated..]. apply run_start; [by apply r_first|evaluated..].
Qed.

(** Without the storage assumption a sequence is sent twice with different payloads: the write of the shutdown record
    reports an error though the record is on disk, memory forgets it, the final drain sends beyond its mark, and a start
    under a withdrawal applies it. *)
Lemma shutdown_record_lost : exists y, reachable demo_text demo_quote false y /\ ~ one_payload (sy_sent y).
Proof.
  exists lost4. split; [exact lost4_reachable|]. intros H.
  assert (E : map fst (sy_sent lost4) = [1; 1; 2; 1; 2] /\ bool_decide ((sy_sent lost4 !! 2%nat) = (sy_sent lost4 !! 4%nat)) = false) by (vm_compute; split; reflexivity).
  destruct E as [E Hn]. apply bool_decide_eq_false_1 in Hn. apply Hn. destruct (sy_sent lost4) as [|[? ?] [|[? ?] [|[s p] [|[? ?] [|[s' q] []]]]]]; try discriminate E.
  injection E as -> -> -> -> ->. cbn. f_equal. f_equal. apply (H 2 p q); set_solver.
Qed.

(** ** Ranges dropped at a start *)

Definition moved_ledger : bytes := Eval vm_compute in
  default [] (encodeConsentLedger (mkLedger consentLedgerVersion (Some [(2, 2)]) None 0)).
Definition moved_disk : disk := mkDisk {[ consentLedgerFilename := EFile moved_ledger ]} None None.

Definition started_fence (h : Z) : consentFence :=
  match newConsentFence demo_ev (Some demo_source) h moved_disk with (_, Ok (Ok f, _), _) => f | _ => mkFence [] [] 0 None false None false end.
Definition moved_f : consentFence := Eval vm_compute in started_fence 1.
Definition moved_f' : consentFence := Eval vm_compute in (applyLocked moved_f (latest (Some demo_source))).2.
Definition moved_g : consentFence := Eval vm_compute in set_mark moved_f' 2 None.
Definition moved_h : consentFence := Eval vm_compute in started_fence 2.

(** A start whose spool lost frame 2 drops the decision on it from memory only: the frame that gets sequence 2 next goes
    out as it is, with nothing written, and the start after that withholds it. *)
Lemma dropped_range_returns : let rec := the_frame [demo_frame; demo_other] 2 in
  newConsentFence demo_ev (Some demo_source) 1 moved_disk = ([moved_disk; moved_disk], Ok (Ok moved_f, []), moved_disk)
  /\ decide demo_ev (Some demo_source) moved_f [rec] moved_disk = ([], Ok (Ok [rec], moved_f', []), moved_disk)
  /\ beforeSend demo_ev moved_f' (mkRange 2 2) moved_disk = ([], Ok (None, moved_g), moved_disk)
  /\ newConsentFence demo_ev (Some demo_source) 2 moved_disk = ([moved_disk; moved_disk], Ok (Ok moved_h, []), moved_disk)
  /\ member (fn_withheld moved_h) 2.
Proof.
  cbv zeta. split; [vm_compute; reflexivity|]. split; [vm_compute; reflexivity|]. split; [vm_compute; reflexivity|].
  split; [vm_compute; reflexivity|]. apply member_cons. left. cbn. lia.
Qed.
