(* ===== verification/Retry.v ===== *)
(** * Delivery ([internal/observer/upload/retry.go])

    The classification of an attempt, the capped jittered backoff, and [Deliver]: the loop that sends
    one plan until it is acknowledged, held, or out of attempts. What the code does through its seams
    ([Sender], [RetryPolicy.Sleep], [RetryPolicy.Jitter]) is the class [Delivery], over a state [W]
    that stands for the network and the clock. *)

From S2P Require Import Prelude Hash SpoolTypes Frame Fs GoStrings Segment Sidecar Recover Compact Ack Json.
From S2P Require Import Batch.

Inductive Disposition : Type := DispositionSuccess | DispositionRetry | DispositionHold.

#[export] Instance Disposition_eq_dec : EqDecision Disposition.
Proof. solve_decision. Defined.

(** The sentinel an error of [Send] matches. *)
Inductive send_error : Type :=
| ErrUnsupportedContentEncoding
| ErrSourceMismatch
| ErrEmptyCredential
| ErrRedirectRefused
| TransportError
| OtherSendError.

#[export] Instance send_error_eq_dec : EqDecision send_error.
Proof. solve_decision. Defined.

(** [wire.IngestAck] and [wire.ObserverErrorBody] (its code and message). *)
Record IngestAck : Type := mkAck {
  AckSourceId : bytes;
  AcknowledgedThroughSequence : Z;
  Accepted : Z;
  Duplicates : Z;
}.
Record ObserverErrorBody : Type := mkErrorBody { eb_Code : bytes; eb_Message : bytes }.

Record Attempt : Type := mkAttempt {
  at_StatusCode : Z;
  at_Ack : option IngestAck;
  at_ErrorBody : option ObserverErrorBody;
  at_RetryAfter : Z;
}.

(** The reason text of a hold, with the values formatted into it. *)
Inductive reason : Type :=
| ReasonText (s : bytes)
| ReasonAckHead (got sent : Z)
| ReasonAckCount (accepted duplicates len : Z)
| ReasonAckRejected (e : spool_error).

Record OperatorError : Type := mkOperatorError {
  oe_Reason : reason;
  oe_Status : Z;
  oe_Code : bytes;
  oe_Message : bytes;
}.

Definition holdError (why : bytes) (att : Attempt) : OperatorError :=
  match at_ErrorBody att with
  | Some b => mkOperatorError (ReasonText why) (at_StatusCode att) (eb_Code b) (eb_Message b)
  | None => mkOperatorError (ReasonText why) (at_StatusCode att) [] []
  end.

(** An attempt or an error, as [Send] returns them ([nil, nil] included). *)
Definition outcome : Type := option Attempt * option send_error.

Definition Classify (o : outcome) : Disposition * option OperatorError :=
  match o with
  | (_, Some ErrUnsupportedContentEncoding) =>
      (DispositionHold, Some (mkOperatorError (ReasonText (str "unsupported response content-encoding")) 0 [] []))
  | (_, Some ErrSourceMismatch) =>
      (DispositionHold,
       Some (mkOperatorError (ReasonText (str "batch source_id does not match source binding")) 0 [] []))
  | (_, Some _) => (DispositionRetry, None)
  | (None, None) => (DispositionRetry, None)
  | (Some att, None) =>
      let s := at_StatusCode att in
      if s =? 200 then (DispositionSuccess, None)
      else if s =? 429 then (DispositionRetry, None)
      else if s =? 400 then (DispositionHold, Some (holdError (str "schema / unsupported schema version") att))
      else if s =? 401 then (DispositionHold, Some (holdError (str "unauthenticated") att))
      else if s =? 403 then (DispositionHold, Some (holdError (str "forbidden") att))
      else if s =? 409 then
        (DispositionHold, Some (holdError (str "sequence / binding / observation conflict") att))
      else if s =? 413 then (DispositionHold, Some (holdError (str "payload too large") att))
      else if s =? 422 then
        (DispositionHold, Some (holdError (str "unprocessable / range not contiguous") att))
      else if (500 <=? s) && (s <=? 599) then (DispositionRetry, None)
      else (DispositionHold, Some (holdError (str "unexpected status") att))
  end.

(** ** The retry policy; durations are nanoseconds *)

Record RetryPolicy : Type := mkPolicy { rp_MaxAttempts : Z; rp_BaseDelay : Z; rp_MaxDelay : Z }.

Definition maxAttempts (p : RetryPolicy) : Z := if rp_MaxAttempts p <=? 0 then 6 else rp_MaxAttempts p.
Definition baseDelay (p : RetryPolicy) : Z := if rp_BaseDelay p <=? 0 then 200000000 else rp_BaseDelay p.
Definition maxDelay (p : RetryPolicy) : Z := if rp_MaxDelay p <=? 0 then 30000000000 else rp_MaxDelay p.

(** ** The loop *)

(** [Send] over the network, a sleep ([false]: the context ended), and the jitter of a step, that is
    [time.Duration(p.jitter() * float64(half))], over the state [W] they share. *)
Class Delivery (W : Type) : Type := {
  Send : Plan -> W -> outcome * W;
  Sleep : Z -> W -> bool * W;
  Jitter : Z -> W -> Z * W;
}.

(** What the code relies on: a jitter in [0, 1) of a step. *)
Class DeliveryLaws (W : Type) `{Delivery W} : Prop :=
  Jitter_range : forall half w, 0 <= half -> 0 <= (Jitter half w).1 <= half.

Definition backoff {W} `{Delivery W} (p : RetryPolicy) (attempt retryAfter : Z) (w : W) : Z * W :=
  if 0 <? retryAfter then (retryAfter, w)
  else
    let computed := i64 (Z.shiftl (baseDelay p) (attempt - 1)) in
    let computed := if (computed <=? 0) || (maxDelay p <? computed) then maxDelay p else computed in
    let half := computed / 2 in
    let '(j, w) := Jitter half w in (half + j, w).

Record Deliverer : Type := mkDeliverer { dl_SourceID : bytes; dl_Policy : RetryPolicy }.

(** [NilAttempt] is no error of the code: it marks the dereference of a nil attempt, which
    [Deliver_spec] shows is never reached. *)
Inductive deliver_error : Type :=
| ErrEmptySourceID
| ErrHeld (oe : OperatorError)
| ErrRetriesExhausted (attempts : Z)
| ErrPersist (e : spool_error)
| ErrContext
| NilAttempt.

(** [isAckRejection]. *)
Definition isAckRejection (e : spool_error) : bool :=
  match e with
  | ErrAckBeyondSent _ | ErrAckBeyondDurable _ _ | ErrAckBackward _ _ | ErrAckGap _ _ => true
  | _ => false
  end.

Definition corrupt (r : reason) (att : Attempt) : deliver_error := ErrHeld (mkOperatorError r (at_StatusCode att) [] []).

(** The error ([None]: acknowledged), the ack state and the directory. *)
Definition acknowledge (ev : env) (dl : Deliverer) (att : Attempt) (plan : Plan) (a : AckState) (d : disk)
  : option deliver_error * AckState * disk :=
  match at_Ack att with
  | None => (Some (corrupt (ReasonText (str "corrupt acknowledgement (undecodable ack body)")) att), a, d)
  | Some ack =>
      let r := pl_Range plan in
      if negb (bool_decide (AckSourceId ack = dl_SourceID dl))
      then (Some (corrupt (ReasonText (str "corrupt acknowledgement (source binding mismatch)")) att), a, d)
      else
        let rangeLen := i64 (i64 (LastSequence r - FirstSequence r) + 1) in
        if negb (AcknowledgedThroughSequence ack =? LastSequence r)
        then (Some (corrupt (ReasonAckHead (AcknowledgedThroughSequence ack) (LastSequence r)) att), a, d)
        else if negb (i64 (Accepted ack + Duplicates ack) =? rangeLen)
        then (Some (corrupt (ReasonAckCount (Accepted ack) (Duplicates ack) rangeLen) att), a, d)
        else
          let '(_, res, d') := Acknowledge ev (AcknowledgedThroughSequence ack) a d in
          match res with
          | Ok a' => (None, a', d')
          | Err e => if isAckRejection e then (Some (corrupt (ReasonAckRejected e) att), a, d')
                     else (Some (ErrPersist e), a, d')
          end
  end.

Section deliver.
Context {W : Type} `{Delivery W}.
Variables (ev : env) (dl : Deliverer) (plan : Plan).

(** Attempts [attempt], [attempt + 1], ...; [n] are left. The log holds every outcome, in order. *)
Fixpoint deliver_loop (n : nat) (attempt : Z) (a : AckState) (d : disk) (w : W)
  : option deliver_error * AckState * disk * W * list outcome :=
  match n with
  | O => (Some (ErrRetriesExhausted (attempt - 1)), a, d, w, [])
  | S n' =>
      let '(o, w) := Send plan w in
      match Classify o with
      | (DispositionSuccess, _) =>
          match o with
          | (Some att, _) =>
              let '(r, a', d') := acknowledge ev dl att plan a d in (r, a', d', w, [o])
          | (None, _) => (Some NilAttempt, a, d, w, [o])
          end
      | (DispositionHold, Some oe) => (Some (ErrHeld oe), a, d, w, [o])
      | (DispositionHold, None) => (Some NilAttempt, a, d, w, [o])
      | (DispositionRetry, _) =>
          match n' with
          | O => (Some (ErrRetriesExhausted attempt), a, d, w, [o])
          | _ =>
              let retryAfter := match o with
                                | (Some att, _) => if at_StatusCode att =? 429 then at_RetryAfter att else 0
                                | _ => 0
                                end in
              let '(delay, w) := backoff (dl_Policy dl) attempt retryAfter w in
              let '(awake, w) := Sleep delay w in
              if awake : bool
              then let '(r, a', d', w', log) := deliver_loop n' (attempt + 1) a d w in (r, a', d', w', o :: log)
              else (Some ErrContext, a, d, w, [o])
          end
      end
  end.

Definition Deliver (a : AckState) (d : disk) (w : W)
  : option deliver_error * AckState * disk * W * list outcome :=
  if bool_decide (dl_SourceID dl = []) then (Some ErrEmptySourceID, a, d, w, [])
  else deliver_loop (Z.to_nat (maxAttempts (dl_Policy dl))) 1 a d w.
End deliver.

(** ** Classification *)

(** Classification is total and reads only the error and the status: success is exactly a 200 without
    an error; a retry is exactly a transient failure (an error that is neither sentinel, no attempt, 429
    or 5xx); anything else is a hold with an operator error that carries the attempt's status and the
    server's code. *)
Theorem Classify_spec o :
  match Classify o with
  | (DispositionSuccess, oe) => oe = None /\ exists att, o = (Some att, None) /\ at_StatusCode att = 200
  | (DispositionRetry, oe) =>
      oe = None /\
      match o with
      | (_, Some e) => e <> ErrUnsupportedContentEncoding /\ e <> ErrSourceMismatch
      | (None, None) => True
      | (Some att, None) => at_StatusCode att = 429 \/ 500 <= at_StatusCode att <= 599
      end
  | (DispositionHold, oe) =>
      exists e, oe = Some e /\
      match o with
      | (_, Some se) => (se = ErrUnsupportedContentEncoding \/ se = ErrSourceMismatch) /\ oe_Status e = 0
      | (None, None) => False
      | (Some att, None) =>
          at_StatusCode att <> 200 /\ at_StatusCode att <> 429 /\ ~ (500 <= at_StatusCode att <= 599)
          /\ oe_Status e = at_StatusCode att
          /\ oe_Code e = default [] (eb_Code <$> at_ErrorBody att)
      end
  end.
Proof.
  destruct o as [[att|] [e|]]; cbn [Classify].
  - destruct e; try done; eexists; (split; [done|split; [auto|done]]).
  - assert (Hh : forall why, oe_Status (holdError why att) = at_StatusCode att
      /\ oe_Code (holdError why att) = default [] (eb_Code <$> at_ErrorBody att)) by
      (intros why; unfold holdError; by destruct (at_ErrorBody att)).
    repeat match goal with
    | |- context [if ?b then _ else _] => destruct b eqn:?; bool_to_prop
    end; try (split; [done|]; first [by eexists|lia]); eexists; (split; [reflexivity|]); (split_and!; [lia..| | |]);
      try apply Hh; intros ?;
      match goal with H : (_ && _) = false |- _ => apply andb_false_iff in H as [H|H]; bool_to_prop; lia | _ => lia end.
  - destruct e; try done; eexists; (split; [done|split; [auto|done]]).
  - done.
Qed.

(** ** Backoff *)

(** The delay before a retry: an explicit Retry-After as asked, otherwise at least half and at most
    all of a step that is positive and capped by the policy, whatever the attempt number and however
    the shift wraps. *)
Theorem backoff_spec {W} `{DeliveryLaws W} p attempt retryAfter (w : W) :
  let '(delay, _) := backoff p attempt retryAfter w in
  (0 < retryAfter /\ delay = retryAfter)
  \/ (retryAfter <= 0 /\ exists step, 1 <= step <= maxDelay p
      /\ (in_i64 (baseDelay p * 2 ^ (attempt - 1)) -> 1 <= attempt -> step = Z.min (maxDelay p) (baseDelay p * 2 ^ (attempt - 1)))
      /\ step / 2 <= delay <= 2 * (step / 2)).
Proof.
  unfold backoff. destruct (Z.ltb_spec 0 retryAfter) as [Hr|Hr]; [by left|].
  assert (Hm : 1 <= maxDelay p) by (unfold maxDelay; destruct (Z.leb_spec (rp_MaxDelay p) 0); lia).
  assert (Hb : 1 <= baseDelay p) by (unfold baseDelay; destruct (Z.leb_spec (rp_BaseDelay p) 0); lia).
  cbv zeta. set (c := i64 (Z.shiftl (baseDelay p) (attempt - 1))).
  set (step := if (c <=? 0) || (maxDelay p <? c) then maxDelay p else c).
  assert (Hstep : 1 <= step <= maxDelay p).
  { unfold step. destruct ((c <=? 0) || (maxDelay p <? c)) eqn:E; [lia|]. bool_to_prop. lia. }
  pose proof (Jitter_range (step / 2) w ltac:(apply Z.div_pos; lia)) as Hj.
  destruct (Jitter (step / 2) w) as [j w']. cbn in Hj. right. split; [lia|]. exists step.
  split; [done|]. split; [|lia]. intros Hin Ha.
  assert (Hc : c = baseDelay p * 2 ^ (attempt - 1)) by (unfold c; rewrite Z.shiftl_mul_pow2 by lia; by apply i64_id).
  assert (0 < 2 ^ (attempt - 1)) by (apply Z.pow_pos_nonneg; lia).
  unfold step. destruct ((c <=? 0) || (maxDelay p <? c)) eqn:E; [|bool_to_prop; lia].
  apply orb_prop in E as [E|E]; bool_to_prop; [nia|lia].
Qed.

(** ** Acknowledging the outstanding range *)

Definition acked (a : AckState) (last : Z) : AckState :=
  mkAckState last (ak_highestDurable a) (ak_maxInFlight a) None.

Lemma acknowledge_last ev r a d :
  ack_wf a -> InFlight a = Some r ->
  let '(_, res, d') := Acknowledge ev (LastSequence r) a d in
  match res with
  | Ok a' => a' = acked a (LastSequence r) /\ file DRoot ackFilename d' = Some (encodeAck (LastSequence r))
  | Err e => exists op, e = ErrIO op
  end.
Proof.
  intros (H1&H2&H3&H4) Hr. unfold InFlight in Hr. rewrite Hr in H4. unfold Acknowledge.
  rewrite (proj2 (Z.ltb_ge (LastSequence r) _)), (proj2 (Z.eqb_neq (LastSequence r) _)),
    (proj2 (Z.ltb_ge _ (LastSequence r))) by lia.
  rewrite Hr, Z.ltb_irrefl, Z.eqb_refl.
  pose proof (atomic_write_new ev DRoot ackFilename (encodeAck (LastSequence r)) d d eq_refl) as Hw.
  unfold io_bind, writeAck. destruct (atomicWriteFile _ _ _ _ d) as [[t [u|e]] d1] eqn:E.
  - cbn. split; [done|]. destruct Hw as [_ ((_&Hd&_)&_)]. by apply file_lookup.
  - eapply atomicWriteFile_only. exact E.
Qed.

(** A 200 whose body acknowledges exactly the plan's range. *)
Definition valid_ack (dl : Deliverer) (plan : Plan) (att : Attempt) : Prop :=
  exists ack, at_Ack att = Some ack /\ AckSourceId ack = dl_SourceID dl
    /\ AcknowledgedThroughSequence ack = LastSequence (pl_Range plan)
    /\ i64 (Accepted ack + Duplicates ack) = LastSequence (pl_Range plan) - FirstSequence (pl_Range plan) + 1.

(** The results of acknowledging: the watermark moves to the end of the range exactly on a valid ack
    that persists; on an invalid one nothing changes, in memory or on disk. *)
Definition ack_outcome (dl : Deliverer) (plan : Plan) (att : Attempt) (a : AckState) (d : disk)
    (res : option deliver_error * AckState * disk) : Prop :=
  match res with
  | (None, a', d') =>
      valid_ack dl plan att /\ a' = acked a (LastSequence (pl_Range plan))
      /\ file DRoot ackFilename d' = Some (encodeAck (LastSequence (pl_Range plan)))
  | (Some (ErrHeld oe), a', d') => ~ valid_ack dl plan att /\ a' = a /\ d' = d /\ oe_Status oe = at_StatusCode att
  | (Some (ErrPersist e), a', _) => valid_ack dl plan att /\ a' = a /\ exists op, e = ErrIO op
  | _ => False
  end.

Lemma acknowledge_run ev dl plan att a d :
  ack_wf a -> InFlight a = Some (pl_Range plan) ->
  ack_outcome dl plan att a d (acknowledge ev dl att plan a d).
Proof.
  intros Hwf Hr. unfold acknowledge, ack_outcome, valid_ack. set (r := pl_Range plan) in *.
  destruct (at_Ack att) as [ack|]; [|split_and!; [by intros (?&?&_)|done..]].
  assert (Hb : 1 <= FirstSequence r /\ FirstSequence r <= LastSequence r <= MaxInt64).
  { pose proof Hwf as (H1&H2&H3&H4). unfold InFlight in Hr. rewrite Hr in H4. lia. }
  destruct (bool_decide (AckSourceId ack = dl_SourceID dl)) eqn:E1; cbn [negb]; bool_to_prop;
    [|split_and!; [intros (k&[=<-]&?&_); done|done..]].
  destruct (Z.eqb_spec (AcknowledgedThroughSequence ack) (LastSequence r)) as [E2|E2]; cbn [negb];
    [|split_and!; [intros (k&[=<-]&_&?&_); done|done..]].
  rewrite (i64_id (LastSequence r - FirstSequence r)), (i64_id (LastSequence r - FirstSequence r + 1))
    by (unfold in_i64, MaxInt64 in *; lia).
  destruct (Z.eqb_spec (i64 (Accepted ack + Duplicates ack)) (LastSequence r - FirstSequence r + 1)) as [E3|E3];
    cbn [negb]; [|split_and!; [intros (k&[=<-]&_&_&?); done|done..]].
  rewrite E2. pose proof (acknowledge_last ev r a d Hwf Hr) as Hl.
  destruct (Acknowledge ev (LastSequence r) a d) as [[t [a'|e]] d'].
  - destruct Hl as [-> Hl]. split; [by exists ack|done].
  - destruct Hl as [op ->]. cbn [isAckRejection]. split; [by exists ack|]. split; [done|by exists op].
Qed.

(** ** The loop *)

Definition is_retry (o : outcome) : Prop := (Classify o).1 = DispositionRetry.

(** What a delivery that logged [log] may end with. *)
Definition deliver_outcome (dl : Deliverer) (plan : Plan) (budget : Z) (a : AckState) (d : disk)
    (r : option deliver_error) (a' : AckState) (d' : disk) (log : list outcome) : Prop :=
  match r with
  | Some ErrEmptySourceID => False
  | Some NilAttempt => False
  | Some ErrContext => a' = a /\ d' = d /\ Forall is_retry log
  | Some (ErrRetriesExhausted n) => a' = a /\ d' = d /\ Forall is_retry log /\ zlen log = budget
  | _ =>
      exists before o, log = before ++ [o] /\ Forall is_retry before /\
      match Classify o with
      | (DispositionRetry, _) => False
      | (DispositionHold, oe) => exists e, oe = Some e /\ r = Some (ErrHeld e) /\ a' = a /\ d' = d
      | (DispositionSuccess, _) => exists att, o = (Some att, None) /\ ack_outcome dl plan att a d (r, a', d')
      end
  end.

Section loop.
Context {W : Type} `{Delivery W}.
Variables (ev : env) (dl : Deliverer) (plan : Plan) (a : AckState) (d : disk).
Hypothesis (Hwf : ack_wf a) (Hr : InFlight a = Some (pl_Range plan)).

Lemma deliver_loop_run n attempt w :
  (1 <= n)%nat ->
  let '(r, a', d', _, log) := deliver_loop ev dl plan n attempt a d w in
  deliver_outcome dl plan (Z.of_nat n) a d r a' d' log /\ (1 <= length log <= n)%nat.
Proof.
  revert attempt w. induction n as [|n IH]; [lia|]. intros attempt w _. cbn [deliver_loop].
  destruct (Send plan w) as [o w1]. pose proof (Classify_spec o) as Hc.
  destruct (Classify o) as [[] oe] eqn:Eo.
  - destruct Hc as (_&att&->&_). pose proof (acknowledge_run ev dl plan att a d Hwf Hr) as Ha.
    destruct (acknowledge ev dl att plan a d) as [[r a'] d'] eqn:Ea. split; [|cbn; lia].
    destruct r as [[]|]; try (by destruct Ha); exists [], (Some att, None); rewrite Eo;
      (split; [done|split; [done|by exists att]]).
  - assert (Ho : is_retry o) by (unfold is_retry; by rewrite Eo).
    destruct n as [|n].
    { cbn. split; [|lia]. split_and!; [done..| |done]. by constructor. }
    set (ra := match o with (Some att, _) => _ | _ => _ end). destruct (backoff _ attempt ra w1) as [delay w2].
    destruct (Sleep delay w2) as [awake w3]. destruct awake.
    + specialize (IH (attempt + 1) w3 ltac:(lia)).
      destruct (deliver_loop ev dl plan (S n) (attempt + 1) a d w3) as [[[[r a'] d'] w'] log].
      destruct IH as [IH Hlen]. split; [|cbn; lia]. unfold deliver_outcome in *.
      destruct r as [[]|]; try done;
        try (destruct IH as (before&o'&->&Hb&Hm); exists (o :: before), o'; split; [done|split; [by constructor|done]]).
      * destruct IH as (?&?&?&?). split_and!; [done..|by constructor|]. unfold zlen in *. cbn [length]. lia.
      * destruct IH as (?&?&?). split_and!; [done..|by constructor].
    + split; [|cbn; lia]. split_and!; [done..|by constructor].
  - destruct Hc as (e&->&_). split; [|cbn; lia]. exists [], o. rewrite Eo.
    split; [done|split; [done|by exists e]].
Qed.
End loop.

Lemma Deliver_run {W} `{Delivery W} ev dl plan a d (w : W) :
  dl_SourceID dl <> [] -> ack_wf a -> InFlight a = Some (pl_Range plan) ->
  let '(r, a', d', _, log) := Deliver ev dl plan a d w in
  deliver_outcome dl plan (maxAttempts (dl_Policy dl)) a d r a' d' log
  /\ 1 <= zlen log <= maxAttempts (dl_Policy dl).
Proof.
  intros Hs Hwf Hr. unfold Deliver. rewrite bool_decide_eq_false_2 by done.
  assert (Hm : 1 <= maxAttempts (dl_Policy dl)).
  { unfold maxAttempts. destruct (Z.leb_spec (rp_MaxAttempts (dl_Policy dl)) 0); lia. }
  pose proof (deliver_loop_run ev dl plan a d Hwf Hr (Z.to_nat (maxAttempts (dl_Policy dl))) 1 w ltac:(lia)) as Hl.
  destruct (deliver_loop _ _ _ _ _ _ _ _) as [[[[r a'] d'] w'] log]. rewrite Z2Nat.id in Hl by lia.
  destruct Hl as [Ho Hl]. split; [done|]. unfold zlen. lia.
Qed.

Lemma Deliver_state {W} `{Delivery W} ev dl plan a d (w : W) :
  dl_SourceID dl <> [] -> ack_wf a -> InFlight a = Some (pl_Range plan) ->
  let '(r, a', _, _, _) := Deliver ev dl plan a d w in
  a' = match r with None => acked a (LastSequence (pl_Range plan)) | Some _ => a end.
Proof.
  intros Hs Hwf Hr. pose proof (Deliver_run ev dl plan a d w Hs Hwf Hr) as Hd.
  destruct (Deliver ev dl plan a d w) as [[[[r a'] d'] w'] log]. destruct Hd as [Hd _].
  unfold deliver_outcome in Hd. destruct r as [[]|]; try (by destruct Hd);
    destruct Hd as (before&o&_&_&Hd); destruct (Classify o) as [[] oe']; try done;
    try (by destruct Hd as (?&_&?&?&?)); destruct Hd as (att&_&Hd); cbn in *; tauto.
Qed.

(** C10: one delivery of the outstanding plan, whatever the network answers. It ends after at least one
    and at most the policy's number of attempts, all but the last of them transient; it succeeds exactly
    when the last one is a 200 acknowledging the plan's source, range end and count, and then the
    watermark is the end of the range, in memory and in the sidecar; every other end (a hold, an
    exhausted budget, an ended context, a failed sidecar write) keeps the watermark and the range in
    flight, and all but the last keep the directory. *)
Theorem Deliver_spec {W} `{Delivery W} ev dl plan a d (w : W) :
  dl_SourceID dl <> [] -> ack_wf a -> InFlight a = Some (pl_Range plan) ->
  let '(r, a', d', _, log) := Deliver ev dl plan a d w in
  deliver_outcome dl plan (maxAttempts (dl_Policy dl)) a d r a' d' log
  /\ 1 <= zlen log <= maxAttempts (dl_Policy dl).
Proof. apply Deliver_run. Qed.

(** ** Witnesses *)

(** A scripted network: the outcomes to come. *)
#[export] Instance scripted : Delivery (list outcome) := {
  Send := fun _ w => match w with o :: w' => (o, w') | [] => ((None, None), []) end;
  Sleep := fun _ w => (true, w);
  Jitter := fun half w => (half / 3, w);
}.

#[export] Instance scripted_laws : DeliveryLaws (list outcome).
Proof.
  intros half w Hh. cbn. split; [apply Z.div_pos; lia|]. apply Z.div_le_upper_bound; lia.
Qed.

Lemma backoff_spec_witness :
  backoff (mkPolicy 0 0 0) 3 0 ([] : list outcome) = (533333333, [])
  /\ ((0 < 0 /\ 533333333 = 0)
      \/ (0 <= 0 /\ exists step, 1 <= step <= 30000000000
          /\ (in_i64 (200000000 * 2 ^ (3 - 1)) -> 1 <= 3 -> step = Z.min 30000000000 (200000000 * 2 ^ (3 - 1)))
          /\ step / 2 <= 533333333 <= 2 * (step / 2))).
Proof. split; [vm_compute; reflexivity|]. exact (backoff_spec (mkPolicy 0 0 0) 3 0 ([] : list outcome)). Defined.

Definition demo_deliverer : Deliverer := mkDeliverer (str "src") (mkPolicy 3 0 0).
Definition demo_script : list outcome :=
  [(None, Some TransportError); (Some (mkAttempt 200 (Some (mkAck (str "src") 2 1 1)) None 0), None)].

Lemma Deliver_spec_witness :
  let '(r, a', d', _, log) := Deliver demo_env demo_deliverer demo_plan demo_batch_ack2 demo_disk demo_script in
  r = None /\ a' = mkAckState 2 3 1000 None
  /\ deliver_outcome demo_deliverer demo_plan 3 demo_batch_ack2 demo_disk r a' d' log /\ 1 <= zlen log <= 3.
Proof.
  assert (H := Deliver_spec demo_env demo_deliverer demo_plan demo_batch_ack2 demo_disk demo_script).
  destruct (Deliver demo_env demo_deliverer demo_plan demo_batch_ack2 demo_disk demo_script)
    as [[[[r a'] d'] w'] log] eqn:E.
  assert (Hr : (Deliver demo_env demo_deliverer demo_plan demo_batch_ack2 demo_disk demo_script).1.1.1.1 = None
    /\ (Deliver demo_env demo_deliverer demo_plan demo_batch_ack2 demo_disk demo_script).1.1.1.2 = mkAckState 2 3 1000 None)
    by (split; vm_compute; reflexivity).
  rewrite E in Hr. destruct Hr as [Hr Ha]. split; [exact Hr|]. split; [exact Ha|]. apply H.
  - discriminate.
  - unfold ack_wf, MaxInt64. cbn. lia.
  - reflexivity.
Defined.
