(* ===== verification/Client.v ===== *)
(** * The Collector client ([internal/observer/upload/client.go])

    Configuration and its floors, the credential sources, the request a client builds, and [Send] and
    [Capabilities] over a network that answers as a function of what was exchanged before: the world of
    a client is the history of its exchanges and token reads. The instance at the end is the [Delivery]
    the retry loop runs on. *)

From S2P Require Import Prelude Hash SpoolTypes Frame Fs GoStrings Segment Sidecar Recover Compact Ack Json JsonText.
From S2P Require Import GoTime GoJson WireTypes StrictDecode Batch Retry GoNet.

Definition capabilitiesPath : bytes := str "/v1/observer-capabilities".

(** Durations are nanoseconds. *)
Definition Second : Z := 1000000000.
Definition DefaultAttemptTimeout : Z := 30 * Second.
Definition DefaultContentTimeout : Z := 10 * 60 * Second.
Definition maxResponseBytes : Z := Z.shiftl 1 20.
Definition DefaultHelperTimeout : Z := 5 * Second.
Definition DefaultHelperMaxOutput : Z := Z.shiftl 64 10.

(** ** Credential sources *)

(** The end of a context. *)
Inductive context_error : Type := DeadlineExceeded | Canceled.

Inductive token_error : Type :=
| TokContext (e : context_error)
| TokReadFile
| TokEmpty                       (** [ErrEmptyCredential] *)
| TokHelper (reason : bytes).    (** [HelperError]: a reason without output *)

(** [TokenFileSource.Token]: the context's end and what reading the file gives. *)
Definition TokenFileSource_Token (ctx : option context_error) (file : option bytes) : result token_error bytes :=
  match ctx with
  | Some e => Err (TokContext e)
  | None =>
      match file with
      | None => Err TokReadFile
      | Some b => let tok := TrimSpace b in if bool_decide (tok = []) then Err TokEmpty else Ok tok
      end
  end.

(** [boundedBuffer]; [bb_killed] counts the calls of [onOverflow]. *)
Record boundedBuffer : Type := mkBuffer { bb_buf : bytes; bb_seen : Z; bb_limit : Z; bb_overflow : bool; bb_killed : nat }.

Definition bb_Write (b : boundedBuffer) (p : bytes) : boundedBuffer * Z :=
  let seen := i64 (bb_seen b + zlen p) in
  let room := bb_limit b - zlen (bb_buf b) in
  let buf := if 0 <? room then bb_buf b ++ take (Z.to_nat (if room <? zlen p then room else zlen p)) p else bb_buf b in
  let over := (bb_limit b <? seen) && negb (bb_overflow b) in
  (mkBuffer buf seen (bb_limit b) (bb_overflow b || over) (if over then S (bb_killed b) else bb_killed b), zlen p).

Record HelperSource : Type := mkHelper { h_Argv : list bytes; h_Timeout : Z; h_MaxOutput : Z }.

Definition helper_timeout (h : HelperSource) : Z := if h_Timeout h <=? 0 then DefaultHelperTimeout else h_Timeout h.
Definition helper_max_output (h : HelperSource) : Z := if h_MaxOutput h <=? 0 then DefaultHelperMaxOutput else h_MaxOutput h.

(** How [cmd.Run] fails. *)
Inductive run_error : Type := RunWaitDelay | RunExit (code : Z) | RunNotFound | RunOther.

Definition sanitizedExitReason (e : run_error) : bytes :=
  match e with
  | RunExit code => str "exit " ++ FormatInt code
  | RunNotFound => str "helper not found"
  | _ => str "not executable"
  end.

(** One run of the helper: the writes to its stdout, the state of its context afterwards, its error. *)
Record helper_run : Type := mkRun { hr_writes : list bytes; hr_ctx : option context_error; hr_err : option run_error }.

Definition captured (h : HelperSource) (run : helper_run) : boundedBuffer :=
  fold_left (fun b p => (bb_Write b p).1) (hr_writes run) (mkBuffer [] 0 (helper_max_output h) false 0).

(** [run] is one bounded execution of an argument vector. *)
Definition HelperSource_Token (h : HelperSource) (run : list bytes -> Z -> helper_run) : result token_error bytes :=
  match h_Argv h with
  | [] => Err (TokHelper (str "no argv configured"))
  | argv =>
      let run := run argv (helper_timeout h) in
      let out := captured h run in
      if bb_overflow out then Err (TokHelper (str "output exceeded bound"))
      else
        match hr_ctx run, hr_err run with
        | Some DeadlineExceeded, _ => Err (TokHelper (str "timed out"))
        | Some Canceled, _ => Err (TokHelper (str "canceled"))
        | None, Some RunWaitDelay => Err (TokHelper (str "helper i/o not closed"))
        | None, Some e => Err (TokHelper (sanitizedExitReason e))
        | None, None =>
            let tok := TrimSpace (bb_buf out) in
            if bool_decide (tok = []) then Err (TokHelper (str "empty token")) else Ok tok
        end
  end.

(** ** Configuration *)

(** [cf_Credential]: whether a source is configured; certificates are opaque. *)
Record Config (cert : Type) : Type := mkConfig {
  cf_Endpoint : option URL;
  cf_SourceID : bytes;
  cf_Credential : bool;
  cf_CustomCAs : list (option cert);
  cf_Proxy : option URL;
  cf_AttemptTimeout : Z;
  cf_ContentTimeout : Z;
  cf_AllowLoopbackHTTP : bool;
  cf_TLSMinVersion : Z
}.
Arguments cf_Endpoint {cert}.
Arguments cf_SourceID {cert}.
Arguments cf_Credential {cert}.
Arguments cf_CustomCAs {cert}.
Arguments cf_Proxy {cert}.
Arguments cf_AttemptTimeout {cert}.
Arguments cf_ContentTimeout {cert}.
Arguments cf_AllowLoopbackHTTP {cert}.
Arguments cf_TLSMinVersion {cert}.

Inductive client_error : Type :=
| CeNilEndpoint
| CeInsecureScheme
| CeNilCredential
| CeEmptySourceID
| CeSystemCertPool.

(** The client: endpoint, source, proxy, trust anchors ([None]: the system's), TLS floor, timeouts. *)
Record Client (cert : Type) : Type := mkClient {
  c_base : URL;
  c_sourceID : bytes;
  c_proxy : option URL;
  c_rootCAs : option (list cert);
  c_minVersion : Z;
  c_timeout : Z;
  c_contentTimeout : Z
}.
Arguments mkClient {cert}.
Arguments c_base {cert}.
Arguments c_sourceID {cert}.
Arguments c_proxy {cert}.
Arguments c_rootCAs {cert}.
Arguments c_minVersion {cert}.
Arguments c_timeout {cert}.
Arguments c_contentTimeout {cert}.

Definition isLoopbackHost (host : bytes) : bool :=
  bool_decide (host = str "localhost") || match ParseIP host with Some ip => IsLoopback ip | None => false end.

Definition checkScheme (u : URL) (allowLoopbackHTTP : bool) : result client_error unit :=
  if bool_decide (u_Scheme u = str "https") then Ok tt
  else if bool_decide (u_Scheme u = str "http") then
    if allowLoopbackHTTP && isLoopbackHost (Hostname u) then Ok tt else Err CeInsecureScheme
  else Err CeInsecureScheme.

Definition VersionTLS12 : Z := 0x0303.

(** [pool] is what [systemCertPool] gives: its error ([None]), or its certificates unless it is nil. *)
Definition buildTLSConfig {cert} (pool : option (option (list cert))) (cfg : Config cert)
  : result client_error (Z * option (list cert)) :=
  let min := if cf_TLSMinVersion cfg <? VersionTLS12 then VersionTLS12 else cf_TLSMinVersion cfg in
  match cf_CustomCAs cfg with
  | [] => Ok (min, None)
  | cas =>
      match pool with
      | None | Some None => Err CeSystemCertPool
      | Some (Some roots) => Ok (min, Some (roots ++ omap (fun c => c) cas))
      end
  end.

Definition proxyFunc (p : option URL) : option URL := p.
Definition attemptTimeoutOrDefault (d : Z) : Z := if d <=? 0 then DefaultAttemptTimeout else d.
Definition contentTimeoutOrDefault (d : Z) : Z := if d <=? 0 then DefaultContentTimeout else d.

Definition NewClient {cert} (pool : option (option (list cert))) (cfg : Config cert) : result client_error (Client cert) :=
  match cf_Endpoint cfg with
  | None => Err CeNilEndpoint
  | Some u =>
      _ ← checkScheme u (cf_AllowLoopbackHTTP cfg);
      if negb (cf_Credential cfg) then Err CeNilCredential
      else if bool_decide (cf_SourceID cfg = []) then Err CeEmptySourceID
      else
        '(min, roots) ← buildTLSConfig pool cfg;
        Ok (mkClient (with_path (TrimRight x2f (u_Path u)) u) (cf_SourceID cfg) (proxyFunc (cf_Proxy cfg))
              roots min (attemptTimeoutOrDefault (cf_AttemptTimeout cfg)) (contentTimeoutOrDefault (cf_ContentTimeout cfg)))
  end.

(** ** Requests and responses *)

Record Request : Type := mkRequest {
  rq_Method : bytes;
  rq_URL : URL;
  rq_Header : list (bytes * bytes);
  rq_Body : option bytes
}.

(** A response: its headers by name, its body, and whether reading the body fails. *)
Record Response : Type := mkResponse {
  rs_StatusCode : Z;
  rs_Header : bytes -> bytes;
  rs_Body : bytes;
  rs_ReadFails : bool
}.

(** How [http.Client.Do] fails: [refuseRedirect] refused to follow a redirect, or the transport failed. *)
Inductive do_error : Type := DoRedirect | DoTransport.

Definition refuseRedirect : do_error := DoRedirect.

Definition classifyDo (e : do_error) : send_error :=
  match e with DoRedirect => ErrRedirectRefused | DoTransport => TransportError end.



(** [strings.EqualFold(enc, "identity")]. *)
Definition identity_encoding (enc : bytes) : bool := bool_decide (foldName enc = foldName (str "identity")).

(** [io.ReadAll(io.LimitReader(body, n))]. *)
Fixpoint LimitReader (n : Z) (s : bytes) : bytes :=
  match s with
  | b :: r => if 0 <? n then b :: LimitReader (n - 1) r else []
  | [] => []
  end.

Definition readBounded (resp : Response) : result send_error bytes :=
  let enc := rs_Header resp (str "Content-Encoding") in
  if negb (bool_decide (enc = [])) && negb (identity_encoding enc) then Err ErrUnsupportedContentEncoding
  else if rs_ReadFails resp then Err OtherSendError
  else Ok (LimitReader maxResponseBytes (rs_Body resp)).

Definition strictDecodeResponse (data : bytes) (t : gotype) : option goval :=
  match strictDecode data t [] with Ok g => Some g | Err _ => None end.


Definition decodeError (data : bytes) : option ObserverErrorBody :=
  oe ← strictDecodeResponse data wire.ObserverError;
  let b := get wire.ObserverError "Error" oe in
  Some (mkErrorBody (as_string (get wire.ObserverErrorBody "Code" b)) (as_string (get wire.ObserverErrorBody "Message" b))).


Definition codeOf (b : option ObserverErrorBody) : bytes := match b with Some b => eb_Code b | None => [] end.
Definition messageOf (b : option ObserverErrorBody) : bytes := match b with Some b => eb_Message b | None => [] end.

(** [until]: [http.ParseTime] of the value minus the current time, when it parses. *)
Definition parseRetryAfter (until : bytes -> option Z) (v : bytes) : Z :=
  let v := TrimSpace v in
  if bool_decide (v = []) then 0
  else
    match ParseInt v with
    | Some secs => if secs <? 0 then 0 else i64 (secs * Second)
    | None => match until v with Some d => if 0 <? d then d else 0 | None => 0 end
    end.

(** ** The network *)

Inductive event : Type :=
| TokenRead (tok : result token_error bytes)
| Exchange (req : Request) (res : Response + do_error)
| Slept (delay : Z) (awake : bool)
| Jittered (half : Z).

Section client.
Context {cert : Type}.
Variable c : Client cert.

(** What the surroundings do next, as functions of the history: the credential source, the server and
    the path to it, the clock of a Retry-After date, the sleeper and the random source. *)
Variable token : list event -> result token_error bytes.
Variable server : list event -> Request -> Response + do_error.
Variable until : list event -> bytes -> option Z.
Variable wake : list event -> Z -> bool.
Variable jitter : list event -> Z -> Z.

Definition token_send_error (e : token_error) : send_error :=
  match e with TokEmpty => ErrEmptyCredential | _ => OtherSendError end.

Definition newRequest (method path : bytes) (body : option bytes) (w : list event)
  : result send_error Request * list event :=
  let tok := token w in
  let w := w ++ [TokenRead tok] in
  match tok with
  | Err e => (Err (token_send_error e), w)
  | Ok tok =>
      if bool_decide (tok = []) then (Err ErrEmptyCredential, w)
      else
        let u := with_path (u_Path (c_base c) ++ path) (c_base c) in
        (Ok (mkRequest method u [(str "Authorization", str "Bearer " ++ tok); (str "Accept", str "application/json")] body), w)
  end.

Definition do_request (req : Request) (w : list event) : (Response + do_error) * list event :=
  let res := server w req in (res, w ++ [Exchange req res]).




Inductive caps_error : Type :=
| CapsSend (e : send_error)
| CapsRejected (oe : OperatorError)
| CapsDecode.

Definition capabilities_of (v : goval) : CapabilitiesResponse :=
  mkCapabilities (as_int (get wire.CapabilitiesResponse "MaxObservationsPerBatch" v))
                 (as_int (get wire.CapabilitiesResponse "MaxBatchBytes" v)).

Definition Capabilities (w : list event) : result caps_error (Caps * goval) * list event :=
  match newRequest (str "GET") capabilitiesPath None w with
  | (Err e, w) => (Err (CapsSend e), w)
  | (Ok req, w) =>
      match do_request req w with
      | (inr e, w) => (Err (CapsSend (classifyDo e)), w)
      | (inl resp, w) =>
          match readBounded resp with
          | Err e => (Err (CapsSend e), w)
          | Ok body =>
              if negb (rs_StatusCode resp =? 200)
              then let eb := decodeError body in
                   (Err (CapsRejected (mkOperatorError (ReasonText (str "capabilities probe rejected"))
                                         (rs_StatusCode resp) (codeOf eb) (messageOf eb))), w)
              else
                match strictDecodeResponse body wire.CapabilitiesResponse with
                | None => (Err CapsDecode, w)
                | Some caps => (Ok (CapsFromCapabilities (capabilities_of caps), caps), w)
                end
          end
      end
  end.

End client.

(** ** The floors *)

Lemma isLoopbackHost_spec host :
  isLoopbackHost host = true <->
  host = str "localhost" \/ exists ip, ParseIP host = Some ip /\ IsLoopback ip = true.
Proof.
  unfold isLoopbackHost. rewrite orb_true_iff, bool_decide_eq_true. f_equiv.
  destruct (ParseIP host) as [ip|]; split; try done; [by exists ip|by intros (?&[= ->]&?)|by intros (?&?&_)].
Qed.

Definition scheme_allowed (u : URL) (allow : bool) : Prop :=
  u_Scheme u = str "https"
  \/ (u_Scheme u = str "http" /\ allow = true
      /\ (Hostname u = str "localhost" \/ exists ip, ParseIP (Hostname u) = Some ip /\ IsLoopback ip = true)).

Lemma checkScheme_Ok u allow : checkScheme u allow = Ok tt <-> scheme_allowed u allow.
Proof.
  unfold checkScheme, scheme_allowed. rewrite <-isLoopbackHost_spec.
  destruct (decide (u_Scheme u = str "https")) as [E|E].
  { rewrite bool_decide_eq_true_2 by exact E. split; [by left|reflexivity]. }
  rewrite bool_decide_eq_false_2 by exact E. destruct (decide (u_Scheme u = str "http")) as [E'|E'].
  - rewrite bool_decide_eq_true_2 by exact E'. destruct allow, (isLoopbackHost (Hostname u)) eqn:El; cbn [andb]; split; intros H;
      try discriminate H; try reflexivity; try (right; split_and!; reflexivity || exact E');
      destruct H as [H|(_&H1&H2)]; try (destruct (E H)); try discriminate H1; discriminate H2.
  - rewrite bool_decide_eq_false_2 by exact E'. split; [discriminate 1|]. intros [H|[H _]]; [destruct (E H)|destruct (E' H)].
Qed.

Lemma checkScheme_Err u allow e : checkScheme u allow = Err e -> e = CeInsecureScheme /\ ~ scheme_allowed u allow.
Proof.
  intros H. assert (Hn : ~ scheme_allowed u allow) by (intros Ha%checkScheme_Ok; rewrite H in Ha; discriminate Ha).
  split; [|exact Hn]. unfold checkScheme in H. repeat case_match; congruence.
Qed.

(** The client's floors. Construction succeeds exactly with an endpoint that is https (or loopback
    http under the flag), a credential source, a source id and, for customer CAs, a system pool; the
    client then keeps that endpoint but for its trailing slashes, verifies with at least TLS 1.2 against the system
    roots with nothing taken away, and both timeouts are positive. Each refusal names its reason. *)
Theorem NewClient_spec {cert} (pool : option (option (list cert))) (cfg : Config cert) :
  match NewClient pool cfg with
  | Ok c =>
      exists u, cf_Endpoint cfg = Some u /\ scheme_allowed u (cf_AllowLoopbackHTTP cfg) /\ cf_Credential cfg = true
      /\ c_base c = with_path (TrimRight x2f (u_Path u)) u
      /\ c_sourceID c = cf_SourceID cfg /\ c_sourceID c <> []
      /\ VersionTLS12 <= c_minVersion c /\ cf_TLSMinVersion cfg <= c_minVersion c
      /\ 0 < c_timeout c /\ 0 < c_contentTimeout c
      /\ match c_rootCAs c with
         | None => cf_CustomCAs cfg = []
         | Some roots => exists system, pool = Some (Some system) /\ (forall x, x ∈ roots <-> x ∈ system \/ Some x ∈ cf_CustomCAs cfg)
         end
  | Err CeNilEndpoint => cf_Endpoint cfg = None
  | Err CeInsecureScheme => exists u, cf_Endpoint cfg = Some u /\ ~ scheme_allowed u (cf_AllowLoopbackHTTP cfg)
  | Err CeNilCredential => cf_Credential cfg = false
  | Err CeEmptySourceID => cf_SourceID cfg = []
  | Err CeSystemCertPool => cf_CustomCAs cfg <> [] /\ (pool = None \/ pool = Some None)
  end.
Proof.
  unfold NewClient. destruct (cf_Endpoint cfg) as [u|] eqn:Eu; [|reflexivity].
  destruct (checkScheme u (cf_AllowLoopbackHTTP cfg)) as [[]|e] eqn:Es; cbn [mbind result_bind].
  2:{ apply checkScheme_Err in Es as [-> Hn]. by exists u. }
  apply checkScheme_Ok in Es. destruct (cf_Credential cfg) eqn:Ec; cbn [negb]; [|reflexivity].
  destruct (decide (cf_SourceID cfg = [])) as [Ei|Ei]; [by rewrite bool_decide_eq_true_2|].
  rewrite bool_decide_eq_false_2 by exact Ei.
  assert (Hto : forall d, 0 < attemptTimeoutOrDefault d /\ 0 < contentTimeoutOrDefault d).
  { intros d. unfold attemptTimeoutOrDefault, contentTimeoutOrDefault. destruct (Z.leb_spec d 0); split; try lia; reflexivity. }
  destruct (Hto (cf_AttemptTimeout cfg)) as [Ht1 _]. destruct (Hto (cf_ContentTimeout cfg)) as [_ Ht2]. clear Hto.
  unfold buildTLSConfig. set (min := if cf_TLSMinVersion cfg <? VersionTLS12 then VersionTLS12 else cf_TLSMinVersion cfg).
  assert (Hmin : VersionTLS12 <= min /\ cf_TLSMinVersion cfg <= min).
  { unfold min. destruct (Z.ltb_spec (cf_TLSMinVersion cfg) VersionTLS12); lia. }
  clearbody min. destruct (cf_CustomCAs cfg) as [|ca cas] eqn:Ecas.
  - cbn [mbind result_bind]. exists u. cbn [c_base c_sourceID c_rootCAs c_minVersion c_timeout c_contentTimeout].
    split_and!; try reflexivity; try assumption; apply Hmin.
  - destruct pool as [[system|]|]; cbn [mbind result_bind]; [|split; [discriminate|by auto]..].
    exists u. cbn [c_base c_sourceID c_rootCAs c_minVersion c_timeout c_contentTimeout].
    split_and!; try reflexivity; try assumption; try apply Hmin. exists system. split; [reflexivity|]. intros x.
    rewrite elem_of_app, list_elem_of_omap. f_equiv. split; [by intros (y&Hy&->)|by intros Hx; exists (Some x)].
Qed.

(** ** Requests *)








(** ** A whole delivery *)









Section delivery.
Context {cert : Type} (c : Client cert).
Variable token : list event -> result token_error bytes.
Variable server : list event -> Request -> Response + do_error.
Variable until : list event -> bytes -> option Z.
Variable wake : list event -> Z -> bool.
Variable jitter : list event -> Z -> Z.
Variables (ev : env) (dl : Deliverer) (plan : Plan).



End delivery.


(** ** Captured helper output *)

(** The state of the buffer after the writes in [t]. *)
Definition buffer_after (limit : Z) (t : bytes) (b : boundedBuffer) : Prop :=
  bb_buf b = take (Z.to_nat limit) t /\ bb_seen b = zlen t /\ bb_limit b = limit
  /\ bb_overflow b = (limit <? zlen t) /\ bb_killed b = (if limit <? zlen t then 1%nat else 0%nat).

Lemma bb_Write_after limit t b p :
  0 <= limit -> zlen t + zlen p <= MaxInt64 -> buffer_after limit t b ->
  buffer_after limit (t ++ p) (bb_Write b p).1 /\ (bb_Write b p).2 = zlen p.
Proof.
  intros Hl Hz (Hb&Hs&Hlim&Ho&Hk). pose proof (zlen_nonneg t). pose proof (zlen_nonneg p).
  split; [|reflexivity]. unfold bb_Write. cbn [fst]. rewrite Hs, Hlim, Ho, Hk.
  rewrite i64_id by (unfold in_i64, MaxInt64 in *; lia). unfold buffer_after.
  cbn [bb_buf bb_seen bb_limit bb_overflow bb_killed]. rewrite zlen_app.
  split; [|split; [reflexivity|split; [reflexivity|]]].
  - rewrite Hb. assert (Hlen : zlen (take (Z.to_nat limit) t) = Z.min limit (zlen t)) by len. rewrite Hlen.
    destruct (Z.ltb_spec 0 (limit - Z.min limit (zlen t))).
    + rewrite take_app_ge, (firstn_all2 t) by len. f_equal.
      destruct (Z.ltb_spec (limit - Z.min limit (zlen t)) (zlen p)).
      * f_equal. len.
      * rewrite !firstn_all2 by len. reflexivity.
    + rewrite take_app_le by len. reflexivity.
  - destruct (Z.ltb_spec limit (zlen t)), (Z.ltb_spec limit (zlen t + zlen p)); cbn; split; reflexivity || lia.
Qed.

Lemma captured_after limit ps t b :
  0 <= limit -> zlen t + zlen (concat ps) <= MaxInt64 -> buffer_after limit t b ->
  buffer_after limit (t ++ concat ps) (fold_left (fun b p => (bb_Write b p).1) ps b).
Proof.
  intros Hl. revert t b. induction ps as [|p ps IH]; intros t b Hz Hb; cbn [fold_left concat].
  - by rewrite app_nil_r.
  - cbn [concat] in Hz. rewrite zlen_app in Hz. pose proof (zlen_nonneg (concat ps)). rewrite app_assoc.
    apply IH; [rewrite zlen_app; lia|]. by apply bb_Write_after; [|lia|].
Qed.

(** A helper's token. A token is returned exactly when the run ended well within its bounds, and
    then it is the whole output, trimmed and not empty, never a prefix of it; an output past the bound
    is refused, whatever else happened, after the run was killed once; no refusal carries output. *)
Theorem HelperSource_Token_spec h run :
  h_Argv h <> [] -> let r := run (h_Argv h) (helper_timeout h) in let out := concat (hr_writes r) in
  zlen out <= MaxInt64 ->
  bb_killed (captured h r) = (if helper_max_output h <? zlen out then 1%nat else 0%nat)
  /\ match HelperSource_Token h run with
     | Ok tok => hr_err r = None /\ hr_ctx r = None /\ zlen out <= helper_max_output h /\ tok = TrimSpace out /\ tok <> []
     | Err e =>
         (helper_max_output h < zlen out /\ e = TokHelper (str "output exceeded bound"))
         \/ zlen out <= helper_max_output h
            /\ match hr_ctx r, hr_err r with
               | Some DeadlineExceeded, _ => e = TokHelper (str "timed out")
               | Some Canceled, _ => e = TokHelper (str "canceled")
               | None, Some RunWaitDelay => e = TokHelper (str "helper i/o not closed")
               | None, Some x => e = TokHelper (sanitizedExitReason x)
               | None, None => TrimSpace out = [] /\ e = TokHelper (str "empty token")
               end
     end.
Proof.
  intros Hargv r out Hz.
  assert (Hmax : 0 <= helper_max_output h).
  { unfold helper_max_output. destruct (Z.leb_spec (h_MaxOutput h) 0); [|lia]. vm_compute. discriminate. }
  assert (Hcap : buffer_after (helper_max_output h) out (captured h r)).
  { apply (captured_after _ _ [] (mkBuffer [] 0 (helper_max_output h) false 0) Hmax Hz).
    unfold buffer_after. cbn [bb_buf bb_seen bb_limit bb_overflow bb_killed]. change (zlen (@nil byte)) with 0.
    rewrite take_nil, (proj2 (Z.ltb_ge _ _)) by lia. split_and!; reflexivity. }
  destruct Hcap as (Hb&_&_&Ho&Hk). split; [exact Hk|].
  unfold HelperSource_Token. destruct (h_Argv h) as [|a0 argv]; [done|]. fold r. cbv zeta. rewrite Ho, Hb.
  destruct (Z.ltb_spec (helper_max_output h) (zlen out)); [left; split; [lia|reflexivity]|].
  rewrite firstn_all2 by len. destruct (hr_ctx r) as [[]|]; [right; split; [lia|reflexivity]..|].
  destruct (hr_err r) as [[]|]; [right; split; [lia|reflexivity]..|].
  case_bool_decide as Ht; [right; split; [lia|]; by split|]. by split_and!.
Qed.

(** ** Retry-After *)

(** Seconds that fit are taken as they are; beyond 9223372036 they wrap around. *)
Lemma parseRetryAfter_seconds until v secs :
  TrimSpace v <> [] -> ParseInt (TrimSpace v) = Some secs ->
  parseRetryAfter until v = if secs <? 0 then 0 else i64 (secs * Second).
Proof. intros Hn Hp. unfold parseRetryAfter. cbv zeta. by rewrite bool_decide_eq_false_2, Hp. Qed.

(** A server that asks for 584 years gets its next request in a third of a second, and one that asks for
    293 is not heard at all. *)
Theorem retry_after_wraps until :
  parseRetryAfter until (str "18446744074") = 290448384 /\ parseRetryAfter until (str "9223372037") < 0.
Proof. split; vm_compute; reflexivity. Qed.

(** ** Examples *)

Definition demo_client : Client unit :=
  mkClient (mkURL (str "https") None (str "collector.example") [] []) (str "src") None None VersionTLS12 DefaultAttemptTimeout DefaultContentTimeout.

Lemma NewClient_demo :
  NewClient None (mkConfig unit (Some (mkURL (str "https") None (str "collector.example") (str "/") [])) (str "src") true [] None 0 0 false 0)
  = Ok demo_client.
Proof. reflexivity. Qed.




Definition demo_helper : HelperSource := mkHelper [str "/bin/helper"] 0 8.
Definition demo_helper_run : helper_run := mkRun [str " to"; str "ken
"] None None.

Lemma HelperSource_Token_spec_witness :
  HelperSource_Token demo_helper (fun _ _ => demo_helper_run) = Ok (str "token")
  /\ bb_killed (captured demo_helper demo_helper_run) = 0%nat.
Proof.
  split; [vm_compute; reflexivity|].
  refine (proj1 (HelperSource_Token_spec demo_helper (fun _ _ => demo_helper_run) _ _)); [discriminate|].
  vm_compute. discriminate.
Defined.
