(* ===== verification/Drain.v ===== *)
(** * The upload pass ([uploadLoop.drain] of [internal/observer/daemon/service.go])

    One pass over a frame store: load the acknowledgement state, then form and deliver batches until nothing
    is owed or something fails. The model has no consent fence ([fence == nil], so the
    theorem's store is the spool's; FenceRun.v has the lane with one); the writer's highest durable sequence is
    an input. The theorem is end to end: the delivered batches tile the log from the
    durable watermark on, each with the records' payloads verbatim, and a pass that returns without an
    error has delivered everything. An example shows that an undelivered batch is not remembered across
    passes. *)

From S2P Require Import Prelude Hash SpoolTypes Frame Fs GoStrings Segment Sidecar Recover Compact Ack Json.
From S2P Require Import Batch SpoolStore Retry.

Inductive drain_error : Type :=
| DrLoad (e : spool_error)
| DrContext
| DrPlan (e : batch_error)
| DrDeliver (e : deliver_error)
| DrFuel.

Section drain.
Context {store : FrameStore} {W : Type} `{Delivery W}.
Variables (ev : env) (ctxErr : W -> bool) (p : Planner) (policy : RetryPolicy).

Definition deliverer : Deliverer := mkDeliverer (p_SourceID p) policy.

(** The loop of [drain]; the last component lists the plans that were acknowledged. *)
Fixpoint drain_loop (fuel : nat) (a : AckState) (d : disk) (w : W)
  : option drain_error * AckState * disk * W * list Plan :=
  match fuel with
  | O => (Some DrFuel, a, d, w, [])
  | S fuel' =>
      if ctxErr w then (Some DrContext, a, d, w, [])
      else
        let '(r, a, d) := Next ev p a d in
        match r with
        | Err e => (Some (DrPlan e), a, d, w, [])
        | Ok None => (None, a, d, w, [])
        | Ok (Some plan) =>
            let '(r, a, d, w, _) := Deliver ev deliverer plan a d w in
            match r with
            | Some e => (Some (DrDeliver e), a, d, w, [])
            | None => let '(r, a, d, w, done) := drain_loop fuel' a d w in (r, a, d, w, plan :: done)
            end
        end
  end.

(** The ack state is [None] when loading it failed. *)
Definition drain (highest : Z) (d : disk) (w : W)
  : option drain_error * option AckState * disk * W * list Plan :=
  let '(_, r, d) := LoadAckState ev highest 0 d in
  match r with
  | Err e => (Some (DrLoad e), None, d, w, [])
  | Ok a =>
      let fuel := S (Z.to_nat (ak_highestDurable a - ak_acknowledgedThrough a)) in
      let '(r, a, d, w, done) := drain_loop fuel a d w in (r, Some a, d, w, done)
  end.
End drain.

(** ** What a pass leaves alone *)

Lemma Acknowledge_wal ev through a d : d_wal (Acknowledge ev through a d).2 = d_wal d.
Proof.
  unfold Acknowledge. destruct (through <? _); [done|]. destruct (through =? _); [done|].
  destruct (_ <? through); [done|]. destruct (ak_inFlight a) as [r|]; [|done].
  destruct (_ <? through); [done|]. unfold io_bind, writeAck.
  pose proof (atomic_write_new ev DRoot ackFilename (encodeAck through) d d eq_refl) as Hw.
  destruct (atomicWriteFile _ _ _ _ d) as [[t [u|e]] d1]; destruct Hw as [_ Hw]; cbn.
  - destruct Hw as ((Hd&_)&_). apply (Hd DWal). done.
  - destruct Hw as [(Hd&_)|(Hd&_)]; by apply (Hd DWal).
Qed.

Lemma wal_records_wal recs d d' : d_wal d' = d_wal d -> wal_records recs d -> wal_records recs d'.
Proof.
  intros Hd (id&ver&first&l&(Hmin&Hch&Hn&Hf)&->). exists id, ver, first, l. split; [|done].
  assert (He : entries DWal d' = entries DWal d) by (unfold entries; cbn; by rewrite Hd).
  split_and!; [done..|by rewrite He|].
  clear -Hf He. induction l as [|[h fs] l IH]; [done|].
  assert (Hfile : forall n, file DWal n d' = file DWal n d) by (intros n; unfold file; by rewrite He).
  cbn in *. destruct l; rewrite Hfile; [done|]. destruct Hf. split; [done|]. by apply IH.
Qed.

Lemma acknowledge_keeps ev dl att plan a d :
  ack_inv a d -> let '(_, a', d') := acknowledge ev dl att plan a d in ack_inv a' d' /\ d_wal d' = d_wal d.
Proof.
  intros Hi. unfold acknowledge. destruct (at_Ack att) as [ack|]; [|done].
  destruct (negb _); [done|]. destruct (negb _); [done|]. destruct (negb _); [done|].
  pose proof Hi as [Hwf (v&Hv&Hb)].
  pose proof (acknowledge_spec ev (AcknowledgedThroughSequence ack) a v d Hwf Hv Hb d eq_refl) as Hs.
  pose proof (Acknowledge_wal ev (AcknowledgedThroughSequence ack) a d) as Hw.
  destruct (Acknowledge _ _ a d) as [[t [a'|e]] d']; destruct Hs as [_ Hs]; cbn in Hw.
  - split; [apply Hs|done].
  - assert (ack_inv a d') by (by split). by destruct (isAckRejection e).
Qed.

Lemma Deliver_keeps {W} `{Delivery W} ev dl plan a d (w : W) :
  ack_inv a d -> let '(_, a', d', _, _) := Deliver ev dl plan a d w in ack_inv a' d' /\ d_wal d' = d_wal d.
Proof.
  intros Hi. unfold Deliver. destruct (bool_decide _); [done|].
  generalize (Z.to_nat (maxAttempts (dl_Policy dl))) 1. intros n. revert w.
  induction n as [|n IH]; intros w k; [done|]. cbn [deliver_loop].
  destruct (Send plan w) as [o w1]. destruct (Classify o) as [[] [oe|]]; try done.
  - destruct o as [[att|] se]; [|done]. pose proof (acknowledge_keeps ev dl att plan a d Hi) as Ha.
    by destruct (acknowledge ev dl att plan a d) as [[r a'] d'].
  - destruct o as [[att|] se]; [|done]. pose proof (acknowledge_keeps ev dl att plan a d Hi) as Ha.
    by destruct (acknowledge ev dl att plan a d) as [[r a'] d'].
  - destruct n as [|n]; [done|]. destruct (backoff _ _ _ w1) as [delay w2]. destruct (Sleep delay w2) as [[] w3]; [|done].
    specialize (IH w3 (k + 1)). by destruct (deliver_loop _ _ _ _ _ _ _ _) as [[[[r a'] d'] w'] log].
  - destruct n as [|n]; [done|]. destruct (backoff _ _ _ w1) as [delay w2]. destruct (Sleep delay w2) as [[] w3]; [|done].
    specialize (IH w3 (k + 1)). by destruct (deliver_loop _ _ _ _ _ _ _ _) as [[[[r a'] d'] w'] log].
Qed.

(** ** The pass *)

(** The plans cover [first..last] without gap or overlap, in order, each with its records verbatim. *)
Fixpoint tiles (src : bytes) (recs : list record) (first last : Z) (plans : list Plan) : Prop :=
  match plans with
  | [] => last = first - 1
  | plan :: rest =>
      let r := pl_Range plan in
      FirstSequence r = first /\ FirstSequence r <= LastSequence r
      /\ pl_Body plan = batch_text src r (window (FirstSequence r) (LastSequence r) recs)
      /\ tiles src recs (LastSequence r + 1) last rest
  end.

Section pass.
Context {W : Type} `{Delivery W}.
Variables (ev : env) (ctxErr : W -> bool) (p : Planner) (policy : RetryPolicy) (recs : list record).
Hypothesis (Hsrc : p_SourceID p <> []) (Hcan : canonical_records recs).

(** What the loop keeps. *)
Definition pass_inv (a : AckState) (d : disk) : Prop :=
  ack_inv a d /\ wal_records recs d /\ covers a recs
  /\ MaxObservations (resolve (p_Caps p)) <= ak_maxInFlight a
  /\ ak_highestDurable a + 1 + MaxObservations (resolve (p_Caps p)) <= MaxInt64.

Lemma drain_loop_run fuel a d w :
  pass_inv a d -> InFlight a = None -> ak_highestDurable a - ak_acknowledgedThrough a < Z.of_nat fuel ->
  let '(r, a', d', _, done) := drain_loop (store := SpoolFrameStore) ev ctxErr p policy fuel a d w in
  ack_inv a' d' /\ d_wal d' = d_wal d /\ ak_highestDurable a' = ak_highestDurable a
  /\ tiles (p_SourceID p) recs (ak_acknowledgedThrough a + 1) (ak_acknowledgedThrough a') done
  /\ r <> Some DrFuel
  /\ (r = None -> ak_acknowledgedThrough a' = ak_highestDurable a').
Proof.
  revert a d w. induction fuel as [|fuel IH]; intros a d w (Hinv&Hrec&Hcov&Hmax&Hov) Hfl Hf.
  { destruct Hinv as [(H1&_) _]. lia. }
  cbn [drain_loop]. destruct (ctxErr w); [split_and!; try done; cbn; lia|].
  pose proof Hinv as [Hwf _]. pose proof Hwf as (H1&H2&H3&_).
  pose proof (Next_run (laws := SpoolFrameStore_laws) ev p a recs d Hrec Hcov Hcan Hwf Hmax ltac:(lia)) as HN.
  destruct (Next ev p a d) as [[r a1] d1]. destruct HN as [-> HN].
  destruct r as [[[r body]|]|e]; cbn [next_ok] in HN.
  2:{ destruct HN as (->&_&HN). split_and!; try done. cbn. lia. }
  2:{ destruct HN as (->&HN). split_and!; try done. cbn. lia. }
  destruct HN as (Ea&Hf1&Hf2&Hb&Hcap). rewrite Hfl in Hcap.
  assert (Hfl1 : InFlight a1 = Some r) by (by rewrite Ea).
  assert (Hwf1 : ack_wf a1) by (rewrite Ea; unfold ack_wf; cbn; lia).
  assert (Hinv1 : ack_inv a1 d).
  { split; [done|]. destruct Hinv as [_ (v&Hv&Hvb)]. exists v. split; [done|].
    rewrite Ea. unfold sent_through, InFlight in *. rewrite Hfl in Hvb. cbn. lia. }
  pose proof (Deliver_keeps ev (deliverer p policy) (mkPlan r body) a1 d w Hinv1) as Hk.
  pose proof (Deliver_state ev (deliverer p policy) (mkPlan r body) a1 d w Hsrc Hwf1 Hfl1) as HD.
  destruct (Deliver ev (deliverer p policy) (mkPlan r body) a1 d w) as [[[[r' a2] d2] w2] log].
  destruct Hk as [Hinv2 Hw2]. cbn [pl_Range] in HD. destruct r' as [e|].
  { rewrite HD in *. split_and!; try done; rewrite Ea; cbn; [done|lia]. }
  assert (Eack : ak_acknowledgedThrough a2 = LastSequence r) by (by rewrite HD).
  assert (Ehigh : ak_highestDurable a2 = ak_highestDurable a) by (by rewrite HD, Ea).
  assert (Emax : ak_maxInFlight a2 = ak_maxInFlight a) by (by rewrite HD, Ea).
  assert (Hpass : pass_inv a2 d2).
  { unfold pass_inv. rewrite Ehigh, Emax. split_and!; [exact Hinv2|by eapply wal_records_wal| |done..].
    destruct Hcov as (f0&Hf0&Hs&Hlen). exists f0. rewrite Eack, Ehigh. split_and!; (done || lia). }
  assert (Hfl2 : InFlight a2 = None) by (by rewrite HD).
  assert (Hfuel : ak_highestDurable a2 - ak_acknowledgedThrough a2 < Z.of_nat fuel) by (rewrite Eack, Ehigh; lia).
  specialize (IH a2 d2 w2 Hpass Hfl2 Hfuel).
  destruct (drain_loop ev ctxErr p policy fuel a2 d2 w2) as [[[[r' a3] d3] w3] done'].
  rewrite Eack, Ehigh in IH. destruct IH as (?&Hwal&?&Htiles&?&?).
  split_and!; [done|by rewrite Hwal|done| |done|done].
  cbn [tiles pl_Range pl_Body]. split_and!; [lia|lia|done|done].
Qed.
End pass.


(** Loading under faults fails, or is as without them. *)
Lemma LoadAckState_faults ev highest m d :
  LoadAckState ev highest m d = LoadAckState demo_env highest m d
  \/ exists t e, LoadAckState ev highest m d = (t, Err e, d).
Proof.
  unfold LoadAckState, readAck, readFile, io_check, io_call, io_bind. cbn [demo_env e_flt no_faults].
  destruct (e_flt ev IoRead ackFilename); [right; by eexists _, _|by left].
Qed.

(** C3: one upload pass over a clean log of canonical payloads, whatever the network answers and whichever
    calls fail. The acknowledged plans tile the log from the durable watermark to the new one: nothing is
    skipped, sent out of order or altered; the WAL is untouched and the sidecar stays consistent with the
    watermark; the loop ends; and a pass without an error has delivered everything durable. *)
Theorem drain_spec {W} `{Delivery W} ev ctxErr p policy recs v highest d (w : W) :
  p_SourceID p <> [] -> canonical_records recs -> wal_records recs d -> ack_on_disk v d ->
  0 <= v <= highest -> highest <= MaxInt64 - 1001 ->
  (exists f0, 1 <= f0 <= v + 1 /\ sequences recs = seqZ f0 (zlen recs) /\ highest < f0 + zlen recs <= MaxInt64 + 1) ->
  MaxObservations (resolve (p_Caps p)) <= DefaultMaxInFlightRecords ->
  let '(r, a', d', _, plans) := drain (store := SpoolFrameStore) ev ctxErr p policy highest d w in
  match a' with
  | None => d' = d /\ plans = [] /\ exists e, r = Some (DrLoad e)
  | Some a =>
      ack_inv a d' /\ d_wal d' = d_wal d /\ r <> Some DrFuel
      /\ tiles (p_SourceID p) recs (v + 1) (ak_acknowledgedThrough a) plans
      /\ (r = None -> ak_acknowledgedThrough a = highest)
  end.
Proof.
  intros Hsrc Hcan Hrec Hv Hvh Hh (f0&Hf0&Hs&Hlen) Hmax. unfold drain.
  destruct (LoadAckState_faults ev highest 0 d) as [->|(t&e&->)]; [|split_and!; [done..|by exists e]].
  destruct (load_spec demo_env highest 0 v d ltac:(done) Hv ltac:(lia)) as (a0&E&Hi&Ha&Hd&Hn).
  assert (Hm : ak_maxInFlight a0 = DefaultMaxInFlightRecords).
  { unfold LoadAckState, io_bind in E. destruct (readAck demo_env d) as [[t [o|e]] d1]; [|done]. cbn in E.
    by injection E as _ <- _. }
  rewrite Z.max_l in Hd by lia. rewrite E.
  assert (Hpass : pass_inv p recs a0 d).
  { unfold pass_inv, covers, DefaultMaxInFlightRecords in *. rewrite Ha, Hd, Hm.
    split_and!; [exact Hi|done|by exists f0|done|lia]. }
  pose proof (drain_loop_run ev ctxErr p policy recs Hsrc Hcan
    (S (Z.to_nat (ak_highestDurable a0 - ak_acknowledgedThrough a0))) a0 d w Hpass Hn ltac:(lia)) as Hl.
  destruct (drain_loop _ _ _ _ _ _ _ _) as [[[[r a'] d'] w'] plans].
  rewrite Ha, Hd in Hl. destruct Hl as (H1&H2&H3&H4&H5&H6). split_and!; [done..|].
  intros Hr. by rewrite (H6 Hr).
Qed.

(** ** Witnesses *)

(** One segment with three canonical records. *)
Definition demo_batch_frames : list Frame :=
  (fun r => sealed (mkFrame (rec_Sequence r) x00 (rec_Payload r) [])) <$> demo_records.
Definition demo_batch_log : wal_log := [(demo_header, demo_batch_frames)].
Definition demo_batch_disk : disk :=
  mkDisk ∅ (Some {[ segmentFilename 1 := EFile (segment_bytes demo_header demo_batch_frames) ]}) None.

Lemma demo_batch_wal : wal_records demo_records demo_batch_disk.
Proof.
  exists (str "src"), 1, 1, demo_batch_log. split; [|reflexivity]. split; [done|]. split; [|split].
  - split_and!; [exact demo_header_ok|done..| | |done].
    + repeat constructor; apply frame_wf_sealed; vm_compute; (split; [split; discriminate|discriminate]).
    + intros [|[|[|i]]] f Hf; cbn in Hf; try discriminate Hf; injection Hf as <-; reflexivity.
  - unfold entries; cbn [get_dir d_wal demo_batch_disk]. change (default ∅ (Some ?m)) with m. apply seg_names_unique.
    + apply NoDup_singleton.
    + repeat constructor.
    + intros x. unfold is_seg_file. split.
      * intros ->%list_elem_of_singleton. split; [apply Ext_segmentFilename|]. eexists. apply lookup_singleton_eq.
      * intros (_&c&[<- _]%lookup_singleton_Some). apply list_elem_of_singleton. reflexivity.
  - cbn. rewrite app_nil_r. apply file_lookup. apply lookup_singleton_eq.
Qed.

Definition ok_attempt (last n : Z) : outcome := (Some (mkAttempt 200 (Some (mkAck (str "src") last n 0)) None 0), None).

Lemma drain_spec_witness :
  let '(r, a', d', _, plans) :=
    drain (store := SpoolFrameStore) demo_env (fun _ => false) demo_planner (mkPolicy 1 0 0) 3 demo_batch_disk [ok_attempt 2 2; ok_attempt 3 1] in
  match a' with
  | None => d' = demo_batch_disk /\ plans = [] /\ exists e, r = Some (DrLoad e)
  | Some a =>
      ack_inv a d' /\ d_wal d' = d_wal demo_batch_disk /\ r <> Some DrFuel
      /\ tiles (str "src") demo_records (0 + 1) (ak_acknowledgedThrough a) plans
      /\ (r = None -> ak_acknowledgedThrough a = 3)
  end.
Proof.
  apply (drain_spec demo_env (fun _ => false) demo_planner (mkPolicy 1 0 0) demo_records 0 3 demo_batch_disk);
    [discriminate|exact demo_records_canonical|exact demo_batch_wal|left; split; reflexivity|lia
    |vm_compute; discriminate| |vm_compute; discriminate].
  exists 1. unfold MaxInt64. cbn. split_and!; (lia || done).
Defined.

(** ** An undelivered batch is not remembered across passes

    The range in flight lives in the ack state of one pass. When a pass ends with its batch undelivered
    and the writer appends before the next one, the next pass sends a different range. *)

(** A network that never answers and the plans it was sent. *)
Definition silent : Delivery (list Plan) := {|
  Send := fun plan w => ((None, None), w ++ [plan]);
  Sleep := fun _ w => (true, w);
  Jitter := fun half w => (half, w);
|}.

Definition two_passes : option drain_error * list SequenceRange :=
  let p := mkPlanner (mkCaps 0 0) (str "src") in
  let pass := @drain (mem_store demo_records) _ silent demo_env (fun _ => false) p (mkPolicy 1 0 0) in
  let '(r1, _, d1, w1, _) := pass 2 demo_disk [] in
  let '(_, _, _, w2, _) := pass 3 d1 w1 in
  (r1, pl_Range <$> w2).

Theorem drain_forgets_range :
  two_passes = (Some (DrDeliver (ErrRetriesExhausted 1)), [mkRange 1 2; mkRange 1 3]).
Proof. vm_compute. reflexivity. Qed.
