(* ===== verification/Reserves.v ===== *)
(** * The open-run terminal reserves ([internal/observer/spool/capacity.go], the sidecar)

    The checksummed [reserves] sidecar and the ledger over it: [Reserve] and [Release], the scan of the
    WAL for run events, and the startup reconciliation. The theorems: the codec round-trips exactly the
    valid sets and detects altered bytes; the sidecar holds the old or the new set at every crash point;
    the scan of a clean log is its frames' events in order; and what reconciliation decides for every
    run. *)

From S2P Require Import Prelude Hash SpoolTypes Frame Fs GoStrings Segment Sidecar Recover Compact Json Batch.
From S2P Require Import GoJson SpoolStore.

Definition reservesFilename : bytes := str "reserves".
Definition reservesMagic : Z := 0x4F525331.
Definition maxReserveEntries : Z := 65536.
Definition maxRunIDLen : Z := 256.

Abbreviation runset := (gmap bytes Z).

Record Reserves : Type := mkReserves { rs_fixedReserve : Z; rs_open : runset }.

(** ** The sidecar codec *)

(** The open run ids, sorted. *)
Definition sorted_ids (open : runset) : list bytes := sortStrings (map_to_list open).*1.

Definition encode_entry (open : runset) (id : bytes) : bytes :=
  be_enc 8 (u64 (default 0 (open !! id))) ++ be_enc 2 (zlen id) ++ id.

Definition reserves_body (open : runset) : bytes :=
  be_enc 4 reservesMagic ++ be_enc 4 (zlen (sorted_ids open)) ++ concat (encode_entry open <$> sorted_ids open).

Definition encodeReserves (open : runset) : bytes := with_crc (reserves_body open).

(** [n] entries from [off] on; [i] counts them. *)
Fixpoint decode_entries (n : nat) (i : Z) (off : nat) (data : bytes) (open : runset) : sres (nat * runset) :=
  match n with
  | O => Ok (off, open)
  | S n' =>
      if (length data - 4 <? off + 10)%nat then Err (ErrChecksumMismatch (ScTruncated i))
      else
        let reserve := i64 (be_dec (slice off 8 data)) in
        let idLen := be_dec (slice (off + 8) 2 data) in
        let k := Z.to_nat idLen in
        if (reserve <? 0) || (idLen =? 0) || (maxRunIDLen <? idLen) || (length data - 4 <? off + 10 + k)%nat
        then Err (ErrChecksumMismatch (ScEntry i))
        else
          let id := slice (off + 10) k data in
          match open !! id with
          | Some _ => Err (ErrChecksumMismatch ScDuplicate)
          | None => decode_entries n' (i + 1) (off + 10 + k) data (<[id := reserve]> open)
          end
  end.

Definition decodeReserves (data : bytes) : sres runset :=
  if (length data <? 12)%nat then Err (ErrChecksumMismatch ScLength)
  else if negb (be_dec (slice 0 4 data) =? reservesMagic) then Err (ErrChecksumMismatch ScMagic)
  else
    let count := be_dec (slice 4 4 data) in
    if maxReserveEntries <? count then Err (ErrChecksumMismatch (ScCount count))
    else
      r ← decode_entries (Z.to_nat count) 0 8 data ∅;
      let '(off, open) := r in
      if negb (off =? length data - 4)%nat then Err (ErrChecksumMismatch ScTrailing)
      else if negb (crc32c (take off data) =? be_dec (slice off 4 data)) then Err (ErrChecksumMismatch ScCRC)
      else Ok open.

(** [None]: the sidecar is absent. *)
Definition readReserves (ev : env) : IO (option runset) :=
  let! data := readFile ev DRoot reservesFilename in
  match data with
  | None => io_ret None
  | Some data => let! m := io_of (decodeReserves data) in io_ret (Some m)
  end.

Definition LoadReserves (ev : env) (fixedReserve : Z) : IO Reserves :=
  let! open := readReserves ev in io_ret (mkReserves fixedReserve (default ∅ open)).

Definition persistLocked (ev : env) (r : Reserves) : IO unit :=
  atomicWriteFile ev DRoot reservesFilename (encodeReserves (rs_open r)).

(** ** The ledger. Each call yields its error and the ledger it leaves, a failure included. *)

Definition Reserve (ev : env) (runID : bytes) (r : Reserves) : IO (sres unit * Reserves) :=
  if bool_decide (runID = []) || (maxRunIDLen <? zlen runID)
  then io_ret (Err (ErrReserveRunID runID), r)
  else match rs_open r !! runID with
       | Some _ => io_ret (Ok tt, r)
       | None =>
           let r := mkReserves (rs_fixedReserve r) (<[runID := rs_fixedReserve r]> (rs_open r)) in
           let! e := io_try (persistLocked ev r) in io_ret (e, r)
       end.

Definition Release (ev : env) (runID : bytes) (r : Reserves) : IO (sres unit * Reserves) :=
  match rs_open r !! runID with
  | None => io_ret (Ok tt, r)
  | Some _ =>
      let r := mkReserves (rs_fixedReserve r) (delete runID (rs_open r)) in
      let! e := io_try (persistLocked ev r) in io_ret (e, r)
  end.

Definition OpenReserveBytes (r : Reserves) : Z := i64 (foldr Z.add 0 (map_to_list (rs_open r)).*2).
Definition IsOpen (r : Reserves) (runID : bytes) : bool := bool_decide (is_Some (rs_open r !! runID)).
Definition OpenRuns (r : Reserves) : list bytes := sorted_ids (rs_open r).

(** ** Run events *)

Inductive RunEventKind : Type := RunEventOther | RunEventStarted | RunEventTerminated.

#[export] Instance RunEventKind_eq_dec : EqDecision RunEventKind.
Proof. solve_decision. Defined.

Record RunEvent : Type := mkRunEvent { re_Sequence : Z; re_RunID : bytes; re_Kind : RunEventKind }.

(** A string field of an object: unset, set, or of another type ([None]). Unmatched members are ignored
    and a later member overrides an earlier one; [null] leaves the field as it is. *)
Definition string_field (field : bytes) (m : list (bytes * json)) : option bytes :=
  fold_left (fun acc kv =>
    if names field kv.1
    then match kv.2 with JStr s => acc ≫= fun _ => Some s | JNull => acc | _ => None end
    else acc) m (Some []).

(** A pointer-to-struct field, as the members of its object: unset or [null] ([Some None]), set, or of
    another type ([None]). *)
Definition struct_field (field : bytes) (m : list (bytes * json)) : option (option (list (bytes * json))) :=
  fold_left (fun acc kv =>
    if names field kv.1
    then match kv.2 with
         | JObj o => acc ≫= fun prev => Some (Some (default [] prev ++ o))
         | JNull => acc ≫= fun _ => Some None
         | _ => None
         end
    else acc) m (Some None).

Record runFrameEnvelope : Type := mkEnvelope {
  re_kind : bytes;
  run_context : option bytes;
  run_boundary : option (bytes * bytes);
  process_lifecycle : option bytes;
}.

(** [json.Unmarshal(payload, &env)]; a payload is canonical, so no key comes twice. *)
Definition unmarshal_envelope (payload : bytes) : option runFrameEnvelope :=
  v ← (match parse_value assoc_set (S (2 * length payload)) payload with
       | Some (v, r) => if bool_decide (skip_ws r = []) then Some v else None
       | None => None
       end);
  match v with
  | JNull => Some (mkEnvelope [] None None None)
  | JObj m =>
      kind ← string_field (str "kind") m;
      ctx ← struct_field (str "run_context") m;
      bnd ← struct_field (str "run_boundary") m;
      pl ← struct_field (str "process_lifecycle") m;
      ctx ← (match ctx with None => Some None | Some o => Some <$> string_field (str "run_id") o end);
      bnd ← (match bnd with
             | None => Some None
             | Some o => t ← string_field (str "transition") o; id ← string_field (str "run_id") o; Some (Some (t, id))
             end);
      pl ← (match pl with None => Some None | Some o => Some <$> string_field (str "transition") o end);
      Some (mkEnvelope kind ctx bnd pl)
  | _ => None
  end.

Definition classifyRunFrame (payload : bytes) : RunEventKind * bytes :=
  match unmarshal_envelope payload with
  | None => (RunEventOther, [])
  | Some env =>
      if bool_decide (re_kind env = str "RUN_BOUNDARY") then
        match run_boundary env with
        | None => (RunEventOther, [])
        | Some (t, id) =>
            if bool_decide (t = str "RUN_STARTED") then (RunEventStarted, id)
            else if bool_decide (t = str "RUN_ENDED") then (RunEventTerminated, id)
            else (RunEventOther, [])
        end
      else if bool_decide (re_kind env = str "PROCESS_LIFECYCLE") then
        match process_lifecycle env, run_context env with
        | Some t, Some id =>
            if bool_decide (t = str "PROCESS_EXITED") || bool_decide (t = str "PROCESS_LAUNCH_FAILED")
            then (RunEventTerminated, id) else (RunEventOther, [])
        | _, _ => (RunEventOther, [])
        end
      else (RunEventOther, [])
  end.

(** One frame's contribution: nothing for other kinds and for an empty run id. *)
Definition frame_event (f : Frame) : list RunEvent :=
  let '(kind, runID) := classifyRunFrame (fr_Payload f) in
  if bool_decide (kind = RunEventOther) || bool_decide (runID = []) then []
  else [mkRunEvent (fr_Sequence f) runID kind].

Definition scan_body (off : nat) (fr : Frame) (n : nat) (status : FrameStatus) (events : list RunEvent)
  : list RunEvent + sres (list RunEvent) :=
  match status with
  | FrameOK => inl (events ++ frame_event fr)
  | _ => inr (Err (ErrUncleanFrame (Z.of_nat off)))
  end.

Fixpoint scan_segments (ev : env) (segs : list bytes) (events : list RunEvent) : IO (list RunEvent) :=
  match segs with
  | [] => io_ret events
  | name :: rest =>
      let isLast := bool_decide (rest = []) in
      let! data := mustReadFile ev DWal name in
      match decodeSegmentHeader data with
      | Err e => if isLast then scan_segments ev rest events else io_err e
      | Ok (_, hdrLen) =>
          let! events := io_of (frames_loop (S (length data)) data scan_body (fun _ events => Ok events) (Err OutOfFuel)
                                  hdrLen events) in
          scan_segments ev rest events
      end
  end.

Definition ScanRunEvents (ev : env) : IO (list RunEvent) :=
  let! segs := listSegments ev in scan_segments ev segs [].

(** ** Reconciliation *)

(** The ids of the events of one kind: the keys of [started] and [terminated]. *)
Definition ids_of (kind : RunEventKind) (events : list RunEvent) : gset bytes :=
  list_to_set (re_RunID <$> filter (fun e => re_Kind e = kind) events).

(** The loop over [started]; its state is the open set and [changed]. *)
Definition reconcile_started (fixedReserve : Z) (terminated : gset bytes) (s : runset * bool) (id : bytes)
  : runset * bool :=
  let '(open, changed) := s in
  if bool_decide (id ∈ terminated)
  then match open !! id with Some _ => (delete id open, true) | None => s end
  else match open !! id with None => (<[id := fixedReserve]> open, true) | Some _ => s end.

(** The loop over [terminated]. *)
Definition reconcile_terminated (started : gset bytes) (s : runset * bool) (id : bytes) : runset * bool :=
  let '(open, changed) := s in
  if bool_decide (id ∈ started) then s
  else match open !! id with Some _ => (delete id open, true) | None => s end.

Definition reconcile (fixedReserve : Z) (events : list RunEvent) (open : runset) : runset * bool :=
  let started := ids_of RunEventStarted events in
  let terminated := ids_of RunEventTerminated events in
  let s := fold_left (reconcile_started fixedReserve terminated) (elements started) (open, false) in
  fold_left (reconcile_terminated started) (elements terminated) s.

Definition ReconcileReserves (ev : env) (fixedReserve : Z) (events : list RunEvent) : IO Reserves :=
  let! r := LoadReserves ev fixedReserve in
  let '(open, changed) := reconcile fixedReserve events (rs_open r) in
  let r := mkReserves fixedReserve open in
  (if changed : bool then persistLocked ev r else io_ret tt) ;! io_ret r.

(** ** The codec *)

(** What the sidecar can hold. *)
Definition wf_reserves (open : runset) : Prop :=
  zlen (sorted_ids open) <= maxReserveEntries
  /\ forall id r, open !! id = Some r -> 0 < zlen id <= maxRunIDLen /\ 0 <= r <= MaxInt64.

Lemma sorted_ids_elem open id : id ∈ sorted_ids open <-> is_Some (open !! id).
Proof.
  unfold sorted_ids. rewrite (sortStrings_perm _), list_elem_of_fmap. split.
  - intros ([k v]&->&H%elem_of_map_to_list). by exists v.
  - intros [v H%elem_of_map_to_list]. by exists (id, v).
Qed.

Lemma sorted_ids_nodup open : NoDup (sorted_ids open).
Proof. unfold sorted_ids. rewrite (sortStrings_perm _). apply NoDup_fst_map_to_list. Qed.

(** Re-inserting the entries of [open] one by one. *)
Definition readd (open : runset) (ids : list bytes) (acc : runset) : runset :=
  fold_left (fun acc id => <[id := default 0 (open !! id)]> acc) ids acc.

Lemma readd_lookup open ids acc id :
  readd open ids acc !! id = if bool_decide (id ∈ ids) then Some (default 0 (open !! id)) else acc !! id.
Proof.
  revert acc. induction ids as [|x ids IH]; intros acc; cbn [readd fold_left]; [done|].
  change (fold_left _ ids ?a) with (readd open ids a). rewrite IH.
  case_bool_decide as H1; case_bool_decide as H2; rewrite elem_of_cons in H2; try tauto.
  - destruct H2 as [->|]; [apply lookup_insert_eq|done].
  - rewrite lookup_insert_ne; [done|]. intros ->. tauto.
Qed.

Lemma readd_all open : readd open (sorted_ids open) ∅ = open.
Proof.
  apply map_eq. intros id. rewrite readd_lookup. case_bool_decide as H; rewrite sorted_ids_elem in H.
  - destruct H as [v Hv]. by rewrite Hv.
  - rewrite lookup_empty. destruct (open !! id); [|done]. by destruct H.
Qed.

Lemma length_encode_entry open id : length (encode_entry open id) = (10 + length id)%nat.
Proof. unfold encode_entry. len. Qed.

Lemma slice_at {A} (pre l rest : list A) off n : length pre = off -> length l = n -> slice off n (pre ++ l ++ rest) = l.
Proof.
  intros <- <-. rewrite slice_app_r, Nat.sub_diag by lia. unfold slice. by rewrite drop_0, take_app_length.
Qed.

Lemma decode_entries_run open ids i pre tail acc :
  (forall id, id ∈ ids -> 0 < zlen id <= maxRunIDLen /\ 0 <= default 0 (open !! id) <= MaxInt64) ->
  NoDup ids -> (forall id, id ∈ ids -> acc !! id = None) -> length tail = 4%nat ->
  decode_entries (length ids) i (length pre) (pre ++ concat (encode_entry open <$> ids) ++ tail) acc
  = Ok ((length pre + length (concat (encode_entry open <$> ids)))%nat, readd open ids acc).
Proof.
  intros Hids. revert i pre acc. induction ids as [|id ids IH]; intros i pre acc Hn Hacc Ht.
  { cbn. f_equal. f_equal. lia. }
  destruct (Hids id ltac:(by left)) as [Hlen Hr]. unfold maxRunIDLen in *.
  apply NoDup_cons in Hn as [Hid Hn]. cbn [length fmap list_fmap concat decode_entries].
  set (data := pre ++ (encode_entry open id ++ concat (encode_entry open <$> ids)) ++ tail).
  set (r := default 0 (open !! id)) in *.
  assert (Hdata : data = pre ++ be_enc 8 (u64 r) ++ be_enc 2 (zlen id) ++ id ++ concat (encode_entry open <$> ids) ++ tail).
  { unfold data, encode_entry. by rewrite <-!app_assoc. }
  assert (E8 : slice (length pre) 8 data = be_enc 8 (u64 r)) by (rewrite Hdata; apply slice_at; len).
  assert (E2 : slice (length pre + 8) 2 data = be_enc 2 (zlen id)).
  { rewrite Hdata, app_assoc. apply slice_at; len. }
  assert (Eid : slice (length pre + 10) (length id) data = id).
  { rewrite Hdata, !app_assoc, <-(app_assoc _ id), <-(app_assoc _ (id ++ _)), <-(app_assoc id).
    apply slice_at; len. }
  assert (Hdl : length data = (length pre + 10 + length id + length (concat (encode_entry open <$> ids)) + 4)%nat).
  { rewrite Hdata. len. }
  rewrite (proj2 (Nat.ltb_ge _ _)) by lia. rewrite E8, E2.
  rewrite be_dec_i64 by (unfold in_i64, MaxInt64 in *; lia).
  rewrite be_dec_enc_id by (change (256 ^ Z.of_nat 2) with 65536; lia). cbv zeta.
  assert (Hk : Z.to_nat (zlen id) = length id) by (unfold zlen; lia). rewrite Hk. unfold maxRunIDLen.
  rewrite (proj2 (Z.ltb_ge r 0)), (proj2 (Z.eqb_neq (zlen id) 0)), (proj2 (Z.ltb_ge 256 (zlen id))),
    (proj2 (Nat.ltb_ge _ _)) by lia. cbn [orb].
  rewrite Eid, (Hacc id) by by left.
  replace (length pre + 10 + length id)%nat with (length (pre ++ encode_entry open id)) by
    (rewrite length_app, length_encode_entry; lia).
  assert (Hd2 : data = (pre ++ encode_entry open id) ++ concat (encode_entry open <$> ids) ++ tail).
  { unfold data. by rewrite <-!app_assoc. }
  rewrite Hd2, IH; [|by intros x Hx; apply Hids; right|done| |done].
  - f_equal. f_equal. rewrite !length_app. lia.
  - intros x Hx. rewrite lookup_insert_ne by (intros ->; done). apply Hacc. by right.
Qed.

Definition reserves_head (open : runset) : bytes := be_enc 4 reservesMagic ++ be_enc 4 (zlen (sorted_ids open)).

Lemma reserves_split open :
  encodeReserves open = reserves_head open ++ concat (encode_entry open <$> sorted_ids open)
                        ++ be_enc 4 (crc32c (reserves_body open)).
Proof. unfold encodeReserves, with_crc, reserves_body, reserves_head. by rewrite <-!app_assoc. Qed.

Lemma length_reserves_head open : length (reserves_head open) = 8%nat.
Proof. unfold reserves_head. len. Qed.

Lemma length_encodeReserves open :
  length (encodeReserves open) = (12 + length (concat (encode_entry open <$> sorted_ids open)))%nat.
Proof. rewrite reserves_split. rewrite !length_app, length_reserves_head, length_be_enc. lia. Qed.

(** The head reads back, whatever the set. *)
Lemma reserves_head_read open :
  zlen (sorted_ids open) < 2^32 ->
  be_dec (slice 0 4 (encodeReserves open)) = reservesMagic
  /\ be_dec (slice 4 4 (encodeReserves open)) = zlen (sorted_ids open).
Proof.
  intros Hn. rewrite reserves_split. unfold reserves_head. rewrite <-!app_assoc. split.
  - rewrite slice_app_l, slice_all by len. reflexivity.
  - rewrite (slice_at (be_enc 4 reservesMagic)) by len.
    apply be_dec_enc_id. pose proof (zlen_nonneg (sorted_ids open)). change (256 ^ Z.of_nat 4) with (2^32). lia.
Qed.

Lemma decode_reserves open : wf_reserves open -> decodeReserves (encodeReserves open) = Ok open.
Proof.
  intros [Hcount Hwf]. unfold maxReserveEntries in Hcount.
  destruct (reserves_head_read open ltac:(lia)) as [Hm Hc]. unfold decodeReserves.
  rewrite (proj2 (Nat.ltb_ge _ _)) by (rewrite length_encodeReserves; lia).
  rewrite Hm, Hc, Z.eqb_refl. cbn [negb]. cbv zeta. unfold maxReserveEntries.
  rewrite (proj2 (Z.ltb_ge 65536 _)) by lia. unfold zlen at 1. rewrite Nat2Z.id.
  pose proof (decode_entries_run open (sorted_ids open) 0 (reserves_head open)
    (be_enc 4 (crc32c (reserves_body open))) ∅) as Hrun.
  rewrite <-reserves_split, length_reserves_head, readd_all in Hrun. rewrite Hrun.
  - cbn [mbind result_bind]. rewrite length_encodeReserves.
    replace (12 + length (concat (encode_entry open <$> sorted_ids open)) - 4)%nat
      with (8 + length (concat (encode_entry open <$> sorted_ids open)))%nat by lia.
    rewrite Nat.eqb_refl. cbn [negb].
    assert (Hb : length (reserves_body open) = (8 + length (concat (encode_entry open <$> sorted_ids open)))%nat).
    { unfold reserves_body. rewrite !length_app, !length_be_enc. lia. }
    unfold encodeReserves. by rewrite with_crc_take, with_crc_trailer, Z.eqb_refl by done.
  - intros id Hid. apply sorted_ids_elem in Hid as [v Hv]. rewrite Hv. by apply (Hwf id v).
  - apply sorted_ids_nodup.
  - intros id _. apply lookup_empty.
  - len.
Qed.

(** Decoded entries satisfy the bounds, and there are at most as many as the count says. *)
Lemma decode_entries_wf n i off data acc off' open :
  decode_entries n i off data acc = Ok (off', open) ->
  (forall id r, acc !! id = Some r -> 0 < zlen id <= maxRunIDLen /\ 0 <= r <= MaxInt64) ->
  (forall id r, open !! id = Some r -> 0 < zlen id <= maxRunIDLen /\ 0 <= r <= MaxInt64)
  /\ (size open <= size acc + n)%nat.
Proof.
  revert i off acc. induction n as [|n IH]; intros i off acc; cbn [decode_entries].
  - intros [= <- <-] H. split; [done|lia].
  - destruct (_ <? _)%nat eqn:E0; [done|]. destruct (_ || _) eqn:E1; [done|].
    set (id := slice _ _ data). destruct (acc !! id) eqn:E2; [done|]. intros Hd Hacc.
    apply Nat.ltb_ge in E0. bool_to_prop. apply Nat.ltb_ge in H0.
    pose proof (be_dec_range (slice (off + 8) 2 data)) as Hr.
    assert (Hid : zlen id = be_dec (slice (off + 8) 2 data)).
    { unfold id, zlen. rewrite length_slice; lia. }
    apply IH in Hd as [H1' H2'].
    + split; [done|]. rewrite map_size_insert_None in H2' by done. lia.
    + intros x r. destruct (decide (x = id)) as [->|Hx].
      * rewrite lookup_insert_eq. intros [= <-]. split; [lia|].
        pose proof (i64_range (be_dec (slice off 8 data))) as Hi. unfold in_i64 in Hi. lia.
      * rewrite lookup_insert_ne by done. apply Hacc.
Qed.

Lemma zlen_sorted_ids open : zlen (sorted_ids open) = Z.of_nat (size open).
Proof.
  unfold zlen, sorted_ids. rewrite (Permutation_length (sortStrings_perm _)), length_fmap.
  by rewrite length_map_to_list.
Qed.

Lemma reserves_sound data open :
  decodeReserves data = Ok open ->
  wf_reserves open /\ (12 <= length data)%nat
  /\ crc32c (take (length data - 4) data) = be_dec (slice (length data - 4) 4 data).
Proof.
  unfold decodeReserves. destruct (_ <? 12)%nat eqn:E0; [done|]. destruct (negb _); [done|]. cbv zeta.
  destruct (_ <? be_dec _) eqn:E1; [done|].
  destruct (decode_entries _ _ _ _ _) as [[off m]|] eqn:E2; [|done]. cbn [mbind result_bind].
  destruct (negb (off =? _)%nat) eqn:E3; [done|]. destruct (negb (_ =? _)) eqn:E4; [done|]. intros [= <-].
  apply negb_false_iff, Nat.eqb_eq in E3. apply Nat.ltb_ge in E0. bool_to_prop. subst off.
  apply decode_entries_wf in E2 as [Hb Hs]; [|by intros id r Hr].
  split; [|done]. split; [|done]. rewrite zlen_sorted_ids. rewrite map_size_empty in Hs.
  pose proof (be_dec_range (slice 4 4 data)). lia.
Qed.

(** ** Properties of the codec *)

(** The sidecar decodes to exactly the valid sets: a valid set reads back, anything that decodes is
    valid, and no single altered byte of a written sidecar decodes. A set past the entry bound, which
    [Reserve] does not check, does not read back. *)
Theorem reserves_codec :
  (forall open, wf_reserves open -> decodeReserves (encodeReserves open) = Ok open)
  /\ (forall data open, decodeReserves data = Ok open -> wf_reserves open)
  /\ (forall open i b c, encodeReserves open !! i = Some b -> b <> c ->
       is_ok (decodeReserves (<[i := c]> (encodeReserves open))) = false)
  /\ (forall open, maxReserveEntries < zlen (sorted_ids open) < 2^32 ->
       decodeReserves (encodeReserves open) = Err (ErrChecksumMismatch (ScCount (zlen (sorted_ids open))))).
Proof.
  split; [apply decode_reserves|]. split; [intros data open H; apply (reserves_sound _ _ H)|]. split.
  - intros open i b c Hi Hbc. destruct (decodeReserves _) as [m|e] eqn:E; [|done]. exfalso.
    apply reserves_sound in E as (_&_&Hcrc). rewrite length_insert in Hcrc.
    assert (Hlen : (length (encodeReserves open) - 4)%nat = length (reserves_body open)).
    { unfold encodeReserves. rewrite length_with_crc. lia. }
    rewrite Hlen in Hcrc. exact (with_crc_one_byte (reserves_body open) i b c _ eq_refl Hi Hbc Hcrc).
  - intros open [Hlo Hhi]. destruct (reserves_head_read open Hhi) as [Hm Hc]. unfold decodeReserves.
    rewrite (proj2 (Nat.ltb_ge _ _)) by (rewrite length_encodeReserves; lia).
    rewrite Hm, Hc, Z.eqb_refl. cbn [negb]. cbv zeta. by rewrite (proj2 (Z.ltb_lt _ _)) by done.
Qed.

(** ** The ledger *)

(** The set the sidecar holds; the empty set when it is absent. *)
Definition reserves_on_disk (open : runset) (d : disk) : Prop :=
  (file DRoot reservesFilename d = None /\ open = ∅) \/ file DRoot reservesFilename d = Some (encodeReserves open).

Lemma ct_persist ev r open d0 :
  reserves_on_disk open d0 ->
  crash_triple (eq d0) (persistLocked ev r) (fun d => reserves_on_disk open d \/ reserves_on_disk (rs_open r) d)
    (fun _ d => reserves_on_disk (rs_open r) d) (fun d => reserves_on_disk open d \/ reserves_on_disk (rs_open r) d).
Proof.
  intros Hd0. unfold persistLocked.
  assert (H : forall d, old_or_new ev DRoot reservesFilename (encodeReserves (rs_open r)) d0 d ->
    reserves_on_disk open d \/ reserves_on_disk (rs_open r) d).
  { intros d [(_&H&_)|(_&H&_)]; [left|right].
    - unfold reserves_on_disk, file in *. by rewrite H.
    - right. by apply file_lookup. }
  eapply ct_conseq; [apply atomic_write_new|done|exact H| |exact H].
  intros _ d ((_&Hd&_)&_). right. by apply file_lookup.
Qed.

(** The ledger after a call: the run's entry and nothing else changed. *)
Definition reserved (id : bytes) (r : Reserves) : Reserves :=
  mkReserves (rs_fixedReserve r) (<[id := rs_fixedReserve r]> (rs_open r)).
Definition released (id : bytes) (r : Reserves) : Reserves :=
  mkReserves (rs_fixedReserve r) (delete id (rs_open r)).

(** Preallocating and releasing a terminal reserve, under any faults. At every crash point and at the
    end the sidecar holds the old or the new set. A call for an entry that is already as asked touches
    nothing; otherwise success means that memory and sidecar hold the new set, and after a failed write
    memory holds the new set all the same. *)
Theorem reserve_release_spec ev id r d0 :
  reserves_on_disk (rs_open r) d0 ->
  let either r' d := reserves_on_disk (rs_open r) d \/ reserves_on_disk (rs_open r') d in
  (0 < zlen id <= maxRunIDLen -> rs_open r !! id = None ->
     crash_triple (eq d0) (Reserve ev id r) (either (reserved id r))
       (fun '(e, r') d => r' = reserved id r /\ either r' d /\ (e = Ok tt -> reserves_on_disk (rs_open r') d))
       (fun _ => False))
  /\ (is_Some (rs_open r !! id) ->
     crash_triple (eq d0) (Release ev id r) (either (released id r))
       (fun '(e, r') d => r' = released id r /\ either r' d /\ (e = Ok tt -> reserves_on_disk (rs_open r') d))
       (fun _ => False))
  /\ (0 < zlen id <= maxRunIDLen -> is_Some (rs_open r !! id) -> Reserve ev id r d0 = ([], Ok (Ok tt, r), d0))
  /\ (~ (0 < zlen id <= maxRunIDLen) -> Reserve ev id r d0 = ([], Ok (Err (ErrReserveRunID id), r), d0))
  /\ (rs_open r !! id = None -> Release ev id r d0 = ([], Ok (Ok tt, r), d0)).
Proof.
  intros Hd0 either.
  assert (Hguard : 0 < zlen id <= maxRunIDLen -> bool_decide (id = []) || (maxRunIDLen <? zlen id) = false).
  { intros Hid. apply orb_false_iff. split; [|apply Z.ltb_ge; lia].
    apply bool_decide_eq_false_2. intros ->. unfold zlen in Hid. cbn in Hid. lia. }
  assert (Hpersist : forall r', crash_triple (eq d0)
    (let! e := io_try (persistLocked ev r') in io_ret (e, r')) (either r')
    (fun '(e, r'') d => r'' = r' /\ either r'' d /\ (e = Ok tt -> reserves_on_disk (rs_open r'') d)) (fun _ => False)).
  { intros r' d <-. pose proof (ct_persist ev r' _ d0 Hd0 d0 eq_refl) as H. unfold io_try, io_bind.
    destruct (persistLocked ev r' d0) as [[t [[]|e]] d]; destruct H as [Ht Hr]; cbn; rewrite app_nil_r;
      (split; [done|]); split_and!; try done; by right. }
  split_and!.
  - intros Hid Hn. unfold Reserve. rewrite Hguard, Hn by done. apply Hpersist.
  - intros [v Hv]. unfold Release. rewrite Hv. apply Hpersist.
  - intros Hid [v Hv]. unfold Reserve. by rewrite Hguard, Hv by done.
  - intros Hid. unfold Reserve. destruct (_ || _) eqn:E; [done|]. exfalso. bool_to_prop. apply Hid.
    split; [|done]. unfold zlen. destruct id; [done|cbn; lia].
  - intros Hn. unfold Release. by rewrite Hn.
Qed.

(** A failed write is forgotten: repeating the call then succeeds without writing, and a restart does not
    find the run. *)
Theorem Reserve_failed_then_ok :
  let ev := mkEnv (fun op _ => bool_decide (op = IoRename)) 0 (str "1") 0 in
  let d0 := mkDisk ∅ None None in
  let '(_, r1, d1) := Reserve ev (str "run") (mkReserves 10 ∅) d0 in
  match r1 with
  | Ok (Err e, r) =>
      let '(t, r2, d2) := Reserve demo_env (str "run") r d1 in
      t = [] /\ (exists r', r2 = Ok (Ok tt, r')) /\ file DRoot reservesFilename d2 = None
  | _ => False
  end.
Proof. vm_compute. split_and!; [done|by eexists|done]. Qed.

(** ** Scanning *)

Lemma scan_body_stops : stops scan_body.
Proof. intros off fr n st a Hst. unfold scan_body. destruct st; [done|eauto..]. Qed.

Definition frames_events (frames : list Frame) : list RunEvent := concat (frame_event <$> frames).

Lemma run_scan frames off acc :
  run_frames scan_body off frames acc = inl ((off + length (frames_bytes frames))%nat, acc ++ frames_events frames).
Proof.
  revert off acc. induction frames as [|f fs IH]; intros off acc; cbn [run_frames scan_body].
  - unfold frames_events. cbn. by rewrite Nat.add_0_r, app_nil_r.
  - rewrite IH, frames_bytes_cons, length_app, <-app_assoc. unfold frames_events. cbn. do 2 f_equal. lia.
Qed.

(** A last file whose header does not decode, or none. *)
Definition benign_tail (extra : list bytes) (d : disk) : Prop :=
  extra = [] \/ exists x c e, extra = [x] /\ file DWal x d = Some c /\ decodeSegmentHeader c = Err e.

Lemma scan_segments_log ev d id ver first l extra events :
  SequenceMin <= first -> chained id ver first l -> log_files d l [] -> benign_tail extra d ->
  reads_as ev (scan_segments ev (log_names l ++ extra) events) d (events ++ frames_events (log_frames l)).
Proof.
  intros Hmin Hch Hfiles Hex. revert first events Hmin Hch Hfiles.
  induction l as [|[h fs] l IH]; intros first events Hmin Hch Hfiles.
  - unfold frames_events. cbn. rewrite app_nil_r. destruct Hex as [->|(x&c&e&->&Hf&He)]; [apply reads_ret|].
    cbn [scan_segments]. eapply reads_as_bind; [by apply reads_mustReadFile|]. rewrite He. cbn. apply reads_ret.
  - destruct Hch as (Hh&_&_&Hf&Hw&Hc&Hch). destruct (log_files_cons _ _ _ _ Hfiles) as [Hfile Hfiles'].
    pose proof (zlen_nonneg fs).
    change (log_names ((h, fs) :: l) ++ extra) with (segmentFilename (sh_FirstSequence h) :: log_names l ++ extra).
    cbn [scan_segments]. eapply reads_as_bind; [by apply reads_mustReadFile|].
    pose proof (decode_segment_bytes h fs [] Hh) as Hd. rewrite app_nil_r in Hd. rewrite Hd.
    eapply reads_as_bind.
    { apply reads_of.
      pose proof (frames_loop_segment scan_body (fun _ events => Ok events) (Err OutOfFuel) h fs [] events
        scan_body_stops Hw log_end_nil) as E.
      cbv zeta in E. rewrite app_nil_r in E. rewrite E. unfold loop_spec. by rewrite run_scan. }
    assert (Ej : frames_events (log_frames ((h, fs) :: l)) = frames_events fs ++ frames_events (log_frames l)).
    { unfold frames_events, log_frames. cbn. by rewrite fmap_app, concat_app. }
    rewrite Ej, app_assoc. by apply (IH (first + zlen fs)); [lia|..].
Qed.

(** Scanning a validated log yields its frames' run events in sequence order, over any number of
    segments, and skips a trailing file whose header never became whole. *)
Theorem ScanRunEvents_spec ev d id ver first l extra :
  SequenceMin <= first -> chained id ver first l -> log_files d l [] ->
  seg_names (entries DWal d) = log_names l ++ extra -> benign_tail extra d ->
  exists t r, ScanRunEvents ev d = (t, r, d)
    /\ (r = Ok (frames_events (log_frames l)) \/ exists op name, r = Err (ErrIO op) /\ e_flt ev op name = true).
Proof.
  intros Hmin Hch Hfiles Hnames Hex. unfold ScanRunEvents.
  apply (reads_as_bind _ _ _ _ (log_names l ++ extra)); [|by eapply (scan_segments_log _ _ _ _ _ _ _ [])].
  unfold listSegments. eapply reads_as_bind.
  - unfold readDir. eapply reads_as_bind; [apply reads_check|]. do 2 eexists. split; [done|by left].
  - rewrite <-Hnames. unfold entries. destruct (get_dir DWal d) as [m|]; [apply reads_ret|].
    change (default ∅ None) with (∅ : dirmap). apply reads_ret.
Qed.

(** ** Reconciling *)

Section fold_point.
Variables (step : runset * bool -> bytes -> runset * bool) (g : bytes -> option Z -> option Z).
Hypothesis (Hstep : forall s id,
  step s id = (partial_alter (g id) id s.1, s.2 || bool_decide (g id (s.1 !! id) <> s.1 !! id))).

Lemma fold_point_lookup ids s x :
  NoDup ids ->
  (fold_left step ids s).1 !! x = if bool_decide (x ∈ ids) then g x (s.1 !! x) else s.1 !! x.
Proof.
  revert s. induction ids as [|id ids IH]; intros s Hn; [done|]. apply NoDup_cons in Hn as [Hid Hn].
  cbn [fold_left]. rewrite IH, Hstep by done. cbn [fst].
  case_bool_decide as H1; case_bool_decide as H2; rewrite elem_of_cons in H2; try tauto.
  - rewrite lookup_partial_alter_ne; [done|]. intros ->. done.
  - destruct H2 as [->|]; [|done]. by rewrite lookup_partial_alter_eq.
  - rewrite lookup_partial_alter_ne; [done|]. intros ->. tauto.
Qed.

Lemma fold_point_changed ids s :
  NoDup ids ->
  (fold_left step ids s).2 = s.2 || bool_decide ((fold_left step ids s).1 <> s.1).
Proof.
  revert s. induction ids as [|id ids IH]; intros s Hn; cbn [fold_left].
  - rewrite bool_decide_eq_false_2 by (intros H; by apply H). by rewrite orb_false_r.
  - apply NoDup_cons in Hn as [Hid Hn]. rewrite IH by done.
    pose proof (fold_point_lookup ids (step s id) id Hn) as Hl. rewrite bool_decide_eq_false_2 in Hl by done.
    set (s' := fold_left step ids (step s id)) in *. rewrite Hstep in *. cbn [fst snd] in *.
    rewrite lookup_partial_alter_eq in Hl. rewrite <-orb_assoc. f_equal.
    apply eq_true_iff_eq. rewrite orb_true_iff, !bool_decide_eq_true.
    destruct (decide (g id (s.1 !! id) = s.1 !! id)) as [He|He].
    + assert (Hsame : partial_alter (g id) id s.1 = s.1).
      { apply map_eq. intros x. destruct (decide (x = id)) as [->|];
          [by rewrite lookup_partial_alter_eq|by rewrite lookup_partial_alter_ne]. }
      rewrite Hsame. tauto.
    + split; [|tauto]. intros _ E. apply He. by rewrite <-Hl, E.
Qed.
End fold_point.

(** What reconciliation makes of one run's entry. *)
Definition reconciled (fixedReserve : Z) (events : list RunEvent) (id : bytes) (v : option Z) : option Z :=
  if bool_decide (id ∈ ids_of RunEventTerminated events) then None
  else if bool_decide (id ∈ ids_of RunEventStarted events) then Some (default fixedReserve v) else v.

Lemma reconcile_run fixedReserve events open :
  let s := reconcile fixedReserve events open in
  (forall id, s.1 !! id = reconciled fixedReserve events id (open !! id))
  /\ s.2 = bool_decide (s.1 <> open).
Proof.
  unfold reconcile, reconciled. set (started := ids_of RunEventStarted events).
  set (terminated := ids_of RunEventTerminated events).
  set (g1 := fun id (v : option Z) => if bool_decide (id ∈ terminated) then None else Some (default fixedReserve v)).
  set (g2 := fun id (v : option Z) => if bool_decide (id ∈ started) then v else None).
  assert (Hsame : forall (m : runset) id f, f (m !! id) = m !! id -> partial_alter f id m = m).
  { intros m id f He. apply map_eq. intros x. destruct (decide (x = id)) as [->|];
      [by rewrite lookup_partial_alter_eq|by rewrite lookup_partial_alter_ne]. }
  assert (H1 : forall s id, reconcile_started fixedReserve terminated s id
    = (partial_alter (g1 id) id s.1, s.2 || bool_decide (g1 id (s.1 !! id) <> s.1 !! id))).
  { intros [m c] id. cbn [fst snd]. unfold reconcile_started, g1. case_bool_decide as Ht; destruct (m !! id) as [v|] eqn:Ev.
    - rewrite bool_decide_eq_true_2 by done. by rewrite orb_true_r.
    - rewrite Hsame by (by rewrite Ev). rewrite bool_decide_eq_false_2 by tauto. by rewrite orb_false_r.
    - rewrite Hsame by (by rewrite Ev). rewrite bool_decide_eq_false_2 by (cbn; tauto). by rewrite orb_false_r.
    - rewrite bool_decide_eq_true_2 by done. rewrite orb_true_r. cbn. f_equal.
      apply map_eq. intros x. destruct (decide (x = id)) as [->|].
      + by rewrite lookup_insert_eq, lookup_partial_alter_eq, Ev.
      + by rewrite lookup_insert_ne, lookup_partial_alter_ne. }
  assert (H2 : forall s id, reconcile_terminated started s id
    = (partial_alter (g2 id) id s.1, s.2 || bool_decide (g2 id (s.1 !! id) <> s.1 !! id))).
  { intros [m c] id. cbn [fst snd]. unfold reconcile_terminated, g2. case_bool_decide as Ht.
    - rewrite Hsame by done. rewrite bool_decide_eq_false_2 by tauto. by rewrite orb_false_r.
    - destruct (m !! id) as [v|] eqn:Ev.
      + rewrite bool_decide_eq_true_2 by done. by rewrite orb_true_r.
      + rewrite Hsame by (by rewrite Ev). rewrite bool_decide_eq_false_2 by tauto. by rewrite orb_false_r. }
  pose proof (NoDup_elements started) as Hns. pose proof (NoDup_elements terminated) as Hnt.
  set (mid := fold_left (reconcile_started fixedReserve terminated) (elements started) (open, false)).
  assert (Hmid : forall x, mid.1 !! x = if bool_decide (x ∈ started) then g1 x (open !! x) else open !! x).
  { intros x. unfold mid. rewrite (fold_point_lookup _ _ H1) by done. cbn [fst].
    by rewrite (bool_decide_ext (x ∈ elements started) (x ∈ started)) by apply elem_of_elements. }
  pose proof (fold_point_changed _ _ H1 (elements started) (open, false) Hns) as Hc1.
  fold mid in Hc1. cbn [fst snd orb] in Hc1.
  assert (Hend : forall x, (fold_left (reconcile_terminated started) (elements terminated) mid).1 !! x
    = reconciled fixedReserve events x (open !! x)).
  { intros x. rewrite (fold_point_lookup _ _ H2) by done. rewrite Hmid.
    rewrite (bool_decide_ext (x ∈ elements terminated) (x ∈ terminated)) by apply elem_of_elements.
    unfold reconciled, g1, g2. fold started terminated. by repeat case_bool_decide. }
  split; [exact Hend|]. rewrite (fold_point_changed _ _ H2) by done. rewrite Hc1.
  set (fin := (fold_left (reconcile_terminated started) (elements terminated) mid).1) in *.
  apply eq_true_iff_eq. rewrite orb_true_iff, !bool_decide_eq_true. split.
  - intros Hor Heq. assert (Hm : mid.1 = open).
    { apply map_eq. intros x. pose proof (Hend x) as Hx. rewrite Heq in Hx. rewrite Hmid.
      unfold reconciled, g1 in *. fold started terminated in Hx. repeat case_bool_decide; congruence. }
    destruct Hor; congruence.
  - intros Hne. destruct (decide (mid.1 = open)) as [E|]; [right|by left]. congruence.
Qed.

(** Startup reconciliation. Whatever the order of the events, every run's entry is decided by them: a
    terminal event releases it, a start without one reserves it (an existing reserve is kept), and without
    events the sidecar stands. The sidecar holds the read or the reconciled set at every crash point, the
    reconciled one on success, and it is rewritten only when the two differ. *)
Theorem ReconcileReserves_spec ev fixedReserve events open d0 :
  wf_reserves open -> reserves_on_disk open d0 ->
  let new := (reconcile fixedReserve events open).1 in
  let either d := reserves_on_disk open d \/ reserves_on_disk new d in
  (forall id, new !! id = reconciled fixedReserve events id (open !! id))
  /\ crash_triple (eq d0) (ReconcileReserves ev fixedReserve events) either
       (fun r d => r = mkReserves fixedReserve new /\ reserves_on_disk new d /\ (new = open -> d = d0)) either.
Proof.
  intros Hwf Hd0 new either. destruct (reconcile_run fixedReserve events open) as [Hl Hch].
  split; [exact Hl|]. unfold ReconcileReserves.
  apply (ct_bind _ _ _ _ _ (fun r d => d0 = d /\ r = mkReserves fixedReserve open)).
  - unfold LoadReserves, readReserves. intros d <-. pose proof (or_introl Hd0 : either d0) as He.
    unfold io_bind, readFile, io_check, io_call, io_bind. destruct (e_flt ev IoRead reservesFilename); cbn -[file reservesFilename].
    { split; [by constructor|done]. }
    destruct Hd0 as [[-> ->]| ->]; cbn -[decodeReserves encodeReserves]; [split; [by constructor|done]|].
    rewrite decode_reserves by done. cbn. split; [by constructor|done].
  - intros r. unfold new in *. destruct (reconcile fixedReserve events open) as [m c] eqn:E. cbn [fst snd] in *.
    intros d [<- ->]. cbn [rs_open]. rewrite E, Hch. case_bool_decide as Hne.
    + assert (Hct : crash_triple (eq d0)
        (persistLocked ev (mkReserves fixedReserve m) ;! io_ret (mkReserves fixedReserve m)) either
        (fun r d => r = mkReserves fixedReserve m /\ reserves_on_disk m d /\ (m = open -> d = d0)) either).
      { eapply ct_bind; [by apply (ct_persist ev (mkReserves fixedReserve m) open d0 Hd0)|].
        intros []. apply ct_ret. intros d Hd. by split_and!. }
      apply (Hct d0 eq_refl).
    + cbn. split; [constructor|]. subst m. by split_and!.
Qed.

(** Reconciliation trusts the run ids of the frames: one longer than the bound makes a sidecar that the
    next start refuses. *)
Theorem reconcile_unbounded_id :
  let id := replicate 300 x61 in
  let '(_, r, d) := ReconcileReserves demo_env 10 [mkRunEvent 1 id RunEventStarted] (mkDisk ∅ None None) in
  is_ok r = true /\ (LoadReserves demo_env 10 d).1.2 = Err (ErrChecksumMismatch (ScEntry 0)).
Proof. vm_compute. by split. Qed.

(** ** Witnesses *)

Definition demo_open : runset := {[ str "run-1" := 4096; str "a" := 7 ]}.

Lemma demo_open_wf : wf_reserves demo_open.
Proof.
  split; [vm_compute; discriminate|]. intros id r. unfold demo_open. rewrite lookup_insert_Some, lookup_singleton_Some.
  intros [[<- <-]|(_&<-&<-)]; vm_compute; split; (split; discriminate || done).
Qed.

Definition demo_reserves_disk : disk := mkDisk {[ reservesFilename := EFile (encodeReserves demo_open) ]} None None.

Lemma demo_reserves_on_disk : reserves_on_disk demo_open demo_reserves_disk.
Proof. right. apply file_lookup. apply lookup_singleton_eq. Qed.

Definition demo_reserves : Reserves := mkReserves 10 demo_open.

Lemma reserve_release_spec_witness :
  (0 < zlen (str "b") <= maxRunIDLen /\ rs_open demo_reserves !! str "b" = None)
  /\ crash_triple (eq demo_reserves_disk) (Reserve demo_env (str "b") demo_reserves)
      (fun d => reserves_on_disk demo_open d \/ reserves_on_disk (<[str "b" := 10]> demo_open) d)
      (fun '(e, r') d => r' = reserved (str "b") demo_reserves
         /\ (reserves_on_disk demo_open d \/ reserves_on_disk (rs_open r') d)
         /\ (e = Ok tt -> reserves_on_disk (rs_open r') d))
      (fun _ => False).
Proof.
  assert (H : 0 < zlen (str "b") <= maxRunIDLen /\ rs_open demo_reserves !! str "b" = None) by (vm_compute; by split_and!).
  split; [exact H|].
  exact (proj1 (reserve_release_spec demo_env (str "b") demo_reserves demo_reserves_disk demo_reserves_on_disk) (proj1 H) (proj2 H)).
Defined.

Definition demo_run_frames : list Frame :=
  [sealed (mkFrame 1 x00 (js "{'kind':'RUN_BOUNDARY','run_boundary':{'run_id':'r','transition':'RUN_STARTED'}}") []);
   sealed (mkFrame 2 x00 (js "{'kind':'PROCESS_LIFECYCLE','process_lifecycle':{'transition':'PROCESS_EXITED'},'run_context':{'run_id':'q'}}") [])].
Definition demo_run_disk : disk :=
  mkDisk ∅ (Some {[ segmentFilename 1 := EFile (segment_bytes demo_header demo_run_frames) ]}) None.

Lemma ScanRunEvents_spec_witness :
  frames_events demo_run_frames = [mkRunEvent 1 (str "r") RunEventStarted; mkRunEvent 2 (str "q") RunEventTerminated]
  /\ exists t r, ScanRunEvents demo_env demo_run_disk = (t, r, demo_run_disk)
      /\ (r = Ok (frames_events (log_frames [(demo_header, demo_run_frames)]))
          \/ exists op name, r = Err (ErrIO op) /\ e_flt demo_env op name = true).
Proof.
  split; [vm_compute; reflexivity|].
  apply (ScanRunEvents_spec demo_env demo_run_disk (str "src") 1 1 [(demo_header, demo_run_frames)] []).
  - done.
  - split_and!; [exact demo_header_ok|done..| | |done].
    + repeat constructor; apply frame_wf_sealed; vm_compute; (split; [split; discriminate|discriminate]).
    + intros [|[|i]] f Hf; cbn in Hf; try discriminate Hf; injection Hf as <-; reflexivity.
  - cbn. rewrite app_nil_r. apply file_lookup. apply lookup_singleton_eq.
  - apply demo_one_segment.
  - by left.
Defined.

Definition demo_events : list RunEvent :=
  [mkRunEvent 1 (str "a") RunEventStarted; mkRunEvent 2 (str "new") RunEventStarted; mkRunEvent 3 (str "a") RunEventTerminated].

Lemma ReconcileReserves_spec_witness :
  ((reconcile 10 demo_events demo_open).1 !! str "new" = Some 10
   /\ (reconcile 10 demo_events demo_open).1 !! str "a" = None
   /\ (reconcile 10 demo_events demo_open).1 !! str "run-1" = Some 4096)
  /\ (forall id, (reconcile 10 demo_events demo_open).1 !! id = reconciled 10 demo_events id (demo_open !! id)).
Proof.
  split; [split_and!; vm_compute; reflexivity|].
  exact (proj1 (ReconcileReserves_spec demo_env 10 demo_events demo_open demo_reserves_disk demo_open_wf demo_reserves_on_disk)).
Defined.
