(* ===== verification/Capacity.v ===== *)
(** * The byte-ceiling model ([internal/observer/spool/capacity.go], the capacity accounting)

    Configuration, the validated model, pressure and admission, the required ceiling and the WAL's size.
    Floating-point numbers are the non-negative dyadics [m * 2^e] with the rounding of a 53-bit
    significand; infinities, NaN and exponent limits are left out. The theorems: which configurations are
    accepted and what is derived from them, that an admitted run fits below the hard floor, and the size
    of the ceiling the formula asks for. *)

From S2P Require Import Prelude Hash SpoolTypes Frame Fs GoStrings Segment Sidecar Recover.

(** ** Float64 *)

Record float64 : Type := mkFloat { f_man : Z; f_exp : Z }.

(** The nearest value with a 53-bit significand, ties to even. *)
Definition round64 (m e : Z) : float64 :=
  if m <? 2 ^ 53 then mkFloat m e
  else
    let k := Z.log2 m - 52 in
    let q := m / 2 ^ k in
    let r := m mod 2 ^ k in
    let half := 2 ^ (k - 1) in
    mkFloat (if (r <? half) || ((r =? half) && Z.even q) then q else q + 1) (e + k).

Definition float_of (z : Z) : float64 := round64 z 0.
Definition fmul (a b : float64) : float64 := round64 (f_man a * f_man b) (f_exp a + f_exp b).
Definition ffloor (a : float64) : Z := if 0 <=? f_exp a then f_man a * 2 ^ f_exp a else f_man a / 2 ^ (- f_exp a).
Definition fceil (a : float64) : Z := if 0 <=? f_exp a then f_man a * 2 ^ f_exp a else - (- f_man a / 2 ^ (- f_exp a)).
Definition fle (a b : float64) : bool :=
  let e := Z.min (f_exp a) (f_exp b) in f_man a * 2 ^ (f_exp a - e) <=? f_man b * 2 ^ (f_exp b - e).

(** 0.25 and 0.75. *)
Definition MinSafetyMarginRatio : float64 := mkFloat 1 (-2).
Definition defaultSoftFraction : float64 := mkFloat 3 (-2).

(** ** The model *)

Record CapacityConfig : Type := mkCapacityConfig {
  CeilingBytes : Z;
  SoftThresholdBytes : Z;
  TerminalReserveBytes : Z;
  MaxSegmentBytes : Z;
  ScratchBytes : Z;
  OfflineNormalizedBytes : Z;
  SafetyMarginRatio : float64;
}.

Record CapacityModel : Type := mkCapacityModel {
  cm_cfg : CapacityConfig;
  cm_safetyMargin : float64;
  cm_hardFloor : Z;
  cm_softThreshold : Z;
}.

Definition NewCapacityModel (cfg : CapacityConfig) : sres CapacityModel :=
  if CeilingBytes cfg <=? 0 then Err ErrCapacityConfig
  else if (MaxSegmentBytes cfg <? 0) || (ScratchBytes cfg <? 0) || (TerminalReserveBytes cfg <? 0)
          || (OfflineNormalizedBytes cfg <? 0) then Err ErrCapacityConfig
  else
    let margin := if f_man (SafetyMarginRatio cfg) =? 0 then MinSafetyMarginRatio else SafetyMarginRatio cfg in
    if negb (fle MinSafetyMarginRatio margin) then Err ErrCapacityConfig
    else
      let hardFloor := i64 (i64 (CeilingBytes cfg - MaxSegmentBytes cfg) - ScratchBytes cfg) in
      if hardFloor <=? 0 then Err ErrCapacityConfig
      else
        let soft := if SoftThresholdBytes cfg =? 0
                    then i64 (ffloor (fmul (float_of hardFloor) defaultSoftFraction))
                    else SoftThresholdBytes cfg in
        if (soft <=? 0) || (hardFloor <=? soft) then Err ErrCapacityConfig
        else Ok (mkCapacityModel cfg margin hardFloor soft).

Inductive Pressure : Type := PressureNone | PressureSoft | PressureHard.

#[export] Instance Pressure_eq_dec : EqDecision Pressure.
Proof. solve_decision. Defined.

Definition Pressure_String (p : Pressure) : bytes :=
  match p with PressureNone => str "none" | PressureSoft => str "soft" | PressureHard => str "hard" end.

Record CapacityStatus : Type := mkCapacityStatus {
  UsedBytes : Z;
  StatusOpenReserveBytes : Z;
  CommittedBytes : Z;
  StatusCeilingBytes : Z;
  HardFloorBytes : Z;
  StatusSoftThresholdBytes : Z;
  StatusPressure : Pressure;
  AdmitPassiveCapture : bool;
  AdmitNewExplicitRun : bool;
}.

Definition Evaluate (m : CapacityModel) (usedBytes openReserveBytes : Z) : CapacityStatus :=
  let committed := i64 (usedBytes + openReserveBytes) in
  let pressure := if cm_hardFloor m <=? committed then PressureHard
                  else if cm_softThreshold m <=? committed then PressureSoft else PressureNone in
  mkCapacityStatus usedBytes openReserveBytes committed (CeilingBytes (cm_cfg m)) (cm_hardFloor m)
    (cm_softThreshold m) pressure (bool_decide (pressure = PressureNone))
    (negb (bool_decide (pressure = PressureHard))
     && (i64 (committed + TerminalReserveBytes (cm_cfg m)) <=? cm_hardFloor m)).

Definition RequiredCeiling (m : CapacityModel) (openReserveBytes : Z) : Z :=
  let base := i64 (i64 (OfflineNormalizedBytes (cm_cfg m) + ScratchBytes (cm_cfg m)) + openReserveBytes) in
  let withMargin := i64 (base + i64 (fceil (fmul (float_of base) (cm_safetyMargin m)))) in
  i64 (withMargin + MaxSegmentBytes (cm_cfg m)).

(** The sizes of the regular [*.seg] files. *)
Fixpoint sum_sizes (ev : env) (names : list bytes) (total : Z) : IO Z :=
  match names with
  | [] => io_ret total
  | x :: rest =>
      io_check ev IoStat x ;!
      (fun d => sum_sizes ev rest (i64 (total + zlen (default [] (file DWal x d)))) d)
  end.

Definition WALBytes (ev : env) : IO Z :=
  let! m := readDir ev DWal (name_of DWal) in
  match m with
  | None => io_ret 0
  | Some m => sum_sizes ev (seg_names m) 0
  end.

(** ** The configuration *)

(** The default threshold is three quarters of the hard floor, rounded down, and so strictly below it. *)
Lemma default_soft h : 0 <= h < 2 ^ 51 -> ffloor (fmul (float_of h) defaultSoftFraction) = 3 * h / 4.
Proof.
  intros Hh. unfold float_of, round64. rewrite (proj2 (Z.ltb_lt h _)) by lia.
  unfold fmul, defaultSoftFraction, round64. cbn [f_man f_exp]. rewrite (proj2 (Z.ltb_lt (h * 3) _)) by lia.
  unfold ffloor. cbn [f_man f_exp]. change (0 <=? 0 + -2) with false. cbn match.
  change (2 ^ (- (0 + -2))) with 4. by rewrite Z.mul_comm.
Qed.

(** Configurations whose byte fields are far from the [int64] bounds. *)
Definition sane_config (cfg : CapacityConfig) : Prop :=
  CeilingBytes cfg < 2 ^ 51 /\ MaxSegmentBytes cfg < 2 ^ 51 /\ ScratchBytes cfg < 2 ^ 51
  /\ TerminalReserveBytes cfg < 2 ^ 51 /\ OfflineNormalizedBytes cfg < 2 ^ 51.

Lemma capacity_model_run cfg m :
  sane_config cfg ->
  let floor := CeilingBytes cfg - MaxSegmentBytes cfg - ScratchBytes cfg in
  NewCapacityModel cfg = Ok m <->
    0 <= MaxSegmentBytes cfg /\ 0 <= ScratchBytes cfg /\ 0 <= TerminalReserveBytes cfg
    /\ 0 <= OfflineNormalizedBytes cfg
    /\ (f_man (SafetyMarginRatio cfg) = 0 \/ fle MinSafetyMarginRatio (SafetyMarginRatio cfg) = true)
    /\ 2 <= floor /\ (SoftThresholdBytes cfg = 0 \/ 0 < SoftThresholdBytes cfg < floor)
    /\ m = mkCapacityModel cfg
             (if f_man (SafetyMarginRatio cfg) =? 0 then MinSafetyMarginRatio else SafetyMarginRatio cfg)
             floor (if SoftThresholdBytes cfg =? 0 then 3 * floor / 4 else SoftThresholdBytes cfg).
Proof.
  intros (B1&B2&B3&B4&B5) floor. unfold NewCapacityModel.
  destruct (Z.leb_spec (CeilingBytes cfg) 0) as [H0|H0]; [split; [done|lia]|].
  destruct (_ || _) eqn:E1; [split; [done|intros (?&?&?&?&_); bool_to_prop; exfalso]|].
  { repeat match goal with H : _ \/ _ |- _ => destruct H | H : (_ || _) = true |- _ => apply orb_prop in H end;
      bool_to_prop; lia. }
  bool_to_prop. cbv zeta.
  rewrite (i64_id (CeilingBytes cfg - MaxSegmentBytes cfg)), i64_id by (unfold in_i64, MaxInt64; lia). fold floor.
  set (margin := if f_man (SafetyMarginRatio cfg) =? 0 then MinSafetyMarginRatio else SafetyMarginRatio cfg).
  assert (Hm : fle MinSafetyMarginRatio margin = true
    <-> f_man (SafetyMarginRatio cfg) = 0 \/ fle MinSafetyMarginRatio (SafetyMarginRatio cfg) = true).
  { unfold margin. destruct (Z.eqb_spec (f_man (SafetyMarginRatio cfg)) 0); [|tauto]. split; [by left|done]. }
  destruct (fle MinSafetyMarginRatio margin); cbn [negb];
    [|split; [done|intros (_&_&_&_&Hor&_); by apply Hm in Hor]].
  destruct (Z.leb_spec floor 0); [split; [done|lia]|].
  rewrite default_soft by lia.
  assert (Hs : 0 <= 3 * floor / 4 < floor) by (Z.to_euclidean_division_equations; lia).
  assert (Hs2 : 0 < 3 * floor / 4 <-> 2 <= floor) by (Z.to_euclidean_division_equations; lia).
  rewrite i64_id by (unfold in_i64, MaxInt64; lia).
  set (soft := if SoftThresholdBytes cfg =? 0 then 3 * floor / 4 else SoftThresholdBytes cfg).
  assert (Hsoft : 0 < soft < floor <-> 2 <= floor /\ (SoftThresholdBytes cfg = 0 \/ 0 < SoftThresholdBytes cfg < floor)).
  { unfold soft. destruct (Z.eqb_spec (SoftThresholdBytes cfg) 0); lia. }
  destruct (_ || _) eqn:E2.
  - split; [done|]. intros (_&_&_&_&_&Hf&Hb&_). exfalso.
    apply orb_prop in E2 as [E|E]; bool_to_prop; lia.
  - bool_to_prop. split.
    + intros [= <-]. assert (0 < soft < floor) as Hin by lia. apply Hsoft in Hin as [? ?].
      split_and!; (lia || done || by apply Hm).
    + by intros (_&_&_&_&_&_&_&->).
Qed.

(** Which configurations are accepted, for byte fields below 2^51: exactly those with non-negative
    fields, a margin of at least a quarter (or none given), room for two bytes or more after the segment
    and the scratch, and a soft threshold strictly inside that room or left to the default; and the
    accepted model's hard floor and soft threshold. *)
Theorem NewCapacityModel_spec cfg m :
  sane_config cfg ->
  let floor := CeilingBytes cfg - MaxSegmentBytes cfg - ScratchBytes cfg in
  NewCapacityModel cfg = Ok m <->
    0 <= MaxSegmentBytes cfg /\ 0 <= ScratchBytes cfg /\ 0 <= TerminalReserveBytes cfg
    /\ 0 <= OfflineNormalizedBytes cfg
    /\ (f_man (SafetyMarginRatio cfg) = 0 \/ fle MinSafetyMarginRatio (SafetyMarginRatio cfg) = true)
    /\ 2 <= floor /\ (SoftThresholdBytes cfg = 0 \/ 0 < SoftThresholdBytes cfg < floor)
    /\ m = mkCapacityModel cfg
             (if f_man (SafetyMarginRatio cfg) =? 0 then MinSafetyMarginRatio else SafetyMarginRatio cfg)
             floor (if SoftThresholdBytes cfg =? 0 then 3 * floor / 4 else SoftThresholdBytes cfg).
Proof. apply capacity_model_run. Qed.

(** ** Admission *)

(** Pressure and admission. Committed bytes are used plus reserved; hard pressure starts at the hard
    floor and soft pressure at the threshold below it; passive capture is admitted exactly without
    pressure; and a new run is admitted exactly when its terminal reserve still fits below the hard floor,
    so that with it, one whole segment and the scratch still fit below the ceiling. *)
Theorem Evaluate_spec cfg m used open :
  sane_config cfg -> NewCapacityModel cfg = Ok m -> 0 <= used < 2 ^ 61 -> 0 <= open < 2 ^ 61 ->
  let st := Evaluate m used open in
  CommittedBytes st = used + open
  /\ (StatusPressure st = PressureHard <-> cm_hardFloor m <= used + open)
  /\ (StatusPressure st = PressureNone <-> used + open < cm_softThreshold m)
  /\ (AdmitPassiveCapture st = true <-> used + open < cm_softThreshold m)
  /\ (AdmitNewExplicitRun st = true
      <-> used + open < cm_hardFloor m /\ used + open + TerminalReserveBytes cfg <= cm_hardFloor m)
  /\ (AdmitNewExplicitRun st = true ->
      used + open + TerminalReserveBytes cfg + MaxSegmentBytes cfg + ScratchBytes cfg <= CeilingBytes cfg).
Proof.
  intros Hsane Hm Hu Ho. pose proof Hsane as (B1&B2&B3&B4&B5).
  assert (Hd : 0 <= MaxSegmentBytes cfg /\ 0 <= ScratchBytes cfg /\ 0 <= TerminalReserveBytes cfg /\ cm_cfg m = cfg
    /\ cm_hardFloor m = CeilingBytes cfg - MaxSegmentBytes cfg - ScratchBytes cfg
    /\ 0 < cm_softThreshold m < cm_hardFloor m).
  { apply (capacity_model_run cfg m Hsane) in Hm as (?&?&?&?&_&Hf&Hs&->). cbn [cm_cfg cm_hardFloor cm_softThreshold].
    split_and!; try (done || lia).
    - destruct (Z.eqb_spec (SoftThresholdBytes cfg) 0); [|lia]. Z.to_euclidean_division_equations. lia.
    - destruct (Z.eqb_spec (SoftThresholdBytes cfg) 0); [|lia]. Z.to_euclidean_division_equations. lia. }
  destruct Hd as (D1&D2&D3&D4&D5&D6). unfold Evaluate. rewrite D4. cbv zeta.
  rewrite (i64_id (used + open)), i64_id by (unfold in_i64, MaxInt64; lia). cbn.
  destruct (Z.leb_spec (cm_hardFloor m) (used + open)); [|destruct (Z.leb_spec (cm_softThreshold m) (used + open))];
    cbn; rewrite ?Z.leb_le; split_and!; try split; try (done || lia);
    intros [_ Hfit]; by apply Z.leb_le.
Qed.

(** The configuration check subtracts in 64 bits: past the sane range it accepts a configuration whose
    segment and scratch exceed the ceiling. *)
Theorem capacity_overflow_accepts :
  let cfg := mkCapacityConfig 10 1 0 MaxInt64 MaxInt64 0 (mkFloat 0 0) in
  exists m, NewCapacityModel cfg = Ok m /\ cm_hardFloor m = 12.
Proof. eexists. split; [vm_compute; reflexivity|reflexivity]. Qed.

(** ** The WAL's size *)

Lemma sum_sizes_run ev names total d :
  (forall op name, e_flt ev op name = false) -> 0 <= total ->
  total + foldr Z.add 0 ((fun x => zlen (default [] (file DWal x d))) <$> names) <= MaxInt64 ->
  exists t, sum_sizes ev names total d
    = (t, Ok (total + foldr Z.add 0 ((fun x => zlen (default [] (file DWal x d))) <$> names)), d).
Proof.
  intros Hflt. revert total. induction names as [|x names IH]; intros total Ht Hm; cbn [fmap list_fmap foldr] in *.
  - exists []. by rewrite Z.add_0_r.
  - assert (0 <= foldr Z.add 0 ((fun x => zlen (default [] (file DWal x d))) <$> names)).
    { clear. induction names as [|y names IH]; cbn; [lia|]. pose proof (zlen_nonneg (default [] (file DWal y d))). lia. }
    pose proof (zlen_nonneg (default [] (file DWal x d))).
    cbn [sum_sizes]. unfold io_bind, io_check, io_call. rewrite Hflt. cbn [id].
    rewrite i64_id by (unfold in_i64, MaxInt64 in *; lia).
    destruct (IH (total + zlen (default [] (file DWal x d))) ltac:(lia) ltac:(lia)) as [t E].
    rewrite E. eexists. by rewrite Z.add_assoc.
Qed.

(** The used-bytes input is the total size of the log's segment files and nothing else: for a log
    with its tail, the bytes of every segment and of the tail. *)
Theorem WALBytes_spec ev src ver first l tail d :
  (forall op name, e_flt ev op name = false) -> wal_holds src ver first l tail d -> l <> [] ->
  let total := foldr Z.add 0 ((fun s => zlen (segment_bytes s.1 s.2)) <$> l) + zlen tail in
  total <= MaxInt64 -> (WALBytes ev d).1.2 = Ok total.
Proof.
  intros Hflt (Hmin&Hch&Hn&Hf) Hl total Hm.
  assert (Hsum : foldr Z.add 0 ((fun x => zlen (default [] (file DWal x d))) <$> log_names l) = total).
  { unfold total. clear -Hf Hl. induction l as [|[h fs] l IH]; [done|].
    change (log_names ((h, fs) :: l)) with (segmentFilename (sh_FirstSequence h) :: log_names l).
    cbn [fmap list_fmap foldr fst snd]. destruct l as [|s l].
    - cbn [log_files] in Hf. rewrite Hf. change (default [] (Some ?x)) with x. rewrite zlen_app. cbn. lia.
    - cbn [log_files] in Hf. destruct Hf as [Hfile Hf]. rewrite Hfile, IH by done. change (default [] (Some ?x)) with x. lia. }
  unfold WALBytes, readDir, io_bind, io_check, io_call. rewrite Hflt. cbn [id].
  unfold entries in Hn. destruct (get_dir DWal d) as [m|].
  - change (default ∅ (Some m)) with m in Hn. rewrite Hn.
    destruct (sum_sizes_run ev (log_names l) 0 d Hflt ltac:(lia)) as [t E]; [by rewrite Hsum|].
    rewrite E, Hsum. done.
  - by destruct l; apply (f_equal length) in Hn.
Qed.

(** ** Witnesses *)

Definition demo_config : CapacityConfig := mkCapacityConfig 1000 0 50 100 20 300 (mkFloat 1 (-1)).
Definition demo_model : CapacityModel := mkCapacityModel demo_config (mkFloat 1 (-1)) 880 660.

Lemma NewCapacityModel_spec_witness :
  NewCapacityModel demo_config = Ok demo_model /\ 2 <= 1000 - 100 - 20.
Proof.
  assert (H : NewCapacityModel demo_config = Ok demo_model) by (vm_compute; reflexivity). split; [exact H|].
  apply (NewCapacityModel_spec demo_config demo_model); [vm_compute; by split_and!|exact H].
Defined.

Lemma Evaluate_spec_witness :
  let st := Evaluate demo_model 700 100 in
  (StatusPressure st = PressureSoft /\ AdmitNewExplicitRun st = true) /\ CommittedBytes st = 700 + 100.
Proof.
  split; [vm_compute; by split|].
  apply (Evaluate_spec demo_config demo_model 700 100); [vm_compute; by split_and!|vm_compute; reflexivity|lia|lia].
Defined.

Lemma WALBytes_spec_witness :
  (WALBytes demo_env demo_torn_disk).1.2 = Ok (zlen (segment_bytes demo_header demo_frames) + 0 + zlen demo_tail).
Proof.
  apply (WALBytes_spec demo_env (str "src") 1 1 demo_log demo_tail demo_torn_disk);
    [reflexivity|exact (demo_wal demo_tail)|discriminate|vm_compute; discriminate].
Defined.

