(* ===== verification/WalEnds.v ===== *)
(** * The ends a log can have

    A crash while the writer rotates leaves the log followed by the beginning of a new segment's
    header. This file has the lemmas on adding and removing the last file of [wal/], and recovery of
    that shape (recover.go's interrupted-create rule), next to the torn tails of [Recover]. *)

From S2P Require Import Prelude Hash SpoolTypes Frame Fs GoStrings Segment Sidecar Recover Durability Compact.

(** The statements read [wal/] only. *)
Lemma log_files_entries l tail d d' : entries DWal d' = entries DWal d -> log_files d l tail -> log_files d' l tail.
Proof.
  intros He Hf. induction l as [|[h fs] l IH]; [done|].
  assert (Hfile : file DWal (segmentFilename (sh_FirstSequence h)) d' = file DWal (segmentFilename (sh_FirstSequence h)) d)
    by (unfold file; by rewrite He).
  destruct l as [|y l]; cbn [log_files] in *; rewrite Hfile; [done|]. destruct Hf as [? ?]. split; [done|]. by apply IH.
Qed.

Lemma wal_holds_entries id ver first l tail d d' :
  entries DWal d' = entries DWal d -> wal_holds id ver first l tail d -> wal_holds id ver first l tail d'.
Proof.
  intros He (Hmin&Hch&Hn&Hf). split_and!; [done|done|by rewrite He|]. by eapply log_files_entries.
Qed.

(** ** Names at the end *)

(** No segment at the end of the log is empty, so the next segment's name is new. *)
Definition ends_full (l : wal_log) : Prop := match last l with Some (_, []) => False | _ => True end.

Lemma log_frames_snoc l h fs : log_frames (l ++ [(h, fs)]) = log_frames l ++ fs.
Proof.
  induction l as [|[h1 fs1] l IH]; [cbn; by rewrite app_nil_r|].
  change (fs1 ++ log_frames (l ++ [(h, fs)]) = (fs1 ++ log_frames l) ++ fs). by rewrite IH, app_assoc.
Qed.

Lemma ends_full_frames l : ends_full l -> l <> [] -> log_frames l <> [].
Proof.
  destruct l as [|[h fs] l _] using rev_ind; [done|]. unfold ends_full. rewrite last_snoc, log_frames_snoc.
  intros Hf _ H. apply app_eq_nil in H as [_ ->]. done.
Qed.

(** Every segment starts before the end of a log whose last segment is not empty. *)
Lemma starts_before_end id ver first l :
  chained id ver first l -> ends_full l ->
  Forall (fun s => sh_FirstSequence s.1 < first + zlen (log_frames l)) l.
Proof.
  revert first. induction l as [|[h fs] l IH]; intros first Hch Hf; [constructor|].
  destruct Hch as (_&_&_&<-&_&_&Hch).
  change (log_frames ((h, fs) :: l)) with (fs ++ log_frames l). rewrite zlen_app.
  destruct l as [|s l].
  - constructor; [|constructor]. unfold ends_full in Hf. cbn in Hf. cbn [fst].
    change (zlen (log_frames [])) with 0. destruct fs; [done|]. unfold zlen. cbn [length]. lia.
  - specialize (IH _ Hch Hf). constructor.
    + apply Forall_inv in IH as IH1. destruct s as [h2 fs2]. destruct Hch as (_&_&_&Hfirst&_).
      cbn [fst] in *. pose proof (zlen_nonneg fs). lia.
    + eapply Forall_impl; [exact IH|]. intros s' Hs'. cbv beta in Hs'. cbn beta. lia.
Qed.

Section add_last.
Context (id : bytes) (ver first : Z) (l : wal_log) (h : SegmentHeader) (d0 d : disk) (c : bytes).
Let name := segmentFilename (sh_FirstSequence h).
Hypotheses (Hw : wal_holds id ver first l [] d0) (Hl : ends_full l) (Hh : header_ok h)
  (Hfirst : sh_FirstSequence h = first + zlen (log_frames l))
  (Hfile : file DWal name d = Some c)
  (Hother : forall x, x <> name -> entries DWal d !! x = entries DWal d0 !! x).

Lemma new_range : 1 <= sh_FirstSequence h <= MaxInt64.
Proof.
  destruct Hw as (Hmin&_). destruct Hh as (_&[_ Hmax]&_). unfold SequenceMin in Hmin.
  pose proof (zlen_nonneg (log_frames l)). lia.
Qed.

Lemma old_names : Forall (fun x => bytes_le x name /\ x <> name) (log_names l).
Proof.
  destruct Hw as (Hmin&Hch&_). pose proof (starts_before_end _ _ _ _ Hch Hl) as Hlt.
  pose proof (chained_range _ _ _ _ Hmin Hch) as Hr. apply Forall_fmap.
  apply (Forall_impl _ _ _ (proj2 (Forall_and _ _) (conj Hlt Hr))). intros [h' fs'] [H1 H2]. cbn in *.
  rewrite <-Hfirst in H1. pose proof new_range. unfold seg_file_name. cbn. split.
  - unfold bytes_le. unfold name. rewrite segmentFilename_le by lia. lia.
  - intros E. apply segmentFilename_inj in E; lia.
Qed.

Lemma add_names : seg_names (entries DWal d) = log_names l ++ [name].
Proof.
  pose proof old_names as Hold. destruct Hw as (_&_&Hn&_).
  pose proof (seg_names_nodup (entries DWal d0)) as Hnd. pose proof (sortStrings_sorted
    (filter (fun x => Ext x = str ".seg" /\ entries DWal d0 !! x <> Some EDir) (map_to_list (entries DWal d0)).*1)) as Hs.
  change (StronglySorted bytes_le (seg_names (entries DWal d0))) in Hs. rewrite Hn in Hnd, Hs.
  assert (Hnin : name ∉ log_names l).
  { intros Hin. rewrite Forall_forall in Hold. by destruct (Hold _ Hin). }
  apply seg_names_unique.
  - apply NoDup_app. split_and!; [done| |apply NoDup_singleton]. intros x Hx Hx'. apply list_elem_of_singleton in Hx' as ->. done.
  - assert (G : forall k, StronglySorted bytes_le k -> Forall (fun x => bytes_le x name /\ x <> name) k ->
        StronglySorted bytes_le (k ++ [name])).
    { induction k as [|x k IH]; intros Hk Hf; cbn; [repeat constructor|].
      apply StronglySorted_inv in Hk as [Hk Hx]. apply Forall_cons in Hf as [[Hf1 _] Hf]. constructor; [auto|].
      apply Forall_app. split; [done|by apply Forall_singleton]. }
    by apply G.
  - intros x. rewrite elem_of_app, list_elem_of_singleton, <-Hn, seg_names_elem. unfold is_seg_file.
    destruct (decide (x = name)) as [->|Hne].
    + split; [intros _|by right]. split; [apply Ext_segmentFilename|]. exists c.
      unfold file in Hfile. destruct (entries DWal d !! name) as [[]|]; by simplify_eq.
    + rewrite Hother by done. split; [by intros [|]|by left].
Qed.

Lemma add_files : log_files d l [].
Proof.
  assert (Hn : name ∉ log_names l).
  { intros Hin. pose proof old_names as Hold. rewrite Forall_forall in Hold. by destruct (Hold _ Hin). }
  destruct Hw as (_&_&_&Hf). eapply (log_files_put d0 d l name (EFile c)); [done| |done].
  apply map_eq. intros x. destruct (decide (x = name)) as [->|Hne]; [|by rewrite lookup_insert_ne, Hother by done].
  rewrite lookup_insert_eq. unfold file in Hfile. destruct (entries DWal d !! name) as [[]|]; by simplify_eq.
Qed.
End add_last.

(** [wal/] holds the whole log and one more file: the first [k] bytes, not all, of the header of the
    segment that would continue it. *)
Definition wal_interrupted (id : bytes) (ver first : Z) (l : wal_log) (h : SegmentHeader) (k : nat) (d : disk) : Prop :=
  SequenceMin <= first /\ chained id ver first l /\ header_ok h /\ sh_SourceID h = id
  /\ seg_names (entries DWal d) = log_names l ++ [segmentFilename (sh_FirstSequence h)]
  /\ log_files d l []
  /\ file DWal (segmentFilename (sh_FirstSequence h)) d = Some (take k (seg_header_bytes h))
  /\ (k < length (seg_header_bytes h))%nat.

(** What a creation leaves at any of its crash points once its file exists. *)
Lemma wal_created id ver first l h d0 k d :
  wal_holds id ver first l [] d0 -> ends_full l -> header_ok h -> sh_SourceID h = id -> sh_FormatVersion h = ver ->
  sh_FirstSequence h = first + zlen (log_frames l) ->
  created_at d0 (segmentFilename (sh_FirstSequence h)) (seg_header_bytes h) k d ->
  wal_interrupted id ver first l h k d
  \/ ((length (seg_header_bytes h) <= k)%nat /\ wal_holds id ver first (l ++ [(h, [])]) [] d).
Proof.
  intros Hw Hl Hh Hid Hver Hfirst [Hf Ho].
  pose proof (add_names id ver first l h d0 d _ Hw Hl Hh Hfirst Hf Ho) as Hn.
  pose proof (add_files id ver first l h d0 d _ Hw Hl Hh Hfirst Hf Ho) as Hfiles.
  pose proof Hw as (Hmin&Hch&_&_). destruct (Nat.lt_ge_cases k (length (seg_header_bytes h))) as [Hk|Hk]; [left|right].
  - by split_and!.
  - split; [done|]. split; [done|]. split.
    { apply chained_snoc. by split_and!. }
    split; [by rewrite log_names_snoc|]. apply log_files_snoc. split; [done|].
    rewrite Hf, take_ge by done. unfold segment_bytes, frames_bytes. cbn. by rewrite !app_nil_r.
Qed.

(** Removing the last file of [wal/] leaves the rest. *)
Lemma names_dropped l name d d' :
  seg_names (entries DWal d) = log_names l ++ [name] -> log_files d l [] ->
  entries DWal d' = delete name (entries DWal d) ->
  seg_names (entries DWal d') = log_names l /\ log_files d' l [].
Proof.
  intros Hn Hf He. pose proof (seg_names_nodup (entries DWal d)) as Hnd.
  pose proof (sortStrings_sorted
    (filter (fun x => Ext x = str ".seg" /\ entries DWal d !! x <> Some EDir) (map_to_list (entries DWal d)).*1)) as Hs.
  change (StronglySorted bytes_le (seg_names (entries DWal d))) in Hs. rewrite Hn in Hnd, Hs.
  apply NoDup_app in Hnd as (Hnd&Hd&_).
  assert (Hnin : name ∉ log_names l) by (intros Hin; by apply (Hd _ Hin), list_elem_of_singleton).
  split.
  - apply seg_names_unique; [done| |].
    + clear -Hs. revert Hs. generalize (log_names l). intros k. induction k as [|x k IH]; intros Hs; [constructor|].
      apply StronglySorted_inv in Hs as [Hs Hx]. apply Forall_app in Hx as [Hx _]. constructor; auto.
    + intros x. assert (Hx : x ∈ log_names l ++ [name] <-> is_seg_file (entries DWal d) x) by (by rewrite <-Hn, seg_names_elem).
      rewrite elem_of_app, list_elem_of_singleton in Hx. unfold is_seg_file in *. rewrite He.
      destruct (decide (x = name)) as [->|Hne].
      * rewrite lookup_delete_eq. split; [done|by intros (_&?&?)].
      * rewrite lookup_delete_ne by done. rewrite <-Hx. split; [by left|by intros [|]].
  - clear Hn Hs Hnd Hd. revert Hf Hnin. induction l as [|[h1 fs1] l IH]; [done|]. intros Hf Hk.
    apply not_elem_of_cons in Hk as [Hne Hk]. unfold seg_file_name in Hne. cbn in Hne.
    assert (Hfile : file DWal (segmentFilename (sh_FirstSequence h1)) d' = file DWal (segmentFilename (sh_FirstSequence h1)) d)
      by (unfold file; by rewrite He, lookup_delete_ne).
    destruct l as [|y l]; cbn [log_files] in *; rewrite Hfile; [done|]. destruct Hf as [? ?]. split; [done|]. by apply IH.
Qed.

(** Two files do not share a name, so only the last segment can be empty. *)
Lemma names_ends_full id ver first l d :
  chained id ver first l ->
  seg_names (entries DWal d) = log_names l ++ [segmentFilename (first + zlen (log_frames l))] -> ends_full l.
Proof.
  intros Hch Hn. destruct l as [|[h fs] l _] using rev_ind; [done|]. unfold ends_full. rewrite last_snoc.
  destruct fs; [|done]. pose proof (seg_names_nodup (entries DWal d)) as Hnd. rewrite Hn in Hnd.
  apply chained_snoc in Hch as (_&_&_&_&Hf1&_). rewrite log_frames_snoc, app_nil_r, log_names_snoc in Hnd.
  apply NoDup_app in Hnd as (_&Hd&_).
  apply (Hd (segmentFilename (sh_FirstSequence h))); [apply elem_of_app; right|]; apply list_elem_of_singleton; [done|].
  by rewrite Hf1.
Qed.

Lemma holds_ends_full id ver first l s tail d : wal_holds id ver first (l ++ [s]) tail d -> ends_full l.
Proof.
  intros (Hmin&Hch&Hn&_). destruct s as [h2 fs2]. apply chained_snoc in Hch as (Hch&_&_&_&Hf2&_).
  eapply (names_ends_full _ _ _ _ d); [exact Hch|]. rewrite Hn, log_names_snoc. unfold seg_file_name. cbn [fst].
  by rewrite Hf2.
Qed.

(** ** Recovery of an interrupted creation *)

(** The recovery after the segments before the last file. *)
Fixpoint passed_log (l : wal_log) (rec : Recovery) : Recovery :=
  match l with
  | [] => rec
  | (h, fs) :: l' => passed_log l' (with_frames fs (with_identity (sh_SourceID h) (sh_FormatVersion h) rec))
  end.

Lemma passed_log_fields l rec id ver first :
  chained id ver first l -> rc_SourceID rec = id -> rc_FormatVersion rec = ver ->
  let r := passed_log l rec in
  rc_SourceID r = id /\ rc_FormatVersion r = ver
  /\ rc_HighestDurableSequence r = default (rc_HighestDurableSequence rec) (fr_Sequence <$> last (log_frames l))
  /\ rc_AcknowledgedThrough r = rc_AcknowledgedThrough rec.
Proof.
  revert rec first. induction l as [|[h fs] l IH]; intros rec first Hch Hid Hver; [done|].
  destruct Hch as (_&Hid'&Hver'&_&_&_&Hch). cbn [passed_log].
  set (rec1 := with_identity (sh_SourceID h) (sh_FormatVersion h) rec).
  destruct (with_frames_fields fs rec1) as (E1&E2&E3&E4&_).
  specialize (IH (with_frames fs rec1) _ Hch ltac:(by rewrite E1) ltac:(by rewrite E2)).
  cbv zeta in IH. destruct IH as (->&->&->&->). rewrite E3, E4. split_and!; try done.
  change (log_frames ((h, fs) :: l)) with (fs ++ log_frames l). rewrite last_app. by destruct (last (log_frames l)).
Qed.

Section interrupted.
Context (ev : env) (Hflt : forall op name, e_flt ev op name = false).

Lemma recover_segments_pass l rest id ver first binding ip isrc rec expected d :
  rest <> [] -> SequenceMin <= first -> chained id ver first l -> log_files d l [] ->
  bound binding id ver -> id_ready id ver rec -> expected = 0 \/ expected = i64 first ->
  exists t0 e, recover_segments ev (log_names l ++ rest) ip isrc binding rec expected d
    = let '(t, r, d') := recover_segments ev rest ip isrc binding (passed_log l rec) e d in (t0 ++ t, r, d').
Proof.
  intros Hne Hmin Hch Hfs Hb Hr He. revert first rec expected Hmin Hch Hfs Hr He.
  induction l as [|[h fs] l IH]; intros first rec expected Hmin Hch Hfs Hr He.
  { exists [], expected. cbn [app passed_log log_names fmap list_fmap].
    by destruct (recover_segments ev rest ip isrc binding rec expected d) as [[? ?] ?]. }
  destruct (log_files_cons _ _ _ _ Hfs) as [Hf Hfs'].
  destruct Hch as (Hh&Hid&Hver&Hfirst&Hw&Hc&Hch). subst first.
  pose proof (header_identity_ok (segmentFilename (sh_FirstSequence h)) binding h rec id ver Hh Hid Hver Hb Hr) as Hhi.
  assert (Hexp : header_expected (segmentFilename (sh_FirstSequence h)) h expected = Ok (sh_FirstSequence h)).
  { unfold header_expected. destruct Hh as (_&Hi&_). rewrite i64_id in He by done.
    destruct He as [->| ->]; [done|]. unfold SequenceMin in Hmin.
    rewrite (proj2 (Z.eqb_neq _ _)), Z.eqb_refl by lia. done. }
  change (log_names ((h, fs) :: l) ++ rest) with (segmentFilename (sh_FirstSequence h) :: (log_names l ++ rest)).
  cbn [recover_segments].
  assert (Hlast : match log_names l ++ rest with [] => true | _ => false end = false).
  { destruct (log_names l); [by destruct rest|done]. }
  rewrite Hlast. unfold io_bind at 1.
  rewrite (mid_segment ev Hflt _ h fs rec _ expected ip isrc binding d Hh Hw Hc Hhi Hexp Hf). cbn [fst snd].
  destruct (IH (sh_FirstSequence h + zlen fs) (with_frames fs (with_identity id ver rec))
    (i64 (sh_FirstSequence h + zlen fs))) as (t0&e&E).
  - pose proof (zlen_nonneg fs). lia.
  - done.
  - done.
  - right. pose proof (with_frames_identity fs (with_identity id ver rec)) as [-> ->]. done.
  - by right.
  - exists (d :: t0), e. rewrite E. cbn [passed_log]. rewrite Hid, Hver. cbv zeta.
    by destruct (recover_segments ev rest ip isrc binding _ e d) as [[? ?] ?].
Qed.

(** Recovery with the identity sidecar in place, given what the segments yield. *)
Lemma recover_present binding id ver a names t rec d d' :
  identity_ok id ver -> 0 <= a <= MaxInt64 ->
  file DRoot identityFilename d = Some (encodeIdentity id ver) ->
  (file DRoot ackFilename d = None /\ a = 0) \/ file DRoot ackFilename d = Some (encodeAck a) ->
  bound binding id ver -> seg_names (entries DWal d) = names ->
  recover_segments ev names true id binding (with_ack a (with_identity id ver newRecovery)) 0 d = (t, Ok rec, d') ->
  recover ev binding d
  = (d :: d :: d :: t,
     Ok (with_next (nextSequence (rc_HighestDurableSequence rec) (rc_AcknowledgedThrough rec)) rec), d').
Proof.
  intros Hid Ha Hi Hk Hb Hn E.
  pose proof (run_readIdentity ev Hflt id ver d Hid (or_intror Hi)) as Ei. rewrite Hi in Ei. cbn in Ei.
  assert (Ek := run_readAck ev Hflt a d Ha ltac:(tauto)).
  unfold recover, io_bind at 1. rewrite Ei. cbv beta iota.
  assert (Eb : match binding with
    | Some b => if binding_differs b id ver then io_err (bindingMismatchError b id ver)
                else io_ret (with_identity id ver newRecovery)
    | None => io_ret (with_identity id ver newRecovery)
    end = io_ret (with_identity id ver newRecovery)).
  { destruct Hb as [->| ->]; [done|]. unfold binding_differs. cbn. by rewrite bool_decide_eq_true_2, Z.eqb_refl. }
  rewrite Eb. unfold io_ret at 1, io_bind at 1. unfold io_bind at 1. rewrite Ek. cbv beta iota.
  assert (Er : match (if bool_decide (file DRoot ackFilename d = None) then None else Some a) with
    | Some a => with_ack a (with_identity id ver newRecovery) | None => with_identity id ver newRecovery end
    = with_ack a (with_identity id ver newRecovery)).
  { destruct Hk as [[Hk ->]|Hk]; rewrite Hk; done. }
  rewrite Er. unfold io_bind at 1. rewrite (run_listSegments ev Hflt), Hn. cbv beta iota.
  unfold io_bind at 1. rewrite bool_decide_eq_true_2 by eauto. rewrite E. cbn [io_ret app]. by rewrite app_nil_r.
Qed.

(** The identity sidecar is in place and [a] is the acknowledged watermark. *)
Definition bound_controls (id : bytes) (ver a : Z) (d : disk) : Prop :=
  identity_ok id ver /\ 0 <= a <= MaxInt64
  /\ file DRoot identityFilename d = Some (encodeIdentity id ver)
  /\ ((file DRoot ackFilename d = None /\ a = 0) \/ file DRoot ackFilename d = Some (encodeAck a)).

Lemma recover_interrupted binding id ver first l h k a d :
  bound_controls id ver a d -> bound binding id ver -> wal_interrupted id ver first l h k d ->
  exists t rec, recover ev binding d = (t, Ok rec, d)
    /\ rc_SourceID rec = id /\ rc_FormatVersion rec = ver
    /\ rc_HighestDurableSequence rec = last_seq (log_frames l)
    /\ rc_AcknowledgedThrough rec = a
    /\ (rc_NextSequence rec, rc_Exhausted rec) = nextSequence (last_seq (log_frames l)) a
    /\ rc_Outcome rec = OutcomeInterruptedCreate
    /\ rc_EmptyTrailingSegment rec = Some (DWal, segmentFilename (sh_FirstSequence h)).
Proof.
  intros (Hid&Ha&Hi&Hk) Hb (Hmin&Hch&Hh&Hsrc&Hn&Hfiles&Hfile&Hlen).
  set (r2 := with_ack a (with_identity id ver newRecovery)). set (name := segmentFilename (sh_FirstSequence h)) in *.
  destruct (recover_segments_pass l [name] id ver first binding true id r2 0 d ltac:(done) Hmin Hch Hfiles Hb
    ltac:(by right) ltac:(by left)) as (t0&e&E).
  destruct (passed_log_fields l r2 id ver first Hch eq_refl eq_refl) as (F1&F2&F3&F4).
  pose proof (seg_header_torn h k Hh Hlen) as Her.
  destruct (decodeSegmentHeader (take k (seg_header_bytes h))) as [|er] eqn:Ed; [done|clear Her].
  assert (Es : recoverSegment ev name (passed_log l r2) true id binding e true d
    = ([d], Ok (with_empty_trailing (DWal, name) (with_outcome OutcomeInterruptedCreate (passed_log l r2)), e), d)).
  { unfold recoverSegment, io_bind at 1. rewrite (run_mustReadFile ev Hflt _ _ _ _ Hfile), Ed.
    assert (Hle : (length (take k (seg_header_bytes h)) <=? interruptedCreateBound true id)%nat = true).
    { apply Nat.leb_le. rewrite length_take. rewrite length_seg_header_bytes, Hsrc in *.
      unfold interruptedCreateBound, segFixedPrefixLen, segHeaderCRCLen. lia. }
    by rewrite Hle. }
  cbn [recover_segments] in E. unfold io_bind at 1 in E. rewrite Es in E. cbn [fst snd io_ret app] in E.
  eexists _, _. split; [by eapply (recover_present binding id ver a _ _ _ _ _ Hid Ha Hi Hk Hb Hn)|].
  cbn. fold r2. rewrite F1, F2, F3, F4. by destruct (nextSequence _ _).
Qed.
End interrupted.
