(* ===== verification/Writer.v ===== *)
(** * The single durable writer ([SpoolWriter] of [internal/observer/local/server_unix.go])

    The daemon's composition of the spool: startup ([NewSpoolWriter]: recovery, identity, slot reclaim,
    choice of the active segment, sidecars), [AppendObservation] with its stamp and its rotation, the run
    reserves and the health view. Each method runs under the writer's mutex and is one step here. The
    theorems: what a restart finds after a crash at any point of an append that may rotate, what startup
    makes of a log, and what the stamp does to an observation. *)

From S2P Require Import Prelude Hash SpoolTypes Frame Fs GoStrings Segment Sidecar Recover Durability Compact.
From S2P Require Import Ack Json JsonText GoJson Batch Reserves Capacity WalEnds.

Record SpoolConfig : Type := mkSpoolConfig {
  sc_Dir : bytes;
  sc_SourceID : bytes;
  sc_FormatVersion : Z;
  sc_Capacity : CapacityConfig;
}.

(** [sw_closed]: the active segment's file was closed by a rotation that then failed. *)
Record SpoolWriter : Type := mkSpoolWriter {
  sw_sourceID : bytes;
  sw_formatVersion : Z;
  sw_terminalReserve : Z;
  sw_seg : Segment;
  sw_closed : bool;
  sw_ack : AckState;
  sw_reserves : Reserves;
  sw_capModel : CapacityModel;
}.

Definition with_seg (s : Segment) (closed : bool) (w : SpoolWriter) : SpoolWriter :=
  mkSpoolWriter (sw_sourceID w) (sw_formatVersion w) (sw_terminalReserve w) s closed (sw_ack w) (sw_reserves w)
    (sw_capModel w).
Definition with_ackState (a : AckState) (w : SpoolWriter) : SpoolWriter :=
  mkSpoolWriter (sw_sourceID w) (sw_formatVersion w) (sw_terminalReserve w) (sw_seg w) (sw_closed w) a (sw_reserves w)
    (sw_capModel w).
Definition with_reserves (r : Reserves) (w : SpoolWriter) : SpoolWriter :=
  mkSpoolWriter (sw_sourceID w) (sw_formatVersion w) (sw_terminalReserve w) (sw_seg w) (sw_closed w) (sw_ack w) r
    (sw_capModel w).

(** ** Startup *)

(** The elements of a path between separators. *)
Fixpoint path_elems (p cur : bytes) : list bytes :=
  match p with
  | [] => [cur]
  | b :: r => if bool_decide (b = x2f) then cur :: path_elems r [] else path_elems r (cur ++ [b])
  end.

(** [filepath.Clean(p)] is the root: rooted, and every element is undone by a later [..]. *)
Definition cleans_to_root (p : bytes) : bool :=
  match p with
  | b :: r =>
      bool_decide (b = x2f)
      && (foldl (fun depth e => if bool_decide (e = []) || bool_decide (e = str ".") then depth
                                else if bool_decide (e = str "..") then Nat.pred depth else S depth)
            O (path_elems r []) =? 0)%nat
  | [] => false
  end.

(** The same entries as the spool's own listing, [sort.Strings] included. *)
Definition listSegmentFiles (ev : env) : IO (list bytes) :=
  let! m := readDir ev DWal (name_of DWal) in
  match m with
  | None => io_ret []
  | Some m => io_ret (seg_names m)
  end.

Definition segment_options (sourceID : bytes) (formatVersion first now : Z) : SegmentOptions :=
  mkSegmentOptions (mkSegmentHeader formatVersion sourceID first now) 0.

Definition openOrCreateSegment (ev : env) (sourceID : bytes) (formatVersion nextSequence : Z) : IO Segment :=
  let create := CreateSegment ev (segment_options sourceID formatVersion nextSequence (e_now ev)) in
  let! segs := listSegmentFiles ev in
  match last segs with
  | None => create
  | Some name =>
      let! r := io_try (OpenSegment ev name (segment_options [] 0 0 0)) in
      match r with
      | Err _ => create
      | Ok s =>
          if i64 (sg_last s + 1) =? nextSequence then io_ret s
          else let! _ := io_try (io_check ev IoClose name) in create
      end
  end.

Definition NewSpoolWriter (ev : env) (cfg : SpoolConfig) : IO SpoolWriter :=
  if bool_decide (sc_Dir cfg = []) then io_err (ErrSpoolConfig (str "dir"))
  else if cleans_to_root (sc_Dir cfg) then io_err (ErrSpoolConfig (str "unsafe dir"))
  else if bool_decide (sc_SourceID cfg = []) then io_err (ErrSpoolConfig (str "source id"))
  else
    let formatVersion := if sc_FormatVersion cfg =? 0 then CurrentFormatVersion else sc_FormatVersion cfg in
    let! capModel := io_of (NewCapacityModel (sc_Capacity cfg)) in
    let! rec := RecoverBound ev (sc_SourceID cfg) formatVersion in
    if bool_decide (rc_SourceID rec = []) && (0 <? rc_AcknowledgedThrough rec)
    then io_err (ErrIdentityMissing (rc_AcknowledgedThrough rec))
    else
      BindIdentity ev (sc_SourceID cfg) formatVersion ;!
      io_call ev IoMkdir (name_of DWal) (fun d => set_dir DWal (entries DWal d) d) ;!
      io_check ev IoChmod (name_of DWal) ;!
      let! _ := ReclaimEmptyTrailingSegment ev (Some rec) in
      let! seg := openOrCreateSegment ev (sc_SourceID cfg) formatVersion (rc_NextSequence rec) in
      let! ack := io_cleanup (LoadAckState ev (rc_HighestDurableSequence rec) 0) (io_check ev IoClose (sg_name seg)) in
      let! reserves := io_cleanup (LoadReserves ev (TerminalReserveBytes (sc_Capacity cfg)))
                         (io_check ev IoClose (sg_name seg)) in
      io_ret (mkSpoolWriter (sc_SourceID cfg) formatVersion (TerminalReserveBytes (sc_Capacity cfg)) seg false ack
                reserves capModel).

(** ** Appending *)

(** [fmt.Sprintf("obs_%020d", seq)]. *)
Definition observationID (seq : Z) : bytes :=
  str "obs_" ++ (if seq <? 0 then str "-" ++ dec_pad 19 (- seq) else dec_pad 20 seq).

(** The observation is the JSON value its raw bytes stand for; the members other than the two stamped ones
    are re-marshalled as they are. *)
Definition restampObservation (obs : json) (seq : Z) (obsID : bytes) : sres json :=
  match obs with
  | JObj m =>
      if bool_decide (str "kind" ∈ m.*1)
      then Ok (JObj (assoc_set (str "observation_id") (JStr obsID) (assoc_set (str "sequence") (JNum (FormatInt seq)) m)))
      else Err ErrObservationKind
  | JNull => Err ErrObservationKind
  | _ => Err ErrObservationShape
  end.

Definition nextSequenceLocked (w : SpoolWriter) : Z :=
  if negb (sg_last (sw_seg w) =? 0) then i64 (sg_last (sw_seg w) + 1) else sh_FirstSequence (sg_header (sw_seg w)).

(** Every call on a closed file fails and changes nothing. *)
Definition closed_env : env := mkEnv (fun _ _ => true) 0 [] 0.
Definition seg_env (ev : env) (w : SpoolWriter) : env := if sw_closed w then closed_env else ev.

(** The error next to the writer the method leaves. *)
Definition appendFrameLocked (ev : env) (f : Frame) (w : SpoolWriter) : IO (sres unit * SpoolWriter) :=
  let! r := io_try (Append (seg_env ev w) (sw_seg w) f) in
  match r with
  | Ok s => io_ret (Ok tt, with_seg s (sw_closed w) w)
  | Err ErrSegmentFull =>
      let! c := io_try (io_check (seg_env ev w) IoClose (sg_name (sw_seg w))) in
      let w := with_seg (sw_seg w) true w in
      match c with
      | Err e => io_ret (Err e, w)
      | Ok _ =>
          let! n := io_try (CreateSegment ev
                      (segment_options (sw_sourceID w) (sw_formatVersion w) (fr_Sequence f) (e_now ev))) in
          match n with
          | Err e => io_ret (Err e, w)
          | Ok next =>
              let! r := io_try (Append ev next f) in
              match r with
              | Ok s => io_ret (Ok tt, with_seg s false w)
              | Err e => io_ret (Err e, with_seg next false w)
              end
          end
      end
  | Err e => io_ret (Err e, w)
  end.

Record AppendAck : Type := mkAppendAck { aa_Sequence : Z; aa_ObservationID : bytes; aa_DurableThrough : Z }.

Definition new_frame (seq : Z) (payload : bytes) : Frame := mkFrame seq x00 payload [].

Definition AppendObservation (ev : env) (obs : json) (w : SpoolWriter) : IO (sres AppendAck * SpoolWriter) :=
  let seq := nextSequenceLocked w in
  let obsID := observationID seq in
  match restampObservation obs seq obsID with
  | Err e => io_ret (Err e, w)
  | Ok stamped =>
      let! r := appendFrameLocked ev (new_frame seq (writeCanonical stamped)) w in
      let '(e, w) := r in
      match e with
      | Err e => io_ret (Err e, w)
      | Ok _ => io_ret (Ok (mkAppendAck seq obsID seq), with_ackState (NoteDurable seq (sw_ack w)) w)
      end
  end.

(** ** Reserves and health *)

Record RunReserveAck : Type := mkRunReserveAck {
  ra_RunID : bytes;
  ra_Open : bool;
  ra_OpenReserveBytes : Z;
  ra_Pressure : bytes;
  ra_AdmitNewRun : bool;
}.

Definition capacityAckLocked (ev : env) (runID : bytes) (w : SpoolWriter) : IO RunReserveAck :=
  let! used := WALBytes ev in
  let open := OpenReserveBytes (sw_reserves w) in
  let st := Evaluate (sw_capModel w) used open in
  io_ret (mkRunReserveAck runID (IsOpen (sw_reserves w) runID) open (Pressure_String (StatusPressure st)) (AdmitNewExplicitRun st)).

Definition reserve_then_ack (ev : env) (runID : bytes) (w : SpoolWriter) (m : IO (sres unit * Reserves))
  : IO (sres RunReserveAck * SpoolWriter) :=
  let! r := m in
  let '(e, r) := r in
  let w := with_reserves r w in
  match e with
  | Err e => io_ret (Err e, w)
  | Ok _ => let! a := io_try (capacityAckLocked ev runID w) in io_ret (a, w)
  end.

Definition ReserveRun (ev : env) (runID : bytes) (w : SpoolWriter) : IO (sres RunReserveAck * SpoolWriter) :=
  reserve_then_ack ev runID w (Reserve ev runID (sw_reserves w)).
Definition ReleaseRun (ev : env) (runID : bytes) (w : SpoolWriter) : IO (sres RunReserveAck * SpoolWriter) :=
  reserve_then_ack ev runID w (Release ev runID (sw_reserves w)).

Record HealthSnapshot : Type := mkHealthSnapshot {
  hs_Healthy : bool;
  hs_UsedBytes : Z;
  hs_OpenReserveBytes : Z;
  hs_OpenRuns : Z;
  hs_AcknowledgedThrough : Z;
  hs_HighestDurable : Z;
  hs_Pressure : bytes;
  hs_CeilingBytes : Z;
}.

Definition Health (ev : env) (w : SpoolWriter) : IO HealthSnapshot :=
  let! used := WALBytes ev in
  let open := OpenReserveBytes (sw_reserves w) in
  let st := Evaluate (sw_capModel w) used open in
  io_ret (mkHealthSnapshot true used open (zlen (OpenRuns (sw_reserves w))) (ak_acknowledgedThrough (sw_ack w))
            (ak_highestDurable (sw_ack w)) (Pressure_String (StatusPressure st)) (StatusCeilingBytes st)).

(** [Close]: the segment's file is closed, whatever the call reports. *)
Definition Close (ev : env) (w : SpoolWriter) : IO (sres unit * SpoolWriter) :=
  let! r := io_try (io_check (seg_env ev w) IoClose (sg_name (sw_seg w))) in
  io_ret (r, with_seg (sw_seg w) true w).

(** ** The writer's invariant *)

(** What a crash can leave of [wal/] for the durable frames [fs]: a log with a torn tail, or a whole log
    followed by a segment whose header is torn. *)
Definition crash_shape (id : bytes) (ver first : Z) (fs : list Frame) (d : disk) : Prop :=
  exists l, log_frames l = fs
    /\ ((exists tail, wal_holds id ver first l tail d /\ torn_tail tail)
        \/ (exists h k, wal_interrupted id ver first l h k d /\ sh_FirstSequence h = first + zlen fs)).

(** The watermark [a] against the log: below its end, and right before it when no frame is left. *)
Definition in_step (first : Z) (fs : list Frame) (a : Z) : Prop :=
  a < first + zlen fs /\ (fs = [] -> first = a + 1).

(** The writer is open on the last segment of the log [wal/] holds, and the sidecars are in place. *)
Definition writer_inv (first a : Z) (l : wal_log) (fs : list Frame) (w : SpoolWriter) (d : disk) : Prop :=
  sw_closed w = false /\ seg_inv (sw_seg w) fs d
  /\ sg_name (sw_seg w) = segmentFilename (sh_FirstSequence (sg_header (sw_seg w)))
  /\ sg_ceiling (sw_seg w) = DefaultSegmentCeiling
  /\ wal_holds (sw_sourceID w) (sw_formatVersion w) first (l ++ [(sg_header (sw_seg w), fs)]) [] d
  /\ bound_controls (sw_sourceID w) (sw_formatVersion w) a d
  /\ in_step first (log_frames l ++ fs) a.

Lemma bound_controls_root id ver a d d' : d_root d = d_root d' -> bound_controls id ver a d -> bound_controls id ver a d'.
Proof. intros E. unfold bound_controls, file, entries. cbn. by rewrite E. Qed.

Lemma in_step_snoc first fs f a : in_step first fs a -> in_step first (fs ++ [f]) a.
Proof. intros [Ha _]. split; [rewrite zlen_app; unfold zlen at 2; cbn; lia|]. by intros [_ ?]%app_eq_nil. Qed.

(** The sequence recovery computes is the log's end. *)
Lemma next_in_step first fs a :
  1 <= first -> 0 <= a -> contiguous first fs -> in_step first fs a -> first + zlen fs <= MaxInt64 ->
  nextSequence (last_seq fs) a = (first + zlen fs, false).
Proof.
  intros Hf Ha Hc [Hlt He] Hm. unfold nextSequence, SequenceMax. destruct (decide (fs = [])) as [->|Hne].
  - change (last_seq []) with 0. change (zlen []) with 0 in *. rewrite Z.add_0_r in *. specialize (He eq_refl).
    assert (E : (if 0 <? a then a else 0) = a) by (destruct (0 <? a) eqn:?; bool_to_prop; lia).
    rewrite E, (proj2 (Z.leb_gt _ _)) by lia. rewrite i64_id by (unfold in_i64; lia). by rewrite He.
  - rewrite (last_seq_contiguous _ _ Hc) by done. pose proof (zlen_nonneg fs).
    rewrite (proj2 (Z.ltb_ge _ _)), (proj2 (Z.leb_gt _ _)) by lia. rewrite i64_id by (unfold in_i64; lia). f_equal. lia.
Qed.

Lemma writer_next first a l fs w d :
  writer_inv first a l fs w d -> first + zlen (log_frames l ++ fs) <= MaxInt64 ->
  nextSequenceLocked w = first + zlen (log_frames l ++ fs)
  /\ sh_FirstSequence (sg_header (sw_seg w)) = first + zlen (log_frames l).
Proof.
  intros (_&Hs&_&_&Hw&_) Hm. destruct Hw as (Hmin&Hch&_). apply chained_snoc in Hch as (_&_&_&_&Hf&_).
  split; [|done]. destruct Hs as (_&_&_&Hfw&Hc&_&Hl). unfold nextSequenceLocked. rewrite Hl, zlen_app.
  rewrite zlen_app in Hm. unfold SequenceMin in Hmin. pose proof (zlen_nonneg (log_frames l)).
  destruct (decide (fs = [])) as [->|Hne].
  - change (last_seq []) with 0. change (zlen []) with 0. rewrite Z.eqb_refl. cbn [negb]. lia.
  - assert (0 < zlen fs) by (destruct fs; [done|unfold zlen; cbn; lia]).
    rewrite (last_seq_contiguous _ _ Hc) by done. rewrite (proj2 (Z.eqb_neq _ _)) by lia. cbn [negb].
    rewrite i64_id by (unfold in_i64; lia). lia.
Qed.

(** A segment that refuses a frame as full holds at least one. *)
Lemma full_append ev s fs f d0 t d :
  seg_inv s fs d0 -> sg_ceiling s = DefaultSegmentCeiling -> Append ev s f d0 = (t, Err ErrSegmentFull, d) ->
  t = [] /\ d = d0 /\ fs <> [] /\ frame_ok f /\ fr_Sequence f = sh_FirstSequence (sg_header s) + zlen fs.
Proof.
  intros Hs Hc. unfold Append. rewrite (nextExpected_inv _ _ _ Hs). cbv zeta. destruct (_ <=? _); [|done].
  destruct (EncodeFrame f) as [x|e] eqn:E.
  2: { cbn. intros [= <- He <-]. unfold EncodeFrame in E. rewrite He in E. by repeat case_step. }
  apply EncodeFrame_inv in E as [Hok ->]. cbn [io_bind io_of].
  destruct (fr_Sequence f =? _) eqn:Es; [|done]. apply Z.eqb_eq in Es. cbn [negb].
  destruct (_ <? _) eqn:Ef.
  - intros [= <- <-]. split_and!; try done. intros ->. bool_to_prop. destruct Hs as (_&Hh&_&_&_&Hsz&_).
    rewrite Hc, Hsz in Ef.
    replace (segment_bytes (sg_header s) []) with (seg_header_bytes (sg_header s)) in Ef
      by (unfold segment_bytes; by rewrite app_nil_r).
    unfold zlen in Ef. rewrite length_seg_header_bytes, length_frame_bytes in Ef. destruct Hok as [_ Hpl], Hh as (_&_&_&Hid).
    unfold zlen, maxSourceIDLen in *.
    change MaxFramePayload with 4194304 in Hpl. change DefaultSegmentCeiling with 67108864 in Ef. lia.
  - assert (H : io_only (io_cleanup (io_writeAt ev DWal (sg_name s) (Z.to_nat (sg_size s)) (frame_bytes f) ;!
      io_check ev IoSync (sg_name s)) (rollback ev s) ;!
      io_ret (mkSegment (sg_name s) (sg_header s) (sg_ceiling s) (sg_size s + zlen (frame_bytes f)) (fr_Sequence f)))).
    { apply only_bind; [|intros; apply ret_only]. apply only_cleanup.
      apply only_bind; [apply writeAt_only|intros; apply call_only]. }
    specialize (H d0). destruct (io_bind _ _ d0) as [[t2 r2] d2] eqn:E. intros [= <- -> <-].
    by destruct (H _ _ _ eq_refl).
Qed.

(** ** One append, with its rotation *)

Lemma ct_tried {A} P (m : IO A) C Q E :
  crash_triple P m C Q E ->
  crash_triple P (io_try m) C (fun r d => match r with Ok a => Q a d | Err _ => E d end) (fun _ => False).
Proof. intros H d Hd. specialize (H d Hd). unfold io_try. by destruct (m d) as [[t r] d']. Qed.

Lemma ct_and {A} P (m : IO A) C Q E C' Q' E' :
  crash_triple P m C Q E -> crash_triple P m C' Q' E' ->
  crash_triple P m (fun d => C d /\ C' d) (fun a d => Q a d /\ Q' a d) (fun d => E d /\ E' d).
Proof.
  intros H H' d Hd. specialize (H d Hd). specialize (H' d Hd). destruct (m d) as [[t r] d'].
  destruct H as [H1 H2], H' as [H1' H2']. split; [by apply Forall_and|]. by destruct r.
Qed.

Lemma create_root ev opts d0 :
  let P d := d_root d = d_root d0 in crash_triple (eq d0) (CreateSegment ev opts) P (fun _ => P) P.
Proof.
  intros P. apply (ct_conseq _ P _ _ P _ (fun _ => P) _ P); [|by intros d <-|done..]. unfold CreateSegment. destruct (_ <? 1); [by apply ct_err|].
  apply (ct_bind _ _ _ _ _ (fun _ => P)); [by apply ct_ensureDir|]. intros [].
  apply (ct_bind _ _ _ _ _ (fun _ => P)).
  { intros d Hd. cbn. split; [constructor|]. by destruct (encodeSegmentHeader _). }
  intros hdr. apply (ct_bind _ _ _ _ _ (fun _ => P)); [by apply ct_create_excl|]. intros [].
  apply (ct_bind _ _ _ _ _ (fun _ => P)); [by apply ct_check|]. intros [].
  apply (ct_bind _ _ _ _ _ (fun _ => P)); [by apply ct_writeAt|]. intros [].
  apply (ct_bind _ _ _ _ _ (fun _ => P)); [by apply ct_check|]. intros [].
  apply (ct_bind _ _ _ _ _ (fun _ => P)); [apply ct_fsyncDir|]. intros []. by apply ct_ret.
Qed.

(** A rotation closed the writer's segment and yielded no other. *)
Definition stuck (w : SpoolWriter) (d : disk) : Prop := sw_closed w = true /\ is_Some (file DWal (sg_name (sw_seg w)) d).

(** The segment that continues a log. Whatever fails and wherever a crash falls, the log is what it was, up to an
    empty or torn segment at its end, and no file is gone. *)
Lemma ct_create_next ev id ver first l now d0 :
  identity_ok id ver -> wal_holds id ver first l [] d0 -> ends_full l -> first + zlen (log_frames l) <= MaxInt64 -> in_i64 now ->
  let opts := segment_options id ver (first + zlen (log_frames l)) now in
  let left d := d_root d = d_root d0 /\ crash_shape id ver first (log_frames l) d
    /\ (forall x, is_Some (file DWal x d0) -> is_Some (file DWal x d)) in
  crash_triple (eq d0) (CreateSegment ev opts) left
    (fun s d => left d /\ seg_inv s [] d /\ sg_name s = segmentFilename (sh_FirstSequence (sg_header s))
       /\ sg_ceiling s = DefaultSegmentCeiling /\ wal_holds id ver first (l ++ [(sg_header s, [])]) [] d)
    left.
Proof.
  intros [Hv Hl] Hw Hends Hmax Hnow opts left. set (h := so_header opts). pose proof Hw as (Hmin&_). unfold SequenceMin in Hmin.
  pose proof (zlen_nonneg (log_frames l)).
  assert (Hh : header_ok h) by (split; [exact Hl|]; split; [cbn; unfold in_i64; lia|by split]).
  assert (Hsame : forall d, d_root d = d_root d0 -> not_created d0 d -> left d).
  { intros d Hr He. split; [done|]. split; [|intros x; unfold file; by rewrite He].
    exists l. split; [done|]. left. exists []. split; [by eapply wal_holds_entries|by left]. }
  assert (Hmade : forall k d, d_root d = d_root d0 ->
    created_at d0 (segmentFilename (sh_FirstSequence h)) (seg_header_bytes h) k d -> left d).
  { intros k d Hr Hc. split; [done|]. split.
    - destruct (wal_created id ver first l h d0 k d Hw Hends Hh eq_refl eq_refl eq_refl Hc) as [Hi|[_ Hi]].
      + exists l. split; [done|]. right. exists h, k. by split.
      + exists (l ++ [(h, [])]). split; [by rewrite log_frames_snoc, app_nil_r|]. left. exists []. split; [done|by left].
    - intros x Hx. destruct Hc as [Hf Ho]. destruct (decide (x = segmentFilename (sh_FirstSequence h))) as [->|Hne]; [by rewrite Hf|].
      unfold file in *. by rewrite Ho. }
  eapply ct_conseq; [apply ct_and; [exact (create_spec ev opts d0 Hh)|exact (create_root ev opts d0)]|..].
  - intros d <-. done.
  - intros d [[Hn|[k Hc]] Hr]; [by apply Hsame|by eapply Hmade].
  - intros s d [(->&Hs&Hc) Hr]. split; [by eapply Hmade|]. split; [exact Hs|]. split; [done|]. split; [done|].
    destruct (wal_created id ver first l h d0 _ d Hw Hends Hh eq_refl eq_refl eq_refl Hc) as [Hi|[_ Hi]]; [|exact Hi].
    destruct Hi as (_&_&_&_&_&_&_&Hlt). exfalso. exact (Nat.lt_irrefl _ Hlt).
  - intros d [[Hn|[k Hc]] Hr]; [by apply Hsame|by eapply Hmade].
Qed.

Section rotating_append.
Context (ev : env) (first a : Z) (l : wal_log) (fs : list Frame) (w : SpoolWriter) (f : Frame) (d0 : disk).
Let id := sw_sourceID w.
Let ver := sw_formatVersion w.
Let old := log_frames l ++ fs.
Hypotheses (Hinv : writer_inv first a l fs w d0) (Hok : frame_ok f) (Hseq : fr_Sequence f = first + zlen old)
  (Hmax : first + zlen old < MaxInt64) (Hnow : in_i64 (e_now ev)).

(** What an append can leave, whatever happens to it. *)
Definition append_left (d : disk) : Prop :=
  d_root d = d_root d0
  /\ (crash_shape id ver first old d \/ crash_shape id ver first (old ++ [sealed f]) d).

Lemma holds_shape l' tail d : wal_holds id ver first l' tail d -> torn_tail tail -> crash_shape id ver first (log_frames l') d.
Proof. intros. exists l'. split; [done|]. left. eauto. Qed.

Lemma old_left d : d_root d = d_root d0 -> entries DWal d = entries DWal d0 -> append_left d.
Proof.
  intros Hr He. split; [done|]. left. destruct Hinv as (_&_&_&_&Hw&_). unfold old. rewrite <-(log_frames_snoc l (sg_header (sw_seg w))).
  apply (holds_shape _ []); [|by left]. by eapply wal_holds_entries.
Qed.

(** A torn append to the last segment, where the log so far is [l'] with the segment's frames. *)
Lemma torn_left l' s fs' d1 k d :
  seg_inv s fs' d1 -> sg_name s = segmentFilename (sh_FirstSequence (sg_header s)) ->
  wal_holds id ver first (l' ++ [(sg_header s, fs')]) [] d1 -> log_frames l' ++ fs' = old -> d_root d1 = d_root d0 ->
  torn_at s fs' f d1 k d -> append_left d.
Proof.
  intros Hs Hname Hw Hfr Hroot Ht.
  assert (Hsq : fr_Sequence f = sh_FirstSequence (sg_header s) + zlen fs').
  { destruct Hw as (_&Hch&_). apply chained_snoc in Hch as (_&_&_&_&->&_). rewrite Hseq, <-Hfr, zlen_app. lia. }
  destruct (torn_at_wal id ver first l' s fs' f d1 Hs Hname Hw Hsq Hok k d Ht) as (fs2&tail&Hw2&Htt&Hfs&_&Hr).
  split; [by rewrite Hr|]. apply holds_shape in Hw2; [|done]. rewrite log_frames_snoc in Hw2.
  destruct Hfs as [->| ->]; [left|right]; [by rewrite <-Hfr|by rewrite <-Hfr, <-app_assoc].
Qed.

(** A whole append to the last segment. *)
Lemma whole_inv l' s fs' d1 d ak rs cm tr :
  seg_inv s fs' d1 -> sg_name s = segmentFilename (sh_FirstSequence (sg_header s)) ->
  sg_ceiling s = DefaultSegmentCeiling ->
  wal_holds id ver first (l' ++ [(sg_header s, fs')]) [] d1 -> log_frames l' ++ fs' = old -> d_root d1 = d_root d0 ->
  torn_at s fs' f d1 (length (frame_bytes f)) d ->
  writer_inv first a l' (fs' ++ [sealed f]) (mkSpoolWriter id ver tr (appended s f) false ak rs cm) d.
Proof.
  intros Hs Hname Hceil Hw Hfr Hroot Ht.
  assert (Hsq : fr_Sequence f = sh_FirstSequence (sg_header s) + zlen fs').
  { destruct Hw as (_&Hch&_). apply chained_snoc in Hch as (_&_&_&_&->&_). rewrite Hseq, <-Hfr, zlen_app. lia. }
  pose proof (seg_inv_appended s fs' f d1 Hs d Hok Hsq Ht) as Hs'.
  pose proof Hs as (_&_&_&Hfw&Hc&_). destruct Hinv as (_&_&_&_&_&Hctl&Hstep).
  unfold writer_inv. cbn [sw_closed sw_seg sw_sourceID sw_formatVersion].
  split_and!; [done|done|done|done| | |].
  - eapply wal_holds_rewrite; [exact Hw| | |].
    + rewrite Ht. unfold put. rewrite entries_set, Hname, firstn_all, app_nil_r, segment_bytes_snoc, frame_bytes_sealed. done.
    + apply Forall_app. split; [done|]. by apply Forall_singleton, frame_wf_sealed.
    + by apply contiguous_snoc.
  - eapply bound_controls_root; [|exact Hctl]. rewrite Ht. rewrite <-Hroot. by unfold put.
  - rewrite app_assoc, Hfr. by apply in_step_snoc.
Qed.
(** What the method yields: the disk, on success the invariant with the new frame at the end, and on a failure whose
    rollback worked the invariant as it was, or a writer that is stuck. *)
Definition append_done (r : sres unit * SpoolWriter) (d : disk) : Prop :=
  append_left d
  /\ sw_sourceID r.2 = id /\ sw_formatVersion r.2 = ver /\ sw_ack r.2 = sw_ack w
  /\ (r.1 = Ok tt ->
      exists l' fs', log_frames l' ++ fs' = old ++ [sealed f] /\ writer_inv first a l' fs' r.2 d)
  /\ (r.1 <> Ok tt -> (forall name, e_flt ev IoTruncate name = false) ->
      stuck r.2 d \/ exists l' fs', log_frames l' ++ fs' = old /\ writer_inv first a l' fs' r.2 d).

Lemma done_stuck e d : append_left d -> is_Some (file DWal (sg_name (sw_seg w)) d) -> append_done (Err e, with_seg (sw_seg w) true w) d.
Proof. intros H Hf. split_and!; try done. intros _ _. by left. Qed.

(** Nothing changed. *)
Lemma done_same e d : append_left d -> ((forall name, e_flt ev IoTruncate name = false) -> d = d0) -> append_done (Err e, w) d.
Proof. intros H Hd. split_and!; try done. intros _ Ht. right. exists l, fs. split; [done|]. by rewrite Hd. Qed.

(** The frame did not go to the new segment, which is empty. *)
Lemma done_rotated e s d1 d :
  append_left d -> seg_inv s [] d1 -> sg_name s = segmentFilename (sh_FirstSequence (sg_header s)) ->
  sg_ceiling s = DefaultSegmentCeiling -> d_root d1 = d_root d0 ->
  wal_holds id ver first ((l ++ [(sg_header (sw_seg w), fs)]) ++ [(sg_header s, [])]) [] d1 ->
  ((forall name, e_flt ev IoTruncate name = false) -> d = d1) -> append_done (Err e, with_seg s false w) d.
Proof.
  intros H Hs Hn Hc Hr Hw Hd. split_and!; try done. intros _ Ht. right. rewrite (Hd Ht). exists (l ++ [(sg_header (sw_seg w), fs)]), [].
  assert (Hfr : log_frames (l ++ [(sg_header (sw_seg w), fs)]) ++ [] = old) by (by rewrite app_nil_r, log_frames_snoc).
  split; [exact Hfr|]. destruct Hinv as (_&_&_&_&_&Hctl&Hstep). unfold writer_inv. rewrite Hfr. split_and!; try done.
  eapply bound_controls_root; [symmetry; exact Hr|exact Hctl].
Qed.

Lemma done_ok l' s fs' d1 d :
  seg_inv s fs' d1 -> sg_name s = segmentFilename (sh_FirstSequence (sg_header s)) ->
  sg_ceiling s = DefaultSegmentCeiling ->
  wal_holds id ver first (l' ++ [(sg_header s, fs')]) [] d1 -> log_frames l' ++ fs' = old -> d_root d1 = d_root d0 ->
  torn_at s fs' f d1 (length (frame_bytes f)) d -> append_done (Ok tt, with_seg (appended s f) false w) d.
Proof.
  intros Hs Hname Hceil Hw Hfr Hroot Ht. split; [by eapply torn_left|]. split_and!; [done..| |done]. intros _.
  exists l', (fs' ++ [sealed f]). split; [by rewrite app_assoc, Hfr|]. by eapply whole_inv.
Qed.

(** The creation of the segment the frame goes to. *)
Lemma ct_rotate :
  fs <> [] ->
  let left d := append_left d /\ is_Some (file DWal (sg_name (sw_seg w)) d) in
  crash_triple (eq d0) (CreateSegment ev (segment_options id ver (fr_Sequence f) (e_now ev))) append_left
    (fun s d => d_root d = d_root d0 /\ seg_inv s [] d /\ sg_name s = segmentFilename (sh_FirstSequence (sg_header s))
       /\ sg_ceiling s = DefaultSegmentCeiling
       /\ wal_holds id ver first ((l ++ [(sg_header (sw_seg w), fs)]) ++ [(sg_header s, [])]) [] d)
    left.
Proof.
  intros Hfs. assert (Hends : ends_full (l ++ [(sg_header (sw_seg w), fs)])) by (unfold ends_full; rewrite last_snoc; by destruct fs).
  intros left. pose proof Hinv as (_&_&_&_&Hw&(Hid&_)&_). fold id ver in Hw, Hid.
  assert (Hfr : log_frames (l ++ [(sg_header (sw_seg w), fs)]) = old) by apply log_frames_snoc.
  pose proof (ct_create_next ev id ver first _ (e_now ev) d0 Hid Hw Hends ltac:(rewrite Hfr; lia) Hnow) as H. cbv zeta in H. rewrite Hfr, <-Hseq in H.
  assert (Hfile : is_Some (file DWal (sg_name (sw_seg w)) d0)) by (destruct Hinv as (_&[-> _]&_); by eexists).
  eapply ct_conseq; [exact H|done|..].
  - intros d (Hr&Hc&_). split; [done|by left].
  - intros s d ((Hr&_)&?). by split.
  - intros d (Hr&Hc&Hk). split; [split; [done|by left]|auto].
Qed.

Lemma ct_appendFrame : crash_triple (eq d0) (appendFrameLocked ev f w) append_left append_done (fun _ => False).
Proof.
  pose proof Hinv as (Hclosed&Hs&Hname&Hceil&Hw&_). fold id ver in Hw.
  assert (H0 : append_left d0) by by apply old_left.
  assert (Hseg : seg_env ev w = ev) by (unfold seg_env; by rewrite Hclosed).
  assert (Hsame : with_seg (sw_seg w) false w = w) by (clear -Hclosed; destruct w; cbn in *; by rewrite Hclosed).
  unfold appendFrameLocked. rewrite Hseg.
  apply (ct_bind _ _ _ _ _ (fun r d => match r with
    | Ok s => s = appended (sw_seg w) f /\ torn_at (sw_seg w) fs f d0 (length (frame_bytes f)) d
    | Err e => append_left d /\ ((forall name, e_flt ev IoTruncate name = false) -> d = d0) /\ (e = ErrSegmentFull -> d0 = d /\ fs <> []) end)).
  { intros d <-. pose proof (append_spec ev (sw_seg w) fs f d0 Hs d0 eq_refl) as H. unfold io_try.
    destruct (Append ev (sw_seg w) f d0) as [[t r] d] eqn:E. destruct H as [Ht Hr]. split.
    - eapply Forall_impl; [exact Ht|]. intros d1 [k Hk]. by eapply torn_left.
    - destruct r as [s|e]; [by destruct Hr as (->&_&?)|]. destruct Hr as [[k Hk] Hback]. split; [by eapply torn_left|]. split; [auto|].
      intros ->. by destruct (full_append _ _ _ _ _ _ _ Hs Hceil E) as (_&->&?&_). }
  intros [s|e].
  { apply ct_ret. intros d [-> Ht]. rewrite Hclosed. by eapply done_ok. }
  destruct (decide (e = ErrSegmentFull)) as [->|Hne].
  2: { intros d (Hd&Hback&_). assert (Hw' : append_done (Err e, w) d) by by apply done_same.
       destruct e; try done; by (split; [constructor|exact Hw']). }
  apply (ct_bind _ _ _ _ _ (fun r d => d0 = d /\ fs <> [])).
  { intros d (Hd&_&Hfull). destruct (Hfull eq_refl) as [<- Hfs]. unfold io_try, io_check, io_call.
    destruct (e_flt _ _ _); (split; [by apply Forall_singleton|done]). }
  assert (Hfile : is_Some (file DWal (sg_name (sw_seg w)) d0)) by (destruct Hs as [-> _]; by eexists).
  intros [[]|e]; [|apply ct_ret; intros d [<- _]; by apply done_stuck].
  apply (ct_bind _ _ _ _ _ (fun r d => match r with
    | Ok s => d_root d = d_root d0 /\ seg_inv s [] d /\ sg_name s = segmentFilename (sh_FirstSequence (sg_header s))
        /\ sg_ceiling s = DefaultSegmentCeiling
        /\ wal_holds id ver first ((l ++ [(sg_header (sw_seg w), fs)]) ++ [(sg_header s, [])]) [] d
    | Err _ => append_left d /\ is_Some (file DWal (sg_name (sw_seg w)) d) end)).
  { intros d [<- Hfs]. exact (ct_tried _ _ _ _ _ (ct_rotate Hfs) d0 eq_refl). }
  intros [s|e]; [|apply ct_ret; intros d [Hd Hf]; by apply done_stuck].
  intros d1 (Hr1&Hs1&Hn1&Hc1&Hw1).
  assert (Hfr : log_frames (l ++ [(sg_header (sw_seg w), fs)]) ++ [] = old) by (by rewrite app_nil_r, log_frames_snoc).
  pose proof (append_spec ev s [] f d1 Hs1 d1 eq_refl) as H. unfold io_bind, io_try.
  destruct (Append ev s f d1) as [[t [s'|e]] d]; cbn [io_ret]; rewrite app_nil_r; destruct H as [Ht Hr]; split;
    try (eapply Forall_impl; [exact Ht|]; intros d2 [k Hk]; by eapply torn_left).
  - destruct Hr as (->&_&Hk). by eapply done_ok.
  - destruct Hr as [[k Hk] Hback]. eapply done_rotated; [by eapply torn_left|done..|auto].
Qed.
End rotating_append.

(** A stuck writer refuses every frame and changes nothing. *)
Lemma stuck_appendFrame ev f w d : stuck w d -> exists t e, appendFrameLocked ev f w d = (t, Ok (Err e, w), d) /\ Forall (eq d) t.
Proof.
  intros [Hc [c Hf]]. unfold appendFrameLocked, seg_env. rewrite Hc. unfold io_bind at 1, io_try at 1.
  assert (Ha : exists t e, Append closed_env (sw_seg w) f d = (t, Err e, d) /\ Forall (eq d) t).
  { unfold Append. destruct (nextExpected _); [|by do 2 eexists]. destruct (EncodeFrame f); [|by do 2 eexists].
    unfold io_bind at 1, io_of. destruct (negb _); [by do 2 eexists|]. destruct (_ <? _); [by do 2 eexists|].
    assert (Hput : put DWal (sg_name (sw_seg w)) (EFile (write_at (default [] (file DWal (sg_name (sw_seg w)) d)) (Z.to_nat (sg_size (sw_seg w))) (take 0 a))) d = d)
      by (rewrite Hf; by apply put_id).
    unfold io_bind, io_cleanup, io_writeAt, rollback, io_truncate, io_call. cbn [e_flt e_torn closed_env seq fmap list_fmap app].
    rewrite Hput. do 2 eexists. split; [reflexivity|]. by repeat constructor. }
  destruct Ha as (t&e&E&Ht). rewrite E.
  assert (Hw : with_seg (sw_seg w) true w = w) by (destruct w; cbn in *; by rewrite Hc).
  destruct (decide (e = ErrSegmentFull)) as [->|Hne]; [|exists (t ++ []), e; split; [by destruct e|by rewrite app_nil_r]].
  rewrite Hw. cbn. do 2 eexists. split; [reflexivity|]. apply Forall_app. split; [done|]. by repeat constructor.
Qed.

Lemma stuck_append ev obs w d : stuck w d -> exists t e, AppendObservation ev obs w d = (t, Ok (Err e, w), d) /\ Forall (eq d) t.
Proof.
  intros Hs. unfold AppendObservation. cbv zeta. destruct (restampObservation _ _ _) as [stamped|e]; [|exists [], e; by split].
  destruct (stuck_appendFrame ev (new_frame (nextSequenceLocked w) (writeCanonical stamped)) w d Hs) as (t&e&E&Ht).
  unfold io_bind. rewrite E. exists (t ++ []), e. split; [done|by rewrite app_nil_r].
Qed.

(** A successful append wrote and synced the file it appended to. *)
Lemma append_synced_seg ev s f d t s' d' :
  Append ev s f d = (t, Ok s', d') -> sg_name s' = sg_name s /\ e_flt ev IoSync (sg_name s) = false.
Proof.
  unfold Append. destruct (nextExpected s); [|done]. destruct (EncodeFrame f) as [x|]; [|done].
  unfold io_bind at 1, io_of. destruct (negb _); [done|]. destruct (_ <? _); [done|].
  unfold io_bind, io_cleanup, io_writeAt, io_check, io_call. destruct (e_flt ev IoWrite _); cbn.
  { by destruct (rollback ev s _) as [[? ?] ?]. }
  destruct (e_flt ev IoSync (sg_name s)) eqn:E; cbn; [by destruct (rollback ev s _) as [[? ?] ?]|]. by intros [= <- <- <-].
Qed.

(** A created segment's directory entry was synced. *)
Lemma create_synced ev opts d t s d' :
  CreateSegment ev opts d = (t, Ok s, d') -> e_flt ev IoDirSync (name_of DWal) = false.
Proof.
  unfold CreateSegment. destruct (_ <? 1); [done|]. unfold io_bind at 1. destruct (ensureDir ev DWal d) as [[? [[]|]] d1]; [|done].
  unfold io_bind at 1, io_of. destruct (encodeSegmentHeader _) as [x|]; [|done]. cbv zeta.
  unfold io_bind at 1. destruct (io_create_excl _ _ _ d1) as [[? [[]|]] d2]; [|done].
  unfold io_bind at 1. destruct (io_check ev IoChmod _ d2) as [[? [[]|]] d3]; [|done].
  unfold io_bind at 1. destruct (io_writeAt _ _ _ _ _ d3) as [[? [[]|]] d4]; [|done].
  unfold io_bind at 1. destruct (io_check ev IoSync _ d4) as [[? [[]|]] d5]; [|done].
  unfold fsyncDir, io_bind, io_check, io_call. destruct (e_flt ev IoOpen _); [done|]. by destruct (e_flt ev IoDirSync _).
Qed.

(** What has to have been synced for an append that left the writer on [s'] to be durable: the file the frame
    went to and, when that file is new, its directory entry. *)
Definition synced (ev : env) (w w' : SpoolWriter) : Prop :=
  e_flt ev IoSync (sg_name (sw_seg w')) = false
  /\ (sg_name (sw_seg w') <> sg_name (sw_seg w) -> e_flt ev IoDirSync (name_of DWal) = false).

Lemma appendFrame_synced ev f w d t w' d' :
  sw_closed w = false -> appendFrameLocked ev f w d = (t, Ok (Ok tt, w'), d') -> synced ev w w'.
Proof.
  intros Hc. unfold appendFrameLocked, seg_env. rewrite Hc. unfold io_bind at 1, io_try at 1.
  destruct (Append ev (sw_seg w) f d) as [[t1 [s|e]] d1] eqn:E.
  - cbn. intros [= <- <- <-]. destruct (append_synced_seg _ _ _ _ _ _ _ E) as [Hn Hs]. split; cbn; [by rewrite Hn|by rewrite Hn].
  - destruct e; try done. unfold io_bind at 1, io_try at 1. destruct (io_check ev IoClose _ d1) as [[t2 [[]|]] d2]; [|done].
    cbv zeta. unfold io_bind at 1, io_try at 1. destruct (CreateSegment _ _ d2) as [[t3 [next|]] d3] eqn:E3; [|done].
    unfold io_bind, io_try. destruct (Append ev next f d3) as [[t4 [s|]] d4] eqn:E4; [|done]. cbn. intros [= <- <- <-].
    destruct (append_synced_seg _ _ _ _ _ _ _ E4) as [Hn Hs]. split; cbn; [by rewrite Hn|]. intros _. by eapply create_synced.
Qed.

(** ** Appending an observation *)

(** The frame an observation becomes at the sequence the writer would give it. *)
Definition stamped_frame (w : SpoolWriter) (obs : json) : option Frame :=
  match restampObservation obs (nextSequenceLocked w) (observationID (nextSequenceLocked w)) with
  | Ok stamped => Some (sealed (new_frame (nextSequenceLocked w) (writeCanonical stamped)))
  | Err _ => None
  end.

(** The writer's acknowledgement state: its durable end is that of the log, and its watermark, which is only
    read at startup, is not past the one on disk ([a]). *)
Definition ack_tracks (first a : Z) (fs : list Frame) (ak : AckState) : Prop :=
  ack_wf ak /\ ak_acknowledgedThrough ak <= a /\ ak_highestDurable ak = first + zlen fs - 1.

Definition writer_ready (first a : Z) (l : wal_log) (fs : list Frame) (w : SpoolWriter) (d : disk) : Prop :=
  writer_inv first a l fs w d /\ ack_tracks first a (log_frames l ++ fs) (sw_ack w).

(** The durable frames with at most one more. *)
Definition grown (fs : list Frame) (f : option Frame) (fs' : list Frame) : Prop :=
  fs' = fs \/ exists g, f = Some g /\ fs' = fs ++ [g].

Definition observation_left (first : Z) (fs : list Frame) (w : SpoolWriter) (obs : json) (d0 d : disk) : Prop :=
  d_root d = d_root d0
  /\ exists fs', grown fs (stamped_frame w obs) fs' /\ crash_shape (sw_sourceID w) (sw_formatVersion w) first fs' d.

Lemma ack_tracks_note first a fs f ak :
  first + zlen fs <= MaxInt64 -> ack_tracks first a fs ak ->
  ack_tracks first a (fs ++ [f]) (NoteDurable (first + zlen fs) ak).
Proof.
  intros Hm (Hwf&Ha&Hh). split; [by apply NoteDurable_wf|]. unfold NoteDurable.
  rewrite (proj2 (Z.ltb_lt _ _)) by lia. split; [exact Ha|]. rewrite zlen_app. unfold zlen at 3. cbn. lia.
Qed.

Lemma append_oversized ev first a l fs w f d0 :
  writer_inv first a l fs w d0 -> ~ frame_ok f -> exists e, appendFrameLocked ev f w d0 = ([], Ok (Err e, w), d0).
Proof.
  intros (Hclosed&Hs&_&Hceil&_) Hbad. unfold appendFrameLocked, io_bind, io_try, seg_env. rewrite Hclosed.
  assert (Ha : exists e, Append ev (sw_seg w) f d0 = ([], Err e, d0)).
  { unfold Append. destruct (nextExpected _); [|by eexists].
    destruct (EncodeFrame f) as [x|e] eqn:Ee; [by apply EncodeFrame_inv in Ee as [? _]|by eexists]. }
  destruct Ha as [e Ha]. rewrite Ha. exists e.
  destruct (decide (e = ErrSegmentFull)) as [->|Hne]; [|by destruct e].
  by destruct (full_append _ _ _ _ _ _ _ Hs Hceil Ha) as (_&_&_&?&_).
Qed.

Lemma ct_AppendObservation ev first a l fs w obs d0 :
  writer_ready first a l fs w d0 -> first + zlen (log_frames l ++ fs) < MaxInt64 -> in_i64 (e_now ev) ->
  let old := log_frames l ++ fs in
  let seq := first + zlen old in
  crash_triple (eq d0) (AppendObservation ev obs w) (observation_left first old w obs d0)
    (fun r d => observation_left first old w obs d0 d
       /\ sw_sourceID r.2 = sw_sourceID w /\ sw_formatVersion r.2 = sw_formatVersion w
       /\ (forall ack, r.1 = Ok ack ->
          ack = mkAppendAck seq (observationID seq) seq
          /\ exists g l' fs', stamped_frame w obs = Some g /\ log_frames l' ++ fs' = old ++ [g]
             /\ writer_ready first a l' fs' r.2 d)
       /\ forall e, r.1 = Err e -> sw_ack r.2 = sw_ack w
          /\ ((forall name, e_flt ev IoTruncate name = false) ->
              stuck r.2 d \/ exists l' fs', log_frames l' ++ fs' = old /\ writer_ready first a l' fs' r.2 d))
    (fun _ => False).
Proof.
  intros [Hinv Htr] Hmax Hnow old seq.
  destruct (writer_next _ _ _ _ _ _ Hinv ltac:(lia)) as [Hseq _]. fold old seq in Hseq.
  assert (H0 : observation_left first old w obs d0 d0).
  { split; [done|]. exists old. split; [by left|].
    destruct (old_left first a l fs w (new_frame seq []) d0 Hinv d0 eq_refl eq_refl) as [_ [Hs|Hs]]; [exact Hs|].
    destruct Hinv as (_&_&_&_&Hw&_). exists (l ++ [(sg_header (sw_seg w), fs)]). split; [apply log_frames_snoc|]. left.
    exists []. split; [exact Hw|by left]. }
  unfold AppendObservation. unfold observation_left, stamped_frame in *. rewrite Hseq in *. cbv zeta.
  assert (Hkept : (forall name, e_flt ev IoTruncate name = false) ->
    stuck w d0 \/ exists l' fs', log_frames l' ++ fs' = old /\ writer_ready first a l' fs' w d0) by (intros _; right; by exists l, fs).
  destruct (restampObservation obs seq (observationID seq)) as [stamped|e].
  2: { apply ct_ret. intros d <-. split_and!; [exact (proj1 H0)|exact (proj2 H0)|done|done|done|done]. }
  set (f := new_frame seq (writeCanonical stamped)) in *.
  destruct (decide (frame_ok f)) as [Hok|Hbad].
  - apply (ct_bind _ _ _ _ _ (append_done ev first a l fs w f d0)).
    { eapply ct_conseq; [by eapply ct_appendFrame|done| |done|done].
      intros d [Hr Hs]. split; [done|]. destruct Hs as [Hs|Hs]; [exists old; split; [by left|done]|].
      exists (old ++ [sealed f]). split; [right; eauto|done]. }
    intros [e w'] d (Hleft&Hid&Hver&Hack&Hdone&Hfail). cbn [fst snd] in *.
    assert (Hl : d_root d = d_root d0 /\ exists fs', grown old (Some (sealed f)) fs'
        /\ crash_shape (sw_sourceID w) (sw_formatVersion w) first fs' d).
    { destruct Hleft as [Hr Hs]. split; [done|]. destruct Hs as [Hs|Hs]; [exists old; split; [by left|done]|].
      exists (old ++ [sealed f]). split; [right; eauto|done]. }
    destruct e as [[]|e]; (split; [constructor|]); cbn [io_ret fst snd sw_sourceID sw_formatVersion with_ackState];
      (split; [exact Hl|]); (split; [done|]); (split; [done|]); split; try done.
    2: { intros e' _. split; [done|]. intros Ht. destruct (Hfail ltac:(done) Ht) as [?|(l'&fs'&Hfr&Hw')]; [by left|right].
         exists l', fs'. split; [done|]. split; [exact Hw'|]. by rewrite Hfr, Hack. }
    intros ack [= <-]. split; [done|]. destruct (Hdone eq_refl) as (l'&fs'&Hfr&Hw'). exists (sealed f), l', fs'.
    split; [done|]. split; [done|]. split; [exact Hw'|]. cbn [sw_ack with_ackState]. rewrite Hfr, Hack.
    apply ack_tracks_note; [lia|exact Htr].
  - intros d <-.
    destruct (append_oversized ev first a l fs w f d0 Hinv Hbad) as [e E]. unfold io_bind. rewrite E. split; [constructor|].
    split_and!; [exact (proj1 H0)|exact (proj2 H0)|done|done|done|done].
Qed.

Lemma append_synced ev obs w d t ack w' d' :
  sw_closed w = false -> AppendObservation ev obs w d = (t, Ok (Ok ack, w'), d') -> synced ev w w'.
Proof.
  intros Hc. unfold AppendObservation. cbv zeta. destruct (restampObservation _ _ _); [|done].
  unfold io_bind. destruct (appendFrameLocked _ _ _ d) as [[t1 [[[[]|e] w1]|e]] d1] eqn:E; [|done..]. cbn. intros [= _ _ <- _].
  by eapply appendFrame_synced in E.
Qed.

(** ** The stamp *)

Lemma assoc_set_elem k v m x y :
  NoDup m.*1 -> (x, y) ∈ assoc_set k v m <-> (x = k /\ y = v) \/ (x <> k /\ (x, y) ∈ m).
Proof.
  induction m as [|[k' v'] m IH]; intros Hn; cbn [assoc_set].
  - rewrite list_elem_of_singleton. split; [intros [= -> ->]; by left|]. by intros [[-> ->]|[_ ?%elem_of_nil]].
  - apply NoDup_cons in Hn as [Hk Hn]. case_bool_decide as E; [subst k'|]; rewrite !elem_of_cons.
    + split; [intros [[= -> ->]|Hin]|]; [by left| |].
      * right. split; [|by right]. intros ->. apply Hk. apply list_elem_of_fmap. by exists (k, y).
      * intros [[-> ->]|[Hx [[= -> ->]|Hin]]]; [by left|done|by right].
    + rewrite IH by done. split.
      * intros [[= -> ->]|[?|[??]]]; [right; split; [congruence|by left]|by left|right; split; [done|by right]].
      * intros [?|[Hx [[= -> ->]|Hin]]]; [right; by left|by left|right; by right].
Qed.

Lemma observationID_ascii seq : 0 <= seq -> forallb is_ascii (observationID seq) = true.
Proof.
  intros Hs. unfold observationID. rewrite (proj2 (Z.ltb_ge _ _)), forallb_app by done. apply andb_true_iff. split; [done|].
  pose proof (dec_pad_digits 20 seq) as Hd. rewrite forallb_forall in *. intros b Hb. specialize (Hd b Hb).
  unfold is_digit in Hd. unfold is_ascii. apply andb_true_iff in Hd. lia.
Qed.

Lemma restamp_wf obs seq stamped :
  wf_json obs -> 1 <= seq <= MaxInt64 -> restampObservation obs seq (observationID seq) = Ok stamped -> wf_json stamped.
Proof.
  intros Hwf Hs. unfold restampObservation. destruct obs as [| | | | |m]; try done. destruct (bool_decide (str "kind" ∈ m.*1)); [|done].
  intros E. apply (inj Ok) in E as <-. apply assoc_set_wf; [by apply ascii_utf8|apply ascii_utf8, observationID_ascii; lia|].
  apply assoc_set_wf; [by apply ascii_utf8| |done]. apply FormatInt_valid; unfold in_i64, MaxInt64 in *; lia.
Qed.

(** The stamp. For a decoded object with a kind and a sequence of the source's range, the stamped object
    has the given sequence and id and every other member as it was; it is a well-formed JSON value, so its
    canonical form (the frame's payload) decodes to it up to member order; and ids are as distinct as
    sequences. Anything else is refused. *)
Theorem restampObservation_spec obs seq seq' :
  wf_json obs -> 1 <= seq <= MaxInt64 -> 1 <= seq' <= MaxInt64 ->
  match obs with
  | JObj m =>
      if bool_decide (str "kind" ∈ m.*1)
      then exists m', restampObservation obs seq (observationID seq) = Ok (JObj m')
             /\ (forall k v, (k, v) ∈ m' <->
                   (k = str "observation_id" /\ v = JStr (observationID seq))
                   \/ (k = str "sequence" /\ v = JNum (FormatInt seq))
                   \/ (k <> str "observation_id" /\ k <> str "sequence" /\ (k, v) ∈ m))
             /\ wf_json (JObj m') /\ decode (writeCanonical (JObj m')) = Some (sorted_json (JObj m'))
      else restampObservation obs seq (observationID seq) = Err ErrObservationKind
  | JNull => restampObservation obs seq (observationID seq) = Err ErrObservationKind
  | _ => restampObservation obs seq (observationID seq) = Err ErrObservationShape
  end /\ (observationID seq = observationID seq' -> seq = seq').
Proof.
  intros Hwf Hs Hs'. split.
  - destruct obs as [| | | | |m]; try done. unfold restampObservation. case_bool_decide as Hk; [|done].
    set (m1 := assoc_set (str "sequence") (JNum (FormatInt seq)) m).
    set (m2 := assoc_set (str "observation_id") (JStr (observationID seq)) m1).
    assert (Hwf1 : wf_json (JObj m1)).
    { apply assoc_set_wf; [by apply ascii_utf8| |done]. apply FormatInt_valid; unfold in_i64, MaxInt64 in *; lia. }
    assert (Hwf2 : wf_json (JObj m2)).
    { apply assoc_set_wf; [by apply ascii_utf8| |done]. apply ascii_utf8, observationID_ascii. lia. }
    exists m2. split; [done|]. split; [|split; [done|by apply decode_written]].
    intros k v. pose proof (proj1 (proj1 (wf_obj _) Hwf)) as Hn. pose proof (proj1 (proj1 (wf_obj _) Hwf1)) as Hn1.
    unfold m2. rewrite (assoc_set_elem _ _ _ _ _ Hn1). unfold m1. rewrite (assoc_set_elem _ _ _ _ _ Hn).
    split; [intros [?|[? [?|[??]]]]; auto|]. intros [?|[[-> ->]|(?&?&?)]]; [by left| |]; right; (split; [done|]); auto.
  - unfold observationID. rewrite !(proj2 (Z.ltb_ge _ _)) by lia. intros E%app_inv_head.
    rewrite <-(dec_val_pad 20 seq), <-(dec_val_pad 20 seq') by (unfold MaxInt64 in *; change (10 ^ Z.of_nat 20) with 100000000000000000000; lia).
    by rewrite E.
Qed.
