(* ===== verification/Stored.v ===== *)
(** * What the daemon validated stays valid when it is stored

    The socket server decodes an observation strictly as it arrives, and the writer stamps it and stores its
    canonical form, which the Collector decodes again. The two agree on every observation whose stamped
    form has no two members equal up to case ([stored_accepted]). Without that condition they do not
    ([stored_differs]). *)

From S2P Require Import Prelude GoStrings Json JsonText GoJson MemberOrder SpoolTypes Ack WireTypes StrictDecode Sendable.
From S2P Require Import Segment Reserves Capacity Writer Evidence Sealed.

(** ** An observation under sorting *)

Definition sorted_observation (o : DecodedObservation) : DecodedObservation :=
  mkDecoded (do_Kind o) (do_Sequence o) (do_ObservationID o) (sort_raws (do_RunContext o)) (sort_raws (do_Variant o))
    (sort_raws <$> do_RunStarted o) (sort_raws <$> do_RunEnded o) (sort_raws <$> do_Usage o).

Lemma enums_valid_sorted t v : enums_valid t (sort_raws v) = enums_valid t v.
Proof.
  revert v. induction t as [| | | | | | | | |t IH|t IH|n t IH|fs IH] using gotype_induction; intros [|s|z|b|tm|lt|w|v|l|vs]; cbn [sort_raws enums_valid]; try done.
  - induction l as [|v l IHl]; [done|]. cbn [map forallb]. by rewrite IH, IHl.
  - induction l as [|v l IHl]; [done|]. cbn [map forallb]. by rewrite IH, IHl.
  - revert vs. induction IH as [|f fs Hf _ IHfs]; intros [|v vs]; cbn [map]; try done. by rewrite Hf, IHfs.
Qed.

Lemma get_sorted t name v : get t name (sort_raws v) = sort_raws (get t name v).
Proof.
  destruct t as [| | | | | | | | | | | |fs]; try (by destruct v). destruct v as [| | | | | | | | |vs]; try done. cbn [sort_raws get].
  destruct (index_of _ fs) as [i|]; [|done]. change (map sort_raws vs) with (sort_raws <$> vs). rewrite list_lookup_fmap.
  by destruct (vs !! i).
Qed.

Lemma strict_sorted t j v : distinct_members j -> strict_value t j v -> strict_value t (sorted_json j) (sort_raws v).
Proof. intros Hd [H He]. split; [by apply decode_as_sorted|by rewrite enums_valid_sorted]. Qed.

Lemma distinct_keys m : NoDup (map (fun kv : bytes * json => foldName kv.1) m) -> NoDup m.*1.
Proof.
  induction m as [|[k v] m IH]; cbn; [constructor|]. intros [Hk Hm]%NoDup_cons. apply NoDup_cons. split; [|by apply IH].
  intros H. apply Hk. apply list_elem_of_fmap in H as (kv&->&Hkv). apply list_elem_of_fmap. by exists kv.
Qed.

Lemma last_member_elem name m j : last_member name m = Some j -> (name, j) ∈ m.
Proof.
  unfold last_member. assert (H : forall acc, fold_left (fun acc kv => if bool_decide (kv.1 = name) then Some kv.2 else acc) m acc = Some j ->
    acc = Some j \/ (name, j) ∈ m); [|intros E; by destruct (H None E)].
  induction m as [|[k v] m IH]; intros acc; cbn [fold_left fst snd]; [by left|]. intros [H|H]%IH; [|right; by right].
  case_bool_decide; [|by left]. injection H as ->. subst k. right. by left.
Qed.

Lemma last_member_sorted name m j :
  NoDup m.*1 -> last_member name m = Some j -> last_member name (sort_fields (map (fun kv => (kv.1, sorted_json kv.2)) m)) = Some (sorted_json j).
Proof.
  intros Hn Hj. apply last_member_unique.
  - rewrite sort_fields_perm. by rewrite <-list_fmap_compose.
  - rewrite sort_fields_perm. apply list_elem_of_fmap. exists (name, j). split; [done|]. by apply last_member_elem.
Qed.

Lemma payload_sorted j member : distinct_members j -> payload_present j member -> payload_present (sorted_json j) member.
Proof.
  intros Hd (m&x&->&Hx&Hn). apply distinct_obj in Hd as [Hd _]. cbn [sorted_json]. eexists _, (sorted_json x).
  split; [reflexivity|]. split; [by apply last_member_sorted; [apply distinct_keys|]|by apply sorted_not_null].
Qed.

(** The union a field of an accepted value holds has no repeated members either. *)
Lemma union_distinct fs strict j v name i f :
  distinct_members j -> decode_as strict (TStruct fs) j = Ok v -> field_at fs name = Some (i, f) -> go_type f = TRaw ->
  distinct_members (as_raw (get (TStruct fs) name v)).
Proof.
  intros Hd Hv Hf Ht. apply field_at_lookup in Hf as [Hf Hget]. destruct j as [|b|lit|s|l|m]; try discriminate Hv.
  - unfold decode_as in Hv. apply outcome_stored, stored_inj in Hv as <-. cbn [decode_null zero]. rewrite Hget.
    rewrite list_lookup_fmap, Hf. cbn. unfold go_type in Ht. by rewrite Ht.
  - apply decode_as_object in Hv as (vs&->&Hvs). rewrite Hget. apply distinct_obj in Hd as [_ Hd].
    destruct (member_updates_raw strict fs m _ vs i f Hf Ht Hvs) as [->|(kv&Hkv&->)].
    + rewrite list_lookup_fmap, Hf. cbn. unfold go_type in Ht. by rewrite Ht.
    + cbn. rewrite Forall_forall in Hd. by apply Hd.
Qed.

Lemma as_raw_sorted v : as_raw (sort_raws v) = sorted_json (as_raw v).
Proof. by destruct v. Qed.

Lemma as_string_sorted v : as_string (sort_raws v) = as_string v.
Proof. by destruct v. Qed.

Lemma boundary_sorted j s e :
  distinct_members j -> boundary_valid j s e -> boundary_valid (sorted_json j) (sort_raws <$> s) (sort_raws <$> e).
Proof.
  intros Hd [(b&->&->&Hb)|(b&->&->&Hb)]; [left|right]; exists (sort_raws b); split_and!; try done; by apply strict_sorted.
Qed.

Lemma vcs_sorted j : distinct_members j -> vcs_valid j -> vcs_valid (sorted_json j).
Proof. intros Hd (r&[Hr|Hr]); exists (sort_raws r); [left|right]; by apply strict_sorted. Qed.

(** The union member of a kind's variant. *)
Lemma variant_union kind t name :
  by_kind kind variant_types = Some t ->
  (kind, name) ∈ [(str "RUN_BOUNDARY", "RunBoundary"); (str "VCS_REFERENCE", "VcsReference")]%string ->
  exists fs i f, t = TStruct fs /\ field_at fs name = Some (i, f) /\ go_type f = TRaw.
Proof.
  intros Ht H. apply elem_of_cons in H as [[= -> ->]|H]; [|apply elem_of_cons in H as [[= -> ->]|[]%not_elem_of_nil]];
    vm_compute in Ht; injection Ht as <-; do 3 eexists; (split; [reflexivity|]; split; [vm_compute; reflexivity|reflexivity]).
Qed.

(** What is accepted is accepted sorted. *)
Lemma accepted_sorted j o : distinct_members j -> accepted j o -> accepted (sorted_json j) (sorted_observation o).
Proof.
  intros Hd (t&member&Ht&Hm&Hv&Hseq&Hr&Hp&Hb&Hc&Hid&Hctx&Hu). exists t, member. cbn [do_Kind do_Sequence do_ObservationID do_RunContext
    do_Variant do_RunStarted do_RunEnded do_Usage sorted_observation]. rewrite !get_sorted, !as_raw_sorted, as_string_sorted, Hseq.
  refine (conj Ht (conj Hm (conj (strict_sorted _ _ _ Hd Hv) (conj eq_refl (conj Hr (conj (payload_sorted _ _ Hd Hp) (conj _ (conj _ (conj Hid (conj _ _)))))))))).
  - destruct (bool_decide (do_Kind o = str "RUN_BOUNDARY")) eqn:E; [|by destruct Hb as [-> ->]]. apply bool_decide_eq_true_1 in E.
    destruct (variant_union (do_Kind o) t "RunBoundary" Ht) as (fs&i&f&->&Hf&Hft); [rewrite E; apply list_elem_of_here|].
    apply boundary_sorted; [|done]. by eapply union_distinct; [|apply Hv|..].
  - destruct (bool_decide (do_Kind o = str "VCS_REFERENCE")) eqn:E; [|done]. apply bool_decide_eq_true_1 in E.
    destruct (variant_union (do_Kind o) t "VcsReference" Ht) as (fs&i&f&->&Hf&Hft); [rewrite E; apply list_elem_of_further, list_elem_of_here|].
    apply vcs_sorted; [|done]. by eapply union_distinct; [|apply Hv|..].
  - by rewrite Hctx.
  - rewrite Hu. by destruct (bool_decide (do_Kind o = str "USAGE")).
Qed.

(** ** An observation under the stamp *)

Definition set_field (t : gotype) (name : String.string) (x v : goval) : goval :=
  match t, v with
  | TStruct fs, GStruct vs => match field_at fs name with Some (i, _) => GStruct (<[i := x]> vs) | None => v end
  | _, _ => v
  end.

(** The variant with the two stamped fields. *)
Definition stamped_variant (t : gotype) (seq : Z) (obsID : bytes) (v : goval) : goval :=
  set_field t "ObservationId" (GStr obsID) (set_field t "Sequence" (GInt seq) v).

Definition stamped_observation (seq : Z) (obsID : bytes) (o : DecodedObservation) : DecodedObservation :=
  match by_kind (do_Kind o) variant_types with
  | Some t => mkDecoded (do_Kind o) seq obsID (do_RunContext o) (stamped_variant t seq obsID (do_Variant o)) (do_RunStarted o) (do_RunEnded o) (do_Usage o)
  | None => o
  end.

Lemma get_set_field t name name' x v :
  str name <> str name' -> get t name (set_field t name' x v) = get t name v.
Proof.
  intros Hn. destruct t as [| | | | | | | | | | | |fs]; try done. destruct v as [| | | | | | | | |vs]; try done. cbn [set_field].
  destruct (field_at fs name') as [[i f]|] eqn:E; [|done]. cbn [get].
  destruct (index_of (fun f => bool_decide (go_name f = str name)) fs) as [j|] eqn:Ej; [|done].
  rewrite list_lookup_insert_ne; [done|]. intros ->. unfold field_at in E. apply bind_Some in E as (j'&Ej'&E).
  apply bind_Some in E as (f'&Hf'&[= -> ->]). apply index_of_Some in Ej as (y&Hy&Hp), Ej' as (y'&Hy'&Hp').
  rewrite Hy in Hy'. injection Hy' as <-. apply bool_decide_eq_true_1 in Hp, Hp'. by rewrite <-Hp, <-Hp' in Hn.
Qed.

Lemma get_set_same fs name x vs i f :
  field_at fs name = Some (i, f) -> length vs = length fs -> get (TStruct fs) name (set_field (TStruct fs) name x (GStruct vs)) = x.
Proof.
  intros E Hl. cbn [set_field]. rewrite E. pose proof E as [Hf Hget]%field_at_lookup. rewrite Hget.
  rewrite list_lookup_insert_eq; [done|]. rewrite Hl. by eapply lookup_lt_Some.
Qed.

(** The two stamped fields are where the member names say. *)
Definition stampable (t : gotype) : bool :=
  match t with
  | TStruct fs =>
      match field_at fs "Sequence", field_at fs "ObservationId" with
      | Some (i, (_, _, TInt 64)), Some (j, (_, _, TString)) =>
          bool_decide (find_field fs (str "sequence") = Some i) && bool_decide (find_field fs (str "observation_id") = Some j)
      | _, _ => false
      end
  | _ => false
  end.

Lemma variants_stampable : forallb (fun kv => stampable kv.2) variant_types = true.
Proof. vm_compute. reflexivity. Qed.

Lemma variant_stampable kind t : by_kind kind variant_types = Some t -> stampable t = true.
Proof.
  unfold by_kind. destruct (list_find _ variant_types) as [[i kv]|] eqn:E; [|done]. intros [= <-].
  apply list_find_Some in E as (H&_&_). pose proof variants_stampable as Hv. rewrite forallb_forall in Hv.
  apply (Hv kv). apply list_elem_of_In. by eapply list_elem_of_lookup_2.
Qed.

Lemma stampable_fields t :
  stampable t = true ->
  exists fs i fi j fj, t = TStruct fs
    /\ field_at fs "Sequence" = Some (i, fi) /\ go_type fi = TInt 64 /\ find_field fs (str "sequence") = Some i
    /\ field_at fs "ObservationId" = Some (j, fj) /\ go_type fj = TString /\ find_field fs (str "observation_id") = Some j.
Proof.
  destruct t as [| | | | | | | | | | | |fs]; try done. cbn [stampable].
  destruct (field_at fs "Sequence") as [[i fi]|] eqn:Ei; [|done].
  destruct fi as [[ni ji] [|bits| | | | | | | | | | |]] eqn:Efi; try done.
  destruct (Z.eq_dec bits 64) as [->|Hb]; [|intros H; exfalso; destruct bits as [|p|p]; try done; repeat (destruct p as [p|p|]; try done)].
  destruct (field_at fs "ObservationId") as [[j fj]|] eqn:Ej; [|done]. destruct fj as [[nj jj] []] eqn:Efj; try done.
  intros [H1 H2]%andb_prop. apply bool_decide_eq_true_1 in H1, H2. exists fs, i, fi, j, fj. by subst.
Qed.

Lemma enums_valid_insert fs vs i f x :
  enums_valid (TStruct fs) (GStruct vs) = true -> fs !! i = Some f -> enums_valid (go_type f) x = true ->
  enums_valid (TStruct fs) (GStruct (<[i := x]> vs)) = true.
Proof.
  cbn [enums_valid]. revert vs i. induction fs as [|g fs IH]; intros [|w vs] [|i]; try done; cbn [insert list_insert lookup list_lookup].
  - intros [_ H]%andb_prop [= ->] Hx. unfold go_type in Hx. by rewrite Hx.
  - intros [-> H]%andb_prop Hf Hx. cbn [andb]. by apply (IH vs i).
Qed.

Lemma last_member_set name k x m : name <> k -> last_member name (assoc_set k x m) = last_member name m.
Proof.
  intros Hn. unfold last_member. generalize (@None json) as acc. induction m as [|[k' v] m IH]; intros acc; cbn [assoc_set].
  - cbn. by rewrite bool_decide_eq_false_2.
  - destruct (bool_decide (k' = k)) eqn:E; [|apply IH]. apply bool_decide_eq_true_1 in E as ->. cbn [fold_left fst snd].
    by rewrite bool_decide_eq_false_2.
Qed.

(** Setting a member of an object sets the field it is. *)
Lemma strict_set fs name k x g i f m v :
  strict_value (TStruct fs) (JObj m) v -> field_at fs name = Some (i, f) -> find_field fs k = Some i ->
  (forall old, decode_into true x (go_type f) old = stored g) -> enums_valid (go_type f) g = true ->
  NoDup (map (fun kv => foldName kv.1) (assoc_set k x m)) ->
  strict_value (TStruct fs) (JObj (assoc_set k x m)) (set_field (TStruct fs) name g v).
Proof.
  intros [Hv He] Hf Hk Hx Hg Hn. apply decode_as_object in Hv as (vs&->&Hvs). pose proof (field_at_lookup _ _ _ _ Hf) as [Hfi _].
  cbn [set_field]. rewrite Hf. split; [|by eapply enums_valid_insert].
  apply decode_as_object. exists (<[i := g]> vs). split; [done|]. eapply member_updates_set; try done.
  rewrite length_map. by eapply lookup_lt_Some.
Qed.

Lemma set_keeps_distinct k x m :
  NoDup (map (fun kv : bytes * json => foldName kv.1) (assoc_set k x m)) -> NoDup (map (fun kv : bytes * json => foldName kv.1) m).
Proof.
  induction m as [|[k' v] m IH]; cbn [assoc_set map]; [constructor|]. destruct (bool_decide (k' = k)) eqn:E.
  - apply bool_decide_eq_true_1 in E as ->. done.
  - cbn [map fst]. intros [Hk Hm]%NoDup_cons. apply NoDup_cons. split; [|by apply IH].
    intros Hin. apply Hk. apply list_elem_of_fmap in Hin as (kv&E'&Hkv). apply list_elem_of_fmap.
    clear -E E' Hkv. induction m as [|[k2 v2] m IHm]; [by inversion Hkv|]. cbn [assoc_set].
    destruct (bool_decide (k2 = k)) eqn:E2.
    + apply bool_decide_eq_true_1 in E2 as ->. apply elem_of_cons in Hkv as [->|Hkv].
      * exists (k, x). split; [done|by left].
      * exists kv. split; [done|by right].
    + apply elem_of_cons in Hkv as [->|Hkv]; [exists (k2, v2); split; [done|by left]|].
      destruct (IHm Hkv) as (y&?&?). exists y. split; [done|by right].
Qed.

(** The members the stamp does not set. *)
Lemma payload_names kind member :
  by_kind kind payloadMemberByKind = Some member -> member <> str "sequence" /\ member <> str "observation_id".
Proof.
  unfold by_kind. destruct (list_find _ payloadMemberByKind) as [[i kv]|] eqn:E; [|done]. intros [= <-].
  apply list_find_Some in E as (H&_&_). apply list_elem_of_lookup_2 in H.
  assert (Hall : Forall (fun kv => kv.2 <> str "sequence" /\ kv.2 <> str "observation_id") payloadMemberByKind)
    by (repeat constructor; discriminate).
  rewrite Forall_forall in Hall. by apply Hall.
Qed.

(** Stamping an accepted observation gives the accepted observation with that sequence and id. *)
Lemma accepted_stamped j o seq obsID stamped :
  accepted j o -> restampObservation j seq obsID = Ok stamped -> distinct_members stamped -> 1 <= seq <= MaxInt64 ->
  accepted stamped (stamped_observation seq obsID o).
Proof.
  intros (t&member&Ht&Hm&Hv&Hseq&Hr&Hp&Hb&Hc&Hid&Hctx&Hu) Hstamp Hd Hrange. destruct Hp as (m&x&->&Hx&Hxn).
  unfold restampObservation in Hstamp. destruct (bool_decide (str "kind" ∈ m.*1)); [|discriminate Hstamp]. apply (inj Ok) in Hstamp as <-.
  apply distinct_obj in Hd as [Hd _]. pose proof (set_keeps_distinct _ _ _ Hd) as Hd1.
  destruct (stampable_fields t (variant_stampable _ _ Ht)) as (fs&i&fi&k&fk&->&Hi&Hti&Hfi&Hk&Htk&Hfk).
  assert (H64 : fits 64 seq = true) by (unfold fits; change (2 ^ (64 - 1)) with (2 ^ 63); unfold MaxInt64 in *; by rewrite (proj2 (Z.leb_le _ _)), (proj2 (Z.ltb_lt _ _)) by lia).
  assert (Hs1 : strict_value (TStruct fs) (JObj (assoc_set (str "sequence") (JNum (FormatInt seq)) m)) (set_field (TStruct fs) "Sequence" (GInt seq) (do_Variant o))).
  { eapply strict_set; [exact Hv|exact Hi|exact Hfi| | |exact Hd1]; rewrite Hti; [|done]. intros old. cbn [decode_into target decode_number].
    rewrite ParseInt_FormatInt, H64 by (unfold in_i64, MaxInt64 in *; lia). done. }
  assert (Hs2 := strict_set fs "ObservationId" (str "observation_id") (JStr obsID) (GStr obsID) k fk _ _ Hs1 Hk Hfk
    ltac:(rewrite Htk; done) ltac:(by rewrite Htk) Hd).
  fold (stamped_variant (TStruct fs) seq obsID (do_Variant o)) in Hs2. unfold stamped_observation. rewrite Ht.
  assert (Hget : forall name, str name <> str "Sequence" -> str name <> str "ObservationId" ->
    get (TStruct fs) name (stamped_variant (TStruct fs) seq obsID (do_Variant o)) = get (TStruct fs) name (do_Variant o)).
  { intros name H1 H2. unfold stamped_variant. by rewrite !get_set_field. }
  pose proof Hs1 as [Hs1d _]. apply decode_as_object in Hs1d as (v1&Ev1&Hl1). apply member_updates_length in Hl1. rewrite length_map in Hl1.
  pose proof Hv as [Hvd _]. apply decode_as_object in Hvd as (v0&Ev0&Hl0). apply member_updates_length in Hl0. rewrite length_map in Hl0.
  exists (TStruct fs), member. cbn [do_Kind do_Sequence do_ObservationID do_RunContext do_Variant do_RunStarted do_RunEnded do_Usage].
  rewrite (Hget "RunBoundary"%string), (Hget "VcsReference"%string), (Hget "RunContext"%string), (Hget "Usage"%string) by discriminate.
  destruct (payload_names _ _ Hm) as [Hn1 Hn2].
  refine (conj Ht (conj Hm (conj Hs2 (conj _ (conj Hrange (conj _ (conj Hb (conj Hc (conj _ (conj Hctx Hu)))))))))).
  - unfold stamped_variant. rewrite get_set_field by discriminate. rewrite Ev0. by apply get_set_same with i fi.
  - eexists _, x. split; [reflexivity|]. by rewrite !last_member_set.
  - unfold stamped_variant. rewrite Ev1. by rewrite (get_set_same fs "ObservationId" (GStr obsID) v1 k fk Hk Hl1).
Qed.

(** Stamping an unambiguous observation that has the two members leaves it unambiguous. *)
Lemma assoc_set_there k x m : k ∈ m.*1 -> (assoc_set k x m).*1 = m.*1.
Proof.
  induction m as [|[k' v] m IH]; cbn; [by inversion 1|]. case_bool_decide as E; [by subst|]. intros [->|H]%elem_of_cons; [done|]. cbn. by rewrite IH.
Qed.

Lemma set_distinct k x m : k ∈ m.*1 -> distinct_members x -> distinct_members (JObj m) -> distinct_members (JObj (assoc_set k x m)).
Proof.
  intros Hk Hx [Hn Hm]%distinct_obj. apply distinct_obj. split.
  - assert (E : forall m : list (bytes * json), map (fun kv => foldName kv.1) m = map foldName m.*1) by (intros m'; by rewrite map_map).
    rewrite E, assoc_set_there by done. by rewrite <-E.
  - clear Hn Hk. induction Hm as [|[k' v] m Hv Hm IH]; cbn [assoc_set]; [by repeat constructor|].
    destruct (bool_decide (k' = k)); constructor; done.
Qed.

Lemma restamp_stamps o seq obsID : has_stamps o -> exists stamped, restampObservation o seq obsID = Ok stamped.
Proof. intros (m&->&Hk&_). unfold restampObservation. rewrite bool_decide_eq_true_2 by done. by eexists. Qed.

Lemma restamp_distinct o seq obsID stamped :
  distinct_members o -> has_stamps o -> restampObservation o seq obsID = Ok stamped -> distinct_members stamped.
Proof.
  intros Hd (m&->&_&H1&H2). unfold restampObservation. destruct (bool_decide (str "kind" ∈ m.*1)); [|discriminate]. intros [= <-].
  apply set_distinct; [by rewrite assoc_set_there|done|]. by apply set_distinct.
Qed.

(** ** What is stored *)

Lemma stored_reads obs o idx seq stamped :
  wf_json obs -> decodeObservation obs idx = Ok o -> 1 <= seq <= MaxInt64 ->
  restampObservation obs seq (observationID seq) = Ok stamped -> distinct_members stamped ->
  decode_raw (writeCanonical stamped) = Some (sorted_json stamped, []) /\ canonical (sorted_json stamped)
  /\ accepted (sorted_json stamped) (sorted_observation (stamped_observation seq (observationID seq) o)).
Proof.
  intros Hw Ho Hs Hst Hd. pose proof (restamp_wf _ _ _ Hw Hs Hst) as Hws. split; [by apply decode_raw_written|].
  split; [split; [by rewrite <-(same_sorted stamped)|by apply sorted_json_idemp]|].
  apply accepted_sorted; [done|]. eapply accepted_stamped; [by eapply observation_accepted|done..].
Qed.

(** C17: what the daemon validated and stamped stays valid in its stored form: if no two members of the
    stamped observation are equal up to case, its canonical bytes pass the Collector's strict decoder at
    every index, as the observation that was validated but for the stamped sequence and id (and the order
    of members inside its unions). *)
Theorem stored_accepted obs o idx seq stamped idx' :
  wf_json obs -> decodeObservation obs idx = Ok o -> 1 <= seq <= MaxInt64 ->
  restampObservation obs seq (observationID seq) = Ok stamped -> distinct_members stamped ->
  exists j, decode_raw (writeCanonical stamped) = Some (j, [])
    /\ decodeObservation j idx' = Ok (sorted_observation (stamped_observation seq (observationID seq) o)).
Proof.
  intros Hw Ho Hs Hst Hd. destruct (stored_reads _ _ _ _ _ Hw Ho Hs Hst Hd) as (Hr&_&Ha). exists (sorted_json stamped).
  split; [exact Hr|]. by apply accepted_observation.
Qed.

(** ** Members equal up to case *)

Definition demo_twice : bytes := js "{'captured_at':'2026-07-16T10:00:00.5Z','kind':'USAGE','Kind':'MESSAGE','message':{'role':'USER'},'observation_id':'obs_1','occurred_at':'2026-07-16T10:00:00Z','provenance':{'adapter':'codex','adapter_version':'1','content_policy':'METADATA_ONLY'},'sequence':1}".

Definition demo_twice_json : json := Eval vm_compute in match decode_raw demo_twice with Some (j, _) => j | None => JNull end.

(** The daemon validates this observation, as a message, and stores it; the Collector reads a usage
    observation without its payload. Canonicalization put [Kind] before [kind], and the last one wins. *)
Theorem stored_differs :
  decode_raw demo_twice = Some (demo_twice_json, [])
  /\ (exists o, decodeObservation demo_twice_json 0 = Ok o /\ do_Kind o = str "MESSAGE")
  /\ exists stamped j e, restampObservation demo_twice_json 7 (observationID 7) = Ok stamped
       /\ decode_raw (writeCanonical stamped) = Some (j, []) /\ decodeObservation j 0 = Err e.
Proof.
  split; [vm_compute; reflexivity|]. split.
  - destruct (decodeObservation demo_twice_json 0) as [o|e] eqn:E; [|vm_compute in E; discriminate E].
    exists o. split; [reflexivity|]. vm_compute in E. injection E as <-. reflexivity.
  - destruct (restampObservation demo_twice_json 7 (observationID 7)) as [stamped|e] eqn:Es; [|vm_compute in Es; discriminate Es].
    destruct (decode_raw (writeCanonical stamped)) as [[j rest]|] eqn:Ej; [|vm_compute in Es; injection Es as <-; vm_compute in Ej; discriminate Ej].
    exists stamped, j. vm_compute in Es. injection Es as <-. vm_compute in Ej. injection Ej as <- <-.
    destruct (decodeObservation _ 0) as [o|e] eqn:E; [vm_compute in E; discriminate E|]. exists e.
    split; [reflexivity|]. split; [vm_compute; reflexivity|reflexivity].
Qed.

Definition demo_stored : json := Eval vm_compute in default JNull (decode demo_payload).

Lemma stored_accepted_witness :
  exists o stamped j, decodeObservation demo_stored 0 = Ok o /\ restampObservation demo_stored 9 (observationID 9) = Ok stamped
    /\ decode_raw (writeCanonical stamped) = Some (j, [])
    /\ decodeObservation j 3 = Ok (sorted_observation (stamped_observation 9 (observationID 9) o)).
Proof.
  destruct (decodeObservation demo_stored 0) as [o|e] eqn:Eo; [|vm_compute in Eo; discriminate Eo].
  destruct (restampObservation demo_stored 9 (observationID 9)) as [stamped|e] eqn:Es; [|vm_compute in Es; discriminate Es].
  assert (Hd : distinct_members stamped).
  { vm_compute in Es. injection Es as <-. refine (bool_decide_eq_true_1 _ _). vm_compute. reflexivity. }
  destruct (stored_accepted demo_stored o 0 9 stamped 3) as (j&Hj&Ho); [exact (proj1 demo_canonical)|exact Eo|unfold MaxInt64; lia|exact Es|exact Hd|].
  exists o, stamped, j. exact (conj eq_refl (conj eq_refl (conj Hj Ho))).
Defined.
