(* ===== verification/Registry.v ===== *)
(** * The boundary and ancestry registry ([internal/observer/daemon/registry.go])

    The daemon's projection of the log: which process identity a wrapper registered for which run, and
    which runs are open or closed. It is folded from observations as they are appended, and rebuilt by
    replaying the log at startup. The theorems: what a lookup answers as a function of what was folded,
    whatever the order ([Registry_spec]), and that replay builds the registry the live daemon had
    ([ReplayWAL_live]). Each method runs under the registry's mutex and is one step. *)

From S2P Require Import Prelude Hash SpoolTypes Frame Fs GoStrings Segment Sidecar Recover Compact Ack Json JsonText GoJson MemberOrder.
From S2P Require Import WireTypes StrictDecode Batch Sendable Evidence SpoolStore Writer Stored.

#[export] Instance identity_eq_dec : EqDecision ProcessIdentity.
Proof. solve_decision. Defined.

#[export] Instance identity_countable : Countable ProcessIdentity.
Proof.
  apply (inj_countable' (fun i => (pi_BootId i, pi_Pid i, pi_ProcessStartTime i)) (fun x => mkProcessIdentity x.1.1 x.1.2 x.2)).
  by intros [].
Defined.

Record runBoundary : Type := mkRunBoundary { rb_open : bool; rb_workspace : bytes; rb_source : bytes }.

Record Registry : Type := mkRegistry {
  rg_source : bytes;
  rg_workspace : bytes;
  rg_registered : gmap ProcessIdentity bytes;
  rg_boundaries : gmap bytes runBoundary;
  rg_sessionRuns : gmap bytes bytes;
}.

Definition NewRegistry (source workspace : bytes) : Registry := mkRegistry source workspace ∅ ∅ ∅.

Definition with_registered (m : gmap ProcessIdentity bytes) (r : Registry) : Registry :=
  mkRegistry (rg_source r) (rg_workspace r) m (rg_boundaries r) (rg_sessionRuns r).
Definition with_boundaries (m : gmap bytes runBoundary) (r : Registry) : Registry :=
  mkRegistry (rg_source r) (rg_workspace r) (rg_registered r) m (rg_sessionRuns r).
Definition with_sessionRuns (m : gmap bytes bytes) (r : Registry) : Registry :=
  mkRegistry (rg_source r) (rg_workspace r) (rg_registered r) (rg_boundaries r) m.

Definition BindSession (nativeSessionID runID : bytes) (r : Registry) : Registry :=
  if bool_decide (nativeSessionID = []) || bool_decide (runID = []) then r
  else with_sessionRuns (<[nativeSessionID := runID]> (rg_sessionRuns r)) r.

(** A map lookup with its [ok]. *)
Definition found (o : option bytes) : bytes * bool := match o with Some v => (v, true) | None => ([], false) end.

Definition LookupSessionRun (nativeSessionID : bytes) (r : Registry) : bytes * bool := found (rg_sessionRuns r !! nativeSessionID).

(** ** Folding *)

Inductive fold_error : Type :=
| FoldSyntax
| FoldKind (e : json_error)
| FoldProcess (e : json_error)
| FoldBoundary (e : json_error)
| FoldTransition (e : json_error)
| FoldStarted (e : json_error)
| FoldEnded (e : json_error).

Definition wrap {E E' A} (f : E -> E') (r : result E A) : result E' A := match r with Ok a => Ok a | Err e => Err (f e) end.

(** [Discriminator] of the unions: their member of that name. *)
Definition discriminator_type (member : bytes) : gotype := TStruct [(str "Discriminator", member, TString)].
Definition Discriminator (member : bytes) (raw : json) : result json_error bytes :=
  v ← decode_as false (discriminator_type member) raw; Ok (as_string (get (discriminator_type member) "Discriminator" v)).

Definition identity_of (v : goval) : ProcessIdentity :=
  mkProcessIdentity (as_string (get wire.ProcessIdentity "BootId" v)) (as_int (get wire.ProcessIdentity "Pid" v))
    (as_int (get wire.ProcessIdentity "ProcessStartTime" v)).

Definition foldProcessLifecycle (obs : json) (r : Registry) : result fold_error Registry :=
  pl ← wrap FoldProcess (decode_as false wire.ProcessLifecycleObservation obs);
  let payload := get wire.ProcessLifecycleObservation "ProcessLifecycle" pl in
  if negb (bool_decide (as_string (get wire.ProcessLifecyclePayload "Transition" payload) = str "REGISTERED")) then Ok r
  else
    match get wire.ProcessLifecycleObservation "RunContext" pl with
    | GPtr rc =>
        let runID := as_string (get wire.RunContext "RunId" rc) in
        if bool_decide (runID = []) then Ok r
        else Ok (with_registered (<[identity_of (get wire.ProcessLifecyclePayload "ProcessIdentity" payload) := runID]> (rg_registered r)) r)
    | _ => Ok r
    end.

(** [RUN_STARTED] opens, unless the run was closed. *)
Definition open_run (runID : bytes) (r : Registry) : Registry :=
  if bool_decide (runID = []) then r
  else
    match rg_boundaries r !! runID with
    | Some b =>
        if negb (rb_open b) then r
        else with_boundaries (<[runID := mkRunBoundary true (rg_workspace r) (rg_source r)]> (rg_boundaries r)) r
    | None => with_boundaries (<[runID := mkRunBoundary true (rg_workspace r) (rg_source r)]> (rg_boundaries r)) r
    end.

(** [RUN_ENDED] closes, whether or not the run was seen to start. *)
Definition close_run (runID : bytes) (r : Registry) : Registry :=
  if bool_decide (runID = []) then r
  else
    let b := default (mkRunBoundary false (rg_workspace r) (rg_source r)) (rg_boundaries r !! runID) in
    with_boundaries (<[runID := mkRunBoundary false (rb_workspace b) (rb_source b)]> (rg_boundaries r)) r.

Definition foldRunBoundary (obs : json) (r : Registry) : result fold_error Registry :=
  rb ← wrap FoldBoundary (decode_as false wire.RunBoundaryObservation obs);
  let union := as_raw (get wire.RunBoundaryObservation "RunBoundary" rb) in
  transition ← wrap FoldTransition (Discriminator (str "transition") union);
  if bool_decide (transition = str "RUN_STARTED") then
    started ← wrap FoldStarted (decode_as false wire.RunStartedBoundary union);
    Ok (open_run (as_string (get wire.RunStartedBoundary "RunId" started)) r)
  else if bool_decide (transition = str "RUN_ENDED") then
    ended ← wrap FoldEnded (decode_as false wire.RunEndedBoundary union);
    Ok (close_run (as_string (get wire.RunEndedBoundary "RunId" ended)) r)
  else Ok r.

Definition Fold (obs : json) (r : Registry) : result fold_error Registry :=
  kind ← wrap FoldKind (Discriminator (str "kind") obs);
  if bool_decide (kind = str "PROCESS_LIFECYCLE") then foldProcessLifecycle obs r
  else if bool_decide (kind = str "RUN_BOUNDARY") then foldRunBoundary obs r
  else Ok r.

(** ** Lookups *)

Definition LookupRegistered (i : ProcessIdentity) (r : Registry) : bytes * bool := found (rg_registered r !! i).

Inductive InheritedRunStatus : Type :=
| InheritedRunUnknown
| InheritedRunOpenSameScope
| InheritedRunClosed
| InheritedRunCrossWorkspace.

#[export] Instance inherited_eq_dec : EqDecision InheritedRunStatus.
Proof. solve_decision. Defined.

Definition ResolveInherited (runID workspace : bytes) (r : Registry) : InheritedRunStatus :=
  match rg_boundaries r !! runID with
  | None => InheritedRunUnknown
  | Some b =>
      if negb (rb_open b) then InheritedRunClosed
      else if bool_decide (rb_workspace b = workspace) then InheritedRunOpenSameScope
      else InheritedRunCrossWorkspace
  end.

(** ** Replay *)

(** [UnmarshalJSON] of the union keeps the payload's bytes; the fold's first [json.Unmarshal] reads them. *)
Definition payload_json (p : bytes) : option json :=
  match decode_raw p with Some (v, rest) => if bool_decide (skip_ws rest = []) then Some v else None | None => None end.

Fixpoint fold_frames (frames : list Frame) (r : Registry) : result fold_error Registry :=
  match frames with
  | [] => Ok r
  | f :: rest =>
      match payload_json (fr_Payload f) with
      | None => Err FoldSyntax
      | Some obs => r ← Fold obs r; fold_frames rest r
      end
  end.

Definition replaySegment (ev : env) (name : bytes) (r : Registry) : IO (result fold_error Registry) :=
  let! seg := OpenSegment ev name zeroOptions in
  let! frames := io_cleanup (ReadAll ev seg) (io_check ev IoClose name) in
  io_check ev IoClose name ;!
  io_ret (fold_frames frames r).

Fixpoint replay_segments (ev : env) (names : list bytes) (r : Registry) : IO (result fold_error Registry) :=
  match names with
  | [] => io_ret (Ok r)
  | name :: rest =>
      let! res := replaySegment ev name r in
      match res with Ok r => replay_segments ev rest r | Err e => io_ret (Err e) end
  end.

(** The same listing as the spool's own: the segment files, [sort.Strings]. *)
Definition ReplayWAL (ev : env) (r : Registry) : IO (result fold_error Registry) :=
  let! m := readDir ev DWal (name_of DWal) in
  match m with
  | None => io_ret (Ok r)
  | Some m => replay_segments ev (seg_names m) r
  end.

(** ** What an observation means to the registry *)

Inductive boundary_event : Type :=
| Registered (i : ProcessIdentity) (runID : bytes)
| Started (runID : bytes)
| Ended (runID : bytes).

#[export] Instance event_eq_dec : EqDecision boundary_event.
Proof. solve_decision. Defined.

Definition named_run (ev : bytes -> boundary_event) (runID : bytes) : option boundary_event :=
  if bool_decide (runID = []) then None else Some (ev runID).

(** The event of an observation as the strict decoder reads it. *)
Definition event_of (o : DecodedObservation) : option boundary_event :=
  if bool_decide (do_Kind o = str "PROCESS_LIFECYCLE") then
    let payload := get wire.ProcessLifecycleObservation "ProcessLifecycle" (do_Variant o) in
    if bool_decide (as_string (get wire.ProcessLifecyclePayload "Transition" payload) = str "REGISTERED") then
      match get wire.ProcessLifecycleObservation "RunContext" (do_Variant o) with
      | GPtr rc =>
          named_run (Registered (identity_of (get wire.ProcessLifecyclePayload "ProcessIdentity" payload)))
            (as_string (get wire.RunContext "RunId" rc))
      | _ => None
      end
    else None
  else
    match do_RunStarted o, do_RunEnded o with
    | Some b, _ => named_run Started (as_string (get wire.RunStartedBoundary "RunId" b))
    | None, Some b => named_run Ended (as_string (get wire.RunEndedBoundary "RunId" b))
    | None, None => None
    end.

Definition apply_event (ev : boundary_event) (r : Registry) : Registry :=
  match ev with
  | Registered i runID => with_registered (<[i := runID]> (rg_registered r)) r
  | Started runID => open_run runID r
  | Ended runID => close_run runID r
  end.

Definition apply_observation (o : DecodedObservation) (r : Registry) : Registry :=
  match event_of o with Some ev => apply_event ev r | None => r end.

(** The peeked member is the struct's own field. *)
Lemma Discriminator_field fs name key raw v :
  discriminator fs name key = true -> decode_as true (TStruct fs) raw = Ok v ->
  Discriminator (str key) raw = Ok (as_string (get (TStruct fs) name v)).
Proof.
  intros Hd Hv. destruct (discriminator_peek fs name "Discriminator" key raw v Hd Hv) as (p&Hp&E).
  unfold Discriminator, discriminator_type. by rewrite Hp, <-E.
Qed.

Lemma sole_value t name k raw v :
  sole_member t name = Some k -> wire_type t = true -> strict_value t raw v -> as_string (get t name v) = k.
Proof. intros Hk Hw [Hd He]. by rewrite (sole_member_get _ _ _ true raw v Hk (wire_ints _ Hw) Hd He). Qed.

Lemma kind_discriminators : forallb (fun kv => match kv.2 with TStruct fs => discriminator fs "Kind" "kind" | _ => false end) variant_types = true.
Proof. vm_compute. reflexivity. Qed.

Lemma Discriminator_accepted raw o : accepted raw o -> Discriminator (str "kind") raw = Ok (do_Kind o).
Proof.
  intros (t&_&Ht&_&Hv&_). pose proof Ht as Hin. unfold by_kind in Hin. destruct (list_find _ variant_types) as [[i kv]|] eqn:E; [|done].
  injection Hin as <-. apply list_find_Some in E as (Hi&Hk&_). apply list_elem_of_lookup_2 in Hi.
  pose proof kind_discriminators as H. rewrite forallb_forall in H. specialize (H kv (proj1 (list_elem_of_In _ _) Hi)).
  destruct (variant_facts _ _ Ht) as (Hok&Hsole&fs&Efs). rewrite Efs in *. rewrite (Discriminator_field fs "Kind" "kind" raw _ H (proj1 Hv)).
  f_equal. eapply sole_value; [exact Hsole|by apply variant_wire|exact Hv].
Qed.

Definition discriminates (t : gotype) (name key : String.string) : bool := match t with TStruct fs => discriminator fs name key | _ => false end.

Lemma boundary_discriminators :
  discriminates wire.RunStartedBoundary "Transition" "transition" && discriminates wire.RunEndedBoundary "Transition" "transition" = true.
Proof. vm_compute. reflexivity. Qed.

Lemma transition_of t k raw b :
  (t = wire.RunStartedBoundary /\ k = str "RUN_STARTED") \/ (t = wire.RunEndedBoundary /\ k = str "RUN_ENDED") ->
  strict_value t raw b -> Discriminator (str "transition") raw = Ok k /\ decode_as false t raw = Ok b.
Proof.
  intros Ht Hb. split; [|by apply decode_as_lenient, Hb]. pose proof boundary_discriminators as [H1 H2]%andb_prop.
  destruct Ht as [[-> ->]|[-> ->]].
  - rewrite (Discriminator_field _ "Transition" "transition" raw b H1 (proj1 Hb)). f_equal. by eapply sole_value; [..|exact Hb].
  - rewrite (Discriminator_field _ "Transition" "transition" raw b H2 (proj1 Hb)). f_equal. by eapply sole_value; [..|exact Hb].
Qed.

Lemma lifecycle_variant : by_kind (str "PROCESS_LIFECYCLE") variant_types = Some wire.ProcessLifecycleObservation.
Proof. reflexivity. Qed.

Lemma boundary_variant : by_kind (str "RUN_BOUNDARY") variant_types = Some wire.RunBoundaryObservation.
Proof. reflexivity. Qed.

Lemma open_run_event runID r : match named_run Started runID with Some ev => apply_event ev r | None => r end = open_run runID r.
Proof. unfold named_run. destruct (bool_decide (runID = [])) eqn:E; cbn [apply_event]; [|done]. unfold open_run. by rewrite E. Qed.

Lemma close_run_event runID r : match named_run Ended runID with Some ev => apply_event ev r | None => r end = close_run runID r.
Proof. unfold named_run. destruct (bool_decide (runID = [])) eqn:E; cbn [apply_event]; [|done]. unfold close_run. by rewrite E. Qed.

(** What is accepted is folded, without error, as its event. *)
Lemma Fold_accepted_value obs o r : accepted obs o -> Fold obs r = Ok (apply_observation o r).
Proof.
  intros Ha. unfold Fold. rewrite (Discriminator_accepted _ _ Ha). cbn [wrap mbind result_bind].
  destruct Ha as (t&member&Ht&_&Hv&_&_&_&Hb&_). unfold apply_observation, event_of. destruct (bool_decide (do_Kind o = str "PROCESS_LIFECYCLE")) eqn:Ep.
  - apply bool_decide_eq_true_1 in Ep. rewrite Ep, lifecycle_variant in Ht. apply (inj Some) in Ht as <-.
    unfold foldProcessLifecycle. rewrite (decode_as_lenient _ _ _ (proj1 Hv)). cbn [wrap mbind result_bind].
    destruct (bool_decide (as_string _ = str "REGISTERED")); cbn [negb]; [|done].
    destruct (get _ "RunContext" _); try done. unfold named_run. by destruct (bool_decide (as_string _ = [])).
  - destruct (bool_decide (do_Kind o = str "RUN_BOUNDARY")) eqn:Er; [|by destruct Hb as [-> ->]].
    apply bool_decide_eq_true_1 in Er. rewrite Er, boundary_variant in Ht. apply (inj Some) in Ht as <-.
    unfold foldRunBoundary. rewrite (decode_as_lenient _ _ _ (proj1 Hv)). cbn [wrap mbind result_bind].
    destruct Hb as [(b&E1&E2&Hb)|(b&E1&E2&Hb)]; rewrite E1, ?E2.
    + destruct (transition_of wire.RunStartedBoundary (str "RUN_STARTED") _ _ (or_introl (conj eq_refl eq_refl)) Hb) as [-> ->]. cbn [wrap mbind result_bind].
      rewrite bool_decide_eq_true_2 by done. by rewrite <-open_run_event.
    + destruct (transition_of wire.RunEndedBoundary (str "RUN_ENDED") _ _ (or_intror (conj eq_refl eq_refl)) Hb) as [-> ->]. cbn [wrap mbind result_bind].
      rewrite bool_decide_eq_false_2, bool_decide_eq_true_2 by done. by rewrite <-close_run_event.
Qed.

(** ** Storing does not change what an observation means *)

Lemma get_stamped t name seq obsID v :
  str name <> str "Sequence" -> str name <> str "ObservationId" -> get t name (stamped_variant t seq obsID v) = get t name v.
Proof. intros H1 H2. unfold stamped_variant. by rewrite !get_set_field. Qed.

Lemma event_stamped seq obsID o : event_of (stamped_observation seq obsID o) = event_of o.
Proof.
  unfold stamped_observation. destruct (by_kind (do_Kind o) variant_types) as [t|] eqn:Ht; [|done]. unfold event_of.
  cbn [do_Kind do_Variant do_RunStarted do_RunEnded]. destruct (bool_decide (do_Kind o = str "PROCESS_LIFECYCLE")) eqn:E; [|done].
  apply bool_decide_eq_true_1 in E. rewrite E, lifecycle_variant in Ht. apply (inj Some) in Ht as <-.
  by rewrite !get_stamped by discriminate.
Qed.

Lemma as_int_sorted v : as_int (sort_raws v) = as_int v.
Proof. by destruct v. Qed.

Lemma event_sorted o : event_of (sorted_observation o) = event_of o.
Proof.
  unfold event_of. cbn [do_Kind do_Variant do_RunStarted do_RunEnded sorted_observation]. destruct (bool_decide (do_Kind o = _)).
  - unfold identity_of. rewrite !get_sorted, !as_string_sorted, !as_int_sorted.
    destruct (get wire.ProcessLifecycleObservation "RunContext" (do_Variant o)) as [| | | | | | |v| |]; try done. cbn [sort_raws].
    by rewrite get_sorted, as_string_sorted.
  - destruct (do_RunStarted o), (do_RunEnded o); cbn [fmap option_fmap option_map]; by rewrite ?get_sorted, ?as_string_sorted.
Qed.

(** ** What the registry answers *)

Fixpoint fold_all (raws : list json) (r : Registry) : result fold_error Registry :=
  match raws with [] => Ok r | obs :: raws => r ← Fold obs r; fold_all raws r end.

Definition apply_all (evs : list boundary_event) (r : Registry) : Registry := fold_left (fun r ev => apply_event ev r) evs r.

Lemma fold_all_accepted raws os r : Forall2 accepted raws os -> fold_all raws r = Ok (apply_all (omap event_of os) r).
Proof.
  intros H. revert r. induction H as [|obs o raws os Ho _ IH]; intros r; [done|]. cbn [fold_all]. rewrite (Fold_accepted_value _ _ _ Ho).
  cbn [mbind result_bind]. rewrite IH. unfold apply_observation. cbn. by destruct (event_of o).
Qed.

(** The run of the last registration of an identity. *)
Definition last_registered (i : ProcessIdentity) (evs : list boundary_event) : option bytes :=
  fold_left (fun acc ev => match ev with Registered j run => if bool_decide (j = i) then Some run else acc | _ => acc end) evs None.

(** What a run is, whatever the order its boundaries arrived in. *)
Definition run_status (source_workspace : bytes) (evs : list boundary_event) (runID workspace : bytes) : InheritedRunStatus :=
  if bool_decide (Ended runID ∈ evs) then InheritedRunClosed
  else if bool_decide (Started runID ∈ evs)
  then if bool_decide (source_workspace = workspace) then InheritedRunOpenSameScope else InheritedRunCrossWorkspace
  else InheritedRunUnknown.

Definition event_run (ev : boundary_event) : bytes := match ev with Registered _ run | Started run | Ended run => run end.

(** A run's boundary under the events folded so far. *)
Definition boundary_is (ws : bytes) (evs : list boundary_event) (runID : bytes) (b : option runBoundary) : Prop :=
  match b with
  | None => (Ended runID ∉ evs) /\ (Started runID ∉ evs)
  | Some b => rb_workspace b = ws /\ (if rb_open b then (Ended runID ∉ evs) /\ (Started runID ∈ evs) else Ended runID ∈ evs)
  end.

Definition registry_is (ws : bytes) (evs : list boundary_event) (r : Registry) : Prop :=
  rg_workspace r = ws /\ (forall i, rg_registered r !! i = last_registered i evs)
  /\ (forall runID, boundary_is ws evs runID (rg_boundaries r !! runID)).

Lemma last_registered_snoc i evs ev :
  last_registered i (evs ++ [ev])
  = match ev with Registered j run => if bool_decide (j = i) then Some run else last_registered i evs | _ => last_registered i evs end.
Proof. unfold last_registered. by rewrite fold_left_app. Qed.

Lemma boundary_other ws evs ev runID b :
  ev <> Started runID -> ev <> Ended runID -> boundary_is ws evs runID b -> boundary_is ws (evs ++ [ev]) runID b.
Proof.
  intros H1 H2. assert (E : forall x, x <> ev -> x ∈ evs ++ [ev] <-> x ∈ evs).
  { intros x Hx. rewrite elem_of_app, list_elem_of_singleton. split; [by intros [?|?]|by left]. }
  unfold boundary_is. destruct b as [b|]; rewrite ?(E (Ended runID)), ?(E (Started runID)) by done; [|done].
  intros [Hw Hb]. split; [done|]. destruct (rb_open b); rewrite ?(E (Ended runID)), ?(E (Started runID)) by done; done.
Qed.

Lemma registry_step ws evs ev r :
  event_run ev <> [] -> registry_is ws evs r -> registry_is ws (evs ++ [ev]) (apply_event ev r).
Proof.
  intros Hn (Hw&Hreg&Hb). destruct ev as [i run|run|run]; cbn [event_run apply_event] in *.
  - refine (conj Hw (conj _ _)); [|intros k; by apply boundary_other]. intros j. rewrite last_registered_snoc. cbn.
    destruct (decide (i = j)) as [->|Hij]; [by rewrite lookup_insert_eq, bool_decide_eq_true_2|by rewrite lookup_insert_ne, bool_decide_eq_false_2].
  - assert (Hs : boundary_is ws (evs ++ [Started run]) run (rg_boundaries (open_run run r) !! run)).
    { specialize (Hb run). unfold open_run. rewrite bool_decide_eq_false_2 by done. destruct (rg_boundaries r !! run) as [b|] eqn:E.
      - destruct (rb_open b) eqn:Eo; cbn [negb]; unfold boundary_is in *; [|rewrite E, Eo in *; set_solver].
        cbn. rewrite lookup_insert_eq. rewrite Eo in Hb. set_solver.
      - unfold boundary_is in *. cbn. rewrite lookup_insert_eq. set_solver. }
    assert (Ho : forall k, k <> run -> rg_boundaries (open_run run r) !! k = rg_boundaries r !! k).
    { intros k Hk. unfold open_run. rewrite bool_decide_eq_false_2 by done. destruct (rg_boundaries r !! run) as [b|]; [destruct (rb_open b)|]; cbn;
        by rewrite ?lookup_insert_ne. }
    split; [|split].
    + rewrite <-Hw. unfold open_run. destruct (bool_decide _), (rg_boundaries r !! run) as [[[]]|]; done.
    + intros j. rewrite last_registered_snoc, <-Hreg. unfold open_run. by destruct (bool_decide _), (rg_boundaries r !! run) as [[[]]|].
    + intros k. destruct (decide (k = run)) as [->|Hk]; [done|]. rewrite Ho by done. apply boundary_other; [congruence|done|done].
  - unfold close_run. rewrite bool_decide_eq_false_2 by done. refine (conj Hw (conj _ _)).
    + intros j. rewrite last_registered_snoc. apply Hreg.
    + intros k. cbn. destruct (decide (k = run)) as [->|Hk].
      * rewrite lookup_insert_eq. specialize (Hb run). unfold boundary_is in *. cbn. destruct (rg_boundaries r !! run); cbn; set_solver.
      * rewrite lookup_insert_ne by done. apply boundary_other; [done|congruence|done].
Qed.

Lemma registry_folds ws evs evs' r :
  Forall (fun ev => event_run ev <> []) evs' -> registry_is ws evs r -> registry_is ws (evs ++ evs') (apply_all evs' r).
Proof.
  intros H. revert evs r. induction H as [|ev evs' Hev _ IH]; intros evs r Hr; [by rewrite app_nil_r|].
  change (ev :: evs') with ([ev] ++ evs'). rewrite app_assoc. cbn. by apply IH, registry_step.
Qed.

Lemma registry_new source ws : registry_is ws [] (NewRegistry source ws).
Proof. split_and!; [done|done|]. intros k. split; apply not_elem_of_nil. Qed.

Lemma named_event_run ev runID x : (forall run, event_run (ev run) = run) -> named_run ev runID = Some x -> event_run x <> [].
Proof. intros He. unfold named_run. case_bool_decide as Hn; [done|]. intros [= <-]. by rewrite He. Qed.

Lemma event_of_run o ev : event_of o = Some ev -> event_run ev <> [].
Proof.
  unfold event_of. destruct (bool_decide (do_Kind o = _)).
  - destruct (bool_decide (as_string _ = _)); [|done]. destruct (get _ _ _); try done. by apply named_event_run.
  - destruct (do_RunStarted o); [by apply named_event_run|]. destruct (do_RunEnded o); [by apply named_event_run|done].
Qed.

Lemma events_named os : Forall (fun ev => event_run ev <> []) (omap event_of os).
Proof. apply Forall_forall. intros ev (o&_&Ho)%list_elem_of_omap. by eapply event_of_run. Qed.

(** The registry's contract. After any sequence of validated observations, folded without an error,
    a process identity is registered to the run of its last [REGISTERED] frame, and a run resolves by what
    has arrived about it, whatever the order: closed as soon as it has ended (a [RUN_STARTED] after or before
    the end never opens it), open if it has started, in the registry's workspace only, and unknown otherwise. *)
Theorem Fold_projects source ws raws os :
  Forall2 accepted raws os ->
  exists r, fold_all raws (NewRegistry source ws) = Ok r
    /\ (forall i, LookupRegistered i r = found (last_registered i (omap event_of os)))
    /\ forall runID workspace, ResolveInherited runID workspace r = run_status ws (omap event_of os) runID workspace.
Proof.
  intros H. eexists. split; [by apply fold_all_accepted|]. pose proof (registry_folds ws [] _ _ (events_named os) (registry_new source ws)) as (_&Hr&Hb).
  split; [intros i; unfold LookupRegistered; by rewrite Hr|]. intros runID workspace. specialize (Hb runID). unfold ResolveInherited, run_status.
  cbn [app] in *. destruct (rg_boundaries _ !! runID) as [b|]; unfold boundary_is in Hb.
  - destruct Hb as [<- Hb]. destruct (rb_open b); cbn [negb]; [|by rewrite bool_decide_eq_true_2].
    rewrite (bool_decide_eq_false_2 (Ended _ ∈ _)), (bool_decide_eq_true_2 (Started _ ∈ _)) by apply Hb. done.
  - rewrite !bool_decide_eq_false_2 by apply Hb. done.
Qed.

(** ** Replaying the log *)

(** The frame is the stored form of a validated observation. *)
Definition stored_form (obs : json) (f : Frame) : Prop :=
  exists o idx seq stamped, wf_json obs /\ decodeObservation obs idx = Ok o /\ 1 <= seq <= MaxInt64
    /\ restampObservation obs seq (observationID seq) = Ok stamped /\ distinct_members stamped /\ fr_Payload f = writeCanonical stamped.

(** What is folded from a stored frame is what was folded from the observation. *)
Lemma stored_event obs f :
  stored_form obs f ->
  exists o j o', accepted obs o /\ payload_json (fr_Payload f) = Some j /\ accepted j o' /\ event_of o' = event_of o.
Proof.
  intros (o&idx&seq&stamped&Hw&Ho&Hs&Hst&Hd&Hp). destruct (stored_reads _ _ _ _ _ Hw Ho Hs Hst Hd) as (Hr&_&Ha).
  exists o, (sorted_json stamped). eexists. split; [by eapply observation_accepted|]. split; [unfold payload_json; by rewrite Hp, Hr|].
  split; [exact Ha|]. by rewrite event_sorted, event_stamped.
Qed.

Lemma fold_frames_stored raws frames r : Forall2 stored_form raws frames -> fold_frames frames r = fold_all raws r.
Proof.
  intros H. revert r. induction H as [|obs f raws frames Hf _ IH]; intros r; [done|]. cbn [fold_frames fold_all].
  destruct (stored_event _ _ Hf) as (o&j&o'&Ha&->&Ha'&E). rewrite (Fold_accepted_value _ _ _ Ha), (Fold_accepted_value _ _ _ Ha').
  cbn [mbind result_bind]. rewrite IH. unfold apply_observation. by rewrite E.
Qed.

Lemma fold_frames_app fs fs' r : fold_frames (fs ++ fs') r = (r ← fold_frames fs r; fold_frames fs' r).
Proof.
  revert r. induction fs as [|f fs IH]; intros r; [done|]. cbn [app fold_frames]. destruct (payload_json _); [|done].
  destruct (Fold _ r); [apply IH|done].
Qed.

Lemma reads_cleanup {A} ev (m : IO A) cl d a : reads_as ev m d a -> reads_as ev cl d tt -> reads_as ev (io_cleanup m cl) d a.
Proof.
  intros (t&x&E&Hx) (t2&x2&E2&_). unfold io_cleanup, reads_as. rewrite E. destruct x as [b|e].
  - eauto.
  - rewrite E2. eauto.
Qed.

Lemma reads_frames ev d h frames name :
  file DWal name d = Some (segment_bytes h frames) -> header_ok h -> Forall frame_wf frames -> contiguous (sh_FirstSequence h) frames ->
  forall r, reads_as ev (replaySegment ev name r) d (fold_frames frames r).
Proof.
  intros Hf Hh Hw Hc r. unfold replaySegment, OpenSegment. eapply reads_as_bind.
  - eapply reads_as_bind; [by eapply reads_open|].
    eapply reads_as_bind; [by apply reads_mustReadFile|].
    pose proof (decode_segment_bytes h frames [] Hh) as Hd. rewrite app_nil_r in Hd.
    eapply reads_as_bind; [by apply reads_of|].
    eapply reads_as_bind; [apply reads_of, open_scan_complete; done|]. apply reads_ret.
  - eapply reads_as_bind; [apply reads_cleanup; [|apply reads_check]|].
    + unfold ReadAll. eapply reads_as_bind; [cbn [sg_name]; by apply reads_mustReadFile|]. apply reads_of. by apply read_frames_segment.
    + eapply reads_as_bind; [apply reads_check|apply reads_ret].
Qed.

Lemma replay_log ev d id ver first l r r' :
  chained id ver first l -> log_files d l [] -> fold_frames (log_frames l) r = Ok r' ->
  reads_as ev (replay_segments ev (log_names l) r) d (Ok r').
Proof.
  revert first r. induction l as [|[h fs] l IH]; intros first r Hch Hfiles Hr; [injection Hr as ->; apply reads_ret|].
  destruct Hch as (Hh&_&_&Hf&Hw&Hc&Hch). destruct (log_files_cons _ _ _ _ Hfiles) as [Hfile Hfiles'].
  change (log_frames ((h, fs) :: l)) with (fs ++ log_frames l) in Hr. rewrite fold_frames_app in Hr.
  apply bind_Ok in Hr as (r1&Hr1&Hr). change (log_names ((h, fs) :: l)) with (segmentFilename (sh_FirstSequence h) :: log_names l).
  cbn [replay_segments].
  eapply reads_as_bind; [apply (reads_frames _ _ h fs _ Hfile Hh Hw); by rewrite Hf|]. rewrite Hr1. by eapply IH.
Qed.

(** C18: replay rebuilds the registry the live daemon had: over a clean log whose frames are the stored forms
    of observations the daemon validated, none of which has two members equal up to case (such an observation
    can be folded as one kind and stored as another, [stored_differs]), [ReplayWAL] gives exactly what folding the original observations,
    as they were before the spool stamped and canonicalized them, gave. A failing call is the only other
    outcome, and nothing on disk changes. *)
Theorem ReplayWAL_live ev id ver first l d raws r :
  wal_holds id ver first l [] d -> Forall2 stored_form raws (log_frames l) ->
  exists r', fold_all raws r = Ok r' /\ reads_as ev (ReplayWAL ev r) d (Ok r').
Proof.
  intros (_&Hch&Hnames&Hfiles) Hs.
  assert (Hr : exists r', fold_all raws r = Ok r').
  { clear -Hs. revert r. induction Hs as [|obs f raws frames Hf _ IH]; intros r; [by exists r|].
    destruct (stored_event _ _ Hf) as (o&_&_&Ha&_). cbn [fold_all]. rewrite (Fold_accepted_value _ _ _ Ha). apply IH. }
  destruct Hr as [r' Hr]. exists r'. split; [exact Hr|]. rewrite <-(fold_frames_stored _ _ _ Hs) in Hr. unfold ReplayWAL. eapply reads_as_bind.
  - unfold readDir. eapply reads_as_bind; [apply reads_check|]. do 2 eexists. split; [done|by left].
  - unfold entries in Hnames. destruct (get_dir DWal d) as [m|].
    + change (default ∅ (Some m)) with m in Hnames. rewrite Hnames. by eapply replay_log.
    + destruct l as [|s l]; [injection Hr as ->; apply reads_ret|]. exfalso. by apply (f_equal length) in Hnames.
Qed.

(** ** Witnesses *)

Definition demo_envelope (kind member payload : bytes) : bytes :=
  js "{'captured_at':'2026-07-16T10:00:00.5Z','kind':'" ++ kind ++ js "','observation_id':'obs_pending','occurred_at':'2026-07-16T10:00:00Z','"
  ++ member ++ js "':" ++ payload ++ js ",'provenance':{'adapter':'w','adapter_version':'1','content_policy':'METADATA_ONLY'},'run_context':{'membership_evidence':'DECLARED_BOUNDARY','run_id':'r'},'sequence':1}".

Definition demo_started_bytes : bytes :=
  demo_envelope (str "RUN_BOUNDARY") (str "run_boundary") (js "{'boundary_source':'EXPLICIT_WRAPPER','run_id':'r','transition':'RUN_STARTED'}").
Definition demo_registered_bytes : bytes :=
  demo_envelope (str "PROCESS_LIFECYCLE") (str "process_lifecycle") (js "{'process_identity':{'boot_id':'b','pid':7,'process_start_time':9},'transition':'REGISTERED'}").

Definition demo_raws : list json := Eval vm_compute in [default JNull (decode demo_started_bytes); default JNull (decode demo_registered_bytes)].
Definition demo_observed : list DecodedObservation :=
  Eval vm_compute in omap (fun raw => match decodeObservation raw 0 with Ok o => Some o | Err _ => None end) demo_raws.
Definition demo_process : ProcessIdentity := mkProcessIdentity (str "b") 7 9.

Lemma demo_accepted : Forall2 accepted demo_raws demo_observed.
Proof. repeat (constructor; [apply (observation_accepted _ 0); vm_compute; reflexivity|]). constructor. Qed.

Lemma Fold_projects_witness :
  omap event_of demo_observed = [Started (str "r"); Registered demo_process (str "r")]
  /\ exists r, fold_all demo_raws (NewRegistry (str "src") (str "ws")) = Ok r
    /\ (forall i, LookupRegistered i r = found (last_registered i (omap event_of demo_observed)))
    /\ forall runID workspace, ResolveInherited runID workspace r = run_status (str "ws") (omap event_of demo_observed) runID workspace.
Proof. exact (conj eq_refl (Fold_projects (str "src") (str "ws") demo_raws demo_observed demo_accepted)). Defined.

(** The stored forms of the two observations, as the writer makes them. *)
Definition demo_stored_payloads : list bytes :=
  Eval vm_compute in imap (fun i raw => match restampObservation raw (1 + Z.of_nat i) (observationID (1 + Z.of_nat i)) with Ok j => writeCanonical j | Err _ => [] end) demo_raws.
Definition demo_registry_frames : list Frame :=
  [sealed (mkFrame 1 x00 (nth 0 demo_stored_payloads []) []); sealed (mkFrame 2 x00 (nth 1 demo_stored_payloads []) [])].
Definition demo_registry_disk : disk :=
  mkDisk ∅ (Some {[ segmentFilename 1 := EFile (segment_bytes demo_header demo_registry_frames) ]}) None.

(** [stored_form], evaluated. *)
Definition stored_check (obs : json) (f : Frame) : bool :=
  let seq := fr_Sequence f in
  match decodeObservation obs 0, restampObservation obs seq (observationID seq) with
  | Ok _, Ok stamped => bool_decide (distinct_members stamped) && bool_decide (fr_Payload f = writeCanonical stamped) && (1 <=? seq) && (seq <=? MaxInt64)
  | _, _ => false
  end.

Lemma stored_check_form obs f : wf_json obs -> stored_check obs f = true -> stored_form obs f.
Proof.
  intros Hw. unfold stored_check. destruct (decodeObservation obs 0) as [o|] eqn:Ho; [|done].
  destruct (restampObservation obs _ _) as [st|] eqn:Hst; [|done]. intros [[[Hd Hp]%andb_prop H1]%andb_prop H2]%andb_prop.
  exists o, 0, (fr_Sequence f), st. apply bool_decide_eq_true_1 in Hd, Hp. split_and!; try done; by apply Z.leb_le.
Qed.

Lemma demo_stored_forms : Forall2 stored_form demo_raws demo_registry_frames.
Proof.
  constructor; [|constructor; [|constructor]]; apply stored_check_form.
  - apply (decode_valid demo_started_bytes). vm_compute. reflexivity.
  - vm_compute. reflexivity.
  - apply (decode_valid demo_registered_bytes). vm_compute. reflexivity.
  - vm_compute. reflexivity.
Qed.

Lemma demo_registry_wal : wal_holds (str "src") 1 1 [(demo_header, demo_registry_frames)] [] demo_registry_disk.
Proof.
  split; [done|]. split; [|split].
  - split_and!; [exact demo_header_ok|done..| | |done].
    + repeat constructor; apply frame_wf_sealed; vm_compute; (split; [split; discriminate|discriminate]).
    + intros [|[|i]] f Hf; cbn in Hf; try discriminate Hf; injection Hf as <-; reflexivity.
  - apply demo_one_segment.
  - cbn [log_files]. rewrite (app_nil_r (segment_bytes demo_header demo_registry_frames)). apply file_lookup, lookup_singleton_eq.
Qed.

Lemma ReplayWAL_live_witness :
  exists r', fold_all demo_raws (NewRegistry (str "src") (str "ws")) = Ok r'
    /\ reads_as demo_env (ReplayWAL demo_env (NewRegistry (str "src") (str "ws"))) demo_registry_disk (Ok r').
Proof.
  apply (ReplayWAL_live demo_env (str "src") 1 1 [(demo_header, demo_registry_frames)]); [exact demo_registry_wal|].
  change (Forall2 stored_form demo_raws (demo_registry_frames ++ [])). rewrite (app_nil_r demo_registry_frames). exact demo_stored_forms.
Defined.
