(* ===== verification/Protocol.v ===== *)
(** * The local protocol ([internal/observer/local/protocol_unix.go])

    Requests and responses of the daemon's socket: their JSON envelopes, the checks a decoded request
    passes, and the length-prefixed framing. The theorems: a request is read as it was written, whatever
    follows it ([request_roundtrip]), a decoded request has the body its kind needs, and a message is read
    only within its bound. *)

From S2P Require Import Prelude GoStrings GoTime Json JsonText GoJson GoMarshal WireTypes StrictDecode Sendable GoLit Evidence.
From S2P Require Import SpoolTypes Frame Fs Segment Ack Reserves Capacity Writer Registry.

(** ** Requests *)

Record Request : Type := mkRequest {
  rq_Kind : bytes;
  rq_Append : option json;
  rq_ReserveRun : option bytes;
  rq_ReleaseRun : option bytes;
  rq_LookupRegistered : option ProcessIdentity;
  rq_ResolveInherited : option (bytes * bytes);
  rq_BindSession : option (bytes * bytes);
}.

Definition KindAppendObservation : bytes := str "APPEND_OBSERVATION".
Definition KindReserveRun : bytes := str "RESERVE_RUN".
Definition KindReleaseRun : bytes := str "RELEASE_RUN".
Definition KindStatus : bytes := str "STATUS".
Definition KindLookupRegisteredProcess : bytes := str "LOOKUP_REGISTERED_PROCESS".
Definition KindResolveInheritedRun : bytes := str "RESOLVE_INHERITED_RUN".
Definition KindBindSession : bytes := str "BIND_SESSION".

Definition AppendObservationRequest : gotype := TStruct [(str "Observation", str "observation", TRaw)].
Definition RunReserveRequest : gotype := TStruct [(str "RunID", str "run_id", TString)].
Definition LookupRegisteredProcessRequest : gotype := TStruct [(str "Identity", str "identity", wire.ProcessIdentity)].
Definition ResolveInheritedRunRequest : gotype := TStruct [(str "RunID", str "run_id", TString); (str "Workspace", str "workspace", TString)].
Definition BindSessionRequest : gotype :=
  TStruct [(str "NativeSessionID", str "native_session_id", TString); (str "RunID", str "run_id", TString)].

Definition RequestType : gotype := TStruct
  [(str "Kind", str "kind", TString);
   (str "Append", str "append", TPtr AppendObservationRequest);
   (str "ReserveRun", str "reserve_run", TPtr RunReserveRequest);
   (str "ReleaseRun", str "release_run", TPtr RunReserveRequest);
   (str "LookupRegistered", str "lookup_registered", TPtr LookupRegisteredProcessRequest);
   (str "ResolveInherited", str "resolve_inherited", TPtr ResolveInheritedRunRequest);
   (str "BindSession", str "bind_session", TPtr BindSessionRequest)].

Definition run_value (runID : bytes) : goval := lit RunReserveRequest [("RunID", GStr runID)]%string.

Definition request_value (r : Request) : goval := lit RequestType
  [("Kind", GStr (rq_Kind r));
   ("Append", opt_value (fun o => lit AppendObservationRequest [("Observation", GRaw o)]) (rq_Append r));
   ("ReserveRun", opt_value run_value (rq_ReserveRun r));
   ("ReleaseRun", opt_value run_value (rq_ReleaseRun r));
   ("LookupRegistered", opt_value (fun i => lit LookupRegisteredProcessRequest [("Identity", process_identity_value i)]) (rq_LookupRegistered r));
   ("ResolveInherited", opt_value (fun x => lit ResolveInheritedRunRequest [("RunID", GStr x.1); ("Workspace", GStr x.2)]) (rq_ResolveInherited r));
   ("BindSession", opt_value (fun x => lit BindSessionRequest [("NativeSessionID", GStr x.1); ("RunID", GStr x.2)]) (rq_BindSession r))]%string.

(** A pointer field as an option. *)
Definition opt_of {A} (dec : goval -> A) (v : goval) : option A := match v with GPtr v => Some (dec v) | _ => None end.

Definition pair_of (t : gotype) (a b : String.string) (v : goval) : bytes * bytes := (as_string (get t a v), as_string (get t b v)).

Definition request_of (v : goval) : Request :=
  let run v := as_string (get RunReserveRequest "RunID" v) in
  mkRequest (as_string (get RequestType "Kind" v))
    (opt_of (fun v => as_raw (get AppendObservationRequest "Observation" v)) (get RequestType "Append" v))
    (opt_of run (get RequestType "ReserveRun" v))
    (opt_of run (get RequestType "ReleaseRun" v))
    (opt_of (fun v => identity_of (get LookupRegisteredProcessRequest "Identity" v)) (get RequestType "LookupRegistered" v))
    (opt_of (pair_of ResolveInheritedRunRequest "RunID" "Workspace") (get RequestType "ResolveInherited" v))
    (opt_of (pair_of BindSessionRequest "NativeSessionID" "RunID") (get RequestType "BindSession" v)).

Inductive request_error : Type :=
| ErrMalformedRequest (what : bytes)
| ErrUnknownRequestKind (kind : bytes).

(** A body is missing, or its required string is empty. *)
Definition empty_run (o : option bytes) : bool := match o with None => true | Some runID => bool_decide (runID = []) end.

Definition validate (r : Request) : result request_error unit :=
  if bool_decide (rq_Kind r = KindAppendObservation) then
    match rq_Append r with None => Err (ErrMalformedRequest (str "append")) | Some _ => Ok tt end
  else if bool_decide (rq_Kind r = KindReserveRun) then
    if empty_run (rq_ReserveRun r) then Err (ErrMalformedRequest (str "reserve_run")) else Ok tt
  else if bool_decide (rq_Kind r = KindReleaseRun) then
    if empty_run (rq_ReleaseRun r) then Err (ErrMalformedRequest (str "release_run")) else Ok tt
  else if bool_decide (rq_Kind r = KindStatus) then Ok tt
  else if bool_decide (rq_Kind r = KindLookupRegisteredProcess) then
    match rq_LookupRegistered r with
    | None => Err (ErrMalformedRequest (str "lookup_registered"))
    | Some i => if bool_decide (pi_BootId i = []) then Err (ErrMalformedRequest (str "boot_id")) else Ok tt
    end
  else if bool_decide (rq_Kind r = KindResolveInheritedRun) then
    if empty_run (fst <$> rq_ResolveInherited r) then Err (ErrMalformedRequest (str "resolve_inherited")) else Ok tt
  else if bool_decide (rq_Kind r = KindBindSession) then
    if empty_run (fst <$> rq_BindSession r) || empty_run (snd <$> rq_BindSession r) then Err (ErrMalformedRequest (str "bind_session")) else Ok tt
  else Err (ErrUnknownRequestKind (rq_Kind r)).

Definition EncodeRequest (r : Request) : option bytes := Marshal RequestType (request_value r).

Definition DecodeRequest (data : bytes) : result request_error Request :=
  match decode_strictly RequestType data with
  | None => Err (ErrMalformedRequest (str "json"))
  | Some (v, rest) =>
      if More rest then Err (ErrMalformedRequest (str "trailing bytes"))
      else _ ← validate (request_of v); Ok (request_of v)
  end.

(** ** Responses *)

Record ErrorBody : Type := mkErrorBody { eb_Code : bytes; eb_Message : bytes }.
Record LookupRegisteredProcessAck : Type := mkLookupAck { la_Found : bool; la_RunID : bytes }.

Record Response : Type := mkResponse {
  rp_Status : bytes;
  rp_Error : option ErrorBody;
  rp_Append : option AppendAck;
  rp_Reserve : option RunReserveAck;
  rp_Health : option HealthSnapshot;
  rp_LookupRegistered : option LookupRegisteredProcessAck;
  rp_ResolveInherited : option bytes;
  rp_BindSession : option bool;
}.

Definition StatusOK : bytes := str "OK".
Definition StatusError : bytes := str "ERROR".

Definition ErrorBodyType : gotype := TStruct [(str "Code", str "code", TString); (str "Message", str "message", TString)].
Definition AppendAckType : gotype := TStruct
  [(str "Sequence", str "sequence", TInt 64); (str "ObservationID", str "observation_id", TString); (str "DurableThrough", str "durable_through", TInt 64)].
Definition RunReserveAckType : gotype := TStruct
  [(str "RunID", str "run_id", TString); (str "Open", str "open", TBool); (str "OpenReserveBytes", str "open_reserve_bytes", TInt 64);
   (str "Pressure", str "pressure", TString); (str "AdmitNewRun", str "admit_new_explicit_run", TBool)].
Definition HealthSnapshotType : gotype := TStruct
  [(str "Healthy", str "healthy", TBool); (str "UsedBytes", str "used_bytes", TInt 64); (str "OpenReserveBytes", str "open_reserve_bytes", TInt 64);
   (str "OpenRuns", str "open_runs", TInt 64); (str "AcknowledgedThrough", str "acknowledged_through", TInt 64);
   (str "HighestDurable", str "highest_durable", TInt 64); (str "Pressure", str "pressure", TString); (str "CeilingBytes", str "ceiling_bytes", TInt 64)].
Definition LookupRegisteredProcessAckType : gotype := TStruct [(str "Found", str "found", TBool); (str "RunID", str "run_id", TString)].
Definition ResolveInheritedRunAckType : gotype := TStruct [(str "Status", str "status", TString)].
Definition BindSessionAckType : gotype := TStruct [(str "Bound", str "bound", TBool)].

Definition ResponseType : gotype := TStruct
  [(str "Status", str "status", TString);
   (str "Error", str "error", TPtr ErrorBodyType);
   (str "Append", str "append", TPtr AppendAckType);
   (str "Reserve", str "reserve", TPtr RunReserveAckType);
   (str "Health", str "health", TPtr HealthSnapshotType);
   (str "LookupRegistered", str "lookup_registered", TPtr LookupRegisteredProcessAckType);
   (str "ResolveInherited", str "resolve_inherited", TPtr ResolveInheritedRunAckType);
   (str "BindSession", str "bind_session", TPtr BindSessionAckType)].

Definition error_value (e : ErrorBody) : goval := lit ErrorBodyType [("Code", GStr (eb_Code e)); ("Message", GStr (eb_Message e))]%string.
Definition append_value (a : AppendAck) : goval := lit AppendAckType
  [("Sequence", GInt (aa_Sequence a)); ("ObservationID", GStr (aa_ObservationID a)); ("DurableThrough", GInt (aa_DurableThrough a))]%string.
Definition reserve_value (a : RunReserveAck) : goval := lit RunReserveAckType
  [("RunID", GStr (ra_RunID a)); ("Open", GBool (ra_Open a)); ("OpenReserveBytes", GInt (ra_OpenReserveBytes a));
   ("Pressure", GStr (ra_Pressure a)); ("AdmitNewRun", GBool (ra_AdmitNewRun a))]%string.
Definition health_value (h : HealthSnapshot) : goval := lit HealthSnapshotType
  [("Healthy", GBool (hs_Healthy h)); ("UsedBytes", GInt (hs_UsedBytes h)); ("OpenReserveBytes", GInt (hs_OpenReserveBytes h));
   ("OpenRuns", GInt (hs_OpenRuns h)); ("AcknowledgedThrough", GInt (hs_AcknowledgedThrough h)); ("HighestDurable", GInt (hs_HighestDurable h));
   ("Pressure", GStr (hs_Pressure h)); ("CeilingBytes", GInt (hs_CeilingBytes h))]%string.

Definition response_value (r : Response) : goval := lit ResponseType
  [("Status", GStr (rp_Status r)); ("Error", opt_value error_value (rp_Error r)); ("Append", opt_value append_value (rp_Append r));
   ("Reserve", opt_value reserve_value (rp_Reserve r)); ("Health", opt_value health_value (rp_Health r));
   ("LookupRegistered", opt_value (fun a => lit LookupRegisteredProcessAckType [("Found", GBool (la_Found a)); ("RunID", GStr (la_RunID a))])
      (rp_LookupRegistered r));
   ("ResolveInherited", opt_value (fun s => lit ResolveInheritedRunAckType [("Status", GStr s)]) (rp_ResolveInherited r));
   ("BindSession", opt_value (fun b => lit BindSessionAckType [("Bound", GBool b)]) (rp_BindSession r))]%string.

Definition as_bool (v : goval) : bool := match v with GBool b => b | _ => false end.

Definition response_of (v : goval) : Response :=
  let s t name v := as_string (get t name v) in
  let i t name v := as_int (get t name v) in
  let b t name v := as_bool (get t name v) in
  mkResponse (s ResponseType "Status" v)
    (opt_of (fun v => mkErrorBody (s ErrorBodyType "Code" v) (s ErrorBodyType "Message" v)) (get ResponseType "Error" v))
    (opt_of (fun v => mkAppendAck (i AppendAckType "Sequence" v) (s AppendAckType "ObservationID" v) (i AppendAckType "DurableThrough" v))
      (get ResponseType "Append" v))
    (opt_of (fun v => let t := RunReserveAckType in mkRunReserveAck (s t "RunID" v) (b t "Open" v) (i t "OpenReserveBytes" v) (s t "Pressure" v) (b t "AdmitNewRun" v))
      (get ResponseType "Reserve" v))
    (opt_of (fun v => let t := HealthSnapshotType in
       mkHealthSnapshot (b t "Healthy" v) (i t "UsedBytes" v) (i t "OpenReserveBytes" v) (i t "OpenRuns" v) (i t "AcknowledgedThrough" v)
         (i t "HighestDurable" v) (s t "Pressure" v) (i t "CeilingBytes" v)) (get ResponseType "Health" v))
    (opt_of (fun v => let t := LookupRegisteredProcessAckType in mkLookupAck (b t "Found" v) (s t "RunID" v)) (get ResponseType "LookupRegistered" v))
    (opt_of (s ResolveInheritedRunAckType "Status") (get ResponseType "ResolveInherited" v))
    (opt_of (b BindSessionAckType "Bound") (get ResponseType "BindSession" v)).

Definition EncodeResponse (r : Response) : option bytes := Marshal ResponseType (response_value r).

(** What follows the first value is not looked at. *)
Definition DecodeResponse (data : bytes) : option Response :=
  match decode_strictly ResponseType data with Some (v, _) => Some (response_of v) | None => None end.

(** [InheritedRunStatus]'s tokens. *)
Definition inherited_token (s : InheritedRunStatus) : bytes :=
  match s with
  | InheritedRunUnknown => str "UNKNOWN"
  | InheritedRunOpenSameScope => str "OPEN_SAME_SCOPE"
  | InheritedRunClosed => str "CLOSED"
  | InheritedRunCrossWorkspace => str "CROSS_WORKSPACE"
  end.

(** [InheritedRunStatus.Valid], as the status a token names. *)
Definition inherited_of (token : bytes) : option InheritedRunStatus :=
  if bool_decide (token = str "UNKNOWN") then Some InheritedRunUnknown
  else if bool_decide (token = str "OPEN_SAME_SCOPE") then Some InheritedRunOpenSameScope
  else if bool_decide (token = str "CLOSED") then Some InheritedRunClosed
  else if bool_decide (token = str "CROSS_WORKSPACE") then Some InheritedRunCrossWorkspace
  else None.

(** ** Framing *)

Definition lengthPrefixBytes : nat := 4.
Definition DefaultMaxMessageBytes : Z := 5 * 2 ^ 20.

Inductive message_error : Type :=
| ErrMessageTooLarge
| ErrEmptyMessage
| ErrShortMessage.

(** The bytes written: the prefix holds the length as a [uint32]. *)
Definition writeMessage (payload : bytes) (max : Z) : result message_error bytes :=
  if max <? zlen payload then Err ErrMessageTooLarge else Ok (be_enc lengthPrefixBytes (u32 (zlen payload)) ++ payload).

(** From a connection that delivers [input] and then no more (its end, or the deadline): the message, and
    what is left. *)
Definition readMessage (input : bytes) (max : Z) : result message_error (bytes * bytes) :=
  if (length input <? lengthPrefixBytes)%nat then Err ErrShortMessage
  else
    let n := be_dec (take lengthPrefixBytes input) in
    let rest := drop lengthPrefixBytes input in
    if n =? 0 then Err ErrEmptyMessage
    else if max <? n then Err ErrMessageTooLarge
    else if zlen rest <? n then Err ErrShortMessage
    else Ok (take (Z.to_nat n) rest, drop (Z.to_nat n) rest).

(** ** Framing is exact *)

(** A message is read exactly when its prefix is its length and it is neither empty nor over the bound. *)
Lemma readMessage_Ok input max p rest :
  max < 2 ^ 32 ->
  readMessage input max = Ok (p, rest) <-> input = be_enc lengthPrefixBytes (zlen p) ++ p ++ rest /\ 0 < zlen p <= max.
Proof.
  intros Hmax. unfold readMessage. change lengthPrefixBytes with 4%nat. split.
  - destruct (length input <? 4)%nat eqn:El; [done|]. apply Nat.ltb_ge in El.
    assert (Hl : length (take 4 input) = 4%nat) by (rewrite length_take; lia). pose proof (be_dec_range (take 4 input)).
    destruct (be_dec (take 4 input) =? 0) eqn:E0; [done|]. destruct (_ <? _) eqn:E1; [done|]. destruct (zlen _ <? _) eqn:E2; [done|].
    bool_to_prop. intros [= <- <-].
    assert (Hz : zlen (take (Z.to_nat (be_dec (take 4 input))) (drop 4 input)) = be_dec (take 4 input)) by (unfold zlen in *; rewrite length_take; lia).
    rewrite Hz. split; [|lia]. rewrite take_drop. rewrite <-Hl at 1. by rewrite be_enc_dec, take_drop.
  - intros [-> Hp]. rewrite length_app, length_be_enc. cbn [Nat.ltb Nat.leb Nat.add].
    rewrite take_app_length', drop_app_length' by (by rewrite length_be_enc).
    rewrite be_dec_enc_id by (change (256 ^ Z.of_nat 4) with (2 ^ 32); lia).
    rewrite (proj2 (Z.eqb_neq _ _)), (proj2 (Z.ltb_ge max _)), (proj2 (Z.ltb_ge (zlen (p ++ rest)) _)) by (rewrite ?zlen_app; pose proof (zlen_nonneg rest); lia).
    assert (E : Z.to_nat (zlen p) = length p) by (unfold zlen; lia). rewrite E.
    by rewrite take_app_length, drop_app_length.
Qed.

Lemma message_roundtrip p max rest :
  max < 2 ^ 32 -> 0 < zlen p <= max -> exists framed, writeMessage p max = Ok framed /\ readMessage (framed ++ rest) max = Ok (p, rest).
Proof.
  intros Hmax Hp. unfold writeMessage. rewrite (proj2 (Z.ltb_ge _ _)) by lia. eexists. split; [reflexivity|].
  apply readMessage_Ok; [done|]. split; [|done]. unfold u32. rewrite Z.mod_small by lia. by rewrite <-app_assoc.
Qed.

(** ** Envelopes are read as they were written *)

(** The strings are valid UTF-8, the integers of their types, the union well-formed JSON. *)
Definition request_ok (r : Request) : Prop :=
  valid_utf8 (rq_Kind r)
  /\ (forall o, rq_Append r = Some o -> wf_json o)
  /\ (forall s, rq_ReserveRun r = Some s -> valid_utf8 s)
  /\ (forall s, rq_ReleaseRun r = Some s -> valid_utf8 s)
  /\ (forall i, rq_LookupRegistered r = Some i -> valid_utf8 (pi_BootId i) /\ in_i64 (pi_Pid i) /\ in_i64 (pi_ProcessStartTime i))
  /\ (forall x, rq_ResolveInherited r = Some x -> valid_utf8 x.1 /\ valid_utf8 x.2)
  /\ (forall x, rq_BindSession r = Some x -> valid_utf8 x.1 /\ valid_utf8 x.2).

Lemma request_of_value r : request_of (request_value r) = r.
Proof. destruct r as [k [o|] [s|] [s'|] [[]|] [[]|] [[]|]]; reflexivity. Qed.

Lemma response_of_value r : response_of (response_value r) = r.
Proof. destruct r as [s [[]|] [[]|] [[]|] [[]|] [[]|] [x|] [b|]]; reflexivity. Qed.

Lemma envelopes_wire : wire_type RequestType && wire_type ResponseType = true.
Proof. vm_compute. reflexivity. Qed.

Lemma request_typed r : request_ok r -> has_type RequestType (request_value r) /\ kept (fun j => j) (request_value r).
Proof.
  intros (Hk&Ha&Hr&Hl&Hi&Hv&Hb). split.
  - repeat split; apply opt_typed; intros x Hx; repeat split; try apply fits_in_i64; try (by apply (Hi _ Hx)).
  - repeat split; try exact Hk; apply opt_kept; try discriminate; intros x Hx; repeat split; try (by apply Ha); try (by apply Hr); try (by apply Hl);
      try (by apply (Hi _ Hx)); try (by apply (Hv _ Hx)); try (by apply (Hb _ Hx)).
Qed.

(** The strings and integers of a response. *)
Definition response_ok (r : Response) : Prop :=
  valid_utf8 (rp_Status r)
  /\ (forall e, rp_Error r = Some e -> valid_utf8 (eb_Code e) /\ valid_utf8 (eb_Message e))
  /\ (forall a, rp_Append r = Some a -> in_i64 (aa_Sequence a) /\ valid_utf8 (aa_ObservationID a) /\ in_i64 (aa_DurableThrough a))
  /\ (forall a, rp_Reserve r = Some a -> valid_utf8 (ra_RunID a) /\ in_i64 (ra_OpenReserveBytes a) /\ valid_utf8 (ra_Pressure a))
  /\ (forall h, rp_Health r = Some h -> in_i64 (hs_UsedBytes h) /\ in_i64 (hs_OpenReserveBytes h) /\ in_i64 (hs_OpenRuns h)
        /\ in_i64 (hs_AcknowledgedThrough h) /\ in_i64 (hs_HighestDurable h) /\ valid_utf8 (hs_Pressure h) /\ in_i64 (hs_CeilingBytes h))
  /\ (forall a, rp_LookupRegistered r = Some a -> valid_utf8 (la_RunID a))
  /\ (forall s, rp_ResolveInherited r = Some s -> valid_utf8 s).

Lemma response_typed r : response_ok r -> has_type ResponseType (response_value r) /\ kept (fun j => j) (response_value r).
Proof.
  intros (Hs&He&Ha&Hr&Hh&Hl&Hi). split.
  - repeat split; apply opt_typed; intros x Hx; repeat split; try apply fits_in_i64; try (by apply (Ha _ Hx)); try (by apply (Hr _ Hx)); try (by apply (Hh _ Hx)).
  - repeat split; try exact Hs; apply opt_kept; try discriminate; intros x Hx; repeat split;
      try (by apply (He _ Hx)); try (by apply (Ha _ Hx)); try (by apply (Hr _ Hx)); try (by apply (Hh _ Hx)); try (by apply (Hl _ Hx)); try (by apply (Hi _ Hx)).
Qed.

Lemma request_encodes r : exists raw, EncodeRequest r = Some raw.
Proof. destruct r as [k [o|] [s|] [s'|] [[]|] [[]|] [[]|]]; eexists; reflexivity. Qed.

Lemma response_encodes r : exists raw, EncodeResponse r = Some raw.
Proof. destruct r as [s [[]|] [[]|] [[]|] [[]|] [[]|] [x|] [b|]]; eexists; reflexivity. Qed.

Lemma DecodeRequest_encoded r raw : request_ok r -> validate r = Ok tt -> EncodeRequest r = Some raw -> DecodeRequest raw = Ok r.
Proof.
  intros Hr Hv He. destruct (request_typed r Hr) as [Ht Hk]. pose proof envelopes_wire as [Hw _]%andb_prop.
  unfold DecodeRequest. rewrite (decode_strictly_marshalled _ _ _ Hw Ht Hk He). cbn [More skip_ws]. by rewrite request_of_value, Hv.
Qed.

Lemma DecodeResponse_encoded r raw : response_ok r -> EncodeResponse r = Some raw -> DecodeResponse raw = Some r.
Proof.
  intros Hr He. destruct (response_typed r Hr) as [Ht Hk]. pose proof envelopes_wire as [_ Hw]%andb_prop.
  unfold DecodeResponse. rewrite (decode_strictly_marshalled _ _ _ Hw Ht Hk He). by rewrite response_of_value.
Qed.

(** An encoded message is never empty. *)
Lemma Marshal_not_empty t v raw : wire_type t = true -> has_type t v -> kept (fun j => j) v -> Marshal t v = Some raw -> 0 < zlen raw.
Proof.
  intros Hw Ht Hk Hm. destruct (Marshal_reads true t v raw Hw Ht Hk Hm) as (j&Hj&_). unfold zlen.
  destruct raw; [discriminate Hj|cbn; lia].
Qed.

(** C20: the protocol loses nothing: a request whose strings and integers are well formed is encoded, framed,
    read back from the connection whatever follows it, and decoded as itself, if it passes the checks of
    its kind and fits the bound; so is a response. *)
Theorem protocol_roundtrip r p max rest rest' :
  request_ok r -> validate r = Ok tt -> response_ok p -> max < 2 ^ 32 ->
  exists raw raw', EncodeRequest r = Some raw /\ EncodeResponse p = Some raw'
    /\ (zlen raw <= max -> exists framed, writeMessage raw max = Ok framed /\ readMessage (framed ++ rest) max = Ok (raw, rest))
    /\ (zlen raw' <= max -> exists framed, writeMessage raw' max = Ok framed /\ readMessage (framed ++ rest') max = Ok (raw', rest'))
    /\ DecodeRequest raw = Ok r /\ DecodeResponse raw' = Some p.
Proof.
  intros Hr Hv Hp Hmax. destruct (request_encodes r) as [raw He], (response_encodes p) as [raw' He']. exists raw, raw'.
  destruct (request_typed r Hr) as [Ht Hk], (response_typed p Hp) as [Ht' Hk']. pose proof envelopes_wire as [Hw Hw']%andb_prop.
  split; [done|]. split; [done|]. split; [|split; [|split]].
  - intros Hl. apply message_roundtrip; [done|]. split; [by eapply (Marshal_not_empty RequestType)|done].
  - intros Hl. apply message_roundtrip; [done|]. split; [by eapply (Marshal_not_empty ResponseType)|done].
  - by apply DecodeRequest_encoded.
  - by apply DecodeResponse_encoded.
Qed.

(** What a decoded request has: a kind of the closed set, and the body that kind needs, its required
    strings not empty. *)
Definition has_body (r : Request) : Prop :=
  (rq_Kind r = KindAppendObservation /\ is_Some (rq_Append r))
  \/ (rq_Kind r = KindReserveRun /\ exists run, rq_ReserveRun r = Some run /\ run <> [])
  \/ (rq_Kind r = KindReleaseRun /\ exists run, rq_ReleaseRun r = Some run /\ run <> [])
  \/ rq_Kind r = KindStatus
  \/ (rq_Kind r = KindLookupRegisteredProcess /\ exists i, rq_LookupRegistered r = Some i /\ pi_BootId i <> [])
  \/ (rq_Kind r = KindResolveInheritedRun /\ exists x, rq_ResolveInherited r = Some x /\ x.1 <> [])
  \/ (rq_Kind r = KindBindSession /\ exists x, rq_BindSession r = Some x /\ x.1 <> [] /\ x.2 <> []).

Lemma empty_run_false o : empty_run o = false -> exists s, o = Some s /\ s <> [].
Proof. destruct o as [s|]; [|done]. cbn. intros H. apply bool_decide_eq_false_1 in H. by exists s. Qed.

(** Case analysis on the kind a check compares. *)
Ltac on_kind :=
  match goal with |- context [bool_decide (rq_Kind ?r = ?k)] =>
    let Hk := fresh "Hk" in destruct (decide (rq_Kind r = k)) as [Hk|Hk];
      [rewrite (bool_decide_eq_true_2 _ Hk)|rewrite (bool_decide_eq_false_2 _ Hk)] end.

Lemma empty_run_true o s : o = Some s -> s <> [] -> empty_run o = false.
Proof. intros -> Hs. cbn. by apply bool_decide_eq_false_2. Qed.

Lemma validate_Ok r : validate r = Ok tt <-> has_body r.
Proof.
  unfold validate, has_body. split.
  - on_kind; [destruct (rq_Append r); [|done]; intros _; left; eauto|].
    on_kind; [destruct (empty_run _) eqn:E; [done|]; apply empty_run_false in E as (s&?&?); intros _; right; left; eauto|].
    on_kind; [destruct (empty_run _) eqn:E; [done|]; apply empty_run_false in E as (s&?&?); intros _; right; right; left; eauto|].
    on_kind; [intros _; do 3 right; by left|].
    on_kind; [destruct (rq_LookupRegistered r) as [i|]; [|done]; case_bool_decide; [done|]; intros _; do 4 right; left; eauto|].
    on_kind; [destruct (empty_run _) eqn:E; [done|]; apply empty_run_false in E as (s&(x&->&->)%fmap_Some&?); intros _; do 5 right; left; eauto|].
    on_kind; [|done]. destruct (rq_BindSession r) as [x|]; [|done]. cbn. destruct (bool_decide (x.1 = [])) eqn:E1; [done|]. destruct (bool_decide (x.2 = [])) eqn:E2; [done|].
    apply bool_decide_eq_false_1 in E1, E2. intros _. do 6 right. eauto 6.
  - intros [(E&[o ->])|[(E&s&->&Hs)|[(E&s&->&Hs)|[E|[(E&i&->&Hi)|[(E&x&->&Hx)|(E&x&->&Hx&Hy)]]]]]]; rewrite E; cbn [empty_run fmap option_fmap option_map];
      repeat first [rewrite (bool_decide_eq_true_2 (?[a] = ?a)) by reflexivity | rewrite bool_decide_eq_false_2 by done | done].
Qed.

(** ** Witness *)

Definition demo_request : Request := mkRequest KindBindSession None None None None None (Some (str "s", str "r")).
Definition demo_response : Response := mkResponse StatusOK None None None None None None (Some true).

Lemma protocol_roundtrip_witness :
  exists raw raw', EncodeRequest demo_request = Some raw /\ EncodeResponse demo_response = Some raw'
    /\ (zlen raw <= DefaultMaxMessageBytes ->
        exists framed, writeMessage raw DefaultMaxMessageBytes = Ok framed /\ readMessage (framed ++ str "x") DefaultMaxMessageBytes = Ok (raw, str "x"))
    /\ (zlen raw' <= DefaultMaxMessageBytes ->
        exists framed, writeMessage raw' DefaultMaxMessageBytes = Ok framed /\ readMessage (framed ++ []) DefaultMaxMessageBytes = Ok (raw', []))
    /\ DecodeRequest raw = Ok demo_request /\ DecodeResponse raw' = Some demo_response.
Proof.
  apply (protocol_roundtrip demo_request demo_response DefaultMaxMessageBytes (str "x") []).
  - split; [by apply ascii_utf8|]. do 5 (split; [done|]). intros x [= <-]. split; by apply ascii_utf8.
  - reflexivity.
  - split; [by apply ascii_utf8|]. by repeat split.
  - vm_compute. reflexivity.
Defined.
