(* ===== verification/Startup.v ===== *)
(** * Starting the writer (NewSpoolWriter of [internal/observer/local/server_unix.go])

    What startup makes of every directory a crash can leave, and of a fresh one; what it leaves when calls
    of its own fail or it crashes, a run that succeeds in spite of faults being the run without them
    ([agrees]); that an append without faults is accepted; and what a restart finds after a crash at any point
    of an append. *)

From S2P Require Import Prelude Hash SpoolTypes Frame Fs GoStrings Segment Sidecar Recover Durability Compact.
From S2P Require Import Ack Json Reserves Capacity WalEnds Writer.

(** ** Directories *)

(** No directory lies in [wal/]. *)
Definition no_dirs (d : disk) : Prop := forall x, entries DWal d !! x <> Some EDir.

Lemma no_dirs_put name c d : no_dirs d -> no_dirs (put DWal name (EFile c) d).
Proof.
  intros H x. rewrite entries_put. destruct (decide (x = name)) as [->|]; [by rewrite lookup_insert_eq|].
  rewrite lookup_insert_ne by done. apply H.
Qed.

Lemma no_dirs_entries d d' : entries DWal d' = entries DWal d -> no_dirs d -> no_dirs d'.
Proof. intros E H x. rewrite E. apply H. Qed.

Lemma no_dirs_preserved d0 d : preserved d0 d -> no_dirs d0 -> no_dirs d.
Proof.
  intros [_ [He|(base&h&fs&tail&diag&fr&n&_&_&_&_&He&_)]] H; [by eapply no_dirs_entries|]. intros x. rewrite He.
  destruct (decide (x = base)) as [->|]; [by rewrite lookup_insert_eq|]. rewrite lookup_insert_ne by done. apply H.
Qed.

Lemma no_dirs_Append ev s f : crash_triple no_dirs (Append ev s f) no_dirs (fun _ => no_dirs) no_dirs.
Proof.
  unfold Append. destruct (nextExpected s); [|by apply ct_err].
  apply (ct_bind _ _ _ _ _ (fun _ => no_dirs)).
  { intros d Hd. cbn. split; [constructor|]. by destruct (EncodeFrame f). }
  intros x. destruct (negb _); [by apply ct_err|]. destruct (_ <? _); [by apply ct_err|].
  apply (ct_bind _ _ _ _ _ (fun _ => no_dirs)); [|intros []; by apply ct_ret].
  apply (ct_cleanup _ _ _ _ _ _ no_dirs).
  - apply (ct_bind _ _ _ _ _ (fun _ => no_dirs)); [|intros []; by apply ct_check].
    apply ct_writeAt. intros d k Hd. split_and!; try (intros _); by apply no_dirs_put.
  - unfold rollback, io_truncate. apply ct_call. intros d Hd. split_and!; [done| |done]. by apply no_dirs_put.
Qed.

Lemma no_dirs_Create ev opts : crash_triple no_dirs (CreateSegment ev opts) no_dirs (fun _ => no_dirs) no_dirs.
Proof.
  unfold CreateSegment. destruct (_ <? 1); [by apply ct_err|].
  apply (ct_bind _ _ _ _ _ (fun _ => no_dirs)).
  { apply ct_ensureDir. intros d Hd. eapply no_dirs_entries; [apply entries_set|done]. }
  intros []. apply (ct_bind _ _ _ _ _ (fun _ => no_dirs)).
  { intros d Hd. cbn. split; [constructor|]. by destruct (encodeSegmentHeader _). }
  intros hdr. apply (ct_bind _ _ _ _ _ (fun _ => no_dirs)).
  { apply ct_create_excl. intros d Hd. split_and!; [done|done|]. intros _. by apply no_dirs_put. }
  intros []. apply (ct_bind _ _ _ _ _ (fun _ => no_dirs)); [by apply ct_check|].
  intros []. apply (ct_bind _ _ _ _ _ (fun _ => no_dirs)).
  { apply ct_writeAt. intros d k Hd. split_and!; try (intros _); by apply no_dirs_put. }
  intros []. apply (ct_bind _ _ _ _ _ (fun _ => no_dirs)); [by apply ct_check|].
  intros []. apply (ct_bind _ _ _ _ _ (fun _ => no_dirs)); [apply ct_fsyncDir|]. intros []. by apply ct_ret.
Qed.

Lemma ct_try_same {A} P (m : IO A) :
  crash_triple P m P (fun _ => P) P -> crash_triple P (io_try m) P (fun _ => P) P.
Proof. intros H d Hd. specialize (H d Hd). unfold io_try. by destruct (m d) as [[t []] d']. Qed.

Lemma no_dirs_AppendObservation ev obs w :
  crash_triple no_dirs (AppendObservation ev obs w) no_dirs (fun _ => no_dirs) no_dirs.
Proof.
  unfold AppendObservation. cbv zeta. destruct (restampObservation _ _ _); [|by apply ct_ret].
  apply (ct_bind _ _ _ _ _ (fun _ => no_dirs)); [|intros [[]]; by apply ct_ret].
  unfold appendFrameLocked.
  apply (ct_bind _ _ _ _ _ (fun _ => no_dirs)); [apply ct_try_same, no_dirs_Append|].
  intros [s|e]; [by apply ct_ret|]. destruct e; try by apply ct_ret.
  apply (ct_bind _ _ _ _ _ (fun _ => no_dirs)); [by apply ct_try_same, ct_check|].
  intros [[]|e]; [|by apply ct_ret]. cbv zeta.
  apply (ct_bind _ _ _ _ _ (fun _ => no_dirs)); [apply ct_try_same, no_dirs_Create|].
  intros [s|e]; [|by apply ct_ret].
  apply (ct_bind _ _ _ _ _ (fun _ => no_dirs)); [apply ct_try_same, no_dirs_Append|].
  intros [s'|e]; by apply ct_ret.
Qed.

(** ** Faults that do not show *)

(** The same surroundings without faults. *)
Definition calm (ev : env) : env := mkEnv no_faults 0 (e_tmp ev) (e_now ev).

(** Where the one run succeeds the other yields the same. *)
Definition agrees {A} (m m0 : IO A) : Prop := forall d t a d', m d = (t, Ok a, d') -> exists t0, m0 d = (t0, Ok a, d').

Section agreement.
Context (ev : env).

Lemma ag_refl {A} (m : IO A) : agrees m m.
Proof. intros d t a d' H. by exists t. Qed.

Lemma ag_bind {A B} (m m0 : IO A) (f f0 : A -> IO B) : agrees m m0 -> (forall a, agrees (f a) (f0 a)) -> agrees (io_bind m f) (io_bind m0 f0).
Proof.
  intros Hm Hf d t b d'. unfold io_bind. destruct (m d) as [[t1 [a|e]] d1] eqn:E; [|done].
  destruct (f a d1) as [[t2 r] d2] eqn:E2. intros [= _ -> ->]. destruct (Hm _ _ _ _ E) as [t3 ->], (Hf a _ _ _ _ E2) as [t4 ->]. eauto.
Qed.

Lemma ag_cleanup {A} (m m0 : IO A) c c0 : agrees m m0 -> agrees (io_cleanup m c) (io_cleanup m0 c0).
Proof.
  intros Hm d t b d'. unfold io_cleanup. destruct (m d) as [[t1 [a|e]] d1] eqn:E.
  - intros [= _ -> ->]. destruct (Hm _ _ _ _ E) as [t3 ->]. eauto.
  - by destruct (c d1) as [[? ?] ?].
Qed.

Lemma ag_call op name f : agrees (io_call ev op name f) (io_call (calm ev) op name f).
Proof. intros d t a d'. unfold io_call. destruct (e_flt ev op name); [done|]. intros [= _ -> ->]. cbn. eauto. Qed.

Lemma ag_check op name : agrees (io_check ev op name) (io_check (calm ev) op name).
Proof. apply ag_call. Qed.

Lemma ag_writeAt n name off data : agrees (io_writeAt ev n name off data) (io_writeAt (calm ev) n name off data).
Proof. intros d t a d'. unfold io_writeAt. destruct (e_flt ev IoWrite name); [done|]. intros [= _ -> <-]. eauto. Qed.

Lemma ag_rename n x y : agrees (io_rename ev n x y) (io_rename (calm ev) n x y).
Proof.
  intros d t a d'. unfold io_rename. destruct (entries n d !! x); [|done]. destruct (e_flt ev IoRename x); [done|].
  intros [= _ -> <-]. cbn. eauto.
Qed.

Lemma ag_remove n name : agrees (removeFile ev n name) (removeFile (calm ev) n name).
Proof. intros d t a d'. unfold removeFile. destruct (e_flt ev IoRemove name); [done|]. cbn. by destruct (entries n d !! name); intros [= _ -> <-]; eauto. Qed.

Lemma ag_open n name : agrees (io_open ev n name) (io_open (calm ev) n name).
Proof. intros d t a d'. unfold io_open. destruct (file n name d); [apply ag_check|done]. Qed.

Lemma ag_readFile n name : agrees (readFile ev n name) (readFile (calm ev) n name).
Proof. apply ag_bind; [apply ag_check|]. intros _. apply ag_refl. Qed.

Lemma ag_readDir n name : agrees (readDir ev n name) (readDir (calm ev) n name).
Proof. apply ag_bind; [apply ag_check|]. intros _. apply ag_refl. Qed.

Lemma ag_fsyncDir n : agrees (fsyncDir ev n) (fsyncDir (calm ev) n).
Proof. apply ag_bind; [apply ag_check|]. intros _. apply ag_check. Qed.

(** Whether the new entry is synced may differ. *)
Lemma ag_ensureDir n : agrees (ensureDir ev n) (ensureDir (calm ev) n).
Proof.
  intros d t a d' E. destruct (run_ensureDir (calm ev) (fun _ _ => eq_refl) n d) as [t0 E0]. exists t0. rewrite E0. destruct a.
  assert (Hd : crash_triple (eq d) (ensureDir ev n) (fun _ => True) (fun _ d' => d' = set_dir n (entries n d) d) (fun _ => True)).
  { intros d1 <-. unfold ensureDir. set (c := match get_dir n d with None => _ | Some _ => _ end). unfold io_bind, io_check, io_call.
    destruct (e_flt ev IoMkdir _); [by repeat constructor|]. destruct (e_flt ev IoChmod _); [by repeat constructor|].
    destruct (c && _); [|by repeat constructor]. unfold fsyncDir, io_bind, io_check, io_call.
    destruct (e_flt ev IoOpen _); [by repeat constructor|]. destruct (e_flt ev IoDirSync _); by repeat constructor. }
  specialize (Hd d eq_refl). rewrite E in Hd. by destruct Hd as [_ ->].
Qed.

Lemma ag_loop {S A} data body body0 (finish : nat -> S -> IO A) oof fuel :
  (forall off fr n st s, match body off fr n st s, body0 off fr n st s with
     | inl x, inl y => x = y | inr m, inr m0 => agrees m m0 | _, _ => False end) ->
  forall off s, agrees (frames_loop fuel data body finish oof off s) (frames_loop fuel data body0 finish oof off s).
Proof.
  intros Hb. induction fuel as [|fuel IH]; intros off s; cbn [frames_loop]; [apply ag_refl|]. destruct (_ <? _)%nat; [|apply ag_refl].
  destruct (DecodeFrame _) as [[fr n] st]. specialize (Hb off fr n st s).
  destruct (body off fr n st s), (body0 off fr n st s); try done. subst. apply IH.
Qed.
End agreement.

Create HintDb agree.
#[export] Hint Resolve ag_refl ag_call ag_check ag_writeAt ag_rename ag_remove ag_open ag_readFile ag_readDir ag_fsyncDir ag_ensureDir : agree.

(** Two runs of one command, call by call. *)
Ltac agree :=
  lazymatch goal with
  | |- agrees (io_bind _ _) _ => apply ag_bind; [agree|intros ?; agree]
  | |- agrees (io_cleanup _ _) _ => apply ag_cleanup; agree
  | |- agrees (match ?x with _ => _ end) _ => destruct x; agree
  | |- _ => auto with agree
  end.

Lemma ag_atomicWriteFile ev n name data : agrees (atomicWriteFile ev n name data) (atomicWriteFile (calm ev) n name data).
Proof. unfold atomicWriteFile. change (e_tmp (calm ev)) with (e_tmp ev). agree. Qed.
#[export] Hint Resolve ag_atomicWriteFile : agree.

Lemma ag_readIdentity ev : agrees (readIdentity ev) (readIdentity (calm ev)).
Proof. unfold readIdentity. agree. Qed.
Lemma ag_readAck ev : agrees (readAck ev) (readAck (calm ev)).
Proof. unfold readAck. agree. Qed.
Lemma ag_mustReadFile ev n name : agrees (mustReadFile ev n name) (mustReadFile (calm ev) n name).
Proof. unfold mustReadFile. agree. Qed.
Lemma ag_listSegments ev : agrees (listSegments ev) (listSegments (calm ev)).
Proof. unfold listSegments. agree. Qed.
#[export] Hint Resolve ag_readIdentity ag_readAck ag_mustReadFile ag_listSegments : agree.

Lemma ag_truncateTornTail ev base data validEnd rec : agrees (truncateTornTail ev base data validEnd rec) (truncateTornTail (calm ev) base data validEnd rec).
Proof. unfold truncateTornTail, writeRecoveryDiagnostic, diagnostic_name. change (e_now (calm ev)) with (e_now ev). unfold io_truncate. agree. Qed.
#[export] Hint Resolve ag_truncateTornTail : agree.

Lemma ag_recoverSegment ev base rec ip isrc binding expected isLast :
  agrees (recoverSegment ev base rec ip isrc binding expected isLast) (recoverSegment (calm ev) base rec ip isrc binding expected isLast).
Proof.
  unfold recoverSegment. apply ag_bind; [auto with agree|]. intros data. destruct (decodeSegmentHeader data) as [[hdr n]|]; [|agree].
  apply ag_bind; [apply ag_refl|]. intros rec'. apply ag_bind; [apply ag_refl|]. intros e'. destruct (_ && _); [apply ag_refl|].
  apply ag_loop. intros off fr k st [r e]. destruct st; cbn [recover_body].
  - destruct (negb _); [apply ag_refl|done].
  - agree.
  - apply ag_refl.
Qed.

Lemma ag_recover_segments ev ip isrc binding segs : forall rec expected,
  agrees (recover_segments ev segs ip isrc binding rec expected) (recover_segments (calm ev) segs ip isrc binding rec expected).
Proof.
  induction segs as [|base rest IH]; intros rec expected; [apply ag_refl|]. cbn [recover_segments].
  apply ag_bind; [apply ag_recoverSegment|]. intros [r e]. apply IH.
Qed.
#[export] Hint Resolve ag_recover_segments : agree.

(** What recovery reports, and what it leaves, does not depend on the faults it got past. *)
Lemma ag_recover ev binding : agrees (recover ev binding) (recover (calm ev) binding).
Proof. unfold recover. agree. Qed.

Lemma ag_OpenSegment ev name opts : agrees (OpenSegment ev name opts) (OpenSegment (calm ev) name opts).
Proof. unfold OpenSegment. agree. Qed.
Lemma ag_LoadAckState ev h m : agrees (LoadAckState ev h m) (LoadAckState (calm ev) h m).
Proof. unfold LoadAckState. agree. Qed.
Lemma ag_LoadReserves ev fixed : agrees (LoadReserves ev fixed) (LoadReserves (calm ev) fixed).
Proof. unfold LoadReserves, readReserves. agree. Qed.

(** The last segment of a log, as it is opened again. *)
Lemma last_reopens id ver first l h fs d :
  wal_holds id ver first (l ++ [(h, fs)]) [] d ->
  exists s, sg_name s = segmentFilename (sh_FirstSequence h) /\ seg_inv s fs d /\ sg_ceiling s = DefaultSegmentCeiling /\ sg_header s = h
    /\ (fs <> [] -> first + zlen (log_frames (l ++ [(h, fs)])) <= MaxInt64 -> i64 (sg_last s + 1) = first + zlen (log_frames (l ++ [(h, fs)])))
    /\ forall ev, (forall op name, e_flt ev op name = false) -> OpenSegment ev (sg_name s) (segment_options [] 0 0 0) d = ([d; d], Ok s, d).
Proof.
  intros (Hmin&Hch&_&Hfl). apply chained_snoc in Hch as (Hch&Hh&_&_&Hf&Hfw&Hc). apply log_files_snoc in Hfl as [_ Hfile]. rewrite app_nil_r in Hfile.
  unfold SequenceMin in Hmin. pose proof (zlen_nonneg (log_frames l)). pose proof (zlen_nonneg fs).
  set (s := mkSegment (segmentFilename (sh_FirstSequence h)) h DefaultSegmentCeiling (zlen (segment_bytes h fs)) (last_seq fs)).
  assert (Hs : seg_inv s fs d) by (unfold seg_inv, SequenceMin; rewrite <-Hf in Hc; split_and!; try done; cbn; lia).
  exists s. split_and!; try done.
  - intros Hne Hm. cbn [sg_last s]. rewrite (last_seq_contiguous _ _ Hc) by done. rewrite log_frames_snoc, zlen_app in *.
    rewrite i64_id by (unfold in_i64; lia). lia.
  - intros ev Hflt. exact (open_complete ev s fs d (segment_options [] 0 0 0) Hs eq_refl (Hflt _ _) (Hflt _ _)).
Qed.

(** What the acknowledgement state of a start takes for the durable end. *)
Lemma ack_end first a fs :
  0 <= a <= MaxInt64 -> contiguous first fs -> in_step first fs a -> first + zlen fs <= MaxInt64 ->
  last_seq fs <= MaxInt64 /\ Z.max a (last_seq fs) = first + zlen fs - 1.
Proof.
  intros Ha Hc [Hlt He] Hmax. destruct (decide (fs = [])) as [->|Hne].
  - change (last_seq []) with 0. specialize (He eq_refl). change (zlen []) with 0 in *. unfold MaxInt64 in *. lia.
  - rewrite (last_seq_contiguous _ _ Hc) by done. lia.
Qed.

(** ** Startup *)

Section startup.
Context (ev : env) (Hflt : forall op name, e_flt ev op name = false).
Context (id : bytes) (ver first a : Z).

(** What recovery hands to the rest of startup: the log with no empty segment at its end, and perhaps one
    more file whose name it reports for reclaim. *)
Definition recovered_shape (fs : list Frame) (rec : Recovery) (l : wal_log) (d : disk) : Prop :=
  log_frames l = fs /\ ends_full l /\ SequenceMin <= first /\ chained id ver first l /\ log_files d l []
  /\ match rc_EmptyTrailingSegment rec with
     | None => seg_names (entries DWal d) = log_names l
     | Some (dir, name) => dir = DWal /\ seg_names (entries DWal d) = log_names l ++ [name]
     end.

Lemma recovered_entries fs rec l d d' : entries DWal d' = entries DWal d -> recovered_shape fs rec l d -> recovered_shape fs rec l d'.
Proof. intros E (?&?&?&?&Hfl&Hn). unfold recovered_shape. rewrite E. split_and!; try done. by eapply log_files_entries. Qed.

Lemma startup_recover fs d :
  bound_controls id ver a d -> crash_shape id ver first fs d ->
  exists t rec d1 l, RecoverBound ev id ver d = (t, Ok rec, d1) /\ d_root d1 = d_root d
    /\ rc_SourceID rec = id /\ rc_HighestDurableSequence rec = last_seq fs
    /\ (rc_NextSequence rec, rc_Exhausted rec) = nextSequence (last_seq fs) a
    /\ recovered_shape fs rec l d1.
Proof.
  intros Hctl (l&Hfr&Hshape). pose proof Hctl as (Hid&Ha&Hi&Hk). unfold RecoverBound.
  assert (Hb : bound (Some (mkBinding id ver)) id ver) by by right.
  destruct Hshape as [(tail&Hw&Ht)|(h&k&Hint&Hf)].
  - destruct l as [|[h fs1] l _] using rev_ind.
    + pose proof Hw as (Hmin&_&Hn&_).
      pose proof (recover_present ev Hflt _ id ver a _ [] _ d d Hid Ha Hi Hk Hb Hn eq_refl) as E.
      eexists _, _, d, []. split; [exact E|]. subst fs. cbn [rc_SourceID with_next].
      split_and!; try done. by destruct (nextSequence _ _).
    + assert (Hctl' : controls id ver a d) by (split; [done|]; split; [done|]; split; [by right|done]).
      destruct (recover_run ev _ id ver first _ tail a d Hflt Hctl' Hb Hw Ht) as (t&rec&d1&E&Hw1&Hr&Hh&_&Hnext&Hrest).
      destruct (Hrest ltac:(by destruct l)) as (Hsrc&_&_&Hempty). rewrite last_snoc in Hempty.
      rewrite Hfr in *. destruct fs1 as [|g fs1].
      * exists t, rec, d1, l. split; [exact E|]. split_and!; try done. rewrite log_frames_snoc, app_nil_r in Hfr.
        pose proof (holds_ends_full _ _ _ _ _ _ _ Hw1) as Hends.
        destruct Hw1 as (Hmin&Hch&Hn&Hfl). apply chained_snoc in Hch as (Hch&_). apply log_files_snoc in Hfl as [Hfl _].
        split_and!; try done. rewrite Hempty. split; [done|]. by rewrite Hn, log_names_snoc.
      * exists t, rec, d1, (l ++ [(h, g :: fs1)]). split; [exact E|]. split_and!; try done.
        destruct Hw1 as (Hmin&Hch&Hn&Hfl). split_and!; try done; [unfold ends_full; by rewrite last_snoc|by rewrite Hempty].
  - destruct (recover_interrupted ev Hflt _ id ver first l h k a d Hctl Hb Hint) as (t&rec&E&Hsrc&_&Hh&_&Hnext&_&Hempty).
    rewrite Hfr in *. destruct Hint as (Hmin&Hch&Hok&Hs&Hn&Hfl&Hfile&Hlt).
    exists t, rec, d, l. split; [exact E|]. split_and!; try done. split_and!; try done.
    + eapply names_ends_full; [exact Hch|]. by rewrite Hn, Hf, Hfr.
    + by rewrite Hempty.
Qed.

(** The slot startup frees. *)
Lemma startup_reclaim fs rec l d :
  recovered_shape fs rec l d ->
  exists t b d1, ReclaimEmptyTrailingSegment ev (Some rec) d = (t, Ok b, d1) /\ d_root d1 = d_root d
    /\ wal_holds id ver first l [] d1.
Proof.
  intros (Hfr&Hends&Hmin&Hch&Hfl&Hempty). unfold ReclaimEmptyTrailingSegment. cbn [mbind option_bind].
  destruct (rc_EmptyTrailingSegment rec) as [[dir name]|].
  2: { eexists _, _, d. split; [reflexivity|]. by split_and!. }
  destruct Hempty as [-> Hn]. rewrite bool_decide_eq_true_2 by done. cbn [negb].
  assert (Hin : name ∈ seg_names (entries DWal d)) by (rewrite Hn; apply elem_of_app; right; by apply list_elem_of_singleton).
  apply seg_names_elem in Hin as (_&c&Hc).
  destruct (names_dropped l name d (del DWal name d) Hn Hfl (entries_del _ _ _)) as [Hn' Hfl'].
  unfold io_bind, removeFile. rewrite Hflt, Hc. unfold fsyncDir, io_bind, io_check.
  rewrite !(run_call ev Hflt). eexists _, _, _. split; [reflexivity|]. split; [done|]. by split_and!.
Qed.


Lemma ct_no_dirs_reclaim rec d : no_dirs d -> no_dirs (ReclaimEmptyTrailingSegment ev (Some rec) d).2.
Proof.
  intros H. unfold ReclaimEmptyTrailingSegment. cbn [mbind option_bind].
  destruct (rc_EmptyTrailingSegment rec) as [[dir name]|]; [|done]. destruct (negb _); [done|].
  unfold io_bind, removeFile. rewrite Hflt. destruct (entries DWal d !! name); [|done].
  unfold fsyncDir, io_bind, io_check. rewrite !(run_call ev Hflt). cbn [snd io_ret]. intros x.
  unfold Datatypes.id. rewrite entries_del. intros [_ E]%lookup_delete_Some. by apply (H x).
Qed.

(** Without faults a creation under a free name succeeds. *)
Lemma run_create opts d :
  header_ok (so_header opts) -> 1 <= sh_FirstSequence (so_header opts) ->
  entries DWal d !! segmentFilename (sh_FirstSequence (so_header opts)) = None ->
  exists t s d1, CreateSegment ev opts d = (t, Ok s, d1).
Proof.
  intros Hh Hf Hn. unfold CreateSegment. rewrite (proj2 (Z.ltb_ge _ _)) by lia.
  destruct (run_ensureDir ev Hflt DWal d) as [t1 E1]. eapply bind_run; [exact E1|].
  rewrite (encodeSegmentHeader_ok _ Hh). eapply bind_run; [reflexivity|]. cbv zeta.
  eapply bind_run.
  { unfold io_create_excl. rewrite entries_set, Hn. by apply run_call. }
  eapply bind_run; [by apply run_call|]. eapply bind_run; [unfold io_writeAt; rewrite Hflt; reflexivity|].
  eapply bind_run; [by apply run_call|].
  eapply bind_run; [unfold fsyncDir, io_bind, io_check; rewrite !(run_call ev Hflt); reflexivity|].
  eexists _, _, _. reflexivity.
Qed.

(** The segment startup opens or creates. *)
Lemma startup_segment l d :
  identity_ok id ver -> in_i64 (e_now ev) -> no_dirs d -> wal_holds id ver first l [] d -> ends_full l ->
  first + zlen (log_frames l) <= MaxInt64 ->
  exists t s d1 l' fs', openOrCreateSegment ev id ver (first + zlen (log_frames l)) d = (t, Ok s, d1)
    /\ d_root d1 = d_root d /\ log_frames l' ++ fs' = log_frames l
    /\ seg_inv s fs' d1 /\ sg_name s = segmentFilename (sh_FirstSequence (sg_header s))
    /\ sg_ceiling s = DefaultSegmentCeiling /\ wal_holds id ver first (l' ++ [(sg_header s, fs')]) [] d1
    /\ no_dirs d1.
Proof.
  intros [Hver Hid] Hnow Hdirs Hw Hends Hmax. set (next := first + zlen (log_frames l)).
  pose proof Hw as (Hmin&Hch&Hn&Hfl). unfold SequenceMin in Hmin. pose proof (zlen_nonneg (log_frames l)) as Hz.
  unfold openOrCreateSegment. cbv zeta.
  assert (El : listSegmentFiles ev d = ([d], Ok (log_names l), d)) by (rewrite <-Hn; by apply run_listSegments).
  unfold io_bind at 1. rewrite El. clear El.
  destruct l as [|[h fs] l _] using rev_ind.
  - cbn [log_names fmap list_fmap last]. set (opts := segment_options id ver next (e_now ev)).
    assert (Hh : header_ok (so_header opts)).
    { split; [exact Hid|]. split; [|by split]. cbn. unfold in_i64. lia. }
    assert (Hfree : entries DWal d !! segmentFilename next = None).
    { destruct (entries DWal d !! segmentFilename next) as [[c|]|] eqn:E; [|by destruct (Hdirs _ E)|done].
      assert (Hin : segmentFilename next ∈ seg_names (entries DWal d)).
      { apply seg_names_elem. split; [apply Ext_segmentFilename|eauto]. }
      rewrite Hn in Hin. by apply elem_of_nil in Hin. }
    destruct (run_create opts d Hh ltac:(cbn; lia) Hfree) as (t&s&d1&E).
    pose proof (ct_and _ _ _ _ _ _ _ _ (create_spec ev opts d Hh) (create_root ev opts d)) as Hs.
    specialize (Hs d eq_refl). rewrite E in Hs. destruct Hs as [_ [(Es&Hs&Hc) Hroot]].
    destruct (wal_created id ver first [] (so_header opts) d _ d1 Hw Hends Hh eq_refl eq_refl eq_refl Hc) as [Hi|[_ Hi]].
    { destruct Hi as (_&_&_&_&_&_&_&Hlt). exfalso. exact (Nat.lt_irrefl _ Hlt). }
    pose proof (no_dirs_Create ev opts d Hdirs) as Hd1. rewrite E in Hd1. destruct Hd1 as [_ Hd1].
    exists (d :: t), s, d1, [], []. unfold next, opts in *. rewrite E. subst s. split_and!; try done.
  - rewrite log_names_snoc, last_snoc. unfold seg_file_name. cbn [fst].
    destruct (last_reopens id ver first l h fs d Hw) as (s&Hname&Hs&Hc&Hh&Hlast&Ho). rewrite <-Hname.
    unfold io_bind at 1, io_try at 1. rewrite (Ho ev Hflt).
    assert (Hne : fs <> []) by (unfold ends_full in Hends; rewrite last_snoc in Hends; by destruct fs).
    rewrite (Hlast Hne Hmax). fold next. rewrite Z.eqb_refl. eexists _, s, d, l, fs. split; [reflexivity|]. rewrite log_frames_snoc, Hh. by split_and!.
Qed.

(** The configuration is usable and names this source. *)
Definition config_ok (cfg : SpoolConfig) (cm : CapacityModel) : Prop :=
  sc_Dir cfg <> [] /\ cleans_to_root (sc_Dir cfg) = false /\ sc_SourceID cfg = id
  /\ (if sc_FormatVersion cfg =? 0 then CurrentFormatVersion else sc_FormatVersion cfg) = ver
  /\ NewCapacityModel (sc_Capacity cfg) = Ok cm.

(** The reserves sidecar is absent or decodes to this set. *)
Definition reserves_readable (open : runset) (d : disk) : Prop :=
  (file DRoot reservesFilename d = None /\ open = ∅)
  \/ exists data, file DRoot reservesFilename d = Some data /\ decodeReserves data = Ok open.

Lemma file_root n d d' : d_root d' = d_root d -> file DRoot n d' = file DRoot n d.
Proof. intros E. unfold file, entries. cbn. by rewrite E. Qed.

Lemma run_LoadReserves fixed open d : reserves_readable open d -> LoadReserves ev fixed d = ([d], Ok (mkReserves fixed open), d).
Proof.
  intros H. unfold LoadReserves, readReserves, io_bind. rewrite (run_readFile ev Hflt).
  destruct H as [[-> ->]|(data&->&E)]; [done|]. unfold io_of. by rewrite E.
Qed.

Lemma run_LoadAckState highest d :
  bound_controls id ver a d -> highest <= MaxInt64 ->
  LoadAckState ev highest 0 d
  = ([d], Ok (mkAckState a (Z.max a highest) DefaultMaxInFlightRecords None), d).
Proof.
  intros (_&Ha&_&Hk) Hh. unfold LoadAckState, io_bind. rewrite (run_readAck ev Hflt a d Ha) by tauto.
  cbn [io_ret app]. assert (E : default 0 (if bool_decide (file DRoot ackFilename d = None) then None else Some a) = a).
  { destruct Hk as [[Hk ->]|Hk]; rewrite Hk; done. }
  rewrite E. do 3 f_equal. unfold maxInFlightOrDefault. cbn. f_equal. destruct (_ <? _) eqn:El; bool_to_prop; lia.
Qed.

Lemma startup_run cfg cm open fs d :
  config_ok cfg cm -> bound_controls id ver a d -> reserves_readable open d -> crash_shape id ver first fs d ->
  in_step first fs a -> no_dirs d -> in_i64 (e_now ev) -> first + zlen fs <= MaxInt64 ->
  exists t w d1 l' fs', NewSpoolWriter ev cfg d = (t, Ok w, d1) /\ d_root d1 = d_root d
    /\ sw_sourceID w = id /\ sw_formatVersion w = ver /\ rs_open (sw_reserves w) = open
    /\ log_frames l' ++ fs' = fs /\ writer_ready first a l' fs' w d1 /\ no_dirs d1.
Proof.
  intros (Hdir&Hroot0&Hid&Hver&Hcm) Hctl Hres Hshape Hstep Hdirs Hnow Hmax. pose proof Hctl as (Hiok&Ha&Hi&Hk).
  destruct (startup_recover fs d Hctl Hshape) as (t1&rec&d1&l&E1&R1&Hsrc&Hhi&Hnext&Hrec).
  pose proof (ct_recover ev d (Some (mkBinding id ver)) d eq_refl) as Hp. unfold RecoverBound in E1. rewrite E1 in Hp.
  destruct Hp as [_ Hp]. pose proof (no_dirs_preserved _ _ Hp Hdirs) as Hdirs1.
  assert (Hdirs1' : no_dirs (set_dir DWal (entries DWal d1) d1)) by (eapply no_dirs_entries; [apply entries_set|done]).
  set (d2 := set_dir DWal (entries DWal d1) d1) in *.
  assert (Ed2 : entries DWal d2 = entries DWal d1) by apply entries_set.
  assert (Hrec2 : recovered_shape fs rec l d2) by by eapply recovered_entries.
  destruct (startup_reclaim fs rec l d2 Hrec2) as (t3&b&d3&E3&R3&Hw3).
  destruct Hrec as (Hfr&Hends&Hmin&Hch&_).
  pose proof (chained_contiguous _ _ _ _ Hch) as Hcont. rewrite Hfr in Hcont. unfold SequenceMin in Hmin.
  rewrite (next_in_step first fs a Hmin ltac:(lia) Hcont Hstep Hmax) in Hnext. injection Hnext as Hn _.
  pose proof (ct_no_dirs_reclaim rec d2 Hdirs1') as Hdirs3. rewrite E3 in Hdirs3.
  destruct (startup_segment l d3 Hiok Hnow Hdirs3 Hw3 Hends ltac:(by rewrite Hfr)) as (t4&s&d4&l'&fs'&E4&R4&Hfr'&Hs&Hname&Hceil&Hw4&Hd4).
  rewrite Hfr in *.
  assert (R : d_root d4 = d_root d) by (rewrite R4, R3; exact R1).
  assert (Hctl4 : bound_controls id ver a d4) by (eapply bound_controls_root; [symmetry; exact R|done]).
  assert (Hres4 : reserves_readable open d4) by (unfold reserves_readable; by rewrite (file_root _ _ _ R)).
  destruct (ack_end first a fs ltac:(lia) Hcont Hstep Hmax) as [Hlm Hmx].
  assert (Ebind : BindIdentity ev id ver d1 = ([d1], Ok tt, d1)).
  { rewrite (BindIdentity_read ev id ver d1 (Hflt _ _)). unfold bind_result.
    rewrite (file_root _ _ _ R1), Hi, (decode_identity _ _ Hiok). by rewrite bool_decide_eq_true_2. }
  unfold NewSpoolWriter. rewrite bool_decide_eq_false_2, Hroot0, Hid, Hver, Hcm by done.
  assert (Hne : id <> []) by (destruct Hiok as [Hl _]; intros E; rewrite E in Hl; unfold zlen in Hl; cbn in Hl; lia).
  rewrite bool_decide_eq_false_2 by done. cbv zeta.
  unfold io_of at 1, io_bind at 1. unfold RecoverBound. unfold io_bind at 1. rewrite E1.
  rewrite Hsrc, bool_decide_eq_false_2 by done. cbn [andb].
  unfold io_bind at 1. rewrite Ebind. unfold io_bind at 1. rewrite (run_call ev Hflt).
  unfold io_bind at 1, io_check at 1. rewrite (run_call ev Hflt). cbn [Datatypes.id]. fold d2.
  unfold io_bind at 1. rewrite E3. unfold io_bind at 1. rewrite Hn, E4. rewrite Hhi.
  unfold io_bind at 1, io_cleanup at 1. rewrite (run_LoadAckState _ _ Hctl4 Hlm).
  unfold io_bind at 1, io_cleanup at 1. rewrite (run_LoadReserves _ _ _ Hres4).
  eexists _, _, d4, l', fs'. split; [reflexivity|]. cbn [sw_sourceID sw_formatVersion sw_reserves rs_open].
  split; [done|]. split; [done|]. split; [done|]. split; [done|]. split; [done|]. split; [|exact Hd4]. split.
  - unfold writer_inv. cbn [sw_closed sw_seg sw_sourceID sw_formatVersion]. rewrite Hfr'. by split_and!.
  - cbn [sw_ack]. rewrite Hfr', Hmx. unfold ack_tracks, ack_wf. cbn.
    destruct Hstep as [Hlt _]. split_and!; try done; lia.
Qed.
End startup.

(** ** A start under faults *)

(** The frames of a file and what follows them are one reading. *)
Lemma frames_unique fs fs' tail tail' :
  Forall frame_wf fs -> Forall frame_wf fs' -> log_end tail -> log_end tail' -> frames_bytes fs ++ tail = frames_bytes fs' ++ tail' -> tail = tail'.
Proof.
  assert (Hne : forall f k t t', frame_wf f -> log_end t -> t = frames_bytes (f :: k) ++ t' -> False).
  { intros f k t t' [Hok _] He ->. rewrite frames_bytes_cons, <-app_assoc in He. destruct He as [E|(fr&n&st&E&Hst)].
    - apply (f_equal length) in E. rewrite length_app, length_frame_bytes in E. cbn in E. lia.
    - rewrite frame_decode in E by done. by injection E as _ _ <-. }
  intros Hf Hf' He He'. revert fs' Hf'. induction Hf as [|f fs Hw Hf IH]; intros [|f' fs'] Hf' E; apply Forall_cons in Hf' || clear Hf'.
  - done.
  - destruct Hf' as [Hw' _]. by destruct (Hne f' fs' tail tail' Hw' He E).
  - by destruct (Hne f fs tail' tail Hw He' (eq_sym E)).
  - destruct Hf' as [Hw' Hf']. rewrite !frames_bytes_cons, <-!app_assoc in E. pose proof E as E2. apply (f_equal DecodeFrame) in E2.
    rewrite !frame_decode in E2 by (apply Hw || apply Hw'). assert (Hn : length (frame_bytes f) = length (frame_bytes f')) by exact (f_equal (fun x => x.1.2) E2).
    apply (IH fs'); [done|]. apply (f_equal (drop (length (frame_bytes f)))) in E. rewrite drop_app_length in E. rewrite E, Hn. by rewrite drop_app_length.
Qed.

Lemma segment_tail_unique h h' fs fs' tail tail' :
  header_ok h -> header_ok h' -> Forall frame_wf fs -> Forall frame_wf fs' -> log_end tail -> log_end tail' ->
  segment_bytes h fs ++ tail = segment_bytes h' fs' ++ tail' -> tail = tail'.
Proof.
  intros Hh Hh' Hf Hf' He He' E. pose proof E as E2. apply (f_equal decodeSegmentHeader) in E2.
  rewrite !decode_segment_bytes in E2 by done. injection E2 as <- _. apply (f_equal (drop (length (seg_header_bytes h)))) in E.
  rewrite !drop_segment_bytes in E. by apply (frames_unique fs fs').
Qed.

Lemma chained_elem id ver first l h fs : chained id ver first l -> (h, fs) ∈ l -> header_ok h /\ Forall frame_wf fs.
Proof.
  revert first. induction l as [|[h1 fs1] l IH]; intros first Hch Hin; [by apply elem_of_nil in Hin|].
  destruct Hch as (?&_&_&_&?&_&Hch). apply elem_of_cons in Hin as [[= -> ->]|Hin]; [done|]. by eapply IH.
Qed.

Lemma log_files_elem d l h fs : log_files d l [] -> (h, fs) ∈ l -> file DWal (segmentFilename (sh_FirstSequence h)) d = Some (segment_bytes h fs).
Proof.
  induction l as [|[h1 fs1] l IH]; intros Hf Hin; [by apply elem_of_nil in Hin|]. destruct (log_files_cons _ _ _ _ Hf) as [Hf1 Hf'].
  apply elem_of_cons in Hin as [[= -> ->]|Hin]; auto.
Qed.

Lemma shape_entries id ver first fs d d' : entries DWal d' = entries DWal d -> crash_shape id ver first fs d -> crash_shape id ver first fs d'.
Proof.
  intros He (l&Hfr&H). exists l. split; [done|]. destruct H as [(tail&Hw&Ht)|(h&k&Hi&Hf)]; [left|right].
  - exists tail. split; [by eapply wal_holds_entries|done].
  - exists h, k. split; [|done]. destruct Hi as (?&?&?&?&?&Hfl&Hfile&?). unfold wal_interrupted, file in *. rewrite He. split_and!; try done. by eapply log_files_entries.
Qed.

(** A cut in front of a log leaves it as it was. *)
Lemma cut_before id ver first l base h fs tail fr n d0 d :
  chained id ver first l -> log_files d0 l [] ->
  file DWal base d0 = Some (segment_bytes h fs ++ tail) -> header_ok h -> Forall frame_wf fs -> DecodeFrame tail = (fr, n, FrameIncomplete) ->
  entries DWal d = <[base := EFile (segment_bytes h fs)]> (entries DWal d0) ->
  base ∈ log_names l -> entries DWal d = entries DWal d0.
Proof.
  intros Hch Hfl Hbase Hh Hf Hd He Hin. apply list_elem_of_fmap in Hin as ([h1 fs1]&->&Hin). unfold seg_file_name in *. cbn [fst] in *.
  destruct (chained_elem _ _ _ _ _ _ Hch Hin) as [Hh1 Hf1]. pose proof (log_files_elem _ _ _ _ Hfl Hin) as E. rewrite E in Hbase.
  apply (inj Some) in Hbase. assert (Ht : [] = tail).
  { apply (segment_tail_unique h1 h fs1 fs); try done. { right. by exists fr, n, FrameIncomplete. } by rewrite app_nil_r. }
  subst tail. rewrite app_nil_r in Hbase. rewrite He, <-Hbase. apply insert_id. unfold file in E. destruct (entries DWal d0 !! _) as [[]|]; by simplify_eq.
Qed.

(** Recovery's own crashes and failures leave a directory of the same frames. *)
Lemma preserved_shape id ver first fs d0 d : crash_shape id ver first fs d0 -> preserved d0 d -> crash_shape id ver first fs d.
Proof.
  intros Hs [_ [He|(base&h&fs1&tail&diag&fr&n&Hbase&Hh&Hf1&Hd&He&_)]]; [by eapply shape_entries|].
  assert (Hnames : seg_names (entries DWal d) = seg_names (entries DWal d0)).
  { rewrite He. unfold file in Hbase. destruct (entries DWal d0 !! base) as [[c|]|] eqn:E; [|done..]. by apply (seg_names_insert _ _ c). }
  assert (Hother : forall x, x <> base -> file DWal x d = file DWal x d0) by (intros x Hx; unfold file; by rewrite He, lookup_insert_ne).
  pose proof Hs as (l&Hfr&[(tail0&Hw&Ht)|(h1&k&Hi&Hf)]).
  - destruct l as [|[h1 fs2] l _] using rev_ind.
    { exists []. split; [done|]. left. exists tail0. split; [|done]. destruct Hw as (?&?&Hn&?). split_and!; try done. by rewrite Hnames. }
    pose proof Hw as (Hmin&Hch&Hn&Hfl). apply chained_snoc in Hch as (Hch&Hh1&Hid&Hver&Hfirst&Hf2&Hc). apply log_files_snoc in Hfl as [Hfl Hlast].
    destruct (decide (base = segmentFilename (sh_FirstSequence h1))) as [->|Hne].
    + rewrite Hlast in Hbase. apply (inj Some) in Hbase. assert (tail0 = tail) as <-.
      { apply (segment_tail_unique h1 h fs2 fs1); try done; [by apply torn_tail_end|right; by exists fr, n, FrameIncomplete]. }
      apply app_inj_2 in Hbase as [Hsame _]; [|done]. exists (l ++ [(h1, fs2)]). split; [done|]. left. exists []. split; [|by left].
      eapply (wal_holds_rewrite id ver first l h1 fs2 fs2); [exact Hw|by rewrite app_nil_r, Hsame|done|by rewrite Hfirst].
    + destruct (decide (base ∈ log_names l)) as [Hin|Hnin].
      { eapply shape_entries; [|exact Hs]. exact (cut_before id ver first l base h fs1 tail fr n d0 d Hch Hfl Hbase Hh Hf1 Hd He Hin). }
      exists (l ++ [(h1, fs2)]). split; [done|]. left. exists tail0. split; [|done]. split; [done|]. split; [by apply chained_snoc|]. split; [by rewrite Hnames|].
      apply log_files_snoc. split; [by eapply log_files_put|]. by rewrite Hother.
  - pose proof Hi as (Hmin&Hch&Hh1&Hid&Hn&Hfl&Hlast&Hlt).
    assert (Hne : segmentFilename (sh_FirstSequence h1) <> base).
    { intros <-. rewrite Hlast in Hbase. apply (inj Some) in Hbase. pose proof (seg_header_torn h1 k Hh1 Hlt) as Hbad. rewrite Hbase in Hbad.
      by rewrite decode_segment_bytes in Hbad. }
    destruct (decide (base ∈ log_names l)) as [Hin|Hnin].
    { eapply shape_entries; [|exact Hs]. exact (cut_before id ver first l base h fs1 tail fr n d0 d Hch Hfl Hbase Hh Hf1 Hd He Hin). }
    exists l. split; [done|]. right. exists h1, k. split; [|done]. unfold wal_interrupted. rewrite Hnames, Hother by done. split_and!; try done. by eapply log_files_put.
Qed.

(** A read-only run yields what the run without faults does. *)
Lemma ct_read {A} (m m0 : IO A) a d t0 :
  io_reads m -> agrees m m0 -> m0 d = (t0, Ok a, d) -> crash_triple (eq d) m (eq d) (fun x d' => x = a /\ d' = d) (eq d).
Proof.
  intros Hr Ha E d1 <-. pose proof (Hr d) as H. destruct (m d) as [[t r] d'] eqn:Em. destruct H as [Ht ->]. split; [done|].
  destruct r as [x|]; [|done]. destruct (Ha _ _ _ _ Em) as [t1 E1]. rewrite E in E1. by injection E1.
Qed.

Lemma cleanup_reads {A} (m : IO A) c : io_reads m -> io_reads c -> io_reads (io_cleanup m c).
Proof.
  intros Hm Hc d. unfold io_cleanup. specialize (Hm d). destruct (m d) as [[t [x|e]] d1]; [done|]. destruct Hm as [Ht ->].
  specialize (Hc d). destruct (c d) as [[t2 r] d2]. destruct Hc as [? ->]. split; [by apply Forall_app|done].
Qed.

Lemma ag_cleaned {A} (m m0 : IO A) c : agrees m m0 -> agrees (io_cleanup m c) m0.
Proof.
  intros Hm d t b d'. unfold io_cleanup. destruct (m d) as [[t1 [a|e]] d1] eqn:E; [|by destruct (c d1) as [[? ?] ?]].
  intros [= _ -> ->]. by eapply Hm.
Qed.

Lemma ct_of {A B} P (a : A) (f : A -> IO B) C Q E : crash_triple P (f a) C Q E -> crash_triple P (io_bind (io_of (Ok a)) f) C Q E.
Proof. intros H d Hd. specialize (H d Hd). unfold io_bind, io_of. by destruct (f a d) as [[t r] d']. Qed.

Lemma LoadAckState_reads ev h m : io_reads (LoadAckState ev h m).
Proof. unfold LoadAckState. apply reads_bind; [auto with io_kind|]. intros r. auto with io_kind. Qed.

Lemma LoadReserves_reads ev fixed : io_reads (LoadReserves ev fixed).
Proof.
  unfold LoadReserves, readReserves. apply reads_bind; [|intros r; auto with io_kind].
  apply reads_bind; [auto with io_kind|]. intros [data|]; auto with io_kind.
Qed.

Lemma OpenSegment_reads ev name opts : io_reads (OpenSegment ev name opts).
Proof.
  unfold OpenSegment. apply reads_bind.
  { intros d. unfold io_open. destruct (file DWal name d); [apply check_reads|by repeat constructor]. }
  intros _. apply reads_bind; [auto with io_kind|]. intros data. apply reads_bind; [auto with io_kind|]. intros [hdr n].
  apply reads_bind; [auto with io_kind|]. intros [size last]. auto with io_kind.
Qed.

(** A few states and an end, each as assumed. *)
Local Ltac each := split; [repeat (apply Forall_cons_2; [done|]); apply Forall_nil_2|try done].

Section faulty_start.
Context (ev : env) (id : bytes) (ver first a : Z) (fs : list Frame) (d0 : disk).
Hypotheses (Hctl : bound_controls id ver a d0) (Hshape : crash_shape id ver first fs d0) (Hdirs : no_dirs d0)
  (Hstep : in_step first fs a) (Hmax : first + zlen fs <= MaxInt64) (Hnow : in_i64 (e_now ev)).

(** What a start leaves, wherever it ends. *)
Definition start_left (d : disk) : Prop := d_root d = d_root d0 /\ crash_shape id ver first fs d /\ no_dirs d.

Lemma left_refl : start_left d0.
Proof. by split_and!. Qed.

Lemma left_preserved d : preserved d0 d -> start_left d.
Proof. intros H. split; [apply H|]. split; [by eapply preserved_shape|by eapply no_dirs_preserved]. Qed.

Lemma left_entries d d' : d_root d' = d_root d -> entries DWal d' = entries DWal d -> start_left d -> start_left d'.
Proof. intros Hr He (?&?&?). split; [by rewrite Hr|]. split; [by eapply shape_entries|by eapply no_dirs_entries]. Qed.

Lemma left_controls d : start_left d -> bound_controls id ver a d.
Proof. intros [Hr _]. by eapply bound_controls_root. Qed.

(** What the recovery of a start found. *)
Definition found (rec : Recovery) (l : wal_log) (d : disk) : Prop :=
  rc_SourceID rec = id /\ rc_HighestDurableSequence rec = last_seq fs /\ rc_NextSequence rec = first + zlen fs
  /\ recovered_shape id ver first fs rec l d.

Lemma ct_start_recover :
  crash_triple (eq d0) (RecoverBound ev id ver) start_left (fun rec d => start_left d /\ exists l, found rec l d) start_left.
Proof.
  intros d <-. unfold RecoverBound. pose proof (ct_recover ev d0 (Some (mkBinding id ver)) d0 eq_refl) as H.
  destruct (recover ev (Some (mkBinding id ver)) d0) as [[t r] d] eqn:E. destruct H as [Ht Hr].
  split; [by eapply Forall_impl; [exact Ht|exact left_preserved]|]. destruct r as [rec|e]; [|by apply left_preserved].
  split; [by apply left_preserved|]. destruct (ag_recover _ _ _ _ _ _ E) as [t0 E0].
  destruct (startup_recover (calm ev) (fun _ _ => eq_refl) id ver first a fs d0 Hctl Hshape) as (t1&rec1&d1&l&E1&_&Hsrc&Hhi&Hnext&Hrec).
  unfold RecoverBound in E1. rewrite E0 in E1. injection E1 as <- <- <-. exists l. pose proof Hrec as (Hfr&_&Hmin&Hch&_).
  apply chained_contiguous in Hch. rewrite Hfr in Hch. destruct Hctl as (_&Ha&_). unfold SequenceMin in Hmin.
  rewrite (next_in_step first fs a Hmin ltac:(lia) Hch Hstep Hmax) in Hnext. injection Hnext as Hn _. by split_and!.
Qed.

Lemma ct_bound P : (forall d, P d -> file DRoot identityFilename d = Some (encodeIdentity id ver)) ->
  crash_triple P (BindIdentity ev id ver) P (fun _ => P) P.
Proof.
  intros HP d Hd. destruct (e_flt ev IoRead identityFilename) eqn:E.
  - unfold BindIdentity, readIdentity, readFile, io_check, io_call, io_bind. rewrite E. by repeat constructor.
  - rewrite (BindIdentity_read ev id ver d E). unfold bind_result. destruct Hctl as (Hi&_). rewrite (HP d Hd), (decode_identity _ _ Hi).
    rewrite bool_decide_eq_true_2 by done. by repeat constructor.
Qed.

(** The slot recovery named is freed. *)
Lemma ct_reclaim rec l : crash_triple (fun d => start_left d /\ recovered_shape id ver first fs rec l d) (ReclaimEmptyTrailingSegment ev (Some rec))
    start_left (fun _ d => start_left d /\ wal_holds id ver first l [] d) start_left.
Proof.
  intros d1 [Hleft (Hfr&Hends&Hmin&Hch&Hfl&Hempty)]. unfold ReclaimEmptyTrailingSegment. cbn [mbind option_bind].
  destruct (rc_EmptyTrailingSegment rec) as [[dir name]|]; [|split; [constructor|split; [done|by split_and!]]].
  destruct Hempty as [-> Hn]. rewrite bool_decide_eq_true_2 by done. cbn [negb].
  assert (Hin : name ∈ seg_names (entries DWal d1)) by (rewrite Hn; apply elem_of_app; right; by apply list_elem_of_singleton).
  apply seg_names_elem in Hin as (_&c&Hc). set (d2 := del DWal name d1).
  destruct (names_dropped l name d1 d2 Hn Hfl (entries_del _ _ _)) as [Hn' Hfl'].
  assert (Hw : wal_holds id ver first l [] d2) by by split_and!.
  assert (Hleft2 : start_left d2).
  { destruct Hleft as (Hr&_&Hd). split; [exact Hr|]. split; [exists l; split; [done|]; left; exists []; split; [done|by left]|].
    intros x. unfold d2. rewrite entries_del. intros [_ E]%lookup_delete_Some. by apply (Hd x). }
  unfold io_bind, removeFile. rewrite Hc. destruct (e_flt ev IoRemove name); [each|].
  unfold fsyncDir, io_bind, io_check, io_call, Datatypes.id. destruct (e_flt ev IoOpen _); [each|].
  destruct (e_flt ev IoDirSync _); each.
Qed.

(** The segment the writer is to continue. *)
Definition opened (s : Segment) (d : disk) : Prop :=
  exists l fs', log_frames l ++ fs' = fs /\ seg_inv s fs' d /\ sg_name s = segmentFilename (sh_FirstSequence (sg_header s))
    /\ sg_ceiling s = DefaultSegmentCeiling /\ wal_holds id ver first (l ++ [(sg_header s, fs')]) [] d.

Lemma ct_start_create l d1 :
  start_left d1 -> wal_holds id ver first l [] d1 -> ends_full l -> log_frames l = fs ->
  crash_triple (eq d1) (CreateSegment ev (segment_options id ver (first + zlen fs) (e_now ev)))
    start_left (fun s d => start_left d /\ opened s d) start_left.
Proof.
  intros Hleft Hw Hends Hfr. destruct Hctl as (Hi&_). pose proof Hleft as (Hr&_&Hd).
  pose proof (ct_create_next ev id ver first l (e_now ev) d1 Hi Hw Hends ltac:(by rewrite Hfr) Hnow) as H. cbv zeta in H. rewrite Hfr in H.
  assert (Hl : forall d, (d_root d = d_root d1 /\ crash_shape id ver first fs d /\ (forall x, is_Some (file DWal x d1) -> is_Some (file DWal x d))) /\ no_dirs d -> start_left d).
  { intros d ((Hr1&Hs&_)&Hd1). split; [by rewrite Hr1|done]. }
  eapply ct_conseq; [apply ct_and; [exact H|]; eapply ct_conseq; [exact (no_dirs_Create ev _)|..]; try done; by intros d <-|done|exact Hl| |exact Hl].
  intros s d [(Hk&Hs&Hn&Hc&Hw1) Hd1]. split; [by apply Hl|]. exists l, []. rewrite app_nil_r. by split_and!.
Qed.

Lemma ct_start_segment l :
  ends_full l -> log_frames l = fs ->
  crash_triple (fun d => start_left d /\ wal_holds id ver first l [] d) (openOrCreateSegment ev id ver (first + zlen fs))
    start_left (fun s d => start_left d /\ opened s d) start_left.
Proof.
  intros Hends Hfr. apply ct_pointwise. intros d1 [Hleft Hw]. unfold openOrCreateSegment. cbv zeta.
  assert (Hsame : forall d, d1 = d -> start_left d) by by intros d <-.
  apply (ct_bind _ _ _ _ _ (fun names d => names = log_names l /\ d = d1)).
  { assert (E : listSegments (calm ev) d1 = ([d1], Ok (log_names l), d1)).
    { rewrite (run_listSegments (calm ev) (fun _ _ => eq_refl)). by destruct Hw as (_&_&->&_). }
    eapply ct_conseq; [exact (ct_read _ _ _ _ _ (listSegments_reads ev) (ag_listSegments ev) E)|done|exact Hsame|done|exact Hsame]. }
  intros names. apply ct_pointwise. intros d [-> ->]. revert d1 Hleft Hw Hsame. destruct l as [|[h fs1] l0 _] using rev_ind; intros d1 Hleft Hw Hsame.
  { cbn [log_names fmap list_fmap last]. by apply (ct_start_create [] d1). }
  rewrite log_names_snoc, last_snoc. unfold seg_file_name. cbn [fst].
  destruct (last_reopens id ver first l0 h fs1 d1 Hw) as (s&Hn&Hs&Hc&Hh&Hlast&Ho). rewrite <-Hn.
  assert (Hcreate : crash_triple (eq d1) (CreateSegment ev (segment_options id ver (first + zlen fs) (e_now ev))) start_left (fun s d => start_left d /\ opened s d) start_left)
    by by apply (ct_start_create (l0 ++ [(h, fs1)]) d1).
  apply (ct_bind _ _ _ _ _ (fun r d => d1 = d /\ match r with Ok x => x = s | Err _ => True end)).
  { intros d <-. pose proof (ct_read _ _ s d1 _ (OpenSegment_reads ev _ _) (ag_OpenSegment ev _ _) (Ho (calm ev) (fun _ _ => eq_refl)) d1 eq_refl) as H.
    unfold io_try. destruct (OpenSegment ev _ _ d1) as [[t r] d]. destruct H as [Ht Hr]. split; [by eapply Forall_impl|]. destruct r; [by destruct Hr|done]. }
  intros [x|e].
  - intros d [<- ->]. assert (Hne : fs1 <> []) by (unfold ends_full in Hends; rewrite last_snoc in Hends; by destruct fs1).
    rewrite log_frames_snoc in Hfr. rewrite (Hlast Hne ltac:(by rewrite log_frames_snoc, Hfr)), log_frames_snoc, Hfr, Z.eqb_refl. split; [constructor|]. split; [done|].
    exists l0, fs1. rewrite Hh. by split_and!.
  - intros d [<- _]. by apply Hcreate.
Qed.

Lemma ct_NewSpoolWriter cfg cm open :
  config_ok id ver cfg cm -> reserves_readable open d0 ->
  crash_triple (eq d0) (NewSpoolWriter ev cfg) start_left
    (fun w d => start_left d /\ sw_sourceID w = id /\ sw_formatVersion w = ver
       /\ exists l fs', log_frames l ++ fs' = fs /\ writer_ready first a l fs' w d)
    start_left.
Proof.
  intros (Hdir&Hroot0&Hid&Hver&Hcm) Hres. unfold NewSpoolWriter. rewrite bool_decide_eq_false_2, Hroot0, Hid, Hver, Hcm by done.
  destruct (bool_decide (id = [])); [apply ct_err; intros d <-; by apply left_refl|]. cbv zeta. apply ct_of.
  apply (ct_bind _ _ _ _ _ (fun rec d => start_left d /\ exists l, found rec l d)); [exact ct_start_recover|].
  intros rec. destruct (_ && _); [by apply ct_err; intros d []|]. apply ct_pointwise. intros d1 (Hl1&l&_&Hhi&Hnext&Hrec). rewrite Hnext, Hhi.
  pose proof Hrec as (Hfr&Hends&Hmin&Hch&_).
  set (P d := start_left d /\ recovered_shape id ver first fs rec l d).
  apply (ct_bind _ _ _ _ _ (fun _ => P)).
  { assert (Hb : crash_triple P (BindIdentity ev id ver) P (fun _ => P) P).
    { apply ct_bound. intros d [Hd _]. by apply left_controls in Hd as (_&_&?&_). }
    eapply ct_conseq; [exact Hb|by intros d <-|by intros d []|done|by intros d []]. }
  intros []. apply (ct_bind _ _ _ _ _ (fun _ => P)).
  { apply ct_call. intros d [Hd Hr]. split; [done|]. split; [|done]. split; [by eapply left_entries; [| |exact Hd]; [|apply entries_set]|].
    eapply recovered_entries; [apply entries_set|done]. }
  intros []. apply (ct_bind _ _ _ _ _ (fun _ => P)); [by apply ct_check; intros d []|].
  intros []. apply (ct_bind _ _ _ _ _ (fun _ d => start_left d /\ wal_holds id ver first l [] d)); [apply ct_reclaim|].
  intros b. apply (ct_bind _ _ _ _ _ (fun s d => start_left d /\ opened s d)); [by apply ct_start_segment|].
  intros s. apply ct_pointwise. intros d [Hd Hop]. pose proof (left_controls d Hd) as Hctld.
  assert (Hsame : forall d', d = d' -> start_left d') by by intros d' <-.
  apply chained_contiguous in Hch. rewrite Hfr in Hch. destruct (ack_end first a fs (proj1 (proj2 Hctld)) Hch Hstep Hmax) as [Hlm Hmx].
  apply (ct_bind _ _ _ _ _ (fun ak d' => ak = mkAckState a (Z.max a (last_seq fs)) DefaultMaxInFlightRecords None /\ d' = d)).
  { pose proof (run_LoadAckState (calm ev) (fun _ _ => eq_refl) id ver a _ d Hctld Hlm) as E.
    eapply ct_conseq; [exact (ct_read _ _ _ _ _ (cleanup_reads _ _ (LoadAckState_reads ev _ _) (check_reads ev IoClose _)) (ag_cleaned _ _ _ (ag_LoadAckState ev _ _)) E)|done|exact Hsame|done|exact Hsame]. }
  intros ak. apply ct_pointwise. intros d' [-> ->].
  apply (ct_bind _ _ _ _ _ (fun rs d' => rs = mkReserves (TerminalReserveBytes (sc_Capacity cfg)) open /\ d' = d)).
  { assert (Hres' : reserves_readable open d) by (destruct Hd as [Hr _]; unfold reserves_readable; by rewrite (file_root _ _ _ Hr)).
    pose proof (run_LoadReserves (calm ev) (fun _ _ => eq_refl) (TerminalReserveBytes (sc_Capacity cfg)) open d Hres') as E.
    eapply ct_conseq; [exact (ct_read _ _ _ _ _ (cleanup_reads _ _ (LoadReserves_reads ev _) (check_reads ev IoClose _)) (ag_cleaned _ _ _ (ag_LoadReserves ev _)) E)|done|exact Hsame|done|exact Hsame]. }
  intros rs. apply ct_ret. intros d' [-> ->]. split; [done|]. split; [done|]. split; [done|].
  destruct Hop as (l'&fs'&Hfr'&Hs&Hname&Hceil&Hw). exists l', fs'. split; [done|]. split.
  - unfold writer_inv. cbn [sw_closed sw_seg sw_sourceID sw_formatVersion]. rewrite Hfr'. by split_and!.
  - cbn [sw_ack]. rewrite Hfr', Hmx. destruct Hstep as [Hlt _], Hctld as (_&Ha&_). unfold ack_tracks, ack_wf. cbn. split_and!; try done; lia.
Qed.
End faulty_start.

(** ** What a restart finds *)

Lemma ready_shape first a l fs w d :
  writer_ready first a l fs w d -> crash_shape (sw_sourceID w) (sw_formatVersion w) first (log_frames l ++ fs) d.
Proof.
  intros [(_&_&_&_&Hw&_) _]. exists (l ++ [(sg_header (sw_seg w), fs)]). split; [apply log_frames_snoc|]. left.
  exists []. split; [exact Hw|by left].
Qed.

Lemma restart_run ev ev' cfg cm open first a l fs w obs d0 d :
  writer_ready first a l fs w d0 -> no_dirs d0 -> first + zlen (log_frames l ++ fs) < MaxInt64 ->
  config_ok (sw_sourceID w) (sw_formatVersion w) cfg cm -> reserves_readable open d0 ->
  in_i64 (e_now ev) -> in_i64 (e_now ev') -> (forall op name, e_flt ev' op name = false) ->
  leaves (AppendObservation ev obs w) d0 d ->
  exists t w' d' l' fs', NewSpoolWriter ev' cfg d = (t, Ok w', d')
    /\ grown (log_frames l ++ fs) (stamped_frame w obs) (log_frames l' ++ fs')
    /\ writer_ready first a l' fs' w' d' /\ no_dirs d' /\ d_root d' = d_root d0
    /\ sw_formatVersion w' = sw_formatVersion w
    /\ sw_sourceID w' = sw_sourceID w /\ rs_open (sw_reserves w') = open
    /\ nextSequenceLocked w' = first + zlen (log_frames l' ++ fs')
    /\ (forall t1 ack w1 d1, AppendObservation ev obs w d0 = (t1, Ok (Ok ack, w1), d1) -> d = d1 ->
        exists g, stamped_frame w obs = Some g /\ log_frames l' ++ fs' = log_frames l ++ fs ++ [g]).
Proof.
  intros Hready Hdirs Hmax Hcfg Hres Hnow Hnow' Hflt Hl.
  pose proof (ct_AppendObservation ev first a l fs w obs d0 Hready Hmax Hnow d0 eq_refl) as H.
  pose proof (leaves_triple _ _ _ _ _ d0 d (no_dirs_AppendObservation ev obs w) Hdirs Hl) as Hd.
  assert (Hdirs' : no_dirs d) by (destruct Hd as [|[[? ?]|]]; done).
  assert (Hshape : exists fs2, d_root d = d_root d0 /\ grown (log_frames l ++ fs) (stamped_frame w obs) fs2
    /\ crash_shape (sw_sourceID w) (sw_formatVersion w) first fs2 d
    /\ (forall t1 ack w1 d1, AppendObservation ev obs w d0 = (t1, Ok (Ok ack, w1), d1) -> d = d1 ->
        exists g, stamped_frame w obs = Some g /\ fs2 = log_frames l ++ fs ++ [g])).
  { unfold leaves in Hl. destruct (AppendObservation ev obs w d0) as [[t [[[ack|e] w1]|e]] d1]; destruct H as [Ht Hr]; [..|done].
    - destruct (decide (d = d1)) as [->|Hne].
      + destruct Hr as ([Hroot _]&Hid&Hver&Hack&_). destruct (Hack ack eq_refl) as (_&g&l'&fs'&Hg&Hfr&Hw'). cbn [fst snd] in *.
        exists (log_frames l' ++ fs'). split; [done|]. rewrite Hfr. split; [right; eauto|]. split.
        * rewrite <-Hfr, <-Hid, <-Hver. by eapply ready_shape.
        * intros t1 ack1 w2 d2 _ _. exists g. by rewrite app_assoc.
      + destruct Hl as [Hin| ->]; [|done]. rewrite Forall_forall in Ht. apply list_elem_of_In in Hin.
        destruct (Ht d ltac:(by apply list_elem_of_In)) as (Hroot&fs2&Hg&Hs). exists fs2. split_and!; try done.
        intros t1 ack1 w2 d2 [= <- <- <- <-] ->. done.
    - assert (Hleft : observation_left first (log_frames l ++ fs) w obs d0 d).
      { destruct Hl as [Hin| ->]; [|by destruct Hr]. by apply (proj1 (Forall_forall _ _) Ht). }
      destruct Hleft as (Hroot&fs2&Hg&Hs). exists fs2. by split_and!. }
  destruct Hshape as (fs2&Hroot&Hg&Hs&Hsucc). pose proof Hready as [(_&_&_&_&Hw&Hctl&Hstep) _].
  assert (Hstep2 : in_step first fs2 a /\ first + zlen fs2 <= MaxInt64).
  { destruct Hg as [->|(g&_&->)]; [split; [done|lia]|]. split; [by apply in_step_snoc|]. rewrite zlen_app. unfold zlen at 2. cbn. lia. }
  destruct Hstep2 as [Hstep2 Hmax2].
  destruct (startup_run ev' Hflt _ _ first a cfg cm open fs2 d Hcfg (bound_controls_root _ _ _ _ _ (eq_sym Hroot) Hctl)
    ltac:(unfold reserves_readable; by rewrite (file_root _ _ _ Hroot)) Hs Hstep2 Hdirs' Hnow' Hmax2)
    as (t&w'&d'&l'&fs'&E&Hroot'&Hid&Hver&Hopen&Hfr&Hw'&Hdirs2).
  exists t, w', d', l', fs'. rewrite Hfr. split_and!; try done.
  { by rewrite Hroot'. }
  destruct Hw' as [Hw' _]. destruct (writer_next _ _ _ _ _ _ Hw' ltac:(by rewrite Hfr)) as [-> _]. by rewrite Hfr.
Qed.

(** ** Acceptance *)

Section accepts.
Context (ev : env) (Hflt : forall op name, e_flt ev op name = false).

Lemma run_append s fs f d :
  seg_inv s fs d -> frame_ok f -> fr_Sequence f = sh_FirstSequence (sg_header s) + zlen fs ->
  fr_Sequence f <= MaxInt64 ->
  if sg_ceiling s <? sg_size s + zlen (frame_bytes f) then Append ev s f d = ([], Err ErrSegmentFull, d)
  else exists t d', Append ev s f d = (t, Ok (appended s f), d').
Proof.
  intros Hs Hok Hseq Hm. unfold Append. rewrite (nextExpected_inv _ _ _ Hs). cbv zeta.
  unfold SequenceMax. rewrite (proj2 (Z.leb_le _ _)) by lia. rewrite (EncodeFrame_ok _ Hok), <-Hseq, Z.eqb_refl. cbn [negb].
  destruct (sg_ceiling s <? _) eqn:Ef; unfold io_bind at 1, io_of; rewrite Ef; [done|].
  unfold io_bind, io_cleanup, io_writeAt, io_check, io_call. rewrite !Hflt.
  by eexists _, _.
Qed.

(** The name the next segment takes is free. *)
Lemma next_name_free id ver first l d :
  wal_holds id ver first l [] d -> ends_full l -> no_dirs d -> first + zlen (log_frames l) <= MaxInt64 ->
  entries DWal d !! segmentFilename (first + zlen (log_frames l)) = None.
Proof.
  intros Hw Hends Hdirs Hm. destruct (entries DWal d !! _) as [[c|]|] eqn:E; [|by destruct (Hdirs _ E)|done]. exfalso.
  assert (Hin : segmentFilename (first + zlen (log_frames l)) ∈ log_names l).
  { destruct Hw as (_&_&<-&_). apply seg_names_elem. split; [apply Ext_segmentFilename|eauto]. }
  apply list_elem_of_fmap in Hin as ([h fs]&En&Hin). destruct Hw as (Hmin&Hch&_). unfold SequenceMin in Hmin.
  pose proof (starts_before_end _ _ _ _ Hch Hends) as Hlt. rewrite Forall_forall in Hlt. specialize (Hlt _ Hin).
  pose proof (chained_range _ _ _ _ Hmin Hch) as Hr. rewrite Forall_forall in Hr. specialize (Hr _ Hin). cbn [fst] in *.
  unfold seg_file_name in En. cbn [fst] in En. pose proof (zlen_nonneg (log_frames l)). apply segmentFilename_inj in En; lia.
Qed.

Lemma run_appendFrame first a l fs w f d :
  writer_inv first a l fs w d -> no_dirs d -> frame_ok f -> fr_Sequence f = first + zlen (log_frames l ++ fs) ->
  fr_Sequence f < MaxInt64 -> in_i64 (e_now ev) ->
  exists t w' d', appendFrameLocked ev f w d = (t, Ok (Ok tt, w'), d').
Proof.
  intros Hinv Hdirs Hok Hseq Hm Hnow. pose proof Hinv as (Hcl&Hs&_&Hceil&Hw&((Hid&Hver)&_)&_).
  destruct (writer_next _ _ _ _ _ _ Hinv ltac:(lia)) as [_ Hf].
  assert (Hseq' : fr_Sequence f = sh_FirstSequence (sg_header (sw_seg w)) + zlen fs) by (rewrite zlen_app in Hseq; lia).
  pose proof (run_append _ _ _ _ Hs Hok Hseq' ltac:(lia)) as E.
  unfold appendFrameLocked, seg_env. rewrite Hcl. unfold io_bind at 1, io_try at 1.
  destruct (_ <? _) eqn:Efull in E; [|destruct E as (t&d'&E); rewrite E; eauto]. rewrite E.
  unfold io_bind at 1, io_try at 1, io_check. rewrite (run_call ev Hflt). cbn [Datatypes.id]. cbv zeta.
  destruct (full_append _ _ _ _ _ _ _ Hs Hceil E) as (_&_&Hfs&_).
  assert (Hends : ends_full (l ++ [(sg_header (sw_seg w), fs)])) by (unfold ends_full; rewrite last_snoc; by destruct fs).
  pose proof (next_name_free _ _ _ _ _ Hw Hends Hdirs) as Hfree. rewrite log_frames_snoc, <-Hseq in Hfree.
  cbn [with_seg sw_sourceID sw_formatVersion]. set (opts := segment_options _ _ _ _).
  destruct Hw as (Hmin&_). unfold SequenceMin in Hmin. pose proof (zlen_nonneg (log_frames l ++ fs)).
  assert (Hh : header_ok (so_header opts)).
  { split; [exact Hver|]. split; [cbn; unfold in_i64; lia|]. by split. }
  destruct (run_create ev Hflt opts d Hh ltac:(cbn; lia) (Hfree ltac:(lia))) as (t1&s&d1&Ec).
  unfold io_bind at 1, io_try at 1. rewrite Ec.
  pose proof (create_spec ev opts d Hh) as Hcs. specialize (Hcs d eq_refl). rewrite Ec in Hcs. destruct Hcs as [_ (Es&Hs1&_)].
  pose proof (run_append s [] f d1 Hs1 Hok ltac:(rewrite Es; unfold opts; change (zlen []) with 0; cbn; lia) ltac:(lia)) as Ea.
  destruct (_ <? _) eqn:Efull1 in Ea.
  { assert (Hc1 : sg_ceiling s = DefaultSegmentCeiling) by by rewrite Es.
    by destruct (full_append _ _ _ _ _ _ _ Hs1 Hc1 Ea) as (_&_&?&_). }
  destruct Ea as (t2&d2&Ea). unfold io_bind at 1, io_try at 1. rewrite Ea. cbn [io_ret]. eauto.
Qed.
End accepts.

(** ** First start *)

(** A state directory no observer has written to. *)
Definition fresh_dir (d : disk) : Prop :=
  file DRoot identityFilename d = None /\ file DRoot ackFilename d = None /\ file DRoot reservesFilename d = None
  /\ entries DWal d = ∅.

Lemma run_recover_fresh ev id ver d :
  (forall op name, e_flt ev op name = false) -> fresh_dir d ->
  exists t, RecoverBound ev id ver d = (t, Ok (with_next (1, false) newRecovery), d).
Proof.
  intros Hflt (Hi&Ha&_&He). unfold RecoverBound, recover.
  assert (Ei : readIdentity ev d = ([d], Ok None, d)).
  { unfold readIdentity, io_bind at 1. rewrite (run_readFile ev Hflt), Hi. done. }
  pose proof (run_readAck ev Hflt 0 d ltac:(by unfold MaxInt64) (or_introl Ha)) as Ek. rewrite Ha in Ek. cbn in Ek.
  unfold io_bind at 1. rewrite Ei. cbv beta iota. unfold io_ret at 1, io_bind at 1. unfold io_bind at 1. rewrite Ek. cbv beta iota.
  unfold io_bind at 1. rewrite (run_listSegments ev Hflt), He.
  assert (En : seg_names ∅ = []).
  { apply seg_names_unique; [constructor..|]. intros x. split; [by intros ?%elem_of_nil|].
    intros (_&c&Hc). by rewrite lookup_empty in Hc. }
  rewrite En. cbn. eauto.
Qed.

(** Binding the identity in a fresh directory. *)
Lemma run_bind_fresh ev id ver d :
  (forall op name, e_flt ev op name = false) -> identity_ok id ver -> fresh_dir d ->
  exists t d2, BindIdentity ev id ver d = (t, Ok tt, d2) /\ bound_controls id ver 0 d2
    /\ file DRoot reservesFilename d2 = None /\ entries DWal d2 = ∅.
Proof.
  intros Hflt Hiok (Hi&Ha&Hr&He).
  destruct (run_atomicWriteFile ev Hflt DRoot identityFilename (encodeIdentity id ver) d) as (t2&[]&d2&E2).
  pose proof (atomic_write_new ev DRoot identityFilename (encodeIdentity id ver) d d eq_refl) as Hn. rewrite E2 in Hn.
  destruct Hn as [_ [(Hwal&Hnew&Hother) _]].
  assert (Hfile : forall n, n <> identityFilename -> n <> AtomicTempPrefix identityFilename ++ e_tmp ev ->
    file DRoot n d2 = file DRoot n d) by (intros n H1 H2; unfold file; by rewrite Hother).
  exists (d :: t2), d2. split.
  - rewrite (BindIdentity_read ev id ver d (Hflt _ _)). unfold bind_result. rewrite Hi.
    assert (Hne : id <> []) by (destruct Hiok as [Hl _]; intros E; rewrite E in Hl; unfold zlen in Hl; cbn in Hl; lia).
    rewrite bool_decide_eq_false_2 by done. destruct Hiok as [[_ Hmaxid] _].
    rewrite (proj2 (Z.ltb_ge _ _)) by exact Hmaxid. cbn [orb]. by rewrite E2.
  - split; [|split; [by rewrite Hfile|unfold entries in *; by rewrite Hwal]].
    split; [done|]. split; [by unfold MaxInt64|]. split; [unfold file; by rewrite Hnew|]. left. by rewrite Hfile.
Qed.

Lemma wal_holds_nothing id ver d : entries DWal d = ∅ -> wal_holds id ver 1 [] [] d.
Proof.
  intros He. split_and!; try done. rewrite He. apply seg_names_unique; [constructor..|]. intros x.
  split; [by intros ?%elem_of_nil|]. intros (_&c&Hc). by rewrite lookup_empty in Hc.
Qed.

Lemma fresh_run ev cfg cm id ver d :
  (forall op name, e_flt ev op name = false) -> in_i64 (e_now ev) -> identity_ok id ver ->
  config_ok id ver cfg cm -> fresh_dir d ->
  exists t w d', NewSpoolWriter ev cfg d = (t, Ok w, d') /\ writer_ready 1 0 [] [] w d' /\ no_dirs d'
    /\ sw_sourceID w = id /\ sw_formatVersion w = ver /\ rs_open (sw_reserves w) = ∅
    /\ file DRoot reservesFilename d' = None.
Proof.
  intros Hflt Hnow Hiok (Hdir&Hroot0&Hid&Hver&Hcm) Hfresh.
  destruct (run_recover_fresh ev id ver d Hflt Hfresh) as [t1 E1].
  destruct (run_bind_fresh ev id ver d Hflt Hiok Hfresh) as (t2&d2&E2&Hctl2&Hr2&He2).
  set (d3 := set_dir DWal (entries DWal d2) d2).
  assert (He3 : entries DWal d3 = ∅) by (unfold d3; by rewrite entries_set).
  assert (Hd3 : no_dirs d3) by (intros x; by rewrite He3, lookup_empty).
  destruct (startup_segment ev Hflt id ver 1 [] d3 Hiok Hnow Hd3 (wal_holds_nothing _ _ _ He3) I ltac:(by cbn))
    as (t4&s&d4&l'&fs'&E4&R4&Hfr&Hs&Hname&Hceil&Hw4&Hd4).
  apply app_eq_nil in Hfr as [Hl' ->]. change (1 + zlen (log_frames [])) with 1 in E4.
  assert (Hctl : bound_controls id ver 0 d4) by (by eapply bound_controls_root).
  assert (Hr4 : file DRoot reservesFilename d4 = None) by (by rewrite (file_root _ _ _ R4)).
  assert (Hres : reserves_readable ∅ d4) by (by left).
  assert (El : l' = []).
  { destruct l' as [|x l0 _] using rev_ind; [done|]. pose proof (holds_ends_full _ _ _ _ _ _ _ Hw4) as Hends.
    exfalso. apply (ends_full_frames _ Hends); [by destruct l0|done]. }
  subst l'. unfold NewSpoolWriter. rewrite bool_decide_eq_false_2, Hroot0, Hid, Hver, Hcm by done.
  assert (Hne : id <> []) by (destruct Hiok as [Hl _]; intros E; rewrite E in Hl; unfold zlen in Hl; cbn in Hl; lia).
  rewrite bool_decide_eq_false_2 by done. cbv zeta. unfold io_of at 1, io_bind at 1. unfold io_bind at 1. rewrite E1.
  cbn [rc_SourceID rc_AcknowledgedThrough with_next newRecovery]. rewrite bool_decide_eq_true_2 by done.
  change (0 <? 0) with false. cbn [andb]. unfold io_bind at 1. rewrite E2.
  unfold io_bind at 1. rewrite (run_call ev Hflt).
  unfold io_bind at 1, io_check at 1. rewrite (run_call ev Hflt). cbn [Datatypes.id]. fold d3.
  unfold io_bind at 1. cbn [ReclaimEmptyTrailingSegment mbind option_bind with_next newRecovery rc_EmptyTrailingSegment].
  unfold io_ret at 1. unfold io_bind at 1. cbn [rc_NextSequence rc_HighestDurableSequence with_next newRecovery fst]. rewrite E4.
  unfold io_bind at 1, io_cleanup at 1. rewrite (run_LoadAckState ev Hflt id ver 0 0 d4 Hctl ltac:(by unfold MaxInt64)).
  unfold io_bind at 1, io_cleanup at 1. rewrite (run_LoadReserves ev Hflt _ _ _ Hres).
  eexists _, _, d4. split; [reflexivity|]. cbn [sw_sourceID sw_formatVersion sw_reserves rs_open].
  by split_and!.
Qed.
