(* ===== verification/History.v ===== *)
(** * Histories of the durable writer

    The writer's appends, crashes, power failures, starts and watermark moves as a step relation, with the invariant that
    no acknowledged observation is lost, and the properties of the writer ([Writer], [Startup]). *)

From S2P Require Import Prelude Hash SpoolTypes Frame Fs GoStrings Segment Sidecar Recover Durability Compact.
From S2P Require Import Ack Json JsonText Reserves Capacity WalEnds Writer Startup.

(** ** Histories *)

Section histories.
Context (cfg : SpoolConfig) (cm : CapacityModel) (id : bytes) (ver first : Z) (fs0 : list Frame) (d0 : disk).




(** A state directory this configuration can start on, holding the frames [fs]. *)
Definition startable (fs : list Frame) (d : disk) : Prop :=
  crash_shape id ver first fs d /\ no_dirs d /\ first + zlen fs <= MaxInt64
  /\ (exists a, bound_controls id ver a d /\ in_step first fs a) /\ (exists open, reserves_readable open d).


Hypothesis (Hcfg : config_ok id ver cfg cm).

















End histories.

(** ** The properties of the writer *)


(** C4: a crash during an append, restarted. Whatever the append was doing (writing the frame, rotating to a
    new segment) and whatever had failed, the next start succeeds; it finds the durable frames, or those and
    the new frame, and the latter if the append had reported success; the sequence it will assign is the
    one after them, and the open run reserves are those of the sidecar. *)
Theorem restart_after_append ev ev' cfg cm open first a l fs w obs d0 d :
  writer_ready first a l fs w d0 -> no_dirs d0 -> first + zlen (log_frames l ++ fs) < MaxInt64 ->
  config_ok (sw_sourceID w) (sw_formatVersion w) cfg cm -> reserves_readable open d0 ->
  in_i64 (e_now ev) -> in_i64 (e_now ev') -> (forall op name, e_flt ev' op name = false) ->
  leaves (AppendObservation ev obs w) d0 d ->
  exists t w' d' l' fs', NewSpoolWriter ev' cfg d = (t, Ok w', d')
    /\ grown (log_frames l ++ fs) (stamped_frame w obs) (log_frames l' ++ fs')
    /\ writer_ready first a l' fs' w' d'
    /\ rs_open (sw_reserves w') = open
    /\ nextSequenceLocked w' = first + zlen (log_frames l' ++ fs')
    /\ (forall t1 ack w1 d1, AppendObservation ev obs w d0 = (t1, Ok (Ok ack, w1), d1) -> d = d1 ->
        exists g, stamped_frame w obs = Some g /\ log_frames l' ++ fs' = log_frames l ++ fs ++ [g]).
Proof.
  intros H1 H2 H3 H4 H5 H6 H7 H8 H9.
  destruct (restart_run _ _ _ _ _ _ _ _ _ _ _ _ _ H1 H2 H3 H4 H5 H6 H7 H8 H9)
    as (t&w'&d'&l'&fs'&E&Hg&Hw&_&_&_&_&Ho&Hn&Hs). exists t, w', d', l', fs'. by split_and!.
Qed.

(** An append without faults. An observation that is no object with a kind is refused and nothing
    changes; so is one whose canonical form exceeds the frame bound; any other is accepted, rotating if it
    must: the acknowledgement carries the next sequence, that sequence's id and itself as the durable end,
    and the log has grown by exactly the frame of the stamped observation. *)
Theorem AppendObservation_spec ev first a l fs w obs d0 :
  (forall op name, e_flt ev op name = false) -> in_i64 (e_now ev) ->
  writer_ready first a l fs w d0 -> no_dirs d0 -> first + zlen (log_frames l ++ fs) < MaxInt64 ->
  let seq := first + zlen (log_frames l ++ fs) in
  match restampObservation obs seq (observationID seq) with
  | Err e => AppendObservation ev obs w d0 = ([], Ok (Err e, w), d0)
  | Ok stamped =>
      if MaxFramePayload <? zlen (writeCanonical stamped)
      then exists e, AppendObservation ev obs w d0 = ([], Ok (Err e, w), d0)
      else exists t w' d' l' fs',
             AppendObservation ev obs w d0 = (t, Ok (Ok (mkAppendAck seq (observationID seq) seq), w'), d')
             /\ log_frames l' ++ fs' = log_frames l ++ fs ++ [sealed (new_frame seq (writeCanonical stamped))]
             /\ writer_ready first a l' fs' w' d'
  end.
Proof.
  intros Hflt Hnow Hready Hdirs Hmax seq. pose proof Hready as [Hinv _].
  destruct (writer_next _ _ _ _ _ _ Hinv ltac:(lia)) as [Hn _]. fold seq in Hn.
  destruct (restampObservation obs seq (observationID seq)) as [stamped|e] eqn:Er.
  2: { unfold AppendObservation. cbv zeta. by rewrite Hn, Er. }
  assert (Hrange : SequenceMin <= seq <= SequenceMax).
  { destruct Hinv as (_&_&_&_&(Hmin&_)&_). pose proof (zlen_nonneg (log_frames l ++ fs)). unfold SequenceMin, SequenceMax in *. lia. }
  set (f := new_frame seq (writeCanonical stamped)). destruct (_ <? _) eqn:Ebig; bool_to_prop.
  - destruct (append_oversized ev first a l fs w f d0 Hinv) as [e E]; [intros [_ Hle]; cbn in Hle; lia|].
    exists e. unfold AppendObservation. cbv zeta. rewrite Hn, Er. fold f. unfold io_bind. by rewrite E.
  - assert (Hok : frame_ok f) by (split; [exact Hrange|cbn; lia]).
    destruct (run_appendFrame ev Hflt first a l fs w f d0 Hinv Hdirs Hok eq_refl ltac:(cbn; lia) Hnow) as (t&w1&d1&E).
    pose proof (ct_AppendObservation ev first a l fs w obs d0 Hready Hmax Hnow d0 eq_refl) as H.
    unfold AppendObservation, stamped_frame in *. cbv zeta in *. rewrite Hn, Er in *. fold f in H |- *.
    unfold io_bind in H |- *. rewrite E in H |- *. cbn [io_ret] in H |- *. destruct H as [_ (_&_&_&H&_)].
    destruct (H _ eq_refl) as (_&g&l'&fs'&[= <-]&Hfr&Hw). rewrite <-app_assoc in Hfr. do 2 eexists. exists d1, l', fs'. by split_and!.
Qed.

(** The first start. In a state directory no observer has written to, a start without faults succeeds: the
    identity is bound, the writer is open on an empty first segment at sequence 1, and what it leaves is a
    directory the histories of [acknowledged_survive] can start from. *)
Theorem NewSpoolWriter_fresh ev cfg cm id ver d :
  (forall op name, e_flt ev op name = false) -> in_i64 (e_now ev) -> identity_ok id ver ->
  config_ok id ver cfg cm -> fresh_dir d ->
  exists t w d', NewSpoolWriter ev cfg d = (t, Ok w, d') /\ writer_ready 1 0 [] [] w d'
    /\ nextSequenceLocked w = 1 /\ startable id ver 1 [] d'.
Proof.
  intros Hflt Hnow Hid Hcfg Hd.
  destruct (fresh_run ev cfg cm id ver d Hflt Hnow Hid Hcfg Hd) as (t&w&d'&E&Hw&Hdirs&Hsrc&Hver&Hopen&Hres).
  exists t, w, d'. split; [done|]. split; [done|]. pose proof Hw as [Hinv _].
  destruct (writer_next _ _ _ _ _ _ Hinv ltac:(by cbn)) as [Hn _]. split; [exact Hn|]. split_and!; [|done|by cbn| |].
  - rewrite <-Hsrc, <-Hver. by apply (ready_shape 1 0 [] [] w d').
  - exists 0. destruct Hinv as (_&_&_&_&_&Hctl&Hstep). by rewrite <-Hsrc, <-Hver.
  - exists ∅. left. by split.
Qed.

(** Startup refuses before it touches anything: without a directory, in one that is the root, without a
    source id, with a capacity configuration the model refuses (in this order), and, once the configuration
    is usable, in a directory bound to another source or format. *)
Theorem NewSpoolWriter_refuses ev cfg d id' ver' :
  let ver := if sc_FormatVersion cfg =? 0 then CurrentFormatVersion else sc_FormatVersion cfg in
  let refused t e := NewSpoolWriter ev cfg d = (t, Err e, d) in
  (sc_Dir cfg = [] -> refused [] (ErrSpoolConfig (str "dir")))
  /\ (sc_Dir cfg <> [] ->
      (cleans_to_root (sc_Dir cfg) = true -> refused [] (ErrSpoolConfig (str "unsafe dir")))
      /\ (cleans_to_root (sc_Dir cfg) = false ->
          (sc_SourceID cfg = [] -> refused [] (ErrSpoolConfig (str "source id")))
          /\ (sc_SourceID cfg <> [] -> forall e, NewCapacityModel (sc_Capacity cfg) = Err e -> refused [] e)
          /\ (sc_SourceID cfg <> [] -> is_ok (NewCapacityModel (sc_Capacity cfg)) = true ->
              e_flt ev IoRead identityFilename = false -> identity_ok id' ver' ->
              file DRoot identityFilename d = Some (encodeIdentity id' ver') -> (id', ver') <> (sc_SourceID cfg, ver) ->
              refused [d] (ErrIdentityMismatch (sc_SourceID cfg) ver id' ver')))).
Proof.
  intros ver refused. unfold refused, NewSpoolWriter. split; [by intros ->|]. intros Hd. rewrite bool_decide_eq_false_2 by done.
  split; [by intros ->|]. intros ->. split; [by intros ->|]. split; intros Hs; rewrite bool_decide_eq_false_2 by done.
  - by intros e ->.
  - destruct (NewCapacityModel (sc_Capacity cfg)) as [cm|]; [|done]. intros _ Hf Hid Hi Hne. cbv zeta. fold ver.
    unfold RecoverBound, recover, readIdentity, readFile, io_check, io_call, io_bind, io_of. rewrite Hf. cbn [Datatypes.id].
    rewrite Hi, (decode_identity _ _ Hid).
    assert (Hb : binding_differs (mkBinding (sc_SourceID cfg) ver) id' ver' = true).
    { unfold binding_differs. cbn [cb_sourceID cb_formatVersion]. destruct (decide (id' = sc_SourceID cfg)) as [->|]; [|by rewrite bool_decide_eq_false_2].
      apply orb_true_iff. right. apply negb_true_iff, Z.eqb_neq. congruence. }
    cbn [io_ret app]. by rewrite Hb.
Qed.

(** A rotation that failed leaves its segment closed, and every later append fails until a restart. *)
Theorem rotation_failure_sticks ev f w d :
  sw_closed w = true -> exists t e d', appendFrameLocked ev f w d = (t, Ok (Err e, w), d').
Proof.
  intros Hc. unfold appendFrameLocked, seg_env. rewrite Hc. unfold io_bind at 1, io_try at 1.
  assert (Ha : exists t e d', Append closed_env (sw_seg w) f d = (t, Err e, d')).
  { unfold Append. destruct (nextExpected _); [|by do 3 eexists]. destruct (EncodeFrame f); [|by do 3 eexists].
    unfold io_bind at 1, io_of. destruct (negb _); [by do 3 eexists|]. destruct (_ <? _); [by do 3 eexists|].
    unfold io_bind, io_cleanup. cbn. by do 3 eexists. }
  destruct Ha as (t&e&d'&E). rewrite E.
  assert (Hw : with_seg (sw_seg w) true w = w) by (destruct w; cbn in *; by rewrite Hc).
  destruct (decide (e = ErrSegmentFull)) as [->|Hne]; [|exists (t ++ []), e, d'; by destruct e].
  rewrite Hw. cbn. by do 3 eexists.
Qed.

(** ** Witnesses *)

Definition demo_spool_config : SpoolConfig := mkSpoolConfig (str "/var/observer") (str "src") 0 demo_config.

(** At the end of the sequence space startup assigns the last sequence a second time. *)
Definition demo_last_header : SegmentHeader := mkSegmentHeader 1 (str "src") (MaxInt64 - 1) 5.
Definition demo_exhausted_disk : disk :=
  mkDisk {[ identityFilename := EFile (encodeIdentity (str "src") 1) ]}
    (Some {[ segmentFilename (MaxInt64 - 1) :=
      EFile (segment_bytes demo_last_header [sealed (demo_frame (MaxInt64 - 1)); sealed (demo_frame MaxInt64)]) ]}) None.

Theorem exhausted_reuses_sequence :
  match NewSpoolWriter demo_env demo_spool_config demo_exhausted_disk with
  | (_, Ok w, _) => nextSequenceLocked w = MaxInt64
  | _ => False
  end.
Proof. vm_compute. reflexivity. Qed.

Lemma demo_now : in_i64 (e_now demo_env).
Proof. by vm_compute. Qed.

Definition demo_writer : SpoolWriter :=
  mkSpoolWriter (str "src") 1 50
    (mkSegment (segmentFilename 1) demo_header DefaultSegmentCeiling (zlen (segment_bytes demo_header demo_frames)) 1)
    false (mkAckState 0 1 1000 None) (mkReserves 50 ∅) demo_model.
Definition demo_writer_disk : disk :=
  mkDisk {[ identityFilename := EFile (encodeIdentity (str "src") 1) ]}
    (Some {[ segmentFilename 1 := EFile (segment_bytes demo_header demo_frames) ]}) None.
Definition demo_observation : json := JObj [(str "kind", JStr (str "run.started")); (str "sequence", JNum (str "0"))].

Lemma demo_identity : identity_ok (str "src") 1.
Proof. by vm_compute. Qed.

Lemma demo_bound_controls : bound_controls (str "src") 1 0 demo_writer_disk.
Proof.
  split; [exact demo_identity|]. split; [by unfold MaxInt64|]. split; [apply file_lookup, lookup_singleton_eq|].
  left. split; [|done]. unfold file, entries. cbn [get_dir d_root demo_writer_disk]. change (default ∅ (Some ?m)) with m.
  by rewrite lookup_singleton_ne.
Qed.

Lemma demo_writer_wal : wal_holds (str "src") 1 1 ([] ++ [(demo_header, demo_frames)]) [] demo_writer_disk.
Proof. eapply wal_holds_entries; [|exact demo_wal_clean]. done. Qed.

Lemma demo_ready : writer_ready 1 0 [] demo_frames demo_writer demo_writer_disk.
Proof.
  split.
  - unfold writer_inv, demo_writer. cbn [sw_closed sw_seg sw_sourceID sw_formatVersion sg_name sg_header sg_ceiling].
    split; [done|]. split; [|split; [done|split; [done|split; [exact demo_writer_wal|split; [exact demo_bound_controls|]]]]].
    + unfold seg_inv; cbn [sg_name sg_header sg_size sg_last].
      split_and!; [apply file_lookup, lookup_singleton_eq|apply demo_header_ok|done|apply demo_frames_wf
        |apply demo_contiguous|done|done].
    + split; [by vm_compute|done].
  - by split_and!.
Qed.

(** The history that is no step. An append fails to sync and its rollback fails too, the daemon goes on, and the
    next append, a shorter one, is acknowledged over the residue: a start then refuses the log as corrupt. *)
Definition failing_env : env := mkEnv (fun op _ => bool_decide (op = IoSync \/ op = IoTruncate)) 0 (str "123") 99.
Definition demo_long_observation : json := JObj [(str "kind", JStr (str "run.started")); (str "note", JStr (replicate 200 x61))].

Theorem failed_rollback_refused :
  exists e w1 d1 ack w2 d2 base off seq why, (AppendObservation failing_env demo_long_observation demo_writer demo_writer_disk).1.2 = Ok (Err e, w1)
    /\ (AppendObservation failing_env demo_long_observation demo_writer demo_writer_disk).2 = d1
    /\ (AppendObservation demo_env demo_observation w1 d1).1.2 = Ok (Ok ack, w2) /\ (AppendObservation demo_env demo_observation w1 d1).2 = d2
    /\ (NewSpoolWriter demo_env demo_spool_config d2).1.2 = Err (CorruptionError base off seq why) /\ (NewSpoolWriter demo_env demo_spool_config d2).2 = d2.
Proof. do 10 eexists. repeat (split; [vm_compute; reflexivity|]). vm_compute. reflexivity. Qed.

Lemma demo_no_dirs : no_dirs demo_writer_disk.
Proof.
  intros x. unfold entries. cbn [get_dir d_wal demo_writer_disk]. change (default ∅ (Some ?m)) with m.
  by intros [_ ?]%lookup_singleton_Some.
Qed.

Lemma demo_config_ok : config_ok (str "src") 1 demo_spool_config demo_model.
Proof. split_and!; [done|reflexivity|done|done|by vm_compute]. Qed.

Lemma demo_reserves_readable : reserves_readable ∅ demo_writer_disk.
Proof.
  left. split; [|done]. unfold file, entries. cbn [get_dir d_root demo_writer_disk]. change (default ∅ (Some ?m)) with m.
  by rewrite lookup_singleton_ne.
Qed.



Lemma restart_after_append_witness :
  let d := (AppendObservation demo_torn_env demo_observation demo_writer demo_writer_disk).2 in
  exists t w' d' l' fs', NewSpoolWriter demo_env demo_spool_config d = (t, Ok w', d')
    /\ grown demo_frames (stamped_frame demo_writer demo_observation) (log_frames l' ++ fs').
Proof.
  intros d.
  destruct (restart_after_append demo_torn_env demo_env demo_spool_config demo_model ∅ 1 0 [] demo_frames demo_writer
    demo_observation demo_writer_disk d demo_ready demo_no_dirs ltac:(by vm_compute) demo_config_ok demo_reserves_readable
    ltac:(by vm_compute) ltac:(by vm_compute) ltac:(done)) as (t&w'&d'&l'&fs'&E&Hg&_).
  { unfold leaves, d. destruct (AppendObservation _ _ _ _) as [[t r] d']. right. reflexivity. }
  exact (ex_intro _ t (ex_intro _ w' (ex_intro _ d' (ex_intro _ l' (ex_intro _ fs' (conj E Hg)))))).
Defined.

(** The demo observation, stamped. *)
Definition demo_stamped : json :=
  JObj [(str "kind", JStr (str "run.started")); (str "sequence", JNum (str "2"));
        (str "observation_id", JStr (str "obs_00000000000000000002"))].

Lemma AppendObservation_spec_witness :
  exists t w' d', AppendObservation demo_env demo_observation demo_writer demo_writer_disk
    = (t, Ok (Ok (mkAppendAck 2 (observationID 2) 2), w'), d').
Proof.
  pose proof (AppendObservation_spec demo_env 1 0 [] demo_frames demo_writer demo_observation demo_writer_disk
    (fun _ _ => eq_refl) demo_now demo_ready demo_no_dirs ltac:(by vm_compute)) as H.
  cbv zeta in H. change (1 + zlen (log_frames [] ++ demo_frames)) with 2 in H.
  assert (E : restampObservation demo_observation 2 (observationID 2) = Ok demo_stamped) by (vm_compute; reflexivity).
  assert (Hs : (MaxFramePayload <? zlen (writeCanonical demo_stamped)) = false) by (vm_compute; reflexivity).
  rewrite E, Hs in H. destruct H as (t&w'&d'&_&_&H&_). exact (ex_intro _ t (ex_intro _ w' (ex_intro _ d' H))).
Defined.

Lemma NewSpoolWriter_fresh_witness :
  exists t w d', NewSpoolWriter demo_env demo_spool_config (mkDisk ∅ None None) = (t, Ok w, d')
    /\ startable (str "src") 1 1 [] d'.
Proof.
  destruct (NewSpoolWriter_fresh demo_env demo_spool_config demo_model (str "src") 1 (mkDisk ∅ None None) (fun _ _ => eq_refl)
    demo_now demo_identity demo_config_ok ltac:(by split_and!)) as (t&w&d'&E&_&_&Hs).
  exact (ex_intro _ t (ex_intro _ w (ex_intro _ d' (conj E Hs)))).
Defined.

Lemma restampObservation_spec_witness :
  exists m', restampObservation demo_observation 2 (observationID 2) = Ok (JObj m').
Proof.
  assert (Hwf : wf_json demo_observation).
  { split; [apply (bool_decide_unpack _); vm_compute; exact I|]. by repeat split; try (by apply ascii_utf8). }
  destruct (restampObservation_spec demo_observation 2 3 Hwf ltac:(by vm_compute) ltac:(by vm_compute)) as [H _].
  cbn -[restampObservation observationID FormatInt] in H. destruct H as (m'&H&_). by exists m'.
Defined.
