(* ===== verification/Local.v ===== *)
(** * The local socket: server and client ([internal/observer/local/server_unix.go], [client_unix.go])

    The server verifies its peer, reads one bounded request, dispatches it to the writer and the registry and
    replies; the client seals, sends and interprets the reply. The theorems compose the two over a
    connection that may lose any suffix of either message: an acknowledgement proves the observation is
    durable ([capture_durable]), without faults the capture is acknowledged and projected
    ([capture_accepted]), and the queries answer what the registry answers ([client_queries]). *)

From S2P Require Import Prelude Hash SpoolTypes Frame Fs GoStrings GoPath Segment Sidecar Recover Compact Ack Reserves Capacity.
From S2P Require Import Json JsonText GoJson GoMarshal MemberOrder WireTypes Batch StrictDecode Sendable GoLit Fields Evidence Sealed.
From S2P Require Import WalEnds Writer Stored Registry Startup History Protocol.

(** ** The server *)

Record Server : Type := mkServer { sv_spool : SpoolWriter; sv_registry : option Registry }.

Record ServerConfig : Type := mkServerConfig { cf_expectedUID : Z; cf_maxMessageBytes : Z }.

Inductive path_error : Type :=
| ErrDirRequired
| ErrUnsafeDirectory (path : bytes)
| ErrSocketPath (path : bytes).

Definition socketFilename : bytes := str "socket".

(** [euid] is the effective user id. An explicit socket lives next to the state or in the user's own runtime
    directory. *)
Definition ValidateServerPaths (euid : Z) (dir socketPath : bytes) : result path_error bytes :=
  if bool_decide (dir = []) then Err ErrDirRequired
  else
    let cleanDir := Clean dir in
    if bool_decide (cleanDir = [x2f]) then Err (ErrUnsafeDirectory cleanDir)
    else if bool_decide (socketPath = []) then Ok (Clean (cleanDir ++ x2f :: socketFilename))
    else if negb (HasPrefix socketPath [x2f]) then Err (ErrSocketPath socketPath)
    else
      let socketPath := Clean socketPath in
      let runtimeDir := Dir socketPath in
      if bool_decide (runtimeDir = [x2f]) then Err (ErrUnsafeDirectory runtimeDir)
      else if negb (bool_decide (Base socketPath = socketFilename)) then Err (ErrSocketPath socketPath)
      else if negb (bool_decide (runtimeDir = cleanDir))
              && negb (bool_decide (Base runtimeDir = str "gasworks-observer-" ++ FormatInt euid))
      then Err (ErrSocketPath socketPath)
      else Ok socketPath.

Definition ok_response : Response := mkResponse StatusOK None None None None None None None.
Definition errorResponse (code message : bytes) : Response :=
  mkResponse StatusError (Some (mkErrorBody code message)) None None None None None None.

Definition append_response (a : AppendAck) : Response := mkResponse StatusOK None (Some a) None None None None None.
Definition reserve_response (a : RunReserveAck) : Response := mkResponse StatusOK None None (Some a) None None None None.
Definition health_response (h : HealthSnapshot) : Response := mkResponse StatusOK None None None (Some h) None None None.
Definition lookup_response (x : bytes * bool) : Response := mkResponse StatusOK None None None None (Some (mkLookupAck x.2 x.1)) None None.
Definition resolve_response (s : InheritedRunStatus) : Response := mkResponse StatusOK None None None None None (Some (inherited_token s)) None.
Definition bind_response : Response := mkResponse StatusOK None None None None None None (Some true).

(** The union's text between the fixed members of a batch, as the value it is. *)
Definition local_batch (obs : json) : json :=
  JObj [(str "schema_version", JNum (str "1")); (str "source_id", JStr (str "local")); (str "first_sequence", JNum (str "1"));
        (str "last_sequence", JNum (str "1")); (str "observations", JArr [obs])].

Definition validateObservationSchema (obs : json) : dres unit :=
  hdr ← strictDecodeVariant (local_batch obs) header_type []; _ ← decode_header hdr; Ok tt.

Definition with_spool (w : SpoolWriter) (sv : Server) : Server := mkServer w (sv_registry sv).

(** A fold error leaves the registry as it was and is ignored. *)
Definition fold_registry (obs : json) (sv : Server) : Server :=
  mkServer (sv_spool sv) (match sv_registry sv with
    | Some r => match Fold obs r with Ok r' => Some r' | Err _ => Some r end
    | None => None
    end).

(** [DecodeRequest] made sure of the bodies [dispatch] dereferences ([validate_Ok]). *)
Definition dispatch_append (ev : env) (obs : json) (sv : Server) : IO (Response * Server) :=
  match validateObservationSchema obs with
  | Err _ => io_ret (errorResponse (str "INVALID_OBSERVATION") (str "invalid observation"), sv)
  | Ok _ =>
      let! r := AppendObservation ev (collapse obs) (sv_spool sv) in
      let '(ack, w) := r in
      let sv := with_spool w sv in
      match ack with
      | Err _ => io_ret (errorResponse (str "APPEND_FAILED") (str "append failed"), sv)
      | Ok ack => io_ret (append_response ack, fold_registry obs sv)
      end
  end.

Definition dispatch_reserve (code message : bytes) (m : IO (sres RunReserveAck * SpoolWriter)) (sv : Server) : IO (Response * Server) :=
  let! r := m in
  let '(ack, w) := r in
  io_ret (match ack with Ok a => reserve_response a | Err _ => errorResponse code message end, with_spool w sv).

Definition unavailable (code : bytes) : Response := errorResponse code (str "registry unavailable").

Definition dispatch (ev : env) (req : Request) (sv : Server) : IO (Response * Server) :=
  let kind := rq_Kind req in
  if bool_decide (kind = KindAppendObservation) then dispatch_append ev (default JNull (rq_Append req)) sv
  else if bool_decide (kind = KindReserveRun) then
    dispatch_reserve (str "RESERVE_FAILED") (str "reserve failed") (ReserveRun ev (default [] (rq_ReserveRun req)) (sv_spool sv)) sv
  else if bool_decide (kind = KindReleaseRun) then
    dispatch_reserve (str "RELEASE_FAILED") (str "release failed") (ReleaseRun ev (default [] (rq_ReleaseRun req)) (sv_spool sv)) sv
  else if bool_decide (kind = KindStatus) then
    let! h := io_try (Health ev (sv_spool sv)) in
    io_ret (match h with Ok h => health_response h | Err _ => errorResponse (str "HEALTH_FAILED") (str "health read failed") end, sv)
  else if bool_decide (kind = KindLookupRegisteredProcess) then
    io_ret (match sv_registry sv with
            | None => unavailable (str "LOOKUP_FAILED")
            | Some r => lookup_response (LookupRegistered (default (mkProcessIdentity [] 0 0) (rq_LookupRegistered req)) r)
            end, sv)
  else if bool_decide (kind = KindResolveInheritedRun) then
    let x := default ([], []) (rq_ResolveInherited req) in
    io_ret (match sv_registry sv with
            | None => unavailable (str "RESOLVE_FAILED")
            | Some r => resolve_response (ResolveInherited x.1 x.2 r)
            end, sv)
  else if bool_decide (kind = KindBindSession) then
    let x := default ([], []) (rq_BindSession req) in
    io_ret (match sv_registry sv with
            | None => (unavailable (str "BIND_FAILED"), sv)
            | Some r => (bind_response, mkServer (sv_spool sv) (Some (BindSession x.1 x.2 r)))
            end)
  else io_ret (errorResponse (str "BAD_REQUEST") (str "unknown request kind"), sv).

(** The bytes of the reply; one that cannot be encoded or is over the bound is not written. *)
Definition writeReply (cfg : ServerConfig) (resp : Response) : bytes :=
  match EncodeResponse resp with
  | None => []
  | Some b => match writeMessage b (cf_maxMessageBytes cfg) with Ok out => out | Err _ => [] end
  end.

(** One connection: the peer's identity if it can be read, and the bytes that arrive before the deadline. *)
Definition handle (ev : env) (cfg : ServerConfig) (peer : option Z) (input : bytes) (sv : Server) : IO (bytes * Server) :=
  match peer with
  | None => io_ret ([], sv)
  | Some uid =>
      if negb (uid =? cf_expectedUID cfg) then io_ret ([], sv)
      else
        match readMessage input (cf_maxMessageBytes cfg) with
        | Err _ => io_ret ([], sv)
        | Ok (reqBytes, _) =>
            match DecodeRequest reqBytes with
            | Err _ => io_ret (writeReply cfg (errorResponse (str "BAD_REQUEST") (str "malformed request")), sv)
            | Ok req => let! r := dispatch ev req sv in let '(resp, sv) := r in io_ret (writeReply cfg resp, sv)
            end
        end
  end.

(** ** The client *)

Inductive client_error : Type :=
| ErrSealPending (e : build_error)
| ErrDaemonUnreachable
| ErrNoDurableAck
| ErrMessage (e : message_error)
| ErrEncodeRequest
| ErrMalformedResponse
| ErrServerError (e : option ErrorBody)
| ErrCaptureUnacknowledged (e : client_error).

(** What the network does to one call: whether dialling, setting the deadline and writing succeed, and what
    arrives in reply to the bytes written. *)
Record Conn : Type := mkConn { cn_dial : bool; cn_deadline : bool; cn_write : bool; cn_reply : bytes -> bytes }.

Definition placeholderObservationID : bytes := str "obs_pending".

(** What a call writes. *)
Definition request_bytes (maxBytes : Z) (req : Request) : result client_error bytes :=
  match EncodeRequest req with
  | None => Err ErrEncodeRequest
  | Some payload => match writeMessage payload maxBytes with Ok out => Ok out | Err e => Err (ErrMessage e) end
  end.

Definition roundTrip (maxBytes : Z) (cn : Conn) (req : Request) : result client_error Response :=
  if negb (cn_dial cn) then Err ErrDaemonUnreachable
  else if negb (cn_deadline cn) then Err ErrNoDurableAck
  else
    out ← request_bytes maxBytes req;
    if negb (cn_write cn) then Err ErrNoDurableAck
    else
      match readMessage (cn_reply cn out) maxBytes with
      | Err ErrShortMessage => Err ErrNoDurableAck
      | Err e => Err (ErrMessage e)
      | Ok (respBytes, _) => match DecodeResponse respBytes with Some resp => Ok resp | None => Err ErrMalformedResponse end
      end.

(** The typed body of an [OK] response. *)
Definition body {A} (get : Response -> option A) (resp : Response) : result client_error A :=
  if negb (bool_decide (rp_Status resp = StatusOK)) then Err (ErrServerError (rp_Error resp))
  else match get resp with Some a => Ok a | None => Err ErrMalformedResponse end.

Definition request (kind : bytes) : Request := mkRequest kind None None None None None None.
Definition append_request (obs : json) : Request := mkRequest KindAppendObservation (Some obs) None None None None None.

Definition Client_AppendObservation (maxBytes : Z) (cn : Conn) (p : PendingObservation) : result client_error AppendAck :=
  match Seal p SequenceMin placeholderObservationID with
  | Err e => Err (ErrSealPending e)
  | Ok obs => resp ← roundTrip maxBytes cn (append_request obs); body rp_Append resp
  end.

Definition CaptureObservation (maxBytes : Z) (cn : Conn) (p : PendingObservation) : result client_error AppendAck :=
  match Client_AppendObservation maxBytes cn p with Ok a => Ok a | Err e => Err (ErrCaptureUnacknowledged e) end.

Definition runReserve (maxBytes : Z) (cn : Conn) (kind runID : bytes) : result client_error RunReserveAck :=
  let req := if bool_decide (kind = KindReserveRun) then mkRequest kind None (Some runID) None None None None
             else mkRequest kind None None (Some runID) None None None in
  resp ← roundTrip maxBytes cn req; body rp_Reserve resp.
Definition Client_ReserveRun (maxBytes : Z) (cn : Conn) := runReserve maxBytes cn KindReserveRun.
Definition Client_ReleaseRun (maxBytes : Z) (cn : Conn) := runReserve maxBytes cn KindReleaseRun.

Definition Client_Status (maxBytes : Z) (cn : Conn) : result client_error HealthSnapshot :=
  resp ← roundTrip maxBytes cn (request KindStatus); body rp_Health resp.

Definition lookup_request (i : ProcessIdentity) : Request := mkRequest KindLookupRegisteredProcess None None None (Some i) None None.
Definition LookupRegisteredProcess (maxBytes : Z) (cn : Conn) (i : ProcessIdentity) : result client_error (bytes * bool) :=
  resp ← roundTrip maxBytes cn (lookup_request i);
  a ← body rp_LookupRegistered resp; Ok (la_RunID a, la_Found a).

Definition resolve_request (runID workspace : bytes) : Request := mkRequest KindResolveInheritedRun None None None None (Some (runID, workspace)) None.
Definition ResolveInheritedRun (maxBytes : Z) (cn : Conn) (runID workspace : bytes) : result client_error InheritedRunStatus :=
  resp ← roundTrip maxBytes cn (resolve_request runID workspace);
  token ← body rp_ResolveInherited resp;
  match inherited_of token with Some s => Ok s | None => Err ErrMalformedResponse end.

Definition bind_request (nativeSessionID runID : bytes) : Request := mkRequest KindBindSession None None None None None (Some (nativeSessionID, runID)).
Definition Client_BindSession (maxBytes : Z) (cn : Conn) (nativeSessionID runID : bytes) : result client_error unit :=
  resp ← roundTrip maxBytes cn (bind_request nativeSessionID runID);
  bound ← body rp_BindSession resp;
  if bound : bool then Ok tt else Err ErrMalformedResponse.

(** ** A call *)

(** A connection on which the daemon receives the first [n] bytes written to it and the client the first
    [k] of the reply. *)
Definition connected (reply : bytes) (k : nat) : Conn := mkConn true true true (fun _ => take k reply).

(** A client call whose request is [req], served by the daemon over such a connection. *)
Definition call {A} (ev : env) (cfg : ServerConfig) (uid : Z) (n k : nat) (maxBytes : Z) (req : Request)
    (client : Conn -> result client_error A) (sv : Server) : IO (result client_error A * Server) :=
  match request_bytes maxBytes req with
  | Err _ => io_ret (client (connected [] k), sv)
  | Ok sent => let! r := handle ev cfg (Some uid) (take n sent) sv in io_ret (client (connected r.1 k), r.2)
  end.

(** A capture over a connection. *)
Definition capture (ev : env) (cfg : ServerConfig) (uid : Z) (n k : nat) (maxBytes : Z) (p : PendingObservation) (sv : Server)
  : IO (result client_error AppendAck * Server) :=
  match Seal p SequenceMin placeholderObservationID with
  | Err _ => io_ret (CaptureObservation maxBytes (connected [] k) p, sv)
  | Ok obs => call ev cfg uid n k maxBytes (append_request obs) (fun cn => CaptureObservation maxBytes cn p) sv
  end.

(** ** The schema check is the Collector's *)

Lemma local_batch_header obs : decode_as true header_type (local_batch obs) = Ok (header_value (str "1") (str "1") (str "local") [obs]).
Proof.
  pose proof (header_decodes (str "1") (str "1") (str "local") [obs]) as H. unfold local_batch, header_type in *.
  apply decode_as_object in H as (vs&Hv&H). apply decode_as_object. exists vs. split; [exact Hv|]. rewrite <-H. apply member_updates_perm.
  - apply (Permutation_app_comm [_; _] [_; _; _]).
  - cbn [map fst]. refine (bool_decide_eq_true_1 _ _). vm_compute. reflexivity.
Qed.

Lemma validateObservationSchema_Ok obs : validateObservationSchema obs = Ok tt <-> exists o, accepted obs o.
Proof.
  unfold validateObservationSchema, strictDecodeVariant. rewrite local_batch_header. cbn [mbind result_bind]. unfold decode_header.
  destruct (header_gets (str "1") (str "1") (str "local") [obs]) as (-> & -> & -> & -> & ->). cbn [as_string as_slice map as_raw].
  change (ParseInt (str "1")) with (Some 1). cbv iota. change (1 =? SupportedSchemaVersion) with true. cbv iota.
  assert (Hp : forall f, parseSequence (str "1") f = Ok 1) by reflexivity. rewrite !Hp. cbn [mbind result_bind decodeObservations].
  destruct (decodeObservation obs 0) as [o|e] eqn:E; cbn [mbind result_bind].
  - split; [|done]. intros _. exists o. by eapply observation_accepted.
  - split; [done|]. intros (o&Ho%(accepted_observation _ 0)). congruence.
Qed.

(** ** One exchange *)

(** No proper prefix of a message is a message, and no other message starts it. *)
Lemma readMessage_prefix raw n max p rest :
  max < 2 ^ 32 -> zlen raw < 2 ^ 32 ->
  readMessage (take n (be_enc lengthPrefixBytes (u32 (zlen raw)) ++ raw)) max = Ok (p, rest) -> p = raw.
Proof.
  intros Hmax Hraw [H Hp]%readMessage_Ok; [|done]. pose proof (zlen_nonneg raw). unfold u32 in H. rewrite Z.mod_small in H by lia.
  set (F := be_enc _ (zlen raw) ++ raw) in *. pose proof (take_drop n F) as E. rewrite H in E. unfold F in E at 2.
  rewrite <-!app_assoc in E. apply app_inj_1 in E as [E1 E2]; [|by rewrite !length_be_enc].
  apply (f_equal be_dec) in E1. rewrite !be_dec_enc_id in E1 by (change (256 ^ Z.of_nat lengthPrefixBytes) with (2 ^ 32); lia).
  apply (f_equal (take (length p))) in E2. rewrite take_app_length in E2. rewrite E2, take_ge; [done|]. unfold zlen in E1. lia.
Qed.

Lemma writeMessage_prefix b max out n max' p rest :
  max < 2 ^ 32 -> max' < 2 ^ 32 -> writeMessage b max = Ok out -> readMessage (take n out) max' = Ok (p, rest) -> p = b.
Proof.
  intros Hmax Hmax'. unfold writeMessage. destruct (max <? zlen b) eqn:E; [done|]. bool_to_prop. intros [= <-]. apply readMessage_prefix; lia.
Qed.

Lemma readMessage_nil max : readMessage [] max = Err ErrShortMessage.
Proof. done. Qed.

(** The bounds both sides use fit the length prefix. *)
Definition bounded_messages (cfg : ServerConfig) (maxBytes : Z) : Prop := cf_maxMessageBytes cfg < 2 ^ 32 /\ maxBytes < 2 ^ 32.

(** What a round trip that returns a response has seen: the daemon got the whole request, served it, and its
    whole reply arrived. *)
Lemma call_response ev cfg uid n k maxBytes req sv d t out sv' d' sent resp :
  bounded_messages cfg maxBytes -> request_ok req -> validate req = Ok tt ->
  request_bytes maxBytes req = Ok sent -> handle ev cfg (Some uid) (take n sent) sv d = (t, Ok (out, sv'), d') ->
  roundTrip maxBytes (connected out k) req = Ok resp ->
  uid = cf_expectedUID cfg /\ exists served, dispatch ev req sv d = (t, Ok (served, sv'), d') /\ (response_ok served -> resp = served).
Proof.
  intros [Hcfg Hmax] Hr Hv Hs Hh Hc. unfold roundTrip in Hc. cbn [cn_dial cn_deadline cn_write cn_reply connected negb] in Hc.
  rewrite Hs in Hc. cbn [mbind result_bind] in Hc. unfold handle in Hh.
  destruct (readMessage (take k out) maxBytes) as [[b rest]|e] eqn:Hread; [|by destruct e]. destruct (DecodeResponse b) as [x|] eqn:Hdec; [|done].
  injection Hc as <-. destruct (uid =? cf_expectedUID cfg) eqn:Hu; cbn [negb] in Hh.
  2:{ injection Hh as _ <- _ _. by rewrite take_nil in Hread. }
  destruct (readMessage (take n sent) (cf_maxMessageBytes cfg)) as [[b' rest']|e] eqn:Hread'.
  2:{ injection Hh as _ <- _ _. by rewrite take_nil in Hread. }
  unfold request_bytes in Hs. destruct (EncodeRequest req) as [payload|] eqn:He; [|done]. destruct (writeMessage payload maxBytes) as [w|e] eqn:Hw; [|done].
  injection Hs as ->. pose proof (writeMessage_prefix _ _ _ _ _ _ _ Hmax Hcfg Hw Hread') as ->.
  rewrite (DecodeRequest_encoded _ _ Hr Hv He) in Hh. split; [by apply Z.eqb_eq|].
  unfold io_bind in Hh. destruct (dispatch ev req sv d) as [[t1 [[served sv1]|e]] d1] eqn:Ed; [|done].
  cbn in Hh. rewrite app_nil_r in Hh. injection Hh as <- <- <- <-. exists served. split; [done|]. intros Hok.
  unfold writeReply in Hread. destruct (EncodeResponse served) as [sb|] eqn:Es; [|by rewrite take_nil in Hread].
  destruct (writeMessage sb (cf_maxMessageBytes cfg)) as [so|e] eqn:Eso; [|by rewrite take_nil in Hread].
  pose proof (writeMessage_prefix _ _ _ _ _ _ _ Hcfg Hmax Eso Hread) as ->. rewrite (DecodeResponse_encoded _ _ Hok Es) in Hdec. by injection Hdec.
Qed.

(** Without losses the response served is the response returned. *)
Definition request_fits (max : Z) (req : Request) : Prop := forall raw, EncodeRequest req = Some raw -> zlen raw <= max.
Definition response_fits (max : Z) (resp : Response) : Prop := forall raw, EncodeResponse resp = Some raw -> zlen raw <= max.

Lemma call_served ev cfg maxBytes req sv d t served sv' d' :
  bounded_messages cfg maxBytes -> request_ok req -> validate req = Ok tt ->
  request_fits maxBytes req -> request_fits (cf_maxMessageBytes cfg) req ->
  dispatch ev req sv d = (t, Ok (served, sv'), d') -> response_ok served ->
  response_fits maxBytes served -> response_fits (cf_maxMessageBytes cfg) served ->
  exists sent out, request_bytes maxBytes req = Ok sent
    /\ (forall n, (length sent <= n)%nat -> handle ev cfg (Some (cf_expectedUID cfg)) (take n sent) sv d = (t, Ok (out, sv'), d'))
    /\ (forall k, (length out <= k)%nat -> roundTrip maxBytes (connected out k) req = Ok served).
Proof.
  intros [Hcfg Hmax] Hr Hv Hf Hf' Hd Hok Hg Hg'. destruct (request_encodes req) as [raw He], (response_encodes served) as [raw' He'].
  destruct (request_typed req Hr) as [Ht Hk], (response_typed served Hok) as [Ht' Hk']. pose proof envelopes_wire as [Hw Hw']%andb_prop.
  assert (P : 0 < zlen raw) by by eapply (Marshal_not_empty RequestType). assert (P' : 0 < zlen raw') by by eapply (Marshal_not_empty ResponseType).
  destruct (message_roundtrip raw maxBytes [] Hmax (conj P (Hf _ He))) as (sent&Hsent&_).
  destruct (message_roundtrip raw' (cf_maxMessageBytes cfg) [] Hcfg (conj P' (Hg' _ He'))) as (out&Hout&_).
  assert (Hread : forall b max max' w, max < 2 ^ 32 -> max' < 2 ^ 32 -> writeMessage b max = Ok w -> 0 < zlen b -> zlen b <= max' -> readMessage w max' = Ok (b, [])).
  { intros b max max' w H1 H2 H3 H4 H5. apply readMessage_Ok; [done|]. split; [|lia]. unfold writeMessage in H3.
    destruct (max <? zlen b) eqn:E; [done|]. bool_to_prop. injection H3 as <-. unfold u32. rewrite Z.mod_small by lia. by rewrite app_nil_r. }
  exists sent, out. split; [unfold request_bytes; by rewrite He, Hsent|]. split.
  - intros n Hn. unfold handle. rewrite Z.eqb_refl. cbn [negb]. rewrite take_ge by done.
    rewrite (Hread _ _ _ _ Hmax Hcfg Hsent P (Hf' _ He)), (DecodeRequest_encoded _ _ Hr Hv He). unfold io_bind. rewrite Hd. cbn. rewrite app_nil_r.
    unfold writeReply. by rewrite He', Hout.
  - intros k Hle. unfold roundTrip, request_bytes. cbn [cn_dial cn_deadline cn_write cn_reply connected negb]. rewrite He, Hsent. cbn [mbind result_bind].
    rewrite take_ge by done. by rewrite (Hread _ _ _ _ Hcfg Hmax Hout P' (Hg _ He')), (DecodeResponse_encoded _ _ Hok He').
Qed.

(** ** Captures *)

Lemma error_response_ok code message : forallb is_ascii code = true -> forallb is_ascii message = true -> response_ok (errorResponse code message).
Proof.
  intros Hc Hm. unfold response_ok. cbn. split; [by apply ascii_utf8|]. split; [intros e [= <-]; split; by apply ascii_utf8|]. by repeat split.
Qed.

Lemma append_response_ok seq : 1 <= seq <= MaxInt64 -> response_ok (append_response (mkAppendAck seq (observationID seq) seq)).
Proof.
  intros Hs. unfold response_ok. cbn. split; [by apply ascii_utf8|]. split; [done|]. split; [|by repeat split].
  intros a [= <-]. cbn. split; [unfold in_i64, MaxInt64 in *; lia|]. split; [apply ascii_utf8, observationID_ascii; lia|unfold in_i64, MaxInt64 in *; lia].
Qed.

(** What an acknowledged append has done. *)
Lemma append_ack ev obs w d t ack w' d' :
  AppendObservation ev obs w d = (t, Ok (Ok ack, w'), d') ->
  let seq := nextSequenceLocked w in
  ack = mkAppendAck seq (observationID seq) seq /\ exists stamped, restampObservation obs seq (observationID seq) = Ok stamped.
Proof.
  unfold AppendObservation. cbv zeta. destruct (restampObservation _ _ _) as [stamped|e] eqn:Es; [|done].
  unfold io_bind. destruct (appendFrameLocked _ _ _ d) as [[t1 [[[u|e] w1]|e]] d1]; cbn; try done. intros [= _ <- _ _]. split; [done|by exists stamped].
Qed.

Lemma append_request_ok obs : wf_json obs -> request_ok (append_request obs) /\ validate (append_request obs) = Ok tt.
Proof. intros Hw. split; [|reflexivity]. split; [by apply ascii_utf8|]. split; [by intros o [= <-]|]. by repeat split. Qed.

Lemma dispatch_append_request ev obs sv : dispatch ev (append_request obs) sv = dispatch_append ev obs sv.
Proof. reflexivity. Qed.

Lemma placeholder_bounded : bounded maxObservationID placeholderObservationID.
Proof. apply (boundedNonEmpty_Ok (str "observation_id")). vm_compute. reflexivity. Qed.

(** The daemon's part of a capture that is acknowledged. *)
Lemma dispatch_append_acked ev obs o sv d t served sv' d' :
  wf_json obs -> accepted obs o -> 1 <= nextSequenceLocked (sv_spool sv) <= MaxInt64 ->
  dispatch_append ev obs sv d = (t, Ok (served, sv'), d') ->
  response_ok served /\ forall ack, body rp_Append served = Ok ack ->
    AppendObservation ev obs (sv_spool sv) d = (t, Ok (Ok ack, sv_spool sv'), d') /\ sv_registry sv' = apply_observation o <$> sv_registry sv.
Proof.
  intros Hw Ha Hs. unfold dispatch_append. rewrite (proj2 (validateObservationSchema_Ok obs)) by by exists o.
  rewrite collapse_wf by done. unfold io_bind. destruct (AppendObservation ev obs (sv_spool sv) d) as [[t1 [[[ack|e] w1]|e]] d1] eqn:Ea; [| |done].
  - cbn. rewrite app_nil_r. intros [= <- <- <- <-]. destruct (append_ack _ _ _ _ _ _ _ _ Ea) as [-> _]. split; [by apply append_response_ok|].
    intros ack' [= <-]. split; [done|]. cbn. destruct (sv_registry sv) as [r|]; [|done]. by rewrite (Fold_accepted_value _ _ _ Ha).
  - cbn. rewrite app_nil_r. intros [= <- <- <- <-]. split; [by apply error_response_ok|]. done.
Qed.

(** The append behind a capture that is acknowledged. *)
Lemma capture_appends ev cfg uid n k maxBytes p obs o sv d t ack sv' d' :
  bounded_messages cfg maxBytes -> wf_json obs -> accepted obs o -> Seal p SequenceMin placeholderObservationID = Ok obs ->
  1 <= nextSequenceLocked (sv_spool sv) <= MaxInt64 ->
  capture ev cfg uid n k maxBytes p sv d = (t, Ok (Ok ack, sv'), d') ->
  uid = cf_expectedUID cfg
  /\ AppendObservation ev obs (sv_spool sv) d = (t, Ok (Ok ack, sv_spool sv'), d')
  /\ sv_registry sv' = apply_observation o <$> sv_registry sv.
Proof.
  intros Hb Hw Ha Ho Hs Hcap. destruct (append_request_ok obs Hw) as [Hrok Hrv]. unfold capture in Hcap. rewrite Ho in Hcap. unfold call in Hcap.
  unfold CaptureObservation, Client_AppendObservation in Hcap. rewrite Ho in Hcap.
  destruct (request_bytes maxBytes (append_request obs)) as [sent|e] eqn:Hsent.
  2:{ unfold roundTrip in Hcap. cbn [cn_dial cn_deadline connected negb] in Hcap. rewrite Hsent in Hcap. discriminate Hcap. }
  unfold io_bind in Hcap. destruct (handle ev cfg (Some uid) (take n sent) sv d) as [[t1 [[out sv1]|e]] d1] eqn:Hh; [|discriminate Hcap].
  cbn [io_ret fst snd] in Hcap. rewrite app_nil_r in Hcap. injection Hcap as <- Hcap <- <-.
  destruct (roundTrip maxBytes (connected out k) (append_request obs)) as [resp|e] eqn:Hrt; [|discriminate Hcap]. cbn [mbind result_bind] in Hcap.
  destruct (call_response _ _ _ _ _ _ _ _ _ _ _ _ _ _ _ Hb Hrok Hrv Hsent Hh Hrt) as (Hu&served&Hdisp&Hserved).
  rewrite dispatch_append_request in Hdisp. destruct (dispatch_append_acked _ _ _ _ _ _ _ _ _ Hw Ha Hs Hdisp) as [Hok Hack].
  rewrite (Hserved Hok) in Hcap. destruct (body rp_Append served) as [x|e] eqn:Hbody; [|discriminate Hcap]. injection Hcap as ->.
  destruct (Hack ack eq_refl) as [Happ Hreg]. by split_and!.
Qed.

(** C2: an acknowledgement proves durability. The daemon's writer is ready on a log. Whatever calls fail on its
    disk, and whatever suffix of the request or of the reply is lost, if a client's capture of an observation a
    constructor built returns an acknowledgement, then the peer was the owner and the disk now holds the same
    log with exactly one frame more, under the acknowledged sequence, which is the one after the log's end:
    the canonical form of that very observation, stamped. The file it is in (and its directory, when the file
    is new) was synced, the writer is ready on the longer log, the projection folded the observation, and the
    frame's payload is an observation the Collector accepts, as the one that was built. *)
Theorem capture_durable ev cfg uid n k maxBytes c i p sv d t ack sv' d' first a l fs :
  bounded_messages cfg maxBytes -> typed_common c -> typed_input i -> New c i = Ok p ->
  writer_ready first a l fs (sv_spool sv) d -> first + zlen (log_frames l ++ fs) < MaxInt64 -> in_i64 (e_now ev) ->
  capture ev cfg uid n k maxBytes p sv d = (t, Ok (Ok ack, sv'), d') ->
  let seq := first + zlen (log_frames l ++ fs) in
  uid = cf_expectedUID cfg /\ ack = mkAppendAck seq (observationID seq) seq
  /\ exists obs o stamped j l' fs', Seal p SequenceMin placeholderObservationID = Ok obs
    /\ reads_as c i p SequenceMin placeholderObservationID o
    /\ restampObservation obs seq (observationID seq) = Ok stamped
    /\ log_frames l' ++ fs' = log_frames l ++ fs ++ [sealed (new_frame seq (writeCanonical stamped))]
    /\ writer_ready first a l' fs' (sv_spool sv') d'
    /\ synced ev (sv_spool sv) (sv_spool sv')
    /\ sv_registry sv' = apply_observation o <$> sv_registry sv
    /\ decode_raw (writeCanonical stamped) = Some (j, [])
    /\ decodeObservation j 0 = Ok (sorted_observation (stamped_observation seq (observationID seq) o)).
Proof.
  intros Hb Hc Hi Hp Hready Hmax Hnow Hcap seq. pose proof Hready as [Hinv _].
  destruct (writer_next _ _ _ _ _ _ Hinv ltac:(lia)) as [Hn _]. fold seq in Hn.
  assert (Hs : 1 <= nextSequenceLocked (sv_spool sv) <= MaxInt64).
  { rewrite Hn. destruct Hinv as (_&_&_&_&(Hmin&_)&_). pose proof (zlen_nonneg (log_frames l ++ fs)). unfold SpoolTypes.SequenceMin in *. lia. }
  destruct (Seal_sends c i p SequenceMin placeholderObservationID Hc Hi Hp ltac:(unfold SequenceMin, MaxInt64; lia) placeholder_bounded)
    as (obs&o&Ho&[Hw _]&Hd&Hst&Ha&Hr).
  destruct (capture_appends _ _ _ _ _ _ _ _ _ _ _ _ _ _ _ Hb Hw Ha Ho Hs Hcap) as (Hu&Happ&Hreg).
  destruct (append_ack _ _ _ _ _ _ _ _ Happ) as [-> [stamped Hstamp]].
  destruct (stored_reads obs o 0 _ stamped Hw (accepted_observation obs 0 o Ha) Hs Hstamp (restamp_distinct _ _ _ _ Hd Hst Hstamp)) as (Hj&_&Hacc).
  pose proof (append_synced _ _ _ _ _ _ _ _ (proj1 Hinv) Happ) as Hsync.
  pose proof (ct_AppendObservation ev first a l fs (sv_spool sv) obs d Hready Hmax Hnow d eq_refl) as H. rewrite Happ in H.
  destruct H as [_ (_&_&_&H&_)]. destruct (H _ eq_refl) as (_&g&l'&fs'&Hg&Hfr&Hw'). unfold stamped_frame in Hg. cbv zeta in Hg.
  rewrite Hn in *. rewrite Hstamp in Hg. injection Hg as <-. cbn [snd] in Hw'. split; [exact Hu|]. split; [done|].
  exists obs, o, stamped, (sorted_json stamped), l', fs'. rewrite <-app_assoc in Hfr.
  refine (conj Ho (conj Hr (conj Hstamp (conj Hfr (conj Hw' (conj Hsync (conj Hreg (conj Hj _)))))))). by apply accepted_observation.
Qed.

(** Without faults and losses. *)
Lemma capture_runs ev cfg maxBytes c i p sv d first a l fs :
  (forall op name, e_flt ev op name = false) -> in_i64 (e_now ev) ->
  writer_ready first a l fs (sv_spool sv) d -> no_dirs d -> first + zlen (log_frames l ++ fs) < MaxInt64 ->
  bounded_messages cfg maxBytes -> typed_common c -> typed_input i -> New c i = Ok p ->
  let seq := first + zlen (log_frames l ++ fs) in
  let ack := mkAppendAck seq (observationID seq) seq in
  response_fits maxBytes (append_response ack) -> response_fits (cf_maxMessageBytes cfg) (append_response ack) ->
  exists obs o stamped, Seal p SequenceMin placeholderObservationID = Ok obs /\ reads_as c i p SequenceMin placeholderObservationID o
    /\ restampObservation obs seq (observationID seq) = Ok stamped
    /\ (zlen (writeCanonical stamped) <= MaxFramePayload ->
       request_fits maxBytes (append_request obs) -> request_fits (cf_maxMessageBytes cfg) (append_request obs) ->
       exists t w' d' l' fs' (enough : nat),
         (forall n k, (enough <= n)%nat -> (enough <= k)%nat ->
            capture ev cfg (cf_expectedUID cfg) n k maxBytes p sv d
            = (t, Ok (Ok ack, mkServer w' (apply_observation o <$> sv_registry sv)), d'))
         /\ log_frames l' ++ fs' = log_frames l ++ fs ++ [sealed (new_frame seq (writeCanonical stamped))]
         /\ writer_ready first a l' fs' w' d').
Proof.
  intros Hflt Hnow Hready Hdirs Hmax Hb Hc Hi Hp seq ack Hg Hg'. pose proof Hready as [Hinv _].
  destruct (writer_next _ _ _ _ _ _ Hinv ltac:(lia)) as [Hn _]. fold seq in Hn.
  assert (Hs : 1 <= nextSequenceLocked (sv_spool sv) <= MaxInt64).
  { rewrite Hn. destruct Hinv as (_&_&_&_&(Hmin&_)&_). pose proof (zlen_nonneg (log_frames l ++ fs)). unfold SpoolTypes.SequenceMin in *. lia. }
  destruct (Seal_sends c i p SequenceMin placeholderObservationID Hc Hi Hp ltac:(unfold SequenceMin, MaxInt64; lia) placeholder_bounded)
    as (obs&o&Ho&[Hw _]&_&Hstamps&Ha&Hr). destruct (restamp_stamps obs seq (observationID seq) Hstamps) as [stamped Hst].
  exists obs, o, stamped. split; [exact Ho|]. split; [exact Hr|]. split; [exact Hst|]. intros Hlen Hf Hf'. destruct (append_request_ok obs Hw) as [Hrok Hrv].
  pose proof (AppendObservation_spec ev first a l fs (sv_spool sv) obs d Hflt Hnow Hready Hdirs Hmax) as H. cbv zeta in H. fold seq in H.
  rewrite Hst in H. rewrite (proj2 (Z.ltb_ge _ _) Hlen) in H. destruct H as (t&w'&d'&l'&fs'&Happ&Hlog&Hready').
  assert (Hd : dispatch ev (append_request obs) sv d = (t, Ok (append_response ack, mkServer w' (apply_observation o <$> sv_registry sv)), d')).
  { rewrite dispatch_append_request. unfold dispatch_append. rewrite (proj2 (validateObservationSchema_Ok obs)) by by exists o.
    rewrite collapse_wf by done. unfold io_bind. rewrite Happ. cbn. rewrite app_nil_r. unfold fold_registry. cbn.
    destruct (sv_registry sv) as [r|]; [|done]. by rewrite (Fold_accepted_value _ _ _ Ha). }
  destruct (call_served _ _ _ _ _ _ _ _ _ _ Hb Hrok Hrv Hf Hf' Hd (append_response_ok seq ltac:(lia)) Hg Hg') as (sent&out&Hsent&Hh&Hrt).
  exists t, w', d', l', fs', (length sent + length out)%nat. split; [|done]. intros n k Hn' Hk. unfold capture. rewrite Ho. unfold call. rewrite Hsent.
  unfold io_bind. rewrite Hh by lia. cbn [io_ret fst snd]. rewrite app_nil_r. unfold CaptureObservation, Client_AppendObservation. rewrite Ho.
  rewrite Hrt by lia. cbn [mbind result_bind]. reflexivity.
Qed.

(** C19: without faults and losses a capture is acknowledged: with the next sequence, after the log has grown by
    exactly the frame of the stamped observation and the projection has folded it, if the messages and the
    frame fit their bounds; the daemon is then ready for the next one. *)
Theorem capture_accepted ev cfg maxBytes c i p sv d first a l fs :
  (forall op name, e_flt ev op name = false) -> in_i64 (e_now ev) ->
  writer_ready first a l fs (sv_spool sv) d -> no_dirs d -> first + zlen (log_frames l ++ fs) < MaxInt64 ->
  bounded_messages cfg maxBytes -> typed_common c -> typed_input i -> New c i = Ok p ->
  let seq := first + zlen (log_frames l ++ fs) in
  let ack := mkAppendAck seq (observationID seq) seq in
  response_fits maxBytes (append_response ack) -> response_fits (cf_maxMessageBytes cfg) (append_response ack) ->
  exists obs o stamped, Seal p SequenceMin placeholderObservationID = Ok obs /\ reads_as c i p SequenceMin placeholderObservationID o
    /\ restampObservation obs seq (observationID seq) = Ok stamped
    /\ (zlen (writeCanonical stamped) <= MaxFramePayload ->
       request_fits maxBytes (append_request obs) -> request_fits (cf_maxMessageBytes cfg) (append_request obs) ->
       exists t w' d' l' fs' (enough : nat),
         (forall n k, (enough <= n)%nat -> (enough <= k)%nat ->
            capture ev cfg (cf_expectedUID cfg) n k maxBytes p sv d
            = (t, Ok (Ok ack, mkServer w' (apply_observation o <$> sv_registry sv)), d'))
         /\ log_frames l' ++ fs' = log_frames l ++ fs ++ [sealed (new_frame seq (writeCanonical stamped))]
         /\ writer_ready first a l' fs' w' d').
Proof. apply capture_runs. Qed.

(** ** Queries *)

(** Both bounds admit the messages. *)
Definition exchange_fits (cfg : ServerConfig) (maxBytes : Z) (req : Request) (resp : Response) : Prop :=
  request_fits maxBytes req /\ request_fits (cf_maxMessageBytes cfg) req /\ response_fits maxBytes resp /\ response_fits (cf_maxMessageBytes cfg) resp.

Lemma call_answered {A} ev cfg maxBytes req sv d t served sv' d' (client : Conn -> result client_error A) (answer : Response -> result client_error A) :
  bounded_messages cfg maxBytes -> request_ok req -> validate req = Ok tt -> exchange_fits cfg maxBytes req served ->
  dispatch ev req sv d = (t, Ok (served, sv'), d') -> response_ok served ->
  (forall cn, client cn = (resp ← roundTrip maxBytes cn req; answer resp)) ->
  exists enough : nat, forall n k, (enough <= n)%nat -> (enough <= k)%nat ->
    call ev cfg (cf_expectedUID cfg) n k maxBytes req client sv d = (t, Ok (answer served, sv'), d').
Proof.
  intros Hb Hr Hv (Hf&Hf'&Hg&Hg') Hd Hok Hc.
  destruct (call_served _ _ _ _ _ _ _ _ _ _ Hb Hr Hv Hf Hf' Hd Hok Hg Hg') as (sent&out&Hsent&Hh&Hrt).
  exists (length sent + length out)%nat. intros n k Hn Hk. unfold call. rewrite Hsent. unfold io_bind. rewrite Hh by lia.
  cbn [io_ret fst snd]. rewrite app_nil_r, Hc, Hrt by lia. reflexivity.
Qed.

Lemma inherited_of_token s : inherited_of (inherited_token s) = Some s.
Proof. by destruct s. Qed.

Lemma inherited_token_ascii s : valid_utf8 (inherited_token s).
Proof. apply ascii_utf8. by destruct s. Qed.

Lemma query_request_ok kind li ri bi :
  forallb is_ascii kind = true ->
  (forall i, li = Some i -> valid_utf8 (pi_BootId i) /\ in_i64 (pi_Pid i) /\ in_i64 (pi_ProcessStartTime i)) ->
  (forall x, ri = Some x -> valid_utf8 x.1 /\ valid_utf8 x.2) -> (forall x, bi = Some x -> valid_utf8 x.1 /\ valid_utf8 x.2) ->
  request_ok (mkRequest kind None None None li ri bi).
Proof. intros Hk Hl Hr Hb. split; [by apply ascii_utf8|]. split; [done|]. split; [done|]. split; [done|]. by split. Qed.

Lemma lookup_answered ev cfg maxBytes sv r d i :
  bounded_messages cfg maxBytes -> sv_registry sv = Some r ->
  valid_utf8 (pi_BootId i) -> pi_BootId i <> [] -> in_i64 (pi_Pid i) -> in_i64 (pi_ProcessStartTime i) -> valid_utf8 (LookupRegistered i r).1 ->
  exchange_fits cfg maxBytes (lookup_request i) (lookup_response (LookupRegistered i r)) ->
  exists enough : nat, forall n k, (enough <= n)%nat -> (enough <= k)%nat ->
    call ev cfg (cf_expectedUID cfg) n k maxBytes (lookup_request i) (fun cn => LookupRegisteredProcess maxBytes cn i) sv d
    = ([], Ok (Ok (LookupRegistered i r), sv), d).
Proof.
  intros Hb Hr Hi Hi' Hpid Hst Hfound F.
  destruct (call_answered ev cfg maxBytes (lookup_request i) sv d [] (lookup_response (LookupRegistered i r)) sv d
    (fun cn => LookupRegisteredProcess maxBytes cn i) (fun resp => a ← body rp_LookupRegistered resp; Ok (la_RunID a, la_Found a))) as [m H];
    [done| |apply validate_Ok; do 4 right; left; split; [done|by exists i]|done| | |done|].
  { apply query_request_ok; [done|by intros ? [= <-]|done|done]. }
  { unfold dispatch. cbn -[LookupRegistered]. by rewrite Hr. }
  { split; [by apply ascii_utf8|]. repeat (split; [done|]). split; [|done]. intros a [= <-]. exact Hfound. }
  exists m. intros n k Hn Hk. rewrite H by lia. cbn. by destruct (LookupRegistered i r).
Qed.

Lemma resolve_answered ev cfg maxBytes sv r d runID workspace :
  bounded_messages cfg maxBytes -> sv_registry sv = Some r -> valid_utf8 runID -> runID <> [] -> valid_utf8 workspace ->
  exchange_fits cfg maxBytes (resolve_request runID workspace) (resolve_response (ResolveInherited runID workspace r)) ->
  exists enough : nat, forall n k, (enough <= n)%nat -> (enough <= k)%nat ->
    call ev cfg (cf_expectedUID cfg) n k maxBytes (resolve_request runID workspace) (fun cn => ResolveInheritedRun maxBytes cn runID workspace) sv d
    = ([], Ok (Ok (ResolveInherited runID workspace r), sv), d).
Proof.
  intros Hb Hr Hrun Hrun' Hws F.
  destruct (call_answered ev cfg maxBytes (resolve_request runID workspace) sv d [] (resolve_response (ResolveInherited runID workspace r)) sv d
    (fun cn => ResolveInheritedRun maxBytes cn runID workspace)
    (fun resp => token ← body rp_ResolveInherited resp; match inherited_of token with Some s => Ok s | None => Err ErrMalformedResponse end)) as [m H];
    [done| |apply validate_Ok; do 5 right; left; split; [done|by exists (runID, workspace)]|done| | |done|].
  { apply query_request_ok; [done|done|by intros ? [= <-]|done]. }
  { unfold dispatch. cbn -[ResolveInherited]. by rewrite Hr. }
  { split; [by apply ascii_utf8|]. repeat (split; [done|]). intros a [= <-]. apply inherited_token_ascii. }
  exists m. intros n k Hn Hk. rewrite H by lia.
  assert (E : forall s, body rp_ResolveInherited (resolve_response s) = Ok (inherited_token s)) by reflexivity.
  rewrite E. cbn [mbind result_bind]. by rewrite inherited_of_token.
Qed.

Lemma bind_answered ev cfg maxBytes sv r d runID session :
  bounded_messages cfg maxBytes -> sv_registry sv = Some r -> valid_utf8 runID -> runID <> [] -> valid_utf8 session -> session <> [] ->
  exchange_fits cfg maxBytes (bind_request session runID) bind_response ->
  exists enough : nat, forall n k, (enough <= n)%nat -> (enough <= k)%nat ->
    call ev cfg (cf_expectedUID cfg) n k maxBytes (bind_request session runID) (fun cn => Client_BindSession maxBytes cn session runID) sv d
    = ([], Ok (Ok tt, mkServer (sv_spool sv) (Some (BindSession session runID r))), d).
Proof.
  intros Hb Hr Hrun Hrun' Hses Hses' F.
  destruct (call_answered ev cfg maxBytes (bind_request session runID) sv d [] bind_response (mkServer (sv_spool sv) (Some (BindSession session runID r))) d
    (fun cn => Client_BindSession maxBytes cn session runID) (fun resp => bound ← body rp_BindSession resp; if bound : bool then Ok tt else Err ErrMalformedResponse))
    as [m H]; [done| |apply validate_Ok; do 6 right; split; [done|by exists (session, runID)]|done| | |done|].
  { apply query_request_ok; [done|done|done|by intros ? [= <-]]. }
  { unfold dispatch. cbn -[BindSession]. by rewrite Hr. }
  { split; [by apply ascii_utf8|]. by repeat (split; [done|]). }
  exists m. intros n k Hn Hk. by rewrite H by lia.
Qed.

Lemma BindSession_bound session runID r : session <> [] -> runID <> [] -> LookupSessionRun session (BindSession session runID r) = (runID, true).
Proof. intros Hs Hr. unfold BindSession, LookupSessionRun. rewrite !bool_decide_eq_false_2 by done. cbn. by rewrite lookup_insert_eq. Qed.

(** The client's queries answer what the daemon's registry answers: over a connection without losses a
    lookup returns the registered run of the identity, a resolution the status of the run in the caller's
    workspace, and neither changes the daemon; a binding is recorded, so that the session resolves to the run. *)
Theorem client_queries ev cfg maxBytes sv r d i runID workspace session :
  bounded_messages cfg maxBytes -> sv_registry sv = Some r ->
  valid_utf8 (pi_BootId i) -> pi_BootId i <> [] -> in_i64 (pi_Pid i) -> in_i64 (pi_ProcessStartTime i) -> valid_utf8 (LookupRegistered i r).1 ->
  valid_utf8 runID -> runID <> [] -> valid_utf8 workspace -> valid_utf8 session -> session <> [] ->
  exchange_fits cfg maxBytes (lookup_request i) (lookup_response (LookupRegistered i r)) ->
  exchange_fits cfg maxBytes (resolve_request runID workspace) (resolve_response (ResolveInherited runID workspace r)) ->
  exchange_fits cfg maxBytes (bind_request session runID) bind_response ->
  exists enough : nat, forall n k, (enough <= n)%nat -> (enough <= k)%nat ->
    call ev cfg (cf_expectedUID cfg) n k maxBytes (lookup_request i) (fun cn => LookupRegisteredProcess maxBytes cn i) sv d
      = ([], Ok (Ok (LookupRegistered i r), sv), d)
    /\ call ev cfg (cf_expectedUID cfg) n k maxBytes (resolve_request runID workspace) (fun cn => ResolveInheritedRun maxBytes cn runID workspace) sv d
      = ([], Ok (Ok (ResolveInherited runID workspace r), sv), d)
    /\ exists r', LookupSessionRun session r' = (runID, true)
      /\ call ev cfg (cf_expectedUID cfg) n k maxBytes (bind_request session runID) (fun cn => Client_BindSession maxBytes cn session runID) sv d
        = ([], Ok (Ok tt, mkServer (sv_spool sv) (Some r')), d).
Proof.
  intros Hb Hr Hi Hi' Hpid Hst Hfound Hrun Hrun' Hws Hses Hses' F1 F2 F3.
  destruct (lookup_answered ev cfg maxBytes sv r d i) as [n1 H1]; [done..|].
  destruct (resolve_answered ev cfg maxBytes sv r d runID workspace) as [n2 H2]; [done..|].
  destruct (bind_answered ev cfg maxBytes sv r d runID session) as [n3 H3]; [done..|].
  exists (n1 + n2 + n3)%nat. intros n k Hn Hk. split; [by apply H1; lia|]. split; [by apply H2; lia|].
  exists (BindSession session runID r). split; [by apply BindSession_bound|by apply H3; lia].
Qed.

(** ** Paths *)

(** An explicit socket path that is accepted: clean, named [socket], in a directory that is not the root and
    is the state directory or the user's runtime directory. *)
Lemma ValidateServerPaths_explicit euid dir socketPath p :
  socketPath <> [] -> ValidateServerPaths euid dir socketPath = Ok p ->
  p = Clean socketPath /\ Base p = socketFilename /\ Dir p <> [x2f]
  /\ (Dir p = Clean dir \/ Base (Dir p) = str "gasworks-observer-" ++ FormatInt euid).
Proof.
  intros Hs. unfold ValidateServerPaths. rewrite (bool_decide_eq_false_2 (socketPath = [])) by done.
  destruct (bool_decide (dir = [])); [done|]. destruct (bool_decide (Clean dir = [x2f])); [done|]. destruct (HasPrefix socketPath [x2f]); [|done]. cbn [negb].
  destruct (bool_decide (Dir (Clean socketPath) = [x2f])) eqn:E1; [done|]. apply bool_decide_eq_false_1 in E1.
  destruct (bool_decide (Base (Clean socketPath) = socketFilename)) eqn:E2; [|done]. apply bool_decide_eq_true_1 in E2. cbn [negb].
  destruct (bool_decide (Dir (Clean socketPath) = Clean dir)) eqn:E3; cbn [negb andb].
  - apply bool_decide_eq_true_1 in E3. intros [= <-]. split_and!; try done. by left.
  - destruct (bool_decide (Base (Dir (Clean socketPath)) = _)) eqn:E4; [|done]. apply bool_decide_eq_true_1 in E4. intros [= <-]. split_and!; try done. by right.
Qed.

(** ** Examples and witnesses *)

Definition demo_paths : list (result path_error bytes) :=
  [ValidateServerPaths 501 (str "/home/u/.state/") []; ValidateServerPaths 501 (str "/s") (str "/run/gasworks-observer-501//socket");
   ValidateServerPaths 501 (str "/s") (str "/run/other/socket"); ValidateServerPaths 501 (str "/..") []].

Example paths_checked : demo_paths = [Ok (str "/home/u/.state/socket"); Ok (str "/run/gasworks-observer-501/socket");
  Err (ErrSocketPath (str "/run/other/socket")); Err (ErrUnsafeDirectory (str "/"))].
Proof. vm_compute. reflexivity. Qed.

(** Bytes after a request are refused unless they start with a closing bracket; after a response they are
    not looked at. *)
Theorem DecodeRequest_trailing :
  DecodeRequest (js "{'kind':'STATUS'} ]junk") = Ok (request KindStatus)
  /\ DecodeRequest (js "{'kind':'STATUS'} junk") = Err (ErrMalformedRequest (str "trailing bytes"))
  /\ DecodeResponse (js "{'status':'OK'} junk") = Some ok_response.
Proof. split; [vm_compute; reflexivity|split; vm_compute; reflexivity]. Qed.

Definition fits_check {A} (encode : A -> option bytes) (max : Z) (x : A) : bool :=
  match encode x with Some raw => zlen raw <=? max | None => true end.

Lemma request_fits_check max req : fits_check EncodeRequest max req = true -> request_fits max req.
Proof. unfold fits_check, request_fits. intros H raw Hr. rewrite Hr in H. by apply Z.leb_le. Qed.

Lemma response_fits_check max resp : fits_check EncodeResponse max resp = true -> response_fits max resp.
Proof. unfold fits_check, response_fits. intros H raw Hr. rewrite Hr in H. by apply Z.leb_le. Qed.

Definition demo_config : ServerConfig := mkServerConfig 501 DefaultMaxMessageBytes.
Definition demo_server : Server := mkServer demo_writer (Some (NewRegistry (str "src") (str "ws"))).
Definition demo_obs : json := Eval vm_compute in match Seal demo_pending SequenceMin placeholderObservationID with Ok o => o | Err _ => JNull end.
Definition demo_ack : AppendAck := mkAppendAck 2 (observationID 2) 2.

Lemma demo_sealed : Seal demo_pending SequenceMin placeholderObservationID = Ok demo_obs.
Proof. vm_compute. reflexivity. Qed.

Lemma demo_bounded : bounded_messages demo_config DefaultMaxMessageBytes.
Proof. split; vm_compute; reflexivity. Qed.

Lemma demo_capture :
  exists obs o stamped, Seal demo_pending SequenceMin placeholderObservationID = Ok obs
    /\ reads_as demo_common demo_input demo_pending SequenceMin placeholderObservationID o
    /\ restampObservation obs 2 (observationID 2) = Ok stamped
    /\ exists t w' d' (enough : nat), forall n k, (enough <= n)%nat -> (enough <= k)%nat ->
         capture demo_env demo_config 501 n k DefaultMaxMessageBytes demo_pending demo_server demo_writer_disk
         = (t, Ok (Ok demo_ack, mkServer w' (apply_observation o <$> sv_registry demo_server)), d').
Proof.
  destruct (capture_runs demo_env demo_config DefaultMaxMessageBytes demo_common demo_input demo_pending demo_server demo_writer_disk 1 0 [] demo_frames)
    as (obs&o&stamped&Ho&Hr&Hst&H).
  - reflexivity.
  - exact demo_now.
  - exact demo_ready.
  - exact demo_no_dirs.
  - by vm_compute.
  - exact demo_bounded.
  - exact demo_common_typed.
  - exact demo_input_typed.
  - exact demo_pending_built.
  - apply response_fits_check. vm_compute. reflexivity.
  - apply response_fits_check. vm_compute. reflexivity.
  - change (1 + zlen (log_frames [] ++ demo_frames)) with 2 in Hst, H. exists obs, o, stamped. split; [done|]. split; [done|]. split; [exact Hst|].
    rewrite demo_sealed in Ho. apply (inj Ok) in Ho as <-.
    assert (Es : exists st, restampObservation demo_obs 2 (observationID 2) = Ok st /\ (zlen (writeCanonical st) <=? MaxFramePayload) = true)
      by (eexists; split; [vm_compute; reflexivity|vm_compute; reflexivity]).
    destruct Es as (st&Est&Hlen). rewrite Hst in Est. apply (inj Ok) in Est as <-.
    destruct H as (t&w'&d'&_&_&enough&H&_);
      [by apply Z.leb_le|apply request_fits_check; vm_compute; reflexivity|apply request_fits_check; vm_compute; reflexivity|].
    exists t, w', d', enough. exact H.
Qed.

Lemma capture_durable_witness :
  exists t sv' d' n k, capture demo_env demo_config 501 n k DefaultMaxMessageBytes demo_pending demo_server demo_writer_disk = (t, Ok (Ok demo_ack, sv'), d')
  /\ exists obs o stamped j l' fs', Seal demo_pending SequenceMin placeholderObservationID = Ok obs
    /\ reads_as demo_common demo_input demo_pending SequenceMin placeholderObservationID o
    /\ restampObservation obs 2 (observationID 2) = Ok stamped
    /\ log_frames l' ++ fs' = demo_frames ++ [sealed (new_frame 2 (writeCanonical stamped))]
    /\ writer_ready 1 0 l' fs' (sv_spool sv') d'
    /\ synced demo_env demo_writer (sv_spool sv')
    /\ sv_registry sv' = apply_observation o <$> sv_registry demo_server
    /\ decode_raw (writeCanonical stamped) = Some (j, [])
    /\ decodeObservation j 0 = Ok (sorted_observation (stamped_observation 2 (observationID 2) o)).
Proof.
  destruct demo_capture as (obs&o&stamped&_&_&_&t&w'&d'&enough&H). specialize (H enough enough (le_n _) (le_n _)).
  exists t, (mkServer w' (apply_observation o <$> sv_registry demo_server)), d', enough, enough. split; [exact H|].
  exact (proj2 (proj2 (capture_durable demo_env demo_config 501 enough enough DefaultMaxMessageBytes demo_common demo_input demo_pending
    demo_server demo_writer_disk t demo_ack _ d' 1 0 [] demo_frames demo_bounded demo_common_typed demo_input_typed demo_pending_built
    demo_ready ltac:(by vm_compute) demo_now H))).
Defined.

Lemma capture_accepted_witness :
  exists obs o stamped, Seal demo_pending SequenceMin placeholderObservationID = Ok obs
    /\ reads_as demo_common demo_input demo_pending SequenceMin placeholderObservationID o
    /\ restampObservation obs 2 (observationID 2) = Ok stamped.
Proof.
  destruct (capture_accepted demo_env demo_config DefaultMaxMessageBytes demo_common demo_input demo_pending demo_server demo_writer_disk 1 0 [] demo_frames
    (fun _ _ => eq_refl) demo_now demo_ready demo_no_dirs ltac:(by vm_compute) demo_bounded demo_common_typed demo_input_typed demo_pending_built
    ltac:(apply response_fits_check; vm_compute; reflexivity) ltac:(apply response_fits_check; vm_compute; reflexivity)) as (obs&o&stamped&Ho&Hr&Hst&_).
  exact (ex_intro _ obs (ex_intro _ o (ex_intro _ stamped (conj Ho (conj Hr Hst))))).
Defined.

Lemma client_queries_witness :
  exists enough : nat, forall n k, (enough <= n)%nat -> (enough <= k)%nat ->
    call demo_env demo_config 501 n k DefaultMaxMessageBytes (resolve_request (str "r") (str "ws"))
      (fun cn => ResolveInheritedRun DefaultMaxMessageBytes cn (str "r") (str "ws")) demo_server demo_writer_disk
    = ([], Ok (Ok InheritedRunUnknown, demo_server), demo_writer_disk).
Proof.
  assert (F : forall req resp, fits_check EncodeRequest DefaultMaxMessageBytes req && fits_check EncodeResponse DefaultMaxMessageBytes resp = true ->
    exchange_fits demo_config DefaultMaxMessageBytes req resp).
  { intros req resp [H1%request_fits_check H2%response_fits_check]%andb_prop. by split_and!. }
  destruct (client_queries demo_env demo_config DefaultMaxMessageBytes demo_server (NewRegistry (str "src") (str "ws")) demo_writer_disk demo_process
    (str "r") (str "ws") (str "s")) as [enough H];
    [exact demo_bounded|reflexivity|by apply ascii_utf8|discriminate|vm_compute; split; discriminate|vm_compute; split; discriminate|by apply ascii_utf8
    |by apply ascii_utf8|discriminate|by apply ascii_utf8|by apply ascii_utf8|discriminate|apply F; vm_compute; reflexivity|apply F; vm_compute; reflexivity
    |apply F; vm_compute; reflexivity|].
  exists enough. intros n k Hn Hk. exact (proj1 (proj2 (H n k Hn Hk))).
Defined.
