(* ===== verification/Lines.v ===== *)
(** * The lines of a growing file

    The complete lines of some bytes, cut at their newlines, and how they split when bytes are appended. *)

From S2P Require Import Prelude GoStrings GoNet GoPath.

Fixpoint lines_of (fuel : nat) (data : bytes) : list bytes :=
  match fuel with
  | O => []
  | S fuel' => match cut x0a data with (_, None) => [] | (line, Some rest) => line :: lines_of fuel' rest end
  end.
Definition complete_lines (data : bytes) : list bytes := lines_of (length data) data.

(** Nothing, or up to a newline. *)
Definition whole_lines (p : bytes) : Prop := p = [] \/ exists l, p = l ++ [x0a].

(** No line is longer than [max]. *)
Definition short_lines (max : Z) (data : bytes) : Prop :=
  forall before line after, data = before ++ line ++ after -> x0a ∉ line -> zlen line <= max.

Lemma short_app max a b : short_lines max (a ++ b) -> short_lines max a.
Proof. intros Hs before line after ->. apply (Hs before line (after ++ b)). by rewrite <-!app_assoc. Qed.

Lemma short_total max data : zlen data <= max -> short_lines max data.
Proof. intros Hl before line after -> _. rewrite !zlen_app in Hl. pose proof (zlen_nonneg before). pose proof (zlen_nonneg after). lia. Qed.

Lemma lines_of_fuel fuel : forall fuel' data, (length data <= fuel)%nat -> (length data <= fuel')%nat -> lines_of fuel data = lines_of fuel' data.
Proof.
  induction fuel as [|fuel IH]; intros fuel' data Hf Hf'; [by destruct data, fuel'; cbn in *; try lia|]. destruct fuel' as [|fuel']; [by destruct data; cbn in *; try lia|].
  cbn [lines_of]. destruct (cut x0a data) as [line [rest|]] eqn:E; [|done]. apply cut_Some in E as [-> _]. rewrite length_app in Hf, Hf'. cbn in Hf, Hf'. f_equal. apply IH; lia.
Qed.

Lemma complete_lines_cons line rest : x0a ∉ line -> complete_lines (line ++ x0a :: rest) = line :: complete_lines rest.
Proof.
  intros Hn. unfold complete_lines. rewrite length_app. cbn [length]. rewrite Nat.add_succ_r. cbn [lines_of]. rewrite cut_app by done. f_equal. apply lines_of_fuel; lia.
Qed.

Lemma whole_lines_cons line p : whole_lines p -> whole_lines (line ++ x0a :: p).
Proof. intros [->|(l&->)]; right; [by exists line|]. exists (line ++ x0a :: l). by rewrite <-app_assoc. Qed.

Lemma whole_lines_app p q : whole_lines p -> whole_lines q -> whole_lines (p ++ q).
Proof. intros Hp [->|(l&->)]; [by rewrite app_nil_r|]. right. exists (p ++ l). by rewrite app_assoc. Qed.

(** Whole lines are read the same whatever follows. *)
Lemma complete_lines_app p q : whole_lines p -> complete_lines (p ++ q) = complete_lines p ++ complete_lines q.
Proof.
  intros Hp. remember (length p) as n eqn:En. revert p En Hp. induction n as [n IH] using lt_wf_ind. intros p -> Hp. destruct (cut x0a p) as [line [rest|]] eqn:E.
  - apply cut_Some in E as [-> Hn]. rewrite <-app_assoc. cbn [app]. rewrite !complete_lines_cons by done. cbn [app]. f_equal.
    apply (IH (length rest)); [rewrite length_app; cbn; lia|done|].
    destruct Hp as [Hp|(l&Hl)]; [by destruct line|]. destruct rest as [|b rest] using rev_ind; [by left|]. right. exists rest.
    rewrite app_comm_cons, app_assoc in Hl. apply app_inj_tail in Hl as [_ ->]. done.
  - apply cut_None in E as [_ Hn]. destruct Hp as [->|(l&->)]; [done|]. exfalso. apply Hn. apply elem_of_app. right. by left.
Qed.

Lemma complete_lines_nil p : x0a ∉ p -> complete_lines p = [].
Proof. intros Hn. unfold complete_lines. destruct p as [|b p]; [done|]. cbn [length lines_of]. by rewrite cut_all. Qed.

Lemma split_lines data : exists p q, data = p ++ q /\ whole_lines p /\ x0a ∉ q.
Proof.
  remember (length data) as n eqn:En. revert data En. induction n as [n IH] using lt_wf_ind. intros data ->. destruct (cut x0a data) as [line [rest|]] eqn:E.
  - apply cut_Some in E as [-> _]. destruct (IH (length rest)) with (data := rest) as (p&q&->&Hp&Hq); [rewrite length_app; cbn; lia|done|].
    exists (line ++ x0a :: p), q. split; [by rewrite <-app_assoc|]. split; [by apply whole_lines_cons|done].
  - apply cut_None in E as [_ Hn]. exists [], data. split; [done|]. split; [by left|done].
Qed.

(** Appending keeps the lines there were. *)
Lemma complete_lines_prefix data more : complete_lines data `prefix_of` complete_lines (data ++ more).
Proof.
  destruct (split_lines data) as (p&q&->&Hp&Hq). rewrite <-app_assoc, !complete_lines_app by done. rewrite (complete_lines_nil q Hq), app_nil_r. by apply prefix_app_r.
Qed.
