(* ===== verification/Regex.v ===== *)
(** * Regular expressions ([regexp]) over ASCII classes

    The subset of RE2 the extractors' patterns use, matched the way [regexp] does: leftmost, and among
    the matches that start there the one a backtracking search in the pattern's order finds first. A
    position is the text before it, reversed, and the text after it. Every class is of ASCII characters,
    so bytes stand for runes. The lemmas relate the search to [matches], the language of the expression
    with its assertions; [find_all_iff] says when [FindAll] returns every match of the text. *)

From S2P Require Import Prelude GoStrings Json GoPath Fields.

(** ** Expressions *)

#[warnings="-register-all"]
Inductive regex : Type :=
| Empty
| Class (p : byte -> bool)
| Cat (a b : regex)
| Alt (a b : regex)
| Star (a : regex)                    (** greedy *)
| Capture (n : nat) (a : regex)
| BeginText
| EndText
| WordBoundary.

Definition Char (c : byte) : regex := Class (fun b => bool_decide (b = c)).
Definition Text (s : bytes) : regex := foldr (fun c r => Cat (Char c) r) Empty s.
Definition Plus (a : regex) : regex := Cat a (Star a).
Definition Opt (a : regex) : regex := Alt a Empty.

(** [a{n}] and the greedy [a{0,n}]. *)
Fixpoint Times (n : nat) (a : regex) : regex := match n with O => Empty | S n => Cat a (Times n a) end.
Fixpoint UpTo (n : nat) (a : regex) : regex := match n with O => Empty | S n => Opt (Cat a (UpTo n a)) end.

Definition seq (l : list regex) : regex := foldr Cat Empty l.
Definition any_of (a : regex) (l : list regex) : regex := match l with [] => a | _ => foldl Alt a l end.

(** [\s], [\w] and the ASCII word boundary's letters. *)
Definition re_space (b : byte) : bool := bool_decide (b ∈ [x09; x0a; x0c; x0d; x20]).
Definition re_word (b : byte) : bool := is_alnum b || bool_decide (b = x5f).

(** [(?i)] of a letter: two letters have a third case beyond ASCII. *)
Definition FoldChar (c : byte) : regex :=
  let ascii := Class (fun b => bool_decide (b = c) || (in_range 97 122 c && bool_decide (b = Zb (bZ c - 32)))) in
  if bool_decide (c = x73) then Alt ascii (Text [xc5; xbf])
  else if bool_decide (c = x6b) then Alt ascii (Text [xe2; x84; xaa])
  else ascii.
Definition FoldText (s : bytes) : regex := foldr (fun c r => Cat (FoldChar c) r) Empty s.

(** ** Matching *)

Abbreviation position := (bytes * bytes)%type.
Abbreviation captures := (list (nat * bytes)).

(** The text from one position to a later one. *)
Definition between (p q : position) : bytes := rev (take (length q.1 - length p.1) q.1).

Definition word_at (s : bytes) : bool := match s with b :: _ => re_word b | [] => false end.
Definition boundary (p : position) : bool := xorb (word_at p.1) (word_at p.2).

Section run.
Context {R : Type}.

(** Backtracking search with a continuation; a repetition goes on only as long as it consumes. *)
Fixpoint run (r : regex) (p : position) (c : captures) (k : position -> captures -> option R) : option R :=
  match r with
  | Empty => k p c
  | Class f => match p.2 with b :: t => if f b then k (b :: p.1, t) c else None | [] => None end
  | Cat a b => run a p c (fun q c => run b q c k)
  | Alt a b => match run a p c k with Some x => Some x | None => run b p c k end
  | Star a =>
      (fix loop (n : nat) (p : position) (c : captures) : option R :=
         match n with
         | O => k p c
         | S n' =>
             match run a p c (fun q c => if (length q.2 <? length p.2)%nat then loop n' q c else None) with
             | Some x => Some x
             | None => k p c
             end
         end) (length p.2) p c
  | Capture n a => run a p c (fun q c => k q ((n, between p q) :: c))
  | BeginText => match p.1 with [] => k p c | _ => None end
  | EndText => match p.2 with [] => k p c | _ => None end
  | WordBoundary => if boundary p then k p c else None
  end.
End run.

(** A match: where it starts, where it ends, and its submatches. *)
Record found : Type := mkFound { fd_start : position; fd_end : position; fd_captures : captures }.

Definition match_at (r : regex) (p : position) : option found := run r p [] (fun q c => Some (mkFound p q c)).

(** The leftmost match at or after a position. *)
Fixpoint search (r : regex) (prev rest : bytes) : option found :=
  match match_at r (prev, rest) with
  | Some m => Some m
  | None => match rest with [] => None | b :: t => search r (b :: prev) t end
  end.

Definition MatchString (r : regex) (s : bytes) : bool := match search r [] s with Some _ => true | None => false end.

(** [FindAll], for expressions that match no empty text: each search starts where the match before ended. *)
Fixpoint find_from (fuel : nat) (r : regex) (p : position) : list found :=
  match fuel with
  | O => []
  | S fuel' => match search r p.1 p.2 with Some m => m :: find_from fuel' r (fd_end m) | None => [] end
  end.
Definition FindAll (r : regex) (s : bytes) : list found := find_from (S (length s)) r ([], s).

(** The text of a match and of its submatches (the last round's, as a later capture shadows). *)
Definition matched (m : found) : bytes := between (fd_start m) (fd_end m).
Definition submatch (m : found) (n : nat) : bytes :=
  match list_find (fun c => c.1 = n) (fd_captures m) with Some (_, c) => c.2 | None => [] end.

(** [Split] with no limit: what is between the matches. *)
Fixpoint pieces (prev : position) (l : list found) (stop : position) : list bytes :=
  match l with
  | [] => [between prev stop]
  | m :: r => between prev (fd_start m) :: pieces (fd_end m) r stop
  end.
Definition SplitBy (r : regex) (s : bytes) : list bytes := pieces ([], s) (FindAll r s) (rev s, []).

Example find_hex : map matched (FindAll (seq [WordBoundary; Times 2 (Class is_hex_lower); WordBoundary]) (str "ab abc,0f")) = [str "ab"; str "0f"].
Proof. reflexivity. Qed.
Example fold_kelvin : MatchString (seq [BeginText; FoldText (str "ks"); EndText]) [xe2; x84; xaa; x53] = true.
Proof. reflexivity. Qed.
Example split_ops : SplitBy (any_of (Text (str "||")) [Text (str "&&"); Class (fun b => bool_decide (b ∈ str "|;"))]) (str "a||b|c && d;")
  = map str ["a"; "b"; "c "; " d"; ""]%string.
Proof. reflexivity. Qed.

(** ** The language *)

Inductive matches : regex -> position -> position -> Prop :=
| M_empty p : matches Empty p p
| M_class f l b t : f b = true -> matches (Class f) (l, b :: t) (b :: l, t)
| M_cat a b p q s : matches a p q -> matches b q s -> matches (Cat a b) p s
| M_left a b p q : matches a p q -> matches (Alt a b) p q
| M_right a b p q : matches b p q -> matches (Alt a b) p q
| M_stop a p : matches (Star a) p p
| M_again a p q s : matches a p q -> matches (Star a) q s -> matches (Star a) p s
| M_capture n a p q : matches a p q -> matches (Capture n a) p q
| M_begin t : matches BeginText ([], t) ([], t)
| M_end l : matches EndText (l, []) (l, [])
| M_boundary p : boundary p = true -> matches WordBoundary p p.

(** [via w p q]: reading w leads from p to q. *)
Definition via (w : bytes) (p q : position) : Prop := p.2 = w ++ q.2 /\ q.1 = rev w ++ p.1.

Lemma via_nil p : via [] p p.
Proof. done. Qed.

Lemma via_cons b w p q : via (b :: w) p q <-> exists t, p.2 = b :: t /\ via w (b :: p.1, t) q.
Proof.
  unfold via. split.
  - intros [H1 H2]. exists (w ++ q.2). split; [done|]. split; [done|]. rewrite H2. cbn. by rewrite <-app_assoc.
  - intros (t&H1&H2&H3). cbn in *. rewrite H1, H2, H3. split; [done|]. by rewrite <-app_assoc.
Qed.

Lemma via_app v w p s : via (v ++ w) p s <-> exists q, via v p q /\ via w q s.
Proof.
  revert p. induction v as [|b v IH]; intros p; cbn.
  - split; [intros H; by exists p|]. intros ([q1 q2]&[H1 H2]&H). destruct p as [p1 p2]. cbn in *. by subst.
  - rewrite via_cons. split.
    + intros (t&H1&(q&Hq&Hs)%IH). exists q. split; [|done]. apply via_cons. by exists t.
    + intros (q&(t&H1&Hv)%via_cons&Hs). exists t. split; [done|]. apply IH. by exists q.
Qed.

Lemma via_length w p q : via w p q -> (length p.2 = length w + length q.2)%nat.
Proof. intros [-> _]. by rewrite length_app. Qed.

Lemma via_end_unique w v p q s : via w p q -> via v p s -> length w = length v -> w = v /\ q = s.
Proof.
  intros [H1 H2] [H3 H4] Hl. rewrite H1 in H3. apply app_inj_1 in H3 as [-> H3]; [|done].
  split; [done|]. destruct q, s; cbn in *. congruence.
Qed.

Lemma between_via w p q : via w p q -> between p q = w.
Proof.
  intros [_ H]. unfold between. rewrite H, length_app, length_rev.
  replace (length w + length p.1 - length p.1)%nat with (length (rev w)) by (rewrite length_rev; lia).
  by rewrite take_app_length, rev_involutive.
Qed.

Lemma via_start w p q : via w p q -> p = (drop (length w) q.1, w ++ q.2).
Proof. intros [H1 H2]. destruct p as [l t]. cbn in *. rewrite H2, H1. f_equal. rewrite <-(length_rev w), drop_app_length. done. Qed.

(** Two readings of one text from one place: the shorter is the beginning of the longer. *)
Lemma via_split w v p q s : via w p q -> via v p s -> (length w <= length v)%nat -> exists u, v = w ++ u /\ via u q s.
Proof.
  intros Hw Hv Hl. rewrite <-(take_drop (length w) v) in Hv. apply via_app in Hv as (q'&H1&H2).
  destruct (via_end_unique _ _ _ _ _ Hw H1) as [E ->]; [rewrite length_take; lia|].
  exists (drop (length w) v). split; [|done]. rewrite E at 1. by rewrite take_drop.
Qed.

Lemma matches_via r p q : matches r p q -> exists w, via w p q.
Proof.
  induction 1 as [p|f l b t Hb|a b p q s _ [v Hv] _ [w Hw]|a b p q _ IH|a b p q _ IH|a p|a p q s _ [v Hv] _ [w Hw]|n a p q _ IH|t|l|p Hp];
    try done; try (by exists []).
  - exists [b]. apply via_cons. exists t. split; [done|apply via_nil].
  - exists (v ++ w). apply via_app. by exists q.
  - exists (v ++ w). apply via_app. by exists q.
Qed.

Lemma matches_shorter r p q : matches r p q -> (length q.2 <= length p.2)%nat.
Proof. intros (w&H%via_length)%matches_via. lia. Qed.

(** ** The search is complete and only finds matches *)

Lemma run_sound {R} r : forall p c (k : position -> captures -> option R) x,
  run r p c k = Some x -> exists q c', matches r p q /\ k q c' = Some x.
Proof.
  induction r as [|f|a IHa b IHb|a IHa b IHb|a IHa|n a IHa| | |]; intros p c k x; cbn [run].
  - intros H. exists p, c. split; [constructor|done].
  - destruct p as [l [|b t]]; cbn; [done|]. destruct (f b) eqn:E; [|done]. intros H. eexists _, c. split; [by constructor|done].
  - intros (q&c1&Ha&H)%IHa. apply IHb in H as (s&c2&Hb&H). exists s, c2. split; [by econstructor|done].
  - destruct (run a p c k) as [y|] eqn:E.
    + intros [= ->]. apply IHa in E as (q&c1&Ha&H). exists q, c1. split; [by constructor|done].
    + intros (q&c1&Hb&H)%IHb. exists q, c1. split; [by constructor|done].
  - generalize (length p.2) as n. intros n. revert p c. induction n as [|n IH]; intros p c; [intros H; exists p, c; split; [constructor|done]|].
    match goal with |- match ?e with _ => _ end = _ -> _ => destruct e as [y|] eqn:E end.
    + intros [= ->]. apply IHa in E as (q&c1&Ha&H). destruct (_ <? _)%nat; [|done].
      apply IH in H as (s&c2&Hs&H). exists s, c2. split; [by econstructor|done].
    + intros H. exists p, c. split; [constructor|done].
  - intros (q&c1&Ha&H)%IHa. eexists q, _. split; [by constructor|exact H].
  - destruct p as [[|b l] t]; [|done]. intros H. eexists _, c. split; [constructor|done].
  - destruct p as [l [|b t]]; [|done]. intros H. eexists _, c. split; [constructor|done].
  - destruct (boundary p) eqn:E; [|done]. intros H. exists p, c. split; [by constructor|done].
Qed.

(** A repetition can be matched without empty rounds. *)
Lemma star_progress a p s : matches (Star a) p s ->
  p = s \/ exists q, matches a p q /\ (length q.2 < length p.2)%nat /\ matches (Star a) q s.
Proof.
  remember (Star a) as r eqn:Er. induction 1 as [| | | | |a' p|a' p q s Ha _ Hs IH| | | |]; simplify_eq; [by left|].
  destruct (matches_via _ _ _ Ha) as (w&Hw). destruct w as [|b w].
  - destruct Hw as [H1 H2]. assert (p = q) as ->. { destruct p, q; cbn in *; congruence. } by apply IH.
  - right. exists q. split; [done|]. split; [|done]. apply via_length in Hw. cbn in Hw. lia.
Qed.

Lemma run_complete {R} r : forall p q c (k : position -> captures -> option R),
  matches r p q -> (forall c', is_Some (k q c')) -> is_Some (run r p c k).
Proof.
  induction r as [|f|a IHa b IHb|a IHa b IHb|a IHa|n a IHa| | |]; intros p q c k Hm Hk; cbn [run].
  - inversion Hm; subst. apply Hk.
  - inversion Hm as [|? ? ? ? Hb| | | | | | | | |]; subst. cbn. rewrite Hb. apply Hk.
  - inversion Hm; subst. eapply IHa; [done|]. intros c'. by eapply IHb.
  - inversion Hm; subst.
    + destruct (run a p c k) eqn:E; [by eexists|]. edestruct (IHa p q c k) as [y Hy]; [done|done|]. by rewrite E in Hy.
    + destruct (run a p c k); [by eexists|]. by eapply IHb.
  - assert (Hn : (length p.2 <= length p.2)%nat) by lia. revert Hn. generalize (length p.2) at 2 3 as n. intros n Hn.
    revert p c Hm Hn. induction n as [|n IH]; intros p c Hm Hn.
    + apply star_progress in Hm as [->|(s&_&?&_)]; [apply Hk|lia].
    + match goal with |- is_Some (match ?e with _ => _ end) => destruct e as [y|] eqn:E end; [by eexists|].
      apply star_progress in Hm as [->|(s&Ha&Hl&Hs)]; [apply Hk|]. exfalso. eapply eq_None_not_Some; [exact E|].
      eapply IHa; [exact Ha|]. intros c'. rewrite (proj2 (Nat.ltb_lt _ _) Hl). apply IH; [done|lia].
  - inversion Hm; subst. eapply IHa; [done|]. intros c'. apply Hk.
  - inversion Hm; subst. apply Hk.
  - inversion Hm; subst. apply Hk.
  - inversion Hm as [| | | | | | | | | |? Hb]; subst. rewrite Hb. apply Hk.
Qed.

Lemma match_at_Some r p m : match_at r p = Some m -> fd_start m = p /\ matches r p (fd_end m).
Proof. intros (q&c&Hm&[= <-])%run_sound. done. Qed.

Lemma match_at_None r p q : match_at r p = None -> ~ matches r p q.
Proof. intros H Hm. eapply eq_None_not_Some; [exact H|]. eapply run_complete; [exact Hm|]. intros c. by eexists. Qed.

Lemma search_Some r prev rest m : search r prev rest = Some m ->
  exists w, via w (prev, rest) (fd_start m) /\ matches r (fd_start m) (fd_end m)
    /\ forall v s, via v (prev, rest) s -> (length v < length w)%nat -> forall q, ~ matches r s q.
Proof.
  revert prev. induction rest as [|b t IH]; intros prev; cbn [search]; destruct (match_at r (prev, _)) as [m'|] eqn:E;
    try (intros [= ->]; apply match_at_Some in E as [<- Hm]; exists []; split; [apply via_nil|split; [done|intros v s _ Hl; cbn in Hl; lia]]).
  - done.
  - intros (w&Hw&Hm&Hn)%IH. exists (b :: w). split; [apply via_cons; by exists t|]. split; [done|].
    intros [|c v] s Hv Hl q Hq.
    + destruct Hv as [H1 H2]. destruct s as [l u]; cbn in *. subst. by eapply match_at_None.
    + apply via_cons in Hv as (t'&[= <- <-]&Hv). eapply Hn; [exact Hv|cbn in Hl; lia|exact Hq].
Qed.

Lemma search_None r prev rest : search r prev rest = None -> forall w s q, via w (prev, rest) s -> ~ matches r s q.
Proof.
  revert prev. induction rest as [|b t IH]; intros prev; cbn [search]; destruct (match_at r (prev, _)) as [m'|] eqn:E; try done; intros H w s q Hw Hq.
  - destruct Hw as [Hw1 Hw2]. cbn in *. destruct w; [|done]. destruct s as [l u]; cbn in *. subst. by eapply match_at_None.
  - destruct w as [|c w].
    + destruct Hw as [H1 H2]. destruct s as [l u]; cbn in *. subst. by eapply match_at_None.
    + apply via_cons in Hw as (t'&[= <- <-]&Hw). by eapply IH.
Qed.

Lemma MatchString_iff r s : MatchString r s = true <-> exists w p q, via w ([], s) p /\ matches r p q.
Proof.
  unfold MatchString. destruct (search r [] s) as [m|] eqn:E; split; try done.
  - intros _. apply search_Some in E as (w&Hw&Hm&_). by exists w, (fd_start m), (fd_end m).
  - intros (w&p&q&Hw&Hm). by destruct (search_None _ _ _ E w p q Hw).
Qed.

(** ** Every match *)

(** No match is empty, and two that overlap are the same. *)
Definition isolated (r : regex) : Prop :=
  (forall p q, matches r p q -> (length q.2 < length p.2)%nat)
  /\ (forall p q w p' q', matches r p q -> via w p p' -> matches r p' q' -> (length q.2 < length p'.2)%nat -> p' = p /\ q' = q).

Lemma find_from_sound fuel r p m : m ∈ find_from fuel r p ->
  matches r (fd_start m) (fd_end m) /\ exists w, via w p (fd_start m).
Proof.
  revert p. induction fuel as [|fuel IH]; intros [l t]; cbn [find_from fst snd]; [by intros ?%elem_of_nil|].
  destruct (search r l t) as [n|] eqn:E; [|by intros ?%elem_of_nil]. apply search_Some in E as (w&Hw&Hn&_).
  intros [->|(Hm&v&Hv)%IH]%elem_of_cons; [split; [done|by exists w]|]. split; [done|].
  destruct (matches_via _ _ _ Hn) as (u&Hu). exists (w ++ u ++ v). apply via_app. exists (fd_start n). split; [done|]. apply via_app. by exists (fd_end n).
Qed.

Lemma find_from_complete r : isolated r -> forall fuel p w s q,
  (length p.2 < fuel)%nat -> via w p s -> matches r s q -> exists m, m ∈ find_from fuel r p /\ fd_start m = s /\ fd_end m = q.
Proof.
  intros [Hne Hiso]. induction fuel as [|fuel IH]; intros [l t] w s q Hf Hw Hm; [lia|]. cbn [find_from fst snd].
  destruct (search r l t) as [n|] eqn:E; [|by destruct (search_None _ _ _ E w s q Hw)].
  apply search_Some in E as (v&Hv&Hn&Hfirst). pose proof (Hne _ _ Hn) as Hl.
  destruct (Nat.lt_ge_cases (length w) (length v)) as [Hlt|Hge]; [by destruct (Hfirst w s Hw Hlt q)|].
  destruct (via_split _ _ _ _ _ Hv Hw Hge) as (u&->&Hu).
  destruct (Nat.lt_ge_cases (length (fd_end n).2) (length s.2)) as [Hin|Hout].
  - destruct (Hiso _ _ _ _ _ Hn Hu Hm Hin) as [-> ->]. exists n. split; [constructor|done].
  - destruct (matches_via _ _ _ Hn) as (x&Hx). pose proof (via_length _ _ _ Hx). pose proof (via_length _ _ _ Hu). pose proof (via_length _ _ _ Hv).
    destruct (via_split x u _ _ _ Hx Hu) as (y&->&Hy); [lia|]. destruct (IH (fd_end n) y s q) as (m&Hin&Hs&Hq); [cbn in *; lia|done|done|].
    exists m. split; [by constructor 2|done].
Qed.

(** [FindAll] returns the matches of the text, all of them when they are isolated. *)
Lemma find_all_iff r s p q : isolated r ->
  (exists m, m ∈ FindAll r s /\ fd_start m = p /\ fd_end m = q) <-> matches r p q /\ exists w, via w ([], s) p.
Proof.
  intros Hr. split.
  - intros (m&(Hm&w&Hw)%find_from_sound&<-&<-). split; [done|by exists w].
  - intros (Hm&w&Hw). eapply find_from_complete; [done| |exact Hw|exact Hm]. cbn. lia.
Qed.

(** ** Readings of the common forms *)

Lemma matches_Char c p q : matches (Char c) p q <-> via [c] p q.
Proof.
  split.
  - inversion 1 as [|? l b t Hb| | | | | | | | |]; subst. apply bool_decide_eq_true_1 in Hb as ->. done.
  - intros (t&H&Hv)%via_cons. destruct Hv as [H1 H2]. destruct p as [l t'], q as [l' t'']. cbn in *. subst. constructor. by apply bool_decide_eq_true_2.
Qed.

Lemma matches_Class f p q : matches (Class f) p q <-> exists b, f b = true /\ via [b] p q.
Proof.
  split.
  - inversion 1 as [|? l b t Hb| | | | | | | | |]; subst. by exists b.
  - intros (b&Hb&(t&H&Hv)%via_cons). destruct Hv as [H1 H2]. destruct p as [l t'], q as [l' t'']. cbn in *. subst. by constructor.
Qed.

Lemma matches_Empty p q : matches Empty p q <-> via [] p q.
Proof.
  split; [by inversion 1|]. intros [H1 H2]. assert (p = q) as -> by (destruct p, q; cbn in *; congruence). constructor.
Qed.

Lemma matches_Cat a b p q : matches (Cat a b) p q <-> exists s, matches a p s /\ matches b s q.
Proof. split; [inversion 1; subst; eauto|]. intros (s&?&?). by econstructor. Qed.

Lemma matches_Alt a b p q : matches (Alt a b) p q <-> matches a p q \/ matches b p q.
Proof. split; [inversion 1; subst; eauto|]. intros [?|?]; by constructor. Qed.

Lemma matches_Capture n a p q : matches (Capture n a) p q <-> matches a p q.
Proof. split; [by inversion 1|by constructor]. Qed.

Lemma matches_Text s p q : matches (Text s) p q <-> via s p q.
Proof.
  revert p. induction s as [|c s IH]; intros p; [apply matches_Empty|]. cbn [Text foldr]. fold (Text s). rewrite matches_Cat.
  change (c :: s) with ([c] ++ s). rewrite via_app. setoid_rewrite matches_Char. by setoid_rewrite IH.
Qed.

(** A class repeated: the text read is in it. *)
Lemma matches_Times n f p q : matches (Times n (Class f)) p q <-> exists w, via w p q /\ length w = n /\ forallb f w = true.
Proof.
  revert p. induction n as [|n IH]; intros p; cbn [Times].
  - rewrite matches_Empty. split; [intros; by exists []|]. by intros ([|]&?&?&?).
  - rewrite matches_Cat. setoid_rewrite matches_Class. setoid_rewrite IH. split.
    + intros (s&(b&Hb&H1)&w&H2&Hl&Hw). exists (b :: w). split; [apply (via_app [b] w); by exists s|]. cbn. by rewrite Hl, Hb.
    + intros ([|b w]&Hv&Hl&Hw); [done|]. cbn in Hl, Hw. apply andb_prop in Hw as [Hb Hw]. apply (via_app [b] w) in Hv as (s&H1&H2).
      exists s. split; [by exists b|]. exists w. split; [done|]. split; [lia|done].
Qed.

Lemma matches_Star f p q : matches (Star (Class f)) p q <-> exists w, via w p q /\ forallb f w = true.
Proof.
  split.
  - remember (Star (Class f)) as r eqn:Er. induction 1 as [| | | | |a p|a p q s Ha _ Hs IH| | | |]; simplify_eq; [by exists []|].
    apply matches_Class in Ha as (b&Hb&Hv). destruct IH as (w&Hw&Hf); [done|]. exists (b :: w).
    split; [apply (via_app [b] w); by exists q|cbn; by rewrite Hb].
  - intros (w&Hv&Hf). revert p Hv Hf. induction w as [|b w IH]; intros p Hv Hf; [apply matches_Empty in Hv; inversion Hv; constructor|].
    cbn in Hf. apply andb_prop in Hf as [Hb Hf]. apply (via_app [b] w) in Hv as (s&H1&H2). econstructor; [apply matches_Class; by exists b|by apply IH].
Qed.

Lemma matches_Plus f p q : matches (Plus (Class f)) p q <-> exists w, via w p q /\ w <> [] /\ forallb f w = true.
Proof.
  unfold Plus. rewrite matches_Cat. setoid_rewrite matches_Class. setoid_rewrite matches_Star. split.
  - intros (s&(b&Hb&H1)&w&H2&Hw). exists (b :: w). split; [apply (via_app [b] w); by exists s|]. cbn. by rewrite Hb.
  - intros ([|b w]&Hv&Hn&Hw); [done|]. cbn in Hw. apply andb_prop in Hw as [Hb Hw]. apply (via_app [b] w) in Hv as (s&H1&H2).
    exists s. split; [by exists b|by exists w].
Qed.

Lemma matches_UpTo n f p q : matches (UpTo n (Class f)) p q <-> exists w, via w p q /\ (length w <= n)%nat /\ forallb f w = true.
Proof.
  revert p. induction n as [|n IH]; intros p; cbn [UpTo].
  - rewrite matches_Empty. split; [intros; exists []; done|]. by intros ([|]&?&?&?); cbn in *; [|lia].
  - unfold Opt. rewrite matches_Alt, matches_Cat, matches_Empty. setoid_rewrite matches_Class. setoid_rewrite IH. split.
    + intros [(s&(b&Hb&H1)&w&H2&Hl&Hw)|H]; [|exists []; cbn; by split_and!; [|lia|]].
      exists (b :: w). split; [apply (via_app [b] w); by exists s|]. cbn. split; [lia|by rewrite Hb].
    + intros ([|b w]&Hv&Hl&Hw); [by right|]. left. cbn in Hl, Hw. apply andb_prop in Hw as [Hb Hw]. apply (via_app [b] w) in Hv as (s&H1&H2).
      exists s. split; [by exists b|]. exists w. split; [done|]. split; [lia|done].
Qed.

Lemma matches_seq_cons a l p q : matches (seq (a :: l)) p q <-> exists s, matches a p s /\ matches (seq l) s q.
Proof. apply matches_Cat. Qed.

Lemma matches_Begin p q : matches BeginText p q <-> p.1 = [] /\ p = q.
Proof. split; [by inversion 1|]. destruct p as [l t]. cbn. intros [-> <-]. constructor. Qed.

Lemma matches_End p q : matches EndText p q <-> p.2 = [] /\ p = q.
Proof. split; [by inversion 1|]. destruct p as [l t]. cbn. intros [-> <-]. constructor. Qed.

Lemma matches_Boundary p q : matches WordBoundary p q <-> boundary p = true /\ p = q.
Proof. split; [by inversion 1|]. intros [? <-]. by constructor. Qed.

(** ** Expressions without assertions *)

(** What an expression reads depends on nothing around it. *)
Definition reads (r : regex) (L : bytes -> Prop) : Prop := forall p q, matches r p q <-> exists w, via w p q /\ L w.

Definition then_ (L M : bytes -> Prop) (w : bytes) : Prop := exists u v, w = u ++ v /\ L u /\ M v.
Definition rounds (L : bytes -> Prop) (w : bytes) : Prop := exists l, w = concat l /\ Forall L l.

Lemma reads_ext r L M : (forall w, L w <-> M w) -> reads r L -> reads r M.
Proof. intros H Hr p q. rewrite (Hr p q). by setoid_rewrite H. Qed.

Lemma reads_Empty : reads Empty (fun w => w = []).
Proof. intros p q. rewrite matches_Empty. split; [intros; by exists []|]. by intros (w&?&->). Qed.

Lemma reads_Text s : reads (Text s) (fun w => w = s).
Proof. intros p q. rewrite matches_Text. split; [intros; by exists s|]. by intros (w&?&->). Qed.

Lemma reads_Class f : reads (Class f) (fun w => exists b, w = [b] /\ f b = true).
Proof. intros p q. rewrite matches_Class. split; [intros (b&?&?); exists [b]; eauto|]. intros (w&?&b&->&?). eauto. Qed.

Lemma reads_Char c : reads (Char c) (fun w => w = [c]).
Proof. intros p q. rewrite matches_Char. split; [intros; by exists [c]|]. by intros (w&?&->). Qed.

Lemma reads_Cat a b L M : reads a L -> reads b M -> reads (Cat a b) (then_ L M).
Proof.
  intros Ha Hb p q. rewrite matches_Cat. setoid_rewrite (Ha p). split.
  - intros (s&(u&Hu&HL)&Hm). apply Hb in Hm as (v&Hv&HM). exists (u ++ v). split; [apply via_app; by exists s|by exists u, v].
  - intros (w&Hw&u&v&->&HL&HM). apply via_app in Hw as (s&Hu&Hv). exists s. split; [by exists u|]. apply Hb. by exists v.
Qed.

Lemma reads_Alt a b L M : reads a L -> reads b M -> reads (Alt a b) (fun w => L w \/ M w).
Proof.
  intros Ha Hb p q. rewrite matches_Alt, (Ha p q), (Hb p q). split; [intros [(w&?&?)|(w&?&?)]; eauto|]. intros (w&?&[?|?]); eauto.
Qed.

Lemma reads_Star a L : reads a L -> reads (Star a) (rounds L).
Proof.
  intros Ha p q. split.
  - remember (Star a) as r eqn:Er. induction 1 as [| | | | |a' p|a' p q s Hm _ Hs IH| | | |]; simplify_eq; [exists []; split; [done|by exists []]|].
    apply Ha in Hm as (w&Hw&HL). destruct IH as (v&Hv&l&->&Hl); [done|]. exists (w ++ concat l). split; [apply via_app; by exists q|].
    exists (w :: l). split; [done|by constructor].
  - intros (w&Hw&l&->&Hl). revert p Hw. induction Hl as [|w l HL _ IH]; intros p Hw; [apply matches_Empty in Hw; inversion Hw; constructor|].
    cbn [concat] in Hw. apply via_app in Hw as (s&H1&H2). econstructor; [apply Ha; by exists w|by apply IH].
Qed.

Lemma reads_Capture n a L : reads a L -> reads (Capture n a) L.
Proof. intros Ha p q. by rewrite matches_Capture. Qed.

Lemma reads_Times n f : reads (Times n (Class f)) (fun w => length w = n /\ forallb f w = true).
Proof. intros p q. apply matches_Times. Qed.

Lemma reads_UpTo n f : reads (UpTo n (Class f)) (fun w => (length w <= n)%nat /\ forallb f w = true).
Proof. intros p q. apply matches_UpTo. Qed.

Lemma reads_Plus f : reads (Plus (Class f)) (fun w => w <> [] /\ forallb f w = true).
Proof. intros p q. apply matches_Plus. Qed.

Lemma reads_any_of a l : forall L, reads a (fun w => w = L) -> forall Ls, Forall2 (fun r s => reads r (fun w => w = s)) l Ls -> reads (any_of a l) (fun w => w ∈ L :: Ls).
Proof.
  intros L Ha Ls Hl. assert (H : reads (foldl Alt a l) (fun w => w ∈ L :: Ls)); [|by destruct l].
  assert (Ha' : reads a (fun w => w ∈ [L])) by (eapply reads_ext; [|exact Ha]; intros w; by rewrite list_elem_of_singleton).
  change (L :: Ls) with ([L] ++ Ls). revert Ha'. generalize [L] as acc. clear Ha. revert a.
  induction Hl as [|r s l Ls Hr _ IH]; intros a acc Ha; cbn [foldl]; [by rewrite app_nil_r|].
  rewrite cons_middle, app_assoc. apply IH. eapply reads_ext; [|by apply reads_Alt]. intros w. cbn. by rewrite elem_of_app, list_elem_of_singleton.
Qed.

(** The literal alternatives of a non-empty list. *)
Lemma reads_texts s l : reads (any_of (Text s) (map Text l)) (fun w => w ∈ s :: l).
Proof. apply reads_any_of; [apply reads_Text|]. induction l; constructor; [apply reads_Text|done]. Qed.

Lemma matches_seq_app l k p q : matches (seq (l ++ k)) p q <-> exists s, matches (seq l) p s /\ matches (seq k) s q.
Proof.
  revert p. induction l as [|a l IH]; intros p; cbn [app].
  - split; [intros H; exists p; split; [constructor|done]|]. intros (s&Hs&H). by inversion Hs; subst.
  - rewrite matches_seq_cons. setoid_rewrite IH. setoid_rewrite matches_seq_cons. split.
    + intros (s&Ha&t&Hl&Hk). exists t. split; [by exists s|done].
    + intros (t&(s&Ha&Hl)&Hk). exists s. split; [done|by exists t].
Qed.

(** Read to the end of the text. *)
Lemma matches_to_end l L p q : reads (seq l) L -> matches (seq (l ++ [EndText])) p q <-> L p.2 /\ q = (rev p.2 ++ p.1, []).
Proof.
  intros Hl. rewrite matches_seq_app. split.
  - intros (s&(w&[Hw1 Hw2]&HL)%Hl&(s'&[Hs <-]%matches_End&Hq)%matches_seq_cons). inversion Hq; subst. rewrite Hs, app_nil_r in Hw1.
    rewrite Hw1. split; [done|]. destruct q as [l' t]. cbn in *. by subst.
  - intros [HL ->]. exists (rev p.2 ++ p.1, []). split; [apply Hl; exists p.2; split; [|done]; split; cbn; [by rewrite app_nil_r|done]|].
    apply matches_seq_cons. exists (rev p.2 ++ p.1, []). split; constructor.
Qed.

(** ... after the text's start or a character of the class, or at a word boundary. *)
Lemma edge_to_end f l L s : reads (seq l) L ->
  MatchString (seq (Alt BeginText (Class f) :: l ++ [EndText])) s = true <->
  exists pre w, s = pre ++ w /\ (pre = [] \/ exists pre' b, pre = pre' ++ [b] /\ f b = true) /\ L w.
Proof.
  intros Hl. rewrite MatchString_iff. split.
  - intros (x&p&q&[Hx1 Hx2]&(p1&Hp&[HL _]%(matches_to_end _ L _ _ Hl))%matches_seq_cons). cbn in Hx1, Hx2. rewrite app_nil_r in Hx2.
    apply matches_Alt in Hp as [[Hp <-]%matches_Begin|(b&Hb&Hv1&Hv2)%matches_Class].
    + exists [], p.2. rewrite Hp in Hx2. destruct x as [|b x] using rev_ind; [|by rewrite rev_app_distr in Hx2]. split; [done|]. split; [by left|done].
    + exists (x ++ [b]), p1.2. split; [by rewrite Hx1, Hv1, <-app_assoc|]. split; [right; by exists x, b|done].
  - intros (pre&w&->&He&HL).
    assert (Hend : matches (seq (l ++ [EndText])) (rev pre, w) (rev w ++ rev pre, [])) by (by apply (matches_to_end _ L)).
    destruct He as [->|(pre'&b&->&Hb)].
    + exists [], ([], w), (rev w ++ [], []). split; [by apply via_nil|]. apply matches_seq_cons. eexists. split; [|exact Hend]. repeat constructor.
    + exists pre', (rev pre', b :: w), (rev w ++ rev (pre' ++ [b]), []). split; [split; cbn; [by rewrite <-app_assoc|by rewrite app_nil_r]|].
      apply matches_seq_cons. eexists. split; [|exact Hend]. rewrite rev_app_distr. apply M_right. by constructor.
Qed.

Lemma boundary_to_end l L s : reads (seq l) L ->
  MatchString (seq (WordBoundary :: l ++ [EndText])) s = true <-> exists pre w, s = pre ++ w /\ boundary (rev pre, w) = true /\ L w.
Proof.
  intros Hl. rewrite MatchString_iff. split.
  - intros (x&p&q&[Hx1 Hx2]&(p1&[Hp <-]%matches_Boundary&[HL _]%(matches_to_end _ L _ _ Hl))%matches_seq_cons). cbn in Hx1, Hx2. rewrite app_nil_r in Hx2.
    exists x, p.2. split; [done|]. split; [|done]. by destruct p; cbn in *; subst.
  - intros (pre&w&->&Hb&HL). exists pre, (rev pre, w), (rev w ++ rev pre, []). split; [split; cbn; [done|by rewrite app_nil_r]|].
    apply matches_seq_cons. eexists. split; [by constructor|]. by apply (matches_to_end _ L).
Qed.

Lemma whole_text l L s : reads (seq l) L -> MatchString (seq (BeginText :: l ++ [EndText])) s = true <-> L s.
Proof.
  intros Hl. rewrite MatchString_iff. split.
  - intros (x&p&q&[Hx1 Hx2]&(p1&[Hp <-]%matches_Begin&[HL _]%(matches_to_end _ L _ _ Hl))%matches_seq_cons). cbn in Hx1, Hx2. rewrite app_nil_r in Hx2.
    rewrite Hp in Hx2. destruct x as [|b x] using rev_ind; [|by rewrite rev_app_distr in Hx2]. cbn in Hx1. by rewrite Hx1.
  - intros HL. exists [], ([], s), (rev s ++ [], []). split; [apply via_nil|].
    apply matches_seq_cons. exists ([], s). split; [constructor|]. by apply (matches_to_end _ L).
Qed.

(** ** Submatches *)

(** The captures of a match, latest first. *)
Inductive yields : regex -> position -> position -> captures -> Prop :=
| Y_cat a b p q s ca cb : yields a p q ca -> yields b q s cb -> yields (Cat a b) p s (cb ++ ca)
| Y_left a b p q c : yields a p q c -> yields (Alt a b) p q c
| Y_right a b p q c : yields b p q c -> yields (Alt a b) p q c
| Y_stop a p : yields (Star a) p p []
| Y_again a p q s ca cs : yields a p q ca -> yields (Star a) q s cs -> yields (Star a) p s (cs ++ ca)
| Y_capture n a p q c : yields a p q c -> yields (Capture n a) p q ((n, between p q) :: c)
| Y_other r p q : match r with Empty | Class _ | BeginText | EndText | WordBoundary => True | _ => False end -> matches r p q -> yields r p q [].

Lemma yields_matches r p q c : yields r p q c -> matches r p q.
Proof. induction 1; try done; by econstructor. Qed.

Lemma run_yields {R} r : forall p c (k : position -> captures -> option R) x,
  run r p c k = Some x -> exists q c', yields r p q c' /\ k q (c' ++ c) = Some x.
Proof.
  induction r as [|f|a IHa b IHb|a IHa b IHb|a IHa|n a IHa| | |]; intros p c k x; cbn [run].
  - intros H. exists p, []. split; [by apply Y_other; [|constructor]|done].
  - destruct p as [l [|b t]]; cbn; [done|]. destruct (f b) eqn:E; [|done]. intros H. eexists _, []. split; [apply Y_other; [done|by constructor]|done].
  - intros (q&c1&Ha&H)%IHa. apply IHb in H as (s&c2&Hb&H). exists s, (c2 ++ c1). split; [by econstructor|by rewrite <-app_assoc].
  - destruct (run a p c k) as [y|] eqn:E.
    + intros [= ->]. apply IHa in E as (q&c1&Ha&H). exists q, c1. split; [by constructor|done].
    + intros (q&c1&Hb&H)%IHb. exists q, c1. split; [by constructor|done].
  - generalize (length p.2) as n. intros n. revert p c. induction n as [|n IH]; intros p c; [intros H; exists p, []; split; [constructor|done]|].
    match goal with |- match ?e with _ => _ end = _ -> _ => destruct e as [y|] eqn:E end.
    + intros [= ->]. apply IHa in E as (q&c1&Ha&H). destruct (_ <? _)%nat; [|done].
      apply IH in H as (s&c2&Hs&H). exists s, (c2 ++ c1). split; [by econstructor|by rewrite <-app_assoc].
    + intros H. exists p, []. split; [constructor|done].
  - intros (q&c1&Ha&H)%IHa. eexists q, _. split; [by constructor|exact H].
  - destruct p as [[|b l] t]; [|done]. intros H. eexists _, []. split; [by apply Y_other; [|constructor]|done].
  - destruct p as [l [|b t]]; [|done]. intros H. eexists _, []. split; [by apply Y_other; [|constructor]|done].
  - destruct (boundary p) eqn:E; [|done]. intros H. exists p, []. split; [by apply Y_other; [|constructor]|done].
Qed.

Lemma search_yields r prev rest m : search r prev rest = Some m -> yields r (fd_start m) (fd_end m) (fd_captures m).
Proof.
  revert prev. induction rest as [|b t IH]; intros prev; cbn [search]; destruct (match_at r (prev, _)) as [m'|] eqn:E; try done; try apply IH;
    intros [= <-]; unfold match_at in E; apply run_yields in E as (q&c&Hy&[= <-]); cbn; by rewrite app_nil_r.
Qed.

Lemma FindAll_yields r s m : m ∈ FindAll r s -> yields r (fd_start m) (fd_end m) (fd_captures m).
Proof.
  unfold FindAll. generalize (S (length s)) as fuel, (@nil byte, s) as p. induction fuel as [|fuel IH]; intros p; cbn [find_from]; [by intros ?%elem_of_nil|].
  destruct (search r p.1 p.2) as [n|] eqn:E; [|by intros ?%elem_of_nil]. intros [->|H]%elem_of_cons; [by eapply search_yields|by eapply IH].
Qed.

(** An expression without a group captures nothing. *)
Fixpoint plain_regex (r : regex) : bool :=
  match r with Cat a b | Alt a b => plain_regex a && plain_regex b | Star a => plain_regex a | Capture _ _ => false | _ => true end.

Lemma plain_yields r p q c : yields r p q c -> plain_regex r = true -> c = [].
Proof.
  induction 1; cbn; intros Hr; try done; bool_to_prop; try by auto.
  - by rewrite IHyields1, IHyields2.
  - by rewrite IHyields1, IHyields2.
Qed.

Lemma yields_seq_cons a l p q c : yields (seq (a :: l)) p q c -> exists s ca cl, yields a p s ca /\ yields (seq l) s q cl /\ c = cl ++ ca.
Proof. inversion 1 as [? ? ? s ? ca cl| | | | | |]; subst; [|done]. by exists s, ca, cl. Qed.

Lemma yields_Capture n a p q c : yields (Capture n a) p q c -> exists w c', via w p q /\ matches a p q /\ yields a p q c' /\ c = (n, w) :: c'.
Proof.
  inversion 1 as [| | | | |? ? ? ? c' Ha|]; subst; [|done]. pose proof (yields_matches _ _ _ _ Ha) as Hm.
  destruct (matches_via _ _ _ Hm) as (w&Hw). exists w, c'. by rewrite (between_via w).
Qed.
