(* ===== verification/RefExtract.v ===== *)
(** * Reference extraction ([internal/observer/adapter/codex/extract.go])

    Commits, pull requests and bead ids found in the text of a recognised tool surface, deduplicated and
    capped. Unmodelled: [snapshotBeadPattern]'s memo, which holds the pattern of the snapshot it is asked
    for. The caller's distinct-reference cap and its prefix map are behind an interface, [Host]: the
    state of whatever answers them. Declared prefixes are valid UTF-8. *)

From S2P Require Import Prelude GoStrings Json JsonText GoNet GoPath GoJson GoLit Fields BeadSecret BeadPrefix.
From S2P Require Import ContentGuard Validate Evidence Policy Regex.

Definition ExtractorVersion : bytes := str "codex-refextract-v3".

Inductive RefKind : Type := RefKindCommit | RefKindPullRequest | RefKindBead.

#[export] Instance RefKind_eq_dec : EqDecision RefKind.
Proof. solve_decision. Defined.

(** What the caller supplies: [DistinctRefAdmitter.Admit] and [BeadPrefixMapSource.Current]. *)
Class Host (H : Type) : Type := {
  AdmitRef : H -> RefKind -> bytes -> bool * H;
  CurrentMap : H -> option BeadPrefixMap * H;
}.

(** [PrefixMap] and [DistinctRefs]: whether the hook is there. *)
Record ReferenceConfig : Type := mkRefConfig {
  rf_BeadPrefixes : list bytes;
  rf_Resolver : ProjectResolver;
  rf_PrefixMap : bool;
  rf_DistinctRefs : bool;
}.

Record SurfaceText : Type := mkSurface { sf_Tool : bytes; sf_Text : bytes }.

(** Its [Kind] and the pointer that kind selects. *)
Inductive ExtractedReference : Type :=
| RCommit (c : VcsReferenceInput)
| RPullRequest (c : VcsReferenceInput)
| RBead (w : ExtractedWorkRefInput) (resolver : ProjectResolver).

Definition ref_kind (r : ExtractedReference) : RefKind :=
  match r with RCommit _ => RefKindCommit | RPullRequest _ => RefKindPullRequest | RBead _ _ => RefKindBead end.

Definition identifier (r : ExtractedReference) : bytes :=
  match r with RCommit c | RPullRequest c => vi_Identifier c | RBead w _ => xr_BeadID w end.

(** ** The patterns *)

Definition hex_run (n : nat) : regex := Times n (Class is_hex_lower).
Definition spaces1 : regex := Plus (Class re_space).
Definition line_start : regex := Alt BeginText (Class re_space).

Definition fullHexPattern : regex := seq [WordBoundary; any_of (hex_run 64) [hex_run 40]; WordBoundary].

Definition commitHeaderAnchor : regex :=
  seq [Alt BeginText (Class (fun b => re_space b || bool_decide (b = x28))); Text (str "commit"); spaces1; EndText].
Definition commitParentAnchor : regex := seq [line_start; Text (str "parent"); spaces1; EndText].
Definition commitFromAnchor : regex := seq [line_start; Text (str "From"); spaces1; EndText].
Definition commitMergeAnchor : regex :=
  seq [line_start; Text (str "Merge:"); spaces1; Star (any_of (Cat (hex_run 40) spaces1) [Cat (hex_run 64) spaces1]); EndText].

Definition git_verbs : list bytes :=
  map str ["show"; "checkout"; "switch"; "cherry-pick"; "revert"; "reset"; "diff"; "log"; "branch"; "tag"; "merge"; "rebase"; "cat-file";
           "rev-parse"; "rev-list"; "clone"; "fetch"; "pull"; "push"; "stash"; "bisect"; "describe"]%string.

Definition alternatives (l : list bytes) : regex := match map Text l with [] => Empty | a :: r => any_of a r end.

Definition option_flag : regex :=
  seq [spaces1; Char x2d; Opt (Char x2d); Class is_alnum; Star (Class (fun b => re_word b || bool_decide (b ∈ [x3d; x2d])))].
Definition commitGitCLIAnchor : regex :=
  seq [WordBoundary; Text (str "git"); spaces1; alternatives git_verbs; Star option_flag; spaces1; EndText].

Definition slug_run : regex := Plus (Class isSlugByte).
Definition number20 : regex := Cat (Class is_digit) (UpTo 19 (Class is_digit)).

Definition prURLPattern : regex :=
  seq [WordBoundary; Text (str "https://github.com/"); Capture 1 (seq [slug_run; Char x2f; slug_run]); Text (str "/pull/");
       Capture 2 number20; WordBoundary].
Definition prAnchoredHashRe : regex :=
  seq [WordBoundary; Alt (seq [FoldText (str "pull"); Class (fun b => bool_decide (b ∈ [x20; x2d])); FoldText (str "request")]) (FoldText (str "pr"));
       spaces1; Char x23; Capture 1 number20; WordBoundary].
Definition prGhCommandRe : regex :=
  seq [WordBoundary; Text (str "gh"); spaces1; Text (str "pr"); spaces1; Plus (Class (fun b => is_lower b || bool_decide (b = x2d))); spaces1;
       Opt (Char x23); Capture 1 number20; WordBoundary].

Definition shellSegmentSep : regex :=
  any_of (Text (str "||")) [Text (str "&&"); Class (fun b => bool_decide (b ∈ str "|;&" ++ [x0a] ++ str "(){}`"))].

(** ** Surfaces *)

(** [unicode.ToLower] beyond ASCII, as far as an ASCII name can tell: two runes have an ASCII lower case. *)
Definition lower_to_ascii (r : bytes) : bytes :=
  if bool_decide (r = [xc4; xb0]) then [x69] else if bool_decide (r = [xe2; x84; xaa]) then [x6b] else r.

Definition TOOL_CALL : bytes := str "TOOL_CALL".
Definition TOOL_RESULT : bytes := str "TOOL_RESULT".

Definition recognizedSurface (surface tool text : bytes) (names : list bytes) : bool :=
  bool_decide (ToLower lower_to_ascii (TrimSpace tool) ∈ names)
  || (bool_decide (surface = TOOL_CALL)
      && existsb (fun seg => existsb (fun n => HasPrefix (TrimSpace seg) (n ++ [x20])) names) (SplitBy shellSegmentSep text)).

Definition isGitGhSurface (surface tool text : bytes) : bool := recognizedSurface surface tool text [str "git"; str "gh"].
Definition isBeadSurface (surface tool text : bytes) : bool := recognizedSurface surface tool text [str "bd"; str "git"; str "gh"].

Definition extractionProvenance (surface patternID : bytes) : ExtractionProvenance := mkExtraction surface patternID ExtractorVersion.

(** ** Commits and pull requests *)

(** The text between the line's start and a position: [before] is reversed. *)
Fixpoint line_prefix_rev (before : bytes) : bytes :=
  match before with [] => [] | b :: r => if bool_decide (b = x0a) then [] else b :: line_prefix_rev r end.
Definition line_prefix (p : position) : bytes := rev (line_prefix_rev p.1).

Definition commitAnchor (prefix : bytes) : option bytes :=
  if MatchString commitHeaderAnchor prefix then Some (str "git-commit-header-v1")
  else if MatchString commitParentAnchor prefix then Some (str "git-commit-parent-v1")
  else if MatchString commitFromAnchor prefix then Some (str "git-format-patch-from-v1")
  else if MatchString commitMergeAnchor prefix then Some (str "git-merge-line-v1")
  else if MatchString commitGitCLIAnchor prefix then Some (str "git-cli-object-arg-v1")
  else None.

Definition commit_of (surface : bytes) (m : found) : option ExtractedReference :=
  patternID ← commitAnchor (line_prefix (fd_start m));
  Some (RCommit (mkVcsInput (matched m) [] (extractionProvenance surface patternID))).

Definition extractCommits (surface text : bytes) : list ExtractedReference :=
  omap (commit_of surface) (FindAll fullHexPattern text).

Definition pr_reference (surface patternID ident slug : bytes) : ExtractedReference :=
  RPullRequest (mkVcsInput ident slug (extractionProvenance surface patternID)).

Definition extractPullRequests (surface text : bytes) : list ExtractedReference :=
  map (fun m => pr_reference surface (str "gh-pr-url-v1") (TrimRight x2f (matched m)) (submatch m 1)) (FindAll prURLPattern text)
  ++ map (fun m => pr_reference surface (str "pr-anchored-hash-v1") (x23 :: submatch m 1) []) (FindAll prAnchoredHashRe text)
  ++ map (fun m => pr_reference surface (str "gh-pr-command-v1") (x23 :: submatch m 1) []) (FindAll prGhCommandRe text).

(** ** Beads *)

(** [strings.Fields]: the maximal runs without a space character. *)
Fixpoint fields_loop (fuel : nat) (s cur : bytes) : list bytes :=
  let flush := match cur with [] => [] | _ => [cur] end in
  match fuel, s with
  | S fuel', b :: r =>
      match leading_space s with
      | Some n => flush ++ fields_loop fuel' (drop n s) []
      | None => fields_loop fuel' r (cur ++ [b])
      end
  | _, _ => flush
  end.
Definition Fields (s : bytes) : list bytes := fields_loop (length s) s [].

Definition branchOperandFlags : list bytes := map str ["-b"; "-B"; "-c"; "-C"; "--branch"; "--orphan"]%string.

Definition isBranchOperand (fields : list bytes) (i : nat) : bool :=
  match i with
  | O => false
  | S j =>
      let prev := default [] (fields !! j) in
      bool_decide (prev ∈ branchOperandFlags)
      || bool_decide (prev = str "branch") && (2 <=? i)%nat && bool_decide (str "git" ∈ take j fields)
  end.

Fixpoint drop_until (p : byte -> bool) (s : bytes) : bytes := match s with b :: r => if p b then s else drop_until p r | [] => [] end.
Definition trimBeadToken (tok : bytes) : bytes := rev (drop_until is_alnum (rev (drop_until is_alnum tok))).

(** [None]: no pattern. *)
Definition beadPattern (prefixes : list bytes) : option regex :=
  match filter (fun p => p <> []) prefixes with
  | [] => None
  | quoted =>
      Some (seq [BeginText; alternatives quoted; Plus (Class is_alnum); Star (seq [Char x2d; Plus (Class is_alnum)]);
                 Star (seq [Char x2e; Plus (Class is_digit)]); EndText])
  end.

Definition declaredPrefix (id : bytes) (snap : option BeadPrefixMap) (static : list bytes) : bytes :=
  foldl (fun p s => if (zlen p <? zlen s) && HasPrefix id s then s else p) (LongestPrefix snap id) static.

(** The pattern a snapshot and the static prefixes select, with the resolver references are built with. *)
Definition selectPattern (snap : option BeadPrefixMap) (cfg : ReferenceConfig) : option regex * ProjectResolver :=
  let resolver := rf_Resolver cfg in
  let mapped := mkResolver (pr_StampedProjectID resolver) snap (pr_DefaultProjectID resolver) in
  if Len snap =? 0 then (beadPattern (rf_BeadPrefixes cfg), resolver)
  else match rf_BeadPrefixes cfg with
       | [] => (beadPattern (Prefixes snap), mapped)
       | _ => (beadPattern (Prefixes snap ++ rf_BeadPrefixes cfg), mapped)
       end.

(** One token. *)
Definition bead_of (re : regex) (resolver : ProjectResolver) (snap : option BeadPrefixMap) (static fields : list bytes) (it : nat * bytes)
    : option ExtractedReference :=
  if isBranchOperand fields it.1 then None
  else
    let id := trimBeadToken it.2 in
    if bool_decide (id = []) || negb (MatchString re id) then None
    else
      let prefix := declaredPrefix id snap static in
      if SecretShapedBeadID id prefix then None else Some (RBead (mkExtractedRef id prefix) resolver).

Definition extractBeads (text : bytes) (snap : option BeadPrefixMap) (cfg : ReferenceConfig) : list ExtractedReference :=
  match selectPattern snap cfg with
  | (None, _) => []
  | (Some re, resolver) =>
      let fields := Fields text in
      omap (bead_of re resolver snap (rf_BeadPrefixes cfg) fields) (imap pair fields)
  end.

(** ** All of them *)

Definition ref_key (r : ExtractedReference) : RefKind * bytes := (ref_kind r, identifier r).

(** First seen first. *)
Fixpoint dedup_from (seen : list (RefKind * bytes)) (refs : list ExtractedReference) : list ExtractedReference :=
  match refs with
  | [] => []
  | r :: l => if bool_decide (ref_key r ∈ seen) then dedup_from seen l else r :: dedup_from (ref_key r :: seen) l
  end.
Definition dedupReferences (refs : list ExtractedReference) : list ExtractedReference := dedup_from [] refs.

Definition refCapDiagnostic (context : bytes) : CaptureDiagnosticInput :=
  mkDiagnostic (str "REFERENCE_OVERFLOW") (str "WARNING") (str "PARTIAL") context.

Section host.
Context {H : Type} `{Host H}.

(** The loop over [Admit]: what is kept, and how many were not. *)
Fixpoint apply_cap (h : H) (refs : list ExtractedReference) : list ExtractedReference * Z * H :=
  match refs with
  | [] => ([], 0, h)
  | r :: l =>
      let '(ok, h) := AdmitRef h (ref_kind r) (identifier r) in
      let '(kept, rejected, h) := apply_cap h l in
      if ok : bool then (r :: kept, rejected, h) else (kept, rejected + 1, h)
  end.

Definition ExtractReferences (surface : bytes) (s : SurfaceText) (cfg : ReferenceConfig) (h : H)
    : list ExtractedReference * list CaptureDiagnosticInput * H :=
  let vcs :=
    if isGitGhSurface surface (sf_Tool s) (sf_Text s)
    then extractCommits surface (sf_Text s) ++ extractPullRequests surface (sf_Text s) else [] in
  let '(beads, h) :=
    if isBeadSurface surface (sf_Tool s) (sf_Text s) then
      let '(snap, h) := if rf_PrefixMap cfg then CurrentMap h else (None, h) in
      (extractBeads (sf_Text s) snap cfg, h)
    else ([], h) in
  let refs := dedupReferences (vcs ++ beads) in
  let '(refs, capped, h) :=
    if rf_DistinctRefs cfg then
      let '(kept, rejected, h) := apply_cap h refs in
      (kept,
       if 0 <? rejected
       then [refCapDiagnostic (str "distinct-reference cap reached: dropped " ++ FormatInt rejected ++ str " extracted reference(s)")]
       else [], h)
    else (refs, [], h) in
  if MaxReferencesPerObservation <? zlen refs then
    let dropped := zlen refs - MaxReferencesPerObservation in
    (take (Z.to_nat MaxReferencesPerObservation) refs,
     capped ++ [refCapDiagnostic (str "reference overflow: dropped " ++ FormatInt dropped
                 ++ str " extracted reference(s) beyond the per-observation cap of " ++ FormatInt MaxReferencesPerObservation)], h)
  else (refs, capped, h).
End host.

(** ** Runs *)

Definition sha (c : String.string) : bytes := concat (replicate 10 (str c)).

Example commit_header : extractCommits TOOL_RESULT (str "commit " ++ sha "0a1f" ++ [x0a] ++ str "Author: x")
  = [RCommit (mkVcsInput (sha "0a1f") [] (mkExtraction TOOL_RESULT (str "git-commit-header-v1") ExtractorVersion))].
Proof. vm_compute. reflexivity. Qed.
Example bare_hex : extractCommits TOOL_RESULT (str "token=" ++ sha "0a1f") = [].
Proof. vm_compute. reflexivity. Qed.
Example merge_line : map identifier (extractCommits TOOL_RESULT (str "Merge: " ++ sha "0a1f" ++ str " " ++ sha "beef")) = [sha "0a1f"; sha "beef"].
Proof. vm_compute. reflexivity. Qed.
Example cli_arg : map identifier (extractCommits TOOL_CALL (str "git show --stat " ++ sha "0a1f" ++ str " | grep " ++ sha "dead")) = [sha "0a1f"].
Proof. vm_compute. reflexivity. Qed.
Example pr_forms : map identifier (extractPullRequests TOOL_CALL (str "gh pr view 12; see https://github.com/a/b/pull/34, Pull-Request #56 and #78"))
  = map str ["https://github.com/a/b/pull/34"; "#56"; "#12"]%string.
Proof. vm_compute. reflexivity. Qed.
Definition demo_refs : ReferenceConfig := mkRefConfig [str "ga-"] (mkResolver [] None (str "team")) false false.
Example bead_tokens : map identifier (extractBeads (str "bd close (ga-1tzraj.2) ga-pilot.git/ga-x git checkout -b ga-new-slug ga-a-b,") None demo_refs)
  = map str ["ga-1tzraj.2"; "ga-a-b"]%string.
Proof. vm_compute. reflexivity. Qed.
