(* ===== verification/RefFacts.v ===== *)
(** * What the extractors capture ([RefExtract])

    Commits are captured exactly at the full hex words a git anchor precedes, beads exactly at the tokens
    that are a declared prefix with a tail and are not secret-shaped, pull requests only in their three
    forms; what is returned is distinct and capped, and the constructors accept it. *)

From S2P Require Import Prelude GoStrings Json JsonText GoNet GoPath GoJson GoLit Fields BeadSecret BeadPrefix.
From S2P Require Import ContentGuard WireTypes StrictDecode Validate Evidence Sealed Policy Regex RefExtract.

(** ** Full hex words *)

Definition hex_word (w : bytes) : Prop := forallb is_hex_lower w = true /\ (length w = 40%nat \/ length w = 64%nat).

Lemma is_hex_lower_word b : is_hex_lower b = true -> re_word b = true.
Proof. by destruct b. Qed.

Lemma hex_word_head w z : hex_word w -> word_at (w ++ z) = true.
Proof.
  intros [Hw Hl]. destruct w as [|b w]; [cbn in Hl; lia|]. cbn in *. apply andb_prop in Hw as [Hb _]. by apply is_hex_lower_word.
Qed.

Lemma hex_word_last w l : hex_word w -> word_at (rev w ++ l) = true.
Proof.
  intros [Hw Hl]. apply hex_word_head. split; [|by rewrite length_rev]. apply forallb_forall. intros b Hb.
  rewrite forallb_forall in Hw. apply Hw. by apply in_rev.
Qed.

Lemma fullHex_iff p q : matches fullHexPattern p q <-> exists w, via w p q /\ hex_word w /\ word_at p.1 = false /\ word_at q.2 = false.
Proof.
  unfold fullHexPattern, hex_run. cbn [any_of foldl]. rewrite matches_seq_cons. setoid_rewrite matches_seq_cons. setoid_rewrite matches_seq_cons.
  setoid_rewrite matches_Boundary. setoid_rewrite matches_Alt. setoid_rewrite matches_Times. setoid_rewrite matches_Empty. split.
  - intros (s&[Hp <-]&t&Hw&u&[Hq <-]&Hu). assert (t = q) as -> by (destruct Hu, t, q; cbn in *; congruence).
    assert (H : exists w, via w p q /\ hex_word w). { unfold hex_word. destruct Hw as [(w&?&?&?)|(w&?&?&?)]; exists w; auto. }
    destruct H as (w&Hv&Hh). exists w. split; [done|]. split; [done|]. destruct Hv as [H1 H2]. unfold boundary in Hp, Hq.
    rewrite H1, hex_word_head in Hp by done. rewrite H2, hex_word_last in Hq by done. by destruct (word_at p.1), (word_at q.2).
  - intros (w&Hv&Hh&Hp&Hq). pose proof Hv as [H1 H2]. exists p. split.
    { split; [|done]. unfold boundary. by rewrite Hp, H1, hex_word_head. }
    exists q. split; [destruct Hh as [Hf [Hl|Hl]]; [right|left]; by exists w|]. exists q. split; [|apply via_nil]. split; [|done].
    unfold boundary. by rewrite Hq, H2, hex_word_last.
Qed.

(** Two occurrences of full hex words that overlap are one. *)
Lemma fullHex_isolated : isolated fullHexPattern.
Proof.
  split.
  - intros p q (w&Hv&[_ Hl]&_)%fullHex_iff. apply via_length in Hv. lia.
  - intros p q u p' q' (w&Hv&Hh&Hp&Hq)%fullHex_iff Hu (w'&Hv'&Hh'&Hp'&Hq')%fullHex_iff Hlt.
    assert (u = []) as ->.
    { destruct (via_split _ _ _ _ _ Hu Hv) as (x&->&Hx).
      { apply via_length in Hv, Hu. lia. }
      destruct u as [|b u] using rev_ind; [done|exfalso]. clear IHu. destruct Hu as [_ Hu]. rewrite Hu, rev_app_distr in Hp'. cbn in Hp'.
      destruct Hh as [Hf _]. rewrite forallb_app, forallb_app in Hf. apply andb_prop in Hf as [[_ Hb]%andb_prop _]. cbn in Hb.
      rewrite andb_true_r in Hb. by rewrite is_hex_lower_word in Hp'. }
    assert (p = p') as <- by (destruct Hu, p, p'; cbn in *; congruence). split; [done|].
    destruct (Nat.lt_trichotomy (length w) (length w')) as [Hc|[Hc|Hc]].
    + exfalso. destruct (via_split _ _ _ _ _ Hv Hv') as (x&->&Hx); [lia|]. destruct x as [|b x]; [rewrite app_nil_r in Hc; lia|].
      destruct Hx as [Hx _]. rewrite Hx in Hq. destruct Hh' as [Hf _]. rewrite forallb_app in Hf. apply andb_prop in Hf as [_ [Hb _]%andb_prop].
      cbn in Hq. by rewrite is_hex_lower_word in Hq.
    + by destruct (via_end_unique _ _ _ _ _ Hv Hv' Hc).
    + exfalso. destruct (via_split _ _ _ _ _ Hv' Hv) as (x&->&Hx); [lia|]. destruct x as [|b x]; [rewrite app_nil_r in Hc; lia|].
      destruct Hx as [Hx _]. rewrite Hx in Hq'. destruct Hh as [Hf _]. rewrite forallb_app in Hf. apply andb_prop in Hf as [_ [Hb _]%andb_prop].
      cbn in Hq'. by rewrite is_hex_lower_word in Hq'.
Qed.

(** The line up to a position. *)
Definition last_line (a : bytes) : bytes := rev (line_prefix_rev (rev a)).

Lemma extractCommits_iff surface text ident patternID :
  RCommit (mkVcsInput ident [] (extractionProvenance surface patternID)) ∈ extractCommits surface text <->
  exists a z, text = a ++ ident ++ z /\ hex_word ident /\ word_at (rev a) = false /\ word_at z = false
    /\ commitAnchor (last_line a) = Some patternID.
Proof.
  unfold extractCommits. rewrite list_elem_of_omap. split.
  - intros (m&Hm&Hc). unfold commit_of in Hc. apply bind_Some in Hc as (pat&Hp&[= <- <-]).
    destruct (proj1 (find_all_iff fullHexPattern text (fd_start m) (fd_end m) fullHex_isolated)) as [Hm' (v&Hv)]; [by exists m|].
    apply fullHex_iff in Hm' as (w&Hw&Hh&H1&H2). unfold matched. rewrite (between_via w) by done. exists v, (fd_end m).2.
    pose proof Hv as [Hv1 Hv2]. pose proof Hw as [Hw1 Hw2]. cbn in Hv1, Hv2. rewrite app_nil_r in Hv2.
    split; [by rewrite Hv1, Hw1|]. split; [done|]. rewrite <-Hv2. split; [done|]. split; [done|]. unfold last_line. rewrite <-Hv2. exact Hp.
  - intros (a&z&->&Hh&H1&H2&Ha). set (p := (rev a, ident ++ z)). set (q := (rev ident ++ rev a, z)).
    assert (Hv : via ident p q) by done.
    destruct (proj2 (find_all_iff fullHexPattern (a ++ ident ++ z) p q fullHex_isolated)) as (m&Hm&Hs&Hq).
    { split; [apply fullHex_iff; by exists ident|]. exists a. split; [done|]. cbn. by rewrite app_nil_r. }
    exists m. split; [done|]. unfold commit_of, line_prefix, matched. rewrite Hs, Hq, (between_via ident) by done. cbn [fst p].
    unfold last_line in Ha. by rewrite Ha.
Qed.

(** ** What an anchor is *)

Definition blank (w : bytes) : Prop := w <> [] /\ forallb re_space w = true.

(** The line so far ends a word: it is empty, or its last character is in the class. *)
Definition edge (f : byte -> bool) (pre : bytes) : Prop := pre = [] \/ exists pre' b, pre = pre' ++ [b] /\ f b = true.

Definition flag_char (b : byte) : bool := re_word b || bool_decide (b ∈ [x3d; x2d]).

(** A blank, one or two dashes, a letter or digit, more of the flag. *)
Inductive flag : bytes -> Prop :=
| flag_text ws dashes b w : blank ws -> dashes ∈ [[x2d]; [x2d; x2d]] -> is_alnum b = true -> forallb flag_char w = true -> flag (ws ++ dashes ++ b :: w).

(** An earlier parent of a merge line. *)
Inductive merge_parent : bytes -> Prop :=
| merge_parent_text w ws : hex_word w -> blank ws -> merge_parent (w ++ ws).

(** What can stand between the line's start and a commit. *)
Inductive anchored : bytes -> Prop :=
| anchored_header pre ws : edge (fun b => re_space b || bool_decide (b = x28)) pre -> blank ws -> anchored (pre ++ str "commit" ++ ws)
| anchored_parent pre ws : edge re_space pre -> blank ws -> anchored (pre ++ str "parent" ++ ws)
| anchored_from pre ws : edge re_space pre -> blank ws -> anchored (pre ++ str "From" ++ ws)
| anchored_merge pre ws parents : edge re_space pre -> blank ws -> Forall merge_parent parents -> anchored (pre ++ str "Merge:" ++ ws ++ concat parents)
| anchored_cli pre ws verb flags ws' :
    word_at (rev pre) = false -> blank ws -> verb ∈ git_verbs -> Forall flag flags -> blank ws' ->
    anchored (pre ++ str "git" ++ ws ++ verb ++ concat flags ++ ws').

Lemma reads_spaces1 : reads spaces1 blank.
Proof. apply reads_Plus. Qed.

Lemma reads_keyword s : reads (seq [Text s; spaces1]) (fun w => exists ws, w = s ++ ws /\ blank ws).
Proof.
  eapply reads_ext; [|apply reads_Cat; [apply reads_Text|apply reads_Cat; [apply reads_spaces1|apply reads_Empty]]].
  intros w. split.
  - intros (u&v&->&->&ws&z&->&Hb&->). exists ws. by rewrite app_nil_r.
  - intros (ws&->&Hb). exists s, ws. split; [done|]. split; [done|]. exists ws, []. by rewrite app_nil_r.
Qed.

Lemma reads_flag : reads option_flag flag.
Proof.
  eapply reads_ext; [|apply reads_Cat; [apply reads_spaces1|apply reads_Cat; [apply reads_Char|apply reads_Cat; [apply reads_Alt; [apply reads_Char|apply reads_Empty]|
    apply reads_Cat; [apply reads_Class|apply reads_Cat; [intros p q; apply matches_Star|apply reads_Empty]]]]]].
  intros w. split.
  - intros (ws&?&->&Hws&?&?&->&->&d&?&->&Hd&?&?&->&(b&->&Hb)&c&?&->&Hc&->). rewrite app_nil_r. rewrite (app_assoc [_] d).
    change ([b] ++ c) with (b :: c). constructor; [done| |done|done]. destruct Hd as [->| ->]; cbn; set_solver.
  - intros [ws dashes b c Hws Hd Hb Hc]. exists ws, (dashes ++ b :: c). split; [done|]. split; [done|].
    apply elem_of_cons in Hd as [->|Hd]; [|apply list_elem_of_singleton in Hd as ->].
    + exists [x2d], (b :: c). split; [done|]. split; [done|]. exists [], (b :: c). split; [done|]. split; [by right|].
      exists [b], c. split; [done|]. split; [by exists b|]. exists c, []. by rewrite app_nil_r.
    + exists [x2d], (x2d :: b :: c). split; [done|]. split; [done|]. exists [x2d], (b :: c). split; [done|]. split; [by left|].
      exists [b], c. split; [done|]. split; [by exists b|]. exists c, []. by rewrite app_nil_r.
Qed.

Lemma reads_parent : reads (any_of (Cat (hex_run 40) spaces1) [Cat (hex_run 64) spaces1]) merge_parent.
Proof.
  eapply reads_ext; [|apply reads_Alt; apply reads_Cat; [apply reads_Times|apply reads_spaces1|apply reads_Times|apply reads_spaces1]].
  intros w. split.
  - intros [(u&v&->&[Hl Hf]&Hb)|(u&v&->&[Hl Hf]&Hb)]; constructor; [split; auto|done|split; auto|done].
  - intros [u v [Hf [Hl|Hl]] Hb]; [left|right]; exists u, v; done.
Qed.

Lemma MatchString_keyword f s prefix :
  MatchString (seq [Alt BeginText (Class f); Text s; spaces1; EndText]) prefix = true
  <-> exists pre ws, prefix = pre ++ s ++ ws /\ edge f pre /\ blank ws.
Proof.
  rewrite (edge_to_end f [Text s; spaces1] _ prefix (reads_keyword s)). split.
  - intros (pre&w&->&He&ws&->&Hb). by exists pre, ws.
  - intros (pre&ws&->&He&Hb). exists pre, (s ++ ws). split; [done|]. split; [done|]. by exists ws.
Qed.

Lemma MatchString_merge prefix :
  MatchString commitMergeAnchor prefix = true
  <-> exists pre ws parents, prefix = pre ++ str "Merge:" ++ ws ++ concat parents /\ edge re_space pre /\ blank ws /\ Forall merge_parent parents.
Proof.
  etransitivity; [apply (edge_to_end re_space [Text (str "Merge:"); spaces1; Star (any_of (Cat (hex_run 40) spaces1) [Cat (hex_run 64) spaces1])]);
    apply reads_Cat; [apply reads_Text|apply reads_Cat; [apply reads_spaces1|apply reads_Cat; [apply reads_Star, reads_parent|apply reads_Empty]]]|].
  split.
  - intros (pre&w&->&He&u&v&->&->&ws&?&->&Hb&?&?&->&(l&->&Hl)&->). exists pre, ws, l. by rewrite app_nil_r.
  - intros (pre&ws&l&->&He&Hb&Hl). eexists pre, _. split; [reflexivity|]. split; [done|]. eexists _, _. split; [reflexivity|]. split; [done|].
    exists ws, (concat l). split; [done|]. split; [done|]. exists (concat l), []. split; [by rewrite app_nil_r|]. split; [by exists l|done].
Qed.

Lemma MatchString_cli prefix :
  MatchString commitGitCLIAnchor prefix = true
  <-> exists pre ws verb flags ws', prefix = pre ++ str "git" ++ ws ++ verb ++ concat flags ++ ws'
        /\ word_at (rev pre) = false /\ blank ws /\ verb ∈ git_verbs /\ Forall flag flags /\ blank ws'.
Proof.
  etransitivity; [apply (boundary_to_end [Text (str "git"); spaces1; alternatives git_verbs; Star option_flag; spaces1]);
    apply reads_Cat; [apply reads_Text|apply reads_Cat; [apply reads_spaces1|apply reads_Cat; [apply reads_texts|
      apply reads_Cat; [apply reads_Star, reads_flag|apply reads_Cat; [apply reads_spaces1|apply reads_Empty]]]]]|].
  split.
  - intros (pre&w&->&Hw&u&v&->&->&ws&?&->&Hb&verb&?&->&Hv&?&?&->&(l&->&Hl)&ws'&?&->&Hb'&->). exists pre, ws, verb, l, ws'. rewrite app_nil_r.
    unfold boundary in Hw. cbn in Hw. by destruct (word_at (rev pre)).
  - intros (pre&ws&verb&l&ws'&->&Hw&Hb&Hv&Hl&Hb'). eexists pre, _. split; [reflexivity|]. split; [unfold boundary; cbn; by rewrite Hw|].
    eexists _, _. split; [reflexivity|]. split; [done|]. eexists ws, _. split; [reflexivity|]. split; [done|]. eexists verb, _. split; [reflexivity|].
    split; [done|]. exists (concat l), ws'. split; [done|]. split; [by exists l|]. exists ws', []. by rewrite app_nil_r.
Qed.

(** Some anchor precedes a position exactly when what precedes it on its line has one of the five forms. *)
Lemma commitAnchor_iff prefix : is_Some (commitAnchor prefix) <-> anchored prefix.
Proof.
  unfold commitAnchor. split.
  - destruct (MatchString commitHeaderAnchor prefix) eqn:E1.
    { intros _. apply MatchString_keyword in E1 as (pre&ws&->&He&Hb). by constructor. }
    destruct (MatchString commitParentAnchor prefix) eqn:E2.
    { intros _. apply MatchString_keyword in E2 as (pre&ws&->&He&Hb). by constructor. }
    destruct (MatchString commitFromAnchor prefix) eqn:E3.
    { intros _. apply MatchString_keyword in E3 as (pre&ws&->&He&Hb). by constructor. }
    destruct (MatchString commitMergeAnchor prefix) eqn:E4.
    { intros _. apply MatchString_merge in E4 as (pre&ws&l&->&He&Hb&Hl). by constructor. }
    destruct (MatchString commitGitCLIAnchor prefix) eqn:E5; [|by intros []].
    intros _. apply MatchString_cli in E5 as (pre&ws&verb&l&ws'&->&Hw&Hb&Hv&Hl&Hb'). by constructor.
  - intros Ha. repeat case_match; try by eexists. exfalso.
    destruct Ha as [pre ws He Hb|pre ws He Hb|pre ws He Hb|pre ws l He Hb Hl|pre ws verb l ws' Hw Hb Hv Hl Hb'].
    + assert (MatchString commitHeaderAnchor (pre ++ str "commit" ++ ws) = true) by (apply MatchString_keyword; by exists pre, ws). congruence.
    + assert (MatchString commitParentAnchor (pre ++ str "parent" ++ ws) = true) by (apply MatchString_keyword; by exists pre, ws). congruence.
    + assert (MatchString commitFromAnchor (pre ++ str "From" ++ ws) = true) by (apply MatchString_keyword; by exists pre, ws). congruence.
    + assert (MatchString commitMergeAnchor (pre ++ str "Merge:" ++ ws ++ concat l) = true) by (apply MatchString_merge; by exists pre, ws, l). congruence.
    + assert (MatchString commitGitCLIAnchor (pre ++ str "git" ++ ws ++ verb ++ concat l ++ ws') = true)
        by (apply MatchString_cli; by exists pre, ws, verb, l, ws'). congruence.
Qed.

(** C28: A commit is captured exactly where a full 40- or 64-hex word, not part of a longer word, directly follows on its line one of the five
    git anchors: a commit, parent or From header, a merge line with only parents in between, or a git subcommand with only option flags in
    between. *)
Theorem extractCommits_anchored surface text ident :
  (exists patternID, RCommit (mkVcsInput ident [] (extractionProvenance surface patternID)) ∈ extractCommits surface text) <->
  exists a z, text = a ++ ident ++ z /\ hex_word ident /\ word_at (rev a) = false /\ word_at z = false /\ anchored (last_line a).
Proof.
  setoid_rewrite extractCommits_iff. split.
  - intros (pat&a&z&->&Hh&H1&H2&Ha). exists a, z. split_and!; try done. apply commitAnchor_iff. by eexists.
  - intros (a&z&->&Hh&H1&H2&[pat Ha]%commitAnchor_iff). by exists pat, a, z.
Qed.

(** ** Pull requests *)

Definition pr_number (ds : bytes) : Prop := 1 <= zlen ds <= 20 /\ forallb is_digit ds = true.

Lemma number20_digits p q w : via w p q -> matches number20 p q -> pr_number w.
Proof.
  intros Hw Hm. assert (Hr : reads number20 (then_ (fun w => exists b, w = [b] /\ is_digit b = true) (fun w => (length w <= 19)%nat /\ forallb is_digit w = true)))
    by (apply reads_Cat; [apply reads_Class|apply reads_UpTo]).
  apply Hr in Hm as (w'&Hw'&u&v&->&(b&->&Hb)&Hl&Hv).
  assert (w = b :: v) as ->. { apply via_length in Hw as H1. apply via_length in Hw' as H2. by destruct (via_end_unique _ _ _ _ _ Hw Hw') as [-> _]; [lia|]. }
  unfold pr_number, zlen. cbn. rewrite Hb, Hv. split; [lia|done].
Qed.

(** A slug and a number make a pull-request URL. *)
Definition slug_part (w : bytes) : Prop := w <> [] /\ forallb isSlugByte w = true.
Inductive pr_url : bytes -> bytes -> Prop :=
| pr_url_text owner repo ds : slug_part owner -> slug_part repo -> pr_number ds ->
    pr_url (str "https://github.com/" ++ (owner ++ [x2f] ++ repo) ++ str "/pull/" ++ ds) (owner ++ [x2f] ++ repo).

Lemma number_yields n p q c : yields (seq [Capture n number20; WordBoundary]) p q c ->
  exists w, via w p q /\ pr_number w /\ c = [(n, w)].
Proof.
  intros (s&ca&cl&Ha&Hl&->)%yields_seq_cons. apply yields_Capture in Ha as (w&c'&Hw&Hm&Hc&->).
  assert (c' = []) as -> by (by eapply plain_yields; [exact Hc|]).
  assert (cl = []) as -> by (by eapply plain_yields; [exact Hl|]).
  apply yields_matches, matches_seq_cons in Hl as (t&[_ <-]%matches_Boundary&Ht). inversion Ht; subst. exists w. split; [done|]. split; [|done]. by eapply number20_digits.
Qed.

(** The numbered forms: after everything that captures nothing, the number. *)
Lemma numbered l n p q c : forallb plain_regex l = true -> yields (seq (l ++ [Capture n number20; WordBoundary])) p q c ->
  exists w c', pr_number w /\ c = (n, w) :: c'.
Proof.
  revert p c. induction l as [|a l IH]; intros p c Hl; cbn [app].
  - intros (w&_&?&->)%number_yields. by exists w, [].
  - cbn in Hl. apply andb_prop in Hl as [Ha Hl]. intros (s&ca&cl&Hya&Hyl&->)%yields_seq_cons. destruct (IH s cl Hl Hyl) as (w&c'&Hw&->).
    exists w, (c' ++ ca). done.
Qed.

Lemma matched_number l r s m : r = seq (l ++ [Capture 1 number20; WordBoundary]) -> forallb plain_regex l = true -> m ∈ FindAll r s -> pr_number (submatch m 1).
Proof.
  intros -> Hl Hm%FindAll_yields. apply (numbered l) in Hm as (w&c'&Hw&Hc); [|done]. unfold submatch. rewrite Hc. done.
Qed.

Lemma reads_slug : reads (seq [slug_run; Char x2f; slug_run]) (fun w => exists owner repo, w = owner ++ [x2f] ++ repo /\ slug_part owner /\ slug_part repo).
Proof.
  eapply reads_ext; [|apply reads_Cat; [apply reads_Plus|apply reads_Cat; [apply reads_Char|apply reads_Cat; [apply reads_Plus|apply reads_Empty]]]].
  intros w. split.
  - intros (u&?&->&Hu&?&?&->&->&v&?&->&Hv&->). exists u, v. by rewrite app_nil_r.
  - intros (u&v&->&Hu&Hv). eexists u, _. split; [reflexivity|]. split; [done|]. exists [x2f], v. split; [done|]. split; [done|]. exists v, []. by rewrite app_nil_r.
Qed.

Lemma matched_url s m : m ∈ FindAll prURLPattern s -> pr_url (matched m) (submatch m 1).
Proof.
  intros Hm%FindAll_yields. apply yields_seq_cons in Hm as (p1&c1&k1&H1&Hm&Hc).
  assert (c1 = []) as -> by (by eapply plain_yields; [exact H1|]). apply yields_matches, matches_Boundary in H1 as [_ <-].
  apply yields_seq_cons in Hm as (p2&c2&k2&H2&Hm&->). assert (c2 = []) as -> by (by eapply plain_yields; [exact H2|]). apply yields_matches, matches_Text in H2.
  apply yields_seq_cons in Hm as (p3&c3&k3&H3&Hm&->). apply yields_Capture in H3 as (w&c'&Hw&Hs&Hy&->).
  assert (c' = []) as -> by (by eapply plain_yields; [exact Hy|]). apply reads_slug in Hs as (w'&Hw'&owner&repo&->&Ho&Hr).
  assert (w = owner ++ [x2f] ++ repo) as ->.
  { apply via_length in Hw as E1. apply via_length in Hw' as E2. by destruct (via_end_unique _ _ _ _ _ Hw Hw') as [-> _]; [lia|]. }
  apply yields_seq_cons in Hm as (p4&c4&k4&H4&Hm&->). assert (c4 = []) as -> by (by eapply plain_yields; [exact H4|]). apply yields_matches, matches_Text in H4.
  apply number_yields in Hm as (ds&Hd&Hn&->).
  assert (Hv : via (str "https://github.com/" ++ (owner ++ [x2f] ++ repo) ++ str "/pull/" ++ ds) (fd_start m) (fd_end m)).
  { apply via_app. exists p2. split; [done|]. apply via_app. exists p3. split; [done|]. apply via_app. by exists p4. }
  unfold matched, submatch. rewrite Hc, (between_via _ _ _ Hv). cbn [app list_find]. by constructor.
Qed.

(** The identifier and the slug of every pull request captured. *)
Inductive pr_identifier : bytes -> bytes -> Prop :=
| pr_identifier_url ident slug : pr_url ident slug -> pr_identifier ident slug
| pr_identifier_number ds : pr_number ds -> pr_identifier (x23 :: ds) [].

Lemma number_last ds : pr_number ds -> exists ds' b, ds = ds' ++ [b] /\ is_digit b = true.
Proof.
  intros [Hl Hf]. destruct ds as [|b ds _] using rev_ind; [unfold zlen in Hl; cbn in Hl; lia|]. exists ds, b. split; [done|].
  rewrite forallb_app in Hf. apply andb_prop in Hf as [_ Hf]. cbn in Hf. by rewrite andb_true_r in Hf.
Qed.

Lemma TrimRight_url ident slug : pr_url ident slug -> TrimRight x2f ident = ident.
Proof.
  intros [owner repo ds _ _ Hd]. apply number_last in Hd as (ds'&b&->&Hb). unfold TrimRight.
  assert (E : forall u, rev (trim_right_rev x2f (rev (u ++ [b]))) = u ++ [b]).
  { intros u. rewrite rev_app_distr. cbn. rewrite bool_decide_eq_false_2 by (by intros ->). cbn. by rewrite rev_involutive. }
  rewrite !app_assoc. apply E.
Qed.

Lemma extractPullRequests_sound surface text r : r ∈ extractPullRequests surface text ->
  exists ident slug pat, r = pr_reference surface pat ident slug /\ pr_identifier ident slug
    /\ pat ∈ map str ["gh-pr-url-v1"; "pr-anchored-hash-v1"; "gh-pr-command-v1"]%string.
Proof.
  unfold extractPullRequests. intros [H|[H|H]%elem_of_app]%elem_of_app; apply list_elem_of_In, in_map_iff in H as (m&<-&Hm%list_elem_of_In).
  - eexists _, _, _. split; [reflexivity|]. pose proof (matched_url _ _ Hm) as Hu. rewrite (TrimRight_url _ _ Hu). split; [by constructor|]. cbn. set_solver.
  - eexists _, _, _. split; [reflexivity|]. split; [|cbn; set_solver]. constructor 2.
    by apply (matched_number [WordBoundary; Alt (seq [FoldText (str "pull"); Class (fun b => bool_decide (b ∈ [x20; x2d])); FoldText (str "request")]) (FoldText (str "pr"));
       spaces1; Char x23] _ _ _ eq_refl eq_refl Hm).
  - eexists _, _, _. split; [reflexivity|]. split; [|cbn; set_solver]. constructor 2.
    by apply (matched_number [WordBoundary; Text (str "gh"); spaces1; Text (str "pr"); spaces1; Plus (Class (fun b => is_lower b || bool_decide (b = x2d))); spaces1;
       Opt (Char x23)] _ _ _ eq_refl eq_refl Hm).
Qed.

(** ** Beads *)

Definition word (w : bytes) : Prop := w <> [] /\ forallb is_alnum w = true.
Definition dashed (x : bytes) : Prop := exists w, x = x2d :: w /\ word w.
Definition child (x : bytes) : Prop := exists ds, x = x2e :: ds /\ ds <> [] /\ forallb is_digit ds = true.

(** What follows the prefix: letters and digits, dash-joined words, dot-joined numbers. *)
Inductive bead_tail : bytes -> Prop :=
| bead_tail_text w words children : word w -> Forall dashed words -> Forall child children -> bead_tail (w ++ concat words ++ concat children).

Lemma reads_dashed : reads (seq [Char x2d; Plus (Class is_alnum)]) dashed.
Proof.
  eapply reads_ext; [|apply reads_Cat; [apply reads_Char|apply reads_Cat; [apply reads_Plus|apply reads_Empty]]]. intros w. split.
  - intros (u&?&->&->&v&?&->&Hv&->). exists v. by rewrite app_nil_r.
  - intros (v&->&Hv). exists [x2d], v. split; [done|]. split; [done|]. exists v, []. by rewrite app_nil_r.
Qed.

Lemma reads_child : reads (seq [Char x2e; Plus (Class is_digit)]) child.
Proof.
  eapply reads_ext; [|apply reads_Cat; [apply reads_Char|apply reads_Cat; [apply reads_Plus|apply reads_Empty]]]. intros w. split.
  - intros (u&?&->&->&v&?&->&Hv&->). exists v. by rewrite app_nil_r.
  - intros (v&->&Hv). exists [x2e], v. split; [done|]. split; [done|]. exists v, []. by rewrite app_nil_r.
Qed.

(** The pattern is there when some prefix is not empty, and matches a prefix with a tail. *)
Lemma beadPattern_iff prefixes id :
  (exists re, beadPattern prefixes = Some re /\ MatchString re id = true) <-> exists p t, p ∈ prefixes /\ p <> [] /\ id = p ++ t /\ bead_tail t.
Proof.
  unfold beadPattern. assert (Hin : forall p, p ∈ filter (fun p => p <> []) prefixes <-> p <> [] /\ p ∈ prefixes) by (intros p; by rewrite list_elem_of_filter).
  destruct (filter _ _) as [|a l].
  - split; [by intros (re&?&_)|]. intros (p&t&Hp&Hn&_). exfalso. by eapply not_elem_of_nil, Hin.
  - assert (Hm : MatchString (seq (BeginText :: [alternatives (a :: l); Plus (Class is_alnum); Star (seq [Char x2d; Plus (Class is_alnum)]);
        Star (seq [Char x2e; Plus (Class is_digit)])] ++ [EndText])) id = true <-> exists p t, p ∈ a :: l /\ id = p ++ t /\ bead_tail t).
    { etransitivity; [apply whole_text; apply reads_Cat; [apply reads_texts|apply reads_Cat; [apply reads_Plus|apply reads_Cat; [apply reads_Star, reads_dashed|
        apply reads_Cat; [apply reads_Star, reads_child|apply reads_Empty]]]]|]. split.
      - intros (p&?&->&Hp&w&?&->&Hw&?&?&->&(ws&->&Hws)&?&?&->&(cs&->&Hcs)&->). exists p, (w ++ concat ws ++ concat cs). rewrite app_nil_r.
        split; [done|]. split; [done|by constructor].
      - intros (p&?&Hp&->&[w ws cs Hw Hws Hcs]). eexists p, _. split; [reflexivity|]. split; [done|]. eexists w, _. split; [reflexivity|]. split; [done|].
        exists (concat ws), (concat cs). split; [done|]. split; [by exists ws|]. exists (concat cs), []. split; [by rewrite app_nil_r|]. split; [by exists cs|done]. }
    split.
    + intros (re&[= <-]&(p&t&Hp&->&Ht)%Hm). apply Hin in Hp as [? ?]. by exists p, t.
    + intros (p&t&Hp&Hn&->&Ht). eexists. split; [reflexivity|]. apply Hm. exists p, t. split; [by apply Hin|done].
Qed.

Lemma Len_zero m : Len m = 0 -> Prefixes m = [].
Proof. destruct m as [m|]; [|done]. unfold Len, zlen. cbn. by destruct (bm_entries m). Qed.

(** The prefixes of a snapshot and the configuration's own. *)
Lemma selectPattern_prefixes snap cfg : (selectPattern snap cfg).1 = beadPattern (Prefixes snap ++ rf_BeadPrefixes cfg).
Proof.
  unfold selectPattern. destruct (Z.eqb_spec (Len snap) 0) as [E|_]; [by rewrite (Len_zero _ E)|].
  destruct (rf_BeadPrefixes cfg); [by rewrite app_nil_r|done].
Qed.

Lemma extractBeads_found text snap cfg id prefix resolver :
  RBead (mkExtractedRef id prefix) resolver ∈ extractBeads text snap cfg <->
  resolver = (selectPattern snap cfg).2 /\ prefix = declaredPrefix id snap (rf_BeadPrefixes cfg) /\ SecretShapedBeadID id prefix = false
  /\ (exists p t, p ∈ Prefixes snap ++ rf_BeadPrefixes cfg /\ p <> [] /\ id = p ++ t /\ bead_tail t)
  /\ exists i tok, Fields text !! i = Some tok /\ isBranchOperand (Fields text) i = false /\ id = trimBeadToken tok.
Proof.
  pose proof (selectPattern_prefixes snap cfg) as Hsel.
  rewrite <-beadPattern_iff, <-Hsel. unfold extractBeads. destruct (selectPattern snap cfg) as [[re|] rs]; cbn [fst snd].
  2: { split; [by intros ?%elem_of_nil|]. by intros (_&_&_&(?&?&_)&_). }
  rewrite list_elem_of_omap. unfold bead_of. split.
  - intros ([i tok]&Hi&Hb). apply elem_of_lookup_imap in Hi as (k&x&[= -> <-]&Hi). cbn [fst snd] in Hb.
    destruct (isBranchOperand _ _) eqn:E1; [done|]. destruct (_ || _) eqn:E2; [done|]. apply orb_false_iff in E2 as [_ E2%negb_false_iff].
    destruct (SecretShapedBeadID _ _) eqn:E3; [done|]. injection Hb as <- <- <-. split; [done|]. split; [done|]. split; [done|].
    split; [by exists re|by exists k, tok].
  - intros (->&->&Hs&(re'&[= <-]&Hm)&i&tok&Hi&Hb&->). exists (i, tok). split; [apply elem_of_lookup_imap; by exists i, tok|]. cbn [fst snd].
    rewrite Hb, Hm, Hs. case_bool_decide as E; [|done]. exfalso. rewrite E in Hm.
    assert (H : exists p t, p ∈ Prefixes snap ++ rf_BeadPrefixes cfg /\ p <> [] /\ [] = p ++ t /\ bead_tail t).
    { apply beadPattern_iff. exists re. by rewrite <-Hsel. }
    destruct H as ([|b p]&t&_&?&?&_); done.
Qed.

(** A bead is captured exactly at the tokens, outside a branch operand, that once the punctuation around them is gone are a declared
    prefix with a tail of words and child numbers, and that are not secret-shaped under the longest such prefix. *)
Theorem extractBeads_iff text snap cfg id prefix resolver :
  RBead (mkExtractedRef id prefix) resolver ∈ extractBeads text snap cfg <->
  resolver = (selectPattern snap cfg).2 /\ prefix = declaredPrefix id snap (rf_BeadPrefixes cfg) /\ SecretShapedBeadID id prefix = false
  /\ (exists p t, p ∈ Prefixes snap ++ rf_BeadPrefixes cfg /\ p <> [] /\ id = p ++ t /\ bead_tail t)
  /\ exists i tok, Fields text !! i = Some tok /\ isBranchOperand (Fields text) i = false /\ id = trimBeadToken tok.
Proof. apply extractBeads_found. Qed.

(** ** All references *)

Lemma dedup_spec seen refs :
  NoDup (map ref_key (dedup_from seen refs)) /\ sublist (dedup_from seen refs) refs
  /\ (forall r, r ∈ dedup_from seen refs -> ref_key r ∉ seen)
  /\ (forall r, r ∈ refs -> ref_key r ∈ seen \/ ref_key r ∈ map ref_key (dedup_from seen refs)).
Proof.
  revert seen. induction refs as [|r l IH]; intros seen; cbn [dedup_from].
  { split_and!; [constructor|constructor|by intros r ?%elem_of_nil|by intros r ?%elem_of_nil]. }
  case_bool_decide as Hr.
  - destruct (IH seen) as (H1&H2&H3&H4). split_and!; [done|by constructor|done|]. intros x [->|Hx]%elem_of_cons; [by left|by apply H4].
  - destruct (IH (ref_key r :: seen)) as (H1&H2&H3&H4). split_and!.
    + cbn [map]. constructor; [|done]. intros Hin. apply list_elem_of_In, in_map_iff in Hin as (x&Hx&Hl%list_elem_of_In).
      apply (H3 x Hl). rewrite Hx. constructor.
    + by constructor.
    + intros x [->|Hx]%elem_of_cons; [done|]. intros Hs. apply (H3 x Hx). by constructor 2.
    + intros x Hx. cbn [map]. rewrite elem_of_cons. apply elem_of_cons in Hx as [->|Hx]; [by right; left|].
      destruct (H4 x Hx) as [Hs|Hs]; [|by right; right]. apply elem_of_cons in Hs as [->|Hs]; [by right; left|by left].
Qed.

Section host.
Context {H : Type} `{Host H}.

Lemma apply_cap_spec refs : forall h kept rejected h',
  apply_cap h refs = (kept, rejected, h') -> sublist kept refs /\ zlen refs = zlen kept + rejected /\ 0 <= rejected.
Proof.
  induction refs as [|r l IH]; intros h kept rejected h'; cbn [apply_cap]; [intros [= <- <- _]; split; [constructor|done]|].
  destruct (AdmitRef h _ _) as [ok h1]. destruct (apply_cap h1 l) as [[k n] h2] eqn:E. destruct (IH _ _ _ _ E) as (Hs&Hl&Hn).
  unfold zlen in *. destruct ok; intros [= <- <- _]; (split; [by constructor|]); cbn; lia.
Qed.

(** What the extractors find on a surface, with the prefix map a call would see. *)
Definition found_references (surface : bytes) (s : SurfaceText) (cfg : ReferenceConfig) (snap : option BeadPrefixMap) : list ExtractedReference :=
  (if isGitGhSurface surface (sf_Tool s) (sf_Text s)
   then extractCommits surface (sf_Text s) ++ extractPullRequests surface (sf_Text s) else [])
  ++ (if isBeadSurface surface (sf_Tool s) (sf_Text s) then extractBeads (sf_Text s) snap cfg else []).

Definition snapshot (cfg : ReferenceConfig) (h : H) : option BeadPrefixMap := if rf_PrefixMap cfg then (CurrentMap h).1 else None.

Lemma take_sublist {A} n (l : list A) : sublist (take n l) l.
Proof. rewrite <-(take_drop n l) at 2. by apply sublist_inserts_r. Qed.

(** The answers of the host, asked for each of the references in turn. *)
Inductive asked : H -> list ExtractedReference -> list (ExtractedReference * bool) -> H -> Prop :=
| asked_none h : asked h [] [] h
| asked_one h r ok h1 l answers h2 : AdmitRef h (ref_kind r) (identifier r) = (ok, h1) -> asked h1 l answers h2 ->
    asked h (r :: l) ((r, ok) :: answers) h2.

Definition let_through (answers : list (ExtractedReference * bool)) : list ExtractedReference := map fst (filter (fun a => a.2 = true) answers).

Lemma let_through_cons r ok answers : let_through ((r, ok) :: answers) = if ok then r :: let_through answers else let_through answers.
Proof. unfold let_through. rewrite filter_cons. by destruct ok. Qed.

Lemma apply_cap_asked refs : forall h kept rejected h', apply_cap h refs = (kept, rejected, h') ->
  exists answers, asked h refs answers h' /\ kept = let_through answers /\ (rejected = 0 <-> Forall (fun a => a.2 = true) answers).
Proof.
  induction refs as [|r l IH]; intros h kept rejected h'; cbn [apply_cap]; [intros [= <- <- <-]; exists []; by split_and!; [constructor| |]|].
  destruct (AdmitRef h _ _) as [ok h1] eqn:Ea. destruct (apply_cap h1 l) as [[k n] h2] eqn:E. destruct (IH _ _ _ _ E) as (answers&Hs&->&Hn).
  destruct (apply_cap_spec _ _ _ _ _ E) as (_&_&Hpos). intros Hr. exists ((r, ok) :: answers). rewrite let_through_cons, Forall_cons.
  assert (h' = h2) as -> by (by destruct ok; injection Hr). split; [by eapply asked_one|].
  destruct ok; injection Hr as <- <-; cbn; (split; [done|]); [rewrite Hn; tauto|]. split; [lia|by intros []].
Qed.

Lemma all_let_through (l : list ExtractedReference) : let_through (map (fun r => (r, true)) l) = l.
Proof. induction l as [|r l IH]; [done|]. cbn [map]. by rewrite let_through_cons, IH. Qed.

(** The host after the prefix map was read. *)
Definition asked_from (surface : bytes) (s : SurfaceText) (cfg : ReferenceConfig) (h : H) : H :=
  if isBeadSurface surface (sf_Tool s) (sf_Text s) && rf_PrefixMap cfg then (CurrentMap h).2 else h.

(** What is put to the host, what it answers, and what the per-observation cap leaves. *)
Definition extracted (cfg : ReferenceConfig) (distinct : list ExtractedReference) (h0 h' : H) (refs : list ExtractedReference)
    (diags : list CaptureDiagnosticInput) : Prop :=
  exists answers,
    (if rf_DistinctRefs cfg then asked h0 distinct answers h' else answers = map (fun r => (r, true)) distinct /\ h' = h0)
    /\ refs = take (Z.to_nat MaxReferencesPerObservation) (let_through answers)
    /\ (diags = [] <-> Forall (fun a => a.2 = true) answers /\ zlen (let_through answers) <= MaxReferencesPerObservation)
    /\ (length diags <= 2)%nat.

Lemma ExtractReferences_extracted surface s cfg h refs diags h' :
  ExtractReferences surface s cfg h = (refs, diags, h') ->
  extracted cfg (dedupReferences (found_references surface s cfg (snapshot cfg h))) (asked_from surface s cfg h) h' refs diags.
Proof.
  unfold ExtractReferences, found_references, snapshot, asked_from. set (vcs := if isGitGhSurface _ _ _ then _ else _).
  destruct (if isBeadSurface _ _ _ then _ else ([], h)) as [beads h1] eqn:Eb.
  assert (Hb : beads = (if isBeadSurface surface (sf_Tool s) (sf_Text s) then extractBeads (sf_Text s) (if rf_PrefixMap cfg then (CurrentMap h).1 else None) cfg else [])
    /\ h1 = if isBeadSurface surface (sf_Tool s) (sf_Text s) && rf_PrefixMap cfg then (CurrentMap h).2 else h).
  { destruct (isBeadSurface _ _ _); [|by injection Eb as <- <-]. destruct (rf_PrefixMap cfg); [|by injection Eb as <- <-].
    destruct (CurrentMap h) as [snap h2]. by injection Eb as <- <-. }
  destruct Hb as [<- <-]. clear Eb. destruct (if rf_DistinctRefs cfg then _ else _) as [[l capped] h2] eqn:Ec.
  assert (Hl : exists answers, (if rf_DistinctRefs cfg then asked h1 (dedupReferences (vcs ++ beads)) answers h2
      else answers = map (fun r => (r, true)) (dedupReferences (vcs ++ beads)) /\ h2 = h1)
    /\ l = let_through answers /\ (capped = [] <-> Forall (fun a => a.2 = true) answers) /\ (length capped <= 1)%nat).
  { destruct (rf_DistinctRefs cfg).
    - destruct (apply_cap _ _) as [[k n] h3] eqn:E. pose proof (apply_cap_spec _ _ _ _ _ E) as (_&_&Hpos).
      apply apply_cap_asked in E as (answers&Ha&Hk&Hn). injection Ec as <- <- <-. exists answers. split; [done|]. split; [done|].
      rewrite <-Hn. destruct (Z.ltb_spec 0 n); cbn; (split; [|lia]); [split; [done|lia]|split; [lia|done]].
    - injection Ec as <- <- <-. eexists. split; [done|]. rewrite all_let_through. split; [done|]. split; [|cbn; lia].
      split; [|done]. intros _. apply Forall_fmap, Forall_forall. by intros. }
  destruct Hl as (answers&Ha&->&Hc&Hlen). destruct (Z.ltb_spec MaxReferencesPerObservation (zlen (let_through answers))) as [Ho|Ho]; intros [= <- <- <-];
    exists answers; (split; [done|]).
  - split; [done|]. split; [|rewrite length_app; cbn; lia]. split; [by destruct capped|lia].
  - split; [|split; [rewrite Hc; tauto|lia]]. symmetry. apply take_ge. unfold zlen, MaxReferencesPerObservation in *. lia.
Qed.

Lemma let_through_sublist answers : sublist (let_through answers) (map fst answers).
Proof. apply fmap_sublist, sublist_filter. Qed.

Lemma all_through answers : Forall (fun a => a.2 = true) answers -> let_through answers = map fst answers.
Proof. induction 1 as [|[r ok] l Hr _ IH]; [done|]. cbn in Hr. rewrite let_through_cons, Hr, IH. done. Qed.

Lemma asked_refs h refs answers h' : asked h refs answers h' -> map fst answers = refs.
Proof. induction 1 as [|h r ok h1 l answers h2 _ _ IH]; [done|]. cbn. by rewrite IH. Qed.

(** C29: what is extracted. The distinct references found on a recognised surface are put to the admitter, each in its turn, when
    one is configured; exactly those it lets through remain, cut to the per-observation cap. So no two have one kind
    and identifier, there are at most 64, and without a diagnostic nothing that was found is missing. *)
Theorem ExtractReferences_bounded surface s cfg h refs diags h' :
  ExtractReferences surface s cfg h = (refs, diags, h') ->
  let found := found_references surface s cfg (snapshot cfg h) in
  extracted cfg (dedupReferences found) (asked_from surface s cfg h) h' refs diags
  /\ sublist refs found /\ NoDup (map ref_key refs) /\ zlen refs <= MaxReferencesPerObservation
  /\ (diags = [] -> forall r, r ∈ found -> ref_key r ∈ map ref_key refs).
Proof.
  intros He%ExtractReferences_extracted found. fold found in He. split; [exact He|]. destruct He as (answers&Ha&->&Hd&_).
  pose proof (dedup_spec [] found) as (Hnd&Hsub&_&Hall). fold (dedupReferences found) in *.
  assert (Em : map fst answers = dedupReferences found).
  { destruct (rf_DistinctRefs cfg); [by eapply asked_refs|]. destruct Ha as [-> _]. rewrite map_map. apply map_id. }
  pose proof (let_through_sublist answers) as Hl. rewrite Em in Hl. pose proof (take_sublist (Z.to_nat MaxReferencesPerObservation) (let_through answers)) as Ht.
  split; [by repeat (etransitivity; [eassumption|])|]. split; [eapply sublist_NoDup; [exact Hnd|]; apply fmap_sublist; by etransitivity|].
  split; [unfold zlen; rewrite length_take; unfold MaxReferencesPerObservation; lia|]. intros [Hok Hle]%Hd r Hr.
  rewrite take_ge by (unfold zlen, MaxReferencesPerObservation in *; lia). rewrite (all_through _ Hok), Em. destruct (Hall r Hr) as [?%elem_of_nil|?]; done.
Qed.
End host.

(** ** What is extracted is accepted *)

(** A candidate's reference, as the constructors' input. *)
Definition vcs_input (r : ExtractedReference) : option VcsReferenceInput :=
  match r with RCommit c | RPullRequest c => Some c | RBead _ _ => None end.

Definition TransformReference (p : Policy) (env : PolicyEnvelope) (r : ExtractedReference) : TransformResult :=
  match r with
  | RCommit c => TransformCommitReference p env c
  | RPullRequest c => TransformPullRequestReference p env c
  | RBead w resolver => TransformExtractedWorkReference p env w resolver
  end.

Lemma vcs_marshals t k (i : VcsReferenceInput) (slug : option bytes) :
  t = wire.CommitVcsReference \/ t = wire.PullRequestVcsReference ->
  exists j, FromVariant t "RefKind" k
    [("Identifier", GStr (vi_Identifier i)); ("RepoSlug", opt_value GStr slug); ("Extraction", extraction_value (vi_Extraction i))]%string = Ok j.
Proof. intros [->| ->]; destruct slug; eexists; cbv -[to_valid]; reflexivity. Qed.

Lemma new_vcs_Ok t kind max pattern detail c i :
  t = wire.CommitVcsReference \/ t = wire.PullRequestVcsReference ->
  validateCommon c = Ok tt -> bounded max (vi_Identifier i) -> pattern (vi_Identifier i) = true ->
  vi_RepoSlug i = [] \/ repoSlugPattern (vi_RepoSlug i) = true -> validateExtraction (vi_Extraction i) = Ok tt ->
  exists o, new_vcs t kind max pattern detail c i = Ok o.
Proof.
  intros Ht Hc Hb Hp Hs He. unfold new_vcs. rewrite (proj2 (prepareCommon_Ok c c)) by done. cbn [mbind result_bind].
  rewrite (proj2 (boundedNonEmpty_Ok _ _ _)) by done. cbn [mbind result_bind]. rewrite Hp. cbn [negb].
  assert (Hslug : exists o, validateRepoSlug (vi_RepoSlug i) = Ok o).
  { unfold validateRepoSlug. destruct Hs as [->|Hs]; [eauto|]. case_bool_decide; [eauto|]. rewrite Hs. eauto. }
  destruct Hslug as [o ->]. cbn [mbind result_bind]. rewrite He. cbn [mbind result_bind].
  destruct (vcs_marshals t kind i o Ht) as [j ->]. by eexists.
Qed.

Lemma extraction_Ok surface patternID : surface ∈ [TOOL_CALL; TOOL_RESULT] -> bounded maxPatternID patternID ->
  validateExtraction (extractionProvenance surface patternID) = Ok tt.
Proof.
  intros Hs Hb. unfold validateExtraction, extractionProvenance. cbn [ex_Surface ex_PatternId ex_ExtractorVersion].
  rewrite (proj2 (validEnum_Valid _ _ _)) by (apply elem_of_cons in Hs as [->|Hs]; [|apply list_elem_of_singleton in Hs as ->]; vm_compute; reflexivity).
  cbn [mbind result_bind]. rewrite (proj2 (boundedNonEmpty_Ok _ patternID _) Hb). cbn [mbind result_bind]. by vm_compute.
Qed.

(** A pull-request URL that the constructor's bounds admit. *)
Definition short_pr (i : VcsReferenceInput) : Prop := zlen (vi_Identifier i) <= 248 /\ zlen (vi_RepoSlug i) <= 140.

Lemma commitAnchor_bounded prefix pat : commitAnchor prefix = Some pat -> bounded maxPatternID pat.
Proof. unfold commitAnchor. intros H. repeat case_match; simplify_eq; by vm_compute. Qed.

Lemma hex_word_pattern w : hex_word w -> commitIdentifierPattern w = true /\ bounded maxCommitIdentifier w.
Proof.
  intros [Hf Hl]. unfold commitIdentifierPattern, bounded, zlen, maxCommitIdentifier. rewrite Hf. split; [by destruct Hl as [-> | ->]|]. split; [|lia]. intros ->. cbn in Hl. lia.
Qed.

(** ASCII text has a rune per byte. *)
Lemma runes_ascii fuel s : (length s <= fuel)%nat -> forallb is_ascii s = true -> runes fuel s = map (fun b => [b]) s.
Proof.
  revert s. induction fuel as [|fuel IH]; intros [|b s]; cbn; try done; [lia|]. intros Hl [Hb Hs]%andb_prop. rewrite Hb, IH; [done|lia|done].
Qed.

(** A graphic ASCII byte. *)
Definition url_byte (b : byte) : bool := is_ascii b && negb (bool_decide (b = x20)).

Lemma slug_url b : isSlugByte b = true -> url_byte b = true.
Proof. by destruct b. Qed.
Lemma digit_url b : is_digit b = true -> url_byte b = true.
Proof. by destruct b. Qed.

Lemma forallb_weaken {A} (f g : A -> bool) l : (forall x, f x = true -> g x = true) -> forallb f l = true -> forallb g l = true.
Proof. rewrite !forallb_forall. auto. Qed.

Lemma url_pattern t : forallb url_byte t = true -> 1 <= zlen t <= 240 -> pullRequestIdentifierPattern (str "https://" ++ t) = true.
Proof.
  intros Ht Hl. unfold pullRequestIdentifierPattern.
  change (HasPrefix (str "https://" ++ t) (str "https://") && ((1 <=? zlen (range_runes t)) && (zlen (range_runes t) <=? 240)
    && forallb (fun r => negb (bool_decide (r = [x20]))) (range_runes t)) = true).
  rewrite HasPrefix_app. cbn [andb]. unfold range_runes. rewrite runes_ascii.
  - unfold zlen in *. rewrite length_map, (proj2 (Z.leb_le _ _)), (proj2 (Z.leb_le _ _)) by lia. cbn [andb].
    apply forallb_forall. intros x (b&<-&Hb)%in_map_iff. rewrite forallb_forall in Ht. specialize (Ht b Hb). unfold url_byte in Ht.
    apply andb_prop in Ht as [_ Hn%negb_true_iff%bool_decide_eq_false_1]. apply negb_true_iff, bool_decide_eq_false_2. congruence.
  - lia.
  - eapply forallb_weaken; [|exact Ht]. intros b H. by apply andb_prop in H as [? _].
Qed.

Lemma pr_identifier_accepted ident slug : pr_identifier ident slug -> zlen ident <= 248 -> zlen slug <= 140 ->
  pullRequestIdentifierPattern ident = true /\ bounded maxPullReqIdentifier ident /\ (slug = [] \/ repoSlugPattern slug = true).
Proof.
  intros [? ? [owner repo ds [Ho1 Ho2] [Hr1 Hr2] [Hd1 Hd2]]|ds [Hd1 Hd2]] Hl Hs.
  - split_and!.
    + change (str "https://github.com/" ++ (owner ++ [x2f] ++ repo) ++ str "/pull/" ++ ds)
        with (str "https://" ++ (str "github.com/" ++ (owner ++ [x2f] ++ repo) ++ str "/pull/" ++ ds)) in *.
      rewrite zlen_app in Hl. change (zlen (str "https://")) with 8 in Hl. apply url_pattern.
      * rewrite !forallb_app. rewrite (forallb_weaken _ _ _ slug_url Ho2), (forallb_weaken _ _ _ slug_url Hr2), (forallb_weaken _ _ _ digit_url Hd2). done.
      * split; [rewrite zlen_app; change (zlen (str "github.com/")) with 11; pose proof (zlen_nonneg ((owner ++ [x2f] ++ repo) ++ str "/pull/" ++ ds)); lia|lia].
    + split; [done|]. unfold maxPullReqIdentifier. lia.
    + right. unfold repoSlugPattern. rewrite (proj2 (Z.leb_le _ _) Hs). rewrite (proj2 (Z.leb_le 1 _)).
      2: { rewrite !zlen_app. change (zlen [x2f]) with 1. pose proof (zlen_nonneg owner). pose proof (zlen_nonneg repo). lia. }
      cbn [andb]. rewrite !forallb_app. assert (H : forall w, forallb isSlugByte w = true -> forallb (fun b => is_alnum b || bool_decide (b ∈ [x2e; x5f; x2f; x2d])) w = true).
      { intros w. apply forallb_weaken. by intros []. }
      by rewrite (H owner), (H repo).
  - split_and!; [|split; [done|]|by left].
    + unfold pullRequestIdentifierPattern. rewrite Hd2, (proj2 (Z.leb_le _ _)), (proj2 (Z.leb_le _ _)) by lia. done.
    + unfold maxPullReqIdentifier. lia.
Qed.

(** Within the constructors' bounds: a pull request's, a bead's and its project's; a commit always is. *)
Definition within_bounds (r : ExtractedReference) : Prop :=
  match r with
  | RCommit _ => True
  | RPullRequest i => short_pr i
  | RBead w resolver => zlen (xr_BeadID w) <= maxBeadID /\ forall project, resolve resolver (xr_BeadID w) = Ok project -> bounded maxTeamServerProject project
  end.

Definition gate (p : Policy) (r : ExtractedReference) : bool :=
  let x := po_Extraction p in match r with RCommit _ => xc_Commit x | RPullRequest _ => xc_PullRequest x | RBead _ _ => xc_BeadID x end.

Lemma work_reference_Ok c r : validateCommon c = Ok tt -> bounded maxTeamServerProject (wr_TeamServerProjectId r) -> bounded maxBeadID (wr_BeadId r) ->
  wr_Origin r = str "EXTRACTED" -> exists o, newWorkReference c r = Ok o.
Proof.
  intros Hc Hp Hb Ho. unfold newWorkReference, validateWorkReference. rewrite (proj2 (prepareCommon_Ok c c)) by done. cbn [mbind result_bind].
  rewrite (proj2 (boundedNonEmpty_Ok _ _ _) Hp). cbn [mbind result_bind]. rewrite (proj2 (boundedNonEmpty_Ok _ _ _) Hb). cbn [mbind result_bind].
  rewrite Ho, (proj2 (validEnum_Valid _ _ _)) by (vm_compute; reflexivity). by eexists.
Qed.

Lemma extracted_bead_Ok c w resolver : validateCommon c = Ok tt -> xr_BeadID w <> [] -> within_bounds (RBead w resolver) ->
  SecretShapedBeadID (xr_BeadID w) (xr_DeclaredPrefix w) = false -> exists o, NewExtractedWorkReference c w resolver = Ok o.
Proof.
  intros Hc Hn [Hl Hproj] Hs. unfold NewExtractedWorkReference. rewrite (proj2 (boundedNonEmpty_Ok _ _ _)) by done. cbn [mbind result_bind]. rewrite Hs.
  destruct (resolve resolver (xr_BeadID w)) as [project|reason] eqn:Er.
  - destruct (work_reference_Ok c (mkWorkReference project (xr_BeadID w) (str "EXTRACTED"))) as [o ->]; [done|by apply Hproj|done|done|by eexists].
  - destruct (NewCaptureDiagnostic_Ok c (mkDiagnostic (str "CAPTURE_LOSS") (str "INFO") (str "NONE") (drop_detail reason))) as [o Ho]; [done|by vm_compute..|].
    rewrite Ho. by eexists.
Qed.

Lemma extracted_commit_Ok c surface pat w : validateCommon c = Ok tt -> surface ∈ [TOOL_CALL; TOOL_RESULT] -> bounded maxPatternID pat -> hex_word w ->
  exists o, NewCommitReference c (mkVcsInput w [] (extractionProvenance surface pat)) = Ok o.
Proof.
  intros Hc Hs Hp [H1 H2]%hex_word_pattern. apply new_vcs_Ok; [by left|exact Hc|exact H2|exact H1|by left|by apply extraction_Ok].
Qed.

Lemma extracted_pr_Ok c surface pat ident slug : validateCommon c = Ok tt -> surface ∈ [TOOL_CALL; TOOL_RESULT] -> bounded maxPatternID pat ->
  pr_identifier ident slug -> zlen ident <= 248 -> zlen slug <= 140 ->
  exists o, NewPullRequestReference c (mkVcsInput ident slug (extractionProvenance surface pat)) = Ok o.
Proof.
  intros Hc Hs Hp Hi Hl1 Hl2. destruct (pr_identifier_accepted _ _ Hi Hl1 Hl2) as (H1&H2&H3).
  apply new_vcs_Ok; [by right|exact Hc|exact H2|exact H1|exact H3|by apply extraction_Ok].
Qed.

(** What the extractors find, the constructors accept: within the bounds no reference is replaced by a fail-closed diagnostic, and one is
    dropped exactly when its toggle is off. *)
Theorem extracted_accepted p env c surface s cfg snap r :
  common p env = Ok c -> validateCommon c = Ok tt -> surface ∈ [TOOL_CALL; TOOL_RESULT] ->
  r ∈ found_references surface s cfg snap -> within_bounds r ->
  tf_Cause (TransformReference p env r) = None /\ tf_Dropped (TransformReference p env r) = negb (gate p r).
Proof.
  intros Hcommon Hc Hs Hr Hw. unfold found_references in Hr. apply elem_of_app in Hr as [Hr|Hr]; (destruct (_ : bool) in Hr; [|by apply elem_of_nil in Hr]).
  - apply elem_of_app in Hr as [Hr|Hr].
    + unfold extractCommits in Hr. pose proof Hr as Hr'. apply list_elem_of_omap in Hr as (m&Hm&Hcm). unfold commit_of in Hcm.
      apply bind_Some in Hcm as (pat&Hp&[= <-]). apply extractCommits_iff in Hr' as (a&z&_&Hh&_).
      cbn [TransformReference gate]. unfold TransformCommitReference. destruct (xc_Commit _); [|done]. cbn [negb]. unfold transform. rewrite Hcommon.
      destruct (extracted_commit_Ok c surface pat (matched m)) as [o ->]; [done|done|by eapply commitAnchor_bounded|done|done].
    + apply extractPullRequests_sound in Hr as (ident&slug&pat&->&Hi&Hpat). destruct Hw as [Hl Hsl].
      cbn [TransformReference gate pr_reference]. unfold TransformPullRequestReference. destruct (xc_PullRequest _); [|done]. cbn [negb]. unfold transform. rewrite Hcommon.
      destruct (extracted_pr_Ok c surface pat ident slug) as [o ->]; try done.
      repeat (apply elem_of_cons in Hpat as [->|Hpat]; [by vm_compute|]). by apply elem_of_nil in Hpat.
  - destruct r as [i|i|[id prefix] rs]; try (unfold extractBeads in Hr; destruct (selectPattern _ _) as [[re|] ?]; [|by apply elem_of_nil in Hr];
      apply list_elem_of_omap in Hr as (x&_&Hx); unfold bead_of in Hx; by repeat case_match).
    apply extractBeads_found in Hr as (->&->&Hsec&(q&t&_&Hq&->&_)&_). cbn [TransformReference gate]. unfold TransformExtractedWorkReference.
    destruct (xc_BeadID _); [|done]. cbn [negb]. rewrite Hcommon.
    edestruct extracted_bead_Ok as [o Ho]; [exact Hc| |exact Hw|exact Hsec|rewrite Ho; by destruct o]. by destruct q.
Qed.

(** ** Witnesses *)

#[export] Instance no_host : Host unit := {| AdmitRef := fun _ _ _ => (true, tt); CurrentMap := fun _ => (None, tt) |}.

Definition demo_surface : SurfaceText := mkSurface (str "git") (str "commit " ++ sha "0a1f" ++ [x0a] ++ str "    close ga-1tzraj, PR #12 and pr #12").

Lemma demo_found : map ref_key (found_references TOOL_RESULT demo_surface demo_refs None)
  = [(RefKindCommit, sha "0a1f"); (RefKindPullRequest, str "#12"); (RefKindPullRequest, str "#12"); (RefKindBead, str "ga-1tzraj")].
Proof. vm_compute. reflexivity. Qed.

Lemma ExtractReferences_bounded_witness :
  let '(refs, diags, _) := ExtractReferences TOOL_RESULT demo_surface demo_refs tt in
  NoDup (map ref_key refs) /\ length refs = 3%nat /\ diags = [].
Proof.
  destruct (ExtractReferences TOOL_RESULT demo_surface demo_refs tt) as [[refs diags] h'] eqn:E.
  destruct (ExtractReferences_bounded TOOL_RESULT demo_surface demo_refs tt refs diags h' E) as (_&_&Hn&_). split; [exact Hn|].
  revert E. vm_compute. intros [= <- <- _]. exact (conj eq_refl eq_refl).
Defined.

(** A host that lets two references through. *)
Definition strict_host : Host nat := {| AdmitRef := fun n _ _ => ((n <? 2)%nat, S n); CurrentMap := fun n => (None, n) |}.

Example strict_host_cap :
  let cfg := mkRefConfig [str "ga-"] (mkResolver [] None (str "team")) false true in
  let '(refs, diags, asked) := @ExtractReferences nat strict_host TOOL_RESULT demo_surface cfg 0%nat in
  (map identifier refs, length diags, asked) = ([sha "0a1f"; str "#12"], 1%nat, 3%nat).
Proof. vm_compute. reflexivity. Qed.

Definition demo_commit : ExtractedReference :=
  RCommit (mkVcsInput (sha "0a1f") [] (extractionProvenance TOOL_RESULT (str "git-commit-header-v1"))).

Lemma extracted_accepted_witness :
  tf_Cause (TransformReference demo_policy (demo_envelope (str "/home/a") []) demo_commit) = None.
Proof.
  assert (Hc : match common demo_policy (demo_envelope (str "/home/a") []) with Ok c => validateCommon c = Ok tt | Err _ => False end) by (vm_compute; reflexivity).
  destruct (common demo_policy (demo_envelope (str "/home/a") [])) as [c|e] eqn:Ec; [|destruct Hc].
  refine (proj1 (extracted_accepted demo_policy (demo_envelope (str "/home/a") []) c TOOL_RESULT demo_surface demo_refs None demo_commit Ec Hc _ _ I)).
  - right. left.
  - apply elem_of_app. left. vm_compute. left.
Defined.
