(* ===== verification/Transcript.v ===== *)
(** * The parse state of a transcript ([adapter/codex/transcript_state.go], the types of [parser.go])

    The candidates a transcript yields, and what the parse of one file carries from a buffer to the next:
    its usage source, its session, its open and counted Claude responses. A candidate's [Kind] is a
    constructor with the one pointer it selects. Go's clones and fresh pointers are values here. *)

From S2P Require Import Prelude GoStrings GoTime Json GoPath GoJson BeadPrefix Validate Evidence Policy RefExtract SeqSet.

(** ** Candidates *)

Inductive CandidateKind : Type :=
| KindMessage (c : MessageCandidate)
| KindToolCall (c : ToolCallCandidate)
| KindToolResult (c : ToolResultCandidate)
| KindUsage (c : UsageInput)
| KindSessionLifecycle (c : SessionLifecycleInput)
| KindCommitReference (c : VcsReferenceInput)
| KindPullRequestReference (c : VcsReferenceInput)
| KindWorkReference (c : ExtractedWorkRefInput) (resolver : ProjectResolver)
| KindDiagnostic (c : CaptureDiagnosticInput).

Record SessionRef : Type := mkSessionRef { sr_NativeID : bytes; sr_Provider : bytes }.

Record Candidate : Type := mkCandidate {
  ca_Kind : CandidateKind;
  ca_OccurredAt : gotime;
  ca_LineNumber : Z;
  ca_Session : option SessionRef;
}.

Definition cand (k : CandidateKind) (ts : gotime) (lineNo : Z) : Candidate := mkCandidate k ts lineNo None.

Definition Candidate_Transform (c : Candidate) (p : Policy) (env : PolicyEnvelope) : TransformResult :=
  let occurred := if negb (IsZero (ca_OccurredAt c)) then ca_OccurredAt c else en_OccurredAt env in
  let occurred := if IsZero occurred then en_CapturedAt env else occurred in
  let captured := if IsZero (en_CapturedAt env) then occurred else en_CapturedAt env in
  let env := mkEnvelope occurred captured (en_Provenance env) (en_RunContext env) in
  match ca_Kind c with
  | KindMessage r => TransformMessage p env r
  | KindToolCall r => TransformToolCall p env r
  | KindToolResult r => TransformToolResult p env r
  | KindUsage r => TransformUsage p env r
  | KindSessionLifecycle r => TransformSessionLifecycle p env r
  | KindCommitReference r => TransformCommitReference p env r
  | KindPullRequestReference r => TransformPullRequestReference p env r
  | KindWorkReference r resolver => TransformExtractedWorkReference p env r resolver
  | KindDiagnostic r => TransformCaptureDiagnostic p env r
  end.

Definition unsupportedDiagnostic (context : bytes) : CaptureDiagnosticInput :=
  mkDiagnostic (str "UNSUPPORTED_FORMAT") (str "WARNING") (str "PARTIAL") context.
Definition diagnosticCandidate (ts : gotime) (lineNo : Z) (context : bytes) : Candidate :=
  cand (KindDiagnostic (unsupportedDiagnostic context)) ts lineNo.

Definition refCandidate (r : ExtractedReference) (ts : gotime) (lineNo : Z) : Candidate :=
  match r with
  | RCommit c => cand (KindCommitReference c) ts lineNo
  | RPullRequest c => cand (KindPullRequestReference c) ts lineNo
  | RBead w resolver => cand (KindWorkReference w resolver) ts lineNo
  end.

(** The extractors over one surface: references, then cap diagnostics. *)
Definition extractedCandidates {H} `{Host H} (surface : bytes) (s : SurfaceText) (cfg : ReferenceConfig) (ts : gotime) (lineNo : Z) (h : H)
    : list Candidate * H :=
  let '(refs, diags, h) := ExtractReferences surface s cfg h in
  (map (fun r => refCandidate r ts lineNo) refs ++ map (fun d => cand (KindDiagnostic d) ts lineNo) diags, h).

(** ** Hashes of ids *)

(** FNV-1a, 64 bits. *)
Definition idHash (id : bytes) : Z :=
  fold_left (fun h b => u64 (Z.lxor h (bZ b) * 0x100000001b3)) id 0xcbf29ce484222325.

Example idHash_a : idHash [] = 0xcbf29ce484222325 /\ idHash (str "a") = 0xaf63dc4c8601ec8c.
Proof. split; reflexivity. Qed.

(** [slices.BinarySearch]: where the key is, or would be. *)
Definition BinarySearch (s : list Z) (key : Z) : nat * bool :=
  let i := Search (length s) (fun h => match s !! h with Some x => negb (x <? key) | None => true end) in
  (i, match s !! i with Some k => k =? key | None => false end).

Definition idset_has (s : list Z) (key : Z) : bool := (BinarySearch s key).2.
Definition idset_add (s : list Z) (key : Z) : list Z * bool :=
  let '(i, found) := BinarySearch s key in if found then (s, false) else (take i s ++ key :: drop i s, true).

Definition maxResponseLineage : Z := 64.

(** The newest of a list, to a bound. *)
Definition newest {A} (max : Z) (l : list A) : list A := if max <? zlen l then drop (Z.to_nat (zlen l - max)) l else l.

Definition trail_has (t : list Z) (uuid : bytes) : bool := bool_decide (idHash uuid ∈ t).
Definition trail_add (t : list Z) (uuid : bytes) : list Z :=
  let h := idHash uuid in if bool_decide (h ∈ t) then t else newest maxResponseLineage (t ++ [h]).

(** ** The session *)

Record sessionCarry : Type := mkSession {
  sc_NativeID : bytes;
  sc_Provider : bytes;
  sc_StartedAt : gotime;
  sc_Started : bool;
  sc_Sessions : list bytes;
}.

Definition no_session : sessionCarry := mkSession [] [] zero_time false [].
Definition maxStartedSessions : Z := 16.

Definition enter (s : sessionCarry) (id provider : bytes) : sessionCarry :=
  mkSession id provider zero_time (bool_decide (id ∈ sc_Sessions s)) (sc_Sessions s).

Definition markStarted (s : sessionCarry) : sessionCarry :=
  mkSession (sc_NativeID s) (sc_Provider s) (sc_StartedAt s) true
    (if bool_decide (sc_NativeID s ∈ sc_Sessions s) then sc_Sessions s else newest maxStartedSessions (sc_Sessions s ++ [sc_NativeID s])).

Definition session_ref (s : sessionCarry) : option SessionRef :=
  if negb (sc_Started s) || bool_decide (sc_NativeID s = []) then None else Some (mkSessionRef (sc_NativeID s) (sc_Provider s)).

(** ** Usage *)

Record rolloutTokenUsage : Type := mkTokenUsage {
  tu_InputTokens : option Z;
  tu_CachedInputTokens : option Z;
  tu_OutputTokens : option Z;
  tu_ReasoningOutputTokens : option Z;
  tu_TotalTokens : option Z;
}.

Record rolloutPending : Type := mkPendingUsage { pn_ResponseID : bytes; pn_Usage : rolloutTokenUsage; pn_OccurredAt : gotime }.

Record rolloutCarry : Type := mkRollout { ro_RecordMode : bool; ro_LegacyTotal : bytes; ro_Pending : option rolloutPending }.
Definition no_rollout : rolloutCarry := mkRollout false [] None.

Record claudeUsage : Type := mkClaudeUsage {
  cu_InputTokens : option Z;
  cu_OutputTokens : option Z;
  cu_CacheCreationInputTokens : option Z;
  cu_CacheReadInputTokens : option Z;
}.
Definition no_usage : claudeUsage := mkClaudeUsage None None None None.

Record claudeMessage : Type := mkClaudeMessage {
  op_Key : Z;
  op_ID : bytes;
  op_Usage : claudeUsage;
  op_OccurredAt : gotime;
  op_Lineage : list Z;
}.

Record claudeCarry : Type := mkClaude { cl_Open : list claudeMessage; cl_Counted : list Z; cl_Unsaved : list Z }.
Definition no_claude : claudeCarry := mkClaude [] [] [].

Definition maxOpenClaudeMessages : Z := 32.

Definition count (c : claudeCarry) (key : Z) : claudeCarry * bool :=
  let '(counted, new) := idset_add (cl_Counted c) key in
  if new : bool then (mkClaude (cl_Open c) counted (cl_Unsaved c ++ [key]), true) else (c, false).

(** ** The parse state *)

Record transcriptCarry : Type := mkCarry { tc_rollout : rolloutCarry; tc_session : sessionCarry; tc_claude : claudeCarry }.
Definition no_carry : transcriptCarry := mkCarry no_rollout no_session no_claude.

(** [toolSurfaceByID] of a buffer begins empty. *)
Record parseState : Type := mkParseState { ps_carry : transcriptCarry; ps_tools : gmap bytes bytes }.
Definition newParseState (carry : transcriptCarry) : parseState := mkParseState carry ∅.

Definition ps_session (st : parseState) : sessionCarry := tc_session (ps_carry st).
Definition ps_rollout (st : parseState) : rolloutCarry := tc_rollout (ps_carry st).
Definition ps_claude (st : parseState) : claudeCarry := tc_claude (ps_carry st).

Definition set_session (s : sessionCarry) (st : parseState) : parseState :=
  mkParseState (mkCarry (ps_rollout st) s (ps_claude st)) (ps_tools st).
Definition set_rollout (r : rolloutCarry) (st : parseState) : parseState :=
  mkParseState (mkCarry r (ps_session st) (ps_claude st)) (ps_tools st).
Definition set_claude (c : claudeCarry) (st : parseState) : parseState :=
  mkParseState (mkCarry (ps_rollout st) (ps_session st) c) (ps_tools st).

Definition sessionLifecycleCandidate (nativeID provider model : bytes) (ts : gotime) (lineNo : Z) : Candidate :=
  cand (KindSessionLifecycle (mkSessionLifecycle nativeID provider (str "STARTUP") (str "STARTED") model)) ts lineNo.

Definition startSession (st : parseState) (model : bytes) (ts : gotime) (lineNo : Z) : list Candidate * parseState :=
  let s := ps_session st in
  if sc_Started s || bool_decide (sc_NativeID s = []) then ([], st)
  else
    let s := markStarted s in
    let at_ := if IsZero (sc_StartedAt s) then ts else sc_StartedAt s in
    ([sessionLifecycleCandidate (sc_NativeID s) (sc_Provider s) model at_ lineNo], set_session s st).

Definition is_usage (c : Candidate) : bool := match ca_Kind c with KindUsage _ => true | _ => false end.
Definition is_lifecycle (c : Candidate) : bool := match ca_Kind c with KindSessionLifecycle _ => true | _ => false end.
Definition with_session (ref : option SessionRef) (c : Candidate) : Candidate :=
  match ca_Session c with None => mkCandidate (ca_Kind c) (ca_OccurredAt c) (ca_LineNumber c) ref | Some _ => c end.

Fixpoint attribute (st : parseState) (cands : list Candidate) : list Candidate * parseState :=
  match cands with
  | [] => ([], st)
  | c :: l =>
      let '(start, st) := if is_usage c then startSession st [] (ca_OccurredAt c) (ca_LineNumber c) else ([], st) in
      let c := with_session (session_ref (ps_session st)) c in
      let '(out, st) := attribute st l in
      (start ++ c :: out, st)
  end.

Definition stamp (st : parseState) (cands : list Candidate) : list Candidate :=
  match session_ref (ps_session st) with
  | None => cands
  | Some ref => map (fun c => if is_lifecycle c then c else with_session (Some ref) c) cands
  end.

(** ** The newest of a list *)

Lemma newest_bound {A} max (l : list A) : 0 <= max -> zlen (newest max l) <= max.
Proof. intros Hm. unfold newest. destruct (Z.ltb_spec max (zlen l)); [|done]. unfold zlen in *. rewrite length_drop. lia. Qed.

Lemma newest_app {A} n (a b : list A) : 0 <= n -> newest n (newest n a ++ b) = newest n (a ++ b).
Proof.
  intros Hn. unfold newest at 2. destruct (Z.ltb_spec n (zlen a)) as [Ha|Ha]; [|done].
  set (d := Z.to_nat (zlen a - n)). assert (Hd : Z.of_nat d = zlen a - n) by lia. assert (Hl : (d <= length a)%nat) by (unfold zlen in *; lia).
  rewrite <-(drop_app_le a b d Hl). unfold newest. pose proof (zlen_nonneg b) as Hb.
  assert (Hz : zlen (drop d (a ++ b)) = n + zlen b) by (unfold zlen in *; rewrite length_drop, length_app; lia).
  rewrite Hz, zlen_app. destruct (Z.ltb_spec n (n + zlen b)), (Z.ltb_spec n (zlen a + zlen b)); try lia.
  - rewrite drop_drop. f_equal. lia.
  - f_equal. lia.
Qed.

Lemma newest_elem {A} n (l : list A) x : x ∈ newest n l -> x ∈ l.
Proof. unfold newest. case_match; [|done]. intros Hx. rewrite <-(take_drop (Z.to_nat (zlen l - n)) l). apply elem_of_app. by right. Qed.

(** The tail survives while it fits. *)
Lemma newest_tail {A} n (a b : list A) x : zlen b <= n -> x ∈ b -> x ∈ newest n (a ++ b).
Proof.
  intros Hb Hx. unfold newest. rewrite zlen_app. destruct (Z.ltb_spec n (zlen a + zlen b)); [|apply elem_of_app; by right].
  rewrite drop_app_le by (unfold zlen in *; lia). apply elem_of_app. by right.
Qed.
