(* ===== verification/Rollout.v ===== *)
(** * Codex rollouts ([adapter/codex/rollout.go])

    One record of a rollout to its candidates and the next parse state: the session's metadata, its start
    at the first model, usage from records or, before they existed, from token counts, and the tool
    surfaces. [foldUpgradeCarry] replays a file's transitions without its candidates. *)

From S2P Require Import Prelude GoStrings GoTime Json GoNet GoPath GoJson StrictDecode BeadPrefix Validate Evidence Policy Regex RefExtract Transcript.

(** ** Reading a record's parts *)

Definition opt_raw (v : goval) : option json := match v with GRaw j => Some j | _ => None end.
Definition opt_time (v : goval) : option gotime := match v with GPtr (GTime t) => Some t | _ => None end.
Definition opt_int (v : goval) : option Z := match v with GPtr (GInt z) => Some z | _ => None end.

(** [json.Unmarshal] of a raw message into a variable of the type, and what is read off it; [None] is the error. *)
Definition unmarshal {A} (t : gotype) (rd : goval -> A) (raw : option json) : option A :=
  j ← raw; match decode_as false t j with Ok v => Some (rd v) | Err _ => None end.

Definition unmarshal_string : option json -> option bytes := unmarshal TString as_string.

(** The discriminating members of the three dialects; a raw message is [None] when absent. *)
Record formatProbe : Type := mkProbe {
  fp_Type : bytes;
  fp_Payload : option json;
  fp_SessionIDCamel : bytes;
  fp_Message : option json;
  fp_IsMeta : bool;
  fp_UUID : bytes;
  fp_ParentUUID : bytes;
  fp_LogicalParentUUID : bytes;
  fp_TS : option gotime;
  fp_Timestamp : option gotime;
}.

Definition ProbeType : gotype := TStruct
  [(str "Type", str "type", TString); (str "Payload", str "payload", TRawMessage); (str "SessionIDCamel", str "sessionId", TString);
   (str "Message", str "message", TRawMessage); (str "IsMeta", str "isMeta", TBool); (str "UUID", str "uuid", TString);
   (str "ParentUUID", str "parentUuid", TString); (str "LogicalParentUUID", str "logicalParentUuid", TString);
   (str "TS", str "ts", TPtr TTime); (str "Timestamp", str "timestamp", TPtr TTime)].

Definition probe_of (v : goval) : formatProbe :=
  let f name := get ProbeType name v in
  mkProbe (as_string (f "Type"%string)) (opt_raw (f "Payload"%string)) (as_string (f "SessionIDCamel"%string)) (opt_raw (f "Message"%string))
    (match f "IsMeta"%string with GBool b => b | _ => false end)
    (as_string (f "UUID"%string)) (as_string (f "ParentUUID"%string)) (as_string (f "LogicalParentUUID"%string))
    (opt_time (f "TS"%string)) (opt_time (f "Timestamp"%string)).

Definition probeTime (p : formatProbe) : gotime :=
  match fp_TS p, fp_Timestamp p with Some t, _ => t | None, Some t => t | None, None => zero_time end.

Definition rolloutProvider : bytes := str "codex".

(** ** Usage *)

Definition TokenUsageType : gotype := TStruct
  [(str "InputTokens", str "input_tokens", TPtr (TInt 64)); (str "CachedInputTokens", str "cached_input_tokens", TPtr (TInt 64));
   (str "OutputTokens", str "output_tokens", TPtr (TInt 64)); (str "ReasoningOutputTokens", str "reasoning_output_tokens", TPtr (TInt 64));
   (str "TotalTokens", str "total_tokens", TPtr (TInt 64))].
Definition token_usage_of (v : goval) : rolloutTokenUsage :=
  let f name := opt_int (get TokenUsageType name v) in
  mkTokenUsage (f "InputTokens"%string) (f "CachedInputTokens"%string) (f "OutputTokens"%string) (f "ReasoningOutputTokens"%string) (f "TotalTokens"%string).
Definition opt_usage (v : goval) : option rolloutTokenUsage := match v with GPtr u => Some (token_usage_of u) | _ => None end.

(** [int64] sums wrap. *)
Definition work (u : rolloutTokenUsage) : Z :=
  match tu_InputTokens u, tu_OutputTokens u with
  | None, None => default 0 (tu_TotalTokens u)
  | i, o => i64 (default 0 i + default 0 o)
  end.

Definition freshInput (input cached : option Z) : option Z :=
  match input, cached with Some i, Some c => Some (Z.max (i64 (i - c)) 0) | _, _ => input end.

Definition usage_candidates (u : rolloutTokenUsage) (ts : gotime) (lineNo : Z) (messageID : bytes) : list Candidate :=
  if work u =? 0 then []
  else [cand (KindUsage (mkUsage (str "PROVIDER_REPORTED") (freshInput (tu_InputTokens u) (tu_CachedInputTokens u)) (tu_OutputTokens u)
                           None (tu_CachedInputTokens u) rolloutProvider [] messageID)) ts lineNo].

Definition pending_candidates (p : rolloutPending) (lineNo : Z) : list Candidate :=
  usage_candidates (pn_Usage p) (pn_OccurredAt p) lineNo (pn_ResponseID p).

Definition counter_text (v : option Z) : bytes := match v with None => [x2d] | Some n => FormatInt n end.
Definition signature (u : rolloutTokenUsage) : bytes :=
  Join x2f (map counter_text [tu_InputTokens u; tu_CachedInputTokens u; tu_OutputTokens u; tu_ReasoningOutputTokens u; tu_TotalTokens u]).

Definition maxJoinKeyID : Z := 128.

(** ASCII, no space, no control character. *)
Definition join_key_byte (b : byte) : bool := (0x21 <=? bZ b) && (bZ b <? 0x7f).
Definition joinKeyID (id : bytes) : bytes :=
  if bool_decide (id = []) || (maxJoinKeyID <? zlen id) then [] else if forallb join_key_byte id then id else [].

(** ** Versions *)

Definition rolloutRecordMinVersion : list Z := [0; 153; 0].

Fixpoint until (p : byte -> bool) (s : bytes) : bytes := match s with b :: r => if p b then [] else b :: until p r | [] => [] end.

Fixpoint at_least (v min : list Z) : bool :=
  match v, min with
  | x :: v, m :: min => if x =? m then at_least v min else m <? x
  | _, _ => true
  end.

Definition writesUsageRecords (version : bytes) : bool :=
  let parts := Split x2e (until (fun b => bool_decide (b ∈ [x2d; x2b])) version) in
  if negb (length parts =? 3)%nat then false
  else match mapM (fun p => n ← ParseInt p; if n <? 0 then None else Some n) parts with
       | None => false
       | Some v => at_least v rolloutRecordMinVersion
       end.

Example versions : map writesUsageRecords (map str ["0.153.0"; "0.152.9"; "0.154.0-alpha.1"; "1.0.0+x"; "0.153"; ""]%string)
  = [true; false; true; true; false; false].
Proof. reflexivity. Qed.

(** ** Commands *)

Definition isShellName (s : bytes) : bool := bool_decide (Base s ∈ map str ["sh"; "bash"; "zsh"; "dash"; "ash"]%string).
Definition isDashCFlag (s : bytes) : bool := bool_decide (s ∈ map str ["-c"; "-lc"; "-ic"; "-lic"; "-il"; "-cl"]%string).

Definition commandFromArgv (argv : list bytes) : bytes :=
  match argv with
  | [] => []
  | a :: f :: script :: _ => if isShellName a && isDashCFlag f then script else Join x20 argv
  | _ => Join x20 argv
  end.

(** Up to the first space character. *)
Fixpoint until_space (fuel : nat) (s : bytes) : bytes :=
  match fuel, s with
  | S fuel', b :: r => match leading_space s with Some _ => [] | None => b :: until_space fuel' r end
  | _, _ => []
  end.
Definition firstToken (s : bytes) : bytes := let s := TrimSpace s in until_space (length s) s.

Definition recordToolSurface (st : parseState) (id name command : bytes) : parseState :=
  if bool_decide (id = []) then st
  else
    let tool := firstToken command in
    let tool := if bool_decide (tool = []) then name else tool in
    mkParseState (ps_carry st) (<[id := tool]> (ps_tools st)).
Definition toolSurfaceFor (st : parseState) (id : bytes) : bytes := default [] (ps_tools st !! id).

Definition strings_of (v : goval) : list bytes := map as_string (as_slice v).

Definition ArgsType : gotype := TStruct [(str "Command", str "command", TRawMessage); (str "Cmd", str "cmd", TString)].

Definition shellArgsCommand (arguments : bytes) : bytes :=
  if bool_decide (arguments = []) then []
  else match Unmarshal arguments ArgsType with
       | None => []
       | Some a =>
           let cmd := as_string (get ArgsType "Cmd" a) in
           match opt_raw (get ArgsType "Command" a) with
           | None => cmd
           | raw =>
               match unmarshal_string raw with
               | Some s => s
               | None => match unmarshal (TSlice TString) strings_of raw with Some argv => commandFromArgv argv | None => cmd end
               end
           end
       end.

Definition TextBlockType : gotype := TStruct [(str "Type", str "type", TString); (str "Text", str "text", TString)].

Definition concatTextBlocks (raw : option json) : bytes :=
  match unmarshal (TSlice TextBlockType) as_slice raw with
  | None => []
  | Some blocks => Join x0a (filter (fun t => t <> []) (map (fun b => as_string (get TextBlockType "Text" b)) blocks))
  end.

Definition OutputType : gotype := TStruct [(str "Output", str "output", TString); (str "Text", str "text", TString)].

Definition rolloutOutputText (raw : option json) : bytes :=
  match raw with
  | None => []
  | Some _ =>
      match unmarshal_string raw with
      | Some s => s
      | None =>
          match unmarshal OutputType (fun v => (as_string (get OutputType "Output" v), as_string (get OutputType "Text" v))) raw with
          | Some (output, text) =>
              if negb (bool_decide (output = [])) then output
              else if negb (bool_decide (text = [])) then text
              else concatTextBlocks raw
          | None => concatTextBlocks raw
          end
      end
  end.

Definition ShellCallType : gotype := TStruct
  [(str "Action", str "action", TStruct [(str "Command", str "command", TSlice TString)])].
Definition FunctionCallType : gotype := TStruct [(str "Name", str "name", TString); (str "Arguments", str "arguments", TString)].

Definition rolloutCallCommand (itemType : bytes) (payload : option json) : bytes * bytes :=
  if bool_decide (itemType = str "local_shell_call") then
    match unmarshal ShellCallType (fun v => strings_of (get (TStruct [(str "Command", str "command", TSlice TString)]) "Command" (get ShellCallType "Action" v))) payload with
    | None => ([], [])
    | Some argv => (str "shell", commandFromArgv argv)
    end
  else
    match unmarshal FunctionCallType (fun v => (as_string (get FunctionCallType "Name" v), as_string (get FunctionCallType "Arguments" v))) payload with
    | None => ([], [])
    | Some (name, arguments) => (name, shellArgsCommand arguments)
    end.

(** ** Response items *)

Definition ItemType : gotype := TStruct [(str "Type", str "type", TString); (str "CallID", str "call_id", TString)].
Definition OutputItemType : gotype := TStruct [(str "Output", str "output", TRawMessage)].

Section host.
Context {H : Type} `{Host H}.

Definition parseRolloutResponseItem (st : parseState) (payload : option json) (cfg : ReferenceConfig) (ts : gotime) (lineNo : Z) (h : H)
    : list Candidate * parseState * H :=
  match unmarshal ItemType (fun v => (as_string (get ItemType "Type" v), as_string (get ItemType "CallID" v))) payload with
  | None => ([], st, h)
  | Some (kind, callID) =>
      if bool_decide (kind = str "message") then ([], st, h)
      else if bool_decide (kind ∈ [str "function_call"; str "local_shell_call"]) then
        let '(name, command) := rolloutCallCommand kind payload in
        if bool_decide (command = []) then ([], st, h)
        else
          let '(out, h) := extractedCandidates TOOL_CALL (mkSurface name command) cfg ts lineNo h in
          (out, recordToolSurface st callID name command, h)
      else if bool_decide (kind ∈ [str "function_call_output"; str "local_shell_call_output"]) then
        let tool := toolSurfaceFor st callID in
        if bool_decide (tool = []) then ([], st, h)
        else match unmarshal OutputItemType (fun v => opt_raw (get OutputItemType "Output" v)) payload with
             | None => ([], st, h)
             | Some raw =>
                 let text := rolloutOutputText raw in
                 if bool_decide (text = []) then ([], st, h)
                 else
                   let '(out, h) := extractedCandidates TOOL_RESULT (mkSurface tool text) cfg ts lineNo h in
                   (out, st, h)
             end
      else ([], st, h)
  end.

(** ** Records *)

Definition MetaType : gotype := TStruct [(str "ID", str "id", TString); (str "CLIVersion", str "cli_version", TString)].
Definition meta_of (v : goval) : bytes * bytes := (as_string (get MetaType "ID" v), as_string (get MetaType "CLIVersion" v)).

Definition TurnContextType : gotype := TStruct [(str "Model", str "model", TString)].

Definition UsageRecordType : gotype := TStruct [(str "ResponseID", str "response_id", TRawMessage); (str "Usage", str "usage", TPtr TokenUsageType)].
Definition usage_record_of (v : goval) : option json * option rolloutTokenUsage :=
  (opt_raw (get UsageRecordType "ResponseID" v), opt_usage (get UsageRecordType "Usage" v)).

Definition TokenInfoType : gotype := TStruct
  [(str "Total", str "total_token_usage", TPtr TokenUsageType); (str "Last", str "last_token_usage", TPtr TokenUsageType)].
Definition EventType : gotype := TStruct [(str "Type", str "type", TString); (str "Info", str "info", TokenInfoType)].
(** Its type, the cumulative and the last usage. *)
Definition event_of (v : goval) : bytes * option rolloutTokenUsage * option rolloutTokenUsage :=
  let info := get EventType "Info" v in
  (as_string (get EventType "Type" v), opt_usage (get TokenInfoType "Total" info), opt_usage (get TokenInfoType "Last" info)).

Definition record_mode (r : rolloutCarry) : rolloutCarry := mkRollout true (ro_LegacyTotal r) (ro_Pending r).
Definition with_total (sig : bytes) (r : rolloutCarry) : rolloutCarry := mkRollout (ro_RecordMode r) sig (ro_Pending r).
Definition with_pending (p : option rolloutPending) (r : rolloutCarry) : rolloutCarry := mkRollout (ro_RecordMode r) (ro_LegacyTotal r) p.

(** [json.Unmarshal(rec.ResponseID, &responseID)], empty when it fails. *)
Definition response_id (raw : option json) : bytes := joinKeyID (default [] (unmarshal_string raw)).

Definition parse_session_meta (st : parseState) (payload : option json) (ts : gotime) : parseState :=
  match unmarshal MetaType meta_of payload with
  | None => st
  | Some (id, version) =>
      if bool_decide (id = []) || negb (bool_decide (sc_NativeID (ps_session st) = [])) then st
      else
        let st := if writesUsageRecords version then set_rollout (record_mode (ps_rollout st)) st else st in
        set_session (mkSession id rolloutProvider ts false []) st
  end.

Definition parse_turn_context (st : parseState) (payload : option json) (ts : gotime) (lineNo : Z) : list Candidate * parseState :=
  match unmarshal TurnContextType (fun v => as_string (get TurnContextType "Model" v)) payload with
  | None => ([], st)
  | Some model => if bool_decide (model = []) then ([], st) else startSession st model ts lineNo
  end.

Definition parse_usage_record (st : parseState) (payload : option json) (ts : gotime) (lineNo : Z) : list Candidate * parseState :=
  let st := set_rollout (record_mode (ps_rollout st)) st in
  match unmarshal UsageRecordType usage_record_of payload with
  | Some (responseID, Some usage) => attribute st (usage_candidates usage ts lineNo (response_id responseID))
  | _ => ([], st)
  end.

Definition parse_event (st : parseState) (payload : option json) (ts : gotime) (lineNo : Z) : list Candidate * parseState :=
  if ro_RecordMode (ps_rollout st) then ([], st)
  else match unmarshal EventType event_of payload with
       | Some (kind, total, Some last) =>
           if negb (bool_decide (kind = str "token_count")) then ([], st)
           else match total with
                | Some t =>
                    if bool_decide (signature t = ro_LegacyTotal (ps_rollout st)) then ([], st)
                    else attribute (set_rollout (with_total (signature t) (ps_rollout st)) st) (usage_candidates last ts lineNo [])
                | None => attribute st (usage_candidates last ts lineNo [])
                end
       | _ => ([], st)
       end.

Definition parseRolloutLine (st : parseState) (probe : formatProbe) (lineNo : Z) (cfg : ReferenceConfig) (h : H)
    : list Candidate * parseState * H :=
  let ts := probeTime probe in
  let payload := fp_Payload probe in
  if bool_decide (fp_Type probe = str "session_meta") then ([], parse_session_meta st payload ts, h)
  else if bool_decide (fp_Type probe = str "turn_context") then (parse_turn_context st payload ts lineNo, h)
  else if bool_decide (fp_Type probe = str "response_item") then
    let '(out, st, h) := parseRolloutResponseItem st payload cfg ts lineNo h in
    (attribute st out, h)
  else if bool_decide (fp_Type probe = str "token_usage_record") then (parse_usage_record st payload ts lineNo, h)
  else if bool_decide (fp_Type probe = str "event_msg") then (parse_event st payload ts lineNo, h)
  else ([], st, h).
End host.
