(* ===== verification/Claude.v ===== *)
(** * Claude Code transcripts ([adapter/codex/claude.go])

    One record of a Claude transcript to its candidates and the next parse state: the session it names,
    the response it belongs to, the branch it extends, its tool blocks. A response is counted once, when
    nothing can change it: [closeClaudeMessage]. *)

From S2P Require Import Prelude GoStrings GoTime Json GoPath GoJson StrictDecode BeadPrefix Validate Evidence Policy Regex RefExtract Transcript Rollout.

Definition claudeProvider : bytes := str "claude".
Definition claudeSyntheticModel : bytes := str "<synthetic>".
Definition isClaudeModel (model : bytes) : bool := negb (bool_decide (model = [])) && negb (bool_decide (model = claudeSyntheticModel)).

Definition isClaudeBookkeepingType (t : bytes) : bool :=
  bool_decide (t ∈ map str ["file-history-snapshot"; "file-history-delta"; "summary"]%string).

(** ** Reading *)

Definition ClaudeUsageType : gotype := TStruct
  [(str "InputTokens", str "input_tokens", TPtr (TInt 64)); (str "OutputTokens", str "output_tokens", TPtr (TInt 64));
   (str "CacheCreationInputTokens", str "cache_creation_input_tokens", TPtr (TInt 64));
   (str "CacheReadInputTokens", str "cache_read_input_tokens", TPtr (TInt 64))].
Definition claude_usage_of (v : goval) : claudeUsage :=
  let f name := opt_int (get ClaudeUsageType name v) in
  mkClaudeUsage (f "InputTokens"%string) (f "OutputTokens"%string) (f "CacheCreationInputTokens"%string) (f "CacheReadInputTokens"%string).

Record claudeRecordMessage : Type := mkRecordMessage {
  rm_ID : bytes;
  rm_Model : bytes;
  rm_StopReason : option json;
  rm_Usage : option claudeUsage;
  rm_Content : option json;
}.
Definition RecordMessageType : gotype := TStruct
  [(str "ID", str "id", TString); (str "Model", str "model", TString); (str "StopReason", str "stop_reason", TRawMessage);
   (str "Usage", str "usage", TPtr ClaudeUsageType); (str "Content", str "content", TRawMessage)].
Definition record_message_of (v : goval) : claudeRecordMessage :=
  let f name := get RecordMessageType name v in
  mkRecordMessage (as_string (f "ID"%string)) (as_string (f "Model"%string)) (opt_raw (f "StopReason"%string))
    (match f "Usage"%string with GPtr u => Some (claude_usage_of u) | _ => None end) (opt_raw (f "Content"%string)).

Definition finished (m : claudeRecordMessage) : bool := match rm_StopReason m with None | Some JNull => false | Some _ => true end.

Record claudeContentBlock : Type := mkBlock {
  bk_Type : bytes;
  bk_ID : bytes;
  bk_Name : bytes;
  bk_Input : option json;
  bk_ToolUseID : bytes;
  bk_Content : option json;
}.
Definition BlockType : gotype := TStruct
  [(str "Type", str "type", TString); (str "ID", str "id", TString); (str "Name", str "name", TString); (str "Input", str "input", TRawMessage);
   (str "ToolUseID", str "tool_use_id", TString); (str "Content", str "content", TRawMessage)].
Definition block_of (v : goval) : claudeContentBlock :=
  let f name := get BlockType name v in
  mkBlock (as_string (f "Type"%string)) (as_string (f "ID"%string)) (as_string (f "Name"%string)) (opt_raw (f "Input"%string))
    (as_string (f "ToolUseID"%string)) (opt_raw (f "Content"%string)).

Definition claudeBlocks (content : option json) : list claudeContentBlock :=
  default [] (unmarshal (TSlice BlockType) (fun v => map block_of (as_slice v)) content).

Definition hasToolResult (blocks : list claudeContentBlock) : bool := existsb (fun b => bool_decide (bk_Type b = str "tool_result")) blocks.

Definition InputType : gotype := TStruct [(str "Command", str "command", TString)].
Definition claudeToolCommand (input : option json) : bytes := default [] (unmarshal InputType (fun v => as_string (get InputType "Command" v)) input).

Definition claudeResultText (raw : option json) : bytes :=
  match raw with
  | None => []
  | Some _ => match unmarshal_string raw with Some s => s | None => concatTextBlocks raw end
  end.

(** ** Usage *)

Definition nonZero (v : option Z) : bool := match v with Some n => 0 <? n | None => false end.
Definition hasTokens (u : claudeUsage) : bool :=
  nonZero (cu_InputTokens u) || nonZero (cu_OutputTokens u) || nonZero (cu_CacheCreationInputTokens u) || nonZero (cu_CacheReadInputTokens u).

Definition claude_candidate (u : claudeUsage) (ts : gotime) (lineNo : Z) (messageID : bytes) : Candidate :=
  cand (KindUsage (mkUsage (str "PROVIDER_REPORTED") (cu_InputTokens u) (cu_OutputTokens u) (cu_CacheCreationInputTokens u) (cu_CacheReadInputTokens u)
          claudeProvider [] messageID)) ts lineNo.

(** ** Responses *)

Definition set_open (l : list claudeMessage) (st : parseState) : parseState :=
  set_claude (mkClaude l (cl_Counted (ps_claude st)) (cl_Unsaved (ps_claude st))) st.

Definition closeClaudeMessage (st : parseState) (i : nat) (lineNo : Z) : list Candidate * parseState :=
  match cl_Open (ps_claude st) !! i with
  | None => ([], st)
  | Some msg =>
      let st := set_open (delete i (cl_Open (ps_claude st))) st in
      let '(c, new) := count (ps_claude st) (op_Key msg) in
      let st := set_claude c st in
      if negb new || negb (hasTokens (op_Usage msg)) then ([], st)
      else attribute st [claude_candidate (op_Usage msg) (op_OccurredAt msg) lineNo (op_ID msg)]
  end.

(** The loop while responses are open; [fuel] bounds how many there are. *)
Fixpoint close_open (fuel : nat) (st : parseState) (lineNo : Z) : list Candidate * parseState :=
  match fuel, cl_Open (ps_claude st) with
  | S fuel', _ :: _ =>
      let '(out, st) := closeClaudeMessage st 0 lineNo in
      let '(rest, st) := close_open fuel' st lineNo in
      (out ++ rest, st)
  | _, _ => ([], st)
  end.
Definition closeClaudeMessages (st : parseState) (lineNo : Z) : list Candidate * parseState :=
  close_open (length (cl_Open (ps_claude st))) st lineNo.

(** The loop over the open responses: the index stays where a response was closed. *)
Fixpoint close_branch (fuel i : nat) (st : parseState) (parent : bytes) (lineNo : Z) : list Candidate * parseState :=
  match fuel, cl_Open (ps_claude st) !! i with
  | S fuel', Some msg =>
      if trail_has (op_Lineage msg) parent then
        let '(out, st) := closeClaudeMessage st i lineNo in
        let '(rest, st) := close_branch fuel' i st parent lineNo in
        (out ++ rest, st)
      else close_branch fuel' (S i) st parent lineNo
  | _, _ => ([], st)
  end.
Definition closeClaudeBranch (st : parseState) (parent : bytes) (lineNo : Z) : list Candidate * parseState :=
  if bool_decide (parent = []) then ([], st) else close_branch (length (cl_Open (ps_claude st))) 0 st parent lineNo.

Definition extend_lineage (uuid parent : bytes) (m : claudeMessage) : claudeMessage :=
  if trail_has (op_Lineage m) parent
  then mkClaudeMessage (op_Key m) (op_ID m) (op_Usage m) (op_OccurredAt m) (trail_add (op_Lineage m) uuid) else m.
Definition extendClaudeLineage (st : parseState) (uuid parent : bytes) : parseState :=
  if bool_decide (uuid = []) || bool_decide (parent = []) then st
  else set_open (map (extend_lineage uuid parent) (cl_Open (ps_claude st))) st.

Definition claudeOpenIndex (st : parseState) (key : Z) : option nat :=
  fst <$> list_find (fun m => op_Key m = key) (cl_Open (ps_claude st)).

(** ** Sessions *)

Definition Before (a b : gotime) : bool := (instant a <? instant b) || ((instant a =? instant b) && (t_nsec a <? t_nsec b)).

Definition enterClaudeSession (st : parseState) (id : bytes) (ts : gotime) (lineNo : Z) : list Candidate * parseState :=
  let s := ps_session st in
  let '(out, st) :=
    if bool_decide (sc_NativeID s = id) then ([], st)
    else
      let '(out, st) := if bool_decide (sc_NativeID s = []) then ([], st) else closeClaudeMessages st lineNo in
      (out, set_session (enter (ps_session st) id claudeProvider) st) in
  let s := ps_session st in
  if negb (sc_Started s) && negb (IsZero ts) && (IsZero (sc_StartedAt s) || Before ts (sc_StartedAt s))
  then (out, set_session (mkSession (sc_NativeID s) (sc_Provider s) ts (sc_Started s) (sc_Sessions s)) st)
  else (out, st).

(** ** Records *)

(** The record joins its response's branch and its usage replaces the response's. *)
Definition update_message (uuid : bytes) (usage : option claudeUsage) (ts : gotime) (m : claudeMessage) : claudeMessage :=
  let lineage := if bool_decide (uuid = []) then op_Lineage m else trail_add (op_Lineage m) uuid in
  match usage with
  | Some u => mkClaudeMessage (op_Key m) (op_ID m) u (if IsZero ts then op_OccurredAt m else ts) lineage
  | None => mkClaudeMessage (op_Key m) (op_ID m) (op_Usage m) (op_OccurredAt m) lineage
  end.

(** The response a record with this id belongs to, opened when it is new. *)
Definition open_response (st : parseState) (parent id : bytes) (lineNo : Z) : list Candidate * parseState * nat :=
  match claudeOpenIndex st (idHash id) with
  | Some i => ([], st, i)
  | None =>
      let '(out, st) := closeClaudeBranch st parent lineNo in
      let '(evicted, st) :=
        if zlen (cl_Open (ps_claude st)) =? maxOpenClaudeMessages then closeClaudeMessage st 0 lineNo else ([], st) in
      let open := cl_Open (ps_claude st) in
      (out ++ evicted, set_open (open ++ [mkClaudeMessage (idHash id) (joinKeyID id) no_usage zero_time []]) st, length open)
  end.

Definition claudeAssistant (st : parseState) (uuid parent : bytes) (m : claudeRecordMessage) (ts : gotime) (lineNo : Z)
    : list Candidate * parseState :=
  let '(start, st) := if isClaudeModel (rm_Model m) then startSession st (rm_Model m) ts lineNo else ([], st) in
  if bool_decide (rm_ID m = []) then
    match rm_Usage m with
    | Some u =>
        if hasTokens u then let '(out, st) := attribute st [claude_candidate u ts lineNo []] in (start ++ out, st) else (start, st)
    | None => (start, st)
    end
  else if idset_has (cl_Counted (ps_claude st)) (idHash (rm_ID m)) then (start, st)
  else
    let '(closed, st, i) := open_response st parent (rm_ID m) lineNo in
    let st := set_open (alter (update_message uuid (rm_Usage m) ts) i (cl_Open (ps_claude st))) st in
    if finished m then let '(out, st) := closeClaudeMessage st i lineNo in (start ++ closed ++ out, st)
    else (start ++ closed, st).

Section host.
Context {H : Type} `{Host H}.

(** One block. *)
Definition claude_block (st : parseState) (b : claudeContentBlock) (cfg : ReferenceConfig) (ts : gotime) (lineNo : Z) (h : H)
    : list Candidate * parseState * H :=
  if bool_decide (bk_Type b = str "tool_use") then
    let command := claudeToolCommand (bk_Input b) in
    let st := recordToolSurface st (bk_ID b) (bk_Name b) command in
    if bool_decide (command = []) then ([], st, h)
    else let '(out, h) := extractedCandidates TOOL_CALL (mkSurface (bk_Name b) command) cfg ts lineNo h in (out, st, h)
  else if bool_decide (bk_Type b = str "tool_result") then
    let tool := toolSurfaceFor st (bk_ToolUseID b) in
    let text := claudeResultText (bk_Content b) in
    if bool_decide (tool = []) || bool_decide (text = []) then ([], st, h)
    else let '(out, h) := extractedCandidates TOOL_RESULT (mkSurface tool text) cfg ts lineNo h in (out, st, h)
  else ([], st, h).

Fixpoint claudeToolCandidates (st : parseState) (blocks : list claudeContentBlock) (cfg : ReferenceConfig) (ts : gotime) (lineNo : Z) (h : H)
    : list Candidate * parseState * H :=
  match blocks with
  | [] => ([], st, h)
  | b :: l =>
      let '(out, st, h) := claude_block st b cfg ts lineNo h in
      let '(rest, st, h) := claudeToolCandidates st l cfg ts lineNo h in
      (out ++ rest, st, h)
  end.

(** What the record does to its response's branch. *)
Definition claude_record (st : parseState) (probe : formatProbe) (parent : bytes) (m : option claudeRecordMessage) (blocks : list claudeContentBlock)
    (ts : gotime) (lineNo : Z) : list Candidate * parseState :=
  match m with
  | Some m =>
      if bool_decide (fp_Type probe = str "assistant") then claudeAssistant st (fp_UUID probe) parent m ts lineNo
      else if bool_decide (fp_Type probe = str "user") && negb (fp_IsMeta probe) && negb (hasToolResult blocks)
      then closeClaudeBranch st parent lineNo
      else ([], st)
  | None => ([], st)
  end.

Definition parseClaudeLine (st : parseState) (probe : formatProbe) (lineNo : Z) (cfg : ReferenceConfig) (h : H) : list Candidate * parseState * H :=
  let ts := probeTime probe in
  let '(entered, st) :=
    if bool_decide (fp_SessionIDCamel probe = []) then ([], st) else enterClaudeSession st (fp_SessionIDCamel probe) ts lineNo in
  let m := unmarshal RecordMessageType record_message_of (fp_Message probe) in
  let blocks := match m with Some m => claudeBlocks (rm_Content m) | None => [] end in
  let parent := if bool_decide (fp_ParentUUID probe = []) then fp_LogicalParentUUID probe else fp_ParentUUID probe in
  let '(out, st) := claude_record st probe parent m blocks ts lineNo in
  let st := extendClaudeLineage st (fp_UUID probe) parent in
  match m with
  | None => (entered ++ out, st, h)
  | Some _ =>
      let '(tools, st, h) := claudeToolCandidates st blocks cfg ts lineNo h in
      let '(tools, st) := attribute st tools in
      (entered ++ out ++ tools, st, h)
  end.
End host.
