(* ===== verification/Parser.v ===== *)
(** * Parsing transcripts ([adapter/codex/parser.go])

    One line to the dialect that reads it, the normalised dialect, and the loop over a buffer's complete
    lines. [foldUpgradeCarry] of [rollout.go] is here too: what the bytes a cursor consumed before an
    upgrade say about their file. *)

From S2P Require Import Prelude GoStrings GoTime Json GoNet GoPath GoJson WireTypes StrictDecode BeadPrefix Fields Validate Evidence Policy Regex RefExtract.
From S2P Require Import Transcript Rollout Claude.

(** ** The normalised dialect *)

Record rawRecord : Type := mkRaw {
  rr_Type : bytes; rr_Timestamp : option gotime;
  rr_Role : bytes; rr_Text : bytes; rr_ByteCount : option Z; rr_TokenCount : option Z;
  rr_Tool : bytes; rr_Category : bytes; rr_Command : bytes; rr_Output : bytes; rr_Status : bytes;
  rr_ArgumentBytes : option Z; rr_ResultBytes : option Z;
  rr_Quality : bytes; rr_InputTokens : option Z; rr_OutputTokens : option Z; rr_CacheCreationTokens : option Z; rr_CacheReadTokens : option Z;
  rr_ProviderSource : bytes; rr_PriceTableVersion : bytes;
  rr_SessionID : bytes; rr_Provider : bytes; rr_Transition : bytes; rr_StartSource : bytes; rr_Model : bytes;
}.

Definition string_field (name json : String.string) : bytes * bytes * gotype := (str name, str json, TString).
Definition int_field (name json : String.string) : bytes * bytes * gotype := (str name, str json, TPtr (TInt 64)).

Definition RawRecordType : gotype := TStruct
  [string_field "Type" "type"; (str "Timestamp", str "ts", TPtr TTime);
   string_field "Role" "role"; string_field "Text" "text"; int_field "ByteCount" "byte_count"; int_field "TokenCount" "token_count";
   string_field "Tool" "tool"; string_field "Category" "category"; string_field "Command" "command"; string_field "Output" "output";
   string_field "Status" "status"; int_field "ArgumentBytes" "argument_bytes"; int_field "ResultBytes" "result_bytes";
   string_field "Quality" "quality"; int_field "InputTokens" "input_tokens"; int_field "OutputTokens" "output_tokens";
   int_field "CacheCreationTokens" "cache_creation_tokens"; int_field "CacheReadTokens" "cache_read_tokens";
   string_field "ProviderSource" "provider_source"; string_field "PriceTableVersion" "price_table_version";
   string_field "SessionID" "session_id"; string_field "Provider" "provider"; string_field "Transition" "transition";
   string_field "StartSource" "start_source"; string_field "Model" "model"].

Definition raw_of (v : goval) : rawRecord :=
  let s name := as_string (get RawRecordType name v) in
  let n name := opt_int (get RawRecordType name v) in
  mkRaw (s "Type"%string) (opt_time (get RawRecordType "Timestamp" v))
    (s "Role"%string) (s "Text"%string) (n "ByteCount"%string) (n "TokenCount"%string)
    (s "Tool"%string) (s "Category"%string) (s "Command"%string) (s "Output"%string) (s "Status"%string)
    (n "ArgumentBytes"%string) (n "ResultBytes"%string)
    (s "Quality"%string) (n "InputTokens"%string) (n "OutputTokens"%string) (n "CacheCreationTokens"%string) (n "CacheReadTokens"%string)
    (s "ProviderSource"%string) (s "PriceTableVersion"%string)
    (s "SessionID"%string) (s "Provider"%string) (s "Transition"%string) (s "StartSource"%string) (s "Model"%string).

Definition messageRole (s : bytes) : option bytes :=
  if bool_decide (s ∈ map str ["user"; "USER"]%string) then Some (str "USER")
  else if bool_decide (s ∈ map str ["assistant"; "ASSISTANT"]%string) then Some (str "ASSISTANT")
  else if bool_decide (s ∈ map str ["system"; "SYSTEM"]%string) then Some (str "SYSTEM")
  else if bool_decide (s ∈ map str ["tool"; "TOOL"]%string) then Some (str "TOOL")
  else None.

(** [v.Valid()] of the enum. *)
Definition enum_of (t : gotype) (s : bytes) : option bytes := if Valid t s then Some s else None.
Definition toolCallCategory : bytes -> option bytes := enum_of wire.ToolCallPayloadCategory.
Definition toolResultCategory : bytes -> option bytes := enum_of wire.ToolResultPayloadCategory.
Definition toolResultStatus : bytes -> option bytes := enum_of wire.ToolResultPayloadStatus.
Definition usageQuality : bytes -> option bytes := enum_of wire.UsagePayloadQuality.
Definition sessionTransition : bytes -> option bytes := enum_of wire.SessionLifecyclePayloadTransition.
Definition sessionStartSource : bytes -> option bytes := enum_of wire.SessionLifecyclePayloadStartSource.

(** A declared count, or the length of a text that is not empty. *)
Definition count_or_length (n : option Z) (text : bytes) : option Z :=
  match n with Some _ => n | None => if bool_decide (text = []) then None else Some (zlen text) end.

Definition parseMessage (rec : rawRecord) (ts : gotime) (lineNo : Z) : list Candidate :=
  match messageRole (rr_Role rec) with
  | None => [diagnosticCandidate ts lineNo (str "message record with unrecognized role")]
  | Some role =>
      [cand (KindMessage (mkMessageCandidate role (count_or_length (rr_ByteCount rec) (rr_Text rec)) (rr_TokenCount rec) (rr_Text rec))) ts lineNo]
  end.

Definition parseUsage (rec : rawRecord) (ts : gotime) (lineNo : Z) : list Candidate :=
  match usageQuality (rr_Quality rec) with
  | None => [diagnosticCandidate ts lineNo (str "usage record with unrecognized quality")]
  | Some quality =>
      [cand (KindUsage (mkUsage quality (rr_InputTokens rec) (rr_OutputTokens rec) (rr_CacheCreationTokens rec) (rr_CacheReadTokens rec)
                          (rr_ProviderSource rec) (rr_PriceTableVersion rec) [])) ts lineNo]
  end.

Definition parseSession (rec : rawRecord) (ts : gotime) (lineNo : Z) : list Candidate :=
  match sessionTransition (rr_Transition rec) with
  | None => [diagnosticCandidate ts lineNo (str "session record with unrecognized transition")]
  | Some transition =>
      match sessionStartSource (rr_StartSource rec) with
      | None => [diagnosticCandidate ts lineNo (str "session record with unrecognized start_source")]
      | Some startSource =>
          [cand (KindSessionLifecycle (mkSessionLifecycle (rr_SessionID rec) (rr_Provider rec) startSource transition (rr_Model rec))) ts lineNo]
      end
  end.

Definition malformed (lineNo : Z) : Candidate := diagnosticCandidate zero_time lineNo (str "malformed transcript line: not valid JSON").
Definition unsupported_type (ts : gotime) (lineNo : Z) : Candidate := diagnosticCandidate ts lineNo (str "unsupported transcript record type").

Definition isNormalizedType (t : bytes) : bool := bool_decide (t ∈ map str ["message"; "tool_call"; "tool_result"; "usage"; "session"]%string).

Section host.
Context {H : Type} `{Host H}.

Definition parseToolCall (rec : rawRecord) (ts : gotime) (lineNo : Z) (cfg : ReferenceConfig) (h : H) : list Candidate * H :=
  match toolCallCategory (rr_Category rec) with
  | None => ([diagnosticCandidate ts lineNo (str "tool_call record with unrecognized category")], h)
  | Some category =>
      let '(refs, h) := extractedCandidates TOOL_CALL (mkSurface (rr_Tool rec) (rr_Command rec)) cfg ts lineNo h in
      (cand (KindToolCall (mkToolCallCandidate category (count_or_length (rr_ArgumentBytes rec) (rr_Command rec)) (rr_Command rec) [] ∅ [] [])) ts lineNo :: refs, h)
  end.

Definition parseToolResult (rec : rawRecord) (ts : gotime) (lineNo : Z) (cfg : ReferenceConfig) (h : H) : list Candidate * H :=
  match toolResultCategory (rr_Category rec) with
  | None => ([diagnosticCandidate ts lineNo (str "tool_result record with unrecognized category")], h)
  | Some category =>
      match toolResultStatus (rr_Status rec) with
      | None => ([diagnosticCandidate ts lineNo (str "tool_result record with unrecognized status")], h)
      | Some status =>
          let '(refs, h) := extractedCandidates TOOL_RESULT (mkSurface (rr_Tool rec) (rr_Output rec)) cfg ts lineNo h in
          (cand (KindToolResult (mkToolResultCandidate category status (count_or_length (rr_ResultBytes rec) (rr_Output rec)) (rr_Output rec))) ts lineNo :: refs, h)
      end
  end.

Definition parseNormalizedLine (line : bytes) (lineNo : Z) (cfg : ReferenceConfig) (h : H) : list Candidate * H :=
  match raw_of <$> Unmarshal line RawRecordType with
  | None => ([malformed lineNo], h)
  | Some rec =>
      let ts := default zero_time (rr_Timestamp rec) in
      if bool_decide (rr_Type rec = str "message") then (parseMessage rec ts lineNo, h)
      else if bool_decide (rr_Type rec = str "tool_call") then parseToolCall rec ts lineNo cfg h
      else if bool_decide (rr_Type rec = str "tool_result") then parseToolResult rec ts lineNo cfg h
      else if bool_decide (rr_Type rec = str "usage") then (parseUsage rec ts lineNo, h)
      else if bool_decide (rr_Type rec = str "session") then (parseSession rec ts lineNo, h)
      else ([unsupported_type ts lineNo], h)
  end.

(** ** Lines *)

Definition parseLine (st : parseState) (line : bytes) (lineNo : Z) (cfg : ReferenceConfig) (h : H) : list Candidate * parseState * H :=
  match probe_of <$> Unmarshal line ProbeType with
  | None => ([malformed lineNo], st, h)
  | Some probe =>
      if isNormalizedType (fp_Type probe) then let '(out, h) := parseNormalizedLine line lineNo cfg h in (out, st, h)
      else if bool_decide (is_Some (fp_Payload probe)) then parseRolloutLine st probe lineNo cfg h
      else if negb (bool_decide (fp_SessionIDCamel probe = [])) || bool_decide (is_Some (fp_Message probe)) then parseClaudeLine st probe lineNo cfg h
      else if isClaudeBookkeepingType (fp_Type probe) then ([], st, h)
      else ([unsupported_type (probeTime probe) lineNo], st, h)
  end.

(** The response an upgraded cursor left uncounted, before the first line. *)
Definition emit_pending (st : parseState) (lineNo : Z) : list Candidate * parseState :=
  match ro_Pending (ps_rollout st) with
  | None => ([], st)
  | Some p => attribute (set_rollout (with_pending None (ps_rollout st)) st) (pending_candidates p lineNo)
  end.

(** The body of the loop, for one complete line. *)
Definition parse_one (cfg : ReferenceConfig) (st : parseState) (line : bytes) (lineNo : Z) (h : H) : list Candidate * parseState * H :=
  let trimmed := TrimSpace line in
  if bool_decide (trimmed = []) then ([], st, h)
  else
    let '(pending, st) := emit_pending st lineNo in
    let '(out, st, h) := parseLine st trimmed lineNo cfg h in
    (pending ++ stamp st out, st, h).

(** The loop: [lineNo] lines were read; what is left is an incomplete line. *)
Fixpoint parse_lines (fuel : nat) (cfg : ReferenceConfig) (st : parseState) (data : bytes) (lineNo : Z) (h : H)
    : list Candidate * bytes * Z * parseState * H :=
  match fuel with
  | O => ([], data, lineNo, st, h)
  | S fuel' =>
      match cut x0a data with
      | (_, None) => ([], data, lineNo, st, h)
      | (line, Some rest) =>
          let '(out, st, h) := parse_one cfg st line (lineNo + 1) h in
          let '(more, rest, lineNo, st, h) := parse_lines fuel' cfg st rest (lineNo + 1) h in
          (out ++ more, rest, lineNo, st, h)
      end
  end.

Record ParseResult : Type := mkParseResult { px_Candidates : list Candidate; px_Consumed : Z; px_carry : transcriptCarry }.

Definition parse (data : bytes) (cfg : ReferenceConfig) (carry : transcriptCarry) (complete : bool) (h : H) : ParseResult * H :=
  let '(cands, rest, lineNo, st, h) := parse_lines (length data) cfg (newParseState carry) data 0 h in
  let '(closed, st) := if complete then closeClaudeMessages st lineNo else ([], st) in
  (mkParseResult (cands ++ closed) (zlen data - zlen rest) (ps_carry st), h).

Definition Parse (data : bytes) (cfg : ReferenceConfig) (h : H) : ParseResult * H := parse data cfg no_carry true h.
Definition parseWithCarry (data : bytes) (cfg : ReferenceConfig) (carry : transcriptCarry) (h : H) : ParseResult * H := parse data cfg carry false h.

(** [None]: the reader failed. *)
Definition ParseReader (read : option bytes) (cfg : ReferenceConfig) (h : H) : option ParseResult * H :=
  match read with None => (None, h) | Some data => let '(r, h) := Parse data cfg h in (Some r, h) end.
End host.

Definition is_diagnostic (c : Candidate) : bool := match ca_Kind c with KindDiagnostic _ => true | _ => false end.
Definition Diagnostics (r : ParseResult) : list Candidate := filter (fun c => is_diagnostic c = true) (px_Candidates r).

(** ** The upgrade of a cursor *)

Record upgradeFold : Type := mkFold { uf_rollout : rolloutCarry; uf_session : sessionCarry; uf_counted : list Z; uf_metaSeen : bool }.
Definition no_fold : upgradeFold := mkFold no_rollout no_session [] false.

Definition maxUpgradeSessionLines : Z := 64.

Definition MessageIDType : gotype := TStruct [(str "ID", str "id", TString)].

(** [bytes.Contains]. *)
Fixpoint Contains (s sub : bytes) : bool := HasPrefix s sub || match s with [] => false | _ :: r => Contains r sub end.

Definition with_rollout (r : rolloutCarry) (f : upgradeFold) : upgradeFold := mkFold r (uf_session f) (uf_counted f) (uf_metaSeen f).

(** A Claude record: the session it moves to, already started, and the response it counts. *)
Definition fold_claude (probe : formatProbe) (f : upgradeFold) : upgradeFold :=
  let session :=
    if bool_decide (sc_NativeID (uf_session f) = fp_SessionIDCamel probe) then uf_session f
    else markStarted (enter (uf_session f) (fp_SessionIDCamel probe) claudeProvider) in
  let counted :=
    if bool_decide (fp_Type probe = str "assistant") then
      match unmarshal MessageIDType (fun v => as_string (get MessageIDType "ID" v)) (fp_Message probe) with
      | Some id => if bool_decide (id = []) then uf_counted f else (idset_add (uf_counted f) (idHash id)).1
      | None => uf_counted f
      end
    else uf_counted f in
  mkFold (uf_rollout f) session counted (uf_metaSeen f).

Definition fold_meta (probe : formatProbe) (withRollout : bool) (f : upgradeFold) : upgradeFold :=
  match unmarshal MetaType meta_of (fp_Payload probe) with
  | None => f
  | Some (id, version) =>
      if bool_decide (id = []) || uf_metaSeen f then f
      else mkFold (if withRollout && writesUsageRecords version then record_mode (uf_rollout f) else uf_rollout f)
             (markStarted (mkSession id rolloutProvider (probeTime probe) false [])) (uf_counted f) true
  end.

Definition fold_usage_record (probe : formatProbe) (r : rolloutCarry) : rolloutCarry :=
  let r := with_pending None (record_mode r) in
  match unmarshal UsageRecordType usage_record_of (fp_Payload probe) with
  | Some (responseID, Some usage) =>
      if work usage =? 0 then r else with_pending (Some (mkPendingUsage (response_id responseID) usage (probeTime probe))) r
  | _ => r
  end.

Definition fold_event (probe : formatProbe) (r : rolloutCarry) : rolloutCarry :=
  match unmarshal EventType event_of (fp_Payload probe) with
  | Some (kind, total, Some _) =>
      if negb (bool_decide (kind = str "token_count")) then r
      else
        let r := with_pending None r in
        match total with
        | Some t => if ro_RecordMode r then r else with_total (signature t) r
        | None => r
        end
  | _ => r
  end.

Definition foldUpgradeLine (line : bytes) (f : upgradeFold) (withRollout : bool) : upgradeFold :=
  if bool_decide (line = []) then f
  else if negb withRollout && bool_decide (sc_Provider (uf_session f) = claudeProvider)
          && negb (Contains line (writeCanonicalString (str "assistant"))) && Contains line (sc_NativeID (uf_session f)) then f
  else
    match probe_of <$> Unmarshal line ProbeType with
    | None => f
    | Some probe =>
        let f := if negb (bool_decide (fp_SessionIDCamel probe = [])) && bool_decide (fp_Payload probe = None) then fold_claude probe f else f in
        if bool_decide (fp_Type probe = str "session_meta") then fold_meta probe withRollout f
        else if bool_decide (fp_Type probe = str "token_usage_record") then
          if withRollout then with_rollout (fold_usage_record probe (uf_rollout f)) f else f
        else if bool_decide (fp_Type probe = str "event_msg") then
          if withRollout then with_rollout (fold_event probe (uf_rollout f)) f else f
        else f
    end.

(** The loop: a line longer than [maxLine], its newline counted, is skipped; [readable] tells whether the reader ends or fails. *)
Fixpoint fold_lines (fuel : nat) (maxLine : Z) (withRollout readable : bool) (data : bytes) (lines : Z) (f : upgradeFold) : option upgradeFold :=
  match fuel with
  | O => if readable then Some f else None
  | S fuel' =>
      match cut x0a data with
      | (_, None) => if readable then Some f else None
      | (line, Some rest) =>
          let f := if maxLine <? zlen line + 1 then f else foldUpgradeLine (TrimSpace line) f withRollout in
          let lines := lines + 1 in
          if negb withRollout && (bool_decide (sc_Provider (uf_session f) = rolloutProvider)
                                  || bool_decide (sc_NativeID (uf_session f) = []) && (maxUpgradeSessionLines <=? lines))
          then Some f
          else fold_lines fuel' maxLine withRollout readable rest lines f
      end
  end.
Definition foldUpgradeCarry (data : bytes) (readable : bool) (maxLine : Z) (withRollout : bool) : option upgradeFold :=
  fold_lines (length data) maxLine withRollout readable data 0 no_fold.
