(* ===== verification/ParseSplit.v ===== *)
(** * Parsing a file in pieces ([Parser.parse])

    What a transcript is billed for, its usage and its session starts, depends on the file alone: not on
    how it is cut into buffers, nor on the extraction configuration, nor on the caller's hooks. *)

From S2P Require Import Prelude GoStrings GoTime Json GoNet GoPath GoJson StrictDecode BeadPrefix Fields Validate Evidence Policy Regex RefExtract.
From S2P Require Import Transcript Rollout Claude Parser.

(** ** What is billed *)

Definition billed (c : Candidate) : bool := is_usage c || is_lifecycle c.
Definition unnumbered (c : Candidate) : Candidate := mkCandidate (ca_Kind c) (ca_OccurredAt c) 0 (ca_Session c).

(** Usage and starts, without their line numbers. *)
Definition bill (cs : list Candidate) : list Candidate := map unnumbered (filter (fun c => billed c = true) cs).

#[global] Arguments bill : simpl never.

Lemma bill_app l k : bill (l ++ k) = bill l ++ bill k.
Proof. unfold bill. by rewrite filter_app, map_app. Qed.

Lemma bill_cons c l : bill (c :: l) = if billed c then unnumbered c :: bill l else bill l.
Proof. unfold bill. rewrite filter_cons. destruct (billed c) eqn:E; [by rewrite decide_True|by rewrite decide_False]. Qed.

Lemma bill_none cs : Forall (fun c => billed c = false) cs -> bill cs = [].
Proof. induction 1 as [|c l Hc _ IH]; [done|]. by rewrite bill_cons, Hc. Qed.

Lemma bill_twice cs : bill (bill cs) = bill cs.
Proof.
  induction cs as [|c l IH]; [done|]. rewrite bill_cons. destruct (billed c) eqn:E; [|done]. rewrite bill_cons.
  change (billed (unnumbered c)) with (billed c). by rewrite E, IH.
Qed.

(** Two results that agree on what is billed and on what is carried. *)
Definition agree (r r' : list Candidate * parseState) : Prop := bill r.1 = bill r'.1 /\ ps_carry r.2 = ps_carry r'.2.

Section agree.
Context (st st' : parseState) (Hst : ps_carry st = ps_carry st').

Lemma same_session : ps_session st = ps_session st'.
Proof. unfold ps_session. by rewrite Hst. Qed.
Lemma same_rollout : ps_rollout st = ps_rollout st'.
Proof. unfold ps_rollout. by rewrite Hst. Qed.
Lemma same_claude : ps_claude st = ps_claude st'.
Proof. unfold ps_claude. by rewrite Hst. Qed.

Lemma same_set_session s : ps_carry (set_session s st) = ps_carry (set_session s st').
Proof. cbn. by rewrite same_rollout, same_claude. Qed.
Lemma same_set_rollout r : ps_carry (set_rollout r st) = ps_carry (set_rollout r st').
Proof. cbn. by rewrite same_session, same_claude. Qed.
Lemma same_set_claude c : ps_carry (set_claude c st) = ps_carry (set_claude c st').
Proof. cbn. by rewrite same_session, same_rollout. Qed.
Lemma same_set_open l : ps_carry (set_open l st) = ps_carry (set_open l st').
Proof. unfold set_open. cbn. by rewrite same_session, same_rollout, same_claude. Qed.

Lemma agree_nil : agree ([], st) ([], st').
Proof. done. Qed.

Lemma startSession_agree m ts n n' : agree (startSession st m ts n) (startSession st' m ts n').
Proof.
  unfold startSession. rewrite same_session. destruct (_ || _); [done|]. split; [done|]. apply same_set_session.
Qed.
End agree.

Lemma agree_refl r : agree r r.
Proof. done. Qed.
Lemma agree_sym r r' : agree r r' -> agree r' r.
Proof. unfold agree. by intros [-> ->]. Qed.
Lemma agree_trans r r' r'' : agree r r' -> agree r' r'' -> agree r r''.
Proof. unfold agree. by intros [-> ->] [-> ->]. Qed.

(** One result after another. *)
Lemma agree_then out out' o o' st st' : agree (out, st) (out', st') -> bill o = bill o' -> agree (o ++ out, st) (o' ++ out', st').
Proof. intros [H1 H2] Ho. split; [|done]. cbn in *. by rewrite !bill_app, Ho, H1. Qed.

Lemma attribute_bill st cs : agree (attribute st cs) (attribute st (bill cs)).
Proof.
  revert st. induction cs as [|c l IH]; intros st; [done|]. rewrite bill_cons. cbn [attribute]. destruct (billed c) eqn:E.
  - cbn [attribute]. change (is_usage (unnumbered c)) with (is_usage c).
    pose proof (startSession_agree st st eq_refl [] (ca_OccurredAt c) (ca_LineNumber c) 0) as Hs.
    destruct (if is_usage c then startSession st [] (ca_OccurredAt c) (ca_LineNumber c) else ([], st)) as [s1 st1] eqn:E1.
    destruct (if is_usage c then startSession st [] (ca_OccurredAt (unnumbered c)) (ca_LineNumber (unnumbered c)) else ([], st)) as [s2 st2] eqn:E2.
    assert (Hs12 : agree (s1, st1) (s2, st2)) by (destruct (is_usage c); [by rewrite <-E1, <-E2|by simplify_eq]).
    destruct Hs12 as [Hb Hc]. cbn in Hb, Hc.
    assert (Hst2 : st1 = st2).
    { revert E1 E2. destruct (is_usage c); [|by intros [= <- <-] [= <- <-]]. unfold startSession. destruct (_ || _); by intros [= <- <-] [= <- <-]. }
    subst st2. destruct (IH st1) as [H1 H2]. destruct (attribute st1 l) as [o1 t1], (attribute st1 (bill l)) as [o2 t2]. cbn in *.
    split; [|done]. cbn. rewrite !bill_app, !bill_cons, Hb, H1.
    assert (Hw : forall x, unnumbered (with_session x c) = unnumbered (with_session x (unnumbered c))) by (intros x; unfold with_session; cbn; by destruct (ca_Session c)).
    assert (Hbw : forall x y, ca_Kind x = ca_Kind y -> billed x = billed y) by (intros x y Hk; unfold billed, is_usage, is_lifecycle; by rewrite Hk).
    rewrite Hw, (Hbw (with_session _ c) (with_session (session_ref (ps_session st1)) (unnumbered c))); [done|]. unfold with_session. cbn. by destruct (ca_Session c).
  - assert (is_usage c = false) as -> by (unfold billed in E; by destruct (is_usage c)). destruct (IH st) as [H1 H2].
    destruct (attribute st l) as [o1 t1]. split; [|done]. cbn in *. rewrite bill_cons.
    assert (billed (with_session (session_ref (ps_session st)) c) = false) as -> by (unfold with_session, billed, is_usage, is_lifecycle in *; by destruct (ca_Session c)).
    done.
Qed.

Lemma attribute_same st st' cs : ps_carry st = ps_carry st' -> agree (attribute st cs) (attribute st' cs).
Proof.
  revert st st'. induction cs as [|c l IH]; intros st st' Hst; [done|]. cbn [attribute].
  assert (Hs : (if is_usage c then startSession st [] (ca_OccurredAt c) (ca_LineNumber c) else ([], st)).1
      = (if is_usage c then startSession st' [] (ca_OccurredAt c) (ca_LineNumber c) else ([], st')).1
    /\ ps_carry (if is_usage c then startSession st [] (ca_OccurredAt c) (ca_LineNumber c) else ([], st)).2
      = ps_carry (if is_usage c then startSession st' [] (ca_OccurredAt c) (ca_LineNumber c) else ([], st')).2).
  { destruct (is_usage c); [|done]. unfold startSession. rewrite (same_session st st') by done. destruct (_ || _); [done|]. split; [done|by apply same_set_session]. }
  destruct (if is_usage c then startSession st _ _ _ else _) as [s1 st1], (if is_usage c then startSession st' _ _ _ else _) as [s2 st2].
  destruct Hs as [Hs1 Hs2]. cbn [fst snd] in Hs1, Hs2. subst s2. pose proof (IH st1 st2 Hs2) as [H1 H2].
  destruct (attribute st1 l) as [o1 t1], (attribute st2 l) as [o2 t2]. cbn [fst snd] in *. split; [|done]. cbn [fst].
  rewrite !bill_app, !bill_cons, H1. by rewrite (same_session st1 st2).
Qed.

Lemma attribute_agree st st' cs cs' : ps_carry st = ps_carry st' -> bill cs = bill cs' -> agree (attribute st cs) (attribute st' cs').
Proof.
  intros Hst Hb. eapply agree_trans; [apply attribute_bill|]. rewrite Hb. eapply agree_trans; [by apply attribute_same|]. apply agree_sym, attribute_bill.
Qed.

(** Nothing billed stays nothing billed, and changes nothing. *)
Lemma attribute_none st cs : Forall (fun c => billed c = false) cs -> bill (attribute st cs).1 = [] /\ (attribute st cs).2 = st.
Proof.
  induction 1 as [|c l Hc _ [IH1 IH2]]; [done|]. cbn [attribute]. assert (is_usage c = false) as -> by (unfold billed in Hc; by destruct (is_usage c)).
  destruct (attribute st l) as [o t]. cbn [fst snd app] in *. split; [|done]. rewrite bill_cons.
  assert (billed (with_session (session_ref (ps_session st)) c) = false) as -> by (unfold with_session, billed, is_usage, is_lifecycle in *; by destruct (ca_Session c)).
  done.
Qed.

Lemma stamp_agree st st' cs cs' : ps_carry st = ps_carry st' -> bill cs = bill cs' -> bill (stamp st cs) = bill (stamp st' cs').
Proof.
  intros Hst. unfold stamp. rewrite (same_session st st' Hst). destruct (session_ref _) as [ref|]; [|done].
  set (g := fun c : Candidate => if is_lifecycle c then c else with_session (Some ref) c).
  assert (H : forall l, bill (map g l) = map g (bill l)).
  { induction l as [|c l IH]; [done|]. cbn [map]. rewrite !bill_cons, IH.
    assert (Hk : ca_Kind (g c) = ca_Kind c) by (unfold g, with_session; destruct (is_lifecycle c); [done|by destruct (ca_Session c)]).
    assert (billed (g c) = billed c) as -> by (unfold billed, is_usage, is_lifecycle; by rewrite Hk).
    destruct (billed c); [|done]. cbn [map]. f_equal. unfold g. change (is_lifecycle (unnumbered c)) with (is_lifecycle c).
    destruct (is_lifecycle c); [done|]. unfold with_session. cbn. by destruct (ca_Session c). }
  rewrite !H. by intros ->.
Qed.

Lemma extracted_unbilled {H} `{Host H} surface s cfg ts n (h : H) : Forall (fun c => billed c = false) (extractedCandidates surface s cfg ts n h).1.
Proof.
  unfold extractedCandidates. destruct (ExtractReferences surface s cfg h) as [[refs diags] h']. cbn [fst]. apply Forall_app.
  split; apply Forall_forall; intros c (x&<-&_)%list_elem_of_In%in_map_iff; [by destruct x|done].
Qed.

(** ** Claude *)

Lemma closeClaudeMessage_agree st st' i n n' : ps_carry st = ps_carry st' -> agree (closeClaudeMessage st i n) (closeClaudeMessage st' i n').
Proof.
  intros Hst. unfold closeClaudeMessage. rewrite (same_claude st st' Hst). destruct (cl_Open (ps_claude st') !! i) as [msg|]; [|done].
  set (st1 := set_open _ st). set (st1' := set_open _ st'). assert (H1 : ps_carry st1 = ps_carry st1') by (by apply same_set_open).
  rewrite (same_claude st1 st1' H1). destruct (count _ _) as [c new]. pose proof (same_set_claude st1 st1' H1 c) as H2.
  destruct (_ || _); [done|]. apply attribute_agree; [done|]. rewrite !bill_cons. done.
Qed.

Lemma agree_pair r r' : agree r r' -> exists o t o' t', r = (o, t) /\ r' = (o', t') /\ bill o = bill o' /\ ps_carry t = ps_carry t'.
Proof. destruct r as [o t], r' as [o' t']. intros [H1 H2]. by exists o, t, o', t'. Qed.

Lemma close_open_agree fuel st st' n n' : ps_carry st = ps_carry st' -> agree (close_open fuel st n) (close_open fuel st' n').
Proof.
  revert st st'. induction fuel as [|fuel IH]; intros st st' Hst; [done|]. cbn [close_open]. rewrite (same_claude st st' Hst).
  destruct (cl_Open (ps_claude st')); [done|].
  destruct (agree_pair _ _ (closeClaudeMessage_agree st st' 0 n n' Hst)) as (o&t&o'&t'&->&->&Ho&Ht).
  destruct (agree_pair _ _ (IH t t' Ht)) as (r&u&r'&u'&->&->&Hr&Hu). split; [|done]. cbn [fst]. by rewrite !bill_app, Ho, Hr.
Qed.

Lemma closeClaudeMessages_agree st st' n n' : ps_carry st = ps_carry st' -> agree (closeClaudeMessages st n) (closeClaudeMessages st' n').
Proof. intros Hst. unfold closeClaudeMessages. rewrite (same_claude st st' Hst). by apply close_open_agree. Qed.

Lemma close_branch_agree fuel i st st' parent n n' : ps_carry st = ps_carry st' -> agree (close_branch fuel i st parent n) (close_branch fuel i st' parent n').
Proof.
  revert i st st'. induction fuel as [|fuel IH]; intros i st st' Hst; [done|]. cbn [close_branch]. rewrite (same_claude st st' Hst).
  destruct (cl_Open (ps_claude st') !! i) as [msg|]; [|done]. destruct (trail_has _ _); [|by apply IH].
  destruct (agree_pair _ _ (closeClaudeMessage_agree st st' i n n' Hst)) as (o&t&o'&t'&->&->&Ho&Ht).
  destruct (agree_pair _ _ (IH i t t' Ht)) as (r&u&r'&u'&->&->&Hr&Hu). split; [|done]. cbn [fst]. by rewrite !bill_app, Ho, Hr.
Qed.

Lemma closeClaudeBranch_agree st st' parent n n' : ps_carry st = ps_carry st' -> agree (closeClaudeBranch st parent n) (closeClaudeBranch st' parent n').
Proof.
  intros Hst. unfold closeClaudeBranch. case_bool_decide; [done|]. rewrite (same_claude st st' Hst). by apply close_branch_agree.
Qed.

Lemma extendClaudeLineage_same st st' uuid parent : ps_carry st = ps_carry st' ->
  ps_carry (extendClaudeLineage st uuid parent) = ps_carry (extendClaudeLineage st' uuid parent).
Proof. intros Hst. unfold extendClaudeLineage. destruct (_ || _); [done|]. rewrite (same_claude st st' Hst). by apply same_set_open. Qed.

Lemma enterClaudeSession_agree st st' id ts n n' : ps_carry st = ps_carry st' -> agree (enterClaudeSession st id ts n) (enterClaudeSession st' id ts n').
Proof.
  intros Hst. unfold enterClaudeSession. rewrite (same_session st st' Hst).
  set (r := if bool_decide (sc_NativeID (ps_session st') = id) then ([], st) else _).
  set (r' := if bool_decide (sc_NativeID (ps_session st') = id) then ([], st') else _).
  assert (Hr : agree r r').
  { subst r r'. case_bool_decide; [done|].
    assert (Hc : agree (if bool_decide (sc_NativeID (ps_session st') = []) then ([], st) else closeClaudeMessages st n)
                       (if bool_decide (sc_NativeID (ps_session st') = []) then ([], st') else closeClaudeMessages st' n'))
      by (case_bool_decide; [done|by apply closeClaudeMessages_agree]).
    destruct (agree_pair _ _ Hc) as (o&t&o'&t'&->&->&Ho&Ht). split; [done|]. cbn [snd]. rewrite (same_session t t' Ht). by apply same_set_session. }
  destruct (agree_pair _ _ Hr) as (o&t&o'&t'&->&->&Ho&Ht). rewrite (same_session t t' Ht).
  destruct (_ && _); (split; [done|]); [|done]. by apply same_set_session.
Qed.

Lemma open_response_agree st st' parent id n n' : ps_carry st = ps_carry st' ->
  agree (open_response st parent id n).1 (open_response st' parent id n').1 /\ (open_response st parent id n).2 = (open_response st' parent id n').2.
Proof.
  intros Hst. unfold open_response, claudeOpenIndex. rewrite (same_claude st st' Hst). destruct (fst <$> _) as [i|]; [done|].
  destruct (agree_pair _ _ (closeClaudeBranch_agree st st' parent n n' Hst)) as (o&t&o'&t'&->&->&Ho&Ht). rewrite (same_claude t t' Ht).
  assert (He : agree (if zlen (cl_Open (ps_claude t')) =? maxOpenClaudeMessages then closeClaudeMessage t 0 n else ([], t))
                     (if zlen (cl_Open (ps_claude t')) =? maxOpenClaudeMessages then closeClaudeMessage t' 0 n' else ([], t')))
    by (destruct (_ =? _); [by apply closeClaudeMessage_agree|done]).
  destruct (agree_pair _ _ He) as (e&u&e'&u'&->&->&Hb&Hu). rewrite (same_claude u u' Hu). split; [|done]. split; cbn [fst snd].
  - by rewrite !bill_app, Ho, Hb.
  - by apply same_set_open.
Qed.

Lemma claudeAssistant_agree st st' uuid parent m ts n n' : ps_carry st = ps_carry st' ->
  agree (claudeAssistant st uuid parent m ts n) (claudeAssistant st' uuid parent m ts n').
Proof.
  intros Hst. unfold claudeAssistant.
  assert (Hs : agree (if isClaudeModel (rm_Model m) then startSession st (rm_Model m) ts n else ([], st))
                     (if isClaudeModel (rm_Model m) then startSession st' (rm_Model m) ts n' else ([], st')))
    by (destruct (isClaudeModel _); [by apply startSession_agree|done]).
  destruct (agree_pair _ _ Hs) as (s&t&s'&t'&->&->&Ho&Ht). case_bool_decide.
  - destruct (rm_Usage m) as [u|]; [|done]. destruct (hasTokens u); [|done].
    destruct (agree_pair _ _ (attribute_agree t t' [claude_candidate u ts n []] [claude_candidate u ts n' []] Ht eq_refl)) as (o&v&o'&v'&->&->&Hb&Hv).
    split; [|done]. cbn [fst]. by rewrite !bill_app, Ho, Hb.
  - rewrite (same_claude t t' Ht). destruct (idset_has _ _); [done|].
    pose proof (open_response_agree t t' parent (rm_ID m) n n' Ht) as [Hr Hi].
    destruct (open_response t parent (rm_ID m) n) as [[c u] i], (open_response t' parent (rm_ID m) n') as [[c' u'] i']. cbn [fst snd] in Hr, Hi.
    destruct Hr as [Hc Hu]. cbn [fst snd] in Hc, Hu. subst i'. rewrite (same_claude u u' Hu).
    set (v := set_open _ u). set (v' := set_open _ u'). assert (Hv : ps_carry v = ps_carry v') by (by apply same_set_open). destruct (finished m).
    + destruct (agree_pair _ _ (closeClaudeMessage_agree v v' i n n' Hv)) as (o&w&o'&w'&->&->&Hb&Hw). split; [|done]. cbn [fst]. by rewrite !bill_app, Ho, Hc, Hb.
    + split; [|done]. cbn [fst]. by rewrite !bill_app, Ho, Hc.
Qed.

Lemma recordToolSurface_carry st id name command : ps_carry (recordToolSurface st id name command) = ps_carry st.
Proof. unfold recordToolSurface. by case_bool_decide. Qed.

Lemma claude_record_agree st st' probe parent m blocks ts n n' : ps_carry st = ps_carry st' ->
  agree (claude_record st probe parent m blocks ts n) (claude_record st' probe parent m blocks ts n').
Proof.
  intros Hst. unfold claude_record. destruct m as [m|]; [|done]. case_bool_decide; [by apply claudeAssistant_agree|]. destruct (_ && _ && _); [by apply closeClaudeBranch_agree|done].
Qed.

(** ** Lines *)

Section hosts.
Context {V V' : Type} {HV : Host V} {HV' : Host V'}.

(** Tool surfaces bill nothing and carry nothing. *)
Definition idle {W} (st : parseState) (r : list Candidate * parseState * W) : Prop :=
  Forall (fun c => billed c = false) r.1.1 /\ ps_carry r.1.2 = ps_carry st.

Lemma response_item_idle st payload cfg ts n (h : V) : idle st (parseRolloutResponseItem st payload cfg ts n h).
Proof.
  unfold parseRolloutResponseItem. destruct (unmarshal _ _ _) as [[kind callID]|]; [|done]. case_bool_decide; [done|]. case_bool_decide.
  - destruct (rolloutCallCommand _ _) as [name command]. case_bool_decide; [done|].
    pose proof (extracted_unbilled TOOL_CALL (mkSurface name command) cfg ts n h) as Hu. destruct (extractedCandidates _ _ _ _ _ _) as [out h'].
    split; [exact Hu|apply recordToolSurface_carry].
  - case_bool_decide; [|done]. case_bool_decide; [done|]. destruct (unmarshal OutputItemType _ _) as [raw|]; [|done]. case_bool_decide; [done|].
    match goal with |- idle _ (let '(_, _) := extractedCandidates ?a ?b _ _ _ _ in _) => pose proof (extracted_unbilled a b cfg ts n h) as Hu end.
    destruct (extractedCandidates _ _ _ _ _ _) as [out h']. by split.
Qed.

Lemma claude_block_idle st b cfg ts n (h : V) : idle st (claude_block st b cfg ts n h).
Proof.
  unfold claude_block. case_bool_decide.
  - case_bool_decide; [split; [done|apply recordToolSurface_carry]|].
    match goal with |- idle _ (let '(_, _) := extractedCandidates ?a ?b _ _ _ _ in _) => pose proof (extracted_unbilled a b cfg ts n h) as Hu end.
    destruct (extractedCandidates _ _ _ _ _ _) as [out h']. split; [exact Hu|apply recordToolSurface_carry].
  - case_bool_decide; [|done]. destruct (_ || _); [done|].
    match goal with |- idle _ (let '(_, _) := extractedCandidates ?a ?b _ _ _ _ in _) => pose proof (extracted_unbilled a b cfg ts n h) as Hu end.
    destruct (extractedCandidates _ _ _ _ _ _) as [out h']. by split.
Qed.

Lemma tools_idle blocks cfg ts n : forall st (h : V), idle st (claudeToolCandidates st blocks cfg ts n h).
Proof.
  induction blocks as [|b l IH]; intros st h; [done|]. cbn [claudeToolCandidates]. pose proof (claude_block_idle st b cfg ts n h) as [H1 H2].
  destruct (claude_block st b cfg ts n h) as [[o t] h1]. pose proof (IH t h1) as [H3 H4]. destruct (claudeToolCandidates t l cfg ts n h1) as [[r u] h2].
  cbn [fst snd] in *. split; cbn [fst snd]; [by apply Forall_app|congruence].
Qed.

(** Attribution of what bills nothing. *)
Lemma attribute_idle {W} st (r : list Candidate * parseState * W) : idle st r ->
  bill (attribute r.1.2 r.1.1).1 = [] /\ ps_carry (attribute r.1.2 r.1.1).2 = ps_carry st.
Proof. intros [H1 H2]. destruct (attribute_none r.1.2 r.1.1 H1) as [-> ->]. done. Qed.
End hosts.

Section two.
Context {V V' : Type} {HV : Host V} {HV' : Host V'}.

Lemma parse_session_meta_same st st' payload ts : ps_carry st = ps_carry st' ->
  ps_carry (parse_session_meta st payload ts) = ps_carry (parse_session_meta st' payload ts).
Proof.
  intros Hst. unfold parse_session_meta. destruct (unmarshal _ _ _) as [[id version]|]; [|done]. rewrite (same_session st st' Hst). destruct (_ || _); [done|].
  destruct (writesUsageRecords version); [|by apply same_set_session]. apply same_set_session. rewrite (same_rollout st st' Hst). by apply same_set_rollout.
Qed.

Lemma parse_turn_context_agree st st' payload ts n n' : ps_carry st = ps_carry st' -> agree (parse_turn_context st payload ts n) (parse_turn_context st' payload ts n').
Proof.
  intros Hst. unfold parse_turn_context. destruct (unmarshal _ _ _) as [model|]; [|done]. case_bool_decide; [done|by apply startSession_agree].
Qed.

Lemma usage_candidates_bill u ts n n' m : bill (usage_candidates u ts n m) = bill (usage_candidates u ts n' m).
Proof. unfold usage_candidates. destruct (_ =? _); [done|]. by rewrite !bill_cons. Qed.

Lemma parse_usage_record_agree st st' payload ts n n' : ps_carry st = ps_carry st' -> agree (parse_usage_record st payload ts n) (parse_usage_record st' payload ts n').
Proof.
  intros Hst. unfold parse_usage_record. rewrite (same_rollout st st' Hst). set (t := set_rollout _ st). set (t' := set_rollout _ st').
  assert (Ht : ps_carry t = ps_carry t') by (by apply same_set_rollout). destruct (unmarshal _ _ _) as [[rid [u|]]|]; try done.
  apply attribute_agree; [done|apply usage_candidates_bill].
Qed.

Lemma parse_event_agree st st' payload ts n n' : ps_carry st = ps_carry st' -> agree (parse_event st payload ts n) (parse_event st' payload ts n').
Proof.
  intros Hst. unfold parse_event. rewrite (same_rollout st st' Hst). destruct (ro_RecordMode _); [done|].
  destruct (unmarshal _ _ _) as [[[kind total] [last|]]|]; try done. destruct (negb _); [done|]. destruct total as [t|].
  - case_bool_decide; [done|]. apply attribute_agree; [by apply same_set_rollout|apply usage_candidates_bill].
  - apply attribute_agree; [done|apply usage_candidates_bill].
Qed.

Lemma parseRolloutLine_agree st st' probe n n' cfg cfg' (h : V) (h' : V') : ps_carry st = ps_carry st' ->
  agree (parseRolloutLine st probe n cfg h).1 (parseRolloutLine st' probe n' cfg' h').1.
Proof.
  intros Hst. unfold parseRolloutLine. case_bool_decide; [split; [done|by apply parse_session_meta_same]|].
  case_bool_decide; [by apply parse_turn_context_agree|]. case_bool_decide.
  - pose proof (attribute_idle st _ (response_item_idle st (fp_Payload probe) cfg (probeTime probe) n h)) as [Hi1 Hi2].
    pose proof (attribute_idle st' _ (response_item_idle st' (fp_Payload probe) cfg' (probeTime probe) n' h')) as [Hi3 Hi4].
    destruct (parseRolloutResponseItem st _ _ _ _ h) as [[o t] hh], (parseRolloutResponseItem st' _ _ _ _ h') as [[o' t'] hh']. cbn [fst snd] in *.
    split; congruence.
  - case_bool_decide; [by apply parse_usage_record_agree|]. case_bool_decide; [by apply parse_event_agree|done].
Qed.

Lemma parseClaudeLine_agree st st' probe n n' cfg cfg' (h : V) (h' : V') : ps_carry st = ps_carry st' ->
  agree (parseClaudeLine st probe n cfg h).1 (parseClaudeLine st' probe n' cfg' h').1.
Proof.
  intros Hst. unfold parseClaudeLine.
  assert (He : agree (if bool_decide (fp_SessionIDCamel probe = []) then ([], st) else enterClaudeSession st (fp_SessionIDCamel probe) (probeTime probe) n)
                     (if bool_decide (fp_SessionIDCamel probe = []) then ([], st') else enterClaudeSession st' (fp_SessionIDCamel probe) (probeTime probe) n'))
    by (case_bool_decide; [done|by apply enterClaudeSession_agree]).
  destruct (agree_pair _ _ He) as (e&t&e'&t'&->&->&Hb&Ht). set (m := unmarshal _ _ _). set (blocks := match m with Some _ => _ | None => _ end).
  set (parent := if bool_decide _ then _ else _).
  destruct (agree_pair _ _ (claude_record_agree t t' probe parent m blocks (probeTime probe) n n' Ht)) as (o&u&o'&u'&->&->&Ho&Hu).
  set (v := extendClaudeLineage u _ _). set (v' := extendClaudeLineage u' _ _). assert (Hv : ps_carry v = ps_carry v') by (by apply extendClaudeLineage_same).
  destruct m as [m|]; [|split; [cbn [fst]; by rewrite !bill_app, Hb, Ho|done]].
  pose proof (attribute_idle v _ (tools_idle blocks cfg (probeTime probe) n v h)) as [Hi1 Hi2].
  pose proof (attribute_idle v' _ (tools_idle blocks cfg' (probeTime probe) n' v' h')) as [Hi3 Hi4].
  destruct (claudeToolCandidates v blocks cfg _ n h) as [[o1 t1] hh], (claudeToolCandidates v' blocks cfg' _ n' h') as [[o2 t2] hh']. cbn [fst snd] in *.
  destruct (attribute t1 o1) as [a1 w1], (attribute t2 o2) as [a2 w2]. cbn [fst snd] in *. split; cbn [fst snd]; [by rewrite !bill_app, Hb, Ho, Hi1, Hi3|congruence].
Qed.

Lemma parseNormalizedLine_bill line n n' cfg cfg' (h : V) (h' : V') : bill (parseNormalizedLine line n cfg h).1 = bill (parseNormalizedLine line n' cfg' h').1.
Proof.
  unfold parseNormalizedLine. destruct (raw_of <$> _) as [rec|]; [|done]. set (ts := default _ _). case_bool_decide.
  { cbn [fst]. unfold parseMessage. by destruct (messageRole _). }
  case_bool_decide.
  { rewrite !bill_none; try done; unfold parseToolCall; destruct (toolCallCategory _) as [c|]; try (by repeat constructor).
    all: match goal with |- context [extractedCandidates ?a ?b ?c ?d ?e ?f] => pose proof (extracted_unbilled a b c d e f) as Hu; destruct (extractedCandidates a b c d e f) end.
    all: by constructor. }
  case_bool_decide.
  { rewrite !bill_none; try done; unfold parseToolResult; destruct (toolResultCategory _) as [c|]; try (by repeat constructor);
      destruct (toolResultStatus _) as [s|]; try (by repeat constructor).
    all: match goal with |- context [extractedCandidates ?a ?b ?c ?d ?e ?f] => pose proof (extracted_unbilled a b c d e f) as Hu; destruct (extractedCandidates a b c d e f) end.
    all: by constructor. }
  case_bool_decide; [cbn [fst]; unfold parseUsage; by destruct (usageQuality _)|].
  case_bool_decide; [cbn [fst]; unfold parseSession; destruct (sessionTransition _); [by destruct (sessionStartSource _)|done]|done].
Qed.

Lemma parseLine_agree st st' line n n' cfg cfg' (h : V) (h' : V') : ps_carry st = ps_carry st' ->
  agree (parseLine st line n cfg h).1 (parseLine st' line n' cfg' h').1.
Proof.
  intros Hst. unfold parseLine. destruct (probe_of <$> _) as [probe|]; [|done]. destruct (isNormalizedType _).
  - pose proof (parseNormalizedLine_bill line n n' cfg cfg' h h') as Hb.
    destruct (parseNormalizedLine line n cfg h) as [o h1], (parseNormalizedLine line n' cfg' h') as [o' h1']. by split.
  - case_bool_decide; [by apply parseRolloutLine_agree|]. destruct (_ || _); [by apply parseClaudeLine_agree|]. by destruct (isClaudeBookkeepingType _).
Qed.

Lemma emit_pending_agree st st' n n' : ps_carry st = ps_carry st' -> agree (emit_pending st n) (emit_pending st' n').
Proof.
  intros Hst. unfold emit_pending. rewrite (same_rollout st st' Hst). destruct (ro_Pending _) as [p|]; [|done].
  apply attribute_agree; [by apply same_set_rollout|apply usage_candidates_bill].
Qed.

Lemma parse_one_agree st st' line n n' cfg cfg' (h : V) (h' : V') : ps_carry st = ps_carry st' ->
  agree (parse_one cfg st line n h).1 (parse_one cfg' st' line n' h').1.
Proof.
  intros Hst. unfold parse_one. case_bool_decide; [done|].
  destruct (agree_pair _ _ (emit_pending_agree st st' n n' Hst)) as (p&t&p'&t'&->&->&Hp&Ht).
  pose proof (parseLine_agree t t' (TrimSpace line) n n' cfg cfg' h h' Ht) as Hl.
  destruct (parseLine t _ n cfg h) as [[o u] h1], (parseLine t' _ n' cfg' h') as [[o' u'] h1']. destruct Hl as [Ho Hu]. cbn [fst snd] in *.
  split; [|done]. cbn [fst]. rewrite !bill_app, Hp. f_equal. by apply stamp_agree.
Qed.
End two.

(** ** Buffers *)

(** The bytes after the last newline. *)
Definition after_last_newline (data rest : bytes) : Prop :=
  (x0a ∉ rest) /\ exists used, data = used ++ rest /\ (used = [] \/ exists l, used = l ++ [x0a]).

Lemma parse_lines_rest {W} {HW : Host W} fuel cfg : forall data st n (h : W), (length data <= fuel)%nat ->
  after_last_newline data (parse_lines fuel cfg st data n h).1.1.1.2.
Proof.
  induction fuel as [|fuel IH]; intros data st n h Hl.
  { destruct data; [|cbn in Hl; lia]. split; [apply not_elem_of_nil|]. exists []. auto. }
  cbn [parse_lines]. destruct (cut x0a data) as [line [rest|]] eqn:E.
  - apply cut_Some in E as [-> _]. destruct (parse_one cfg st line (n + 1) h) as [[o t] h1]. rewrite length_app in Hl. cbn in Hl.
    destruct (IH rest t (n + 1) h1 ltac:(lia)) as (Hn&used&Hu&He).
    destruct (parse_lines fuel cfg t rest (n + 1) h1) as [[[[m r] k] u] h2]. cbn [fst snd] in *. split; [done|]. exists (line ++ x0a :: used).
    split; [rewrite Hu; by rewrite <-app_assoc|]. right. destruct He as [->|(l&->)]; [by exists line|]. exists (line ++ x0a :: l). by rewrite <-app_assoc.
  - apply cut_None in E as [_ E]. split; [done|]. exists []. auto.
Qed.

(** What a run of lines bills, leaves unread and carries. *)
Definition outcome_of {W} (r : list Candidate * bytes * Z * parseState * W) : list Candidate * bytes * transcriptCarry :=
  (bill r.1.1.1.1, r.1.1.1.2, ps_carry r.1.2).

Section two.
Context {V V' : Type} {HV : Host V} {HV' : Host V'}.

Lemma parse_lines_agree fuel : forall fuel' cfg cfg' data st st' n n' (h : V) (h' : V'),
  (length data <= fuel)%nat -> (length data <= fuel')%nat -> ps_carry st = ps_carry st' ->
  outcome_of (parse_lines fuel cfg st data n h) = outcome_of (parse_lines fuel' cfg' st' data n' h').
Proof.
  induction fuel as [|fuel IH]; intros fuel' cfg cfg' data st st' n n' h h' Hf Hf' Hst.
  { destruct data; [|cbn in Hf; lia]. destruct fuel'; cbn; unfold outcome_of; cbn; by rewrite Hst. }
  destruct fuel' as [|fuel'].
  { destruct data; [|cbn in Hf'; lia]. unfold outcome_of. cbn. by rewrite Hst. }
  cbn [parse_lines]. destruct (cut x0a data) as [line [rest|]] eqn:E; [|unfold outcome_of; cbn; by rewrite Hst].
  apply cut_Some in E as [-> _]. rewrite length_app in Hf, Hf'. cbn in Hf, Hf'.
  pose proof (parse_one_agree st st' line (n + 1) (n' + 1) cfg cfg' h h' Hst) as Ho.
  destruct (parse_one cfg st line (n + 1) h) as [[o t] h1], (parse_one cfg' st' line (n' + 1) h') as [[o' t'] h1']. destruct Ho as [Hb Hc]. cbn [fst snd] in Hb, Hc.
  pose proof (IH fuel' cfg cfg' rest t t' (n + 1) (n' + 1) h1 h1' ltac:(lia) ltac:(lia) Hc) as IH'.
  destruct (parse_lines fuel cfg t rest (n + 1) h1) as [[[[m r] k] u] h2], (parse_lines fuel' cfg' t' rest (n' + 1) h1') as [[[[m' r'] k'] u'] h2'].
  unfold outcome_of in *. cbn [fst snd] in *. injection IH' as Hm -> Hu. by rewrite !bill_app, Hb, Hm, Hu.
Qed.
End two.

(** The lines of two pieces: those of the first, then those of what it left with the second. *)
Lemma parse_lines_app {V1 V2 V3} {H1 : Host V1} {H2 : Host V2} {H3 : Host V3} fuel1 : forall fuel fuel2 cfg1 cfg2 cfg a b st1 st n1 n2 n (h1 : V1) (h2 : V2) (h : V3),
  (length a <= fuel1)%nat -> (length (a ++ b) <= fuel)%nat -> (length (a ++ b) <= fuel2)%nat -> ps_carry st1 = ps_carry st ->
  let r1 := parse_lines fuel1 cfg1 st1 a n1 h1 in
  let r2 := parse_lines fuel2 cfg2 (newParseState (ps_carry r1.1.2)) (r1.1.1.1.2 ++ b) n2 h2 in
  let r := parse_lines fuel cfg st (a ++ b) n h in
  outcome_of r = (bill r1.1.1.1.1 ++ (outcome_of r2).1.1, (outcome_of r2).1.2, (outcome_of r2).2).
Proof.
  induction fuel1 as [|fuel1 IH]; intros fuel fuel2 cfg1 cfg2 cfg a b st1 st n1 n2 n h1 h2 h Ha Hf Hf2 Hst.
  { destruct a; [|cbn in Ha; lia]. cbn [parse_lines fst snd app] in *. rewrite (parse_lines_agree fuel2 fuel cfg2 cfg b _ st n2 n h2 h); [|done..].
    cbn. unfold outcome_of. cbn. done. }
  destruct fuel as [|fuel]; [destruct a, b; cbn in Hf; try lia; cbn; unfold outcome_of; by destruct fuel2; cbn; rewrite Hst|].
  cbn [parse_lines]. destruct (cut x0a a) as [line [rest|]] eqn:E.
  - apply cut_Some in E as [-> Hnl]. rewrite <-app_assoc. cbn [app]. rewrite cut_app by done. rewrite <-app_assoc in Hf, Hf2. rewrite length_app in Ha, Hf, Hf2. cbn in Ha, Hf, Hf2.
    pose proof (parse_one_agree st1 st line (n1 + 1) (n + 1) cfg1 cfg h1 h Hst) as Ho.
    destruct (parse_one cfg1 st1 line (n1 + 1) h1) as [[o t] hh1], (parse_one cfg st line (n + 1) h) as [[o' t'] hh]. destruct Ho as [Hb Hc]. cbn [fst snd] in Hb, Hc.
    pose proof (IH fuel fuel2 cfg1 cfg2 cfg rest b t t' (n1 + 1) n2 (n + 1) hh1 h2 hh ltac:(lia) ltac:(lia) ltac:(lia) Hc) as IH'. cbv zeta in IH'.
    destruct (parse_lines fuel1 cfg1 t rest (n1 + 1) hh1) as [[[[m r] k] u] hh2]. cbn [fst snd] in IH' |- *.
    destruct (parse_lines fuel cfg t' (rest ++ b) (n + 1) hh) as [[[[m' r'] k'] u'] hh3].
    unfold outcome_of in *. cbn [fst snd] in *. injection IH' as Hm -> Hu. by rewrite !bill_app, <-Hb, Hm, <-app_assoc, Hu.
  - cbn [fst snd]. pose proof (parse_lines_agree (S fuel) fuel2 cfg cfg2 (a ++ b) st (newParseState (ps_carry st1)) n n2 h h2 Hf Hf2 (eq_sym Hst)) as Hag.
    cbn [parse_lines] in Hag. rewrite Hag. unfold outcome_of. cbn [fst snd app]. done.
Qed.

(** Two pieces, parsed one after the other. *)
Lemma parse_app {V1 V2 V3} {H1 : Host V1} {H2 : Host V2} {H3 : Host V3} a b cfg1 cfg2 cfg carry complete (h1 : V1) (h2 : V2) (h : V3) :
  let r1 := (parseWithCarry a cfg1 carry h1).1 in
  let r2 := (parse (drop (Z.to_nat (px_Consumed r1)) a ++ b) cfg2 (px_carry r1) complete h2).1 in
  let r := (parse (a ++ b) cfg carry complete h).1 in
  bill (px_Candidates r) = bill (px_Candidates r1) ++ bill (px_Candidates r2) /\ px_carry r = px_carry r2
  /\ px_Consumed r = px_Consumed r1 + px_Consumed r2.
Proof.
  cbv zeta. unfold parseWithCarry, parse.
  pose proof (parse_lines_rest (length a) cfg1 a (newParseState carry) 0 h1 ltac:(lia)) as (_&used&Ha&_).
  pose proof (parse_lines_app (length a) (length (a ++ b)) (length (a ++ b)) cfg1 cfg2 cfg a b (newParseState carry) (newParseState carry) 0 0 0 h1 h2 h
    ltac:(lia) ltac:(lia) ltac:(lia) eq_refl) as Happ. cbv zeta in Happ.
  destruct (parse_lines (length a) cfg1 (newParseState carry) a 0 h1) as [[[[o1 rest1] n1] st1] hh1]. cbn [fst snd px_Consumed px_carry px_Candidates] in *.
  assert (Hd : drop (Z.to_nat (zlen a - zlen rest1)) a = rest1).
  { rewrite Ha. unfold zlen. rewrite length_app. replace (Z.to_nat _) with (length used) by lia. by rewrite drop_app_length. }
  rewrite Hd. pose proof (parse_lines_agree (length (a ++ b)) (length (rest1 ++ b)) cfg2 cfg2 (rest1 ++ b) (newParseState (ps_carry st1)) (newParseState (ps_carry st1)) 0 0 h2 h2) as Hag.
  rewrite Hag in Happ; [|rewrite Ha, !length_app; lia|lia|done]. clear Hag.
  destruct (parse_lines (length (a ++ b)) cfg (newParseState carry) (a ++ b) 0 h) as [[[[o rest] n] st] hh].
  destruct (parse_lines (length (rest1 ++ b)) cfg2 (newParseState (ps_carry st1)) (rest1 ++ b) 0 h2) as [[[[o2 rest2] n2] st2] hh2].
  unfold outcome_of in Happ. cbn [fst snd] in Happ. injection Happ as Hb -> Hc.
  assert (Hlen : zlen (a ++ b) - zlen rest2 = zlen a - zlen rest1 + (zlen (rest1 ++ b) - zlen rest2)) by (rewrite !zlen_app; lia).
  destruct complete; cbn [fst snd px_Consumed px_carry px_Candidates].
  - destruct (agree_pair _ _ (closeClaudeMessages_agree st st2 n n2 Hc)) as (x&t&x'&t'&->&->&Hx&Ht). cbn [fst snd px_Consumed px_carry px_Candidates].
    rewrite app_nil_r, !bill_app, Hb, Hx, <-app_assoc. split; [done|by split].
  - rewrite !app_nil_r, Hb. split; [done|by split].
Qed.

(** Whole lines are consumed. *)
Lemma parse_consumes {V} {HV : Host V} data cfg carry complete (h : V) :
  let r := (parse data cfg carry complete h).1 in
  after_last_newline data (drop (Z.to_nat (px_Consumed r)) data) /\ 0 <= px_Consumed r <= zlen data.
Proof.
  cbv zeta. unfold parse. pose proof (parse_lines_rest (length data) cfg data (newParseState carry) 0 h ltac:(lia)) as Hr.
  destruct (parse_lines (length data) cfg (newParseState carry) data 0 h) as [[[[o rest] n] st] hh]. cbn [fst snd] in Hr.
  destruct (if complete then closeClaudeMessages st n else ([], st)) as [x t]. cbn [fst px_Consumed]. destruct Hr as (Hn&used&->&He).
  assert (Hd : drop (Z.to_nat (zlen (used ++ rest) - zlen rest)) (used ++ rest) = rest).
  { unfold zlen. rewrite length_app. replace (Z.to_nat _) with (length used) by lia. by rewrite drop_app_length. }
  rewrite Hd. split; [split; [done|by exists used]|]. rewrite zlen_app. pose proof (zlen_nonneg used). pose proof (zlen_nonneg rest). lia.
Qed.

(** C30: How a transcript is cut into buffers does not change what it bills. Parsing a piece, then what it left unread with the rest under the
    carry it returned, gives the usage and the starts, with their times and sessions, of parsing the whole at once, the same carry, and
    the same consumed bytes; nor do the configuration, the hooks and the tool calls seen matter, which may differ in each parse. *)
Theorem parse_split {V1 V2 V3} {H1 : Host V1} {H2 : Host V2} {H3 : Host V3} a b cfg1 cfg2 cfg carry complete (h1 : V1) (h2 : V2) (h : V3) :
  let r1 := (parseWithCarry a cfg1 carry h1).1 in
  let r2 := (parse (drop (Z.to_nat (px_Consumed r1)) a ++ b) cfg2 (px_carry r1) complete h2).1 in
  let r := (parse (a ++ b) cfg carry complete h).1 in
  bill (px_Candidates r) = bill (px_Candidates r1) ++ bill (px_Candidates r2) /\ px_carry r = px_carry r2
  /\ px_Consumed r = px_Consumed r1 + px_Consumed r2.
Proof. apply parse_app. Qed.

(** A parse consumes whole lines: up to the last newline, and no newline is left. *)
Theorem parse_consumed {V} {HV : Host V} data cfg carry complete (h : V) :
  let r := (parse data cfg carry complete h).1 in
  after_last_newline data (drop (Z.to_nat (px_Consumed r)) data) /\ 0 <= px_Consumed r <= zlen data.
Proof. apply parse_consumes. Qed.
