(* ===== verification/ParseCount.v ===== *)
(** * Counting each response once ([Claude], [Parser])

    The parse state's invariant, and its consequences for the usage of a Claude transcript: no message id
    is counted twice, in one buffer or across buffers, and what was counted is what the carry remembers. *)

From S2P Require Import Prelude GoStrings GoTime Json GoNet GoPath GoJson StrictDecode BeadPrefix Fields Validate Evidence Policy Regex RefExtract SeqSet.
From S2P Require Import Transcript Rollout Claude Parser ParseSplit.

(** ** Sets of ids *)

Definition sorted_ids (s : list Z) : Prop := StronglySorted Z.lt s.

Lemma sorted_nth s i j x y : sorted_ids s -> s !! i = Some x -> s !! j = Some y -> (i < j)%nat -> x < y.
Proof.
  intros Hs. revert i j. induction Hs as [|a l Hs IH Hf]; intros i j Hi Hj Hij; [done|]. destruct j as [|j]; [lia|].
  destruct i as [|i]; cbn in Hi, Hj; [|eapply IH; [exact Hi|exact Hj|lia]]. injection Hi as ->. rewrite Forall_forall in Hf. apply Hf. by eapply list_elem_of_lookup_2.
Qed.

(** Where the search ends: everything before is smaller, everything from there is not. *)
Lemma BinarySearch_split s key : sorted_ids s ->
  let i := (BinarySearch s key).1 in Forall (fun x => x < key) (take i s) /\ Forall (fun x => key <= x) (drop i s).
Proof.
  intros Hs. destruct (Search_split (fun x => negb (x <? key)) s (fun x => key <= x)) as (_&H1&H2).
  - intros i x _. rewrite negb_true_iff. split; [intros H%Z.ltb_ge; lia|intros H; by apply Z.ltb_ge].
  - intros i j x y Hij Hx Hy Hk. destruct (decide (i = j)) as [->|]; [rewrite Hx in Hy; injection Hy as <-; done|].
    pose proof (sorted_nth s i j x y Hs Hx Hy ltac:(lia)). lia.
  - cbv zeta. unfold BinarySearch. cbn [fst]. split; [|exact H2]. eapply Forall_impl; [exact H1|]. cbn. intros x. lia.
Qed.

Lemma BinarySearch_found s key : sorted_ids s -> (BinarySearch s key).2 = true <-> key ∈ s.
Proof.
  intros Hs. pose proof (BinarySearch_split s key Hs) as [H1 H2]. unfold BinarySearch in *. cbn [fst snd] in *. set (i := Search _ _) in *.
  split.
  - destruct (s !! i) as [k|] eqn:E; [|done]. intros ->%Z.eqb_eq. by eapply list_elem_of_lookup_2.
  - intros (j&Hj)%list_elem_of_lookup_1. assert (i <= j)%nat.
    { destruct (Nat.le_gt_cases i j); [done|]. rewrite Forall_lookup in H1. specialize (H1 j key). rewrite lookup_take_lt in H1 by done. specialize (H1 Hj). lia. }
    destruct (s !! i) as [k|] eqn:E.
    + rewrite Forall_lookup in H2. pose proof (H2 0%nat k) as Hk. rewrite lookup_drop, Nat.add_0_r in Hk. specialize (Hk E).
      apply Z.eqb_eq. destruct (decide (i = j)) as [->|]; [congruence|]. pose proof (sorted_nth s i j k key Hs E Hj ltac:(lia)). lia.
    + apply lookup_ge_None in E. apply lookup_lt_Some in Hj. lia.
Qed.

Lemma idset_has_iff s key : sorted_ids s -> idset_has s key = true <-> key ∈ s.
Proof. apply BinarySearch_found. Qed.

Lemma sorted_app l k : sorted_ids l -> sorted_ids k -> (forall x y, x ∈ l -> y ∈ k -> x < y) -> sorted_ids (l ++ k).
Proof.
  intros Hl Hk Hx. induction Hl as [|a l Hl IH Hf]; [done|]. cbn. constructor; [apply IH; intros x y Hxl Hyk; apply Hx; [by constructor 2|done]|].
  apply Forall_app. split; [done|]. apply Forall_forall. intros y Hy. apply Hx; [constructor|done].
Qed.

Lemma sorted_split s n : sorted_ids s -> sorted_ids (take n s) /\ sorted_ids (drop n s).
Proof.
  intros Hs. revert n. induction Hs as [|a l Hl IH Hf]; intros n.
  - rewrite take_nil, drop_nil. split; constructor.
  - destruct n as [|n]; cbn [take drop]; [split; [constructor|by constructor]|]. destruct (IH n) as [H1 H2]. split; [|done].
    constructor; [done|]. by apply Forall_take.
Qed.

Lemma idset_add_spec s key s' new : sorted_ids s -> idset_add s key = (s', new) ->
  sorted_ids s' /\ (forall x, x ∈ s' <-> x = key \/ x ∈ s) /\ (new = true <-> key ∉ s).
Proof.
  intros Hs. pose proof (BinarySearch_split s key Hs) as [H1 H2]. pose proof (BinarySearch_found s key Hs) as Hf. unfold idset_add.
  destruct (BinarySearch s key) as [i found]. cbn [fst snd] in *. destruct found; intros [= <- <-].
  - assert (key ∈ s) by (by apply Hf). split; [done|]. split; [|by split]. intros x. split; [by right|]. by intros [->|?].
  - assert (Hn : key ∉ s) by (intros ?%Hf; done). destruct (sorted_split s i Hs) as [Ht Hd]. split; [|split; [|done]].
    + apply sorted_app; [done| |].
      * constructor; [done|]. apply Forall_forall. intros x Hx. rewrite Forall_forall in H2. specialize (H2 x Hx).
        destruct (decide (x = key)) as [->|]; [|lia]. exfalso. apply Hn. rewrite <-(take_drop i s). apply elem_of_app. by right.
      * intros x y Hx Hy. rewrite Forall_forall in H1, H2. specialize (H1 x Hx). apply elem_of_cons in Hy as [->|Hy]; [done|]. specialize (H2 y Hy). lia.
    + intros x. rewrite elem_of_app, elem_of_cons. rewrite <-(take_drop i s) at 3. rewrite elem_of_app. tauto.
Qed.

(** ** The invariant *)

Definition is_hash (k : Z) : Prop := 0 <= k < 256 ^ 8.

Lemma idHash_range id : is_hash (idHash id).
Proof.
  unfold idHash. assert (H : is_hash 0xcbf29ce484222325) by (unfold is_hash; lia). revert H. generalize 0xcbf29ce484222325. induction id as [|b id IH]; intros h Hh; [done|].
  cbn [fold_left]. apply IH. unfold is_hash, u64. change (256 ^ 8) with (2 ^ 64). apply Z.mod_pos_bound. lia.
Qed.

Record good_claude (c : claudeCarry) : Prop := mkGoodClaude {
  gc_sorted : sorted_ids (cl_Counted c);
  gc_keys : NoDup (op_Key <$> cl_Open c);
  gc_fresh : Forall (fun m => op_Key m ∉ cl_Counted c) (cl_Open c);
  gc_open : zlen (cl_Open c) <= maxOpenClaudeMessages;
  gc_lineage : Forall (fun m => zlen (op_Lineage m) <= maxResponseLineage) (cl_Open c);
  gc_id : Forall (fun m => op_ID m <> [] -> op_Key m = idHash (op_ID m)) (cl_Open c);
  gc_hashes : Forall is_hash (cl_Counted c);
  gc_open_hashes : Forall (fun m => is_hash (op_Key m)) (cl_Open c);
}.

(** What depends on the keys only. *)
Lemma Forall_keys (P : Z -> Prop) l k : op_Key <$> l = op_Key <$> k -> Forall (fun m => P (op_Key m)) k -> Forall (fun m => P (op_Key m)) l.
Proof. intros E Hk. apply (Forall_fmap op_Key P). rewrite E. by apply (Forall_fmap op_Key P). Qed.

Lemma trail_add_bound t uuid : zlen t <= maxResponseLineage -> zlen (trail_add t uuid) <= maxResponseLineage.
Proof. intros Ht. unfold trail_add. case_bool_decide; [done|]. by apply newest_bound. Qed.

(** Changes of the open responses that keep their identity. *)
Lemma good_same c l : good_claude c -> op_Key <$> l = op_Key <$> cl_Open c -> op_ID <$> l = op_ID <$> cl_Open c ->
  Forall (fun m => zlen (op_Lineage m) <= maxResponseLineage) l -> good_claude (mkClaude l (cl_Counted c) (cl_Unsaved c)).
Proof.
  intros [Hs Hk Hf Ho Hl Hi Hc Hoh] Ek Ei Hl'. assert (El : length l = length (cl_Open c)) by (rewrite <-(length_fmap op_Key l), Ek; apply length_fmap).
  split; cbn; try done.
  - by rewrite Ek.
  - by apply (Forall_keys (fun k => k ∉ cl_Counted c) _ _ Ek).
  - unfold zlen in *. by rewrite El.
  - apply Forall_lookup. intros i m Hm. assert (Hkm : (op_Key <$> cl_Open c) !! i = Some (op_Key m)) by (by rewrite <-Ek, list_lookup_fmap, Hm).
    assert (Him : (op_ID <$> cl_Open c) !! i = Some (op_ID m)) by (by rewrite <-Ei, list_lookup_fmap, Hm).
    rewrite list_lookup_fmap in Hkm. rewrite list_lookup_fmap in Him. destruct (cl_Open c !! i) as [m'|] eqn:E; [|done]. cbn in Hkm, Him. injection Hkm as <-. injection Him as <-.
    by apply (Forall_lookup_1 _ _ _ _ Hi E).
  - by apply (Forall_keys is_hash _ _ Ek).
Qed.

(** ** What is counted *)

(** The message id a Claude usage carries. *)
Definition counted_id (c : Candidate) : option bytes :=
  match ca_Kind c with
  | KindUsage u => if bool_decide (us_ProviderSource u = claudeProvider) && negb (bool_decide (us_MessageID u = [])) then Some (us_MessageID u) else None
  | _ => None
  end.
Definition counted_ids (cs : list Candidate) : list bytes := omap counted_id cs.

Lemma counted_ids_app l k : counted_ids (l ++ k) = counted_ids l ++ counted_ids k.
Proof. apply omap_app. Qed.

(** Some new ids were counted, each of the output among them, once. *)
Definition counts (c : claudeCarry) (out : list Candidate) (c' : claudeCarry) : Prop :=
  exists new, cl_Unsaved c' = cl_Unsaved c ++ new /\ NoDup new /\ (forall k, k ∈ new -> k ∉ cl_Counted c)
    /\ (forall k, k ∈ cl_Counted c' <-> k ∈ cl_Counted c \/ k ∈ new) /\ sublist (idHash <$> counted_ids out) new.

Lemma counts_none c out c' : cl_Unsaved c' = cl_Unsaved c -> cl_Counted c' = cl_Counted c -> counted_ids out = [] -> counts c out c'.
Proof.
  intros Hu Hc Ho. exists []. rewrite Hu, Hc, Ho, app_nil_r. split; [done|]. split; [constructor|]. split; [by intros k ?%elem_of_nil|].
  split; [|done]. intros k. rewrite elem_of_nil. tauto.
Qed.

Lemma counts_trans c o c1 o' c2 : counts c o c1 -> counts c1 o' c2 -> counts c (o ++ o') c2.
Proof.
  intros (n1&U1&D1&F1&C1&S1) (n2&U2&D2&F2&C2&S2). exists (n1 ++ n2). rewrite U2, U1, <-app_assoc. split; [done|]. split.
  - apply NoDup_app. split; [done|]. split; [|done]. intros k Hk Hk2. apply (F2 k Hk2), C1. by right.
  - split; [|split].
    + intros k [Hk|Hk]%elem_of_app; [by apply F1|]. intros Hc. apply (F2 k Hk), C1. by left.
    + intros k. rewrite C2, C1, elem_of_app. tauto.
    + rewrite counted_ids_app, fmap_app. by apply sublist_app.
Qed.

(** A step from a good state. *)
Definition counting (st : parseState) (r : list Candidate * parseState) : Prop :=
  good_claude (ps_claude r.2) /\ counts (ps_claude st) r.1 (ps_claude r.2).

Lemma counting_then st o t o' u : counting st (o, t) -> counting t (o', u) -> counting st (o ++ o', u).
Proof. intros [_ H1] [H2 H3]. split; [done|]. by eapply counts_trans. Qed.

Lemma counting_same st st' out : good_claude (ps_claude st) -> ps_claude st' = ps_claude st -> counted_ids out = [] -> counting st (out, st').
Proof. intros Hg He Ho. split; cbn; rewrite He; [done|by apply counts_none]. Qed.

Lemma startSession_claude st m ts n : ps_claude (startSession st m ts n).2 = ps_claude st /\ counted_ids (startSession st m ts n).1 = [].
Proof. unfold startSession. by destruct (_ || _). Qed.

Lemma attribute_claude cs : forall st, ps_claude (attribute st cs).2 = ps_claude st /\ counted_ids (attribute st cs).1 = counted_ids cs.
Proof.
  induction cs as [|c l IH]; intros st; [done|]. cbn [attribute].
  assert (Hs : let r := if is_usage c then startSession st [] (ca_OccurredAt c) (ca_LineNumber c) else ([], st) in ps_claude r.2 = ps_claude st /\ counted_ids r.1 = [])
    by (cbn; destruct (is_usage c); [apply startSession_claude|done]).
  cbv zeta in Hs. destruct (if is_usage c then _ else _) as [s t]. cbn [fst snd] in Hs. destruct Hs as [Hs1 Hs2]. destruct (IH t) as [H1 H2].
  destruct (attribute t l) as [o u]. cbn [fst snd] in *. split; [congruence|]. rewrite counted_ids_app, Hs2. cbn [app].
  change (c :: l) with ([c] ++ l). change (with_session (session_ref (ps_session t)) c :: o) with ([with_session (session_ref (ps_session t)) c] ++ o).
  rewrite !counted_ids_app, H2. f_equal. unfold with_session. by destruct (ca_Session c).
Qed.

Lemma elem_of_delete_in {A} i (l : list A) x : x ∈ delete i l -> x ∈ l.
Proof. intros H. eapply elem_of_sublist; [exact H|]. apply sublist_delete. Qed.

(** ** Closing responses *)

(** Only open responses were closed, and only their ids counted. *)
Definition closed_some (c c' : claudeCarry) : Prop :=
  sublist (cl_Open c') (cl_Open c) /\ forall k, k ∈ cl_Counted c' -> k ∈ cl_Counted c \/ k ∈ op_Key <$> cl_Open c.

Lemma closed_refl c : closed_some c c.
Proof. split; [done|]. by left. Qed.

Lemma closed_trans c c1 c2 : closed_some c c1 -> closed_some c1 c2 -> closed_some c c2.
Proof.
  intros [H1 H2] [H3 H4]. split; [by etransitivity|]. intros k [Hk|Hk]%H4; [by apply H2|]. right. eapply elem_of_sublist; [exact Hk|]. by apply fmap_sublist.
Qed.

Definition closing (st : parseState) (r : list Candidate * parseState) : Prop :=
  counting st r /\ closed_some (ps_claude st) (ps_claude r.2).

Lemma closing_then st o t o' u : closing st (o, t) -> closing t (o', u) -> closing st (o ++ o', u).
Proof. intros [H1 H2] [H3 H4]. split; [by eapply counting_then|by eapply closed_trans]. Qed.

Lemma closing_refl st : good_claude (ps_claude st) -> closing st ([], st).
Proof. intros Hg. split; [by apply counting_same|apply closed_refl]. Qed.

Lemma Forall_in_sublist {A} (P : A -> Prop) l k : sublist l k -> Forall P k -> Forall P l.
Proof. rewrite !Forall_forall. intros Hs Hk x Hx. apply Hk. by eapply elem_of_sublist. Qed.

Lemma good_removed c i m counted : good_claude c -> cl_Open c !! i = Some m -> sorted_ids counted ->
  (forall x, x ∈ counted <-> x = op_Key m \/ x ∈ cl_Counted c) -> forall unsaved, good_claude (mkClaude (delete i (cl_Open c)) counted unsaved).
Proof.
  intros [Hs Hk Hf Ho Hl Hi Hh Hoh] Hm Hsc Hc unsaved. pose proof (sublist_delete (cl_Open c) i) as Hsub.
  split; cbn; [done| | | | | | |].
  - eapply sublist_NoDup; [exact Hk|by apply fmap_sublist].
  - apply Forall_forall. intros x Hx [Hxk|Hxc]%Hc.
    + rewrite <-(take_drop_middle _ _ _ Hm), fmap_app, fmap_cons in Hk. apply NoDup_app in Hk as (_&Hn&Hk). apply NoDup_cons in Hk as [Hd _].
      rewrite delete_take_drop in Hx. apply elem_of_app in Hx as [Hx|Hx].
      * apply (Hn (op_Key x)); [by apply list_elem_of_fmap_2|]. rewrite Hxk. constructor.
      * apply Hd. rewrite <-Hxk. by apply list_elem_of_fmap_2.
    + rewrite Forall_forall in Hf. by apply (Hf x); [by eapply elem_of_sublist|].
  - apply sublist_length in Hsub. unfold zlen in *. lia.
  - by eapply Forall_in_sublist.
  - by eapply Forall_in_sublist.
  - apply Forall_forall. intros x [->|Hx]%Hc; [by apply (Forall_lookup_1 _ _ _ _ Hoh Hm)|]. rewrite Forall_forall in Hh. by apply Hh.
  - by eapply Forall_in_sublist.
Qed.

Lemma closeClaudeMessage_closing st i n : good_claude (ps_claude st) -> closing st (closeClaudeMessage st i n).
Proof.
  intros Hg. unfold closeClaudeMessage. destruct (cl_Open (ps_claude st) !! i) as [m|] eqn:Em; [|by apply closing_refl].
  set (st1 := set_open _ st). unfold count. change (cl_Counted (ps_claude st1)) with (cl_Counted (ps_claude st)).
  destruct (idset_add (cl_Counted (ps_claude st)) (op_Key m)) as [counted new] eqn:Ea.
  destruct (idset_add_spec _ _ _ _ (gc_sorted _ Hg) Ea) as (Hsc&Hmem&Hnew).
  assert (Hn : new = true) by (apply Hnew; by apply (Forall_lookup_1 _ _ _ _ (gc_fresh _ Hg) Em)). subst new. cbn [negb orb].
  set (c := mkClaude _ _ _). set (st2 := set_claude c st1).
  assert (Hgood : good_claude c) by (by apply (good_removed (ps_claude st) i m)).
  assert (Hclosed : closed_some (ps_claude st) c).
  { split; [apply sublist_delete|]. intros k [->|Hk]%Hmem; [|by left]. right. apply list_elem_of_fmap_2. by eapply list_elem_of_lookup_2. }
  assert (Hcounts : forall out, sublist (idHash <$> counted_ids out) [op_Key m] -> counts (ps_claude st) out c).
  { intros out Hout. exists [op_Key m]. split; [done|]. split; [apply NoDup_singleton|]. split; [intros k ->%list_elem_of_singleton; by apply Hnew|].
    split; [|done]. intros k. change (cl_Counted c) with counted. rewrite Hmem, list_elem_of_singleton. tauto. }
  destruct (hasTokens (op_Usage m)); cbn [negb].
  - set (u := claude_candidate _ _ _ _). destruct (attribute_claude [u] st2) as [H1 H2]. destruct (attribute st2 [u]) as [o t]. cbn [fst snd] in *.
    split; [split|]; cbn [fst snd]; rewrite H1; [done| |done]. apply Hcounts. rewrite H2. unfold counted_ids. cbn [omap list_omap]. unfold counted_id. cbn.
    rewrite bool_decide_eq_true_2 by done. cbn [andb]. case_bool_decide as Hid; cbn; [apply sublist_nil_l|].
    rewrite <-(Forall_lookup_1 _ _ _ _ (gc_id _ Hg) Em Hid). done.
  - split; [split|]; cbn [fst snd]; [done| |done]. apply Hcounts. apply sublist_nil_l.
Qed.

Lemma close_open_closing fuel n : forall st, good_claude (ps_claude st) -> closing st (close_open fuel st n).
Proof.
  induction fuel as [|fuel IH]; intros st Hg; cbn [close_open]; [by apply closing_refl|]. destruct (cl_Open (ps_claude st)) eqn:E; [by apply closing_refl|].
  pose proof (closeClaudeMessage_closing st 0 n Hg) as Hc. destruct (closeClaudeMessage st 0 n) as [o t]. pose proof (IH t (proj1 (proj1 Hc))) as Hr.
  destruct (close_open fuel t n) as [r u]. by eapply closing_then.
Qed.

Lemma closeClaudeMessages_closing st n : good_claude (ps_claude st) -> closing st (closeClaudeMessages st n).
Proof. apply close_open_closing. Qed.

Lemma close_branch_closing fuel parent n : forall i st, good_claude (ps_claude st) -> closing st (close_branch fuel i st parent n).
Proof.
  induction fuel as [|fuel IH]; intros i st Hg; cbn [close_branch]; [by apply closing_refl|]. destruct (cl_Open (ps_claude st) !! i); [|by apply closing_refl].
  destruct (trail_has _ _); [|by apply IH]. pose proof (closeClaudeMessage_closing st i n Hg) as Hc. destruct (closeClaudeMessage st i n) as [o t].
  pose proof (IH i t (proj1 (proj1 Hc))) as Hr. destruct (close_branch fuel i t parent n) as [r u]. by eapply closing_then.
Qed.

Lemma closeClaudeBranch_closing st parent n : good_claude (ps_claude st) -> closing st (closeClaudeBranch st parent n).
Proof. intros Hg. unfold closeClaudeBranch. case_bool_decide; [by apply closing_refl|by apply close_branch_closing]. Qed.

(** ** Records *)

Lemma counting_set_session s st r : counting st r -> counting st (r.1, set_session s r.2).
Proof. by intros [H1 H2]. Qed.

Lemma enterClaudeSession_counting st id ts n : good_claude (ps_claude st) -> counting st (enterClaudeSession st id ts n).
Proof.
  intros Hg. unfold enterClaudeSession.
  set (r := if bool_decide (sc_NativeID (ps_session st) = id) then ([], st) else _).
  assert (Hr : counting st r).
  { subst r. case_bool_decide; [by apply counting_same|].
    assert (Hc : counting st (if bool_decide (sc_NativeID (ps_session st) = []) then ([], st) else closeClaudeMessages st n))
      by (case_bool_decide; [by apply counting_same|by apply closeClaudeMessages_closing]).
    destruct (if bool_decide (sc_NativeID (ps_session st) = []) then _ else _) as [o t]. by apply (counting_set_session _ st (o, t)). }
  destruct r as [o t]. destruct (_ && _); [|done]. by apply (counting_set_session _ st (o, t)).
Qed.

(** A new open response. *)
Lemma good_push c m : good_claude c -> op_Key m ∉ op_Key <$> cl_Open c -> op_Key m ∉ cl_Counted c -> zlen (cl_Open c) < maxOpenClaudeMessages ->
  zlen (op_Lineage m) <= maxResponseLineage -> (op_ID m <> [] -> op_Key m = idHash (op_ID m)) -> is_hash (op_Key m) -> good_claude (mkClaude (cl_Open c ++ [m]) (cl_Counted c) (cl_Unsaved c)).
Proof.
  intros [Hs Hk Hf Ho Hl Hi Hh Hoh] Hn Hc Hlt Hlm Him Hmh. split; cbn; [done| | | | | |done|].
  - rewrite fmap_app. apply NoDup_app. split; [done|]. split; [|apply NoDup_singleton]. intros k Hk' ->%list_elem_of_singleton. done.
  - apply Forall_app. split; [done|]. by constructor.
  - rewrite zlen_app. change (zlen [m]) with 1. unfold maxOpenClaudeMessages in *. lia.
  - apply Forall_app. split; [done|]. by constructor.
  - apply Forall_app. split; [done|]. by constructor.
  - apply Forall_app. split; [done|]. by constructor.
Qed.

Lemma joinKeyID_key id : joinKeyID id <> [] -> idHash id = idHash (joinKeyID id).
Proof. unfold joinKeyID. destruct (_ || _); [done|]. by destruct (forallb _ _). Qed.

Lemma counting_set_open st out t l : counting st (out, t) -> good_claude (mkClaude l (cl_Counted (ps_claude t)) (cl_Unsaved (ps_claude t))) ->
  counting st (out, set_open l t).
Proof. intros [_ H] Hg. split; [exact Hg|exact H]. Qed.

Lemma attribute_open st cs : cl_Open (ps_claude (attribute st cs).2) = cl_Open (ps_claude st).
Proof. by rewrite (proj1 (attribute_claude cs st)). Qed.

Lemma closeClaudeMessage_open st i n m : cl_Open (ps_claude st) !! i = Some m -> cl_Open (ps_claude (closeClaudeMessage st i n).2) = delete i (cl_Open (ps_claude st)).
Proof.
  intros Em. unfold closeClaudeMessage. rewrite Em. destruct (count _ _) as [c new] eqn:Ec.
  assert (Ho : cl_Open c = delete i (cl_Open (ps_claude st))) by (unfold count in Ec; destruct (idset_add _ _) as [k []]; by injection Ec as <- _).
  destruct (_ || _); [exact Ho|]. by rewrite attribute_open.
Qed.

(** The oldest response makes room. *)
Lemma evict_closing t n : good_claude (ps_claude t) ->
  let r := if zlen (cl_Open (ps_claude t)) =? maxOpenClaudeMessages then closeClaudeMessage t 0 n else ([], t) in
  closing t r /\ zlen (cl_Open (ps_claude r.2)) < maxOpenClaudeMessages.
Proof.
  intros Hg. cbv zeta. destruct (Z.eqb_spec (zlen (cl_Open (ps_claude t))) maxOpenClaudeMessages) as [E|E].
  - split; [by apply closeClaudeMessage_closing|]. destruct (cl_Open (ps_claude t)) as [|m l] eqn:El; [done|].
    rewrite (closeClaudeMessage_open t 0 n m) by (by rewrite El). rewrite El. change (delete 0%nat (m :: l)) with l.
    rewrite <-E. unfold zlen. cbn [length]. lia.
  - split; [by apply closing_refl|]. pose proof (gc_open _ Hg) as Ho. cbn [snd]. lia.
Qed.

Lemma open_response_counting st parent id n : good_claude (ps_claude st) -> idHash id ∉ cl_Counted (ps_claude st) ->
  counting st (open_response st parent id n).1.
Proof.
  intros Hg Hn. unfold open_response, claudeOpenIndex. destruct (list_find _ _) as [[i m]|] eqn:Ef; cbn [fmap option_fmap option_map]; [by apply counting_same|].
  assert (Hk : idHash id ∉ op_Key <$> cl_Open (ps_claude st)).
  { intros (m&Hm&Hin)%list_elem_of_fmap. apply list_find_None in Ef. rewrite Forall_forall in Ef. by apply (Ef m Hin). }
  pose proof (closeClaudeBranch_closing st parent n Hg) as Hb. destruct (closeClaudeBranch st parent n) as [o t].
  destruct (evict_closing t n (proj1 (proj1 Hb))) as [He Hlt].
  destruct (if _ =? _ then _ else _) as [e u]. cbn [fst snd] in *. destruct (closing_then _ _ _ _ _ Hb He) as [Hcount [Hsub Hin]]. cbn [snd] in *.
  apply counting_set_open; [exact Hcount|]. apply good_push; cbn; [apply Hcount| | |done|done|apply joinKeyID_key|apply idHash_range].
  - intros Hin'. apply Hk. eapply elem_of_sublist; [exact Hin'|]. by apply fmap_sublist.
  - intros [?|?]%Hin; done.
Qed.

(** A map that keeps a field, over the list or at one place. *)
Definition mapped {A} (f : A -> A) (l k : list A) : Prop := k = map f l \/ exists i, k = alter f i l.

Lemma mapped_field {A B} (g : A -> B) f l k : (forall x, g (f x) = g x) -> mapped f l k -> g <$> k = g <$> l.
Proof.
  intros Hg [ -> | [i ->] ].
  - rewrite <-list_fmap_compose. apply list_fmap_ext. intros j x _. apply Hg.
  - apply list_eq. intros j. rewrite !list_lookup_fmap. destruct (decide (i = j)) as [->|]; [rewrite list_lookup_alter_eq|by rewrite list_lookup_alter_ne].
    destruct (l !! j) as [x|]; cbn; [by rewrite Hg|done].
Qed.

Lemma mapped_Forall {A} (P : A -> Prop) f l k : (forall x, P x -> P (f x)) -> Forall P l -> mapped f l k -> Forall P k.
Proof.
  intros Hf Hl [ -> | [i ->] ]; [apply Forall_fmap; by eapply Forall_impl|]. apply Forall_alter; [done|]. intros x _. apply Hf.
Qed.

(** Changing the open responses, their identity kept. *)
Lemma counting_map_open st out t f l : counting st (out, t) -> (forall m, op_Key (f m) = op_Key m) -> (forall m, op_ID (f m) = op_ID m) ->
  (forall m, zlen (op_Lineage m) <= maxResponseLineage -> zlen (op_Lineage (f m)) <= maxResponseLineage) ->
  mapped f (cl_Open (ps_claude t)) l -> counting st (out, set_open l t).
Proof.
  intros Hc Hk Hi Hb Hl. apply counting_set_open; [done|]. destruct Hc as [Hg _]. apply good_same; [done|by eapply mapped_field|by eapply mapped_field|].
  eapply mapped_Forall; [exact Hb|apply (gc_lineage _ Hg)|exact Hl].
Qed.

Lemma update_lineage uuid usage ts m : zlen (op_Lineage m) <= maxResponseLineage -> zlen (op_Lineage (update_message uuid usage ts m)) <= maxResponseLineage.
Proof.
  intros Hm. assert (Hl : zlen (if bool_decide (uuid = []) then op_Lineage m else trail_add (op_Lineage m) uuid) <= maxResponseLineage) by (case_bool_decide; [done|by apply trail_add_bound]).
  by destruct usage.
Qed.

Lemma extend_lineage_bound uuid parent m : zlen (op_Lineage m) <= maxResponseLineage -> zlen (op_Lineage (extend_lineage uuid parent m)) <= maxResponseLineage.
Proof. unfold extend_lineage. destruct (trail_has _ _); [apply trail_add_bound|done]. Qed.

Lemma extendClaudeLineage_counting st out t uuid parent : counting st (out, t) -> counting st (out, extendClaudeLineage t uuid parent).
Proof.
  intros Hc. unfold extendClaudeLineage. destruct (_ || _); [done|]. apply (counting_map_open st out t (extend_lineage uuid parent)); [done| | |apply extend_lineage_bound|by left].
  - intros m. unfold extend_lineage. by destruct (trail_has _ _).
  - intros m. unfold extend_lineage. by destruct (trail_has _ _).
Qed.

(** Candidates that count nothing, attributed. *)
Lemma counting_attribute st cs : good_claude (ps_claude st) -> counted_ids cs = [] -> counting st (attribute st cs).
Proof.
  intros Hg Hcs. destruct (attribute_claude cs st) as [H1 H2]. destruct (attribute st cs) as [o t]. cbn [fst snd] in *. apply counting_same; [done|done|congruence].
Qed.

Lemma counting_start st m ts n : good_claude (ps_claude st) -> counting st (startSession st m ts n).
Proof. intros Hg. destruct (startSession_claude st m ts n) as [H1 H2]. destruct (startSession st m ts n) as [o t]. by apply counting_same. Qed.

Lemma counting_from st st' r : ps_claude st' = ps_claude st -> counting st' r -> counting st r.
Proof. intros He [H1 H2]. split; [done|]. by rewrite <-He. Qed.

Lemma claudeAssistant_counting st uuid parent m ts n : good_claude (ps_claude st) -> counting st (claudeAssistant st uuid parent m ts n).
Proof.
  intros Hg. unfold claudeAssistant.
  assert (Hs : counting st (if isClaudeModel (rm_Model m) then startSession st (rm_Model m) ts n else ([], st)))
    by (destruct (isClaudeModel _); [by apply counting_start|by apply counting_same]).
  destruct (if isClaudeModel _ then _ else _) as [start t]. pose proof (proj1 Hs) as Ht. cbn [snd] in Ht.
  case_bool_decide.
  - destruct (rm_Usage m) as [u|]; [|done]. destruct (hasTokens u); [|done].
    assert (Ha : counting t (attribute t [claude_candidate u ts n []])) by (by apply counting_attribute). destruct (attribute t _) as [o t']. by eapply counting_then.
  - destruct (idset_has _ _) eqn:Eh; [done|]. assert (Hn : idHash (rm_ID m) ∉ cl_Counted (ps_claude t)).
    { intros Hin. apply (idset_has_iff _ _ (gc_sorted _ Ht)) in Hin. congruence. }
    pose proof (open_response_counting t parent (rm_ID m) n Ht Hn) as Ho. destruct (open_response t parent (rm_ID m) n) as [[closed t'] i]. cbn [fst] in Ho.
    set (t'' := set_open _ t'). assert (Hu : counting t (closed, t'')).
    { apply (counting_map_open t closed t' (update_message uuid (rm_Usage m) ts)); [done| | |apply update_lineage|right; by exists i]; intros x; by destruct (rm_Usage m). }
    destruct (finished m); [|by eapply counting_then]. pose proof (closeClaudeMessage_closing t'' i n (proj1 Hu)) as [Hc _].
    destruct (closeClaudeMessage t'' i n) as [o v]. eapply counting_then; [exact Hs|]. by eapply counting_then.
Qed.


(** ** Candidates that count nothing *)

Lemma uncounted cs : Forall (fun c => counted_id c = None) cs -> counted_ids cs = [].
Proof. induction 1 as [|c l Hc _ IH]; [done|]. unfold counted_ids in *. cbn. by rewrite Hc. Qed.

Lemma usage_candidates_uncounted u ts n id : counted_ids (usage_candidates u ts n id) = [].
Proof. unfold usage_candidates. by destruct (work u =? 0). Qed.

Lemma stamp_counted st cs : counted_ids (stamp st cs) = counted_ids cs.
Proof.
  unfold stamp. destruct (session_ref _) as [ref|]; [|done]. induction cs as [|c l IH]; [done|]. unfold counted_ids in *. cbn. rewrite IH.
  assert (E : counted_id (if is_lifecycle c then c else with_session (Some ref) c) = counted_id c); [|by rewrite E].
  destruct (is_lifecycle c); [done|]. unfold with_session. by destruct (ca_Session c).
Qed.

Lemma counting_stamp st st' out t : counting st (out, t) -> counting st (stamp st' out, t).
Proof. intros [Hg (new&HU&HD&HF&HC&HS)]. split; [done|]. exists new. cbn [fst snd] in *. by rewrite stamp_counted. Qed.

Section host.
Context {H : Type} `{HV : Host H}.

Lemma extracted_uncounted surface s cfg ts n (h : H) : counted_ids (extractedCandidates surface s cfg ts n h).1 = [].
Proof.
  unfold extractedCandidates. destruct (ExtractReferences surface s cfg h) as [[refs diags] h']. cbn [fst]. apply uncounted.
  apply Forall_app. split; apply Forall_fmap, Forall_true; [|done]. by intros [].
Qed.

(** What the tool blocks yield changes nothing of the carry. *)
Lemma claude_block_uncounted st b cfg ts n (h : H) :
  let r := claude_block st b cfg ts n h in ps_claude r.1.2 = ps_claude st /\ counted_ids r.1.1 = [].
Proof.
  cbv zeta. unfold claude_block.
  assert (Hx : forall st' surface s, ps_claude st' = ps_claude st -> let r := (let '(out, h') := extractedCandidates surface s cfg ts n h in (out, st', h')) in
    ps_claude r.1.2 = ps_claude st /\ counted_ids r.1.1 = []).
  { intros st' surface s He. pose proof (extracted_uncounted surface s cfg ts n h) as Hu. by destruct (extractedCandidates surface s cfg ts n h). }
  case_bool_decide.
  - assert (He : ps_claude (recordToolSurface st (bk_ID b) (bk_Name b) (claudeToolCommand (bk_Input b))) = ps_claude st)
      by (unfold recordToolSurface; by case_bool_decide).
    case_bool_decide; [done|by apply Hx].
  - case_bool_decide; [|done]. destruct (_ || _); [done|by apply Hx].
Qed.

Lemma claudeToolCandidates_uncounted blocks : forall st cfg ts n (h : H),
  let r := claudeToolCandidates st blocks cfg ts n h in ps_claude r.1.2 = ps_claude st /\ counted_ids r.1.1 = [].
Proof.
  induction blocks as [|b l IH]; intros st cfg ts n h; [done|]. cbn [claudeToolCandidates].
  pose proof (claude_block_uncounted st b cfg ts n h) as H1. destruct (claude_block st b cfg ts n h) as [[o t] h1].
  pose proof (IH t cfg ts n h1) as H2. destruct (claudeToolCandidates t l cfg ts n h1) as [[r u] h2]. cbn [fst snd] in *.
  destruct H1 as [E1 O1], H2 as [E2 O2]. split; [congruence|]. by rewrite counted_ids_app, O1, O2.
Qed.

Lemma claude_record_counting st probe parent m blocks ts n : good_claude (ps_claude st) -> counting st (claude_record st probe parent m blocks ts n).
Proof.
  intros Hg. unfold claude_record. destruct m as [m|]; [|by apply counting_same]. case_bool_decide; [by apply claudeAssistant_counting|].
  destruct (_ && _); [by apply closeClaudeBranch_closing|by apply counting_same].
Qed.

Lemma parseClaudeLine_counting st probe n cfg (h : H) : good_claude (ps_claude st) -> counting st (parseClaudeLine st probe n cfg h).1.
Proof.
  intros Hg. unfold parseClaudeLine. set (ts := probeTime probe). set (m := unmarshal _ _ _). set (blocks := match m with Some _ => _ | None => _ end). set (parent := if bool_decide (fp_ParentUUID probe = []) then _ else _).
  assert (He : counting st (if bool_decide (fp_SessionIDCamel probe = []) then ([], st) else enterClaudeSession st (fp_SessionIDCamel probe) ts n))
    by (case_bool_decide; [by apply counting_same|by apply enterClaudeSession_counting]).
  destruct (if bool_decide (fp_SessionIDCamel probe = []) then _ else _) as [entered t].
  pose proof (claude_record_counting t probe parent m blocks ts n (proj1 He)) as Hr. destruct (claude_record t probe parent m blocks ts n) as [out u].
  assert (Hx := extendClaudeLineage_counting _ _ _ (fp_UUID probe) parent (counting_then _ _ _ _ _ He Hr)). set (v := extendClaudeLineage _ _ _) in *.
  destruct m as [m|]; [|done]. pose proof (claudeToolCandidates_uncounted blocks v cfg ts n h) as Ht.
  destruct (claudeToolCandidates v blocks cfg ts n h) as [[tools w] h']. cbn in Ht. destruct Ht as [E O].
  assert (Ha : counting v (attribute w tools)) by (eapply counting_from; [exact E|]; apply counting_attribute; [rewrite E; apply Hx|done]).
  destruct (attribute w tools) as [tools' x]. cbn [fst]. rewrite app_assoc. by eapply counting_then.
Qed.

(** ** Rollout records *)

Lemma response_item_uncounted st payload cfg ts n (h : H) :
  let r := parseRolloutResponseItem st payload cfg ts n h in ps_claude r.1.2 = ps_claude st /\ counted_ids r.1.1 = [].
Proof.
  cbv zeta. unfold parseRolloutResponseItem. destruct (unmarshal ItemType _ _) as [[kind callID]|]; [|done]. case_bool_decide; [done|]. case_bool_decide.
  - destruct (rolloutCallCommand kind payload) as [name command]. case_bool_decide; [done|].
    pose proof (extracted_uncounted TOOL_CALL (mkSurface name command) cfg ts n h) as Hu. destruct (extractedCandidates _ _ _ _ _ _). cbn in *.
    split; [|done]. unfold recordToolSurface. by case_bool_decide.
  - case_bool_decide; [|done]. case_bool_decide; [done|]. destruct (unmarshal OutputItemType _ _) as [raw|]; [|done]. case_bool_decide; [done|].
    pose proof (extracted_uncounted TOOL_RESULT (mkSurface (toolSurfaceFor st callID) (rolloutOutputText raw)) cfg ts n h) as Hu.
    by destruct (extractedCandidates _ _ _ _ _ _).
Qed.

Lemma parse_session_meta_claude st payload ts : ps_claude (parse_session_meta st payload ts) = ps_claude st.
Proof. unfold parse_session_meta. destruct (unmarshal _ _ _) as [[id version]|]; [|done]. destruct (_ || _); [done|]. by destruct (writesUsageRecords _). Qed.

Lemma parse_usage_record_counting st payload ts n : good_claude (ps_claude st) -> counting st (parse_usage_record st payload ts n).
Proof.
  intros Hg. unfold parse_usage_record. destruct (unmarshal _ _ _) as [[responseID [usage|]]|]; [|by apply counting_same|by apply counting_same].
  eapply counting_from; [|apply counting_attribute; [exact Hg|apply usage_candidates_uncounted]]. done.
Qed.

Lemma parse_event_counting st payload ts n : good_claude (ps_claude st) -> counting st (parse_event st payload ts n).
Proof.
  intros Hg. unfold parse_event. destruct (ro_RecordMode _); [by apply counting_same|].
  destruct (unmarshal _ _ _) as [[[kind total] [last|]]|]; [|by apply counting_same|by apply counting_same].
  destruct (negb _); [by apply counting_same|]. destruct total as [t|]; [|apply counting_attribute; [done|apply usage_candidates_uncounted]].
  case_bool_decide; [by apply counting_same|]. eapply counting_from; [|apply counting_attribute; [exact Hg|apply usage_candidates_uncounted]]. done.
Qed.

Lemma parseRolloutLine_counting st probe n cfg (h : H) : good_claude (ps_claude st) -> counting st (parseRolloutLine st probe n cfg h).1.
Proof.
  intros Hg. unfold parseRolloutLine. case_bool_decide; [apply counting_same; [done|apply parse_session_meta_claude|done]|].
  case_bool_decide.
  { cbn [fst]. unfold parse_turn_context. destruct (unmarshal _ _ _); [|by apply counting_same]. case_bool_decide; [by apply counting_same|by apply counting_start]. }
  case_bool_decide.
  - pose proof (response_item_uncounted st (fp_Payload probe) cfg (probeTime probe) n h) as Hi.
    destruct (parseRolloutResponseItem _ _ _ _ _ _) as [[out t] h']. cbn in Hi. destruct Hi as [E O]. cbn [fst].
    eapply counting_from; [exact E|]. apply counting_attribute; [by rewrite E|done].
  - case_bool_decide; [by apply parse_usage_record_counting|]. case_bool_decide; [by apply parse_event_counting|by apply counting_same].
Qed.

(** ** Lines *)

Lemma parseNormalizedLine_uncounted line n cfg (h : H) : counted_ids (parseNormalizedLine line n cfg h).1 = [].
Proof.
  unfold parseNormalizedLine. destruct (raw_of <$> _) as [rec|]; [|done]. set (ts := default _ _). case_bool_decide.
  { unfold parseMessage. cbn [fst]. by destruct (messageRole _). }
  case_bool_decide.
  { unfold parseToolCall. destruct (toolCallCategory _) as [category|]; [|done].
    pose proof (extracted_uncounted TOOL_CALL (mkSurface (rr_Tool rec) (rr_Command rec)) cfg ts n h) as Hu. by destruct (extractedCandidates _ _ _ _ _ _). }
  case_bool_decide.
  { unfold parseToolResult. destruct (toolResultCategory _) as [category|]; [|done]. destruct (toolResultStatus _) as [status|]; [|done].
    pose proof (extracted_uncounted TOOL_RESULT (mkSurface (rr_Tool rec) (rr_Output rec)) cfg ts n h) as Hu. by destruct (extractedCandidates _ _ _ _ _ _). }
  case_bool_decide.
  { unfold parseUsage. cbn [fst]. destruct (usageQuality _); [|done]. apply uncounted. constructor; [|done]. unfold counted_id. cbn. by rewrite andb_false_r. }
  case_bool_decide; [|done]. unfold parseSession. cbn [fst]. destruct (sessionTransition _); [|done]. by destruct (sessionStartSource _).
Qed.

Lemma parseLine_counting st line n cfg (h : H) : good_claude (ps_claude st) -> counting st (parseLine st line n cfg h).1.
Proof.
  intros Hg. unfold parseLine. destruct (probe_of <$> _) as [probe|]; [|by apply counting_same]. destruct (isNormalizedType _).
  { pose proof (parseNormalizedLine_uncounted line n cfg h) as Hu. destruct (parseNormalizedLine line n cfg h) as [out h']. by apply counting_same. }
  case_bool_decide; [by apply parseRolloutLine_counting|]. destruct (_ || _); [by apply parseClaudeLine_counting|]. destruct (isClaudeBookkeepingType _); by apply counting_same.
Qed.

Lemma parse_one_counting cfg st line n (h : H) : good_claude (ps_claude st) -> counting st (parse_one cfg st line n h).1.
Proof.
  intros Hg. unfold parse_one. case_bool_decide; [by apply counting_same|].
  assert (Hp : counting st (emit_pending st n)).
  { unfold emit_pending. destruct (ro_Pending _) as [p|]; [|by apply counting_same].
    eapply counting_from; [|apply counting_attribute; [exact Hg|apply usage_candidates_uncounted]]. done. }
  destruct (emit_pending st n) as [pending t]. pose proof (parseLine_counting t (TrimSpace line) n cfg h (proj1 Hp)) as Hl.
  destruct (parseLine t (TrimSpace line) n cfg h) as [[out u] h']. cbn [fst] in *. eapply counting_then; [exact Hp|]. by apply counting_stamp.
Qed.

Lemma parse_lines_counting fuel : forall cfg st data n (h : H), good_claude (ps_claude st) ->
  let '(out, _, _, t, _) := parse_lines fuel cfg st data n h in counting st (out, t).
Proof.
  induction fuel as [|fuel IH]; intros cfg st data n h Hg; cbn [parse_lines]; [by apply counting_same|].
  destruct (cut x0a data) as [line [rest|]]; [|by apply counting_same]. pose proof (parse_one_counting cfg st line (n + 1) h Hg) as H1.
  destruct (parse_one cfg st line (n + 1) h) as [[out t] h1]. cbn [fst] in H1. specialize (IH cfg t rest (n + 1) h1 (proj1 H1)).
  destruct (parse_lines fuel cfg t rest (n + 1) h1) as [[[[more rest'] n'] u] h2]. by eapply counting_then.
Qed.

Lemma parse_counting data cfg carry complete (h : H) : good_claude (tc_claude carry) ->
  let r := (parse data cfg carry complete h).1 in good_claude (tc_claude (px_carry r)) /\ counts (tc_claude carry) (px_Candidates r) (tc_claude (px_carry r)).
Proof.
  intros Hg. cbv zeta. unfold parse. pose proof (parse_lines_counting (length data) cfg (newParseState carry) data 0 h Hg) as Hl.
  destruct (parse_lines (length data) cfg (newParseState carry) data 0 h) as [[[[cands rest] n] t] h']. 
  assert (Hc : counting t (if complete then closeClaudeMessages t n else ([], t)))
    by (destruct complete; [apply closeClaudeMessages_closing|apply counting_same; [|done..]]; apply Hl).
  destruct (if complete then _ else _) as [closed u]. cbn [fst px_carry px_Candidates]. exact (counting_then _ _ _ _ _ Hl Hc).
Qed.

End host.

Lemma good_no_claude : good_claude no_claude.
Proof. split; cbn; try constructor; try done. Qed.
