(* ===== verification/Numbered.v ===== *)
(** * Line numbers and unsaved ids ([Parser.parse])

    A candidate carries the number of the line that yielded it, counted from the start of the buffer, and
    a buffer's candidates are in the order of its lines. A parse only adds to the ids a save has not
    written yet: it yields the same with others before them. *)

From S2P Require Import Prelude GoStrings Lines GoTime Json GoNet GoPath GoJson StrictDecode BeadPrefix Fields Validate Evidence Policy Regex RefExtract.
From S2P Require Import Transcript Rollout Claude Parser ParseSplit.

Definition on_line (n : Z) (cs : list Candidate) : Prop := Forall (fun c => ca_LineNumber c = n) cs.

Lemma on_app n a b : on_line n a -> on_line n b -> on_line n (a ++ b).
Proof. intros Ha Hb. by apply Forall_app. Qed.
Lemma on_nil n : on_line n [].
Proof. constructor. Qed.
Lemma on_one n c : ca_LineNumber c = n -> on_line n [c].
Proof. by repeat constructor. Qed.
Lemma on_cons n c l : ca_LineNumber c = n -> on_line n l -> on_line n (c :: l).
Proof. by constructor. Qed.

Create HintDb lines.
#[local] Hint Resolve on_app on_nil on_one on_cons : lines.

Lemma startSession_on st m ts n : on_line n (startSession st m ts n).1.
Proof. unfold startSession. destruct (_ || _); cbn; auto with lines. Qed.

Lemma with_session_line r c : ca_LineNumber (with_session r c) = ca_LineNumber c.
Proof. unfold with_session. by destruct (ca_Session c). Qed.

Lemma attribute_on n cs : forall st, on_line n cs -> on_line n (attribute st cs).1.
Proof.
  induction cs as [|c l IH]; intros st Hc; [constructor|]. apply Forall_cons in Hc as [Hc Hl]. cbn [attribute].
  assert (Hs : on_line n (if is_usage c then startSession st [] (ca_OccurredAt c) (ca_LineNumber c) else ([], st)).1) by (destruct (is_usage c); [rewrite Hc; apply startSession_on|constructor]).
  destruct (if is_usage c then _ else _) as [start t]. specialize (IH t Hl). destruct (attribute t l) as [out u]. cbn [fst] in *. apply on_app; [done|]. constructor; [by rewrite with_session_line|done].
Qed.

Lemma stamp_on n st cs : on_line n cs -> on_line n (stamp st cs).
Proof.
  intros Hc. unfold stamp. destruct (session_ref _); [|done]. apply Forall_map. eapply Forall_impl; [exact Hc|]. intros c <-. destruct (is_lifecycle c); [done|]. by rewrite with_session_line.
Qed.

Section host.
Context {H : Type} `{HV : Host H}.

Lemma extracted_on surface s cfg ts n (h : H) : on_line n (extractedCandidates surface s cfg ts n h).1.
Proof.
  unfold extractedCandidates. destruct (ExtractReferences surface s cfg h) as [[refs diags] h']. cbn [fst]. apply on_app; apply Forall_map, Forall_forall; intros x _; [by destruct x|done].
Qed.

Lemma closeClaudeMessage_on st i n : on_line n (closeClaudeMessage st i n).1.
Proof.
  unfold closeClaudeMessage. destruct (_ !! i) as [m|]; [|constructor]. destruct (count _ _) as [c new]. destruct (_ || _); [constructor|]. apply attribute_on. by apply on_one.
Qed.

Lemma close_open_on n fuel : forall st, on_line n (close_open fuel st n).1.
Proof.
  induction fuel as [|fuel IH]; intros st; cbn [close_open]; [constructor|]. destruct (cl_Open _); [constructor|]. pose proof (closeClaudeMessage_on st 0 n) as Hc.
  destruct (closeClaudeMessage st 0 n) as [out t]. specialize (IH t). destruct (close_open fuel t n). cbn in *. by apply on_app.
Qed.

Lemma close_branch_on n parent fuel : forall i st, on_line n (close_branch fuel i st parent n).1.
Proof.
  induction fuel as [|fuel IH]; intros i st; cbn [close_branch]; [constructor|]. destruct (_ !! i); [|constructor]. destruct (trail_has _ _); [|apply IH].
  pose proof (closeClaudeMessage_on st i n) as Hc. destruct (closeClaudeMessage st i n) as [out t]. specialize (IH i t). destruct (close_branch fuel i t parent n). cbn in *. by apply on_app.
Qed.

Lemma closeClaudeBranch_on st parent n : on_line n (closeClaudeBranch st parent n).1.
Proof. unfold closeClaudeBranch. case_bool_decide; [constructor|apply close_branch_on]. Qed.

Lemma enterClaudeSession_on st id ts n : on_line n (enterClaudeSession st id ts n).1.
Proof.
  unfold enterClaudeSession. assert (Hr : forall o t, on_line n o -> on_line n (let s := ps_session t in if negb (sc_Started s) && negb (IsZero ts) && (IsZero (sc_StartedAt s) || Before ts (sc_StartedAt s))
    then (o, set_session (mkSession (sc_NativeID s) (sc_Provider s) ts (sc_Started s) (sc_Sessions s)) t) else (o, t)).1) by (intros o t Ho; cbv zeta; by destruct (_ && _)).
  pose proof (close_open_on n (length (cl_Open (ps_claude st))) st) as Hc. unfold closeClaudeMessages. case_bool_decide; [exact (Hr [] st (on_nil n))|].
  case_bool_decide; [exact (Hr [] _ (on_nil n))|]. destruct (close_open _ st n). exact (Hr _ _ Hc).
Qed.

Lemma open_response_on st parent id n : on_line n (open_response st parent id n).1.1.
Proof.
  unfold open_response. destruct (claudeOpenIndex _ _); [constructor|]. pose proof (closeClaudeBranch_on st parent n) as Hb. destruct (closeClaudeBranch st parent n) as [out t]. cbn in Hb.
  assert (He : on_line n (if zlen (cl_Open (ps_claude t)) =? maxOpenClaudeMessages then closeClaudeMessage t 0 n else ([], t)).1) by (destruct (_ =? _); [apply closeClaudeMessage_on|constructor]).
  destruct (if _ =? _ then _ else _) as [ev u]. cbn in *. by apply on_app.
Qed.

Lemma claudeAssistant_on st uuid parent m ts n : on_line n (claudeAssistant st uuid parent m ts n).1.
Proof.
  unfold claudeAssistant. assert (Hs : on_line n (if isClaudeModel (rm_Model m) then startSession st (rm_Model m) ts n else ([], st)).1) by (destruct (isClaudeModel _); [apply startSession_on|constructor]).
  destruct (if isClaudeModel _ then _ else _) as [start t]. cbn in Hs. case_bool_decide.
  - destruct (rm_Usage m) as [u|]; [|done]. destruct (hasTokens u); [|done]. pose proof (attribute_on n [claude_candidate u ts n []] t ltac:(by apply on_one)) as Ha. destruct (attribute t _). cbn in *. by apply on_app.
  - destruct (idset_has _ _); [done|]. pose proof (open_response_on t parent (rm_ID m) n) as Ho. destruct (open_response t parent (rm_ID m) n) as [[closed v] i]. cbn in Ho. destruct (finished m); [|by apply on_app].
    set (w := set_open _ v). pose proof (closeClaudeMessage_on w i n) as Hc. destruct (closeClaudeMessage w i n). cbn in *. auto with lines.
Qed.

Lemma claudeTools_on cfg ts n blocks : forall st (h : H), on_line n (claudeToolCandidates st blocks cfg ts n h).1.1.
Proof.
  induction blocks as [|b l IH]; intros st h; cbn [claudeToolCandidates]; [constructor|]. assert (Hb : on_line n (claude_block st b cfg ts n h).1.1).
  { unfold claude_block. case_bool_decide; [|case_bool_decide; [|constructor]].
    - case_bool_decide; [constructor|]. match goal with |- context [extractedCandidates ?a ?b ?c ?d ?e ?f] => pose proof (extracted_on a b c d e f) as Hx; by destruct (extractedCandidates a b c d e f) end.
    - destruct (_ || _); [constructor|]. match goal with |- context [extractedCandidates ?a ?b ?c ?d ?e ?f] => pose proof (extracted_on a b c d e f) as Hx; by destruct (extractedCandidates a b c d e f) end. }
  destruct (claude_block st b cfg ts n h) as [[out t] h1]. specialize (IH t h1). destruct (claudeToolCandidates t l cfg ts n h1) as [[rest u] h2]. cbn in *. by apply on_app.
Qed.

Lemma parseClaudeLine_on st probe n cfg (h : H) : on_line n (parseClaudeLine st probe n cfg h).1.1.
Proof.
  unfold parseClaudeLine. assert (He : on_line n (if bool_decide (fp_SessionIDCamel probe = []) then ([], st) else enterClaudeSession st (fp_SessionIDCamel probe) (probeTime probe) n).1)
    by (case_bool_decide; [constructor|apply enterClaudeSession_on]).
  destruct (if bool_decide _ then _ else _) as [entered t]. cbn in He. set (m := unmarshal _ _ _). set (blocks := match m with Some _ => _ | None => _ end). set (parent := if bool_decide (fp_ParentUUID probe = []) then _ else _).
  assert (Hr : on_line n (claude_record t probe parent m blocks (probeTime probe) n).1).
  { unfold claude_record. destruct m as [r|]; [|constructor]. case_bool_decide; [apply claudeAssistant_on|]. destruct (_ && _); [apply closeClaudeBranch_on|constructor]. }
  destruct (claude_record t probe parent m blocks (probeTime probe) n) as [out u]. cbn in Hr. destruct m; [|by apply on_app].
  set (v := extendClaudeLineage u _ _). pose proof (claudeTools_on cfg (probeTime probe) n blocks v h) as Ht. destruct (claudeToolCandidates v blocks cfg (probeTime probe) n h) as [[tools w] h1]. cbn in Ht.
  pose proof (attribute_on n tools w Ht) as Ha. destruct (attribute w tools). cbn in *. auto with lines.
Qed.

Lemma usage_candidates_on u ts n id : on_line n (usage_candidates u ts n id).
Proof. unfold usage_candidates. destruct (_ =? _); by repeat constructor. Qed.

Lemma pending_candidates_on p n : on_line n (pending_candidates p n).
Proof. apply usage_candidates_on. Qed.

Lemma parseRolloutLine_on st probe n cfg (h : H) : on_line n (parseRolloutLine st probe n cfg h).1.1.
Proof.
  unfold parseRolloutLine. case_bool_decide; [constructor|]. case_bool_decide.
  { cbn. unfold parse_turn_context. destruct (unmarshal _ _ _) as [model|]; [|constructor]. case_bool_decide; [constructor|apply startSession_on]. }
  case_bool_decide.
  { assert (Hi : on_line n (parseRolloutResponseItem st (fp_Payload probe) cfg (probeTime probe) n h).1.1).
    { unfold parseRolloutResponseItem. repeat (case_match; try constructor); simplify_eq/=; try done.
      all: match goal with E : extractedCandidates ?a ?b ?c ?d ?e ?f = _ |- _ => pose proof (extracted_on a b c d e f) as Hx; by rewrite E in Hx end. }
    destruct (parseRolloutResponseItem st (fp_Payload probe) cfg (probeTime probe) n h) as [[out t] h1]. cbn in *. by apply attribute_on. }
  case_bool_decide.
  { cbn. unfold parse_usage_record. destruct (unmarshal _ _ _) as [[rid [u|]]|]; [|constructor..]. apply attribute_on, usage_candidates_on. }
  case_bool_decide; [|constructor]. cbn. unfold parse_event. destruct (ro_RecordMode _); [constructor|]. destruct (unmarshal _ _ _) as [[[kind total] [last|]]|]; [|constructor..].
  destruct (negb _); [constructor|]. destruct total as [t|]; [|apply attribute_on, usage_candidates_on]. case_bool_decide; [constructor|apply attribute_on, usage_candidates_on].
Qed.

Lemma parseNormalizedLine_on line n cfg (h : H) : on_line n (parseNormalizedLine line n cfg h).1.
Proof.
  unfold parseNormalizedLine. destruct (raw_of <$> _) as [r|]; [|by apply on_one]. cbv zeta.
  repeat (case_bool_decide; [cbn [fst]; unfold parseMessage, parseUsage, parseSession, parseToolCall, parseToolResult;
    repeat (case_match; auto with lines); simplify_eq/=; auto with lines|]); try (by apply on_one).
  all: match goal with E : extractedCandidates ?a ?b ?c ?d ?e ?f = _ |- _ => pose proof (extracted_on a b c d e f) as Hx; rewrite E in Hx; by apply on_cons end.
Qed.

Lemma parse_one_on cfg st line n (h : H) : on_line n (parse_one cfg st line n h).1.1.
Proof.
  unfold parse_one. case_bool_decide; [constructor|]. assert (Hp : on_line n (emit_pending st n).1).
  { unfold emit_pending. destruct (ro_Pending _); [|constructor]. apply attribute_on, pending_candidates_on. }
  destruct (emit_pending st n) as [p t]. cbn in Hp. assert (Hl : on_line n (parseLine t (TrimSpace line) n cfg h).1.1).
  { unfold parseLine. destruct (probe_of <$> _) as [probe|]; [|by apply on_one]. destruct (isNormalizedType _).
    - pose proof (parseNormalizedLine_on (TrimSpace line) n cfg h) as Hn. by destruct (parseNormalizedLine (TrimSpace line) n cfg h).
    - case_bool_decide; [apply parseRolloutLine_on|]. destruct (_ || _); [apply parseClaudeLine_on|]. destruct (isClaudeBookkeepingType _); [constructor|by apply on_one]. }
  destruct (parseLine t (TrimSpace line) n cfg h) as [[out u] h1]. cbn in *. apply on_app; [done|by apply stamp_on].
Qed.
End host.

(** ** A buffer's whole lines *)

(** Parsing whole lines yields the first of the candidates of any buffer that begins with them, numbered no higher than their count. *)
Lemma parse_lines_prefix {H} `{HV : Host H} cfg fuel1 : forall fuel a b st n (h : H), whole_lines a -> (length a <= fuel1)%nat -> (length (a ++ b) <= fuel)%nat ->
  (parse_lines fuel1 cfg st a n h).1.1.1.1 `prefix_of` (parse_lines fuel cfg st (a ++ b) n h).1.1.1.1
  /\ Forall (fun c => ca_LineNumber c <= n + zlen (complete_lines a)) (parse_lines fuel1 cfg st a n h).1.1.1.1.
Proof.
  induction fuel1 as [|fuel1 IH]; intros fuel a b st n h Ha Hf1 Hf.
  { destruct a; [|cbn in Hf1; lia]. cbn. split; [apply prefix_nil|constructor]. }
  cbn [parse_lines]. destruct (cut x0a a) as [line [rest|]] eqn:E; [|split; [apply prefix_nil|constructor]].
  apply cut_Some in E as [-> Hn]. rewrite <-app_assoc in *. cbn [app] in *. rewrite length_app in Hf1, Hf. cbn in Hf1, Hf. destruct fuel as [|fuel]; [lia|]. cbn [parse_lines]. rewrite cut_app by done.
  assert (Hr : whole_lines rest).
  { destruct Ha as [Ha|(l&Hl)]; [by destruct line|]. destruct rest as [|x rest] using rev_ind; [by left|]. right. exists rest. rewrite app_comm_cons, app_assoc in Hl. by apply app_inj_tail in Hl as [_ ->]. }
  pose proof (parse_one_on cfg st line (n + 1) h) as Ho. destruct (parse_one cfg st line (n + 1) h) as [[o t] h1]. cbn [fst] in Ho.
  destruct (IH fuel rest b t (n + 1) h1 Hr ltac:(lia) ltac:(lia)) as [Hp Hc].
  destruct (parse_lines fuel1 cfg t rest (n + 1) h1) as [[[[m r] k] u] h2], (parse_lines fuel cfg t (rest ++ b) (n + 1) h1) as [[[[m' r'] k'] u'] h2']. cbn [fst snd] in *.
  rewrite complete_lines_cons by done. change (zlen (line :: complete_lines rest)) with (zlen ([line] ++ complete_lines rest)). rewrite zlen_app. change (zlen [line]) with 1. split; [by apply prefix_app|].
  apply Forall_app. split; [|eapply Forall_impl; [exact Hc|]; cbn; lia]. eapply Forall_impl; [exact Ho|]. cbn. intros c ->. pose proof (zlen_nonneg (complete_lines rest)). lia.
Qed.

Lemma parse_prefix {H} `{HV : Host H} a b cfg carry (h : H) : whole_lines a ->
  px_Candidates (parseWithCarry a cfg carry h).1 `prefix_of` px_Candidates (parseWithCarry (a ++ b) cfg carry h).1
  /\ Forall (fun c => ca_LineNumber c <= zlen (complete_lines a)) (px_Candidates (parseWithCarry a cfg carry h).1).
Proof.
  intros Ha. unfold parseWithCarry, parse. pose proof (parse_lines_prefix cfg (length a) (length (a ++ b)) a b (newParseState carry) 0 h Ha ltac:(lia) ltac:(lia)) as Hp.
  destruct (parse_lines (length a) cfg _ a 0 h) as [[[[m r] k] u] h2], (parse_lines (length (a ++ b)) cfg _ (a ++ b) 0 h) as [[[[m' r'] k'] u'] h2']. cbn [fst snd px_Candidates] in *. by rewrite !app_nil_r.
Qed.

(** ** The ids a save has not written yet ([claudeCarry.Unsaved]) *)

Section unsaved.
Variable u : list Z.

Definition older_claude (c : claudeCarry) : claudeCarry := mkClaude (cl_Open c) (cl_Counted c) (u ++ cl_Unsaved c).
Definition older_carry (c : transcriptCarry) : transcriptCarry := mkCarry (tc_rollout c) (tc_session c) (older_claude (tc_claude c)).
Definition older (st : parseState) : parseState := mkParseState (older_carry (ps_carry st)) (ps_tools st).
Definition older2 {A} (r : A * parseState) : A * parseState := (r.1, older r.2).
Definition older3 {A H} (r : A * parseState * H) : A * parseState * H := (r.1.1, older r.1.2, r.2).

Lemma older_set_session s st : set_session s (older st) = older (set_session s st).
Proof. done. Qed.
Lemma older_set_rollout r st : set_rollout r (older st) = older (set_rollout r st).
Proof. done. Qed.
Lemma older_set_open l st : set_open l (older st) = older (set_open l st).
Proof. done. Qed.
Lemma older_set_claude c st : set_claude (older_claude c) (older st) = older (set_claude c st).
Proof. done. Qed.
Lemma older_count c key : count (older_claude c) key = (older_claude (count c key).1, (count c key).2).
Proof. unfold count. change (cl_Counted (older_claude c)) with (cl_Counted c). destruct (idset_add (cl_Counted c) key) as [counted [|]]; [|done]. unfold older_claude. cbn. by rewrite app_assoc. Qed.

Lemma older_startSession st m ts n : startSession (older st) m ts n = older2 (startSession st m ts n).
Proof. unfold startSession. change (ps_session (older st)) with (ps_session st). by destruct (_ || _). Qed.

Lemma older_attribute cs : forall st, attribute (older st) cs = older2 (attribute st cs).
Proof.
  induction cs as [|c l IH]; intros st; [done|]. cbn [attribute]. rewrite older_startSession.
  destruct (is_usage c); [destruct (startSession st _ _ _) as [s t]; cbn [older2 fst snd]|]; rewrite IH; change (ps_session (older ?t)) with (ps_session t).
  - by destruct (attribute t l).
  - by destruct (attribute st l).
Qed.

Lemma older_closeClaudeMessage st i n : closeClaudeMessage (older st) i n = older2 (closeClaudeMessage st i n).
Proof.
  unfold closeClaudeMessage. change (cl_Open (ps_claude (older st))) with (cl_Open (ps_claude st)). destruct (_ !! i) as [m|]; [|done]. rewrite older_set_open.
  set (t := set_open _ st). change (ps_claude (older t)) with (older_claude (ps_claude t)). rewrite older_count. destruct (count (ps_claude t) (op_Key m)) as [c new]. cbn [fst snd].
  rewrite older_set_claude. destruct (_ || _); [done|]. apply older_attribute.
Qed.

Lemma older_close_open n fuel : forall st, close_open fuel (older st) n = older2 (close_open fuel st n).
Proof.
  induction fuel as [|fuel IH]; intros st; cbn [close_open]; [done|]. change (cl_Open (ps_claude (older st))) with (cl_Open (ps_claude st)). destruct (cl_Open _); [done|].
  rewrite older_closeClaudeMessage. destruct (closeClaudeMessage st 0 n) as [o t]. cbn [older2 fst snd]. rewrite IH. by destruct (close_open fuel t n).
Qed.

Lemma older_close_branch n parent fuel : forall i st, close_branch fuel i (older st) parent n = older2 (close_branch fuel i st parent n).
Proof.
  induction fuel as [|fuel IH]; intros i st; cbn [close_branch]; [done|]. change (cl_Open (ps_claude (older st))) with (cl_Open (ps_claude st)). destruct (_ !! i); [|done]. destruct (trail_has _ _); [|apply IH].
  rewrite older_closeClaudeMessage. destruct (closeClaudeMessage st i n) as [o t]. cbn [older2 fst snd]. rewrite IH. by destruct (close_branch fuel i t parent n).
Qed.

Lemma older_closeClaudeBranch st parent n : closeClaudeBranch (older st) parent n = older2 (closeClaudeBranch st parent n).
Proof. unfold closeClaudeBranch. case_bool_decide; [done|]. apply older_close_branch. Qed.

Lemma older_enterClaudeSession st id ts n : enterClaudeSession (older st) id ts n = older2 (enterClaudeSession st id ts n).
Proof.
  unfold enterClaudeSession, closeClaudeMessages. change (cl_Open (ps_claude (older st))) with (cl_Open (ps_claude st)). rewrite older_close_open.
  assert (Hr : forall (o : list Candidate) t, (let s := ps_session (older t) in if negb (sc_Started s) && negb (IsZero ts) && (IsZero (sc_StartedAt s) || Before ts (sc_StartedAt s))
      then (o, set_session (mkSession (sc_NativeID s) (sc_Provider s) ts (sc_Started s) (sc_Sessions s)) (older t)) else (o, older t))
    = older2 (let s := ps_session t in if negb (sc_Started s) && negb (IsZero ts) && (IsZero (sc_StartedAt s) || Before ts (sc_StartedAt s))
      then (o, set_session (mkSession (sc_NativeID s) (sc_Provider s) ts (sc_Started s) (sc_Sessions s)) t) else (o, t))).
  { intros o t. cbv zeta. change (ps_session (older t)) with (ps_session t). by destruct (_ && _). }
  change (ps_session (older st)) with (ps_session st). case_bool_decide; [exact (Hr [] st)|]. case_bool_decide; [exact (Hr [] (set_session _ st))|].
  destruct (close_open _ st n) as [o t]. exact (Hr o (set_session _ t)).
Qed.

Lemma older_open_response st parent id n : open_response (older st) parent id n = older3 (open_response st parent id n).
Proof.
  unfold open_response. change (claudeOpenIndex (older st)) with (claudeOpenIndex st). destruct (claudeOpenIndex st _); [done|]. rewrite older_closeClaudeBranch.
  destruct (closeClaudeBranch st parent n) as [o t]. cbn [older2 fst snd]. change (cl_Open (ps_claude (older t))) with (cl_Open (ps_claude t)). destruct (_ =? _); [|done].
  rewrite older_closeClaudeMessage. by destruct (closeClaudeMessage t 0 n) as [e v].
Qed.

Lemma older_claudeAssistant st uuid parent m ts n : claudeAssistant (older st) uuid parent m ts n = older2 (claudeAssistant st uuid parent m ts n).
Proof.
  unfold claudeAssistant. assert (Hs : (if isClaudeModel (rm_Model m) then startSession (older st) (rm_Model m) ts n else ([], older st))
    = older2 (if isClaudeModel (rm_Model m) then startSession st (rm_Model m) ts n else ([], st))) by (destruct (isClaudeModel _); [apply older_startSession|done]).
  rewrite Hs. clear Hs. destruct (if isClaudeModel (rm_Model m) then startSession st (rm_Model m) ts n else ([], st)) as [start t]. cbn [older2 fst snd]. case_bool_decide.
  - destruct (rm_Usage m) as [us|]; [|done]. destruct (hasTokens us); [|done]. rewrite older_attribute. by destruct (attribute t _).
  - change (cl_Counted (ps_claude (older t))) with (cl_Counted (ps_claude t)). destruct (idset_has _ _); [done|]. rewrite older_open_response.
    destruct (open_response t parent (rm_ID m) n) as [[closed v] i]. cbn [older3 fst snd]. change (cl_Open (ps_claude (older v))) with (cl_Open (ps_claude v)). rewrite older_set_open.
    destruct (finished m); [|done]. rewrite older_closeClaudeMessage. by destruct (closeClaudeMessage (set_open _ v) i n).
Qed.

Section host.
Context {H : Type} `{HV : Host H}.

Lemma older_tools cfg ts n blocks : forall st (h : H), claudeToolCandidates (older st) blocks cfg ts n h = older3 (claudeToolCandidates st blocks cfg ts n h).
Proof.
  induction blocks as [|b l IH]; intros st h; cbn [claudeToolCandidates]; [done|]. assert (Hb : claude_block (older st) b cfg ts n h = older3 (claude_block st b cfg ts n h)).
  { unfold claude_block, recordToolSurface, toolSurfaceFor. cbn [older ps_tools]. repeat case_match; simplify_eq/=; done. }
  rewrite Hb. destruct (claude_block st b cfg ts n h) as [[o t] h1]. cbn [older3 fst snd]. rewrite IH. by destruct (claudeToolCandidates t l cfg ts n h1) as [[r v] h2].
Qed.

Lemma older_parseClaudeLine st probe n cfg (h : H) : parseClaudeLine (older st) probe n cfg h = older3 (parseClaudeLine st probe n cfg h).
Proof.
  unfold parseClaudeLine. assert (He : (if bool_decide (fp_SessionIDCamel probe = []) then ([], older st) else enterClaudeSession (older st) (fp_SessionIDCamel probe) (probeTime probe) n)
    = older2 (if bool_decide (fp_SessionIDCamel probe = []) then ([], st) else enterClaudeSession st (fp_SessionIDCamel probe) (probeTime probe) n)) by (case_bool_decide; [done|apply older_enterClaudeSession]).
  rewrite He. clear He. destruct (if bool_decide (fp_SessionIDCamel probe = []) then ([], st) else enterClaudeSession st (fp_SessionIDCamel probe) (probeTime probe) n) as [entered t]. cbn [older2 fst snd]. set (m := unmarshal _ _ _). set (blocks := match m with Some _ => _ | None => _ end).
  set (parent := if bool_decide (fp_ParentUUID probe = []) then _ else _).
  assert (Hr : claude_record (older t) probe parent m blocks (probeTime probe) n = older2 (claude_record t probe parent m blocks (probeTime probe) n)).
  { unfold claude_record. destruct m as [r|]; [|done]. case_bool_decide; [apply older_claudeAssistant|]. destruct (_ && _); [apply older_closeClaudeBranch|done]. }
  rewrite Hr. destruct (claude_record t probe parent m blocks (probeTime probe) n) as [out v]. cbn [older2 fst snd].
  assert (Hx : extendClaudeLineage (older v) (fp_UUID probe) parent = older (extendClaudeLineage v (fp_UUID probe) parent)) by (unfold extendClaudeLineage; by destruct (_ || _)).
  rewrite Hx. destruct m; [|done]. rewrite older_tools. destruct (claudeToolCandidates _ blocks cfg _ n h) as [[tools w] h1]. cbn [older3 fst snd]. rewrite older_attribute. by destruct (attribute w tools).
Qed.

Lemma older_parseRolloutLine st probe n cfg (h : H) : parseRolloutLine (older st) probe n cfg h = older3 (parseRolloutLine st probe n cfg h).
Proof.
  unfold parseRolloutLine. case_bool_decide.
  { unfold parse_session_meta, older3. cbn [fst snd]. f_equal. f_equal. destruct (unmarshal _ _ _) as [[id version]|]; [|done]. change (ps_session (older st)) with (ps_session st). destruct (_ || _); [done|]. by destruct (writesUsageRecords version). }
  case_bool_decide.
  { unfold older3. cbn [fst snd]. f_equal. unfold parse_turn_context. destruct (unmarshal _ _ _) as [model|]; [|done]. case_bool_decide; [done|]. by rewrite older_startSession. }
  case_bool_decide.
  { assert (Hi : parseRolloutResponseItem (older st) (fp_Payload probe) cfg (probeTime probe) n h = older3 (parseRolloutResponseItem st (fp_Payload probe) cfg (probeTime probe) n h)).
    { unfold parseRolloutResponseItem, recordToolSurface, toolSurfaceFor. cbn [older ps_tools]. repeat case_match; simplify_eq/=; done. }
    rewrite Hi. destruct (parseRolloutResponseItem st _ cfg _ n h) as [[out t] h1]. cbn [older3 fst snd]. rewrite older_attribute. unfold older3. cbn [fst snd]. done. }
  case_bool_decide.
  { unfold older3. cbn [fst snd]. f_equal. unfold parse_usage_record. change (ps_rollout (older st)) with (ps_rollout st). rewrite older_set_rollout. destruct (unmarshal _ _ _) as [[rid [us|]]|]; [|done..]. by rewrite older_attribute. }
  case_bool_decide; [|done]. unfold older3. cbn [fst snd]. f_equal. unfold parse_event. change (ps_rollout (older st)) with (ps_rollout st). destruct (ro_RecordMode _); [done|].
  destruct (unmarshal _ _ _) as [[[kind total] [last|]]|]; [|done..]. destruct (negb _); [done|]. destruct total as [t|]; [|by rewrite older_attribute]. case_bool_decide; [done|]. rewrite older_set_rollout. by rewrite older_attribute.
Qed.

Lemma older_parse_one cfg st line n (h : H) : parse_one cfg (older st) line n h = older3 (parse_one cfg st line n h).
Proof.
  unfold parse_one. case_bool_decide; [done|]. assert (Hp : emit_pending (older st) n = older2 (emit_pending st n)).
  { unfold emit_pending. change (ps_rollout (older st)) with (ps_rollout st). destruct (ro_Pending _); [|done]. rewrite older_set_rollout. apply older_attribute. }
  rewrite Hp. destruct (emit_pending st n) as [p t]. cbn [older2 fst snd].
  assert (Hl : parseLine (older t) (TrimSpace line) n cfg h = older3 (parseLine t (TrimSpace line) n cfg h)).
  { unfold parseLine. destruct (probe_of <$> _) as [probe|]; [|done]. destruct (isNormalizedType _); [by destruct (parseNormalizedLine _ n cfg h)|].
    case_bool_decide; [apply older_parseRolloutLine|]. destruct (_ || _); [apply older_parseClaudeLine|]. by destruct (isClaudeBookkeepingType _). }
  rewrite Hl. by destruct (parseLine t (TrimSpace line) n cfg h) as [[out v] h1].
Qed.

Lemma older_parse_lines cfg fuel : forall st data n (h : H),
  parse_lines fuel cfg (older st) data n h = let r := parse_lines fuel cfg st data n h in (r.1.1, older r.1.2, r.2).
Proof.
  induction fuel as [|fuel IH]; intros st data n h; [done|]. cbn [parse_lines]. destruct (cut x0a data) as [line [rest|]]; [|done]. rewrite older_parse_one.
  destruct (parse_one cfg st line (n + 1) h) as [[o t] h1]. cbn [older3 fst snd]. rewrite IH. by destruct (parse_lines fuel cfg t rest (n + 1) h1) as [[[[m r] k] v] h2].
Qed.

Lemma parse_older data cfg carry (h : H) :
  parseWithCarry data cfg (older_carry carry) h
  = let '(r, h) := parseWithCarry data cfg carry h in (mkParseResult (px_Candidates r) (px_Consumed r) (older_carry (px_carry r)), h).
Proof.
  unfold parseWithCarry, parse. change (newParseState (older_carry carry)) with (older (newParseState carry)). rewrite older_parse_lines. cbv zeta.
  by destruct (parse_lines (length data) cfg (newParseState carry) data 0 h) as [[[[m r] k] v] h2].
Qed.
End host.
End unsaved.
