(* ===== verification/FoldFacts.v ===== *)
(** * The upgrade's fold against the parse ([foldUpgradeCarry] of [Parser])

    On a Codex rollout, the fold of the bytes an older cursor consumed gives the usage source and the
    session that parsing them would have carried. *)

From S2P Require Import Prelude GoStrings Lines GoTime Json GoNet GoPath GoJson StrictDecode BeadPrefix Validate Evidence Policy RefExtract.
From S2P Require Import Transcript Rollout Claude Parser RefFacts ParseSplit ParseCount.

(** What of a parse's carry the fold derives. *)
Definition view_of (c : transcriptCarry) : bool * bytes * bytes :=
  (ro_RecordMode (tc_rollout c), ro_LegacyTotal (tc_rollout c), sc_NativeID (tc_session c)).
Definition view (st : parseState) : bool * bytes * bytes := view_of (ps_carry st).
Definition fold_view (f : upgradeFold) : bool * bytes * bytes :=
  (ro_RecordMode (uf_rollout f), ro_LegacyTotal (uf_rollout f), sc_NativeID (uf_session f)).

(** ** What keeps the view *)

Lemma startSession_view st m ts n : view (startSession st m ts n).2 = view st.
Proof. unfold startSession. by destruct (_ || _). Qed.

Lemma attribute_view cs : forall st, view (attribute st cs).2 = view st.
Proof.
  induction cs as [|c l IH]; intros st; [done|]. cbn [attribute].
  assert (Hs : view (if is_usage c then startSession st [] (ca_OccurredAt c) (ca_LineNumber c) else ([], st)).2 = view st) by (destruct (is_usage c); [apply startSession_view|done]).
  destruct (if is_usage c then _ else _) as [s t]. specialize (IH t). destruct (attribute t l) as [o u]. cbn in *. congruence.
Qed.

Lemma closeClaudeMessage_view st i n : view (closeClaudeMessage st i n).2 = view st.
Proof.
  unfold closeClaudeMessage. destruct (_ !! i) as [m|]; [|done]. destruct (count _ _) as [c new]. destruct (_ || _); [done|]. by rewrite attribute_view.
Qed.

Lemma close_branch_view fuel parent n : forall i st, view (close_branch fuel i st parent n).2 = view st.
Proof.
  induction fuel as [|fuel IH]; intros i st; cbn [close_branch]; [done|]. destruct (_ !! i) as [m|]; [|done]. destruct (trail_has _ _); [|apply IH].
  pose proof (closeClaudeMessage_view st i n) as Hc. destruct (closeClaudeMessage st i n) as [o t]. specialize (IH i t). destruct (close_branch fuel i t parent n). cbn in *. congruence.
Qed.

Lemma closeClaudeBranch_view st parent n : view (closeClaudeBranch st parent n).2 = view st.
Proof. unfold closeClaudeBranch. case_bool_decide; [done|apply close_branch_view]. Qed.

Lemma open_response_view st parent id n : view (open_response st parent id n).1.2 = view st.
Proof.
  unfold open_response. destruct (claudeOpenIndex _ _); [done|]. pose proof (closeClaudeBranch_view st parent n) as Hb. destruct (closeClaudeBranch st parent n) as [o t]. cbn in Hb.
  assert (He : view (if zlen (cl_Open (ps_claude t)) =? maxOpenClaudeMessages then closeClaudeMessage t 0 n else ([], t)).2 = view t) by (destruct (_ =? _); [apply closeClaudeMessage_view|done]).
  destruct (if _ =? _ then _ else _) as [e u]. cbn in *. transitivity (view u); [done|congruence].
Qed.

Lemma claudeAssistant_view st uuid parent m ts n : view (claudeAssistant st uuid parent m ts n).2 = view st.
Proof.
  unfold claudeAssistant.
  assert (Hs : view (if isClaudeModel (rm_Model m) then startSession st (rm_Model m) ts n else ([], st)).2 = view st) by (destruct (isClaudeModel _); [apply startSession_view|done]).
  destruct (if isClaudeModel _ then _ else _) as [start t]. cbn in Hs. case_bool_decide.
  - destruct (rm_Usage m) as [u|]; [|done]. destruct (hasTokens u); [|done]. pose proof (attribute_view [claude_candidate u ts n []] t) as Ha. destruct (attribute t _). cbn in *. congruence.
  - destruct (idset_has _ _); [done|]. pose proof (open_response_view t parent (rm_ID m) n) as Ho. destruct (open_response t parent (rm_ID m) n) as [[closed u] i]. cbn in Ho.
    set (v := set_open _ u). assert (Hv : view v = view u) by done. destruct (finished m); [|cbn; congruence].
    pose proof (closeClaudeMessage_view v i n) as Hc. destruct (closeClaudeMessage v i n). cbn in *. congruence.
Qed.

Section host.
Context {H : Type} `{HV : Host H}.

Lemma idle_view {W} st (r : list Candidate * parseState * W) : idle st r -> view r.1.2 = view st.
Proof. intros [_ Hc]. unfold view. by rewrite Hc. Qed.

Lemma parseClaudeLine_view st probe n cfg (h : H) : fp_SessionIDCamel probe = [] -> view (parseClaudeLine st probe n cfg h).1.2 = view st.
Proof.
  intros Hid. unfold parseClaudeLine. rewrite Hid, bool_decide_eq_true_2 by done. set (m := unmarshal _ _ _). set (blocks := match m with Some _ => _ | None => _ end). set (parent := if bool_decide (fp_ParentUUID probe = []) then _ else _).
  assert (Hr : view (claude_record st probe parent m blocks (probeTime probe) n).2 = view st).
  { unfold claude_record. destruct m; [|done]. case_bool_decide; [apply claudeAssistant_view|]. destruct (_ && _); [apply closeClaudeBranch_view|done]. }
  destruct (claude_record st probe parent m blocks (probeTime probe) n) as [out u]. cbn in Hr.
  assert (Hx : view (extendClaudeLineage u (fp_UUID probe) parent) = view u) by (unfold extendClaudeLineage; by destruct (_ || _)).
  destruct m as [m|]; [|cbn; congruence]. pose proof (idle_view _ _ (tools_idle blocks cfg (probeTime probe) n (extendClaudeLineage u (fp_UUID probe) parent) h)) as Ht.
  destruct (claudeToolCandidates _ blocks cfg (probeTime probe) n h) as [[tools w] h']. cbn in Ht. pose proof (attribute_view tools w) as Ha. destruct (attribute w tools). cbn in *. congruence.
Qed.

Lemma emit_pending_view st n : view (emit_pending st n).2 = view st.
Proof. unfold emit_pending. destruct (ro_Pending _); [|done]. by rewrite attribute_view. Qed.

(** ** One line *)

(** A line of a rollout: of no Claude session, and a usage record has its payload. *)
Definition rollout_line (line : bytes) : Prop :=
  match probe_of <$> Unmarshal (TrimSpace line) ProbeType with
  | None => True
  | Some probe => fp_SessionIDCamel probe = [] /\ (fp_Type probe = str "token_usage_record" -> is_Some (fp_Payload probe))
  end.

Definition together (f : upgradeFold) (st : parseState) : Prop :=
  fold_view f = view st /\ uf_metaSeen f = negb (bool_decide (sc_NativeID (uf_session f) = [])).

Lemma together_view f st st' : together f st -> view st' = view st -> together f st'.
Proof. intros [H1 H2] Hv. split; [congruence|done]. Qed.

Lemma meta_together f st probe : together f st -> together (fold_meta probe true f) (parse_session_meta st (fp_Payload probe) (probeTime probe)).
Proof.
  intros [Hv Hm]. pose proof Hv as Hv'. unfold fold_view, view, view_of in Hv'. injection Hv' as E1 E2 E3. unfold fold_meta, parse_session_meta, ps_session. destruct (unmarshal _ _ _) as [[id version]|]; [|by split].
  rewrite Hm, E3. destruct (bool_decide (id = [])) eqn:Hid; [by split|]. apply bool_decide_eq_false in Hid. cbn [orb].
  destruct (bool_decide (sc_NativeID (tc_session (ps_carry st)) = [])); cbn [negb]; [|by split]. split.
  - unfold fold_view, view, view_of, markStarted. cbn. destruct (writesUsageRecords version); cbn; [by rewrite E2|by rewrite E1, E2].
  - unfold markStarted. cbn. by rewrite bool_decide_eq_false_2.
Qed.

Lemma record_together f st probe n : together f st ->
  together (with_rollout (fold_usage_record probe (uf_rollout f)) f) (parse_usage_record st (fp_Payload probe) (probeTime probe) n).2.
Proof.
  intros [Hv Hm]. unfold fold_view, view, view_of in Hv. injection Hv as E1 E2 E3.
  assert (Hf : forall t, view t = (true, ro_LegacyTotal (ps_rollout st), sc_NativeID (ps_session st)) -> together (with_rollout (fold_usage_record probe (uf_rollout f)) f) t).
  { intros t Ht. split; [|exact Hm]. rewrite Ht. unfold fold_view, fold_usage_record. cbn.
    destruct (unmarshal _ _ _) as [[responseID [usage|]]|]; [destruct (work usage =? 0)| |]; cbn; by rewrite E2, E3. }
  apply Hf. unfold parse_usage_record. destruct (unmarshal _ _ _) as [[responseID [usage|]]|]; [|done|done]. by rewrite attribute_view.
Qed.

Lemma event_together f st probe n : together f st ->
  together (with_rollout (fold_event probe (uf_rollout f)) f) (parse_event st (fp_Payload probe) (probeTime probe) n).2.
Proof.
  intros [Hv Hm]. unfold fold_view, view, view_of in Hv. injection Hv as E1 E2 E3.
  assert (Hsame : together (with_rollout (uf_rollout f) f) st) by (split; [unfold fold_view, view, view_of; cbn; congruence|exact Hm]).
  unfold fold_event, parse_event, ps_rollout. rewrite <-E1. destruct (unmarshal EventType event_of (fp_Payload probe)) as [[[kind total] [last|]]|]; [|destruct (ro_RecordMode (uf_rollout f)); exact Hsame..].
  destruct (negb (bool_decide (kind = str "token_count"))); [destruct (ro_RecordMode (uf_rollout f)); exact Hsame|]. destruct total as [t|].
  - cbn [ro_RecordMode with_pending]. destruct (ro_RecordMode (uf_rollout f)) eqn:Er.
    + destruct Hsame as [Hs1 Hs2]. split; [|exact Hm]. unfold fold_view, view, view_of. cbn. rewrite Er. congruence.
    + destruct (decide (signature t = ro_LegacyTotal (tc_rollout (ps_carry st)))) as [Hsig|Hsig]; [rewrite (bool_decide_eq_true_2 _ Hsig)|rewrite (bool_decide_eq_false_2 _ Hsig)].
      * split; [|exact Hm]. unfold fold_view, view, view_of. cbn -[signature]. rewrite Er, E3, Hsig. by rewrite <-E1.
      * split; [|exact Hm]. rewrite attribute_view. unfold fold_view, view, view_of. cbn -[signature]. rewrite Er, E3. by rewrite <-E1.
  - destruct (ro_RecordMode (uf_rollout f)) eqn:Er; (split; [|exact Hm]); rewrite ?attribute_view; unfold fold_view, view, view_of; cbn; rewrite Er; congruence.
Qed.

Lemma parseLine_other st line n cfg (h : H) probe : probe_of <$> Unmarshal line ProbeType = Some probe -> fp_SessionIDCamel probe = [] ->
  (is_Some (fp_Payload probe) -> fp_Type probe <> str "session_meta" /\ fp_Type probe <> str "token_usage_record" /\ fp_Type probe <> str "event_msg") ->
  view (parseLine st line n cfg h).1.2 = view st.
Proof.
  intros Hp Hid Ht. unfold parseLine. rewrite Hp. destruct (isNormalizedType _); [by destruct (parseNormalizedLine line n cfg h)|]. case_bool_decide as Hpay.
  - destruct (Ht Hpay) as (N1&N2&N3). unfold parseRolloutLine. rewrite (bool_decide_eq_false_2 _ N1), (bool_decide_eq_false_2 _ N2), (bool_decide_eq_false_2 _ N3). case_bool_decide.
    + cbn. unfold parse_turn_context. destruct (unmarshal _ _ _); [|done]. case_bool_decide; [done|apply startSession_view].
    + case_bool_decide; [|done]. pose proof (idle_view _ _ (response_item_idle st (fp_Payload probe) cfg (probeTime probe) n h)) as Hi.
      destruct (parseRolloutResponseItem _ _ _ _ _ _) as [[out t] h']. cbn in *. by rewrite attribute_view.
  - destruct (_ || _); [by apply parseClaudeLine_view|]. by destruct (isClaudeBookkeepingType _).
Qed.

Lemma line_together f st line n cfg (h : H) : together f st -> rollout_line line -> together (foldUpgradeLine (TrimSpace line) f true) (parse_one cfg st line n h).1.2.
Proof.
  intros Ht Hl. unfold parse_one, foldUpgradeLine. case_bool_decide as Hn; [done|]. cbn [negb andb].
  pose proof (together_view _ _ _ Ht (emit_pending_view st n)) as He. destruct (emit_pending st n) as [pending t]. cbn [snd] in He. unfold rollout_line in Hl.
  destruct (probe_of <$> Unmarshal (TrimSpace line) ProbeType) as [probe|] eqn:Ep.
  2: { unfold parseLine. rewrite Ep. exact He. }
  destruct Hl as [Hid Hrec]. rewrite Hid, (bool_decide_eq_true_2 (@nil byte = []) eq_refl). cbn [negb andb].
  assert (Hother : (is_Some (fp_Payload probe) -> fp_Type probe <> str "session_meta" /\ fp_Type probe <> str "token_usage_record" /\ fp_Type probe <> str "event_msg") ->
    together f (let '(out, u, h0) := parseLine t (TrimSpace line) n cfg h in (pending ++ stamp u out, u, h0)).1.2).
  { intros Hx. pose proof (parseLine_other t (TrimSpace line) n cfg h probe Ep Hid Hx) as Hv. destruct (parseLine t (TrimSpace line) n cfg h) as [[out u] h']. by eapply together_view. }
  assert (Hroll : is_Some (fp_Payload probe) -> isNormalizedType (fp_Type probe) = false -> parseLine t (TrimSpace line) n cfg h = parseRolloutLine t probe n cfg h).
  { intros Hpay Hnt. unfold parseLine. by rewrite Ep, Hnt, bool_decide_eq_true_2. }
  assert (Hpayload : is_Some (fp_Payload probe) \/ fp_Payload probe = None) by (destruct (fp_Payload probe); [left; by eexists|by right]).
  case_bool_decide as T1; [|case_bool_decide as T2; [|case_bool_decide as T3]].
  - destruct Hpayload as [Hpay|Hpay].
    + rewrite Hroll by (done || by rewrite T1). unfold parseRolloutLine. rewrite T1, bool_decide_eq_true_2 by done. by apply meta_together.
    + unfold fold_meta. rewrite Hpay. cbn. apply Hother. rewrite Hpay. by intros [? ?].
  - rewrite Hroll by (by apply Hrec || by rewrite T2). unfold parseRolloutLine. rewrite T2. cbn.
    pose proof (record_together f t probe n He) as Hr. by destruct (parse_usage_record t (fp_Payload probe) (probeTime probe) n).
  - destruct Hpayload as [Hpay|Hpay].
    + rewrite Hroll by (done || by rewrite T3). unfold parseRolloutLine. rewrite T3. cbn.
      pose proof (event_together f t probe n He) as Hr. by destruct (parse_event t (fp_Payload probe) (probeTime probe) n).
    + unfold fold_event. rewrite Hpay. cbn. assert (Ef : with_rollout (uf_rollout f) f = f) by (by destruct f). rewrite Ef. apply Hother. rewrite Hpay. by intros [? ?].
  - apply Hother. done.
Qed.

End host.

(** ** All lines *)

Lemma lines_together {H} `{HV : Host H} maxLine cfg fuel : forall data f st lines n (h : H), together f st ->
  Forall (fun line => rollout_line line /\ zlen line < maxLine) (lines_of fuel data) ->
  exists f', fold_lines fuel maxLine true true data lines f = Some f' /\ together f' (parse_lines fuel cfg st data n h).1.2.
Proof.
  induction fuel as [|fuel IH]; intros data f st lines n h Ht Hl; [by exists f|]. cbn [fold_lines parse_lines lines_of] in *.
  destruct (cut x0a data) as [line [rest|]]; [|by exists f]. apply Forall_cons in Hl as [[Hr Hs] Hl]. destruct (Z.ltb_spec maxLine (zlen line + 1)) as [|_]; [lia|].
  pose proof (line_together f st line (n + 1) cfg h Ht Hr) as Hone. cbn [negb andb]. destruct (parse_one cfg st line (n + 1) h) as [[out t] h']. cbn [fst snd] in Hone.
  destruct (IH rest _ t (lines + 1) (n + 1) h' Hone Hl) as (f'&Hf&Ht'). exists f'. split; [exact Hf|].
  by destruct (parse_lines fuel cfg t rest (n + 1) h') as [[[[more r] k] u] h''].
Qed.

Definition demo_meta : bytes := js "{'type':'session_meta','timestamp':'2026-01-01T00:00:00Z','payload':{'id':'c1','cli_version':'0.150.0'}}".
Definition demo_count : bytes :=
  js "{'type':'event_msg','timestamp':'2026-01-01T00:00:02Z','payload':{'type':'token_count','info':{'total_token_usage':{'input_tokens':10},'last_token_usage':{'input_tokens':10}}}}".
Definition demo_rollout : bytes := demo_meta ++ [x0a] ++ demo_count ++ [x0a].
Definition demo_bare_record : bytes := js "{'type':'token_usage_record','timestamp':'2026-01-01T00:00:03Z'}" ++ [x0a].

(** C34: The upgrade derives what the parse would have carried. On a Codex rollout with no over-long line, whose usage records have their payload, the
    fold of the bytes an older cursor consumed ends in the usage source, the last counted total and the session that a parse of them ends in. *)
Theorem fold_matches_parse {H} `{HV : Host H} data maxLine cfg (h : H) :
  Forall (fun line => rollout_line line /\ zlen line < maxLine) (complete_lines data) ->
  exists f, foldUpgradeCarry data true maxLine true = Some f /\ fold_view f = view_of (px_carry (parseWithCarry data cfg no_carry h).1).
Proof.
  intros Hl. destruct (lines_together maxLine cfg (length data) data no_fold (newParseState no_carry) 0 0 h) as (f&Hf&Ht&_); [by split|exact Hl|].
  exists f. split; [exact Hf|]. unfold parseWithCarry, parse. by destruct (parse_lines (length data) cfg (newParseState no_carry) data 0 h) as [[[[o r] k] t] h'].
Qed.

Lemma fold_matches_parse_witness :
  (exists f, foldUpgradeCarry demo_rollout true 1000 true = Some f /\ fold_view f = view_of (px_carry (parseWithCarry demo_rollout demo_refs no_carry tt).1))
  /\ view_of (px_carry (parseWithCarry demo_rollout demo_refs no_carry tt).1) = (false, str "10/-/-/-/-", str "c1").
Proof.
  refine (conj (fold_matches_parse demo_rollout 1000 demo_refs tt _) _); [|vm_compute; reflexivity].
  assert (E : complete_lines demo_rollout = [demo_meta; demo_count]) by (vm_compute; reflexivity). rewrite E.
  constructor; [split; [|vm_compute; reflexivity]|constructor; [split; [|vm_compute; reflexivity]|constructor]]; unfold rollout_line.
  - assert (Hp : match probe_of <$> Unmarshal (TrimSpace demo_meta) ProbeType with Some p => fp_SessionIDCamel p = [] /\ fp_Type p = str "session_meta" | None => False end) by (vm_compute; split; reflexivity).
    destruct (probe_of <$> _) as [p|]; [|exact I]. destruct Hp as [H1 H2]. rewrite H2. split; [exact H1|]. intros Hx. discriminate Hx.
  - assert (Hp : match probe_of <$> Unmarshal (TrimSpace demo_count) ProbeType with Some p => fp_SessionIDCamel p = [] /\ fp_Type p = str "event_msg" | None => False end) by (vm_compute; split; reflexivity).
    destruct (probe_of <$> _) as [p|]; [|exact I]. destruct Hp as [H1 H2]. rewrite H2. split; [exact H1|]. intros Hx. discriminate Hx.
Defined.

(** A usage record without a payload moves the fold to record mode, and not the parse. *)
Example bare_record_diverges :
  (fold_view <$> foldUpgradeCarry (demo_rollout ++ demo_bare_record) true 1000 true) = Some (true, str "10/-/-/-/-", str "c1")
  /\ view_of (px_carry (parseWithCarry (demo_rollout ++ demo_bare_record) demo_refs no_carry tt).1) = (false, str "10/-/-/-/-", str "c1").
Proof. vm_compute. split; reflexivity. Qed.
