(* ===== verification/Cursor.v ===== *)
(** * The cursor of a transcript ([adapter/codex/cursor.go])

    A file's tail position in memory: what was consumed, the partial line, the fingerprint of the bytes
    before the offset and the carry of the parse. [Ingest] and [FlushOpenUsage] change nothing: they give
    candidates and the commit that moves the cursor once those were delivered. File offsets are [Z]. The
    files the cursor is saved in are in [CursorStore]. *)

From S2P Require Import Prelude GoStrings GoTime Json GoNet GoPath GoJson BeadPrefix Validate Evidence Policy RefExtract.
From S2P Require Import Transcript Rollout Claude Parser.

Definition anchorLen : Z := 64.
Definition DefaultMaxPartialLine : Z := 1048576.

Record Cursor : Type := mkCursor {
  cu_scope : bytes;
  cu_dev : Z;
  cu_ino : Z;
  cu_size : Z;
  cu_modNanos : Z;
  cu_consumed : Z;
  cu_remainder : bytes;
  cu_skip : bool;
  cu_anchor : bytes;
  cu_anchorHash : Z;
  cu_anchorSize : Z;
  cu_sealed : bool;
  cu_carry : transcriptCarry;
  cu_carryKnown : bool;
  cu_sessionKnown : bool;
  cu_countedSaved : Z;
  cu_maxPartialLine : Z;
}.

(** The cursor of a file no state was kept of. *)
Definition fresh_cursor (scope : bytes) (dev ino size modNanos maxPartialLine : Z) : Cursor :=
  mkCursor scope dev ino size modNanos 0 [] false [] 0 0 false no_carry true true 0
    (if maxPartialLine <=? 0 then DefaultMaxPartialLine else maxPartialLine).

(** ** Field updates *)

Definition with_position (consumed : Z) (remainder : bytes) (skip : bool) (c : Cursor) : Cursor :=
  mkCursor (cu_scope c) (cu_dev c) (cu_ino c) (cu_size c) (cu_modNanos c) consumed remainder skip (cu_anchor c) (cu_anchorHash c) (cu_anchorSize c)
    (cu_sealed c) (cu_carry c) (cu_carryKnown c) (cu_sessionKnown c) (cu_countedSaved c) (cu_maxPartialLine c).
Definition with_anchor (anchor : bytes) (hash size : Z) (c : Cursor) : Cursor :=
  mkCursor (cu_scope c) (cu_dev c) (cu_ino c) (cu_size c) (cu_modNanos c) (cu_consumed c) (cu_remainder c) (cu_skip c) anchor hash size
    (cu_sealed c) (cu_carry c) (cu_carryKnown c) (cu_sessionKnown c) (cu_countedSaved c) (cu_maxPartialLine c).
Definition with_carry (carry : transcriptCarry) (c : Cursor) : Cursor :=
  mkCursor (cu_scope c) (cu_dev c) (cu_ino c) (cu_size c) (cu_modNanos c) (cu_consumed c) (cu_remainder c) (cu_skip c) (cu_anchor c) (cu_anchorHash c)
    (cu_anchorSize c) (cu_sealed c) carry (cu_carryKnown c) (cu_sessionKnown c) (cu_countedSaved c) (cu_maxPartialLine c).
Definition with_known (carryKnown sessionKnown : bool) (c : Cursor) : Cursor :=
  mkCursor (cu_scope c) (cu_dev c) (cu_ino c) (cu_size c) (cu_modNanos c) (cu_consumed c) (cu_remainder c) (cu_skip c) (cu_anchor c) (cu_anchorHash c)
    (cu_anchorSize c) (cu_sealed c) (cu_carry c) carryKnown sessionKnown (cu_countedSaved c) (cu_maxPartialLine c).
Definition with_saved (n : Z) (c : Cursor) : Cursor :=
  mkCursor (cu_scope c) (cu_dev c) (cu_ino c) (cu_size c) (cu_modNanos c) (cu_consumed c) (cu_remainder c) (cu_skip c) (cu_anchor c) (cu_anchorHash c)
    (cu_anchorSize c) (cu_sealed c) (cu_carry c) (cu_carryKnown c) (cu_sessionKnown c) n (cu_maxPartialLine c).
Definition with_sealed (sealed : bool) (c : Cursor) : Cursor :=
  mkCursor (cu_scope c) (cu_dev c) (cu_ino c) (cu_size c) (cu_modNanos c) (cu_consumed c) (cu_remainder c) (cu_skip c) (cu_anchor c) (cu_anchorHash c)
    (cu_anchorSize c) sealed (cu_carry c) (cu_carryKnown c) (cu_sessionKnown c) (cu_countedSaved c) (cu_maxPartialLine c).

Definition observe (size modNanos : Z) (c : Cursor) : Cursor :=
  mkCursor (cu_scope c) (cu_dev c) (cu_ino c) size modNanos (cu_consumed c) (cu_remainder c) (cu_skip c) (cu_anchor c) (cu_anchorHash c)
    (cu_anchorSize c) (cu_sealed c) (cu_carry c) (cu_carryKnown c) (cu_sessionKnown c) (cu_countedSaved c) (cu_maxPartialLine c).

(** ** The fingerprint *)

(** FNV-1a, 64 bits, as for ids. *)
Definition hashBytes (b : bytes) : Z := idHash b.

Definition AnchorFingerprint (c : Cursor) : Z * Z := (cu_anchorHash c, cu_anchorSize c).

Definition set_anchor (anchor : bytes) (c : Cursor) : Cursor := with_anchor anchor (hashBytes anchor) (zlen anchor) c.

Definition SeedAnchor (window : bytes) (c : Cursor) : Cursor :=
  if (0 <? zlen (cu_anchor c)) || (zlen window =? 0) then c else set_anchor (newest anchorLen window) c.

Definition updateAnchor (consumedBytes : bytes) (c : Cursor) : Cursor := set_anchor (newest anchorLen (cu_anchor c ++ consumedBytes)) c.

(** ** Positions *)

Definition ReadOffset (c : Cursor) : Z := cu_consumed c + zlen (cu_remainder c).

(** To [consumed], nothing known of what comes before it. *)
Definition restart_at (consumed : Z) (sealed : bool) (c : Cursor) : Cursor :=
  with_sealed sealed (with_anchor [] 0 0 (with_position consumed [] false (with_saved 0 (with_known true true (with_carry no_carry c))))).

Definition Reset (c : Cursor) : Cursor := restart_at 0 false c.
Definition SealAt (eof : Z) (c : Cursor) : Cursor := restart_at (if eof <? 0 then 0 else eof) true c.

(** ** The carry of an older release *)

Definition NeedsCarryDerivation (c : Cursor) : bool := negb (cu_carryKnown c) || negb (cu_sessionKnown c).
Definition MarkCarryKnown (c : Cursor) : Cursor := with_known true true c.

(** [None]: the consumed bytes could not be read. *)
Definition DeriveCarry (consumed : bytes) (readable : bool) (c : Cursor) : option Cursor :=
  if negb (NeedsCarryDerivation c) then Some c
  else
    let foldRollout := negb (cu_carryKnown c) && negb (cu_skip c) in
    match foldUpgradeCarry consumed readable (cu_maxPartialLine c) foldRollout with
    | None => None
    | Some f =>
        let carry := cu_carry c in
        let carry := if foldRollout then mkCarry (uf_rollout f) (tc_session carry) (tc_claude carry) else carry in
        Some (MarkCarryKnown
          (if cu_sessionKnown c then with_carry carry c
           else with_saved 0 (with_carry (mkCarry (tc_rollout carry) (uf_session f) (mkClaude [] (uf_counted f) (uf_counted f))) c)))
    end.

(** ** Open responses *)

Definition HasOpenUsage (c : Cursor) : bool := 0 <? zlen (cl_Open (tc_claude (cu_carry c))).

(** The loop: the candidates, and after each response how many there are and the carry. *)
Fixpoint flush_open (fuel : nat) (st : parseState) (cands : list Candidate) : list Candidate * list (Z * transcriptCarry) :=
  match fuel, cl_Open (ps_claude st) with
  | S fuel', _ :: _ =>
      let '(out, st) := closeClaudeMessage st 0 0 in
      let cands := cands ++ out in
      let '(all, states) := flush_open fuel' st cands in
      (all, (zlen cands, ps_carry st) :: states)
  | _, _ => (cands, [])
  end.

(** The last response whose candidates were all delivered. *)
Definition flushed (states : list (Z * transcriptCarry)) (delivered : Z) : option transcriptCarry :=
  snd <$> head (filter (fun s => s.1 <= delivered) (reverse states)).

Definition FlushOpenUsage (c : Cursor) : list Candidate * (Z -> Cursor -> Cursor) :=
  let '(cands, states) := flush_open (length (cl_Open (tc_claude (cu_carry c)))) (newParseState (cu_carry c)) [] in
  (cands, fun delivered c => match flushed states delivered with Some carry => with_carry carry c | None => c end).

(** After a save: the state claims [counted] hashes, and none waits to be written. *)
Definition saved (counted : Z) (c : Cursor) : Cursor :=
  let claude := tc_claude (cu_carry c) in
  with_saved counted (with_carry (mkCarry (tc_rollout (cu_carry c)) (tc_session (cu_carry c)) (mkClaude (cl_Open claude) (cl_Counted claude) [])) c).

(** ** New bytes *)

Definition overflow_context (got cap : Z) : bytes :=
  str "transcript line exceeded the " ++ FormatInt cap ++ str "-byte partial-line cap (" ++ FormatInt got
  ++ str " bytes buffered without a newline); resynchronizing at the next line boundary".
Definition overflowDiagnostic (got cap : Z) : Candidate :=
  cand (KindDiagnostic (mkDiagnostic (str "PARTIAL_CAPTURE") (str "WARNING") (str "PARTIAL") (overflow_context got cap))) zero_time 0.

(** What every commit of new bytes does: [consumed] was consumed. *)
Definition advance (consumed : bytes) (c : Cursor) : Cursor :=
  updateAnchor consumed (with_position (cu_consumed c + zlen consumed) (cu_remainder c) (cu_skip c) c).

Section host.
Context {H : Type} `{Host H}.

Definition ingestNormal (c : Cursor) (prefix newBytes : bytes) (cfg : ReferenceConfig) (h : H) : list Candidate * (Cursor -> Cursor) * H :=
  let buf := prefix ++ newBytes in
  let '(res, h) := parseWithCarry buf cfg (cu_carry c) h in
  let rem := drop (Z.to_nat (px_Consumed res)) buf in
  if cu_maxPartialLine c <? zlen rem then
    (px_Candidates res ++ [overflowDiagnostic (zlen rem) (cu_maxPartialLine c)],
     fun c => let c := with_carry (px_carry res) (advance buf c) in with_position (cu_consumed c) [] true c, h)
  else
    (px_Candidates res,
     fun c => let c := with_carry (px_carry res) (advance (take (Z.to_nat (px_Consumed res)) buf) c) in with_position (cu_consumed c) rem (cu_skip c) c, h).

Definition Ingest (c : Cursor) (newBytes : bytes) (cfg : ReferenceConfig) (h : H) : list Candidate * (Cursor -> Cursor) * H :=
  if cu_skip c then
    match cut x0a newBytes with
    | (_, None) => ([], advance newBytes, h)
    | (line, Some rest) =>
        let '(cands, restCommit, h) := ingestNormal c [] rest cfg h in
        (cands, fun c => let c := advance (line ++ [x0a]) c in restCommit (with_position (cu_consumed c) (cu_remainder c) false c), h)
    end
  else ingestNormal c (cu_remainder c) newBytes cfg h.
End host.
