(* ===== verification/CursorFacts.v ===== *)
(** * What the cursor promises ([Cursor])

    However a file's growth is cut into reads, the cursor's position, partial line and fingerprint are
    those of the bytes read, its carry and what it bills are those of one parse of them, a partial
    delivery of what a flush offers re-offers only the rest, and no Claude message id is delivered twice. *)

From S2P Require Import Prelude GoStrings Lines GoTime Json GoNet GoPath GoJson BeadPrefix Validate Evidence Policy RefExtract.
From S2P Require Import Transcript Rollout Claude Parser RefFacts ParseSplit ParseCount Cursor.

(** ** Ingesting *)

(** The cursor after [used], and [seen] read of its file. *)
Definition at_end (seen : bytes) (c : Cursor) : Prop :=
  exists used, seen = used ++ cu_remainder c /\ cu_consumed c = zlen used /\ zlen (cu_remainder c) <= cu_maxPartialLine c
    /\ (cu_skip c = true -> cu_remainder c = []) /\ cu_anchor c = newest anchorLen used
    /\ cu_anchorSize c = zlen (cu_anchor c) /\ (cu_anchor c <> [] -> cu_anchorHash c = hashBytes (cu_anchor c)).

Lemma advance_anchor used c data : cu_anchor c = newest anchorLen used -> cu_anchor (advance data c) = newest anchorLen (used ++ data).
Proof. intros Ha. unfold advance. cbn. rewrite Ha. by apply newest_app. Qed.

Section host.
Context {H : Type} `{HV : Host H}.

(** Reads, each delivered and committed before the next. *)
Fixpoint ingest_all (c : Cursor) (reads : list bytes) (cfg : ReferenceConfig) (h : H) : list Candidate * Cursor * H :=
  match reads with
  | [] => ([], c, h)
  | b :: l =>
      let '(cands, commit, h) := Ingest c b cfg h in
      let '(rest, c, h) := ingest_all (commit c) l cfg h in
      (cands ++ rest, c, h)
  end.

(** One commit, the bytes before it being [used]. *)
Lemma ingestNormal_at_end used c prefix b cfg (h : H) d : cu_consumed d = zlen used -> cu_anchor d = newest anchorLen used -> cu_skip d = false ->
  cu_maxPartialLine d = cu_maxPartialLine c -> 0 <= cu_maxPartialLine c ->
  let r := ingestNormal c prefix b cfg h in at_end (used ++ prefix ++ b) (r.1.2 d) /\ cu_maxPartialLine (r.1.2 d) = cu_maxPartialLine c.
Proof.
  intros Hc Ha Hs Hm H0. cbv zeta. unfold ingestNormal. pose proof (parse_consumes (prefix ++ b) cfg (cu_carry c) false h) as [_ Hb]. cbv zeta in Hb. fold (parseWithCarry (prefix ++ b) cfg (cu_carry c) h) in Hb.
  destruct (parseWithCarry (prefix ++ b) cfg (cu_carry c) h) as [res h']. cbn [fst] in Hb. set (buf := prefix ++ b) in *.
  destruct (Z.ltb_spec (cu_maxPartialLine c) (zlen (drop (Z.to_nat (px_Consumed res)) buf))) as [Ho|Ho]; (split; [|done]).
  - exists (used ++ buf). cbn. rewrite app_nil_r, zlen_app, Hc, Hm. repeat split; try done. by apply (advance_anchor used d buf).
  - exists (used ++ take (Z.to_nat (px_Consumed res)) buf). cbn. rewrite <-app_assoc, take_drop, zlen_app, Hc, Hs, Hm. repeat split; try done.
    by apply (advance_anchor used d).
Qed.

Lemma Ingest_at_end seen c b cfg (h : H) : at_end seen c -> 0 <= cu_maxPartialLine c ->
  let r := Ingest c b cfg h in at_end (seen ++ b) (r.1.2 c) /\ cu_maxPartialLine (r.1.2 c) = cu_maxPartialLine c.
Proof.
  intros (used&->&Hc&Hm&Hs&Ha&Hz&Hh) H0. cbv zeta. unfold Ingest. destruct (cu_skip c) eqn:Es.
  - rewrite (Hs eq_refl), app_nil_r. destruct (cut x0a b) as [line [rest|]] eqn:E.
    + apply cut_Some in E as [-> _]. set (t := advance (line ++ [x0a]) c).
      pose proof (ingestNormal_at_end (used ++ line ++ [x0a]) c [] rest cfg h (with_position (cu_consumed t) (cu_remainder t) false t)) as Hi.
      destruct (ingestNormal c [] rest cfg h) as [[cands rc] h']. cbn [fst snd] in *. rewrite <-!app_assoc in Hi. cbn [app] in Hi. apply Hi; try done.
      * cbn. by rewrite Hc, !zlen_app.
      * by apply (advance_anchor used c).
    + cbn [fst snd]. split; [|done]. exists (used ++ b). cbn. rewrite (Hs eq_refl), app_nil_r, zlen_app, Hc. repeat split; try done. by apply (advance_anchor used c b).
  - rewrite <-app_assoc. by apply ingestNormal_at_end.
Qed.

Lemma ingest_all_at_end reads : forall seen c cfg (h : H), at_end seen c -> 0 <= cu_maxPartialLine c -> at_end (seen ++ concat reads) (ingest_all c reads cfg h).1.2.
Proof.
  induction reads as [|b l IH]; intros seen c cfg h Ha Hm; [by rewrite app_nil_r|]. cbn [ingest_all concat]. pose proof (Ingest_at_end seen c b cfg h Ha Hm) as [H1 H2].
  destruct (Ingest c b cfg h) as [[cands commit] h']. cbn [fst snd] in *. specialize (IH (seen ++ b) (commit c) cfg h' H1 ltac:(lia)).
  destruct (ingest_all (commit c) l cfg h') as [[rest d] h'']. cbn [fst snd] in *. by rewrite app_assoc.
Qed.

Lemma fresh_max scope dev ino size modNanos max : 0 < cu_maxPartialLine (fresh_cursor scope dev ino size modNanos max).
Proof. cbn. destruct (Z.leb_spec max 0); [done|lia]. Qed.

Lemma fresh_at_end scope dev ino size modNanos max : at_end [] (fresh_cursor scope dev ino size modNanos max).
Proof. exists []. cbn. repeat split; try done. destruct (Z.leb_spec max 0); [done|]. change (zlen []) with 0. lia. Qed.

(** ** The same as one parse *)

(** The cursor is where one parse of [seen] ends, having billed [out]. *)
Definition caught_up (cfg : ReferenceConfig) (h : H) (seen : bytes) (out : list Candidate) (c : Cursor) : Prop :=
  let r := (parseWithCarry seen cfg no_carry h).1 in
  bill out = bill (px_Candidates r) /\ cu_carry c = px_carry r /\ cu_consumed c = px_Consumed r
  /\ cu_remainder c = drop (Z.to_nat (px_Consumed r)) seen /\ cu_skip c = false.

Lemma Ingest_caught_up cfg h0 seen out c b (h : H) : caught_up cfg h0 seen out c -> short_lines (cu_maxPartialLine c) (seen ++ b) ->
  let r := Ingest c b cfg h in caught_up cfg h0 (seen ++ b) (out ++ r.1.1) (r.1.2 c).
Proof.
  intros (Hb&Hc&Hp&Hr&Hs) Hshort. cbv zeta. unfold Ingest, ingestNormal. rewrite Hs, Hr, Hc.
  pose proof (parse_app seen b cfg cfg cfg no_carry false h0 h h0) as Happ. cbv zeta in Happ.
  pose proof (parse_consumes (drop (Z.to_nat (px_Consumed (parseWithCarry seen cfg no_carry h0).1)) seen ++ b) cfg (px_carry (parseWithCarry seen cfg no_carry h0).1) false h) as [Hcut Hrange].
  pose proof (parse_consumes seen cfg no_carry false h0) as [_ Hrange1]. unfold caught_up, parseWithCarry in *.
  destruct (parse seen cfg no_carry false h0) as [r1 h1]. cbn [fst] in *. set (buf := drop (Z.to_nat (px_Consumed r1)) seen ++ b) in *.
  destruct (parse buf cfg (px_carry r1) false h) as [r2 h2]. cbn [fst] in *. destruct (parse (seen ++ b) cfg no_carry false h0) as [r h3]. cbn [fst] in *.
  destruct Happ as (Hbill&Hcarry&Hcons).
  assert (Hseen : seen ++ b = take (Z.to_nat (px_Consumed r1)) seen ++ buf) by (subst buf; by rewrite app_assoc, take_drop).
  assert (Hsmall : zlen (drop (Z.to_nat (px_Consumed r2)) buf) <= cu_maxPartialLine c).
  { destruct Hcut as [Hnl _]. apply (Hshort (take (Z.to_nat (px_Consumed r1)) seen ++ take (Z.to_nat (px_Consumed r2)) buf) _ []); [|done].
    by rewrite app_nil_r, <-app_assoc, take_drop. }
  destruct (Z.ltb_spec (cu_maxPartialLine c) (zlen (drop (Z.to_nat (px_Consumed r2)) buf))); [lia|]. cbn.
  rewrite bill_app, Hb, Hbill. split; [done|]. split; [done|]. assert (Hbuf : zlen (take (Z.to_nat (px_Consumed r2)) buf) = px_Consumed r2) by (unfold zlen in *; rewrite length_take; lia).
  rewrite Hp, Hbuf, Hcons. split; [done|]. split; [|done]. rewrite Hseen.
  assert (Hl1 : length (take (Z.to_nat (px_Consumed r1)) seen) = Z.to_nat (px_Consumed r1)) by (unfold zlen in *; rewrite length_take; lia).
  rewrite Z2Nat.inj_add by lia. rewrite <-Hl1 at 1. by rewrite <-drop_drop, drop_app_length.
Qed.

Lemma Ingest_max c b cfg (h : H) d : cu_maxPartialLine ((Ingest c b cfg h).1.2 d) = cu_maxPartialLine d.
Proof.
  unfold Ingest, ingestNormal. destruct (cu_skip c).
  - destruct (cut x0a b) as [line [rest|]]; [|done]. destruct (parseWithCarry _ _ _ _). by destruct (_ <? _).
  - destruct (parseWithCarry _ _ _ _). by destruct (_ <? _).
Qed.

Lemma ingest_all_caught_up reads : forall cfg h0 seen out c (h : H), caught_up cfg h0 seen out c -> short_lines (cu_maxPartialLine c) (seen ++ concat reads) ->
  let r := ingest_all c reads cfg h in caught_up cfg h0 (seen ++ concat reads) (out ++ r.1.1) r.1.2.
Proof.
  induction reads as [|b l IH]; intros cfg h0 seen out c h Hc Hs; cbv zeta; [by rewrite !app_nil_r|]. cbn [ingest_all concat] in *. rewrite app_assoc in *.
  pose proof (Ingest_caught_up cfg h0 seen out c b h Hc (short_app _ _ _ Hs)) as Hi. pose proof (Ingest_max c b cfg h c) as Hm. cbv zeta in Hi.
  destruct (Ingest c b cfg h) as [[cands commit] h']. cbn [fst snd] in *. rewrite <-Hm in Hs. specialize (IH cfg h0 (seen ++ b) (out ++ cands) (commit c) h' Hi Hs). cbv zeta in IH.
  destruct (ingest_all (commit c) l cfg h') as [[rest d] h'']. cbn [fst snd] in *. by rewrite app_assoc.
Qed.

Lemma fresh_caught_up cfg (h : H) scope dev ino size modNanos max : caught_up cfg h [] [] (fresh_cursor scope dev ino size modNanos max).
Proof. by repeat split. Qed.

End host.

(** ** Flushing *)

Lemma closeClaudeMessage_tools st i n : ps_tools (closeClaudeMessage st i n).2 = ps_tools st.
Proof.
  unfold closeClaudeMessage. destruct (_ !! i) as [m|]; [|done]. destruct (count _ _) as [c new]. destruct (_ || _); [done|].
  cbn [attribute]. cbn [is_usage ca_Kind claude_candidate cand]. unfold startSession. by destruct (_ || _).
Qed.

Lemma newParseState_eq st : ps_tools st = ∅ -> st = newParseState (ps_carry st).
Proof. destruct st as [carry tools]. by intros [= ->]. Qed.

Lemma filter_usage_app l k : filter (fun c => is_usage c = true) (l ++ k) = filter (fun c => is_usage c = true) l ++ filter (fun c => is_usage c = true) k.
Proof. apply filter_app. Qed.

(** Of a closed response, the usage is offered last. *)
Lemma closeClaudeMessage_shape st i n k : (k < length (closeClaudeMessage st i n).1)%nat ->
  filter (fun c => is_usage c = true) (take k (closeClaudeMessage st i n).1) = [].
Proof.
  unfold closeClaudeMessage. destruct (_ !! i) as [m|]; [|cbn; lia]. destruct (count _ _) as [c new]. destruct (_ || _); [cbn; lia|].
  cbn [attribute]. cbn [is_usage ca_Kind claude_candidate cand]. unfold startSession. destruct (_ || _); cbn.
  - intros Hk. by replace k with 0%nat by lia.
  - intros Hk. destruct k as [|[|k]]; [done|done|lia].
Qed.

Lemma flushed_cons e carry l k : flushed ((e, carry) :: l) k = match flushed l k with Some s => Some s | None => if e <=? k then Some carry else None end.
Proof.
  unfold flushed. rewrite reverse_cons, filter_app. destruct (filter _ (reverse l)) as [|x r]; [|done]. cbn [app filter list_filter head fmap option_fmap option_map].
  destruct (Z.leb_spec e k); [rewrite decide_True by done|rewrite decide_False by (cbn; lia)]; done.
Qed.

Lemma flush_open_later fuel : forall st cands, Forall (fun s => zlen cands <= s.1) (flush_open fuel st cands).2.
Proof.
  induction fuel as [|fuel IH]; intros st cands; cbn [flush_open]; [done|]. destruct (cl_Open (ps_claude st)); [done|].
  destruct (closeClaudeMessage st 0 0) as [out t]. specialize (IH t (cands ++ out)). destruct (flush_open fuel t (cands ++ out)) as [all states]. cbn [snd] in *.
  pose proof (zlen_nonneg out). rewrite zlen_app in IH. constructor; [cbn; rewrite zlen_app; lia|]. eapply Forall_impl; [exact IH|]. cbn. intros x Hx. lia.
Qed.

Lemma flushed_none l k : Forall (fun s => k < s.1) l -> flushed l k = None.
Proof. induction 1 as [|[e carry] l He _ IH]; [done|]. rewrite flushed_cons, IH. cbn in He. destruct (Z.leb_spec e k); [lia|done]. Qed.

(** The candidates of a flush, and what the delivery of the first [k] leaves. *)
Definition flush_split (st : parseState) (cands all : list Candidate) (carry : transcriptCarry) (k : Z) : Prop :=
  exists done rest, all = cands ++ done ++ rest /\ zlen (cands ++ done) <= k
    /\ (flush_open (length (cl_Open (tc_claude carry))) (newParseState carry) []).1 = rest
    /\ filter (fun c => is_usage c = true) (take (Z.to_nat k) all) = filter (fun c => is_usage c = true) (cands ++ done)
    /\ (zlen all <= k -> cl_Open (tc_claude carry) = [])
    /\ (good_claude (ps_claude st) -> counts (ps_claude st) done (tc_claude carry) /\ good_claude (tc_claude carry)).

Lemma flush_open_app fuel : forall st cands, flush_open fuel st cands = (cands ++ (flush_open fuel st []).1, map (fun s => (zlen cands + s.1, s.2)) (flush_open fuel st []).2).
Proof.
  induction fuel as [|fuel IH]; intros st cands; cbn [flush_open]; [by rewrite app_nil_r|]. destruct (cl_Open (ps_claude st)); [by rewrite app_nil_r|].
  destruct (closeClaudeMessage st 0 0) as [out t]. cbn [app]. rewrite (IH t (cands ++ out)), (IH t out). cbn [fst snd map]. rewrite zlen_app, <-app_assoc. f_equal. f_equal.
  rewrite map_map. apply map_ext. intros s. cbn [fst snd]. by rewrite Z.add_assoc.
Qed.

Lemma flush_open_split fuel : forall st cands k, length (cl_Open (ps_claude st)) = fuel -> ps_tools st = ∅ -> zlen cands <= k ->
  let '(all, states) := flush_open fuel st cands in flush_split st cands all (default (ps_carry st) (flushed states k)) k.
Proof.
  induction fuel as [|fuel IH]; intros st cands k Hf Ht Hk; cbn [flush_open].
  - exists [], []. rewrite !app_nil_r. cbn [flushed]. apply nil_length_inv in Hf. cbn. change (tc_claude (ps_carry st)) with (ps_claude st). rewrite Hf.
    split; [done|]. split; [done|]. split; [done|]. split; [by rewrite take_ge by (unfold zlen in Hk; lia)|]. split; [done|].
    intros Hg. split; [by apply counts_none|done].
  - destruct (cl_Open (ps_claude st)) as [|m l] eqn:Eo; [done|]. pose proof (closeClaudeMessage_open st 0 0 m) as Ho. pose proof (closeClaudeMessage_tools st 0 0) as Htt.
    pose proof (closeClaudeMessage_shape st 0 0) as Hshape. pose proof (closeClaudeMessage_closing st 0 0) as Hclose. destruct (closeClaudeMessage st 0 0) as [out t] eqn:Ec.
    cbn [fst snd] in *. rewrite Eo in Ho. specialize (Ho eq_refl). cbn [delete list_delete] in Ho.
    destruct (Z.le_gt_cases (zlen (cands ++ out)) k) as [Hle|Hgt].
    + specialize (IH t (cands ++ out) k ltac:(rewrite Ho; by injection Hf) ltac:(congruence) Hle). destruct (flush_open fuel t (cands ++ out)) as [all states].
      rewrite flushed_cons. destruct (Z.leb_spec (zlen (cands ++ out)) k); [|lia].
      replace (default (ps_carry st) _) with (default (ps_carry t) (flushed states k)) by (by destruct (flushed states k)).
      destruct IH as (done_&rest&Ha&Hd&Hr&Hu&Hopen&Hc). exists (out ++ done_), rest. rewrite <-!app_assoc in *. split; [done|]. split; [done|]. split; [done|]. split; [done|]. split; [done|].
      intros Hg. destruct (Hclose Hg) as [[Hgt Hct] _]. destruct (Hc Hgt) as [Hc1 Hc2]. split; [|done]. by eapply counts_trans.
    + pose proof (flush_open_later fuel t (cands ++ out)) as Hlater. pose proof (flush_open_app fuel t (cands ++ out)) as Happ. destruct (flush_open fuel t (cands ++ out)) as [all states]. cbn [snd] in Hlater.
      rewrite flushed_none; [|constructor; [done|]; eapply Forall_impl; [exact Hlater|]; cbn; intros; lia]. cbn [default]. injection Happ as -> _. 
      exists [], (out ++ (flush_open fuel t []).1). rewrite app_nil_r. cbn [app]. rewrite <-app_assoc. split; [done|]. split; [done|].
      change (tc_claude (ps_carry st)) with (ps_claude st). split.
      { rewrite <-(newParseState_eq st Ht). rewrite Eo at 1. rewrite Hf. cbn [flush_open]. rewrite Eo, Ec. cbn [app]. by rewrite flush_open_app. }
      assert (Hn : (length cands <= Z.to_nat k)%nat) by (unfold zlen in Hk; lia). rewrite zlen_app in Hgt. unfold zlen in Hgt.
      split; [|split; [|intros Hg; split; [by apply counts_none|done]]].
      * rewrite take_app, filter_usage_app, (take_ge cands) by lia. rewrite take_app_le by (unfold zlen in *; lia). rewrite Hshape by (unfold zlen in *; lia). by rewrite app_nil_r.
      * intros Hall. rewrite !zlen_app in Hall. pose proof (zlen_nonneg (flush_open fuel t []).1). unfold zlen in *. lia.
Qed.

Lemma FlushOpenUsage_split c k : 0 <= k -> flush_split (newParseState (cu_carry c)) [] (FlushOpenUsage c).1 (cu_carry ((FlushOpenUsage c).2 k c)) k.
Proof.
  intros Hk. unfold FlushOpenUsage. pose proof (flush_open_split _ (newParseState (cu_carry c)) [] k eq_refl eq_refl Hk) as Hs. cbn [ps_claude newParseState ps_carry] in Hs.
  destruct (flush_open _ _ _) as [all states]. cbn [fst snd]. by destruct (flushed states k).
Qed.

(** ** What a cursor delivers *)

Inductive run {H : Type} `{HV : Host H} (c0 : Cursor) : list Candidate -> Cursor -> Prop :=
| run_start : run c0 [] c0
| run_ingest out c b cfg (h : H) : run c0 out c -> run c0 (out ++ (Ingest c b cfg h).1.1) ((Ingest c b cfg h).1.2 c)
| run_flush out c (delivered : nat) : run c0 out c ->
    run c0 (out ++ take delivered (FlushOpenUsage c).1) ((FlushOpenUsage c).2 (Z.of_nat delivered) c)
| run_saved out c counted : run c0 out c -> run c0 out (saved counted c)
| run_observe out c size modNanos : run c0 out c -> run c0 out (observe size modNanos c)
| run_seed out c window : run c0 out c -> run c0 out (SeedAnchor window c).

Section counted.
Context {H : Type} `{HV : Host H}.

Lemma ingest_carry c b cfg (h : H) : good_claude (tc_claude (cu_carry c)) ->
  let '(cands, commit, _) := Ingest c b cfg h in
  good_claude (tc_claude (cu_carry (commit c))) /\ counts (tc_claude (cu_carry c)) cands (tc_claude (cu_carry (commit c))).
Proof.
  intros Hg.
  assert (Hn : forall prefix d, let '(cands, commit, _) := ingestNormal c prefix d cfg h in forall e,
    good_claude (tc_claude (cu_carry (commit e))) /\ counts (tc_claude (cu_carry c)) cands (tc_claude (cu_carry (commit e)))).
  { intros prefix d. unfold ingestNormal. pose proof (parse_counting (prefix ++ d) cfg (cu_carry c) false h Hg) as [H1 H2]. unfold parseWithCarry.
    destruct (parse (prefix ++ d) cfg (cu_carry c) false h) as [res h']. cbn [fst] in *. destruct (_ <? _); intros e; split; try done. cbn.
    destruct H2 as (new&HU&HD&HF&HC&HS). exists new. split; [done|]. split; [done|]. split; [done|]. split; [done|]. by rewrite counted_ids_app, app_nil_r. }
  unfold Ingest. destruct (cu_skip c).
  - destruct (cut x0a b) as [line [rest|]]; [|split; [done|by apply counts_none]]. specialize (Hn [] rest). destruct (ingestNormal c [] rest cfg h) as [[cands commit] h']. apply Hn.
  - specialize (Hn (cu_remainder c) b). destruct (ingestNormal c (cu_remainder c) b cfg h) as [[cands commit] h']. apply Hn.
Qed.

Lemma counted_usages l k : filter (fun c => is_usage c = true) l = filter (fun c => is_usage c = true) k -> counted_ids l = counted_ids k.
Proof.
  assert (Hf : forall l, counted_ids (filter (fun c => is_usage c = true) l) = counted_ids l).
  { induction l0 as [|c r IH]; [done|]. rewrite filter_cons. unfold counted_ids in *. destruct (decide (is_usage c = true)) as [|E]; cbn; [by rewrite IH|].
    rewrite IH. unfold counted_id. unfold is_usage in E. by destruct (ca_Kind c). }
  intros E. rewrite <-(Hf l), <-(Hf k). by rewrite E.
Qed.

(** What was delivered is among what is remembered, once. *)
Definition accounted (out : list Candidate) (c : Cursor) : Prop :=
  good_claude (tc_claude (cu_carry c)) /\ NoDup (idHash <$> counted_ids out) /\ forall k, k ∈ idHash <$> counted_ids out -> k ∈ cl_Counted (tc_claude (cu_carry c)).

Lemma accounted_more out c cands carry : accounted out c -> good_claude (tc_claude carry) -> counts (tc_claude (cu_carry c)) cands (tc_claude carry) ->
  forall d, cu_carry d = carry -> accounted (out ++ cands) d.
Proof.
  intros (Hg&Hd&Hin) Hg' (new&HU&HD&HF&HC&HS) d Ed. unfold accounted. rewrite Ed, counted_ids_app, fmap_app. split; [done|]. split.
  - apply NoDup_app. split; [done|]. split; [|by eapply sublist_NoDup]. intros k Hk Hk'. apply (HF k); [by eapply elem_of_sublist|by apply Hin].
  - intros k [Hk|Hk]%elem_of_app; apply HC; [left; by apply Hin|right; by eapply elem_of_sublist].
Qed.

Lemma run_accounted c0 out c : good_claude (tc_claude (cu_carry c0)) -> run c0 out c -> accounted out c.
Proof.
  intros H0. induction 1 as [|out c b cfg h Hr IH|out c k Hr IH|out c n Hr IH|out c size modNanos Hr IH|out c window Hr IH].
  - split; [done|]. split; [constructor|]. by intros k ?%elem_of_nil.
  - pose proof (ingest_carry c b cfg h (proj1 IH)) as Hi. destruct (Ingest c b cfg h) as [[cands commit] h']. by eapply accounted_more; [exact IH|apply Hi|apply Hi|].
  - pose proof (FlushOpenUsage_split c (Z.of_nat k) ltac:(lia)) as (done_&rest&Ha&_&_&Hu&_&Hc). destruct (FlushOpenUsage c) as [cands commit]. cbn [fst snd] in *.
    destruct (Hc (proj1 IH)) as [H1 H2]. rewrite Nat2Z.id in Hu. cbn [app] in Hu. apply counted_usages in Hu.
    eapply accounted_more; [exact IH|exact H2| |done]. destruct H1 as (new&HU&HD&HF&HC&HS). exists new. by rewrite Hu.
  - destruct IH as ([]&Hd&Hin). split; [|by split]. by split.
  - done.
  - unfold SeedAnchor. destruct (_ || _); [done|]. exact IH.
Qed.
End counted.

(** ** The properties *)

Definition demo_record (uuid id stop : String.string) : bytes :=
  js "{'type':'assistant','sessionId':'s1','uuid':'" ++ str uuid ++ js "','timestamp':'2026-01-01T00:00:01Z','message':{'id':'" ++ str id
  ++ js "','model':'opus','stop_reason':" ++ js stop ++ js ",'usage':{'input_tokens':5,'output_tokens':1}}}" ++ [x0a].
(** A response in two records, a copy of the second, and one still open. *)
Definition demo_stream : bytes :=
  demo_record "u1" "m1" "null" ++ demo_record "u2" "m1" "'end_turn'" ++ demo_record "u3" "m1" "'end_turn'" ++ demo_record "u4" "m2" "null".
Definition demo_cursor : Cursor := fresh_cursor [] 1 2 0 0 0.
Definition demo_reads : list bytes := [take 200 demo_stream; drop 200 demo_stream; js "{'type'"].

(** How a file's bytes arrive does not matter. When none of its lines is longer than the bound, the reads together bill the usage and the starts
    of one parse of all the bytes, and leave the cursor with its carry, at its offset, with what it left unread. *)
Theorem ingest_chunks {H} `{HV : Host H} scope dev ino size modNanos max reads cfg (h h' : H) :
  let c0 := fresh_cursor scope dev ino size modNanos max in
  short_lines (cu_maxPartialLine c0) (concat reads) ->
  let '(out, c, _) := ingest_all c0 reads cfg h in
  let r := (parseWithCarry (concat reads) cfg no_carry h').1 in
  bill out = bill (px_Candidates r) /\ cu_carry c = px_carry r /\ cu_consumed c = px_Consumed r
  /\ cu_remainder c = drop (Z.to_nat (px_Consumed r)) (concat reads) /\ cu_skip c = false.
Proof.
  cbv zeta. intros Hs. pose proof (ingest_all_caught_up reads cfg h' [] [] _ h (fresh_caught_up cfg h' scope dev ino size modNanos max) Hs) as Hc. cbv zeta in Hc.
  destruct (ingest_all _ reads cfg h) as [[out c] h'']. exact Hc.
Qed.

Lemma ingest_chunks_witness :
  let '(out, c, _) := ingest_all demo_cursor demo_reads demo_refs tt in
  let r := (parseWithCarry (concat demo_reads) demo_refs no_carry tt).1 in
  bill out = bill (px_Candidates r) /\ length (counted_ids out) = 1%nat /\ cu_consumed c = px_Consumed r /\ cu_remainder c = js "{'type'".
Proof.
  pose proof (ingest_chunks [] 1 2 0 0 0 demo_reads demo_refs tt tt ltac:(apply short_total; vm_compute; discriminate)) as Hc.
  assert (Hn : length (counted_ids (ingest_all demo_cursor demo_reads demo_refs tt).1.1) = 1%nat /\ cu_remainder (ingest_all demo_cursor demo_reads demo_refs tt).1.2 = js "{'type'") by (split; vm_compute; reflexivity).
  change (fresh_cursor [] 1 2 0 0 0) with demo_cursor in Hc. destruct (ingest_all demo_cursor demo_reads demo_refs tt) as [[out c] h].
  exact (conj (proj1 Hc) (conj (proj1 Hn) (conj (proj1 (proj2 (proj2 Hc))) (proj2 Hn)))).
Defined.

(** A flush delivered in part re-offers only the rest. However many of its candidates were delivered, the commit splits them: the first ones
    are done with, the next flush offers exactly the others, and no usage of the delivered ones is among them; when all were delivered, no response
    stays open. *)
Theorem flush_partial c (delivered : nat) :
  let '(cands, commit) := FlushOpenUsage c in
  let c' := commit (Z.of_nat delivered) c in
  exists done rest, cands = done ++ rest /\ zlen done <= Z.of_nat delivered /\ (FlushOpenUsage c').1 = rest
    /\ filter (fun c => is_usage c = true) (take delivered cands) = filter (fun c => is_usage c = true) done
    /\ (zlen cands <= Z.of_nat delivered -> HasOpenUsage c' = false).
Proof.
  pose proof (FlushOpenUsage_split c (Z.of_nat delivered) ltac:(lia)) as (done_&rest&Ha&Hd&Hr&Hu&Ho&_). destruct (FlushOpenUsage c) as [cands commit]. cbn [fst snd app] in *.
  rewrite Nat2Z.id in Hu. exists done_, rest. split; [done|]. split; [done|]. split; [|split; [done|]].
  - unfold FlushOpenUsage. rewrite <-Hr. by destruct (flush_open _ _ _).
  - intros Hk. unfold HasOpenUsage. by rewrite (Ho Hk).
Qed.

(** C31: No Claude response is delivered twice. Over any reads, flushes (delivered in full or in part) and saves of a file's cursor from its start, the
    message ids of the Claude usages that were delivered are distinct, their hashes even, and the cursor remembers each. *)
Theorem run_counts_once {H} `{HV : Host H} scope dev ino size modNanos max out c :
  run (fresh_cursor scope dev ino size modNanos max) out c ->
  NoDup (counted_ids out) /\ NoDup (idHash <$> counted_ids out) /\ forall id, id ∈ counted_ids out -> idset_has (cl_Counted (tc_claude (cu_carry c))) (idHash id) = true.
Proof.
  intros Hr. apply run_accounted in Hr as (Hg&Hd&Hin); [|apply good_no_claude]. split; [by apply NoDup_fmap_1 in Hd|]. split; [done|].
  intros id Hid. apply idset_has_iff; [apply Hg|]. apply Hin. by apply list_elem_of_fmap_2.
Qed.

Definition demo_ingested : list Candidate * (Cursor -> Cursor) * unit := Ingest demo_cursor demo_stream demo_refs tt.
Definition demo_saved : Cursor := saved 1 (demo_ingested.1.2 demo_cursor).

Lemma run_counts_once_witness :
  let out := ([] ++ demo_ingested.1.1) ++ take 5 (FlushOpenUsage demo_saved).1 in
  counted_ids out = [str "m1"; str "m2"] /\ NoDup (counted_ids out).
Proof.
  cbv zeta. split; [vm_compute; reflexivity|].
  exact (proj1 (run_counts_once [] 1 2 0 0 0 _ _
    (run_flush demo_cursor _ demo_saved 5 (run_saved demo_cursor _ _ 1 (run_ingest demo_cursor [] demo_cursor demo_stream demo_refs tt (run_start demo_cursor)))))).
Defined.
