(* ===== verification/CursorStore.v ===== *)
(** * The cursor's files ([Save], [loadCursor] of [adapter/codex/cursor.go])

    The state file and the sidecar of counted ids, what a crash or a failure during a save leaves of them,
    and the cursor a load makes of them. The state file is replaced atomically and stands for the value it
    decodes to; the sidecar is bytes. *)

From S2P Require Import Prelude GoStrings GoTime Json GoNet GoPath GoJson BeadPrefix Validate Evidence Policy RefExtract.
From S2P Require Import Transcript Rollout Claude Parser Cursor.

(** ** Paths *)

Definition state_name (dev ino : Z) : bytes := str "codex-cursor-" ++ FormatInt dev ++ [x2d] ++ FormatInt ino ++ str ".json".
Definition counted_name (state : bytes) : bytes := TrimSuffix state (str ".json") ++ str ".counted".

(** ** Files *)

Definition cursorStateVersion : Z := 1.

Record persistedCursor : Type := mkPersisted {
  pc_Version : Z;
  pc_Device : Z;
  pc_Inode : Z;
  pc_Consumed : Z;
  pc_Size : Z;
  pc_ModNanos : Z;
  pc_Skip : bool;
  pc_AnchorHash : Z;
  pc_AnchorSize : Z;
  pc_Scope : bytes;
  pc_Sealed : bool;
  pc_RolloutRecordMode : bool;
  pc_RolloutLegacyTotal : bytes;
  pc_RolloutPending : option rolloutPending;
  pc_RolloutCarry : bool;
  pc_Session : option sessionCarry;
  pc_Claude : option (list claudeMessage);
  pc_ClaudeCounted : Z;
  pc_SessionCarry : bool;
}.

(** [Unreadable]: reading it, or decoding it, fails. *)
Inductive content (A : Type) : Type := Absent | Unreadable | Holds (a : A).
Arguments Absent {A}. Arguments Unreadable {A}. Arguments Holds {A} a.

Record cursorFiles : Type := mkFiles { cf_state : content persistedCursor; cf_counted : content bytes }.

(** ** The sidecar *)

Definition hash_bytes (hashes : list Z) : bytes := concat (map (be_enc 8) hashes).

(** The whole hashes of a sidecar. *)
Fixpoint hashes_of (fuel : nat) (b : bytes) : list Z :=
  match fuel with
  | S fuel' => if (length b <? 8)%nat then [] else be_dec (take 8 b) :: hashes_of fuel' (drop 8 b)
  | O => []
  end.

(** [None]: an error. *)
Definition readCounted (f : content bytes) (n : Z) : option (list Z) :=
  match f with
  | Absent => Some []
  | Unreadable => None
  | Holds b => Some (hashes_of (length b) (take (Z.to_nat (Z.min (zlen b / 8) n * 8)) b))
  end.

(** [f.Truncate]: zeros make up what is missing. *)
Definition truncate (size : nat) (b : bytes) : bytes := take size b ++ replicate (size - length b) x00.

Definition old_bytes (f : content bytes) : bytes := match f with Holds b => b | _ => [] end.

Definition writeCounted (f : content bytes) (keep : Z) (hashes : list Z) : bytes :=
  truncate (Z.to_nat (8 * keep)) (old_bytes f) ++ hash_bytes hashes.

(** The ids a save writes: when the sidecar lost some of those claimed, all the cursor knows. *)
Definition counted_to_write (c : Cursor) (f : content bytes) : list Z :=
  let unsaved := cl_Unsaved (tc_claude (cu_carry c)) in
  if 0 <? cu_countedSaved c then
    match f with
    | Holds b => if zlen b <? 8 * cu_countedSaved c then cl_Counted (tc_claude (cu_carry c)) else unsaved
    | _ => cl_Counted (tc_claude (cu_carry c))
    end
  else unsaved.

(** How many hashes the state then claims, and the sidecar; [None]: an error. *)
Definition saveCounted (c : Cursor) (f : content bytes) : option (Z * content bytes) :=
  match cl_Unsaved (tc_claude (cu_carry c)), f with
  | [], _ => Some (cu_countedSaved c, f)
  | _ :: _, Unreadable => None
  | _ :: _, _ => let hashes := counted_to_write c f in Some (cu_countedSaved c + zlen hashes, Holds (writeCounted f (cu_countedSaved c) hashes))
  end.

(** ** Saving *)

Definition persisted (c : Cursor) (counted : Z) : persistedCursor :=
  let carry := cu_carry c in
  let r := tc_rollout carry in
  let s := tc_session carry in
  let open := cl_Open (tc_claude carry) in
  mkPersisted cursorStateVersion (cu_dev c) (cu_ino c) (cu_consumed c) (cu_size c) (cu_modNanos c) (cu_skip c) (cu_anchorHash c) (cu_anchorSize c)
    (cu_scope c) (cu_sealed c) (ro_RecordMode r) (ro_LegacyTotal r) (ro_Pending r) (cu_carryKnown c)
    (if negb (bool_decide (sc_NativeID s = [])) || (0 <? zlen (sc_Sessions s)) then Some s else None)
    (if 0 <? zlen open then Some open else None) counted (cu_sessionKnown c).

Definition Save (c : Cursor) (F : cursorFiles) : option (Cursor * cursorFiles) :=
  match saveCounted c (cf_counted F) with
  | None => None
  | Some (counted, sidecar) => Some (saved counted c, mkFiles (Holds (persisted c counted)) sidecar)
  end.

(** A sidecar between its truncation and its sync: what it held up to the claim, zeros up to it, then anything. *)
Definition torn (keep : Z) (old b : bytes) : Prop :=
  exists zeros tail, b = take (Z.to_nat (8 * keep)) old ++ replicate zeros x00 ++ tail
    /\ (length (take (Z.to_nat (8 * keep)) old) + zeros <= Z.to_nat (8 * keep))%nat
    /\ (tail <> [] -> (length (take (Z.to_nat (8 * keep)) old) + zeros = Z.to_nat (8 * keep))%nat).

(** What a save, finished or not, leaves of the files. *)
Inductive save_leaves (c : Cursor) (F : cursorFiles) : cursorFiles -> Prop :=
| leaves_untouched : save_leaves c F F
| leaves_torn b : cl_Unsaved (tc_claude (cu_carry c)) <> [] -> cf_counted F <> Unreadable -> torn (cu_countedSaved c) (old_bytes (cf_counted F)) b ->
    save_leaves c F (mkFiles (cf_state F) (Holds b))
| leaves_sidecar n sidecar : saveCounted c (cf_counted F) = Some (n, sidecar) -> save_leaves c F (mkFiles (cf_state F) sidecar)
| leaves_saved c' F' : Save c F = Some (c', F') -> save_leaves c F F'.

(** ** Loading *)

Fixpoint Compact (l : list Z) : list Z :=
  match l with
  | x :: ((y :: _) as r) => if x =? y then Compact r else x :: Compact r
  | _ => l
  end.
Definition counted_set (hashes : list Z) : list Z := Compact (merge_sort Z.le (filter (fun h => h <> 0) hashes)).

(** The state is of this file, and of this root's consent. *)
Definition same_file (p : persistedCursor) (scope : bytes) (dev ino : Z) : bool :=
  (pc_Version p =? cursorStateVersion) && (pc_Device p =? dev) && (pc_Inode p =? ino) && bool_decide (pc_Scope p = scope).
(** The file can have grown from what the state saw. *)
Definition corroborated (p : persistedCursor) (liveSize liveModNanos : Z) : bool :=
  negb ((liveSize <? pc_Consumed p) || (liveSize <? pc_Size p) || (liveModNanos <? pc_ModNanos p)).

(** [None]: an error. *)
Definition loadCursor (scope : bytes) (dev ino liveSize liveModNanos maxPartialLine : Z) (F : cursorFiles) : option Cursor :=
  let c := fresh_cursor scope dev ino liveSize liveModNanos maxPartialLine in
  match cf_state F with
  | Absent => Some c
  | Unreadable => None
  | Holds p =>
      if negb (same_file p scope dev ino) then Some c
      else if negb (corroborated p liveSize liveModNanos) then Some c
      else
        let rollout := mkRollout (pc_RolloutRecordMode p) (pc_RolloutLegacyTotal p) (pc_RolloutPending p) in
        let session := default no_session (pc_Session p) in
        let open := default [] (pc_Claude p) in
        let carryKnown := pc_RolloutCarry p || pc_RolloutRecordMode p || negb (bool_decide (pc_RolloutLegacyTotal p = []))
                          || bool_decide (is_Some (pc_RolloutPending p)) || (pc_Consumed p =? 0) in
        let sessionKnown := pc_SessionCarry p || (pc_Consumed p =? 0) in
        let resumed countedSaved counted :=
          mkCursor scope dev ino (pc_Size p) (pc_ModNanos p) (pc_Consumed p) [] (pc_Skip p) [] (pc_AnchorHash p) (pc_AnchorSize p) (pc_Sealed p)
            (mkCarry rollout session (mkClaude open counted [])) carryKnown sessionKnown countedSaved (cu_maxPartialLine c) in
        if 0 <? pc_ClaudeCounted p then
          match readCounted (cf_counted F) (pc_ClaudeCounted p) with
          | None => None
          | Some hashes => Some (resumed (pc_ClaudeCounted p) (counted_set hashes))
          end
        else Some (resumed 0 [])
  end.

Definition LoadCursor (dev ino liveSize liveModNanos maxPartialLine : Z) (F : cursorFiles) : option Cursor :=
  loadCursor [] dev ino liveSize liveModNanos maxPartialLine F.
(** [F]: the files in the scope's own directory. *)
Definition LoadScopedCursor (dev ino liveSize liveModNanos maxPartialLine : Z) (scope : bytes) (F : cursorFiles) : option Cursor :=
  if bool_decide (scope = []) then None else loadCursor scope dev ino liveSize liveModNanos maxPartialLine F.
