(* ===== verification/CursorSave.v ===== *)
(** * Saving a cursor is crash safe ([CursorStore])

    Whatever a save leaves when it is cut short, the state file on disk still owns the ids it owned, or it
    is the new one and owns the cursor's; over the lives of a state file's cursors: reads, flushes, resets,
    seals, upgrades, saves, failures, lost hashes and restarts. Where this fails, an example shows it. *)

From S2P Require Import Prelude GoStrings GoTime Json GoNet GoPath GoJson BeadPrefix Validate Evidence Policy RefExtract.
From S2P Require Import Transcript Rollout Claude Parser RefFacts ParseSplit ParseCount Cursor CursorFacts CursorStore.

(** ** Bytes and hashes *)

Lemma hash_bytes_app l k : hash_bytes (l ++ k) = hash_bytes l ++ hash_bytes k.
Proof. unfold hash_bytes. by rewrite map_app, concat_app. Qed.

Lemma length_hash_bytes l : length (hash_bytes l) = (8 * length l)%nat.
Proof. induction l as [|k l IH]; [done|]. change (k :: l) with ([k] ++ l). rewrite hash_bytes_app, !length_app, IH. cbn [length]. unfold hash_bytes. cbn [map concat]. rewrite app_nil_r, length_be_enc. lia. Qed.

Lemma hash_bytes_zeros m : hash_bytes (replicate m 0) = replicate (8 * m) x00.
Proof.
  induction m as [|m IH]; [done|]. cbn [replicate]. change (0 :: replicate m 0) with ([0] ++ replicate m 0). rewrite hash_bytes_app, IH.
  replace (8 * S m)%nat with (8 + 8 * m)%nat by lia. by rewrite replicate_add.
Qed.

Lemma hashes_of_bytes l : forall fuel, (length (hash_bytes l) <= fuel)%nat -> Forall is_hash l -> hashes_of fuel (hash_bytes l) = l.
Proof.
  induction l as [|k l IH]; intros fuel Hf Hr; [by destruct fuel|]. apply Forall_cons in Hr as [Hk Hr]. change (k :: l) with ([k] ++ l) in Hf |- *. rewrite hash_bytes_app in Hf |- *.
  assert (E : hash_bytes [k] = be_enc 8 k) by (unfold hash_bytes; cbn [map concat]; by rewrite app_nil_r). rewrite E in *.
  assert (Hl : length (be_enc 8 k) = 8%nat) by apply length_be_enc. rewrite length_app, Hl in Hf. destruct fuel as [|fuel]; [lia|]. cbn [hashes_of].
  destruct (Nat.ltb_spec (length (be_enc 8 k ++ hash_bytes l)) 8) as [Hs|_]; [rewrite length_app in Hs; lia|].
  rewrite take_app_length', drop_app_length' by done. rewrite IH by (lia || done). by rewrite be_dec_enc_id.
Qed.

(** A sidecar that owns [l] of the [n] hashes claimed: zeros stand for those it lost, and what follows the claim does not count. *)
Definition padded (n : Z) (l : list Z) (b : bytes) : Prop :=
  exists z more, b = hash_bytes l ++ replicate z x00 ++ more /\ 8 * zlen l + Z.of_nat z <= 8 * n /\ (more <> [] -> 8 * zlen l + Z.of_nat z = 8 * n).

Lemma padded_length n l b : padded n l b -> 0 <= n /\ zlen l <= n.
Proof. intros (z&more&_&Hz&_). pose proof (zlen_nonneg l). lia. Qed.

(** Up to the claim. *)
Lemma padded_take n l b : padded n l b -> exists z, take (Z.to_nat (8 * n)) b = hash_bytes l ++ replicate z x00 /\ 8 * zlen l + Z.of_nat z <= 8 * n
  /\ (zlen b < 8 * n -> take (Z.to_nat (8 * n)) b = b).
Proof.
  intros (z&more&->&Hz&Hm). exists z. assert (Hl : length (hash_bytes l ++ replicate z x00) = Z.to_nat (8 * zlen l + Z.of_nat z)).
  { rewrite length_app, length_hash_bytes, length_replicate. unfold zlen in *. lia. }
  split; [|split; [done|intros Hb; apply take_ge; unfold zlen in *; lia]]. rewrite app_assoc. destruct more as [|x more].
  - rewrite app_nil_r. apply take_ge. lia.
  - rewrite <-Hm by done. by rewrite <-Hl, take_app_length.
Qed.

Lemma padded_torn n l b b' : padded n l b -> torn n b b' -> padded n l b'.
Proof.
  intros Hp (zeros&tail&->&Hz&Ht). destruct (padded_take n l b Hp) as (z&E&Hle&_). pose proof (padded_length _ _ _ Hp) as [H0 _]. rewrite E in *.
  rewrite length_app, length_hash_bytes, length_replicate in Hz, Ht. exists (z + zeros)%nat, tail. rewrite replicate_add, <-!app_assoc. unfold zlen in *. split; [done|]. split; [lia|].
  intros Hn. specialize (Ht Hn). lia.
Qed.

Lemma padded_read n l b : Forall is_hash l -> padded n l b -> exists m, readCounted (Holds b) n = Some (l ++ replicate m 0).
Proof.
  intros Hr (z&more&->&Hz&Hm). cbn [readCounted]. set (b := hash_bytes l ++ replicate z x00 ++ more). pose proof (zlen_nonneg l) as H0.
  assert (Hb : zlen b = 8 * zlen l + Z.of_nat z + zlen more) by (subst b; rewrite !zlen_app; unfold zlen; rewrite length_hash_bytes, length_replicate; lia).
  set (m := Z.to_nat (Z.min (zlen b / 8) n - zlen l)). pose proof (zlen_nonneg more) as H1.
  assert (H8 : 8 * (zlen b / 8) <= zlen b) by (apply Z.mul_div_le; lia).
  assert (Hq : 0 <= Z.min (zlen b / 8) n - zlen l) by (assert (zlen l <= zlen b / 8) by (apply Z.div_le_lower_bound; lia); lia).
  assert (Ht : take (Z.to_nat (Z.min (zlen b / 8) n * 8)) b = hash_bytes (l ++ replicate m 0)).
  { rewrite hash_bytes_app, hash_bytes_zeros. assert (Hmz : (8 * m <= z)%nat).
    { destruct more as [|x more]; [change (zlen []) with 0 in Hb; unfold m; lia|]. specialize (Hm ltac:(done)). unfold m. lia. }
    assert (Eq : Z.to_nat (Z.min (zlen b / 8) n * 8) = (8 * length l + 8 * m)%nat) by (unfold m; unfold zlen in *; lia). rewrite Eq. subst b.
    replace z with (8 * m + (z - 8 * m))%nat by lia. rewrite replicate_add, <-!app_assoc, app_assoc. apply take_app_length'.
    by rewrite length_app, length_hash_bytes, length_replicate. }
  exists m. rewrite Ht. f_equal. apply hashes_of_bytes.
  - rewrite <-Ht, length_take. lia.
  - apply Forall_app. split; [done|]. apply Forall_replicate. unfold is_hash. lia.
Qed.

Lemma padded_write n l f hashes : padded n l (old_bytes f) ->
  exists m, writeCounted f n hashes = hash_bytes (l ++ replicate m 0 ++ hashes) /\ zlen l + Z.of_nat m = n.
Proof.
  intros Hp. destruct (padded_take _ _ _ Hp) as (z&E&Hz&_). destruct (padded_length _ _ _ Hp) as [H0 Hl]. exists (Z.to_nat (n - zlen l)). split; [|lia].
  unfold writeCounted, truncate. rewrite E, !hash_bytes_app, hash_bytes_zeros, <-!app_assoc. f_equal. rewrite app_assoc, <-replicate_add. f_equal. f_equal.
  assert (Hlen : length (take (Z.to_nat (8 * n)) (old_bytes f)) = (8 * length l + z)%nat) by (rewrite E, length_app, length_hash_bytes, length_replicate; done).
  rewrite length_take in Hlen. unfold zlen in *. lia.
Qed.

(** ** The loaded set *)

Definition nonzero (l : list Z) : list Z := filter (fun h => h <> 0) l.

Lemma Compact_cons y z r : Compact (y :: z :: r) = if y =? z then Compact (z :: r) else y :: Compact (z :: r).
Proof. done. Qed.

Lemma Compact_elem l x : x ∈ Compact l <-> x ∈ l.
Proof.
  induction l as [|y [|z r] IH]; [done|done|]. rewrite Compact_cons. destruct (Z.eqb_spec y z) as [->|]; rewrite ?elem_of_cons in *; rewrite IH; rewrite ?elem_of_cons; tauto.
Qed.

Lemma Compact_sorted l : StronglySorted Z.le l -> sorted_ids (Compact l).
Proof.
  induction 1 as [|y l Hs IH Hf]; [constructor|]. destruct l as [|z r]; [by repeat constructor|]. rewrite Compact_cons. destruct (Z.eqb_spec y z) as [->|Hne]; [done|].
  constructor; [done|]. apply Forall_forall. intros x Hx. rewrite Compact_elem in Hx. rewrite Forall_forall in Hf. apply StronglySorted_inv in Hs as [_ Hz]. rewrite Forall_forall in Hz.
  pose proof (Hf z ltac:(constructor)). apply elem_of_cons in Hx as [->|Hx]; [lia|]. specialize (Hz x Hx). lia.
Qed.

Lemma counted_set_elem l x : x ∈ counted_set l <-> x <> 0 /\ x ∈ l.
Proof. unfold counted_set. by rewrite Compact_elem, merge_sort_Permutation, list_elem_of_filter. Qed.

#[local] Instance Zle_total : Total Z.le.
Proof. intros x y. lia. Qed.
#[local] Instance Zle_trans : Transitive Z.le.
Proof. intros x y z. lia. Qed.

Lemma counted_set_sorted l : sorted_ids (counted_set l).
Proof. apply Compact_sorted, (StronglySorted_merge_sort Z.le). Qed.

Lemma sorted_ext l k : sorted_ids l -> sorted_ids k -> (forall x, x ∈ l <-> x ∈ k) -> l = k.
Proof.
  intros Hl Hk He. apply (StronglySorted_unique_strong Z.lt); [|done|done|].
  - intros x y _ _. lia.
  - apply NoDup_Permutation; [| |done]; [clear -Hl|clear -Hk]; [induction Hl as [|x r _ IH Hf]|induction Hk as [|x r _ IH Hf]]; constructor; try done; intros Hx; rewrite Forall_forall in Hf; specialize (Hf x Hx); lia.
Qed.

Lemma nonzero_sorted l : sorted_ids l -> sorted_ids (nonzero l).
Proof.
  induction 1 as [|x l Hs IH Hf]; [constructor|]. unfold nonzero in *. rewrite filter_cons. destruct (decide (x <> 0)); [|done]. constructor; [done|].
  rewrite Forall_forall in *. intros y [_ Hy]%list_elem_of_filter. by apply Hf.
Qed.

Lemma counted_set_nonzero l c : sorted_ids c -> (forall k, k <> 0 -> k ∈ l <-> k ∈ c) -> counted_set l = nonzero c.
Proof.
  intros Hs He. apply sorted_ext; [apply counted_set_sorted|by apply nonzero_sorted|]. intros k. unfold nonzero. rewrite counted_set_elem, list_elem_of_filter. specialize (He k). tauto.
Qed.

(** ** What the files hold of a cursor *)

(** The ids a load takes from a sidecar whose state claims [n]. *)
Definition loaded_ids (n : Z) (f : content bytes) : list Z := if 0 <? n then default [] (counted_set <$> readCounted f n) else [].

(** The responses a state keeps open. *)
Definition open_of (p : persistedCursor) : list claudeMessage := default [] (pc_Claude p).

(** The state on disk owns ids of its sidecar, none of them of a response it keeps open. *)
Definition owns (F : cursorFiles) : Prop :=
  match cf_state F with
  | Absent => True
  | Unreadable => False
  | Holds p => exists l, padded (pc_ClaudeCounted p) l (old_bytes (cf_counted F)) /\ Forall is_hash l /\ good_claude (mkClaude (open_of p) (counted_set l) [])
  end.

(** How the state on disk stands to the cursor: it claims the hashes the cursor saved; it claims others (the cursor started over, or a save
    replaced the state without telling); or a cut-short save has since written over those. *)
Inductive standing : Type := Settled | Unsettled | Overwritten.

Definition stands (s : standing) (c : Cursor) (F : cursorFiles) : Prop :=
  match s with
  | Settled => owns F /\ match cf_state F with Holds p => pc_ClaudeCounted p = cu_countedSaved c | _ => cu_countedSaved c = 0 end
  | Unsettled => owns F
  | Overwritten => True
  end.

(** The sidecar is shorter than what the cursor saved to it. *)
Definition short (c : Cursor) (f : content bytes) : Prop := 0 < cu_countedSaved c /\ zlen (old_bytes f) < 8 * cu_countedSaved c.

(** [l]: the ids the sidecar still has of those the cursor saved; all of them, unless some were [lost]. *)
Record tracks (s : standing) (lost : bool) (c : Cursor) (F : cursorFiles) : Prop := mkTracks {
  tr_good : good_claude (tc_claude (cu_carry c));
  tr_range : Forall is_hash (cl_Unsaved (tc_claude (cu_carry c)));
  tr_readable : cf_counted F <> Unreadable;
  tr_claim : stands s c F;
  tr_owned : exists l, padded (cu_countedSaved c) l (old_bytes (cf_counted F)) /\ Forall is_hash l
    /\ (forall k, k <> 0 -> k ∈ l \/ k ∈ cl_Unsaved (tc_claude (cu_carry c)) -> k ∈ cl_Counted (tc_claude (cu_carry c)))
    /\ ((forall k, k <> 0 -> k ∈ cl_Counted (tc_claude (cu_carry c)) -> k ∈ l \/ k ∈ cl_Unsaved (tc_claude (cu_carry c))) \/ lost = true /\ short c (cf_counted F));
}.

Lemma padded_loaded n l f : Forall is_hash l -> f <> Unreadable -> padded n l (old_bytes f) ->
  loaded_ids n f = counted_set l /\ (0 < n -> is_Some (readCounted f n)).
Proof.
  intros Hr Hf Hp. pose proof (padded_length _ _ _ Hp) as [H0 Hl]. unfold loaded_ids.
  assert (He : forall m, counted_set (l ++ replicate m 0) = counted_set l).
  { intros m. apply sorted_ext; [apply counted_set_sorted..|]. intros k. rewrite !counted_set_elem, elem_of_app. split; [|tauto]. intros [Hk [?|Hz]]; [done|]. apply elem_of_replicate in Hz as [-> _]. done. }
  destruct (Z.ltb_spec 0 n) as [Hn|Hn].
  - destruct f as [| |b]; [|done|].
    + cbn in *. assert (l = []) as ->; [|by split]. destruct Hp as (z&more&Hb&_). symmetry in Hb. apply app_nil in Hb as [Hb _].
      destruct l; [done|]. pose proof (length_hash_bytes (z0 :: l)) as E. rewrite Hb in E. cbn in E. lia.
    + cbn [old_bytes] in Hp. destruct (padded_read n l b Hr Hp) as [m ->]. cbn. split; [apply He|by eexists].
  - assert (l = []) as -> by (destruct l; [done|unfold zlen in Hl; cbn in Hl; lia]). split; [done|lia].
Qed.

Lemma tracks_loaded s lost c F l : tracks s lost c F -> padded (cu_countedSaved c) l (old_bytes (cf_counted F)) -> Forall is_hash l ->
  loaded_ids (cu_countedSaved c) (cf_counted F) = counted_set l.
Proof. intros Ht Hp Hr. by apply (padded_loaded _ l _ Hr (tr_readable _ _ _ _ Ht) Hp). Qed.

Lemma hash_bytes_padded n l more : zlen l = n -> padded n l (hash_bytes l ++ more).
Proof. intros <-. exists 0%nat, more. split; [done|]. lia. Qed.

Lemma good_fewer open counted counted' unsaved unsaved' : good_claude (mkClaude open counted unsaved) -> (forall k, k ∈ counted' -> k ∈ counted) -> sorted_ids counted' ->
  good_claude (mkClaude open counted' unsaved').
Proof.
  intros [Hs Hk Hf Ho Hl Hi Hh Hoh] Hsub Hs'. cbn in *. split; cbn; try done.
  - eapply Forall_impl; [exact Hf|]. cbn. intros m Hm Hin. by apply Hm, Hsub.
  - rewrite Forall_forall in *. intros k Hin. by apply Hh, Hsub.
Qed.

(** The responses the cursor keeps open, with what a load finds of the ids it counted. *)
Lemma good_saved_open c k : good_claude (tc_claude (cu_carry c)) -> (forall x, x <> 0 -> x ∈ k -> x ∈ cl_Counted (tc_claude (cu_carry c))) ->
  good_claude (mkClaude (cl_Open (tc_claude (cu_carry c))) (counted_set k) []).
Proof.
  intros Hg Hk. destruct (tc_claude (cu_carry c)) as [open counted unsaved]. cbn [cl_Open cl_Counted] in *. eapply good_fewer; [exact Hg| |apply counted_set_sorted].
  intros x [H0 Hx]%counted_set_elem. by apply Hk.
Qed.

(** *** Sidecars that still hold what they held *)

(** Whoever owned a share of the old sidecar still finds it in the new one. *)
Definition keeps (n : Z) (f f' : content bytes) : Prop := forall l, padded n l (old_bytes f) -> padded n l (old_bytes f').

Lemma keeps_tracks s c F f : tracks s false c F -> f <> Unreadable -> keeps (cu_countedSaved c) (cf_counted F) f ->
  forall s' state, stands s' c (mkFiles state f) -> tracks s' false c (mkFiles state f).
Proof.
  intros [Hg Hru _ _ (l&Hp&Hr&Hsub&Hall)] Hf Hk s' state Hs. split; [done|done|done|done|]. exists l. split; [by apply Hk|]. split; [done|]. split; [done|].
  destruct Hall as [Hall|[? _]]; [by left|done].
Qed.

Lemma keeps_settled c F f : stands Settled c F -> keeps (cu_countedSaved c) (cf_counted F) f -> stands Settled c (mkFiles (cf_state F) f).
Proof.
  intros [Ho Hc] Hk. unfold stands, owns in *. cbn [cf_state cf_counted]. destruct (cf_state F) as [| |p]; [done|done|]. split; [|done]. rewrite Hc in *.
  destruct Ho as (l&Hp&Hr). exists l. split; [by apply Hk|done].
Qed.

Lemma keeps_loaded s lost c F f : tracks s lost c F -> f <> Unreadable -> keeps (cu_countedSaved c) (cf_counted F) f ->
  loaded_ids (cu_countedSaved c) f = loaded_ids (cu_countedSaved c) (cf_counted F).
Proof.
  intros Ht Hf Hk. destruct (tr_owned _ _ _ _ Ht) as (l&Hp&Hr&_). rewrite (tracks_loaded _ _ c F l Ht Hp Hr). by apply (padded_loaded _ l f Hr Hf), Hk.
Qed.

Lemma keeps_torn n f b : torn n (old_bytes f) b -> keeps n f (Holds b).
Proof. intros Hb l Hp. by eapply padded_torn. Qed.

Lemma keeps_written n f hashes : keeps n f (Holds (writeCounted f n hashes)).
Proof.
  intros l Hp. destruct (padded_write n l f hashes Hp) as (m&Hw&Hm). cbn [old_bytes]. rewrite Hw, !hash_bytes_app, hash_bytes_zeros.
  exists (8 * m)%nat, (hash_bytes hashes). split; [done|]. lia.
Qed.

Lemma saveCounted_sidecar c f n sidecar : saveCounted c f = Some (n, sidecar) ->
  sidecar = f /\ n = cu_countedSaved c /\ cl_Unsaved (tc_claude (cu_carry c)) = []
  \/ sidecar = Holds (writeCounted f (cu_countedSaved c) (counted_to_write c f)) /\ n = cu_countedSaved c + zlen (counted_to_write c f) /\ f <> Unreadable
    /\ cl_Unsaved (tc_claude (cu_carry c)) <> [].
Proof. unfold saveCounted. destruct (cl_Unsaved _) as [|u us]; [|destruct f]; intros [= <- <-]; [by left|by right..]. Qed.

(** What a save that did not replace the state leaves of the sidecar. *)
Lemma save_leaves_keeps c F F' : cf_counted F <> Unreadable -> save_leaves c F F' -> keeps (cu_countedSaved c) (cf_counted F) (cf_counted F') /\ cf_counted F' <> Unreadable.
Proof.
  assert (Hs : forall n sidecar, cf_counted F <> Unreadable -> saveCounted c (cf_counted F) = Some (n, sidecar) ->
    keeps (cu_countedSaved c) (cf_counted F) sidecar /\ sidecar <> Unreadable).
  { intros n sidecar Hf [(->&_)|(->&_)]%saveCounted_sidecar; (split; [|done]); [by intros l|apply keeps_written]. }
  intros Hf [|b _ _ Hb|n sidecar E|c' F'' E]; [split; [by intros l|done]|split; [by apply keeps_torn|done]|by eapply Hs|].
  unfold Save in E. destruct (saveCounted c (cf_counted F)) as [[n sidecar]|] eqn:En; [|done]. injection E as _ <-. by eapply Hs.
Qed.

Lemma leaves_state c F F' : save_leaves c F F' -> cf_state F' = cf_state F \/ exists c', Save c F = Some (c', F').
Proof. intros [|b _ _ Hb|n sidecar E|c' F'' E]; [by left|by left|by left|right; by exists c']. Qed.

(** Written after the claim: enough, with what the sidecar still has, to make up all the cursor counted. *)
Lemma counted_to_write_all s lost c F l : tracks s lost c F -> cl_Unsaved (tc_claude (cu_carry c)) <> [] ->
  padded (cu_countedSaved c) l (old_bytes (cf_counted F)) -> (forall k, k <> 0 -> k ∈ l \/ k ∈ cl_Unsaved (tc_claude (cu_carry c)) -> k ∈ cl_Counted (tc_claude (cu_carry c))) ->
  ((forall k, k <> 0 -> k ∈ cl_Counted (tc_claude (cu_carry c)) -> k ∈ l \/ k ∈ cl_Unsaved (tc_claude (cu_carry c))) \/ short c (cf_counted F)) ->
  Forall is_hash (counted_to_write c (cf_counted F))
  /\ forall k, k <> 0 -> k ∈ cl_Counted (tc_claude (cu_carry c)) <-> k ∈ l \/ k ∈ counted_to_write c (cf_counted F).
Proof.
  intros Ht Hu Hp Hsub Hall. pose proof (tr_range _ _ _ _ Ht) as Hru. pose proof (gc_hashes _ (tr_good _ _ _ _ Ht)) as Hrc.
  assert (Hun : (forall k, k <> 0 -> k ∈ cl_Counted (tc_claude (cu_carry c)) -> k ∈ l \/ k ∈ cl_Unsaved (tc_claude (cu_carry c))) ->
    forall k, k <> 0 -> k ∈ cl_Counted (tc_claude (cu_carry c)) <-> k ∈ l \/ k ∈ cl_Unsaved (tc_claude (cu_carry c)))
    by (intros Hc k Hk; split; [by apply Hc|by apply Hsub]).
  assert (Hcl : forall k, k <> 0 -> k ∈ cl_Counted (tc_claude (cu_carry c)) <-> k ∈ l \/ k ∈ cl_Counted (tc_claude (cu_carry c)))
    by (intros k Hk; split; [by right|intros [?|?]; [by apply Hsub; [|left]|done]]).
  unfold counted_to_write, short in *. destruct (Z.ltb_spec 0 (cu_countedSaved c)) as [Hpos|Hneg].
  - destruct (cf_counted F) as [| |b] eqn:Ef; [by split|by split|]. cbn [old_bytes] in *. destruct (Z.ltb_spec (zlen b) (8 * cu_countedSaved c)); [by split|].
    split; [done|]. apply Hun. destruct Hall as [|[? ?]]; [done|lia].
  - split; [done|]. apply Hun. destruct Hall as [|[? ?]]; [done|lia].
Qed.

(** A sidecar saved in full: the new claim finds exactly the ids the cursor counted, unless some were lost and there was nothing to write. *)
Lemma saveCounted_tracks s lost c F n sidecar : tracks s lost c F -> saveCounted c (cf_counted F) = Some (n, sidecar) ->
  exists l, padded n l (old_bytes sidecar) /\ Forall is_hash l /\ sidecar <> Unreadable
    /\ (forall k, k <> 0 -> k ∈ l -> k ∈ cl_Counted (tc_claude (cu_carry c)))
    /\ ((forall k, k <> 0 -> k ∈ cl_Counted (tc_claude (cu_carry c)) -> k ∈ l)
        \/ lost = true /\ cl_Unsaved (tc_claude (cu_carry c)) = [] /\ short (saved n c) sidecar).
Proof.
  intros Ht E. destruct (tr_owned _ _ _ _ Ht) as (l&Hp&Hr&Hsub&Hall). destruct (decide (cl_Unsaved (tc_claude (cu_carry c)) = [])) as [Hu|Hu].
  - destruct (saveCounted_sidecar _ _ _ _ E) as [(->&->&_)|(_&_&_&?)]; [|done]. exists l. split; [done|]. split; [done|]. split; [apply Ht|].
    split; [intros k Hk ?; apply Hsub; auto|]. destruct Hall as [Hall|[-> Hs]]; [left|by right].
    intros k Hk Hin. destruct (Hall k Hk Hin) as [|Hin']; [done|]. rewrite Hu in Hin'. by apply elem_of_nil in Hin'.
  - destruct (saveCounted_sidecar _ _ _ _ E) as [(_&_&?)|(->&->&Hf&_)]; [done|].
    destruct (counted_to_write_all s lost c F l Ht Hu Hp Hsub) as [Hh He]; [tauto|]. set (hashes := counted_to_write c (cf_counted F)) in *.
    destruct (padded_write _ _ (cf_counted F) hashes Hp) as (m&Hw&Hm). exists (l ++ replicate m 0 ++ hashes). cbn [old_bytes]. rewrite Hw.
    split; [rewrite <-(app_nil_r (hash_bytes _)); apply hash_bytes_padded; rewrite !zlen_app; unfold zlen at 2; rewrite length_replicate; lia|].
    split; [apply Forall_app; split; [done|]; apply Forall_app; split; [apply Forall_replicate; unfold is_hash; lia|done]|]. split; [done|].
    split; [|left]; intros k Hk; rewrite !elem_of_app, elem_of_replicate, (He k Hk); tauto.
Qed.

(** Whether a save leaves ids lost: when it had none to write. *)
Definition still_lost (lost : bool) (c : Cursor) : bool := lost && bool_decide (cl_Unsaved (tc_claude (cu_carry c)) = []).

Lemma Save_tracks s lost c F c' F' : tracks s lost c F -> Save c F = Some (c', F') -> tracks Settled (still_lost lost c) c' F'.
Proof.
  intros Ht Hs. unfold Save in Hs. destruct (saveCounted c (cf_counted F)) as [[n sidecar]|] eqn:E; [|done]. injection Hs as <- <-.
  destruct (saveCounted_tracks s lost c F n sidecar Ht E) as (l&Hp&Hr&Hf&Hsub&Hall). pose proof (tr_good _ _ _ _ Ht) as Hg.
  assert (Hopen : open_of (persisted c n) = cl_Open (tc_claude (cu_carry c))) by (unfold open_of, persisted; cbn; by destruct (cl_Open _)).
  split; [by destruct Hg|constructor|done| |].
  - split; [|done]. exists l. cbn [cf_counted pc_ClaudeCounted persisted]. rewrite Hopen. split; [done|]. split; [done|]. by apply good_saved_open.
  - exists l. split; [done|]. split; [done|]. cbn. split; [intros k Hk [?|?%elem_of_nil]; [auto|done]|].
    destruct Hall as [Hall|(->&Hu&Hs)]; [left; intros k Hk Hin; left; by apply Hall|right]. unfold still_lost. by rewrite bool_decide_eq_true_2.
Qed.

(** What the state file then owns: exactly the ids counted. *)
Lemma Save_owns s lost c F c' F' : tracks s lost c F -> still_lost lost c = false -> Save c F = Some (c', F') ->
  exists n, cf_state F' = Holds (persisted c n) /\ 0 <= n /\ loaded_ids n (cf_counted F') = nonzero (cl_Counted (tc_claude (cu_carry c)))
    /\ (0 < n -> is_Some (readCounted (cf_counted F') n)) /\ c' = saved n c.
Proof.
  intros Ht Hl Hs. unfold Save in Hs. destruct (saveCounted c (cf_counted F)) as [[n sidecar]|] eqn:E; [|done]. injection Hs as <- <-.
  destruct (saveCounted_tracks s lost c F n sidecar Ht E) as (l&Hp&Hr&Hf&Hsub&Hall). exists n. split; [done|]. cbn [cf_counted].
  destruct (padded_loaded n l sidecar Hr Hf Hp) as [-> Hsome]. split; [by eapply padded_length|]. split; [|done].
  destruct Hall as [Hall|(->&Hu&_)]; [|unfold still_lost in Hl; by rewrite bool_decide_eq_true_2 in Hl].
  apply counted_set_nonzero; [apply (gc_sorted _ (tr_good _ _ _ _ Ht))|]. intros k Hk. split; [by apply Hsub|by apply Hall].
Qed.

(** *** Sidecars that lost hashes *)

(** The sidecar cut to [m] hashes. *)
Definition cut_sidecar (m : nat) (f : content bytes) : content bytes := match f with Holds b => Holds (take (8 * m) b) | _ => f end.

(** What is left of a share of it: all of it, or a part of a sidecar that is too short. *)
Lemma padded_cut n l m f : padded n l (old_bytes f) ->
  exists l', padded n l' (old_bytes (cut_sidecar m f)) /\ l' `sublist_of` l /\ (l' = l \/ 0 < n /\ zlen (old_bytes (cut_sidecar m f)) < 8 * n).
Proof.
  intros Hp. destruct f as [| |b]; [by exists l; eauto|by exists l; eauto|]. cbn [cut_sidecar old_bytes] in *. destruct (Nat.le_gt_cases (length b) (8 * m)) as [Hb|Hb].
  { rewrite take_ge by done. exists l; eauto. }
  destruct Hp as (z&more&->&Hz&Hm). assert (Hlen : length (take (8 * m) (hash_bytes l ++ replicate z x00 ++ more)) = (8 * m)%nat) by (rewrite length_take; lia).
  destruct (Nat.le_gt_cases (length l) m) as [Hl|Hl].
  - exists l. split; [|by split; [|left]]. rewrite take_app, length_hash_bytes, (take_ge (hash_bytes l)) by (rewrite length_hash_bytes; lia).
    rewrite take_app, length_replicate, take_replicate. exists (Nat.min (8 * m - 8 * length l) z), (take (8 * m - 8 * length l - z) more). split; [done|]. split; [lia|].
    intros Hne. assert (more <> []) as Hmore by (intros ->; by rewrite take_nil in Hne). specialize (Hm Hmore).
    destruct (Nat.le_gt_cases (8 * m - 8 * length l) z) as [?|?]; [|lia]. replace (8 * m - 8 * length l - z)%nat with 0%nat in Hne by lia. by rewrite take_0 in Hne.
  - exists (take m l). split; [|split; [apply sublist_take|right]].
    + exists 0%nat, []. assert (Et : take (8 * m) (hash_bytes l ++ replicate z x00 ++ more) = hash_bytes (take m l)).
      { rewrite <-(take_drop m l) at 1. rewrite hash_bytes_app, <-app_assoc. apply take_app_length'. rewrite length_hash_bytes, length_take. lia. }
      rewrite Et, app_nil_r. split; [done|]. unfold zlen in *. rewrite length_take. split; [lia|done].
    + unfold zlen in *. rewrite Hlen. lia.
Qed.

Lemma owns_cut F m f : owns F -> f = Absent \/ f = cut_sidecar m (cf_counted F) -> owns (mkFiles (cf_state F) f).
Proof.
  intros Ho Hf. unfold owns in *. cbn [cf_state cf_counted]. destruct (cf_state F) as [| |p]; [done|done|]. destruct Ho as (l&Hp&Hr&Hg).
  assert (Hl : exists l', padded (pc_ClaudeCounted p) l' (old_bytes f) /\ l' `sublist_of` l).
  { destruct Hf as [->| ->]; [|by destruct (padded_cut _ _ m _ Hp) as (l'&?&?&_); exists l'].
    exists []. split; [|apply sublist_nil_l]. exists 0%nat, []. split; [done|]. change (zlen []) with 0. pose proof (padded_length _ _ _ Hp). split; [lia|done]. }
  destruct Hl as (l'&Hp'&Hsub). exists l'. split; [done|]. split; [by eapply Forall_in_sublist|]. eapply good_fewer; [exact Hg| |apply counted_set_sorted].
  intros k. rewrite !counted_set_elem. intros [H0 Hk]. split; [done|]. by eapply elem_of_sublist.
Qed.

Lemma cut_tracks s lost c F m f : tracks s lost c F -> f = Absent \/ f = cut_sidecar m (cf_counted F) -> tracks s true c (mkFiles (cf_state F) f).
Proof.
  intros [Hg Hru Hread Hclaim (l&Hp&Hr&Hsub&Hall)] Hf. split; [done|done| | |].
  - cbn. destruct Hf as [->| ->]; [done|]. by destruct (cf_counted F).
  - destruct s; cbn [stands cf_state] in *; [destruct Hclaim as [Ho Hc]; split; [by eapply owns_cut|done]|by eapply owns_cut|done].
  - cbn [cf_counted] in *.
    assert (Hl : exists l', padded (cu_countedSaved c) l' (old_bytes f) /\ l' `sublist_of` l /\ (l' = l \/ short c f)).
    { destruct Hf as [->| ->]; [|by apply padded_cut]. pose proof (padded_length _ _ _ Hp) as [H0 Hlen]. exists []. split; [|split; [apply sublist_nil_l|]].
      - exists 0%nat, []. split; [done|]. change (zlen []) with 0. split; [lia|done].
      - destruct l as [|x l]; [by left|right]. unfold short, zlen in *. cbn [old_bytes length] in *. lia. }
    destruct Hl as (l'&Hp'&Hsubl&Hl). exists l'. split; [done|]. split; [by eapply Forall_in_sublist|].
    split; [intros k Hk [Hin|Hin]; apply Hsub; [done|left; by eapply elem_of_sublist|done|by right]|]. destruct Hl as [->|Hs]; [|right; split; [done|exact Hs]].
    destruct Hall as [Hall|[_ Hs]]; [by left|]. right. split; [done|].
    unfold short in *. split; [lia|]. destruct Hf as [->| ->]; [unfold zlen; cbn; lia|]. destruct (cf_counted F) as [| |b]; [apply Hs|apply Hs|]. cbn [cut_sidecar old_bytes] in *.
    unfold zlen in *. rewrite length_take. lia.
Qed.

(** ** A cursor's life *)

Lemma tracks_more s lost c d F out : tracks s lost c F -> good_claude (tc_claude (cu_carry d)) -> counts (tc_claude (cu_carry c)) out (tc_claude (cu_carry d)) ->
  cu_countedSaved d = cu_countedSaved c -> tracks s lost d F.
Proof.
  intros [Hg Hru Hread Hclaim (l&Hp&Hr&Hsub&Hall)] Hgd (new&HU&_&_&HC&_) Hs. split; [done| |done|destruct s; unfold stands in *; rewrite ?Hs; done|].
  - rewrite HU. apply Forall_app. split; [done|]. apply Forall_forall. intros k Hk. pose proof (gc_hashes _ Hgd) as Hh. rewrite Forall_forall in Hh. apply Hh, HC. by right.
  - exists l. rewrite Hs. split; [done|]. split; [done|]. split.
    + intros k Hk. rewrite HC, HU, elem_of_app. specialize (Hsub k Hk). intros [?|[?|?]]; auto.
    + destruct Hall as [Hall|[? Hsh]]; [left|right; split; [done|unfold short in *; by rewrite Hs]]. intros k Hk. rewrite HC, HU, elem_of_app. intros [?|?]; [|by right; right]. destruct (Hall k Hk ltac:(done)); auto.
Qed.

Lemma tracks_same s lost c d F : tracks s lost c F -> tc_claude (cu_carry d) = tc_claude (cu_carry c) -> cu_countedSaved d = cu_countedSaved c -> tracks s lost d F.
Proof.
  intros Ht Ec. apply (tracks_more s lost c d F []); [exact Ht|rewrite Ec; apply Ht|]. rewrite Ec. by apply counts_none.
Qed.

Lemma padded_nothing b : padded 0 [] b.
Proof. by exists 0%nat, b. Qed.

(** A cursor that saved none of the ids it counted. *)
Lemma tracks_unsaved s lost c F : good_claude (tc_claude (cu_carry c)) -> cl_Unsaved (tc_claude (cu_carry c)) = cl_Counted (tc_claude (cu_carry c)) -> cu_countedSaved c = 0 ->
  cf_counted F <> Unreadable -> stands s c F -> tracks s lost c F.
Proof.
  intros Hg Hu Hn Hf Hs. split; [done|rewrite Hu; apply Hg|done|done|]. exists []. rewrite Hn, Hu. split; [apply padded_nothing|]. split; [constructor|].
  split; [by intros k _ [?%elem_of_nil|]|left; by right].
Qed.

(** How the state on disk stands to a cursor loaded from it: one that took up the state has its claim. *)
Definition loaded_standing (scope : bytes) (dev ino size modNanos : Z) (F : cursorFiles) : standing :=
  match cf_state F with
  | Holds p => if same_file p scope dev ino && corroborated p size modNanos then Settled else Unsettled
  | _ => Settled
  end.

Lemma tracks_load F scope dev ino size modNanos max d : owns F -> cf_counted F <> Unreadable -> loadCursor scope dev ino size modNanos max F = Some d ->
  tracks (loaded_standing scope dev ino size modNanos F) false d F.
Proof.
  intros Ho Hf. unfold loadCursor, loaded_standing. destruct (cf_state F) as [| |p] eqn:Es; [|done|].
  { intros [= <-]. apply tracks_unsaved; [apply good_no_claude|done|done|done|]. by split; [|rewrite Es]. }
  destruct (same_file p scope dev ino); cbn [negb andb].
  2:{ intros [= <-]. apply tracks_unsaved; [apply good_no_claude|done|done|done|done]. }
  destruct (corroborated p size modNanos); cbn [negb].
  2:{ intros [= <-]. apply tracks_unsaved; [apply good_no_claude|done|done|done|done]. }
  pose proof Ho as Ho'. unfold owns in Ho'. rewrite Es in Ho'. destruct Ho' as (l&Hp&Hr&Hg). destruct (padded_loaded _ l _ Hr Hf Hp) as [El Hsome]. unfold loaded_ids in El.
  destruct (Z.ltb_spec 0 (pc_ClaudeCounted p)) as [Hpos|Hneg].
  - destruct (Hsome Hpos) as [hashes Eh]. rewrite Eh in *. cbn in El. intros [= <-]. rewrite El. split; cbn; [done|constructor|done|by split; [|rewrite Es]|].
    exists l. split; [done|]. split; [done|]. split; [intros k Hk [?|?%elem_of_nil]; [by apply counted_set_elem|done]|]. left. intros k Hk [_ ?]%counted_set_elem. by left.
  - intros [= <-]. pose proof (padded_length _ _ _ Hp) as [H0 Hl]. assert (pc_ClaudeCounted p = 0) as E0 by lia.
    assert (l = []) as -> by (destruct l; [done|unfold zlen in Hl; cbn in Hl; lia]). apply tracks_unsaved; [exact Hg|done|done|done|]. by split; [|rewrite Es].
Qed.

Lemma idset_add_hashes c id : sorted_ids c -> Forall is_hash c -> sorted_ids (idset_add c (idHash id)).1 /\ Forall is_hash (idset_add c (idHash id)).1.
Proof.
  intros Hs Hr. destruct (idset_add c (idHash id)) as [c' new] eqn:E. destruct (idset_add_spec _ _ _ _ Hs E) as (Hs'&He&_). split; [done|].
  apply Forall_forall. intros k [->|Hk]%He; [apply idHash_range|]. rewrite Forall_forall in Hr. by apply Hr.
Qed.

Definition fold_hashes (f : upgradeFold) : Prop := sorted_ids (uf_counted f) /\ Forall is_hash (uf_counted f).

Lemma foldUpgradeLine_hashes line f b : fold_hashes f -> fold_hashes (foldUpgradeLine line f b).
Proof.
  intros Hf. unfold foldUpgradeLine. case_bool_decide; [done|]. destruct (negb b && _ && _ && _); [done|]. destruct (probe_of <$> Unmarshal line ProbeType) as [probe|]; [|done].
  assert (Hc : fold_hashes (fold_claude probe f)).
  { unfold fold_claude, fold_hashes. cbn [uf_counted]. case_bool_decide; [|done]. destruct (unmarshal _ _ _) as [id|]; [|done]. case_bool_decide; [done|]. by apply idset_add_hashes; apply Hf. }
  set (g := if negb (bool_decide (fp_SessionIDCamel probe = [])) && bool_decide (fp_Payload probe = None) then fold_claude probe f else f). assert (Hg : fold_hashes g) by (subst g; by destruct (_ && _)).
  repeat case_bool_decide; try done; try (by destruct b). unfold fold_meta. destruct (unmarshal _ _ _) as [[id version]|]; [|done]. by destruct (_ || _).
Qed.

Lemma fold_lines_hashes fuel maxLine b readable : forall data lines f g, fold_hashes f -> fold_lines fuel maxLine b readable data lines f = Some g -> fold_hashes g.
Proof.
  induction fuel as [|fuel IH]; intros data lines f g Hf; cbn [fold_lines]; [by destruct readable; [intros [= <-]|]|]. destruct (cut x0a data) as [line [rest|]]; [|by destruct readable; [intros [= <-]|]].
  cbv zeta. set (f' := if maxLine <? zlen line + 1 then f else foldUpgradeLine (TrimSpace line) f b). assert (Hf' : fold_hashes f') by (subst f'; destruct (_ <? _); [done|by apply foldUpgradeLine_hashes]).
  destruct (negb b && _); [by intros [= <-]|by apply IH].
Qed.

Lemma DeriveCarry_claude consumed readable c d : DeriveCarry consumed readable c = Some d ->
  tc_claude (cu_carry d) = tc_claude (cu_carry c) /\ cu_countedSaved d = cu_countedSaved c
  \/ good_claude (tc_claude (cu_carry d)) /\ cl_Unsaved (tc_claude (cu_carry d)) = cl_Counted (tc_claude (cu_carry d)) /\ cu_countedSaved d = 0.
Proof.
  unfold DeriveCarry. destruct (negb (NeedsCarryDerivation c)); [intros [= <-]; by left|]. cbv zeta. set (b := negb (cu_carryKnown c) && negb (cu_skip c)).
  destruct (foldUpgradeCarry consumed readable (cu_maxPartialLine c) b) as [f|] eqn:E; [|done]. intros [= <-]. destruct (cu_sessionKnown c); [left; by destruct b|right].
  destruct (fold_lines_hashes _ _ _ _ _ _ _ _ (conj (SSorted_nil _) (Forall_nil_2 _) : fold_hashes no_fold) E) as [Hs Hr]. split; [|done].
  split; cbn; try done. constructor.
Qed.

(** A state that claims no hashes and keeps no response open, as a release before the sidecar wrote it. *)
Definition unclaimed (F : cursorFiles) : Prop :=
  match cf_state F with Absent => True | Unreadable => False | Holds p => pc_ClaudeCounted p = 0 /\ pc_Claude p = None end.

(** The standing of a cursor that may have moved its claim. *)
Definition moved (s : standing) (c d : Cursor) : standing :=
  if cu_countedSaved d =? cu_countedSaved c then s else match s with Settled => Unsettled | _ => s end.

(** What a process that ends leaves of the files. *)
Definition left_by (s : standing) (c : Cursor) (F F' : cursorFiles) : Prop :=
  match s with Settled => save_leaves c F F' | Unsettled => F' = F | Overwritten => False end.

(** The life of a state file's cursors: from its first load on, reads, flushes, resets, seals, upgrades, saves, saves that fail before or after they
    replaced the state, sidecars that lose hashes, and processes that end, in a save or not, with a load of what is left for whatever file is then found.
    A save that fails when hashes were lost, and an end after a save cut short of a cursor whose claim is not the state's, are not in it. *)
Inductive life {H : Type} `{HV : Host H} : standing -> bool -> Cursor -> cursorFiles -> Prop :=
| life_first F scope dev ino size modNanos max d : unclaimed F -> cf_counted F <> Unreadable -> loadCursor scope dev ino size modNanos max F = Some d -> life Settled false d F
| life_ingest s lost c F b cfg (h : H) : life s lost c F -> life s lost ((Ingest c b cfg h).1.2 c) F
| life_flush s lost c F (delivered : nat) : life s lost c F -> life s lost ((FlushOpenUsage c).2 (Z.of_nat delivered) c) F
| life_observe s lost c F size modNanos : life s lost c F -> life s lost (observe size modNanos c) F
| life_seed s lost c F window : life s lost c F -> life s lost (SeedAnchor window c) F
| life_known s lost c F : life s lost c F -> life s lost (MarkCarryKnown c) F
| life_reset s lost c F : life s lost c F -> life (moved s c (Reset c)) false (Reset c) F
| life_seal s lost c F eof : life s lost c F -> life (moved s c (SealAt eof c)) false (SealAt eof c) F
| life_derive s lost c F consumed readable d : life s lost c F -> DeriveCarry consumed readable c = Some d -> life (moved s c d) lost d F
| life_saved s lost c F c' F' : life s lost c F -> Save c F = Some (c', F') -> life Settled (still_lost lost c) c' F'
| life_failed s c F F' : life s false c F -> save_leaves c F F' -> cf_state F' = cf_state F -> life (match s with Settled => Settled | _ => Overwritten end) false c F'
| life_unreported s c F c' F' : life s false c F -> Save c F = Some (c', F') -> life Unsettled false c F'
| life_lost s lost c F m f : life s lost c F -> f = Absent \/ f = cut_sidecar m (cf_counted F) -> life s true c (mkFiles (cf_state F) f)
| life_restart s lost c F F' scope dev ino size modNanos max d : life s lost c F -> left_by s c F F' -> loadCursor scope dev ino size modNanos max F' = Some d ->
    life (loaded_standing scope dev ino size modNanos F') false d F'.

Lemma Ingest_saved {H} `{HV : Host H} c b cfg (h : H) d : cu_countedSaved ((Ingest c b cfg h).1.2 d) = cu_countedSaved d.
Proof.
  unfold Ingest, ingestNormal. destruct (cu_skip c).
  - destruct (cut x0a b) as [line [rest|]]; [|done]. destruct (parseWithCarry _ _ _ _). by destruct (_ <? _).
  - destruct (parseWithCarry _ _ _ _). by destruct (_ <? _).
Qed.

Lemma Flush_saved c k d : cu_countedSaved ((FlushOpenUsage c).2 k d) = cu_countedSaved d.
Proof. unfold FlushOpenUsage. destruct (flush_open _ _ _) as [cands states]. cbn [snd]. by destruct (flushed _ _). Qed.

Lemma stands_moved s c d F : stands s c F -> stands (moved s c d) d F.
Proof. intros Hs. unfold moved. destruct (Z.eqb_spec (cu_countedSaved d) (cu_countedSaved c)) as [E|_]; destruct s; unfold stands in *; rewrite ?E; tauto. Qed.

Lemma tracks_restart_at s lost c F consumed sealed : tracks s lost c F -> tracks (moved s c (restart_at consumed sealed c)) false (restart_at consumed sealed c) F.
Proof. intros Ht. apply tracks_unsaved; [apply good_no_claude|done|done|apply Ht|apply stands_moved, Ht]. Qed.

Lemma stands_owns s c F : stands s c F -> s <> Overwritten -> owns F.
Proof. destruct s; [by intros [? _]|done|done]. Qed.

Lemma tracks_failed s c F F' : tracks s false c F -> save_leaves c F F' -> cf_state F' = cf_state F ->
  tracks (match s with Settled => Settled | _ => Overwritten end) false c F'.
Proof.
  intros Ht Hl He. destruct (save_leaves_keeps c F F' (tr_readable _ _ _ _ Ht) Hl) as [Hk Hf]. destruct F' as [state f]. cbn in He, Hk, Hf. subst state.
  apply (keeps_tracks s c F); [done|done|done|]. destruct s; [|done|done]. apply keeps_settled; [apply Ht|done].
Qed.

(** The files of a cut-short save own what they owned, or the save was complete. *)
Lemma settled_left c F F' lost : tracks Settled lost c F -> save_leaves c F F' -> owns F' /\ cf_counted F' <> Unreadable.
Proof.
  intros Ht Hl. destruct (save_leaves_keeps c F F' (tr_readable _ _ _ _ Ht) Hl) as [Hk Hf]. split; [|done]. destruct (leaves_state c F F' Hl) as [He|[c' Hs]].
  - destruct F' as [state f]. cbn in He, Hk. subst state. destruct (keeps_settled c F f (tr_claim _ _ _ _ Ht) Hk) as [Ho _]. exact Ho.
  - by destruct (tr_claim _ _ _ _ (Save_tracks _ _ _ _ _ _ Ht Hs)).
Qed.

Lemma life_tracks {H} `{HV : Host H} s lost c F : life s lost c F -> tracks s lost c F.
Proof.
  induction 1 as [F scope dev ino size modNanos max d Hun Hf Hload|s lost c F b cfg h _ IH|s lost c F k _ IH|s lost c F size modNanos _ IH|s lost c F window _ IH|s lost c F _ IH
    |s lost c F _ IH|s lost c F eof _ IH|s lost c F consumed readable d _ IH Hd|s lost c F c' F' _ IH Hs|s c F F' _ IH Hl He|s c F c' F' _ IH Hs|s lost c F m f _ IH Hf
    |s lost c F F' scope dev ino size modNanos max d _ IH Hl Hload].
  - assert (Ho : owns F).
    { unfold unclaimed, owns in *. destruct (cf_state F) as [| |p]; [done|done|]. destruct Hun as [-> Ep]. exists []. unfold open_of. rewrite Ep. split; [apply padded_nothing|].
      split; [constructor|apply good_no_claude]. }
    pose proof (tracks_load F scope dev ino size modNanos max d Ho Hf Hload) as Ht. assert (E : cu_countedSaved d = 0 /\ match cf_state F with Holds p => pc_ClaudeCounted p = 0 | _ => True end).
    { unfold loadCursor, unclaimed in *. destruct (cf_state F) as [| |p]; [by injection Hload as <-|done|]. destruct Hun as [E0 _]. split; [|done]. rewrite E0 in Hload.
      destruct (negb (same_file _ _ _ _)); [by injection Hload as <-|]. destruct (negb (corroborated _ _ _)); [by injection Hload as <-|]. by injection Hload as <-. }
    destruct E as [E0 Ep]. destruct Ht as [Hg Hru Hread _ Hown]. split; [done|done|done| |done]. split; [done|]. destruct (cf_state F); congruence.
  - pose proof (ingest_carry c b cfg h (tr_good _ _ _ _ IH)) as Hi. pose proof (Ingest_saved c b cfg h c) as Hn. destruct (Ingest c b cfg h) as [[cands commit] h'].
    eapply tracks_more; [exact IH|apply Hi|apply Hi|done].
  - destruct (FlushOpenUsage_split c (Z.of_nat k) ltac:(lia)) as (d&r&_&_&_&_&_&Hc). destruct (Hc (tr_good _ _ _ _ IH)) as [H1 H2]. eapply tracks_more; [exact IH|exact H2|exact H1|apply Flush_saved].
  - by eapply tracks_same.
  - unfold SeedAnchor. destruct (_ || _); [done|]. by eapply tracks_same.
  - by eapply tracks_same.
  - by eapply tracks_restart_at.
  - by eapply tracks_restart_at.
  - destruct (DeriveCarry_claude _ _ _ _ Hd) as [[E1 E2]|(Hg&Hu&E0)].
    + unfold moved. rewrite E2, Z.eqb_refl. by eapply tracks_same.
    + apply tracks_unsaved; [done|done|done|apply IH|apply stands_moved, IH].
  - by eapply Save_tracks.
  - by eapply tracks_failed.
  - pose proof (Save_tracks s false c F c' F' IH Hs) as Ht. unfold Save in Hs. destruct (saveCounted c (cf_counted F)) as [[n sidecar]|] eqn:E; [|done]. injection Hs as <- <-.
    destruct (save_leaves_keeps c F (mkFiles (cf_state F) sidecar) (tr_readable _ _ _ _ IH) (leaves_sidecar c F n sidecar E)) as [Hk Hf].
    apply (keeps_tracks s c F sidecar IH Hf Hk). exact (proj1 (tr_claim _ _ _ _ Ht)).
  - by eapply cut_tracks.
  - assert (Ho : owns F' /\ cf_counted F' <> Unreadable).
    { destruct s; cbn [left_by] in Hl; [by eapply settled_left|subst F'; split; [exact (tr_claim _ _ _ _ IH)|apply IH]|done]. }
    destruct Ho. by apply (tracks_load F' scope dev ino size modNanos max).
Qed.

(** ** The properties *)

Lemma same_loads c F F' lost : tracks Settled lost c F -> cf_state F' = cf_state F -> cf_counted F' <> Unreadable -> keeps (cu_countedSaved c) (cf_counted F) (cf_counted F') ->
  forall scope dev ino size modNanos max, loadCursor scope dev ino size modNanos max F' = loadCursor scope dev ino size modNanos max F.
Proof.
  intros Ht Hs Hf Hk scope dev ino size modNanos max. unfold loadCursor. rewrite Hs. destruct (cf_state F) as [| |p] eqn:E; [done|done|].
  destruct (negb (same_file _ _ _ _)); [done|]. destruct (negb (corroborated _ _ _)); [done|]. destruct (tr_claim _ _ _ _ Ht) as [_ Hn]. rewrite E in Hn.
  destruct (tr_owned _ _ _ _ Ht) as (l&Hp&Hr&_). rewrite <-Hn in Hk, Hp.
  destruct (padded_loaded _ l _ Hr (tr_readable _ _ _ _ Ht) Hp) as [E1 H1], (padded_loaded _ l _ Hr Hf (Hk l Hp)) as [E2 H2]. unfold loaded_ids in E1, E2.
  destruct (Z.ltb_spec 0 (pc_ClaudeCounted p)) as [Hpos|]; [|done]. destruct (H1 Hpos) as [x Ex], (H2 Hpos) as [y Ey]. rewrite Ex, Ey in *. cbn in E1, E2. by rewrite E1, E2.
Qed.

(** C32: A save is all or nothing. Take any life of a state file's cursors: reads, flushes, resets, seals, upgrades, saves, saves that fail before or after
    they replaced the state, lost sidecar hashes, restarts, and loads for other files. As long as the state on disk claims the hashes the cursor saved (it does
    after every complete save and every load that takes the state up, until the cursor starts over or a save fails after its rename), whatever a save cut short
    by a crash or an error leaves of the two files, every load of them gives what it gave before the save; or the save was complete, and the new state then
    owns exactly the ids the cursor counted, unless hashes had been lost and no id waited to be written. *)
Theorem save_crash_safe {H} `{HV : Host H} lost c F F' : life Settled lost c F -> save_leaves c F F' ->
  (forall scope dev ino size modNanos max, loadCursor scope dev ino size modNanos max F' = loadCursor scope dev ino size modNanos max F)
  \/ exists c' p, Save c F = Some (c', F') /\ cf_state F' = Holds p
     /\ (lost = false \/ cl_Unsaved (tc_claude (cu_carry c)) <> [] -> loaded_ids (pc_ClaudeCounted p) (cf_counted F') = nonzero (cl_Counted (tc_claude (cu_carry c)))).
Proof.
  intros Hl Hs. pose proof (life_tracks _ _ c F Hl) as Ht. destruct (leaves_state c F F' Hs) as [He|[c' Hc]]; [left|right].
  - destruct (save_leaves_keeps c F F' (tr_readable _ _ _ _ Ht) Hs) as [Hk Hf]. by apply (same_loads c F F' lost).
  - exists c'. assert (Hst : exists n, cf_state F' = Holds (persisted c n)).
    { unfold Save in Hc. destruct (saveCounted c (cf_counted F)) as [[n sidecar]|]; [|done]. injection Hc as _ <-. by exists n. }
    destruct Hst as [n En]. exists (persisted c n). split; [done|]. split; [done|]. intros Hlost.
    destruct (Save_owns Settled lost c F c' F' Ht) as (m&Em&_&Hids&_); [|done|rewrite En in Em; injection Em as ->; exact Hids].
    unfold still_lost. destruct Hlost as [->|Hu]; [done|]. rewrite (bool_decide_eq_false_2 _ Hu). apply andb_false_r.
Qed.

Definition no_files : cursorFiles := mkFiles Absent Absent.
(** After [demo_stream], with one response counted. *)
Definition demo_read : Cursor := (Ingest demo_cursor demo_stream demo_refs tt).1.2 demo_cursor.
Definition demo_life : life Settled false demo_read no_files :=
  life_ingest Settled false demo_cursor no_files demo_stream demo_refs tt (life_first no_files [] 1 2 0 0 0 demo_cursor I ltac:(discriminate) eq_refl).

Lemma save_crash_safe_witness :
  let F' := mkFiles Absent (Holds [x01]) in
  save_leaves demo_read no_files F' /\
  ((forall scope dev ino size modNanos max, loadCursor scope dev ino size modNanos max F' = loadCursor scope dev ino size modNanos max no_files)
   \/ exists c' p, Save demo_read no_files = Some (c', F') /\ cf_state F' = Holds p
     /\ (false = false \/ cl_Unsaved (tc_claude (cu_carry demo_read)) <> [] -> loaded_ids (pc_ClaudeCounted p) (cf_counted F') = nonzero (cl_Counted (tc_claude (cu_carry demo_read))))).
Proof.
  cbv zeta. assert (Hl : save_leaves demo_read no_files (mkFiles Absent (Holds [x01]))).
  { apply (leaves_torn demo_read no_files [x01]); [vm_compute; discriminate|discriminate|]. exists 0%nat, [x01]. split; [vm_compute; reflexivity|]. vm_compute. split; [lia|reflexivity]. }
  exact (conj Hl (save_crash_safe false demo_read no_files (mkFiles Absent (Holds [x01])) demo_life Hl)).
Defined.

(** What a restart keeps of a cursor: all but the partial line, read again, and the bytes of the fingerprint. Zero is the sidecar's filler. *)
Definition restarted (c : Cursor) : Cursor :=
  let carry := cu_carry c in
  mkCursor (cu_scope c) (cu_dev c) (cu_ino c) (cu_size c) (cu_modNanos c) (cu_consumed c) [] (cu_skip c) [] (cu_anchorHash c) (cu_anchorSize c) (cu_sealed c)
    (mkCarry (tc_rollout carry) (tc_session carry) (mkClaude (cl_Open (tc_claude carry)) (nonzero (cl_Counted (tc_claude carry))) []))
    (cu_carryKnown c) (cu_sessionKnown c) (cu_countedSaved c) (cu_maxPartialLine c).

(** A session no record named holds nothing. *)
Definition storable (s : sessionCarry) : Prop := sc_NativeID s = [] -> sc_Sessions s = [] -> s = no_session.

(** C33: A saved cursor comes back. Over the same lives, and whatever the state on disk claimed before: when a save completed and the file did not shrink or
    grow older, the load gives the cursor: its offset, skip and seal state, fingerprint, usage source, session, open responses and exactly the ids it had counted,
    whatever older saves, crashes and losses left in the sidecar, unless hashes had been lost and no id waited to be written. *)
Theorem save_load {H} `{HV : Host H} s lost c F c' F' liveSize liveModNanos : life s lost c F -> Save c F = Some (c', F') ->
  lost = false \/ cl_Unsaved (tc_claude (cu_carry c)) <> [] ->
  cu_consumed c <= liveSize -> cu_size c <= liveSize -> cu_modNanos c <= liveModNanos -> 0 < cu_maxPartialLine c ->
  cu_carryKnown c = true -> cu_sessionKnown c = true -> storable (tc_session (cu_carry c)) ->
  loadCursor (cu_scope c) (cu_dev c) (cu_ino c) liveSize liveModNanos (cu_maxPartialLine c) F' = Some (restarted c').
Proof.
  intros Hl Hs Hlost Hc Hz Hm Hmax Hk Hsk Hst. pose proof (life_tracks s lost c F Hl) as Ht.
  destruct (Save_owns s lost c F c' F' Ht) as (n&En&H0&Hids&Hsome&->); [|done|].
  { unfold still_lost. destruct Hlost as [->|Hu]; [done|]. rewrite (bool_decide_eq_false_2 _ Hu). apply andb_false_r. }
  assert (Esame : same_file (persisted c n) (cu_scope c) (cu_dev c) (cu_ino c) = true) by (unfold same_file; cbn; by rewrite !Z.eqb_refl, bool_decide_eq_true_2).
  assert (Ecor : corroborated (persisted c n) liveSize liveModNanos = true).
  { unfold corroborated. cbn. destruct (Z.ltb_spec liveSize (cu_consumed c)), (Z.ltb_spec liveSize (cu_size c)), (Z.ltb_spec liveModNanos (cu_modNanos c)); done || lia. }
  assert (Esess : default no_session (pc_Session (persisted c n)) = tc_session (cu_carry c)).
  { cbn. destruct (bool_decide (sc_NativeID (tc_session (cu_carry c)) = [])) eqn:E1; [|done]. apply bool_decide_eq_true in E1. cbn [negb orb].
    destruct (sc_Sessions (tc_session (cu_carry c))) eqn:E2; [|done]. cbn. by rewrite (Hst E1 E2). }
  assert (Eopen : default [] (pc_Claude (persisted c n)) = cl_Open (tc_claude (cu_carry c))) by (cbn; by destruct (cl_Open _)).
  assert (Eroll : mkRollout (ro_RecordMode (tc_rollout (cu_carry c))) (ro_LegacyTotal (tc_rollout (cu_carry c))) (ro_Pending (tc_rollout (cu_carry c))) = tc_rollout (cu_carry c))
    by (by destruct (tc_rollout (cu_carry c))).
  assert (Emax : (if cu_maxPartialLine c <=? 0 then DefaultMaxPartialLine else cu_maxPartialLine c) = cu_maxPartialLine c) by (destruct (Z.leb_spec (cu_maxPartialLine c) 0); [lia|done]).
  unfold loadCursor. rewrite En, Esame, Ecor, Esess, Eopen. cbn [negb]. unfold restarted.
  unfold loaded_ids in Hids. destruct (Z.ltb_spec 0 n) as [Hn|Hn].
  - destruct (Hsome Hn) as [hashes Eh]. rewrite Eh in Hids. cbn -[nonzero] in Hids. cbn -[nonzero]. rewrite (proj2 (Z.ltb_lt 0 n) Hn), Eh, Hids, Hk, Hsk, Eroll, Emax. done.
  - assert (n = 0) as -> by lia. cbn -[nonzero]. rewrite <-Hids, Hk, Hsk, Eroll, Emax. done.
Qed.

Lemma save_load_witness :
  match Save demo_read no_files with
  | Some (c', F') => loadCursor [] 1 2 900 5 DefaultMaxPartialLine F' = Some (restarted c') /\ cl_Counted (tc_claude (cu_carry c')) = [idHash (str "m1")]
      /\ zlen (cl_Open (tc_claude (cu_carry c'))) = 1
  | None => False
  end.
Proof.
  assert (Hc : match Save demo_read no_files with
    | Some (c', F') => cl_Counted (tc_claude (cu_carry c')) = [idHash (str "m1")] /\ zlen (cl_Open (tc_claude (cu_carry c'))) = 1 | None => False end)
    by (vm_compute; split; reflexivity).
  assert (Hp : cu_consumed demo_read = 756 /\ cu_size demo_read = 0 /\ cu_modNanos demo_read = 0 /\ cu_maxPartialLine demo_read = DefaultMaxPartialLine
    /\ cu_carryKnown demo_read = true /\ cu_sessionKnown demo_read = true /\ bool_decide (sc_NativeID (tc_session (cu_carry demo_read)) = []) = false) by (vm_compute; split_and!; reflexivity).
  destruct Hp as (P1&P2&P3&P4&P5&P6&P7).
  destruct (Save demo_read no_files) as [[c' F']|] eqn:E; [|exact Hc].
  refine (conj _ Hc).
  assert (Hst : storable (tc_session (cu_carry demo_read))) by (intros E1; apply bool_decide_eq_false in P7; destruct (P7 E1)).
  pose proof (save_load Settled false demo_read no_files c' F' 900 5 demo_life E (or_introl eq_refl) ltac:(lia) ltac:(lia) ltac:(lia) ltac:(rewrite P4; reflexivity) P5 P6 Hst) as Hload.
  rewrite P4 in Hload. exact Hload.
Defined.

(** A reset forgets how many hashes the state on disk claims: the next save writes its own over them, and, cut short before its state file, leaves
    the old state owning ids it never counted, and not the one it did. *)
Example reset_overwrites_claim :
  match Save demo_read no_files with
  | Some (c, F) =>
      let r := (Ingest (Reset c) (demo_record "u9" "m9" "'end_turn'") demo_refs tt).1.2 (Reset c) in
      match saveCounted r (cf_counted F) with
      | Some (_, sidecar) => loaded_ids 1 (cf_counted F) = [idHash (str "m1")] /\ loaded_ids 1 sidecar = [idHash (str "m9")]
      | None => False
      end
  | None => False
  end.
Proof. vm_compute. split; reflexivity. Qed.

(** A save that replaced the state and then failed (its directory fsync) leaves the cursor with its older claim: the next save, cut short after its
    truncation, takes from the state on disk the ids it owns. *)
Example unreported_save_overwritten :
  match Save demo_read no_files with
  | Some (_, F) => torn (cu_countedSaved demo_read) (old_bytes (cf_counted F)) []
      /\ loaded_ids 1 (cf_counted F) = [idHash (str "m1")] /\ loaded_ids 1 (Holds []) = []
  | None => False
  end.
Proof. vm_compute. split; [|by split]. exists 0%nat, []. split; [done|]. split; [lia|done]. Qed.

(** A failed save can hide that hashes were lost: it fills the sidecar up to the claim with zeros, the next one finds it long enough and writes only the new id. *)
Example failed_save_hides_loss :
  match Save demo_read no_files with
  | Some (c, F) =>
      let r := (Ingest c (demo_record "u9" "m9" "'end_turn'") demo_refs tt).1.2 c in
      let next sidecar := match saveCounted r sidecar with Some (n, after) => loaded_ids n after | None => [] end in
      torn (cu_countedSaved r) (old_bytes Absent) (replicate 8 x00)
      /\ next Absent = cl_Counted (tc_claude (cu_carry r)) /\ next (Holds (replicate 8 x00)) = [idHash (str "m9")]
  | None => False
  end.
Proof. vm_compute. split; [|by split]. exists 8%nat, []. split; [done|]. split; [lia|done]. Qed.
