(* ===== verification/UsageAxis.v ===== *)
(** * The usage axis ([internal/usageaxis])

    Forwards the model facts of a ledger: [Tail] reads new complete lines and numbers them, [drain] posts
    batches and commits the resume point after each accepted one. The ledger, the cursor file and the
    outcome of a request are arguments; a state file stands for the cursors decoding it leaves. The batch's
    JSON text, the environment variables and the HTTP client are not modelled. *)

From S2P Require Import Prelude GoStrings GoTime Json JsonText GoNet GoPath GoJson StrictDecode Validate.

Definition maxScanBytes : Z := 8388608.
Definition KindModel : bytes := str "model".
Definition SchemaVersion : Z := 1.
Definition maxBatchesPerDrain : nat := 50.

(** ** Facts *)

(** [CostUSDEstimate] is the number it was read from, none for zero. *)
Record Fact : Type := mkFact {
  fa_Seq : Z;
  fa_RunID : bytes; fa_SessionID : bytes; fa_StepID : bytes; fa_Worker : bytes;
  fa_Kind : bytes; fa_Model : bytes; fa_Provider : bytes;
  fa_InputTokens : Z; fa_OutputTokens : Z; fa_CacheReadTokens : Z; fa_CacheCreationTokens : Z;
  fa_CostUSDEstimate : option bytes; fa_Unpriced : bool;
  fa_UpstreamReqID : bytes; fa_At : Z;
}.

Definition with_seq (seq : Z) (f : Fact) : Fact :=
  mkFact seq (fa_RunID f) (fa_SessionID f) (fa_StepID f) (fa_Worker f) (fa_Kind f) (fa_Model f) (fa_Provider f)
    (fa_InputTokens f) (fa_OutputTokens f) (fa_CacheReadTokens f) (fa_CacheCreationTokens f) (fa_CostUSDEstimate f) (fa_Unpriced f)
    (fa_UpstreamReqID f) (fa_At f).

Definition cost_field : gofield := (str "CostUSDEstimate", str "cost_usd_estimate", TRawMessage).
Definition FactFields : list gofield :=
  [(str "Seq", str "seq", TUint 64); (str "RunID", str "run_id", TString); (str "SessionID", str "session_id", TString);
   (str "StepID", str "step_id", TString); (str "Worker", str "worker", TString); (str "Kind", str "kind", TString);
   (str "Model", str "model", TString); (str "Provider", str "provider", TString);
   (str "InputTokens", str "input_tokens", TInt 64); (str "OutputTokens", str "output_tokens", TInt 64);
   (str "CacheReadTokens", str "cache_read_tokens", TInt 64); (str "CacheCreationTokens", str "cache_creation_tokens", TInt 64);
   cost_field; (str "Unpriced", str "unpriced", TBool);
   (str "UpstreamReqID", str "upstream_req_id", TString); (str "At", str "at", TInt 64)].
Definition FactType : gotype := TStruct FactFields.

(** ** A [float64] field *)

Fixpoint before_exponent (s : bytes) : bytes :=
  match s with b :: r => if bool_decide (b ∈ [x65; x45]) then [] else b :: before_exponent r | [] => [] end.

(** Digits, then a fraction, then an exponent: the value as an integer and a power of ten. *)
Definition decimal_of (lit : bytes) : Z * Z :=
  let lit := match lit with x2d :: r => r | _ => lit end in
  let mantissa := before_exponent lit in
  let expo := drop (S (length mantissa)) lit in
  let '(whole, fraction) := cut x2e mantissa in
  let fraction := default [] fraction in
  let e := match expo with x2d :: r => - dec_val r | x2b :: r => dec_val r | r => dec_val r end in
  (dec_val (whole ++ fraction), e - zlen fraction).

(** [ParseFloat(lit, 64)] is in range: below the middle between the largest number and [2^1024]. *)
Definition float64_ok (lit : bytes) : bool :=
  let '(d, e) := decimal_of lit in
  let limit := 2 ^ 1024 - 2 ^ 970 in
  if 0 <=? e then d * 10 ^ e <? limit else d <? limit * 10 ^ (- e).

(** The members the cost field takes, in order; [None]: one is no [float64]. *)
Fixpoint cost_of (members : list (bytes * json)) (cost : option bytes) : option (option bytes) :=
  match members with
  | [] => Some cost
  | (key, v) :: l =>
      if bool_decide (find_field FactFields key = Some 12%nat) then
        match v with
        | JNull => cost_of l cost
        | JNum lit => if float64_ok lit then cost_of l (Some lit) else None
        | _ => None
        end
      else cost_of l cost
  end.

Definition decode_fact (line : bytes) : option Fact :=
  v ← Unmarshal line FactType;
  cost ← match parse_value add_member (S (2 * length line)) line with Some (JObj m, _) => cost_of m None | _ => Some None end;
  let s name := as_string (get FactType name v) in
  let n name := match get FactType name v with GInt z => z | _ => 0 end in
  Some (mkFact (n "Seq"%string) (s "RunID"%string) (s "SessionID"%string) (s "StepID"%string) (s "Worker"%string)
          (s "Kind"%string) (s "Model"%string) (s "Provider"%string)
          (n "InputTokens"%string) (n "OutputTokens"%string) (n "CacheReadTokens"%string) (n "CacheCreationTokens"%string)
          cost (match get FactType "Unpriced" v with GBool b => b | _ => false end) (s "UpstreamReqID"%string) (n "At"%string)).

(** The fact a line is forwarded as. *)
Definition model_fact (line : bytes) : option Fact :=
  let line := TrimSpace line in
  if bool_decide (line = []) then None
  else match decode_fact line with
       | Some f => if bool_decide (fa_Kind f = KindModel) then Some f else None
       | None => None
       end.

(** ** The tail *)

Record Cursor : Type := mkCursor { uc_Offset : Z; uc_NextSeq : Z; uc_FileID : Z }.

(** An opened ledger: its inode where there is one, its bytes, and whether they can be read. *)
Record ledger : Type := mkLedger { le_ID : option Z; le_data : bytes; le_readable : bool }.
Inductive opened : Type := LedgerMissing | LedgerFails | LedgerOpen (f : ledger).

(** The loop: the facts, the bytes consumed and the next number. *)
Fixpoint scan (fuel room : nat) (buf : bytes) (seq : Z) : list Fact * Z * Z :=
  match fuel, room with
  | S fuel', S room' =>
      match cut x0a buf with
      | (_, None) => ([], 0, seq)
      | (line, Some rest) =>
          match model_fact line with
          | None => let '(facts, consumed, seq) := scan fuel' room rest seq in (facts, zlen line + 1 + consumed, seq)
          | Some f => let '(facts, consumed, next) := scan fuel' room' rest (u64 (seq + 1)) in (with_seq seq f :: facts, zlen line + 1 + consumed, next)
          end
      end
  | _, _ => ([], 0, seq)
  end.

(** Facts, the advanced cursor and whether the ledger was rotated; [None]: an error. *)
Definition Tail (o : opened) (cur : Cursor) (max : Z) : option (list Fact * Cursor * bool) :=
  match o with
  | LedgerMissing => Some ([], cur, false)
  | LedgerFails => None
  | LedgerOpen f =>
      let size := zlen (le_data f) in
      let replaced := match le_ID f with Some id => negb (uc_FileID cur =? 0) && negb (id =? uc_FileID cur) | None => false end in
      let rotated := replaced || (size <? uc_Offset cur) in
      let off := if rotated then 0 else uc_Offset cur in
      let newID := default (uc_FileID cur) (le_ID f) in
      if size <=? off then Some ([], mkCursor off (uc_NextSeq cur) newID, rotated)
      else if (off <? 0) || negb (le_readable f) then None
      else
        let window := Z.min (size - off) maxScanBytes in
        let buf := slice (Z.to_nat off) (Z.to_nat window) (le_data f) in
        let seq := if uc_NextSeq cur =? 0 then 1 else uc_NextSeq cur in
        let '(facts, consumed, seq) := scan (length buf) (Z.to_nat (if max <? 1 then 1 else max)) buf seq in
        let consumed := if (consumed =? 0) && (window =? maxScanBytes) then zlen buf else consumed in
        Some (facts, mkCursor (off + consumed) seq newID, rotated)
  end.

(** ** State *)

Abbreviation State := (gmap bytes Cursor).

(** [None]: missing or unreadable. *)
Definition LoadState (file : option State) : State := default ∅ file.

(** ** The runner *)

Record Config : Type := mkConfig {
  ux_URL : bytes;
  ux_SourceID : bytes;
  ux_Ledger : bytes;
  ux_token : bool;        (** a token source is configured *)
  ux_BatchMax : Z;
  ux_AllowHTTP : bool;
}.

Definition Enabled (c : Config) : bool :=
  negb (bool_decide (ux_URL c = [])) && negb (bool_decide (ux_SourceID c = [])) && negb (bool_decide (ux_Ledger c = [])) && ux_token c.

Definition lower (s : bytes) : bytes := map (fun b => if in_range 65 90 b then Zb (bZ b + 32) else b) s.

(** [u]: the parsed URL, if it parses. No rune beyond ASCII has its lower case in one of the three hosts. *)
Definition URLOK (u : option URL) (allowHTTP : bool) : bool :=
  match u with
  | None => false
  | Some u =>
      bool_decide (u_Scheme u = str "https") && negb (bool_decide (u_Host u = []))
      || bool_decide (u_Scheme u = str "http") && allowHTTP
         && bool_decide (lower (Hostname u) ∈ map str ["localhost"; "127.0.0.1"; "::1"]%string)
  end.

Record Batch : Type := mkBatch { bt_SourceID : bytes; bt_SchemaVersion : Z; bt_Facts : list Fact }.

Record postResult : Type := mkPost { po_advance : bool; po_retryable : bool }.

(** The token read ([None]: an error) and the answer's status ([None]: no answer). *)
Definition httpPost (token : option bytes) (status : option Z) : postResult :=
  match token with
  | None | Some [] => mkPost false true
  | Some _ =>
      match status with
      | None => mkPost false true
      | Some n => if n / 100 =? 2 then mkPost true false else mkPost false true
      end
  end.

(** What one turn of the drain's loop meets: cancellation, the ledger, the request's outcome, whether the state file could be written. *)
Record turn : Type := mkTurn { tu_cancelled : bool; tu_ledger : opened; tu_post : postResult; tu_saved : bool }.

(** The runner's cursor, its state and the state file. *)
Record runner : Type := mkRunner { ru_cur : Cursor; ru_state : State; ru_file : option State }.

Definition commit (cfg : Config) (saved : bool) (cur : Cursor) (r : runner) : runner :=
  let st := <[ux_SourceID cfg := cur]> (ru_state r) in
  mkRunner cur st (if saved then Some st else ru_file r).

(** The resume point a start takes. *)
Definition start (cfg : Config) (file : option State) : runner :=
  let st := LoadState file in
  let cur := match st !! ux_SourceID cfg with
             | Some cur => if uc_NextSeq cur =? 0 then mkCursor (uc_Offset cur) 1 0 else cur
             | None => mkCursor 0 1 0
             end in
  mkRunner cur st file.

(** One turn: what was posted, the runner, and whether the loop goes on. *)
Definition drain_turn (cfg : Config) (t : turn) (r : runner) : option Batch * runner * bool :=
  if tu_cancelled t then (None, r, false)
  else match Tail (tu_ledger t) (ru_cur r) (ux_BatchMax cfg) with
       | None => (None, r, false)
       | Some (facts, next, _) =>
           match facts with
           | [] => (None, if uc_Offset next =? uc_Offset (ru_cur r) then r else commit cfg (tu_saved t) next r, false)
           | _ =>
               let batch := mkBatch (ux_SourceID cfg) SchemaVersion facts in
               if po_advance (tu_post t) then (Some batch, commit cfg (tu_saved t) next r, true) else (Some batch, r, false)
           end
       end.

(** The loop, over the turns it meets. *)
Fixpoint drain_turns (fuel : nat) (cfg : Config) (turns : list turn) (r : runner) : list Batch * runner :=
  match fuel, turns with
  | S fuel', t :: turns =>
      let '(posted, r, more) := drain_turn cfg t r in
      let posted := match posted with Some b => [b] | None => [] end in
      if more then let '(rest, r) := drain_turns fuel' cfg turns r in (posted ++ rest, r) else (posted, r)
  | _, _ => ([], r)
  end.
Definition drain (cfg : Config) (turns : list turn) (r : runner) : list Batch * runner := drain_turns maxBatchesPerDrain cfg turns r.

(** Why a start gives up, if it does. *)
Inductive start_result : Type := StartIdle | StartRefused | StartRuns (r : runner).
Definition run_start (cfg : Config) (u : option URL) (file : option State) : start_result :=
  if negb (Enabled cfg) then StartIdle
  else if negb (URLOK u (ux_AllowHTTP cfg)) then StartRefused
  else StartRuns (start cfg file).

Definition fact_line (kind : String.string) : bytes := js "{'kind':'" ++ str kind ++ js "','model':'m','input_tokens':3,'cost_usd_estimate':0.5}" ++ [x0a].
Example tail_example :
  (fun r => (map (fun f => (fa_Seq f, fa_InputTokens f)) r.1.1, r.1.2)) <$>
  Tail (LedgerOpen (mkLedger (Some 7) (fact_line "model" ++ fact_line "compute" ++ [x0a] ++ fact_line "model" ++ js "{'kind'") true)) (mkCursor 0 1 0) 10
  = Some ([(1, 3); (2, 3)], mkCursor (3 * zlen (fact_line "model") + 3) 3 7).
Proof. vm_compute. reflexivity. Qed.

Example floats : map float64_ok (map str ["0"; "-1.5e3"; "1e308"; "1e309"; "179769313486231570000000000000000000000e270"; "1E-999"]%string) = [true; true; true; false; true; true].
Proof. vm_compute. reflexivity. Qed.
