(* ===== verification/UsageFacts.v ===== *)
(** * What the usage axis forwards ([UsageAxis])

    Over any growth of a ledger, posts accepted or not, failed saves and restarts, a sequence number means
    one fact of the ledger, and every fact before the resume point was accepted. *)

From S2P Require Import Prelude GoStrings Lines GoTime Json JsonText GoNet GoPath GoJson StrictDecode Validate UsageAxis.

(** The facts of the complete lines, in order. *)
Definition facts_in (data : bytes) : list Fact := omap model_fact (complete_lines data).
Definition number (seq : Z) (l : list Fact) : list Fact := imap (fun i f => with_seq (seq + Z.of_nat i) f) l.

Lemma number_cons seq f l : number seq (f :: l) = with_seq seq f :: number (seq + 1) l.
Proof.
  unfold number. rewrite imap_cons, Z.add_0_r. f_equal. apply imap_ext. intros i x _. cbn. f_equal. lia.
Qed.

Lemma facts_in_app p q : whole_lines p -> facts_in (p ++ q) = facts_in p ++ facts_in q.
Proof. intros Hp. unfold facts_in. by rewrite complete_lines_app, omap_app. Qed.

Lemma facts_in_length p : zlen (facts_in p) <= zlen p.
Proof.
  destruct (split_lines p) as (a&q&->&Ha&Hq). rewrite facts_in_app by done. unfold facts_in at 2. rewrite (complete_lines_nil q Hq). cbn [omap list_omap]. rewrite app_nil_r, zlen_app. pose proof (zlen_nonneg q).
  enough (zlen (facts_in a) <= zlen a) by lia. clear q Hq H. remember (length a) as n eqn:En. revert a En Ha. induction n as [n IH] using lt_wf_ind. intros a -> Ha.
  destruct (cut x0a a) as [line [rest|]] eqn:E.
  - apply cut_Some in E as [-> Hn]. change (line ++ x0a :: rest) with (line ++ [x0a] ++ rest) in *. rewrite app_assoc in *.
    assert (Hw : whole_lines (line ++ [x0a])) by (right; by exists line). rewrite facts_in_app by done.
    assert (Hr : whole_lines rest).
    { destruct Ha as [Ha|(l&Hl)]; [by destruct line|]. destruct rest as [|b rest] using rev_ind; [by left|]. right. exists rest. rewrite app_assoc in Hl. by apply app_inj_tail in Hl as [_ ->]. }
    assert (H1 : zlen (facts_in (line ++ [x0a])) <= 1).
    { unfold facts_in. rewrite (complete_lines_cons line []) by done. cbn [omap list_omap]. by destruct (model_fact line). }
    pose proof (IH (length rest) ltac:(rewrite !length_app; cbn; lia) rest eq_refl Hr). rewrite !zlen_app. change (zlen [x0a]) with 1. pose proof (zlen_nonneg line). lia.
  - apply cut_None in E as [_ Hn]. unfold facts_in. rewrite (complete_lines_nil a Hn). apply zlen_nonneg.
Qed.

(** ** One read *)

Lemma scan_spec fuel : forall room buf seq, (length buf <= fuel)%nat -> 0 <= seq -> seq + zlen buf < 2 ^ 64 ->
  let '(facts, consumed, next) := scan fuel room buf seq in
  exists p q, buf = p ++ q /\ whole_lines p /\ consumed = zlen p /\ facts = number seq (facts_in p) /\ next = seq + zlen (facts_in p)
    /\ (room <> O -> p = [] -> x0a ∉ buf).
Proof.
  induction fuel as [|fuel IH]; intros room buf seq Hf H0 Hmax.
  { destruct buf; [|cbn in Hf; lia]. exists [], []. repeat split; [by left|by rewrite Z.add_0_r|by intros _ _ ?%elem_of_nil]. }
  assert (Hstop : exists p q, buf = p ++ q /\ whole_lines p /\ 0 = zlen p /\ [] = number seq (facts_in p) /\ seq = seq + zlen (facts_in p) /\ (O <> O -> p = [] -> x0a ∉ buf)).
  { exists [], buf. repeat split; [by left|by rewrite Z.add_0_r|done]. }
  destruct room as [|room]; [exact Hstop|]. cbn [scan]. destruct (cut x0a buf) as [line [rest|]] eqn:E.
  - apply cut_Some in E as [-> Hn]. rewrite length_app in Hf. cbn in Hf. change (line ++ x0a :: rest) with (line ++ [x0a] ++ rest) in *. rewrite app_assoc, !zlen_app in Hmax. change (zlen [x0a]) with 1 in Hmax.
    pose proof (zlen_nonneg line) as Hl0. pose proof (zlen_nonneg rest) as Hr0. assert (Hw : whole_lines (line ++ [x0a])) by (right; by exists line).
    assert (Hone : facts_in (line ++ [x0a]) = match model_fact line with Some f => [f] | None => [] end).
    { unfold facts_in. rewrite (complete_lines_cons line []) by done. cbn [omap list_omap]. by destruct (model_fact line). }
    destruct (model_fact line) as [f|] eqn:Em.
    + assert (Eu : u64 (seq + 1) = seq + 1) by (unfold u64; apply Z.mod_small; lia). rewrite Eu. specialize (IH room rest (seq + 1) ltac:(lia) ltac:(lia) ltac:(lia)).
      destruct (scan fuel room rest (seq + 1)) as [[facts consumed] next]. destruct IH as (p&q&->&Hp&->&->&->&_).
      exists ((line ++ [x0a]) ++ p), q. rewrite facts_in_app, Hone by done. split; [by rewrite <-!app_assoc|]. split; [by apply whole_lines_app|]. split; [rewrite !zlen_app; change (zlen [x0a]) with 1; lia|].
      split; [by rewrite <-number_cons|]. split; [rewrite zlen_app; change (zlen [f]) with 1; lia|]. intros _ Hnil. by destruct line.
    + specialize (IH (S room) rest seq ltac:(lia) ltac:(lia) ltac:(lia)).
      destruct (scan fuel (S room) rest seq) as [[facts consumed] next]. destruct IH as (p&q&->&Hp&->&->&->&_).
      exists ((line ++ [x0a]) ++ p), q. rewrite facts_in_app, Hone by done. split; [by rewrite <-!app_assoc|]. split; [by apply whole_lines_app|]. split; [rewrite !zlen_app; change (zlen [x0a]) with 1; lia|].
      split; [done|]. split; [done|]. intros _ Hnil. by destruct line.
  - apply cut_None in E as [_ Hn]. exists [], buf. repeat split; [by left|by rewrite Z.add_0_r|done].
Qed.

(** A cursor at a line's start, numbering from the facts before it. *)
Definition resumes (ident : option Z) (data : bytes) (cur : Cursor) : Prop :=
  exists p q, data = p ++ q /\ whole_lines p /\ uc_Offset cur = zlen p /\ uc_NextSeq cur = 1 + zlen (facts_in p)
    /\ match ident with Some id => uc_FileID cur = 0 \/ uc_FileID cur = id | None => True end.

(** The ledger's length is a file offset, and no line fills a read. *)
Definition readable_ledger (data : bytes) : Prop := zlen data <= MaxInt64 /\ short_lines (maxScanBytes - 1) data.

Lemma Tail_spec ident data readable cur max facts next rotated : resumes ident data cur -> readable_ledger data ->
  Tail (LedgerOpen (mkLedger ident data readable)) cur max = Some (facts, next, rotated) ->
  resumes ident data next /\ exists fs, facts = number (uc_NextSeq cur) fs /\ uc_NextSeq next = uc_NextSeq cur + zlen fs
    /\ forall i f, fs !! i = Some f -> facts_in data !! (Z.to_nat (uc_NextSeq cur - 1) + i)%nat = Some f.
Proof.
  intros (p&q&->&Hp&Ho&Hs&Hid) [Hmax Hshort]. unfold Tail. cbn [le_data le_ID le_readable].
  assert (Er : (match ident with Some id => negb (uc_FileID cur =? 0) && negb (id =? uc_FileID cur) | None => false end) = false).
  { destruct ident as [id|]; [|done]. destruct Hid as [->| ->]; [done|]. by rewrite Z.eqb_refl, andb_false_r. }
  pose proof (zlen_nonneg p) as Hp0. pose proof (zlen_nonneg q) as Hq0. pose proof (facts_in_length p) as Hfl. pose proof (zlen_nonneg (facts_in p)) as Hf0.
  rewrite zlen_app in Hmax. rewrite Er, Ho, zlen_app. destruct (Z.ltb_spec (zlen p + zlen q) (zlen p)) as [|_]; [lia|]. cbn [orb].
  assert (Hnid : match ident with Some id => default (uc_FileID cur) ident = 0 \/ default (uc_FileID cur) ident = id | None => True end) by (destruct ident; [by right|done]).
  destruct (Z.leb_spec (zlen p + zlen q) (zlen p)) as [Hle|Hgt].
  { intros [= <- <- <-]. split; [by exists p, q|]. exists []. split; [done|]. split; [unfold zlen; cbn; lia|done]. }
  destruct (Z.ltb_spec (zlen p) 0) as [|_]; [lia|]. destruct readable; cbn [orb negb]; [|done].
  replace (zlen p + zlen q - zlen p) with (zlen q) by lia.
  set (buf := slice _ _ _). assert (Hbuf : exists rest, q = buf ++ rest /\ zlen buf = Z.min (zlen q) maxScanBytes).
  { subst buf. unfold slice. replace (Z.to_nat (zlen p)) with (length p) by (unfold zlen; lia). rewrite drop_app_length. exists (drop (Z.to_nat (Z.min (zlen q) maxScanBytes)) q).
    split; [by rewrite take_drop|]. unfold zlen in *. rewrite length_take. unfold maxScanBytes in *. lia. }
  destruct Hbuf as (rest&Hq&Hlen). rewrite Hs. destruct (Z.eqb_spec (1 + zlen (facts_in p)) 0) as [|_]; [lia|].
  pose proof (scan_spec (length buf) (Z.to_nat (if max <? 1 then 1 else max)) buf (1 + zlen (facts_in p)) ltac:(lia) ltac:(lia) ltac:(unfold MaxInt64 in *; lia)) as Hscan.
  destruct (scan _ _ buf _) as [[fs consumed] seq']. destruct Hscan as (a&b&Hab&Ha&->&->&->&Hroom).
  assert (Estall : ((zlen a =? 0) && (Z.min (zlen q) maxScanBytes =? maxScanBytes)) = false).
  { destruct (Z.eqb_spec (zlen a) 0) as [Ez|]; [|done]. apply andb_false_intro2. apply Z.eqb_neq. intros Efull.
    assert (a = []) as -> by (destruct a; [done|unfold zlen in Ez; cbn in Ez; lia]). assert (Hn : x0a ∉ buf) by (apply Hroom; [destruct (Z.ltb_spec max 1); lia|done]).
    specialize (Hshort p buf rest ltac:(by rewrite Hq) Hn). lia. }
  rewrite Estall. intros [= <- <- <-]. split.
  - exists (p ++ a), (b ++ rest). cbn [uc_Offset uc_NextSeq uc_FileID]. rewrite Hq, Hab, <-!app_assoc, !facts_in_app, !zlen_app by done. split; [done|]. split; [by apply whole_lines_app|]. split; [done|]. split; [lia|done].
  - exists (facts_in a). split; [done|]. split; [done|]. intros i f Hi. rewrite Hq, Hab, <-app_assoc, !facts_in_app by done.
    replace (Z.to_nat (1 + zlen (facts_in p) - 1)) with (length (facts_in p)) by (unfold zlen; lia). rewrite lookup_app_r by lia. rewrite Nat.add_comm, Nat.add_sub. by apply lookup_app_l_Some.
Qed.

(** ** The axis's life *)

(** What a turn can find at the ledger's path. *)
Definition sees (ident : option Z) (data : bytes) (o : opened) : Prop :=
  o = LedgerMissing \/ o = LedgerFails \/ exists readable, o = LedgerOpen (mkLedger ident data readable).

Definition posted_in (cfg : Config) (t : turn) (r : runner) : list Fact := match (drain_turn cfg t r).1.1 with Some b => bt_Facts b | None => [] end.
Definition accepted_in (cfg : Config) (t : turn) (r : runner) : list Fact := if po_advance (tu_post t) then posted_in cfg t r else [].

(** A ledger that only grows, turns of the loop, a death between a request and its commit, restarts: what was posted and what was accepted. *)
Inductive life (cfg : Config) (ident : option Z) : bytes -> runner -> list Fact -> list Fact -> Prop :=
| life_first data : life cfg ident data (start cfg None) [] []
| life_append data more r posted accepted : life cfg ident data r posted accepted -> life cfg ident (data ++ more) r posted accepted
| life_turn data r posted accepted t : life cfg ident data r posted accepted -> sees ident data (tu_ledger t) ->
    life cfg ident data (drain_turn cfg t r).1.2 (posted ++ posted_in cfg t r) (accepted ++ accepted_in cfg t r)
| life_cut data r posted accepted t : life cfg ident data r posted accepted -> sees ident data (tu_ledger t) ->
    life cfg ident data (start cfg (ru_file r)) (posted ++ posted_in cfg t r) (accepted ++ accepted_in cfg t r)
| life_restart data r posted accepted : life cfg ident data r posted accepted -> life cfg ident data (start cfg (ru_file r)) posted accepted.

(** A resume point all of whose past was accepted. *)
Definition settled (ident : option Z) (data : bytes) (accepted : list Fact) (cur : Cursor) : Prop :=
  resumes ident data cur /\ forall k, 1 <= k < uc_NextSeq cur -> exists f, f ∈ accepted /\ fa_Seq f = k.

(** A posted fact is the ledger's fact of its number. *)
Definition in_order (data : bytes) (f : Fact) : Prop :=
  1 <= fa_Seq f /\ exists g, facts_in data !! Z.to_nat (fa_Seq f - 1) = Some g /\ f = with_seq (fa_Seq f) g.

Record sound (cfg : Config) (ident : option Z) (data : bytes) (r : runner) (posted accepted : list Fact) : Prop := mkSound {
  so_cur : settled ident data accepted (ru_cur r);
  so_state : forall cur, ru_state r !! ux_SourceID cfg = Some cur -> settled ident data accepted cur;
  so_file : forall cur, LoadState (ru_file r) !! ux_SourceID cfg = Some cur -> settled ident data accepted cur;
  so_posted : Forall (in_order data) posted;
}.

Lemma settled_more ident data accepted more cur : settled ident data accepted cur -> settled ident data (accepted ++ more) cur.
Proof. intros [H1 H2]. split; [done|]. intros k Hk. destruct (H2 k Hk) as (f&Hf&He). exists f. split; [|done]. apply elem_of_app. by left. Qed.

Lemma settled_start ident data accepted : settled ident data accepted (mkCursor 0 1 0).
Proof. split; [|cbn; intros; lia]. exists [], data. split; [done|]. split; [by left|]. split; [done|]. split; [done|]. destruct ident; [by left|done]. Qed.

Lemma start_sound cfg ident data r posted accepted : sound cfg ident data r posted accepted -> sound cfg ident data (start cfg (ru_file r)) posted accepted.
Proof.
  intros [Hc Hs Hf Hp]. unfold start. split; cbn [ru_cur ru_state ru_file]; [|done|done|done]. destruct (LoadState (ru_file r) !! ux_SourceID cfg) as [cur|] eqn:E; [|apply settled_start].
  specialize (Hf cur eq_refl). destruct (Z.eqb_spec (uc_NextSeq cur) 0) as [Ez|]; [|done]. exfalso. destruct Hf as [(p&q&_&_&_&Hn&_) _]. pose proof (zlen_nonneg (facts_in p)). lia.
Qed.

Lemma facts_in_prefix data more i f : facts_in data !! i = Some f -> facts_in (data ++ more) !! i = Some f.
Proof. destruct (complete_lines_prefix data more) as [l Hl]. unfold facts_in. rewrite Hl, omap_app. apply lookup_app_l_Some. Qed.

Lemma append_sound cfg ident data more r posted accepted : sound cfg ident data r posted accepted -> sound cfg ident (data ++ more) r posted accepted.
Proof.
  assert (Hset : forall cur, settled ident data accepted cur -> settled ident (data ++ more) accepted cur).
  { intros cur [(p&q&->&Hp&Ho&Hn&Hi) H2]. split; [|done]. exists p, (q ++ more). split; [by rewrite <-app_assoc|done]. }
  intros [Hc Hs Hf Hp]. split; [by apply Hset|intros cur E; by apply Hset, Hs|intros cur E; by apply Hset, Hf|].
  eapply Forall_impl; [exact Hp|]. intros f [H1 (g&Hg&He)]. split; [done|]. exists g. split; [by apply facts_in_prefix|done].
Qed.

Lemma elem_of_number seq fs f : f ∈ number seq fs -> exists i g, fs !! i = Some g /\ f = with_seq (seq + Z.of_nat i) g.
Proof. intros (i&g&->&Hg)%elem_of_lookup_imap. by exists i, g. Qed.

Lemma number_elem seq fs k : seq <= k < seq + zlen fs -> exists f, f ∈ number seq fs /\ fa_Seq f = k.
Proof.
  intros Hk. destruct (fs !! Z.to_nat (k - seq)) as [g|] eqn:E; [|apply lookup_ge_None in E; unfold zlen in Hk; lia].
  exists (with_seq (seq + Z.of_nat (Z.to_nat (k - seq))) g). split; [|cbn; lia]. apply elem_of_lookup_imap. by exists (Z.to_nat (k - seq)), g.
Qed.

(** One turn of the loop. *)
Lemma turn_sound cfg ident data r posted accepted t : readable_ledger data -> sound cfg ident data r posted accepted -> sees ident data (tu_ledger t) ->
  sound cfg ident data (drain_turn cfg t r).1.2 (posted ++ posted_in cfg t r) (accepted ++ accepted_in cfg t r)
  /\ sound cfg ident data r (posted ++ posted_in cfg t r) (accepted ++ accepted_in cfg t r).
Proof.
  intros Hdata Hsound Hsees. destruct Hsound as [Hc Hs Hf Hp].
  assert (Hkeep : forall more, sound cfg ident data r posted (accepted ++ more)).
  { intros more. split; [by apply settled_more|intros cur E; by apply settled_more, Hs|intros cur E; by apply settled_more, Hf|done]. }
  assert (Hidle : posted_in cfg t r = [] -> accepted_in cfg t r = []) by (intros E; unfold accepted_in; rewrite E; by destruct (po_advance _)).
  assert (Hnone : posted_in cfg t r = [] -> sound cfg ident data r (posted ++ posted_in cfg t r) (accepted ++ accepted_in cfg t r)).
  { intros E. rewrite E, app_nil_r. by rewrite Hidle. }
  unfold posted_in, accepted_in, posted_in in *. unfold drain_turn in *. destruct (tu_cancelled t); [split; by apply Hnone|].
  destruct (Tail (tu_ledger t) (ru_cur r) (ux_BatchMax cfg)) as [[[facts next] rotated]|] eqn:Et; [|split; by apply Hnone].
  assert (Htail : resumes ident data next /\ exists fs, facts = number (uc_NextSeq (ru_cur r)) fs /\ uc_NextSeq next = uc_NextSeq (ru_cur r) + zlen fs
    /\ forall i f, fs !! i = Some f -> facts_in data !! (Z.to_nat (uc_NextSeq (ru_cur r) - 1) + i)%nat = Some f).
  { destruct Hsees as [E|[E|[readable E]]]; rewrite E in Et; [| |by eapply Tail_spec; [apply Hc| |]]; [|done].
    injection Et as <- <- <-. split; [apply Hc|]. exists []. split; [done|]. split; [unfold zlen; cbn; lia|done]. }
  destruct Htail as (Hres&fs&->&Hnext&Hin).
  assert (Hcommit : forall acc, settled ident data acc next -> (forall cur, settled ident data accepted cur -> settled ident data acc cur) -> forall po,
    Forall (in_order data) po -> sound cfg ident data (commit cfg (tu_saved t) next r) po acc).
  { intros acc Hn Hmore po Hpo. unfold commit. cbv zeta. split; cbn [ru_cur ru_state ru_file]; [done| | |done].
    - intros cur. rewrite lookup_insert_eq. by intros [= <-].
    - intros cur. destruct (tu_saved t); [change (LoadState (Some ?st)) with st; rewrite lookup_insert_eq; by intros [= <-]|]. intros E. by apply Hmore, Hf. }
  destruct fs as [|f0 fs].
  - cbn [number imap fst snd] in *. cbn. split; [|by apply Hnone]. rewrite !app_nil_r. destruct (uc_Offset next =? uc_Offset (ru_cur r)); [rewrite Hidle by done; by rewrite app_nil_r|].
    rewrite Hidle by done. rewrite app_nil_r. apply Hcommit; [|done|done]. split; [done|]. intros k Hk. apply Hc. unfold zlen in Hnext. cbn in Hnext. lia.
  - rewrite number_cons in *. set (facts := with_seq _ f0 :: _) in *. assert (Efacts : facts = number (uc_NextSeq (ru_cur r)) (f0 :: fs)) by (by rewrite number_cons).
    assert (Hpost : Forall (in_order data) (posted ++ facts)).
    { apply Forall_app. split; [done|]. apply Forall_forall. intros f Hfe. rewrite Efacts in Hfe. apply elem_of_number in Hfe as (i&g&Hg&->). specialize (Hin i g Hg).
      destruct Hc as [(p&q&_&_&_&Hn&_) _]. pose proof (zlen_nonneg (facts_in p)). split; [cbn; lia|]. exists g. split; [|done]. cbn [fa_Seq with_seq]. rewrite <-Hin. f_equal. lia. }
    destruct (po_advance (tu_post t)) eqn:Ea; cbn [fst snd bt_Facts].
    + split.
      * apply Hcommit; [|intros cur; by apply settled_more|done]. split; [done|]. intros k Hk. destruct (Z.lt_ge_cases k (uc_NextSeq (ru_cur r))) as [Hlt|Hge].
        { destruct Hc as [_ H2]. destruct (H2 k ltac:(lia)) as (f&Hfe&He). exists f. split; [|done]. apply elem_of_app. by left. }
        destruct (number_elem (uc_NextSeq (ru_cur r)) (f0 :: fs) k ltac:(lia)) as (f&Hfe&He). exists f. split; [|done]. apply elem_of_app. right. by rewrite Efacts.
      * destruct (Hkeep facts) as [K1 K2 K3 _]. by split.
    + rewrite app_nil_r. split; by split.
Qed.

Lemma life_sound cfg ident data r posted accepted : life cfg ident data r posted accepted -> readable_ledger data -> sound cfg ident data r posted accepted.
Proof.
  induction 1 as [data|data more r posted accepted _ IH|data r posted accepted t _ IH Hs|data r posted accepted t _ IH Hs|data r posted accepted _ IH]; intros Hdata.
  - unfold start. cbn. split; cbn; [apply settled_start|done|done|done].
  - apply append_sound, IH. destruct Hdata as [H1 H2]. split; [rewrite zlen_app in H1; pose proof (zlen_nonneg more); lia|by apply short_app in H2].
  - by apply turn_sound; [|apply IH|].
  - apply start_sound. by apply turn_sound; [|apply IH|].
  - by apply start_sound, IH.
Qed.

(** C35: The axis forwards the ledger exactly. While the ledger only grows, and as long as it is readable (none of its lines fills the
    scan window of 8 MiB, which the stall guard would skip, and its length is a file offset), whatever requests fail, are answered and not committed, or leave the state file
    unwritten, and however often the axis restarts, a posted fact is the ledger's fact of its number, counted from one, so a repeated number repeats its
    fact; every fact before the resume point was accepted; and the resume point is at a line's start. *)
Theorem usage_forwarded cfg ident data r posted accepted : life cfg ident data r posted accepted -> readable_ledger data ->
  Forall (in_order data) posted /\ resumes ident data (ru_cur r) /\ forall k, 1 <= k < uc_NextSeq (ru_cur r) -> exists f, f ∈ accepted /\ fa_Seq f = k.
Proof. intros Hl Hd. destruct (life_sound _ _ _ _ _ _ Hl Hd) as [[H1 H2] _ _ Hp]. done. Qed.

Definition demo_config : Config := mkConfig (str "https://x") (str "city") (str "/l") true 10 false.
Definition demo_ledger : bytes := fact_line "model" ++ fact_line "compute" ++ fact_line "model".
Definition demo_turn (advance : bool) : turn := mkTurn false (LedgerOpen (mkLedger (Some 7) demo_ledger true)) (mkPost advance (negb advance)) true.

(** Refused, then accepted and cut off before the commit, then accepted. *)
Definition demo_posted : list Fact := posted_in demo_config (demo_turn true) (start demo_config None).

Lemma usage_forwarded_witness :
  map fa_Seq demo_posted = [1; 2] /\ Forall (in_order demo_ledger) ([] ++ demo_posted)
  /\ uc_NextSeq (ru_cur (drain_turn demo_config (demo_turn true) (start demo_config None)).1.2) = 3.
Proof.
  assert (Hd : readable_ledger demo_ledger) by (split; [vm_compute; discriminate|apply short_total; vm_compute; discriminate]).
  assert (Hs : sees (Some 7) demo_ledger (tu_ledger (demo_turn true))) by (right; right; exists true; reflexivity).
  refine (conj _ (conj _ _)); [vm_compute; reflexivity| |vm_compute; reflexivity].
  exact (proj1 (usage_forwarded demo_config (Some 7) demo_ledger _ _ _ (life_turn demo_config (Some 7) demo_ledger _ _ _ (demo_turn true) (life_first demo_config (Some 7) demo_ledger) Hs) Hd)).
Defined.

(** The state file lost after the ledger was replaced: the new ledger's facts take numbers the old one's had. *)
Example lost_state_reuses_numbers :
  let cfg := demo_config in
  let r := (drain_turn cfg (demo_turn true) (start cfg None)).1.2 in
  let replaced := mkTurn false (LedgerOpen (mkLedger (Some 8) (fact_line "model") true)) (mkPost true false) true in
  map fa_Seq (posted_in cfg replaced (start cfg (ru_file r))) = [3] /\ map fa_Seq (posted_in cfg replaced (start cfg None)) = [1].
Proof. vm_compute. split; reflexivity. Qed.
