(* ===== verification/Sink.v ===== *)
(** * The watcher's sink ([daemon/sink.go])

    Candidates, transformed under the policy and appended through the daemon in order, until one fails.
    What the sink remembers of each transcript: the session its records belong to, and the starts and
    usages it appended. The daemon is an interface: its append, its run lookup and its clock. Candidates
    are never nil; the mutex is the atomicity of each method. *)

From S2P Require Import Prelude GoStrings Json GoTime GoNet GoPath GoJson BeadPrefix Validate Evidence Policy RefExtract.
From S2P Require Import Transcript.

(** [client.CaptureObservation] (the sequence, or an error), the run resolver where there is one, [now]. *)
Class Daemon (W : Type) : Type := {
  CaptureObservation : PendingObservation -> W -> option Z * W;
  sessionRun : W -> option (bytes -> option bytes);
  now : W -> gotime;
}.

Record TranscriptRef : Type := mkTranscriptRef { tr_Device : Z; tr_Inode : Z; tr_Locator : bytes; tr_ConsentRoot : bytes }.

Record sinkConfig : Type := mkSinkConfig { si_policy : Policy; si_provider : bytes; si_parserVersion : bytes; si_transformVersion : bytes }.

Definition usageMemory : Z := 32.

Record transcriptSession : Type := mkTranscriptSession {
  tn_nativeID : bytes;
  tn_provider : bytes;
  tn_started : gset bytes;
  tn_usage : list Z;
}.
Definition no_transcript : transcriptSession := mkTranscriptSession [] [] ∅ [].

Abbreviation sessions := (gmap (Z * Z) transcriptSession).
Definition transcriptIdentity (ref : TranscriptRef) : Z * Z := (tr_Device ref, tr_Inode ref).

(** [Some] key: a usage with a message id. *)
Definition usageKey (c : Candidate) : option Z :=
  match ca_Kind c with
  | KindUsage u => if bool_decide (us_MessageID u = []) then None else Some (idHash (us_MessageID u))
  | _ => None
  end.

Definition orString (a b : bytes) : bytes := if bool_decide (a = []) then b else a.

(** The session and provider a candidate is stamped with, whether it was appended before, and what is remembered. *)
Definition resolveSession (ref : TranscriptRef) (c : Candidate) (m : sessions) : bytes * bytes * bool * sessions :=
  let key := transcriptIdentity ref in
  let s := default no_transcript (m !! key) in
  let kept s := <[key := s]> m in
  let threaded := (tn_nativeID s, tn_provider s, false, kept s) in
  let attributed :=
    match ca_Session c with
    | Some a =>
        if bool_decide (sr_NativeID a = []) then threaded
        else
          let s' := if bool_decide (tn_nativeID s = sr_NativeID a) then s
                    else mkTranscriptSession (sr_NativeID a) (sr_Provider a) (tn_started s) (tn_usage s) in
          (sr_NativeID a, orString (sr_Provider a) (tn_provider s'), false, kept s')
    | None => threaded
    end in
  match usageKey c with
  | Some h => if bool_decide (h ∈ tn_usage s) then (tn_nativeID s, tn_provider s, true, kept s) else attributed
  | None =>
      match ca_Kind c with
      | KindSessionLifecycle l =>
          if bool_decide (sl_NativeSessionID l = []) then attributed
          else
            let s' := mkTranscriptSession (sl_NativeSessionID l) (orString (sl_Provider l) (tn_provider s)) (tn_started s) (tn_usage s) in
            (sl_NativeSessionID l, tn_provider s', bool_decide (sl_NativeSessionID l ∈ tn_started s), kept s')
      | _ => attributed
      end
  end.

Definition remember (c : Candidate) (native : bytes) (s : transcriptSession) : transcriptSession :=
  let started := if is_lifecycle c && negb (bool_decide (native = [])) then {[native]} ∪ tn_started s else tn_started s in
  let usage := match usageKey c with Some k => newest usageMemory (tn_usage s ++ [k]) | None => tn_usage s end in
  mkTranscriptSession (tn_nativeID s) (tn_provider s) started usage.
Definition recordAppended (ref : TranscriptRef) (c : Candidate) (native : bytes) (m : sessions) : sessions :=
  alter (remember c native) (transcriptIdentity ref) m.

Definition SessionFor (cfg : sinkConfig) (device inode : Z) (m : sessions) : option (bytes * bytes) :=
  match m !! (device, inode) with
  | Some s => if bool_decide (tn_nativeID s = []) then None else Some (tn_nativeID s, orString (tn_provider s) (si_provider cfg))
  | None => None
  end.
Definition Forget (device inode : Z) (m : sessions) : sessions := delete (device, inode) m.

Section daemon.
Context {W : Type} `{Daemon W}.

Definition runContextFor (native : bytes) (w : W) : option RunContext :=
  if bool_decide (native = []) then None
  else match sessionRun w with
       | None => None
       | Some lookup => (fun runID => mkRunContext runID (str "DECLARED_BOUNDARY") None) <$> lookup native
       end.

Definition sink_envelope (cfg : sinkConfig) (ref : TranscriptRef) (native provider : bytes) (w : W) : PolicyEnvelope :=
  mkEnvelope zero_time (now w)
    (mkRawProvenance (orString provider (si_provider cfg)) native (si_parserVersion cfg) (si_transformVersion cfg) (tr_Locator ref) None None None [] [])
    (runContextFor native w).

(** How one delivery ends: appended as an observation with a sequence, nothing to append, or an error. *)
Inductive delivery : Type := Appended (obs : PendingObservation) (seq : Z) | Nothing | Failed.

Definition deliverOne (cfg : sinkConfig) (ref : TranscriptRef) (c : Candidate) (m : sessions) (w : W) : delivery * sessions * W :=
  let '(native, provider, appended, m) := resolveSession ref c m in
  if appended then (Nothing, m, w)
  else
    let res := Candidate_Transform c (si_policy cfg) (sink_envelope cfg ref native provider w) in
    if tf_Dropped res then (Nothing, m, w)
    else if negb (HasObservation res) then (Failed, m, w)
    else match CaptureObservation (tf_Observation res) w with
         | (None, w) => (Failed, m, w)
         | (Some seq, w) => (Appended (tf_Observation res) seq, recordAppended ref c native m, w)
         end.

(** The loop: whether all were delivered, and what was appended. *)
Fixpoint DeliverCandidates (cfg : sinkConfig) (ref : TranscriptRef) (cands : list Candidate) (m : sessions) (w : W)
    : bool * list (Candidate * PendingObservation * Z) * sessions * W :=
  match cands with
  | [] => (true, [], m, w)
  | c :: l =>
      match deliverOne cfg ref c m w with
      | (Failed, m, w) => (false, [], m, w)
      | (Nothing, m, w) => DeliverCandidates cfg ref l m w
      | (Appended obs seq, m, w) =>
          let '(ok, out, m, w) := DeliverCandidates cfg ref l m w in
          (ok, (c, obs, seq) :: out, m, w)
      end
  end.

(** ** [PartialCandidateSinkAdapter] ([daemon/partial_sink.go]) *)

(** How many leading candidates were delivered, and whether all were. *)
Fixpoint DeliverCandidatesPartial (cfg : sinkConfig) (ref : TranscriptRef) (cands : list Candidate) (m : sessions) (w : W) : Z * bool * sessions * W :=
  match cands with
  | [] => (0, true, m, w)
  | c :: l =>
      match deliverOne cfg ref c m w with
      | (Failed, m, w) => (0, false, m, w)
      | (_, m, w) => let '(n, ok, m, w) := DeliverCandidatesPartial cfg ref l m w in (1 + n, ok, m, w)
      end
  end.
End daemon.
