(* ===== verification/SinkFacts.v ===== *)
(** * What the sink appends ([Sink])

    The watcher delivers the candidates of a line again after a failure part way through it. However many
    attempts that takes, and whatever is delivered for other transcripts in between, a response's usage
    and a session's start are appended once, in the transcript's order, and nothing is passed over. *)

From S2P Require Import Prelude GoStrings Json GoTime GoNet GoPath GoJson WireTypes BeadPrefix Validate Evidence Sealed Policy RefExtract.
From S2P Require Import Transcript Sink.

(** The session a start names. *)
Definition startID (c : Candidate) : option bytes :=
  match ca_Kind c with
  | KindSessionLifecycle l => if bool_decide (sl_NativeSessionID l = []) then None else Some (sl_NativeSessionID l)
  | _ => None
  end.
Definition session_of (ref : TranscriptRef) (m : sessions) : transcriptSession := default no_transcript (m !! transcriptIdentity ref).

(** A start of the session, or one that names none and takes the transcript's. *)
Definition starts (c : Candidate) (id : bytes) : Prop := is_lifecycle c = true /\ (startID c = Some id \/ startID c = None).

(** The appended candidates, their usage keys, the sessions they start. *)
Definition sent (out : list (Candidate * PendingObservation * Z)) : list Candidate := fst ∘ fst <$> out.
Definition usages (cs : list Candidate) : list Z := omap usageKey cs.
Definition started_in (cs : list Candidate) : list bytes := omap startID cs.

Lemma resolveSession_spec ref c m native provider app m' : resolveSession ref c m = (native, provider, app, m') ->
  (exists s', m' = <[transcriptIdentity ref := s']> m /\ tn_usage s' = tn_usage (session_of ref m) /\ tn_started s' = tn_started (session_of ref m))
  /\ (forall k, usageKey c = Some k -> app = bool_decide (k ∈ tn_usage (session_of ref m)))
  /\ (forall id, startID c = Some id -> native = id /\ app = bool_decide (id ∈ tn_started (session_of ref m)) /\ is_lifecycle c = true)
  /\ (usageKey c = None -> startID c = None -> app = false).
Proof.
  unfold resolveSession, startID, session_of, is_lifecycle, usageKey. intros E.
  repeat case_match; simplify_eq/=; (split; [eexists; split; [reflexivity|done]|]); repeat split; intros; simplify_eq/=; try done; by case_bool_decide.
Qed.

Section daemon.
Context {W : Type} `{Daemon W}.
Variables (cfg : sinkConfig) (ref : TranscriptRef).

(** The policy drops it. *)
Definition dropped (c : Candidate) : Prop :=
  exists native provider w, tf_Dropped (Candidate_Transform c (si_policy cfg) (sink_envelope cfg ref native provider w)) = true.
(** Appended before, as far as is remembered. *)
Definition known (c : Candidate) (m : sessions) : Prop :=
  (exists k, usageKey c = Some k /\ k ∈ tn_usage (session_of ref m)) \/ (exists id, startID c = Some id /\ id ∈ tn_started (session_of ref m)).

(** What is remembered after a delivery. *)
Definition delivered (c : Candidate) (d : delivery) (m m' : sessions) : Prop :=
  match d with
  | Appended _ _ =>
      tn_usage (session_of ref m') = match usageKey c with Some k => newest usageMemory (tn_usage (session_of ref m) ++ [k]) | None => tn_usage (session_of ref m) end
      /\ ~ known c m
      /\ tn_started (session_of ref m) ⊆ tn_started (session_of ref m')
      /\ (forall id, startID c = Some id -> id ∈ tn_started (session_of ref m'))
      /\ (forall id, id ∈ tn_started (session_of ref m') -> id ∈ tn_started (session_of ref m) \/ starts c id)
  | _ => tn_usage (session_of ref m') = tn_usage (session_of ref m) /\ tn_started (session_of ref m') = tn_started (session_of ref m)
         /\ (d = Nothing -> known c m \/ dropped c)
  end.

Lemma resolveSession_known c m native provider app m' : resolveSession ref c m = (native, provider, app, m') -> (app = true <-> known c m).
Proof.
  intros E. apply resolveSession_spec in E as (_&Hk&Hid&Hno). split.
  - intros ->. destruct (usageKey c) as [k|] eqn:Ek; [left; exists k; split; [done|]; specialize (Hk k eq_refl); symmetry in Hk; by apply bool_decide_eq_true_1 in Hk|].
    destruct (startID c) as [id|] eqn:Ei; [right; exists id; split; [done|]; destruct (Hid id eq_refl) as (_&Ha&_); symmetry in Ha; by apply bool_decide_eq_true_1 in Ha|].
    by discriminate (Hno eq_refl eq_refl).
  - intros [(k&Ek&Hin)|(id&Ei&Hin)]; [rewrite (Hk k Ek); by apply bool_decide_eq_true_2|]. destruct (Hid id Ei) as (_&->&_). by apply bool_decide_eq_true_2.
Qed.

Lemma remember_started c native s (id : bytes) : (forall i, startID c = Some i -> native = i) ->
  id ∈ tn_started (remember c native s) -> id ∈ tn_started s \/ starts c id.
Proof.
  intros Hn. unfold remember, starts, startID in *. destruct (is_lifecycle c) eqn:El; cbn [andb tn_started]; [|by left].
  destruct (bool_decide (native = [])); cbn [negb]; [by left|]. rewrite elem_of_union, elem_of_singleton. intros [->|?]; [|by left].
  right. split; [done|]. unfold is_lifecycle in El. destruct (ca_Kind c); try done. case_bool_decide; [by right|]. left. f_equal. symmetry. by apply Hn.
Qed.

Lemma deliverOne_spec c m w d m' w' : deliverOne cfg ref c m w = (d, m', w') ->
  (forall r, transcriptIdentity r <> transcriptIdentity ref -> m' !! transcriptIdentity r = m !! transcriptIdentity r) /\ delivered c d m m'.
Proof.
  unfold deliverOne. destruct (resolveSession ref c m) as [[[native provider] app] m1] eqn:Er. pose proof (resolveSession_known _ _ _ _ _ _ Er) as Hkn.
  apply resolveSession_spec in Er as ((s'&->&Hu&Hs)&_&Hid&_).
  assert (Hsame : session_of ref (<[transcriptIdentity ref := s']> m) = s') by (unfold session_of; by rewrite lookup_insert_eq).
  assert (Hother : forall r, transcriptIdentity r <> transcriptIdentity ref -> <[transcriptIdentity ref := s']> m !! transcriptIdentity r = m !! transcriptIdentity r) by (intros r Hr; by rewrite lookup_insert_ne).
  unfold delivered. destruct app.
  { intros [= <- <- <-]. rewrite Hsame. split; [done|]. do 2 (split; [done|]). intros _. left. by apply Hkn. }
  destruct (tf_Dropped _) eqn:Ed.
  { intros [= <- <- <-]. rewrite Hsame. split; [done|]. do 2 (split; [done|]). intros _. right. by exists native, provider, w. }
  destruct (negb _); [intros [= <- <- <-]; by rewrite Hsame|]. destruct (CaptureObservation _ _) as [[seq|] w1]; [|intros [= <- <- <-]; by rewrite Hsame].
  intros [= <- <- <-]. assert (Hrec : session_of ref (recordAppended ref c native (<[transcriptIdentity ref := s']> m)) = remember c native s').
  { unfold session_of, recordAppended. by rewrite lookup_alter_eq, lookup_insert_eq. }
  split; [intros r Hr; unfold recordAppended; rewrite lookup_alter_ne by done; by apply Hother|]. rewrite Hrec, <-Hs, <-Hu.
  split; [unfold remember; by destruct (usageKey c)|]. split; [intros Hc; by apply Hkn in Hc|].
  split; [unfold remember; cbn; case_match; set_solver|]. split; [|intros id; apply remember_started; intros i Hi; by destruct (Hid i Hi)].
  intros id Hc. destruct (Hid id Hc) as (->&_&Hl). unfold remember. rewrite Hl. unfold startID in Hc. destruct (ca_Kind c); try done. case_bool_decide; simplify_eq/=.
  rewrite bool_decide_eq_false_2 by done. set_solver.
Qed.

(** ** Over the appended candidates [L] *)

Variables (u0 : list Z) (s0 : gset bytes) (K : gset Z).
Hypothesis K_fits : (Z.of_nat (size K) <= usageMemory)%Z.

Record seen (L : list Candidate) (m : sessions) : Prop := {
  seen_usage : tn_usage (session_of ref m) = newest usageMemory (u0 ++ usages L);
  seen_keys : forall k, k ∈ usages L -> k ∈ K;
  seen_once : NoDup (usages L) /\ NoDup (started_in L);
  seen_started : forall id, id ∈ started_in L -> id ∈ tn_started (session_of ref m);
  seen_only : forall id, id ∈ tn_started (session_of ref m) -> id ∈ s0 \/ exists c, c ∈ L /\ starts c id;
}.

Lemma usages_app a b : usages (a ++ b) = usages a ++ usages b.
Proof. apply omap_app. Qed.
Lemma started_in_app a b : started_in (a ++ b) = started_in a ++ started_in b.
Proof. apply omap_app. Qed.
Lemma usages_one c : usages [c] = match usageKey c with Some k => [k] | None => [] end.
Proof. unfold usages. cbn. by destruct (usageKey c). Qed.
Lemma started_in_one c : started_in [c] = match startID c with Some k => [k] | None => [] end.
Proof. unfold started_in. cbn. by destruct (startID c). Qed.

(** All the keys fit the memory. *)
Lemma keys_fit (l : list Z) : NoDup l -> (forall k, k ∈ l -> k ∈ K) -> zlen l <= usageMemory.
Proof.
  intros Hd Hk. etransitivity; [|exact K_fits]. unfold zlen. rewrite <-(size_list_to_set (C := gset Z) l Hd).
  apply inj_le, subseteq_size. intros k. rewrite elem_of_list_to_set. apply Hk.
Qed.

Lemma seen_appended L m m' c obs seq : (forall k, usageKey c = Some k -> k ∈ K) -> delivered c (Appended obs seq) m m' -> seen L m -> seen (L ++ [c]) m'.
Proof.
  intros Hc (Hu&Hno&Hmono&Hst&Honly) [Su Sk [Sd Sd'] Ss So]. split.
  - rewrite Hu, Su, usages_app, usages_one. destruct (usageKey c); [by rewrite newest_app, app_assoc|by rewrite app_nil_r].
  - intros k. rewrite usages_app, usages_one, elem_of_app. intros [?|Hk]; [by apply Sk|]. destruct (usageKey c); set_solver.
  - rewrite usages_app, usages_one, started_in_app, started_in_one. split.
    + destruct (usageKey c) as [k|] eqn:Ek; [|by rewrite app_nil_r]. apply NoDup_app. split; [done|]. split; [|apply NoDup_singleton].
      intros x Hx ->%list_elem_of_singleton. apply Hno. left. exists k. split; [done|]. rewrite Su. apply newest_tail; [by apply keys_fit|done].
    + destruct (startID c) as [i|] eqn:Ei; [|by rewrite app_nil_r]. apply NoDup_app. split; [done|]. split; [|apply NoDup_singleton].
      intros x Hx ->%list_elem_of_singleton. apply Hno. right. exists i. split; [done|]. by apply Ss.
  - intros id. rewrite started_in_app, started_in_one, elem_of_app. intros [?|Hi]; [by apply Hmono, Ss|]. destruct (startID c) eqn:Ei; [|by apply elem_of_nil in Hi].
    apply list_elem_of_singleton in Hi as ->. by apply Hst.
  - intros id Hi. destruct (Honly id Hi) as [Hin|Hs]; [|right; exists c; set_solver]. destruct (So id Hin) as [?|(c'&?&?)]; [by left|right; exists c'; set_solver].
Qed.

Lemma seen_same L m m' : tn_usage (session_of ref m') = tn_usage (session_of ref m) -> tn_started (session_of ref m') = tn_started (session_of ref m) -> seen L m -> seen L m'.
Proof. intros Hu Hs [? ? ? ? ?]. split; rewrite ?Hu, ?Hs; done. Qed.

(** Accounted for: appended, dropped by the policy, or its response or session was appended before. *)
Definition accounted (L : list Candidate) (c : Candidate) : Prop :=
  c ∈ L \/ dropped c \/ (exists k, usageKey c = Some k /\ k ∈ u0 ++ usages L)
  \/ (exists id, startID c = Some id /\ (id ∈ s0 \/ exists c', c' ∈ L /\ starts c' id)).

Lemma accounted_mono L more c : accounted L c -> accounted (L ++ more) c.
Proof.
  intros [?|[?|[(k&?&Hk)|(id&?&Hid)]]]; [left; set_solver|by right; left|right; right; left; exists k; rewrite usages_app; set_solver|].
  right; right; right. exists id. split; [done|]. destruct Hid as [?|(c'&?&?)]; [by left|right; exists c'; set_solver].
Qed.

Lemma known_accounted L m c : seen L m -> known c m -> accounted L c.
Proof.
  intros [Su _ _ _ So] [(k&Hk&Hin)|(id&Hi&Hin)]; right; right; [left|right].
  - exists k. split; [done|]. rewrite Su in Hin. by apply newest_elem in Hin.
  - exists id. split; [done|]. by apply So.
Qed.

Lemma DeliverCandidates_spec cs : forall L m w ok out m' w', (forall c k, c ∈ cs -> usageKey c = Some k -> k ∈ K) -> seen L m ->
  DeliverCandidates cfg ref cs m w = (ok, out, m', w') ->
  seen (L ++ sent out) m'
  /\ exists before after, cs = before ++ after /\ (ok = true <-> after = []) /\ sent out `sublist_of` before /\ Forall (accounted (L ++ sent out)) before.
Proof.
  induction cs as [|c cs IH]; intros L m w ok out m' w' Hk Hm; cbn [DeliverCandidates].
  { intros [= <- <- <- <-]. cbn. rewrite app_nil_r. split; [done|]. by exists [], []. }
  destruct (deliverOne cfg ref c m w) as [[d m1] w1] eqn:E. apply deliverOne_spec in E as [_ Hd]. destruct d as [obs seq| |].
  - destruct (DeliverCandidates cfg ref cs m1 w1) as [[[ok' out'] m2] w2] eqn:E2. intros [= <- <- <- <-].
    assert (Hm1 : seen (L ++ [c]) m1) by (eapply seen_appended; [|exact Hd|done]; intros k; apply Hk; by left).
    destruct (IH _ _ _ _ _ _ _ ltac:(intros c' k Hc'; apply Hk; by right) Hm1 E2) as (Hs&before&after&->&Hok&Hsub&Hall).
    rewrite <-app_assoc in Hs, Hall. split; [exact Hs|]. exists (c :: before), after. split; [done|]. split; [done|]. split; [by constructor|].
    constructor; [|exact Hall]. left. apply elem_of_app. right. by left.
  - intros E2. destruct Hd as (Hu&Hs&Hn). assert (Ha : accounted L c) by (destruct (Hn eq_refl); [by eapply known_accounted|by right; left]).
    destruct (IH L _ _ _ _ _ _ ltac:(intros c' k Hc'; apply Hk; by right) (seen_same _ _ _ Hu Hs Hm) E2) as (Hs'&before&after&->&Hok&Hsub&Hall).
    split; [done|]. exists (c :: before), after. split; [done|]. split; [done|]. split; [by constructor|]. constructor; [by apply accounted_mono|done].
  - intros [= <- <- <- <-]. destruct Hd as (Hu&Hs&_). cbn. rewrite app_nil_r. split; [by apply (seen_same L m)|]. exists [], (c :: cs). by repeat split.
Qed.
End daemon.

(** ** Over the sink's life *)

Section life.
Context {W : Type} `{Daemon W}.
Variable cfg : sinkConfig.

(** What the sink remembers, from its construction on. *)
Inductive reached : sessions -> Prop :=
  | reached_new : reached ∅
  | reached_deliver ref cs m w ok out m' w' : reached m -> DeliverCandidates cfg ref cs m w = (ok, out, m', w') -> reached m'
  | reached_forget device inode m : reached m -> reached (Forget device inode m).

(** The deliveries of one line of [ref]: attempts at [cs], each against the daemon as it then is, among
    the deliveries and the rotations of other transcripts. [out]: what the attempts appended. *)
Inductive deliveries (ref : TranscriptRef) (cs : list Candidate) : sessions -> list Candidate -> sessions -> Prop :=
  | no_delivery m : deliveries ref cs m [] m
  | attempt m out m1 w ok more m' w' : deliveries ref cs m out m1 -> DeliverCandidates cfg ref cs m1 w = (ok, more, m', w') ->
      deliveries ref cs m (out ++ sent more) m'
  | other_transcript m out m1 ref' cs' w ok more m' w' : deliveries ref cs m out m1 -> transcriptIdentity ref' <> transcriptIdentity ref ->
      DeliverCandidates cfg ref' cs' m1 w = (ok, more, m', w') -> deliveries ref cs m out m'
  | other_rotation m out m1 device inode : deliveries ref cs m out m1 -> (device, inode) <> transcriptIdentity ref ->
      deliveries ref cs m out (Forget device inode m1).

(** What [P] keeps of every delivery, a delivery of a line keeps. *)
Lemma DeliverCandidates_keeps (P : sessions -> Prop) ref cs :
  (forall c m w d m' w', P m -> deliverOne cfg ref c m w = (d, m', w') -> P m') ->
  forall m w ok out m' w', P m -> DeliverCandidates cfg ref cs m w = (ok, out, m', w') -> P m'.
Proof.
  intros HP. induction cs as [|c cs IH]; intros m w ok out m' w' Hm; cbn [DeliverCandidates]; [by intros [= <- <- <- <-]|].
  destruct (deliverOne cfg ref c m w) as [[d m1] w1] eqn:E. pose proof (HP _ _ _ _ _ _ Hm E) as Hm1. destruct d.
  - destruct (DeliverCandidates cfg ref cs m1 w1) as [[[ok' out'] m2] w2] eqn:E2. intros [= <- <- <- <-]. by apply (IH _ _ _ _ _ _ Hm1 E2).
  - by apply (IH _ _ _ _ _ _ Hm1).
  - by intros [= <- <- <- <-].
Qed.

Lemma reached_bounded m ref : reached m -> zlen (tn_usage (session_of ref m)) <= usageMemory.
Proof.
  intros Hm. revert ref. induction Hm as [|r cs m w ok out m' w' _ IH E|device inode m _ IH]; intros ref.
  - unfold session_of. by rewrite lookup_empty.
  - revert ref. apply (DeliverCandidates_keeps (fun m => forall ref, zlen (tn_usage (session_of ref m)) <= usageMemory) r cs) with m w ok out w'; [|done..].
    clear. intros c m w d m' w' Hm E ref. apply deliverOne_spec in E as [Hother Hd]. destruct (decide (transcriptIdentity ref = transcriptIdentity r)) as [Er|Er].
    + replace (session_of ref m') with (session_of r m') by (unfold session_of; by rewrite Er). unfold delivered in Hd. destruct d.
      * destruct Hd as (->&_). case_match; [by apply newest_bound|apply Hm].
      * destruct Hd as (->&_). apply Hm.
      * destruct Hd as (->&_). apply Hm.
    + unfold session_of. rewrite Hother by done. apply Hm.
  - unfold session_of, Forget. destruct (decide ((device, inode) = transcriptIdentity ref)) as [<-|Hn]; [by rewrite lookup_delete_eq|]. rewrite lookup_delete_ne by done. apply IH.
Qed.

Lemma session_other ref ref' cs m w ok out m' w' : transcriptIdentity ref' <> transcriptIdentity ref ->
  DeliverCandidates cfg ref' cs m w = (ok, out, m', w') -> session_of ref m' = session_of ref m.
Proof.
  intros Hr E. apply (DeliverCandidates_keeps (fun m' => session_of ref m' = session_of ref m) ref' cs) with m w ok out w'; [|done..].
  clear E. intros c m1 w1 d m1' w1' Hm E. apply deliverOne_spec in E as [Hother _]. unfold session_of in *. by rewrite Hother.
Qed.

Definition keys (cs : list Candidate) : gset Z := list_to_set (usages cs).

Lemma in_keys cs c k : c ∈ cs -> usageKey c = Some k -> k ∈ keys cs.
Proof. intros Hc Hk. unfold keys, usages. apply elem_of_list_to_set, list_elem_of_omap. by exists c. Qed.

Lemma deliveries_seen ref cs m out m' : Z.of_nat (size (keys cs)) <= usageMemory -> reached m -> deliveries ref cs m out m' ->
  seen ref (tn_usage (session_of ref m)) (tn_started (session_of ref m)) (keys cs) out m'.
Proof.
  intros Hk Hr Hd. induction Hd as [m|m out m1 w ok more m' w' _ IH E|m out m1 ref' cs' w ok more m' w' _ IH Hn E|m out m1 device inode _ IH Hn].
  - split; cbn; try done; try (split; apply NoDup_nil_2); [|by intros ? ?%elem_of_nil..|by left].
    rewrite app_nil_r. unfold newest. pose proof (reached_bounded m ref Hr). by destruct (Z.ltb_spec usageMemory (zlen (tn_usage (session_of ref m)))); [lia|].
  - by destruct (DeliverCandidates_spec cfg ref _ _ _ Hk cs out m1 w ok more m' w' (in_keys cs) (IH Hr) E).
  - apply (seen_same ref) with m1; [..|by apply IH]; by rewrite (session_other ref ref' cs' m1 w ok more m' w').
  - apply (seen_same ref) with m1; [..|by apply IH]; unfold session_of, Forget; by rewrite lookup_delete_ne.
Qed.

(** C36: over the attempts at a line of at most 32 responses, failing anywhere and any number of times, with other
    transcripts delivered and rotated away in between: a usage that names its message id is appended once, and so is a
    session's start. Appends are those the daemon acknowledged: one whose acknowledgement was lost is not counted, nor is
    a usage without a message id, which a retry appends again.
    The last attempt appends candidates in the transcript's order from its beginning, up to the first failure where there
    is one, and each candidate before that was appended by some attempt, or dropped by the policy, or its response or its
    session was appended before. *)
Theorem delivered_once ref cs m w0 out m1 ok more m' w' :
  Z.of_nat (size (keys cs)) <= usageMemory -> reached m -> deliveries ref cs m out m1 -> DeliverCandidates cfg ref cs m1 w0 = (ok, more, m', w') ->
  NoDup (usages (out ++ sent more)) /\ NoDup (started_in (out ++ sent more))
  /\ exists before after, cs = before ++ after /\ (ok = true <-> after = []) /\ sent more `sublist_of` before
     /\ Forall (accounted cfg ref (tn_usage (session_of ref m)) (tn_started (session_of ref m)) (out ++ sent more)) before.
Proof.
  intros Hk Hr Hd E.
  destruct (DeliverCandidates_spec cfg ref _ _ _ Hk cs out m1 w0 ok more m' w' (in_keys cs) (deliveries_seen ref cs m out m1 Hk Hr Hd) E) as [[_ _ [? ?] _ _] Hb]. done.
Qed.
End life.

(** ** A line delivered in two attempts *)

(** A daemon that appends or refuses as told. *)
Instance told : Daemon (list bool) := {
  CaptureObservation _ w := match w with true :: w => (Some 1, w) | _ :: w => (None, w) | [] => (None, []) end;
  sessionRun _ := None;
  now _ := demo_time;
}.
Definition demo_sink : sinkConfig := mkSinkConfig demo_policy (str "codex") (str "1") (str "1").
Definition demo_ref : TranscriptRef := mkTranscriptRef 1 7 (str "sessions/a.jsonl") (str "/r").
Definition demo_start : Candidate := cand (KindSessionLifecycle (mkSessionLifecycle (str "s1") (str "anthropic") (str "STARTUP") (str "START") [])) demo_time 1.
Definition demo_usage (id : bytes) : Candidate := cand (KindUsage (mkUsage (str "EXACT") (Some 3) (Some 4) None None (str "anthropic") [] id)) demo_time 1.
Definition demo_line : list Candidate := [demo_start; demo_usage (str "m1"); demo_usage (str "m2")].

(** The first attempt fails at the second response; the second appends it alone. *)
Definition first_attempt := DeliverCandidates demo_sink demo_ref demo_line ∅ [true; true; false].
Definition second_attempt := DeliverCandidates demo_sink demo_ref demo_line (snd (fst first_attempt)) [true; true].

Example two_attempts :
  (sent (snd (fst (fst first_attempt))), sent (snd (fst (fst second_attempt)))) = ([demo_start; demo_usage (str "m1")], [demo_usage (str "m2")])
  /\ (fst (fst (fst first_attempt)), fst (fst (fst second_attempt))) = (false, true).
Proof. split; vm_compute; reflexivity. Qed.

Lemma first_attempt_eq : DeliverCandidates demo_sink demo_ref demo_line ∅ [true; true; false]
  = (first_attempt.1.1.1, first_attempt.1.1.2, first_attempt.1.2, first_attempt.2).
Proof. unfold first_attempt. by destruct (DeliverCandidates _ _ _ _ _) as [[[? ?] ?] ?]. Qed.
Lemma second_attempt_eq : DeliverCandidates demo_sink demo_ref demo_line first_attempt.1.2 [true; true]
  = (second_attempt.1.1.1, second_attempt.1.1.2, second_attempt.1.2, second_attempt.2).
Proof. unfold second_attempt. by destruct (DeliverCandidates _ _ _ _ _) as [[[? ?] ?] ?]. Qed.

Lemma delivered_once_witness : NoDup (usages (([] ++ sent first_attempt.1.1.2) ++ sent second_attempt.1.1.2)).
Proof.
  refine (proj1 (delivered_once demo_sink demo_ref demo_line ∅ _ _ _ _ _ _ _ _ (reached_new _)
    (attempt demo_sink demo_ref demo_line ∅ [] ∅ _ _ _ _ _ (no_delivery _ _ _ ∅) first_attempt_eq) second_attempt_eq)).
  vm_compute. discriminate.
Defined.
