(* ===== verification/RootState.v ===== *)
(** * The seal of a consented root ([adapter/codex/root_policy.go])

    A root's control record: the floor each identity was sealed at, and for each locator the floor sealed
    over whatever occupied it, its fence. The control file is a content that decodes to a record; writing
    it fails, replaces it, or replaces it and fails. A loop over a Go map is a fold over its keys: every turn touches its own key. *)

From S2P Require Import Prelude GoStrings Hash Json JsonText GoNet GoPath GoJson StrictDecode RootPolicy.

Definition rootPolicyControlVersion : Z := 2.
Definition rootPolicyControlMinVersion : Z := 1.
Definition floorFingerprintLen : Z := 64.
Definition maxSealLineages : Z := 65536.
Definition absenceEvictionPolls : Z := 2.

(** ** Data *)

Record baselineRecord : Type := mkBaseline { bl_Floor : Z; bl_FingerprintHash : Z; bl_FingerprintLen : Z }.

Definition hasFingerprint (b : baselineRecord) : bool := 0 <? bl_FingerprintLen b.

Definition BaselineType : gotype :=
  TStruct [(str "Floor", str "floor", TInt 64); (str "FingerprintHash", str "fingerprint_hash", TUint 64); (str "FingerprintLen", str "fingerprint_len", TInt 64)].

(** [UnmarshalJSON] into [b]; [None]: an error. *)
Definition UnmarshalJSON (data : bytes) (b : baselineRecord) : option baselineRecord :=
  match data with
  | x7b :: _ =>
      (fun v => mkBaseline (as_int (get BaselineType "Floor" v)) (as_int (get BaselineType "FingerprintHash" v)) (as_int (get BaselineType "FingerprintLen" v)))
      <$> Unmarshal data BaselineType
  | _ =>
      (fun v => match v with GPtr f => mkBaseline (as_int f) (bl_FingerprintHash b) (bl_FingerprintLen b) | _ => b end)
      <$> Unmarshal data (TPtr (TInt 64))
  end.

Record sealLineage : Type := mkLineage {
  ln_Floor : Z;
  ln_FingerprintHash : Z;
  ln_FingerprintLen : Z;
  ln_Generation : Z;
  ln_Device : Z;
  ln_Inode : Z;
  ln_Orphaned : bool;
}.

#[export] Instance sealLineage_eq_dec : EqDecision sealLineage.
Proof. solve_decision. Defined.

(** [sealLineage.baseline]. *)
Definition lineage_baseline (l : sealLineage) : baselineRecord := mkBaseline (ln_Floor l) (ln_FingerprintHash l) (ln_FingerprintLen l).

Record rootPolicyControl : Type := mkControl {
  rc_Version : Z;
  rc_Root : bytes;
  rc_Generation : Z;
  rc_Active : bool;
  rc_Mode : bytes;
  rc_Committed : bool;
  rc_Baselines : gmap bytes baselineRecord;
  rc_Lineages : gmap bytes sealLineage;
}.

(** The control file on disk; [ControlUnreadable] is undecodable too. *)
Inductive controlFile : Type := ControlAbsent | ControlUnreadable | ControlHolds (c : rootPolicyControl).

Record rootPolicyState : Type := mkRootState {
  rs_record : ConsentRecord;
  rs_control : rootPolicyControl;
  rs_dirty : bool;
  rs_absentLineagePolls : gmap bytes Z;
  rs_absentBaselinePolls : gmap bytes Z;
  rs_file : controlFile;
}.

(** ** Field updates *)

Definition with_control (c : rootPolicyControl) (dirty : bool) (s : rootPolicyState) : rootPolicyState :=
  mkRootState (rs_record s) c dirty (rs_absentLineagePolls s) (rs_absentBaselinePolls s) (rs_file s).
Definition with_baselines (b : gmap bytes baselineRecord) (s : rootPolicyState) : rootPolicyState :=
  let c := rs_control s in
  with_control (mkControl (rc_Version c) (rc_Root c) (rc_Generation c) (rc_Active c) (rc_Mode c) (rc_Committed c) b (rc_Lineages c)) (rs_dirty s) s.
Definition with_lineages (l : gmap bytes sealLineage) (s : rootPolicyState) : rootPolicyState :=
  let c := rs_control s in
  with_control (mkControl (rc_Version c) (rc_Root c) (rc_Generation c) (rc_Active c) (rc_Mode c) (rc_Committed c) (rc_Baselines c) l) (rs_dirty s) s.
Definition set_dirty (s : rootPolicyState) : rootPolicyState := with_control (rs_control s) true s.
Definition with_lineage_polls (p : gmap bytes Z) (s : rootPolicyState) : rootPolicyState :=
  mkRootState (rs_record s) (rs_control s) (rs_dirty s) p (rs_absentBaselinePolls s) (rs_file s).
Definition with_baseline_polls (p : gmap bytes Z) (s : rootPolicyState) : rootPolicyState :=
  mkRootState (rs_record s) (rs_control s) (rs_dirty s) (rs_absentLineagePolls s) p (rs_file s).
Definition set_committed (s : rootPolicyState) : rootPolicyState :=
  let c := rs_control s in
  with_control (mkControl (rc_Version c) (rc_Root c) (rc_Generation c) (rc_Active c) (rc_Mode c) true (rc_Baselines c) (rc_Lineages c)) (rs_dirty s) s.

(** ** Identities *)

Fixpoint hex_bytes (l : bytes) : bytes :=
  match l with [] => [] | b :: r => hex_digit (bZ b / 16) :: hex_digit (bZ b mod 16) :: hex_bytes r end.
Definition rootPolicyID (root : bytes) : bytes := hex_bytes (take 16 (sha256 root)).
Definition policy_scope (r : ConsentRecord) : bytes := rootPolicyID (r_Path r) ++ str "-g" ++ FormatInt (r_Generation r).

Definition identityString (dev ino : Z) : bytes := FormatInt dev ++ [x3a] ++ FormatInt ino.
Definition parseIdentityString (s : bytes) : option (Z * Z) :=
  match cut x3a s with
  | (_, None) => None
  | (d, Some i) => dev ← ParseUint d; ino ← ParseUint i; Some (dev, ino)
  end.

(** ** The control file *)

(** How [atomicWriteCursorFile] ends: done; with an error after its rename, the file replaced; or with one before it. *)
Inductive writeResult : Type := WriteDone | WriteReplaced | WriteFailed.

Definition with_file (dirty : bool) (s : rootPolicyState) : rootPolicyState :=
  mkRootState (rs_record s) (rs_control s) dirty (rs_absentLineagePolls s) (rs_absentBaselinePolls s) (ControlHolds (rs_control s)).

(** The state, and whether the write succeeded. *)
Definition persistControl (res : writeResult) (s : rootPolicyState) : rootPolicyState * bool :=
  match res with
  | WriteDone => (with_file false s, true)
  | WriteReplaced => (with_file (rs_dirty s) s, false)
  | WriteFailed => (s, false)
  end.

Definition new_control (r : ConsentRecord) : rootPolicyControl :=
  mkControl rootPolicyControlVersion (r_Path r) (r_Generation r) (r_Active r) (r_Mode r) false ∅ ∅.
Definition as_version (version : Z) (c : rootPolicyControl) : rootPolicyControl :=
  mkControl version (rc_Root c) (rc_Generation c) (rc_Active c) (rc_Mode c) (rc_Committed c) (rc_Baselines c) (rc_Lineages c).

(** Why a root is refused. *)
Inductive root_refusal : Type := RefusedRead | RefusedWrite | RefusedControl | RefusedStale | RefusedNonIdempotent.

Definition newRootPolicyState (file : controlFile) (r : ConsentRecord) (res : writeResult) : result root_refusal rootPolicyState :=
  let started := let '(s, wrote) := persistControl res (mkRootState r (new_control r) false ∅ ∅ file) in if wrote then Ok s else Err RefusedWrite in
  match file with
  | ControlUnreadable => Err RefusedRead
  | ControlAbsent => started
  | ControlHolds c =>
      if (rc_Version c <? rootPolicyControlMinVersion) || (rootPolicyControlVersion <? rc_Version c)
         || negb (bool_decide (rc_Root c = r_Path r)) || (rc_Generation c =? 0)
      then Err RefusedControl
      else
        let upgrade := rc_Version c <? rootPolicyControlVersion in
        let s := mkRootState r (if upgrade then as_version rootPolicyControlVersion c else c) upgrade ∅ ∅ file in
        if r_Generation r <? rc_Generation c then Err RefusedStale
        else if r_Generation r =? rc_Generation c then
          if negb (bool_decide (r_Active r = rc_Active c)) || negb (bool_decide (r_Mode r = rc_Mode c)) then Err RefusedNonIdempotent
          else Ok s
        else
          let '(s, wrote) := persistControl res (with_control (new_control r) upgrade s) in if wrote then Ok s else Err RefusedWrite
  end.

(** ** Floors and fences *)

Definition baseline (dev ino : Z) (s : rootPolicyState) : option baselineRecord :=
  if negb (rc_Committed (rs_control s)) || negb (bool_decide (r_Mode (rs_record s) = ForwardOnly)) then None
  else rc_Baselines (rs_control s) !! identityString dev ino.

Definition live (c : rootPolicyControl) (l : sealLineage) : bool := (ln_Generation l =? rc_Generation c) && (0 <? ln_Floor l).

Definition liveFence (locator : bytes) (s : rootPolicyState) : option sealLineage :=
  match rc_Lineages (rs_control s) !! locator with
  | Some l => if live (rs_control s) l then Some l else None
  | None => None
  end.

(** The entry that must stand at the locator, if any. *)
Definition reconcileLineage (locator : bytes) (dev ino : Z) (b : baselineRecord) (s : rootPolicyState) : option sealLineage :=
  let generation := rc_Generation (rs_control s) in
  let honest :=
    if bl_Floor b <=? 0 then None
    else Some (mkLineage (bl_Floor b) (bl_FingerprintHash b) (bl_FingerprintLen b) generation dev ino false) in
  match liveFence locator s with
  | Some cur =>
      if ln_Orphaned cur || negb (ln_Device cur =? dev) || negb (ln_Inode cur =? ino) then
        if bl_Floor b <=? ln_Floor cur then Some cur
        else Some (mkLineage (bl_Floor b) (bl_FingerprintHash b) (bl_FingerprintLen b) generation (ln_Device cur) (ln_Inode cur) (ln_Orphaned cur))
      else honest
  | None => honest
  end.

Definition setLineage (locator : bytes) (dev ino : Z) (b : baselineRecord) (s : rootPolicyState) : rootPolicyState :=
  if bool_decide (locator = []) then s
  else
    let lineages := rc_Lineages (rs_control s) in
    match reconcileLineage locator dev ino b s with
    | None => with_lineages (delete locator lineages) s
    | Some next =>
        if negb (bool_decide (is_Some (lineages !! locator))) && (maxSealLineages <=? Z.of_nat (size lineages)) then s
        else with_lineages (<[locator := next]> lineages) s
    end.

Definition setBaseline (locator : bytes) (dev ino : Z) (b : baselineRecord) (s : rootPolicyState) : rootPolicyState :=
  set_dirty (setLineage locator dev ino b (with_baselines (<[identityString dev ino := b]> (rc_Baselines (rs_control s))) s)).

Definition dropBaseline (dev ino : Z) (s : rootPolicyState) : rootPolicyState :=
  set_dirty (with_baselines (delete (identityString dev ino) (rc_Baselines (rs_control s))) s).

Definition orphaned (l : sealLineage) : sealLineage :=
  mkLineage (ln_Floor l) (ln_FingerprintHash l) (ln_FingerprintLen l) (ln_Generation l) (ln_Device l) (ln_Inode l) true.

(** One turn of [orphanLineagesNaming]. *)
Definition orphan_one (dev ino : Z) (s : rootPolicyState) (locator : bytes) : rootPolicyState :=
  match liveFence locator s with
  | Some l =>
      if ln_Orphaned l || negb (ln_Device l =? dev) || negb (ln_Inode l =? ino) then s
      else set_dirty (with_lineages (<[locator := orphaned l]> (rc_Lineages (rs_control s))) s)
  | None => s
  end.
Definition orphanLineagesNaming (dev ino : Z) (s : rootPolicyState) : rootPolicyState :=
  fold_left (orphan_one dev ino) (elements (dom (rc_Lineages (rs_control s)))) s.

Definition holdLineage (locator : bytes) (dev ino : Z) (s : rootPolicyState) : rootPolicyState :=
  if bool_decide (locator = []) then s
  else match baseline dev ino s with
       | None => s
       | Some base =>
           if bl_Floor base <=? 0 then s
           else match reconcileLineage locator dev ino base s with
                | None => s
                | Some l =>
                    if bool_decide (rc_Lineages (rs_control s) !! locator = Some l) then s
                    else set_dirty (with_lineages (<[locator := l]> (rc_Lineages (rs_control s))) s)
                end
       end.

Definition lineage (locator : bytes) (s : rootPolicyState) : option sealLineage :=
  if negb (rc_Committed (rs_control s)) || negb (bool_decide (r_Mode (rs_record s) = ForwardOnly)) || bool_decide (locator = []) then None
  else liveFence locator s.

(** ** Retirement *)

(** One turn of the first loop. *)
Definition retire_one (seen : gset bytes) (s : rootPolicyState) (locator : bytes) : rootPolicyState :=
  let polls := rs_absentLineagePolls s in
  if bool_decide (locator ∈ seen) then with_lineage_polls (delete locator polls) s
  else
    let n := default 0 (polls !! locator) + 1 in
    if n <? absenceEvictionPolls then with_lineage_polls (<[locator := n]> polls) s
    else set_dirty (with_lineages (delete locator (rc_Lineages (rs_control s))) (with_lineage_polls (delete locator polls) s)).
Definition retireAbsentLineages (seen : gset bytes) (s : rootPolicyState) : rootPolicyState :=
  let s := fold_left (retire_one seen) (elements (dom (rc_Lineages (rs_control s)))) s in
  with_lineage_polls (filter (fun p => is_Some (rc_Lineages (rs_control s) !! p.1)) (rs_absentLineagePolls s)) s.

Definition forgetLineageAbsence (s : rootPolicyState) : rootPolicyState := with_lineage_polls ∅ s.

(** One turn of the first loop; the identities evicted so far. *)
Definition evict_one (occupied : gset bytes) (se : rootPolicyState * list (Z * Z)) (id : bytes) : rootPolicyState * list (Z * Z) :=
  let '(s, evicted) := se in
  let polls := rs_absentBaselinePolls s in
  if bool_decide (id ∈ occupied) then (with_baseline_polls (delete id polls) s, evicted)
  else
    let n := default 0 (polls !! id) + 1 in
    if n <? absenceEvictionPolls then (with_baseline_polls (<[id := n]> polls) s, evicted)
    else match parseIdentityString id with
         | None => (with_baseline_polls (delete id polls) s, evicted)
         | Some (dev, ino) => (with_baseline_polls (delete id polls) (dropBaseline dev ino (orphanLineagesNaming dev ino s)), evicted ++ [(dev, ino)])
         end.
Definition retireAbsentActivationBaselines (occupied : gset bytes) (s : rootPolicyState) : rootPolicyState * list (Z * Z) :=
  let '(s, evicted) := fold_left (evict_one occupied) (elements (dom (rc_Baselines (rs_control s)))) (s, []) in
  (with_baseline_polls (filter (fun p => is_Some (rc_Baselines (rs_control s) !! p.1)) (rs_absentBaselinePolls s)) s, evicted).

Definition forgetBaselineAbsence (s : rootPolicyState) : rootPolicyState := with_baseline_polls ∅ s.

Example both_forms : map (fun d => UnmarshalJSON d (mkBaseline 1 2 3)) [js "{'floor':9,'fingerprint_len':64}"; js "12"; js "null"; js "'x'"]
  = [Some (mkBaseline 9 0 64); Some (mkBaseline 12 2 3); Some (mkBaseline 1 2 3); None].
Proof. vm_compute. reflexivity. Qed.

(** ** Identities are told apart *)

Lemma parse_identity dev ino : 0 <= dev < 2 ^ 64 -> 0 <= ino < 2 ^ 64 -> parseIdentityString (identityString dev ino) = Some (dev, ino).
Proof.
  intros Hd Hi. unfold parseIdentityString, identityString. cbn [app]. rewrite cut_app; [by rewrite !ParseUint_FormatInt|].
  intros Hin. destruct (format_nat_head 20 dev) as (b&r&E&Hb&_&Hall); [lia..|]. unfold FormatInt in Hin. destruct (Z.ltb_spec dev 0); [lia|]. rewrite E in Hin.
  rewrite forallb_forall in Hall. apply list_elem_of_In in Hin. specialize (Hall _ Hin). done.
Qed.
