(* ===== verification/SealFacts.v ===== *)
(** * What the seal promises ([RootState])

    A standing fence is lowered by nothing but a write of the very identity it names, and falls only
    after consecutive walks found its locator empty. *)

From S2P Require Import Prelude GoStrings Json JsonText GoNet GoPath GoJson StrictDecode RootPolicy RootState.

(** ** Loops whose turns touch their own key *)

Section own.
Context {S K V : Type} (f : S -> K -> S) (get : S -> V) (k : K).
Hypothesis own : forall s k', k' <> k -> get (f s k') = get s.

Lemma fold_other l s : k ∉ l -> get (fold_left f l s) = get s.
Proof.
  revert s. induction l as [|x l IH]; intros s Hk; [done|]. cbn [fold_left]. apply not_elem_of_cons in Hk as [Hx Hk]. rewrite IH by done. by apply own.
Qed.

Lemma fold_own l s : NoDup l -> k ∈ l -> exists t, get t = get s /\ get (fold_left f l s) = get (f t k).
Proof.
  revert s. induction l as [|x l IH]; intros s Hd Hk; [by apply elem_of_nil in Hk|]. apply NoDup_cons in Hd as [Hx Hd]. cbn [fold_left].
  apply elem_of_cons in Hk as [<-|Hk].
  - exists s. split; [done|]. by apply fold_other.
  - destruct (IH (f s x) Hd Hk) as (t&Ht&He). exists t. split; [|done]. rewrite Ht. apply own. by intros ->.
Qed.

Lemma fold_keeps (P : S -> Prop) l s : (forall s k, P s -> P (f s k)) -> P s -> P (fold_left f l s).
Proof. intros HP. revert s. induction l as [|x l IH]; intros s Hs; [done|]. apply IH. by apply HP. Qed.
End own.

(** ** Operations *)

Inductive operation : Type :=
  | OpSet (locator : bytes) (dev ino : Z) (b : baselineRecord)
  | OpDrop (dev ino : Z)
  | OpOrphan (dev ino : Z)
  | OpHold (locator : bytes) (dev ino : Z)
  | OpRetire (seen : gset bytes)
  | OpForget
  | OpRetireBaselines (occupied : gset bytes)
  | OpForgetBaselines
  | OpCommit
  | OpPersist (res : writeResult).

Definition perform (s : rootPolicyState) (o : operation) : rootPolicyState :=
  match o with
  | OpSet locator dev ino b => setBaseline locator dev ino b s
  | OpDrop dev ino => dropBaseline dev ino s
  | OpOrphan dev ino => orphanLineagesNaming dev ino s
  | OpHold locator dev ino => holdLineage locator dev ino s
  | OpRetire seen => retireAbsentLineages seen s
  | OpForget => forgetLineageAbsence s
  | OpRetireBaselines occupied => (retireAbsentActivationBaselines occupied s).1
  | OpForgetBaselines => forgetBaselineAbsence s
  | OpCommit => set_committed s
  | OpPersist res => (persistControl res s).1
  end.

(** What a fence's fate depends on: the generation, the entry of its locator and the walks that found it empty. *)
Definition at_locator (locator : bytes) (s : rootPolicyState) : Z * option sealLineage * option Z :=
  (rc_Generation (rs_control s), rc_Lineages (rs_control s) !! locator, rs_absentLineagePolls s !! locator).

Lemma setLineage_other locator locator' dev ino b s : locator' <> locator -> at_locator locator (setLineage locator' dev ino b s) = at_locator locator s.
Proof.
  intros Hn. unfold setLineage, at_locator. case_bool_decide; [done|]. destruct (reconcileLineage _ _ _ _ _).
  - destruct (_ && _); [done|]. cbn. by rewrite lookup_insert_ne.
  - cbn. by rewrite lookup_delete_ne.
Qed.

Lemma retire_one_other seen locator locator' s : locator' <> locator -> at_locator locator (retire_one seen s locator') = at_locator locator s.
Proof.
  intros Hn. unfold retire_one, at_locator. case_bool_decide; cbn; [by rewrite lookup_delete_ne|]. destruct (_ <? _); cbn; [by rewrite lookup_insert_ne|]. by rewrite !lookup_delete_ne.
Qed.

Lemma retire_one_own seen locator s : at_locator locator (retire_one seen s locator) =
  (rc_Generation (rs_control s),
   if bool_decide (locator ∈ seen) || (default 0 (rs_absentLineagePolls s !! locator) + 1 <? absenceEvictionPolls) then rc_Lineages (rs_control s) !! locator else None,
   if bool_decide (locator ∈ seen) then None
   else if default 0 (rs_absentLineagePolls s !! locator) + 1 <? absenceEvictionPolls then Some (default 0 (rs_absentLineagePolls s !! locator) + 1) else None).
Proof.
  unfold retire_one, at_locator. case_bool_decide; cbn; [by rewrite lookup_delete_eq|]. destruct (_ <? _); cbn; [by rewrite lookup_insert_eq|]. by rewrite !lookup_delete_eq.
Qed.

(** One walk, where there is an entry. *)
Lemma retire_spec seen locator s : is_Some (rc_Lineages (rs_control s) !! locator) ->
  let n := default 0 (rs_absentLineagePolls s !! locator) + 1 in
  at_locator locator (retireAbsentLineages seen s) =
    if bool_decide (locator ∈ seen) then (rc_Generation (rs_control s), rc_Lineages (rs_control s) !! locator, None)
    else if n <? absenceEvictionPolls then (rc_Generation (rs_control s), rc_Lineages (rs_control s) !! locator, Some n)
    else (rc_Generation (rs_control s), None, None).
Proof.
  intros Hs n. unfold retireAbsentLineages. set (t := fold_left _ _ s).
  destruct (fold_own (retire_one seen) (at_locator locator) locator (fun s k' Hn => retire_one_other seen locator k' s Hn) (elements (dom (rc_Lineages (rs_control s)))) s) as (s1&H1&Ht);
    [apply NoDup_elements|by apply elem_of_elements, elem_of_dom|]. fold t in Ht. rewrite retire_one_own in Ht. unfold at_locator in *. injection H1 as Hg Hl Hp. rewrite Hg, Hl, Hp in Ht. fold n in Ht.
  injection Ht as Hg' Hl' Hp'. cbn. rewrite Hg', Hl', map_lookup_filter, Hp'. destruct Hs as [l Hs]. rewrite Hs.
  case_bool_decide; cbn [orb]; [done|]. destruct (n <? absenceEvictionPolls); cbn; [|done]. by rewrite option_guard_True by (cbn; rewrite Hl', Hs; done).
Qed.

(** ** A standing fence *)

Section fence.
Variables (locator : bytes) (floor dev ino : Z).

(** The fence names the identity and its floor is at least this; [orphan]: it names nobody any more. *)
Definition stands (orphan : bool) (s : rootPolicyState) : Prop :=
  exists l, liveFence locator s = Some l /\ floor <= ln_Floor l /\ ln_Device l = dev /\ ln_Inode l = ino /\ (orphan = true -> ln_Orphaned l = true).

(** A write of the fence's own identity, at its locator, of a lower floor. *)
Definition lowers (s : rootPolicyState) (o : operation) : bool :=
  let own loc d i := bool_decide (loc = locator) && (d =? dev) && (i =? ino) in
  match o with
  | OpSet loc d i b => own loc d i && (bl_Floor b <? floor)
  | OpHold loc d i => own loc d i && match baseline dev ino s with Some b => bl_Floor b <? floor | None => false end
  | _ => false
  end.

Lemma stands_same orphan s t : rc_Generation (rs_control t) = rc_Generation (rs_control s) -> rc_Lineages (rs_control t) !! locator = rc_Lineages (rs_control s) !! locator ->
  stands orphan s -> stands orphan t.
Proof. intros Hg Hl (l&He&Hr). exists l. split; [|done]. unfold liveFence, live in *. by rewrite Hl, Hg. Qed.

Lemma stands_entry orphan s t l : 0 < floor -> rc_Generation (rs_control t) = rc_Generation (rs_control s) -> rc_Lineages (rs_control t) !! locator = Some l ->
  ln_Generation l = rc_Generation (rs_control s) -> floor <= ln_Floor l -> ln_Device l = dev -> ln_Inode l = ino -> (orphan = true -> ln_Orphaned l = true) -> stands orphan t.
Proof.
  intros H0 Hg Hl He Hf Hd Hi Ho. exists l. split; [|done]. unfold liveFence, live. rewrite Hl, Hg, He, Z.eqb_refl. cbn. by rewrite (proj2 (Z.ltb_lt _ _)) by lia.
Qed.

(** What the choke point lets a write leave at the locator. *)
Lemma reconcile_stands orphan d i b s : 0 < floor -> stands orphan s -> (orphan = false -> d = dev -> i = ino -> floor <= bl_Floor b) ->
  exists l, reconcileLineage locator d i b s = Some l /\ ln_Generation l = rc_Generation (rs_control s)
    /\ floor <= ln_Floor l /\ ln_Device l = dev /\ ln_Inode l = ino /\ (orphan = true -> ln_Orphaned l = true).
Proof.
  intros H0 (l&He&Hf&Hd&Hi&Ho) Hw. unfold reconcileLineage. rewrite He.
  assert (Hg : ln_Generation l = rc_Generation (rs_control s)).
  { unfold liveFence in He. destruct (_ !! locator) as [l'|]; [|done]. destruct (live _ l') eqn:El; [|done]. injection He as <-. unfold live in El. apply andb_prop in El as [El _]. lia. }
  destruct (ln_Orphaned l || negb (ln_Device l =? d) || negb (ln_Inode l =? i)) eqn:Ef.
  - destruct (Z.leb_spec (bl_Floor b) (ln_Floor l)); [by exists l|]. eexists. split; [reflexivity|]. cbn. repeat split; try done. lia.
  - apply orb_false_iff in Ef as [[Eo Ed]%orb_false_iff Ei]. apply negb_false_iff in Ed, Ei. assert (orphan = false) as -> by (destruct orphan; [by rewrite Ho in Eo|done]).
    specialize (Hw eq_refl ltac:(lia) ltac:(lia)). destruct (Z.leb_spec (bl_Floor b) 0); [lia|]. eexists. split; [reflexivity|]. cbn. repeat split; try done; lia.
Qed.

Lemma setLineage_stands orphan loc d i b s : 0 < floor -> stands orphan s -> (orphan = false -> lowers s (OpSet loc d i b) = false) -> stands orphan (setLineage loc d i b s).
Proof.
  intros H0 Hs Hw. destruct (decide (loc = locator)) as [->|Hn].
  - destruct (reconcile_stands orphan d i b s H0 Hs) as (l&Hl&Hg&Hf&Hd&Hi&Ho).
    { intros -> -> ->. specialize (Hw eq_refl). cbn in Hw. rewrite bool_decide_eq_true_2, !Z.eqb_refl in Hw by done. cbn in Hw. lia. }
    unfold setLineage. case_bool_decide; [done|]. rewrite Hl. destruct Hs as (l0&He&_). unfold liveFence in He. destruct (rc_Lineages (rs_control s) !! locator) eqn:E; [|done].
    rewrite bool_decide_eq_true_2 by done. cbn [negb andb]. apply (stands_entry orphan s _ l); try done. cbn. by rewrite lookup_insert_eq.
  - pose proof (setLineage_other locator loc d i b s Hn) as He. unfold at_locator in He. injection He as Hg Hl _. by apply (stands_same orphan s).
Qed.

Lemma holdLineage_stands orphan loc d i s : 0 < floor -> stands orphan s -> (orphan = false -> lowers s (OpHold loc d i) = false) -> stands orphan (holdLineage loc d i s).
Proof.
  intros H0 Hs Hw. unfold holdLineage. case_bool_decide; [done|]. destruct (baseline d i s) as [b|] eqn:Eb; [|done]. destruct (_ <=? 0); [done|].
  destruct (decide (loc = locator)) as [->|Hn].
  - destruct (reconcile_stands orphan d i b s H0 Hs) as (l&Hl&Hg&Hf&Hd&Hi&Ho).
    { intros -> -> ->. specialize (Hw eq_refl). cbn in Hw. rewrite bool_decide_eq_true_2, !Z.eqb_refl, Eb in Hw by done. cbn in Hw. lia. }
    rewrite Hl. case_bool_decide; [done|]. apply (stands_entry orphan s _ l); try done. cbn. by rewrite lookup_insert_eq.
  - destruct (reconcileLineage _ _ _ _ _); [|done]. case_bool_decide; [done|]. apply (stands_same orphan s); [done|cbn; by rewrite lookup_insert_ne|done].
Qed.

Lemma orphan_stands orphan d i s : 0 < floor -> stands orphan s -> stands orphan (orphanLineagesNaming d i s).
Proof.
  intros H0 Hs. unfold orphanLineagesNaming. apply fold_keeps; [|done]. clear s Hs. intros s loc Hs. unfold orphan_one. destruct (liveFence loc s) as [l|] eqn:El; [|done].
  destruct (_ || _); [done|]. destruct (decide (loc = locator)) as [->|Hn]; [|apply (stands_same orphan s); [done|cbn; by rewrite lookup_insert_ne|done]].
  destruct Hs as (l0&He&Hf&Hd&Hi&Ho). rewrite El in He. injection He as <-. apply (stands_entry orphan s _ (orphaned l)); try done; [cbn; by rewrite lookup_insert_eq|].
  unfold liveFence in El. destruct (_ !! locator) as [l'|]; [|done]. destruct (live _ l') eqn:E; [|done]. injection El as <-. unfold live in E. apply andb_prop in E as [E _]. cbn. lia.
Qed.

Lemma evict_stands orphan occupied s : 0 < floor -> stands orphan s -> stands orphan (retireAbsentActivationBaselines occupied s).1.
Proof.
  intros H0 Hs. unfold retireAbsentActivationBaselines. set (l := elements _).
  assert (Hl : stands orphan (fold_left (evict_one occupied) l (s, [])).1).
  { apply (fold_keeps (evict_one occupied) (fun se => stands orphan se.1)); [|done]. clear -H0. intros [s e] id Hs. unfold evict_one. cbn [fst] in *. case_bool_decide; [by apply (stands_same orphan s)|].
    destruct (_ <? _); [by apply (stands_same orphan s)|]. destruct (parseIdentityString id) as [[d i]|]; [|by apply (stands_same orphan s)].
    cbn [fst]. by apply (stands_same orphan (orphanLineagesNaming d i s)), orphan_stands. }
  destruct (fold_left _ _ _) as [t e]. cbn [fst] in *. by apply (stands_same orphan t).
Qed.
End fence.

(** ** Walks *)

(** The consecutive walks that find the locator empty stay below the eviction count, [n] of them counted so far. *)
Fixpoint spared (locator : bytes) (n : Z) (ops : list operation) : Prop :=
  match ops with
  | [] => True
  | OpRetire seen :: l => if bool_decide (locator ∈ seen) then spared locator 0 l else n + 1 < absenceEvictionPolls /\ spared locator (n + 1) l
  | OpForget :: l => spared locator 0 l
  | _ :: l => spared locator n l
  end.

(** No operation lowers the fence, each seen from the state it meets. *)
Fixpoint none_lowers (locator : bytes) (floor dev ino : Z) (s : rootPolicyState) (ops : list operation) : Prop :=
  match ops with
  | [] => True
  | o :: l => lowers locator floor dev ino s o = false /\ none_lowers locator floor dev ino (perform s o) l
  end.

Definition polls (locator : bytes) (s : rootPolicyState) : Z := default 0 (rs_absentLineagePolls s !! locator).

(** What counts walks. *)
Definition is_walk (o : operation) : bool := match o with OpRetire _ | OpForget => true | _ => false end.

Lemma setLineage_polls loc d i b s : rs_absentLineagePolls (setLineage loc d i b s) = rs_absentLineagePolls s.
Proof. unfold setLineage. case_bool_decide; [done|]. destruct (reconcileLineage _ _ _ _ _); [|done]. by destruct (_ && _). Qed.

Lemma orphan_polls d i s : rs_absentLineagePolls (orphanLineagesNaming d i s) = rs_absentLineagePolls s.
Proof.
  unfold orphanLineagesNaming. apply (fold_keeps (orphan_one d i) (fun t => rs_absentLineagePolls t = rs_absentLineagePolls s)); [|done].
  intros t loc Ht. unfold orphan_one. destruct (liveFence loc t); [|done]. by destruct (_ || _).
Qed.

Lemma evict_polls occupied s : rs_absentLineagePolls (retireAbsentActivationBaselines occupied s).1 = rs_absentLineagePolls s.
Proof.
  unfold retireAbsentActivationBaselines. set (l := elements _).
  assert (Hl : rs_absentLineagePolls (fold_left (evict_one occupied) l (s, [])).1 = rs_absentLineagePolls s).
  { apply (fold_keeps (evict_one occupied) (fun se => rs_absentLineagePolls se.1 = rs_absentLineagePolls s)); [|done]. clear. intros [t e] id Ht. unfold evict_one. cbn [fst] in *. case_bool_decide; [done|].
    destruct (_ <? _); [done|]. destruct (parseIdentityString id) as [[d i]|]; [|done]. cbn. by rewrite orphan_polls. }
  by destruct (fold_left _ _ _) as [t e].
Qed.

Lemma perform_polls s o : is_walk o = false -> rs_absentLineagePolls (perform s o) = rs_absentLineagePolls s.
Proof.
  destruct o; intros Hw; try done; cbn [perform].
  - unfold setBaseline. cbn. by rewrite setLineage_polls.
  - apply orphan_polls.
  - unfold holdLineage. case_bool_decide; [done|]. destruct (baseline _ _ s); [|done]. destruct (_ <=? 0); [done|]. destruct (reconcileLineage _ _ _ _ _); [|done]. by case_bool_decide.
  - apply evict_polls.
  - by destruct res.
Qed.

Lemma retire_stands locator floor dev ino orphan seen s : stands locator floor dev ino orphan s -> locator ∈ seen \/ polls locator s + 1 < absenceEvictionPolls ->
  stands locator floor dev ino orphan (retireAbsentLineages seen s) /\ polls locator (retireAbsentLineages seen s) = (if bool_decide (locator ∈ seen) then 0 else polls locator s + 1).
Proof.
  intros Hs Hw. assert (Hin : is_Some (rc_Lineages (rs_control s) !! locator)) by (destruct Hs as (l&He&_); unfold liveFence in He; by destruct (_ !! locator)).
  pose proof (retire_spec seen locator s Hin) as Hr. cbv zeta in Hr. fold (polls locator s) in Hr. unfold at_locator in Hr. set (t := retireAbsentLineages seen s) in *.
  change (polls locator t) with (default 0 (rs_absentLineagePolls t !! locator)). clearbody t. case_bool_decide; [|destruct Hw as [|Hw]; [done|]; rewrite (proj2 (Z.ltb_lt _ _) Hw) in Hr]; injection Hr as Hg Hl Hp; (split; [by apply (stands_same _ _ _ _ orphan s)|by rewrite Hp]).
Qed.

Lemma perform_stands locator floor dev ino orphan s o : 0 < floor -> stands locator floor dev ino orphan s -> (orphan = false -> lowers locator floor dev ino s o = false) ->
  (is_walk o = false -> stands locator floor dev ino orphan (perform s o)).
Proof.
  intros H0 Hs Hw Ho. destruct o; try done; cbn [perform].
  - unfold setBaseline. set (t := with_baselines _ s). eapply (stands_same _ _ _ _ orphan (setLineage _ _ _ _ t)); [reflexivity..|].
    apply setLineage_stands; [done|by apply (stands_same _ _ _ _ orphan s)|done].
  - by apply orphan_stands.
  - by apply holdLineage_stands.
  - by apply evict_stands.
  - apply (stands_same _ _ _ _ orphan s); [by destruct res..|done].
Qed.

Lemma run_stands locator floor dev ino orphan ops : forall s, 0 < floor -> stands locator floor dev ino orphan s -> spared locator (polls locator s) ops ->
  (orphan = false -> none_lowers locator floor dev ino s ops) -> stands locator floor dev ino orphan (fold_left perform ops s).
Proof.
  induction ops as [|o l IH]; intros s H0 Hs Hsp Hn; [done|]. cbn [fold_left]. destruct (is_walk o) eqn:Ew.
  - destruct o; try done; cbn [perform spared] in *.
    + destruct (retire_stands locator floor dev ino orphan seen s Hs) as [Hs' Hp]; [case_bool_decide; [by left|right; apply Hsp]|].
      apply IH; [done|done| |intros Ho; by apply Hn]. rewrite Hp. case_bool_decide; [done|]. apply Hsp.
    + apply IH; [done|by apply (stands_same _ _ _ _ orphan s)| |intros Ho; by apply Hn]. unfold polls. cbn. by rewrite lookup_empty.
  - apply IH; [done| | |intros Ho; by apply Hn].
    + apply perform_stands; [done|done|intros Ho; by apply Hn|done].
    + unfold polls. rewrite perform_polls by done. destruct o; done.
Qed.

(** C37: A fence over a sealed locator stands. Over any operations of the root's seal, with no consecutive walks that find the locator empty reaching the
    eviction count: while no write of the very identity the fence names carries a lower floor, and without that condition once the fence is orphaned, the
    locator stays fenced, at a floor no lower, for the same identity, and an orphaned fence stays orphaned. *)
Theorem fence_stands locator l s ops : liveFence locator s = Some l -> spared locator (polls locator s) ops ->
  ln_Orphaned l = true \/ none_lowers locator (ln_Floor l) (ln_Device l) (ln_Inode l) s ops ->
  exists l', liveFence locator (fold_left perform ops s) = Some l' /\ ln_Floor l <= ln_Floor l' /\ ln_Device l' = ln_Device l /\ ln_Inode l' = ln_Inode l
    /\ (ln_Orphaned l = true -> ln_Orphaned l' = true).
Proof.
  intros Hl Hsp Hn. apply (run_stands locator (ln_Floor l) (ln_Device l) (ln_Inode l) (ln_Orphaned l) ops s); [|by exists l|done|intros Ho; destruct Hn; [congruence|done]].
  unfold liveFence in Hl. destruct (_ !! locator) as [l'|]; [|done]. destruct (live _ l') eqn:E; [|done]. injection Hl as <-. unfold live in E. apply andb_prop in E as [_ E]. lia.
Qed.

(** A locator that stands empty is released, and only by its walks. Of two consecutive complete walks that find it empty the first keeps its entry and
    the second drops it, so a later file there is captured in full. *)
Theorem fence_retires locator s seen1 seen2 : is_Some (rc_Lineages (rs_control s) !! locator) -> rs_absentLineagePolls s !! locator = None -> locator ∉ seen1 -> locator ∉ seen2 ->
  let t := retireAbsentLineages seen1 s in
  rc_Lineages (rs_control t) !! locator = rc_Lineages (rs_control s) !! locator /\ rc_Lineages (rs_control (retireAbsentLineages seen2 t)) !! locator = None.
Proof.
  intros Hin Hp H1 H2 t. pose proof (retire_spec seen1 locator s Hin) as Hr. cbv zeta in Hr. fold t in Hr. rewrite Hp, bool_decide_eq_false_2 in Hr by done.
  clearbody t. cbn in Hr. unfold at_locator in Hr. injection Hr as Hg Hl Hq. split; [done|]. rewrite <-Hl in Hin.
  pose proof (retire_spec seen2 locator t Hin) as Hr. cbv zeta in Hr. rewrite Hq, bool_decide_eq_false_2 in Hr by done. set (u := retireAbsentLineages seen2 t) in *. clearbody u. cbn in Hr. unfold at_locator in Hr. by injection Hr.
Qed.

(** ** A root sealed, rotated and rewritten *)

Definition demo_root : ConsentRecord := mkRecord (str "/r") 3 true ForwardOnly Transcripts.
Definition demo_state : rootPolicyState :=
  setBaseline (str "a.jsonl") 1 7 (mkBaseline 100 5 64) (set_committed (mkRootState demo_root (new_control demo_root) false ∅ ∅ ControlAbsent)).

(** The identity leaves, another file takes the path and is truncated, the walks race it, and the number is reused. *)
Definition demo_ops : list operation :=
  [OpRetire ∅; OpSet (str "a.jsonl") 1 8 (mkBaseline 0 0 0); OpForget; OpRetire ∅; OpPersist WriteDone; OpDrop 1 7; OpOrphan 1 7; OpHold (str "a.jsonl") 1 7; OpSet (str "b.jsonl") 1 7 (mkBaseline 3 0 0);
   OpRetire {[str "a.jsonl"]}].

Lemma fence_stands_witness :
  exists l', liveFence (str "a.jsonl") (fold_left perform demo_ops demo_state) = Some l' /\ 100 <= ln_Floor l'.
Proof.
  pose proof (fence_stands (str "a.jsonl") (mkLineage 100 5 64 3 1 7 false) demo_state demo_ops) as H.
  destruct H as (l'&H1&H2&_); [vm_compute; reflexivity|vm_compute; repeat split|right; vm_compute; repeat split; reflexivity|exact (ex_intro _ l' (conj H1 H2))].
Defined.

Lemma fence_retires_witness : rc_Lineages (rs_control (retireAbsentLineages ∅ (retireAbsentLineages ∅ demo_state))) !! str "a.jsonl" = None.
Proof.
  refine (proj2 (fence_retires (str "a.jsonl") demo_state ∅ ∅ _ _ _ _)); [exists (mkLineage 100 5 64 3 1 7 false); vm_compute; reflexivity|vm_compute; reflexivity|apply not_elem_of_empty|apply not_elem_of_empty].
Defined.

(** An orphaned fence is out of reach of the number it names, which would otherwise clear it. *)
Example reused_number :
  let clear := OpSet (str "a.jsonl") 1 7 (mkBaseline 0 0 0) in
  liveFence (str "a.jsonl") (perform demo_state clear) = None
  /\ ln_Floor <$> liveFence (str "a.jsonl") (perform (perform demo_state (OpOrphan 1 7)) clear) = Some 100.
Proof. split; vm_compute; reflexivity. Qed.

(** Two names of one file: a floor lowered through one name lowers the fence at the other by a mere hold. *)
Example hold_lowers :
  let s := fold_left perform [OpHold (str "b.jsonl") 1 7; OpSet (str "b.jsonl") 1 7 (mkBaseline 10 0 0); OpHold (str "a.jsonl") 1 7] demo_state in
  ln_Floor <$> liveFence (str "a.jsonl") demo_state = Some 100 /\ ln_Floor <$> liveFence (str "a.jsonl") s = Some 10.
Proof. split; vm_compute; reflexivity. Qed.

(** ** Restarts *)

(** The control is the record's, and its fences are of its generation. *)
Definition control_of (r : ConsentRecord) (c : rootPolicyControl) : Prop :=
  rootPolicyControlMinVersion <= rc_Version c <= rootPolicyControlVersion /\ rc_Root c = r_Path r /\ rc_Generation c = r_Generation r /\ rc_Active c = r_Active r /\ rc_Mode c = r_Mode r
  /\ map_Forall (fun _ l => ln_Generation l = r_Generation r) (rc_Lineages c).

Record coherent (s : rootPolicyState) : Prop := {
  co_control : control_of (rs_record s) (rs_control s);
  co_file : exists c, rs_file s = ControlHolds c /\ control_of (rs_record s) c;
}.

(** What opening a root leaves of its control file, whether it is refused or not. *)
Definition opened_file (file : controlFile) (r : ConsentRecord) (res : writeResult) : controlFile :=
  match newRootPolicyState file r res, res with
  | Ok s, _ => rs_file s
  | Err RefusedWrite, WriteReplaced => ControlHolds (new_control r)
  | Err _, _ => file
  end.

Inductive refused_openings : controlFile -> controlFile -> Prop :=
  | no_refusal file : refused_openings file file
  | refused_once file file' r res e : refused_openings file file' -> newRootPolicyState file' r res = Err e -> refused_openings file (opened_file file' r res).

(** A root opened first on a fresh file or on one of an earlier run, used, and reopened after a stop anywhere, perhaps after openings that were refused. *)
Inductive life : rootPolicyState -> Prop :=
  | life_new r res s : newRootPolicyState ControlAbsent r res = Ok s -> life s
  | life_earlier c r0 r res s : control_of r0 c -> newRootPolicyState (ControlHolds c) r res = Ok s -> life s
  | life_operation s o : life s -> life (perform s o)
  | life_reopen s file r res t : life s -> refused_openings (rs_file s) file -> newRootPolicyState file r res = Ok t -> life t.

Lemma new_control_of r : control_of r (new_control r).
Proof. split; [done|]. do 4 (split; [done|]). apply map_Forall_empty. Qed.

Lemma open_coherent c r0 r res s : control_of r0 c -> newRootPolicyState (ControlHolds c) r res = Ok s ->
  rs_record s = r /\ coherent s /\ rc_Generation c <= r_Generation r.
Proof.
  intros (Hv&Hr&Hg&Ha&Hm&Hl). unfold newRootPolicyState. destruct (_ || _) eqn:Eb; [done|]. apply orb_false_iff in Eb as [[_ Er]%orb_false_iff _]. apply negb_false_iff, bool_decide_eq_true_1 in Er.
  destruct (Z.ltb_spec (r_Generation r) (rc_Generation c)); [done|]. destruct (Z.eqb_spec (r_Generation r) (rc_Generation c)) as [E|].
  - destruct (_ || _) eqn:Es; [done|]. apply orb_false_iff in Es as [Es1 Es2]. apply negb_false_iff, bool_decide_eq_true_1 in Es1, Es2. intros [= <-]. cbn. split; [done|]. split; [|lia].
    assert (Hc : control_of r c) by (unfold control_of; rewrite E, Hg; done). split; [|by exists c]. cbn. destruct (_ <? _); [|done].
    destruct Hc as (Hv'&Hc). split; [cbn; unfold rootPolicyControlVersion, rootPolicyControlMinVersion; lia|exact Hc].
  - destruct res; [|done|done]. cbn. intros [= <-]. cbn. split; [done|]. split; [|lia]. split; [apply new_control_of|]. cbn. eexists. split; [reflexivity|apply new_control_of].
Qed.

(** What one operation keeps. *)
Definition keeps (s t : rootPolicyState) : Prop :=
  rs_record t = rs_record s /\ rs_file t = rs_file s /\ (control_of (rs_record s) (rs_control s) -> control_of (rs_record s) (rs_control t)).

Lemma keeps_trans s t u : keeps s t -> keeps t u -> keeps s u.
Proof. intros (H1&H2&H3) (K1&K2&K3). unfold keeps. rewrite K1, K2. split; [done|]. split; [done|]. intros Hc. rewrite <-H1. apply K3. rewrite H1. by apply H3. Qed.

Lemma keeps_lineages s t : rs_record t = rs_record s -> rs_file t = rs_file s ->
  (rc_Version (rs_control t), rc_Root (rs_control t), rc_Generation (rs_control t), rc_Active (rs_control t), rc_Mode (rs_control t))
    = (rc_Version (rs_control s), rc_Root (rs_control s), rc_Generation (rs_control s), rc_Active (rs_control s), rc_Mode (rs_control s)) ->
  (forall g, g = rc_Generation (rs_control s) -> map_Forall (fun _ l => ln_Generation l = g) (rc_Lineages (rs_control s)) -> map_Forall (fun _ l => ln_Generation l = g) (rc_Lineages (rs_control t))) ->
  keeps s t.
Proof.
  intros H1 H2 [= Hv Hr Hg Ha Hm] H3. split; [done|]. split; [done|]. intros (K1&K2&K3&K4&K5&K6). unfold control_of. rewrite Hv, Hr, Hg, Ha, Hm. repeat split; try done; try apply K1. apply H3; [done|done].
Qed.

Lemma liveFence_entry loc s l : liveFence loc s = Some l -> rc_Lineages (rs_control s) !! loc = Some l /\ ln_Generation l = rc_Generation (rs_control s).
Proof. unfold liveFence. destruct (_ !! loc) as [l'|]; [|done]. destruct (live _ l') eqn:E; [|done]. intros [= <-]. split; [done|]. unfold live in E. apply andb_prop in E as [E _]. lia. Qed.

Lemma reconcile_generation loc d i b s l : reconcileLineage loc d i b s = Some l -> ln_Generation l = rc_Generation (rs_control s).
Proof.
  unfold reconcileLineage. destruct (liveFence loc s) as [cur|] eqn:E; [|by destruct (_ <=? 0); [|intros [= <-]]]. apply liveFence_entry in E as [_ E].
  destruct (_ || _); [|by destruct (_ <=? 0); [|intros [= <-]]]. destruct (_ <=? _); by intros [= <-].
Qed.

Lemma setLineage_keeps loc d i b s : keeps s (setLineage loc d i b s).
Proof.
  unfold setLineage. case_bool_decide; [by apply keeps_lineages|]. destruct (reconcileLineage _ _ _ _ _) as [l|] eqn:E.
  - destruct (_ && _); [by apply keeps_lineages|]. apply keeps_lineages; try done. intros g -> Hl. apply map_Forall_insert_2; [|done]. by eapply reconcile_generation.
  - apply keeps_lineages; try done. intros g _ Hl. by apply map_Forall_delete.
Qed.

Lemma orphan_keeps d i s : keeps s (orphanLineagesNaming d i s).
Proof.
  unfold orphanLineagesNaming. apply (fold_keeps (orphan_one d i) (keeps s)); [|by apply keeps_lineages]. intros t loc Ht. eapply keeps_trans; [exact Ht|]. unfold orphan_one.
  destruct (liveFence loc t) as [l|] eqn:E; [|by apply keeps_lineages]. destruct (_ || _); [by apply keeps_lineages|]. apply keeps_lineages; try done. intros g -> Hl. apply map_Forall_insert_2; [|done]. by apply liveFence_entry in E as [_ E].
Qed.

Lemma evict_keeps occupied s : keeps s (retireAbsentActivationBaselines occupied s).1.
Proof.
  unfold retireAbsentActivationBaselines. set (l := elements _). assert (Hl : keeps s (fold_left (evict_one occupied) l (s, [])).1).
  { apply (fold_keeps (evict_one occupied) (fun se => keeps s se.1)); [|by apply keeps_lineages]. clear. intros [t e] id Ht. cbn [fst] in Ht. eapply keeps_trans; [exact Ht|]. unfold evict_one.
    case_bool_decide; [by apply keeps_lineages|]. destruct (_ <? _); [by apply keeps_lineages|]. destruct (parseIdentityString id) as [[d i]|]; [|by apply keeps_lineages].
    eapply keeps_trans; [apply (orphan_keeps d i)|]. by apply keeps_lineages. }
  destruct (fold_left _ _ _) as [t e]. eapply keeps_trans; [exact Hl|]. by apply keeps_lineages.
Qed.

Lemma retire_keeps seen s : keeps s (retireAbsentLineages seen s).
Proof.
  unfold retireAbsentLineages. eapply keeps_trans; [|by apply keeps_lineages]. apply (fold_keeps (retire_one seen) (keeps s)); [|by apply keeps_lineages]. intros t loc Ht. eapply keeps_trans; [exact Ht|].
  unfold retire_one. case_bool_decide; [by apply keeps_lineages|]. destruct (_ <? _); [by apply keeps_lineages|]. apply keeps_lineages; try done. intros g _ Hl. by apply map_Forall_delete.
Qed.

Lemma hold_keeps loc d i s : keeps s (holdLineage loc d i s).
Proof.
  unfold holdLineage. case_bool_decide; [by apply keeps_lineages|]. destruct (baseline d i s); [|by apply keeps_lineages]. destruct (_ <=? 0); [by apply keeps_lineages|].
  destruct (reconcileLineage _ _ _ _ _) as [l|] eqn:E; [|by apply keeps_lineages]. case_bool_decide; [by apply keeps_lineages|]. apply keeps_lineages; try done. intros g -> Hl. apply map_Forall_insert_2; [|done]. by eapply reconcile_generation.
Qed.

Lemma perform_coherent s o : coherent s -> rs_record (perform s o) = rs_record s /\ coherent (perform s o).
Proof.
  intros [Hc Hf]. assert (Hk : keeps s (perform s o) -> rs_record (perform s o) = rs_record s /\ coherent (perform s o)).
  { intros (H1&H2&H3). split; [done|]. split; rewrite ?H1, ?H2; [by apply H3|done]. }
  destruct o; cbn [perform] in *; try (apply Hk; by apply keeps_lineages).
  - apply Hk. unfold setBaseline. eapply keeps_trans; [|by apply keeps_lineages]. eapply keeps_trans; [|apply setLineage_keeps]. by apply keeps_lineages.
  - apply Hk, orphan_keeps.
  - apply Hk, hold_keeps.
  - apply Hk, retire_keeps.
  - apply Hk, evict_keeps.
  - by destruct res; [split; [done|]; split; [done|]; cbn; eexists..|].
Qed.

(** A refused opening leaves the file of some record. *)
Lemma refused_file file file' : refused_openings file file' -> (exists c r, file = ControlHolds c /\ control_of r c) -> exists c r, file' = ControlHolds c /\ control_of r c.
Proof.
  induction 1 as [file|file file' r res e _ IH E]; [done|]. intros Hf. specialize (IH Hf). unfold opened_file. rewrite E.
  destruct e; try done. destruct res; [done| |done]. exists (new_control r), r. split; [done|apply new_control_of].
Qed.

Lemma life_coherent s : life s -> coherent s.
Proof.
  induction 1 as [r res s E|c r0 r res s Hc E|s o _ IH|s file r res t _ IH Hopen E].
  - cbn in E. destruct res; [|done|done]. injection E as <-. split; [apply new_control_of|]. cbn. eexists. split; [reflexivity|apply new_control_of].
  - by apply (open_coherent c r0 r res s Hc) in E as (_&?&_).
  - by apply perform_coherent.
  - destruct IH as [_ (c&Ef&Hc)]. destruct (refused_file _ _ Hopen) as (c'&r'&->&Hc'); [by exists c, (rs_record s)|].
    by apply (open_coherent c' r' r res t Hc') in E as (_&?&_).
Qed.

(** C38: A restart loses no floor and reopens no earlier consent. Over any life of a root, stopped anywhere, its writes failing before or after they replaced
    the file: its control and the file are of its record's generation, and so are its fences; reopening under a record of a lower generation is refused; after
    a write that replaced the file, whether or not it reported success, reopening under the same record gives the control back, floors, fences and the
    committed marker, whether or not that reopening could write; and under a record of a higher generation it starts again uncommitted, with no floor and no
    fence of the earlier one. *)
Theorem seal_restarts s : life s -> control_of (rs_record s) (rs_control s) /\ forall r res, r_Path r = r_Path (rs_record s) ->
  (r_Generation r < r_Generation (rs_record s) -> forall t, newRootPolicyState (rs_file s) r res <> Ok t)
  /\ (forall wrote, wrote <> WriteFailed -> 0 < r_Generation (rs_record s) -> r = rs_record s -> exists t, newRootPolicyState (rs_file (persistControl wrote s).1) r res = Ok t
        /\ rc_Baselines (rs_control t) = rc_Baselines (rs_control s) /\ rc_Lineages (rs_control t) = rc_Lineages (rs_control s) /\ rc_Committed (rs_control t) = rc_Committed (rs_control s))
  /\ (r_Generation (rs_record s) < r_Generation r -> forall t, newRootPolicyState (rs_file s) r res = Ok t -> rs_control t = new_control r /\ rs_file t = ControlHolds (new_control r)).
Proof.
  intros Hl. apply life_coherent in Hl as [Hc (c&Ef&Hfile)]. split; [done|]. intros r res Hp. rewrite Ef. split; [|split].
  - intros Hg t E. apply (open_coherent c _ r res t Hfile) in E as (_&_&E). destruct Hfile as (_&_&Hg'&_). lia.
  - intros wrote Hwrote H0 ->. destruct Hc as (Hv&Hr&Hg&Ha&Hm&_).
    assert (Efile : rs_file (persistControl wrote s).1 = ControlHolds (rs_control s)) by (by destruct wrote). rewrite Efile. cbn. unfold rootPolicyControlMinVersion, rootPolicyControlVersion in *. rewrite Hr, Hg, Ha, Hm, !bool_decide_eq_true_2 by done.
    rewrite (proj2 (Z.ltb_ge _ _)), (proj2 (Z.ltb_ge _ _)), (proj2 (Z.eqb_neq _ _)), Z.ltb_irrefl, Z.eqb_refl by lia. cbn. eexists. split; [reflexivity|]. cbn. by destruct (_ <? _).
  - intros Hg t. unfold newRootPolicyState. destruct (_ || _); [done|]. destruct (_ <? _); [done|]. destruct Hfile as (_&_&Hg'&_). rewrite (proj2 (Z.eqb_neq _ _)) by lia. destruct res; [|done|done]. by intros [= <-].
Qed.

Lemma seal_restarts_witness :
  exists t, newRootPolicyState (rs_file (persistControl WriteReplaced (perform demo_state (OpDrop 1 7))).1) demo_root WriteFailed = Ok t /\ rc_Committed (rs_control t) = true.
Proof.
  assert (Hl : life (perform (perform (perform (mkRootState demo_root (new_control demo_root) false ∅ ∅ (ControlHolds (new_control demo_root))) OpCommit) (OpSet (str "a.jsonl") 1 7 (mkBaseline 100 5 64))) (OpDrop 1 7))).
  { do 3 apply life_operation. by apply (life_new demo_root WriteDone). }
  destruct (seal_restarts _ Hl) as [_ Hr]. destruct (Hr demo_root WriteFailed eq_refl) as (_&H2&_). destruct (H2 WriteReplaced ltac:(discriminate) eq_refl eq_refl) as (t&E&_&_&Hc). exists t. split; [|rewrite Hc; vm_compute; reflexivity].
  rewrite <-E. vm_compute. reflexivity.
Defined.
