(* ===== verification/Tail.v ===== *)
(** * One poll of a tracked transcript ([drain] of [adapter/codex/watch.go])

    The file is opened and its cursor corroborated, a diverged file is reported and restarted or sealed
    again, the carry of an older release is derived, and what was appended is read, parsed, delivered and
    committed, in part where delivery failed part way. The opened file is its stat and its bytes, the same
    for every read of one poll; the sink, the cursor's files, the control file and the clock are an
    interface. The content side channel, told of a poll and never heard, is left out. *)

From S2P Require Import Prelude GoStrings GoTime Json GoNet GoPath GoJson BeadPrefix Validate Evidence Policy RefExtract.
From S2P Require Import Transcript Rollout Claude Parser Cursor Sink RootPolicy RootState.

Definition DefaultMaxReadChunk : Z := 4194304.
(** Nanoseconds. *)
Definition openUsageSettle : Z := 3600 * 1000000000.

(** The stat of the open, the bytes, and whether reading fails. *)
Record openFile : Type := mkOpenFile { of_size : Z; of_modNanos : Z; of_data : bytes; of_fails : bool }.
(** [OpenSkipped]: vanished, swapped, refused or of another identity. *)
Inductive openResult : Type := OpenSkipped | OpenFails | OpenIs (f : openFile).

(** [ReadAt] of [n] bytes at [off]: those there are; [None]: an error. *)
Definition ReadAt (f : openFile) (off n : Z) : option bytes := if of_fails f then None else Some (slice (Z.to_nat off) (Z.to_nat n) (of_data f)).

Record trackedFile : Type := mkTracked {
  tf_cursor : Cursor;
  tf_root : bytes;
  tf_locator : bytes;
  tf_dev : Z;
  tf_ino : Z;
  tf_policy : option rootPolicyState;
  tf_forwardBaseline : bool;
  tf_member : bool;
}.

Definition set_cursor (c : Cursor) (tf : trackedFile) : trackedFile :=
  mkTracked c (tf_root tf) (tf_locator tf) (tf_dev tf) (tf_ino tf) (tf_policy tf) (tf_forwardBaseline tf) (tf_member tf).
Definition set_policy (p : rootPolicyState) (tf : trackedFile) : trackedFile :=
  mkTracked (tf_cursor tf) (tf_root tf) (tf_locator tf) (tf_dev tf) (tf_ino tf) (Some p) (tf_forwardBaseline tf) (tf_member tf).

Definition consentRoot (tf : trackedFile) : bytes :=
  match tf_policy tf with Some p => if tf_member tf then r_Path (rs_record p) else tf_root tf | None => tf_root tf end.
Definition file_ref (tf : trackedFile) : TranscriptRef := mkTranscriptRef (tf_dev tf) (tf_ino tf) (tf_locator tf) (consentRoot tf).

(** ** Corroboration *)

Inductive sealDivergence : Type := sealIntact | sealRestart | sealTruncated | sealRewritten.

#[export] Instance sealDivergence_eq_dec : EqDecision sealDivergence.
Proof. solve_decision. Defined.

(** The window that ends at the floor, if the file has it; [None]: an error. *)
Definition readFloorWindow (f : openFile) (floor : Z) : option (option bytes) :=
  let n := Z.min floorFingerprintLen floor in
  if n <=? 0 then Some None
  else match ReadAt f (floor - n) n with
       | None => None
       | Some buf => Some (if zlen buf <? n then None else Some buf)
       end.

(** Whether the offset is no append point of the file, and the cursor; [None]: an error. *)
Definition offsetInvalidated (f : openFile) (cur : Cursor) (size : Z) : option (bool * Cursor) :=
  let consumed := cu_consumed cur in
  if size <? ReadOffset cur then Some (true, cur)
  else if consumed <=? 0 then Some (false, cur)
  else if size <? consumed then Some (true, cur)
  else
    let '(hash, alen) := AnchorFingerprint cur in
    if alen <=? 0 then
      match ReadAt f (consumed - 1) 1 with
      | None => None
      | Some [b] => Some (negb (bool_decide (b = x0a)), cur)
      | Some _ => Some (true, cur)
      end
    else
      let alen := Z.min alen consumed in
      match ReadAt f (consumed - alen) alen with
      | None => None
      | Some buf => if zlen buf <? alen then Some (true, cur) else if hashBytes buf =? hash then Some (false, SeedAnchor buf cur) else Some (true, cur)
      end.

(** [None]: an error. *)
Definition corroborateOffset (f : openFile) (tf : trackedFile) : option (sealDivergence * trackedFile) :=
  if negb (tf_forwardBaseline tf) then
    (fun r : bool * Cursor => (if r.1 then sealRestart else sealIntact, set_cursor r.2 tf)) <$> offsetInvalidated f (tf_cursor tf) (of_size f)
  else if of_size f <? ReadOffset (tf_cursor tf) then Some (sealTruncated, tf)
  else match tf_policy tf with
       | None => Some (sealIntact, tf)
       | Some p =>
           match baseline (tf_dev tf) (tf_ino tf) p with
           | None => Some (sealIntact, tf)
           | Some base =>
               if bl_Floor base <=? 0 then Some (sealIntact, tf)
               else match readFloorWindow f (bl_Floor base) with
                    | None => None
                    | Some None => Some (sealTruncated, tf)
                    | Some (Some window) =>
                        if negb (hasFingerprint base) then
                          Some (sealIntact, set_policy (setBaseline (tf_locator tf) (tf_dev tf) (tf_ino tf) (mkBaseline (bl_Floor base) (hashBytes window) (zlen window)) p) tf)
                        else if negb (bl_FingerprintLen base =? zlen window) || negb (bl_FingerprintHash base =? hashBytes window) then Some (sealRewritten, tf)
                        else Some (sealIntact, tf)
                    end
           end
       end.

Definition divergence_reason (d : sealDivergence) (oldOffset newSize : Z) : bytes :=
  match d with
  | sealTruncated => str "transcript truncated to " ++ FormatInt newSize ++ str " bytes below the sealed read offset " ++ FormatInt oldOffset
      ++ str "; resealing capture at the new end of file; the truncated interval is unrecoverable and no bytes are re-delivered"
  | sealRewritten => str "transcript prefix below the sealed read offset " ++ FormatInt oldOffset ++ str " diverged from the bytes it was sealed over (file is now "
      ++ FormatInt newSize ++ str " bytes); resealing capture at the current end of file; the rewritten interval is not captured and no bytes are re-delivered"
  | _ => str "transcript truncated to " ++ FormatInt newSize ++ str " bytes below the read offset " ++ FormatInt oldOffset ++ str "; restarting capture at 0"
  end.
Definition divergenceDiagnostic (d : sealDivergence) (oldOffset newSize : Z) : Candidate :=
  cand (KindDiagnostic (mkDiagnostic (str "CAPTURE_LOSS") (str "WARNING") (str "PARTIAL") (divergence_reason d oldOffset newSize))) zero_time 0.

(** ** The part of a read that was delivered *)

(** The offset just past the n-th newline. *)
Fixpoint nth_newline (b : bytes) (n : Z) (i : Z) : Z :=
  match b with
  | [] => -1
  | x :: b => if bool_decide (x = x0a) then if n =? 1 then i + 1 else nth_newline b (n - 1) (i + 1) else nth_newline b n (i + 1)
  end.
Definition offsetAfterNthNewline (b : bytes) (n : Z) : Z := if n <=? 0 then -1 else nth_newline b n 0.

Definition deliveredLinePrefix (cands : list Candidate) (delivered : Z) (newBytes : bytes) : option Z :=
  if (delivered <=? 0) || (zlen cands <=? delivered) then None
  else match cands !! Z.to_nat delivered with
       | None => None
       | Some c =>
           if ca_LineNumber c <=? 1 then None
           else let p := offsetAfterNthNewline newBytes (ca_LineNumber c - 1) in if p <=? 0 then None else Some p
       end.

(** ** A poll *)

(** Delivering candidates: how many, and whether all were. Saving a cursor ([None]: an error). Writing a
    control file: how it ends. The time in nanoseconds. *)
Class Watch (W : Type) : Type := {
  deliverCandidates : TranscriptRef -> list Candidate -> W -> Z * bool * W;
  saveCursor : Cursor -> W -> option Cursor * W;
  writeControl : rootPolicyControl -> W -> writeResult * W;
  nowNanos : W -> Z;
}.

Section watch.
Context {W : Type} `{Watch W} `{Host W}.

(** Whether no error ended it, the candidates delivered, the file's tracking and the world. *)
Definition outcome : Type := bool * list Candidate * trackedFile * W.
Definition and_then (r : outcome) (k : trackedFile -> W -> outcome) : outcome :=
  let '(ok, out, tf, w) := r in
  if ok then let '(ok, more, tf, w) := k tf w in (ok, out ++ more, tf, w) else r.

Definition save (tf : trackedFile) (w : W) : outcome :=
  let '(c, w) := saveCursor (tf_cursor tf) w in
  match c with Some c => (true, [], set_cursor c tf, w) | None => (false, [], tf, w) end.

Definition deliver (cands : list Candidate) (tf : trackedFile) (w : W) : outcome :=
  let '(n, ok, w) := deliverCandidates (file_ref tf) cands w in (ok, take (Z.to_nat n) cands, tf, w).

Definition resealFloor (f : openFile) (eof : Z) (tf : trackedFile) (w : W) : outcome :=
  match tf_policy tf with
  | None => (true, [], tf, w)
  | Some p =>
      match readFloorWindow f eof with
      | None => (false, [], tf, w)
      | Some window =>
          let rec := match window with Some win => mkBaseline eof (hashBytes win) (zlen win) | None => mkBaseline eof 0 0 end in
          let p := setBaseline (tf_locator tf) (tf_dev tf) (tf_ino tf) rec p in
          let '(res, w) := writeControl (rs_control p) w in
          let '(p, ok) := persistControl res p in (ok, [], set_policy p tf, w)
      end
  end.

(** A diverged file: reported, then restarted or sealed at its end. *)
Definition recover (f : openFile) (d : sealDivergence) (tf : trackedFile) (w : W) : outcome :=
  match d with
  | sealIntact => (true, [], tf, w)
  | _ =>
      and_then (deliver [divergenceDiagnostic d (ReadOffset (tf_cursor tf)) (of_size f)] tf w) (fun tf w =>
      and_then (if tf_forwardBaseline tf then resealFloor f (of_size f) (set_cursor (SealAt (of_size f) (tf_cursor tf)) tf) w
                else (true, [], set_cursor (Reset (tf_cursor tf)) tf, w))
        save)
  end.

(** The bytes of the file an older cursor consumed, from its floor on. *)
Definition deriveUpgradeCarry (f : openFile) (tf : trackedFile) : option trackedFile :=
  let known := Some (set_cursor (MarkCarryKnown (tf_cursor tf)) tf) in
  let from start :=
    let stop := cu_consumed (tf_cursor tf) in
    if stop <=? start then known
    else (fun c => set_cursor c tf) <$> DeriveCarry (slice (Z.to_nat start) (Z.to_nat (stop - start)) (of_data f)) (negb (of_fails f)) (tf_cursor tf) in
  if tf_forwardBaseline tf then
    match tf_policy tf with
    | None => known
    | Some p => match baseline (tf_dev tf) (tf_ino tf) p with None => known | Some base => from (bl_Floor base) end
    end
  else from 0.
Definition upgrade (f : openFile) (tf : trackedFile) (w : W) : outcome :=
  if NeedsCarryDerivation (tf_cursor tf) then
    match deriveUpgradeCarry f tf with None => (false, [], tf, w) | Some tf => save tf w end
  else (true, [], tf, w).

Definition settleOpenUsage (modNanos : Z) (tf : trackedFile) (w : W) : outcome :=
  if negb (HasOpenUsage (tf_cursor tf)) || (nowNanos w - modNanos <? openUsageSettle) then (true, [], tf, w)
  else
    let '(cands, commit) := FlushOpenUsage (tf_cursor tf) in
    let '(n, ok, w) := deliverCandidates (file_ref tf) cands w in
    let '(saved, out, tf, w) := save (set_cursor (commit n (tf_cursor tf)) tf) w in
    (saved && ok, take (Z.to_nat n) cands ++ out, tf, w).

Definition observe_file (f : openFile) (tf : trackedFile) : trackedFile := set_cursor (observe (of_size f) (of_modNanos f) (tf_cursor tf)) tf.

(** New bytes: parsed, delivered, committed. *)
Definition ingest (f : openFile) (newBytes : bytes) (cfg : ReferenceConfig) (tf : trackedFile) (w : W) : outcome :=
  let '(cands, commit, w) := Ingest (tf_cursor tf) newBytes cfg w in
  match cands with
  | [] => save (observe_file f (set_cursor (commit (tf_cursor tf)) tf)) w
  | _ =>
      let '(n, ok, w) := deliverCandidates (file_ref tf) cands w in
      let delivered := take (Z.to_nat n) cands in
      if ok : bool then let '(ok, out, tf, w) := save (observe_file f (set_cursor (commit (tf_cursor tf)) tf)) w in (ok, delivered ++ out, tf, w)
      else
        match (if cu_skip (tf_cursor tf) then None else deliveredLinePrefix cands n newBytes) with
        | None => (false, delivered, tf, w)
        | Some p =>
            let '(_, commitPrefix, w) := Ingest (tf_cursor tf) (take (Z.to_nat p) newBytes) cfg w in
            let '(_, out, tf, w) := save (observe_file f (set_cursor (commitPrefix (tf_cursor tf)) tf)) w in
            (false, delivered ++ out, tf, w)
        end
  end.

Definition read_tail (f : openFile) (maxReadChunk : Z) (cfg : ReferenceConfig) (tf : trackedFile) (w : W) : outcome :=
  let readOff := ReadOffset (tf_cursor tf) in
  if of_size f <=? readOff then settleOpenUsage (of_modNanos f) (observe_file f tf) w
  else match ReadAt f readOff (Z.min (of_size f - readOff) maxReadChunk) with
       | None => (false, [], tf, w)
       | Some [] => (true, [], tf, w)
       | Some newBytes => ingest f newBytes cfg tf w
       end.

Definition drain (maxReadChunk : Z) (cfg : ReferenceConfig) (o : openResult) (tf : trackedFile) (w : W) : outcome :=
  match o with
  | OpenSkipped => (true, [], tf, w)
  | OpenFails => (false, [], tf, w)
  | OpenIs f =>
      match corroborateOffset f tf with
      | None => (false, [], tf, w)
      | Some (d, tf) =>
          and_then (recover f d tf w) (fun tf w =>
          and_then (upgrade f tf w) (fun tf w =>
          read_tail f maxReadChunk cfg tf w))
      end
  end.
End watch.
