(* ===== verification/TailFacts.v ===== *)
(** * What a poll loses and what it publishes ([Tail])

    However deliveries, saves and reads fail, what the bytes before a transcript's read offset bill was
    delivered, and a poll of a sealed transcript is the same whatever lies below its floor. *)

From S2P Require Import Prelude GoStrings Lines GoTime Json GoNet GoPath GoJson WireTypes BeadPrefix Validate Evidence Sealed Policy RefExtract.
From S2P Require Import Transcript Rollout Claude Parser RefFacts ParseSplit ParseCount Numbered Cursor CursorFacts CursorStore Sink RootPolicy RootState Tail.

(** ** What the watcher relies on *)

(** [apart]: worlds that differ in the control files only. What a control file is to hold does not decide whether it can be written, and no
    cursor is saved in one. *)
Class WatchLaws (W : Type) `{Watch W} : Type := {
  apart : W -> W -> Prop;
  apart_refl :: Reflexive apart;
  writes_control c c' w : (writeControl c w).1 = (writeControl c' w).1 /\ apart (writeControl c w).2 (writeControl c' w).2;
  saves_apart c v w : apart v w -> (saveCursor c v).1 = (saveCursor c w).1 /\ apart (saveCursor c v).2 (saveCursor c w).2;
  delivers_count ref cands w : let '(n, ok, _) := deliverCandidates ref cands w in 0 <= n <= zlen cands /\ (ok = true -> n = zlen cands);
  saves_cursor c (w : W) : match (saveCursor c w).1 with Some c' => exists n, c' = saved n c | None => True end;
}.

(** ** A cursor that was saved *)

Definition older_cursor (u : list Z) (c : Cursor) : Cursor := with_carry (older_carry u (cu_carry c)) c.

Section ingest.
Context {H : Type} `{HV : Host H}.

Lemma ingestNormal_older u c prefix b cfg (h : H) d :
  (ingestNormal (older_cursor u c) prefix b cfg h).1.1 = (ingestNormal c prefix b cfg h).1.1
  /\ (ingestNormal (older_cursor u c) prefix b cfg h).1.2 (older_cursor u d) = older_cursor u ((ingestNormal c prefix b cfg h).1.2 d).
Proof.
  unfold ingestNormal. cbn [older_cursor with_carry cu_carry]. rewrite parse_older. destruct (parseWithCarry (prefix ++ b) cfg (cu_carry c) h) as [res h']. cbn [px_Consumed px_Candidates px_carry].
  change (cu_maxPartialLine (with_carry _ c)) with (cu_maxPartialLine c). by destruct (_ <? _).
Qed.

Lemma Ingest_older u c b cfg (h : H) :
  (Ingest (older_cursor u c) b cfg h).1.1 = (Ingest c b cfg h).1.1 /\ (Ingest (older_cursor u c) b cfg h).1.2 (older_cursor u c) = older_cursor u ((Ingest c b cfg h).1.2 c).
Proof.
  unfold Ingest. change (cu_skip (older_cursor u c)) with (cu_skip c). change (cu_remainder (older_cursor u c)) with (cu_remainder c). destruct (cu_skip c); [|apply ingestNormal_older].
  destruct (cut x0a b) as [line [rest|]]; [|done]. set (t := advance (line ++ [x0a]) c). set (d := with_position (cu_consumed t) (cu_remainder t) false t). pose proof (ingestNormal_older u c [] rest cfg h d) as [H1 H2].
  destruct (ingestNormal (older_cursor u c) [] rest cfg h) as [[c1 k1] h1], (ingestNormal c [] rest cfg h) as [[c2 k2] h2]. cbn [fst snd] in *. split; [done|exact H2].
Qed.

(** The cursor is where one parse of [seen] ends, but for the ids saved since. *)
Definition follows (cfg : ReferenceConfig) (h0 : H) (seen : bytes) (out : list Candidate) (c : Cursor) : Prop :=
  at_end seen c /\ exists u, caught_up cfg h0 seen out (older_cursor u c).

Lemma Ingest_follows cfg h0 seen out c b (h : H) : follows cfg h0 seen out c -> 0 <= cu_maxPartialLine c -> short_lines (cu_maxPartialLine c) (seen ++ b) ->
  let r := Ingest c b cfg h in follows cfg h0 (seen ++ b) (out ++ r.1.1) (r.1.2 c) /\ cu_maxPartialLine (r.1.2 c) = cu_maxPartialLine c.
Proof.
  intros [Ha (u&Hc)] Hm Hs r. destruct (Ingest_at_end seen c b cfg h Ha Hm) as [H1 H2]. split; [|done]. split; [done|]. exists u.
  pose proof (Ingest_caught_up cfg h0 seen out (older_cursor u c) b h Hc Hs) as Hi. cbv zeta in Hi. destruct (Ingest_older u c b cfg h) as [E1 E2]. by rewrite E1, E2 in Hi.
Qed.

Lemma follows_saved cfg h0 seen out c n : follows cfg h0 seen out c -> follows cfg h0 seen out (saved n c).
Proof.
  intros [Ha (u&Hc)]. split; [exact Ha|]. exists (u ++ cl_Unsaved (tc_claude (cu_carry c))).
  assert (He : older_carry (u ++ cl_Unsaved (tc_claude (cu_carry c))) (cu_carry (saved n c)) = older_carry u (cu_carry c)) by (unfold older_carry, older_claude; cbn; by rewrite app_nil_r).
  unfold caught_up in *. cbn [older_cursor with_carry cu_carry cu_consumed cu_remainder cu_skip] in *. by rewrite He.
Qed.

Lemma follows_observe cfg h0 seen out c size modNanos : follows cfg h0 seen out c -> follows cfg h0 seen out (observe size modNanos c).
Proof. done. Qed.

Lemma follows_offset cfg h0 seen out c : follows cfg h0 seen out c -> ReadOffset c = zlen seen.
Proof. intros [(used&->&Hc&_) _]. unfold ReadOffset. by rewrite Hc, zlen_app. Qed.

Lemma fresh_follows cfg (h : H) scope dev ino size modNanos max : follows cfg h [] [] (fresh_cursor scope dev ino size modNanos max).
Proof. split; [apply fresh_at_end|]. exists []. apply fresh_caught_up. Qed.

(** ** The part of a read that was delivered *)

Lemma nth_newline_split b : forall n i, 0 < n -> 0 <= i -> 0 < nth_newline b n i ->
  exists p q, b = p ++ q /\ nth_newline b n i = i + zlen p /\ whole_lines p /\ zlen (complete_lines p) = n.
Proof.
  induction b as [|x b IH]; intros n i Hn Hi; cbn [nth_newline]; [lia|].
  assert (Hz : forall l, zlen (x :: l) = 1 + zlen l) by (intros l; unfold zlen; cbn; lia).
  assert (Hl : forall l, zlen (x0a :: l) = 1 + zlen l) by (intros l; unfold zlen; cbn; lia).
  case_bool_decide as Ex; [subst x; destruct (Z.eqb_spec n 1) as [->|]|].
  - intros _. exists [x0a], b. split; [done|]. split; [change (zlen [x0a]) with 1; lia|]. split; [right; by exists []|done].
  - intros Hp. destruct (IH (n - 1) (i + 1) ltac:(lia) ltac:(lia) Hp) as (p&q&->&He&Hw&Hc). exists (x0a :: p), q. split; [done|]. rewrite Hl. split; [lia|].
    split; [by apply (whole_lines_cons [])|]. pose proof (complete_lines_cons [] p ltac:(apply not_elem_of_nil)) as Hcl. cbn [app] in Hcl. rewrite Hcl. unfold zlen in *. cbn. lia.
  - intros Hp. destruct (IH n (i + 1) ltac:(lia) ltac:(lia) Hp) as (p&q&->&He&Hw&Hc). exists (x :: p), q. split; [done|]. rewrite Hz. split; [lia|].
    destruct p as [|y p'] eqn:Ep; [cbn in Hc; unfold zlen in Hc; cbn in Hc; lia|]. destruct Hw as [Hw|(l&Hw)]; [done|]. rewrite Hw in *. split; [right; by exists (x :: l)|]. clear -Hc Ex.
    rewrite <-Hc. destruct (cut x0a (l ++ [x0a])) as [line [rest|]] eqn:E; [|apply cut_None in E as [_ E]; exfalso; apply E; set_solver].
    apply cut_Some in E as [-> Hn]. change (x :: line ++ x0a :: rest) with ((x :: line) ++ x0a :: rest). rewrite !complete_lines_cons; [done|done|]. apply not_elem_of_cons. split; [congruence|done].
Qed.

Lemma deliveredLinePrefix_spec cands n newBytes p : deliveredLinePrefix cands n newBytes = Some p ->
  exists c k a q, cands !! Z.to_nat n = Some c /\ ca_LineNumber c = k + 1 /\ newBytes = a ++ q /\ p = zlen a /\ whole_lines a /\ zlen (complete_lines a) = k /\ 0 < k.
Proof.
  unfold deliveredLinePrefix. destruct (_ || _) eqn:Eb; [done|]. apply orb_false_iff in Eb as [Eb _]. destruct (cands !! Z.to_nat n) as [c|] eqn:Ec; [|done].
  destruct (Z.leb_spec (ca_LineNumber c) 1); [done|]. unfold offsetAfterNthNewline. destruct (Z.leb_spec (ca_LineNumber c - 1) 0); [lia|].
  destruct (Z.leb_spec (nth_newline newBytes (ca_LineNumber c - 1) 0) 0); [done|]. intros [= <-].
  destruct (nth_newline_split newBytes (ca_LineNumber c - 1) 0 ltac:(lia) ltac:(lia) ltac:(lia)) as (a&q&->&He&Hw&Hc). exists c, (ca_LineNumber c - 1), a, q. repeat split; try done; lia.
Qed.

Lemma parse_bill data cfg carry (h h' : H) : bill (px_Candidates (parseWithCarry data cfg carry h).1) = bill (px_Candidates (parseWithCarry data cfg carry h').1).
Proof.
  unfold parseWithCarry, parse. pose proof (parse_lines_agree (length data) (length data) cfg cfg data (newParseState carry) (newParseState carry) 0 0 h h' ltac:(lia) ltac:(lia) eq_refl) as He.
  destruct (parse_lines _ cfg _ data 0 h) as [[[[m r] k] u] h2], (parse_lines _ cfg _ data 0 h') as [[[[m' r'] k'] u'] h2']. unfold outcome_of in He. cbn [fst snd] in He. injection He as He _ _. cbn. by rewrite !app_nil_r.
Qed.

Lemma ingestNormal_cands c prefix b cfg (h : H) : exists more, (ingestNormal c prefix b cfg h).1.1 = px_Candidates (parseWithCarry (prefix ++ b) cfg (cu_carry c) h).1 ++ more /\ bill more = []
  /\ Forall (fun c => ca_LineNumber c = 0) more.
Proof.
  unfold ingestNormal. destruct (parseWithCarry (prefix ++ b) cfg (cu_carry c) h) as [res h']. destruct (_ <? _); cbn [fst]; [|exists []; by rewrite app_nil_r].
  eexists. split; [reflexivity|]. split; [done|by repeat constructor].
Qed.

(** What is committed of a read delivered in part was delivered. *)
Lemma prefix_delivered c newBytes cfg (h h' : H) n p : cu_skip c = false -> x0a ∉ cu_remainder c ->
  deliveredLinePrefix (Ingest c newBytes cfg h).1.1 n newBytes = Some p ->
  exists a q, newBytes = a ++ q /\ take (Z.to_nat p) newBytes = a /\ bill (Ingest c a cfg h').1.1 `sublist_of` bill (take (Z.to_nat n) (Ingest c newBytes cfg h).1.1).
Proof.
  intros Hs Hr Hp. apply deliveredLinePrefix_spec in Hp as (x&k&a&q&Hx&Hk&->&->&Hw&Hc&Hn0). exists a, q. split; [done|]. split; [unfold zlen; by rewrite Nat2Z.id, take_app_length|].
  unfold Ingest in *. rewrite Hs in *. destruct (ingestNormal_cands c (cu_remainder c) (a ++ q) cfg h) as (more&Hm&_&Hm0). destruct (ingestNormal_cands c (cu_remainder c) a cfg h') as (more'&->&Hb&_). rewrite Hm in *.
  rewrite bill_app, Hb, app_nil_r. rewrite app_assoc in *.
  assert (Hl : whole_lines (cu_remainder c ++ a) /\ zlen (complete_lines (cu_remainder c ++ a)) = k).
  { destruct (cut x0a a) as [line [rest|]] eqn:E; [|exfalso; apply cut_None in E as [_ E]; rewrite complete_lines_nil in Hc by done; change (zlen []) with 0 in Hc; lia].
    apply cut_Some in E as [-> Hl]. split; [destruct Hw as [Hw|(l&Hl')]; [by destruct line|]; right; rewrite Hl'; exists (cu_remainder c ++ l); by rewrite app_assoc|].
    rewrite app_assoc, complete_lines_cons by (apply not_elem_of_app; done). by rewrite complete_lines_cons in Hc. }
  destruct Hl as [Hl Hcount]. destruct (parse_prefix (cu_remainder c ++ a) q cfg (cu_carry c) h Hl) as [[B HB] HA]. rewrite HB in *. rewrite Hcount in HA.
  rewrite (parse_bill (cu_remainder c ++ a) cfg (cu_carry c) h' h). set (A := px_Candidates _) in *. rewrite <-app_assoc in *.
  destruct (Nat.lt_ge_cases (Z.to_nat n) (length A)) as [Hlt|Hge].
  { exfalso. rewrite lookup_app_l in Hx by done. apply list_elem_of_lookup_2 in Hx. rewrite Forall_forall in HA. specialize (HA _ Hx). cbn in HA. lia. }
  rewrite take_app_ge by done. rewrite bill_app. apply sublist_inserts_r, reflexivity.
Qed.
End ingest.

(** ** A file that only grew *)

Lemma slice_split (a b c : bytes) : slice (length a) (length b) (a ++ b ++ c) = b.
Proof. unfold slice. by rewrite drop_app_length, take_app_length. Qed.

Lemma newest_split {A} n (l : list A) : 0 <= n -> exists pre, l = pre ++ newest n l /\ zlen pre = zlen l - Z.min n (zlen l).
Proof.
  intros Hn. unfold newest. pose proof (zlen_nonneg l). destruct (Z.ltb_spec n (zlen l)).
  - exists (take (Z.to_nat (zlen l - n)) l). rewrite take_drop. split; [done|]. unfold zlen in *. rewrite length_take. lia.
  - exists []. split; [done|]. change (zlen []) with 0. lia.
Qed.

(** A file that holds what was read is never taken for another. *)
Lemma grown_intact seen c f : at_end seen c -> seen `prefix_of` of_data f -> ReadOffset c <= of_size f -> of_fails f = false -> offsetInvalidated f c (of_size f) = Some (false, c).
Proof.
  intros (used&->&Hc&_&_&Ha&Hz&Hh) [more Hd] Hsize Hfails. unfold offsetInvalidated. destruct (Z.ltb_spec (of_size f) (ReadOffset c)); [lia|]. destruct (Z.leb_spec (cu_consumed c) 0); [done|].
  pose proof (zlen_nonneg (cu_remainder c)). unfold ReadOffset in Hsize. destruct (Z.ltb_spec (of_size f) (cu_consumed c)); [lia|]. unfold AnchorFingerprint.
  destruct (newest_split anchorLen used ltac:(done)) as (pre&Hpre&Hlen). rewrite <-Ha in Hpre. set (anchor := cu_anchor c) in *. assert (Hu : zlen used = zlen pre + zlen anchor) by (rewrite Hpre at 1; by rewrite zlen_app).
  assert (Hal : 0 < zlen anchor) by (unfold anchorLen in Hlen; lia). rewrite Hz. destruct (Z.leb_spec (zlen anchor) 0); [lia|].
  rewrite Z.min_l by (pose proof (zlen_nonneg pre); lia). unfold ReadAt. rewrite Hfails.
  assert (Hs : slice (Z.to_nat (cu_consumed c - zlen anchor)) (Z.to_nat (zlen anchor)) (of_data f) = anchor).
  { rewrite Hd, Hpre. replace (Z.to_nat (cu_consumed c - zlen anchor)) with (length pre) by (unfold zlen in *; lia). unfold zlen at 1. rewrite Nat2Z.id, <-!app_assoc. apply slice_split. }
  rewrite Hs, Z.ltb_irrefl. rewrite Hh, Z.eqb_refl by (intros E; rewrite E in Hal; by cbn in Hal). unfold SeedAnchor. fold anchor. by rewrite (proj2 (Z.ltb_lt _ _)).
Qed.

(** ** One poll *)

Lemma follows_clean {H} `{HV : Host H} cfg (h0 : H) seen out c : follows cfg h0 seen out c -> cu_skip c = false /\ x0a ∉ cu_remainder c.
Proof.
  intros [_ (u&_&_&_&Hr&Hs)]. split; [exact Hs|]. cbn in Hr. rewrite Hr. pose proof (parse_consumes seen cfg no_carry false h0) as [[Hn _] _]. exact Hn.
Qed.

Lemma Ingest_known {H} `{HV : Host H} c b cfg (h : H) d : NeedsCarryDerivation ((Ingest c b cfg h).1.2 d) = NeedsCarryDerivation d.
Proof.
  unfold Ingest, ingestNormal. destruct (cu_skip c).
  - destruct (cut x0a b) as [line [rest|]]; [|done]. destruct (parseWithCarry _ _ _ _). by destruct (_ <? _).
  - destruct (parseWithCarry _ _ _ _). by destruct (_ <? _).
Qed.

Section watch.
Context {W : Type} `{WW : Watch W} `{HW : Host W} `{LW : !WatchLaws W}.
Variables (cfg : ReferenceConfig) (h0 : W).

(** Tracking an ordinary file whose cursor follows [seen] and no longer lacks its carry; what was billed of [seen] is among [D]. *)
Definition tracks (seen : bytes) (D : list Candidate) (tf : trackedFile) : Prop :=
  tf_forwardBaseline tf = false /\ NeedsCarryDerivation (tf_cursor tf) = false /\ 0 <= cu_maxPartialLine (tf_cursor tf)
  /\ exists out, follows cfg h0 seen out (tf_cursor tf) /\ bill out `sublist_of` bill D.

Lemma tracks_grown seen D tf D' : tracks seen D tf -> tracks seen (D ++ D') tf.
Proof. intros (H1&H2&H3&out&Ho&Hb). do 3 (split; [done|]). exists out. split; [done|]. rewrite bill_app. by apply sublist_inserts_r. Qed.

Lemma tracks_observe seen D tf f : tracks seen D tf -> tracks seen D (observe_file f tf).
Proof. intros (H1&H2&H3&out&Ho&Hb). do 3 (split; [done|]). exists out. split; [by apply follows_observe|done]. Qed.

Lemma save_tracks seen D tf w ok o tf' w' : tracks seen D tf -> save tf w = (ok, o, tf', w') -> o = [] /\ tracks seen D tf' /\ cu_maxPartialLine (tf_cursor tf') = cu_maxPartialLine (tf_cursor tf).
Proof.
  intros (H1&H2&H3&out&Ho&Hb). unfold save. pose proof (saves_cursor (tf_cursor tf) w) as Hs. destruct (saveCursor (tf_cursor tf) w) as [[c|] w1]; intros [= <- <- <- <-]; [|split; [done|split; [|done]]; do 3 (split; [done|]); by exists out].
  cbn in Hs. destruct Hs as [n ->]. split; [done|]. split; [|done]. do 3 (split; [done|]). exists out. split; [by apply follows_saved|done].
Qed.

(** A commit of the bytes [b]. *)
Lemma commit_tracks seen D tf b (h : W) D' : tracks seen D tf -> short_lines (cu_maxPartialLine (tf_cursor tf)) (seen ++ b) -> bill (Ingest (tf_cursor tf) b cfg h).1.1 `sublist_of` bill D' ->
  tracks (seen ++ b) (D ++ D') (set_cursor ((Ingest (tf_cursor tf) b cfg h).1.2 (tf_cursor tf)) tf)
  /\ cu_maxPartialLine ((Ingest (tf_cursor tf) b cfg h).1.2 (tf_cursor tf)) = cu_maxPartialLine (tf_cursor tf).
Proof.
  intros (H1&H2&H3&out&Ho&Hb) Hs Hd. destruct (Ingest_follows cfg h0 seen out (tf_cursor tf) b h Ho H3 Hs) as [Hf Hm]. split; [|done]. split; [done|]. split; [cbn; by rewrite Ingest_known|]. split; [cbn; by rewrite Hm|].
  exists (out ++ (Ingest (tf_cursor tf) b cfg h).1.1). split; [done|]. rewrite !bill_app. by apply sublist_app.
Qed.

Lemma ingest_tracks f newBytes seen D tf w ok D' tf' w' : tracks seen D tf -> short_lines (cu_maxPartialLine (tf_cursor tf)) (seen ++ newBytes) ->
  ingest f newBytes cfg tf w = (ok, D', tf', w') ->
  exists b rest, newBytes = b ++ rest /\ tracks (seen ++ b) (D ++ D') tf' /\ cu_maxPartialLine (tf_cursor tf') = cu_maxPartialLine (tf_cursor tf) /\ (ok = true -> rest = []).
Proof.
  intros Ht Hs. unfold ingest. destruct (Ingest (tf_cursor tf) newBytes cfg w) as [[cands commit] w1] eqn:Ei.
  assert (Ec : cands = (Ingest (tf_cursor tf) newBytes cfg w).1.1) by (by rewrite Ei). assert (Ek : commit = (Ingest (tf_cursor tf) newBytes cfg w).1.2) by (by rewrite Ei).
  assert (Hall : forall Dn w2 ok2 o2 tf2 w3, bill cands `sublist_of` bill Dn -> save (observe_file f (set_cursor (commit (tf_cursor tf)) tf)) w2 = (ok2, o2, tf2, w3) ->
    o2 = [] /\ tracks (seen ++ newBytes) (D ++ Dn) tf2 /\ cu_maxPartialLine (tf_cursor tf2) = cu_maxPartialLine (tf_cursor tf)).
  { intros Dn w2 ok2 o2 tf2 w3 Hd Hsave. rewrite Ec in Hd. destruct (commit_tracks seen D tf newBytes w Dn Ht Hs Hd) as [Hc Hm]. rewrite <-Ek in Hc, Hm.
    apply (save_tracks (seen ++ newBytes) (D ++ Dn)) in Hsave as (?&?&Hm2); [|by apply tracks_observe]. cbn in Hm2. split; [done|]. split; [done|]. by rewrite Hm2. }
  destruct cands as [|c0 l] eqn:El.
  { intros Hsave. apply (Hall []) in Hsave as (->&Hk&Hm); [|done]. exists newBytes, []. rewrite app_nil_r. done. }
  rewrite <-El in *. clear El. pose proof (delivers_count (file_ref tf) cands w1) as Hn. destruct (deliverCandidates (file_ref tf) cands w1) as [[n dok] w2]. destruct Hn as [Hn Hn2]. destruct dok.
  { destruct (save _ w2) as [[[sok o] tf2] w3] eqn:Hsave. intros [= <- <- <- <-]. rewrite (Hn2 eq_refl). rewrite take_ge by (unfold zlen; lia). apply (Hall cands) in Hsave as (->&Hk&Hm); [|done]. rewrite app_nil_r.
    exists newBytes, []. rewrite app_nil_r. done. }
  destruct Ht as (F1&F2&F3&out&Ho&Hb). destruct (follows_clean _ _ _ _ _ Ho) as [Hskip Hclean]. rewrite Hskip. assert (Ht : tracks seen D tf) by (do 3 (split; [done|]); by exists out).
  destruct (deliveredLinePrefix cands n newBytes) as [p|] eqn:Ep; [|intros [= <- <- <- <-]; exists [], newBytes; rewrite app_nil_r; split; [done|]; split; [by apply tracks_grown|done]].
  rewrite Ec in Ep. destruct (prefix_delivered (tf_cursor tf) newBytes cfg w w2 n p Hskip Hclean Ep) as (a&q&Ha&Htake&Hd). rewrite Htake, <-Ec in *.
  destruct (Ingest (tf_cursor tf) a cfg w2) as [[c1 k1] w3] eqn:Ei2. destruct (commit_tracks seen D tf a w2 (take (Z.to_nat n) cands) Ht) as [Hc Hm].
  { rewrite Ha, app_assoc in Hs. by apply short_app in Hs. } { by rewrite Ei2. } rewrite Ei2 in Hc, Hm. cbn [fst snd] in Hc, Hm.
  destruct (save _ w3) as [[[sok o] tf2] w4] eqn:Hsave. intros [= <- <- <- <-]. apply (save_tracks (seen ++ a) (D ++ take (Z.to_nat n) cands)) in Hsave as (->&Hk&Hm2); [|by apply tracks_observe].
  exists a, q. rewrite app_nil_r. cbn in Hm2. split; [done|]. split; [done|]. split; [by rewrite Hm2|done].
Qed.

(** The open transcript is not settled by this poll. *)
Definition busy (o : openResult) (tf : trackedFile) (w : W) : Prop :=
  match o with OpenIs f => HasOpenUsage (tf_cursor tf) = false \/ nowNanos w - of_modNanos f < openUsageSettle | _ => True end.
(** The open file holds [data], and at least what was read of it before. *)
Definition sees (data : bytes) (tf : trackedFile) (o : openResult) : Prop :=
  match o with OpenIs f => of_data f = data /\ ReadOffset (tf_cursor tf) <= of_size f <= zlen data | _ => True end.

Lemma slice_prefix (seen data : bytes) n : seen `prefix_of` data -> (seen ++ slice (length seen) n data) `prefix_of` data.
Proof. intros [more ->]. unfold slice. rewrite drop_app_length. exists (drop n more). by rewrite <-app_assoc, take_drop. Qed.

Lemma drain_tracks chunk data seen D tf o w ok D' tf' w' : tracks seen D tf -> seen `prefix_of` data -> short_lines (cu_maxPartialLine (tf_cursor tf)) data -> sees data tf o -> busy o tf w ->
  drain chunk cfg o tf w = (ok, D', tf', w') ->
  exists seen', seen' `prefix_of` data /\ tracks seen' (D ++ D') tf' /\ cu_maxPartialLine (tf_cursor tf') = cu_maxPartialLine (tf_cursor tf)
    /\ (ok = true -> 0 < chunk -> match o with OpenIs f => zlen seen' = Z.max (zlen seen) (Z.min (of_size f) (zlen seen + chunk)) | _ => True end).
Proof.
  intros Ht Hpre Hshort Hsees Hbusy. assert (Hstay : forall ok2, (ok2, [], tf, w) = (ok, D', tf', w') -> (ok2 = true -> match o with OpenIs _ => False | _ => True end) ->
    exists seen', seen' `prefix_of` data /\ tracks seen' (D ++ D') tf' /\ cu_maxPartialLine (tf_cursor tf') = cu_maxPartialLine (tf_cursor tf)
      /\ (ok = true -> 0 < chunk -> match o with OpenIs f => zlen seen' = Z.max (zlen seen) (Z.min (of_size f) (zlen seen + chunk)) | _ => True end)).
  { intros ok2 [= <- <- <- <-] Hok. exists seen. rewrite app_nil_r. split; [done|]. split; [done|]. split; [done|]. intros E _. specialize (Hok E). by destruct o. }
  destruct o as [| |f]; [intros E; by apply (Hstay true E)|intros E; by apply (Hstay false E)|]. unfold drain, corroborateOffset. destruct Ht as (F1&F2&F3&out&Ho&Hb). rewrite F1. cbn [negb].
  assert (Ht : tracks seen D tf) by (do 3 (split; [done|]); by exists out). pose proof (follows_offset _ _ _ _ _ Ho) as Hoff. destruct Hsees as [Hdata Hsize]. cbn in Hbusy.
  assert (Hcorr : offsetInvalidated f (tf_cursor tf) (of_size f) = Some (false, tf_cursor tf) \/ offsetInvalidated f (tf_cursor tf) (of_size f) = None).
  { destruct (of_fails f) eqn:Ef; [|left; apply (grown_intact seen); [apply Ho|by rewrite Hdata|lia|done]]. unfold offsetInvalidated. destruct (Z.ltb_spec (of_size f) (ReadOffset (tf_cursor tf))); [lia|].
    destruct (_ <=? 0); [by left|]. destruct (Z.ltb_spec (of_size f) (cu_consumed (tf_cursor tf))); [unfold ReadOffset in *; pose proof (zlen_nonneg (cu_remainder (tf_cursor tf))); lia|].
    destruct (AnchorFingerprint _) as [hash alen]. unfold ReadAt. rewrite Ef. right. by destruct (_ <=? 0). }
  destruct Hcorr as [->| ->]; [|intros E; by apply (Hstay false E)]. cbn [fmap option_fmap option_map fst snd].
  assert (Eset : set_cursor (tf_cursor tf) tf = tf) by (by destruct tf). rewrite Eset. unfold recover, upgrade, and_then. rewrite F2. unfold read_tail. destruct (Z.leb_spec (of_size f) (ReadOffset (tf_cursor tf))).
  - unfold settleOpenUsage. assert (Hb2 : negb (HasOpenUsage (tf_cursor (observe_file f tf))) || (nowNanos w - of_modNanos f <? openUsageSettle) = true).
    { destruct Hbusy as [E|E]; [change (HasOpenUsage (tf_cursor (observe_file f tf))) with (HasOpenUsage (tf_cursor tf)); by rewrite E|]. rewrite (proj2 (Z.ltb_lt _ _) E). by rewrite orb_true_r. }
    rewrite Hb2. intros [= <- <- <- <-]. exists seen. cbn [app]. rewrite app_nil_r. split; [done|]. split; [by apply tracks_observe|]. split; [done|]. intros _ _. lia.
  - unfold ReadAt. destruct (of_fails f) eqn:Ef; [intros E; by apply (Hstay false E)|]. rewrite Hdata, Hoff. set (len := Z.min (of_size f - zlen seen) chunk).
    assert (Hsl : Z.to_nat (zlen seen) = length seen) by (unfold zlen; lia). rewrite Hsl. pose proof (slice_prefix seen data (Z.to_nat len) Hpre) as Hp.
    assert (Hlen : zlen (slice (length seen) (Z.to_nat len) data) = Z.max 0 len).
    { unfold slice, zlen. rewrite length_take, length_drop. unfold zlen in *. lia. }
    destruct (slice (length seen) (Z.to_nat len) data) as [|x l] eqn:Enew.
    { intros [= <- <- <- <-]. exists seen. cbn [app]. rewrite app_nil_r. split; [done|]. split; [done|]. split; [done|]. intros _ Hc. change (zlen []) with 0 in Hlen. lia. }
    destruct (ingest f (x :: l) cfg tf w) as [[[ok2 D2] tf2] w2] eqn:Ein. intros [= <- <- <- <-]. destruct (ingest_tracks f (x :: l) seen D tf w ok2 D2 tf2 w2 Ht) as (b&rest&Hbr&Hk&Hm&Hrest); [|done|].
    { destruct Hp as [more Hp]. rewrite Hp in Hshort. by apply short_app in Hshort. }
    rewrite Hbr, app_assoc in Hp. exists (seen ++ b). split; [by eapply prefix_app_l|]. cbn [app]. split; [done|]. split; [done|]. intros Eok Hc. rewrite (Hrest Eok), app_nil_r in Hbr. rewrite zlen_app, <-Hbr, Hlen. lia.
Qed.
End watch.

(** ** The watcher over the sink and the cursor's files *)

Record endpoint (V H : Type) : Type := mkEndpoint {
  ep_sessions : sessions;
  ep_daemon : V;
  ep_files : cursorFiles;
  ep_refs : H;
  ep_control : controlFile;
  ep_write : writeResult;    (** how writing it ends *)
  ep_now : Z;
}.
Arguments mkEndpoint {V H}. Arguments ep_sessions {V H}. Arguments ep_daemon {V H}. Arguments ep_files {V H}. Arguments ep_refs {V H}. Arguments ep_control {V H}. Arguments ep_write {V H}. Arguments ep_now {V H}.

Section endpoint.
Context {V H : Type} `{DV : Daemon V} `{HH : Host H}.
Variable cfg : sinkConfig.

#[export] Instance endpoint_host : Host (endpoint V H) := {
  AdmitRef e k id := let '(ok, h) := AdmitRef (ep_refs e) k id in (ok, mkEndpoint (ep_sessions e) (ep_daemon e) (ep_files e) h (ep_control e) (ep_write e) (ep_now e));
  CurrentMap e := let '(mp, h) := CurrentMap (ep_refs e) in (mp, mkEndpoint (ep_sessions e) (ep_daemon e) (ep_files e) h (ep_control e) (ep_write e) (ep_now e));
}.

#[export] Instance endpoint_watch : Watch (endpoint V H) := {
  deliverCandidates ref cands e :=
    let '(n, ok, m, v) := DeliverCandidatesPartial cfg ref cands (ep_sessions e) (ep_daemon e) in
    (n, ok, mkEndpoint m v (ep_files e) (ep_refs e) (ep_control e) (ep_write e) (ep_now e));
  saveCursor c e :=
    match Save c (ep_files e) with
    | None => (None, e)
    | Some (c, F) => (Some c, mkEndpoint (ep_sessions e) (ep_daemon e) F (ep_refs e) (ep_control e) (ep_write e) (ep_now e))
    end;
  writeControl c e :=
    (ep_write e, mkEndpoint (ep_sessions e) (ep_daemon e) (ep_files e) (ep_refs e)
       (match ep_write e with WriteFailed => ep_control e | _ => ControlHolds c end) (ep_write e) (ep_now e));
  nowNanos e := ep_now e;
}.

Lemma DeliverCandidatesPartial_count ref cands : forall m v,
  let '(n, ok, _, _) := DeliverCandidatesPartial cfg ref cands m v in 0 <= n <= zlen cands /\ (ok = true -> n = zlen cands).
Proof.
  induction cands as [|c l IH]; intros m v; cbn [DeliverCandidatesPartial]; [done|]. assert (Hz : zlen (c :: l) = 1 + zlen l) by (unfold zlen; cbn; lia). pose proof (zlen_nonneg l).
  destruct (deliverOne cfg ref c m v) as [[d m1] v1]. assert (Hrec : let '(n, ok, _, _) := (let '(n, ok, m, w) := DeliverCandidatesPartial cfg ref l m1 v1 in (1 + n, ok, m, w)) in 0 <= n <= zlen (c :: l) /\ (ok = true -> n = zlen (c :: l))).
  { specialize (IH m1 v1). destruct (DeliverCandidatesPartial cfg ref l m1 v1) as [[[n ok] m2] v2]. destruct IH as [H1 H2]. split; [lia|]. intros E. specialize (H2 E). lia. }
  destruct d; [exact Hrec|exact Hrec|]. split; [lia|done].
Qed.

(** All but the control file. *)
Definition but_control (e : endpoint V H) : sessions * V * cursorFiles * H * writeResult * Z := (ep_sessions e, ep_daemon e, ep_files e, ep_refs e, ep_write e, ep_now e).

#[export] Instance endpoint_laws : WatchLaws (endpoint V H).
Proof.
  refine {| apart e e' := but_control e = but_control e' |}.
  - by intros e.
  - by intros c c' e.
  - intros c [m v F h k r n] [m' v' F' h' k' r' n'] [= -> -> -> -> -> ->]. cbn. by destruct (Save c F') as [[c' F]|].
  - intros ref cands e. cbn. pose proof (DeliverCandidatesPartial_count ref cands (ep_sessions e) (ep_daemon e)) as Hn. by destruct (DeliverCandidatesPartial _ _ _ _ _) as [[[n ok] m] v].
  - intros c e. cbn. unfold Save. destruct (saveCounted c (cf_counted (ep_files e))) as [[counted sidecar]|]; [|done]. cbn. by exists counted.
Defined.
End endpoint.

(** ** Nothing is lost *)

Section polls.
Context {W : Type} `{WW : Watch W} `{HW : Host W} `{LW : !WatchLaws W}.
Variable cfg : ReferenceConfig.

(** Polls of a transcript that only grows, [D] delivered so far, each with whatever deliveries, saves and reads do. *)
Inductive polled (tf0 : trackedFile) : bytes -> list Candidate -> trackedFile -> Prop :=
  | polled_start data : polled tf0 data [] tf0
  | polled_grown data more D tf : polled tf0 data D tf -> polled tf0 (data ++ more) D tf
  | polled_drain data D tf chunk w o ok D' tf' w' : polled tf0 data D tf -> sees data tf o -> busy o tf w -> drain chunk cfg o tf w = (ok, D', tf', w') ->
      polled tf0 data (D ++ D') tf'.

Lemma polled_tracks h0 tf0 data D tf : tracks cfg h0 [] [] tf0 -> polled tf0 data D tf -> short_lines (cu_maxPartialLine (tf_cursor tf0)) data ->
  exists seen, seen `prefix_of` data /\ tracks cfg h0 seen D tf /\ cu_maxPartialLine (tf_cursor tf) = cu_maxPartialLine (tf_cursor tf0).
Proof.
  intros H0. induction 1 as [data|data more D tf _ IH|data D tf chunk w o ok D' tf' w' _ IH Hs Hb E]; intros Hshort.
  - exists []. split; [apply prefix_nil|done].
  - destruct (IH (short_app _ _ _ Hshort)) as (seen&Hp&Hr). exists seen. split; [by apply prefix_app_r|done].
  - destruct (IH Hshort) as (seen&Hp&Ht&Hm). rewrite <-Hm in Hshort. destruct (drain_tracks cfg h0 chunk data seen D tf o w ok D' tf' w' Ht Hp Hshort Hs Hb E) as (seen'&Hp'&Ht'&Hm'&_).
    exists seen'. split; [done|]. split; [done|]. by rewrite Hm'.
Qed.

(** C39: No record of a growing transcript is lost. Take one process's polls of a transcript tracked from its start, none of whose lines is longer than the
    bound, and none of whose open responses is settled by a quiet hour. However its polls fail, in deliveries part way through a read, in saves or in reads, and however the read is
    chunked: what one parse of the bytes before the cursor's read offset bills, its usage and its session starts, was delivered in that order, and the carry
    is that parse's, but for the ids already saved. And the next poll that ends without an error brings the offset to the file's end, or a chunk on. *)
Theorem no_loss scope dev ino size modNanos max root locator policy member data D tf h0 :
  let c0 := fresh_cursor scope dev ino size modNanos max in
  polled (mkTracked c0 root locator dev ino policy false member) data D tf -> short_lines (cu_maxPartialLine c0) data ->
  let seen := take (Z.to_nat (ReadOffset (tf_cursor tf))) data in
  let r := (parseWithCarry seen cfg no_carry h0).1 in
  0 <= ReadOffset (tf_cursor tf) <= zlen data /\ bill (px_Candidates r) `sublist_of` bill D /\ (exists u, older_carry u (cu_carry (tf_cursor tf)) = px_carry r)
  /\ forall chunk w f D' tf' w', sees data tf (OpenIs f) -> busy (OpenIs f) tf w -> drain chunk cfg (OpenIs f) tf w = (true, D', tf', w') -> 0 < chunk ->
     ReadOffset (tf_cursor tf') = Z.max (ReadOffset (tf_cursor tf)) (Z.min (of_size f) (ReadOffset (tf_cursor tf) + chunk)).
Proof.
  intros c0 Hp Hs. destruct (polled_tracks h0 (mkTracked c0 root locator dev ino policy false member) data D tf) as (seen&Hpre&Ht&Hm); [|exact Hp|exact Hs|].
  { split; [done|]. split; [done|]. split; [pose proof (fresh_max scope dev ino size modNanos max); cbn in *; lia|]. exists []. split; [apply fresh_follows|done]. }
  pose proof Ht as (F1&F2&F3&out&Ho&Hsub). pose proof (follows_offset cfg h0 seen out _ Ho) as Hoff. destruct Ho as [_ (u&Hbill&Hcarry&_)]. cbn [older_cursor with_carry cu_carry] in Hcarry.
  pose proof Hpre as [more Hd]. assert (Etake : take (Z.to_nat (ReadOffset (tf_cursor tf))) data = seen) by (rewrite Hoff, Hd; unfold zlen; by rewrite Nat2Z.id, take_app_length).
  rewrite Etake. cbv zeta. split; [rewrite Hoff, Hd, zlen_app; pose proof (zlen_nonneg seen); pose proof (zlen_nonneg more); lia|]. split; [by rewrite <-Hbill|]. split; [by exists u|].
  intros chunk w f D' tf' w' Hsees Hbusy E Hc. assert (Hs' : short_lines (cu_maxPartialLine (tf_cursor tf)) data) by (rewrite Hm; exact Hs).
  destruct (drain_tracks cfg h0 chunk data seen D tf (OpenIs f) w true D' tf' w' Ht Hpre Hs' Hsees Hbusy E) as (seen'&_&(_&_&_&out'&Ho'&_)&_&Hprog).
  rewrite (follows_offset cfg h0 seen' out' _ Ho'), Hoff. by apply Hprog.
Qed.
End polls.

(** A daemon that appends or refuses as told. *)
#[local] Instance wire_daemon : Daemon (list bool) := {
  CaptureObservation _ w := match w with true :: w => (Some 1, w) | _ :: w => (None, w) | [] => (None, []) end;
  sessionRun _ := None;
  now _ := demo_time;
}.
Definition demo_tail_sink : sinkConfig := mkSinkConfig demo_policy (str "claude") (str "1") (str "1").
#[local] Instance demo_watch : Watch (endpoint (list bool) unit) := endpoint_watch demo_tail_sink.
#[local] Instance demo_watch_laws : WatchLaws (endpoint (list bool) unit) := endpoint_laws demo_tail_sink.

Definition demo_tracked : trackedFile := mkTracked demo_cursor (str "/r") (str "a.jsonl") 1 2 None false false.
Definition demo_file : openFile := mkOpenFile (zlen demo_stream) 5 demo_stream false.
Definition demo_world (wire : list bool) : endpoint (list bool) unit := mkEndpoint ∅ wire (mkFiles Absent Absent) tt ControlAbsent WriteDone 5.

(** Delivery fails at the second line: the first is committed; then the rest is delivered. *)
Definition demo_poll1 := drain DefaultMaxReadChunk demo_refs (OpenIs demo_file) demo_tracked (demo_world [true; false]).
Definition demo_poll2 := drain DefaultMaxReadChunk demo_refs (OpenIs demo_file) demo_poll1.1.2 (demo_world (replicate 9 true)).

Example two_polls :
  (demo_poll1.1.1.1, map (fun c => (is_lifecycle c, ca_LineNumber c)) demo_poll1.1.1.2, ReadOffset (tf_cursor demo_poll1.1.2)) = (false, [(true, 1)], 186)
  /\ (demo_poll2.1.1.1, counted_ids demo_poll2.1.1.2, ReadOffset (tf_cursor demo_poll2.1.2)) = (true, [str "m1"], zlen demo_stream).
Proof. split; vm_compute; reflexivity. Qed.

Lemma demo_poll_eq o tf (w : endpoint (list bool) unit) : let r := drain DefaultMaxReadChunk demo_refs o tf w in drain DefaultMaxReadChunk demo_refs o tf w = (r.1.1.1, r.1.1.2, r.1.2, r.2).
Proof. cbv zeta. by destruct (drain _ _ _ _ _) as [[[? ?] ?] ?]. Qed.

Lemma no_loss_witness :
  bill (px_Candidates (parseWithCarry (take 756 demo_stream) demo_refs no_carry (demo_world [])).1) `sublist_of` bill (([] ++ demo_poll1.1.1.2) ++ demo_poll2.1.1.2).
Proof.
  assert (Hp : polled demo_refs demo_tracked demo_stream (([] ++ demo_poll1.1.1.2) ++ demo_poll2.1.1.2) demo_poll2.1.2).
  { refine (polled_drain demo_refs demo_tracked demo_stream _ _ _ _ _ _ _ _ _ (polled_drain demo_refs demo_tracked demo_stream [] _ _ _ _ _ _ _ _ (polled_start demo_refs demo_tracked demo_stream) _ _
      (demo_poll_eq (OpenIs demo_file) demo_tracked (demo_world [true; false]))) _ _ (demo_poll_eq (OpenIs demo_file) demo_poll1.1.2 (demo_world (replicate 9 true)))).
    - split; [reflexivity|vm_compute; split; discriminate].
    - left. vm_compute. reflexivity.
    - split; [reflexivity|vm_compute; split; discriminate].
    - right. vm_compute. reflexivity. }
  destruct (no_loss demo_refs [] 1 2 0 0 0 (str "/r") (str "a.jsonl") None false demo_stream _ _ (demo_world []) Hp) as (_&H2&_); [apply short_total; vm_compute; discriminate|].
  assert (Ho : ReadOffset (tf_cursor demo_poll2.1.2) = 756) by (vm_compute; reflexivity). rewrite Ho in H2. exact H2.
Defined.

(** ** Below the floor *)

(** Trackings that differ in the floors and fences kept only. *)
Definition alike (a b : trackedFile) : Prop :=
  tf_cursor a = tf_cursor b /\ tf_root a = tf_root b /\ tf_locator a = tf_locator b /\ tf_dev a = tf_dev b /\ tf_ino a = tf_ino b
  /\ tf_forwardBaseline a = tf_forwardBaseline b /\ tf_member a = tf_member b /\ rs_record <$> tf_policy a = rs_record <$> tf_policy b.

Lemma alike_ref a b : alike a b -> file_ref a = file_ref b.
Proof.
  intros (_&H1&H2&H3&H4&_&H5&H6). unfold file_ref, consentRoot. rewrite H1, H2, H3, H4, H5. f_equal. destruct (tf_policy a), (tf_policy b); try done. injection H6 as ->. done.
Qed.

Lemma alike_cursor a b c : alike a b -> alike (set_cursor c a) (set_cursor c b).
Proof. intros (_&H). by split. Qed.

Section private.
Context {W : Type} `{WW : Watch W} `{HW : Host W} `{LW : !WatchLaws W}.

(** Outcomes that agree on the error, what was delivered, the cursor and the world but for the control files. *)
Definition same_outcome (r s : outcome (W := W)) : Prop := r.1.1.1 = s.1.1.1 /\ r.1.1.2 = s.1.1.2 /\ alike r.1.2 s.1.2 /\ apart r.2 s.2.

Lemma same_refl r : same_outcome r r.
Proof. split; [done|]. split; [done|]. split; [by repeat split|reflexivity]. Qed.

(** Two versions of a file that agree above the floor. *)
Record agree_above (floor : Z) (f g : openFile) : Prop := {
  ab_size : of_size f = of_size g;
  ab_mod : of_modNanos f = of_modNanos g;
  ab_fails : of_fails f = of_fails g;
  ab_length : length (of_data f) = length (of_data g);
  ab_above : drop (Z.to_nat floor) (of_data f) = drop (Z.to_nat floor) (of_data g);
}.

Lemma slice_above floor f g off n : agree_above floor f g -> floor <= off -> slice (Z.to_nat off) n (of_data f) = slice (Z.to_nat off) n (of_data g).
Proof.
  intros Ha Ho. unfold slice. replace (Z.to_nat off) with (Z.to_nat floor + (Z.to_nat off - Z.to_nat floor))%nat by lia. by rewrite <-!drop_drop, (ab_above _ _ _ Ha).
Qed.

Lemma observe_above floor f g tf : agree_above floor f g -> observe_file f tf = observe_file g tf.
Proof. intros Hf. unfold observe_file. by rewrite (ab_size _ _ _ Hf), (ab_mod _ _ _ Hf). Qed.

Lemma read_tail_same floor f g chunk cfg a w : agree_above floor f g -> floor <= ReadOffset (tf_cursor a) -> read_tail f chunk cfg a w = read_tail g chunk cfg a w.
Proof.
  intros Hf Ho. unfold read_tail, ReadAt, ingest. rewrite (ab_size _ _ _ Hf), (ab_mod _ _ _ Hf), (ab_fails _ _ _ Hf), (slice_above floor f g _ _ Hf Ho).
  assert (Hobs : observe_file f = observe_file g) by (unfold observe_file; by rewrite (ab_size _ _ _ Hf), (ab_mod _ _ _ Hf)). by rewrite Hobs.
Qed.

Lemma window_shape floor f g : of_fails f = of_fails g -> length (of_data f) = length (of_data g) ->
  match readFloorWindow f floor, readFloorWindow g floor with
  | Some (Some a), Some (Some b) => length a = length b
  | Some None, Some None | None, None => True
  | _, _ => False
  end.
Proof.
  intros Hf Hl. unfold readFloorWindow. destruct (_ <=? 0); [done|]. unfold ReadAt. rewrite Hf. destruct (of_fails g); [done|]. set (n := Z.min _ _). set (k := Z.to_nat (floor - n)).
  assert (He : length (slice k (Z.to_nat n) (of_data f)) = length (slice k (Z.to_nat n) (of_data g))) by (unfold slice; by rewrite !length_take, !length_drop, Hl). unfold zlen. rewrite He. by destruct (_ <? n).
Qed.

Lemma setLineage_record loc d i b s : rs_record (setLineage loc d i b s) = rs_record s.
Proof. unfold setLineage. case_bool_decide; [done|]. destruct (reconcileLineage _ _ _ _ _); [|done]. by destruct (_ && _). Qed.

(** Sealing again at the end: alike, and the very same when the windows there have one hash. *)
Lemma resealFloor_same f g eof a w : of_fails f = of_fails g -> length (of_data f) = length (of_data g) ->
  same_outcome (resealFloor f eof a w) (resealFloor g eof a w)
  /\ ((forall x y, readFloorWindow f eof = Some (Some x) -> readFloorWindow g eof = Some (Some y) -> hashBytes x = hashBytes y) -> resealFloor f eof a w = resealFloor g eof a w).
Proof.
  intros Hf Hl. unfold resealFloor. destruct (tf_policy a) as [p|] eqn:Ep; [|split; [apply same_refl|done]]. pose proof (window_shape eof f g Hf Hl) as Hw.
  destruct (readFloorWindow f eof) as [[wa|]|], (readFloorWindow g eof) as [[wb|]|]; try done; try (split; [apply same_refl|done]). cbv zeta. split.
  2:{ intros Hh. unfold zlen. by rewrite (Hh wa wb eq_refl eq_refl), Hw. }
  set (q := setBaseline _ _ _ (mkBaseline eof (hashBytes wa) _) p). set (q' := setBaseline _ _ _ (mkBaseline eof (hashBytes wb) _) p).
  assert (Hq : rs_record q = rs_record q') by (unfold q, q'; cbn; by rewrite !setLineage_record).
  destruct (writes_control (rs_control q) (rs_control q') w) as [Hr Ha]. destruct (writeControl (rs_control q) w) as [res w1], (writeControl (rs_control q') w) as [res' w1'].
  cbn in Hr, Ha. subst res'. destruct res; (split; [done|]; split; [done|]; split; [|done]); unfold alike; do 7 (split; [done|]); cbn; f_equal; exact Hq.
Qed.

Lemma DeriveCarry_position data readable c c' : DeriveCarry data readable c = Some c' -> ReadOffset c' = ReadOffset c.
Proof.
  unfold DeriveCarry. destruct (negb _); [by intros [= <-]|]. destruct (foldUpgradeCarry _ _ _ _) as [u|]; [|done]. intros [= <-]. destruct (cu_sessionKnown c); by destruct (_ && _).
Qed.

(** The rest of a poll of a file sealed at its floor. *)
Lemma finish_sealed f g chunk cfg t p base w : tf_forwardBaseline t = true -> tf_policy t = Some p -> baseline (tf_dev t) (tf_ino t) p = Some base ->
  0 <= bl_Floor base <= cu_consumed (tf_cursor t) -> agree_above (bl_Floor base) f g ->
  and_then (upgrade f t w) (fun tf w => read_tail f chunk cfg tf w) = and_then (upgrade g t w) (fun tf w => read_tail g chunk cfg tf w).
Proof.
  intros Hfb Hp Hb Hfloor Hf. assert (Hd : deriveUpgradeCarry f t = deriveUpgradeCarry g t).
  { unfold deriveUpgradeCarry. rewrite Hfb, Hp, Hb. destruct (_ <=? _); [done|]. rewrite (slice_above (bl_Floor base) f g) by (done || lia). by rewrite (ab_fails _ _ _ Hf). }
  assert (Hoff : bl_Floor base <= ReadOffset (tf_cursor t)) by (unfold ReadOffset; pose proof (zlen_nonneg (cu_remainder (tf_cursor t))); lia).
  unfold upgrade. destruct (NeedsCarryDerivation (tf_cursor t)); [|cbn [and_then]; by rewrite (read_tail_same (bl_Floor base) f g chunk cfg t w Hf Hoff)].
  rewrite <-Hd. destruct (deriveUpgradeCarry f t) as [t1|] eqn:Ed; [|done].
  assert (Ht1 : ReadOffset (tf_cursor t1) = ReadOffset (tf_cursor t)).
  { unfold deriveUpgradeCarry in Ed. rewrite Hfb, Hp, Hb in Ed. destruct (_ <=? _); [by injection Ed as <-|]. destruct (DeriveCarry _ _ _) as [c|] eqn:Ec; [|done]. injection Ed as <-. by apply DeriveCarry_position in Ec. }
  unfold save. pose proof (saves_cursor (tf_cursor t1) w) as Hs. destruct (saveCursor (tf_cursor t1) w) as [[c|] w1]; cbn [and_then]; [|done]. cbn in Hs. destruct Hs as [n ->].
  rewrite (read_tail_same (bl_Floor base) f g chunk cfg (set_cursor (saved n (tf_cursor t1)) t1) w1 Hf); [done|]. by rewrite <-Ht1 in Hoff.
Qed.

(** A diverged file, sealed again at its end. *)
Definition reseal (f : openFile) (tf : trackedFile) (w : W) : outcome :=
  and_then (resealFloor f (of_size f) (set_cursor (SealAt (of_size f) (tf_cursor tf)) tf) w) save.

Lemma resealFloor_cursor f eof a w : tf_cursor (resealFloor f eof a w).1.2 = tf_cursor a.
Proof.
  unfold resealFloor. destruct (tf_policy a); [|done]. destruct (readFloorWindow f eof) as [win|]; [|done]. cbv zeta. destruct (writeControl _ w) as [res w1]. by destruct res.
Qed.

(** At its end, with nothing to derive and no response open. *)
Definition at_the_end (f : openFile) (c : Cursor) : Prop := NeedsCarryDerivation c = false /\ of_size f <= ReadOffset c /\ HasOpenUsage c = false.

Lemma SealAt_end f c : at_the_end f (SealAt (of_size f) c).
Proof. split; [done|]. split; [|done]. unfold ReadOffset. cbn. change (zlen []) with 0. destruct (Z.ltb_spec (of_size f) 0); lia. Qed.

Lemma reseal_end f a w : at_the_end f (tf_cursor (reseal f a w).1.2).
Proof.
  unfold reseal. pose proof (resealFloor_cursor f (of_size f) (set_cursor (SealAt (of_size f) (tf_cursor a)) a) w) as Hc. destruct (resealFloor _ _ _ w) as [[[ok o] t] w1]. cbn [fst snd] in Hc. cbn [set_cursor tf_cursor] in Hc.
  unfold and_then. destruct ok; [|cbn [fst snd]; rewrite Hc; apply SealAt_end]. unfold save. pose proof (saves_cursor (tf_cursor t) w1) as Hs. destruct (saveCursor (tf_cursor t) w1) as [[c|] w2]; cbn [fst snd tf_cursor set_cursor] in *.
  - destruct Hs as [n ->]. rewrite Hc. apply (SealAt_end f (tf_cursor a)).
  - rewrite Hc. apply SealAt_end.
Qed.

(** There a poll has nothing left to do. *)
Lemma finish_end f chunk cfg t w : at_the_end f (tf_cursor t) -> and_then (upgrade f t w) (fun tf w => read_tail f chunk cfg tf w) = (true, [], observe_file f t, w).
Proof.
  intros (Hn&Ho&Hu). unfold upgrade, and_then, read_tail, settleOpenUsage. rewrite Hn, (proj2 (Z.leb_le _ _) Ho).
  change (HasOpenUsage (tf_cursor (observe_file f t))) with (HasOpenUsage (tf_cursor t)). by rewrite Hu.
Qed.

Lemma reseal_same floor f g a w : agree_above floor f g ->
  same_outcome (reseal f a w) (reseal g a w)
  /\ ((forall x y, readFloorWindow f (of_size f) = Some (Some x) -> readFloorWindow g (of_size g) = Some (Some y) -> hashBytes x = hashBytes y) -> reseal f a w = reseal g a w).
Proof.
  intros Hf. unfold reseal. rewrite (ab_size _ _ _ Hf). set (t := set_cursor _ a). destruct (resealFloor_same f g (of_size g) t w (ab_fails _ _ _ Hf) (ab_length _ _ _ Hf)) as [Hs He].
  split; [|by intros Hh; rewrite He]. clear He. destruct (resealFloor f _ t w) as [[[ok o] u] w1], (resealFloor g _ t w) as [[[ok' o'] u'] w1']. destruct Hs as (K1&K2&K3&K4). cbn in K1, K2, K3, K4.
  subst ok' o'. unfold and_then. destruct ok; [|done]. unfold save. pose proof K3 as (Hc&_). rewrite Hc. destruct (saves_apart (tf_cursor u') w1 w1' K4) as [E1 E2].
  destruct (saveCursor (tf_cursor u') w1) as [c v], (saveCursor (tf_cursor u') w1') as [c' v']. cbn in E1, E2. subst c'. destruct c as [c|]; [|done].
  split; [done|]. split; [done|]. split; [by apply alike_cursor|done].
Qed.

Lemma resealed_same floor f g d chunk cfg t w : tf_forwardBaseline t = true -> agree_above floor f g -> d <> sealIntact ->
  let poll h := and_then (recover h d t w) (fun tf w => and_then (upgrade h tf w) (fun tf w => read_tail h chunk cfg tf w)) in
  same_outcome (poll f) (poll g)
  /\ ((forall x y, readFloorWindow f (of_size f) = Some (Some x) -> readFloorWindow g (of_size g) = Some (Some y) -> hashBytes x = hashBytes y) -> poll f = poll g).
Proof.
  intros Hfb Hf Hd poll. assert (Hrec : forall h, recover h d t w = and_then (deliver [divergenceDiagnostic d (ReadOffset (tf_cursor t)) (of_size h)] t w) (reseal h)).
  { intros h. destruct d; [done|..]; cbn [recover]; unfold deliver; destruct (deliverCandidates _ _ w) as [[n ok] w1]; (destruct ok; cbn [and_then]; [by rewrite Hfb|done]). }
  unfold poll. rewrite !Hrec, (ab_size _ _ _ Hf). set (diag := divergenceDiagnostic _ _ _). unfold deliver. destruct (deliverCandidates (file_ref t) [diag] w) as [[n ok] w1].
  destruct ok; [|split; [apply same_refl|done]]. cbn [and_then]. destruct (reseal_same floor f g t w1 Hf) as [Hs He]. rewrite (ab_size _ _ _ Hf) in He.
  pose proof (reseal_end f t w1) as Ef. pose proof (reseal_end g t w1) as Eg. destruct (reseal f t w1) as [[[x o] a] v], (reseal g t w1) as [[[x' o'] b] v']. cbn [fst snd] in Ef, Eg.
  destruct Hs as (K1&K2&K3&K4). cbn in K1, K2, K3, K4. subst x' o'. destruct x; [|split; [done|intros Hh; specialize (He Hh); by injection He as -> ->]].
  cbn [and_then]. rewrite (finish_end f chunk cfg a v Ef), (finish_end g chunk cfg b v' Eg), (observe_above floor f g a Hf). split.
  - split; [done|]. split; [done|]. split; [|done]. pose proof K3 as (Hc&_). unfold observe_file. rewrite Hc. by apply alike_cursor.
  - intros Hh. specialize (He Hh). by injection He as -> ->.
Qed.

(** What corroboration leaves of a sealed file's tracking. *)
Lemma corroborate_sealed f tf p base d t : tf_forwardBaseline tf = true -> tf_policy tf = Some p -> baseline (tf_dev tf) (tf_ino tf) p = Some base -> corroborateOffset f tf = Some (d, t) ->
  tf_forwardBaseline t = true /\ tf_cursor t = tf_cursor tf /\ exists p' base', tf_policy t = Some p' /\ baseline (tf_dev t) (tf_ino t) p' = Some base' /\ bl_Floor base' = bl_Floor base.
Proof.
  intros Hfb Hp Hb. unfold corroborateOffset. rewrite Hfb, Hp, Hb. cbn [negb]. assert (Hsame : forall e, Some (e, tf) = Some (d, t) -> tf_forwardBaseline t = true /\ tf_cursor t = tf_cursor tf
    /\ exists p' base', tf_policy t = Some p' /\ baseline (tf_dev t) (tf_ino t) p' = Some base' /\ bl_Floor base' = bl_Floor base) by (intros e [= _ <-]; split; [done|]; split; [done|]; by exists p, base).
  destruct (_ <? _); [apply Hsame|]. destruct (_ <=? 0); [apply Hsame|]. destruct (readFloorWindow f _) as [[win|]|]; [|apply Hsame|done]. destruct (negb (hasFingerprint base)); [|destruct (_ || _); apply Hsame].
  intros [= _ <-]. split; [done|]. split; [done|]. set (r := mkBaseline _ _ _). exists (setBaseline (tf_locator tf) (tf_dev tf) (tf_ino tf) r p), r. split; [done|]. split; [|done].
  unfold baseline in *. unfold setBaseline. cbn [set_policy tf_dev tf_ino]. set (q := with_baselines _ p). cbn [set_dirty with_control rs_control rs_record].
  assert (Hq : rc_Committed (rs_control (setLineage (tf_locator tf) (tf_dev tf) (tf_ino tf) r q)) = rc_Committed (rs_control q) /\ rs_record (setLineage (tf_locator tf) (tf_dev tf) (tf_ino tf) r q) = rs_record q
    /\ rc_Baselines (rs_control (setLineage (tf_locator tf) (tf_dev tf) (tf_ino tf) r q)) = rc_Baselines (rs_control q)).
  { unfold setLineage. destruct (bool_decide (tf_locator tf = [])); [done|]. destruct (reconcileLineage _ _ _ _ _); [|done]. by destruct (_ && _). }
  destruct Hq as (->&->&->). subst q. cbn. destruct (_ || _); [done|]. by rewrite lookup_insert_eq.
Qed.

(** C40: What lies below a sealed floor stays unread. Two versions of a sealed transcript with the same stat and the same bytes from the floor on, whose windows at
    the floor have one hash, are polled alike, whatever differs below: the same error, the same candidates delivered, the same cursor, the same effect on
    the sink and the cursor's files. The floors and fences kept, and the control file they are written to, are the same too, unless the poll finds the file
    diverged, seals it again at its end, and the windows there (which may reach below the floor) have different hashes. So nothing delivered depends on the
    bytes that were there before the consent. *)
Theorem sealed_prefix_private chunk cfg f g tf p base w :
  tf_forwardBaseline tf = true -> tf_policy tf = Some p -> baseline (tf_dev tf) (tf_ino tf) p = Some base -> 0 <= bl_Floor base <= cu_consumed (tf_cursor tf) ->
  agree_above (bl_Floor base) f g ->
  (forall a b, readFloorWindow f (bl_Floor base) = Some (Some a) -> readFloorWindow g (bl_Floor base) = Some (Some b) -> hashBytes a = hashBytes b) ->
  same_outcome (drain chunk cfg (OpenIs f) tf w) (drain chunk cfg (OpenIs g) tf w)
  /\ ((exists t, corroborateOffset f tf = Some (sealIntact, t))
      \/ (forall a b, readFloorWindow f (of_size f) = Some (Some a) -> readFloorWindow g (of_size g) = Some (Some b) -> hashBytes a = hashBytes b) ->
      drain chunk cfg (OpenIs f) tf w = drain chunk cfg (OpenIs g) tf w).
Proof.
  intros Hfb Hp Hb Hfloor Hf Hhash. unfold drain. assert (Hcorr : corroborateOffset f tf = corroborateOffset g tf).
  { unfold corroborateOffset. rewrite Hfb, Hp, Hb, (ab_size _ _ _ Hf). cbn [negb]. destruct (_ <? _); [done|]. destruct (_ <=? 0); [done|].
    pose proof (window_shape (bl_Floor base) f g (ab_fails _ _ _ Hf) (ab_length _ _ _ Hf)) as Hw. destruct (readFloorWindow f _) as [[wa|]|], (readFloorWindow g _) as [[wb|]|]; try done.
    rewrite (Hhash wa wb eq_refl eq_refl). unfold zlen. by rewrite Hw. }
  rewrite <-Hcorr. destruct (corroborateOffset f tf) as [[d t]|] eqn:Ec; [|split; [apply same_refl|done]].
  destruct (corroborate_sealed f tf p base d t Hfb Hp Hb Ec) as (Ht&Hc&p'&base'&Hp'&Hb'&Hfl). rewrite <-Hc, <-Hfl in Hfloor. rewrite <-Hfl in Hf.
  destruct (decide (d = sealIntact)) as [->|Hd].
  - cbn [recover and_then]. rewrite (finish_sealed f g chunk cfg t p' base' w Ht Hp' Hb' Hfloor Hf). split; [apply same_refl|done].
  - destruct (resealed_same (bl_Floor base') f g d chunk cfg t w Ht Hf Hd) as [Hs He]. split; [exact Hs|]. intros [[u [= -> _]]|Hh]; [done|by apply He].
Qed.
End private.

(** ** A sealed file whose history was edited *)

Definition demo_sealed_root : rootPolicyState :=
  setBaseline (str "a.jsonl") 1 2 (mkBaseline 186 0 0)
    (set_committed (mkRootState (mkRecord (str "/r") 3 true ForwardOnly Transcripts) (new_control (mkRecord (str "/r") 3 true ForwardOnly Transcripts)) false ∅ ∅ ControlAbsent)).
Definition demo_sealed : trackedFile := mkTracked (SealAt 186 demo_cursor) (str "/r") (str "a.jsonl") 1 2 (Some demo_sealed_root) true false.
Definition demo_edited : openFile := mkOpenFile (zlen demo_stream) 5 (replicate 20 x41 ++ drop 20 demo_stream) false.

Lemma sealed_prefix_private_witness :
  let poll f := drain DefaultMaxReadChunk demo_refs (OpenIs f) demo_sealed (demo_world (replicate 9 true)) in
  of_data demo_file <> of_data demo_edited /\ (poll demo_file).1.1.2 = (poll demo_edited).1.1.2 /\ counted_ids (poll demo_file).1.1.2 = [str "m1"].
Proof.
  cbv zeta. split; [vm_compute; discriminate|]. split; [|vm_compute; reflexivity].
  refine (proj1 (proj2 (proj1 (sealed_prefix_private DefaultMaxReadChunk demo_refs demo_file demo_edited demo_sealed demo_sealed_root (mkBaseline 186 0 0) (demo_world (replicate 9 true)) eq_refl eq_refl _ _ _ _)))).
  - vm_compute. reflexivity.
  - vm_compute. split; discriminate.
  - split; vm_compute; reflexivity.
  - assert (H1 : readFloorWindow demo_file 186 = readFloorWindow demo_edited 186) by (vm_compute; reflexivity). cbn [bl_Floor]. rewrite H1. intros a b Ha Hb. rewrite Ha in Hb. injection Hb as ->. reflexivity.
Defined.
